(* ===== verification/_CoqProject ===== *)
-Q . S2P
Prelude.v
Bytes.v
BTreeMap.v
DecStr.v
Bencode.v
BencodeTotal.v
BencodeRoundtrip.v
BencodeAccess.v
Convert.v
Sha.v
Trans.v
Send.v
Contiguous.v
Node.v
Bucket.v
Table.v
TableProofs.v
Closest.v
Storage.v
Token.v
Transaction.v
Compact.v
Security.v
Fs.v
Metainfo.v
MetainfoHasher.v
MetainfoHasherProofs.v
MetainfoBuild.v
MetainfoProofs.v
PieceAccess.v
PieceCheck.v
PieceMerge.v
PieceInit.v
DiskTasks.v
DiskProofs.v
DiskManager.v
Nom.v
WriteBytes.v
UtContact.v
UtOption.v
UtAnnounce.v
UtScrape.v
UtMessage.v
HsMessage.v
HsFramed.v
HsFilter.v
Umio.v
UtServer.v
UtClient.v
UtClientProofs.v
UtClientRuns.v
PeerMessage.v
PeerExtended.v
PeerWire.v
PeerProofs.v
PeerRuns.v
DhtMessage.v
DhtMessageProofs.v
DhtBootstrap.v
DhtLookup.v
DhtHandler.v
DhtSpec.v
DhtLookupProofs.v
DhtHandlerProofs.v
DhtRuns.v
SelBase.v
SelMetadata.v
SelMetadataProofs.v
SelDownload.v
SelExchange.v
SelHonest.v
SelHonestProofs.v
SelUber.v
SelUberProofs.v
SelLearn.v
PmBase.v
PmManager.v
PmProofs.v
PmRuns.v
Magnet.v
