(* ===== verification/Prelude.v ===== *)
(** * A verification library for RustBT (bip-rs)

    RustBT is a collection of BitTorrent crates.  This library translates them
    into Gallina, file by file, and proves what makes each part correct.

    ** Parts and files

    - [bip_bencode] (bencode values): [BTreeMap] and [DecStr] are the parts of
      [std] it uses, [Bencode] the decoder and the encoder ([reference/],
      [mutable/]), [BencodeAccess] the access traits, checked conversions and
      macros; [BencodeTotal] and [BencodeRoundtrip] hold the proofs.
    - [bip_util]: [Bytes] and [Convert] (byte order), [Sha] (hashes, xor
      distance, bits), [Trans] (transaction ids, shuffling), [Send] (shared
      capacity of a channel), [Contiguous] (several buffers as one).
    - [bip_dht]: [Node], [Bucket], [Table], [TableProofs] and [Closest] (the
      routing table), [Storage], [Token], [Transaction], [Compact], [Security];
      [DhtMessage] (KRPC messages, [message/]), [DhtBootstrap] (tasks, routers
      and the world of the worker, and bootstraps), [DhtLookup] and [DhtHandler]
      ([worker/]); [DhtMessageProofs], [DhtSpec], [DhtLookupProofs],
      [DhtHandlerProofs] and [DhtRuns].
    - [bip_metainfo]: [Metainfo] (records and their parsing: [parse.rs],
      [metainfo.rs]), [MetainfoHasher] ([builder/buffer.rs],
      [builder/worker.rs]), [MetainfoBuild] ([builder/mod.rs],
      [accessor.rs]); [MetainfoHasherProofs] and [MetainfoProofs].
    - [bip_disk]: [Fs] (the file system trait and the handle cache),
      [PieceAccess], [PieceCheck], [PieceMerge] and [PieceInit] (blocks, pending
      pieces, the initial check), [DiskTasks] (context and tasks), [DiskManager]
      (sink and stream); [DiskProofs].
    - [bip_utracker]: [UtContact], [UtOption], [UtAnnounce], [UtScrape],
      [UtMessage] (messages), [UtServer] and [UtClient] (dispatchers);
      [UtClientProofs] and [UtClientRuns].
    - [bip_handshake]: [HsMessage], [HsFramed] (framing on a socket), [HsFilter]
      (filters and the handlers of both sides).
    - [bip_peer]: [PeerMessage] (the messages of the base protocol),
      [PeerExtended] (the extended handshake and metadata messages), [PeerWire]
      (the protocol traits, the parser and the codec); [PeerProofs] and
      [PeerRuns].  Its manager: [PmBase] (configuration, timer, streams with
      timeouts: [manager/builder.rs], [manager/future/]) and [PmManager] (the
      task of a peer, the sink and the stream: [manager/task.rs],
      [manager/mod.rs]); [PmProofs] and [PmRuns].
    - [bip_select]: [SelBase] (peers, messages and tasks), [SelMetadata]
      ([discovery/ut_metadata.rs]), [SelHonest] ([revelation/honest.rs]) and
      [SelUber] ([extended/mod.rs], [uber.rs]); [SelMetadataProofs],
      [SelDownload] and [SelExchange] for the metadata module,
      [SelHonestProofs], [SelUberProofs] and [SelLearn] for the others.
    - [bip_magnet]: [Magnet].
    - Shared by them: this file, [Nom] (parser combinators), [WriteBytes]
      (writers), [Umio] (the event loop).

    The disk manager works on the torrents that [Metainfo] reads, which it
    reads with [BencodeAccess] from what [Bencode] decodes; the trackers parse
    with [Nom] and run on [Umio]; the routing table orders nodes by the distance
    of [Sha].  The handler of the DHT parses datagrams with [DhtMessage] and runs
    its refresh, bootstrap and searches on the table of [Table], with the ids of
    [Transaction], the tokens of [Token] and the contacts of [Storage].  The
    module of modules of [SelUber] hands messages to discovery modules known by
    the class [DiscoveryModule], whose contract [DiscoveryContract] the metadata
    module of [SelMetadata] meets; that module reads what it downloads with
    [Metainfo] and speaks the messages of [PeerExtended].

    ** How code is translated

    A function is a definition with its name (a method may carry its type in
    front).  A [struct] is a record, an [enum] an inductive type.  A call
    returns an [outcome]: [Ok], [Err], [Panic], or [NoFuel] when a bounded
    recursion is cut.  Code that works on a shared world is in the monad
    [stM].  Threads (split senders, the disk manager, the hashing of pieces, the
    tracker client with its network, the tasks of the peer manager) are step
    relations in which every interleaving is possible.  Bytes are [list byte]; a machine word is an
    integer with its casts written out, or a natural number where the code only
    adds sizes.  The body of a loop that is a definition of its own is part of
    the function that holds the loop.

    Clock readings, random numbers and the order in which a hash map is walked
    are arguments.  Other crates ([chrono], SHA-1, [lru-cache], [nom],
    [byteorder], [umio], [mio], the sockets of [tokio], the tasks of [futures],
    [tokio_timer], [bit-set], [bytes], [url], the published release of
    [bip_bencode] that [bip_dht] uses) are classes of operations with a second
    class for their documented behaviour, and an instance that meets it.

    ** What is shown

    - Bencode: decoding never panics and gives well formed values whose buffers
      are slices of the input; it inverts encoding, and encoding inverts it on
      canonical input; a map that is built is found again by its readers.
    - Routing table: an insertion returns, keeps every good node and the
      placement invariant; the closest-node iterator yields every pingable node,
      good or questionable, once.  Storage refines a finite map with expiry; tokens are valid for ten
      minutes; ids are unique; generated node ids comply.
    - DHT: KRPC messages round trip and parsing is total; the worker's calls
      come back after every run of tasks and timeouts until it asks for a
      shutdown, and leave no action without a timeout; requests are answered
      from the table, the storage and the tokens; a search announces to the
      nearest nodes that gave a token.  Datagrams and the nodes of the table
      have v4 addresses there: a v6 node in the table makes an answer panic.
    - Torrent files: reading never panics and gives well formed torrents; what
      is written is read back, but for four fields; hashing ends under every
      schedule and gives the pieces in order.
    - Disk: access to a piece is access to one flat file; processing a block
      that overlaps no other writes it and reports a complete piece exactly once; adding a torrent
      checks what is there; the manager bounds the work in flight; the handle
      cache is transparent.
    - Trackers and handshakes: messages round trip and parsers are total; the
      server answers what it should; the client answers every accepted request
      exactly once, retries and gives up; the framing reads and sends exactly the
      message; the handlers of both sides, which run on the frame over any
      socket, end, complete only with a handshake they may accept, and agree when
      each read what the other sent; filters decide as a set.
    - Peer wire protocol: the decoder takes exactly one message at a time and
      never panics; what a codec encodes another decodes; an extended handshake
      carries the fields of its builder and makes the metadata messages readable;
      the bit field iterator gives the set bits.
    - Peer manager: what the client hears of a peer are its sessions one after
      the other, with acknowledgements in order and only of messages that were
      handed over; the stream never fails, a sink fails exactly on a peer whose
      task has ended, and a task exactly when a timer of its streams does; the
      capacity holds; heartbeats come at their interval.
    - Selection: the metadata module never panics on sizes that fit in memory,
      wakes a parked stream when there is work, serves whole pieces only, and
      from any run with honest peers a download completes within a bounded number
      of polls and answers, in any order; the honest module tells a peer exactly
      the pieces found, each as often as it is reported; the module of modules
      returns when its modules do on messages that fit, delivers a message to each
      of them once, and makes a peer known to them through the extended handshake.
    - Magnet links with ASCII topics are read to what their query says.
    - Findings, where the code and its documentation part, are theorems next to
      the definitions they are about.

    ** Fuel and bounds

    [decode_fuel] is linear in the input and proved enough for every input;
    [table_fuel] covers one split for each of the 160 buckets.  Parsing loops
    take the length of their input as fuel, iterators one more than the number
    of items; each theorem says the result is never [NoFuel].  The hashing of
    pieces has a cost function that bounds the length of every run.  A bootstrap
    has [bootstrap_fuel], one unit per bucket; a repeated bootstrap one unit per
    attempt; a binary search one more than the length of its list.  The loop over
    the modules has two units more than there are discovery modules; dropping
    downloads that cannot be read has one more than there are pending downloads.  A
    poll of a handshake frame has [frame_rounds], more than the 304 bytes of
    the longest one; how many polls the timer of a handshake allows is an argument.

    ** Not modelled

    The threads around the DHT worker, what it prints when logging is on, the
    sockets, timers and threads of [tokio] and [std], the handshaker that joins
    the handlers of both sides with channels and timers, the native file system,
    walking a directory to build a torrent, builders that only hold
    configuration, the example programs and the tests are left out: they are
    calls into other crates with nothing of their own to state.  Whether a
    channel has room and whether a lock is free is up to the environment, so
    nothing is claimed about how long a sender waits.

    ** This file

    The outcome monad, the automation and lemmas on lists all files share, and
    the monad of state passing. *)

From stdpp Require Import prelude list gmap strings sorting.
From Stdlib Require Import ZArith Lia Strings.Byte.

#[global] Set Default Goal Selector "!".
#[export] Set Warnings "-clear-no-such-hyp".

(** ** Outcomes of a Rust call

    [Ok]/[Err] are the two arms of [Result]; [Panic] is an unwinding call
    (failed index, explicit [panic!], [unwrap] of nothing); [NoFuel] marks a
    recursion cut off by the fuel argument of its model, which the termination
    theorems rule out. *)
Inductive outcome (E A : Type) : Type :=
| Ok (a : A)
| Err (e : E)
| Panic
| NoFuel.
Arguments Ok {E A} a.
Arguments Err {E A} e.
Arguments Panic {E A}.
Arguments NoFuel {E A}.

#[global] Instance outcome_ret (E : Type) : MRet (outcome E) := fun A a => Ok a.

#[global] Instance outcome_bind (E : Type) : MBind (outcome E) :=
  fun A B f m =>
    match m with
    | Ok a => f a
    | Err e => Err e
    | Panic => Panic
    | NoFuel => NoFuel
    end.

Definition is_ok {E A} (m : outcome E A) : bool :=
  match m with Ok _ => true | _ => false end.

(** A call that comes back to its caller: it neither panics nor runs out of fuel. *)
Definition returns {E A} (m : outcome E A) : Prop :=
  match m with Ok _ | Err _ => True | Panic | NoFuel => False end.

Definition unwrap {E A} (o : option A) : outcome E A :=
  match o with Some a => Ok a | None => Panic end.

(** [Result::ok] *)
Definition result_ok {E A} (m : outcome E A) : option A := match m with Ok a => Some a | _ => None end.

Definition ok_or {E A} (o : option A) (e : E) : outcome E A :=
  match o with Some a => Ok a | None => Err e end.

(** ** Automation

    [outcome_inv] opens every successful monadic step of a hypothesis;
    [rbt] is the hint database of the development and [byte_db] its rewrite
    database of byte and word conversions. *)
Create HintDb rbt discriminated.
Create Rewrite HintDb byte_db.

Lemma outcome_bind_ok {E A B} (f : A -> outcome E B) (m : outcome E A) (b : B) :
  m ≫= f = Ok b -> exists a, m = Ok a /\ f a = Ok b.
Proof. destruct m; try discriminate. intros H; eauto. Qed.

Lemma returns_bind {E A B} (f : A -> outcome E B) (m : outcome E A) :
  returns m -> (forall a, m = Ok a -> returns (f a)) -> returns (m ≫= f).
Proof. destruct m; simpl; auto. Qed.

Lemma returns_iff {E A} (m : outcome E A) :
  returns m <-> m <> Panic /\ m <> NoFuel.
Proof. destruct m; simpl; intuition congruence. Qed.

(** A call that comes back, and with [P] when it succeeds. *)
Definition safely {E A} (P : A -> Prop) (m : outcome E A) : Prop :=
  match m with Ok a => P a | Err _ => True | Panic | NoFuel => False end.

Lemma safely_bind {E A B} (P : A -> Prop) (Q : B -> Prop) (f : A -> outcome E B) (m : outcome E A) :
  safely P m -> (forall a, P a -> safely Q (f a)) -> safely Q (m ≫= f).
Proof. destruct m; simpl; auto. Qed.

Lemma safely_impl {E A} (P Q : A -> Prop) (m : outcome E A) : safely P m -> (forall a, P a -> Q a) -> safely Q m.
Proof. destruct m; simpl; auto. Qed.

Lemma safely_returns {E A} (P : A -> Prop) (m : outcome E A) : safely P m -> returns m.
Proof. by destruct m. Qed.

Ltac outcome_inv_step :=
  match goal with
  | H : (_ ≫= _) = Ok _ |- _ =>
      apply outcome_bind_ok in H; destruct H as (? & ? & H)
  | H : Ok _ = Ok _ |- _ => injection H as H; try subst
  | H : Err _ = Ok _ |- _ => discriminate H
  | H : Panic = Ok _ |- _ => discriminate H
  | H : NoFuel = Ok _ |- _ => discriminate H
  end.
Ltac outcome_inv := repeat (outcome_inv_step; simpl in *).

(** ** Generic list lemmas *)

(** [skip]/[take] and slices: [&l[i..j]] panics unless [i <= j <= len]. *)
Definition slice {A} (l : list A) (i j : nat) : list A := take (j - i) (drop i l).

Definition slice_checked {E A} (l : list A) (i j : nat) : outcome E (list A) :=
  if decide (i <= j <= length l) then Ok (slice l i j) else Panic.

(** [iter().position(p)] *)
Fixpoint position {A} (p : A -> bool) (l : list A) : option nat :=
  match l with
  | [] => None
  | x :: l' => if p x then Some 0 else S <$> position p l'
  end.

(** [iter().take_while(p)] *)
Fixpoint take_while {A} (p : A -> bool) (l : list A) : list A :=
  match l with
  | [] => []
  | x :: l' => if p x then x :: take_while p l' else []
  end.

Fixpoint drop_while {A} (p : A -> bool) (l : list A) : list A :=
  match l with
  | [] => []
  | x :: l' => if p x then drop_while p l' else x :: l'
  end.

Lemma slice_checked_eq {E A} (l : list A) i j :
  i <= j <= length l -> @slice_checked E A l i j = Ok (slice l i j).
Proof. intros. unfold slice_checked. by rewrite decide_True. Qed.

Lemma slice_checked_ok {E A} (l : list A) i j s :
  @slice_checked E A l i j = Ok s -> s = slice l i j /\ i <= j <= length l.
Proof. unfold slice_checked. case_decide; [|done]. intros [= <-]. done. Qed.

Lemma length_slice {A} (l : list A) i j :
  j <= length l -> length (slice l i j) = j - i.
Proof. intros; unfold slice; rewrite length_take, length_drop; lia. Qed.

Lemma slice_app_l {A} (l k : list A) i j :
  j <= length l -> slice (l ++ k) i j = slice l i j.
Proof.
  intros; unfold slice. destruct (decide (i <= length l)).
  - rewrite drop_app_le, take_app_le by (rewrite ?length_drop; lia). done.
  - replace (j - i) with 0 by lia. done.
Qed.

Lemma slice_slice_app {A} (l : list A) i j k :
  i <= j <= k -> slice l i j ++ slice l j k = slice l i k.
Proof.
  intros; unfold slice.
  replace (drop j l) with (drop (j - i) (drop i l)) by (rewrite drop_drop; f_equal; lia).
  rewrite <- (take_drop (j - i) (take (k - i) (drop i l))).
  rewrite take_take, skipn_firstn_comm. f_equal; f_equal; lia.
Qed.

Lemma slice_all {A} (l : list A) : slice l 0 (length l) = l.
Proof. unfold slice. rewrite drop_0, Nat.sub_0_r. apply take_ge; lia. Qed.

Lemma slice_cons {A} (l : list A) i j x :
  l !! i = Some x -> i < j -> slice l i j = x :: slice l (S i) j.
Proof.
  intros Hx Hij; unfold slice. rewrite (drop_S _ _ _ Hx).
  replace (j - i) with (S (j - S i)) by lia. done.
Qed.

Lemma position_Some {A} (p : A -> bool) (l : list A) i :
  position p l = Some i <->
  (exists x, l !! i = Some x /\ p x = true) /\
  (forall j y, j < i -> l !! j = Some y -> p y = false).
Proof.
  revert i; induction l as [|x l IH]; intros i; simpl.
  - split; [done|]. intros [(x & Hx & _) _]. by destruct i.
  - destruct (p x) eqn:Hp.
    + split.
      * intros [= <-]. split; [eauto|]. intros; lia.
      * intros [_ H]. destruct i as [|i]; [done|].
        specialize (H 0 x ltac:(lia) eq_refl). congruence.
    + rewrite fmap_Some. split.
      * intros (i' & Hi & ->). apply IH in Hi as [Hex Hall]. split; [done|].
        intros [|j] y Hj; simpl; [congruence|]. intros. eapply (Hall j); [lia|done].
      * intros [(y & Hy & Hpy) Hall]. destruct i as [|i]; simpl in *; [congruence|].
        exists i; split; [|done]. apply IH. split; [eauto|].
        intros j z Hj Hz. apply (Hall (S j)); [lia|done].
Qed.

Lemma position_None {A} (p : A -> bool) (l : list A) :
  position p l = None <-> (forall x, x ∈ l -> p x = false).
Proof.
  induction l as [|x l IH]; simpl.
  - split; [|done]. intros _ x Hx; by apply not_elem_of_nil in Hx.
  - destruct (p x) eqn:Hp.
    + split; [done|]. intros H. specialize (H x ltac:(left)). congruence.
    + rewrite fmap_None, IH. split.
      * intros H y [->|Hy]%elem_of_cons; auto.
      * intros H y Hy; apply H; by right.
Qed.

Lemma position_lt {A} (p : A -> bool) (l : list A) i :
  position p l = Some i -> i < length l.
Proof. intros [(x & Hx & _) _]%position_Some. by apply lookup_lt_Some in Hx. Qed.

Lemma position_app_skip {A} (p : A -> bool) (l k : list A) :
  Forall (fun x => p x = false) l ->
  position p (l ++ k) = (fun n => length l + n) <$> position p k.
Proof.
  induction 1 as [|x l Hx Hl IH]; simpl.
  - by destruct (position p k).
  - rewrite Hx, IH. by destruct (position p k).
Qed.

Lemma take_drop_while {A} (p : A -> bool) (l : list A) :
  take_while p l ++ drop_while p l = l.
Proof. induction l as [|x l IH]; simpl; [done|]. destruct (p x); simpl; congruence. Qed.

Lemma take_while_Forall {A} (p : A -> bool) (l : list A) :
  Forall (fun x => p x = true) (take_while p l).
Proof. induction l as [|x l IH]; simpl; [done|]. destruct (p x) eqn:?; auto. Qed.

Lemma length_take_while {A} (p : A -> bool) (l : list A) :
  length (take_while p l) <= length l.
Proof. induction l as [|x l IH]; simpl; [lia|]. destruct (p x); simpl; lia. Qed.

Lemma elem_of_insert_inv {A} (l : list A) i (y x : A) : x ∈ <[i := y]> l -> x = y \/ x ∈ l.
Proof.
  intros (j & Hj)%list_elem_of_lookup.
  apply list_lookup_insert_Some in Hj as [(-> & -> & _)|[_ Hj]]; [by left|].
  right. by eapply list_elem_of_lookup_2.
Qed.

Lemma elem_of_concat {A} (ls : list (list A)) (x : A) :
  x ∈ concat ls <-> exists l, l ∈ ls /\ x ∈ l.
Proof.
  induction ls as [|l ls IH]; simpl.
  - split; [intros Hx; by apply not_elem_of_nil in Hx|]. intros (l & Hl & _). by apply not_elem_of_nil in Hl.
  - rewrite elem_of_app, IH. setoid_rewrite elem_of_cons. naive_solver.
Qed.

(** ** Removing from a vector *)

(** [Vec::swap_remove] within bounds: the last element takes the place. *)
Definition swap_remove {A} (l : list A) (index : nat) : list A :=
  match last l with
  | Some x => take (length l - 1) (<[index := x]> l)
  | None => l
  end.

Lemma swap_remove_perm {A} (l : list A) i x : l !! i = Some x -> x :: swap_remove l i ≡ₚ l.
Proof.
  intros Hi. unfold swap_remove. destruct (last l) as [y|] eqn:Hl.
  - apply last_Some in Hl as [k ->]. rewrite length_app. simpl length. replace (length k + 1 - 1) with (length k) by lia.
    destruct (decide (i < length k)) as [Hlt|Hge].
    + rewrite insert_app_l, take_app_length' by (rewrite ?length_insert; done).
      rewrite lookup_app_l in Hi by done. rewrite (Permutation_app_comm k [y]). simpl.
      rewrite <- (take_drop_middle k i x Hi) at 2. rewrite insert_take_drop by done.
      rewrite <- !Permutation_middle. apply Permutation_swap.
    + apply lookup_app_Some in Hi as [Hi|[_ Hi]]; [by apply lookup_lt_Some in Hi|].
      apply list_lookup_singleton_Some in Hi as [Hz <-]. assert (i = length k) as -> by lia.
      rewrite insert_app_r_alt, take_app_length' by done.
      by rewrite Permutation_app_comm.
  - apply last_None in Hl as ->. done.
Qed.

(** ** The order of a hash map

    A loop over a hash map takes the order of its keys as an argument; the
    theorems ask that it visits every key once. *)
Definition visits_all {K V} `{Countable K} (iter_order : gmap K V -> list K) : Prop :=
  forall p, NoDup (iter_order p) /\ forall k, k ∈ iter_order p <-> is_Some (p !! k).

Definition map_keys {K V} `{Countable K} (p : gmap K V) : list K := (map_to_list p).*1.

Lemma map_keys_visits_all {K V} `{Countable K} : visits_all (map_keys (K := K) (V := V)).
Proof.
  intros p. split; [apply NoDup_fst_map_to_list|]. intros k. unfold map_keys. rewrite list_elem_of_fmap. split.
  - intros ([k' l] & -> & Hk%elem_of_map_to_list). by exists l.
  - intros [l Hl]. exists (k, l). split; [done|]. by apply elem_of_map_to_list.
Qed.

Lemma order_size {K V} `{Countable K} (order : gmap K V -> list K) (m : gmap K V) : visits_all order -> length (order m) = size m.
Proof.
  intros Hv. destruct (Hv m) as [Hnd Hin]. rewrite <- (size_list_to_set (C := gset K)) by done. rewrite <- (size_dom m).
  f_equal. apply leibniz_equiv. intros k. rewrite elem_of_list_to_set, Hin, elem_of_dom. done.
Qed.

(** * State passing with errors and panics

    The monad of the code that works on a shared world: a file system, a
    writer, a context behind a lock. *)

(** ** State, errors and panics

    A call over a world [W] ends in an outcome and a world, whatever the outcome. *)
Definition stM (W E A : Type) : Type := W -> outcome E A * W.

#[global] Instance stM_ret W E : MRet (stM W E) := fun A a w => (Ok a, w).

#[global] Instance stM_bind W E : MBind (stM W E) :=
  fun A B f m w =>
    match m w with
    | (Ok a, w) => f a w
    | (Err e, w) => (Err e, w)
    | (Panic, w) => (Panic, w)
    | (NoFuel, w) => (NoFuel, w)
    end.

(** A pure outcome in the monad, and [map_err]. *)
Definition lift {W E A} (m : outcome E A) : stM W E A := fun w => (m, w).

Definition map_err {E F A} (f : E -> F) (m : outcome E A) : outcome F A :=
  match m with Ok a => Ok a | Err e => Err (f e) | Panic => Panic | NoFuel => NoFuel end.

Definition st_map_err {W E F A} (f : E -> F) (m : stM W E A) : stM W F A :=
  fun w => let '(o, w) := m w in (map_err f o, w).

(** [Poll<T, E>] without its error, and [AsyncSink<T>], of the [futures] crate. *)
Inductive Async (A : Type) : Type :=
| Ready (a : A)
| NotReady.
Arguments Ready {A} a.
Arguments NotReady {A}.

Inductive AsyncSink (A : Type) : Type :=
| SinkReady
| SinkNotReady (a : A).
Arguments SinkReady {A}.
Arguments SinkNotReady {A} a.

(** [assert!] *)
Definition assert {W E} (b : bool) : stM W E () := fun w => (if b then Ok () else Panic, w).

Lemma stM_bind_ok {W E A B} (f : A -> stM W E B) (m : stM W E A) w a w' :
  m w = (Ok a, w') -> (m ≫= f) w = f a w'.
Proof. intros H. unfold mbind, stM_bind. by rewrite H. Qed.
