(* ===== verification/Bytes.v ===== *)
(** * Bytes, machine words and their big-endian encodings

    A [u8] is a [byte]; wider machine words are integers kept at their width
    by explicit wrapping casts.  The encodings here are the specification the
    conversion routines of [bip_util::convert] are compared with. *)

From stdpp Require Import prelude list gmap strings.
From Stdlib Require Import ZArith Lia Strings.Byte.
From S2P Require Import Prelude.

#[local] Open Scope Z_scope.

(** [byte_val] is the unsigned value of a byte, [as_u8] the truncating cast. *)
Abbreviation bytes := (list byte).

Definition byte_val (b : byte) : Z := Z.of_N (Byte.to_N b).

Definition as_u8 (z : Z) : byte :=
  match Byte.of_N (Z.to_N (z mod 256)) with Some b => b | None => x00 end.

#[global] Instance byte_eq_decision : EqDecision byte := Byte.byte_eq_dec.

#[global] Program Instance byte_countable : Countable byte :=
  inj_countable Byte.to_N Byte.of_N _.
Next Obligation. intros x; apply Byte.of_to_N. Qed.

(** Machine integers of width [w]. *)
Definition as_unsigned (w : Z) (z : Z) : Z := z mod 2 ^ w.
Definition as_signed (w : Z) (z : Z) : Z := (z + 2 ^ (w - 1)) mod 2 ^ w - 2 ^ (w - 1).

Definition in_unsigned (w z : Z) : Prop := 0 <= z < 2 ^ w.
Definition in_signed (w z : Z) : Prop := - 2 ^ (w - 1) <= z < 2 ^ (w - 1).

#[global] Instance in_unsigned_dec w z : Decision (in_unsigned w z).
Proof. unfold in_unsigned; apply _. Defined.
#[global] Instance in_signed_dec w z : Decision (in_signed w z).
Proof. unfold in_signed; apply _. Defined.

(** Big-endian encoding of the low [n] bytes of [z], and the value of a byte string. *)
Fixpoint be_bytes (n : nat) (z : Z) : bytes :=
  match n with
  | O => []
  | S n' => as_u8 (Z.shiftr z (8 * Z.of_nat n')) :: be_bytes n' z
  end.

Fixpoint be_value_acc (acc : Z) (l : bytes) : Z :=
  match l with
  | [] => acc
  | b :: l' => be_value_acc (acc * 256 + byte_val b) l'
  end.
Definition be_value (l : bytes) : Z := be_value_acc 0 l.

(** Lexicographic order on byte strings, the [Ord] of slices. *)
Fixpoint bytes_cmp (l k : bytes) : comparison :=
  match l, k with
  | [], [] => Eq
  | [], _ :: _ => Lt
  | _ :: _, [] => Gt
  | x :: l', y :: k' =>
      match byte_val x ?= byte_val y with
      | Eq => bytes_cmp l' k'
      | c => c
      end
  end.
Definition bytes_ltb (l k : bytes) : bool :=
  match bytes_cmp l k with Lt => true | _ => false end.
Definition bytes_lt (l k : bytes) : Prop := bytes_cmp l k = Lt.

(** ** Byte lemmas *)

Lemma byte_val_range (b : byte) : 0 <= byte_val b < 256.
Proof.
  unfold byte_val. pose proof (Byte.to_N_bounded b).
  split; [apply N2Z.is_nonneg|]. lia.
Qed.

Lemma byte_val_inj (a b : byte) : byte_val a = byte_val b -> a = b.
Proof.
  unfold byte_val. intros H%N2Z.inj.
  pose proof (Byte.of_to_N a) as Ha; pose proof (Byte.of_to_N b) as Hb.
  rewrite H in Ha. congruence.
Qed.

Lemma byte_val_as_u8 (z : Z) : byte_val (as_u8 z) = z mod 256.
Proof.
  unfold as_u8, byte_val.
  pose proof (Z.mod_pos_bound z 256 ltac:(lia)) as Hz.
  destruct (Byte.of_N (Z.to_N (z mod 256))) as [b|] eqn:E.
  - apply Byte.to_of_N in E. rewrite E. lia.
  - apply Byte.of_N_None_iff in E. lia.
Qed.

Lemma as_u8_byte_val (b : byte) : as_u8 (byte_val b) = b.
Proof.
  apply byte_val_inj. rewrite byte_val_as_u8. apply Z.mod_small, byte_val_range.
Qed.

Lemma as_u8_mod (z : Z) : as_u8 (z mod 256) = as_u8 z.
Proof. unfold as_u8. by rewrite Z.mod_mod by lia. Qed.

#[export] Hint Rewrite byte_val_as_u8 as_u8_byte_val : byte_db.

Lemma byte_ltb_val (a b : byte) : byte_val a = byte_val b <-> a = b.
Proof. split; [apply byte_val_inj|congruence]. Qed.

(** ** Big-endian lemmas *)

Lemma length_be_bytes n z : length (be_bytes n z) = n.
Proof. induction n; simpl; congruence. Qed.

Lemma be_value_acc_spec acc l :
  be_value_acc acc l = acc * 256 ^ Z.of_nat (length l) + be_value l.
Proof.
  unfold be_value. revert acc; induction l as [|b l IH]; intros acc; cbn [be_value_acc length].
  - change (Z.of_nat 0) with 0. lia.
  - rewrite IH, (IH (0 * 256 + byte_val b)).
    rewrite Nat2Z.inj_succ, Z.pow_succ_r by lia. lia.
Qed.

Lemma be_value_cons b l :
  be_value (b :: l) = byte_val b * 256 ^ Z.of_nat (length l) + be_value l.
Proof. unfold be_value at 1. cbn [be_value_acc]. rewrite be_value_acc_spec. lia. Qed.

Lemma be_value_app l k :
  be_value (l ++ k) = be_value l * 256 ^ Z.of_nat (length k) + be_value k.
Proof.
  induction l as [|b l IH]; simpl.
  - unfold be_value at 2; simpl; lia.
  - rewrite !be_value_cons, IH, length_app, Nat2Z.inj_add, Z.pow_add_r by lia. ring.
Qed.

Lemma be_value_range l : 0 <= be_value l < 256 ^ Z.of_nat (length l).
Proof.
  induction l as [|b l IH]; [done|].
  rewrite be_value_cons. pose proof (byte_val_range b).
  cbn [length]. rewrite Nat2Z.inj_succ, Z.pow_succ_r by lia. nia.
Qed.

Lemma be_value_be_bytes n z : be_value (be_bytes n z) = z mod 256 ^ Z.of_nat n.
Proof.
  induction n as [|n IH].
  - simpl. unfold be_value; simpl. by rewrite Z.mod_1_r.
  - cbn [be_bytes]. rewrite be_value_cons, IH, length_be_bytes, byte_val_as_u8.
    rewrite Z.shiftr_div_pow2 by lia.
    replace (2 ^ (8 * Z.of_nat n)) with (256 ^ Z.of_nat n)
      by (rewrite Z.pow_mul_r by lia; done).
    rewrite Nat2Z.inj_succ, Z.pow_succ_r by lia.
    rewrite (Z.mul_comm 256), Z.rem_mul_r by lia. lia.
Qed.

Lemma be_value_inj l k :
  length l = length k -> be_value l = be_value k -> l = k.
Proof.
  revert k; induction l as [|a l IH]; intros [|b k] Hlen; try discriminate; [done|].
  rewrite !be_value_cons. injection Hlen as Hlen. rewrite Hlen. intros H.
  pose proof (be_value_range l); pose proof (be_value_range k).
  rewrite Hlen in *. pose proof (byte_val_range a); pose proof (byte_val_range b).
  assert (byte_val a = byte_val b) by nia.
  f_equal; [by apply byte_val_inj|]. apply IH; [done|]. nia.
Qed.

Lemma be_bytes_be_value n l : length l = n -> be_bytes n (be_value l) = l.
Proof.
  intros <-. apply be_value_inj; [apply length_be_bytes|].
  rewrite be_value_be_bytes. apply Z.mod_small, be_value_range.
Qed.

Lemma be_bytes_mod n z w :
  Z.of_nat n * 8 <= w -> be_bytes n (z mod 2 ^ w) = be_bytes n z.
Proof.
  intros Hw. apply be_value_inj; rewrite ?length_be_bytes; [done|].
  rewrite !be_value_be_bytes.
  replace (256 ^ Z.of_nat n) with (2 ^ (8 * Z.of_nat n)) by (rewrite Z.pow_mul_r by lia; done).
  replace (2 ^ w) with (2 ^ (w - 8 * Z.of_nat n) * 2 ^ (8 * Z.of_nat n))
    by (rewrite <- Z.pow_add_r by lia; f_equal; lia).
  rewrite Z.mul_comm, Z.rem_mul_r by lia. 
  rewrite (Z.mul_comm (2 ^ (8 * Z.of_nat n))), Z.mod_add by lia.
  apply Z.mod_mod. lia.
Qed.

(** ** Casts *)

Lemma as_unsigned_range w z : 0 <= w -> in_unsigned w (as_unsigned w z).
Proof. intros. apply Z.mod_pos_bound. lia. Qed.

Lemma as_signed_range w z : 1 <= w -> in_signed w (as_signed w z).
Proof.
  intros Hw. unfold in_signed, as_signed.
  pose proof (Z.mod_pos_bound (z + 2 ^ (w - 1)) (2 ^ w) ltac:(lia)).
  replace (2 ^ w) with (2 * 2 ^ (w - 1)) in * by (rewrite <- Z.pow_succ_r by lia; f_equal; lia).
  lia.
Qed.

Lemma as_unsigned_id w z : in_unsigned w z -> as_unsigned w z = z.
Proof. apply Z.mod_small. Qed.

Lemma as_signed_as_unsigned w z :
  1 <= w -> in_signed w z -> as_signed w (as_unsigned w z) = z.
Proof.
  unfold in_signed, as_signed, as_unsigned. intros Hw Hz.
  rewrite Zplus_mod_idemp_l.
  replace (2 ^ w) with (2 * 2 ^ (w - 1)) by (rewrite <- Z.pow_succ_r by lia; f_equal; lia).
  rewrite Z.mod_small by lia. lia.
Qed.

(** ** Order on byte strings *)

Lemma bytes_cmp_refl l : bytes_cmp l l = Eq.
Proof. induction l as [|x l IH]; simpl; [done|]. by rewrite Z.compare_refl. Qed.

Lemma bytes_cmp_eq l k : bytes_cmp l k = Eq <-> l = k.
Proof.
  split; [|intros ->; apply bytes_cmp_refl].
  revert k; induction l as [|x l IH]; intros [|y k]; simpl; try done.
  destruct (byte_val x ?= byte_val y) eqn:E; try done.
  apply Z.compare_eq in E. intros H%IH. f_equal; [by apply byte_val_inj|done].
Qed.

Lemma bytes_cmp_antisym l k : bytes_cmp k l = CompOpp (bytes_cmp l k).
Proof.
  revert k; induction l as [|x l IH]; intros [|y k]; simpl; try done.
  rewrite Z.compare_antisym. destruct (byte_val x ?= byte_val y); simpl; auto.
Qed.

Lemma bytes_lt_trans l k m : bytes_lt l k -> bytes_lt k m -> bytes_lt l m.
Proof.
  unfold bytes_lt. revert k m; induction l as [|x l IH]; intros [|y k] [|z m]; simpl; try done.
  destruct (Z.compare_spec (byte_val x) (byte_val y));
    destruct (Z.compare_spec (byte_val y) (byte_val z)); try done; intros H1 H2;
    destruct (Z.compare_spec (byte_val x) (byte_val z)); try lia; eauto.
Qed.

Lemma bytes_lt_irrefl l : ~ bytes_lt l l.
Proof. unfold bytes_lt. by rewrite bytes_cmp_refl. Qed.

Lemma bytes_lt_not l k : bytes_lt l k -> ~ bytes_lt k l.
Proof. intros H1 H2. eapply bytes_lt_irrefl, bytes_lt_trans; eauto. Qed.

Lemma bytes_trichotomy l k : bytes_lt l k \/ l = k \/ bytes_lt k l.
Proof.
  unfold bytes_lt. destruct (bytes_cmp l k) eqn:E; auto.
  - right; left. by apply bytes_cmp_eq.
  - right; right. by rewrite bytes_cmp_antisym, E.
Qed.

Lemma bytes_ltb_lt l k : bytes_ltb l k = true <-> bytes_lt l k.
Proof. unfold bytes_ltb, bytes_lt. by destruct (bytes_cmp l k). Qed.

(** ** Slices *)

(** [chunks] of a slice. *)
Fixpoint chunks_loop (fuel n : nat) (l : bytes) : list bytes :=
  match fuel, l with
  | S fuel, _ :: _ => take n l :: chunks_loop fuel n (drop n l)
  | _, _ => []
  end.
Definition chunks (n : nat) (l : bytes) : list bytes := chunks_loop (length l) n l.

#[local] Open Scope nat_scope.

Lemma chunks_loop_concat n l : 0 < n -> forall fuel, length l <= fuel -> concat (chunks_loop fuel n l) = l.
Proof.
  intros Hn fuel. revert l. induction fuel as [|fuel IH]; intros [|b l] Hf; simpl; try done; [simpl in Hf; lia|].
  destruct n as [|n]; [lia|]. rewrite IH; [apply take_drop|]. simpl in *. rewrite length_drop. lia.
Qed.

Lemma concat_chunks n l : 0 < n -> concat (chunks n l) = l.
Proof. intros. by apply chunks_loop_concat. Qed.

Lemma chunks_bound n fuel : forall l, Forall (fun c => length c <= n) (chunks_loop fuel n l).
Proof. induction fuel as [|fuel IH]; intros [|b l]; simpl; try done. constructor; [rewrite length_take; lia|apply IH]. Qed.

Lemma chunks_nil n l : chunks n l = [] -> l = [].
Proof. unfold chunks. by destruct l. Qed.

(** Whole chunks only, when the length is a multiple. *)
Lemma chunks_whole n l : 0 < n -> length l mod n = 0 -> Forall (fun c => length c = n) (chunks n l).
Proof.
  intros Hn. unfold chunks. assert (forall fuel l, length l <= fuel -> length l mod n = 0 ->
    Forall (fun c => length c = n) (chunks_loop fuel n l)) as Hx; [|by apply Hx].
  induction fuel as [|fuel IH]; intros [|b k] Hf Hm; cbn [chunks_loop]; try done.
  assert (n <= length (b :: k)) as Hle.
  { destruct (decide (n <= length (b :: k))) as [|Hx]; [done|]. rewrite Nat.mod_small in Hm by lia. cbn in Hm. lia. }
  constructor; [rewrite length_take; lia|]. apply IH; rewrite length_drop; [cbn in *; lia|].
  rewrite <- Hm. replace (length (b :: k)) with ((length (b :: k) - n) + 1 * n) at 2 by lia. by rewrite Nat.Div0.mod_add.
Qed.

Lemma chunks_of_records n (cs : list bytes) : 0 < n -> Forall (fun c => length c = n) cs -> chunks n (concat cs) = cs.
Proof.
  intros Hn Hcs. unfold chunks. assert (forall fuel, length (concat cs) <= fuel -> chunks_loop fuel n (concat cs) = cs) as Hx; [|by apply Hx].
  induction Hcs as [|c cs Hc Hcs IH]; intros fuel Hf; cbn [concat] in *; [by destruct fuel|].
  rewrite length_app in Hf. destruct fuel as [|fuel]; [lia|]. destruct c as [|b c]; [cbn in Hc; lia|].
  cbn [app chunks_loop]. change (b :: c ++ concat cs) with ((b :: c) ++ concat cs).
  rewrite take_app_length', drop_app_length' by lia. f_equal. apply IH. lia.
Qed.
