(* ===== verification/BTreeMap.v ===== *)
(** * [std::collections::BTreeMap] keyed by byte strings

    The bencode dictionaries of the program are [BTreeMap]s.  The model keeps
    the entries in key order, the order in which the Rust iterators of the map
    yield them, so [bt_insert], [bt_get] and [bt_remove] are the map operations
    and the list itself is [iter().collect()]. *)

From stdpp Require Import prelude list gmap strings.
From Stdlib Require Import ZArith Lia Strings.Byte Sorting.Sorted.
From S2P Require Import Prelude Bytes.

Section btree.
Context {V : Type}.
Implicit Types (m : list (bytes * V)) (k : bytes) (v : V).

Fixpoint bt_get (k : bytes) (m : list (bytes * V)) : option V :=
  match m with
  | [] => None
  | (k', v) :: m' =>
      match bytes_cmp k k' with
      | Eq => Some v
      | _ => bt_get k m'
      end
  end.

(** Insertion keeps the order and replaces the value of a present key. *)
Fixpoint bt_insert (k : bytes) (v : V) (m : list (bytes * V)) : list (bytes * V) :=
  match m with
  | [] => [(k, v)]
  | (k', v') :: m' =>
      match bytes_cmp k k' with
      | Lt => (k, v) :: m
      | Eq => (k, v) :: m'
      | Gt => (k', v') :: bt_insert k v m'
      end
  end.

Fixpoint bt_remove (k : bytes) (m : list (bytes * V)) : list (bytes * V) :=
  match m with
  | [] => []
  | (k', v') :: m' =>
      match bytes_cmp k k' with
      | Eq => m'
      | _ => (k', v') :: bt_remove k m'
      end
  end.

(** [keys().last()] *)
Definition bt_last_key (m : list (bytes * V)) : option bytes := last m.*1.

(** The map invariant: keys strictly increasing. *)
Definition bt_wf (m : list (bytes * V)) : Prop := StronglySorted bytes_lt m.*1.

Lemma bt_wf_nil : bt_wf [].
Proof. constructor. Qed.

Lemma bt_wf_cons k v m :
  bt_wf ((k, v) :: m) <-> bt_wf m /\ (forall k', k' ∈ m.*1 -> bytes_lt k k').
Proof.
  unfold bt_wf; simpl. split.
  - intros [Hs Hf]%StronglySorted_inv. split; [done|]. by apply Forall_forall.
  - intros [Hs Hf]. constructor; [done|]. by apply Forall_forall.
Qed.

Lemma bt_get_None k m : bt_get k m = None <-> k ∉ m.*1.
Proof.
  induction m as [|[k' v'] m IH]; simpl.
  - split; [|done]. intros _ H; by apply not_elem_of_nil in H.
  - rewrite not_elem_of_cons, <- IH. destruct (bytes_cmp k k') eqn:E.
    + apply bytes_cmp_eq in E. split; [done|]. intros [? _]; congruence.
    + split; [|tauto]. intros ?; split; [|done]. intros ->. by rewrite bytes_cmp_refl in E.
    + split; [|tauto]. intros ?; split; [|done]. intros ->. by rewrite bytes_cmp_refl in E.
Qed.

Lemma bt_get_Some_elem k v m : bt_get k m = Some v -> (k, v) ∈ m.
Proof.
  induction m as [|[k' v'] m IH]; simpl; [done|].
  destruct (bytes_cmp k k') eqn:E; intros H.
  - apply bytes_cmp_eq in E as ->. injection H as ->. left.
  - right; auto.
  - right; auto.
Qed.

Lemma bt_elem_get k v m : bt_wf m -> (k, v) ∈ m -> bt_get k m = Some v.
Proof.
  induction m as [|[k' v'] m IH]; simpl; [by intros _ ?%not_elem_of_nil|].
  intros [Hm Hlt]%bt_wf_cons [[= -> ->]|Hin]%elem_of_cons.
  - by rewrite bytes_cmp_refl.
  - assert (bytes_lt k' k) as Hk by (apply Hlt, list_elem_of_fmap; exists (k, v); done).
    unfold bytes_lt in Hk. rewrite bytes_cmp_antisym, Hk; simpl. auto.
Qed.

Lemma bt_insert_keys k v m k' :
  k' ∈ (bt_insert k v m).*1 <-> k' = k \/ k' ∈ m.*1.
Proof.
  induction m as [|[k0 v0] m IH]; simpl; [by rewrite list_elem_of_singleton, elem_of_nil; intuition|].
  destruct (bytes_cmp k k0) eqn:E; simpl; rewrite !elem_of_cons.
  - apply bytes_cmp_eq in E as ->. tauto.
  - tauto.
  - rewrite IH. tauto.
Qed.

Lemma bt_insert_wf k v m : bt_wf m -> bt_wf (bt_insert k v m).
Proof.
  induction m as [|[k0 v0] m IH]; simpl.
  - intros _. by apply bt_wf_cons; split; [apply bt_wf_nil|intros ? ?%not_elem_of_nil].
  - intros Hwf; pose proof Hwf as [Hm Hlt]%bt_wf_cons.
    destruct (bytes_cmp k k0) eqn:E.
    + apply bytes_cmp_eq in E as ->. by apply bt_wf_cons.
    + apply bt_wf_cons; split; [done|]. simpl. intros k' [->|Hk']%elem_of_cons; [done|].
      eapply bytes_lt_trans; [exact E|auto].
    + apply bt_wf_cons; split; [auto|]. intros k' [->|Hk']%bt_insert_keys; [|auto].
      unfold bytes_lt. by rewrite bytes_cmp_antisym, E.
Qed.

Lemma bt_get_insert k v m : bt_get k (bt_insert k v m) = Some v.
Proof.
  induction m as [|[k0 v0] m IH]; simpl; [by rewrite bytes_cmp_refl|].
  destruct (bytes_cmp k k0) eqn:E; simpl; rewrite ?bytes_cmp_refl, ?E; done.
Qed.

Lemma bt_get_insert_ne k k' v m :
  k' <> k -> bt_get k' (bt_insert k v m) = bt_get k' m.
Proof.
  intros Hne. assert (bytes_cmp k' k <> Eq) as Hc by (by rewrite bytes_cmp_eq).
  induction m as [|[k0 v0] m IH]; simpl; [by destruct (bytes_cmp k' k)|].
  destruct (bytes_cmp k k0) eqn:E; simpl.
  - apply bytes_cmp_eq in E as ->. by destruct (bytes_cmp k' k0).
  - by destruct (bytes_cmp k' k).
  - by rewrite IH.
Qed.

Lemma bt_remove_keys k m k' : k' ∈ (bt_remove k m).*1 -> k' ∈ m.*1.
Proof.
  induction m as [|[k0 v0] m IH]; simpl; [done|].
  destruct (bytes_cmp k k0); simpl; rewrite ?elem_of_cons; intuition.
Qed.

Lemma bt_remove_wf k m : bt_wf m -> bt_wf (bt_remove k m).
Proof.
  induction m as [|[k0 v0] m IH]; simpl; [done|].
  intros [Hm Hlt]%bt_wf_cons. destruct (bytes_cmp k k0); [done|..];
    (apply bt_wf_cons; split; [auto|]; intros k' Hk'; apply Hlt; by eapply bt_remove_keys).
Qed.

Lemma bt_get_remove k m : bt_wf m -> bt_get k (bt_remove k m) = None.
Proof.
  induction m as [|[k0 v0] m IH]; simpl; [done|].
  intros [Hm Hlt]%bt_wf_cons. destruct (bytes_cmp k k0) eqn:E; simpl; rewrite ?E; auto.
  apply bytes_cmp_eq in E as ->. apply bt_get_None. intros Hin%Hlt.
  by apply bytes_lt_irrefl in Hin.
Qed.

Lemma bt_get_remove_ne k k' m :
  k' <> k -> bt_get k' (bt_remove k m) = bt_get k' m.
Proof.
  intros Hne. induction m as [|[k0 v0] m IH]; simpl; [done|].
  destruct (bytes_cmp k k0) eqn:E; simpl; rewrite ?IH; try done.
  apply bytes_cmp_eq in E as ->.
  destruct (bytes_cmp k' k0) eqn:E'; try done. by apply bytes_cmp_eq in E'.
Qed.

(** Inserting a key above all present ones appends it. *)
Lemma bt_insert_snoc k v m :
  (forall k', k' ∈ m.*1 -> bytes_lt k' k) -> bt_insert k v m = m ++ [(k, v)].
Proof.
  induction m as [|[k0 v0] m IH]; simpl; [done|]. intros H.
  assert (bytes_lt k0 k) as Hk by (apply H; left).
  unfold bytes_lt in Hk. rewrite bytes_cmp_antisym, Hk; simpl. f_equal.
  apply IH. intros; apply H; by right.
Qed.

Lemma bt_wf_app m1 m2 :
  bt_wf (m1 ++ m2) -> bt_wf m1 /\ bt_wf m2 /\
  (forall k1 k2, k1 ∈ m1.*1 -> k2 ∈ m2.*1 -> bytes_lt k1 k2).
Proof.
  induction m1 as [|[k v] m1 IH]; simpl.
  - intros; repeat split; [constructor|done|]. intros ? ? ?%not_elem_of_nil; done.
  - intros [H Hlt]%bt_wf_cons. destruct (IH H) as (H1 & H2 & H3).
    rewrite fmap_app in Hlt. repeat split; [|done|].
    + apply bt_wf_cons; split; [done|]. intros; apply Hlt, elem_of_app; auto.
    + intros k1 k2 [->|Hk1]%elem_of_cons Hk2; [|auto].
      apply Hlt, elem_of_app; auto.
Qed.

Lemma bt_last_key_lt m k k' :
  bt_wf m -> bt_last_key m = Some k -> k' ∈ m.*1 -> k' = k \/ bytes_lt k' k.
Proof.
  unfold bt_last_key. intros Hwf Hl Hin.
  destruct m as [|p m _] using rev_ind; [done|].
  rewrite fmap_app in Hl; simpl in Hl. rewrite last_snoc in Hl. injection Hl as <-.
  apply bt_wf_app in Hwf as (_ & _ & Hlt).
  rewrite fmap_app in Hin. apply elem_of_app in Hin as [Hin|Hin].
  - right. apply Hlt; [done|]. simpl. left.
  - left. by apply list_elem_of_singleton in Hin.
Qed.

Lemma bt_get_head_lt k v m k' : bt_wf ((k, v) :: m) -> bytes_lt k' k -> bt_get k' ((k, v) :: m) = None.
Proof.
  intros [Hm Hlt]%bt_wf_cons Hk. apply bt_get_None. simpl.
  rewrite not_elem_of_cons. split; [intros ->; by eapply bytes_lt_irrefl|].
  intros Hin%Hlt. eapply bytes_lt_irrefl, bytes_lt_trans; eauto.
Qed.

(** Two maps with the same lookups are the same map. *)
Lemma bt_ext m1 m2 :
  bt_wf m1 -> bt_wf m2 -> (forall k, bt_get k m1 = bt_get k m2) -> m1 = m2.
Proof.
  revert m2; induction m1 as [|[k1 v1] m1 IH]; intros [|[k2 v2] m2] H1 H2 Heq; [done|..].
  - specialize (Heq k2). simpl in Heq. by rewrite bytes_cmp_refl in Heq.
  - specialize (Heq k1). simpl in Heq. by rewrite bytes_cmp_refl in Heq.
  - assert (k1 = k2) as ->.
    { destruct (bytes_trichotomy k1 k2) as [Hl|[Hl|Hl]]; [|done|]; exfalso.
      - specialize (Heq k1). rewrite (bt_get_head_lt _ _ _ _ H2 Hl) in Heq.
        simpl in Heq. by rewrite bytes_cmp_refl in Heq.
      - specialize (Heq k2). rewrite (bt_get_head_lt _ _ _ _ H1 Hl) in Heq.
        simpl in Heq. by rewrite bytes_cmp_refl in Heq. }
    pose proof (Heq k2) as Hv. simpl in Hv. rewrite bytes_cmp_refl in Hv. injection Hv as ->.
    f_equal. pose proof (proj1 (bt_wf_cons _ _ _) H1) as [Hw1 Hlt1].
    pose proof (proj1 (bt_wf_cons _ _ _) H2) as [Hw2 Hlt2].
    apply IH; [done..|]. intros k. destruct (decide (k = k2)) as [->|Hne].
    + rewrite !(proj2 (bt_get_None _ _)); [done|..];
        [intros Hin%Hlt2|intros Hin%Hlt1]; by eapply bytes_lt_irrefl.
    + specialize (Heq k). simpl in Heq.
      destruct (bytes_cmp k k2) eqn:E; [by apply bytes_cmp_eq in E|done|done].
Qed.
End btree.

Arguments bt_wf {V} m : simpl never.
#[export] Hint Resolve bt_wf_nil bt_insert_wf bt_remove_wf : rbt.
