(* ===== verification/DecStr.v ===== *)
(** * Decimal and UTF-8 text, the parts of [std] bencode relies on

    [to_string] of machine integers, [i64::from_str_radix(_, 10)] and
    [str::from_utf8].  Shown here: printing then parsing is the identity on
    [i64], and parsing then printing is the identity on canonical numerals. *)

From stdpp Require Import prelude list gmap strings.
From Stdlib Require Import ZArith Lia Strings.Byte.
From S2P Require Import Prelude Bytes.

#[local] Open Scope Z_scope.

Definition ascii_zero : Z := 48.
Definition minus_byte : byte := "-"%byte.
Definition plus_byte : byte := "+"%byte.
Definition zero_byte : byte := "0"%byte.

Definition digit_byte (d : Z) : byte := as_u8 (ascii_zero + d).

Definition digit_val (b : byte) : option Z :=
  let v := byte_val b - ascii_zero in
  if decide (0 <= v <= 9) then Some v else None.

(** Digits from the least significant one, as the formatter produces them. *)
Fixpoint to_dec (fuel : nat) (n : Z) (acc : bytes) : bytes :=
  match fuel with
  | O => acc
  | S f =>
      let acc' := digit_byte (n mod 10) :: acc in
      if n <? 10 then acc' else to_dec f (n / 10) acc'
  end.

(** Twenty digits hold every [u64]. *)
Definition DEC_FUEL : nat := 20.

Definition usize_to_string (n : nat) : bytes := to_dec DEC_FUEL (Z.of_nat n) [].

Definition i64_to_string (z : Z) : bytes :=
  if z <? 0 then minus_byte :: to_dec DEC_FUEL (- z) [] else to_dec DEC_FUEL z [].

(** The accumulating loop of [from_str_radix]: [checked_mul] by the radix, then
    [checked_add] (or [checked_sub] for a negative number) of the digit. *)
Fixpoint parse_digits (neg : bool) (acc : Z) (l : bytes) : option Z :=
  match l with
  | [] => Some acc
  | b :: l' =>
      match digit_val b with
      | None => None
      | Some d =>
          let m := acc * 10 in
          if decide (in_signed 64 m) then
            let r := if neg then m - d else m + d in
            if decide (in_signed 64 r) then parse_digits neg r l' else None
          else None
      end
  end.

Definition i64_from_str_radix (s : bytes) : option Z :=
  match s with
  | [] => None
  | b :: s' =>
      if decide (b = minus_byte) then
        match s' with [] => None | _ => parse_digits true 0 s' end
      else if decide (b = plus_byte) then
        match s' with [] => None | _ => parse_digits false 0 s' end
      else parse_digits false 0 s
  end.

(** ** [str::from_utf8]: the well-formed sequences of the Unicode standard *)

Definition in_range (lo hi : Z) (b : byte) : bool :=
  bool_decide (lo <= byte_val b <= hi).

Definition is_cont (b : byte) : bool := in_range 128 191 b.

Fixpoint utf8_ok (fuel : nat) (l : bytes) : bool :=
  match fuel with
  | O => bool_decide (l = [])
  | S f =>
      match l with
      | [] => true
      | a :: l1 =>
          if in_range 0 127 a then utf8_ok f l1
          else match l1 with
          | [] => false
          | b :: l2 =>
              if in_range 194 223 a then is_cont b && utf8_ok f l2
              else match l2 with
              | [] => false
              | c :: l3 =>
                  if in_range 224 224 a then in_range 160 191 b && is_cont c && utf8_ok f l3
                  else if in_range 225 236 a || in_range 238 239 a
                  then is_cont b && is_cont c && utf8_ok f l3
                  else if in_range 237 237 a then in_range 128 159 b && is_cont c && utf8_ok f l3
                  else match l3 with
                  | [] => false
                  | d :: l4 =>
                      (if in_range 240 240 a then in_range 144 191 b
                       else if in_range 241 243 a then is_cont b
                       else if in_range 244 244 a then in_range 128 143 b
                       else false)
                      && is_cont c && is_cont d && utf8_ok f l4
                  end
              end
          end
      end
  end.

(** Every sequence consumes a byte, so the length is enough fuel. *)
Definition from_utf8 (l : bytes) : option bytes :=
  if utf8_ok (length l) l then Some l else None.

(** ** Digits *)

Lemma digit_val_byte d : 0 <= d <= 9 -> digit_val (digit_byte d) = Some d.
Proof.
  intros Hd. unfold digit_val, digit_byte, ascii_zero.
  rewrite byte_val_as_u8, Z.mod_small by lia.
  rewrite decide_True by lia. f_equal; lia.
Qed.

Lemma digit_val_Some b d : digit_val b = Some d -> 0 <= d <= 9 /\ b = digit_byte d.
Proof.
  unfold digit_val, digit_byte. case_decide as Hd; [|done]. intros [= <-].
  split; [done|]. rewrite Z.add_sub_assoc, Z.add_simpl_l, as_u8_byte_val. done.
Qed.

Definition is_digit (b : byte) : Prop := is_Some (digit_val b).

(** Value of a digit string. *)
Definition dec_value (acc : Z) (l : bytes) : Z :=
  foldl (fun a b => a * 10 + default 0 (digit_val b)) acc l.

Lemma dec_value_app acc l k : dec_value acc (l ++ k) = dec_value (dec_value acc l) k.
Proof. apply foldl_app. Qed.

Lemma dec_value_ge acc l : 0 <= acc -> acc <= dec_value acc l.
Proof.
  revert acc; induction l as [|b l IH]; intros acc Ha; simpl; [lia|].
  assert (0 <= default 0 (digit_val b)) as Hd.
  { destruct (digit_val b) eqn:E; simpl; [|lia]. by apply digit_val_Some in E as [? _]; lia. }
  specialize (IH (acc * 10 + default 0 (digit_val b)) ltac:(lia)).
  unfold dec_value in *; simpl. lia.
Qed.

(** The checked loop computes [dec_value] and fails exactly on overflow. *)
Lemma parse_digits_pos acc l :
  Forall is_digit l -> 0 <= acc -> in_signed 64 acc ->
  parse_digits false acc l =
  if decide (in_signed 64 (dec_value acc l)) then Some (dec_value acc l) else None.
Proof.
  intros Hl; revert acc; induction Hl as [|b l [d Hd] Hl IH]; intros acc Ha Hacc; simpl.
  - by rewrite decide_True.
  - rewrite Hd. simpl. pose proof (digit_val_Some _ _ Hd) as [Hr _].
    pose proof (dec_value_ge (acc * 10 + d) l ltac:(lia)) as Hge.
    unfold dec_value in *. simpl.
    rewrite ?Hd. simpl. unfold in_signed in *.
    case_decide as H1; [case_decide as H2|].
    + rewrite IH by lia. done.
    + rewrite decide_False by lia. done.
    + rewrite decide_False by lia. done.
Qed.

Lemma parse_digits_neg acc l :
  Forall is_digit l -> acc <= 0 -> in_signed 64 acc ->
  parse_digits true acc l =
  if decide (in_signed 64 (- dec_value (- acc) l)) then Some (- dec_value (- acc) l) else None.
Proof.
  intros Hl; revert acc; induction Hl as [|b l [d Hd] Hl IH]; intros acc Ha Hacc; simpl.
  - rewrite Z.opp_involutive. by rewrite decide_True.
  - rewrite Hd. simpl. pose proof (digit_val_Some _ _ Hd) as [Hr _].
    pose proof (dec_value_ge (- acc * 10 + d) l ltac:(lia)) as Hge.
    unfold dec_value in *. simpl.
    rewrite ?Hd. simpl. unfold in_signed in *.
    case_decide as H1; [case_decide as H2|].
    + rewrite IH by lia. replace (- (acc * 10 - d)) with (- acc * 10 + d) by lia. done.
    + rewrite decide_False by lia. done.
    + rewrite decide_False by lia. done.
Qed.

Lemma parse_digits_digits neg acc l z :
  parse_digits neg acc l = Some z -> Forall is_digit l.
Proof.
  revert acc; induction l as [|b l IH]; intros acc; simpl; [constructor|].
  destruct (digit_val b) eqn:E; [|done]. repeat case_decide; try done.
  intros Hp. constructor; [by eexists|eauto].
Qed.

(** ** Printing *)

Lemma to_dec_acc fuel n acc : to_dec fuel n acc = to_dec fuel n [] ++ acc.
Proof.
  revert n acc; induction fuel as [|f IH]; intros n acc; simpl; [done|].
  destruct (n <? 10); [done|]. rewrite IH, (IH _ [_]), <- app_assoc. done.
Qed.

Lemma pow10_succ (f : nat) : 10 ^ Z.of_nat (S f) = 10 * 10 ^ Z.of_nat f.
Proof. rewrite Nat2Z.inj_succ, Z.pow_succ_r by lia. done. Qed.

Lemma to_dec_digits fuel n : 0 <= n -> Forall is_digit (to_dec fuel n []).
Proof.
  revert n; induction fuel as [|f IH]; intros n Hn; simpl; [constructor|].
  pose proof (Z.mod_pos_bound n 10 ltac:(lia)).
  assert (is_digit (digit_byte (n mod 10))) by (eexists; apply digit_val_byte; lia).
  destruct (n <? 10) eqn:E; [by constructor|].
  rewrite to_dec_acc. apply Forall_app; split; [|by constructor].
  apply IH, Z.div_pos; lia.
Qed.

Lemma to_dec_value fuel n :
  0 <= n < 10 ^ Z.of_nat fuel -> dec_value 0 (to_dec fuel n []) = n.
Proof.
  revert n; induction fuel as [|f IH]; intros n Hn; [simpl in *; unfold dec_value; simpl; lia|].
  rewrite pow10_succ in Hn. simpl.
  pose proof (Z.mod_pos_bound n 10 ltac:(lia)). pose proof (Z.div_mod n 10 ltac:(lia)).
  destruct (Z.ltb_spec n 10).
  - unfold dec_value; simpl. rewrite digit_val_byte by lia. simpl.
    rewrite Z.mod_small by lia. lia.
  - rewrite to_dec_acc, dec_value_app, IH.
    + unfold dec_value; simpl. rewrite digit_val_byte by lia. simpl. lia.
    + split; [apply Z.div_pos; lia|]. apply Z.div_lt_upper_bound; lia.
Qed.

(** Canonical numerals: digits, at least one, and no leading zero. *)
Definition canonical_dec (l : bytes) : Prop :=
  Forall is_digit l /\ l <> [] /\ (head l = Some zero_byte -> length l = 1%nat).

Lemma canonical_to_dec fuel l :
  canonical_dec l -> (length l <= fuel)%nat -> to_dec fuel (dec_value 0 l) [] = l.
Proof.
  revert fuel; induction l as [|d l IH] using rev_ind; intros fuel (Hd & Hne & Hz) Hlen; [done|].
  rewrite length_app in Hlen; simpl in Hlen.
  apply Forall_app in Hd as [Hl [[v Hv] _]%Forall_cons].
  pose proof (digit_val_Some _ _ Hv) as [Hr ->].
  rewrite dec_value_app. unfold dec_value at 1; simpl. rewrite Hv; simpl.
  set (u := dec_value 0 l). assert (0 <= u) by (apply dec_value_ge; lia).
  destruct fuel as [|f]; [lia|]. simpl.
  rewrite (Z.add_comm (u * 10)), Z.mod_add, Z.mod_small by lia.
  destruct l as [|a l].
  - subst u. unfold dec_value; simpl. rewrite Z.add_0_r.
    destruct (Z.ltb_spec v 10); [done|lia].
  - assert (1 <= u) as Hu.
    { apply Forall_cons in Hl as [[va Hva] _]. subst u.
      change (dec_value 0 (a :: l)) with (dec_value (0 * 10 + default 0 (digit_val a)) l).
      rewrite Hva. pose proof (digit_val_Some _ _ Hva) as [Hra Ha].
      assert (va <> 0) as Hva0.
      { intros ->. specialize (Hz ltac:(simpl; by rewrite Ha)).
        rewrite length_app in Hz; simpl in Hz. lia. }
      change (default 0 (Some va)) with va.
      pose proof (dec_value_ge (0 * 10 + va) l ltac:(lia)). lia. }
    destruct (Z.ltb_spec (v + u * 10) 10); [lia|].
    rewrite Z.div_add, (Z.div_small v), Z.add_0_l by lia.
    rewrite to_dec_acc. f_equal. apply IH; [|simpl in *; lia].
    split_and!; [done|done|]. intros Hh. specialize (Hz Hh).
    rewrite length_app in Hz; simpl in *; lia.
Qed.

Lemma to_dec_canonical fuel n :
  (0 < fuel)%nat -> 0 <= n < 10 ^ Z.of_nat fuel -> canonical_dec (to_dec fuel n []).
Proof.
  intros Hf Hn. split; [apply to_dec_digits; lia|].
  revert n Hn; induction fuel as [|f IH]; intros n Hn; [lia|].
  rewrite pow10_succ in Hn. simpl. destruct (Z.ltb_spec n 10); [done|].
  rewrite to_dec_acc.
  assert (0 <= n / 10 < 10 ^ Z.of_nat f) as Hq
    by (split; [apply Z.div_pos; lia|apply Z.div_lt_upper_bound; lia]).
  assert (1 <= n / 10) by (apply Z.div_le_lower_bound; lia).
  destruct f as [|f]; [simpl in Hq; lia|].
  destruct (IH ltac:(lia) _ Hq) as [Hne Hz].
  split; [by intros [? _]%app_nil|]. intros Hh. exfalso.
  destruct (to_dec (S f) (n / 10) []) as [|a l] eqn:E; [done|]. simpl in Hh.
  specialize (Hz Hh). injection Hh as ->.
  destruct l; [|done]. pose proof (to_dec_value (S f) (n / 10) Hq) as Hv.
  rewrite E in Hv. change (dec_value 0 [zero_byte]) with 0 in Hv. lia.
Qed.

Lemma to_dec_bound z : in_signed 64 z -> 0 <= Z.abs z < 10 ^ Z.of_nat DEC_FUEL.
Proof. unfold in_signed. change (10 ^ Z.of_nat DEC_FUEL) with 100000000000000000000. lia. Qed.

Lemma is_digit_not_sign b : is_digit b -> b <> minus_byte /\ b <> plus_byte.
Proof. intros [d Hd]. split; intros ->; vm_compute in Hd; discriminate. Qed.

Lemma i64_from_str_unsigned l :
  canonical_dec l -> i64_from_str_radix l = parse_digits false 0 l.
Proof.
  intros (Hd & Hne & _). destruct l as [|b l]; [done|]. unfold i64_from_str_radix.
  apply Forall_cons in Hd as [[H1 H2]%is_digit_not_sign _].
  by rewrite !decide_False.
Qed.

Lemma i64_roundtrip z :
  in_signed 64 z -> i64_from_str_radix (i64_to_string z) = Some z.
Proof.
  intros Hz. pose proof (to_dec_bound z Hz) as Hb. unfold i64_to_string.
  destruct (Z.ltb_spec z 0).
  - rewrite Z.abs_neq in Hb by lia.
    pose proof (to_dec_canonical DEC_FUEL (- z) ltac:(unfold DEC_FUEL; lia) Hb) as (Hd & Hne & _).
    pose proof (to_dec_value _ _ Hb) as Hv.
    unfold i64_from_str_radix. rewrite decide_True by done.
    destruct (to_dec DEC_FUEL (- z) []) as [|a l] eqn:E; [done|].
    rewrite parse_digits_neg; [|done|lia|done].
    rewrite Z.opp_0, Hv, Z.opp_involutive. by rewrite decide_True.
  - rewrite Z.abs_eq in Hb by lia.
    pose proof (to_dec_canonical DEC_FUEL z ltac:(unfold DEC_FUEL; lia) Hb) as Hc.
    rewrite (i64_from_str_unsigned _ Hc), parse_digits_pos; [|apply Hc|lia|done].
    rewrite (to_dec_value _ _ Hb). by rewrite decide_True.
Qed.

Lemma usize_roundtrip (n : nat) :
  Z.of_nat n < 2 ^ 63 -> i64_from_str_radix (usize_to_string n) = Some (Z.of_nat n).
Proof.
  intros Hn. pose proof (i64_roundtrip (Z.of_nat n)) as H.
  unfold i64_to_string in H. destruct (Z.ltb_spec (Z.of_nat n) 0); [lia|].
  apply H. unfold in_signed. lia.
Qed.

Lemma usize_to_string_canonical (n : nat) :
  Z.of_nat n < 2 ^ 63 -> canonical_dec (usize_to_string n).
Proof.
  intros Hn. apply to_dec_canonical; [unfold DEC_FUEL; lia|].
  pose proof (to_dec_bound (Z.of_nat n)) as Hb. rewrite Z.abs_eq in Hb by lia.
  apply Hb. unfold in_signed; lia.
Qed.

Lemma dec_value_cons acc b d l :
  digit_val b = Some d -> dec_value acc (b :: l) = dec_value (acc * 10 + d) l.
Proof. intros Hd. unfold dec_value; simpl. by rewrite Hd. Qed.

Lemma dec_value_lower acc l :
  Forall is_digit l -> acc * 10 ^ Z.of_nat (length l) <= dec_value acc l.
Proof.
  intros Hd; revert acc; induction Hd as [|x l [d Hx] Hd IH]; intros acc.
  - unfold dec_value; simpl; lia.
  - pose proof (digit_val_Some _ _ Hx) as [Hr _].
    rewrite (dec_value_cons _ _ _ _ Hx). cbn [length]. rewrite pow10_succ.
    specialize (IH (acc * 10 + d)).
    pose proof (Z.pow_nonneg 10 (Z.of_nat (length l))). nia.
Qed.

(** A canonical numeral is no longer than its value needs. *)
Lemma canonical_length l :
  canonical_dec l -> dec_value 0 l < 10 ^ Z.of_nat DEC_FUEL -> (length l <= DEC_FUEL)%nat.
Proof.
  intros (Hd & Hne & Hz) Hv. destruct l as [|a l]; [done|].
  apply Forall_cons in Hd as [[va Ha] Hd].
  pose proof (digit_val_Some _ _ Ha) as [Hra Heq].
  destruct (decide (va = 0)) as [->|Hva].
  { rewrite Hz by (rewrite Heq; done). unfold DEC_FUEL; lia. }
  rewrite (dec_value_cons _ _ _ _ Ha) in Hv.
  pose proof (dec_value_lower (0 * 10 + va) l Hd) as Hlow.
  destruct (decide (length (a :: l) <= DEC_FUEL)%nat) as [|Hn]; [done|exfalso].
  assert (10 ^ Z.of_nat DEC_FUEL <= 10 ^ Z.of_nat (length l)) as Hmono
    by (apply Z.pow_le_mono_r; simpl in *; lia).
  pose proof (Z.pow_nonneg 10 (Z.of_nat (length l))). nia.
Qed.

Lemma canonical_print l :
  canonical_dec l -> dec_value 0 l < 10 ^ Z.of_nat DEC_FUEL ->
  to_dec DEC_FUEL (dec_value 0 l) [] = l.
Proof. intros Hc Hv. apply canonical_to_dec; [done|]. by apply canonical_length. Qed.

Lemma dec_value_head_pos b l :
  Forall is_digit (b :: l) -> b <> zero_byte -> 0 < dec_value 0 (b :: l).
Proof.
  intros [[d Hb] _]%Forall_cons Hne. rewrite (dec_value_cons _ _ _ _ Hb).
  pose proof (digit_val_Some _ _ Hb) as [Hr ->].
  assert (d <> 0) by (intros ->; done).
  pose proof (dec_value_ge (0 * 10 + d) l ltac:(lia)). lia.
Qed.

Lemma i64_print_nonneg l z :
  canonical_dec l -> parse_digits false 0 l = Some z -> i64_to_string z = l.
Proof.
  intros Hc Hp. pose proof Hc as (Hd & _).
  rewrite parse_digits_pos in Hp by (unfold in_signed; done || lia).
  case_decide as Hr; [|done]. injection Hp as <-.
  pose proof (dec_value_ge 0 l ltac:(lia)). unfold i64_to_string.
  destruct (Z.ltb_spec (dec_value 0 l) 0); [lia|].
  apply canonical_print; [done|].
  change (10 ^ Z.of_nat DEC_FUEL) with 100000000000000000000. unfold in_signed in Hr. lia.
Qed.

Lemma i64_print_neg b l z :
  canonical_dec (b :: l) -> b <> zero_byte ->
  parse_digits true 0 (b :: l) = Some z -> i64_to_string z = minus_byte :: b :: l.
Proof.
  intros Hc Hb Hp. pose proof Hc as (Hd & _).
  rewrite parse_digits_neg in Hp by (unfold in_signed; done || lia).
  rewrite Z.opp_0 in Hp. case_decide as Hr; [|done].
  assert (z = - dec_value 0 (b :: l)) as -> by congruence.
  pose proof (dec_value_head_pos b l Hd Hb). unfold i64_to_string.
  destruct (Z.ltb_spec (- dec_value 0 (b :: l)) 0); [|lia].
  rewrite Z.opp_involutive. f_equal. apply canonical_print; [done|].
  change (10 ^ Z.of_nat DEC_FUEL) with 100000000000000000000. unfold in_signed in Hr. lia.
Qed.

(** Parsing then printing gives the text back: the guards are the ones
    [decode_int] checks, and the absence of a leading plus sign. *)
Lemma i64_parse_print s z :
  i64_from_str_radix s = Some z ->
  head s <> Some plus_byte ->
  (head s = Some zero_byte -> length s = 1%nat) ->
  (forall s', s <> minus_byte :: zero_byte :: s') ->
  i64_to_string z = s.
Proof.
  intros Hp Hplus Hz Hmz. destruct s as [|b s]; [done|]. unfold i64_from_str_radix in Hp.
  case_decide as Hb; [subst b|].
  - destruct s as [|d s]; [done|]. pose proof (parse_digits_digits _ _ _ _ Hp) as Hd.
    assert (d <> zero_byte) as Hnz by (intros ->; by apply (Hmz s)).
    apply i64_print_neg; [|done|done]. split_and!; [done|done|]. simpl. congruence.
  - rewrite decide_False in Hp by (simpl in Hplus; congruence).
    pose proof (parse_digits_digits _ _ _ _ Hp) as Hd.
    by apply i64_print_nonneg.
Qed.
