(* ===== verification/Bencode.v ===== *)
(** * [bip_bencode]: bencode values, the decoder and the encoder

    [Ref] is the borrowed tree the decoder builds ([reference/bencode_ref.rs]),
    where every node keeps the slice it was read from; [Mut] is the owned tree
    the encoder writes ([mutable/bencode_mut.rs]).  The decoder works on
    positions in the input, as the source does, and its mutual recursion takes
    fuel; [BencodeTotal] shows that the fuel given by [BencodeRef_decode] always
    suffices and that no indexing panics. *)

From stdpp Require Import prelude list gmap strings.
From Stdlib Require Import ZArith Lia Strings.Byte.
From S2P Require Import Prelude Bytes BTreeMap DecStr.

#[local] Set Warnings "-register-all".

(** ** Data *)

Definition BEN_END : byte := "e"%byte.
Definition DICT_START : byte := "d"%byte.
Definition LIST_START : byte := "l"%byte.
Definition INT_START : byte := "i"%byte.
Definition BYTE_LEN_LOW : byte := "0"%byte.
Definition BYTE_LEN_HIGH : byte := "9"%byte.
Definition BYTE_LEN_END : byte := ":"%byte.

Inductive BencodeParseErrorKind : Type :=
| BytesEmpty (pos : nat)
| InvalidByte (pos : nat)
| InvalidIntNoDelimiter (pos : nat)
| InvalidIntNegativeZero (pos : nat)
| InvalidIntZeroPadding (pos : nat)
| InvalidIntParseError (pos : nat)
| InvalidKeyOrdering (pos : nat) (key : bytes)
| InvalidKeyDuplicates (pos : nat) (key : bytes)
| InvalidLengthNegative (pos : nat)
| InvalidLengthOverflow (pos : nat)
| InvalidRecursionExceeded (pos : nat) (max : nat).

Record BDecodeOpt : Type := mk_BDecodeOpt {
  max_recursion : nat;
  check_key_sort : bool;
  enforce_full_decode : bool;
}.

Definition DEFAULT_MAX_RECURSION : nat := 50.
Definition DEFAULT_CHECK_KEY_SORT : bool := false.
Definition DEFAULT_ENFORCE_FULL_DECODE : bool := true.
Definition BDecodeOpt_default : BDecodeOpt :=
  mk_BDecodeOpt DEFAULT_MAX_RECURSION DEFAULT_CHECK_KEY_SORT DEFAULT_ENFORCE_FULL_DECODE.

(** [BencodeRef]: the second component of each case is the source slice. *)
Inductive BencodeRef : Type :=
| RInt (n : Z) (buf : bytes)
| RBytes (b : bytes) (buf : bytes)
| RList (l : list BencodeRef) (buf : bytes)
| RDict (d : list (bytes * BencodeRef)) (buf : bytes).

Definition BencodeRef_buffer (r : BencodeRef) : bytes :=
  match r with
  | RInt _ buf | RBytes _ buf | RList _ buf | RDict _ buf => buf
  end.

(** [BencodeMut]: the same tree without slices. *)
Inductive BencodeMut : Type :=
| MInt (n : Z)
| MBytes (b : bytes)
| MList (l : list BencodeMut)
| MDict (d : list (bytes * BencodeMut)).

(** ** Decoder ([reference/decode.rs]) *)

Abbreviation parse_result := (outcome BencodeParseErrorKind).

Definition peek_byte (bs : bytes) (pos : nat) : parse_result byte :=
  ok_or (bs !! pos) (BytesEmpty pos).

Definition decode_int (bs : bytes) (pos : nat) (delim : byte) : parse_result (Z * nat) :=
  (* bytes.split_at(pos) panics past the end *)
  if decide (pos <= length bs) then
    let begin_decode := drop pos bs in
    match position (fun n => bool_decide (n = delim)) begin_decode with
    | None => Err (InvalidIntNoDelimiter pos)
    | Some relative_end_pos =>
        let int_byte_slice := take relative_end_pos begin_decode in
        if decide (1 < length int_byte_slice /\
                   int_byte_slice !! 0 = Some minus_byte /\ int_byte_slice !! 1 = Some zero_byte)
        then Err (InvalidIntNegativeZero pos)
        else if decide (1 < length int_byte_slice /\ int_byte_slice !! 0 = Some zero_byte)
        then Err (InvalidIntZeroPadding pos)
        else
          match from_utf8 int_byte_slice with
          | None => Err (InvalidIntParseError pos)
          | Some int_str =>
              let absolute_end_pos := pos + relative_end_pos in
              let next_pos := absolute_end_pos + 1 in
              match i64_from_str_radix int_str with
              | Some n => Ok (n, next_pos)
              | None => Err (InvalidIntParseError pos)
              end
          end
    end
  else Panic.

Definition decode_bytes (bs : bytes) (pos : nat) : parse_result (bytes * nat) :=
  '(num_bytes, start_pos) ← decode_int bs pos BYTE_LEN_END;
  if decide (num_bytes < 0)%Z then Err (InvalidLengthNegative pos)
  else
    let num_bytes := Z.to_nat num_bytes in
    rest ← slice_checked bs start_pos (length bs);
    if decide (length rest < num_bytes) then Err (InvalidLengthOverflow pos)
    else
      let next_pos := start_pos + num_bytes in
      content ← slice_checked bs start_pos next_pos;
      Ok (content, next_pos).

Definition is_len_digit (b : byte) : bool :=
  bool_decide (byte_val BYTE_LEN_LOW <= byte_val b <= byte_val BYTE_LEN_HIGH)%Z.

(** The key-order guard of the dictionary loop. *)
Definition key_out_of_order (opts : BDecodeOpt) (last_key : option bytes) (key : bytes) : bool :=
  match last_key, check_key_sort opts with
  | Some last_key, true => bytes_ltb key last_key
  | _, _ => false
  end.

Fixpoint decode (fuel : nat) (bs : bytes) (pos : nat) (opts : BDecodeOpt) (depth : nat)
    {struct fuel} : parse_result (BencodeRef * nat) :=
  match fuel with
  | O => NoFuel
  | S fuel =>
      if max_recursion opts <=? depth then Err (InvalidRecursionExceeded pos depth)
      else
        curr_byte ← peek_byte bs pos;
        if decide (curr_byte = INT_START) then
          '(bencode, next_pos) ← decode_int bs (pos + 1) BEN_END;
          buf ← slice_checked bs pos next_pos;
          Ok (RInt bencode buf, next_pos)
        else if decide (curr_byte = LIST_START) then
          '(bencode, next_pos) ← decode_list fuel bs (pos + 1) opts depth;
          buf ← slice_checked bs pos next_pos;
          Ok (RList bencode buf, next_pos)
        else if decide (curr_byte = DICT_START) then
          '(bencode, next_pos) ← decode_dict fuel bs (pos + 1) opts depth;
          buf ← slice_checked bs pos next_pos;
          Ok (RDict bencode buf, next_pos)
        else if is_len_digit curr_byte then
          '(bencode, next_pos) ← decode_bytes bs pos;
          buf ← slice_checked bs pos next_pos;
          Ok (RBytes bencode buf, next_pos)
        else Err (InvalidByte pos)
  end
with decode_list (fuel : nat) (bs : bytes) (pos : nat) (opts : BDecodeOpt) (depth : nat)
    {struct fuel} : parse_result (list BencodeRef * nat) :=
  match fuel with
  | O => NoFuel
  | S fuel =>
      curr_byte ← peek_byte bs pos;
      decode_list_loop fuel bs opts depth [] pos curr_byte
  end
with decode_list_loop (fuel : nat) (bs : bytes) (opts : BDecodeOpt) (depth : nat)
    (bencode_list : list BencodeRef) (curr_pos : nat) (curr_byte : byte)
    {struct fuel} : parse_result (list BencodeRef * nat) :=
  match fuel with
  | O => NoFuel
  | S fuel =>
      if decide (curr_byte = BEN_END) then Ok (bencode_list, curr_pos + 1)
      else
        '(bencode, next_pos) ← decode fuel bs curr_pos opts (depth + 1);
        curr_byte ← peek_byte bs next_pos;
        decode_list_loop fuel bs opts depth (bencode_list ++ [bencode]) next_pos curr_byte
  end
with decode_dict (fuel : nat) (bs : bytes) (pos : nat) (opts : BDecodeOpt) (depth : nat)
    {struct fuel} : parse_result (list (bytes * BencodeRef) * nat) :=
  match fuel with
  | O => NoFuel
  | S fuel =>
      curr_byte ← peek_byte bs pos;
      decode_dict_loop fuel bs opts depth [] pos curr_byte
  end
with decode_dict_loop (fuel : nat) (bs : bytes) (opts : BDecodeOpt) (depth : nat)
    (bencode_dict : list (bytes * BencodeRef)) (curr_pos : nat) (curr_byte : byte)
    {struct fuel} : parse_result (list (bytes * BencodeRef) * nat) :=
  match fuel with
  | O => NoFuel
  | S fuel =>
      if decide (curr_byte = BEN_END) then Ok (bencode_dict, curr_pos + 1)
      else
        '(key_bytes, next_pos) ← decode_bytes bs curr_pos;
        if key_out_of_order opts (bt_last_key bencode_dict) key_bytes
        then Err (InvalidKeyOrdering curr_pos key_bytes)
        else
          let curr_pos := next_pos in
          '(value, next_pos) ← decode fuel bs curr_pos opts (depth + 1);
          match bt_get key_bytes bencode_dict with
          | Some _ => Err (InvalidKeyDuplicates curr_pos key_bytes)
          | None =>
              let bencode_dict := bt_insert key_bytes value bencode_dict in
              curr_byte ← peek_byte bs next_pos;
              decode_dict_loop fuel bs opts depth bencode_dict next_pos curr_byte
          end
  end.

(** Three levels of calls per input byte, and one for the outermost call. *)
Definition decode_fuel (n : nat) : nat := 3 * n + 1.

(** [BencodeRef::decode] *)
Definition BencodeRef_decode (bs : bytes) (opts : BDecodeOpt) : parse_result BencodeRef :=
  '(bencode, end_pos) ← decode (decode_fuel (length bs)) bs 0 opts 0;
  if decide (end_pos <> length bs /\ enforce_full_decode opts = true)
  then Err (BytesEmpty end_pos)
  else Ok bencode.

(** ** Encoder ([mutable/encode.rs])

    The source appends to a buffer; the encoding of a value is what it appends. *)

(** [sort_by] on the keys: a stable insertion sort. *)
Fixpoint insert_by_key {V} (p : bytes * V) (l : list (bytes * V)) : list (bytes * V) :=
  match l with
  | [] => [p]
  | q :: l' => if bytes_ltb q.1 p.1 then q :: insert_by_key p l' else p :: l
  end.
Definition sort_by_key {V} (l : list (bytes * V)) : list (bytes * V) :=
  foldr insert_by_key [] l.

Definition encode_int (val : Z) : bytes := INT_START :: i64_to_string val ++ [BEN_END].

Definition encode_bytes (l : bytes) : bytes :=
  usize_to_string (length l) ++ [BYTE_LEN_END] ++ l.

Definition encode_list (encs : list bytes) : bytes :=
  LIST_START :: concat encs ++ [BEN_END].

Definition encode_dict (encs : list (bytes * bytes)) : bytes :=
  DICT_START ::
  concat ((fun '(key, value) => encode_bytes key ++ value) <$> sort_by_key encs) ++ [BEN_END].

Fixpoint encode (val : BencodeMut) : bytes :=
  match val with
  | MInt n => encode_int n
  | MBytes n => encode_bytes n
  | MList n => encode_list (encode <$> n)
  | MDict n => encode_dict ((fun '(k, v) => (k, encode v)) <$> n)
  end.

(** [encode] through the [BRefAccess] view of a decoded value sees only its kind. *)
Fixpoint to_mut (r : BencodeRef) : BencodeMut :=
  match r with
  | RInt n _ => MInt n
  | RBytes b _ => MBytes b
  | RList l _ => MList (to_mut <$> l)
  | RDict d _ => MDict ((fun '(k, v) => (k, to_mut v)) <$> d)
  end.

(** ** Well-formed values and their nesting *)

(** An [i64] at every leaf and a map at every dictionary; byte strings fit in memory. *)
Fixpoint mut_wf (v : BencodeMut) : Prop :=
  match v with
  | MInt n => in_signed 64 n
  | MBytes b => (Z.of_nat (length b) < 2 ^ 63)%Z
  | MList l => foldr (fun x P => mut_wf x /\ P) True l
  | MDict d =>
      bt_wf d /\
      foldr (fun '(k, x) P => (Z.of_nat (length k) < 2 ^ 63)%Z /\ mut_wf x /\ P) True d
  end.

(** Number of nested [decode] calls a value needs. *)
Fixpoint mut_depth (v : BencodeMut) : nat :=
  match v with
  | MInt _ | MBytes _ => 1
  | MList l => S (foldr (fun x n => Nat.max (mut_depth x) n) 0 l)
  | MDict d => S (foldr (fun '(_, x) n => Nat.max (mut_depth x) n) 0 d)
  end.

(** The decoded form of a value: every node carries its own encoding. *)
Fixpoint annotate (v : BencodeMut) : BencodeRef :=
  match v with
  | MInt n => RInt n (encode v)
  | MBytes b => RBytes b (encode v)
  | MList l => RList (annotate <$> l) (encode v)
  | MDict d => RDict ((fun '(k, x) => (k, annotate x)) <$> d) (encode v)
  end.

(** Induction over the nested lists. *)
Section ref_ind.
Context (P : BencodeRef -> Prop)
  (HInt : forall n buf, P (RInt n buf))
  (HBytes : forall b buf, P (RBytes b buf))
  (HList : forall l buf, Forall P l -> P (RList l buf))
  (HDict : forall d buf, Forall (fun p => P p.2) d -> P (RDict d buf)).

Fixpoint BencodeRef_induction (r : BencodeRef) : P r :=
  match r with
  | RInt n buf => HInt n buf
  | RBytes b buf => HBytes b buf
  | RList l buf =>
      HList l buf
        ((fix go (l : list BencodeRef) : Forall P l :=
            match l with
            | [] => Forall_nil_2 _
            | x :: l' => Forall_cons_2 _ _ _ (BencodeRef_induction x) (go l')
            end) l)
  | RDict d buf =>
      HDict d buf
        ((fix go (d : list (bytes * BencodeRef)) : Forall (fun p => P p.2) d :=
            match d with
            | [] => Forall_nil_2 _
            | (k, x) :: d' => Forall_cons_2 _ (k, x) _ (BencodeRef_induction x) (go d')
            end) d)
  end.
End ref_ind.

Section mut_ind.
Context (P : BencodeMut -> Prop)
  (HInt : forall n, P (MInt n))
  (HBytes : forall b, P (MBytes b))
  (HList : forall l, Forall P l -> P (MList l))
  (HDict : forall d, Forall (fun p => P p.2) d -> P (MDict d)).

Fixpoint BencodeMut_induction (r : BencodeMut) : P r :=
  match r with
  | MInt n => HInt n
  | MBytes b => HBytes b
  | MList l =>
      HList l
        ((fix go (l : list BencodeMut) : Forall P l :=
            match l with
            | [] => Forall_nil_2 _
            | x :: l' => Forall_cons_2 _ _ _ (BencodeMut_induction x) (go l')
            end) l)
  | MDict d =>
      HDict d
        ((fix go (d : list (bytes * BencodeMut)) : Forall (fun p => P p.2) d :=
            match d with
            | [] => Forall_nil_2 _
            | (k, x) :: d' => Forall_cons_2 _ (k, x) _ (BencodeMut_induction x) (go d')
            end) d)
  end.
End mut_ind.

Definition bstr (s : string) : bytes := String.list_byte_of_string s.

Example decode_int_smoke :
  BencodeRef_decode (bstr "i-500e") BDecodeOpt_default = Ok (RInt (-500) (bstr "i-500e")).
Proof. vm_compute. reflexivity. Qed.

Example decode_dict_smoke :
  BencodeRef_decode (bstr "d3:asdl3:fooi7eee") BDecodeOpt_default =
  Ok (annotate (MDict [(bstr "asd", MList [MBytes (bstr "foo"); MInt 7])])).
Proof. vm_compute. reflexivity. Qed.

Example decode_errors_smoke :
  BencodeRef_decode (bstr "i00e") BDecodeOpt_default = Err (InvalidIntZeroPadding 1) /\
  BencodeRef_decode (bstr "d1:ai0e1:ai0ee") BDecodeOpt_default
    = Err (InvalidKeyDuplicates 10 (bstr "a")) /\
  BencodeRef_decode (bstr "d1:zi0e1:ai0ee") (mk_BDecodeOpt 5 true true)
    = Err (InvalidKeyOrdering 7 (bstr "a")).
Proof. vm_compute. auto. Qed.
