(* ===== verification/BencodeTotal.v ===== *)
(** * The bencode decoder is total and faithful to its input

    Progress and slicing of every decoding routine, termination within the
    given fuel, absence of panics, and the shape of what is decoded: integers
    in range, dictionaries ordered without duplicates, nesting below the
    recursion limit, every node's buffer a slice of the input. *)

From stdpp Require Import prelude list gmap strings.
From Stdlib Require Import ZArith Lia Strings.Byte.
From S2P Require Import Prelude Bytes BTreeMap DecStr Bencode.

(** Every node of a decoded tree borrows a nonempty slice of the input. *)
Fixpoint slices_of (bs : bytes) (r : BencodeRef) : Prop :=
  (exists i j, i < j <= length bs /\ BencodeRef_buffer r = slice bs i j) /\
  match r with
  | RInt _ _ | RBytes _ _ => True
  | RList l _ => foldr (fun x P => slices_of bs x /\ P) True l
  | RDict d _ => foldr (fun '(_, x) P => slices_of bs x /\ P) True d
  end.

(** What a successful [decode] at [pos] and [depth] guarantees. *)
Record decoded (bs : bytes) (opts : BDecodeOpt) (pos depth : nat)
    (r : BencodeRef) (next : nat) : Prop := {
  decoded_next : pos < next <= length bs;
  decoded_buffer : BencodeRef_buffer r = slice bs pos next;
  decoded_slices : slices_of bs r;
  decoded_wf : mut_wf (to_mut r);
  decoded_depth : depth + mut_depth (to_mut r) <= max_recursion opts;
}.

Lemma foldr_and_Forall {A} (P : A -> Prop) (l : list A) :
  foldr (fun x Q => P x /\ Q) True l <-> Forall P l.
Proof.
  induction l as [|x l IH]; simpl; [split; auto|].
  rewrite IH, Forall_cons. done.
Qed.

Lemma foldr_max_le {A} (f : A -> nat) (l : list A) n :
  foldr (fun x m => Nat.max (f x) m) 0 l <= n <-> Forall (fun x => f x <= n) l.
Proof.
  induction l as [|x l IH]; simpl; [split; auto; lia|].
  rewrite Forall_cons, <- IH. lia.
Qed.

Lemma parse_digits_range neg acc l z :
  in_signed 64 acc -> parse_digits neg acc l = Some z -> in_signed 64 z.
Proof.
  revert acc; induction l as [|b l IH]; intros acc Ha; simpl; [congruence|].
  destruct (digit_val b); [|done]. repeat case_decide; try done; eauto.
Qed.

Lemma i64_from_str_range s z : i64_from_str_radix s = Some z -> in_signed 64 z.
Proof.
  assert (in_signed 64 0) by (unfold in_signed; lia).
  unfold i64_from_str_radix. destruct s as [|b s]; [done|].
  repeat case_decide; [destruct s; [done|]..|]; eauto using parse_digits_range.
Qed.

(** ** Leaves *)

Lemma decode_int_returns bs pos delim :
  pos <= length bs -> returns (decode_int bs pos delim).
Proof.
  intros Hp. unfold decode_int. rewrite decide_True by done.
  destruct (position _ _); [|done]. repeat case_decide; try done.
  destruct (from_utf8 _); [|done]. by destruct (i64_from_str_radix _).
Qed.

(** A decoded integer ends at the delimiter and is the value of the text before it. *)
Lemma decode_int_ok bs pos delim n next :
  decode_int bs pos delim = Ok (n, next) ->
  in_signed 64 n /\ pos < next <= length bs /\ bs !! (next - 1) = Some delim /\
  i64_from_str_radix (slice bs pos (next - 1)) = Some n /\
  (forall s, slice bs pos (next - 1) <> minus_byte :: zero_byte :: s) /\
  (head (slice bs pos (next - 1)) = Some zero_byte -> length (slice bs pos (next - 1)) = 1).
Proof.
  unfold decode_int. case_decide as Hp; [|done].
  destruct (position _ _) as [e|] eqn:Hpos; [|done].
  pose proof (position_lt _ _ _ Hpos) as He. rewrite length_drop in He.
  apply position_Some in Hpos as [(x & Hx & Hd%bool_decide_eq_true) _]. subst x.
  rewrite lookup_drop in Hx.
  assert (take e (drop pos bs) = slice bs pos (pos + e + 1 - 1)) as Hs
    by (unfold slice; f_equal; lia).
  case_decide as H1; [done|]. case_decide as H2; [done|].
  unfold from_utf8. destruct (utf8_ok _ _); [|done].
  destruct (i64_from_str_radix _) as [z|] eqn:Hz; [|done].
  intros [= <- <-]. rewrite <- Hs in *. split_and!.
  - by eapply i64_from_str_range.
  - lia.
  - lia.
  - rewrite <- Hx. f_equal; lia.
  - done.
  - intros s Heq. apply H1. rewrite Heq. split_and!; [simpl; lia|done|done].
  - intros Hh. destruct (take e (drop pos bs)) as [|a [|a' l]] eqn:E; try done.
    exfalso. apply H2. simpl in *. split; [lia|done].
Qed.

Lemma decode_bytes_returns bs pos :
  pos <= length bs -> returns (decode_bytes bs pos).
Proof.
  intros Hp. apply returns_bind; [by apply decode_int_returns|].
  intros [n start] H. apply decode_int_ok in H as (_ & Hs & _).
  destruct (decide (n < 0)%Z); [done|].
  rewrite (slice_checked_eq bs start (length bs)) by lia. simpl.
  rewrite length_slice by lia. case_decide; [done|].
  rewrite slice_checked_eq by lia. done.
Qed.

Lemma decode_bytes_ok bs pos c next :
  decode_bytes bs pos = Ok (c, next) ->
  exists start, pos < start <= next /\ next <= length bs /\ c = slice bs start next /\
    (Z.of_nat (length c) < 2 ^ 63)%Z /\
    decode_int bs pos BYTE_LEN_END = Ok (Z.of_nat (length c), start).
Proof.
  unfold decode_bytes. destruct (decode_int bs pos BYTE_LEN_END) as [[n start]| | |] eqn:Hi; try done.
  simpl. pose proof Hi as (Hn & Hs & _)%decode_int_ok.
  destruct (decide (n < 0)%Z); [done|].
  rewrite (slice_checked_eq bs start (length bs)) by lia. simpl.
  rewrite length_slice by lia. case_decide; [done|].
  rewrite slice_checked_eq by lia. simpl. intros [= <- <-].
  exists start. rewrite length_slice by lia.
  replace (start + Z.to_nat n - start) with (Z.to_nat n) by lia.
  unfold in_signed in Hn. rewrite Z2Nat.id by lia. split_and!; try lia; done.
Qed.

Lemma peek_byte_ok bs pos b : peek_byte bs pos = Ok b <-> bs !! pos = Some b.
Proof. unfold peek_byte, ok_or. destruct (bs !! pos); split; congruence. Qed.

Lemma peek_byte_returns bs pos : returns (peek_byte bs pos).
Proof. unfold peek_byte, ok_or. by destruct (bs !! pos). Qed.
#[export] Hint Resolve peek_byte_returns : rbt.

(** ** What success means *)

Section ok.
Context (bs : bytes) (opts : BDecodeOpt).

(** Children of a list or dictionary, one level deeper. *)
Definition child_ok (depth : nat) (r : BencodeRef) : Prop :=
  slices_of bs r /\ mut_wf (to_mut r) /\ S depth + mut_depth (to_mut r) <= max_recursion opts.

Definition entry_ok (depth : nat) (p : bytes * BencodeRef) : Prop :=
  (Z.of_nat (length p.1) < 2 ^ 63)%Z /\ child_ok depth p.2.

Lemma decoded_child pos depth r next :
  decoded bs opts pos (depth + 1) r next -> child_ok depth r.
Proof. intros []. split_and!; try done. lia. Qed.

Lemma bt_insert_Forall {V} (P : bytes * V -> Prop) k v m :
  P (k, v) -> Forall P m -> Forall P (bt_insert k v m).
Proof.
  intros Hk. induction 1 as [|[k' v'] m Hx Hm IH]; simpl; [by constructor|].
  destruct (bytes_cmp k k'); by repeat constructor.
Qed.

Definition fuel_ok (fuel : nat) : Prop :=
  (forall pos depth r next,
     decode fuel bs pos opts depth = Ok (r, next) -> decoded bs opts pos depth r next) /\
  (forall pos depth l next,
     decode_list fuel bs pos opts depth = Ok (l, next) ->
     pos < next <= length bs /\ Forall (child_ok depth) l) /\
  (forall depth acc pos b l next,
     decode_list_loop fuel bs opts depth acc pos b = Ok (l, next) ->
     bs !! pos = Some b -> Forall (child_ok depth) acc ->
     pos < next <= length bs /\ Forall (child_ok depth) l) /\
  (forall pos depth d next,
     decode_dict fuel bs pos opts depth = Ok (d, next) ->
     pos < next <= length bs /\ bt_wf d /\ Forall (entry_ok depth) d) /\
  (forall depth acc pos b d next,
     decode_dict_loop fuel bs opts depth acc pos b = Ok (d, next) ->
     bs !! pos = Some b -> bt_wf acc -> Forall (entry_ok depth) acc ->
     pos < next <= length bs /\ bt_wf d /\ Forall (entry_ok depth) d).

Lemma mk_decoded_list pos depth l next :
  depth < max_recursion opts -> S pos < next <= length bs -> Forall (child_ok depth) l ->
  decoded bs opts pos depth (RList l (slice bs pos next)) next.
Proof.
  intros Hd Hn Hl. split; simpl; [lia|done|..].
  - split; [eexists _, _; split; [|done]; lia|]. apply foldr_and_Forall.
    eapply Forall_impl; [exact Hl|]. by intros x (? & _).
  - apply foldr_and_Forall, Forall_fmap. eapply Forall_impl; [exact Hl|]. by intros x (_ & ? & _).
  - cut (foldr (fun x n => Nat.max (mut_depth x) n) 0 (to_mut <$> l) <= max_recursion opts - S depth);
      [lia|].
    apply foldr_max_le, Forall_fmap. eapply Forall_impl; [exact Hl|].
    intros x (_ & _ & ?). simpl. lia.
Qed.

Lemma bt_wf_fmap {V W} (f : V -> W) (d : list (bytes * V)) :
  bt_wf ((fun '(k, v) => (k, f v)) <$> d) <-> bt_wf d.
Proof.
  unfold bt_wf. replace (((fun '(k, v) => (k, f v)) <$> d).*1) with (d.*1); [done|].
  rewrite <- list_fmap_compose. apply list_fmap_ext. by intros ? [].
Qed.

Lemma foldr_pair_Forall {V} (P : bytes -> V -> Prop) (d : list (bytes * V)) :
  foldr (fun '(k, x) Q => P k x /\ Q) True d <-> Forall (fun p => P p.1 p.2) d.
Proof.
  induction d as [|[k x] d IH]; simpl; [split; auto|]. rewrite IH, Forall_cons. done.
Qed.

Lemma mk_decoded_dict pos depth d next :
  depth < max_recursion opts -> S pos < next <= length bs ->
  bt_wf d -> Forall (entry_ok depth) d ->
  decoded bs opts pos depth (RDict d (slice bs pos next)) next.
Proof.
  intros Hd Hn Hwf Hl. split; simpl; [lia|done|..].
  - split; [eexists _, _; split; [|done]; lia|].
    apply (foldr_pair_Forall (fun _ x => slices_of bs x)).
    eapply Forall_impl; [exact Hl|]. by intros [k x] (_ & ? & _).
  - split; [by apply bt_wf_fmap|].
    induction Hl as [|[k x] d' (Hk & _ & Hx & _) Hl IH]; simpl; [done|].
    split_and!; try done. apply IH. by apply bt_wf_cons in Hwf as [? _].
  - cut (foldr (fun '(_, x) n => Nat.max (mut_depth x) n) 0
           ((fun '(k, v) => (k, to_mut v)) <$> d) <= max_recursion opts - S depth); [lia|].
    clear Hwf. induction Hl as [|[k x] d' (_ & _ & _ & Hx) Hl IH]; csimpl in *; lia.
Qed.

Lemma decode_list_loop_ok fuel :
  fuel_ok fuel -> forall depth acc pos b l next,
  decode_list_loop (S fuel) bs opts depth acc pos b = Ok (l, next) ->
  bs !! pos = Some b -> Forall (child_ok depth) acc ->
  pos < next <= length bs /\ Forall (child_ok depth) l.
Proof.
  intros (IHd & _ & IHl & _) depth acc pos b l next. simpl. case_decide as Hend.
  - intros [= <- <-] Hb%lookup_lt_Some Hacc. split; [lia|done].
  - intros ([r np] & Hr%IHd & (c & Hc%peek_byte_ok & H)%outcome_bind_ok)%outcome_bind_ok Hb Hacc.
    pose proof (decoded_next _ _ _ _ _ _ Hr). apply IHl in H; [|done|].
    + destruct H as [? ?]; split; [lia|done].
    + apply Forall_app; split; [done|]. constructor; [by eapply decoded_child|done].
Qed.

Lemma decode_dict_loop_ok fuel :
  fuel_ok fuel -> forall depth acc pos b d next,
  decode_dict_loop (S fuel) bs opts depth acc pos b = Ok (d, next) ->
  bs !! pos = Some b -> bt_wf acc -> Forall (entry_ok depth) acc ->
  pos < next <= length bs /\ bt_wf d /\ Forall (entry_ok depth) d.
Proof.
  intros (IHd & _ & _ & _ & IHl) depth acc pos b d next. simpl. case_decide as Hend.
  - intros [= <- <-] Hb%lookup_lt_Some Hwf Hacc. split; [lia|done].
  - intros ([key kp] & Hk%decode_bytes_ok & H)%outcome_bind_ok Hb Hwf Hacc.
    destruct Hk as (start & Hstart & Hkp & Hkey & Hlen & _).
    destruct (key_out_of_order _ _ _); [done|].
    apply outcome_bind_ok in H as ([r np] & Hr%IHd & H).
    destruct (bt_get key acc) eqn:Hget; [done|].
    apply outcome_bind_ok in H as (c & Hc%peek_byte_ok & H).
    pose proof (decoded_next _ _ _ _ _ _ Hr). apply IHl in H; [|done|auto with rbt|].
    + destruct H as (? & ? & ?); split_and!; done || lia.
    + apply bt_insert_Forall; [|done]. split; [done|by eapply decoded_child].
Qed.

Lemma decode_step_ok fuel :
  fuel_ok fuel -> forall pos depth r next,
  decode (S fuel) bs pos opts depth = Ok (r, next) -> decoded bs opts pos depth r next.
Proof.
  intros (_ & IHl & _ & IHdi & _) pos depth r next. simpl.
  destruct (Nat.leb_spec (max_recursion opts) depth) as [|Hd]; [done|].
  intros (c & Hc%peek_byte_ok & H)%outcome_bind_ok. pose proof (lookup_lt_Some _ _ _ Hc) as Hpos.
  case_decide; [|case_decide; [|case_decide; [|destruct (is_len_digit c); [|done]]]];
    apply outcome_bind_ok in H as ([v np] & Hv & (s & Hs%slice_checked_ok & [= <- <-])%outcome_bind_ok);
    destruct Hs as [-> Hb].
  - apply decode_int_ok in Hv as (Hn & Hnp & _).
    split; simpl; [lia|done| |done|lia]. split; [|done]. eexists _, _; split; [|done]; lia.
  - apply IHl in Hv as [Hnp Hl]. apply mk_decoded_list; [done|lia|done].
  - apply IHdi in Hv as (Hnp & Hwf & Hl). apply mk_decoded_dict; [done|lia|done|done].
  - apply decode_bytes_ok in Hv as (start & Hst & Hnp & -> & Hlen & _).
    split; simpl; [lia|done| |done|lia]. split; [|done]. eexists _, _; split; [|done]; lia.
Qed.

Lemma decode_fuel_ok fuel : fuel_ok fuel.
Proof.
  induction fuel as [|fuel IH]; [repeat split; intros; discriminate|].
  pose proof IH as (_ & _ & IHl & _ & IHdl). split_and!.
  - by apply decode_step_ok.
  - simpl. intros pos depth l next (c & Hc%peek_byte_ok & H)%outcome_bind_ok. by eapply IHl.
  - by apply decode_list_loop_ok.
  - simpl. intros pos depth d next (c & Hc%peek_byte_ok & H)%outcome_bind_ok.
    eapply IHdl; eauto with rbt.
  - by apply decode_dict_loop_ok.
Qed.

Lemma decode_ok fuel pos depth r next :
  decode fuel bs pos opts depth = Ok (r, next) -> decoded bs opts pos depth r next.
Proof. apply decode_fuel_ok. Qed.

(** ** Termination and absence of panics *)

Definition fuel_returns (fuel : nat) : Prop :=
  (forall pos depth, decode_fuel (length bs - pos) <= fuel ->
     returns (decode fuel bs pos opts depth)) /\
  (forall pos depth, decode_fuel (length bs - pos) + 2 <= fuel ->
     returns (decode_list fuel bs pos opts depth)) /\
  (forall depth acc pos b, bs !! pos = Some b -> decode_fuel (length bs - pos) + 1 <= fuel ->
     returns (decode_list_loop fuel bs opts depth acc pos b)) /\
  (forall pos depth, decode_fuel (length bs - pos) + 2 <= fuel ->
     returns (decode_dict fuel bs pos opts depth)) /\
  (forall depth acc pos b, bs !! pos = Some b -> decode_fuel (length bs - pos) + 1 <= fuel ->
     returns (decode_dict_loop fuel bs opts depth acc pos b)).

Lemma returns_with_slice {A} (m : parse_result (A * nat)) pos
    (g : bytes -> A -> BencodeRef) :
  returns m -> (forall a next, m = Ok (a, next) -> pos <= next <= length bs) ->
  returns ('(a, next) ← m; buf ← slice_checked bs pos next; Ok (g buf a, next)).
Proof.
  intros Hm Hok. apply returns_bind; [done|]. intros [a next] Ha.
  rewrite slice_checked_eq by eauto. done.
Qed.

Lemma decode_step_returns fuel :
  fuel_returns fuel -> forall pos depth,
  decode_fuel (length bs - pos) <= S fuel -> returns (decode (S fuel) bs pos opts depth).
Proof.
  unfold decode_fuel. intros (_ & IHl & _ & IHdi & _) pos depth Hf. simpl.
  destruct (_ <=? _); [done|]. apply returns_bind; [auto with rbt|].
  intros c Hc%peek_byte_ok%lookup_lt_Some.
  case_decide; [|case_decide; [|case_decide; [|destruct (is_len_digit c); [|done]]]].
  - apply returns_with_slice; [apply decode_int_returns; lia|].
    intros a next (_ & ? & _)%decode_int_ok. lia.
  - apply returns_with_slice; [apply IHl; unfold decode_fuel; lia|].
    intros a next Ha. apply decode_fuel_ok in Ha as [? _]. lia.
  - apply returns_with_slice; [apply IHdi; unfold decode_fuel; lia|].
    intros a next Ha. apply decode_fuel_ok in Ha as [? _]. lia.
  - apply returns_with_slice; [apply decode_bytes_returns; lia|].
    intros a next (start & ? & ? & _)%decode_bytes_ok. lia.
Qed.

Lemma decode_list_loop_returns fuel :
  fuel_returns fuel -> forall depth acc pos b,
  bs !! pos = Some b -> decode_fuel (length bs - pos) + 1 <= S fuel ->
  returns (decode_list_loop (S fuel) bs opts depth acc pos b).
Proof.
  unfold decode_fuel. intros (IHd & _ & IHl & _) depth acc pos b Hb%lookup_lt_Some Hf. simpl.
  case_decide; [done|]. apply returns_bind; [apply IHd; unfold decode_fuel; lia|].
  intros [r next] Hr%decode_ok%decoded_next.
  apply returns_bind; [auto with rbt|]. intros c Hc%peek_byte_ok.
  apply IHl; [done|unfold decode_fuel; lia].
Qed.

Lemma decode_dict_loop_returns fuel :
  fuel_returns fuel -> forall depth acc pos b,
  bs !! pos = Some b -> decode_fuel (length bs - pos) + 1 <= S fuel ->
  returns (decode_dict_loop (S fuel) bs opts depth acc pos b).
Proof.
  unfold decode_fuel. intros (IHd & _ & _ & _ & IHl) depth acc pos b Hb%lookup_lt_Some Hf. simpl.
  case_decide; [done|]. apply returns_bind; [apply decode_bytes_returns; lia|].
  intros [key kp] (start & Hst & Hkp & _)%decode_bytes_ok.
  destruct (key_out_of_order _ _ _); [done|].
  apply returns_bind; [apply IHd; unfold decode_fuel; lia|].
  intros [r next] Hr%decode_ok%decoded_next. destruct (bt_get _ _); [done|].
  apply returns_bind; [auto with rbt|]. intros c Hc%peek_byte_ok.
  apply IHl; [done|unfold decode_fuel; lia].
Qed.

Lemma decode_fuel_returns fuel : fuel_returns fuel.
Proof.
  induction fuel as [|fuel IH]; [unfold fuel_returns, decode_fuel; repeat split; intros; lia|].
  pose proof IH as (_ & _ & IHl & _ & IHdl). split_and!.
  - by apply decode_step_returns.
  - intros pos depth Hf. simpl. apply returns_bind; [auto with rbt|].
    intros c Hc%peek_byte_ok. apply IHl; [done|lia].
  - by apply decode_list_loop_returns.
  - intros pos depth Hf. simpl. apply returns_bind; [auto with rbt|].
    intros c Hc%peek_byte_ok. apply IHdl; [done|lia].
  - by apply decode_dict_loop_returns.
Qed.
End ok.

Lemma BencodeRef_decode_ok bs opts r :
  BencodeRef_decode bs opts = Ok r ->
  exists next, decode (decode_fuel (length bs)) bs 0 opts 0 = Ok (r, next) /\
    (enforce_full_decode opts = true -> next = length bs).
Proof.
  unfold BencodeRef_decode. intros ([v next] & Hv & H)%outcome_bind_ok.
  case_decide as Hc; [done|]. injection H as <-. exists next. split; [done|].
  intros He. destruct (decide (next = length bs)); [done|]. exfalso; auto.
Qed.

Lemma BencodeRef_decode_returns bs opts : returns (BencodeRef_decode bs opts).
Proof.
  apply returns_bind.
  - apply decode_fuel_returns. unfold decode_fuel. rewrite Nat.sub_0_r. lia.
  - intros [v next] _. by case_decide.
Qed.

(** ** Properties *)

(** C5. Decoding terminates without panicking on every input and under every option:
    for any byte string and any options [BencodeRef::decode] comes back with a
    value or a parse error, so neither an index, nor [split_at], nor a slice
    expression of the decoder can fail. *)
Theorem decode_total (bs : bytes) (opts : BDecodeOpt) :
  returns (BencodeRef_decode bs opts).
Proof. apply BencodeRef_decode_returns. Qed.

Lemma decode_buffer bs opts r : BencodeRef_decode bs opts = Ok r ->
  exists next, 0 < next <= length bs /\ BencodeRef_buffer r = take next bs /\ (enforce_full_decode opts = true -> BencodeRef_buffer r = bs).
Proof.
  intros (next & Hd%decode_ok & Hfull)%BencodeRef_decode_ok. destruct Hd.
  assert (BencodeRef_buffer r = take next bs) as Hbuf.
  { rewrite decoded_buffer0. unfold slice. by rewrite drop_0, Nat.sub_0_r. }
  exists next. split_and!; [lia..|done|]. intros ->%Hfull. rewrite Hbuf. by apply take_ge.
Qed.

(** C32. Everything that decodes is well formed: integers fit an [i64],
    dictionary keys are strictly ordered (so unique), the nesting stays within
    [max_recursion], every node's buffer is a nonempty slice of the input, and
    with [enforce_full_decode] the root's buffer is the whole input. *)
Theorem decode_sound (bs : bytes) (opts : BDecodeOpt) (r : BencodeRef) :
  BencodeRef_decode bs opts = Ok r ->
  mut_wf (to_mut r) /\ mut_depth (to_mut r) <= max_recursion opts /\ slices_of bs r /\
  (exists next, 0 < next <= length bs /\ BencodeRef_buffer r = take next bs) /\
  (enforce_full_decode opts = true -> BencodeRef_buffer r = bs).
Proof.
  intros Hr. destruct (decode_buffer _ _ _ Hr) as (next & Hn & Hb & Hfull). apply BencodeRef_decode_ok in Hr as (next' & Hd%decode_ok & _).
  destruct Hd. split_and!; eauto.
Qed.

Lemma decode_sound_witness :
  let r := annotate (MDict [(bstr "a", MList [MInt 7])]) in
  mut_wf (to_mut r) /\ mut_depth (to_mut r) <= 3 /\ slices_of (bstr "d1:ali7eee!") r.
Proof.
  intros r.
  destruct (decode_sound (bstr "d1:ali7eee!") (mk_BDecodeOpt 3 true false) r) as (H1 & H2 & H3 & _).
  - vm_compute. reflexivity.
  - auto.
Defined.
