(* ===== verification/BencodeRoundtrip.v ===== *)
(** * Bencode round trips

    Decoding inverts encoding, wherever the encoding stands in the input, and
    re-encoding what was decoded gives back the bytes it was read from when key
    order is checked and no number carries a plus sign. *)

From stdpp Require Import prelude list gmap strings.
From Stdlib Require Import ZArith Lia Strings.Byte.
From S2P Require Import Prelude Bytes BTreeMap DecStr Bencode BencodeTotal.

(** ** Text at a position of the input *)

Definition text_at (bs : bytes) (pos : nat) (s : bytes) : Prop :=
  pos + length s <= length bs /\ slice bs pos (pos + length s) = s.

Lemma text_at_app bs pos s t :
  text_at bs pos (s ++ t) <-> text_at bs pos s /\ text_at bs (pos + length s) t.
Proof.
  unfold text_at. rewrite length_app. split.
  - intros [Hl Hs].
    rewrite <- (slice_slice_app bs pos (pos + length s)) in Hs by lia.
    apply app_inj_1 in Hs as [H1 H2]; [|rewrite length_slice; lia].
    rewrite Nat.add_assoc in *. auto with lia.
  - intros [[Hl1 H1] [Hl2 H2]]. split; [lia|].
    rewrite <- (slice_slice_app bs pos (pos + length s)) by lia.
    rewrite H1. f_equal. rewrite <- Nat.add_assoc in H2. done.
Qed.

Lemma text_at_cons bs pos b t :
  text_at bs pos (b :: t) <-> bs !! pos = Some b /\ text_at bs (pos + 1) t.
Proof.
  change (b :: t) with ([b] ++ t). rewrite text_at_app. apply and_iff_compat_r.
  unfold text_at; simpl. split.
  - intros [Hl Hs]. destruct (lookup_lt_is_Some_2 bs pos) as [c Hc]; [lia|].
    rewrite (slice_cons _ _ _ _ Hc) in Hs by lia. congruence.
  - intros Hb. pose proof (lookup_lt_Some _ _ _ Hb). split; [lia|].
    rewrite (slice_cons _ _ _ _ Hb) by lia. unfold slice.
    replace (pos + 1 - S pos) with 0 by lia. done.
Qed.

Lemma text_at_self s : text_at s 0 s.
Proof. split; [simpl; lia|]. apply slice_all. Qed.

Lemma text_at_drop bs pos s : text_at bs pos s -> exists post, drop pos bs = s ++ post.
Proof.
  intros [Hl Hs]. exists (drop (length s) (drop pos bs)).
  rewrite <- Hs at 1. unfold slice. rewrite Nat.add_comm, Nat.add_sub, take_drop. done.
Qed.

Lemma text_at_slice bs pos s : text_at bs pos s -> slice bs pos (pos + length s) = s.
Proof. by intros []. Qed.

Lemma text_at_le bs pos s : text_at bs pos s -> pos + length s <= length bs.
Proof. by intros []. Qed.

(** ** Numbers *)

Lemma utf8_ascii fuel l :
  Forall (fun b => in_range 0 127 b = true) l -> length l <= fuel -> utf8_ok fuel l = true.
Proof.
  intros Hl; revert fuel; induction Hl as [|b l Hb Hl IH]; intros [|f] Hf; simpl in *; try done.
  - lia.
  - rewrite Hb. apply IH. lia.
Qed.

Definition is_delim (b : byte) : Prop := b = BEN_END \/ b = BYTE_LEN_END.

Definition num_char (b : byte) : Prop := is_digit b \/ b = minus_byte \/ b = plus_byte.

(** A number the decoder accepts. *)
Record int_text (s : bytes) (n : Z) : Prop := {
  it_chars : Forall num_char s;
  it_pad : head s = Some zero_byte -> length s = 1;
  it_negz : forall s', s <> minus_byte :: zero_byte :: s';
  it_parse : i64_from_str_radix s = Some n;
}.

Lemma is_digit_range b : is_digit b -> (48 <= byte_val b <= 57)%Z.
Proof.
  intros [d Hd]. unfold digit_val, ascii_zero in Hd. case_decide; [lia|done].
Qed.

Lemma int_text_utf8 s n : int_text s n -> from_utf8 s = Some s.
Proof.
  intros [Hc _ _ _]. unfold from_utf8. rewrite utf8_ascii; [done| |done].
  eapply Forall_impl; [exact Hc|]. intros b Hb. apply bool_decide_eq_true.
  destruct Hb as [Hb%is_digit_range|[-> | ->]]; [lia|by vm_compute..].
Qed.

Lemma num_char_not_delim b : num_char b -> ~ is_delim b.
Proof.
  intros Hb Hd. assert (~ (48 <= byte_val b <= 57)%Z) as Hn.
  { intros [H1 H2]. destruct Hd as [-> | ->]; by vm_compute in H1, H2. }
  destruct Hb as [Hb%is_digit_range|[-> | ->]]; [done|..]; by destruct Hd.
Qed.

Lemma decode_int_text bs pos s delim n :
  int_text s n -> is_delim delim -> text_at bs pos (s ++ [delim]) ->
  decode_int bs pos delim = Ok (n, pos + length s + 1).
Proof.
  intros Hs Hd Ht. pose proof (text_at_le _ _ _ Ht) as Hle. rewrite length_app in Hle.
  unfold decode_int. rewrite decide_True by (simpl in *; lia).
  destruct (text_at_drop _ _ _ Ht) as [post ->]. rewrite <- app_assoc.
  rewrite position_app_skip.
  2:{ eapply Forall_impl; [apply (it_chars _ _ Hs)|]. intros b Hb. apply bool_decide_eq_false.
      intros ->. by eapply num_char_not_delim. }
  simpl. rewrite bool_decide_eq_true_2 by done. simpl. rewrite Nat.add_0_r, take_app_length.
  rewrite decide_False.
  2:{ intros (_ & H0 & H1). destruct s as [|a [|b s]]; simplify_eq/=.
      by eapply (it_negz _ _ Hs). }
  rewrite decide_False.
  2:{ intros (Hl & H0). destruct s as [|a s]; simplify_eq/=.
      pose proof (it_pad _ _ Hs eq_refl). simpl in *; lia. }
  rewrite (int_text_utf8 _ _ Hs), (it_parse _ _ Hs). done.
Qed.

Lemma canonical_int_text s n :
  canonical_dec s -> i64_from_str_radix s = Some n -> int_text s n.
Proof.
  intros (Hd & Hne & Hz) Hp. split; [|done| |done].
  - eapply Forall_impl; [exact Hd|]. by left.
  - intros s' ->. apply Forall_cons in Hd as [[H _]%is_digit_not_sign _]. done.
Qed.

Lemma usize_int_text (k : nat) :
  (Z.of_nat k < 2 ^ 63)%Z -> int_text (usize_to_string k) (Z.of_nat k).
Proof. intros. apply canonical_int_text; auto using usize_to_string_canonical, usize_roundtrip. Qed.

Lemma i64_int_text n : in_signed 64 n -> int_text (i64_to_string n) n.
Proof.
  intros Hn. pose proof (i64_roundtrip n Hn) as Hp. pose proof (to_dec_bound n Hn) as Hb.
  revert Hp. unfold i64_to_string. destruct (Z.ltb_spec n 0) as [Hneg|Hpos]; intros Hp.
  - rewrite Z.abs_neq in Hb by lia.
    pose proof (to_dec_canonical DEC_FUEL (- n) ltac:(unfold DEC_FUEL; lia) Hb) as (Hd & Hne & Hz).
    pose proof (to_dec_value _ _ Hb) as Hv. revert Hd Hne Hz Hp Hv.
    generalize (to_dec DEC_FUEL (- n) []). intros t Hd Hne Hz Hp Hv. split; [|done| |done].
    + constructor; [right; by left|]. eapply Forall_impl; [exact Hd|]. by left.
    + intros s' [= ->]. specialize (Hz eq_refl). destruct s'; [|done].
      change (dec_value 0 [zero_byte]) with 0%Z in Hv. lia.
  - rewrite Z.abs_eq in Hb by lia.
    apply canonical_int_text; [|done]. apply to_dec_canonical; [unfold DEC_FUEL; lia|done].
Qed.

(** ** Values *)

Lemma encode_bytes_head b :
  (Z.of_nat (length b) < 2 ^ 63)%Z ->
  exists c t, encode_bytes b = c :: t /\ (48 <= byte_val c <= 57)%Z.
Proof.
  intros Hb. unfold encode_bytes. pose proof (usize_to_string_canonical _ Hb) as (Hd & Hne & _).
  destruct (usize_to_string (length b)) as [|c t]; [done|].
  apply Forall_cons in Hd as [Hc%is_digit_range _]. eauto.
Qed.

Lemma len_digit_cases c :
  (48 <= byte_val c <= 57)%Z ->
  c <> BEN_END /\ c <> INT_START /\ c <> LIST_START /\ c <> DICT_START /\ is_len_digit c = true.
Proof.
  intros Hc. split_and!; [intros ->; destruct Hc as [H1 H2]; by vm_compute in H1, H2..|].
  apply bool_decide_eq_true. exact Hc.
Qed.

Lemma encode_head v :
  mut_wf v -> exists c t, encode v = c :: t /\ c <> BEN_END.
Proof.
  destruct v as [n|b|l|d]; simpl; [by eexists _, _| |by eexists _, _|by eexists _, _].
  intros (c & t & -> & (H & _)%len_digit_cases)%encode_bytes_head. eauto.
Qed.

Lemma encode_nonempty v : mut_wf v -> 0 < length (encode v).
Proof. intros (c & t & -> & _)%encode_head. simpl; lia. Qed.

Lemma decode_bytes_text bs pos b :
  (Z.of_nat (length b) < 2 ^ 63)%Z -> text_at bs pos (encode_bytes b) ->
  decode_bytes bs pos = Ok (b, pos + length (encode_bytes b)).
Proof.
  intros Hb Ht. unfold encode_bytes in *. rewrite app_assoc in Ht.
  apply text_at_app in Ht as [Hi Ht].
  unfold decode_bytes.
  rewrite (decode_int_text _ _ _ BYTE_LEN_END _ (usize_int_text _ Hb)) by (done || by right).
  simpl. rewrite decide_False by lia. rewrite Nat2Z.id.
  pose proof (text_at_le _ _ _ Ht) as Hle. pose proof (text_at_slice _ _ _ Ht) as Hs.
  rewrite !length_app in *. simpl in *. rewrite Nat.add_assoc in *.
  rewrite (slice_checked_eq bs _ (length bs)) by lia. simpl.
  rewrite length_slice by lia. rewrite decide_False by lia.
  rewrite slice_checked_eq by lia. simpl. rewrite Hs. do 2 f_equal. lia.
Qed.

Lemma sort_by_key_wf {V} (d : list (bytes * V)) : bt_wf d -> sort_by_key d = d.
Proof.
  induction d as [|[k v] d IH]; [done|]. intros [Hd Hlt]%bt_wf_cons.
  unfold sort_by_key in *; simpl. rewrite IH by done.
  destruct d as [|[k' v'] d]; [done|]. simpl.
  destruct (bytes_ltb k' k) eqn:E; [|done].
  apply bytes_ltb_lt in E. exfalso. eapply bytes_lt_not; [exact E|]. apply Hlt. left.
Qed.

(** The bytes of a dictionary's entries in order. *)
Definition encode_entries (d : list (bytes * BencodeMut)) : bytes :=
  concat ((fun '(k, v) => encode_bytes k ++ encode v) <$> d).

Lemma encode_dict_entries d :
  bt_wf d -> encode (MDict d) = DICT_START :: encode_entries d ++ [BEN_END].
Proof.
  intros Hd. simpl. unfold encode_dict, encode_entries. do 2 f_equal.
  rewrite sort_by_key_wf by (by apply bt_wf_fmap).
  rewrite <- list_fmap_compose. f_equal. apply list_fmap_ext. by intros ? [].
Qed.

(** Decoding the encoding of [v], with enough fuel for its bytes. *)
Definition decodes (v : BencodeMut) : Prop :=
  forall bs pos opts depth fuel,
  mut_wf v -> text_at bs pos (encode v) -> depth + mut_depth v <= max_recursion opts ->
  decode_fuel (length (encode v)) <= fuel ->
  decode fuel bs pos opts depth = Ok (annotate v, pos + length (encode v)).

(** Elements of a list or dictionary that fit below [depth]. *)
Definition fits (opts : BDecodeOpt) (depth : nat) (v : BencodeMut) : Prop :=
  mut_wf v /\ depth + 1 + mut_depth v <= max_recursion opts.

Lemma decode_list_loop_text opts depth l :
  Forall decodes l -> Forall (fits opts depth) l -> forall bs acc pos b fuel,
  text_at bs pos (concat (encode <$> l) ++ [BEN_END]) -> bs !! pos = Some b ->
  decode_fuel (length (concat (encode <$> l) ++ [BEN_END])) + 1 <= fuel ->
  decode_list_loop fuel bs opts depth acc pos b =
    Ok (acc ++ (annotate <$> l), pos + length (concat (encode <$> l)) + 1).
Proof.
  unfold decode_fuel. intros Hdec Hfit. induction Hdec as [|v l Hv Hl IH]; intros bs acc pos b fuel Ht Hb Hf.
  - destruct fuel as [|fuel]; [lia|]. csimpl in *. apply text_at_cons in Ht as [Hc _].
    rewrite decide_True by congruence. rewrite app_nil_r, Nat.add_0_r. done.
  - apply Forall_cons in Hfit as [[Hw Hd] Hfit]. destruct fuel as [|fuel]; [lia|].
    csimpl in *. rewrite <- app_assoc in Ht, Hf. apply text_at_app in Ht as [Hv' Ht].
    pose proof (encode_nonempty v Hw) as Hpos.
    destruct (encode_head v Hw) as (c & t & Hc & Hce).
    assert (b = c) as -> by (rewrite Hc in Hv'; apply text_at_cons in Hv' as [? _]; congruence).
    rewrite decide_False by done. rewrite !length_app in *.
    rewrite (Hv bs pos opts (depth + 1) fuel) by (try done; unfold decode_fuel in *; lia). simpl.
    assert (exists c', bs !! (pos + length (encode v)) = Some c') as [c' Hc'].
    { apply lookup_lt_is_Some_2. apply text_at_le in Ht. rewrite length_app in Ht. simpl in *; lia. }
    unfold peek_byte. rewrite Hc'. simpl.
    rewrite IH by (done || (simpl in *; lia)).
    rewrite <- app_assoc. do 2 f_equal. lia.
Qed.

Lemma key_in_order opts (acc : list (bytes * BencodeRef)) k :
  bt_wf acc -> (forall k', k' ∈ acc.*1 -> bytes_lt k' k) ->
  key_out_of_order opts (bt_last_key acc) k = false.
Proof.
  intros Hwf Hlt. unfold key_out_of_order. destruct (bt_last_key acc) as [k'|] eqn:E; [|done].
  destruct (check_key_sort opts); [|done]. apply not_true_is_false. intros H%bytes_ltb_lt.
  eapply bytes_lt_not; [exact H|]. apply Hlt. unfold bt_last_key in E.
  by apply last_Some_elem_of in E.
Qed.

Definition annotate_entry (p : bytes * BencodeMut) : bytes * BencodeRef :=
  let '(k, x) := p in (k, annotate x).

Lemma annotate_keys d : (annotate_entry <$> d).*1 = d.*1.
Proof. rewrite <- list_fmap_compose. apply list_fmap_ext. by intros ? []. Qed.

Lemma decode_dict_loop_text opts depth d :
  Forall (fun p => decodes p.2) d ->
  Forall (fun p => (Z.of_nat (length p.1) < 2 ^ 63)%Z /\ fits opts depth p.2) d ->
  forall bs acc pos b fuel,
  bt_wf (acc ++ (annotate_entry <$> d)) ->
  text_at bs pos (encode_entries d ++ [BEN_END]) -> bs !! pos = Some b ->
  decode_fuel (length (encode_entries d ++ [BEN_END])) + 1 <= fuel ->
  decode_dict_loop fuel bs opts depth acc pos b =
    Ok (acc ++ (annotate_entry <$> d), pos + length (encode_entries d) + 1).
Proof.
  unfold decode_fuel, encode_entries.
  intros Hdec Hfit. induction Hdec as [|[k v] d Hv Hl IH]; intros bs acc pos b fuel Hwf Ht Hb Hf.
  - destruct fuel as [|fuel]; [lia|]. csimpl in *. apply text_at_cons in Ht as [Hc _].
    rewrite decide_True by congruence. rewrite app_nil_r, Nat.add_0_r. done.
  - apply Forall_cons in Hfit as [(Hk & Hw & Hd) Hfit]. destruct fuel as [|fuel]; [lia|].
    csimpl in *. rewrite <- !app_assoc in Ht, Hf. apply text_at_app in Ht as [Hk' Ht].
    apply text_at_app in Ht as [Hv' Ht]. pose proof (encode_nonempty v Hw) as Hpos.
    destruct (encode_bytes_head k Hk) as (c & t & Hc & (Hce & _)%len_digit_cases).
    assert (b = c) as -> by (rewrite Hc in Hk'; apply text_at_cons in Hk' as [? _]; congruence).
    rewrite decide_False by done. rewrite (decode_bytes_text _ _ _ Hk Hk'). simpl.
    pose proof (bt_wf_app _ _ Hwf) as (Hwa & _ & Hlt).
    assert (forall k', k' ∈ acc.*1 -> bytes_lt k' k) as Hlast
      by (intros k' Hin; apply Hlt; [done|left]).
    rewrite key_in_order by done. rewrite !length_app in *.
    rewrite (Hv bs _ opts (depth + 1) fuel) by (try done; unfold decode_fuel in *; simpl in *; lia).
    simpl. replace (bt_get k acc) with (@None BencodeRef).
    2:{ symmetry. apply bt_get_None. intros Hin%Hlast. by eapply bytes_lt_irrefl. }
    assert (exists c', bs !! (pos + length (encode_bytes k) + length (encode v)) = Some c') as [c' Hc'].
    { apply lookup_lt_is_Some_2. apply text_at_le in Ht. rewrite length_app in Ht. simpl in *; lia. }
    unfold peek_byte. rewrite Hc'. simpl. rewrite bt_insert_snoc by done.
    rewrite IH; try done.
    + rewrite <- app_assoc. do 2 f_equal. lia.
    + by rewrite <- app_assoc.
    + simpl in *; lia.
Qed.

Lemma mut_wf_list l : mut_wf (MList l) <-> Forall mut_wf l.
Proof. apply foldr_and_Forall. Qed.

Lemma mut_wf_dict d :
  mut_wf (MDict d) <->
  bt_wf d /\ Forall (fun p => (Z.of_nat (length p.1) < 2 ^ 63)%Z /\ mut_wf p.2) d.
Proof.
  simpl. apply and_iff_compat_l.
  induction d as [|[k x] d IH]; simpl; [by rewrite Forall_nil|]. rewrite IH, Forall_cons; simpl. tauto.
Qed.

Lemma mut_depth_list l n : mut_depth (MList l) <= S n <-> Forall (fun x => mut_depth x <= n) l.
Proof. rewrite <- foldr_max_le. simpl. lia. Qed.

Lemma mut_depth_dict d n :
  mut_depth (MDict d) <= S n <-> Forall (fun p => mut_depth p.2 <= n) d.
Proof.
  simpl. induction d as [|[k x] d IH]; simpl; [rewrite Forall_nil; split; auto; lia|].
  rewrite Forall_cons, <- IH; simpl. lia.
Qed.

Lemma int_decodes n : decodes (MInt n).
Proof.
  unfold decodes, decode_fuel. intros bs pos opts depth fuel Hw Ht Hd Hf. cbn [encode annotate mut_wf mut_depth] in *.
  unfold encode_int in *.
  destruct fuel as [|fuel]; [lia|]. cbn [decode].
  destruct (Nat.leb_spec (max_recursion opts) depth); [lia|].
  pose proof (text_at_slice _ _ _ Ht) as Hs. pose proof (text_at_le _ _ _ Ht) as Hle.
  pose proof Ht as [Hb Hi]%text_at_cons. unfold peek_byte. rewrite Hb. simpl.
  rewrite (decode_int_text bs (pos + 1) (i64_to_string n) BEN_END n)
    by (done || (by apply i64_int_text) || by left). simpl.
  rewrite length_cons, length_app in *. simpl length in *.
  replace (pos + 1 + length (i64_to_string n) + 1)
    with (pos + S (length (i64_to_string n) + 1)) by lia.
  rewrite slice_checked_eq by lia. csimpl. rewrite Hs. done.
Qed.

Lemma bytes_decodes b : decodes (MBytes b).
Proof.
  unfold decodes, decode_fuel. intros bs pos opts depth fuel Hw Ht Hd Hf. simpl in *.
  destruct fuel as [|fuel]; [lia|]. cbn [decode].
  destruct (Nat.leb_spec (max_recursion opts) depth); [lia|].
  destruct (encode_bytes_head b Hw) as (c & t & Hc & (Hce & Hi & Hl & Hdi & Hdig)%len_digit_cases).
  pose proof Ht as Hh. rewrite Hc in Hh. apply text_at_cons in Hh as [Hb _].
  unfold peek_byte. rewrite Hb. cbn [ok_or mbind outcome_bind].
  rewrite !decide_False by done. rewrite Hdig, (decode_bytes_text _ _ _ Hw Ht).
  cbn [mbind outcome_bind]. rewrite slice_checked_eq by (apply text_at_le in Ht; lia).
  cbn [mbind outcome_bind]. rewrite (text_at_slice _ _ _ Ht). done.
Qed.

Lemma list_decodes l : Forall decodes l -> decodes (MList l).
Proof.
  intros Hl. unfold decodes, decode_fuel. intros bs pos opts depth fuel Hw Ht Hd Hf.
  pose proof (text_at_slice _ _ _ Ht) as Hs. pose proof (text_at_le _ _ _ Ht) as Hle.
  assert (Forall (fits opts depth) l) as Hfit.
  { apply Forall_and. split; [by apply mut_wf_list|].
    assert (mut_depth (MList l) <= S (max_recursion opts - S depth)) as Hm by lia.
    apply mut_depth_list in Hm. eapply Forall_impl; [exact Hm|]. simpl in *; intros; lia. }
  cbn [encode] in *. unfold encode_list in *.
  pose proof Ht as [Hb Hi]%text_at_cons. rewrite length_cons, length_app in *.
  destruct fuel as [|[|fuel]]; [simpl in *; lia..|]. cbn [decode decode_list].
  destruct (Nat.leb_spec (max_recursion opts) depth); [simpl in *; lia|].
  rewrite (proj2 (peek_byte_ok _ _ _) Hb). cbn [mbind outcome_bind].
  rewrite decide_False, decide_True by done.
  destruct (lookup_lt_is_Some_2 bs (pos + 1)) as [c Hc].
  { apply text_at_le in Hi. rewrite length_app in Hi. simpl in *. lia. }
  rewrite (proj2 (peek_byte_ok _ _ _) Hc). cbn [mbind outcome_bind].
  rewrite (decode_list_loop_text _ _ _ Hl Hfit); try done.
  2:{ unfold decode_fuel. rewrite length_app. simpl in *. lia. }
  cbn [mbind outcome_bind]. simpl length in *.
  replace (pos + 1 + length (concat (encode <$> l)) + 1)
    with (pos + S (length (concat (encode <$> l)) + 1)) by lia.
  rewrite slice_checked_eq by lia. cbn [mbind outcome_bind]. rewrite Hs. done.
Qed.

Lemma dict_decodes d : Forall (fun p => decodes p.2) d -> decodes (MDict d).
Proof.
  intros Hl. unfold decodes, decode_fuel. intros bs pos opts depth fuel Hw Ht Hd Hf.
  pose proof (text_at_slice _ _ _ Ht) as Hs. pose proof (text_at_le _ _ _ Ht) as Hle.
  pose proof Hw as [Hwf Hel]%mut_wf_dict.
  assert (Forall (fun p => (Z.of_nat (length p.1) < 2 ^ 63)%Z /\ fits opts depth p.2) d) as Hfit.
  { assert (mut_depth (MDict d) <= S (max_recursion opts - S depth)) as Hm by lia.
    apply mut_depth_dict in Hm. eapply Forall_impl; [apply Forall_and; split; [exact Hel|exact Hm]|].
    intros p [[? ?] ?]. unfold fits. simpl in *. split_and!; done || lia. }
  assert (annotate (MDict d) = RDict (annotate_entry <$> d) (encode (MDict d))) as Han by done.
  rewrite Han. rewrite encode_dict_entries in * by done.
  pose proof Ht as [Hb Hi]%text_at_cons. rewrite length_cons, length_app in *.
  destruct fuel as [|[|fuel]]; [simpl in *; lia..|]. cbn [decode decode_dict].
  destruct (Nat.leb_spec (max_recursion opts) depth); [simpl in *; lia|].
  rewrite (proj2 (peek_byte_ok _ _ _) Hb). cbn [mbind outcome_bind].
  rewrite decide_False, decide_False, decide_True by done.
  destruct (lookup_lt_is_Some_2 bs (pos + 1)) as [c Hc].
  { apply text_at_le in Hi. rewrite length_app in Hi. simpl in *. lia. }
  rewrite (proj2 (peek_byte_ok _ _ _) Hc). cbn [mbind outcome_bind].
  rewrite (decode_dict_loop_text _ _ _ Hl Hfit); try done.
  2:{ simpl. unfold bt_wf. rewrite annotate_keys. exact Hwf. }
  2:{ unfold decode_fuel. rewrite length_app. simpl in *. lia. }
  cbn [mbind outcome_bind]. simpl length in *.
  replace (pos + 1 + length (encode_entries d) + 1)
    with (pos + S (length (encode_entries d) + 1)) by lia.
  rewrite slice_checked_eq by lia. cbn [mbind outcome_bind]. rewrite Hs. done.
Qed.

Lemma all_decodes v : decodes v.
Proof.
  induction v using BencodeMut_induction;
    auto using int_decodes, bytes_decodes, list_decodes, dict_decodes.
Qed.

(** ** Re-encoding *)

(** No number of the input is written with a plus sign: no [+] is directly
    followed by digits and one of the two delimiters. *)
Definition no_plus_number (bs : bytes) : Prop :=
  forall pos s delim, Forall is_digit s -> s <> [] -> is_delim delim ->
  ~ text_at bs pos (plus_byte :: s ++ [delim]).

Section canonical.
Context (bs : bytes) (opts : BDecodeOpt).
Hypothesis Hsort : check_key_sort opts = true.
Hypothesis Hplus : no_plus_number bs.

Lemma text_at_of_slice pos next : pos <= next <= length bs -> text_at bs pos (slice bs pos next).
Proof.
  intros Hn. unfold text_at. rewrite length_slice by lia.
  replace (pos + (next - pos)) with next by lia. split; [lia|done].
Qed.

Lemma slice_last pos next c :
  pos < next -> bs !! (next - 1) = Some c -> slice bs pos next = slice bs pos (next - 1) ++ [c].
Proof.
  intros Hn Hc. rewrite <- (slice_slice_app bs pos (next - 1) next) by lia. f_equal.
  rewrite (slice_cons _ _ _ _ Hc) by lia. unfold slice.
  replace (next - S (next - 1)) with 0 by lia. done.
Qed.

(** A number accepted without a plus sign is spelled as the encoder spells it. *)
Lemma decode_int_canonical pos delim n next :
  is_delim delim ->
  decode_int bs pos delim = Ok (n, next) -> slice bs pos next = i64_to_string n ++ [delim].
Proof.
  intros Hd (Hn & Hpos & Hdel & Hp & Hnegz & Hpad)%decode_int_ok.
  rewrite (slice_last pos next delim) by (done || lia). f_equal. symmetry.
  apply i64_parse_print; [done| |done|done].
  intros Hh. destruct (slice bs pos (next - 1)) as [|a s] eqn:Es; [done|].
  injection Hh as ->. assert (Forall is_digit s /\ s <> []) as [Hds Hne].
  { unfold i64_from_str_radix in Hp. rewrite decide_False, decide_True in Hp by done.
    destruct s; [done|]. split; [|done]. by eapply parse_digits_digits. }
  apply (Hplus pos s delim); [done..|].
  pose proof (slice_last pos next delim ltac:(lia) Hdel) as Hs. rewrite Es in Hs.
  rewrite app_comm_cons, <- Hs. apply text_at_of_slice. lia.
Qed.

Lemma i64_to_string_nat (n : nat) : i64_to_string (Z.of_nat n) = usize_to_string n.
Proof. unfold i64_to_string. destruct (Z.ltb_spec (Z.of_nat n) 0); [lia|done]. Qed.

Lemma decode_bytes_canonical pos c next :
  decode_bytes bs pos = Ok (c, next) -> slice bs pos next = encode_bytes c.
Proof.
  intros (start & Hst & Hn & Hc & Hl & Hi)%decode_bytes_ok.
  apply decode_int_canonical in Hi; [|by right].
  rewrite <- (slice_slice_app bs pos start next) by lia.
  rewrite Hi, i64_to_string_nat, <- app_assoc. unfold encode_bytes. rewrite <- Hc. done.
Qed.

Definition mut_entry (p : bytes * BencodeRef) : bytes * BencodeMut :=
  let '(k, v) := p in (k, to_mut v).

Definition fuel_canonical (fuel : nat) : Prop :=
  (forall pos depth r next, decode fuel bs pos opts depth = Ok (r, next) ->
     slice bs pos next = encode (to_mut r)) /\
  (forall pos depth l next, decode_list fuel bs pos opts depth = Ok (l, next) ->
     slice bs pos next = concat (encode <$> (to_mut <$> l)) ++ [BEN_END]) /\
  (forall depth acc pos b l next,
     decode_list_loop fuel bs opts depth acc pos b = Ok (l, next) -> bs !! pos = Some b ->
     pos < next /\ exists l', l = acc ++ l' /\
       slice bs pos next = concat (encode <$> (to_mut <$> l')) ++ [BEN_END]) /\
  (forall pos depth d next, decode_dict fuel bs pos opts depth = Ok (d, next) ->
     slice bs pos next = encode_entries (mut_entry <$> d) ++ [BEN_END]) /\
  (forall depth acc pos b d next,
     decode_dict_loop fuel bs opts depth acc pos b = Ok (d, next) -> bs !! pos = Some b ->
     bt_wf acc ->
     pos < next /\ exists d', d = acc ++ d' /\
       slice bs pos next = encode_entries (mut_entry <$> d') ++ [BEN_END]).

Lemma slice_end pos b : b = BEN_END -> bs !! pos = Some b -> slice bs pos (pos + 1) = [BEN_END].
Proof.
  intros -> Hb. rewrite (slice_cons _ _ _ _ Hb) by lia. unfold slice.
  replace (pos + 1 - S pos) with 0 by lia. done.
Qed.

Lemma key_after_last (acc : list (bytes * BencodeRef)) k :
  bt_wf acc -> key_out_of_order opts (bt_last_key acc) k = false -> bt_get k acc = None ->
  forall k', k' ∈ acc.*1 -> bytes_lt k' k.
Proof.
  intros Hwf Hk Hg k' Hin. apply bt_get_None in Hg. unfold key_out_of_order in Hk.
  rewrite Hsort in Hk. destruct (bt_last_key acc) as [kl|] eqn:El.
  - assert (bytes_lt kl k) as Hlk.
    { assert (kl <> k) as Hne by (intros ->; apply Hg; by apply last_Some_elem_of in El).
      destruct (bytes_trichotomy kl k) as [H|[H|H%bytes_ltb_lt]]; [done|done|congruence]. }
    destruct (bt_last_key_lt _ _ _ Hwf El Hin) as [->|H]; [done|]. by eapply bytes_lt_trans.
  - exfalso. unfold bt_last_key in El. apply last_None in El. rewrite El in Hin.
    by apply not_elem_of_nil in Hin.
Qed.

Lemma list_loop_canonical fuel :
  fuel_canonical fuel -> forall depth acc pos b l next,
  decode_list_loop (S fuel) bs opts depth acc pos b = Ok (l, next) -> bs !! pos = Some b ->
  pos < next /\ exists l', l = acc ++ l' /\
    slice bs pos next = concat (encode <$> (to_mut <$> l')) ++ [BEN_END].
Proof.
  intros (IHd & _ & IHl & _) depth acc pos b l next. simpl. case_decide as Hend.
  - intros [= <- <-] Hb. split; [lia|]. exists []. rewrite app_nil_r. split; [done|].
    by eapply slice_end.
  - intros ([r np] & Hr & (c & Hc%peek_byte_ok & H)%outcome_bind_ok)%outcome_bind_ok Hb.
    apply IHl in H as (Hnp & l' & -> & Hl'); [|done].
    pose proof (decoded_next _ _ _ _ _ _ (decode_ok _ _ _ _ _ _ _ Hr)).
    apply IHd in Hr. split; [lia|]. exists (r :: l'). rewrite <- app_assoc. split; [done|].
    rewrite <- (slice_slice_app bs pos np next) by lia. rewrite Hr, Hl'. csimpl.
    by rewrite <- app_assoc.
Qed.

Lemma dict_loop_canonical fuel :
  fuel_canonical fuel -> forall depth acc pos b d next,
  decode_dict_loop (S fuel) bs opts depth acc pos b = Ok (d, next) -> bs !! pos = Some b ->
  bt_wf acc ->
  pos < next /\ exists d', d = acc ++ d' /\
    slice bs pos next = encode_entries (mut_entry <$> d') ++ [BEN_END].
Proof.
  intros (IHd & _ & _ & _ & IHl) depth acc pos b d next. simpl. case_decide as Hend.
  - intros [= <- <-] Hb _. split; [lia|]. exists []. rewrite app_nil_r. split; [done|].
    by eapply slice_end.
  - intros ([key kp] & Hk & H)%outcome_bind_ok Hb Hwf.
    destruct (key_out_of_order _ _ _) eqn:Hoo; [done|].
    apply outcome_bind_ok in H as ([r np] & Hr & H).
    destruct (bt_get key acc) eqn:Hget; [done|].
    apply outcome_bind_ok in H as (c & Hc%peek_byte_ok & H).
    pose proof (key_after_last _ _ Hwf Hoo Hget) as Hlt.
    apply IHl in H as (Hnp & d' & -> & Hd'); [|done|auto with rbt].
    pose proof (decoded_next _ _ _ _ _ _ (decode_ok _ _ _ _ _ _ _ Hr)).
    pose proof Hk as (st & Hst & _)%decode_bytes_ok.
    apply IHd in Hr. apply decode_bytes_canonical in Hk.
    split; [lia|]. exists ((key, r) :: d'). rewrite bt_insert_snoc by done.
    rewrite <- app_assoc. split; [done|].
    rewrite <- (slice_slice_app bs pos kp next), <- (slice_slice_app bs kp np next) by lia.
    rewrite Hk, Hr, Hd'. unfold encode_entries. csimpl. by rewrite <- !app_assoc.
Qed.

Lemma dict_encoding d buf :
  bt_wf d -> encode (to_mut (RDict d buf)) = DICT_START :: encode_entries (mut_entry <$> d) ++ [BEN_END].
Proof. intros Hd. rewrite <- encode_dict_entries; [done|]. by apply bt_wf_fmap. Qed.

Lemma decode_step_canonical fuel :
  fuel_canonical fuel -> forall pos depth r next,
  decode (S fuel) bs pos opts depth = Ok (r, next) -> slice bs pos next = encode (to_mut r).
Proof.
  intros (_ & IHl & _ & IHdi & _) pos depth r next Hdec.
  pose proof (decode_ok _ _ _ _ _ _ _ Hdec) as Hok. pose proof (decoded_next _ _ _ _ _ _ Hok) as Hnx.
  revert Hdec. simpl. destruct (_ <=? _); [done|].
  intros (c & Hc%peek_byte_ok & H)%outcome_bind_ok.
  case_decide as H1; [|case_decide as H2; [|case_decide as H3; [|destruct (is_len_digit c); [|done]]]];
    apply outcome_bind_ok in H as ([v np] & Hv & (s & Hs & [= <- <-])%outcome_bind_ok).
  - rewrite (slice_cons _ _ _ _ Hc), <- Nat.add_1_r, H1 by lia.
    rewrite (decode_int_canonical (pos + 1) BEN_END v) by (done || by left). done.
  - apply IHl in Hv. rewrite (slice_cons _ _ _ _ Hc), <- Nat.add_1_r, H2, Hv by lia. done.
  - pose proof Hv as Hd. apply (proj1 (proj2 (proj2 (proj2 (decode_fuel_ok bs opts fuel))))) in Hd
      as (_ & Hwf & _).
    apply IHdi in Hv. rewrite (slice_cons _ _ _ _ Hc), <- Nat.add_1_r, H3, Hv by lia.
    by rewrite dict_encoding.
  - by apply decode_bytes_canonical in Hv.
Qed.

Lemma decode_canonical fuel : fuel_canonical fuel.
Proof.
  induction fuel as [|fuel IH]; [repeat split; intros; discriminate|].
  pose proof IH as (_ & _ & IHl & _ & IHdl). split_and!.
  - by apply decode_step_canonical.
  - simpl. intros pos depth l next (c & Hc%peek_byte_ok & H)%outcome_bind_ok.
    by apply IHl in H as (_ & l' & -> & Hl).
  - by apply list_loop_canonical.
  - simpl. intros pos depth d next (c & Hc%peek_byte_ok & H)%outcome_bind_ok.
    by apply IHdl in H as (_ & d' & -> & Hd); [|done|auto with rbt].
  - by apply dict_loop_canonical.
Qed.
End canonical.

(** A plus sign in front of a zero-padded number hides the padding from the guard. *)
Lemma padded_plus_text (n k : nat) :
  (Z.of_nat n < 2 ^ 63)%Z ->
  int_text (plus_byte :: replicate k zero_byte ++ usize_to_string n) (Z.of_nat n).
Proof.
  intros Hn. pose proof (usize_to_string_canonical n Hn) as (Hd & Hne & _).
  assert (Forall is_digit (replicate k zero_byte ++ usize_to_string n)) as Hall.
  { apply Forall_app; split; [|done]. apply Forall_replicate. by exists 0%Z. }
  assert (dec_value 0 (replicate k zero_byte) = 0%Z) as Hz.
  { clear Hall. induction k as [|k IH]; [done|]. simpl replicate. rewrite (dec_value_cons _ _ 0%Z); [exact IH|reflexivity]. }
  split; [|done|done|].
  - constructor; [right; by right|]. eapply Forall_impl; [exact Hall|]. by left.
  - unfold i64_from_str_radix. rewrite decide_False, decide_True by done.
    destruct (replicate k zero_byte ++ usize_to_string n) eqn:E; [by apply app_nil in E as [_ ?]|].
    rewrite <- E in *. rewrite parse_digits_pos by (done || (unfold in_signed; lia)).
    rewrite dec_value_app, Hz. unfold usize_to_string. rewrite to_dec_value.
    + rewrite decide_True; [done|]. unfold in_signed. lia.
    + pose proof (to_dec_bound (Z.of_nat n)) as Hb. rewrite Z.abs_eq in Hb by lia.
      apply Hb. unfold in_signed. lia.
Qed.

Lemma decode_encoding (v : BencodeMut) (opts : BDecodeOpt) (tail : bytes) :
  mut_wf v -> mut_depth v <= max_recursion opts ->
  decode (decode_fuel (length (encode v ++ tail))) (encode v ++ tail) 0 opts 0 =
    Ok (annotate v, length (encode v)).
Proof.
  intros Hw Hd.
  assert (text_at (encode v ++ tail) 0 (encode v)) as Ht
    by (by pose proof (proj1 (text_at_app _ _ _ _) (text_at_self (encode v ++ tail))) as [? _]).
  apply (all_decodes v); [done..|]. unfold decode_fuel. rewrite length_app. lia.
Qed.

(** ** Properties *)

(** C8. Decoding inverts encoding: the encoding of any well-formed value
    decodes to that value, every node carrying its own encoding as buffer, for
    every option whose recursion limit covers the nesting; bytes after it are
    rejected at their position exactly when a full decode is enforced. *)
Theorem decode_encode (v : BencodeMut) (opts : BDecodeOpt) (tail : bytes) :
  mut_wf v -> mut_depth v <= max_recursion opts ->
  BencodeRef_decode (encode v ++ tail) opts =
    if decide (tail <> [] /\ enforce_full_decode opts = true)
    then Err (BytesEmpty (length (encode v)))
    else Ok (annotate v).
Proof.
  intros Hw Hd. unfold BencodeRef_decode. rewrite decode_encoding by done.
  simpl. rewrite length_app. apply decide_ext.
  destruct tail; simpl; [split; intros [? ?]; done || lia|].
  split; intros [? ?]; split; done || lia.
Qed.

Lemma decode_encode_witness :
  BencodeRef_decode (encode (MDict [(bstr "k", MList [MInt (-3); MBytes (bstr "x")])]) ++ bstr "!")
    BDecodeOpt_default = Err (BytesEmpty 14).
Proof.
  rewrite decode_encode.
  - vm_compute. reflexivity.
  - apply mut_wf_dict. split; [vm_compute; repeat constructor|].
    repeat constructor; vm_compute; intuition congruence.
  - vm_compute. lia.
Defined.

(** C36. Re-encoding is the identity on what was read: with key sorting checked
    and no number written with a plus sign, encoding a decoded value gives
    exactly the bytes it was decoded from. *)
Theorem encode_decode (bs : bytes) (opts : BDecodeOpt) (r : BencodeRef) :
  check_key_sort opts = true -> no_plus_number bs ->
  BencodeRef_decode bs opts = Ok r -> encode (to_mut r) = BencodeRef_buffer r.
Proof.
  intros Hs Hp (next & Hd & _)%BencodeRef_decode_ok.
  rewrite (decoded_buffer _ _ _ _ _ _ (decode_ok _ _ _ _ _ _ _ Hd)).
  symmetry. by apply decode_canonical in Hd.
Qed.

Lemma encode_decode_witness :
  encode (MDict [(bstr "a", MInt 5)]) = bstr "d1:ai5ee".
Proof.
  apply (encode_decode (bstr "d1:ai5ee") (mk_BDecodeOpt 5 true true)
           (RDict [(bstr "a", RInt 5 (bstr "i5e"))] (bstr "d1:ai5ee"))).
  - reflexivity.
  - intros pos s delim _ _ _ Ht. apply text_at_cons in Ht as [Hb _].
    do 8 (destruct pos as [|pos]; [discriminate Hb|]). discriminate Hb.
  - vm_compute. reflexivity.
Defined.

(** The zero-padding guard is bypassed by a plus sign: every number below
    [2^63] written with any number of leading zeros behind a [+] decodes, so the
    decoder accepts infinitely many spellings of it although it means to refuse
    padding. *)
Theorem decode_accepts_padded_plus (n k : nat) (opts : BDecodeOpt) :
  (Z.of_nat n < 2 ^ 63)%Z -> 0 < max_recursion opts ->
  let text := INT_START :: plus_byte :: replicate k zero_byte ++ usize_to_string n ++ [BEN_END] in
  BencodeRef_decode text opts = Ok (RInt (Z.of_nat n) text).
Proof.
  intros Hn Hd text. pose proof (padded_plus_text n k Hn) as Ht.
  set (s := plus_byte :: replicate k zero_byte ++ usize_to_string n) in Ht.
  assert (text = INT_START :: s ++ [BEN_END]) as -> by (subst text s; simpl; by rewrite <- app_assoc).
  pose proof (text_at_self (INT_START :: s ++ [BEN_END])) as Ha.
  pose proof Ha as [Hb Hi]%text_at_cons. unfold BencodeRef_decode, decode_fuel.
  rewrite Nat.add_1_r. cbn [decode]. destruct (Nat.leb_spec (max_recursion opts) 0); [lia|].
  rewrite (proj2 (peek_byte_ok _ _ _) Hb). cbn [mbind outcome_bind].
  rewrite decide_True by done. rewrite (decode_int_text _ _ _ _ _ Ht ltac:(by left) Hi).
  cbn [mbind outcome_bind].
  assert (0 + 1 + length s + 1 = length (INT_START :: s ++ [BEN_END])) as ->
    by (rewrite length_cons, length_app; simpl length; lia).
  rewrite slice_checked_eq by lia. cbn [mbind outcome_bind]. rewrite slice_all.
  rewrite decide_False by (by intros [? _]). done.
Qed.

Lemma decode_accepts_padded_plus_witness :
  BencodeRef_decode (bstr "i+007e") BDecodeOpt_default = Ok (RInt 7 (bstr "i+007e")).
Proof. apply (decode_accepts_padded_plus 7 2 BDecodeOpt_default); [lia|vm_compute; lia]. Defined.
