(* ===== verification/BencodeAccess.v ===== *)
(** * [bip_bencode]: reading and building bencode values

    The access traits ([access/bencode.rs], [access/list.rs], [access/dict.rs]),
    the checked conversions every other crate reads bencode with
    ([access/convert.rs]), the constructors of [mutable/bencode_mut.rs] and the
    [ben_map!]/[ben_list!] macros of [lib.rs].  Mutable accessors are modelled by
    the value they leave behind. *)

From stdpp Require Import prelude list gmap strings.
From Stdlib Require Import ZArith Lia Strings.Byte.
From S2P Require Import Prelude Bytes BTreeMap DecStr Bencode BencodeTotal BencodeRoundtrip.

(** ** Access traits *)

Inductive BencodeRefKind (B : Type) : Type :=
| KInt (n : Z)
| KBytes (b : bytes)
| KList (l : list B)
| KDict (d : list (bytes * B)).
Arguments KInt {B} n.
Arguments KBytes {B} b.
Arguments KList {B} l.
Arguments KDict {B} d.

Class BRefAccess (B : Type) : Type := {
  bra_kind : B -> BencodeRefKind B;
  bra_str : B -> option bytes;
  bra_int : B -> option Z;
  bra_bytes : B -> option bytes;
  bra_list : B -> option (list B);
  bra_dict : B -> option (list (bytes * B));
}.

(** What the readers of a value rely on: the partial views are views of [kind]. *)
Class BRefAccessLaws (B : Type) `{BRefAccess B} : Prop := {
  bra_int_kind : forall b, bra_int b = match bra_kind b with KInt n => Some n | _ => None end;
  bra_bytes_kind : forall b, bra_bytes b = match bra_kind b with KBytes s => Some s | _ => None end;
  bra_str_kind : forall b,
    bra_str b = match bra_kind b with KBytes s => from_utf8 s | _ => None end;
  bra_list_kind : forall b, bra_list b = match bra_kind b with KList l => Some l | _ => None end;
  bra_dict_kind : forall b, bra_dict b = match bra_kind b with KDict d => Some d | _ => None end;
}.

Module RefAccess.
Definition kind (r : BencodeRef) : BencodeRefKind BencodeRef :=
  match r with
  | RInt n _ => KInt n
  | RBytes n _ => KBytes n
  | RList n _ => KList n
  | RDict n _ => KDict n
  end.

Definition int (r : BencodeRef) : option Z :=
  match r with RInt n _ => Some n | _ => None end.

Definition bytes_ext (r : BencodeRef) : option bytes :=
  match r with RBytes n _ => Some (drop 0 n) | _ => None end.

Definition str_ext (r : BencodeRef) : option bytes :=
  match bytes_ext r with
  | Some bytes =>
      match from_utf8 bytes with
      | Some n => Some n
      | None => None
      end
  | None => None
  end.

Definition list (r : BencodeRef) : option (list BencodeRef) :=
  match r with RList n _ => Some n | _ => None end.

Definition dict (r : BencodeRef) : option (Datatypes.list (bytes * BencodeRef)) :=
  match r with RDict n _ => Some n | _ => None end.
End RefAccess.

#[export] Instance BencodeRef_access : BRefAccess BencodeRef := {
  bra_kind := RefAccess.kind;
  bra_str := RefAccess.str_ext;
  bra_int := RefAccess.int;
  bra_bytes := RefAccess.bytes_ext;
  bra_list := RefAccess.list;
  bra_dict := RefAccess.dict;
}.

Module MutAccess.
Definition kind (r : BencodeMut) : BencodeRefKind BencodeMut :=
  match r with
  | MInt n => KInt n
  | MBytes n => KBytes n
  | MList n => KList n
  | MDict n => KDict n
  end.

Definition int (r : BencodeMut) : option Z :=
  match r with MInt n => Some n | _ => None end.

Definition bytes (r : BencodeMut) : option bytes :=
  match r with MBytes n => Some n | _ => None end.

Definition str (r : BencodeMut) : option Bytes.bytes :=
  match bytes r with
  | Some bytes =>
      match from_utf8 bytes with
      | Some n => Some n
      | None => None
      end
  | None => None
  end.

Definition list (r : BencodeMut) : option (list BencodeMut) :=
  match r with MList n => Some n | _ => None end.

Definition dict (r : BencodeMut) : option (Datatypes.list (Bytes.bytes * BencodeMut)) :=
  match r with MDict n => Some n | _ => None end.

(** [list_mut]/[dict_mut]: apply an update through the mutable reference. *)
Definition list_mut (f : Datatypes.list BencodeMut -> Datatypes.list BencodeMut) (r : BencodeMut) :
    option BencodeMut :=
  match r with MList n => Some (MList (f n)) | _ => None end.

Definition dict_mut
    (f : Datatypes.list (Bytes.bytes * BencodeMut) -> Datatypes.list (Bytes.bytes * BencodeMut))
    (r : BencodeMut) : option BencodeMut :=
  match r with MDict n => Some (MDict (f n)) | _ => None end.

Definition new_int (value : Z) : BencodeMut := MInt value.
Definition new_bytes (value : Bytes.bytes) : BencodeMut := MBytes value.
Definition new_list : BencodeMut := MList [].
Definition new_dict : BencodeMut := MDict [].
End MutAccess.

#[export] Instance BencodeMut_access : BRefAccess BencodeMut := {
  bra_kind := MutAccess.kind;
  bra_str := MutAccess.str;
  bra_int := MutAccess.int;
  bra_bytes := MutAccess.bytes;
  bra_list := MutAccess.list;
  bra_dict := MutAccess.dict;
}.

(** ** [BListAccess] for [Vec] *)

Module BList.
Section blist.
Context {V : Type}.

Definition get (l : list V) (index : nat) : option V := l !! index.

(** The removed element and the list left behind; out of range is [None]. *)
Definition remove (l : list V) (index : nat) : option V * list V :=
  if decide (length l <= index) then (None, l)
  else (l !! index, take index l ++ drop (S index) l).

(** [Vec::insert] panics past the end. *)
Definition insert (l : list V) (index : nat) (item : V) : outcome Empty_set (list V) :=
  if decide (index <= length l) then Ok (take index l ++ item :: drop index l) else Panic.

Definition push (l : list V) (item : V) : list V := l ++ [item].

Definition index (l : list V) (i : nat) : outcome Empty_set V := unwrap (get l i).

(** [BListIter]: the state is the next index. *)
Definition iter_next (l : list V) (i : nat) : option V * nat :=
  match get l i with
  | Some x => (Some x, S i)
  | None => (None, i)
  end.

Fixpoint iter_collect (fuel : nat) (l : list V) (i : nat) : outcome Empty_set (list V) :=
  match fuel with
  | O => NoFuel
  | S fuel =>
      match iter_next l i with
      | (Some x, i') => rest ← iter_collect fuel l i'; Ok (x :: rest)
      | (None, _) => Ok []
      end
  end.
End blist.
End BList.

(** ** [BDictAccess] for [BTreeMap] *)

Module BDict.
Section bdict.
Context {V : Type}.

Definition to_list (d : list (bytes * V)) : list (bytes * V) := d.
Definition lookup (d : list (bytes * V)) (key : bytes) : option V := bt_get key d.
Definition insert (d : list (bytes * V)) (key : bytes) (value : V) :
    option V * list (bytes * V) := (bt_get key d, bt_insert key value d).
Definition remove (d : list (bytes * V)) (key : bytes) : option V * list (bytes * V) :=
  (bt_get key d, bt_remove key d).
End bdict.
End BDict.

(** ** [BConvert]: conversions with application errors *)

Inductive BencodeConvertErrorKind : Type :=
| MissingKey (key : bytes)
| WrongType (key : bytes) (expected_type : string).

Module BConvert.
Section bconvert.
Context {E : Type} (handle_error : BencodeConvertErrorKind -> E).
Context {B : Type} `{BRefAccess B}.

Definition convert_int (bencode : B) (error_key : bytes) : outcome E Z :=
  ok_or (bra_int bencode) (handle_error (WrongType error_key "Integer")).

Definition convert_bytes (bencode : B) (error_key : bytes) : outcome E bytes :=
  ok_or (bra_bytes bencode) (handle_error (WrongType error_key "Bytes")).

Definition convert_str (bencode : B) (error_key : bytes) : outcome E bytes :=
  ok_or (bra_str bencode) (handle_error (WrongType error_key "UTF-8 Bytes")).

Definition convert_list (bencode : B) (error_key : bytes) : outcome E (list B) :=
  ok_or (bra_list bencode) (handle_error (WrongType error_key "List")).

Definition convert_dict (bencode : B) (error_key : bytes) : outcome E (list (bytes * B)) :=
  ok_or (bra_dict bencode) (handle_error (WrongType error_key "Dictionary")).

Definition lookup (dictionary : list (bytes * B)) (key : bytes) : outcome E B :=
  match BDict.lookup dictionary key with
  | Some n => Ok n
  | None => Err (handle_error (MissingKey key))
  end.

Definition lookup_and_convert_int (dictionary : list (bytes * B)) (key : bytes) : outcome E Z :=
  n ← lookup dictionary key; convert_int n key.

Definition lookup_and_convert_bytes (dictionary : list (bytes * B)) (key : bytes) :
    outcome E bytes :=
  n ← lookup dictionary key; convert_bytes n key.

Definition lookup_and_convert_str (dictionary : list (bytes * B)) (key : bytes) :
    outcome E bytes :=
  n ← lookup dictionary key; convert_str n key.

Definition lookup_and_convert_list (dictionary : list (bytes * B)) (key : bytes) :
    outcome E (list B) :=
  n ← lookup dictionary key; convert_list n key.

Definition lookup_and_convert_dict (dictionary : list (bytes * B)) (key : bytes) :
    outcome E (list (bytes * B)) :=
  n ← lookup dictionary key; convert_dict n key.
End bconvert.
End BConvert.

(** ** The construction macros *)

(** [ben_map!]: insert the pairs one by one into a fresh dictionary. *)
Definition ben_map_entries (kvs : list (bytes * BencodeMut)) : list (bytes * BencodeMut) :=
  foldl (fun m '(key, val) => (BDict.insert m key val).2) [] kvs.

Definition ben_map (kvs : list (bytes * BencodeMut)) : outcome Empty_set BencodeMut :=
  unwrap (MutAccess.dict_mut
            (fun m => foldl (fun m '(key, val) => (BDict.insert m key val).2) m kvs)
            MutAccess.new_dict).

Definition ben_list (bens : list BencodeMut) : outcome Empty_set BencodeMut :=
  unwrap (MutAccess.list_mut (fun l => foldl BList.push l bens) MutAccess.new_list).

(** ** Lemmas *)

#[export] Instance BencodeRef_access_laws : BRefAccessLaws BencodeRef.
Proof.
  split; intros []; simpl; try done. unfold RefAccess.str_ext; simpl.
  by destruct (from_utf8 _).
Qed.

#[export] Instance BencodeMut_access_laws : BRefAccessLaws BencodeMut.
Proof.
  split; intros []; simpl; try done. unfold MutAccess.str; simpl.
  by destruct (from_utf8 _).
Qed.

Lemma ben_map_eq kvs : ben_map kvs = Ok (MDict (ben_map_entries kvs)).
Proof. done. Qed.

Lemma foldl_insert_wf kvs m :
  bt_wf m -> bt_wf (foldl (fun m '(key, val) => (@BDict.insert BencodeMut m key val).2) m kvs).
Proof.
  revert m; induction kvs as [|[k v] kvs IH]; intros m Hm; simpl; [done|].
  apply IH, bt_insert_wf, Hm.
Qed.

Lemma foldl_insert_get kvs m k :
  NoDup kvs.*1 ->
  bt_get k (foldl (fun m '(key, val) => (@BDict.insert BencodeMut m key val).2) m kvs) =
  match list_find (fun p => p.1 = k) kvs with
  | Some (_, (_, v)) => Some v
  | None => bt_get k m
  end.
Proof.
  revert m; induction kvs as [|[k' v'] kvs IH]; intros m Hnd; [done|].
  apply NoDup_cons in Hnd as [Hni Hnd]. simpl foldl. rewrite IH by done. simpl.
  case_decide as Hk; simpl.
  - subst k'. replace (list_find (fun p => p.1 = k) kvs) with (@None (nat * (bytes * BencodeMut))).
    + apply bt_get_insert.
    + symmetry. apply list_find_None, Forall_forall. intros [k2 v2] Hin Hk2. simpl in Hk2; subst k2. apply Hni.
      by apply (list_elem_of_fmap_2 fst) in Hin.
  - destruct (list_find _ kvs) as [[i [k2 v2]]|]; simpl; [done|]. by apply bt_get_insert_ne.
Qed.

Lemma ben_map_entries_wf kvs : bt_wf (ben_map_entries kvs).
Proof. apply foldl_insert_wf, bt_wf_nil. Qed.

(** The dictionary of a macro call holds exactly the pairs of the call. *)
Lemma ben_map_get kvs k v :
  NoDup kvs.*1 -> bt_get k (ben_map_entries kvs) = Some v <-> (k, v) ∈ kvs.
Proof.
  intros Hnd. unfold ben_map_entries. rewrite foldl_insert_get by done.
  destruct (list_find _ kvs) as [[i [k2 v2]]|] eqn:E.
  - apply list_find_Some in E as (Hi & Hk & _). simpl in Hk. subst k2. split.
    + intros [= ->]. by eapply list_elem_of_lookup_2.
    + intros (j & Hj)%list_elem_of_lookup. f_equal.
      assert (kvs.*1 !! i = Some k) as Hi1 by (by rewrite list_lookup_fmap, Hi).
      assert (kvs.*1 !! j = Some k) as Hj1 by (by rewrite list_lookup_fmap, Hj).
      pose proof (NoDup_lookup _ _ _ _ Hnd Hi1 Hj1) as ->. congruence.
  - apply list_find_None in E. split; [done|]. intros Hin.
    rewrite Forall_forall in E. by specialize (E _ Hin).
Qed.

Lemma ben_list_eq bens : ben_list bens = Ok (MList bens).
Proof.
  unfold ben_list; simpl. do 2 f_equal.
  assert (forall acc, foldl BList.push acc bens = acc ++ bens) as H.
  { induction bens as [|b bens IH]; intros acc; simpl; [by rewrite app_nil_r|].
    rewrite IH. unfold BList.push. by rewrite <- app_assoc. }
  apply H.
Qed.

Lemma bt_get_annotate k d :
  bt_get k (annotate_entry <$> d) = annotate <$> bt_get k d.
Proof.
  induction d as [|[k' v'] d IH]; simpl; [done|]. by destruct (bytes_cmp k k').
Qed.

Lemma ben_map_entries_Forall (P : bytes * BencodeMut -> Prop) kvs :
  NoDup kvs.*1 -> Forall P kvs -> Forall P (ben_map_entries kvs).
Proof.
  intros Hnd Hp. apply Forall_forall. intros [k v] Hin.
  apply bt_elem_get in Hin; [|apply ben_map_entries_wf]. apply ben_map_get in Hin; [|done].
  by rewrite Forall_forall in Hp; apply Hp.
Qed.

Lemma iter_collect_drop {V} (l : list V) i fuel :
  i <= length l -> length l - i < fuel -> BList.iter_collect fuel l i = Ok (drop i l).
Proof.
  revert i; induction fuel as [|fuel IH]; intros i Hi Hf; [lia|]. simpl.
  unfold BList.iter_next, BList.get. destruct (l !! i) as [x|] eqn:E.
  - rewrite IH by (apply lookup_lt_Some in E; lia). simpl. by rewrite (drop_S _ _ _ E).
  - apply lookup_ge_None in E. rewrite drop_ge by lia. done.
Qed.

(** ** Values that are written and read back *)

(** A value that is well formed and at most [n] deep. *)
Definition shallow (n : nat) (v : BencodeMut) : Prop := mut_wf v /\ mut_depth v <= n.

Lemma shallow_int n z : in_signed 64 z -> shallow (S n) (MInt z).
Proof. split; [done|cbn; lia]. Qed.
Lemma shallow_bytes n b : (Z.of_nat (length b) < 2 ^ 63)%Z -> shallow (S n) (MBytes b).
Proof. split; [done|cbn; lia]. Qed.
Lemma shallow_list n l : Forall (shallow n) l -> shallow (S n) (MList l).
Proof. intros Hl. split; [apply mut_wf_list|apply mut_depth_list]; (eapply Forall_impl; [exact Hl|]); by intros ? []. Qed.
Lemma shallow_dict n kvs : NoDup kvs.*1 -> Forall (fun p => (Z.of_nat (length p.1) < 2 ^ 63)%Z /\ shallow n p.2) kvs ->
  shallow (S n) (MDict (ben_map_entries kvs)).
Proof.
  intros Hnd Hall. apply (ben_map_entries_Forall _ _ Hnd) in Hall.
  split; [apply mut_wf_dict; split; [apply ben_map_entries_wf|]|apply mut_depth_dict]; (eapply Forall_impl; [exact Hall|]); by intros ? (? & ? & ?).
Qed.

Lemma i64_shallow n z : shallow (S n) (MInt (as_signed 64 z)).
Proof. apply shallow_int, as_signed_range. lia. Qed.

Lemma decode_shallow v : shallow DEFAULT_MAX_RECURSION v -> BencodeRef_decode (encode v) BDecodeOpt_default = Ok (annotate v).
Proof.
  intros [Hw Hd]. unfold BencodeRef_decode. pose proof (decode_encoding v BDecodeOpt_default [] Hw Hd) as Hdec. rewrite app_nil_r in Hdec.
  rewrite Hdec. cbn [mbind outcome_bind]. by rewrite decide_False by (by intros [? _]).
Qed.

Lemma decode_prefix v opts tail : shallow (max_recursion opts) v -> enforce_full_decode opts = false ->
  BencodeRef_decode (encode v ++ tail) opts = Ok (annotate v).
Proof.
  intros [Hw Hd] He. unfold BencodeRef_decode. rewrite decode_encoding by done. cbn [mbind outcome_bind].
  by rewrite decide_False by (rewrite He; by intros [_ ?]).
Qed.

Lemma convert_str_bytes {E} (h : BencodeConvertErrorKind -> E) c key : from_utf8 c = Some c ->
  BConvert.convert_str h (annotate (MBytes c)) key = Ok c.
Proof. intros Hc. unfold BConvert.convert_str. change (bra_str (annotate (MBytes c))) with (match from_utf8 c with Some n => Some n | None => None end). by rewrite Hc. Qed.

(** A lookup in a dictionary that was written. *)
Lemma lookup_written {E} (h : BencodeConvertErrorKind -> E) d key :
  BConvert.lookup h (annotate_entry <$> d) key = match bt_get key d with Some v => Ok (annotate v) | None => Err (h (MissingKey key)) end.
Proof. unfold BConvert.lookup, BDict.lookup. rewrite bt_get_annotate. by destruct (bt_get key d). Qed.

Section lookups.
Context {E : Type} (h : BencodeConvertErrorKind -> E) (d : list (bytes * BencodeMut)) (key : bytes).

Lemma lookup_int z : bt_get key d = Some (MInt z) -> BConvert.lookup_and_convert_int h (annotate_entry <$> d) key = Ok z.
Proof. intros Hg. unfold BConvert.lookup_and_convert_int. by rewrite lookup_written, Hg. Qed.
Lemma lookup_bytes b : bt_get key d = Some (MBytes b) -> BConvert.lookup_and_convert_bytes h (annotate_entry <$> d) key = Ok b.
Proof. intros Hg. unfold BConvert.lookup_and_convert_bytes. by rewrite lookup_written, Hg. Qed.
Lemma lookup_str b : from_utf8 b = Some b -> bt_get key d = Some (MBytes b) ->
  BConvert.lookup_and_convert_str h (annotate_entry <$> d) key = Ok b.
Proof. intros Hb Hg. unfold BConvert.lookup_and_convert_str. rewrite lookup_written, Hg. by apply convert_str_bytes. Qed.
Lemma lookup_list l : bt_get key d = Some (MList l) -> BConvert.lookup_and_convert_list h (annotate_entry <$> d) key = Ok (annotate <$> l).
Proof. intros Hg. unfold BConvert.lookup_and_convert_list. by rewrite lookup_written, Hg. Qed.

Lemma lookup_no_int : bt_get key d = None -> BConvert.lookup_and_convert_int h (annotate_entry <$> d) key = Err (h (MissingKey key)).
Proof. intros Hg. unfold BConvert.lookup_and_convert_int. by rewrite lookup_written, Hg. Qed.
Lemma lookup_no_bytes : bt_get key d = None -> BConvert.lookup_and_convert_bytes h (annotate_entry <$> d) key = Err (h (MissingKey key)).
Proof. intros Hg. unfold BConvert.lookup_and_convert_bytes. by rewrite lookup_written, Hg. Qed.
Lemma lookup_no_str : bt_get key d = None -> BConvert.lookup_and_convert_str h (annotate_entry <$> d) key = Err (h (MissingKey key)).
Proof. intros Hg. unfold BConvert.lookup_and_convert_str. by rewrite lookup_written, Hg. Qed.
Lemma lookup_no_list : bt_get key d = None -> BConvert.lookup_and_convert_list h (annotate_entry <$> d) key = Err (h (MissingKey key)).
Proof. intros Hg. unfold BConvert.lookup_and_convert_list. by rewrite lookup_written, Hg. Qed.
End lookups.

(** ** Properties *)

(** What is built with [ben_map!] is what a reader finds: encode a map
    built from distinct keys, decode it anywhere the limit allows, and every
    pair of the map is found under its key while any other key is reported as
    missing. *)
Theorem ben_map_lookup (kvs : list (bytes * BencodeMut)) (opts : BDecodeOpt)
    {E} (handle_error : BencodeConvertErrorKind -> E) :
  NoDup kvs.*1 ->
  Forall (fun p => (Z.of_nat (length p.1) < 2 ^ 63)%Z /\ mut_wf p.2 /\
                   mut_depth p.2 < max_recursion opts) kvs ->
  0 < max_recursion opts ->
  exists v r d,
    ben_map kvs = Ok v /\ BencodeRef_decode (encode v) opts = Ok r /\
    BConvert.convert_dict handle_error r [] = Ok d /\
    (forall key val, (key, val) ∈ kvs ->
       BConvert.lookup handle_error d key = Ok (annotate val)) /\
    (forall key, key ∉ kvs.*1 ->
       BConvert.lookup handle_error d key = Err (handle_error (MissingKey key))).
Proof.
  intros Hnd Hall Hmax. pose proof (ben_map_entries_Forall _ _ Hnd Hall) as Hent.
  eexists _, (annotate (MDict (ben_map_entries kvs))), (annotate_entry <$> ben_map_entries kvs).
  split; [apply ben_map_eq|]. split.
  - unfold BencodeRef_decode. pose proof (decode_encoding (MDict (ben_map_entries kvs)) opts []) as Hdec.
    rewrite app_nil_r in Hdec. rewrite Hdec.
    + cbn [mbind outcome_bind]. rewrite decide_False by (by intros [? _]). done.
    + apply mut_wf_dict. split; [apply ben_map_entries_wf|].
      eapply Forall_impl; [exact Hent|]. by intros p (? & ? & _).
    + destruct (max_recursion opts) as [|n]; [lia|]. apply mut_depth_dict.
      eapply Forall_impl; [exact Hent|]. simpl; intros; lia.
  - split; [done|]. unfold BConvert.lookup, BDict.lookup. split.
    + intros key val Hin%ben_map_get; [|done]. rewrite bt_get_annotate, Hin. done.
    + intros key Hni. destruct (bt_get key (ben_map_entries kvs)) as [v|] eqn:Eg.
      * apply ben_map_get in Eg; [|done]. by apply (list_elem_of_fmap_2 fst) in Eg.
      * rewrite bt_get_annotate, Eg. done.
Qed.

Lemma ben_map_lookup_witness :
  exists v r d,
    ben_map [(bstr "z", MInt 1); (bstr "a", MList [])] = Ok v /\
    BencodeRef_decode (encode v) BDecodeOpt_default = Ok r /\
    BConvert.convert_dict id r [] = Ok d /\
    BConvert.lookup id d (bstr "z") = Ok (annotate (MInt 1)) /\
    BConvert.lookup id d (bstr "b") = Err (MissingKey (bstr "b")).
Proof.
  destruct (ben_map_lookup [(bstr "z", MInt 1); (bstr "a", MList [])] BDecodeOpt_default id)
    as (v & r & d & H1 & H2 & H3 & H4 & H5).
  - by apply (bool_decide_unpack _); vm_compute.
  - repeat constructor; vm_compute; lia || intuition congruence.
  - vm_compute; lia.
  - exists v, r, d. split_and!; [done|done|done| |].
    + apply H4. left.
    + apply H5. by apply (bool_decide_unpack _); vm_compute.
Defined.

(** The order of the pairs given to [ben_map!] does not matter: two calls
    with the same distinct pairs build the same value and so encode to the
    same bytes. *)
Theorem ben_map_order (kvs kvs' : list (bytes * BencodeMut)) :
  NoDup kvs.*1 -> kvs ≡ₚ kvs' -> ben_map kvs = ben_map kvs'.
Proof.
  intros Hnd Hp. rewrite !ben_map_eq. do 2 f_equal.
  assert (NoDup kvs'.*1) as Hnd' by (by rewrite <- Hp).
  apply bt_ext; [apply ben_map_entries_wf..|]. intros k. apply option_eq. intros v.
  rewrite !ben_map_get by done. by rewrite Hp.
Qed.

Lemma ben_map_order_witness :
  ben_map [(bstr "z", MInt 1); (bstr "a", MList [])] =
  ben_map [(bstr "a", MList []); (bstr "z", MInt 1)].
Proof.
  apply ben_map_order.
  - by apply (bool_decide_unpack _); vm_compute.
  - constructor.
Defined.
