(* ===== verification/Convert.v ===== *)
(** * [bip_util::convert]: network byte order

    Fixed-size arrays are byte lists whose length the types of the source fix;
    the theorems carry the length as a hypothesis. *)

From stdpp Require Import prelude list gmap strings.
From Stdlib Require Import ZArith Lia Strings.Byte.
From S2P Require Import Prelude Bytes.

#[local] Open Scope Z_scope.

(** ** Addresses of [std::net] *)

Record Ipv4Addr : Type := mk_Ipv4Addr { oct0 : byte; oct1 : byte; oct2 : byte; oct3 : byte }.

Definition octets (a : Ipv4Addr) : bytes := [oct0 a; oct1 a; oct2 a; oct3 a].

(** Eight segments of sixteen bits. *)
Record Ipv6Addr : Type := mk_Ipv6Addr { segments : list Z }.

Definition ipv6_wf (a : Ipv6Addr) : Prop :=
  length (segments a) = 8%nat /\ Forall (in_unsigned 16) (segments a).

Record SocketAddrV4 : Type := mk_SocketAddrV4 { v4_ip : Ipv4Addr; v4_port : Z }.

Record SocketAddrV6 : Type := mk_SocketAddrV6 {
  v6_ip : Ipv6Addr;
  v6_port : Z;
  v6_flowinfo : Z;
  v6_scope_id : Z;
}.

Inductive IpAddr : Type :=
| IpV4 (a : Ipv4Addr)
| IpV6 (a : Ipv6Addr).

Inductive SocketAddr : Type :=
| SockV4 (a : SocketAddrV4)
| SockV6 (a : SocketAddrV6).

#[export] Instance Ipv4Addr_eq_dec : EqDecision Ipv4Addr.
Proof. solve_decision. Defined.
#[export] Instance Ipv6Addr_eq_dec : EqDecision Ipv6Addr.
Proof. solve_decision. Defined.
#[export] Instance SocketAddrV4_eq_dec : EqDecision SocketAddrV4.
Proof. solve_decision. Defined.
#[export] Instance SocketAddrV6_eq_dec : EqDecision SocketAddrV6.
Proof. solve_decision. Defined.
#[export] Instance IpAddr_eq_dec : EqDecision IpAddr.
Proof. solve_decision. Defined.
#[export] Instance SocketAddr_eq_dec : EqDecision SocketAddr.
Proof. solve_decision. Defined.

#[export] Program Instance Ipv4Addr_countable : Countable Ipv4Addr :=
  inj_countable' (fun a => (oct0 a, oct1 a, oct2 a, oct3 a))
                 (fun '(a, b, c, d) => mk_Ipv4Addr a b c d) _.
Next Obligation. by intros []. Qed.
#[export] Program Instance Ipv6Addr_countable : Countable Ipv6Addr :=
  inj_countable' segments mk_Ipv6Addr _.
Next Obligation. by intros []. Qed.
#[export] Program Instance SocketAddrV4_countable : Countable SocketAddrV4 :=
  inj_countable' (fun a => (v4_ip a, v4_port a)) (fun '(i, p) => mk_SocketAddrV4 i p) _.
Next Obligation. by intros []. Qed.
#[export] Program Instance SocketAddrV6_countable : Countable SocketAddrV6 :=
  inj_countable' (fun a => (v6_ip a, v6_port a, v6_flowinfo a, v6_scope_id a))
                 (fun '(i, p, f, s) => mk_SocketAddrV6 i p f s) _.
Next Obligation. by intros []. Qed.
#[export] Program Instance SocketAddr_countable : Countable SocketAddr :=
  inj_countable' (fun a => match a with SockV4 a => inl a | SockV6 a => inr a end)
                 (fun a => match a with inl a => SockV4 a | inr a => SockV6 a end) _.
Next Obligation. by intros []. Qed.

#[export] Instance byte_inhabited : Inhabited byte := populate x00.

(** ** Operations *)

Definition eight_bytes_to_array (b : Z) : bytes :=
  [as_u8 (Z.shiftr b 56); as_u8 (Z.shiftr b 48); as_u8 (Z.shiftr b 40); as_u8 (Z.shiftr b 32);
   as_u8 (Z.shiftr b 24); as_u8 (Z.shiftr b 16); as_u8 (Z.shiftr b 8); as_u8 b].

Definition four_bytes_to_array (b : Z) : bytes :=
  let eight_bytes := eight_bytes_to_array (as_unsigned 64 b) in
  [eight_bytes !!! 4%nat; eight_bytes !!! 5%nat; eight_bytes !!! 6%nat; eight_bytes !!! 7%nat].

Definition ipv4_to_bytes_be (v4_addr : Ipv4Addr) : bytes := octets v4_addr.

Definition ipv6_to_bytes_be (v6_addr : Ipv6Addr) : bytes :=
  let segments := segments v6_addr in
  foldl (fun bs index =>
    let segment_index := (index / 2)%nat in
    let segment_byte_index := (index mod 2)%nat in
    let byte_shift_bits := (8 - segment_byte_index * 8)%nat in
    <[index := as_u8 (Z.shiftr (segments !!! segment_index) (Z.of_nat byte_shift_bits))]> bs)
  (replicate 16 x00) (seq 0 16).

Definition port_to_bytes_be (port : Z) : bytes := [as_u8 (Z.shiftr port 8); as_u8 (Z.shiftr port 0)].

(** [iter().chain(..).zip(iter_mut())] copies the sources over the array. *)
Definition copy_over (src dst : bytes) : bytes := take (length dst) src ++ drop (length src) dst.

Definition sock_v4_to_bytes_be (v4_sock : SocketAddrV4) : bytes :=
  let ip_bytes := ipv4_to_bytes_be (v4_ip v4_sock) in
  let port_bytes := port_to_bytes_be (v4_port v4_sock) in
  copy_over (ip_bytes ++ port_bytes) (replicate 6 x00).

Definition sock_v6_to_bytes_be (v6_sock : SocketAddrV6) : bytes :=
  let ip_bytes := ipv6_to_bytes_be (v6_ip v6_sock) in
  let port_bytes := port_to_bytes_be (v6_port v6_sock) in
  copy_over (ip_bytes ++ port_bytes) (replicate 18 x00).

Definition bytes_be_to_ipv4 (bs : bytes) : Ipv4Addr :=
  mk_Ipv4Addr (bs !!! 0%nat) (bs !!! 1%nat) (bs !!! 2%nat) (bs !!! 3%nat).

Definition bytes_be_to_ipv6 (bs : bytes) : Ipv6Addr :=
  mk_Ipv6Addr
    (foldl (fun combined_bytes '(index, value) =>
       let combined_index := (index / 2)%nat in
       let should_shift := bool_decide (index mod 2 = 0)%nat in
       let adjusted_value :=
         if should_shift then as_unsigned 16 (Z.shiftl (byte_val value) 8) else byte_val value in
       <[combined_index := Z.lor (combined_bytes !!! combined_index) adjusted_value]> combined_bytes)
     (replicate 8 0) (zip (seq 0 (length bs)) bs)).

Definition bytes_be_to_port (bs : bytes) : Z :=
  let high_byte := byte_val (bs !!! 0%nat) in
  let low_byte := byte_val (bs !!! 1%nat) in
  Z.lor (as_unsigned 16 (Z.shiftl high_byte 8)) low_byte.

Definition bytes_be_to_sock_v4 (bs : bytes) : SocketAddrV4 :=
  let ip_bytes := [bs !!! 0%nat; bs !!! 1%nat; bs !!! 2%nat; bs !!! 3%nat] in
  let port_bytes := [bs !!! 4%nat; bs !!! 5%nat] in
  mk_SocketAddrV4 (bytes_be_to_ipv4 ip_bytes) (bytes_be_to_port port_bytes).

Definition bytes_be_to_sock_v6 (bs : bytes) : SocketAddrV6 :=
  let port_bytes := [bs !!! 16%nat; bs !!! 17%nat] in
  let ip_bytes := copy_over (take 16 bs) (replicate 16 x00) in
  mk_SocketAddrV6 (bytes_be_to_ipv6 ip_bytes) (bytes_be_to_port port_bytes) 0 0.

(** ** Big-endian words *)

Lemma eight_bytes_be z : eight_bytes_to_array z = be_bytes 8 z.
Proof. unfold eight_bytes_to_array; simpl. by rewrite Z.shiftr_0_r. Qed.

Lemma four_bytes_be z : four_bytes_to_array z = be_bytes 4 z.
Proof.
  unfold four_bytes_to_array. rewrite eight_bytes_be.
  transitivity (be_bytes 4 (as_unsigned 64 z)); [done|]. by apply be_bytes_mod.
Qed.

Lemma port_bytes_be z : port_to_bytes_be z = be_bytes 2 z.
Proof. done. Qed.

(** A high part shifted past the low part adds to it. *)
Lemma lor_shiftl_add hi lo k :
  0 <= k -> 0 <= lo < 2 ^ k -> Z.lor (Z.shiftl hi k) lo = hi * 2 ^ k + lo.
Proof.
  intros Hk Hlo. rewrite <- (Z.shiftl_mul_pow2 hi k) by lia.
  assert (Z.land (Z.shiftl hi k) lo = 0) as Hl.
  { apply Z.bits_inj'. intros n Hn. rewrite Z.land_spec, Z.bits_0.
    destruct (Z.lt_ge_cases n k) as [Hlt|Hge].
    - rewrite Z.shiftl_spec_low by lia. done.
    - rewrite <- (Z.mod_small lo (2 ^ k)), Z.mod_pow2_bits_high by lia. apply andb_false_r. }
  by rewrite Z.add_nocarry_lxor, Z.lxor_lor by done.
Qed.

Lemma two_bytes_value hi lo :
  Z.lor (as_unsigned 16 (Z.shiftl (byte_val hi) 8)) (byte_val lo) = be_value [hi; lo].
Proof.
  pose proof (byte_val_range hi). pose proof (byte_val_range lo).
  rewrite as_unsigned_id.
  - rewrite lor_shiftl_add by lia. unfold be_value; simpl. lia.
  - rewrite Z.shiftl_mul_pow2 by lia. unfold in_unsigned. lia.
Qed.

Lemma bytes_be_to_port_value a b : bytes_be_to_port [a; b] = be_value [a; b].
Proof. apply two_bytes_value. Qed.

Lemma port_roundtrip p : in_unsigned 16 p -> bytes_be_to_port (port_to_bytes_be p) = p.
Proof.
  intros Hp. unfold port_to_bytes_be. rewrite bytes_be_to_port_value.
  change (be_value (be_bytes 2 p) = p). rewrite be_value_be_bytes. by apply Z.mod_small.
Qed.

Lemma port_bytes_roundtrip a b : port_to_bytes_be (bytes_be_to_port [a; b]) = [a; b].
Proof. rewrite bytes_be_to_port_value, port_bytes_be. by apply be_bytes_be_value. Qed.

Lemma port_range a b : in_unsigned 16 (bytes_be_to_port [a; b]).
Proof. rewrite bytes_be_to_port_value. apply (be_value_range [a; b]). Qed.

(** An address is its segments, two bytes each. *)
Lemma ipv6_bytes_be s0 s1 s2 s3 s4 s5 s6 s7 :
  ipv6_to_bytes_be (mk_Ipv6Addr [s0; s1; s2; s3; s4; s5; s6; s7]) =
  be_bytes 2 s0 ++ be_bytes 2 s1 ++ be_bytes 2 s2 ++ be_bytes 2 s3 ++
  be_bytes 2 s4 ++ be_bytes 2 s5 ++ be_bytes 2 s6 ++ be_bytes 2 s7.
Proof. reflexivity. Qed.

Lemma bytes_be_ipv6 b0 b1 b2 b3 b4 b5 b6 b7 b8 b9 b10 b11 b12 b13 b14 b15 :
  bytes_be_to_ipv6 [b0; b1; b2; b3; b4; b5; b6; b7; b8; b9; b10; b11; b12; b13; b14; b15] =
  mk_Ipv6Addr [be_value [b0; b1]; be_value [b2; b3]; be_value [b4; b5]; be_value [b6; b7];
               be_value [b8; b9]; be_value [b10; b11]; be_value [b12; b13]; be_value [b14; b15]].
Proof. rewrite <- !two_bytes_value. reflexivity. Qed.

Lemma list_of_length {A} (l : list A) n : length l = S n -> exists x l', l = x :: l' /\ length l' = n.
Proof. destruct l; simpl; [done|]. intros [= <-]. eauto. Qed.

Ltac explode H :=
  repeat (apply list_of_length in H; destruct H as (? & ? & -> & H));
  apply nil_length_inv in H; subst.

Lemma ipv6_roundtrip a : ipv6_wf a -> bytes_be_to_ipv6 (ipv6_to_bytes_be a) = a.
Proof.
  destruct a as [s]. intros [Hl Hs]; simpl in *. explode Hl.
  rewrite ipv6_bytes_be. cbn [be_bytes app]. rewrite bytes_be_ipv6.
  repeat (apply Forall_cons in Hs as [? Hs]). do 2 f_equal; [|repeat f_equal];
    match goal with
    | |- be_value [as_u8 (Z.shiftr ?x _); _] = _ =>
        change (be_value (be_bytes 2 x) = x); rewrite be_value_be_bytes; by apply Z.mod_small
    end.
Qed.

Lemma ipv6_bytes_roundtrip bs :
  length bs = 16%nat -> ipv6_to_bytes_be (bytes_be_to_ipv6 bs) = bs.
Proof.
  intros Hl. explode Hl. rewrite bytes_be_ipv6, ipv6_bytes_be.
  by rewrite !be_bytes_be_value by done.
Qed.

Lemma length_ipv6_bytes a : length (ipv6_to_bytes_be a) = 16%nat.
Proof. reflexivity. Qed.

Lemma bytes_be_to_ipv6_wf bs : length bs = 16%nat -> ipv6_wf (bytes_be_to_ipv6 bs).
Proof.
  intros Hl. explode Hl. rewrite bytes_be_ipv6. split; [done|]. simpl.
  repeat constructor; apply (be_value_range [_; _]).
Qed.

Lemma ipv4_roundtrip a : bytes_be_to_ipv4 (ipv4_to_bytes_be a) = a.
Proof. by destruct a. Qed.

Lemma sock_v6_bytes s :
  sock_v6_to_bytes_be s = ipv6_to_bytes_be (v6_ip s) ++ port_to_bytes_be (v6_port s).
Proof.
  unfold sock_v6_to_bytes_be, copy_over. rewrite length_app, length_ipv6_bytes. simpl length.
  by rewrite app_nil_r, take_ge by (rewrite length_app, length_ipv6_bytes; simpl; lia).
Qed.

Lemma bytes_to_sock_v6 ip a b :
  length ip = 16%nat ->
  bytes_be_to_sock_v6 (ip ++ [a; b]) =
  mk_SocketAddrV6 (bytes_be_to_ipv6 ip) (bytes_be_to_port [a; b]) 0 0.
Proof. intros Hl. explode Hl. reflexivity. Qed.

Lemma sock_v6_of_bytes s :
  ipv6_wf (v6_ip s) -> in_unsigned 16 (v6_port s) ->
  bytes_be_to_sock_v6 (sock_v6_to_bytes_be s) = mk_SocketAddrV6 (v6_ip s) (v6_port s) 0 0.
Proof.
  intros Hip Hp. rewrite sock_v6_bytes. unfold port_to_bytes_be.
  rewrite bytes_to_sock_v6 by apply length_ipv6_bytes.
  rewrite ipv6_roundtrip by done. f_equal. by apply port_roundtrip.
Qed.

Lemma sock_v4_of_bytes s :
  in_unsigned 16 (v4_port s) -> bytes_be_to_sock_v4 (sock_v4_to_bytes_be s) = s.
Proof.
  intros Hp. destruct s as [[a b c d] p].
  change (mk_SocketAddrV4 (mk_Ipv4Addr a b c d) (bytes_be_to_port (port_to_bytes_be p)) =
          mk_SocketAddrV4 (mk_Ipv4Addr a b c d) p).
  by rewrite port_roundtrip.
Qed.

Lemma bytes_of_sock_v4 bs : length bs = 6%nat -> sock_v4_to_bytes_be (bytes_be_to_sock_v4 bs) = bs.
Proof.
  intros Hl. explode Hl.
  match goal with |- _ = [?a; ?b; ?c; ?d; ?e; ?f] =>
    change ([a; b; c; d] ++ port_to_bytes_be (bytes_be_to_port [e; f]) = [a; b; c; d; e; f]) end.
  by rewrite port_bytes_roundtrip.
Qed.

Lemma bytes_of_sock_v6 bs : length bs = 18%nat -> sock_v6_to_bytes_be (bytes_be_to_sock_v6 bs) = bs.
Proof.
  intros Hl. rewrite <- (take_drop 16 bs).
  assert (exists a b, drop 16 bs = [a; b]) as (a & b & ->)
    by (explode Hl; by eexists _, _).
  rewrite bytes_to_sock_v6 by (rewrite length_take; lia).
  rewrite sock_v6_bytes. cbn [v6_ip v6_port].
  rewrite ipv6_bytes_roundtrip, port_bytes_roundtrip by (rewrite length_take; lia). done.
Qed.

(** ** Properties *)

(** Socket addresses survive the trip over the wire, and every byte
    string of the right length is an address: the two directions of the v4 and
    v6 conversions are inverse, except that a v6 address loses its flow
    information and scope, which the wire format has no room for. *)
Theorem sock_bytes_roundtrip :
  (forall s, in_unsigned 16 (v4_port s) -> bytes_be_to_sock_v4 (sock_v4_to_bytes_be s) = s) /\
  (forall bs, length bs = 6%nat -> sock_v4_to_bytes_be (bytes_be_to_sock_v4 bs) = bs) /\
  (forall s, ipv6_wf (v6_ip s) -> in_unsigned 16 (v6_port s) ->
     bytes_be_to_sock_v6 (sock_v6_to_bytes_be s) = mk_SocketAddrV6 (v6_ip s) (v6_port s) 0 0) /\
  (forall bs, length bs = 18%nat -> sock_v6_to_bytes_be (bytes_be_to_sock_v6 bs) = bs).
Proof.
  auto using sock_v4_of_bytes, bytes_of_sock_v4, sock_v6_of_bytes, bytes_of_sock_v6.
Qed.

Lemma sock_bytes_roundtrip_witness :
  bytes_be_to_sock_v4 (sock_v4_to_bytes_be (mk_SocketAddrV4 (mk_Ipv4Addr x7f x00 x00 x01) 6881)) =
  mk_SocketAddrV4 (mk_Ipv4Addr x7f x00 x00 x01) 6881.
Proof.
  apply (proj1 sock_bytes_roundtrip). vm_compute. split; [discriminate|reflexivity].
Defined.
