(* ===== verification/Sha.v ===== *)
(** * [bip_util::sha]: hashes, their distance and their bits

    [ShaHash] values are twenty bytes; the xor of two of them is the distance of
    the routing table, read through the [Bits] iterator.  The SHA-1 function
    comes from an external crate and is a class with its documented behaviour. *)

From stdpp Require Import prelude list gmap strings.
From Stdlib Require Import ZArith Lia Strings.Byte.
From S2P Require Import Prelude Bytes Convert.

(** ** Length errors ([error.rs]) *)

Inductive LengthErrorKind : Type :=
| LengthExceeded
| LengthExpected
| LengthMultipleExpected.

Record LengthError : Type := mk_LengthError {
  le_kind : LengthErrorKind;
  le_length : nat;
  le_index : option nat;
}.

Definition LengthError_new (kind : LengthErrorKind) (length : nat) : LengthError :=
  mk_LengthError kind length None.

(** ** Hashes *)

Definition SHA_HASH_LEN : nat := 20.

Record ShaHash : Type := mk_ShaHash { sha_hash : bytes }.

Definition sha_wf (h : ShaHash) : Prop := length (sha_hash h) = SHA_HASH_LEN.

#[export] Instance ShaHash_eq_dec : EqDecision ShaHash.
Proof. solve_decision. Defined.

#[export] Program Instance ShaHash_countable : Countable ShaHash :=
  inj_countable' sha_hash mk_ShaHash _.
Next Obligation. by intros []. Qed.

#[export] Instance sha_wf_dec h : Decision (sha_wf h).
Proof. unfold sha_wf. apply _. Defined.

Definition from_hash (hash : bytes) : outcome LengthError ShaHash :=
  if decide (length hash <> SHA_HASH_LEN) then Err (LengthError_new LengthExpected SHA_HASH_LEN)
  else
    let my_hash := replicate SHA_HASH_LEN x00 in
    Ok (mk_ShaHash (copy_over hash my_hash)).

(** [PartialEq<[u8]>]: a fold over the zipped bytes. *)
Definition eq_slice (h : ShaHash) (other : bytes) : bool :=
  let is_equal := bool_decide (length other = length (sha_hash h)) in
  foldl (fun prev '(x, o) => prev && bool_decide (x = o)) is_equal (zip (sha_hash h) other).

Definition byte_xor (a b : byte) : byte := as_u8 (Z.lxor (byte_val a) (byte_val b)).

(** The zipped loop stops at the shorter of the two. *)
Fixpoint xor_over (src dst : bytes) : bytes :=
  match src, dst with
  | s :: src', d :: dst' => byte_xor s d :: xor_over src' dst'
  | _, _ => dst
  end.

Definition bitxor (self rhs : ShaHash) : ShaHash :=
  mk_ShaHash (xor_over (sha_hash rhs) (sha_hash self)).

(** ** SHA-1 of the [crypto] crate and the builder *)

Class Sha1 : Type := {
  sha1_state : Type;
  sha1_new : sha1_state;
  sha1_input : sha1_state -> bytes -> sha1_state;
  sha1_result : sha1_state -> bytes;
}.

(** Documented behaviour: a digest of twenty bytes of the concatenated input. *)
Class Sha1Laws `{Sha1} : Prop := {
  sha1_result_len : forall s, length (sha1_result s) = SHA_HASH_LEN;
  sha1_input_app : forall s a b, sha1_input (sha1_input s a) b = sha1_input s (a ++ b);
}.

(** A digest with these laws: the first twenty bytes of the padded input. *)
Definition Sha1_pad : Sha1 := {|
  sha1_state := bytes;
  sha1_new := [];
  sha1_input s bs := s ++ bs;
  sha1_result s := take SHA_HASH_LEN (s ++ replicate SHA_HASH_LEN x00);
|}.

Lemma Sha1_pad_laws : @Sha1Laws Sha1_pad.
Proof.
  split.
  - intros s. cbn [sha1_result Sha1_pad]. rewrite length_take, length_app, length_replicate. lia.
  - intros s a b. cbn. by rewrite app_assoc.
Qed.

Section builder.
Context `{Sha1}.

Record ShaHashBuilder : Type := mk_ShaHashBuilder { builder_sha : sha1_state }.

Definition ShaHashBuilder_new : ShaHashBuilder := mk_ShaHashBuilder sha1_new.

Definition add_bytes (self : ShaHashBuilder) (bs : bytes) : ShaHashBuilder :=
  mk_ShaHashBuilder (sha1_input (builder_sha self) bs).

(** [Digest::result] fills the buffer it is given. *)
Definition build (self : ShaHashBuilder) : ShaHash :=
  let buffer := replicate SHA_HASH_LEN x00 in
  mk_ShaHash (copy_over (sha1_result (builder_sha self)) buffer).

Definition from_bytes (bs : bytes) : ShaHash := build (add_bytes ShaHashBuilder_new bs).
End builder.

(** ** Bit iterators *)

Inductive BitRep : Type := BitSet | BitUnset.
Inductive XorRep : Type := XorDiff | XorSame.

Definition BitRep_eq_XorRep (b : BitRep) (x : XorRep) : bool :=
  match b, x with
  | BitSet, XorDiff => true
  | BitUnset, XorSame => true
  | _, _ => false
  end.

Record Bits : Type := mk_Bits { bits_bytes : bytes; bit_pos : nat }.

Definition Bits_new (bs : bytes) : Bits := mk_Bits bs 0.

Definition Bits_next (self : Bits) : option BitRep * Bits :=
  if decide (bit_pos self < length (bits_bytes self) * 8) then
    let byte_index := bit_pos self / 8 in
    let bit_offset := 7 - bit_pos self mod 8 in
    let bit_value := Z.shiftr (byte_val (bits_bytes self !!! byte_index)) (Z.of_nat bit_offset) in
    let self := mk_Bits (bits_bytes self) (bit_pos self + 1) in
    (Some (if decide (bit_value = 1)%Z then BitSet else BitUnset), self)
  else (None, self).

(** [XorBits::next] *)
Definition XorBits_next (self : Bits) : option XorRep * Bits :=
  let '(n, self) := Bits_next self in
  ((fun n => match n with BitSet => XorDiff | BitUnset => XorSame end) <$> n, self).

(** [take_while(|&x| x == rep).count()] on the iterator. *)
Fixpoint bits_count_while (fuel : nat) (rep : XorRep) (it : Bits) : outcome Empty_set nat :=
  match fuel with
  | O => NoFuel
  | S fuel =>
      match Bits_next it with
      | (Some n, it') =>
          if BitRep_eq_XorRep n rep then c ← bits_count_while fuel rep it'; Ok (S c) else Ok 0
      | (None, _) => Ok 0
      end
  end.

Definition sha_bits (h : ShaHash) : Bits := Bits_new (sha_hash h).

(** [h.bits().take_while(|&x| x == XorRep::Same).count()] *)
Definition count_same_bits (h : ShaHash) : outcome Empty_set nat :=
  bits_count_while (length (sha_hash h) * 8 + 1) XorSame (sha_bits h).

(** ** Lemmas *)

(** Bit [i] of a byte string, the most significant bit of each byte first. *)
Definition true_bit (bs : bytes) (i : nat) : bool :=
  Z.testbit (byte_val (bs !!! (i / 8))) (Z.of_nat (7 - i mod 8)).

(** Shifting down to one finds the highest set bit. *)
Lemma shiftr_one (b k : Z) :
  (0 <= b -> 0 <= k ->
  (Z.shiftr b k = 1 <-> Z.testbit b k = true /\ forall j, k < j -> Z.testbit b j = false))%Z.
Proof.
  intros Hb Hk. rewrite Z.shiftr_div_pow2 by lia.
  assert (0 < 2 ^ k)%Z by (apply Z.pow_pos_nonneg; lia). split.
  - intros Hd. assert (0 < b)%Z.
    { destruct (Z.eq_dec b 0) as [->|]; [rewrite Z.div_0_l in Hd; lia|lia]. }
    assert (Z.log2 b = k) as <-.
    { apply Z.log2_unique; [lia|]. rewrite Z.pow_succ_r by lia.
      pose proof (Z.div_mod b (2 ^ k) ltac:(lia)). pose proof (Z.mod_pos_bound b (2 ^ k) ltac:(lia)).
      rewrite Hd in *. lia. }
    split; [by apply Z.bit_log2|]. intros j Hj. by apply Z.bits_above_log2.
  - intros [Ht Hj]. assert (0 < b)%Z.
    { destruct (Z.eq_dec b 0) as [->|]; [by rewrite Z.bits_0 in Ht|lia]. }
    assert (Z.log2 b = k) as <-.
    { destruct (Z.lt_trichotomy (Z.log2 b) k) as [Hl|[Hl|Hl]]; [|done|].
      - rewrite Z.bits_above_log2 in Ht by lia. done.
      - specialize (Hj _ Hl). rewrite Z.bit_log2 in Hj by lia. done. }
    destruct (Z.log2_spec b ltac:(lia)) as [H1 H2]. rewrite Z.pow_succ_r in H2 by lia.
    symmetry. apply (Z.div_unique b (2 ^ Z.log2 b) 1 (b - 2 ^ Z.log2 b)); lia.
Qed.

Lemma byte_bit_high (b : byte) (j : Z) : (8 <= j)%Z -> Z.testbit (byte_val b) j = false.
Proof.
  intros Hj. pose proof (byte_val_range b) as Hb.
  rewrite <- (Z.mod_small (byte_val b) (2 ^ 8)) by lia. apply Z.mod_pow2_bits_high. lia.
Qed.

(** The iterator reports a bit as set only if it is the first set bit of its byte. *)
Lemma Bits_next_set bs pos :
  pos < length bs * 8 ->
  (Bits_next (mk_Bits bs pos)).1 = Some BitSet <->
  true_bit bs pos = true /\
  forall j, j < pos -> j / 8 = pos / 8 -> true_bit bs j = false.
Proof.
  intros Hp. unfold Bits_next. cbn [bit_pos bits_bytes]. rewrite decide_True by done. cbn [fst].
  unfold true_bit. pose proof (byte_val_range (bs !!! (pos / 8))) as Hb.
  transitivity (Z.shiftr (byte_val (bs !!! (pos / 8))) (Z.of_nat (7 - pos mod 8)) = 1%Z).
  { by case_decide. }
  rewrite shiftr_one by lia. apply and_iff_compat_l. split.
  - intros H j Hj Hd. rewrite Hd. apply H.
    pose proof (Nat.div_mod_eq j 8). pose proof (Nat.div_mod_eq pos 8).
    pose proof (Nat.mod_upper_bound j 8). pose proof (Nat.mod_upper_bound pos 8). lia.
  - intros H j Hj. destruct (Z.lt_ge_cases j 8) as [Hlt|Hge]; [|by apply byte_bit_high].
    pose proof (Nat.div_mod_eq pos 8) as Hdm. pose proof (Nat.mod_upper_bound pos 8).
    set (i := pos / 8 * 8 + (7 - Z.to_nat j)).
    assert (i / 8 = pos / 8 /\ i mod 8 = 7 - Z.to_nat j) as [Hi1 Hi2].
    { subst i. rewrite Nat.add_comm. split;
        [rewrite Nat.div_add by lia; rewrite (Nat.div_small (7 - Z.to_nat j)) by lia; lia|].
      rewrite Nat.Div0.mod_add. apply Nat.mod_small. lia. }
    specialize (H i ltac:(subst i; lia) Hi1). rewrite Hi1, Hi2 in H.
    rewrite <- H. f_equal. lia.
Qed.

Lemma Bits_next_None bs pos :
  length bs * 8 <= pos -> Bits_next (mk_Bits bs pos) = (None, mk_Bits bs pos).
Proof. intros Hp. unfold Bits_next; simpl. rewrite decide_False by lia. done. Qed.

Lemma Bits_next_step bs pos :
  pos < length bs * 8 ->
  exists b, Bits_next (mk_Bits bs pos) = (Some b, mk_Bits bs (pos + 1)).
Proof. intros Hp. unfold Bits_next; simpl. rewrite decide_True by done. eauto. Qed.

(** Counting equal bits finds the first set bit from any position whose
    predecessors are unset. *)
Lemma bits_count_while_spec bs fuel pos :
  pos <= length bs * 8 -> length bs * 8 - pos < fuel ->
  (forall j, j < pos -> true_bit bs j = false) ->
  exists n, bits_count_while fuel XorSame (mk_Bits bs pos) = Ok n /\
    pos + n <= length bs * 8 /\
    (forall j, j < pos + n -> true_bit bs j = false) /\
    (pos + n < length bs * 8 -> true_bit bs (pos + n) = true).
Proof.
  revert pos; induction fuel as [|fuel IH]; intros pos Hp Hf Hz; [lia|]. simpl.
  destruct (decide (pos < length bs * 8)) as [Hlt|Hge].
  - destruct (Bits_next_step bs pos Hlt) as [b Hb]. pose proof (Bits_next_set bs pos Hlt) as Hset.
    rewrite Hb in *. simpl in Hset. destruct b; simpl.
    + exists 0. rewrite Nat.add_0_r. destruct Hset as [Hset _]. destruct (Hset eq_refl) as [Ht _].
      auto with lia.
    + assert (true_bit bs pos = false) as Hu.
      { apply not_true_is_false. intros Ht. destruct Hset as [_ Hset].
        assert (Some BitUnset = Some BitSet) by (apply Hset; auto). done. }
      destruct (IH (pos + 1)) as (n & Hn & Hle & Hall & Hend); [lia|lia| |].
      { intros j Hj. destruct (decide (j = pos)) as [->|]; [done|]. apply Hz. lia. }
      rewrite Hn. simpl. exists (S n). replace (pos + S n) with (pos + 1 + n) by lia. auto.
  - rewrite Bits_next_None by lia. exists 0. rewrite Nat.add_0_r. auto with lia.
Qed.

Lemma copy_over_same (src dst : bytes) : length src = length dst -> copy_over src dst = src.
Proof.
  intros Hl. unfold copy_over. rewrite take_ge, drop_ge by lia. apply app_nil_r.
Qed.

Lemma from_hash_ok hash :
  length hash = SHA_HASH_LEN -> from_hash hash = Ok (mk_ShaHash hash).
Proof.
  intros Hl. unfold from_hash. rewrite decide_False by auto.
  by rewrite copy_over_same by (by rewrite length_replicate).
Qed.

Lemma foldl_and_false {A} (f : A -> bool) (l : list A) :
  foldl (fun prev x => prev && f x) false l = false.
Proof. by induction l. Qed.

Lemma eq_slice_spec h other : eq_slice h other = true <-> sha_hash h = other.
Proof.
  unfold eq_slice. generalize (sha_hash h); clear h; intros l.
  assert (forall l o : bytes, foldl (fun prev '(x, y) => prev && bool_decide (x = y)) true (zip l o) = true <->
            take (length o) l = take (length l) o) as Hz.
  { clear. induction l as [|x l IH]; intros [|y o]; simpl; try done.
    destruct (decide (x = y)) as [->|Hne].
    - rewrite bool_decide_eq_true_2 by done. rewrite IH. split; congruence.
    - rewrite bool_decide_eq_false_2 by done. split; [|congruence]. intros Hf. exfalso.
      revert Hf. clear. generalize (zip l o). intros z. induction z as [|[] z IHz]; simpl; done. }
  case_bool_decide as Hl.
  - rewrite Hz, Hl, take_ge by lia. by rewrite <- Hl, take_ge by lia.
  - split; [|by intros ->]. intros Hf. exfalso. revert Hf. generalize (zip l other).
    intros z. clear. induction z as [|[] z IHz]; simpl; done.
Qed.

Lemma byte_xor_val a b : byte_val (byte_xor a b) = Z.lxor (byte_val a) (byte_val b).
Proof.
  unfold byte_xor. rewrite byte_val_as_u8. apply Z.bits_inj'. intros n Hn.
  change 256%Z with (2 ^ 8)%Z. rewrite Z.lxor_spec. destruct (Z.lt_ge_cases n 8).
  - rewrite Z.mod_pow2_bits_low by lia. apply Z.lxor_spec.
  - rewrite Z.mod_pow2_bits_high by lia. by rewrite !byte_bit_high by lia.
Qed.

Lemma length_xor_over src dst : length (xor_over src dst) = length dst.
Proof. revert dst; induction src as [|s src IH]; intros [|d dst]; simpl; auto. Qed.

Lemma bitxor_wf a b : sha_wf a -> sha_wf (bitxor a b).
Proof. unfold sha_wf, bitxor; simpl. by rewrite length_xor_over. Qed.
#[export] Hint Resolve bitxor_wf : rbt.

Lemma xor_over_lookup src dst i :
  length src = length dst ->
  i < length dst -> xor_over src dst !!! i = byte_xor (src !!! i) (dst !!! i).
Proof.
  revert dst i; induction src as [|s src IH]; intros [|d dst] [|i] Hl Hi; simpl in *; try lia; [done|].
  apply IH; lia.
Qed.

Lemma true_bit_xor a b i :
  sha_wf a -> sha_wf b -> i < SHA_HASH_LEN * 8 ->
  true_bit (sha_hash (bitxor a b)) i = xorb (true_bit (sha_hash a) i) (true_bit (sha_hash b) i).
Proof.
  unfold sha_wf. intros Ha Hb Hi. unfold true_bit, bitxor. cbn [sha_hash].
  rewrite xor_over_lookup; [|lia|rewrite Ha; apply Nat.Div0.div_lt_upper_bound; lia].
  rewrite byte_xor_val, Z.lxor_spec. apply xorb_comm.
Qed.

Lemma count_same_bits_spec h :
  exists n, count_same_bits h = Ok n /\ n <= length (sha_hash h) * 8 /\
    (forall j, j < n -> true_bit (sha_hash h) j = false) /\
    (n < length (sha_hash h) * 8 -> true_bit (sha_hash h) n = true).
Proof.
  destruct (bits_count_while_spec (sha_hash h) (length (sha_hash h) * 8 + 1) 0) as (n & Hn & H);
    [lia|lia|intros; lia|]. exists n. split; [done|exact H].
Qed.

Lemma byte_xor_comm a b : byte_xor a b = byte_xor b a.
Proof. unfold byte_xor. by rewrite Z.lxor_comm. Qed.

Lemma byte_xor_cancel a b : byte_xor a (byte_xor a b) = b.
Proof.
  apply byte_val_inj. rewrite !byte_xor_val, <- Z.lxor_assoc, Z.lxor_nilpotent. apply Z.lxor_0_l.
Qed.

Lemma xor_over_comm a b : length a = length b -> xor_over a b = xor_over b a.
Proof.
  revert b; induction a as [|x a IH]; intros [|y b] Hl; simpl in *; try done.
  rewrite byte_xor_comm. f_equal. apply IH. lia.
Qed.

Lemma xor_over_cancel a b : length a = length b -> xor_over a (xor_over a b) = b.
Proof.
  revert b; induction a as [|x a IH]; intros [|y b] Hl; simpl in *; try done.
  rewrite byte_xor_cancel. f_equal. apply IH. lia.
Qed.

Lemma bitxor_comm a b : sha_wf a -> sha_wf b -> bitxor a b = bitxor b a.
Proof. unfold sha_wf, bitxor. intros Ha Hb. f_equal. apply xor_over_comm. lia. Qed.

Lemma bitxor_cancel a b : sha_wf a -> sha_wf b -> bitxor (bitxor a b) b = a.
Proof.
  unfold sha_wf, bitxor. destruct a as [a], b as [b]; simpl. intros Ha Hb. f_equal.
  apply xor_over_cancel. lia.
Qed.

(** Two hashes are equal when all their bits are. *)
Lemma true_bit_ext a b :
  sha_wf a -> sha_wf b ->
  (forall i, i < SHA_HASH_LEN * 8 -> true_bit (sha_hash a) i = true_bit (sha_hash b) i) -> a = b.
Proof.
  unfold sha_wf. destruct a as [a], b as [b]; simpl. intros Ha Hb Hbits. f_equal.
  apply list_eq_same_length with (n := SHA_HASH_LEN); [lia..|].
  intros i x y Hi Hx Hy. unfold SHA_HASH_LEN in *. apply byte_val_inj, Z.bits_inj'. intros n Hn.
  destruct (Z.lt_ge_cases n 8); [|by rewrite !byte_bit_high].
  specialize (Hbits (i * 8 + (7 - Z.to_nat n)) ltac:(lia)). unfold true_bit in Hbits.
  assert ((i * 8 + (7 - Z.to_nat n)) / 8 = i) as E1
    by (rewrite Nat.add_comm, Nat.div_add by lia; rewrite Nat.div_small by lia; lia).
  assert ((i * 8 + (7 - Z.to_nat n)) mod 8 = 7 - Z.to_nat n) as E2
    by (rewrite Nat.add_comm, Nat.Div0.mod_add; apply Nat.mod_small; lia).
  rewrite E1, E2 in Hbits. rewrite !(list_lookup_total_correct _ _ _ Hx) in Hbits.
  rewrite !(list_lookup_total_correct _ _ _ Hy) in Hbits.
  replace (Z.of_nat (7 - (7 - Z.to_nat n))) with n in Hbits by lia. done.
Qed.

Section builder_lemmas.
Context `{Sha1Laws}.

Lemma build_wf b : sha_wf (build b).
Proof.
  unfold build, sha_wf; cbn [sha_hash].
  by rewrite copy_over_same, sha1_result_len by (by rewrite sha1_result_len, length_replicate).
Qed.

Lemma from_bytes_wf bs : sha_wf (from_bytes bs).
Proof. apply build_wf. Qed.

Lemma add_bytes_app b s t : add_bytes (add_bytes b s) t = add_bytes b (s ++ t).
Proof. unfold add_bytes; simpl. by rewrite sha1_input_app. Qed.
End builder_lemmas.
#[export] Hint Resolve build_wf from_bytes_wf : rbt.

Lemma common_prefix_length (a b : ShaHash) :
  sha_wf a -> sha_wf b ->
  exists n, count_same_bits (bitxor a b) = Ok n /\ n <= SHA_HASH_LEN * 8 /\
    (forall j, j < n -> true_bit (sha_hash a) j = true_bit (sha_hash b) j) /\
    (n < SHA_HASH_LEN * 8 -> true_bit (sha_hash a) n <> true_bit (sha_hash b) n) /\
    (n = SHA_HASH_LEN * 8 <-> a = b).
Proof.
  intros Ha Hb. destruct (count_same_bits_spec (bitxor a b)) as (n & Hn & Hle & Hz & Hend).
  rewrite (bitxor_wf a b Ha) in Hle, Hend. exists n.
  assert (forall j, j < n -> true_bit (sha_hash a) j = true_bit (sha_hash b) j) as Heq.
  { intros j Hj. specialize (Hz j Hj). rewrite true_bit_xor in Hz by (done || lia).
    by apply xorb_eq. }
  assert (n < SHA_HASH_LEN * 8 -> true_bit (sha_hash a) n <> true_bit (sha_hash b) n) as Hne.
  { intros Hlt He. specialize (Hend Hlt). rewrite true_bit_xor, He, xorb_nilpotent in Hend by done.
    done. }
  split_and!; try done. split.
  - intros ->. by apply true_bit_ext.
  - intros ->. destruct (decide (n = SHA_HASH_LEN * 8)); [done|]. exfalso. by apply Hne; [lia|].
Qed.

(** ** Properties *)

(** The equal-bit count of a xor is the length of the common prefix: for
    two hashes [a] and [b], counting the leading [Same] bits of [a ^ b]
    terminates with the number of leading bits on which [a] and [b] agree, which
    is 160 exactly when they are equal. *)
Theorem count_same_bits_prefix (a b : ShaHash) :
  sha_wf a -> sha_wf b ->
  exists n, count_same_bits (bitxor a b) = Ok n /\ n <= SHA_HASH_LEN * 8 /\
    (forall j, j < n -> true_bit (sha_hash a) j = true_bit (sha_hash b) j) /\
    (n < SHA_HASH_LEN * 8 -> true_bit (sha_hash a) n <> true_bit (sha_hash b) n) /\
    (n = SHA_HASH_LEN * 8 <-> a = b).
Proof. apply common_prefix_length. Qed.

Lemma count_same_bits_prefix_witness :
  exists n, count_same_bits (bitxor (mk_ShaHash (replicate 20 x01)) (mk_ShaHash (replicate 20 x03))) = Ok n
    /\ n <= SHA_HASH_LEN * 8.
Proof.
  destruct (count_same_bits_prefix (mk_ShaHash (replicate 20 x01)) (mk_ShaHash (replicate 20 x03)))
    as (n & H1 & H2 & _); [reflexivity..|]. eauto.
Defined.

(** The bit iterator reports a bit as set exactly when it is the first
    set bit of its byte, so every later set bit of the byte is reported as
    unset; only the leading run of equal bits can be read off it. *)
Theorem Bits_report_first_set (bs : bytes) (pos : nat) :
  pos < length bs * 8 ->
  (Bits_next (mk_Bits bs pos)).1 = Some BitSet <->
  true_bit bs pos = true /\
  forall j, j < pos -> j / 8 = pos / 8 -> true_bit bs j = false.
Proof. apply Bits_next_set. Qed.

Lemma Bits_report_first_set_witness :
  ~ (Bits_next (mk_Bits [x03] 7)).1 = Some BitSet /\ true_bit [x03] 7 = true.
Proof.
  split; [|reflexivity]. intros H.
  destruct (proj1 (Bits_report_first_set [x03] 7 ltac:(simpl; lia)) H) as [_ H'].
  specialize (H' 6 ltac:(lia) eq_refl). vm_compute in H'. discriminate.
Defined.

(** The xor of two hashes determines either from the other and is
    symmetric, and comparing a hash with a byte slice is equality of the bytes,
    lengths included. *)
Theorem xor_and_slice_equality (a b : ShaHash) (s : bytes) :
  sha_wf a -> sha_wf b ->
  bitxor (bitxor a b) b = a /\ bitxor a b = bitxor b a /\ sha_wf (bitxor a b) /\
  (eq_slice a s = true <-> sha_hash a = s).
Proof.
  intros Ha Hb. split_and!; auto using bitxor_cancel, bitxor_comm, eq_slice_spec with rbt.
Qed.

Lemma xor_and_slice_equality_witness :
  bitxor (bitxor (mk_ShaHash (replicate 20 x01)) (mk_ShaHash (replicate 20 x03)))
    (mk_ShaHash (replicate 20 x03)) = mk_ShaHash (replicate 20 x01).
Proof.
  apply (xor_and_slice_equality (mk_ShaHash (replicate 20 x01)) (mk_ShaHash (replicate 20 x03)) []);
    reflexivity.
Defined.
