(* ===== verification/Trans.v ===== *)
(** * [bip_util::trans] and [fisher_shuffle]: transaction ids

    Identifiers of an unsigned type of width [w] are integers below [2^w].
    Random numbers come from an external crate; each call receives the numbers
    it draws as a function of the draw. *)

From stdpp Require Import prelude list gmap strings.
From Stdlib Require Import ZArith Lia.
From S2P Require Import Prelude Bytes.

(** ** [fisher_shuffle] ([lib.rs]) *)

Section shuffle.
Context {T : Type} (default : T) (rand : nat -> nat).

(** One iteration: [mem::replace] at both indices, then the two stores. *)
Definition shuffle_step (list : list T) (i : nat) : outcome Empty_set (Datatypes.list T) :=
  let swap_index := rand i mod (length list - i) + i in
  src_val ← unwrap (list !! i);
  let list := <[i := default]> list in
  dst_val ← unwrap (list !! swap_index);
  let list := <[swap_index := default]> list in
  let list := <[i := dst_val]> list in
  Ok (<[swap_index := src_val]> list).

Fixpoint shuffle_loop (list : list T) (idxs : Datatypes.list nat) :
    outcome Empty_set (Datatypes.list T) :=
  match idxs with
  | [] => Ok list
  | i :: idxs' => list ← shuffle_step list i; shuffle_loop list idxs'
  end.

Definition fisher_shuffle (list : list T) : outcome Empty_set (Datatypes.list T) :=
  shuffle_loop list (seq 0 (length list)).
End shuffle.

(** ** [SequentialIds] *)

Section ids.
Context (w : Z).

Record SequentialIds : Type := mk_SequentialIds { next_id : Z }.

Definition SequentialIds_start_at (start : Z) : SequentialIds := mk_SequentialIds start.
Definition SequentialIds_new : SequentialIds := SequentialIds_start_at 0.

(** [Wrapping(next_id) + Wrapping(1)] *)
Definition SequentialIds_generate (self : SequentialIds) : Z * SequentialIds :=
  let curr_id := next_id self in
  (curr_id, mk_SequentialIds (as_unsigned w (next_id self + 1))).

(** ** [LocallyShuffledIds] *)

Definition TRANSACTION_ID_PREALLOC_LEN : nat := 2048.

Record LocallyShuffledIds : Type := mk_LocallyShuffledIds {
  sequential : SequentialIds;
  stored_ids : list Z;
}.

Definition LocallyShuffledIds_start_at (start : Z) : LocallyShuffledIds :=
  mk_LocallyShuffledIds (SequentialIds_start_at start) [].
Definition LocallyShuffledIds_new : LocallyShuffledIds := LocallyShuffledIds_start_at 0.

Definition max_value : Z := 2 ^ w - 1.
Definition min_value : Z := 0.

(** The refill loop; every iteration adds one id, so the remaining room bounds it. *)
Fixpoint refill_loop (fuel : nat) (sequential : SequentialIds) (stored : list Z)
    (contains_min_value contains_max_value : bool) (num_ids_generated : nat) :
    outcome Empty_set (SequentialIds * list Z) :=
  match fuel with
  | O => NoFuel
  | S fuel =>
      if decide (num_ids_generated < TRANSACTION_ID_PREALLOC_LEN /\
                 (contains_min_value = false \/ contains_max_value = false)) then
        let '(next_id, sequential) := SequentialIds_generate sequential in
        let contains_min_value := contains_min_value || bool_decide (next_id = min_value) in
        let contains_max_value := contains_max_value || bool_decide (next_id = max_value) in
        refill_loop fuel sequential (stored ++ [next_id]) contains_min_value contains_max_value
          (num_ids_generated + 1)
      else Ok (sequential, stored)
  end.

Definition refill_stored_ids (rand : nat -> nat) (self : LocallyShuffledIds) :
    outcome Empty_set LocallyShuffledIds :=
  '(sequential, stored) ←
    refill_loop (TRANSACTION_ID_PREALLOC_LEN + 1) (sequential self) [] false false 0;
  stored ← fisher_shuffle 0%Z rand stored;
  Ok (mk_LocallyShuffledIds sequential stored).

(** [stored_ids.pop()], or a refill and the recursive call. *)
Fixpoint generate (fuel : nat) (rand : nat -> nat) (self : LocallyShuffledIds) :
    outcome Empty_set (Z * LocallyShuffledIds) :=
  match fuel with
  | O => NoFuel
  | S fuel =>
      match last (stored_ids self) with
      | Some id =>
          Ok (id, mk_LocallyShuffledIds (sequential self)
                    (take (length (stored_ids self) - 1) (stored_ids self)))
      | None =>
          self ← refill_stored_ids rand self;
          generate fuel rand self
      end
  end.

(** The recursion happens at most once. *)
Definition LocallyShuffledIds_generate := generate 2.

(** [n] ids in a row; [rands] gives the numbers drawn by each call. *)
Fixpoint generate_n (n : nat) (rands : nat -> nat -> nat) (self : LocallyShuffledIds) :
    outcome Empty_set (list Z * LocallyShuffledIds) :=
  match n with
  | O => Ok ([], self)
  | S n =>
      '(id, self) ← LocallyShuffledIds_generate (rands n) self;
      '(ids, self) ← generate_n n rands self;
      Ok (id :: ids, self)
  end.
End ids.

(** ** Shuffling permutes *)

Lemma swap_Permutation {A} (l : list A) i j x y :
  l !! i = Some x -> l !! j = Some y -> <[j := x]> (<[i := y]> l) ≡ₚ l.
Proof.
  intros Hi Hj. apply Permutation_inj. rewrite !length_insert. split; [done|].
  exists (fun k => if decide (k = i) then j else if decide (k = j) then i else k). split.
  - intros a b. repeat case_decide; congruence.
  - pose proof (lookup_lt_Some _ _ _ Hi). pose proof (lookup_lt_Some _ _ _ Hj).
    intros k. destruct (decide (k = j)) as [->|Hkj].
    + rewrite list_lookup_insert_eq by (by rewrite length_insert). case_decide; congruence.
    + rewrite list_lookup_insert_ne by done. destruct (decide (k = i)) as [->|Hki].
      * by rewrite list_lookup_insert_eq.
      * by rewrite list_lookup_insert_ne.
Qed.

Section shuffle_lemmas.
Context {T : Type} (default : T) (rand : nat -> nat).

Lemma shuffle_step_perm (l : list T) i :
  i < length l -> exists l', shuffle_step default rand l i = Ok l' /\ l' ≡ₚ l.
Proof.
  intros Hi. unfold shuffle_step. set (j := rand i mod (length l - i) + i).
  assert (j < length l) as Hj
    by (pose proof (Nat.mod_upper_bound (rand i) (length l - i)); subst j; lia).
  destruct (lookup_lt_is_Some_2 l i Hi) as [x Hx]. rewrite Hx. simpl.
  destruct (lookup_lt_is_Some_2 l j Hj) as [y Hy].
  destruct (decide (i = j)) as [<-|Hne].
  - rewrite list_lookup_insert_eq by done. simpl. eexists. split; [done|].
    rewrite !list_insert_insert_eq. by rewrite list_insert_id.
  - rewrite list_lookup_insert_ne, Hy by done. simpl. eexists. split; [done|].
    transitivity (<[j := x]> (<[i := y]> l)); [|by apply swap_Permutation].
    apply reflexive_eq, list_eq. intros k.
    destruct (decide (k = j)) as [->|];
      [by rewrite !list_lookup_insert_eq by (by rewrite ?length_insert)|].
    rewrite !(list_lookup_insert_ne _ j) by done.
    destruct (decide (k = i)) as [->|];
      [by rewrite !list_lookup_insert_eq by (by rewrite ?length_insert)|].
    by rewrite !(list_lookup_insert_ne _ i), (list_lookup_insert_ne _ j),
      (list_lookup_insert_ne _ i) by done.
Qed.

Lemma shuffle_loop_perm (l : list T) idxs :
  Forall (fun i => i < length l) idxs ->
  exists l', shuffle_loop default rand l idxs = Ok l' /\ l' ≡ₚ l.
Proof.
  intros Hi. revert l Hi. induction idxs as [|i idxs IH]; intros l Hi; simpl; [eauto|].
  apply Forall_cons in Hi as [Hi His]. destruct (shuffle_step_perm l i Hi) as (l1 & -> & Hp1).
  simpl. destruct (IH l1) as (l2 & -> & Hp2); [by rewrite (Permutation_length Hp1)|].
  exists l2. split; [done|]. by rewrite Hp2.
Qed.

Lemma fisher_shuffle_perm (l : list T) :
  exists l', fisher_shuffle default rand l = Ok l' /\ l' ≡ₚ l.
Proof.
  apply shuffle_loop_perm, Forall_forall. intros i Hi%elem_of_seq. lia.
Qed.
End shuffle_lemmas.

(** ** Blocks of ids *)

Section id_lemmas.
Context (w : Z).
Hypothesis Hw : (1 <= w)%Z.

(** [n] consecutive ids from [start], wrapping. *)
Definition consecutive (start : Z) (n : nat) : list Z :=
  (fun i => as_unsigned w (start + Z.of_nat i)) <$> seq 0 n.

Lemma consecutive_snoc start n :
  consecutive start (n + 1) = consecutive start n ++ [as_unsigned w (start + Z.of_nat n)].
Proof. unfold consecutive. rewrite seq_app, fmap_app. done. Qed.

Lemma consecutive_app start n m :
  consecutive start (n + m) =
  consecutive start n ++ consecutive (as_unsigned w (start + Z.of_nat n)) m.
Proof.
  unfold consecutive. rewrite seq_app, fmap_app. f_equal.
  replace (seq (0 + n) m) with (Nat.add n <$> seq 0 m) by (rewrite fmap_add_seq; f_equal; lia).
  rewrite <- list_fmap_compose. apply list_fmap_ext. intros _ i _.
  unfold compose, as_unsigned. rewrite Zplus_mod_idemp_l. f_equal. lia.
Qed.

Lemma length_consecutive start n : length (consecutive start n) = n.
Proof. unfold consecutive. by rewrite length_fmap, length_seq. Qed.

(** At most [2^w] consecutive ids are distinct. *)
Lemma consecutive_NoDup start n : (Z.of_nat n <= 2 ^ w)%Z -> NoDup (consecutive start n).
Proof.
  intros Hn. apply NoDup_fmap_2_strong; [|apply NoDup_seq].
  intros i j Hi%elem_of_seq Hj%elem_of_seq Heq.
  unfold as_unsigned in Heq. assert (0 < 2 ^ w)%Z by (apply Z.pow_pos_nonneg; lia).
  assert ((start + Z.of_nat i - (start + Z.of_nat j)) mod 2 ^ w = 0)%Z as Hm.
  { rewrite Zminus_mod, Heq, Z.sub_diag. by apply Z.mod_0_l; lia. }
  apply Z.mod_divide in Hm as [q Hq]; [|lia]. assert (q = 0)%Z by nia. lia.
Qed.

(** A full cycle of ids meets every value. *)
Lemma consecutive_full start n v :
  (2 ^ w <= Z.of_nat n)%Z -> in_unsigned w v -> v ∈ consecutive start n.
Proof.
  intros Hn Hv. unfold in_unsigned in Hv. assert (0 < 2 ^ w)%Z by lia.
  pose proof (Z.mod_pos_bound (v - start) (2 ^ w) ltac:(lia)) as Hr.
  apply list_elem_of_fmap. exists (Z.to_nat ((v - start) mod 2 ^ w)). split.
  - rewrite Z2Nat.id by lia. unfold as_unsigned. rewrite Zplus_mod_idemp_r.
    replace (start + (v - start))%Z with v by lia. by rewrite Z.mod_small.
  - apply elem_of_seq. lia.
Qed.

Lemma refill_loop_spec start fuel n mn mx :
  in_unsigned w start ->
  TRANSACTION_ID_PREALLOC_LEN - n < fuel -> n <= TRANSACTION_ID_PREALLOC_LEN ->
  (Z.of_nat n <= 2 ^ w)%Z ->
  (mn = true <-> min_value ∈ consecutive start n) ->
  (mx = true <-> max_value w ∈ consecutive start n) ->
  exists k, n <= k <= TRANSACTION_ID_PREALLOC_LEN /\ (Z.of_nat k <= 2 ^ w)%Z /\
    (n = 0 -> 0 < k) /\
    refill_loop w fuel (mk_SequentialIds (as_unsigned w (start + Z.of_nat n)))
      (consecutive start n) mn mx n =
    Ok (mk_SequentialIds (as_unsigned w (start + Z.of_nat k)), consecutive start k).
Proof.
  intros Hs. revert n mn mx. induction fuel as [|fuel IH]; intros n mn mx Hf Hn Hb Hmn Hmx; [lia|].
  assert (0 < 2 ^ w)%Z by (apply Z.pow_pos_nonneg; lia). simpl. case_decide as Hc.
  - assert (Z.of_nat n <> 2 ^ w)%Z as Hne.
    { intros He. destruct Hc as [_ [Hc|Hc]].
      - rewrite (proj2 Hmn) in Hc; [done|]. apply consecutive_full; [lia|].
        unfold in_unsigned, min_value. lia.
      - rewrite (proj2 Hmx) in Hc; [done|]. apply consecutive_full; [lia|].
        unfold in_unsigned, max_value. lia. }
    rewrite <- consecutive_snoc.
    replace (as_unsigned w (as_unsigned w (start + Z.of_nat n) + 1))
      with (as_unsigned w (start + Z.of_nat (n + 1)))
      by (unfold as_unsigned; rewrite Zplus_mod_idemp_l; f_equal; lia).
    destruct (IH (n + 1) (mn || bool_decide (as_unsigned w (start + Z.of_nat n) = min_value))
                (mx || bool_decide (as_unsigned w (start + Z.of_nat n) = max_value w)))
      as (k & Hk & Hkb & _ & He).
    + unfold TRANSACTION_ID_PREALLOC_LEN in *; lia.
    + lia.
    + lia.
    + rewrite consecutive_snoc, elem_of_app, list_elem_of_singleton, <- Hmn.
      rewrite orb_true_iff, bool_decide_eq_true. intuition congruence.
    + rewrite consecutive_snoc, elem_of_app, list_elem_of_singleton, <- Hmx.
      rewrite orb_true_iff, bool_decide_eq_true. intuition congruence.
    + exists k. split_and!; [lia|lia|done|lia|done].
  - exists n. split_and!; [lia|done|done| |done]. intros ->. exfalso. apply Hc.
    unfold TRANSACTION_ID_PREALLOC_LEN. split; [lia|]. left.
    destruct mn; [|done]. pose proof (proj1 Hmn eq_refl) as Hin. by apply not_elem_of_nil in Hin.
Qed.

(** One refill stores a block of distinct consecutive ids in some order. *)
Lemma refill_stored_ids_spec rand start stored :
  in_unsigned w start ->
  exists k l, 0 < k <= TRANSACTION_ID_PREALLOC_LEN /\ (Z.of_nat k <= 2 ^ w)%Z /\
    refill_stored_ids w rand (mk_LocallyShuffledIds (mk_SequentialIds start) stored) =
      Ok (mk_LocallyShuffledIds (mk_SequentialIds (as_unsigned w (start + Z.of_nat k))) l) /\
    l ≡ₚ consecutive start k.
Proof.
  intros Hs. assert (0 < 2 ^ w)%Z by (apply Z.pow_pos_nonneg; lia).
  destruct (refill_loop_spec start (TRANSACTION_ID_PREALLOC_LEN + 1) 0 false false)
    as (k & Hk & Hkb & Hpos & He); [done|lia|lia|lia|..].
  - split; [done|]. intros Hin. by apply not_elem_of_nil in Hin.
  - split; [done|]. intros Hin. by apply not_elem_of_nil in Hin.
  - destruct (fisher_shuffle_perm 0%Z rand (consecutive start k)) as (l & Hl & Hp).
    exists k, l. split_and!; [auto with lia|lia|done| |done].
    unfold refill_stored_ids. cbn [sequential].
    rewrite Z.add_0_r, (as_unsigned_id w start Hs) in He.
    change (consecutive start 0) with (@nil Z) in He. rewrite He. simpl. by rewrite Hl.
Qed.

(** Ids issued so far and ids in store are the first [n] ids from [start]. *)
Definition ids_inv (start : Z) (issued : list Z) (n : nat) (s : LocallyShuffledIds) : Prop :=
  next_id (sequential s) = as_unsigned w (start + Z.of_nat n) /\
  issued ++ stored_ids s ≡ₚ consecutive start n.

Lemma last_take {A} (l : list A) x : last l = Some x -> [x] ++ take (length l - 1) l ≡ₚ l.
Proof.
  intros (l' & ->)%last_Some. rewrite length_app. simpl length.
  replace (length l' + 1 - 1) with (length l') by lia. rewrite take_app_length.
  apply Permutation_app_comm.
Qed.

Lemma generate_inv rand start issued n s :
  ids_inv start issued n s ->
  exists id s' n', LocallyShuffledIds_generate w rand s = Ok (id, s') /\
    n' <= n + TRANSACTION_ID_PREALLOC_LEN /\ (n' <> n -> n' <= length issued + TRANSACTION_ID_PREALLOC_LEN) /\
    ids_inv start (issued ++ [id]) n' s'.
Proof.
  intros [Hnext Hp]. unfold LocallyShuffledIds_generate. destruct s as [[nx] stored]; simpl in *. subst nx.
  destruct (last stored) as [id|] eqn:El.
  - eexists _, _, n. split_and!; [done|lia|done|]. split; [done|]. simpl.
    rewrite <- Hp, <- app_assoc. by rewrite (last_take _ _ El).
  - apply last_None in El as ->. rewrite app_nil_r in Hp.
    assert (in_unsigned w (as_unsigned w (start + Z.of_nat n))) as Hr
      by (apply as_unsigned_range; lia).
    destruct (refill_stored_ids_spec rand _ [] Hr) as (k & l & Hk & Hkb & -> & Hl). simpl.
    assert (length l = k) as Hlen by (rewrite Hl; apply length_consecutive).
    destruct (last l) as [id|] eqn:El; [|apply last_None in El as ->; simpl in *; lia].
    eexists _, _, (n + k). split_and!; [done|lia| |].
    + intros _. apply Permutation_length in Hp. rewrite length_consecutive in Hp. lia.
    + split; simpl.
      * unfold as_unsigned. rewrite Zplus_mod_idemp_l. f_equal. lia.
      * rewrite consecutive_app, <- Hp, <- app_assoc. by rewrite <- Hl, (last_take _ _ El).
Qed.

Lemma generate_n_inv rands start m issued n s :
  ids_inv start issued n s -> n <= length issued + TRANSACTION_ID_PREALLOC_LEN ->
  exists ids s' n', generate_n w m rands s = Ok (ids, s') /\ length ids = m /\
    ids_inv start (issued ++ ids) n' s' /\ n' <= length issued + m + TRANSACTION_ID_PREALLOC_LEN.
Proof.
  revert issued n s. induction m as [|m IH]; intros issued n s Hinv Hn.
  - exists [], s, n. rewrite app_nil_r. split_and!; [done|done|done|lia].
  - destruct (generate_inv (rands m) _ _ _ _ Hinv) as (id & s1 & n1 & He & _ & Hb & Hinv1).
    destruct (IH (issued ++ [id]) n1 s1 Hinv1) as (ids & s2 & n2 & He2 & Hl & Hinv2 & Hb2).
    { rewrite length_app; simpl. destruct (decide (n1 = n)); [lia|]. specialize (Hb ltac:(done)). lia. }
    exists (id :: ids), s2, n2. simpl. rewrite He. simpl. rewrite He2. simpl.
    rewrite length_app in Hb2. rewrite <- app_assoc in Hinv2. simpl in *.
    split_and!; [done|lia|done|lia].
Qed.
End id_lemmas.

(** ** Properties *)

(** The shuffle permutes: on any slice and whatever numbers are drawn,
    [fisher_shuffle] returns without an index panic and leaves a permutation of
    the slice, the defaults it parks in the slots never surviving. *)
Theorem fisher_shuffle_permutes {T} (default : T) (rand : nat -> nat) (l : list T) :
  exists l', fisher_shuffle default rand l = Ok l' /\ l' ≡ₚ l.
Proof. apply fisher_shuffle_perm. Qed.

(** Shuffled transaction ids are unique over a reasonable span: starting
    anywhere in a [w]-bit type, any number of [generate] calls returns, and the
    ids are pairwise distinct as long as no more than [2^w] less one block of
    them are taken, whatever the shuffles draw. *)
Theorem shuffled_ids_unique (w start : Z) (n : nat) (rands : nat -> nat -> nat) :
  (1 <= w)%Z -> in_unsigned w start ->
  exists ids s, generate_n w n rands (LocallyShuffledIds_start_at start) = Ok (ids, s) /\
    length ids = n /\
    ((Z.of_nat (n + TRANSACTION_ID_PREALLOC_LEN) <= 2 ^ w)%Z -> NoDup ids).
Proof.
  intros Hw Hs.
  destruct (generate_n_inv w Hw rands start n [] 0 (LocallyShuffledIds_start_at start))
    as (ids & s & n' & He & Hl & [_ Hp] & Hb).
  - split; [|done]. simpl. by rewrite Z.add_0_r, as_unsigned_id.
  - lia.
  - exists ids, s. split_and!; [done|done|]. intros Hbound. simpl in *.
    assert (NoDup (ids ++ stored_ids s)) as Hnd
      by (rewrite Hp; apply consecutive_NoDup; [done|lia]).
    by apply NoDup_app in Hnd as [? _].
Qed.

Lemma shuffled_ids_unique_witness :
  exists ids s, generate_n 16 3 (fun _ _ => 7) (LocallyShuffledIds_start_at 65535) = Ok (ids, s) /\
    NoDup ids.
Proof.
  destruct (shuffled_ids_unique 16 65535 3 (fun _ _ => 7)) as (ids & s & H1 & _ & H2).
  - lia.
  - unfold in_unsigned. lia.
  - exists ids, s. split; [exact H1|]. apply H2. unfold TRANSACTION_ID_PREALLOC_LEN. lia.
Defined.
