(* ===== verification/Send.v ===== *)
(** * [bip_util::send]: splitting a channel's capacity

    [SplitSender] shares one channel between several clients, each with its own
    atomic count of unacknowledged messages.  The sequential operations are
    functions; the clones of one sender run concurrently, so their atomic steps
    form a step relation in which any interleaving is possible. *)

From stdpp Require Import prelude list gmap strings relations.
From Stdlib Require Import ZArith Lia.
From S2P Require Import Prelude Bytes.

(** ** [TrySender] and the standard channels *)

(** [None] is success; [Some] hands the data back; a hang-up panics. *)
Class TrySender (S T : Type) : Type :=
  inner_try_send : S -> T -> outcome Empty_set (option T * S).

Record Sender (T : Type) : Type := mk_Sender { s_queue : list T; s_hung_up : bool }.
Arguments mk_Sender {T} s_queue s_hung_up.
Arguments s_queue {T} s.
Arguments s_hung_up {T} s.

#[export] Instance Sender_try_send T : TrySender (Sender T) T :=
  fun self data =>
    if s_hung_up self then Panic
    else Ok (None, mk_Sender (s_queue self ++ [data]) (s_hung_up self)).

Record SyncSender (T : Type) : Type := mk_SyncSender {
  ss_queue : list T;
  ss_bound : nat;
  ss_hung_up : bool;
}.
Arguments mk_SyncSender {T} ss_queue ss_bound ss_hung_up.
Arguments ss_queue {T} s.
Arguments ss_bound {T} s.
Arguments ss_hung_up {T} s.

#[export] Instance SyncSender_try_send T : TrySender (SyncSender T) T :=
  fun self data =>
    if ss_hung_up self then Panic
    else if decide (length (ss_queue self) < ss_bound self) then
      Ok (None, mk_SyncSender (ss_queue self ++ [data]) (ss_bound self) (ss_hung_up self))
    else Ok (Some data, self).

(** ** [SplitSender] *)

Section split.
Context {S T : Type} `{TrySender S T}.

Record SplitSender : Type := mk_SplitSender { send : S; count : Z; capacity : Z }.

Definition SplitSender_new (send : S) (capacity : Z) : SplitSender :=
  mk_SplitSender send 0 capacity.

(** The atomic operations of [AtomicUsize]. *)
Definition fetch_add (count : Z) : Z * Z := (count, as_unsigned 64 (count + 1)).
Definition fetch_sub (count : Z) : Z := as_unsigned 64 (count - 1).

Definition try_count_increment (self : SplitSender) : bool * SplitSender :=
  let '(our_count, count) := fetch_add (count self) in
  if (our_count <? capacity self)%Z then (true, mk_SplitSender (send self) count (capacity self))
  else (false, mk_SplitSender (send self) (fetch_sub count) (capacity self)).

Definition SplitSender_try_send (self : SplitSender) (data : T) :
    outcome Empty_set (option T * SplitSender) :=
  let '(should_send, self) := try_count_increment self in
  if should_send then
    '(r, send) ← inner_try_send (send self) data;
    Ok (r, mk_SplitSender send (count self) (capacity self))
  else Ok (Some data, self).

Definition ack (self : SplitSender) : SplitSender :=
  mk_SplitSender (send self) (fetch_sub (count self)) (capacity self).

(** *** Interleavings

    A thread between its [fetch_add] and the rest of [try_send] remembers the
    count it saw.  [unacked] and [leaked] are the messages delivered but not
    acknowledged, and the messages the inner channel handed back after the count
    was taken. *)
Inductive pc : Type :=
| Idle
| Added (our_count : Z) (data : T).

Record system : Type := mk_system {
  sys_sender : SplitSender;
  sys_threads : list pc;
  sys_unacked : nat;
  sys_leaked : nat;
}.

Definition with_count (self : SplitSender) (c : Z) : SplitSender :=
  mk_SplitSender (send self) c (capacity self).

Inductive step : system -> system -> Prop :=
| step_add i s ts u l data :
    ts !! i = Some Idle ->
    step (mk_system s ts u l)
      (mk_system (with_count s (fetch_add (count s)).2)
         (<[i := Added (fetch_add (count s)).1 data]> ts) u l)
| step_revert i s ts u l c data :
    ts !! i = Some (Added c data) -> (capacity s <= c)%Z ->
    step (mk_system s ts u l)
      (mk_system (with_count s (fetch_sub (count s))) (<[i := Idle]> ts) u l)
| step_delivered i s ts u l c data send' :
    ts !! i = Some (Added c data) -> (c < capacity s)%Z ->
    inner_try_send (send s) data = Ok (None, send') ->
    step (mk_system s ts u l)
      (mk_system (mk_SplitSender send' (count s) (capacity s)) (<[i := Idle]> ts) (u + 1) l)
| step_refused i s ts u l c data data' send' :
    ts !! i = Some (Added c data) -> (c < capacity s)%Z ->
    inner_try_send (send s) data = Ok (Some data', send') ->
    step (mk_system s ts u l)
      (mk_system (mk_SplitSender send' (count s) (capacity s)) (<[i := Idle]> ts) u (l + 1))
| step_ack s ts u l :
    step (mk_system s ts (u + 1) l) (mk_system (ack s) ts u l).

Definition init (s : SplitSender) (n : nat) : system := mk_system s (replicate n Idle) 0 0.

(** ** Invariant *)

Definition granted (cap : Z) (p : pc) : bool :=
  match p with Idle => false | Added c _ => (c <? cap)%Z end.
Definition reverting (cap : Z) (p : pc) : bool :=
  match p with Idle => false | Added c _ => negb (c <? cap)%Z end.

Definition count_if (f : pc -> bool) (l : list pc) : nat := length (List.filter f l).

(** The count is exactly the claims on the capacity, and granted claims fit. *)
Record sys_inv (sys : system) : Prop := {
  inv_count :
    count (sys_sender sys) =
    Z.of_nat (count_if (granted (capacity (sys_sender sys))) (sys_threads sys)
              + count_if (reverting (capacity (sys_sender sys))) (sys_threads sys)
              + sys_unacked sys + sys_leaked sys);
  inv_granted :
    (Z.of_nat (count_if (granted (capacity (sys_sender sys))) (sys_threads sys)
               + sys_unacked sys + sys_leaked sys) <= capacity (sys_sender sys))%Z;
}.

Definition b2n (b : bool) : nat := if b then 1 else 0.

Lemma count_if_insert f l i x y :
  l !! i = Some x -> count_if f (<[i := y]> l) + b2n (f x) = count_if f l + b2n (f y).
Proof.
  unfold count_if. revert i; induction l as [|z l IH]; intros [|i] Hi; simplify_eq/=.
  - destruct (f x), (f y); simpl; lia.
  - specialize (IH i Hi). destruct (f z); simpl; lia.
Qed.

Lemma count_if_le f l : count_if f l <= length l.
Proof. unfold count_if. induction l as [|z l IH]; simpl; [lia|]. destruct (f z); simpl; lia. Qed.

Lemma count_if_split cap l :
  count_if (granted cap) l + count_if (reverting cap) l <= length l.
Proof.
  unfold count_if. induction l as [|[|c d] l IH]; simpl; [lia|lia|].
  destruct (c <? cap)%Z; simpl; lia.
Qed.

Lemma init_inv s n : count s = 0%Z -> (0 <= capacity s)%Z -> sys_inv (init s n).
Proof.
  intros Hc Hcap.
  assert (forall f, f Idle = false -> count_if f (replicate n Idle) = 0) as Hz.
  { intros f Hf. induction n as [|k IH]; [done|]. unfold count_if in *; simpl. by rewrite Hf. }
  split; simpl; rewrite !Hz by done; simpl; lia.
Qed.

Lemma step_fixed sys sys' :
  step sys sys' ->
  capacity (sys_sender sys') = capacity (sys_sender sys) /\
  length (sys_threads sys') = length (sys_threads sys).
Proof. destruct 1; simpl; rewrite ?length_insert; done. Qed.

(** Every atomic step preserves the invariant, as long as the threads and the
    capacity together stay within a [usize]. *)
Lemma step_inv sys sys' :
  (Z.of_nat (length (sys_threads sys)) + capacity (sys_sender sys) < 2 ^ 64)%Z ->
  sys_inv sys -> step sys sys' -> sys_inv sys'.
Proof.
  intros Hb [Hc Hg] Hs. destruct Hs as
    [i s ts u l data Hi|i s ts u l c data Hi Hcap|i s ts u l c data s' Hi Hcap _
    |i s ts u l c data d' s' Hi Hcap _|s ts u l];
    simpl in *; unfold fetch_sub, as_unsigned; pose proof (count_if_split (capacity s) ts) as Hsp.
  - pose proof (lookup_lt_Some _ _ _ Hi) as Hlt.
    pose proof (count_if_insert (granted (capacity s)) ts i Idle (Added (count s) data) Hi) as H1.
    pose proof (count_if_insert (reverting (capacity s)) ts i Idle (Added (count s) data) Hi) as H2.
    assert (count_if (granted (capacity s)) ts + count_if (reverting (capacity s)) ts < length ts) as Hlt2.
    { pose proof (count_if_insert (fun p => granted (capacity s) p || reverting (capacity s) p) ts i
                    Idle (Added 0 data) Hi) as H3.
      pose proof (count_if_split (capacity s) (<[i := Added (count s) data]> ts)) as H4.
      rewrite length_insert in H4. simpl in *. destruct (count s <? capacity s)%Z; simpl in *; lia. }
    simpl in H1, H2. split; simpl; [rewrite Z.mod_small by lia|];
      destruct (Z.ltb_spec (count s) (capacity s)); simpl in *; lia.
  - pose proof (count_if_insert (granted (capacity s)) ts i _ Idle Hi) as H1.
    pose proof (count_if_insert (reverting (capacity s)) ts i _ Idle Hi) as H2.
    simpl in H1, H2. destruct (Z.ltb_spec c (capacity s)); [lia|]. simpl in *.
    split; simpl; [rewrite Z.mod_small by lia|]; lia.
  - pose proof (count_if_insert (granted (capacity s)) ts i _ Idle Hi) as H1.
    pose proof (count_if_insert (reverting (capacity s)) ts i _ Idle Hi) as H2.
    simpl in H1, H2. destruct (Z.ltb_spec c (capacity s)); [|lia]. simpl in *. split; simpl; lia.
  - pose proof (count_if_insert (granted (capacity s)) ts i _ Idle Hi) as H1.
    pose proof (count_if_insert (reverting (capacity s)) ts i _ Idle Hi) as H2.
    simpl in H1, H2. destruct (Z.ltb_spec c (capacity s)); [|lia]. simpl in *. split; simpl; lia.
  - split; simpl; [unfold fetch_sub, as_unsigned; rewrite Z.mod_small by lia|]; lia.
Qed.

Lemma reachable_inv s n sys :
  count s = 0%Z -> (0 <= capacity s)%Z -> (Z.of_nat n + capacity s < 2 ^ 64)%Z ->
  rtc step (init s n) sys ->
  sys_inv sys /\ capacity (sys_sender sys) = capacity s /\ length (sys_threads sys) = n.
Proof.
  intros Hc Hcap Hb Hr. revert sys Hr.
  apply (rtc_ind_r (fun sys => sys_inv sys /\ capacity (sys_sender sys) = capacity s /\
                               length (sys_threads sys) = n)).
  - split; [by apply init_inv|]. split; [done|]. simpl. apply length_replicate.
  - intros sys1 sys2 _ Hst (Hi & He & Hl). destruct (step_fixed _ _ Hst) as [He' Hl'].
    split; [|split; congruence]. eapply step_inv; [|done|done]. rewrite Hl, He. done.
Qed.

(** ** The sequential operation is one thread's steps *)

Lemma try_send_steps s ts u l i data r s' :
  ts !! i = Some Idle -> SplitSender_try_send s data = Ok (r, s') ->
  exists u' l', rtc step (mk_system s ts u l) (mk_system s' ts u' l').
Proof.
  intros Hi. unfold SplitSender_try_send, try_count_increment; simpl.
  pose proof (lookup_lt_Some _ _ _ Hi) as Hlt.
  assert (forall p : pc, (<[i := p]> ts) !! i = Some p) as Hl by (intros; by apply list_lookup_insert_eq).
  assert (forall p : pc, <[i := Idle]> (<[i := p]> ts) = ts) as Hid
    by (intros; rewrite list_insert_insert_eq; by apply list_insert_id).
  destruct (Z.ltb_spec (count s) (capacity s)) as [Hlc|Hge]; simpl.
  - intros ([r1 snd1] & Hr1 & [= <- <-])%outcome_bind_ok. destruct r1 as [d|].
    + exists u, (l + 1). eapply rtc_l; [by eapply (step_add i _ _ _ _ data)|]. apply rtc_once.
      rewrite <- (Hid (Added (count s) data)) at 2.
      eapply (step_refused i (with_count s _) _ u l (count s) data d snd1); simpl; done.
    + exists (u + 1), l. eapply rtc_l; [by eapply (step_add i _ _ _ _ data)|]. apply rtc_once.
      rewrite <- (Hid (Added (count s) data)) at 2.
      eapply (step_delivered i (with_count s _) _ u l (count s) data snd1); simpl; done.
  - intros [= <- <-]. exists u, l. eapply rtc_l; [by eapply (step_add i _ _ _ _ data)|]. apply rtc_once.
    rewrite <- (Hid (Added (count s) data)) at 2.
    eapply (step_revert i (with_count s _) _ u l (count s) data); simpl; done.
Qed.

(** ** Refusals of the inner channel are never given back *)

Lemma try_send_refused s data send' data' :
  (0 <= count s < capacity s)%Z -> (capacity s < 2 ^ 64)%Z ->
  inner_try_send (send s) data = Ok (Some data', send') ->
  SplitSender_try_send s data =
    Ok (Some data', mk_SplitSender send' (count s + 1) (capacity s)).
Proof.
  intros Hc Hcap Hr. unfold SplitSender_try_send, try_count_increment; simpl.
  destruct (Z.ltb_spec (count s) (capacity s)); [|lia]. simpl. rewrite Hr. simpl.
  unfold as_unsigned. rewrite Z.mod_small by lia. done.
Qed.

Lemma try_send_exhausted s data :
  (0 <= capacity s)%Z -> count s = capacity s -> (capacity s < 2 ^ 64 - 1)%Z ->
  SplitSender_try_send s data = Ok (Some data, s).
Proof.
  intros H0 Hc Hcap. unfold SplitSender_try_send, try_count_increment; simpl.
  destruct (Z.ltb_spec (count s) (capacity s)); [lia|]. simpl.
  destruct s as [sd c cap]; simpl in *. unfold fetch_sub, as_unsigned.
  rewrite (Z.mod_small (c + 1)) by lia. rewrite Z.mod_small by lia.
  do 3 f_equal. lia.
Qed.

(** A client sending a batch one message after the other. *)
Fixpoint try_send_all (self : SplitSender) (ds : list T) :
    outcome Empty_set (list (option T) * SplitSender) :=
  match ds with
  | [] => Ok ([], self)
  | d :: ds =>
      '(r, self) ← SplitSender_try_send self d;
      '(rs, self) ← try_send_all self ds;
      Ok (r :: rs, self)
  end.

Lemma try_send_all_refused s ds :
  (forall d, inner_try_send (send s) d = Ok (Some d, send s)) ->
  (0 <= count s)%Z -> (count s + Z.of_nat (length ds) <= capacity s)%Z -> (capacity s < 2 ^ 64)%Z ->
  try_send_all s ds =
    Ok (Some <$> ds, mk_SplitSender (send s) (count s + Z.of_nat (length ds)) (capacity s)).
Proof.
  revert s; induction ds as [|d ds IH]; intros s Hfull H0 Hc Hcap; simpl in *.
  - destruct s; simpl. by rewrite Z.add_0_r.
  - rewrite (try_send_refused s d (send s) d) by (done || lia). simpl.
    rewrite IH by (simpl; done || lia). simpl. do 3 f_equal. lia.
Qed.
End split.
Arguments SplitSender S : clear implicits.
Arguments system S T : clear implicits.

(** ** Properties *)

(** A split sender never exceeds its share: whatever the inner channel,
    in every interleaving of the atomic steps of any number of clones and of the
    acknowledgements, the messages delivered and not yet acknowledged, together
    with the sends already granted, stay within the capacity given to the
    split. *)
Theorem split_capacity_respected {S T} `{TrySender S T} (snd : S) (cap : Z) (n : nat)
    (sys : system S T) :
  (0 <= cap)%Z -> (Z.of_nat n + cap < 2 ^ 64)%Z ->
  rtc step (init (SplitSender_new snd cap) n) sys ->
  (Z.of_nat (sys_unacked sys + count_if (granted cap) (sys_threads sys)) <= cap)%Z /\
  (Z.of_nat (sys_unacked sys) <= count (sys_sender sys) <= cap + Z.of_nat n)%Z.
Proof.
  intros Hcap Hb Hr. destruct (reachable_inv (SplitSender_new snd cap) n sys eq_refl Hcap Hb Hr)
    as ([Hc Hg] & He & Hl). simpl in He. rewrite He in *.
  pose proof (count_if_split cap (sys_threads sys)) as Hs. lia.
Qed.

Lemma split_capacity_respected_witness :
  (Z.of_nat (1 + 0) <= 1)%Z.
Proof.
  apply (split_capacity_respected (mk_Sender [] false) 1 2
    (mk_system (mk_SplitSender (mk_Sender [7] false) 1 1) [Idle; Idle] 1 0)); [lia|lia|].
  eapply rtc_l; [apply (step_add 0 _ _ _ _ 7); reflexivity|].
  eapply rtc_l; [|apply rtc_refl].
  apply (step_delivered 0 (mk_SplitSender (mk_Sender [] false) 1 1) [Added 0 7; Idle] 0 0 0 7);
    reflexivity.
Defined.

(** A refusal of the inner channel leaks capacity: if the inner channel
    is full for as many sends as the split has capacity, then nothing was
    delivered, and yet every later send is refused without asking the channel,
    even after it has been drained or replaced. *)
Theorem split_refusals_leak {S T} `{TrySender S T} (snd : S) (cap : Z) (ds : list T) :
  (forall d, inner_try_send snd d = Ok (Some d, snd)) ->
  Z.of_nat (length ds) = cap -> (cap < 2 ^ 64 - 1)%Z ->
  exists s', try_send_all (SplitSender_new snd cap) ds = Ok (Some <$> ds, s') /\
    forall snd' d,
      SplitSender_try_send (mk_SplitSender snd' (count s') (capacity s')) d =
      Ok (Some d, mk_SplitSender snd' (count s') (capacity s')).
Proof.
  intros Hfull Hl Hcap. eexists. split.
  - apply try_send_all_refused; simpl; done || lia.
  - intros snd' d. simpl. apply try_send_exhausted; simpl; lia.
Qed.

Lemma split_refusals_leak_witness :
  exists s', try_send_all (SplitSender_new (mk_SyncSender [9] 1 false) 1) [5] = Ok ([Some 5], s') /\
    SplitSender_try_send (mk_SplitSender (mk_SyncSender [] 1 false) (count s') (capacity s')) 6 =
    Ok (Some 6, mk_SplitSender (mk_SyncSender [] 1 false) (count s') (capacity s')).
Proof.
  destruct (split_refusals_leak (mk_SyncSender [9] 1 false) 1 [5]) as (s' & H1 & H2).
  - reflexivity.
  - reflexivity.
  - lia.
  - exists s'. split; [exact H1|apply H2].
Defined.
