(* ===== verification/Contiguous.v ===== *)
(** * [bip_util::contiguous]: many buffers as one

    [ContiguousBuffer] is the trait, with what its users rely on as laws; [Vec]
    with a fixed capacity implements it, and [ContiguousBuffers] implements it
    again from any implementation, as long as the buffers are filled in order. *)

From stdpp Require Import prelude list gmap strings.
From Stdlib Require Import ZArith Lia.
From S2P Require Import Prelude.

(** [read] is the list of slices handed to the closure. *)
Class ContiguousBuffer (B T : Type) : Type := {
  cb_capacity : B -> nat;
  cb_length : B -> nat;
  cb_clear : B -> B;
  cb_write : B -> list T -> outcome Empty_set B;
  cb_read : B -> list (list T);
}.

Definition cb_contents {B T} `{ContiguousBuffer B T} (b : B) : list T := concat (cb_read b).

Class ContiguousBufferLaws (B T : Type) `{ContiguousBuffer B T} (wf : B -> Prop) : Prop := {
  cb_length_le : forall b, wf b -> cb_length b <= cb_capacity b;
  cb_length_contents : forall b, wf b -> length (cb_contents b) = cb_length b;
  cb_read_nonempty : forall b, wf b -> Forall (fun s => s <> []) (cb_read b);
  cb_clear_spec : forall b, wf b ->
    wf (cb_clear b) /\ cb_contents (cb_clear b) = [] /\ cb_capacity (cb_clear b) = cb_capacity b;
  cb_write_fits : forall b data, wf b -> length data <= cb_capacity b - cb_length b ->
    exists b', cb_write b data = Ok b' /\ wf b' /\
      cb_contents b' = cb_contents b ++ data /\ cb_capacity b' = cb_capacity b;
  cb_write_overflow : forall b data, wf b -> cb_capacity b - cb_length b < length data ->
    cb_write b data = Panic;
}.

(** ** [Vec] *)

Record Vec (T : Type) : Type := mk_Vec { vec_data : list T; vec_capacity : nat }.
Arguments mk_Vec {T} vec_data vec_capacity.
Arguments vec_data {T} v.
Arguments vec_capacity {T} v.

Definition vec_wf {T} (v : Vec T) : Prop := length (vec_data v) <= vec_capacity v.

(** Subtraction of [usize]s, which panics on underflow. *)
Definition usize_sub (a b : nat) : outcome Empty_set nat :=
  if decide (b <= a) then Ok (a - b) else Panic.

Definition Vec_write {T} (self : Vec T) (data : list T) : outcome Empty_set (Vec T) :=
  available_space ← usize_sub (vec_capacity self) (length (vec_data self));
  if decide (available_space < length data) then Panic
  else Ok (mk_Vec (vec_data self ++ data) (vec_capacity self)).

Definition Vec_read {T} (self : Vec T) : list (list T) :=
  if decide (0 < length (vec_data self)) then [vec_data self] else [].

#[export] Instance Vec_contiguous T : ContiguousBuffer (Vec T) T := {
  cb_capacity := vec_capacity;
  cb_length v := length (vec_data v);
  cb_clear v := mk_Vec (take 0 (vec_data v)) (vec_capacity v);
  cb_write := Vec_write;
  cb_read := Vec_read;
}.

(** ** [ContiguousBuffers] *)

Section buffers.
Context {B T : Type} `{ContiguousBuffer B T}.

Record ContiguousBuffers : Type := mk_ContiguousBuffers { buffers : list B }.

Definition ContiguousBuffers_new : ContiguousBuffers := mk_ContiguousBuffers [].
Definition with_buffer (buffer : B) : ContiguousBuffers := mk_ContiguousBuffers [buffer].

Definition pack (self buffer : ContiguousBuffers) : ContiguousBuffers :=
  mk_ContiguousBuffers (buffers self ++ buffers buffer).

(** The values handed to the closure of [unpack], in order. *)
Definition unpack (self : ContiguousBuffers) : list ContiguousBuffers :=
  with_buffer <$> buffers self.

(** The loop over the buffers: the buffers left behind and the count written. *)
Fixpoint write_loop (bufs : list B) (data : list T) (bytes_written : nat) :
    outcome Empty_set (list B * nat) :=
  match bufs with
  | [] => Ok ([], bytes_written)
  | buffer :: rest =>
      if decide (bytes_written = length data) then Ok (buffer :: rest, bytes_written)
      else
        available_capacity ← usize_sub (cb_capacity buffer) (cb_length buffer);
        left ← usize_sub (length data) bytes_written;
        let amount_to_write := Nat.min available_capacity left in
        let start := bytes_written in
        let end_ := bytes_written + amount_to_write in
        chunk ← slice_checked data start end_;
        buffer ← cb_write buffer chunk;
        '(rest, bytes_written) ← write_loop rest data (bytes_written + amount_to_write);
        Ok (buffer :: rest, bytes_written)
  end.

Definition buffers_write (self : ContiguousBuffers) (data : list T) :
    outcome Empty_set ContiguousBuffers :=
  '(bufs, bytes_written) ← write_loop (buffers self) data 0;
  if decide (bytes_written <> length data) then Panic
  else Ok (mk_ContiguousBuffers bufs).

#[export] Instance ContiguousBuffers_contiguous : ContiguousBuffer ContiguousBuffers T := {
  cb_capacity self := sum_list (cb_capacity <$> buffers self);
  cb_length self := sum_list (cb_length <$> buffers self);
  cb_clear self := mk_ContiguousBuffers (cb_clear <$> buffers self);
  cb_write := buffers_write;
  cb_read self := concat (cb_read <$> buffers self);
}.

(** Buffers filled in order: full ones, then one partly filled, then empty ones. *)
Fixpoint filled_in_order (bufs : list B) : Prop :=
  match bufs with
  | [] => True
  | b :: rest =>
      (cb_length b = cb_capacity b /\ filled_in_order rest) \/
      Forall (fun b => cb_length b = 0) rest
  end.

Definition buffers_wf (wf : B -> Prop) (self : ContiguousBuffers) : Prop :=
  Forall wf (buffers self) /\ filled_in_order (buffers self).
End buffers.
Arguments ContiguousBuffers B : clear implicits.

(** ** [Vec] satisfies the laws *)

Lemma Vec_contents {T} (v : Vec T) : cb_contents v = vec_data v.
Proof.
  unfold cb_contents; simpl. unfold Vec_read. case_decide as Hl; simpl; [apply app_nil_r|].
  destruct (vec_data v); simpl in *; [done|lia].
Qed.

#[export] Instance Vec_laws T : ContiguousBufferLaws (Vec T) T vec_wf.
Proof.
  split; unfold vec_wf.
  - done.
  - intros b _. by rewrite Vec_contents.
  - intros b _. simpl. unfold Vec_read. case_decide as Hl; [|done].
    constructor; [|done]. intros He. rewrite He in Hl. simpl in Hl. lia.
  - intros b _. rewrite Vec_contents. simpl. split_and!; [lia|done|done].
  - intros b data Hb Hd. simpl in *. unfold Vec_write, usize_sub.
    rewrite decide_True by done. simpl. rewrite decide_False by lia.
    eexists. split; [done|]. rewrite !Vec_contents. simpl. rewrite length_app. split_and!; done || lia.
  - intros b data Hb Hd. simpl in *. unfold Vec_write, usize_sub.
    rewrite decide_True by done. simpl. by rewrite decide_True by lia.
Qed.

(** ** [ContiguousBuffers] satisfies them again *)

Section buffers_laws.
Context {B T : Type} `{!ContiguousBuffer B T} (wf : B -> Prop) `{!ContiguousBufferLaws B T wf}.

Definition all_contents (bufs : list B) : list T := concat (cb_contents <$> bufs).
Definition free (bufs : list B) : nat := sum_list ((fun b => cb_capacity b - cb_length b) <$> bufs).

Lemma buffers_contents (self : ContiguousBuffers B) :
  cb_contents self = all_contents (buffers self).
Proof.
  unfold cb_contents, all_contents; simpl. induction (buffers self) as [|b l IH]; csimpl; [done|].
  rewrite concat_app, IH. done.
Qed.

Lemma length_all_contents bufs :
  Forall wf bufs -> length (all_contents bufs) = sum_list (cb_length <$> bufs).
Proof.
  unfold all_contents. induction 1 as [|b l Hb Hl IH]; csimpl; [done|].
  rewrite length_app, IH, (cb_length_contents b Hb). done.
Qed.

Lemma free_capacity bufs :
  Forall wf bufs -> free bufs = sum_list (cb_capacity <$> bufs) - sum_list (cb_length <$> bufs) /\
                    sum_list (cb_length <$> bufs) <= sum_list (cb_capacity <$> bufs).
Proof.
  unfold free. induction 1 as [|b l Hb Hl IH]; csimpl; [lia|].
  pose proof (cb_length_le b Hb). lia.
Qed.

Lemma contents_empty bufs :
  Forall wf bufs -> Forall (fun b => cb_length b = 0) bufs <-> all_contents bufs = [].
Proof.
  intros Hwf. rewrite <- length_zero_iff_nil, length_all_contents by done.
  induction Hwf as [|b l Hb Hl IH]; csimpl; [split; auto|]. rewrite Forall_cons, IH. lia.
Qed.

Lemma empty_in_order bufs : Forall (fun b => cb_length b = 0) bufs -> filled_in_order bufs.
Proof. destruct 1; simpl; [done|]. by right. Qed.

Lemma slice_nil {A} (l : list A) i : slice l i i = [].
Proof. unfold slice. by rewrite Nat.sub_diag. Qed.

Lemma write_loop_spec bufs data w :
  Forall wf bufs -> filled_in_order bufs -> w <= length data ->
  exists bufs', let n := Nat.min (free bufs) (length data - w) in
    write_loop bufs data w = Ok (bufs', w + n) /\
    Forall wf bufs' /\ filled_in_order bufs' /\
    all_contents bufs' = all_contents bufs ++ slice data w (w + n) /\
    cb_capacity <$> bufs' = cb_capacity <$> bufs.
Proof.
  intros Hwf; revert w. induction Hwf as [|b rest Hb Hrest IH]; intros w Hord Hw.
  { exists []. simpl. rewrite Nat.add_0_r, slice_nil. done. }
  cbn [write_loop]. case_decide as Hdone.
  { exists (b :: rest). subst w. rewrite Nat.sub_diag, Nat.min_0_r, Nat.add_0_r, slice_nil, app_nil_r.
    split_and!; [done|by constructor|done|done|done]. }
  pose proof (cb_length_le b Hb) as Hle. unfold usize_sub. rewrite !decide_True by lia.
  cbn [mbind outcome_bind]. set (amt := Nat.min (cb_capacity b - cb_length b) (length data - w)).
  rewrite slice_checked_eq by lia. cbn [mbind outcome_bind].
  assert (length (slice data w (w + amt)) = amt) as Hsl by (rewrite length_slice; lia).
  destruct (cb_write_fits b (slice data w (w + amt)) Hb) as (b' & -> & Hb' & Hc' & Hcap'); [lia|].
  cbn [mbind outcome_bind].
  assert (filled_in_order rest) as Hro
    by (destruct Hord as [[_ ?]|?]; [done|by apply empty_in_order]).
  destruct (IH (w + amt) Hro ltac:(lia)) as (rest' & He & Hwf' & Hord' & Hcont & Hcaps).
  set (n := Nat.min (free rest) (length data - (w + amt))) in *.
  assert (free (b :: rest) = cb_capacity b - cb_length b + free rest) as Hfree by done.
  assert (cb_length b' = cb_length b + amt) as Hlen'.
  { rewrite <- (cb_length_contents b' Hb'), Hc', length_app, Hsl, (cb_length_contents b Hb). done. }
  exists (b' :: rest'). cbn zeta. rewrite He. cbn [mbind outcome_bind].
  split_and!; [do 2 f_equal; lia|by constructor| | |by csimpl; rewrite Hcap', Hcaps].
  - simpl. destruct (decide (amt = cb_capacity b - cb_length b)) as [Hfull|Hpart]; [left; auto with lia|].
    right. destruct Hord as [[Hf _]|Hemp]; [lia|].
    apply contents_empty in Hemp; [|done]. apply contents_empty; [done|].
    rewrite Hcont, Hemp. replace n with 0 by lia. by rewrite Nat.add_0_r, slice_nil.
  - unfold all_contents in *. csimpl. rewrite Hc', Hcont.
    replace (w + Nat.min (free (b :: rest)) (length data - w)) with (w + amt + n) by lia.
    rewrite <- (slice_slice_app data w (w + amt) (w + amt + n)) by lia.
    destruct Hord as [[Hf _]|Hemp].
    + replace amt with 0 by lia. rewrite Nat.add_0_r, slice_nil. by rewrite app_nil_r, app_assoc.
    + apply contents_empty in Hemp; [|done]. unfold all_contents in Hemp. rewrite Hemp.
      simpl. by rewrite app_nil_r, app_assoc.
Qed.

Lemma clear_all bufs :
  Forall wf bufs ->
  Forall wf (cb_clear <$> bufs) /\ all_contents (cb_clear <$> bufs) = [] /\
  cb_capacity <$> (cb_clear <$> bufs) = cb_capacity <$> bufs.
Proof.
  unfold all_contents. induction 1 as [|b l Hb Hl (IH1 & IH2 & IH3)]; csimpl; [done|].
  destruct (cb_clear_spec b Hb) as (H1 & H2 & H3). rewrite H2, IH2, H3, IH3. auto.
Qed.

#[export] Instance ContiguousBuffers_laws :
  ContiguousBufferLaws (ContiguousBuffers B) T (buffers_wf wf).
Proof.
  split.
  - intros b [Hwf _]. apply (free_capacity _ Hwf).
  - intros b [Hwf _]. rewrite buffers_contents. by apply length_all_contents.
  - intros b [Hwf _]. simpl. induction Hwf as [|x l Hx Hl IH]; csimpl; [done|].
    apply Forall_app; split; [by apply cb_read_nonempty|done].
  - intros b [Hwf _]. destruct (clear_all _ Hwf) as (H1 & H2 & H3).
    split_and!; [split; [done|apply empty_in_order; by apply contents_empty]
                |by rewrite buffers_contents|simpl; by rewrite H3].
  - intros b data [Hwf Hord] Hfit. destruct (free_capacity _ Hwf) as [Hfree _].
    destruct (write_loop_spec _ data 0 Hwf Hord ltac:(lia)) as (bufs' & He & Hwf' & Hord' & Hc & Hcaps).
    simpl in *. unfold buffers_write. rewrite He. simpl.
    rewrite decide_False by lia. eexists. split; [done|]. rewrite !buffers_contents. simpl.
    rewrite Hc, Hcaps. replace (Nat.min _ _) with (length data) by lia. by rewrite slice_all.
  - intros b data [Hwf Hord] Hover. destruct (free_capacity _ Hwf) as [Hfree _].
    destruct (write_loop_spec _ data 0 Hwf Hord ltac:(lia)) as (bufs' & He & _).
    simpl in *. unfold buffers_write. rewrite He. simpl. by rewrite decide_True by lia.
Qed.

Lemma filled_in_order_snoc bufs b :
  filled_in_order bufs -> cb_length b = 0 -> filled_in_order (bufs ++ [b]).
Proof.
  intros Hf Hb. induction bufs as [|x l IH]; simpl in *; [by right|].
  destruct Hf as [[? ?]|?]; [left; auto|]. right. apply Forall_app. auto.
Qed.
End buffers_laws.

(** ** A client: empty vectors packed together, written chunk by chunk *)

Section client.
Context {T : Type}.

Definition packed (caps : list nat) : ContiguousBuffers (Vec T) :=
  foldl (fun acc c => pack acc (with_buffer (mk_Vec [] c))) ContiguousBuffers_new caps.

Fixpoint write_all {B} `{ContiguousBuffer B T} (b : B) (chunks : list (list T)) :
    outcome Empty_set B :=
  match chunks with
  | [] => Ok b
  | c :: chunks => b ← cb_write b c; write_all b chunks
  end.

Lemma packed_buffers caps : buffers (packed caps) = mk_Vec [] <$> caps.
Proof.
  unfold packed. rewrite <- (app_nil_l (mk_Vec [] <$> caps)).
  change (@nil (Vec T)) with (buffers (@ContiguousBuffers_new (Vec T))) at 1.
  generalize (@ContiguousBuffers_new (Vec T)).
  induction caps as [|c caps IH]; intros acc; simpl; [by rewrite app_nil_r|].
  rewrite IH. simpl. by rewrite <- app_assoc.
Qed.

Lemma packed_wf caps : buffers_wf vec_wf (packed caps).
Proof.
  unfold buffers_wf. rewrite packed_buffers. split.
  - apply Forall_fmap, Forall_forall. intros c _. unfold vec_wf. simpl. lia.
  - apply (empty_in_order (T := T)), Forall_fmap, Forall_forall. done.
Qed.

Lemma write_all_spec {B} `{!ContiguousBuffer B T} wf `{!ContiguousBufferLaws B T wf} b chunks :
  wf b ->
  if decide (length (concat chunks) <= cb_capacity b - cb_length b) then
    exists b', write_all b chunks = Ok b' /\ wf b' /\ cb_contents b' = cb_contents b ++ concat chunks
  else write_all b chunks = Panic.
Proof.
  revert b; induction chunks as [|c chunks IH]; intros b Hb; cbn [concat write_all].
  { rewrite app_nil_r. case_decide as Hd; [eauto|]. exfalso. apply Hd. simpl. lia. }
  rewrite length_app. pose proof (cb_length_le b Hb) as Hle.
  destruct (decide (length c <= cb_capacity b - cb_length b)) as [Hfit|Hover].
  - destruct (cb_write_fits b c Hb Hfit) as (b1 & -> & Hb1 & Hc1 & Hcap1). simpl.
    assert (cb_length b1 = cb_length b + length c) as Hl.
    { rewrite <- (cb_length_contents b1 Hb1), Hc1, length_app, (cb_length_contents b Hb). done. }
    specialize (IH b1 Hb1). case_decide; case_decide; try lia; [|done].
    destruct IH as (b' & ? & ? & Hc). exists b'. rewrite Hc, Hc1, <- app_assoc. done.
  - rewrite cb_write_overflow by (done || lia). rewrite decide_False by lia. done.
Qed.
End client.

(** ** Properties *)

(** Packed buffers behave as one buffer of their total capacity: chunks
    written one after the other are read back as their concatenation, without
    empty slices, when they fit in the sum of the capacities, and the write
    panics exactly when they do not, however the chunks and buffers line up. *)
Theorem packed_buffers_write_read {T} (caps : list nat) (chunks : list (list T)) :
  if decide (length (concat chunks) <= sum_list caps) then
    exists b, write_all (packed caps) chunks = Ok b /\ cb_contents b = concat chunks /\
      Forall (fun s => s <> []) (cb_read b)
  else write_all (packed caps) chunks = Panic.
Proof.
  pose proof (write_all_spec (buffers_wf vec_wf) (packed caps) chunks (packed_wf caps)) as H.
  assert (cb_capacity (@packed T caps) = sum_list caps /\ cb_length (@packed T caps) = 0 /\
          cb_contents (@packed T caps) = []) as (Hcap & Hlen & Hcont).
  { rewrite buffers_contents. simpl. rewrite packed_buffers. clear.
    unfold all_contents. induction caps as [|c l (IH1 & IH2 & IH3)]; csimpl in *; [done|].
    rewrite IH1, IH3. done. }
  rewrite Hcap, Hlen, Nat.sub_0_r, Hcont in H. case_decide; [|done].
  destruct H as (b & He & Hb & Hc). exists b. split_and!; [done|done|].
  by apply (cb_read_nonempty (wf := buffers_wf vec_wf)).
Qed.
