(* ===== verification/Node.v ===== *)
(** * [bip_dht::routing::node]: nodes and their status

    Time comes from the external [chrono] crate and is a class with its
    documented arithmetic; an operation that reads the clock receives the time it
    reads.  The [Cell] fields a shared node is updated through are fields of the
    record, and the updating methods return the node left behind. *)

From stdpp Require Import prelude list gmap strings.
From Stdlib Require Import ZArith Lia Strings.Byte.
From S2P Require Import Prelude Bytes Convert Sha.

(** ** Time *)

(** [dt_sub a b] is the duration [a - b] in milliseconds. *)
Class Chrono : Type := {
  DateTime : Type;
  dt_sub : DateTime -> DateTime -> Z;
  dt_checked_sub : DateTime -> Z -> option DateTime;
}.

Class ChronoLaws `{Chrono} : Prop := {
  dt_sub_trans : forall a b c, dt_sub a c = (dt_sub a b + dt_sub b c)%Z;
  dt_checked_sub_spec : forall t d t', dt_checked_sub t d = Some t' -> dt_sub t t' = d;
}.

Lemma dt_sub_refl `{ChronoLaws} a : dt_sub a a = 0%Z.
Proof. pose proof (dt_sub_trans a a a). lia. Qed.

Lemma dt_sub_opp `{ChronoLaws} a b : dt_sub a b = (- dt_sub b a)%Z.
Proof. pose proof (dt_sub_trans a b a). rewrite dt_sub_refl in *. lia. Qed.

(** Milliseconds on the integers. *)
#[export] Instance Chrono_Z : Chrono := {
  DateTime := Z;
  dt_sub a b := (a - b)%Z;
  dt_checked_sub t d := Some (t - d)%Z;
}.

#[export] Instance Chrono_Z_laws : ChronoLaws.
Proof. split; simpl; [lia|]. intros t d t' [= <-]. lia. Qed.

Definition minutes (m : Z) : Z := (m * 60 * 1000)%Z.

(** ** Nodes *)

Definition MAX_LAST_SEEN_MINS : Z := 15.
Definition MAX_REFRESH_REQUESTS : nat := 2.

Inductive NodeStatus : Type := Bad | Questionable | Good.

#[export] Instance NodeStatus_eq_dec : EqDecision NodeStatus.
Proof. solve_decision. Defined.

(** The derived order: variants higher up are less. *)
Definition status_rank (s : NodeStatus) : nat :=
  match s with Bad => 0 | Questionable => 1 | Good => 2 end.

Section node.
Context `{Chrono}.

Record Node : Type := mk_Node {
  node_id : ShaHash;
  node_addr : SocketAddr;
  last_request : option DateTime;
  last_response : option DateTime;
  refresh_requests : nat;
}.

Definition as_good (now : DateTime) (id : ShaHash) (addr : SocketAddr) : Node :=
  mk_Node id addr None (Some now) 0.

Definition as_questionable (now : DateTime) (id : ShaHash) (addr : SocketAddr) :
    outcome Empty_set Node :=
  let last_response_offset := minutes MAX_LAST_SEEN_MINS in
  last_response ← unwrap (dt_checked_sub now last_response_offset);
  Ok (mk_Node id addr None (Some last_response) 0).

Definition as_bad (id : ShaHash) (addr : SocketAddr) : Node := mk_Node id addr None None 0.

Definition recently_responded (node : Node) (curr_time : DateTime) : NodeStatus :=
  match last_response node with
  | Some response_time =>
      let since_response := dt_sub curr_time response_time in
      if (since_response <? minutes MAX_LAST_SEEN_MINS)%Z then Good else Questionable
  | None => Bad
  end.

Definition recently_requested (node : Node) (curr_time : DateTime) : NodeStatus :=
  let max_last_request := minutes MAX_LAST_SEEN_MINS in
  let not_requested :=
    if decide (refresh_requests node < MAX_REFRESH_REQUESTS) then Questionable else Bad in
  match last_request node with
  | Some request_time =>
      let since_request := dt_sub curr_time request_time in
      if (since_request <? max_last_request)%Z then Good else not_requested
  | None => not_requested
  end.

Definition status (now : DateTime) (self : Node) : NodeStatus :=
  match recently_responded self now with
  | Good => Good
  | Bad => Bad
  | Questionable => recently_requested self now
  end.

Definition local_request (now : DateTime) (self : Node) : Node :=
  if decide (status now self <> Good) then
    mk_Node (node_id self) (node_addr self) (last_request self) (last_response self)
      (refresh_requests self + 1)
  else self.

Definition remote_request (now : DateTime) (self : Node) : Node :=
  mk_Node (node_id self) (node_addr self) (Some now) (last_response self) (refresh_requests self).

Definition remote_response (now : DateTime) (self : Node) : Node :=
  mk_Node (node_id self) (node_addr self) (last_request self) (Some now) 0.

(** [PartialEq for Node]: identity and address. *)
Definition node_eqb (a b : Node) : bool :=
  bool_decide (node_id a = node_id b) && bool_decide (node_addr a = node_addr b).

(** [Node::encode]: the 26-byte compact form; v6 addresses panic. *)
Definition Node_encode (self : Node) : outcome Empty_set bytes :=
  let encoded := replicate 26 x00 in
  let encoded := copy_over (sha_hash (node_id self)) encoded in
  match node_addr self with
  | SockV4 v4 =>
      let after_id := length (sha_hash (node_id self)) in
      let encoded :=
        take after_id encoded ++ copy_over (octets (v4_ip v4)) (drop after_id encoded) in
      let port := v4_port v4 in
      let encoded := <[24 := as_u8 (Z.shiftr port 8)]> encoded in
      Ok (<[25 := as_u8 port]> encoded)
  | SockV6 _ => Panic
  end.

(** ** Lemmas *)

Lemma node_eqb_spec a b :
  node_eqb a b = true <-> node_id a = node_id b /\ node_addr a = node_addr b.
Proof. unfold node_eqb. rewrite andb_true_iff, !bool_decide_eq_true. done. Qed.

Lemma node_eqb_refl a : node_eqb a a = true.
Proof. by apply node_eqb_spec. Qed.

Lemma node_eqb_sym a b : node_eqb a b = node_eqb b a.
Proof. apply eq_true_iff_eq. rewrite !node_eqb_spec. naive_solver. Qed.

Lemma node_eqb_trans a b c : node_eqb a b = true -> node_eqb b c = true -> node_eqb a c = true.
Proof. rewrite !node_eqb_spec. intros [] []; split; congruence. Qed.

(** A node that never responded is bad at all times. *)
Lemma status_no_response now n : last_response n = None -> status now n = Bad.
Proof. intros Hn. unfold status, recently_responded. by rewrite Hn. Qed.

Lemma status_responded now n : status now n <> Bad -> last_response n <> None.
Proof. intros Hs Hn. apply Hs. by apply status_no_response. Qed.

Lemma Node_encode_v4 n v4 :
  sha_wf (node_id n) -> node_addr n = SockV4 v4 ->
  Node_encode n = Ok (sha_hash (node_id n) ++ sock_v4_to_bytes_be v4).
Proof.
  unfold sha_wf. intros Hl Ha. unfold Node_encode. rewrite Ha.
  destruct n as [[h] a lq lr rr]; simpl in *. rewrite Hl. explode Hl.
  by destruct v4 as [[o0 o1 o2 o3] p].
Qed.
End node.

Section lifecycle.
Context `{ChronoLaws}.

(** Time only takes status away. *)
Lemma status_ages t1 t2 n :
  (0 <= dt_sub t2 t1)%Z -> status_rank (status t2 n) <= status_rank (status t1 n).
Proof.
  intros Ht. unfold status, recently_responded, recently_requested.
  destruct (last_response n) as [r|]; [|done].
  pose proof (dt_sub_trans t2 t1 r) as Hr.
  destruct (Z.ltb_spec (dt_sub t1 r) (minutes MAX_LAST_SEEN_MINS)) as [H1|H1];
    destruct (Z.ltb_spec (dt_sub t2 r) (minutes MAX_LAST_SEEN_MINS)) as [H2|H2]; simpl; try lia.
  - destruct (last_request n) as [q|]; [destruct (_ <? _)%Z|]; repeat case_decide; simpl; lia.
  - destruct (last_request n) as [q|]; [|done]. pose proof (dt_sub_trans t2 t1 q) as Hq.
    destruct (Z.ltb_spec (dt_sub t1 q) (minutes MAX_LAST_SEEN_MINS)) as [H3|H3];
      destruct (Z.ltb_spec (dt_sub t2 q) (minutes MAX_LAST_SEEN_MINS)) as [H4|H4];
      repeat case_decide; simpl; lia.
Qed.

Lemma status_Questionable t n :
  status t n = Questionable ->
  refresh_requests n < MAX_REFRESH_REQUESTS /\
  forall k, status t (mk_Node (node_id n) (node_addr n) (last_request n) (last_response n) k) =
    if decide (k < MAX_REFRESH_REQUESTS) then Questionable else Bad.
Proof.
  unfold status, recently_responded, recently_requested; simpl.
  destruct (last_response n) as [r|]; [|done].
  destruct (dt_sub t r <? minutes MAX_LAST_SEEN_MINS)%Z; [done|].
  destruct (last_request n) as [q|]; [destruct (_ <? _)%Z; [done|]|]; case_decide; done.
Qed.

Lemma local_request_fields t n :
  node_id (local_request t n) = node_id n /\ node_addr (local_request t n) = node_addr n /\
  last_request (local_request t n) = last_request n /\
  last_response (local_request t n) = last_response n.
Proof. unfold local_request. by case_decide. Qed.

Lemma local_request_count t n :
  status t n <> Good -> refresh_requests (local_request t n) = refresh_requests n + 1.
Proof. intros Hs. unfold local_request. by rewrite decide_True. Qed.

Lemma status_not_good_later t1 t2 n :
  (0 <= dt_sub t2 t1)%Z -> status t1 n <> Good -> status t2 n <> Good.
Proof.
  intros Ht Hs Hg. pose proof (status_ages t1 t2 n Ht) as Ha. rewrite Hg in Ha.
  destruct (status t1 n); simpl in *; done || lia.
Qed.

(** Two requests without an answer. *)
Lemma two_requests_bad t1 t2 t3 n :
  (0 <= dt_sub t2 t1)%Z -> (0 <= dt_sub t3 t2)%Z -> status t1 n = Questionable ->
  status t3 (local_request t2 (local_request t1 n)) = Bad.
Proof.
  intros H12 H23 Hq. destruct (status_Questionable t1 n Hq) as [_ Hk].
  set (n1 := local_request t1 n).
  assert (status t1 n1 <> Good) as Hn1.
  { unfold n1, local_request. rewrite Hq. rewrite decide_True by done.
    rewrite Hk. by case_decide. }
  set (n2 := local_request t2 n1).
  assert (2 <= refresh_requests n2) as Hr.
  { unfold n2. rewrite local_request_count by (by eapply status_not_good_later).
    unfold n1. rewrite local_request_count by (by rewrite Hq). lia. }
  assert (status t1 n2 = Bad) as Hb.
  { destruct (local_request_fields t2 n1) as (E1 & E2 & E3 & E4).
    destruct (local_request_fields t1 n) as (F1 & F2 & F3 & F4).
    specialize (Hk (refresh_requests n2)). rewrite <- F1, <- F2, <- F3, <- F4 in Hk. fold n1 in Hk.
    rewrite <- E1, <- E2, <- E3, <- E4 in Hk. fold n2 in Hk.
    rewrite decide_False in Hk by (unfold MAX_REFRESH_REQUESTS; lia). by destruct n2. }
  assert (0 <= dt_sub t3 t1)%Z as H13 by (pose proof (dt_sub_trans t3 t2 t1); lia).
  pose proof (status_ages t1 t3 n2 H13) as Ha. rewrite Hb in Ha.
  destruct (status t3 n2); simpl in *; done || lia.
Qed.

Lemma response_good t t' n :
  (dt_sub t' t < minutes MAX_LAST_SEEN_MINS)%Z -> status t' (remote_response t n) = Good.
Proof.
  intros Ht. unfold status, recently_responded; simpl.
  by destruct (Z.ltb_spec (dt_sub t' t) (minutes MAX_LAST_SEEN_MINS)); [|lia].
Qed.
End lifecycle.

(** ** Properties *)

(** The life of a node: without events its status never improves as time
    passes; a questionable node that leaves two of our requests unanswered is
    bad from then on; and a response makes any node good for the fifteen minutes
    that follow. *)
Theorem node_status_lifecycle `{ChronoLaws} (n : Node) (t1 t2 t3 : DateTime) :
  (0 <= dt_sub t2 t1)%Z -> (0 <= dt_sub t3 t2)%Z ->
  status_rank (status t2 n) <= status_rank (status t1 n) /\
  (status t1 n = Questionable -> status t3 (local_request t2 (local_request t1 n)) = Bad) /\
  ((dt_sub t3 t2 < minutes MAX_LAST_SEEN_MINS)%Z -> status t3 (remote_response t2 n) = Good).
Proof.
  intros H12 H23. split_and!; auto using status_ages, response_good.
  intros Hq. by eapply two_requests_bad.
Qed.

Lemma node_status_lifecycle_witness :
  status (H := Chrono_Z) 3%Z
    (local_request (H := Chrono_Z) 2%Z (local_request (H := Chrono_Z) 1%Z
       (mk_Node (H := Chrono_Z) (mk_ShaHash (replicate 20 x01))
          (SockV4 (mk_SocketAddrV4 (mk_Ipv4Addr x7f x00 x00 x01) 80)) None
          (Some (-1000000)%Z) 0))) = Bad.
Proof.
  apply (node_status_lifecycle (H := Chrono_Z) (H0 := Chrono_Z_laws) _ 1%Z 2%Z 3%Z).
  - vm_compute. discriminate.
  - vm_compute. discriminate.
  - vm_compute. reflexivity.
Defined.
