(* ===== verification/Bucket.v ===== *)
(** * [bip_dht::routing::bucket]: buckets of eight nodes

    A bucket is an array of eight nodes, initially placeholders that never
    responded.  All status checks of one operation are made at the same time. *)

From stdpp Require Import prelude list gmap strings.
From Stdlib Require Import ZArith Lia Strings.Byte.
From S2P Require Import Prelude Bytes Convert Sha Node.

Definition MAX_BUCKET_SIZE : nat := 8.

Section bucket.
Context `{Chrono}.

Record Bucket : Type := mk_Bucket { nodes : list Node }.

(** The placeholder every slot starts with. *)
Definition default_node : Node :=
  let id := mk_ShaHash (replicate SHA_HASH_LEN x00) in
  let ip := mk_Ipv4Addr x7f x00 x00 x01 in
  let addr := SockV4 (mk_SocketAddrV4 ip 0) in
  as_bad id addr.

Definition Bucket_new : Bucket :=
  mk_Bucket [default_node; default_node; default_node; default_node;
             default_node; default_node; default_node; default_node].

Definition good_nodes_filter (now : DateTime) (node : Node) : bool :=
  bool_decide (status now node = Good).

Definition pingable_nodes_filter (now : DateTime) (node : Node) : bool :=
  let status := status now node in
  bool_decide (status = Good) || bool_decide (status = Questionable).

(** The nodes the [GoodNodes] and [PingableNodes] iterators yield. *)
Definition good_nodes (now : DateTime) (self : Bucket) : list Node :=
  List.filter (good_nodes_filter now) (nodes self).

Definition pingable_nodes (now : DateTime) (self : Bucket) : list Node :=
  List.filter (pingable_nodes_filter now) (nodes self).

Definition needs_refresh (now : DateTime) (self : Bucket) : bool :=
  foldl (fun prev node => prev && bool_decide (status now node <> Good)) true (nodes self).

Definition status_leb (a b : NodeStatus) : bool := status_rank a <=? status_rank b.
Definition status_ltb (a b : NodeStatus) : bool := status_rank a <? status_rank b.

(** The bucket left behind and whether the node was dealt with. *)
Definition Bucket_add_node (now : DateTime) (self : Bucket) (new_node : Node) : bool * Bucket :=
  let new_node_status := status now new_node in
  if decide (new_node_status = Bad) then (true, self)
  else
    match position (fun node => node_eqb node new_node) (nodes self) with
    | Some index =>
        match nodes self !! index with
        | Some other =>
            let other_node_status := status now other in
            if status_leb other_node_status new_node_status
            then (true, mk_Bucket (<[index := new_node]> (nodes self)))
            else (true, self)
        | None => (true, self)
        end
    | None =>
        let replace_index :=
          position (fun node => status_ltb (status now node) new_node_status) (nodes self) in
        match replace_index with
        | Some index => (true, mk_Bucket (<[index := new_node]> (nodes self)))
        | None => (false, self)
        end
    end.

(** ** Invariant

    Eight slots, and of two equal entries the later one is a placeholder that
    never responded. *)
Record bucket_inv (b : Bucket) : Prop := {
  bucket_len : length (nodes b) = MAX_BUCKET_SIZE;
  bucket_distinct : forall i j x y, i < j -> nodes b !! i = Some x -> nodes b !! j = Some y ->
    node_eqb x y = true -> last_response y = None;
}.

Lemma Bucket_new_inv : bucket_inv Bucket_new.
Proof.
  split; [done|]. intros i j x y _ _ Hy _. apply list_elem_of_lookup_2 in Hy.
  simpl in Hy. by repeat (apply elem_of_cons in Hy as [->|Hy]; [done|]); apply elem_of_nil in Hy.
Qed.

(** Every slot of a fresh bucket is a placeholder. *)
Lemma Bucket_new_default n : n ∈ nodes Bucket_new -> n = default_node.
Proof.
  simpl. intros Hn. by repeat (apply elem_of_cons in Hn as [->|Hn]; [done|]); apply elem_of_nil in Hn.
Qed.

Lemma default_node_bad now : status now default_node = Bad.
Proof. done. Qed.

(** The cases of an addition. *)
Inductive add_case (now : DateTime) (b : Bucket) (n : Node) : bool * Bucket -> Prop :=
| add_bad : status now n = Bad -> add_case now b n (true, b)
| add_update i o :
    status now n <> Bad -> nodes b !! i = Some o -> node_eqb o n = true ->
    (forall j x, j < i -> nodes b !! j = Some x -> node_eqb x n = false) ->
    status_rank (status now o) <= status_rank (status now n) ->
    add_case now b n (true, mk_Bucket (<[i := n]> (nodes b)))
| add_keep i o :
    status now n <> Bad -> nodes b !! i = Some o -> node_eqb o n = true ->
    status_rank (status now n) < status_rank (status now o) ->
    add_case now b n (true, b)
| add_replace i o :
    status now n <> Bad -> (forall x, x ∈ nodes b -> node_eqb x n = false) ->
    nodes b !! i = Some o -> status_rank (status now o) < status_rank (status now n) ->
    (forall j x, j < i -> nodes b !! j = Some x ->
       status_rank (status now n) <= status_rank (status now x)) ->
    add_case now b n (true, mk_Bucket (<[i := n]> (nodes b)))
| add_full :
    status now n <> Bad -> (forall x, x ∈ nodes b -> node_eqb x n = false) ->
    (forall x, x ∈ nodes b -> status_rank (status now n) <= status_rank (status now x)) ->
    add_case now b n (false, b).

Lemma Bucket_add_cases now b n : add_case now b n (Bucket_add_node now b n).
Proof.
  unfold Bucket_add_node. case_decide as Hb; [by apply add_bad|].
  destruct (position (fun node => node_eqb node n) (nodes b)) as [i|] eqn:Hp.
  - apply position_Some in Hp as [(o & Ho & Heq) Hbefore]. rewrite Ho.
    unfold status_leb. destruct (Nat.leb_spec (status_rank (status now o)) (status_rank (status now n))).
    + eapply add_update; eauto.
    + eapply add_keep; eauto.
  - rewrite position_None in Hp.
    destruct (position _ (nodes b)) as [i|] eqn:Hr.
    + apply position_Some in Hr as [(o & Ho & Hlt) Hbefore]. unfold status_ltb in *.
      apply Nat.ltb_lt in Hlt. eapply add_replace; eauto.
      intros j x Hj Hx. specialize (Hbefore j x Hj Hx). by apply Nat.ltb_ge in Hbefore.
    + rewrite position_None in Hr. apply add_full; [done|done|].
      intros x Hx. specialize (Hr x Hx). by apply Nat.ltb_ge in Hr.
Qed.

Lemma bucket_insert_inv b i n :
  bucket_inv b ->
  (forall j x, j < i -> nodes b !! j = Some x -> node_eqb x n = false) ->
  (forall j y, i < j -> nodes b !! j = Some y -> node_eqb y n = true -> last_response y = None) ->
  bucket_inv (mk_Bucket (<[i := n]> (nodes b))).
Proof.
  intros [Hl Hd] Hbefore Hafter. split; simpl; [by rewrite length_insert|].
  intros j k x y Hjk Hx Hy Heq.
  apply list_lookup_insert_Some in Hx, Hy.
  destruct Hx as [(-> & <- & _)|[Hj Hx]]; destruct Hy as [(<- & <- & _)|[Hk Hy]]; [lia|..].
  - apply (Hafter k); [done|done|]. by rewrite node_eqb_sym.
  - rewrite (Hbefore j x) in Heq by done. done.
  - eapply Hd; eauto.
Qed.

Lemma Bucket_add_inv now b n :
  bucket_inv b -> bucket_inv (Bucket_add_node now b n).2.
Proof.
  intros Hinv. destruct (Bucket_add_cases now b n) as
    [|i o Hn Ho Heq Hbefore Hrank| |i o Hn Hnone Ho Hrank _|]; simpl; try done.
  - apply bucket_insert_inv; [done|done|]. intros j y Hj Hy Hyn.
    eapply (bucket_distinct _ Hinv i j o y); [done..|].
    eapply node_eqb_trans; [exact Heq|]. by rewrite node_eqb_sym.
  - apply bucket_insert_inv; [done|..].
    + intros j x _ Hx. by apply Hnone, list_elem_of_lookup_2 with j.
    + intros j y _ Hy Hyn. rewrite Hnone in Hyn; [done|]. by apply list_elem_of_lookup_2 with j.
Qed.

Lemma Bucket_add_elem now b n x :
  x ∈ nodes (Bucket_add_node now b n).2 -> x ∈ nodes b \/ (x = n /\ status now n <> Bad).
Proof.
  destruct (Bucket_add_cases now b n) as [|i o Hn Ho Heq _ _| |i o Hn _ Ho _ _|]; simpl; auto.
  - intros [->|Hx]%elem_of_insert_inv; auto.
  - intros [->|Hx]%elem_of_insert_inv; auto.
Qed.

Lemma insert_keeps {A} (l : list A) i o n x :
  l !! i = Some o -> x ∈ l -> x = o \/ x ∈ <[i := n]> l.
Proof.
  intros Ho (j & Hj)%list_elem_of_lookup. destruct (decide (i = j)) as [->|Hne].
  - left. congruence.
  - right. apply list_elem_of_lookup_2 with j. by rewrite list_lookup_insert_ne.
Qed.

(** An entry only leaves for a newer record of the same node that is no worse,
    or for a node of better status. *)
Lemma Bucket_add_keeps now b n x :
  x ∈ nodes b ->
  x ∈ nodes (Bucket_add_node now b n).2 \/
  (node_eqb x n = true /\ status_rank (status now x) <= status_rank (status now n)) \/
  status_rank (status now x) < status_rank (status now n).
Proof.
  intros Hx. destruct (Bucket_add_cases now b n) as [|i o Hn Ho Heq _ Hr| |i o Hn _ Ho Hr _|]; simpl; auto.
  - destruct (insert_keeps _ _ _ n x Ho Hx) as [->|]; auto.
  - destruct (insert_keeps _ _ _ n x Ho Hx) as [->|]; auto.
Qed.

Lemma Bucket_add_present now b n :
  (Bucket_add_node now b n).1 = true -> status now n <> Bad ->
  exists y, y ∈ nodes (Bucket_add_node now b n).2 /\ node_eqb y n = true /\
    status_rank (status now n) <= status_rank (status now y).
Proof.
  intros Hok Hbad. revert Hok.
  destruct (Bucket_add_cases now b n) as [|i o Hn Ho Heq _ Hr|i o Hn Ho Heq Hr|i o Hn _ Ho Hr _|];
    simpl; try done; intros _.
  - exists n. split_and!; [|apply node_eqb_refl|done].
    apply list_elem_of_insert. by apply lookup_lt_Some in Ho.
  - exists o. split_and!; [by apply list_elem_of_lookup_2 with i|done|lia].
  - exists n. split_and!; [|apply node_eqb_refl|done].
    apply list_elem_of_insert. by apply lookup_lt_Some in Ho.
Qed.

Lemma Bucket_add_full now b n :
  (Bucket_add_node now b n).1 = false ->
  (Bucket_add_node now b n).2 = b /\ status now n <> Bad /\
  (forall x, x ∈ nodes b -> node_eqb x n = false) /\
  (forall x, x ∈ nodes b -> status_rank (status now n) <= status_rank (status now x)).
Proof. destruct (Bucket_add_cases now b n); simpl; done. Qed.

(** Slots in use. *)
Definition pingable_count (now : DateTime) (b : Bucket) : nat :=
  length (List.filter (fun n => bool_decide (status now n <> Bad)) (nodes b)).

Lemma filter_insert_length {A} (f : A -> bool) (l : list A) i n :
  length (List.filter f (<[i := n]> l)) <= length (List.filter f l) + 1.
Proof.
  revert i; induction l as [|x l IH]; intros [|i]; simpl; [lia|lia|destruct (f n), (f x); simpl; lia|].
  specialize (IH i). destruct (f x); simpl; lia.
Qed.

Lemma Bucket_add_count now b n :
  pingable_count now (Bucket_add_node now b n).2 <= pingable_count now b + 1.
Proof.
  unfold pingable_count.
  destruct (Bucket_add_cases now b n); simpl; try lia; apply filter_insert_length.
Qed.

Lemma filter_length_lt {A} (f : A -> bool) (l : list A) :
  length (List.filter f l) < length l -> exists x, x ∈ l /\ f x = false.
Proof.
  induction l as [|y l IH]; simpl; [lia|]. destruct (f y) eqn:E; simpl.
  - intros Hl. destruct IH as (x & Hx & Hf); [lia|]. exists x. split; [by right|done].
  - intros _. exists y. split; [left|done].
Qed.

(** A bucket with an unused slot accepts every node. *)
Lemma Bucket_add_room now b n :
  pingable_count now b < length (nodes b) -> (Bucket_add_node now b n).1 = true.
Proof.
  intros (x & Hx & Hb)%filter_length_lt. destruct (Bucket_add_node now b n).1 eqn:E; [done|].
  apply Bucket_add_full in E as (_ & Hn & _ & Hall). specialize (Hall x Hx).
  apply bool_decide_eq_false in Hb. apply dec_stable in Hb. rewrite Hb in Hall. simpl in Hall.
  destruct (status now n); simpl in *; done || lia.
Qed.

Lemma Bucket_new_count now : pingable_count now Bucket_new = 0.
Proof. done. Qed.
End bucket.

(** ** Properties *)

(** Adding to a bucket keeps its invariant and never evicts a better
    node: an accepted pingable node is present afterwards at its status or
    better; an entry disappears only for a record of the same node that is no
    worse or for a node of strictly better status; and a refusal leaves the
    bucket as it was, with every slot taken by a node at least as good. *)
Theorem bucket_add_node_spec `{Chrono} (now : DateTime) (b : Bucket) (n : Node) :
  bucket_inv b ->
  let '(ok, b') := Bucket_add_node now b n in
  bucket_inv b' /\
  (forall x, x ∈ nodes b ->
     x ∈ nodes b' \/
     (node_eqb x n = true /\ status_rank (status now x) <= status_rank (status now n)) \/
     status_rank (status now x) < status_rank (status now n)) /\
  (if ok then
     status now n <> Bad ->
     exists y, y ∈ nodes b' /\ node_eqb y n = true /\
       status_rank (status now n) <= status_rank (status now y)
   else b' = b /\ forall x, x ∈ nodes b -> status_rank (status now n) <= status_rank (status now x)).
Proof.
  intros Hinv. pose proof (Bucket_add_inv now b n Hinv) as H1.
  pose proof (Bucket_add_keeps now b n) as H2. pose proof (Bucket_add_present now b n) as H3.
  pose proof (Bucket_add_full now b n) as H4.
  destruct (Bucket_add_node now b n) as [ok b']; simpl in *. split_and!; [done|done|].
  destruct ok; [auto|]. destruct (H4 eq_refl) as (? & _ & _ & ?). done.
Qed.

Lemma bucket_add_node_spec_witness :
  bucket_inv (H := Chrono_Z)
    (Bucket_add_node (H := Chrono_Z) 0%Z Bucket_new
       (as_good (H := Chrono_Z) 0%Z (mk_ShaHash (replicate 20 x01))
          (SockV4 (mk_SocketAddrV4 (mk_Ipv4Addr x0a x00 x00 x01) 80)))).2.
Proof.
  apply (bucket_add_node_spec (H := Chrono_Z) 0%Z Bucket_new
       (as_good (H := Chrono_Z) 0%Z (mk_ShaHash (replicate 20 x01))
          (SockV4 (mk_SocketAddrV4 (mk_Ipv4Addr x0a x00 x00 x01) 80)))).
  apply Bucket_new_inv.
Defined.

(** A good node takes the slot of the first questionable node even when
    unused slots remain: if the first entry that is not good is questionable,
    adding a new good node evicts it, whatever the rest of the bucket holds. *)
Theorem bucket_good_evicts_questionable `{Chrono} (now : DateTime) (b : Bucket) (n q : Node) (i : nat) :
  status now n = Good -> (forall x, x ∈ nodes b -> node_eqb x n = false) ->
  nodes b !! i = Some q -> status now q = Questionable ->
  (forall j x, j < i -> nodes b !! j = Some x -> status now x = Good) ->
  Bucket_add_node now b n = (true, mk_Bucket (<[i := n]> (nodes b))).
Proof.
  intros Hn Hnone Hq Hsq Hbefore. unfold Bucket_add_node. rewrite Hn, decide_False by done.
  rewrite (proj2 (position_None _ _)) by done.
  replace (position _ (nodes b)) with (Some i); [done|]. symmetry. apply position_Some. split.
  - exists q. unfold status_ltb. by rewrite Hsq.
  - intros j y Hj Hy. unfold status_ltb. by rewrite (Hbefore j y).
Qed.

Lemma bucket_good_evicts_questionable_witness :
  let id k := mk_ShaHash (replicate 20 k) in
  let addr := SockV4 (mk_SocketAddrV4 (mk_Ipv4Addr x0a x00 x00 x01) 80) in
  let q := mk_Node (H := Chrono_Z) (id x01) addr None (Some (-900000)%Z) 0 in
  let n := as_good (H := Chrono_Z) 0%Z (id x02) addr in
  let b := (Bucket_add_node (H := Chrono_Z) 0%Z Bucket_new q).2 in
  Bucket_add_node (H := Chrono_Z) 0%Z b n = (true, mk_Bucket (<[0 := n]> (nodes b))).
Proof.
  intros id addr q n b.
  apply (bucket_good_evicts_questionable (H := Chrono_Z) 0%Z b n q 0).
  - reflexivity.
  - intros x Hx. apply Bucket_add_elem in Hx as [->%Bucket_new_default|[-> _]]; reflexivity.
  - reflexivity.
  - reflexivity.
  - intros j x Hj. lia.
Defined.
