(* ===== verification/Table.v ===== *)
(** * [bip_dht::routing::table]: the Kademlia routing table

    The table is a list of buckets; bucket [i] holds nodes sharing exactly [i]
    leading bits with our id, and the last bucket everything closer.  Placement,
    splitting and the two iterators follow the source; one time is read per
    operation.  The recursion through [bucket_node], [split_bucket] and
    [add_node] takes fuel: every split adds a bucket and there are at most
    [MAX_BUCKETS], so [table_fuel] is enough (see [TableProofs]). *)

From stdpp Require Import prelude list gmap strings.
From Stdlib Require Import ZArith Lia Strings.Byte.
From S2P Require Import Prelude Bytes Convert Sha Node Bucket.

Definition MAX_BUCKETS : nat := SHA_HASH_LEN * 8.

(** Number of leading bits that are identical. *)
Definition leading_bit_count (local_node remote_node : ShaHash) : nat :=
  let diff_id := bitxor local_node remote_node in
  match count_same_bits diff_id with
  | Ok n => n
  | _ => 0
  end.

Definition bucket_placement (num_same_bits num_buckets : nat) : nat :=
  let ideal_index := num_same_bits in
  if decide (num_buckets <= ideal_index) then num_buckets - 1 else ideal_index.

Definition can_split_bucket (num_buckets bucket_index : nat) : bool :=
  bool_decide (bucket_index = num_buckets - 1) && bool_decide (bucket_index <> MAX_BUCKETS - 1).

(** [random_node_id] with the bytes drawn. *)
Definition random_node_id (rand : nat -> byte) : ShaHash :=
  mk_ShaHash (rand <$> seq 0 SHA_HASH_LEN).

Section table.
Context `{Chrono}.

Record RoutingTable : Type := mk_RoutingTable {
  buckets : list Bucket;
  rt_node_id : ShaHash;
}.

Definition RoutingTable_new (node_id : ShaHash) : RoutingTable :=
  mk_RoutingTable [Bucket_new] node_id.

Definition with_buckets (self : RoutingTable) (bs : list Bucket) : RoutingTable :=
  mk_RoutingTable bs (rt_node_id self).

(** *** Insertion *)

Fixpoint add_node (fuel : nat) (now : DateTime) (self : RoutingTable) (node : Node) {struct fuel} :
    outcome Empty_set RoutingTable :=
  match fuel with
  | O => NoFuel
  | S fuel =>
      if decide (status now node = Bad) then Ok self
      else
        let num_same_bits := leading_bit_count (rt_node_id self) (node_id node) in
        if decide (num_same_bits <> MAX_BUCKETS) then bucket_node fuel now self node num_same_bits
        else Ok self
  end
with bucket_node (fuel : nat) (now : DateTime) (self : RoutingTable) (node : Node)
    (num_same_bits : nat) {struct fuel} : outcome Empty_set RoutingTable :=
  match fuel with
  | O => NoFuel
  | S fuel =>
      let bucket_index := bucket_placement num_same_bits (length (buckets self)) in
      bucket ← unwrap (buckets self !! bucket_index);
      let '(placed, bucket) := Bucket_add_node now bucket node in
      let self := with_buckets self (<[bucket_index := bucket]> (buckets self)) in
      if placed then Ok self
      else
        '(split, self) ← split_bucket fuel now self bucket_index;
        if (split : bool) then bucket_node fuel now self node num_same_bits else Ok self
  end
with split_bucket (fuel : nat) (now : DateTime) (self : RoutingTable) (bucket_index : nat)
    {struct fuel} : outcome Empty_set (bool * RoutingTable) :=
  match fuel with
  | O => NoFuel
  | S fuel =>
      if negb (can_split_bucket (length (buckets self)) bucket_index) then Ok (false, self)
      else
        match last (buckets self) with
        | None => Panic
        | Some split_bucket =>
            let self := with_buckets self (take (length (buckets self) - 1) (buckets self)) in
            let self := with_buckets self (buckets self ++ [Bucket_new]) in
            let self := with_buckets self (buckets self ++ [Bucket_new]) in
            self ← foldl (fun acc node => self ← acc; add_node fuel now self node)
                     (Ok self) (nodes split_bucket);
            Ok (true, self)
        end
  end.

(** Three calls per split, at most [MAX_BUCKETS] buckets. *)
Definition table_fuel : nat := 3 * MAX_BUCKETS.

Definition RoutingTable_add_node (now : DateTime) (self : RoutingTable) (node : Node) :
    outcome Empty_set RoutingTable :=
  add_node table_fuel now self node.

(** *** The iterator over all buckets *)

Inductive BucketContents : Type :=
| BcEmpty
| BcSorted (b : Bucket)
| BcAssorted (b : Bucket).

Definition is_assorted (c : BucketContents) : bool :=
  match c with BcAssorted _ => true | _ => false end.

(** [Buckets::next]; the state is the index.  Indexing the slice panics out of range. *)
Definition Buckets_next (bs : list Bucket) (index : nat) :
    outcome Empty_set (option BucketContents * nat) :=
  if decide (MAX_BUCKETS < index) then Ok (None, index)
  else if decide (index = MAX_BUCKETS) then
    if decide (length bs = MAX_BUCKETS \/ bs = []) then Ok (None, index + 1)
    else b ← unwrap (bs !! (length bs - 1)); Ok (Some (BcAssorted b), index + 1)
  else if decide (index + 1 < length bs \/ length bs = MAX_BUCKETS) then
    b ← unwrap (bs !! index); Ok (Some (BcSorted b), index + 1)
  else Ok (Some BcEmpty, index + 1).

(** [skip(n).next()] *)
Fixpoint Buckets_nth (bs : list Bucket) (index n : nat) :
    outcome Empty_set (option BucketContents) :=
  match n with
  | O => '(c, _) ← Buckets_next bs index; Ok c
  | S n =>
      '(c, index) ← Buckets_next bs index;
      match c with
      | Some _ => Buckets_nth bs index n
      | None => Ok None
      end
  end.

(** [find(p)] *)
Fixpoint Buckets_find (fuel : nat) (bs : list Bucket) (index : nat) (p : BucketContents -> bool) :
    outcome Empty_set (option BucketContents) :=
  match fuel with
  | O => NoFuel
  | S fuel =>
      '(c, index) ← Buckets_next bs index;
      match c with
      | Some c => if p c then Ok (Some c) else Buckets_find fuel bs index p
      | None => Ok None
      end
  end.

Definition find_node (now : DateTime) (self : RoutingTable) (node : Node) :
    outcome Empty_set (option Node) :=
  let bucket_index := leading_bit_count (rt_node_id self) (node_id node) in
  sorted ← Buckets_nth (buckets self) 0 bucket_index;
  opt_bucket_contents ←
    match sorted with
    | Some c => Ok (Some c)
    | None => Buckets_find (MAX_BUCKETS + 2) (buckets self) 0 is_assorted
    end;
  match opt_bucket_contents with
  | Some (BcSorted b) | Some (BcAssorted b) =>
      Ok (List.find (fun n => node_eqb n node) (pingable_nodes now b))
  | _ => Ok None
  end.

(** *** The iterator over the closest nodes *)

Definition index_is_in_bounds (length : nat) (checked_index : option nat) : bool :=
  match checked_index with
  | Some index => index <? length
  | None => false
  end.

Definition checked_add (a b : nat) : option nat := Some (a + b).
Definition checked_sub (a b : nat) : option nat := if decide (b <= a) then Some (a - b) else None.

Definition next_bucket_index (num_buckets start_index curr_index : nat) : option nat :=
  if decide (curr_index = start_index) then
    let right_index := checked_add start_index 1 in
    let left_index := checked_sub start_index 1 in
    if index_is_in_bounds num_buckets right_index then right_index
    else if index_is_in_bounds num_buckets left_index then left_index
    else None
  else if decide (start_index < curr_index) then
    let offset := curr_index - start_index in
    let left_index := checked_sub start_index offset in
    let right_index := checked_add curr_index 1 in
    if index_is_in_bounds num_buckets left_index then left_index
    else if index_is_in_bounds num_buckets right_index then right_index
    else None
  else
    let offset := (start_index - curr_index) + 1 in
    let right_index := checked_add start_index offset in
    let left_index := checked_sub curr_index 1 in
    if index_is_in_bounds num_buckets right_index then right_index
    else if index_is_in_bounds num_buckets left_index then left_index
    else None.

Definition is_good_node (now : DateTime) (node : Node) : bool :=
  let status := status now node in
  bool_decide (status = Good) || bool_decide (status = Questionable).

(** The nodes left in the filter iterator of a bucket. *)
Definition good_node_filter (now : DateTime) (iter : list Node) : list Node :=
  List.filter (is_good_node now) iter.

Definition bucket_iterator (now : DateTime) (bs : list Bucket) (index : nat) : option (list Node) :=
  (fun bucket => good_node_filter now (nodes bucket)) <$>
  ((if decide (length bs = MAX_BUCKETS) then bs else take (length bs - 1) bs) !! index).

(** Bucket index, node, returned before. *)
Record AssortedNode : Type := mk_AssortedNode { an_index : nat; an_node : Node; an_returned : bool }.

Definition precompute_assorted_nodes (bs : list Bucket) (self_node_id : ShaHash) :
    outcome Empty_set (option (list AssortedNode)) :=
  if decide (length bs = MAX_BUCKETS) then Ok None
  else
    assorted_bucket ← unwrap (bs !! (length bs - 1));
    match nodes assorted_bucket with
    | [] => Ok None
    | init_reference :: _ =>
        let assorted_nodes := replicate MAX_BUCKET_SIZE (mk_AssortedNode 0 init_reference true) in
        Ok (Some (foldl (fun acc '(index, node) =>
                    let bucket_index := leading_bit_count self_node_id (node_id node) in
                    <[index := mk_AssortedNode bucket_index node false]> acc)
                  assorted_nodes
                  (zip (seq 0 (length (nodes assorted_bucket))) (nodes assorted_bucket))))
    end.

Record ClosestNodes : Type := mk_ClosestNodes {
  cn_buckets : list Bucket;
  current_iter : option (list Node);
  current_index : nat;
  start_index : nat;
  assorted_nodes : option (list AssortedNode);
}.

Definition ClosestNodes_new (now : DateTime) (bs : list Bucket) (self_node_id other_node_id : ShaHash) :
    outcome Empty_set ClosestNodes :=
  let start_index := leading_bit_count self_node_id other_node_id in
  let current_iter := bucket_iterator now bs start_index in
  assorted_nodes ← precompute_assorted_nodes bs self_node_id;
  Ok (mk_ClosestNodes bs current_iter start_index start_index assorted_nodes).

(** The first good assorted node of the current bucket not handed out before. *)
Definition assorted_match (now : DateTime) (current_index : nat) (tup : AssortedNode) : bool :=
  is_good_node now (an_node tup) &&
  (bool_decide (an_index tup = current_index) && negb (an_returned tup)).

Fixpoint ClosestNodes_next (fuel : nat) (now : DateTime) (self : ClosestNodes) {struct fuel} :
    outcome Empty_set (option Node * ClosestNodes) :=
  match fuel with
  | O => NoFuel
  | S fuel =>
      match current_iter self with
      | Some (node :: rest) =>
          Ok (Some node, mk_ClosestNodes (cn_buckets self) (Some rest) (current_index self)
                           (start_index self) (assorted_nodes self))
      | _ =>
          let found :=
            tups ← assorted_nodes self;
            i ← position (assorted_match now (current_index self)) tups;
            tup ← tups !! i;
            Some (tups, i, tup) in
          match found with
          | Some (tups, i, tup) =>
              let tup' := mk_AssortedNode (an_index tup) (an_node tup) true in
              Ok (Some (an_node tup),
                  mk_ClosestNodes (cn_buckets self) (current_iter self) (current_index self)
                    (start_index self) (Some (<[i := tup']> tups)))
          | None =>
              match next_bucket_index MAX_BUCKETS (start_index self) (current_index self) with
              | Some new_index =>
                  ClosestNodes_next fuel now
                    (mk_ClosestNodes (cn_buckets self) (bucket_iterator now (cn_buckets self) new_index)
                       new_index (start_index self) (assorted_nodes self))
              | None => Ok (None, self)
              end
          end
      end
  end.

(** Draining the iterator. *)
Fixpoint ClosestNodes_collect (fuel : nat) (now : DateTime) (self : ClosestNodes) {struct fuel} :
    outcome Empty_set (list Node) :=
  match fuel with
  | O => NoFuel
  | S fuel =>
      '(n, self) ← ClosestNodes_next (MAX_BUCKETS + 2) now self;
      match n with
      | Some node => rest ← ClosestNodes_collect fuel now self; Ok (node :: rest)
      | None => Ok []
      end
  end.

(** [table.closest_nodes(id).collect()]; every node is handed out at most once. *)
Definition closest_nodes (now : DateTime) (self : RoutingTable) (id : ShaHash) :
    outcome Empty_set (list Node) :=
  it ← ClosestNodes_new now (buckets self) (rt_node_id self) id;
  ClosestNodes_collect (MAX_BUCKETS * MAX_BUCKET_SIZE + 1) now it.
End table.
