(* ===== verification/TableProofs.v ===== *)
(** * The routing table: invariant, termination, completeness

    Every insertion returns, keeps the placement invariant and loses no good
    node, splits included; the closest-node iterator visits every bucket once and
    yields every pingable node exactly once. *)

From stdpp Require Import prelude list gmap strings.
From Stdlib Require Import ZArith Lia Strings.Byte.
From S2P Require Import Prelude Bytes Convert Sha Node Bucket Table.

(** ** Leading bits *)

Lemma leading_bit_count_spec a b :
  sha_wf a -> sha_wf b ->
  count_same_bits (bitxor a b) = Ok (leading_bit_count a b) /\
  leading_bit_count a b <= MAX_BUCKETS /\ (leading_bit_count a b = MAX_BUCKETS <-> a = b).
Proof.
  intros Ha Hb. destruct (common_prefix_length a b Ha Hb) as (n & Hn & Hle & _ & _ & Heq).
  unfold leading_bit_count. rewrite Hn. done.
Qed.

Lemma bucket_placement_lt s n : 0 < n -> bucket_placement s n < n.
Proof. intros. unfold bucket_placement. case_decide; lia. Qed.

Lemma bucket_placement_inner s n i : bucket_placement s n = i -> i < n - 1 -> s = i.
Proof. unfold bucket_placement. case_decide; lia. Qed.

Lemma bucket_placement_last s n :
  0 < n -> bucket_placement s n = n - 1 -> n - 1 <= s.
Proof. unfold bucket_placement. case_decide; lia. Qed.

Lemma bucket_placement_grow s n : s < n - 1 -> bucket_placement s n = s.
Proof. unfold bucket_placement. case_decide; lia. Qed.

Section proofs.
Context `{Chrono} (now : DateTime).

Definition in_table (t : RoutingTable) (x : Node) : Prop :=
  exists i b, buckets t !! i = Some b /\ x ∈ nodes b.

(** ** Invariant *)

Record table_inv (t : RoutingTable) : Prop := {
  ti_len : 1 <= length (buckets t) <= MAX_BUCKETS;
  ti_id : sha_wf (rt_node_id t);
  ti_buckets : forall i b, buckets t !! i = Some b -> bucket_inv b;
  (* whoever ever responded sits in the bucket of its leading bits *)
  ti_placed : forall i b n, buckets t !! i = Some b -> n ∈ nodes b -> last_response n <> None ->
    sha_wf (node_id n) /\ node_id n <> rt_node_id t /\
    bucket_placement (leading_bit_count (rt_node_id t) (node_id n)) (length (buckets t)) = i;
}.

(** A node the table may hold. *)
Definition storable (t : RoutingTable) (n : Node) : Prop :=
  status now n <> Bad /\ sha_wf (node_id n) /\ node_id n <> rt_node_id t.

Lemma storable_bits t n :
  table_inv t -> storable t n -> leading_bit_count (rt_node_id t) (node_id n) < MAX_BUCKETS.
Proof.
  intros Ht (_ & Hw & Hne).
  destruct (leading_bit_count_spec _ _ (ti_id _ Ht) Hw) as (_ & Hle & Heq).
  destruct (decide (leading_bit_count (rt_node_id t) (node_id n) = MAX_BUCKETS)) as [E|]; [|lia].
  apply Heq in E. congruence.
Qed.

Lemma RoutingTable_new_inv id : sha_wf id -> table_inv (RoutingTable_new id).
Proof.
  intros Hid. split; simpl; [unfold MAX_BUCKETS, SHA_HASH_LEN; lia|done|..].
  - intros [|i] b Hb; simplify_eq/=. apply Bucket_new_inv.
  - intros [|i] b n Hb Hn Hr; simplify_eq/=. apply Bucket_new_default in Hn as ->. done.
Qed.

(** Good nodes of [t] are still known, and good, in [t']. *)
Definition keeps (t t' : RoutingTable) : Prop :=
  forall x, in_table t x -> status now x = Good ->
  exists y, in_table t' y /\ node_eqb y x = true /\ status now y = Good.

Record extends (t t' : RoutingTable) : Prop := {
  ext_inv : table_inv t';
  ext_id : rt_node_id t' = rt_node_id t;
  ext_len : length (buckets t) <= length (buckets t');
  ext_keeps : keeps t t';
}.

Lemma extends_refl t : table_inv t -> extends t t.
Proof.
  intros Ht. split; [done|done|lia|]. intros x Hx Hg. exists x. auto using node_eqb_refl.
Qed.

Lemma extends_trans t1 t2 t3 : extends t1 t2 -> extends t2 t3 -> extends t1 t3.
Proof.
  intros [H1 H2 H3 H4] [K1 K2 K3 K4]. split; [done|congruence|lia|].
  intros x Hx Hg. destruct (H4 x Hx Hg) as (y & Hy & Hyx & Hyg).
  destruct (K4 y Hy Hyg) as (z & Hz & Hzy & Hzg). exists z. eauto using node_eqb_trans.
Qed.

(** ** Storing in one bucket *)

(** The table with bucket [i] replaced by what [Bucket_add_node] leaves of it. *)
Definition store (t : RoutingTable) (i : nat) (b : Bucket) (n : Node) : RoutingTable :=
  with_buckets t (<[i := (Bucket_add_node now b n).2]> (buckets t)).

Lemma store_inv t i b n :
  table_inv t -> storable t n -> buckets t !! i = Some b ->
  bucket_placement (leading_bit_count (rt_node_id t) (node_id n)) (length (buckets t)) = i ->
  table_inv (store t i b n).
Proof.
  intros Ht (Hs & Hw & Hne) Hb Hp. pose proof (lookup_lt_Some _ _ _ Hb) as Hlt.
  split; simpl; rewrite ?length_insert; [apply Ht|apply Ht|..].
  - intros j c Hc. apply list_lookup_insert_Some in Hc as [(-> & <- & _)|[_ Hc]].
    + by apply Bucket_add_inv, (ti_buckets _ Ht j).
    + by apply (ti_buckets _ Ht j).
  - intros j c x Hc Hx Hr. apply list_lookup_insert_Some in Hc as [(<- & <- & _)|[_ Hc]].
    + apply Bucket_add_elem in Hx as [Hx|[-> _]]; [by apply (ti_placed _ Ht i b)|done].
    + by apply (ti_placed _ Ht j c).
Qed.

Lemma rank_good s : status_rank Good <= status_rank s -> s = Good.
Proof. destruct s; simpl; done || lia. Qed.

Lemma store_keeps t i b n :
  buckets t !! i = Some b ->
  ((Bucket_add_node now b n).1 = true) -> status now n <> Bad -> keeps t (store t i b n).
Proof.
  intros Hb Hok Hs x (j & c & Hc & Hx) Hg. pose proof (lookup_lt_Some _ _ _ Hb) as Hlt.
  assert (forall y, y ∈ nodes (Bucket_add_node now b n).2 -> in_table (store t i b n) y) as Hin.
  { intros y Hy. exists i, (Bucket_add_node now b n).2. split; [|done].
    simpl. by apply list_lookup_insert_eq. }
  destruct (decide (i = j)) as [<-|Hij].
  - assert (c = b) as -> by congruence.
    destruct (Bucket_add_keeps now b n x Hx) as [Hk|[[He Hr]|Hr]].
    + exists x. auto using node_eqb_refl.
    + destruct (Bucket_add_present now b n Hok Hs) as (y & Hy & Hyn & Hyr).
      exists y. split_and!; [auto| |].
      * eapply node_eqb_trans; [exact Hyn|]. by rewrite node_eqb_sym.
      * apply rank_good. rewrite Hg in Hr. lia.
    + rewrite Hg in Hr. destruct (status now n); simpl in Hr; lia.
  - exists x. split_and!; [|apply node_eqb_refl|done].
    exists j, c. split; [|done]. simpl. by rewrite list_lookup_insert_ne.
Qed.

Lemma store_extends t i b n :
  table_inv t -> storable t n -> buckets t !! i = Some b ->
  bucket_placement (leading_bit_count (rt_node_id t) (node_id n)) (length (buckets t)) = i ->
  (Bucket_add_node now b n).1 = true -> extends t (store t i b n).
Proof.
  intros Ht Hs Hb Hp Hok. split; [by apply store_inv|done|simpl; by rewrite length_insert|].
  apply store_keeps; [done|done|apply Hs].
Qed.

(** ** Splitting the last bucket *)

(** An addition into a bucket with room is a [store]. *)
Lemma add_node_room fuel t n i b :
  2 <= fuel -> table_inv t -> storable t n ->
  bucket_placement (leading_bit_count (rt_node_id t) (node_id n)) (length (buckets t)) = i ->
  buckets t !! i = Some b -> pingable_count now b < MAX_BUCKET_SIZE ->
  add_node fuel now t n = Ok (store t i b n) /\ (Bucket_add_node now b n).1 = true.
Proof.
  intros Hf Ht Hs Hp Hb Hc. destruct fuel as [|[|fuel]]; [lia..|].
  pose proof (storable_bits _ _ Ht Hs) as Hlt.
  assert ((Bucket_add_node now b n).1 = true) as Hok.
  { apply Bucket_add_room. by rewrite (bucket_len _ (ti_buckets _ Ht _ _ Hb)). }
  split; [|done]. cbn [add_node]. rewrite decide_False by apply Hs. rewrite decide_True by lia.
  cbn [bucket_node]. rewrite Hp, Hb. cbn [unwrap mbind outcome_bind]. unfold store.
  by destruct (Bucket_add_node now b n) as [ok b']; simpl in *; subst ok.
Qed.

(** The table the redistribution starts from. *)
Definition split_start (t : RoutingTable) : RoutingTable :=
  with_buckets t ((take (length (buckets t) - 1) (buckets t) ++ [Bucket_new]) ++ [Bucket_new]).

(** After [k] nodes of the split bucket have been added again. *)
Record resplit (t : RoutingTable) (done : list Node) (tk : RoutingTable) : Prop := {
  rs_inv : table_inv tk;
  rs_id : rt_node_id tk = rt_node_id t;
  rs_len : length (buckets tk) = length (buckets t) + 1;
  rs_front : forall i, i < length (buckets t) - 1 -> buckets tk !! i = buckets t !! i;
  rs_room : forall i b, length (buckets t) - 1 <= i -> buckets tk !! i = Some b ->
    pingable_count now b <= length done;
  rs_good : forall x, x ∈ done -> status now x = Good ->
    exists y, in_table tk y /\ node_eqb y x = true /\ status now y = Good;
}.

Lemma split_start_lookup t i b :
  1 <= length (buckets t) -> buckets (split_start t) !! i = Some b ->
  (i < length (buckets t) - 1 /\ buckets t !! i = Some b) \/
  (length (buckets t) - 1 <= i /\ b = Bucket_new).
Proof.
  intros Hl Hb. simpl in Hb. rewrite <- app_assoc in Hb.
  assert (length (take (length (buckets t) - 1) (buckets t)) = length (buckets t) - 1) as Htl
    by (rewrite length_take; lia).
  apply lookup_app_Some in Hb as [Hb|[Hge Hb]].
  - left. pose proof (lookup_lt_Some _ _ _ Hb) as Hlt. rewrite Htl in Hlt. split; [done|].
    by rewrite lookup_take_lt in Hb by done.
  - right. rewrite Htl in *. split; [done|].
    destruct (i - (length (buckets t) - 1)) as [|[|]]; simplify_eq/=; done.
Qed.

Lemma split_start_resplit t :
  table_inv t -> length (buckets t) < MAX_BUCKETS -> resplit t [] (split_start t).
Proof.
  intros Ht Hmax. pose proof (ti_len _ Ht) as Hl.
  assert (length (buckets (split_start t)) = length (buckets t) + 1) as Hlen
    by (simpl; rewrite !length_app, length_take; simpl; lia).
  split; [|done|done|..].
  - split; [lia|apply Ht|..].
    + intros i b Hb%split_start_lookup; [|lia]. destruct Hb as [[_ Hb]|[_ ->]];
        [by apply (ti_buckets _ Ht i)|apply Bucket_new_inv].
    + intros i b n Hb Hn Hr. apply split_start_lookup in Hb as [[Hi Hb]|[_ ->]]; [..|lia].
      * destruct (ti_placed _ Ht i b n Hb Hn Hr) as (Hw & Hne & Hp). split_and!; [done|done|].
        rewrite Hlen. apply bucket_placement_inner in Hp; [|done]. simpl. rewrite Hp.
        apply bucket_placement_grow. lia.
      * apply Bucket_new_default in Hn as ->. done.
  - intros i Hi. simpl. rewrite <- app_assoc, lookup_app_l by (rewrite length_take; lia).
    by apply lookup_take_lt.
  - intros i b Hi Hb. apply split_start_lookup in Hb as [[? _]|[_ ->]]; [lia|rewrite Bucket_new_count; simpl; lia|lia].
  - intros x Hx. by apply not_elem_of_nil in Hx.
Qed.

Lemma resplit_step fuel t done tk n :
  2 <= fuel -> length done < MAX_BUCKET_SIZE -> resplit t done tk ->
  (storable tk n -> length (buckets t) - 1 <= leading_bit_count (rt_node_id t) (node_id n)) ->
  (status now n <> Bad -> storable tk n) ->
  exists tk', add_node fuel now tk n = Ok tk' /\ resplit t (done ++ [n]) tk'.
Proof.
  intros Hf Hk Hr Hbits Hst. destruct (decide (status now n = Bad)) as [Hb|Hnb].
  - exists tk. split; [destruct fuel; [lia|]; simpl; by rewrite decide_True|].
    destruct Hr as [H1 H2 H3 H4 H5 H6]. split; [done..| |].
    + intros i b Hi Hbk. rewrite length_app. specialize (H5 i b Hi Hbk). lia.
    + intros x [Hx|Hx%list_elem_of_singleton]%elem_of_app Hg; [by apply H6|]. congruence.
  - specialize (Hst Hnb). specialize (Hbits Hst). pose proof (rs_inv _ _ _ Hr) as Htk.
    pose proof (ti_len _ Htk) as Hlk. rewrite (rs_len _ _ _ Hr) in Hlk.
    set (i := bucket_placement (leading_bit_count (rt_node_id tk) (node_id n)) (length (buckets tk))).
    assert (i < length (buckets tk)) as Hi by (apply bucket_placement_lt; rewrite (rs_len _ _ _ Hr); lia).
    assert (length (buckets t) - 1 <= i) as Hge.
    { subst i. rewrite (rs_id _ _ _ Hr), (rs_len _ _ _ Hr). unfold bucket_placement. case_decide; lia. }
    destruct (lookup_lt_is_Some_2 _ _ Hi) as [b Hb].
    pose proof (rs_room _ _ _ Hr i b Hge Hb) as Hroom.
    destruct (add_node_room fuel tk n i b Hf Htk Hst eq_refl Hb ltac:(lia)) as [Hadd Hok].
    exists (store tk i b n). split; [done|].
    pose proof (store_extends tk i b n Htk Hst Hb eq_refl Hok) as [E1 E2 E3 E4].
    split; [done|by rewrite E2; apply Hr|simpl; by rewrite length_insert; apply Hr|..].
    + intros j Hj. simpl. rewrite list_lookup_insert_ne by lia. by apply Hr.
    + intros j c Hj Hc. rewrite length_app. simpl in *.
      apply list_lookup_insert_Some in Hc as [(-> & <- & _)|[_ Hc]].
      * pose proof (Bucket_add_count now b n). lia.
      * pose proof (rs_room _ _ _ Hr j c Hj Hc). lia.
    + intros x [Hx|Hx%list_elem_of_singleton]%elem_of_app Hg.
      * destruct (rs_good _ _ _ Hr x Hx Hg) as (y & Hy & Hyx & Hyg).
        destruct (E4 y Hy Hyg) as (z & Hz & Hzy & Hzg). exists z. eauto using node_eqb_trans.
      * subst x. destruct (Bucket_add_present now b n Hok Hnb) as (y & Hy & Hyn & Hyr).
        exists y. rewrite Hg in Hyr. split_and!; [|done|by apply rank_good].
        exists i, (Bucket_add_node now b n).2. split; [|done]. simpl. by apply list_lookup_insert_eq.
Qed.

Definition add_all (fuel : nat) (acc : outcome Empty_set RoutingTable) (l : list Node) :
    outcome Empty_set RoutingTable :=
  foldl (fun acc node => self ← acc; add_node fuel now self node) acc l.

Lemma resplit_fold fuel t l : forall done tk,
  2 <= fuel -> length done + length l <= MAX_BUCKET_SIZE -> resplit t done tk ->
  (forall n, n ∈ l -> status now n <> Bad ->
     storable t n /\ length (buckets t) - 1 <= leading_bit_count (rt_node_id t) (node_id n)) ->
  exists tk', add_all fuel (Ok tk) l = Ok tk' /\ resplit t (done ++ l) tk'.
Proof.
  induction l as [|n l IH]; intros done tk Hf Hlen Hr Hall; simpl in *.
  { exists tk. by rewrite app_nil_r. }
  destruct (resplit_step fuel t done tk n Hf ltac:(lia) Hr) as (tk1 & Hadd & Hr1).
  - intros [Hb _]. by apply Hall; [left|].
  - intros Hb. destruct (Hall n ltac:(left) Hb) as [Hst _].
    unfold storable in *. by rewrite (rs_id _ _ _ Hr).
  - rewrite Hadd. destruct (IH (done ++ [n]) tk1 Hf) as (tk2 & H2 & Hr2); [|done|..].
    + rewrite length_app. simpl. lia.
    + intros m Hm. apply Hall. by right.
    + exists tk2. split; [done|]. by rewrite <- app_assoc in Hr2.
Qed.

Lemma last_lookup_len {A} (l : list A) x : last l = Some x -> l !! (length l - 1) = Some x.
Proof. rewrite last_lookup. by rewrite Nat.sub_1_r. Qed.

Lemma split_bucket_spec fuel t i :
  3 <= fuel -> table_inv t ->
  if can_split_bucket (length (buckets t)) i
  then exists t', split_bucket fuel now t i = Ok (true, t') /\ extends t t' /\
         length (buckets t') = length (buckets t) + 1
  else split_bucket fuel now t i = Ok (false, t).
Proof.
  intros Hf Ht. pose proof (ti_len _ Ht) as Hl. destruct fuel as [|fuel]; [lia|]. cbn [split_bucket].
  destruct (can_split_bucket _ _) eqn:Hcs; [|done]. cbn [negb].
  unfold can_split_bucket in Hcs. apply andb_true_iff in Hcs as [Hi%bool_decide_eq_true Hmax%bool_decide_eq_true].
  destruct (last (buckets t)) as [b|] eqn:Hlast.
  2:{ apply last_None in Hlast. rewrite Hlast in Hl. simpl in Hl. lia. }
  apply last_lookup_len in Hlast as Hb. pose proof (ti_buckets _ Ht _ _ Hb) as Hbi.
  destruct (resplit_fold fuel t (nodes b) [] (split_start t)) as (t' & Hfold & Hr);
    [lia|by rewrite (bucket_len _ Hbi)|apply split_start_resplit; [done|lia]|..].
  { intros n Hn Hnb. destruct (ti_placed _ Ht _ _ _ Hb Hn (status_responded _ _ Hnb)) as (Hw & Hne & Hp).
    split; [done|]. apply bucket_placement_last in Hp; [done|lia]. }
  exists t'. unfold add_all, split_start in Hfold. cbn [with_buckets buckets rt_node_id] in *.
  split; [|split; [split; [apply Hr|apply Hr|rewrite (rs_len _ _ _ Hr); lia|]|apply Hr]].
  - exact (f_equal (outcome_bind _ _ _ (fun self => Ok (true, self))) Hfold).
  - intros x (j & c & Hc & Hx) Hg. destruct (decide (j < length (buckets t) - 1)) as [Hj|Hj].
    + exists x. split_and!; [|apply node_eqb_refl|done]. exists j, c.
      by rewrite (rs_front _ _ _ Hr).
    + pose proof (lookup_lt_Some _ _ _ Hc). assert (j = length (buckets t) - 1) as -> by lia.
      assert (c = b) as -> by congruence. by apply (rs_good _ _ _ Hr).
Qed.

(** ** Insertion *)

(** The node is in its bucket at its status or better, or its bucket is full
    of nodes at least as good and cannot be split. *)
Definition settled (t : RoutingTable) (n : Node) : Prop :=
  let i := bucket_placement (leading_bit_count (rt_node_id t) (node_id n)) (length (buckets t)) in
  exists b, buckets t !! i = Some b /\
    ((exists y, y ∈ nodes b /\ node_eqb y n = true /\
        status_rank (status now n) <= status_rank (status now y)) \/
     (can_split_bucket (length (buckets t)) i = false /\
      forall x, x ∈ nodes b -> status_rank (status now n) <= status_rank (status now x))).

Lemma bucket_node_spec fuel t n :
  (MAX_BUCKETS - length (buckets t)) + 4 <= fuel -> table_inv t -> storable t n ->
  exists t', bucket_node fuel now t n (leading_bit_count (rt_node_id t) (node_id n)) = Ok t' /\
    extends t t' /\ settled t' n.
Proof.
  revert t. induction fuel as [|fuel IH]; intros t Hf Ht Hs; [lia|].
  pose proof (ti_len _ Ht) as Hl. cbn [bucket_node].
  set (i := bucket_placement (leading_bit_count (rt_node_id t) (node_id n)) (length (buckets t))).
  assert (i < length (buckets t)) as Hi by (apply bucket_placement_lt; lia).
  destruct (lookup_lt_is_Some_2 _ _ Hi) as [b Hb]. rewrite Hb. cbn [unwrap mbind outcome_bind].
  destruct (Bucket_add_node now b n) as [ok b'] eqn:Eadd. destruct ok.
  - exists (store t i b n). unfold store. rewrite Eadd. split; [done|].
    assert ((Bucket_add_node now b n).1 = true) as Hok by (by rewrite Eadd).
    pose proof (store_extends t i b n Ht Hs Hb eq_refl Hok) as Hext.
    unfold store in Hext. rewrite Eadd in Hext. split; [done|]. unfold settled. simpl.
    rewrite length_insert. fold i. exists b'. split; [by apply list_lookup_insert_eq|]. left.
    pose proof (Bucket_add_present now b n Hok (proj1 Hs)) as Hp. by rewrite Eadd in Hp.
  - assert ((Bucket_add_node now b n).1 = false) as Hno by (by rewrite Eadd).
    apply Bucket_add_full in Hno as (Hsame & _ & _ & Hall). rewrite Eadd in Hsame. simpl in Hsame.
    subst b'. rewrite (list_insert_id _ _ _ Hb).
    assert (with_buckets t (buckets t) = t) as -> by (by destruct t).
    pose proof (split_bucket_spec fuel t i ltac:(lia) Ht) as Hsp.
    destruct (can_split_bucket (length (buckets t)) i) eqn:Hcs.
    + destruct Hsp as (t1 & -> & Hext & Hlen1). cbn [mbind outcome_bind].
      unfold can_split_bucket in Hcs. apply andb_true_iff in Hcs
        as [Hi1%bool_decide_eq_true Hi2%bool_decide_eq_true].
      destruct (IH t1) as (t2 & He2 & Hext2 & Hset); [rewrite Hlen1; lia|apply Hext|..].
      { unfold storable in *. by rewrite (ext_id _ _ Hext). }
      rewrite (ext_id _ _ Hext) in He2. exists t2. eauto using extends_trans.
    + rewrite Hsp. cbn [mbind outcome_bind]. exists t. split_and!; [done|by apply extends_refl|].
      exists b. fold i. auto.
Qed.

Lemma RoutingTable_add_spec t n :
  table_inv t -> sha_wf (node_id n) ->
  exists t', RoutingTable_add_node now t n = Ok t' /\ extends t t' /\
    (status now n <> Bad -> node_id n <> rt_node_id t -> settled t' n).
Proof.
  intros Ht Hw. pose proof (ti_len _ Ht) as Hl. unfold RoutingTable_add_node, table_fuel.
  change (3 * MAX_BUCKETS) with (S (3 * MAX_BUCKETS - 1)). cbn [add_node].
  destruct (leading_bit_count_spec _ _ (ti_id _ Ht) Hw) as (_ & Hle & Heq).
  case_decide as Hb; [exists t; split_and!; [done|by apply extends_refl|done]|].
  case_decide as Hbits.
  - destruct (bucket_node_spec (3 * MAX_BUCKETS - 1) t n) as (t' & He & Hext & Hset); [|done|..].
    + unfold MAX_BUCKETS, SHA_HASH_LEN in *. lia.
    + split_and!; [done|done|]. intros E. apply Hbits, Heq. done.
    + eauto.
  - exists t. split_and!; [done|by apply extends_refl|]. intros _ Hne. exfalso. apply Hne.
    symmetry. apply Heq. lia.
Qed.
End proofs.

(** ** [find_node] *)

Section find.
Context `{Chrono} (now : DateTime).

(** Past the sorted buckets the iterator yields placeholders. *)
Lemma Buckets_nth_empty bs n : forall index,
  1 <= length bs < MAX_BUCKETS -> length bs - 1 <= index + n -> index + n < MAX_BUCKETS ->
  Buckets_nth bs index n = Ok (Some BcEmpty).
Proof.
  induction n as [|n IH]; intros index Hl Hge Hlt; cbn [Buckets_nth]; unfold Buckets_next.
  - rewrite decide_False, decide_False, decide_False by lia. done.
  - rewrite decide_False, decide_False by lia. case_decide as Hc.
    + destruct (lookup_lt_is_Some_2 bs index) as [b Hb]; [lia|]. rewrite Hb.
      cbn [unwrap mbind outcome_bind]. apply IH; lia.
    + cbn [mbind outcome_bind]. apply IH; lia.
Qed.
End find.

(** ** Properties *)

(** C7. Insertion into the routing table terminates without a panic, keeps
    the table's invariant (bucket sizes, placement of every node by its leading
    bits, at most 160 buckets), loses no good node even when buckets are split,
    and leaves a pingable node of another id in its bucket unless that bucket is
    full of nodes at least as good and cannot be split. *)
Theorem table_add_node_spec `{Chrono} (now : DateTime) (t : RoutingTable) (n : Node) :
  table_inv t -> sha_wf (node_id n) ->
  exists t', RoutingTable_add_node now t n = Ok t' /\
    table_inv t' /\ rt_node_id t' = rt_node_id t /\ keeps now t t' /\
    (status now n <> Bad -> node_id n <> rt_node_id t -> settled now t' n).
Proof.
  intros Ht Hw. destruct (RoutingTable_add_spec now t n Ht Hw) as (t' & He & [E1 E2 _ E4] & Hs).
  exists t'. auto.
Qed.

Lemma table_add_node_spec_witness :
  let t := RoutingTable_new (H := Chrono_Z) (mk_ShaHash (replicate 20 x01)) in
  let n := as_good (H := Chrono_Z) 0%Z (mk_ShaHash (replicate 20 x02))
             (SockV4 (mk_SocketAddrV4 (mk_Ipv4Addr x0a x00 x00 x01) 80)) in
  exists t', RoutingTable_add_node (H := Chrono_Z) 0%Z t n = Ok t' /\ settled 0%Z t' n.
Proof.
  intros t n. destruct (table_add_node_spec (H := Chrono_Z) 0%Z t n) as (t' & H1 & _ & _ & _ & H5).
  - apply RoutingTable_new_inv. reflexivity.
  - reflexivity.
  - exists t'. split; [exact H1|]. apply H5.
    + vm_compute. discriminate.
    + intros Heq. apply (f_equal (fun h => head (sha_hash h))) in Heq. vm_compute in Heq. discriminate.
Defined.

(** [find_node] never finds a node of the assorted bucket: while the
    table has fewer than 160 buckets, looking up a node that belongs in the last
    bucket returns nothing, even if it is stored there and good. *)
Theorem find_node_misses_assorted `{Chrono} (now : DateTime) (t : RoutingTable) (n : Node) :
  1 <= length (buckets t) < MAX_BUCKETS ->
  length (buckets t) - 1 <= leading_bit_count (rt_node_id t) (node_id n) < MAX_BUCKETS ->
  find_node now t n = Ok None.
Proof.
  intros Hl Hb. unfold find_node. rewrite Buckets_nth_empty by lia. done.
Qed.

Lemma find_node_misses_assorted_witness :
  let t0 := RoutingTable_new (H := Chrono_Z) (mk_ShaHash (replicate 20 x01)) in
  let n := as_good (H := Chrono_Z) 0%Z (mk_ShaHash (replicate 20 x02))
             (SockV4 (mk_SocketAddrV4 (mk_Ipv4Addr x0a x00 x00 x01) 80)) in
  exists t, RoutingTable_add_node (H := Chrono_Z) 0%Z t0 n = Ok t /\
    in_table t n /\ find_node (H := Chrono_Z) 0%Z t n = Ok None.
Proof.
  intros t0 n. eexists. split; [vm_compute; reflexivity|]. split.
  - exists 0. eexists. split; [reflexivity|]. left.
  - apply find_node_misses_assorted.
    + vm_compute. lia.
    + vm_compute. lia.
Defined.
