(* ===== verification/Closest.v ===== *)
(** * The closest-node iterator of the routing table

    [next_bucket_index] walks the bucket indices in order of their distance to
    the start, right before left, each once; [ClosestNodes] hands out every
    pingable node of the table exactly once, in that order. *)

From stdpp Require Import prelude list gmap strings.
From Stdlib Require Import ZArith Lia Strings.Byte Sorting.Sorted.
From S2P Require Import Prelude Bytes Convert Sha Node Bucket Table TableProofs.

(** ** The walk over the indices *)

(** Position of an index in the walk: start, then right and left by distance. *)
Definition visit_rank (start i : nat) : nat :=
  if decide (i = start) then 0
  else if decide (start < i) then 2 * (i - start) - 1
  else 2 * (start - i).

Lemma visit_rank_inj start i j : visit_rank start i = visit_rank start j -> i = j.
Proof. unfold visit_rank. repeat case_decide; lia. Qed.

Lemma visit_rank_bound start i n : start <= n -> i <= n -> visit_rank start i <= 2 * n.
Proof. unfold visit_rank. repeat case_decide; lia. Qed.

(** The next index is the next one of the walk that is in bounds. *)
Lemma next_bucket_index_spec n start curr :
  start <= n -> curr <= n ->
  match next_bucket_index n start curr with
  | Some j => j < n /\ visit_rank start curr < visit_rank start j /\
      forall i, i < n -> visit_rank start curr < visit_rank start i ->
        visit_rank start j <= visit_rank start i
  | None => forall i, i < n -> visit_rank start i <= visit_rank start curr
  end.
Proof.
  intros Hs Hc. unfold next_bucket_index, index_is_in_bounds, checked_add, checked_sub, visit_rank.
  repeat (case_decide || match goal with |- context [?a <? ?b] => destruct (Nat.ltb_spec a b) end);
    first [ lia | intros i Hi; repeat case_decide; lia
          | split_and!; [lia|repeat case_decide; lia|intros i Hi; repeat case_decide; lia] ].
Qed.

Inductive visits (n start : nat) : nat -> list nat -> Prop :=
| visits_end curr : next_bucket_index n start curr = None -> visits n start curr []
| visits_next curr j vs :
    next_bucket_index n start curr = Some j -> visits n start j vs -> visits n start curr (j :: vs).

Lemma visits_exists n start curr :
  start <= n -> curr <= n ->
  exists vs, visits n start curr vs /\
    (forall i, i ∈ vs <-> i < n /\ visit_rank start curr < visit_rank start i) /\
    StronglySorted (fun i j => visit_rank start i < visit_rank start j) (curr :: vs).
Proof.
  intros Hs Hc. remember (2 * n - visit_rank start curr) as m eqn:Hm.
  revert curr Hc Hm. induction m as [m IH] using lt_wf_ind. intros curr Hc Hm.
  pose proof (next_bucket_index_spec n start curr Hs Hc) as Hnext.
  pose proof (visit_rank_bound start curr n Hs Hc) as Hb.
  destruct (next_bucket_index n start curr) as [j|] eqn:E.
  - destruct Hnext as (Hj & Hlt & Hmin). pose proof (visit_rank_bound start j n Hs ltac:(lia)).
    destruct (IH (2 * n - visit_rank start j)) with (curr := j) as (vs & Hv & Hin & Hso); [lia|lia|done|].
    exists (j :: vs). split_and!; [by eapply visits_next|..].
    + intros i. rewrite elem_of_cons, Hin. split; [intros [->|[? ?]]; split; lia|].
      intros [Hi Hr]. specialize (Hmin i Hi Hr). destruct (decide (i = j)) as [->|Hne]; [by left|right].
      split; [done|]. destruct (decide (visit_rank start i = visit_rank start j)) as [Heq|]; [|lia].
      by apply visit_rank_inj in Heq.
    + constructor; [done|]. constructor; [done|]. apply StronglySorted_inv in Hso as [_ Hso].
      eapply Forall_impl; [exact Hso|]. simpl. intros; lia.
  - exists []. split_and!; [by apply visits_end| |by repeat constructor].
    intros i. split; [intros Hi; by apply not_elem_of_nil in Hi|].
    intros [Hi Hr]. specialize (Hnext i Hi). lia.
Qed.

Lemma sorted_rank_NoDup start l :
  StronglySorted (fun i j => visit_rank start i < visit_rank start j) l -> NoDup l.
Proof.
  induction 1 as [|x l Hl IH Hx]; constructor; [|done].
  intros Hin. rewrite Forall_forall in Hx. specialize (Hx x Hin). lia.
Qed.

(** The whole walk visits every index once. *)
Lemma visits_all n start vs :
  (forall i, i ∈ vs <-> i < n /\ visit_rank start start < visit_rank start i) -> NoDup (start :: vs) ->
  start :: vs ≡ₚ (if decide (start < n) then seq 0 n else start :: seq 0 n).
Proof.
  intros Hin Hnd. assert (visit_rank start start = 0) as H0 by (unfold visit_rank; by case_decide).
  assert (forall i, i <> start -> 0 < visit_rank start i) as Hpos
    by (intros i Hi; unfold visit_rank; repeat case_decide; lia).
  apply NoDup_Permutation; [done|case_decide; [apply NoDup_seq|constructor; [|apply NoDup_seq]]|].
  - intros Hi%elem_of_seq. lia.
  - intros i. rewrite elem_of_cons, Hin, H0. case_decide.
    + rewrite elem_of_seq. split; [intros [->|[? ?]]; lia|]. intros Hi.
      destruct (decide (i = start)); [by left|right; auto with lia].
    + rewrite elem_of_cons, elem_of_seq. split; [intros [->|[? ?]]; [by left|right; lia]|].
      intros [->|Hi]; [by left|]. right. split; [lia|]. apply Hpos. lia.
Qed.

(** ** Handing out the nodes *)

Section closest.
Context `{Chrono} (now : DateTime).

(** Assorted nodes of bucket [i] not handed out yet. *)
Definition pending (tups : list AssortedNode) (i : nat) : list Node :=
  an_node <$> List.filter (assorted_match now i) tups.

Definition pending_opt (tups : option (list AssortedNode)) (i : nat) : list Node :=
  match tups with Some tups => pending tups i | None => [] end.

Lemma pending_None tups i :
  position (assorted_match now i) tups = None -> pending tups i = [].
Proof.
  rewrite position_None. unfold pending. intros Hn. induction tups as [|t tups IH]; [done|]. simpl.
  rewrite Hn by left. apply IH. intros x Hx. apply Hn. by right.
Qed.

Definition returned (t : AssortedNode) : AssortedNode := mk_AssortedNode (an_index t) (an_node t) true.

Lemma assorted_match_returned i t : assorted_match now i (returned t) = false.
Proof. unfold assorted_match; simpl. by rewrite !andb_false_r. Qed.

Lemma pending_first tups i k t :
  position (assorted_match now i) tups = Some k -> tups !! k = Some t ->
  pending tups i = an_node t :: pending (<[k := returned t]> tups) i.
Proof.
  unfold pending. revert k. induction tups as [|u tups IH]; intros k Hp Ht; [done|]. simpl in Hp.
  destruct (assorted_match now i u) eqn:Hu.
  - injection Hp as <-. simpl in Ht. injection Ht as <-. simpl. rewrite Hu, assorted_match_returned. done.
  - apply fmap_Some in Hp as (k' & Hk' & ->). simpl in *. rewrite Hu. by apply IH.
Qed.

Lemma pending_other tups i j k t :
  i <> j -> position (assorted_match now i) tups = Some k -> tups !! k = Some t ->
  pending (<[k := returned t]> tups) j = pending tups j.
Proof.
  unfold pending. intros Hij. revert k. induction tups as [|u tups IH]; intros k Hp Ht; [done|].
  simpl in Hp. destruct (assorted_match now i u) eqn:Hu.
  - injection Hp as <-. simpl in Ht. injection Ht as <-. simpl. rewrite assorted_match_returned.
    replace (assorted_match now j u) with false; [done|]. symmetry.
    unfold assorted_match in *. apply andb_true_iff in Hu as [-> [Hi%bool_decide_eq_true _]%andb_true_iff].
    rewrite bool_decide_eq_false_2; [done|congruence].
  - apply fmap_Some in Hp as (k' & Hk' & ->). simpl in *.
    destruct (assorted_match now j u); csimpl; [f_equal|]; by apply IH.
Qed.

(** What a bucket index contributes. *)
Definition share (bs : list Bucket) (tups : option (list AssortedNode)) (i : nat) : list Node :=
  default [] (bucket_iterator now bs i) ++ pending_opt tups i.

(** Everything the iterator still has to yield, [vs] being the indices ahead. *)
Definition remaining (it : ClosestNodes) (vs : list nat) : list Node :=
  default [] (current_iter it) ++ pending_opt (assorted_nodes it) (current_index it) ++
  concat (share (cn_buckets it) (assorted_nodes it) <$> vs).

Record ahead (it : ClosestNodes) (vs : list nat) : Prop := {
  ahead_visits : visits MAX_BUCKETS (start_index it) (current_index it) vs;
  ahead_nodup : NoDup (current_index it :: vs);
}.

Lemma share_other bs tups i k t (vs : list nat) :
  i ∉ vs -> position (assorted_match now i) tups = Some k -> tups !! k = Some t ->
  share bs (Some (<[k := returned t]> tups)) <$> vs = share bs (Some tups) <$> vs.
Proof.
  intros Hi Hp Ht. apply list_fmap_ext. intros x j Hj. unfold share, pending_opt. f_equal.
  eapply pending_other; [|done|done]. intros ->. apply Hi. by eapply list_elem_of_lookup_2.
Qed.

Lemma pending_nil tups i :
  pending tups i = [] -> position (assorted_match now i) tups = None.
Proof.
  intros Hp. destruct (position _ tups) as [k|] eqn:E; [|done].
  destruct (lookup_lt_is_Some_2 tups k) as [t Ht]; [by eapply position_lt|].
  by rewrite (pending_first _ _ _ _ E Ht) in Hp.
Qed.

(** The three things a call can do. *)
Lemma next_current fuel it x rest :
  current_iter it = Some (x :: rest) ->
  ClosestNodes_next (S fuel) now it =
    Ok (Some x, mk_ClosestNodes (cn_buckets it) (Some rest) (current_index it) (start_index it)
                  (assorted_nodes it)).
Proof. intros Hc. simpl. by rewrite Hc. Qed.

Lemma next_pending fuel it x r :
  default [] (current_iter it) = [] -> pending_opt (assorted_nodes it) (current_index it) = x :: r ->
  exists an, ClosestNodes_next (S fuel) now it =
      Ok (Some x, mk_ClosestNodes (cn_buckets it) (current_iter it) (current_index it)
                    (start_index it) an) /\
    pending_opt an (current_index it) = r /\
    forall vs : list nat, current_index it ∉ vs ->
      share (cn_buckets it) an <$> vs = share (cn_buckets it) (assorted_nodes it) <$> vs.
Proof.
  intros Hc Hp. destruct (assorted_nodes it) as [tups|] eqn:Ea; [|done]. simpl in Hp.
  destruct (position (assorted_match now (current_index it)) tups) as [k|] eqn:E;
    [|by rewrite (pending_None _ _ E) in Hp].
  destruct (lookup_lt_is_Some_2 tups k) as [t Ht]; [by eapply position_lt|].
  rewrite (pending_first _ _ _ _ E Ht) in Hp. injection Hp as <- <-.
  exists (Some (<[k := returned t]> tups)). split_and!; [|done|intros vs Hvs; by apply share_other with (current_index it)].
  simpl. rewrite Ea. simpl. rewrite E. simpl. rewrite Ht. simpl.
  destruct (current_iter it) as [[|]|]; done.
Qed.

Lemma next_move fuel it :
  default [] (current_iter it) = [] -> pending_opt (assorted_nodes it) (current_index it) = [] ->
  ClosestNodes_next (S fuel) now it =
    match next_bucket_index MAX_BUCKETS (start_index it) (current_index it) with
    | Some j => ClosestNodes_next fuel now
        (mk_ClosestNodes (cn_buckets it) (bucket_iterator now (cn_buckets it) j) j (start_index it)
           (assorted_nodes it))
    | None => Ok (None, it)
    end.
Proof.
  intros Hc Hp. simpl. destruct (assorted_nodes it) as [tups|]; simpl in *;
    [rewrite (pending_nil _ _ Hp); simpl|]; destruct (current_iter it) as [[|]|]; done.
Qed.

#[local] Arguments ClosestNodes_next : simpl never.

(** One call yields the first remaining node. *)
Lemma ClosestNodes_next_spec vs : forall it fuel,
  ahead it vs -> length vs < fuel ->
  match remaining it vs with
  | [] => exists it', ClosestNodes_next fuel now it = Ok (None, it')
  | x :: r => exists it' vs', ClosestNodes_next fuel now it = Ok (Some x, it') /\
      ahead it' vs' /\ length vs' <= length vs /\ remaining it' vs' = r
  end.
Proof.
  induction vs as [|v vs IH]; intros it fuel [Hv Hnd] Hf; (destruct fuel as [|fuel]; [simpl in Hf; lia|]);
    unfold remaining;
    (destruct (default [] (current_iter it)) as [|x cur] eqn:Ec;
     [destruct (pending_opt (assorted_nodes it) (current_index it)) as [|x r] eqn:Ep|]).
  - inversion Hv as [? Hn|]; subst. simpl. exists it. by rewrite next_move, Hn.
  - destruct (next_pending fuel it x r Ec Ep) as (an & -> & Hpa & _).
    eexists _, []. split; [done|]. split; [by split|]. split; [done|]. unfold remaining. simpl. by rewrite Ec, Hpa.
  - destruct (current_iter it) as [[|y ci]|] eqn:Ei; simplify_eq/=. rewrite (next_current _ _ _ _ Ei).
    eexists _, []. split; [done|]. split; [by split|]. split; [done|]. done.
  - inversion Hv as [|? ? ? Hn Hvs]; subst. apply NoDup_cons in Hnd as [Hni Hnd]. rewrite next_move, Hn by done.
    set (it1 := mk_ClosestNodes (cn_buckets it) (bucket_iterator now (cn_buckets it) v) v (start_index it)
                  (assorted_nodes it)).
    specialize (IH it1 fuel (Build_ahead it1 vs Hvs Hnd) ltac:(simpl in Hf; lia)).
    change (default [] (current_iter it1) ++ pending_opt (assorted_nodes it1) (current_index it1) ++
            concat (share (cn_buckets it1) (assorted_nodes it1) <$> vs)) with (remaining it1 vs) in *.
    assert ([] ++ [] ++ concat (share (cn_buckets it) (assorted_nodes it) <$> v :: vs) = remaining it1 vs) as ->
      by (unfold remaining; csimpl; unfold share at 1; by rewrite app_assoc).
    destruct (remaining it1 vs) as [|x r]; [done|].
    destruct IH as (it' & vs' & H1 & H2 & H3 & H4). exists it', vs'. simpl. split_and!; done || lia.
  - apply NoDup_cons in Hnd as Hnd'. destruct Hnd' as [Hni _].
    destruct (next_pending fuel it x r Ec Ep) as (an & -> & Hpa & Hsh).
    eexists _, (v :: vs). split; [done|]. split; [by split|]. split; [done|]. unfold remaining. simpl current_iter.
    cbn [cn_buckets assorted_nodes current_index]. by rewrite Ec, Hpa, Hsh.
  - destruct (current_iter it) as [[|y ci]|] eqn:Ei; simplify_eq/=. rewrite (next_current _ _ _ _ Ei).
    eexists _, (v :: vs). split; [done|]. split; [by split|]. split; [done|]. done.
Qed.

Lemma ClosestNodes_collect_spec fuel it vs :
  ahead it vs -> length vs < MAX_BUCKETS + 2 -> length (remaining it vs) < fuel ->
  ClosestNodes_collect fuel now it = Ok (remaining it vs).
Proof.
  revert it vs. induction fuel as [|fuel IH]; intros it vs Ha Hl Hf; [lia|]. cbn [ClosestNodes_collect].
  pose proof (ClosestNodes_next_spec vs it (MAX_BUCKETS + 2) Ha Hl) as Hn.
  destruct (remaining it vs) as [|x r] eqn:Er.
  - destruct Hn as (it' & ->). done.
  - destruct Hn as (it' & vs' & -> & Ha' & Hl' & Hr'). cbn [mbind outcome_bind].
    rewrite (IH it' vs') by (done || lia || (rewrite Hr'; simpl in Hf; lia)).
    by rewrite Hr'.
Qed.

(** ** The starting state *)

Lemma fold_insert_map {A B} (f : A -> B) (d : B) (l : list A) (pre : list B) :
  foldl (fun acc '(i, x) => <[i := f x]> acc) (pre ++ replicate (length l) d)
    (zip (seq (length pre) (length l)) l) = pre ++ (f <$> l).
Proof.
  revert pre. induction l as [|x l IH]; intros pre; simpl; [done|].
  rewrite insert_app_r_alt, Nat.sub_diag by lia. simpl.
  specialize (IH (pre ++ [f x])). rewrite length_app, <- app_assoc in IH. simpl in IH.
  rewrite Nat.add_1_r in IH. rewrite IH, <- app_assoc. done.
Qed.

Definition assorted_of (id : ShaHash) (n : Node) : AssortedNode :=
  mk_AssortedNode (leading_bit_count id (node_id n)) n false.

Lemma precompute_spec bs id b :
  length bs <> MAX_BUCKETS -> bs !! (length bs - 1) = Some b -> length (nodes b) = MAX_BUCKET_SIZE ->
  precompute_assorted_nodes bs id = Ok (Some (assorted_of id <$> nodes b)).
Proof.
  intros Hl Hb Hn. unfold precompute_assorted_nodes. rewrite decide_False, Hb by done.
  cbn [unwrap mbind outcome_bind]. destruct (nodes b) as [|n0 ns] eqn:En; [done|].
  do 2 f_equal. rewrite <- Hn. apply (fold_insert_map (assorted_of id) _ (n0 :: ns) []).
Qed.

Lemma pending_assorted id ns i :
  pending (assorted_of id <$> ns) i =
  List.filter (fun n => is_good_node now n && bool_decide (leading_bit_count id (node_id n) = i)) ns.
Proof.
  unfold pending. induction ns as [|n ns IH]; [done|]. csimpl. unfold assorted_match at 1; simpl.
  rewrite andb_true_r. destruct (is_good_node now n && _); csimpl; by rewrite IH.
Qed.

(** ** Rearranging the shares *)

Lemma concat_app_perm {A} (f g : nat -> list A) (l : list nat) :
  concat ((fun i => f i ++ g i) <$> l) ≡ₚ concat (f <$> l) ++ concat (g <$> l).
Proof.
  induction l as [|i l IH]; csimpl; [done|]. rewrite IH. rewrite <- !app_assoc.
  apply Permutation_app_head. rewrite !app_assoc. apply Permutation_app_tail, Permutation_app_comm.
Qed.

Lemma concat_lookup_seq {A B} (f : A -> list B) (l : list A) n :
  length l <= n -> concat ((fun i => default [] (f <$> (l !! i))) <$> seq 0 n) = concat (f <$> l).
Proof.
  revert n. induction l as [|x l IH]; intros n Hn; csimpl.
  - clear. generalize 0. induction n as [|n IH]; intros k; csimpl; [done|]. apply IH.
  - destruct n as [|n]; [simpl in Hn; lia|]. csimpl. f_equal.
    rewrite <- fmap_S_seq, <- list_fmap_compose. apply IH. simpl in Hn; lia.
Qed.

Lemma concat_cons_at {A} (x : A) k (g : nat -> list A) l :
  NoDup l -> k ∈ l ->
  concat ((fun i => (if decide (k = i) then [x] else []) ++ g i) <$> l) ≡ₚ x :: concat (g <$> l).
Proof.
  induction 1 as [|i l Hi Hnd IH]; intros Hk; [by apply not_elem_of_nil in Hk|]. csimpl.
  apply elem_of_cons in Hk as [->|Hk].
  - rewrite decide_True by done. simpl. constructor. apply Permutation_app_head.
    assert ((fun j => (if decide (i = j) then [x] else []) ++ g j) <$> l = g <$> l) as ->; [|done].
    apply list_fmap_ext. intros p j Hj. rewrite decide_False; [done|].
    intros ->. apply Hi. by eapply list_elem_of_lookup_2.
  - rewrite decide_False by (intros ->; done). simpl. rewrite IH by done. by rewrite Permutation_middle.
Qed.

Lemma concat_by_key {A} (p : A -> bool) (key : A -> nat) (ns : list A) (l : list nat) :
  NoDup l -> (forall x, x ∈ ns -> p x = true -> key x ∈ l) ->
  concat ((fun i => List.filter (fun n => p n && bool_decide (key n = i)) ns) <$> l) ≡ₚ List.filter p ns.
Proof.
  intros Hnd. induction ns as [|n ns IH]; intros Hkey; csimpl.
  - clear. induction l; done.
  - specialize (IH (fun x Hx => Hkey x (proj2 (elem_of_cons _ _ _) (or_intror Hx)))).
    destruct (p n) eqn:Hp; simpl; [|done].
    transitivity (n :: concat ((fun i => List.filter (fun n => p n && bool_decide (key n = i)) ns) <$> l));
      [|by constructor].
    rewrite <- (concat_cons_at n (key n) _ l Hnd) by (by apply Hkey; [left|]).
    apply reflexive_eq. f_equal. apply list_fmap_ext. intros _ i _. by case_decide; case_bool_decide.
Qed.

Lemma sorted_concat {A} (key : A -> nat) (rank : nat -> nat) (f : nat -> list A) l :
  StronglySorted (fun i j => rank i < rank j) l -> (forall i x, i ∈ l -> x ∈ f i -> key x = i) ->
  StronglySorted (fun x y => rank (key x) <= rank (key y)) (concat (f <$> l)).
Proof.
  induction 1 as [|i l Hl IH Hi]; intros Hkey; csimpl; [constructor|].
  assert (forall x, x ∈ f i -> key x = i) as Hk by (intros; eapply Hkey; [left|done]).
  assert (Forall (fun y => rank i <= rank (key y)) (concat (f <$> l))) as Hrest.
  { apply Forall_forall. intros y Hy. apply elem_of_concat in Hy as (ys & Hys & Hy).
    apply list_elem_of_fmap in Hys as (j & -> & Hj). rewrite (Hkey j y) by (done || by right).
    rewrite Forall_forall in Hi. specialize (Hi j Hj). lia. }
  specialize (IH (fun j x Hj => Hkey j x (proj2 (elem_of_cons _ _ _) (or_intror Hj)))).
  clear Hkey. revert Hk. induction (f i) as [|x xs IHx]; intros Hk; simpl; [done|].
  constructor; [apply IHx; intros; apply Hk; by right|]. apply Forall_app. split.
  - apply Forall_forall. intros y Hy. by rewrite (Hk x), (Hk y) by (by left || by right).
  - eapply Forall_impl; [exact Hrest|]. intros y Hy. simpl. by rewrite (Hk x) by left.
Qed.

(** ** All pingable nodes, once, by distance *)

Definition all_pingable (t : RoutingTable) : list Node :=
  concat ((fun b => good_node_filter now (nodes b)) <$> buckets t).

Lemma is_good_node_status n : is_good_node now n = true <-> status now n <> Bad.
Proof. unfold is_good_node. by destruct (status now n). Qed.

Lemma filter_elem {A} (f : A -> bool) l x : x ∈ List.filter f l <-> f x = true /\ x ∈ l.
Proof. rewrite !list_elem_of_In, List.filter_In. tauto. Qed.

(** The sorted buckets and the assorted nodes an iterator starts with. *)
Definition sorted_part (t : RoutingTable) : list Bucket :=
  if decide (length (buckets t) = MAX_BUCKETS) then buckets t
  else take (length (buckets t) - 1) (buckets t).

Definition assorted_part (t : RoutingTable) : list Node :=
  if decide (length (buckets t) = MAX_BUCKETS) then []
  else default [] (nodes <$> (buckets t !! (length (buckets t) - 1))).

Definition shares (t : RoutingTable) (i : nat) : list Node :=
  default [] ((fun b => good_node_filter now (nodes b)) <$> (sorted_part t !! i)) ++
  List.filter (fun n => is_good_node now n &&
    bool_decide (leading_bit_count (rt_node_id t) (node_id n) = i)) (assorted_part t).

Lemma new_spec t id :
  table_inv t -> exists an,
  ClosestNodes_new now (buckets t) (rt_node_id t) id =
    Ok (mk_ClosestNodes (buckets t) (bucket_iterator now (buckets t) (leading_bit_count (rt_node_id t) id))
          (leading_bit_count (rt_node_id t) id) (leading_bit_count (rt_node_id t) id) an) /\
  forall i, share (buckets t) an i = shares t i.
Proof.
  intros Ht. pose proof (ti_len _ Ht) as Hl. unfold ClosestNodes_new, share, shares, sorted_part, assorted_part.
  unfold bucket_iterator. destruct (decide (length (buckets t) = MAX_BUCKETS)) as [E|E].
  - exists None. unfold precompute_assorted_nodes. rewrite decide_True by done. done.
  - destruct (lookup_lt_is_Some_2 (buckets t) (length (buckets t) - 1)) as [b Hb]; [lia|].
    exists (Some (assorted_of (rt_node_id t) <$> nodes b)). rewrite (precompute_spec _ _ b E Hb).
    2:{ apply (bucket_len _ (ti_buckets _ Ht _ _ Hb)). }
    split; [done|]. intros i. simpl. rewrite pending_assorted, Hb. done.
Qed.

Lemma sorted_part_length t : table_inv t -> length (sorted_part t) <= MAX_BUCKETS.
Proof.
  intros Ht. pose proof (ti_len _ Ht). unfold sorted_part. case_decide; rewrite ?length_take; lia.
Qed.

Lemma all_pingable_parts t :
  table_inv t ->
  all_pingable t = concat ((fun b => good_node_filter now (nodes b)) <$> sorted_part t) ++
                   List.filter (is_good_node now) (assorted_part t).
Proof.
  intros Ht. pose proof (ti_len _ Ht) as Hl. unfold all_pingable, sorted_part, assorted_part.
  case_decide as E; [by rewrite app_nil_r|].
  destruct (lookup_lt_is_Some_2 (buckets t) (length (buckets t) - 1)) as [b Hb]; [lia|].
  rewrite Hb. simpl. rewrite <- (take_drop_middle _ _ _ Hb) at 1.
  rewrite (drop_ge (buckets t)) by lia. rewrite fmap_app, concat_app. csimpl. by rewrite app_nil_r.
Qed.

Lemma assorted_bits t n :
  table_inv t -> n ∈ assorted_part t -> is_good_node now n = true ->
  leading_bit_count (rt_node_id t) (node_id n) < MAX_BUCKETS.
Proof.
  intros Ht Hn Hg%is_good_node_status. unfold assorted_part in Hn.
  case_decide; [by apply not_elem_of_nil in Hn|].
  destruct (buckets t !! _) as [b|] eqn:Hb; [|by apply not_elem_of_nil in Hn]. simpl in Hn.
  destruct (ti_placed _ Ht _ _ _ Hb Hn (status_responded _ _ Hg)) as (Hw & Hne & _).
  by apply storable_bits with (now := now).
Qed.

Lemma shares_key t i n :
  table_inv t -> n ∈ shares t i -> leading_bit_count (rt_node_id t) (node_id n) = i.
Proof.
  intros Ht [Hn|Hn]%elem_of_app.
  - destruct (sorted_part t !! i) as [b|] eqn:Hb; [|by apply not_elem_of_nil in Hn]. simpl in Hn.
    apply filter_elem in Hn as [Hg%is_good_node_status Hn]. pose proof (ti_len _ Ht) as Hl.
    unfold sorted_part in Hb.
    destruct (decide (length (buckets t) = MAX_BUCKETS)) as [E|E].
    + destruct (ti_placed _ Ht _ _ _ Hb Hn (status_responded _ _ Hg)) as (Hw & Hne & Hp).
      pose proof (storable_bits now t n Ht ltac:(done)) as Hlt. unfold bucket_placement in Hp.
      rewrite E in Hp. by rewrite decide_False in Hp by lia.
    + apply lookup_take_Some in Hb as [Hb Hi].
      destruct (ti_placed _ Ht _ _ _ Hb Hn (status_responded _ _ Hg)) as (_ & _ & Hp).
      by apply bucket_placement_inner in Hp.
  - apply filter_elem in Hn as [Hk _]. apply andb_true_iff in Hk as [_ Hk].
    by apply bool_decide_eq_true in Hk.
Qed.

Lemma shares_perm t (order : list nat) start :
  table_inv t -> start <= MAX_BUCKETS ->
  order ≡ₚ (if decide (start < MAX_BUCKETS) then seq 0 MAX_BUCKETS else start :: seq 0 MAX_BUCKETS) ->
  concat (shares t <$> order) ≡ₚ all_pingable t.
Proof.
  intros Ht Hs Hp. rewrite all_pingable_parts by done.
  transitivity (concat (shares t <$> seq 0 MAX_BUCKETS)).
  - rewrite (fmap_Permutation (shares t) _ _ Hp). case_decide; [done|]. csimpl.
    replace (shares t start) with (@nil Node); [done|]. symmetry.
    destruct (shares t start) as [|n l] eqn:E; [done|]. exfalso.
    assert (n ∈ shares t start) as Hn by (rewrite E; left). unfold shares in Hn.
    rewrite lookup_ge_None_2 in Hn by (pose proof (sorted_part_length t Ht); lia). simpl in Hn.
    apply filter_elem in Hn as [[Hg Hk%bool_decide_eq_true]%andb_true_iff Hn].
    pose proof (assorted_bits t n Ht Hn Hg). lia.
  - unfold shares. rewrite concat_app_perm. rewrite concat_lookup_seq by (by apply sorted_part_length).
    apply Permutation_app_head. apply concat_by_key; [apply NoDup_seq|].
    intros n Hn Hg. apply elem_of_seq. pose proof (assorted_bits t n Ht Hn Hg). lia.
Qed.

Lemma all_pingable_length t :
  table_inv t -> length (all_pingable t) <= MAX_BUCKETS * MAX_BUCKET_SIZE.
Proof.
  intros Ht. pose proof (ti_len _ Ht) as Hl.
  assert (length (all_pingable t) <= length (buckets t) * MAX_BUCKET_SIZE).
  { unfold all_pingable. assert (forall b, b ∈ buckets t -> length (nodes b) = MAX_BUCKET_SIZE) as Hb.
    { intros b (i & Hi)%list_elem_of_lookup. apply (bucket_len _ (ti_buckets _ Ht _ _ Hi)). }
    revert Hb. generalize (buckets t). intros bs Hb. induction bs as [|b bs IH]; csimpl; [lia|].
    rewrite length_app. specialize (Hb b ltac:(left)) as Hb0.
    pose proof (List.filter_length_le (is_good_node now) (nodes b)).
    assert (length (concat ((fun b => good_node_filter now (nodes b)) <$> bs)) <= length bs * MAX_BUCKET_SIZE)
      by (apply IH; intros; apply Hb; by right).
    unfold good_node_filter, MAX_BUCKET_SIZE in *. lia. }
  nia.
Qed.

Lemma closest_nodes_ok t id :
  table_inv t -> sha_wf id ->
  exists l, closest_nodes now t id = Ok l /\ l ≡ₚ all_pingable t /\
    StronglySorted (fun a b =>
      visit_rank (leading_bit_count (rt_node_id t) id) (leading_bit_count (rt_node_id t) (node_id a)) <=
      visit_rank (leading_bit_count (rt_node_id t) id) (leading_bit_count (rt_node_id t) (node_id b))) l.
Proof.
  intros Ht Hid. set (start := leading_bit_count (rt_node_id t) id).
  destruct (leading_bit_count_spec _ _ (ti_id _ Ht) Hid) as (_ & Hstart & _). fold start in Hstart.
  destruct (visits_exists MAX_BUCKETS start start Hstart Hstart) as (vs & Hv & Hin & Hso).
  pose proof (sorted_rank_NoDup _ _ Hso) as Hnd.
  pose proof (visits_all MAX_BUCKETS start vs Hin Hnd) as Hperm.
  destruct (new_spec t id Ht) as (an & Hnew & Hshare). fold start in Hnew.
  exists (concat (shares t <$> start :: vs)). split_and!.
  - unfold closest_nodes. rewrite Hnew. cbn [mbind outcome_bind].
    set (it := mk_ClosestNodes _ _ _ _ _).
    assert (remaining it vs = concat (shares t <$> start :: vs)) as Hrem.
    { unfold remaining. simpl current_iter. cbn [cn_buckets assorted_nodes current_index it].
      csimpl. rewrite <- Hshare. unfold share at 2. rewrite <- app_assoc. do 3 f_equal.
      apply list_fmap_ext. intros. apply Hshare. }
    rewrite <- Hrem. apply ClosestNodes_collect_spec; [by split|..].
    + pose proof (Permutation_length Hperm) as Hlen.
      destruct (decide (start < MAX_BUCKETS)); rewrite ?length_cons, length_seq in Hlen; lia.
    + rewrite Hrem, (Permutation_length (shares_perm t _ start Ht Hstart Hperm)).
      pose proof (all_pingable_length t Ht). lia.
  - by apply shares_perm with start.
  - apply (sorted_concat (fun n => leading_bit_count (rt_node_id t) (node_id n))); [done|].
    intros i x _ Hx. by apply shares_key.
Qed.
End closest.

(** ** Properties *)

(** C37. The closest-node iterator is complete: on any table satisfying its
    invariant it ends, yields exactly the pingable nodes of the table, that is the
    good and the questionable ones, each once, and orders them by the distance of
    their bucket to the bucket of the target, going right before left.  The
    documentation of [closest_nodes] speaks of good nodes only. *)
Theorem closest_nodes_complete `{Chrono} (now : DateTime) (t : RoutingTable) (id : ShaHash) :
  table_inv t -> sha_wf id ->
  exists l, closest_nodes now t id = Ok l /\ l ≡ₚ all_pingable now t /\
    StronglySorted (fun a b =>
      visit_rank (leading_bit_count (rt_node_id t) id) (leading_bit_count (rt_node_id t) (node_id a)) <=
      visit_rank (leading_bit_count (rt_node_id t) id) (leading_bit_count (rt_node_id t) (node_id b))) l.
Proof. apply closest_nodes_ok. Qed.

(** Nodes added one after the other keep the table in order. *)
Fixpoint add_nodes `{Chrono} (now : DateTime) (t : RoutingTable) (l : list Node) : outcome Empty_set RoutingTable :=
  match l with
  | [] => Ok t
  | n :: l => t ← RoutingTable_add_node now t n; add_nodes now t l
  end.

Lemma add_nodes_inv `{Chrono} (now : DateTime) l : Forall (fun n => sha_wf (node_id n)) l -> forall t, table_inv t -> exists t', add_nodes now t l = Ok t' /\ table_inv t'.
Proof.
  induction 1 as [|n l Hn _ IH]; intros t Ht; [by exists t|]. destruct (RoutingTable_add_spec now t n Ht Hn) as (t1 & He & Hext & _).
  destruct (IH t1) as (t2 & He2 & Ht2); [apply Hext|]. exists t2. cbn [add_nodes]. by rewrite He.
Qed.

(** Nine good nodes far away, of which a bucket holds eight, and a good and a
    questionable one nearby. *)
Definition sample_node (now : Z) (b : byte) : Node (H := Chrono_Z) :=
  mk_Node (H := Chrono_Z) (mk_ShaHash (b :: replicate 19 x00)) (SockV4 (mk_SocketAddrV4 (mk_Ipv4Addr x0a x00 x00 b) 80)) None (Some now) 0.
Definition sample_nodes : list (Node (H := Chrono_Z)) :=
  (sample_node 0 <$> [x80; x81; x82; x83; x84; x85; x86; x87; x88; x02]) ++ [sample_node (- minutes MAX_LAST_SEEN_MINS) x03].
Definition sample_table : RoutingTable (H := Chrono_Z) :=
  match add_nodes (H := Chrono_Z) 0%Z (RoutingTable_new (mk_ShaHash (replicate 20 x01))) sample_nodes with Ok t => t | _ => RoutingTable_new (mk_ShaHash (replicate 20 x01)) end.

Lemma sample_table_inv : table_inv sample_table.
Proof.
  unfold sample_table. destruct (add_nodes_inv (H := Chrono_Z) 0%Z sample_nodes) with (t := RoutingTable_new (H := Chrono_Z) (mk_ShaHash (replicate 20 x01))) as (t & -> & Ht); [| |exact Ht].
  - apply Forall_forall. intros n Hn. unfold sample_nodes in Hn. apply elem_of_app in Hn as [(b & -> & _)%list_elem_of_fmap| ->%list_elem_of_singleton]; reflexivity.
  - apply RoutingTable_new_inv. reflexivity.
Qed.

Lemma closest_nodes_complete_witness :
  exists l, closest_nodes (H := Chrono_Z) 0%Z sample_table (mk_ShaHash (x03 :: replicate 19 xff)) = Ok l /\
    l ≡ₚ all_pingable (H := Chrono_Z) 0%Z sample_table /\
    (status (H := Chrono_Z) 0%Z <$> all_pingable (H := Chrono_Z) 0%Z sample_table) = replicate 9 Good ++ [Questionable] /\ length (buckets sample_table) = 2.
Proof.
  destruct (closest_nodes_complete (H := Chrono_Z) 0%Z sample_table (mk_ShaHash (x03 :: replicate 19 xff)) sample_table_inv) as (l & H1 & H2 & _); [reflexivity|].
  exists l. split; [exact H1|]. split; [exact H2|]. split; vm_compute; reflexivity.
Defined.
