(* ===== verification/Storage.v ===== *)
(** * [bip_dht::storage]: announced peers and their expiration

    The store keeps, per info hash, the contacts announced in the last 24 hours,
    at most 500 in total, with a second list ordered by announce time.  The
    abstract view is a finite map from (hash, address) to the last announce time;
    the refinement theorem relates the two.  [add] receives the two clock
    readings of the source: the one it prunes with and the one of the new item. *)

From stdpp Require Import prelude list gmap strings fin_maps.
From Stdlib Require Import ZArith Lia Strings.Byte Sorting.Sorted.
From S2P Require Import Prelude Bytes Convert Sha Node.

Definition MAX_ITEMS_STORED : nat := 500.
Definition EXPIRATION_TIME_HOURS : Z := 24.
Definition hours (h : Z) : Z := (h * 60 * 60 * 1000)%Z.

Section storage.
Context `{Chrono}.

Record ItemExpiration : Type := mk_ItemExpiration {
  address : SocketAddr;
  inserted : DateTime;
  info_hash : ShaHash;
}.

Definition ItemExpiration_new (now : DateTime) (info_hash : ShaHash) (address : SocketAddr) :
    ItemExpiration := mk_ItemExpiration address now info_hash.

Definition is_expired (self : ItemExpiration) (now : DateTime) : bool :=
  (hours EXPIRATION_TIME_HOURS <=? dt_sub now (inserted self))%Z.

(** Equality ignores the time. *)
Definition expiration_eqb (a b : ItemExpiration) : bool :=
  bool_decide (address a = address b) && bool_decide (info_hash a = info_hash b).

Record AnnounceItem : Type := mk_AnnounceItem { expiration : ItemExpiration }.

Definition AnnounceItem_new (now : DateTime) (info_hash : ShaHash) (address : SocketAddr) :
    AnnounceItem := mk_AnnounceItem (ItemExpiration_new now info_hash address).

Definition item_eqb (a b : AnnounceItem) : bool := expiration_eqb (expiration a) (expiration b).

Record AnnounceStorage : Type := mk_AnnounceStorage {
  storage : gmap ShaHash (list AnnounceItem);
  expires : list ItemExpiration;
}.

Definition AnnounceStorage_new : AnnounceStorage := mk_AnnounceStorage ∅ [].

Definition insert_contact (self : AnnounceStorage) (item : AnnounceItem) :
    option bool * AnnounceStorage :=
  let item_info_hash := info_hash (expiration item) in
  let already_in_list :=
    match storage self !! item_info_hash with
    | Some items => existsb (fun a => item_eqb a item) items
    | None => false
    end in
  match already_in_list, bool_decide (length (expires self) < MAX_ITEMS_STORED) with
  | false, true =>
      let storage :=
        match storage self !! item_info_hash with
        | Some items => <[item_info_hash := items ++ [item]]> (storage self)
        | None => <[item_info_hash := [item]]> (storage self)
        end in
      (Some false, mk_AnnounceStorage storage (expires self))
  | false, false => (None, self)
  | true, _ => (Some true, self)
  end.

(** One drained expiration. *)
Definition remove_item (storage : gmap ShaHash (list AnnounceItem)) (item_expiration : ItemExpiration) :
    gmap ShaHash (list AnnounceItem) :=
  let info_hash := info_hash item_expiration in
  match storage !! info_hash with
  | Some items =>
      let items := List.filter (fun a => negb (expiration_eqb (expiration a) item_expiration)) items in
      if decide (items = []) then delete info_hash storage else <[info_hash := items]> storage
  | None => storage
  end.

Definition remove_expired_items (self : AnnounceStorage) (curr_time : DateTime) : AnnounceStorage :=
  let num_expired_items := length (take_while (fun i => is_expired i curr_time) (expires self)) in
  mk_AnnounceStorage
    (foldl remove_item (storage self) (take num_expired_items (expires self)))
    (drop num_expired_items (expires self)).

Definition add (self : AnnounceStorage) (info_hash : ShaHash) (address : SocketAddr)
    (curr_time item_time : DateTime) : bool * AnnounceStorage :=
  let self := remove_expired_items self curr_time in
  let item := AnnounceItem_new item_time info_hash address in
  let item_expiration := expiration item in
  let '(r, self) := insert_contact self item in
  match r with
  | Some true =>
      let expires := List.filter (fun i => negb (expiration_eqb i item_expiration)) (expires self) in
      (true, mk_AnnounceStorage (storage self) (expires ++ [item_expiration]))
  | Some false => (true, mk_AnnounceStorage (storage self) (expires self ++ [item_expiration]))
  | None => (false, self)
  end.

(** The addresses handed to the closure. *)
Definition find (self : AnnounceStorage) (info_hash : ShaHash) (curr_time : DateTime) :
    list SocketAddr * AnnounceStorage :=
  let self := remove_expired_items self curr_time in
  match storage self !! info_hash with
  | Some items => ((fun item => address (expiration item)) <$> items, self)
  | None => ([], self)
  end.

(** ** Abstract view *)

Abbreviation announces := (gmap (ShaHash * SocketAddr) DateTime).

Definition live (now : DateTime) (t : DateTime) : Prop :=
  (dt_sub now t < hours EXPIRATION_TIME_HOURS)%Z.

#[export] Instance live_dec now t : Decision (live now t).
Proof. unfold live. apply _. Defined.

Definition prune (now : DateTime) (m : announces) : announces := filter (fun p => live now p.2) m.

Definition spec_add (now item_time : DateTime) (h : ShaHash) (a : SocketAddr) (m : announces) :
    bool * announces :=
  let m := prune now m in
  if decide (is_Some (m !! (h, a)) \/ size m < MAX_ITEMS_STORED) then (true, <[(h, a) := item_time]> m)
  else (false, m).

(** ** Relation *)

Definition key (e : ItemExpiration) : ShaHash * SocketAddr := (info_hash e, address e).

Definition contact (st : gmap ShaHash (list AnnounceItem)) (k : ShaHash * SocketAddr) : Prop :=
  exists items it, st !! k.1 = Some items /\ it ∈ items /\ key (expiration it) = k.

Record storage_wf (st : gmap ShaHash (list AnnounceItem)) : Prop := {
  sw_items : forall h items, st !! h = Some items ->
    items <> [] /\ NoDup ((fun it => key (expiration it)) <$> items) /\
    Forall (fun it => info_hash (expiration it) = h) items;
}.

(** The concrete store [s] represents the announces [m]. *)
Record represents (s : AnnounceStorage) (m : announces) : Prop := {
  rep_wf : storage_wf (storage s);
  rep_keys : NoDup (key <$> expires s);
  rep_map : forall k t, m !! k = Some t <-> exists e, e ∈ expires s /\ key e = k /\ inserted e = t;
  rep_contacts : forall k, contact (storage s) k <-> k ∈ key <$> expires s;
  rep_order : StronglySorted (fun a b => (0 <= dt_sub (inserted b) (inserted a))%Z) (expires s);
  rep_size : length (expires s) <= MAX_ITEMS_STORED;
}.

(** ** Lemmas *)

Lemma expiration_eqb_spec a b : expiration_eqb a b = true <-> key a = key b.
Proof.
  unfold expiration_eqb, key. rewrite andb_true_iff, !bool_decide_eq_true.
  split; [by intros [-> ->]|]. intros Hk. injection Hk as H1 H2. by split.
Qed.

Lemma filter_key_elem {A} (f : A -> ItemExpiration) e l x :
  x ∈ List.filter (fun a => negb (expiration_eqb (f a) e)) l <-> x ∈ l /\ key (f x) <> key e.
Proof.
  rewrite !list_elem_of_In, List.filter_In, negb_true_iff, <- not_true_iff_false, expiration_eqb_spec. done.
Qed.

Lemma filter_fmap_NoDup {A B} (f : A -> bool) (g : A -> B) l :
  NoDup (g <$> l) -> NoDup (g <$> List.filter f l).
Proof.
  induction l as [|x l IH]; csimpl; [done|]. intros [Hx Hl]%NoDup_cons.
  destruct (f x); csimpl; [|auto]. constructor; [|auto]. intros Hin. apply Hx.
  apply list_elem_of_fmap in Hin as (y & -> & Hy). apply list_elem_of_fmap. exists y. split; [done|].
  rewrite list_elem_of_In, List.filter_In in Hy. apply list_elem_of_In, Hy.
Qed.

Lemma contact_at st k items : st !! k.1 = Some items ->
  contact st k <-> exists it, it ∈ items /\ key (expiration it) = k.
Proof.
  intros Hi. unfold contact. rewrite Hi. split; [intros (? & it & [= <-] & ?); eauto|].
  intros (it & ? & ?). eauto.
Qed.

Lemma remove_item_spec st e :
  storage_wf st ->
  storage_wf (remove_item st e) /\ forall k, contact (remove_item st e) k <-> contact st k /\ k <> key e.
Proof.
  intros Hwf. unfold remove_item. destruct (st !! info_hash e) as [items|] eqn:Hi.
  2:{ split; [done|]. intros k. split; [|by intros [? _]]. intros Hc. split; [done|]. intros ->.
      destruct Hc as (its & it & Hs & _). simpl in Hs. congruence. }
  destruct (sw_items _ Hwf _ _ Hi) as (_ & Hnd & Hall).
  set (items' := List.filter _ items).
  assert (forall x, x ∈ items' <-> x ∈ items /\ key (expiration x) <> key e) as Hin
    by (intros; apply filter_key_elem).
  assert (forall k, k.1 <> info_hash e -> k <> key e) as Hne by (intros k Hk Heq; apply Hk; by rewrite Heq).
  case_decide as Hemp.
  - split; [split; intros h its Hh; apply lookup_delete_Some in Hh as [_ Hh]; by apply Hwf|].
    intros k. destruct (decide (k.1 = info_hash e)) as [Hk|Hk].
    + split.
      * intros (its & it & Hs & _). rewrite Hk, lookup_delete_eq in Hs. done.
      * intros [Hc Hkne]. exfalso. rewrite <- Hk in Hi. apply (contact_at _ _ _ Hi) in Hc as (it & Hit & Hkey).
        assert (it ∈ items') as Hc by (apply Hin; split; [done|congruence]). rewrite Hemp in Hc.
        by apply not_elem_of_nil in Hc.
    + unfold contact. rewrite lookup_delete_ne by auto. split; [intros Hc; auto|by intros [? _]].
  - split.
    + split. intros h its Hh. apply lookup_insert_Some in Hh as [[<- <-]|[_ Hh]]; [|by apply Hwf].
      split_and!; [done|by apply filter_fmap_NoDup|]. apply Forall_forall. intros x [Hx _]%Hin.
      rewrite Forall_forall in Hall. by apply Hall.
    + intros k. destruct (decide (k.1 = info_hash e)) as [Hk|Hk].
      * rewrite (contact_at (<[_ := _]> st) k items') by (rewrite Hk; apply lookup_insert_eq).
        rewrite <- Hk in Hi. rewrite (contact_at _ _ _ Hi). setoid_rewrite Hin. naive_solver.
      * unfold contact. rewrite lookup_insert_ne by auto. split; [intros Hc; auto|by intros [? _]].
Qed.

Lemma remove_items_spec st l :
  storage_wf st ->
  storage_wf (foldl remove_item st l) /\
  forall k, contact (foldl remove_item st l) k <-> contact st k /\ k ∉ key <$> l.
Proof.
  revert st. induction l as [|e l IH]; intros st Hwf; csimpl.
  - split; [done|]. intros k. split; [intros Hc; split; [done|apply not_elem_of_nil]|by intros [? _]].
  - destruct (remove_item_spec st e Hwf) as [Hwf1 Hc1]. destruct (IH _ Hwf1) as [Hwf2 Hc2].
    split; [done|]. intros k. rewrite Hc2, Hc1, not_elem_of_cons. tauto.
Qed.

Lemma take_length_take_while {A} (p : A -> bool) l : take (length (take_while p l)) l = take_while p l.
Proof. induction l as [|x l IH]; simpl; [done|]. destruct (p x); simpl; congruence. Qed.

Lemma drop_length_take_while {A} (p : A -> bool) l : drop (length (take_while p l)) l = drop_while p l.
Proof. induction l as [|x l IH]; simpl; [done|]. destruct (p x); simpl; congruence. Qed.

Lemma is_expired_live e now : is_expired e now = false <-> live now (inserted e).
Proof. unfold is_expired, live. rewrite Z.leb_gt. done. Qed.
End storage.

Section refine.
Context `{ChronoLaws}.

(** In announce order the expired items are exactly the front of the list. *)
Lemma drop_while_live now l :
  StronglySorted (fun a b => (0 <= dt_sub (inserted b) (inserted a))%Z) l ->
  forall e, e ∈ drop_while (fun i => is_expired i now) l <-> e ∈ l /\ live now (inserted e).
Proof.
  induction 1 as [|x l Hl IH Hx]; intros e; simpl.
  { split; [intros He; by apply not_elem_of_nil in He|intros [He _]; by apply not_elem_of_nil in He]. }
  destruct (is_expired x now) eqn:Ex.
  - rewrite IH, elem_of_cons. split; [tauto|]. intros [[->|Hin] Hlive]; [|done].
    apply is_expired_live in Hlive. congruence.
  - split; [|by intros [? _]]. intros He. split; [done|].
    apply is_expired_live in Ex. apply elem_of_cons in He as [->|He]; [done|].
    rewrite Forall_forall in Hx. specialize (Hx e He). unfold live in *.
    pose proof (dt_sub_trans now (inserted e) (inserted x)). lia.
Qed.

Lemma StronglySorted_drop_while {A} (R : A -> A -> Prop) p (l : list A) :
  StronglySorted R l -> StronglySorted R (drop_while p l).
Proof. induction 1; simpl; [constructor|]. destruct (p a); [done|by constructor]. Qed.

Lemma prune_spec (now : DateTime) (m : gmap (ShaHash * SocketAddr) DateTime) k t : prune now m !! k = Some t <-> m !! k = Some t /\ live now t.
Proof. unfold prune. by rewrite map_lookup_filter_Some. Qed.

Lemma represents_prune s m now :
  represents s m -> represents (remove_expired_items s now) (prune now m).
Proof.
  intros Hr. unfold remove_expired_items. rewrite take_length_take_while, drop_length_take_while.
  destruct (remove_items_spec (storage s) (take_while (fun i => is_expired i now) (expires s)) (rep_wf _ _ Hr))
    as [Hwf Hc].
  pose proof (rep_order _ _ Hr) as Hord. pose proof (rep_keys _ _ Hr) as Hnd.
  pose proof (take_drop_while (fun i => is_expired i now) (expires s)) as Htd.
  split; simpl.
  - done.
  - rewrite <- Htd, fmap_app in Hnd. by apply NoDup_app in Hnd as (_ & _ & ?).
  - intros k t. rewrite prune_spec, (rep_map _ _ Hr). setoid_rewrite (drop_while_live now _ Hord).
    split; [intros [(e & ? & ? & <-) ?]|intros (e & [? ?] & ? & <-)]; eauto 6.
  - intros k. rewrite Hc, (rep_contacts _ _ Hr). rewrite <- Htd at 1. rewrite fmap_app, elem_of_app.
    rewrite <- Htd, fmap_app in Hnd. apply NoDup_app in Hnd as (_ & Hdis & _).
    split; [tauto|]. intros Hin. split; [by right|]. intros Hin2. by apply (Hdis k).
  - by apply StronglySorted_drop_while.
  - pose proof (rep_size _ _ Hr) as Hs. rewrite <- Htd, length_app in Hs. lia.
Qed.

Lemma represents_size s m : represents s m -> size m = length (expires s).
Proof.
  intros Hr. set (l := (fun e => (key e, inserted e)) <$> expires s).
  assert (l.*1 = key <$> expires s) as Hl1
    by (unfold l; rewrite <- list_fmap_compose; done).
  assert (m = list_to_map l) as ->.
  { apply map_eq. intros k. apply option_eq. intros t. rewrite (rep_map _ _ Hr).
    rewrite <- elem_of_list_to_map by (rewrite Hl1; apply Hr). unfold l.
    rewrite list_elem_of_fmap. split; [intros (e & ? & <- & <-)|intros (e & [= -> ->] & ?)]; eauto. }
  rewrite map_size_list_to_map by (rewrite Hl1; apply Hr). unfold l. by rewrite length_fmap.
Qed.

Lemma existsb_contact s item items :
  storage s !! info_hash (expiration item) = Some items ->
  existsb (fun a => item_eqb a item) items = true <-> contact (storage s) (key (expiration item)).
Proof.
  intros Hi. rewrite (contact_at _ (key (expiration item)) items) by done.
  rewrite existsb_exists. split; intros (x & Hx & Heq); exists x;
    rewrite list_elem_of_In in *; split; try done; by apply expiration_eqb_spec.
Qed.

(** The three outcomes of [insert_contact] on a store that represents [m]. *)
Lemma insert_contact_spec s m item :
  represents s m ->
  (is_Some (m !! key (expiration item)) /\ insert_contact s item = (Some true, s)) \/
  (m !! key (expiration item) = None /\ length (expires s) >= MAX_ITEMS_STORED /\
     insert_contact s item = (None, s)) \/
  (m !! key (expiration item) = None /\ length (expires s) < MAX_ITEMS_STORED /\
     exists st, insert_contact s item = (Some false, mk_AnnounceStorage st (expires s)) /\
       storage_wf st /\
       forall k, contact st k <-> contact (storage s) k \/ k = key (expiration item)).
Proof.
  intros Hr. set (e := expiration item). unfold insert_contact. fold e.
  assert (is_Some (m !! key e) <-> contact (storage s) (key e)) as Hm.
  { rewrite (rep_contacts _ _ Hr), list_elem_of_fmap. split.
    - intros [t Ht]. apply (rep_map _ _ Hr) in Ht as (x & ? & ? & _). eauto.
    - intros (x & Hk & Hx). exists (inserted x). apply (rep_map _ _ Hr). eauto. }
  set (already := match storage s !! info_hash e with
                  | Some items => existsb (fun a => item_eqb a item) items | None => false end).
  assert (already = true <-> contact (storage s) (key e)) as Ha.
  { unfold already. destruct (storage s !! info_hash e) as [items|] eqn:Hi.
    - by apply existsb_contact.
    - split; [done|]. intros (its & it & Hs & _). simpl in Hs. congruence. }
  destruct already.
  { left. split; [by apply Hm, Ha|done]. }
  assert (m !! key e = None) as Hnone.
  { apply eq_None_not_Some. rewrite Hm, <- Ha. done. }
  assert (~ contact (storage s) (key e)) as Hnc by (by rewrite <- Ha).
  right. case_bool_decide as Hlen; [|left; auto with lia]. right. split_and!; [done|lia|].
  eexists. split; [done|]. destruct (storage s !! info_hash e) as [items|] eqn:Hi.
  - destruct (sw_items _ (rep_wf _ _ Hr) _ _ Hi) as (_ & Hnd & Hall). split.
    + split. intros h its Hh. apply lookup_insert_Some in Hh as [[<- <-]|[_ Hh]]; [|by apply Hr].
      split_and!; [by destruct items| |apply Forall_app; by repeat constructor].
      rewrite fmap_app. apply NoDup_app. split_and!; [done| |apply NoDup_singleton].
      intros k Hk Hk2. apply list_elem_of_singleton in Hk2 as ->. apply Hnc.
      apply (contact_at _ (key e) items Hi). apply list_elem_of_fmap in Hk as (x & Hx & Hin). eauto.
    + intros k. destruct (decide (k.1 = info_hash e)) as [Hk|Hk].
      * rewrite (contact_at (<[_ := _]> _) k (items ++ [item])) by (rewrite Hk; apply lookup_insert_eq).
        rewrite <- Hk in Hi. rewrite (contact_at _ _ _ Hi). setoid_rewrite elem_of_app.
        setoid_rewrite list_elem_of_singleton. unfold e. naive_solver.
      * unfold contact. rewrite lookup_insert_ne by auto. split; [auto|]. intros [?| ->]; done.
  - split.
    + split. intros h its Hh. apply lookup_insert_Some in Hh as [[<- <-]|[_ Hh]]; [|by apply Hr].
      split_and!; [done|apply NoDup_singleton|by repeat constructor].
    + intros k. destruct (decide (k.1 = info_hash e)) as [Hk|Hk].
      * rewrite (contact_at (<[_ := _]> _) k [item]) by (rewrite Hk; apply lookup_insert_eq).
        assert (~ contact (storage s) k) as Hnk by (intros (its & it & Hs & _); congruence).
        setoid_rewrite list_elem_of_singleton. unfold e. naive_solver.
      * unfold contact. rewrite lookup_insert_ne by auto. split; [auto|]. intros [?| ->]; done.
Qed.

Lemma sorted_snoc (l : list ItemExpiration) e :
  StronglySorted (fun a b => (0 <= dt_sub (inserted b) (inserted a))%Z) l ->
  Forall (fun a => (0 <= dt_sub (inserted e) (inserted a))%Z) l ->
  StronglySorted (fun a b => (0 <= dt_sub (inserted b) (inserted a))%Z) (l ++ [e]).
Proof.
  induction 1 as [|x l Hl IH Hx]; intros Hall; simpl; [by repeat constructor|].
  apply Forall_cons in Hall as [Hxe Hall]. constructor; [by apply IH|].
  apply Forall_app. by repeat constructor.
Qed.

Lemma sorted_filter (f : ItemExpiration -> bool) (l : list ItemExpiration) :
  StronglySorted (fun a b => (0 <= dt_sub (inserted b) (inserted a))%Z) l ->
  StronglySorted (fun a b => (0 <= dt_sub (inserted b) (inserted a))%Z) (List.filter f l).
Proof.
  induction 1 as [|x l Hl IH Hx]; simpl; [constructor|]. destruct (f x); [|done].
  constructor; [done|]. rewrite !Forall_forall in *. intros y Hy. apply Hx.
  rewrite list_elem_of_In, List.filter_In in Hy. apply list_elem_of_In, Hy.
Qed.

(** Moving a key to the end of the announce order. *)
Lemma represents_push s m st e (f : ItemExpiration -> bool) :
  represents s m ->
  (forall x, f x = true <-> key x <> key e) ->
  storage_wf st -> (forall k, contact st k <-> contact (storage s) k \/ k = key e) ->
  Forall (fun x => (0 <= dt_sub (inserted e) (inserted x))%Z) (expires s) ->
  length (List.filter f (expires s)) < MAX_ITEMS_STORED ->
  represents (mk_AnnounceStorage st (List.filter f (expires s) ++ [e])) (<[key e := inserted e]> m).
Proof.
  intros Hr Hf Hwf Hc Hall Hlen.
  assert (forall x, x ∈ List.filter f (expires s) <-> x ∈ expires s /\ key x <> key e) as Hin.
  { intros x. rewrite !list_elem_of_In, List.filter_In, Hf. done. }
  split; simpl.
  - done.
  - rewrite fmap_app. apply NoDup_app. split_and!; [apply filter_fmap_NoDup, Hr| |apply NoDup_singleton].
    intros k Hk Hk2. apply list_elem_of_singleton in Hk2 as ->.
    apply list_elem_of_fmap in Hk as (x & Hx & [_ Hne]%Hin). congruence.
  - intros k t. rewrite lookup_insert_Some, (rep_map _ _ Hr). setoid_rewrite elem_of_app.
    setoid_rewrite Hin. setoid_rewrite list_elem_of_singleton. split.
    + intros [[<- <-]|[Hne (x & Hx & <- & <-)]]; [exists e; auto|].
      exists x. split; [left; split; [done|congruence]|done].
    + intros (x & [[Hx Hne]| ->] & <- & <-); [right; split; [congruence|eauto]|by left].
  - intros k. rewrite Hc, (rep_contacts _ _ Hr), fmap_app, elem_of_app.
    change (key <$> [e]) with [key e]. rewrite list_elem_of_singleton, !list_elem_of_fmap.
    setoid_rewrite Hin.
    split; [|intros [(y & ? & ? & _)| ->]; eauto]. intros [(y & -> & Hy)| ->]; [|by right].
    destruct (decide (key y = key e)) as [->|Hne]; [by right|left; eauto].
  - apply sorted_snoc; [apply sorted_filter, Hr|]. rewrite !Forall_forall in *.
    intros x [Hx _]%Hin. by apply Hall.
  - rewrite length_app; simpl. lia.
Qed.

Lemma filter_true {A} (l : list A) : List.filter (fun _ => true) l = l.
Proof. induction l; simpl; congruence. Qed.

Lemma filter_key_absent s m e :
  represents s m -> m !! key e = None ->
  List.filter (fun i => negb (expiration_eqb i e)) (expires s) = expires s.
Proof.
  intros Hr Hn. rewrite <- (filter_true (expires s)) at 2. apply List.filter_ext_in. intros x Hx%list_elem_of_In.
  apply negb_true_iff, not_true_iff_false. rewrite expiration_eqb_spec. intros Hk.
  assert (m !! key e = Some (inserted x)) by (apply (rep_map _ _ Hr); eauto). congruence.
Qed.

Lemma filter_key_length s m e :
  represents s m -> is_Some (m !! key e) ->
  length (List.filter (fun i => negb (expiration_eqb i e)) (expires s)) < length (expires s).
Proof.
  intros Hr [t Ht]. apply (rep_map _ _ Hr) in Ht as (x & Hx & Hk & _).
  pose proof (List.filter_length (fun i => negb (expiration_eqb i e)) (expires s)) as Hl.
  cbn beta in Hl.
  assert (0 < length (List.filter (fun i => negb (negb (expiration_eqb i e))) (expires s))); [|lia].
  apply list_elem_of_In in Hx. destruct (List.filter (fun i => negb (negb _)) (expires s)) as [|y l] eqn:E; [|simpl; lia].
  assert (In x (List.filter (fun i => negb (negb (expiration_eqb i e))) (expires s))) as Hin.
  { apply List.filter_In. split; [done|]. rewrite negb_involutive. by apply expiration_eqb_spec. }
  rewrite E in Hin. done.
Qed.

Lemma drop_while_elem {A} (p : A -> bool) (l : list A) x : x ∈ drop_while p l -> x ∈ l.
Proof.
  intros Hx. rewrite <- (take_drop_while p l). apply elem_of_app. by right.
Qed.

Lemma add_refines s m h a now item_time :
  represents s m -> (forall e, e ∈ expires s -> (0 <= dt_sub item_time (inserted e))%Z) ->
  (add s h a now item_time).1 = (spec_add now item_time h a m).1 /\
  represents (add s h a now item_time).2 (spec_add now item_time h a m).2.
Proof.
  intros Hr Htime. pose proof (represents_prune s m now Hr) as Hp.
  unfold add, spec_add. set (s1 := remove_expired_items s now) in *. set (m1 := prune now m) in *.
  set (item := AnnounceItem_new item_time h a).
  assert (Forall (fun x => (0 <= dt_sub (inserted (expiration item)) (inserted x))%Z) (expires s1)) as Hall.
  { apply Forall_forall. intros x Hx. apply Htime. unfold s1, remove_expired_items in Hx. simpl in Hx.
    rewrite drop_length_take_while in Hx. by apply drop_while_elem in Hx. }
  assert (key (expiration item) = (h, a)) as Hkey by done.
  assert (forall x, negb (expiration_eqb x (expiration item)) = true <-> key x <> key (expiration item)) as Hf
    by (intros x; rewrite negb_true_iff, <- not_true_iff_false, expiration_eqb_spec; done).
  pose proof (represents_size _ _ Hp) as Hsz. pose proof (rep_size _ _ Hp) as Hmax. clearbody s1 m1.
  destruct (insert_contact_spec s1 m1 item Hp) as [[Hs ->]|[(Hn & Hlen & ->)|(Hn & Hlen & st & -> & Hwf & Hc)]];
    rewrite Hkey in *.
  - rewrite decide_True by auto. split; [done|]. simpl.
    apply (represents_push s1 m1 (storage s1) (expiration item)); [done|done|apply Hp| |done|].
    + intros k. split; [auto|]. intros [?| ->]; [done|]. apply (rep_contacts _ _ Hp).
      destruct Hs as [t Ht]. apply (rep_map _ _ Hp) in Ht as (x & ? & Hk & _).
      rewrite Hkey, <- Hk. by apply list_elem_of_fmap_2.
    + eapply Nat.lt_le_trans; [exact (filter_key_length s1 m1 (expiration item) Hp Hs)|done].
  - rewrite decide_False; [done|]. rewrite Hn, Hsz. intros [[? ?]|?]; [done|lia].
  - rewrite decide_True by (rewrite Hsz; auto). split; [done|]. simpl.
    rewrite <- (filter_key_absent s1 m1 (expiration item) Hp Hn).
    apply (represents_push s1 m1 st (expiration item)); [done..|].
    rewrite (filter_key_absent s1 m1 (expiration item) Hp Hn). done.
Qed.

Lemma find_refines s m h now :
  represents s m ->
  represents (find s h now).2 (prune now m) /\ NoDup (find s h now).1 /\
  forall a, a ∈ (find s h now).1 <-> is_Some (prune now m !! (h, a)).
Proof.
  intros Hr. pose proof (represents_prune s m now Hr) as Hp. unfold find.
  set (s1 := remove_expired_items s now) in *.
  assert (forall a, is_Some (prune now m !! (h, a)) <-> contact (storage s1) (h, a)) as Hm.
  { intros a. rewrite (rep_contacts _ _ Hp), list_elem_of_fmap. split.
    - intros [t Ht]. apply (rep_map _ _ Hp) in Ht as (x & ? & ? & _). eauto.
    - intros (x & Hk & Hx). exists (inserted x). apply (rep_map _ _ Hp). eauto. }
  clearbody s1. destruct (storage s1 !! h) as [items|] eqn:Hi; simpl; (split; [done|]).
  - destruct (sw_items _ (rep_wf _ _ Hp) _ _ Hi) as (_ & Hnd & Hall). split.
    + rewrite Forall_forall in Hall. clear Hm Hi. induction items as [|x l IH]; csimpl in *; [constructor|].
      apply NoDup_cons in Hnd as [Hx Hnd]. constructor; [|apply IH; [done|intros y Hy; apply Hall; by right]].
      intros Hin. apply Hx. apply list_elem_of_fmap in Hin as (y & Hy & Hyl). apply list_elem_of_fmap.
      exists y. split; [|done]. unfold key. rewrite (Hall y) by (by right). rewrite (Hall x) by left. congruence.
    + intros a. rewrite Hm, (contact_at _ (h, a) items Hi), list_elem_of_fmap. rewrite Forall_forall in Hall. split.
      * intros (x & -> & Hx). exists x. split; [done|]. unfold key. by rewrite (Hall x Hx).
      * intros (x & Hx & [= ? ?]). exists x. done.
  - split; [constructor|]. intros a. rewrite Hm. split; [intros Ha; by apply not_elem_of_nil in Ha|].
    intros (its & it & Hs & _). simpl in Hs. congruence.
Qed.

Lemma AnnounceStorage_new_represents : represents AnnounceStorage_new ∅.
Proof.
  split; simpl; [split; intros h its Hh; done|constructor| | |constructor|lia].
  - intros k t. split; [done|]. intros (e & He & _). by apply not_elem_of_nil in He.
  - intros k. split; [intros (its & it & Hs & _); done|]. intros Hk. by apply not_elem_of_nil in Hk.
Qed.
End refine.

(** ** Properties *)

(** C38. The announce store refines a map from (info hash, address) to the
    last announce time: as long as the clock does not go back, adding prunes what
    is 24 hours old, then records the announce exactly when it renews a known one
    or fewer than 500 are left, and says which happened; looking up prunes the
    same way and reports exactly the live addresses of the hash, each once. *)
Theorem announce_storage_refines `{ChronoLaws} (s : AnnounceStorage)
    (m : gmap (ShaHash * SocketAddr) DateTime) (h : ShaHash) (a : SocketAddr)
    (now item_time : DateTime) :
  represents s m -> (forall e, e ∈ expires s -> (0 <= dt_sub item_time (inserted e))%Z) ->
  ((add s h a now item_time).1 = (spec_add now item_time h a m).1 /\
   represents (add s h a now item_time).2 (spec_add now item_time h a m).2) /\
  (represents (find s h now).2 (prune now m) /\ NoDup (find s h now).1 /\
   forall b, b ∈ (find s h now).1 <-> is_Some (prune now m !! (h, b))).
Proof.
  intros Hr Ht. split; [by apply add_refines|by apply find_refines].
Qed.

Lemma announce_storage_refines_witness :
  let h := mk_ShaHash (replicate 20 x01) in
  let a := SockV4 (mk_SocketAddrV4 (mk_Ipv4Addr x0a x00 x00 x01) 80) in
  (add (H := Chrono_Z) AnnounceStorage_new h a 0%Z 1%Z).1 = true /\
  represents (H := Chrono_Z) (add (H := Chrono_Z) AnnounceStorage_new h a 0%Z 1%Z).2
    (spec_add (H := Chrono_Z) 0%Z 1%Z h a ∅).2.
Proof.
  intros h a. split; [vm_compute; reflexivity|].
  apply (announce_storage_refines (H := Chrono_Z) (H0 := Chrono_Z_laws) AnnounceStorage_new ∅ h a 0%Z 1%Z).
  - apply AnnounceStorage_new_represents.
  - intros e He. by apply not_elem_of_nil in He.
Defined.
