(* ===== verification/Token.v ===== *)
(** * [bip_dht::token]: announce tokens

    A token is the hash of an address and a secret; the store keeps the current
    and the last secret and replaces them lazily.  Every call reads the clock
    twice (to count the passed intervals and to stamp a refresh) and may draw two
    random secrets; all four are arguments. *)

From stdpp Require Import prelude list gmap strings.
From Stdlib Require Import ZArith Lia Strings.Byte.
From S2P Require Import Prelude Bytes Convert Sha Node.

Definition REFRESH_INTERVAL_MINS : Z := 10.
Definition IPV4_SECRET_BUFFER_LEN : nat := 4 + 4.
Definition IPV6_SECRET_BUFFER_LEN : nat := 16 + 4.

(** [Duration::num_minutes]: whole minutes, rounded towards zero. *)
Definition num_minutes (d : Z) : Z := Z.quot d (60 * 1000).

Record Token : Type := mk_Token { token : bytes }.

#[export] Instance Token_eq_dec : EqDecision Token.
Proof. solve_decision. Defined.

Definition Token_new (bs : bytes) : outcome LengthError Token :=
  if decide (length bs <> SHA_HASH_LEN) then Err (LengthError_new LengthExpected SHA_HASH_LEN)
  else Ok (mk_Token (copy_over bs (replicate SHA_HASH_LEN x00))).

Section token.
Context {CH : Chrono} {SH : Sha1}.

Record TokenStore : Type := mk_TokenStore {
  curr_secret : Z;
  last_secret : Z;
  last_refresh : DateTime;
}.

Definition TokenStore_new (now : DateTime) (r1 r2 : Z) : TokenStore := mk_TokenStore r1 r2 now.

Definition generate_token_from_addr_v4 (v4_addr : Ipv4Addr) (secret : Z) : Token :=
  let buffer := replicate IPV4_SECRET_BUFFER_LEN x00 in
  let v4_bytes := ipv4_to_bytes_be v4_addr in
  let secret_bytes := four_bytes_to_array secret in
  let buffer := copy_over (v4_bytes ++ secret_bytes) buffer in
  mk_Token (sha_hash (from_bytes buffer)).

Definition generate_token_from_addr_v6 (v6_addr : Ipv6Addr) (secret : Z) : Token :=
  let buffer := replicate IPV6_SECRET_BUFFER_LEN x00 in
  let v6_bytes := ipv6_to_bytes_be v6_addr in
  let secret_bytes := four_bytes_to_array secret in
  let buffer := copy_over (v6_bytes ++ secret_bytes) buffer in
  mk_Token (sha_hash (from_bytes buffer)).

Definition generate_token_from_addr (addr : IpAddr) (secret : Z) : Token :=
  match addr with
  | IpV4 v4 => generate_token_from_addr_v4 v4 secret
  | IpV6 v6 => generate_token_from_addr_v6 v6 secret
  end.

Definition validate_token_from_addr_v4 (v4_addr : Ipv4Addr) (token : Token) (secret : Z) : bool :=
  bool_decide (generate_token_from_addr_v4 v4_addr secret = token).

Definition validate_token_from_addr_v6 (v6_addr : Ipv6Addr) (token : Token) (secret : Z) : bool :=
  bool_decide (generate_token_from_addr_v6 v6_addr secret = token).

Definition validate_token_from_addr (addr : IpAddr) (token : Token) (secret_one secret_two : Z) : bool :=
  match addr with
  | IpV4 v4 =>
      validate_token_from_addr_v4 v4 token secret_one || validate_token_from_addr_v4 v4 token secret_two
  | IpV6 v6 =>
      validate_token_from_addr_v6 v6 token secret_one || validate_token_from_addr_v6 v6 token secret_two
  end.

Definition intervals_passed (curr_time last_refresh : DateTime) : Z :=
  let refresh_duration := minutes REFRESH_INTERVAL_MINS in
  let diff_time := dt_sub curr_time last_refresh in
  Z.quot (num_minutes diff_time) (num_minutes refresh_duration).

(** The two clock readings and the two secrets a call may use. *)
Record draw : Type := mk_draw { now1 : DateTime; now2 : DateTime; rand1 : Z; rand2 : Z }.

Definition refresh_check (self : TokenStore) (d : draw) : TokenStore :=
  let n := intervals_passed (now1 d) (last_refresh self) in
  if decide (n = 0%Z) then self
  else if decide (n = 1%Z) then mk_TokenStore (rand1 d) (curr_secret self) (now2 d)
  else mk_TokenStore (rand2 d) (rand1 d) (now2 d).

Definition checkout (self : TokenStore) (addr : IpAddr) (d : draw) : Token * TokenStore :=
  let self := refresh_check self d in
  (generate_token_from_addr addr (curr_secret self), self).

Definition checkin (self : TokenStore) (addr : IpAddr) (token : Token) (d : draw) : bool * TokenStore :=
  let self := refresh_check self d in
  (validate_token_from_addr addr token (curr_secret self) (last_secret self), self).

(** ** Lemmas *)

Lemma validate_known addr c s1 s2 :
  c = s1 \/ c = s2 -> validate_token_from_addr addr (generate_token_from_addr addr c) s1 s2 = true.
Proof.
  unfold validate_token_from_addr, generate_token_from_addr, validate_token_from_addr_v4,
    validate_token_from_addr_v6.
  intros [-> | ->]; destruct addr; apply orb_true_iff; [left|left|right|right];
    by apply bool_decide_eq_true.
Qed.

Lemma intervals_spec curr last :
  (0 <= dt_sub curr last)%Z ->
  ((dt_sub curr last < minutes 10)%Z -> intervals_passed curr last = 0%Z) /\
  ((minutes 10 <= dt_sub curr last < minutes 20)%Z -> intervals_passed curr last = 1%Z) /\
  ((minutes 20 <= dt_sub curr last)%Z -> (2 <= intervals_passed curr last)%Z).
Proof.
  intros Hnn. unfold intervals_passed. change (num_minutes (minutes REFRESH_INTERVAL_MINS)) with 10%Z.
  unfold num_minutes, minutes. rewrite (Z.quot_div_nonneg (dt_sub _ _)) by lia.
  rewrite Z.quot_div_nonneg by (try apply Z.div_pos; lia).
  rewrite Z.div_div by lia. split_and!; intros Hd.
  - apply Z.div_small. lia.
  - symmetry. apply (Z.div_unique _ _ 1 (dt_sub curr last - 600000)); lia.
  - apply Z.div_le_lower_bound; lia.
Qed.

Lemma refresh_check_spec (s : TokenStore) (d : draw) :
  (0 <= dt_sub (now1 d) (last_refresh s))%Z ->
  ((dt_sub (now1 d) (last_refresh s) < minutes 10)%Z -> refresh_check s d = s) /\
  ((minutes 10 <= dt_sub (now1 d) (last_refresh s) < minutes 20)%Z ->
     refresh_check s d = mk_TokenStore (rand1 d) (curr_secret s) (now2 d)) /\
  ((minutes 20 <= dt_sub (now1 d) (last_refresh s))%Z ->
     refresh_check s d = mk_TokenStore (rand2 d) (rand1 d) (now2 d)).
Proof.
  intros Hnn. destruct (intervals_spec _ _ Hnn) as (I0 & I1 & I2). unfold refresh_check.
  split_and!; intros Hd.
  - rewrite I0 by done. by rewrite decide_True.
  - rewrite I1 by done. rewrite decide_False by lia. by rewrite decide_True.
  - specialize (I2 Hd). by rewrite !decide_False by lia.
Qed.
End token.

Section validity.
Context {CH : Chrono} {CL : ChronoLaws} {SH : Sha1}.

(** Times of a sequence of calls: each call's readings in order, after [t]. *)
Fixpoint in_order (t : DateTime) (ds : list draw) : Prop :=
  match ds with
  | [] => True
  | d :: ds => (0 <= dt_sub (now1 d) t)%Z /\ (0 <= dt_sub (now2 d) (now1 d))%Z /\ in_order (now2 d) ds
  end.

(** The secret [c] current at [n1] is still one of the two, and will stay so
    for calls less than an interval after [n1]. *)
Definition holds (c : Z) (n1 t : DateTime) (s : TokenStore) : Prop :=
  (0 <= dt_sub t (last_refresh s))%Z /\ (0 <= dt_sub t n1)%Z /\
  ((curr_secret s = c /\ (dt_sub n1 (last_refresh s) < minutes 10)%Z) \/
   (last_secret s = c /\ (0 <= dt_sub (last_refresh s) n1)%Z)).

Lemma refresh_holds c n1 t s d :
  holds c n1 t s -> (0 <= dt_sub (now1 d) t)%Z -> (0 <= dt_sub (now2 d) (now1 d))%Z ->
  (dt_sub (now1 d) n1 < minutes 10)%Z ->
  holds c n1 (now2 d) (refresh_check s d).
Proof.
  intros (Hr & Ht & Hc) H1 H2 Hd.
  pose proof (dt_sub_trans (now1 d) t (last_refresh s)) as E1.
  pose proof (dt_sub_trans (now1 d) t n1) as E2.
  pose proof (dt_sub_trans (now1 d) n1 (last_refresh s)) as E3.
  pose proof (dt_sub_trans (now2 d) (now1 d) n1) as E4.
  pose proof (dt_sub_trans (now2 d) (now1 d) (last_refresh s)) as E5.
  pose proof (dt_sub_opp n1 (last_refresh s)) as E6. pose proof (dt_sub_refl (now2 d)) as E7.
  destruct (refresh_check_spec s d ltac:(lia)) as (I0 & I1 & _).
  destruct Hc as [[Hc Hlt]|[Hc Hge]].
  - destruct (Z.lt_ge_cases (dt_sub (now1 d) (last_refresh s)) (minutes 10)) as [Hs|Hs].
    + rewrite I0 by done. unfold holds. split_and!; [lia|lia|]. left. done.
    + rewrite I1 by (unfold minutes in *; lia).
      unfold holds; simpl. split_and!; [lia|lia|]. right. split; [done|lia].
  - rewrite I0 by lia. unfold holds. split_and!; [lia|lia|]. right. done.
Qed.

Lemma run_holds c n1 t s ds :
  holds c n1 t s -> in_order t ds ->
  Forall (fun d => (dt_sub (now1 d) n1 < minutes 10)%Z) ds ->
  exists t', holds c n1 t' (foldl refresh_check s ds) /\ (ds = [] -> t' = t) /\
    (forall d, last ds = Some d -> t' = now2 d).
Proof.
  revert t s. induction ds as [|d ds IH]; intros t s Hh Ho Hall; simpl.
  - exists t. split_and!; [done|done|]. intros d Hd. done.
  - destruct Ho as (H1 & H2 & Ho). apply Forall_cons in Hall as [Hd Hall].
    destruct (IH (now2 d) (refresh_check s d)) as (t' & Hh' & Hnil & Hlast);
      [by eapply refresh_holds|done|done|].
    exists t'. split_and!; [done|done|]. intros d' Hd'. destruct ds as [|d2 ds].
    + simpl in Hd'. injection Hd' as <-. by apply Hnil.
    + apply Hlast. done.
Qed.

Lemma checkout_holds s addr d :
  (0 <= dt_sub (now1 d) (last_refresh s))%Z -> (0 <= dt_sub (now2 d) (now1 d))%Z ->
  holds (curr_secret (checkout s addr d).2) (now1 d) (now2 d) (checkout s addr d).2.
Proof.
  intros H1 H2. unfold checkout, holds; cbn [snd].
  pose proof (dt_sub_trans (now2 d) (now1 d) (last_refresh s)) as E1.
  pose proof (dt_sub_refl (now2 d)) as E2. pose proof (dt_sub_opp (now1 d) (now2 d)) as E3.
  destruct (refresh_check_spec s d H1) as (I0 & I1 & I2).
  assert (0 < minutes 10)%Z by (unfold minutes; lia).
  destruct (Z.lt_ge_cases (dt_sub (now1 d) (last_refresh s)) (minutes 10)) as [Hs|Hs];
    [|destruct (Z.lt_ge_cases (dt_sub (now1 d) (last_refresh s)) (minutes 20)) as [Hs2|Hs2]].
  - rewrite I0 by done. split_and!; [lia|lia|]. left. done.
  - rewrite I1 by done. simpl. split_and!; [lia|lia|]. left. split; [done|lia].
  - rewrite I2 by done. simpl. split_and!; [lia|lia|]. left. split; [done|lia].
Qed.

(** C39. A token checked out of the store is accepted for at least ten minutes:
    for any store whose last refresh is not in the future, after any sequence of
    other calls in time order, a [checkin] whose clock reading is less than ten
    minutes after that of the [checkout] accepts the token. *)
Theorem token_valid_ten_minutes s addr d0 ds d :
  (0 <= dt_sub (now1 d0) (last_refresh s))%Z ->
  (0 <= dt_sub (now2 d0) (now1 d0))%Z ->
  in_order (now2 d0) (ds ++ [d]) ->
  Forall (fun d' => (dt_sub (now1 d') (now1 d0) < minutes 10)%Z) (ds ++ [d]) ->
  let '(tok, s1) := checkout s addr d0 in
  (checkin (foldl refresh_check s1 ds) addr tok d).1 = true.
Proof.
  intros Hr Hd0 Ho Hall. destruct (checkout s addr d0) as [tok s1] eqn:Hco.
  assert (tok = generate_token_from_addr addr (curr_secret s1)) as -> by (by injection Hco as <- <-).
  pose proof (checkout_holds s addr d0 Hr Hd0) as Hh. rewrite Hco in Hh; simpl in Hh.
  destruct (run_holds _ _ _ _ _ Hh Ho Hall) as (t & (_ & _ & Hc) & _).
  rewrite foldl_snoc in Hc. apply validate_known. naive_solver.
Qed.

(** The upper bound is thirty minutes, not twenty: refreshing is lazy, so a
    token handed out by a fresh store is still accepted [e1 + e2] after its
    checkout, for any [e1] between ten and twenty minutes and any [e2] below
    ten, when a call was made after [e1]; a call twenty minutes or more after
    the last refresh forgets both secrets at once. *)
Theorem token_lifetime_exceeds_twenty (t t1 t2 : DateTime) addr r1 r2 q1 q2 q3 q4 q5 q6 :
  (minutes 10 <= dt_sub t1 t < minutes 20)%Z ->
  (0 <= dt_sub t2 t1 < minutes 10)%Z ->
  let '(tok, s1) := checkout (TokenStore_new t r1 r2) addr (mk_draw t t q1 q2) in
  let '(_, s2) := checkin s1 addr tok (mk_draw t1 t1 q3 q4) in
  (checkin s2 addr tok (mk_draw t2 t2 q5 q6)).1 = true /\
  (forall t3, (minutes 20 <= dt_sub t3 t)%Z ->
     (checkin s1 addr tok (mk_draw t3 t3 q3 q4)).2 = mk_TokenStore q4 q3 t3).
Proof.
  intros H1 H2. assert (0 < minutes 10)%Z by (unfold minutes; lia).
  pose proof (dt_sub_refl t) as E1.
  set (s0 := TokenStore_new t r1 r2).
  destruct (refresh_check_spec s0 (mk_draw t t q1 q2) ltac:(simpl; lia)) as (I0 & _).
  set (s2 := mk_TokenStore q3 r1 t1).
  destruct (refresh_check_spec s0 (mk_draw t1 t1 q3 q4) ltac:(simpl; lia)) as (_ & I1 & _).
  destruct (refresh_check_spec s2 (mk_draw t2 t2 q5 q6) ltac:(simpl; lia)) as (I2 & _).
  assert (refresh_check s0 (mk_draw t1 t1 q3 q4) = s2) as I1' by (apply I1; simpl; lia).
  unfold checkout, checkin. rewrite I0, I1' by (simpl; lia). cbn [fst snd].
  rewrite I2 by (simpl; lia). split.
  - apply validate_known. by right.
  - intros t3 H3.
    destruct (refresh_check_spec s0 (mk_draw t3 t3 q3 q4)) as (_ & _ & I3);
      [unfold minutes in *; simpl; lia|]. by apply I3.
Qed.
End validity.

#[local] Existing Instance Sha1_pad.

Lemma token_valid_ten_minutes_witness :
  let d0 := mk_draw (540000%Z : @DateTime Chrono_Z) 540001%Z 7%Z 8%Z in
  let d1 := mk_draw (700000%Z : @DateTime Chrono_Z) 700001%Z 9%Z 10%Z in
  let d2 := mk_draw (1130000%Z : @DateTime Chrono_Z) 1130001%Z 11%Z 12%Z in
  let addr := IpV4 (mk_Ipv4Addr x7f x00 x00 x01) in
  let '(tok, s1) := checkout (TokenStore_new (0%Z : @DateTime Chrono_Z) 1%Z 2%Z) addr d0 in
  (checkin (foldl refresh_check s1 [d1]) addr tok d2).1 = true.
Proof.
  intros d0 d1 d2 addr.
  apply (token_valid_ten_minutes (TokenStore_new (0%Z : @DateTime Chrono_Z) 1%Z 2%Z) addr d0 [d1] d2).
  - done.
  - done.
  - repeat split; done.
  - apply Forall_cons; split; [done|]. apply Forall_cons; done.
Defined.

Lemma token_lifetime_exceeds_twenty_witness :
  let addr := IpV4 (mk_Ipv4Addr x7f x00 x00 x01) in
  let t2 := (1790000%Z : @DateTime Chrono_Z) in
  let '(tok, s1) := checkout (TokenStore_new (0%Z : @DateTime Chrono_Z) 1%Z 2%Z) addr (mk_draw (0%Z : @DateTime Chrono_Z) 0%Z 3%Z 4%Z) in
  let '(_, s2) := checkin s1 addr tok (mk_draw (1195000%Z : @DateTime Chrono_Z) 1195000%Z 5%Z 6%Z) in
  (checkin s2 addr tok (mk_draw t2 t2 7%Z 8%Z)).1 = true /\
  (forall t3, (minutes 20 <= dt_sub t3 (0%Z : @DateTime Chrono_Z))%Z ->
     (checkin s1 addr tok (mk_draw t3 t3 5%Z 6%Z)).2 = mk_TokenStore 6%Z 5%Z t3).
Proof.
  intros addr t2.
  apply (token_lifetime_exceeds_twenty (0%Z : @DateTime Chrono_Z) (1195000%Z : @DateTime Chrono_Z) t2);
    unfold minutes; simpl; lia.
Defined.
