(* ===== verification/Transaction.v ===== *)
(** * [bip_dht::transaction]: action, message and transaction ids

    Ids are handed out from shuffled blocks of consecutive numbers.  [usize] and
    [u64] values are [nat] and [Z]; the block lengths are those of a regular
    build.  The random numbers of a shuffle are an argument of the call. *)

From stdpp Require Import prelude list gmap strings.
From Stdlib Require Import ZArith Lia Strings.Byte.
From S2P Require Import Prelude Bytes Convert Trans.

Definition ACTION_ID_BYTES : nat := 5.
Definition MESSAGE_ID_BYTES : nat := 3.
Definition TRANSACTION_ID_BYTES : nat := ACTION_ID_BYTES + MESSAGE_ID_BYTES.
Definition ACTION_ID_SHIFT : Z := Z.of_nat ACTION_ID_BYTES * 8.
Definition MAX_ACTION_ID : Z := Z.shiftl 1 ACTION_ID_SHIFT.
Definition MESSAGE_ID_SHIFT : Z := Z.of_nat MESSAGE_ID_BYTES * 8.
Definition MAX_MESSAGE_ID : Z := Z.shiftl 1 MESSAGE_ID_SHIFT.
Definition ACTION_ID_PREALLOC_LEN : nat := 2048.
Definition MESSAGE_ID_PREALLOC_LEN : nat := 2048.

(** [for (index, id) in ids.enumerate() { dst[index] = id }] from [index]. *)
Fixpoint store_from (index : nat) (src : list Z) (dst : list Z) : outcome Empty_set (list Z) :=
  match src with
  | [] => Ok dst
  | x :: src =>
      if decide (index < length dst) then store_from (S index) src (<[index := x]> dst) else Panic
  end.

(** [a + b] on [u64]. *)
Definition add_u64 (a b : Z) : outcome Empty_set Z :=
  if decide (a + b < 2 ^ 64)%Z then Ok (a + b)%Z else Panic.

Definition generate_aids (next_alloc : Z) : outcome Empty_set (Z * list Z) :=
  '(next_alloc_start, next_alloc_end) ←
    (if decide (next_alloc = MAX_ACTION_ID) then Ok (0%Z, Z.of_nat ACTION_ID_PREALLOC_LEN)
     else e ← add_u64 next_alloc (Z.of_nat ACTION_ID_PREALLOC_LEN); Ok (next_alloc, e));
  let action_ids := replicate ACTION_ID_PREALLOC_LEN 0%Z in
  action_ids ← store_from 0 (seqZ next_alloc_start (next_alloc_end - next_alloc_start)) action_ids;
  Ok (next_alloc_end, action_ids).

Definition generate_mids (next_alloc : Z) : outcome Empty_set (Z * list Z) :=
  '(next_alloc_start, next_alloc_end) ←
    (if decide (next_alloc = MAX_MESSAGE_ID) then Ok (0%Z, Z.of_nat MESSAGE_ID_PREALLOC_LEN)
     else e ← add_u64 next_alloc (Z.of_nat MESSAGE_ID_PREALLOC_LEN); Ok (next_alloc, e));
  let message_ids := replicate MESSAGE_ID_PREALLOC_LEN 0%Z in
  message_ids ← store_from 0 (seqZ next_alloc_start (next_alloc_end - next_alloc_start)) message_ids;
  Ok (next_alloc_end, message_ids).

(** ** Identifiers *)

Record ActionID : Type := mk_ActionID { act_id : Z }.
Record MessageID : Type := mk_MessageID { msg_id : Z }.
Record TransactionID : Type := mk_TransactionID { trans_id : Z; trans_id_bytes : bytes }.

Definition ActionID_from_transaction_id (trans_id : Z) : ActionID :=
  mk_ActionID (Z.shiftr trans_id MESSAGE_ID_SHIFT).

Definition MessageID_from_transaction_id (trans_id : Z) : MessageID :=
  let clear_action_id := (MAX_MESSAGE_ID - 1)%Z in
  mk_MessageID (Z.land trans_id clear_action_id).

Definition TransactionID_new (trans_id : Z) : TransactionID :=
  mk_TransactionID trans_id (eight_bytes_to_array trans_id).

(** [trans_id <<= 8; trans_id |= byte] on [u64]. *)
Definition TransactionID_from_bytes (bs : bytes) : option TransactionID :=
  if decide (length bs <> TRANSACTION_ID_BYTES) then None
  else
    let trans_id := foldl (fun t b => Z.lor (as_unsigned 64 (Z.shiftl t 8)) (byte_val b)) 0%Z bs in
    Some (TransactionID_new trans_id).

Definition TransactionID_action_id (self : TransactionID) : ActionID :=
  ActionID_from_transaction_id (trans_id self).

Definition TransactionID_message_id (self : TransactionID) : MessageID :=
  MessageID_from_transaction_id (trans_id self).

(** ** Generators *)

Record MIDGenerator : Type := mk_MIDGenerator {
  mid_action_id : Z;
  mid_next_alloc : Z;
  mid_curr_index : nat;
  message_ids : list Z;
}.

Definition MIDGenerator_new (action_id : Z) : MIDGenerator :=
  mk_MIDGenerator action_id 0 MESSAGE_ID_PREALLOC_LEN (replicate MESSAGE_ID_PREALLOC_LEN 0%Z).

Definition MIDGenerator_action_id (self : MIDGenerator) : ActionID :=
  ActionID_from_transaction_id (mid_action_id self).

(** The source calls itself after a refill; fuel [2] covers that one call. *)
Fixpoint mid_generate (fuel : nat) (rand : nat -> nat) (self : MIDGenerator) :
    outcome Empty_set (TransactionID * MIDGenerator) :=
  match fuel with
  | 0 => NoFuel
  | S fuel =>
      match message_ids self !! mid_curr_index self with
      | Some message_id =>
          Ok (TransactionID_new (Z.lor (mid_action_id self) message_id),
              mk_MIDGenerator (mid_action_id self) (mid_next_alloc self)
                (mid_curr_index self + 1) (message_ids self))
      | None =>
          '(next_alloc, message_ids) ← generate_mids (mid_next_alloc self);
          message_ids ← fisher_shuffle 0%Z rand message_ids;
          mid_generate fuel rand (mk_MIDGenerator (mid_action_id self) next_alloc 0 message_ids)
      end
  end.
Definition MIDGenerator_generate := mid_generate 2.

Record AIDGenerator : Type := mk_AIDGenerator {
  aid_next_alloc : Z;
  aid_curr_index : nat;
  action_ids : list Z;
}.

Definition AIDGenerator_new (rand : nat -> nat) : outcome Empty_set AIDGenerator :=
  '(next_alloc, action_ids) ← generate_aids 0;
  action_ids ← fisher_shuffle 0%Z rand action_ids;
  Ok (mk_AIDGenerator next_alloc 0 action_ids).

Fixpoint aid_generate (fuel : nat) (rand : nat -> nat) (self : AIDGenerator) :
    outcome Empty_set (MIDGenerator * AIDGenerator) :=
  match fuel with
  | 0 => NoFuel
  | S fuel =>
      match action_ids self !! aid_curr_index self with
      | Some action_id =>
          Ok (MIDGenerator_new (as_unsigned 64 (Z.shiftl action_id MESSAGE_ID_SHIFT)),
              mk_AIDGenerator (aid_next_alloc self) (aid_curr_index self + 1) (action_ids self))
      | None =>
          '(next_alloc, action_ids) ← generate_aids (aid_next_alloc self);
          action_ids ← fisher_shuffle 0%Z rand action_ids;
          aid_generate fuel rand (mk_AIDGenerator next_alloc 0 action_ids)
      end
  end.
Definition AIDGenerator_generate := aid_generate 2.

(** Repeated calls; call [k] shuffles with [rands k]. *)
Section iterate.
Context {S A : Type} (gen : (nat -> nat) -> S -> outcome Empty_set (A * S)).

Fixpoint generate_many (n : nat) (rands : nat -> nat -> nat) (s : S) : outcome Empty_set (list A * S) :=
  match n with
  | 0 => Ok ([], s)
  | Datatypes.S n =>
      '(xs, s) ← generate_many n rands s;
      '(x, s) ← gen (rands n) s;
      Ok (xs ++ [x], s)
  end.
End iterate.

(** ** Blocks of ids

    Both generators allocate blocks the same way; [generate_block] is their
    common shape and [block_inv] what holds of a generator that has [issued] ids
    without wrapping around. *)
Definition generate_block (max : Z) (len : nat) (next_alloc : Z) : outcome Empty_set (Z * list Z) :=
  '(s, e) ← (if decide (next_alloc = max) then Ok (0%Z, Z.of_nat len)
             else e ← add_u64 next_alloc (Z.of_nat len); Ok (next_alloc, e));
  ids ← store_from 0 (seqZ s (e - s)) (replicate len 0%Z);
  Ok (e, ids).

Lemma generate_aids_block n : generate_aids n = generate_block MAX_ACTION_ID ACTION_ID_PREALLOC_LEN n.
Proof. reflexivity. Qed.

Lemma generate_mids_block n : generate_mids n = generate_block MAX_MESSAGE_ID MESSAGE_ID_PREALLOC_LEN n.
Proof. reflexivity. Qed.

Lemma store_from_spec src : forall i dst,
  i + length src <= length dst ->
  store_from i src dst = Ok (take i dst ++ src ++ drop (i + length src) dst).
Proof.
  induction src as [|x src IH]; intros i dst Hlen; simpl in *.
  - rewrite Nat.add_0_r, take_drop. done.
  - rewrite decide_True by lia. rewrite IH by (rewrite length_insert; lia). f_equal.
    rewrite drop_insert_lt by lia. rewrite (take_S_r _ i x) by (rewrite list_lookup_insert_eq by lia; done).
    rewrite take_insert_ge by lia. rewrite <- app_assoc. simpl. repeat f_equal; lia.
Qed.

Lemma store_from_all src dst : length src = length dst -> store_from 0 src dst = Ok src.
Proof.
  intros H. rewrite store_from_spec by lia. rewrite take_0, drop_ge by lia. by rewrite app_nil_r.
Qed.

Section block.
Context (max : Z) (len : nat).
Hypothesis Hlen : 0 < len.
Hypothesis Hmax : (max < 2 ^ 63)%Z /\ (Z.of_nat len < 2 ^ 63)%Z.
Hypothesis Hdiv : (Z.of_nat len | max)%Z.

Definition block_inv (issued : list Z) (next : Z) (curr : nat) (ids : list Z) : Prop :=
  length ids = len /\ (Z.of_nat len | next)%Z /\ (0 <= next <= max)%Z /\
  issued ++ drop curr ids ≡ₚ seqZ 0 next.

Lemma block_take issued next curr ids x :
  block_inv issued next curr ids -> ids !! curr = Some x ->
  block_inv (issued ++ [x]) next (curr + 1) ids /\ (0 <= x < max)%Z.
Proof.
  clear Hlen Hmax Hdiv. intros (Hl & Hd & Hn & Hp) Hx.
  rewrite (drop_S _ _ _ Hx) in Hp. split.
  - split_and!; [done|done|lia|lia|]. rewrite Nat.add_1_r, <- app_assoc. done.
  - assert (x ∈ seqZ 0 next) as Hin%elem_of_seqZ; [|lia].
    rewrite <- Hp. apply elem_of_app. right. left.
Qed.

Lemma block_refill issued next curr ids rand :
  block_inv issued next curr ids -> ids !! curr = None -> (Z.of_nat (length issued) < max)%Z ->
  exists next' ids0 ids' x, generate_block max len next = Ok (next', ids0) /\
    fisher_shuffle 0%Z rand ids0 = Ok ids' /\ ids' !! 0 = Some x /\ block_inv issued next' 0 ids'.
Proof.
  intros (Hl & Hd & Hn & Hp) Hx%lookup_ge_None Hi.
  rewrite drop_ge, app_nil_r in Hp by done.
  pose proof (Permutation_length Hp) as Hpl. rewrite length_seqZ in Hpl.
  assert (next < max)%Z by lia.
  assert (next + Z.of_nat len <= max)%Z.
  { destruct Hd as [k Hk], Hdiv as [m Hm]. assert (k < m)%Z by nia.
    assert ((k + 1) * Z.of_nat len <= m * Z.of_nat len)%Z by (apply Z.mul_le_mono_nonneg_r; lia). lia. }
  destruct (fisher_shuffle_perm 0%Z rand (seqZ next (Z.of_nat len))) as (ids' & Hsh & Hperm).
  pose proof (Permutation_length Hperm) as Hlen'. rewrite length_seqZ in Hlen'.
  destruct (lookup_lt_is_Some_2 ids' 0) as [x Hx0]; [lia|].
  exists (next + Z.of_nat len)%Z, (seqZ next (Z.of_nat len)), ids', x. split_and!; [|done|done|].
  - unfold generate_block, add_u64. rewrite decide_False, decide_True by lia.
    cbn [mbind outcome_bind]. replace (next + Z.of_nat len - next)%Z with (Z.of_nat len) by lia.
    rewrite store_from_all by (rewrite length_seqZ, length_replicate; lia). done.
  - split_and!; [lia| |lia|lia|].
    + apply Z.divide_add_r; [done|]. exists 1%Z. lia.
    + rewrite drop_0, Hperm, Hp. rewrite seqZ_app by lia. done.
Qed.

Lemma block_NoDup issued next curr ids : block_inv issued next curr ids -> NoDup issued.
Proof.
  intros (_ & _ & _ & Hp).
  assert (NoDup (issued ++ drop curr ids)) as [? _]%NoDup_app; [|done].
  rewrite Hp. apply NoDup_seqZ.
Qed.
End block.

Lemma generate_many_inv {S A} (gen : (nat -> nat) -> S -> outcome Empty_set (A * S))
    (I : list Z -> S -> Prop) (out : Z -> A) (bound : Z) :
  (forall rand issued s, I issued s -> (Z.of_nat (length issued) < bound)%Z ->
     exists x s', gen rand s = Ok (out x, s') /\ I (issued ++ [x]) s') ->
  forall n rands s, (Z.of_nat n <= bound)%Z -> I [] s ->
  exists xs s', generate_many gen n rands s = Ok (out <$> xs, s') /\ I xs s' /\ length xs = n.
Proof.
  intros Hstep n rands s. induction n as [|n IH]; intros Hn HI; cbn [generate_many].
  - exists [], s. done.
  - destruct IH as (xs & s1 & -> & HI1 & Hl); [lia|done|]. cbn [mbind outcome_bind].
    destruct (Hstep (rands n) xs s1 HI1) as (x & s2 & -> & HI2); [lia|]. cbn [mbind outcome_bind].
    exists (xs ++ [x]), s2. rewrite fmap_app, length_app. simpl. split_and!; [done|done|lia].
Qed.

(** What a generator that has issued [issued] satisfies. *)
Definition mid_inv (a : Z) (issued : list Z) (s : MIDGenerator) : Prop :=
  mid_action_id s = a /\ Forall (fun x => (0 <= x < MAX_MESSAGE_ID)%Z) issued /\
  block_inv MAX_MESSAGE_ID MESSAGE_ID_PREALLOC_LEN issued (mid_next_alloc s) (mid_curr_index s) (message_ids s).

Definition aid_inv (issued : list Z) (s : AIDGenerator) : Prop :=
  Forall (fun x => (0 <= x < MAX_ACTION_ID)%Z) issued /\
  block_inv MAX_ACTION_ID ACTION_ID_PREALLOC_LEN issued (aid_next_alloc s) (aid_curr_index s) (action_ids s).

Lemma mid_step a rand issued s :
  mid_inv a issued s -> (Z.of_nat (length issued) < MAX_MESSAGE_ID)%Z ->
  exists x s', MIDGenerator_generate rand s = Ok (TransactionID_new (Z.lor a x), s') /\
    mid_inv a (issued ++ [x]) s'.
Proof.
  intros (Ha & Hall & Hinv) Hlt. unfold MIDGenerator_generate. cbn [mid_generate].
  destruct (message_ids s !! mid_curr_index s) as [x|] eqn:Hx.
  - destruct (block_take _ _ _ _ _ _ _ Hinv Hx) as [Hinv' Hr]. rewrite Ha. eexists _, _.
    split; [done|]. split_and!; [done|apply Forall_app; auto|done].
  - edestruct (block_refill MAX_MESSAGE_ID MESSAGE_ID_PREALLOC_LEN) as (n' & ids0 & ids' & x & Hg & Hs & Hx' & Hinv');
      [unfold MESSAGE_ID_PREALLOC_LEN; lia|vm_compute; done|exists 8192%Z; vm_compute; done|done|done|done|].
    rewrite generate_mids_block, Hg. cbn [mbind outcome_bind]. rewrite Hs. cbn [mbind outcome_bind].
    cbn [message_ids mid_curr_index mid_action_id mid_next_alloc]. rewrite Hx'.
    destruct (block_take _ _ _ _ _ _ _ Hinv' Hx') as [Hinv2 Hr]. rewrite Ha. eexists _, _.
    split; [done|]. split_and!; [done|apply Forall_app; auto|done].
Qed.

Lemma aid_step rand issued s :
  aid_inv issued s -> (Z.of_nat (length issued) < MAX_ACTION_ID)%Z ->
  exists x s', AIDGenerator_generate rand s =
      Ok (MIDGenerator_new (as_unsigned 64 (Z.shiftl x MESSAGE_ID_SHIFT)), s') /\
    aid_inv (issued ++ [x]) s'.
Proof.
  intros (Hall & Hinv) Hlt. unfold AIDGenerator_generate. cbn [aid_generate].
  destruct (action_ids s !! aid_curr_index s) as [x|] eqn:Hx.
  - destruct (block_take _ _ _ _ _ _ _ Hinv Hx) as [Hinv' Hr]. eexists _, _.
    split; [done|]. split; [apply Forall_app; auto|done].
  - edestruct (block_refill MAX_ACTION_ID ACTION_ID_PREALLOC_LEN) as (n' & ids0 & ids' & x & Hg & Hs & Hx' & Hinv');
      [unfold ACTION_ID_PREALLOC_LEN; lia|vm_compute; done|exists 536870912%Z; vm_compute; done|done|done|done|].
    rewrite generate_aids_block, Hg. cbn [mbind outcome_bind]. rewrite Hs. cbn [mbind outcome_bind].
    cbn [action_ids aid_curr_index aid_next_alloc]. rewrite Hx'.
    destruct (block_take _ _ _ _ _ _ _ Hinv' Hx') as [Hinv2 Hr]. eexists _, _.
    split; [done|]. split; [apply Forall_app; auto|done].
Qed.

Lemma mid_new_inv a : mid_inv a [] (MIDGenerator_new a).
Proof.
  split_and!; [done|done|]. unfold MIDGenerator_new; cbn [message_ids mid_curr_index mid_next_alloc].
  split_and!; [apply length_replicate|apply Z.divide_0_r|done|vm_compute; done|].
  rewrite drop_ge by (rewrite length_replicate; done). done.
Qed.

Lemma aid_new_inv rand : exists g, AIDGenerator_new rand = Ok g /\ aid_inv [] g.
Proof.
  edestruct (block_refill MAX_ACTION_ID ACTION_ID_PREALLOC_LEN) as (n' & ids0 & ids' & x & Hg & Hs & Hx' & Hinv').
  - unfold ACTION_ID_PREALLOC_LEN; lia.
  - vm_compute; done.
  - exists 536870912%Z; vm_compute; done.
  - instantiate (4 := []). instantiate (3 := 0%Z). instantiate (2 := ACTION_ID_PREALLOC_LEN).
    instantiate (1 := replicate ACTION_ID_PREALLOC_LEN 0%Z).
    split_and!; [apply length_replicate|apply Z.divide_0_r|done|vm_compute; done|].
    rewrite drop_ge by (rewrite length_replicate; done). done.
  - apply lookup_ge_None. by rewrite length_replicate.
  - vm_compute; done.
  - unfold AIDGenerator_new. rewrite generate_aids_block, Hg. cbn [mbind outcome_bind]. rewrite Hs.
    eexists. split; [done|]. split; [done|exact Hinv'].
Qed.

(** ** Splitting and reading transaction ids *)

Lemma action_shifted x :
  (0 <= x < MAX_ACTION_ID)%Z ->
  as_unsigned 64 (Z.shiftl x MESSAGE_ID_SHIFT) = (x * 2 ^ 24)%Z.
Proof.
  intros Hx. change MAX_ACTION_ID with (2 ^ 40)%Z in Hx. rewrite Z.shiftl_mul_pow2 by done.
  apply as_unsigned_id. unfold in_unsigned. change MESSAGE_ID_SHIFT with 24%Z. lia.
Qed.

Lemma lor_ids x y : (0 <= y < MAX_MESSAGE_ID)%Z -> Z.lor (x * 2 ^ 24) y = (x * 2 ^ 24 + y)%Z.
Proof.
  intros Hy. rewrite <- lor_shiftl_add by done. by rewrite Z.shiftl_mul_pow2.
Qed.

Lemma action_of x y :
  (0 <= y < MAX_MESSAGE_ID)%Z -> ActionID_from_transaction_id (Z.lor (x * 2 ^ 24) y) = mk_ActionID x.
Proof.
  intros Hy. rewrite lor_ids by done. unfold ActionID_from_transaction_id. f_equal.
  change MESSAGE_ID_SHIFT with 24%Z. rewrite Z.shiftr_div_pow2 by lia.
  rewrite Z.add_comm, Z.div_add by lia. rewrite Z.div_small by done. lia.
Qed.

Lemma fold_bytes_value bs : forall acc,
  (0 <= acc)%Z -> (acc * 256 ^ Z.of_nat (length bs) < 2 ^ 64 - 256 ^ Z.of_nat (length bs) + 1)%Z ->
  foldl (fun t b => Z.lor (as_unsigned 64 (Z.shiftl t 8)) (byte_val b)) acc bs = be_value_acc acc bs.
Proof.
  induction bs as [|b bs IH]; intros acc H0 Hlt; [done|]. cbn [foldl be_value_acc].
  pose proof (byte_val_range b). cbn [length] in Hlt. rewrite Nat2Z.inj_succ, Z.pow_succ_r in Hlt by lia.
  assert (1 <= 256 ^ Z.of_nat (length bs))%Z by (pose proof (Z.pow_pos_nonneg 256 (Z.of_nat (length bs))); lia).
  rewrite as_unsigned_id.
  - rewrite lor_shiftl_add by lia. apply IH; [lia|]. change (2 ^ 8)%Z with 256%Z. nia.
  - unfold in_unsigned. rewrite Z.shiftl_mul_pow2 by lia. change (2 ^ 8)%Z with 256%Z. nia.
Qed.

Lemma from_bytes_value bs :
  length bs = TRANSACTION_ID_BYTES -> TransactionID_from_bytes bs = Some (TransactionID_new (be_value bs)).
Proof.
  intros Hl. unfold TransactionID_from_bytes. rewrite decide_False by lia.
  rewrite fold_bytes_value; [done|done|]. rewrite Hl. done.
Qed.

Lemma new_of_bytes t :
  (0 <= t < 2 ^ 64)%Z -> TransactionID_from_bytes (trans_id_bytes (TransactionID_new t)) = Some (TransactionID_new t).
Proof.
  intros Ht. cbn [trans_id_bytes TransactionID_new]. rewrite eight_bytes_be.
  rewrite from_bytes_value by apply length_be_bytes. rewrite be_value_be_bytes.
  rewrite Z.mod_small by done. done.
Qed.

Lemma mid_many m rands x :
  (0 <= x < MAX_ACTION_ID)%Z -> (Z.of_nat m <= MAX_MESSAGE_ID)%Z ->
  exists ids s, generate_many MIDGenerator_generate m rands (MIDGenerator_new (x * 2 ^ 24)) = Ok (ids, s) /\
    length ids = m /\ NoDup (trans_id_bytes <$> ids) /\
    Forall (fun t => TransactionID_action_id t = mk_ActionID x /\
                     TransactionID_from_bytes (trans_id_bytes t) = Some t) ids.
Proof.
  intros Hx Hm.
  destruct (generate_many_inv MIDGenerator_generate (mid_inv (x * 2 ^ 24)) (fun y => TransactionID_new (Z.lor (x * 2 ^ 24) y))
    MAX_MESSAGE_ID) with (n := m) (rands := rands) (s := MIDGenerator_new (x * 2 ^ 24)) as (ys & s & Hr & (_ & Hall & Hinv) & Hl);
    [apply mid_step|done|apply mid_new_inv|].
  change MAX_ACTION_ID with (2 ^ 40)%Z in Hx. rewrite Forall_forall in Hall.
  assert (forall y, y ∈ ys -> TransactionID_from_bytes (trans_id_bytes (TransactionID_new (Z.lor (x * 2 ^ 24) y))) =
    Some (TransactionID_new (x * 2 ^ 24 + y))) as Hb.
  { intros y Hy%Hall. rewrite lor_ids by done. apply new_of_bytes.
    change MAX_MESSAGE_ID with (2 ^ 24)%Z in Hy. lia. }
  exists ((fun y => TransactionID_new (Z.lor (x * 2 ^ 24) y)) <$> ys), s. split_and!; [done|by rewrite length_fmap| |].
  - rewrite <- list_fmap_compose. apply NoDup_fmap_2_strong; [|by eapply block_NoDup].
    intros y z Hy Hz Heq. cbn in Heq. pose proof (Hb y Hy) as E1. pose proof (Hb z Hz) as E2.
    cbn [trans_id_bytes TransactionID_new] in E1, E2. unfold compose in Heq.
    cbn [trans_id_bytes TransactionID_new] in Heq. rewrite Heq, E2 in E1. injection E1. lia.
  - apply Forall_forall. intros t (y & -> & Hy)%list_elem_of_fmap. split.
    + apply action_of. by apply Hall.
    + rewrite (Hb y Hy). by rewrite lor_ids by (by apply Hall).
Qed.

(** Transaction ids are unique and route back: up to [2^40] calls of a new
    [AIDGenerator] return, without panic, generators with pairwise distinct
    action ids, and up to [2^24] calls of each of them return ids whose eight
    bytes are pairwise distinct, parse back to the id and carry the action id of
    their generator, whatever the shuffles draw. *)
Theorem transaction_ids_unique rand0 rands n :
  (Z.of_nat n <= MAX_ACTION_ID)%Z ->
  exists g gens g', AIDGenerator_new rand0 = Ok g /\
    generate_many AIDGenerator_generate n rands g = Ok (gens, g') /\
    length gens = n /\ NoDup (MIDGenerator_action_id <$> gens) /\
    forall gen m mrands, gen ∈ gens -> (Z.of_nat m <= MAX_MESSAGE_ID)%Z ->
      exists ids gen', generate_many MIDGenerator_generate m mrands gen = Ok (ids, gen') /\
        length ids = m /\ NoDup (trans_id_bytes <$> ids) /\
        Forall (fun t => TransactionID_action_id t = MIDGenerator_action_id gen /\
                         TransactionID_from_bytes (trans_id_bytes t) = Some t) ids.
Proof.
  intros Hn. destruct (aid_new_inv rand0) as (g & Hg & Hinv).
  destruct (generate_many_inv AIDGenerator_generate aid_inv
    (fun x => MIDGenerator_new (as_unsigned 64 (Z.shiftl x MESSAGE_ID_SHIFT))) MAX_ACTION_ID)
    with (n := n) (rands := rands) (s := g) as (xs & g' & Hr & (Hall & Hb) & Hl);
    [apply aid_step|done|done|].
  assert (forall x, x ∈ xs -> MIDGenerator_action_id
    (MIDGenerator_new (as_unsigned 64 (Z.shiftl x MESSAGE_ID_SHIFT))) = mk_ActionID x) as Hact.
  { intros x Hx. rewrite Forall_forall in Hall. unfold MIDGenerator_action_id; cbn [mid_action_id MIDGenerator_new].
    rewrite action_shifted by auto. rewrite <- (Z.lor_0_r (x * 2 ^ 24)). apply action_of.
    change MAX_MESSAGE_ID with (2 ^ 24)%Z. lia. }
  eexists g, _, g'. split_and!; [done|exact Hr|by rewrite length_fmap| |].
  - rewrite <- list_fmap_compose. apply NoDup_fmap_2_strong; [|by eapply block_NoDup].
    intros x y Hx Hy Heq. unfold compose in Heq. rewrite !Hact in Heq by done. by injection Heq.
  - intros gen m mrands (x & -> & Hx)%list_elem_of_fmap Hm. rewrite Hact by done.
    rewrite Forall_forall in Hall. rewrite action_shifted by auto. apply mid_many; [auto|done].
Qed.

Lemma transaction_ids_unique_witness :
  exists g gens g', AIDGenerator_new (fun i => i) = Ok g /\
    generate_many AIDGenerator_generate 3 (fun k i => k + i) g = Ok (gens, g') /\
    length gens = 3 /\ NoDup (MIDGenerator_action_id <$> gens).
Proof.
  destruct (transaction_ids_unique (fun i => i) (fun k i => k + i) 3) as (g & gens & g' & H1 & H2 & H3 & H4 & _).
  - vm_compute. done.
  - exists g, gens, g'. split; [exact H1|]. split; [exact H2|]. split; [exact H3|exact H4].
Defined.

(** Eight received bytes read as a transaction id whose bytes are the received
    ones, whose number is their big-endian value and whose action and message
    ids are its high five and low three bytes; any other length is refused. *)
Theorem transaction_from_bytes_spec bs :
  (length bs <> TRANSACTION_ID_BYTES -> TransactionID_from_bytes bs = None) /\
  (length bs = TRANSACTION_ID_BYTES ->
   exists t, TransactionID_from_bytes bs = Some t /\ trans_id_bytes t = bs /\
     trans_id t = be_value bs /\
     TransactionID_action_id t = mk_ActionID (be_value (take 5 bs)) /\
     TransactionID_message_id t = mk_MessageID (be_value (drop 5 bs))).
Proof.
  split.
  - intros Hl. unfold TransactionID_from_bytes. by rewrite decide_True.
  - intros Hl. exists (TransactionID_new (be_value bs)). split; [by apply from_bytes_value|].
    cbn [TransactionID_new trans_id trans_id_bytes]. split; [rewrite eight_bytes_be; by apply be_bytes_be_value|].
    split; [done|].
    assert (be_value bs = Z.lor (be_value (take 5 bs) * 2 ^ 24) (be_value (drop 5 bs))) as Hv.
    { assert (length (drop 5 bs) = 3) as Hd by (rewrite length_drop, Hl; done).
      rewrite <- (take_drop 5 bs) at 1. rewrite be_value_app, Hd. rewrite lor_ids; [done|].
      pose proof (be_value_range (drop 5 bs)) as Hrg. rewrite Hd in Hrg. exact Hrg. }
    assert (0 <= be_value (drop 5 bs) < MAX_MESSAGE_ID)%Z as Hrg.
    { pose proof (be_value_range (drop 5 bs)) as Hrg. rewrite length_drop, Hl in Hrg. exact Hrg. }
    unfold TransactionID_action_id, TransactionID_message_id; cbn [trans_id TransactionID_new]. split.
    + rewrite Hv. by apply action_of.
    + unfold MessageID_from_transaction_id. f_equal. rewrite Hv, lor_ids by done.
      change (MAX_MESSAGE_ID - 1)%Z with (Z.ones 24). rewrite Z.land_ones by done.
      rewrite Z.add_comm, Z_mod_plus_full. by apply Z.mod_small.
Qed.

Lemma transaction_from_bytes_spec_witness :
  TransactionID_from_bytes [x01] = None /\
  exists t, TransactionID_from_bytes [x00; x00; x00; x00; x07; x00; x01; x02] = Some t /\
    TransactionID_action_id t = mk_ActionID 7.
Proof.
  split.
  - apply (transaction_from_bytes_spec [x01]). vm_compute. done.
  - destruct (proj2 (transaction_from_bytes_spec [x00; x00; x00; x00; x07; x00; x01; x02])) as (t & H1 & _ & _ & H2 & _);
      [done|]. exists t. split; [exact H1|]. rewrite H2. reflexivity.
Defined.
