(* ===== verification/Compact.v ===== *)
(** * [bip_dht::message::compact_info]: compact node and value lists

    Both are views over borrowed data with an iterator that carries a position;
    the bencode values of a value list belong to another crate and are known by
    their [bytes] accessor only. *)

From stdpp Require Import prelude list gmap strings.
From Stdlib Require Import ZArith Lia Strings.Byte.
From S2P Require Import Prelude Bytes Convert Sha Node.

Definition BYTES_PER_COMPACT_IP : nat := 6.
Definition BYTES_PER_COMPACT_NODE_INFO : nat := 26.
Definition NODE_ID_LEN : nat := SHA_HASH_LEN.

Definition LengthError_with_index (kind : LengthErrorKind) (length index : nat) : LengthError :=
  mk_LengthError kind length (Some index).

(** [bytes[i]] *)
Definition index_checked {E} (bs : bytes) (i : nat) : outcome E byte := unwrap (bs !! i).

(** [Result::unwrap]: the error becomes a panic. *)
Definition unwrap_result {E F A} (m : outcome E A) : outcome F A :=
  match m with Ok a => Ok a | Err _ | Panic => Panic | NoFuel => NoFuel end.

(** The port is built in a [u16]: or, shift by eight, or. *)
Definition socket_v4_from_bytes_be (bs : bytes) : outcome LengthError SocketAddrV4 :=
  if decide (length bs <> BYTES_PER_COMPACT_IP) then
    Err (LengthError_new LengthExpected BYTES_PER_COMPACT_IP)
  else
    oc_one ← index_checked bs 0; oc_two ← index_checked bs 1;
    oc_three ← index_checked bs 2; oc_four ← index_checked bs 3;
    b4 ← index_checked bs 4; b5 ← index_checked bs 5;
    let port := Z.lor 0 (byte_val b4) in
    let port := as_unsigned 16 (Z.shiftl port 8) in
    let port := Z.lor port (byte_val b5) in
    Ok (mk_SocketAddrV4 (mk_Ipv4Addr oc_one oc_two oc_three oc_four) port).

Definition parts_from_compact_info (compact_info : bytes) : outcome LengthError (ShaHash * SocketAddrV4) :=
  id_bytes ← slice_checked compact_info 0 NODE_ID_LEN;
  node_id ← unwrap_result (from_hash id_bytes);
  let compact_ip_offset := NODE_ID_LEN + BYTES_PER_COMPACT_IP in
  sock_bytes ← slice_checked compact_info NODE_ID_LEN compact_ip_offset;
  socket ← unwrap_result (socket_v4_from_bytes_be sock_bytes);
  Ok (node_id, socket).

(** ** [CompactNodeInfo] *)

Record CompactNodeInfo : Type := mk_CompactNodeInfo { nodes : bytes }.

Definition CompactNodeInfo_new (nodes : bytes) : outcome LengthError CompactNodeInfo :=
  if decide (length nodes mod BYTES_PER_COMPACT_NODE_INFO <> 0) then
    Err (LengthError_new LengthMultipleExpected BYTES_PER_COMPACT_NODE_INFO)
  else Ok (mk_CompactNodeInfo nodes).

Record CompactNodeInfoIter : Type := mk_CompactNodeInfoIter { ni_nodes : bytes; ni_pos : nat }.

Definition CompactNodeInfo_into_iter (self : CompactNodeInfo) : CompactNodeInfoIter :=
  mk_CompactNodeInfoIter (nodes self) 0.

Definition CompactNodeInfoIter_next (self : CompactNodeInfoIter) :
    outcome LengthError (option (ShaHash * SocketAddrV4) * CompactNodeInfoIter) :=
  if decide (ni_pos self = length (ni_nodes self)) then Ok (None, self)
  else
    let compact_info_offset := ni_pos self + BYTES_PER_COMPACT_NODE_INFO in
    compact_info ← slice_checked (ni_nodes self) (ni_pos self) compact_info_offset;
    let self := mk_CompactNodeInfoIter (ni_nodes self) (ni_pos self + BYTES_PER_COMPACT_NODE_INFO) in
    parts ← parts_from_compact_info compact_info;
    Ok (Some parts, self).

(** ** [CompactValueInfo] *)

Section values.
Context {B : Type} (bytes_of : B -> option bytes).

Record CompactValueInfo : Type := mk_CompactValueInfo { values : list B }.

Fixpoint check_values (index : nat) (l : list B) : outcome LengthError () :=
  match l with
  | [] => Ok ()
  | node :: l =>
      compact_value ← unwrap (bytes_of node);
      if decide (length compact_value <> BYTES_PER_COMPACT_IP) then
        Err (LengthError_with_index LengthExpected BYTES_PER_COMPACT_IP index)
      else check_values (S index) l
  end.

Definition CompactValueInfo_new (values : list B) : outcome LengthError CompactValueInfo :=
  _ ← check_values 0 values; Ok (mk_CompactValueInfo values).

Record CompactValueInfoIter : Type := mk_CompactValueInfoIter { vi_values : list B; vi_pos : nat }.

Definition CompactValueInfo_into_iter (self : CompactValueInfo) : CompactValueInfoIter :=
  mk_CompactValueInfoIter (values self) 0.

Definition CompactValueInfoIter_next (self : CompactValueInfoIter) :
    outcome LengthError (option SocketAddrV4 * CompactValueInfoIter) :=
  if decide (vi_pos self = length (vi_values self)) then Ok (None, self)
  else
    compact_info ← unwrap (vi_values self !! vi_pos self);
    let self := mk_CompactValueInfoIter (vi_values self) (vi_pos self + 1) in
    bs ← unwrap (bytes_of compact_info);
    socket ← unwrap_result (socket_v4_from_bytes_be bs);
    Ok (Some socket, self).
End values.

(** [iter.collect()], with the number of calls of [next] bounded by the fuel. *)
Section collect.
Context {S A : Type} (next : S -> outcome LengthError (option A * S)).

Fixpoint collect (fuel : nat) (s : S) : outcome LengthError (list A) :=
  match fuel with
  | 0 => NoFuel
  | Datatypes.S fuel =>
      '(o, s) ← next s;
      match o with
      | None => Ok []
      | Some a => l ← collect fuel s; Ok (a :: l)
      end
  end.
End collect.

(** ** Lemmas *)

Lemma socket_v4_from_bytes_convert bs :
  length bs = BYTES_PER_COMPACT_IP -> socket_v4_from_bytes_be bs = Ok (bytes_be_to_sock_v4 bs).
Proof.
  intros Hl. unfold socket_v4_from_bytes_be. rewrite decide_False by auto.
  unfold BYTES_PER_COMPACT_IP in Hl. do 6 (destruct bs as [|? bs]; [done|]). destruct bs; [|done].
  unfold bytes_be_to_sock_v4, bytes_be_to_port. cbn. by rewrite Z.lor_0_l.
Qed.

Lemma parts_of_compact id sock :
  length id = NODE_ID_LEN -> length sock = BYTES_PER_COMPACT_IP ->
  parts_from_compact_info (id ++ sock) = Ok (mk_ShaHash id, bytes_be_to_sock_v4 sock).
Proof.
  intros Hi Hs. unfold parts_from_compact_info.
  rewrite !slice_checked_eq by (rewrite length_app; lia). cbn [mbind outcome_bind].
  rewrite (slice_app_l _ _ 0) by lia. rewrite <- Hi at 1. rewrite slice_all, from_hash_ok by done.
  cbn [mbind outcome_bind unwrap_result].
  unfold slice. rewrite <- Hi, drop_app_length, take_ge by lia.
  by rewrite socket_v4_from_bytes_convert.
Qed.

(** One compact entry: an id and a socket address. *)
Definition compact_entry (p : ShaHash * SocketAddrV4) : bytes := sha_hash p.1 ++ sock_v4_to_bytes_be p.2.
Definition entry_wf (p : ShaHash * SocketAddrV4) : Prop := sha_wf p.1 /\ in_unsigned 16 (v4_port p.2).

Lemma length_sock_v4 a : length (sock_v4_to_bytes_be a) = BYTES_PER_COMPACT_IP.
Proof. by destruct a as [[????] ?]. Qed.

Lemma length_compact_entry p : entry_wf p -> length (compact_entry p) = BYTES_PER_COMPACT_NODE_INFO.
Proof. intros [Hid _]. unfold compact_entry. rewrite length_app, Hid, length_sock_v4. done. Qed.

Lemma parts_of_entry p : entry_wf p -> parts_from_compact_info (compact_entry p) = Ok p.
Proof.
  intros [Hid Hport]. unfold compact_entry. rewrite parts_of_compact by (done || apply length_sock_v4).
  destruct p as [[id] a]. cbn [fst snd sha_hash]. by rewrite sock_v4_of_bytes.
Qed.

Lemma entry_of_bytes e :
  length e = BYTES_PER_COMPACT_NODE_INFO -> exists p, entry_wf p /\ compact_entry p = e.
Proof.
  intros Hl. unfold BYTES_PER_COMPACT_NODE_INFO in Hl.
  assert (length (drop 20 e) = 6) as Hd by (rewrite length_drop; lia).
  exists (mk_ShaHash (take 20 e), bytes_be_to_sock_v4 (drop 20 e)). split.
  - split; [unfold sha_wf; cbn; rewrite length_take; unfold SHA_HASH_LEN; lia|]. apply port_range.
  - unfold compact_entry. cbn [fst snd sha_hash]. rewrite bytes_of_sock_v4 by done. apply take_drop.
Qed.

Lemma entries_of_bytes n : forall bs, length bs = n * BYTES_PER_COMPACT_NODE_INFO ->
  exists ps, Forall entry_wf ps /\ concat (compact_entry <$> ps) = bs /\ length ps = n.
Proof.
  induction n as [|n IH]; intros bs Hl.
  - exists []. destruct bs; done.
  - cbn [Nat.mul] in Hl. destruct (entry_of_bytes (take BYTES_PER_COMPACT_NODE_INFO bs)) as (p & Hp & He).
    { rewrite length_take. lia. }
    destruct (IH (drop BYTES_PER_COMPACT_NODE_INFO bs)) as (ps & Hps & Hc & Hn); [rewrite length_drop; lia|].
    exists (p :: ps). split_and!; [by constructor| |by rewrite <- Hn].
    cbn [fmap list_fmap concat]. rewrite He, Hc. apply take_drop.
Qed.

Lemma node_iter_next pre p post :
  entry_wf p ->
  CompactNodeInfoIter_next (mk_CompactNodeInfoIter (pre ++ compact_entry p ++ post) (length pre)) =
  Ok (Some p, mk_CompactNodeInfoIter (pre ++ compact_entry p ++ post) (length pre + BYTES_PER_COMPACT_NODE_INFO)).
Proof.
  intros Hp. pose proof (length_compact_entry p Hp) as Hl.
  unfold CompactNodeInfoIter_next. cbn [ni_pos ni_nodes].
  rewrite decide_False by (rewrite !length_app; unfold BYTES_PER_COMPACT_NODE_INFO in *; lia).
  rewrite slice_checked_eq by (rewrite !length_app; lia). cbn [mbind outcome_bind].
  unfold slice. rewrite drop_app_length.
  replace (length pre + BYTES_PER_COMPACT_NODE_INFO - length pre) with (length (compact_entry p)) by lia.
  rewrite take_app_length. by rewrite parts_of_entry.
Qed.

Lemma node_iter_collect ps : forall pre fuel,
  Forall entry_wf ps -> length ps < fuel ->
  collect CompactNodeInfoIter_next fuel
    (mk_CompactNodeInfoIter (pre ++ concat (compact_entry <$> ps)) (length pre)) = Ok ps.
Proof.
  induction ps as [|p ps IH]; intros pre fuel Hall Hf; (destruct fuel as [|fuel]; [simpl in Hf; lia|]).
  - cbn. unfold CompactNodeInfoIter_next. cbn [ni_pos ni_nodes]. rewrite app_nil_r. by rewrite decide_True.
  - apply Forall_cons in Hall as [Hp Hall]. cbn [fmap list_fmap concat collect].
    rewrite node_iter_next by done. cbn [mbind outcome_bind].
    specialize (IH (pre ++ compact_entry p) fuel Hall ltac:(simpl in Hf; lia)).
    rewrite length_app, length_compact_entry, <- app_assoc in IH by done.
    rewrite IH. done.
Qed.

Lemma length_concat_entries ps :
  Forall entry_wf ps -> length (concat (compact_entry <$> ps)) = length ps * BYTES_PER_COMPACT_NODE_INFO.
Proof.
  induction 1 as [|p ps Hp _ IH]; [done|]. cbn [fmap list_fmap concat length].
  rewrite length_app, length_compact_entry, IH by done. done.
Qed.

Lemma compact_new_entries ps :
  Forall entry_wf ps -> CompactNodeInfo_new (concat (compact_entry <$> ps)) =
    Ok (mk_CompactNodeInfo (concat (compact_entry <$> ps))).
Proof.
  intros Hall. unfold CompactNodeInfo_new. rewrite length_concat_entries by done.
  rewrite decide_False; [done|]. rewrite Nat.Div0.mod_mul. lia.
Qed.

(** Enough calls of [next] for every entry and the final [None]. *)
Definition collect_nodes (c : CompactNodeInfo) : outcome LengthError (list (ShaHash * SocketAddrV4)) :=
  collect CompactNodeInfoIter_next (length (nodes c) + 1) (CompactNodeInfo_into_iter c).

Lemma collect_nodes_entries ps :
  Forall entry_wf ps -> collect_nodes (mk_CompactNodeInfo (concat (compact_entry <$> ps))) = Ok ps.
Proof.
  intros Hall. apply (node_iter_collect ps [] _ Hall). cbn [nodes].
  rewrite length_concat_entries by done. unfold BYTES_PER_COMPACT_NODE_INFO. lia.
Qed.

Section node_lists.
Context {CH : Chrono}.

(** Compact node lists round trip: the list of a message built from the
    encodings of v4 nodes is accepted and iterates over exactly their ids and
    addresses; and a received byte string is accepted exactly when it is a
    whole number of entries, in which case the iterator ends without a panic
    and its items encode back to the string. *)
Theorem compact_nodes_roundtrip :
  (forall (ns : list Node) (ps : list (ShaHash * SocketAddrV4)) (encs : list bytes),
     Forall2 (fun n p => node_id n = p.1 /\ node_addr n = SockV4 p.2 /\ entry_wf p) ns ps ->
     Forall2 (fun n e => Node_encode n = Ok e) ns encs ->
     exists c, CompactNodeInfo_new (concat encs) = Ok c /\ collect_nodes c = Ok ps) /\
  (forall bs, length bs mod BYTES_PER_COMPACT_NODE_INFO = 0 ->
     exists c ps, CompactNodeInfo_new bs = Ok c /\ collect_nodes c = Ok ps /\
       concat (compact_entry <$> ps) = bs) /\
  (forall bs, length bs mod BYTES_PER_COMPACT_NODE_INFO <> 0 ->
     CompactNodeInfo_new bs = Err (LengthError_new LengthMultipleExpected BYTES_PER_COMPACT_NODE_INFO)).
Proof.
  split_and!.
  - intros ns ps encs Hps Hencs.
    assert (encs = compact_entry <$> ps /\ Forall entry_wf ps) as [-> Hall].
    { revert encs Hencs. induction Hps as [|n p ns ps (Hid & Ha & Hwf) _ IH]; intros encs Hencs;
        inversion Hencs as [|? e ? encs' He Hencs']; subst; [done|].
      destruct (IH _ Hencs') as [-> Hall]. split; [|by constructor].
      rewrite (Node_encode_v4 n p.2) in He by (done || (rewrite Hid; apply Hwf)).
      injection He as <-. cbn. rewrite Hid. done. }
    eexists. split; [by apply compact_new_entries|]. by apply collect_nodes_entries.
  - intros bs Hm. apply Nat.Div0.mod_divides in Hm as [k Hk].
    destruct (entries_of_bytes k bs) as (ps & Hall & <- & _); [lia|].
    eexists _, ps. split_and!; [by apply compact_new_entries|by apply collect_nodes_entries|done].
  - intros bs Hm. unfold CompactNodeInfo_new. by rewrite decide_True.
Qed.
End node_lists.

Lemma compact_nodes_roundtrip_witness :
  let n := as_good (0%Z : @DateTime Chrono_Z) (mk_ShaHash (replicate 20 x01))
             (SockV4 (mk_SocketAddrV4 (mk_Ipv4Addr x7f x00 x00 x01) 6881)) in
  exists e c, Node_encode n = Ok e /\ CompactNodeInfo_new (e ++ e) = Ok c /\
    collect_nodes c = Ok [(node_id n, mk_SocketAddrV4 (mk_Ipv4Addr x7f x00 x00 x01) 6881);
                          (node_id n, mk_SocketAddrV4 (mk_Ipv4Addr x7f x00 x00 x01) 6881)].
Proof.
  intros n. set (p := (node_id n, mk_SocketAddrV4 (mk_Ipv4Addr x7f x00 x00 x01) 6881%Z)).
  destruct (proj1 (@compact_nodes_roundtrip Chrono_Z) [n; n] [p; p] [compact_entry p; compact_entry p]) as (c & H1 & H2).
  - repeat constructor; vm_compute; done.
  - repeat constructor; vm_compute; reflexivity.
  - exists (compact_entry p), c. split; [vm_compute; reflexivity|]. split; [exact H1|exact H2].
Defined.

(** ** Value lists *)

Section value_lists.
Context {B : Type} (bytes_of : B -> option bytes).

(** A value that is a compact address, a string of another length, or no string. *)
Definition is_value (v : B) (a : SocketAddrV4) : Prop :=
  exists bs, bytes_of v = Some bs /\ length bs = BYTES_PER_COMPACT_IP /\ a = bytes_be_to_sock_v4 bs.

Lemma check_values_skip vs socks : Forall2 is_value vs socks -> forall index rest,
  check_values bytes_of index (vs ++ rest) = check_values bytes_of (index + length vs) rest.
Proof.
  induction 1 as [|v a vs socks (bs & Hb & Hl & _) _ IH]; intros index rest; cbn [app length check_values].
  - by rewrite Nat.add_0_r.
  - rewrite Hb. cbn [unwrap mbind outcome_bind]. rewrite decide_False by auto. rewrite IH. f_equal. lia.
Qed.

Lemma value_iter_done pre :
  CompactValueInfoIter_next bytes_of (mk_CompactValueInfoIter pre (length pre)) =
  Ok (None, mk_CompactValueInfoIter pre (length pre)).
Proof. unfold CompactValueInfoIter_next. by rewrite decide_True. Qed.

Lemma value_iter_next pre v a post : is_value v a ->
  CompactValueInfoIter_next bytes_of (mk_CompactValueInfoIter (pre ++ v :: post) (length pre)) =
  Ok (Some a, mk_CompactValueInfoIter (pre ++ v :: post) (length pre + 1)).
Proof.
  intros (bs & Hb & Hl & ->). unfold CompactValueInfoIter_next. cbn [vi_pos vi_values].
  rewrite decide_False by (rewrite length_app; simpl; lia).
  rewrite list_lookup_middle by done. cbn [unwrap mbind outcome_bind]. rewrite Hb.
  cbn [unwrap mbind outcome_bind]. by rewrite socket_v4_from_bytes_convert.
Qed.

Lemma value_iter_collect vs socks : Forall2 is_value vs socks -> forall pre fuel, length vs < fuel ->
  collect (CompactValueInfoIter_next bytes_of) fuel (mk_CompactValueInfoIter (pre ++ vs) (length pre)) = Ok socks.
Proof.
  induction 1 as [|v a vs socks Hv _ IH]; intros pre fuel Hf;
    (destruct fuel as [|fuel]; [simpl in Hf; lia|]); cbn [collect].
  - rewrite app_nil_r. by rewrite value_iter_done.
  - rewrite (value_iter_next _ _ _ _ Hv). cbn [mbind outcome_bind].
    specialize (IH (pre ++ [v]) fuel ltac:(simpl in Hf; lia)).
    rewrite length_app, <- app_assoc in IH. cbn [length app] in IH. rewrite IH. done.
Qed.

(** Compact value lists: a list of six-byte strings is accepted and its
    iterator yields their addresses without a panic; the first string of another
    length is reported with its index; a value that is no string makes the
    constructor panic if no such string comes before it. *)
Theorem compact_values_spec vs socks :
  Forall2 is_value vs socks ->
  (exists c, CompactValueInfo_new bytes_of vs = Ok c /\
     collect (CompactValueInfoIter_next bytes_of) (length vs + 1) (CompactValueInfo_into_iter c) = Ok socks) /\
  (forall v bs rest, bytes_of v = Some bs -> length bs <> BYTES_PER_COMPACT_IP ->
     CompactValueInfo_new bytes_of (vs ++ v :: rest) =
     Err (LengthError_with_index LengthExpected BYTES_PER_COMPACT_IP (length vs))) /\
  (forall v rest, bytes_of v = None -> CompactValueInfo_new bytes_of (vs ++ v :: rest) = Panic).
Proof.
  intros Hvs. unfold CompactValueInfo_new. split_and!.
  - exists (mk_CompactValueInfo vs). split.
    + pose proof (check_values_skip vs socks Hvs 0 []) as Hc. rewrite app_nil_r in Hc. by rewrite Hc.
    + apply (value_iter_collect vs socks Hvs []). lia.
  - intros v bs rest Hb Hl. rewrite (check_values_skip vs socks) by done. cbn [check_values].
    rewrite Hb. cbn [unwrap mbind outcome_bind]. by rewrite decide_True.
  - intros v rest Hb. rewrite (check_values_skip vs socks) by done. cbn [check_values]. by rewrite Hb.
Qed.
End value_lists.

Lemma compact_values_spec_witness :
  let v := [x7f; x00; x00; x01; x1a; xe1] in
  CompactValueInfo_new Some [v; [x00]; v] = Err (LengthError_with_index LengthExpected 6 1).
Proof.
  intros v.
  apply (proj1 (proj2 (compact_values_spec Some [v] [bytes_be_to_sock_v4 v]
    ltac:(constructor; [exists v; done|constructor])))  [x00] [x00] [v] eq_refl).
  done.
Defined.
