(* ===== verification/Security.v ===== *)
(** * [bip_dht::security]: node ids bound to an address

    The CRC32-C checksum and the random bytes come from other crates: the
    checksum is a function argument, the bytes drawn are a function of the draw. *)

From stdpp Require Import prelude list gmap strings.
From Stdlib Require Import ZArith Lia Strings.Byte.
From S2P Require Import Prelude Bytes Convert Sha.

#[local] Open Scope Z_scope.

Definition IPV4_MASK : Z := 0x030F3FFF.
Definition IPV6_MASK : Z := 0x0103070F1F3F7FFF.
Definition CRC32C_ARG_SLICE_SIZE : nat := 8.

(** [Into::<u32>::into(addr)], then the mask. *)
Definition mask_ipv4_be (addr : Ipv4Addr) : Z :=
  let ip_be := be_value (octets addr) in
  Z.land ip_be IPV4_MASK.

Definition is_security_compliant_ipv4_exempt (addr : Ipv4Addr) : bool := false.

Definition is_compliant_id (crc32c_result : Z) (id_bytes : bytes) : bool :=
  let is_compliant := true in
  let is_compliant := is_compliant && bool_decide (id_bytes !!! 0%nat = as_u8 (Z.shiftr crc32c_result 24)) in
  let is_compliant := is_compliant && bool_decide (id_bytes !!! 1%nat = as_u8 (Z.shiftr crc32c_result 16)) in
  let mid_id_bits := Z.land (Z.shiftr (byte_val (id_bytes !!! 2%nat)) 0) 0xF8 in
  let mid_hash_bits := Z.land (byte_val (as_u8 (Z.shiftr crc32c_result 8))) 0xF8 in
  is_compliant && bool_decide (mid_id_bits = mid_hash_bits).

Section security.
Context (checksum_castagnoli : bytes -> Z).

(** The draws of [rand::random::<u8>()]: number [0] is mixed into byte 2, the
    following sixteen fill bytes 3 to 18. *)
Definition generate_compliant_id (masked_ip_be : Z) (num_octets : nat) (rand : byte)
    (draws : nat -> byte) : bytes :=
  let r := Z.land (byte_val rand) 0x07 in
  let masked_ip_bytes := eight_bytes_to_array masked_ip_be in
  let starting_byte := (length masked_ip_bytes - num_octets)%nat in
  let masked_ip_bytes :=
    <[starting_byte := as_u8 (Z.lor (byte_val (masked_ip_bytes !!! starting_byte)) (as_unsigned 8 (Z.shiftl r 5)))]>
      masked_ip_bytes in
  let crc32c_result := checksum_castagnoli (drop starting_byte masked_ip_bytes) in
  let node_id := replicate SHA_HASH_LEN x00 in
  let node_id := <[0%nat := as_u8 (Z.shiftr crc32c_result 24)]> node_id in
  let node_id := <[1%nat := as_u8 (Z.shiftr crc32c_result 16)]> node_id in
  let node_id :=
    <[2%nat := as_u8 (Z.lor (byte_val (as_u8 (Z.land (Z.shiftr crc32c_result 8) 0xF8)))
                            (Z.land (byte_val (draws 0%nat)) 0x07))]> node_id in
  let node_id := foldl (fun id i => <[i := draws (i - 2)%nat]> id) node_id (seq 3 16) in
  <[19%nat := rand]> node_id.

Definition generate_compliant_id_ipv4 (addr : Ipv4Addr) (rand : byte) (draws : nat -> byte) : ShaHash :=
  let masked_ipv4_be := mask_ipv4_be addr in
  mk_ShaHash (generate_compliant_id masked_ipv4_be 4 rand draws).

Definition is_compliant_addr (masked_ip_be : Z) (num_octets : nat) (id : ShaHash) : outcome Empty_set bool :=
  if decide (CRC32C_ARG_SLICE_SIZE < num_octets)%nat then Panic
  else
    let id_bytes := sha_hash id in
    let rand := id_bytes !!! 19%nat in
    let r := Z.land (byte_val rand) 0x07 in
    let ip_bits_used := (num_octets * 8)%nat in
    if decide (ip_bits_used < 3)%nat then Panic
    else
      let rand_masked_ip := Z.lor masked_ip_be (as_unsigned 64 (Z.shiftl r (Z.of_nat (ip_bits_used - 3)))) in
      let rand_masked_ip_bytes := eight_bytes_to_array rand_masked_ip in
      let crc32c_result := checksum_castagnoli (drop 4 rand_masked_ip_bytes) in
      Ok (is_compliant_id crc32c_result id_bytes).

Definition is_compliant_ipv4_addr (addr : Ipv4Addr) (id : ShaHash) : outcome Empty_set bool :=
  if is_security_compliant_ipv4_exempt addr then Ok true
  else
    let masked_ip_be := mask_ipv4_be addr in
    is_compliant_addr masked_ip_be 4 id.
End security.

(** ** Lemmas *)

Lemma as_u8_eq a b : a mod 256 = b mod 256 -> as_u8 a = as_u8 b.
Proof. intros H. by rewrite <- (as_u8_mod a), <- (as_u8_mod b), H. Qed.

Lemma mod256_land a : a mod 256 = Z.land a (Z.ones 8).
Proof. by rewrite Z.land_ones. Qed.

(** Or-ing bits at or above the byte leaves the byte alone. *)
Lemma as_u8_lor_high m r k :
  0 <= k <= 21 -> as_u8 (Z.shiftr (Z.lor m (Z.shiftl r 29)) k) = as_u8 (Z.shiftr m k).
Proof.
  intros Hk. apply as_u8_eq. rewrite Z.shiftr_lor, Z.shiftr_shiftl_l by lia.
  rewrite !mod256_land, Z.land_lor_distr_l. rewrite (Z.land_ones (Z.shiftl _ _)) by done.
  rewrite Z.shiftl_mul_pow2 by lia.
  replace (29 - k) with (21 - k + 8) by lia. rewrite Z.pow_add_r, Z.mul_assoc by lia.
  by rewrite Z_mod_mult, Z.lor_0_r.
Qed.

Lemma as_u8_lor_top m r :
  as_u8 (Z.shiftr (Z.lor m (Z.shiftl r 29)) 24) =
  as_u8 (Z.lor (byte_val (as_u8 (Z.shiftr m 24))) (as_unsigned 8 (Z.shiftl r 5))).
Proof.
  apply as_u8_eq. rewrite Z.shiftr_lor, Z.shiftr_shiftl_l by lia. rewrite byte_val_as_u8.
  unfold as_unsigned. change (2 ^ 8) with 256. rewrite !mod256_land, !Z.land_lor_distr_l.
  by rewrite <- !Z.land_assoc, Z.land_diag.
Qed.

(** The four hashed bytes of both directions agree. *)
Lemma hashed_bytes_agree m r :
  0 <= r < 8 ->
  let bs := eight_bytes_to_array m in
  drop 4 (<[4%nat := as_u8 (Z.lor (byte_val (bs !!! 4%nat)) (as_unsigned 8 (Z.shiftl r 5)))]> bs) =
  drop 4 (eight_bytes_to_array (Z.lor m (as_unsigned 64 (Z.shiftl r 29)))).
Proof.
  intros Hr bs. subst bs. rewrite (as_unsigned_id 64) by (unfold in_unsigned; rewrite Z.shiftl_mul_pow2 by lia; lia).
  unfold eight_bytes_to_array. cbn [drop insert list_insert lookup_total list_lookup_total].
  rewrite as_u8_lor_top. rewrite !as_u8_lor_high by lia.
  rewrite <- (Z.shiftr_0_r (Z.lor m _)) at 1. rewrite as_u8_lor_high by lia. rewrite Z.shiftr_0_r. done.
Qed.

Lemma mid_bits c d :
  Z.land (Z.shiftr (byte_val (as_u8 (Z.lor (byte_val (as_u8 (Z.land c 0xF8))) (Z.land d 0x07)))) 0) 0xF8 =
  Z.land (byte_val (as_u8 c)) 0xF8.
Proof.
  rewrite Z.shiftr_0_r, !byte_val_as_u8, !mod256_land, !Z.land_lor_distr_l, <- !Z.land_assoc.
  change (Z.land (Z.ones 8) 248) with 248.
  change (Z.land 248 (Z.land (Z.ones 8) 248)) with 248.
  change (Z.land 7 248) with 0. rewrite Z.land_0_r, Z.lor_0_r.
  f_equal.
Qed.

Lemma land_f8 b : Z.land (byte_val b) 0xF8 = 8 * (byte_val b / 8).
Proof. by destruct b. Qed.

Lemma land_7 b : 0 <= Z.land (byte_val b) 0x07 < 8.
Proof. by destruct b. Qed.

(** The three comparisons are one comparison of the first 21 bits. *)
Lemma is_compliant_id_21_bits c b0 b1 b2 rest :
  in_unsigned 32 c ->
  is_compliant_id c (b0 :: b1 :: b2 :: rest) = bool_decide (be_value [b0; b1; b2] / 2 ^ 3 = c / 2 ^ 11).
Proof.
  intros Hc. unfold in_unsigned in Hc. unfold is_compliant_id.
  cbn [lookup_total list_lookup_total]. rewrite Z.shiftr_0_r, !land_f8, byte_val_as_u8.
  rewrite !Z.shiftr_div_pow2 by done. rewrite andb_true_l, <- !bool_decide_and. apply bool_decide_ext.
  rewrite <- !byte_ltb_val, !byte_val_as_u8.
  replace (be_value [b0; b1; b2]) with (byte_val b0 * 65536 + byte_val b1 * 256 + byte_val b2)
    by (unfold be_value; cbn [be_value_acc]; lia).
  pose proof (byte_val_range b0); pose proof (byte_val_range b1); pose proof (byte_val_range b2).
  change (2 ^ 24) with 16777216. change (2 ^ 16) with 65536. change (2 ^ 8) with 256.
  change (2 ^ 3) with 8. change (2 ^ 11) with 2048. change (2 ^ 32) with 4294967296 in Hc.
  Z.to_euclidean_division_equations. lia.
Qed.

Lemma generated_bytes crc m rand draws :
  let r := Z.land (byte_val rand) 7 in
  let c := crc (drop 4 (eight_bytes_to_array (Z.lor m (as_unsigned 64 (Z.shiftl r 29))))) in
  let id := generate_compliant_id crc m 4 rand draws in
  length id = SHA_HASH_LEN /\ id !!! 19%nat = rand /\ is_compliant_id c id = true.
Proof.
  intros r c id. assert (exists rest, id = as_u8 (Z.shiftr c 24) :: as_u8 (Z.shiftr c 16) ::
    as_u8 (Z.lor (byte_val (as_u8 (Z.land (Z.shiftr c 8) 0xF8))) (Z.land (byte_val (draws 0%nat)) 0x07)) :: rest /\
    length rest = 17%nat /\ rest !!! 16%nat = rand) as (rest & -> & Hl & Hr).
  { subst id c. unfold generate_compliant_id.
    change (length (eight_bytes_to_array m) - 4)%nat with 4%nat.
    rewrite hashed_bytes_agree by apply land_7. eexists. split_and!; reflexivity. }
  split_and!; [simpl; unfold SHA_HASH_LEN; lia|exact Hr|].
  unfold is_compliant_id. cbn [lookup_total list_lookup_total].
  rewrite !andb_true_iff, !bool_decide_eq_true. split_and!; [done|done|done|]. apply mid_bits.
Qed.

(** Node ids generated for an IPv4 address are twenty bytes long and accepted
    for that address, for any checksum function and any random bytes; and in
    general an id is accepted exactly when its first 21 bits are those of the
    checksum of the masked address mixed with its last byte. *)
Theorem generated_ids_compliant (crc : bytes -> Z) (addr : Ipv4Addr) :
  (forall bs, in_unsigned 32 (crc bs)) ->
  (forall rand draws,
     let id := generate_compliant_id_ipv4 crc addr rand draws in
     sha_wf id /\ is_compliant_ipv4_addr crc addr id = Ok true) /\
  (forall id, sha_wf id ->
     let r := Z.land (byte_val (sha_hash id !!! 19%nat)) 7 in
     let hash := crc (be_bytes 4 (Z.lor (mask_ipv4_be addr) (Z.shiftl r 29))) in
     is_compliant_ipv4_addr crc addr id =
     Ok (bool_decide (be_value (take 3 (sha_hash id)) / 2 ^ 3 = hash / 2 ^ 11))).
Proof.
  intros Hcrc. split.
  - intros rand draws id. destruct (generated_bytes crc (mask_ipv4_be addr) rand draws) as (Hl & Hr & Hc).
    split; [exact Hl|]. subst id.
    unfold is_compliant_ipv4_addr, is_security_compliant_ipv4_exempt, is_compliant_addr, generate_compliant_id_ipv4.
    rewrite decide_False by (unfold CRC32C_ARG_SLICE_SIZE; lia). rewrite decide_False by lia.
    cbn [sha_hash]. rewrite Hr. f_equal. exact Hc.
  - intros [id] Hid r hash. unfold sha_wf, SHA_HASH_LEN in Hid; cbn [sha_hash] in Hid.
    unfold is_compliant_ipv4_addr, is_security_compliant_ipv4_exempt, is_compliant_addr.
    rewrite decide_False by (unfold CRC32C_ARG_SLICE_SIZE; lia). rewrite decide_False by lia. f_equal.
    change (Z.of_nat (4 * 8 - 3)) with 29. fold r.
    rewrite (as_unsigned_id 64).
    2:{ unfold in_unsigned. rewrite Z.shiftl_mul_pow2 by lia. pose proof (land_7 (sha_hash (mk_ShaHash id) !!! 19%nat)). subst r. lia. }
    rewrite eight_bytes_be. change (drop 4 (be_bytes 8 ?z)) with (be_bytes 4 z). fold hash.
    do 3 (destruct id as [|? id]; [discriminate Hid|]). apply is_compliant_id_21_bits, Hcrc.
Qed.

Lemma generated_ids_compliant_witness :
  let crc := fun bs => be_value bs mod 2 ^ 32 in
  let addr := mk_Ipv4Addr x7c x1f x4b x15 in
  is_compliant_ipv4_addr crc addr (generate_compliant_id_ipv4 crc addr x01 (fun _ => xff)) = Ok true.
Proof.
  intros crc addr.
  apply (proj1 (generated_ids_compliant crc addr (fun bs => Z.mod_pos_bound _ (2 ^ 32) ltac:(done))) x01 (fun _ => xff)).
Defined.
