(* ===== verification/Fs.v ===== *)
(** * [bip_disk::disk::fs]: the file system interface

    The [FileSystem] trait becomes a class of operations over an abstract
    world; [FsSpec] states what its documentation promises of a file that
    exists.  [FileHandleCache] is an instance built over any other; an in-memory
    file system shows that the laws can be met. *)

From stdpp Require Import prelude list gmap strings.
From Stdlib Require Import ZArith Lia Strings.Byte.
From S2P Require Import Prelude Bytes.

(** ** Paths *)

Record path : Type := mk_path { is_absolute : bool; components : list bytes }.

#[export] Instance path_eq_dec : EqDecision path.
Proof. solve_decision. Defined.

#[export] Program Instance path_countable : Countable path :=
  inj_countable' (fun p => (is_absolute p, components p)) (fun '(a, c) => mk_path a c) _.
Next Obligation. by intros []. Qed.

(** [Path::components]: a dot only counts at the start of a relative path. *)
Definition DOT : bytes := ["."%byte].
Definition normalize (absolute : bool) (cs : list bytes) : list bytes :=
  match cs with
  | c :: cs' => if decide (c = DOT /\ absolute = false) then DOT :: filter (fun c => c <> DOT) cs' else filter (fun c => c <> DOT) cs
  | [] => []
  end.

(** [Path::join]: an absolute argument replaces the path. *)
Definition join (p q : path) : path :=
  if is_absolute q then q else mk_path (is_absolute p) (normalize (is_absolute p) (components p ++ components q)).

(** ** The trait *)

Class FileSystem : Type := {
  fs_world : Type;
  fs_file : Type;
  io_error : Type;
  open_file : path -> stM fs_world io_error fs_file;
  sync_file : path -> stM fs_world io_error ();
  file_size : fs_file -> stM fs_world io_error nat;
  (** the bytes read into a buffer of the given length *)
  read_file : fs_file -> nat -> nat -> stM fs_world io_error bytes;
  write_file : fs_file -> nat -> bytes -> stM fs_world io_error nat;
}.

(** Bytes written at an offset; a gap is filled with zeroes. *)
Definition patch (c : bytes) (off : nat) (bs : bytes) : bytes :=
  take off c ++ replicate (off - length c) x00 ++ bs ++ drop (off + length bs) c.

Class FsSpec (F : FileSystem) : Type := {
  fs_wf : fs_world -> Prop;
  contents : fs_world -> path -> option bytes;
  path_of : fs_file -> path;
  open_ok : forall w p c, fs_wf w -> contents w p = Some c ->
    exists f w', open_file p w = (Ok f, w') /\ path_of f = p /\
      fs_wf w' /\ (forall q, contents w' q = contents w q);
  open_new : forall w p, fs_wf w -> contents w p = None ->
    exists f w', open_file p w = (Ok f, w') /\ path_of f = p /\
      fs_wf w' /\ contents w' p = Some [] /\ (forall q, q <> p -> contents w' q = contents w q);
  size_ok : forall w f c, fs_wf w -> contents w (path_of f) = Some c ->
    exists w', file_size f w = (Ok (length c), w') /\ fs_wf w' /\ (forall q, contents w' q = contents w q);
  read_ok : forall w f c off n, fs_wf w -> contents w (path_of f) = Some c -> off + n <= length c ->
    exists w', read_file f off n w = (Ok (slice c off (off + n)), w') /\
      fs_wf w' /\ (forall q, contents w' q = contents w q);
  write_ok : forall w f c off bs, fs_wf w -> contents w (path_of f) = Some c ->
    exists w', write_file f off bs w = (Ok (length bs), w') /\ fs_wf w' /\
      contents w' (path_of f) = Some (patch c off bs) /\
      (forall q, q <> path_of f -> contents w' q = contents w q);
}.

(** ** [FileHandleCache]

    [LruCache] belongs to another crate: a class with its documented
    behaviour, that a lookup finds what was last inserted for the key, if anything. *)
Class LruCache (K V : Type) : Type := {
  lru : Type;
  lru_new : nat -> lru;
  lru_get_mut : lru -> K -> option V * lru;
  lru_insert : lru -> K -> V -> lru;
  lru_clear : lru -> lru;
}.

Class LruSpec (K V : Type) `{LruCache K V} : Type := {
  lru_holds : lru -> K -> V -> Prop;
  lru_new_holds : forall n k v, ~ lru_holds (lru_new n) k v;
  lru_get_holds : forall c k v c', lru_get_mut c k = (Some v, c') -> lru_holds c k v;
  lru_get_keeps : forall c k o c' k' v', lru_get_mut c k = (o, c') -> lru_holds c' k' v' -> lru_holds c k' v';
  lru_insert_holds : forall c k v k' v',
    lru_holds (lru_insert c k v) k' v' -> (k' = k /\ v' = v) \/ lru_holds c k' v';
  lru_clear_holds : forall c k v, ~ lru_holds (lru_clear c) k v;
}.

Section cache.
Context (inner : FileSystem) {L : LruCache path (@fs_file inner)}.

(** [cache] and [inner]; an [Arc<Mutex<File>>] is the inner handle. *)
Record FileHandleCache : Type := mk_FileHandleCache { cache : lru; inner_world : @fs_world inner }.

Definition FileHandleCache_new (inner : fs_world) (capacity : nat) : FileHandleCache :=
  mk_FileHandleCache (lru_new capacity) inner.

(** A call of the inner file system. *)
Definition run_inner {A} (m : stM (@fs_world inner) io_error A) : stM FileHandleCache io_error A :=
  fun s => let '(o, w) := m (inner_world s) in (o, mk_FileHandleCache (cache s) w).

Definition run_with_lock {A} (call : lru -> A * lru) : stM FileHandleCache io_error A :=
  fun s => let '(a, c) := call (cache s) in (Ok a, mk_FileHandleCache c (inner_world s)).

Definition cache_open_file (p : path) : stM FileHandleCache io_error (@fs_file inner) :=
  entry ← run_with_lock (fun c => lru_get_mut c p);
  match entry with
  | Some file => mret file
  | None =>
      file ← run_inner (open_file p);
      _ ← run_with_lock (fun c => ((), lru_insert c p file));
      mret file
  end.

Definition cache_sync_file (p : path) : stM FileHandleCache io_error () :=
  _ ← run_with_lock (fun c => ((), lru_clear c));
  run_inner (sync_file p).

Definition FileHandleCache_fs : FileSystem := {|
  fs_world := FileHandleCache;
  fs_file := @fs_file inner;
  io_error := @io_error inner;
  open_file := cache_open_file;
  sync_file := cache_sync_file;
  file_size f := run_inner (file_size f);
  read_file f off n := run_inner (read_file f off n);
  write_file f off bs := run_inner (write_file f off bs);
|}.
End cache.

Arguments cache {inner L} _.
Arguments inner_world {inner L} _.
Arguments mk_FileHandleCache {inner L} _ _.

(** ** The cache keeps the interface *)

Section cache_spec.
Context (inner : FileSystem) {SP : FsSpec inner} {L : LruCache path (@fs_file inner)} {LS : LruSpec path (@fs_file inner)}.

(** Cached handles are handles of the path they are filed under, and the file exists. *)
Definition cache_wf (s : FileHandleCache inner) : Prop :=
  fs_wf (inner_world s) /\
  forall p f, lru_holds (cache s) p f -> path_of f = p /\ is_Some (contents (inner_world s) p).

Lemma cache_wf_world s c w :
  cache_wf s -> fs_wf w -> (forall p, is_Some (contents (inner_world s) p) -> is_Some (contents w p)) ->
  (forall p f, lru_holds c p f -> lru_holds (cache s) p f \/ (path_of f = p /\ is_Some (contents w p))) ->
  cache_wf (mk_FileHandleCache c w).
Proof.
  intros [_ Hc] Hw Hkeep Hh. split; [done|]. cbn. intros p f Hf.
  destruct (Hh p f Hf) as [[H1 H2]%Hc|H]; [|done]. auto.
Qed.

Lemma run_inner_ok {A} (m : stM fs_world io_error A) s a w' :
  m (inner_world s) = (Ok a, w') -> run_inner inner m s = (Ok a, mk_FileHandleCache (cache s) w').
Proof. intros H. unfold run_inner. by rewrite H. Qed.

Lemma cache_open_ok s p c :
  cache_wf s -> contents (inner_world s) p = Some c ->
  exists f s', cache_open_file inner p s = (Ok f, s') /\ path_of f = p /\ cache_wf s' /\
    forall q, contents (inner_world s') q = contents (inner_world s) q.
Proof.
  intros Hwf Hp. pose proof Hwf as [Hw Hc]. unfold cache_open_file.
  destruct (lru_get_mut (cache s) p) as [o c'] eqn:Hget.
  erewrite stM_bind_ok by (unfold run_with_lock; by rewrite Hget).
  destruct o as [f|].
  - exists f, (mk_FileHandleCache c' (inner_world s)). split; [done|]. split; [by eapply Hc, lru_get_holds|].
    split; [|done]. apply (cache_wf_world s); [done|done|done|]. eauto using lru_get_keeps.
  - destruct (open_ok (inner_world s) p c Hw Hp) as (f & w' & Ho & Hf & Hw' & Hsame).
    erewrite stM_bind_ok by (apply run_inner_ok; exact Ho). cbn [cache].
    erewrite stM_bind_ok by (unfold run_with_lock; reflexivity).
    eexists f, _. split; [reflexivity|]. split; [done|]. split; [|done]. cbn [cache inner_world].
    apply (cache_wf_world s); [done|done|intros q; by rewrite Hsame|].
    intros k f' [[-> ->]|Hh]%lru_insert_holds; [right; rewrite Hsame, Hp; eauto|].
    left. by eapply lru_get_keeps.
Qed.

Lemma cache_open_new s p :
  cache_wf s -> contents (inner_world s) p = None ->
  exists f s', cache_open_file inner p s = (Ok f, s') /\ path_of f = p /\ cache_wf s' /\
    contents (inner_world s') p = Some [] /\
    forall q, q <> p -> contents (inner_world s') q = contents (inner_world s) q.
Proof.
  intros Hwf Hp. pose proof Hwf as [Hw Hc]. unfold cache_open_file.
  destruct (lru_get_mut (cache s) p) as [o c'] eqn:Hget.
  erewrite stM_bind_ok by (unfold run_with_lock; by rewrite Hget).
  destruct o as [f|].
  - exfalso. destruct (Hc p f) as [_ [c Hx]]; [by eapply lru_get_holds|]. congruence.
  - destruct (open_new (inner_world s) p Hw Hp) as (f & w' & Ho & Hf & Hw' & Hnew & Hsame).
    erewrite stM_bind_ok by (apply run_inner_ok; exact Ho). cbn [cache].
    erewrite stM_bind_ok by (unfold run_with_lock; reflexivity).
    eexists f, _. split; [reflexivity|]. split; [done|]. split; [|done]. cbn [cache inner_world].
    apply (cache_wf_world s); [done|done| |].
    + intros q Hq. destruct (decide (q = p)) as [->|Hne]; [rewrite Hnew; eauto|by rewrite Hsame].
    + intros k f' [[-> ->]|Hh]%lru_insert_holds; [right; rewrite Hnew; eauto|].
      left. by eapply lru_get_keeps.
Qed.

#[export] Program Instance FileHandleCache_spec : FsSpec (FileHandleCache_fs inner) := {|
  fs_wf := cache_wf;
  contents s := @contents inner SP (inner_world s);
  path_of := @path_of inner SP;
|}.
Next Obligation. apply cache_open_ok. Qed.
Next Obligation. apply cache_open_new. Qed.
Next Obligation.
  intros s f c Hwf Hp. destruct (@size_ok inner SP (inner_world s) f c (proj1 Hwf) Hp) as (w' & Hs & Hw' & Hsame).
  eexists. split; [by apply run_inner_ok|]. split; [|done].
  apply (cache_wf_world s); [done|done|intros q; by rewrite Hsame|auto].
Qed.
Next Obligation.
  intros s f c off n Hwf Hp Hn.
  destruct (@read_ok inner SP (inner_world s) f c off n (proj1 Hwf) Hp Hn) as (w' & Hs & Hw' & Hsame).
  eexists. split; [by apply run_inner_ok|]. split; [|done].
  apply (cache_wf_world s); [done|done|intros q; by rewrite Hsame|auto].
Qed.
Next Obligation.
  intros s f c off bs Hwf Hp.
  destruct (@write_ok inner SP (inner_world s) f c off bs (proj1 Hwf) Hp) as (w' & Hs & Hw' & Hat & Hsame).
  eexists. split; [by apply run_inner_ok|]. split; [|done].
  apply (cache_wf_world s); [done|done| |auto].
  intros q Hq. destruct (decide (q = @path_of inner SP f)) as [->|Hne]; [rewrite Hat; eauto|by rewrite Hsame].
Qed.
End cache_spec.

(** ** An in-memory file system and a small cache *)

Definition MemFs : FileSystem := {|
  fs_world := gmap path bytes;
  fs_file := path;
  io_error := string;
  open_file p := fun w => (Ok p, if w !! p is Some _ then w else <[p := []]> w);
  sync_file p := fun w => (Ok (), w);
  file_size f := fun w => (if w !! f is Some c then Ok (length c) else Err "not found"%string, w);
  read_file f off n := fun w =>
    (if w !! f is Some c then Ok (take n (drop off c)) else Err "not found"%string, w);
  write_file f off bs := fun w =>
    if w !! f is Some c then (Ok (length bs), <[f := patch c off bs]> w) else (Err "not found"%string, w);
|}.

#[export] Program Instance MemFs_spec : FsSpec MemFs := {|
  fs_wf _ := True;
  contents w p := w !! p;
  path_of f := f;
|}.
Next Obligation. intros w p c _ Hp. exists p, w. simpl in *. rewrite Hp. done. Qed.
Next Obligation.
  intros w p _ Hp. eexists p, _. simpl in *. rewrite Hp. split_and!; [done|done|done| |].
  - apply lookup_insert_eq.
  - intros q Hq. by rewrite lookup_insert_ne.
Qed.
Next Obligation. intros w f c _ Hp. exists w. simpl in *. rewrite Hp. done. Qed.
Next Obligation.
  intros w f c off n _ Hp Hn. exists w. simpl in *. rewrite Hp. unfold slice.
  replace (off + n - off) with n by lia. done.
Qed.
Next Obligation.
  intros w f c off bs _ Hp. eexists. simpl in *. rewrite Hp. split_and!; [done|done| |].
  - apply lookup_insert_eq.
  - intros q Hq. by rewrite lookup_insert_ne.
Qed.

Definition lru_list {K V} `{EqDecision K} : LruCache K V := {|
  lru := nat * list (K * V);
  lru_new n := (n, []);
  lru_get_mut c k :=
    match filter (fun e => e.1 = k) c.2 with
    | (_, v) :: _ => (Some v, (c.1, (k, v) :: filter (fun e => e.1 <> k) c.2))
    | [] => (None, c)
    end;
  lru_insert c k v := (c.1, take c.1 ((k, v) :: filter (fun e => e.1 <> k) c.2));
  lru_clear c := (c.1, []);
|}.

Program Definition lru_list_spec {K V} `{EqDecision K} : @LruSpec K V lru_list :=
  @Build_LruSpec K V lru_list (fun c k v => (k, v) ∈ c.2) _ _ _ _ _.
Next Obligation. intros K V ? n k v. apply not_elem_of_nil. Qed.
Next Obligation.
  intros K V ? [n l] k v c'; simpl. destruct (filter _ l) as [|[k' v'] rest] eqn:Hf; [done|].
  intros [= <- <-]. assert ((k', v') ∈ filter (fun e => e.1 = k) l) as [Hk Hin]%list_elem_of_filter
    by (rewrite Hf; left). simpl in Hk. by subst.
Qed.
Next Obligation.
  intros K V ? [n l] k o c' k' v'; simpl. destruct (filter _ l) as [|[k1 v1] rest] eqn:Hf; intros [= <- <-]; simpl; [done|].
  assert ((k1, v1) ∈ filter (fun e => e.1 = k) l) as [Hk Hin]%list_elem_of_filter by (rewrite Hf; left).
  simpl in Hk. subst k1. intros [[= -> ->]|Hx]%elem_of_cons; [done|]. by apply list_elem_of_filter in Hx as [_ ?].
Qed.
Next Obligation.
  intros K V ? [n l] k v k' v'; simpl. intros Hx.
  assert ((k', v') ∈ (k, v) :: filter (fun e => e.1 <> k) l) as [[= -> ->]|Hy]%elem_of_cons.
  { rewrite <- (take_drop n (_ :: _)). apply elem_of_app. by left. }
  - by left.
  - right. by apply list_elem_of_filter in Hy as [_ ?].
Qed.
Next Obligation. intros K V ? c k v. apply not_elem_of_nil. Qed.

(** Handle caching is transparent: over any file system with the documented
    behaviour and any least-recently-used cache, [FileHandleCache] has the
    documented behaviour too, with the contents of the file system below, and
    a new cache is well formed; the proof shows in particular that a cached
    handle always belongs to the path it is found under. *)
Theorem file_handle_cache_transparent (inner : FileSystem) (SP : FsSpec inner)
    (L : LruCache path (@fs_file inner)) (LS : LruSpec path (@fs_file inner)) :
  exists S : FsSpec (FileHandleCache_fs inner),
    (forall s p, @contents _ S s p = @contents _ SP (inner_world s) p) /\
    (forall w n, @fs_wf _ SP w -> @fs_wf _ S (FileHandleCache_new inner w n)).
Proof.
  exists (FileHandleCache_spec inner). split; [done|].
  intros w n Hw. split; [done|]. intros p f Hh. by apply lru_new_holds in Hh.
Qed.

Lemma file_handle_cache_transparent_witness :
  exists S : FsSpec (@FileHandleCache_fs MemFs lru_list), forall s p,
    @contents _ S s p = @contents _ MemFs_spec (inner_world s) p.
Proof.
  destruct (file_handle_cache_transparent MemFs MemFs_spec lru_list lru_list_spec) as (S & H & _).
  exists S. exact H.
Defined.
