(* ===== verification/Metainfo.v ===== *)
(** * [bip_metainfo]: torrent descriptions

    The records of [metainfo.rs] and their accessors, as the disk manager uses
    them; [u64] sizes are natural numbers. *)

From stdpp Require Import prelude list gmap strings.
From Stdlib Require Import ZArith Lia Strings.Byte.
From S2P Require Import Prelude Bytes BTreeMap DecStr Bencode BencodeTotal BencodeRoundtrip BencodeAccess Convert Sha Fs.

Record File : Type := mk_File {
  file_len : nat;
  file_path : path;
  file_md5sum : option bytes;
}.

Record Info : Type := mk_Info {
  info_hash : ShaHash;
  files : list File;
  pieces : list bytes;
  piece_len : nat;
  is_private : option bool;
  file_directory : option path;
}.

Record Metainfo : Type := mk_Metainfo {
  mi_comment : option bytes;
  mi_announce : option bytes;
  mi_announce_list : option (list (list bytes));
  mi_encoding : option bytes;
  mi_created_by : option bytes;
  mi_creation_date : option Z;
  mi_info : Info;
}.

(** [helpers::build_path] *)
Definition build_path (parent_directory : option path) (file : File) : path :=
  match parent_directory with
  | Some dir => join dir (file_path file)
  | None => file_path file
  end.

(** [info_dict.files().map(|file| file.length()).sum()] *)
Definition total_bytes (info_dict : Info) : nat := sum_list (file_len <$> files info_dict).

Definition paths (info_dict : Info) : list path := build_path (file_directory info_dict) <$> files info_dict.

(** * [bip_metainfo]: reading torrent files

    The accessors of [parse.rs] and the parsers of [metainfo.rs] over decoded
    bencode.  A [PathBuf] is its components, as its equality is; sizes are
    natural numbers, after the cast to [u64] the code makes. *)

Definition ROOT_ERROR_KEY : bytes := bstr "root".
Definition ANNOUNCE_LIST_KEY : bytes := bstr "announce-list".
Definition ANNOUNCE_URL_KEY : bytes := bstr "announce".
Definition CREATION_DATE_KEY : bytes := bstr "creation date".
Definition COMMENT_KEY : bytes := bstr "comment".
Definition CREATED_BY_KEY : bytes := bstr "created by".
Definition ENCODING_KEY : bytes := bstr "encoding".
Definition INFO_KEY : bytes := bstr "info".
Definition PIECE_LENGTH_KEY : bytes := bstr "piece length".
Definition PIECES_KEY : bytes := bstr "pieces".
Definition PRIVATE_KEY : bytes := bstr "private".
Definition NAME_KEY : bytes := bstr "name".
Definition FILES_KEY : bytes := bstr "files".
Definition LENGTH_KEY : bytes := bstr "length".
Definition MD5SUM_KEY : bytes := bstr "md5sum".
Definition PATH_KEY : bytes := bstr "path".

(** [ParseError]; the details of missing data are the length they name. *)
Inductive ParseError : Type :=
| ConvertError (e : BencodeConvertErrorKind)
| DecodeError (e : BencodeParseErrorKind)
| MissingData (pieces_len : nat).

Definition as_u64 (len : Z) : nat := Z.to_nat (as_unsigned 64 len).
Definition ok {E A} (m : outcome E A) : option A := match m with Ok a => Some a | _ => None end.

(** ** Paths from strings *)

Definition SEPARATOR : byte := "/"%byte.

(** The parts between separators. *)
Fixpoint split_separator (s : bytes) : list bytes :=
  match s with
  | [] => [[]]
  | b :: s =>
      if decide (b = SEPARATOR) then [] :: split_separator s
      else match split_separator s with c :: cs => (b :: c) :: cs | [] => [[b]] end
  end.

Definition path_of_str (s : bytes) : path :=
  let absolute := bool_decide (head s = Some SEPARATOR) in
  mk_path absolute (normalize absolute (filter (fun c => c <> []) (split_separator s))).

(** [PathBuf::new] *)
Definition path_new : path := mk_path false [].

(** ** [parse.rs] *)

Section parse.
Context {B : Type} `{BRefAccess B}.

Definition parse_root_dict (root_bencode : B) : outcome ParseError (list (bytes * B)) :=
  BConvert.convert_dict ConvertError root_bencode ROOT_ERROR_KEY.

Definition parse_announce_list (root_dict : list (bytes * B)) : option (list B) :=
  ok (BConvert.lookup_and_convert_list ConvertError root_dict ANNOUNCE_LIST_KEY).

Definition convert_announce_list (l : list B) : list (list bytes) :=
  omap bra_str <$> omap bra_list l.

Definition parse_announce_url (root_dict : list (bytes * B)) : option bytes :=
  ok (BConvert.lookup_and_convert_str ConvertError root_dict ANNOUNCE_URL_KEY).

Definition parse_creation_date (root_dict : list (bytes * B)) : option Z :=
  ok (BConvert.lookup_and_convert_int ConvertError root_dict CREATION_DATE_KEY).

Definition parse_comment (root_dict : list (bytes * B)) : option bytes :=
  ok (BConvert.lookup_and_convert_str ConvertError root_dict COMMENT_KEY).

Definition parse_created_by (root_dict : list (bytes * B)) : option bytes :=
  ok (BConvert.lookup_and_convert_str ConvertError root_dict CREATED_BY_KEY).

Definition parse_encoding (root_dict : list (bytes * B)) : option bytes :=
  ok (BConvert.lookup_and_convert_str ConvertError root_dict ENCODING_KEY).

Definition parse_info_bencode (root_dict : list (bytes * B)) : outcome ParseError B :=
  BConvert.lookup ConvertError root_dict INFO_KEY.

Definition parse_piece_length (info_dict : list (bytes * B)) : outcome ParseError nat :=
  len ← BConvert.lookup_and_convert_int ConvertError info_dict PIECE_LENGTH_KEY; Ok (as_u64 len).

Definition parse_pieces (info_dict : list (bytes * B)) : outcome ParseError bytes :=
  BConvert.lookup_and_convert_bytes ConvertError info_dict PIECES_KEY.

Definition parse_private (info_dict : list (bytes * B)) : option bool :=
  (fun p => bool_decide (p = 1%Z)) <$> ok (BConvert.lookup_and_convert_int ConvertError info_dict PRIVATE_KEY).

Definition parse_name (info_dict : list (bytes * B)) : outcome ParseError bytes :=
  BConvert.lookup_and_convert_str ConvertError info_dict NAME_KEY.

Definition parse_files_list (info_dict : list (bytes * B)) : outcome ParseError (list B) :=
  BConvert.lookup_and_convert_list ConvertError info_dict FILES_KEY.

Definition parse_file_dict (file_bencode : B) : outcome ParseError (list (bytes * B)) :=
  BConvert.convert_dict ConvertError file_bencode FILES_KEY.

Definition parse_length (info_or_file_dict : list (bytes * B)) : outcome ParseError nat :=
  len ← BConvert.lookup_and_convert_int ConvertError info_or_file_dict LENGTH_KEY; Ok (as_u64 len).

Definition parse_md5sum (info_or_file_dict : list (bytes * B)) : option bytes :=
  ok (BConvert.lookup_and_convert_bytes ConvertError info_or_file_dict MD5SUM_KEY).

Definition parse_path_list (file_dict : list (bytes * B)) : outcome ParseError (list B) :=
  BConvert.lookup_and_convert_list ConvertError file_dict PATH_KEY.

Definition parse_path_str (path_bencode : B) : outcome ParseError bytes :=
  BConvert.convert_str ConvertError path_bencode PATH_KEY.

(** ** [metainfo.rs] *)

Definition as_single_file (info_dict : list (bytes * B)) : outcome ParseError File :=
  length ← parse_length info_dict;
  let md5sum := parse_md5sum info_dict in
  name ← parse_name info_dict;
  Ok (mk_File length (path_of_str name) md5sum).

Fixpoint push_paths (path_list : list B) (path_buf : path) : outcome ParseError path :=
  match path_list with
  | [] => Ok path_buf
  | path_bencode :: path_list =>
      p ← parse_path_str path_bencode;
      push_paths path_list (join path_buf (path_of_str p))
  end.

Definition as_multi_file (file_dict : list (bytes * B)) : outcome ParseError File :=
  length ← parse_length file_dict;
  let md5sum := parse_md5sum file_dict in
  path_list_bencode ← parse_path_list file_dict;
  path_buf ← push_paths path_list_bencode path_new;
  Ok (mk_File length path_buf md5sum).

Fixpoint push_files (files_bencode : list B) (files_list : list File) : outcome ParseError (list File) :=
  match files_bencode with
  | [] => Ok files_list
  | file_bencode :: files_bencode =>
      file_dict ← parse_file_dict file_bencode;
      file ← as_multi_file file_dict;
      push_files files_bencode (files_list ++ [file])
  end.

Definition is_multi_file_torrent (info_dict : list (bytes * B)) : bool := negb (is_ok (parse_length info_dict)).

End parse.

(** The buffer [hash_bytes] is reused from chunk to chunk. *)
Fixpoint copy_hashes (cs : list bytes) (hash_bytes : bytes) : list bytes :=
  match cs with
  | [] => []
  | chunk :: cs => let hash_bytes := copy_over chunk hash_bytes in hash_bytes :: copy_hashes cs hash_bytes
  end.

Definition allocate_pieces (pieces : bytes) : outcome ParseError (list bytes) :=
  if decide (length pieces mod SHA_HASH_LEN <> 0) then Err (MissingData (length pieces))
  else Ok (copy_hashes (chunks SHA_HASH_LEN pieces) (replicate SHA_HASH_LEN x00)).

Section metainfo.
Context `{Sha1}.

Definition parse_info_dictionary (info_bencode : BencodeRef) : outcome ParseError Info :=
  let info_hash := from_bytes (BencodeRef_buffer info_bencode) in
  info_dict ← parse_root_dict info_bencode;
  piece_len ← parse_piece_length info_dict;
  let is_private := parse_private info_dict in
  pieces ← parse_pieces info_dict;
  piece_buffers ← allocate_pieces pieces;
  if is_multi_file_torrent info_dict then
    file_directory ← parse_name info_dict;
    let file_directory_path := join path_new (path_of_str file_directory) in
    files_bencode ← parse_files_list info_dict;
    files_list ← push_files files_bencode [];
    Ok (mk_Info info_hash files_list piece_buffers piece_len is_private (Some file_directory_path))
  else
    file ← as_single_file info_dict;
    Ok (mk_Info info_hash [file] piece_buffers piece_len is_private None).

Definition parse_info_bytes (bs : bytes) : outcome ParseError Info :=
  info_bencode ← map_err DecodeError (BencodeRef_decode bs BDecodeOpt_default);
  parse_info_dictionary info_bencode.

Definition Info_from_bytes (bs : bytes) : outcome ParseError Info := parse_info_bytes bs.

Definition parse_meta_bytes (bs : bytes) : outcome ParseError Metainfo :=
  root_bencode ← map_err DecodeError (BencodeRef_decode bs BDecodeOpt_default);
  root_dict ← parse_root_dict root_bencode;
  let announce := parse_announce_url root_dict in
  let opt_announce_list := convert_announce_list <$> parse_announce_list root_dict in
  let opt_comment := parse_comment root_dict in
  let opt_encoding := parse_encoding root_dict in
  let opt_created_by := parse_created_by root_dict in
  let opt_creation_date := parse_creation_date root_dict in
  info_bencode ← parse_info_bencode root_dict;
  info ← parse_info_dictionary info_bencode;
  Ok (mk_Metainfo opt_comment announce opt_announce_list opt_encoding opt_created_by opt_creation_date info).

Definition Metainfo_from_bytes (bs : bytes) : outcome ParseError Metainfo := parse_meta_bytes bs.

(** [From<Info> for Metainfo] *)
Definition Metainfo_from_info (info : Info) : Metainfo := mk_Metainfo None None None None None None info.

End metainfo.
