(* ===== verification/MetainfoHasher.v ===== *)
(** * [bip_metainfo::builder]: hashing the pieces

    The buffers of [builder/buffer.rs] and the master and workers of
    [builder/worker.rs].  The master, the workers, their queue, the pool of
    buffers and the channel back to the master form one state; a step is one
    blocking call or one pass of a loop.  The queues of [crossbeam] and the
    channel of [std] are lists.  Progress reports are not modelled. *)

From stdpp Require Import prelude list gmap strings relations sorting.
From Stdlib Require Import ZArith Lia Strings.Byte.
From S2P Require Import Prelude Bytes Convert Sha.

(** ** Buffers *)

Definition TOTAL_BUFFERS_MULTIPLICATIVE : nat := 2.
Definition TOTAL_BUFFERS_ADDITIVE : nat := 0.

Definition calculate_total_buffers (num_workers : nat) : nat := num_workers * TOTAL_BUFFERS_MULTIPLICATIVE + TOTAL_BUFFERS_ADDITIVE.

Record PieceBuffer : Type := mk_PieceBuffer { pb_buffer : bytes; bytes_read : nat }.

Definition PieceBuffer_new (piece_length : nat) : PieceBuffer := mk_PieceBuffer (replicate piece_length x00) 0.

(** A read of [got] bytes into the free part. *)
Definition PieceBuffer_write_bytes (self : PieceBuffer) (got : bytes) : PieceBuffer :=
  mk_PieceBuffer (take (bytes_read self) (pb_buffer self) ++ got ++ drop (bytes_read self + length got) (pb_buffer self))
    (bytes_read self + length got).

Definition is_whole (self : PieceBuffer) : bool := bool_decide (bytes_read self = length (pb_buffer self)).
Definition is_empty (self : PieceBuffer) : bool := bool_decide (bytes_read self = 0).
Definition as_slice (self : PieceBuffer) : bytes := take (bytes_read self) (pb_buffer self).

Definition PieceBuffers_new (piece_length num_workers : nat) : list PieceBuffer :=
  replicate (calculate_total_buffers num_workers) (PieceBuffer_new piece_length).
Definition PieceBuffers_checkin (buffer : PieceBuffer) (pool : list PieceBuffer) : list PieceBuffer :=
  pool ++ [mk_PieceBuffer (pb_buffer buffer) 0].

(** ** Messages and states *)

(** [PieceAccess]; a region is the bytes its reader gives in the end. *)
Inductive PieceAccess : Type :=
| Compute_ (piece_region : bytes)
| PreComputed (hash : ShaHash).

Inductive MasterMessage : Type :=
| AcceptPiece (index : nat) (piece : ShaHash)
| WorkerFinished.

Inductive WorkerMessage : Type :=
| HashPiece (index : nat) (buffer : PieceBuffer)
| Finish.

(** Where a worker is: popping, about to send a hash, about to check a buffer in,
    about to send its end, gone. *)
Inductive Worker : Type :=
| Popping
| Hashed (index : nat) (buffer : PieceBuffer)
| CheckingIn (buffer : PieceBuffer)
| Leaving
| Gone.

(** Where the master is: between calls of the closure, with the partial buffer it
    saved; in the read loop; waiting for a buffer inside it; pushing the ends;
    receiving; returned; failed with an error of the accessor. *)
Inductive Master : Type :=
| Between (accesses : list PieceAccess) (opt_piece_buffer : option PieceBuffer)
| Reading (region : bytes) (curr_piece_buffer : PieceBuffer) (accesses : list PieceAccess)
| Refilling (region : bytes) (end_of_region : bool) (accesses : list PieceAccess)
| Ending (left : nat)
| Receiving (workers_finished : nat)
| Returned (pieces : list (nat * ShaHash))
| Failed.

Record Hasher : Type := mk_Hasher {
  master : Master;
  hashed_pieces : list (nat * ShaHash);
  piece_index : nat;
  work : list WorkerMessage;
  pool : list PieceBuffer;
  recv : list MasterMessage;
  workers : list Worker;
}.

(** [sort_by] on the indices. *)
Fixpoint insert_piece (p : nat * ShaHash) (l : list (nat * ShaHash)) : list (nat * ShaHash) :=
  match l with
  | [] => [p]
  | q :: l' => if decide (q.1 < p.1) then q :: insert_piece p l' else p :: l
  end.
Definition sort_pieces (l : list (nat * ShaHash)) : list (nat * ShaHash) := foldr insert_piece [] l.

Section hasher.
Context `{Sha1} (piece_length num_workers : nat).

(** [start_hasher_workers] *)
Definition start_hasher_workers (accesses : list PieceAccess) : Hasher :=
  mk_Hasher (Between accesses None) [] 0 [] (PieceBuffers_new piece_length num_workers) [] (replicate num_workers Popping).

Definition set_master (s : Hasher) (m : Master) : Hasher :=
  mk_Hasher m (hashed_pieces s) (piece_index s) (work s) (pool s) (recv s) (workers s).
Definition push_work (s : Hasher) (m : WorkerMessage) : Hasher :=
  mk_Hasher (master s) (hashed_pieces s) (piece_index s) (work s ++ [m]) (pool s) (recv s) (workers s).
(** Push a piece and count it. *)
Definition push_piece (s : Hasher) (buffer : PieceBuffer) : Hasher :=
  mk_Hasher (master s) (hashed_pieces s) (piece_index s + 1) (work s ++ [HashPiece (piece_index s) buffer]) (pool s) (recv s) (workers s).
Definition set_worker (s : Hasher) (k : nat) (w : Worker) : Hasher :=
  mk_Hasher (master s) (hashed_pieces s) (piece_index s) (work s) (pool s) (recv s) (<[k := w]> (workers s)).

Inductive hasher_step : Hasher -> Hasher -> Prop :=
| compute_resumes s region accesses buffer :
    master s = Between (Compute_ region :: accesses) (Some buffer) ->
    hasher_step s (set_master s (Reading region buffer accesses))
| compute_checks_out s region accesses buffer pool' :
    master s = Between (Compute_ region :: accesses) None -> pool s = buffer :: pool' ->
    hasher_step s (mk_Hasher (Reading region buffer accesses) (hashed_pieces s) (piece_index s) (work s) pool' (recv s) (workers s))
| precomputed s hash accesses opt :
    master s = Between (PreComputed hash :: accesses) opt ->
    hasher_step s (mk_Hasher (Between accesses opt) (hashed_pieces s ++ [(piece_index s, hash)]) (piece_index s + 1)
      (work s) (pool s) (recv s) (workers s))
| reads s got rest buffer accesses :
    master s = Reading (got ++ rest) buffer accesses -> bytes_read buffer + length got <= length (pb_buffer buffer) ->
    (* a read gives nothing only at the end of the region or for an empty buffer *)
    (got = [] -> rest = [] \/ bytes_read buffer = length (pb_buffer buffer)) ->
    let buffer' := PieceBuffer_write_bytes buffer got in
    let end_of_region := bool_decide (got = []) in
    hasher_step s
      (if is_whole buffer' then set_master (push_piece s buffer') (Refilling rest end_of_region accesses)
       else set_master s (if end_of_region then Between accesses (Some buffer') else Reading rest buffer' accesses))
| read_fails s region buffer accesses :
    master s = Reading region buffer accesses -> hasher_step s (set_master s Failed)
| refills s region end_of_region accesses buffer pool' :
    master s = Refilling region end_of_region accesses -> pool s = buffer :: pool' ->
    hasher_step s (mk_Hasher (if end_of_region then Between accesses (Some buffer) else Reading region buffer accesses)
      (hashed_pieces s) (piece_index s) (work s) pool' (recv s) (workers s))
| accesses_end s opt :
    master s = Between [] opt ->
    hasher_step s (set_master
      (match opt with Some buffer => if is_empty buffer then s else push_piece s buffer | None => s end) (Ending num_workers))
| pushes_end s k : master s = Ending (S k) -> hasher_step s (set_master (push_work s Finish) (Ending k))
| ends_pushed s : master s = Ending 0 -> hasher_step s (set_master s (Receiving 0))
| receives s n m recv' :
    master s = Receiving n -> n < num_workers -> recv s = m :: recv' ->
    hasher_step s (match m with
      | AcceptPiece index piece =>
          mk_Hasher (Receiving n) (hashed_pieces s ++ [(index, piece)]) (piece_index s) (work s) (pool s) recv' (workers s)
      | WorkerFinished => mk_Hasher (Receiving (S n)) (hashed_pieces s) (piece_index s) (work s) (pool s) recv' (workers s)
      end)
| returns_pieces s n :
    master s = Receiving n -> num_workers <= n -> hasher_step s (set_master s (Returned (sort_pieces (hashed_pieces s))))
| worker_pops s k m work' :
    workers s !! k = Some Popping -> work s = m :: work' ->
    hasher_step s (mk_Hasher (master s) (hashed_pieces s) (piece_index s) work' (pool s) (recv s)
      (<[k := match m with HashPiece index buffer => Hashed index buffer | Finish => Leaving end]> (workers s)))
| worker_sends s k index buffer :
    workers s !! k = Some (Hashed index buffer) ->
    hasher_step s (mk_Hasher (master s) (hashed_pieces s) (piece_index s) (work s) (pool s)
      (recv s ++ [AcceptPiece index (from_bytes (as_slice buffer))]) (<[k := CheckingIn buffer]> (workers s)))
| worker_checks_in s k buffer :
    workers s !! k = Some (CheckingIn buffer) ->
    hasher_step s (mk_Hasher (master s) (hashed_pieces s) (piece_index s) (work s) (PieceBuffers_checkin buffer (pool s)) (recv s)
      (<[k := Popping]> (workers s)))
| worker_leaves s k :
    workers s !! k = Some Leaving ->
    hasher_step s (mk_Hasher (master s) (hashed_pieces s) (piece_index s) (work s) (pool s) (recv s ++ [WorkerFinished])
      (<[k := Gone]> (workers s))).

End hasher.

(** ** What the pieces should be *)

Section spec.
Context `{Sha1} (piece_length : nat).

(** The first [n] whole pieces of [data]. *)
Fixpoint cut (n index : nat) (data : bytes) : list (nat * ShaHash) :=
  match n with
  | O => []
  | S n => (index, from_bytes (take piece_length data)) :: cut n (S index) (drop piece_length data)
  end.

(** The pieces from [index] on, with [partial] bytes left over from before. *)
Fixpoint pieces_from (accesses : list PieceAccess) (index : nat) (partial : bytes) : list (nat * ShaHash) :=
  match accesses with
  | [] => match partial with [] => [] | _ => [(index, from_bytes partial)] end
  | Compute_ region :: accesses =>
      let data := partial ++ region in
      let n := length data / piece_length in
      cut n index data ++ pieces_from accesses (index + n) (drop (n * piece_length) data)
  | PreComputed hash :: accesses => (index, hash) :: pieces_from accesses (S index) partial
  end.

Lemma pieces_small accesses index partial : length partial < piece_length ->
  pieces_from (Compute_ [] :: accesses) index partial = pieces_from accesses index partial.
Proof.
  intros Hp. cbn. rewrite app_nil_r, Nat.div_small by done. cbn. by rewrite Nat.add_0_r.
Qed.

Lemma pieces_more accesses index partial got rest :
  pieces_from (Compute_ (got ++ rest) :: accesses) index partial = pieces_from (Compute_ rest :: accesses) index (partial ++ got).
Proof. cbn. by rewrite app_assoc. Qed.

Lemma cut_indices n : forall index data, StronglySorted (fun p q : nat * ShaHash => p.1 < q.1) (cut n index data) /\
  Forall (fun p => index <= p.1 < index + n) (cut n index data).
Proof.
  induction n as [|n IH]; intros index data; cbn [cut]; [split; constructor|]. destruct (IH (S index) (drop piece_length data)) as [Hs Hb].
  split; constructor; cbn [fst]; [done| |lia|]; (eapply Forall_impl; [exact Hb|]); cbn; lia.
Qed.

Lemma pieces_indices accesses : forall index partial, StronglySorted (fun p q : nat * ShaHash => p.1 < q.1) (pieces_from accesses index partial) /\
  Forall (fun p => index <= p.1) (pieces_from accesses index partial).
Proof.
  induction accesses as [|[region|hash] accesses IH]; intros index partial; cbn [pieces_from].
  - destruct partial; split; repeat constructor.
  - set (n := length _ / _). destruct (cut_indices n index (partial ++ region)) as [Hs Hb].
    destruct (IH (index + n) (drop (n * piece_length) (partial ++ region))) as [Hs' Hb']. split.
    + apply StronglySorted_app. split_and!; [|done..]. intros p q Hp Hq. rewrite Forall_forall in Hb, Hb'.
      specialize (Hb p Hp). specialize (Hb' q Hq). cbn in *. lia.
    + apply Forall_app. split; (eapply Forall_impl; [eassumption|]); cbn; lia.
  - destruct (IH (S index) partial) as [Hs Hb]. split; constructor; cbn; [done| |lia|]; (eapply Forall_impl; [exact Hb|]); cbn; lia.
Qed.

Hypothesis Hlen : 0 < piece_length.

Lemma pieces_whole accesses index first rest : length first = piece_length ->
  pieces_from (Compute_ (first ++ rest) :: accesses) index [] = (index, from_bytes first) :: pieces_from (Compute_ rest :: accesses) (S index) [].
Proof using Hlen.
  intros Hf. cbn [pieces_from app]. rewrite length_app, Hf.
  replace (piece_length + length rest) with (length rest + 1 * piece_length) by lia.
  rewrite Nat.div_add, (Nat.add_1_r (_ / _)) by lia. cbn [cut app Nat.mul]. rewrite take_app_length', drop_app_length' by lia.
  rewrite (drop_app_ge first) by lia. replace (piece_length + length rest / piece_length * piece_length - length first) with (length rest / piece_length * piece_length) by lia.
  by rewrite Nat.add_succ_r.
Qed.

(** Two regions in a row are one. *)
Lemma pieces_merge r1 r2 accesses : forall index partial, length partial < piece_length ->
  pieces_from (Compute_ r1 :: Compute_ r2 :: accesses) index partial = pieces_from (Compute_ (r1 ++ r2) :: accesses) index partial.
Proof using Hlen.
  remember (length r1) as k eqn:Hk. revert r1 Hk. induction (lt_wf k) as [k _ IH]. intros r1 -> index partial Hp.
  destruct (decide (length (partial ++ r1) < piece_length)) as [Hs|Hs].
  - transitivity (pieces_from (Compute_ (r1 ++ []) :: Compute_ r2 :: accesses) index partial); [by rewrite app_nil_r|].
    rewrite (pieces_more (Compute_ r2 :: accesses)), pieces_small by done. by rewrite pieces_more.
  - rewrite length_app in Hs. set (first := partial ++ take (piece_length - length partial) r1). set (t := drop (piece_length - length partial) r1).
    assert (length first = piece_length) as Hl by (unfold first; rewrite length_app, length_take; lia).
    assert (forall x, partial ++ (r1 ++ x) = first ++ (t ++ x)) as Hd
      by (intros x; unfold first, t; by rewrite <- app_assoc, (app_assoc (take _ _)), take_drop).
    pose proof (pieces_more (Compute_ r2 :: accesses) index [] partial (r1 ++ [])) as H1.
    pose proof (pieces_more accesses index [] partial (r1 ++ r2)) as H2.
    rewrite Hd, pieces_whole in H1, H2 by done. rewrite !app_nil_r, !app_nil_l in H1. rewrite !app_nil_l in H2. rewrite <- H1, <- H2. f_equal.
    apply (IH (length t)); [unfold t; rewrite length_drop; lia|done..].
Qed.

Lemma pieces_one_region data : forall index,
  pieces_from [Compute_ data] index [] = imap (fun k c => (index + k, from_bytes c)) (chunks piece_length data).
Proof using Hlen.
  unfold chunks. assert (forall fuel data index, length data <= fuel -> pieces_from [Compute_ data] index [] =
    imap (fun k c => (index + k, from_bytes c)) (chunks_loop fuel piece_length data)) as Hx; [|intros; by apply Hx].
  clear data. induction fuel as [|fuel IH]; intros data index Hf.
  - destruct data; [|cbn in Hf; lia]. by rewrite pieces_small.
  - destruct data as [|b data]; [by rewrite pieces_small|]. cbn [chunks_loop]. set (d := b :: data) in *.
    destruct (decide (length d < piece_length)) as [Hs|Hs].
    + pose proof (pieces_more [] index [] d []) as Hm. rewrite app_nil_r, app_nil_l, pieces_small in Hm by done. rewrite Hm.
      rewrite take_ge, drop_ge by lia. cbn. rewrite Nat.add_0_r. by destruct fuel.
    + rewrite <- (take_drop piece_length d) at 1. rewrite pieces_whole by (rewrite length_take; lia).
      rewrite IH by (rewrite length_drop; unfold d in *; cbn in *; lia). rewrite imap_cons, Nat.add_0_r. f_equal.
      apply imap_ext. intros k c _. unfold compose. by rewrite Nat.add_succ_r.
Qed.

(** Regions only: the chunks of their concatenation, in order. *)
Lemma pieces_of_regions regions :
  pieces_from (Compute_ <$> regions) 0 [] = imap (fun k c => (k, from_bytes c)) (chunks piece_length (concat regions)).
Proof using Hlen.
  transitivity (pieces_from [Compute_ (concat regions)] 0 []); [|by rewrite pieces_one_region].
  destruct regions as [|r rs]; [by rewrite pieces_small|]. revert r. induction rs as [|r' rs IH]; intros r; cbn [fmap list_fmap concat].
  - by rewrite app_nil_r.
  - rewrite pieces_merge by done. specialize (IH (r ++ r')). cbn [fmap list_fmap concat] in IH. rewrite IH. by rewrite app_assoc.
Qed.

End spec.
