(* ===== verification/MetainfoHasherProofs.v ===== *)
(** * The pieces of a torrent, whatever the threads do

    The invariant of the hashing of [MetainfoHasher], and that it ends. *)

From stdpp Require Import prelude list gmap strings relations sorting.
From Stdlib Require Import ZArith Lia Strings.Byte.
From S2P Require Import Prelude Bytes Convert Sha MetainfoHasher.

Lemma update_split {A} (l : list A) k x : l !! k = Some x ->
  exists rest, l ≡ₚ x :: rest /\ forall y, <[k := y]> l ≡ₚ y :: rest.
Proof.
  intros Hk. destruct (list_elem_of_split_length l k x Hk) as (l1 & l2 & -> & ->). exists (l1 ++ l2).
  split; [by rewrite Permutation_middle|]. intros y. rewrite insert_app_r_alt, Nat.sub_diag by lia. cbn. by rewrite Permutation_middle.
Qed.

(** ** Sorting *)

Abbreviation before := (fun p q : nat * ShaHash => p.1 < q.1).

Lemma insert_piece_Permutation p l : insert_piece p l ≡ₚ p :: l.
Proof. induction l as [|q l IH]; cbn; [done|]. case_decide; [|done]. rewrite IH. apply Permutation_swap. Qed.

Lemma sort_pieces_Permutation l : sort_pieces l ≡ₚ l.
Proof. induction l as [|p l IH]; cbn; [done|]. by rewrite insert_piece_Permutation, IH. Qed.

Lemma insert_piece_sorted p l : StronglySorted before l -> p.1 ∉ l.*1 -> StronglySorted before (insert_piece p l).
Proof.
  induction l as [|q l IH]; intros Hs Hp; cbn [insert_piece]; [by repeat constructor|].
  cbn in Hp. apply not_elem_of_cons in Hp as [Hne Hp]. apply StronglySorted_cons in Hs as [Hq Hs]. case_decide as Hlt.
  - apply StronglySorted_cons. split; [|by apply IH]. rewrite insert_piece_Permutation. by constructor.
  - apply StronglySorted_cons. split; [|by apply StronglySorted_cons]. constructor; [cbn; lia|].
    eapply Forall_impl; [exact Hq|]. cbn. lia.
Qed.

Lemma sorted_indices l : StronglySorted before l -> NoDup l.*1.
Proof.
  induction l as [|p l IH]; cbn; intros Hs; [constructor|]. apply StronglySorted_cons in Hs as [Hp Hs]. constructor; [|by apply IH].
  intros (q & Hq & Hin)%list_elem_of_fmap. rewrite Forall_forall in Hp. specialize (Hp q Hin). cbn in Hp. lia.
Qed.

(** Sorting undoes every reordering of pieces with increasing indices. *)
Lemma sort_pieces_unique l l' : StronglySorted before l -> l' ≡ₚ l -> sort_pieces l' = l.
Proof.
  intros Hs Hp. assert (NoDup l'.*1) as Hn by (rewrite Hp; by apply sorted_indices).
  assert (StronglySorted before (sort_pieces l')) as Hs'.
  { clear Hp Hs. induction l' as [|p l' IH]; cbn; [constructor|]. cbn in Hn. apply NoDup_cons in Hn as [Hp Hn].
    apply insert_piece_sorted; [by apply IH|]. by rewrite sort_pieces_Permutation. }
  assert (AntiSymm (=) before) by (intros x y ? ?; cbn in *; lia).
  apply (StronglySorted_unique before); [done..|by rewrite sort_pieces_Permutation].
Qed.

(** ** Where pieces, buffers and messages are *)

Definition accepted_piece (m : MasterMessage) : option (nat * ShaHash) :=
  match m with AcceptPiece index piece => Some (index, piece) | WorkerFinished => None end.
Definition finished (m : MasterMessage) : nat := match m with WorkerFinished => 1 | _ => 0 end.
Definition finish (m : WorkerMessage) : nat := match m with Finish => 1 | _ => 0 end.
Definition work_buffer (m : WorkerMessage) : list PieceBuffer := match m with HashPiece _ b => [b] | Finish => [] end.
Definition worker_buffer (w : Worker) : list PieceBuffer := match w with Hashed _ b | CheckingIn b => [b] | _ => [] end.
Definition leaving (w : Worker) : nat := match w with Leaving | Gone => 1 | _ => 0 end.
Definition gone (w : Worker) : nat := match w with Gone => 1 | _ => 0 end.
Definition master_buffer (m : Master) : list PieceBuffer :=
  match m with Between _ (Some b) | Reading _ b _ => [b] | _ => [] end.

Section proofs.
Context `{Sha1} (piece_length num_workers : nat) (expected : list (nat * ShaHash)).
Hypothesis Hlen : 0 < piece_length.
Hypothesis Hworkers : 0 < num_workers.
Hypothesis Hexpected : StronglySorted before expected.

Definition work_piece (m : WorkerMessage) : option (nat * ShaHash) :=
  match m with HashPiece index b => Some (index, from_bytes (as_slice b)) | Finish => None end.
Definition worker_piece (w : Worker) : list (nat * ShaHash) :=
  match w with Hashed index b => [(index, from_bytes (as_slice b))] | _ => [] end.

(** The pieces the master has passed, wherever they are. *)
Definition flight (s : Hasher) : list (nat * ShaHash) :=
  hashed_pieces s ++ omap accepted_piece (recv s) ++ (workers s ≫= worker_piece) ++ omap work_piece (work s).

(** The pieces it has still to come to. *)
Definition to_come (m : Master) (index : nat) : list (nat * ShaHash) :=
  match m with
  | Between accesses opt => pieces_from piece_length accesses index (from_option as_slice [] opt)
  | Reading region b accesses => pieces_from piece_length (Compute_ region :: accesses) index (as_slice b)
  | Refilling region _ accesses => pieces_from piece_length (Compute_ region :: accesses) index []
  | _ => []
  end.

Definition pieces_ok (s : Hasher) : Prop :=
  match master s with
  | Returned pieces => pieces = expected
  | Failed => True
  | m => flight s ++ to_come m (piece_index s) ≡ₚ expected
  end.

Definition of_length (b : PieceBuffer) : Prop := length (pb_buffer b) = piece_length.
Definition has_room (b : PieceBuffer) : Prop := of_length b /\ bytes_read b < piece_length.
Definition filling (m : Master) : bool := match m with Between _ _ | Reading _ _ _ | Refilling _ _ _ => true | _ => false end.

Definition count_buffers (s : Hasher) : nat :=
  length (pool s) + length (master_buffer (master s)) + sum_list_with (length ∘ work_buffer) (work s) +
  sum_list_with (length ∘ worker_buffer) (workers s).

Record buffers_ok (s : Hasher) : Prop := {
  b_pool : Forall (fun b => of_length b /\ bytes_read b = 0) (pool s);
  b_hand : Forall has_room (master_buffer (master s));
  b_work : Forall (fun m => Forall of_length (work_buffer m)) (work s);
  b_workers : Forall (fun w => Forall of_length (worker_buffer w)) (workers s);
  b_total : filling (master s) = true -> count_buffers s = num_workers * 2;
  b_refill : match master s with Refilling region true _ => region = [] | _ => True end;
}.

Definition pushed (m : Master) : nat :=
  match m with Ending k => num_workers - k | Receiving _ | Returned _ => num_workers | _ => 0 end.
Definition received (m : Master) : nat := match m with Receiving n => n | Returned _ => num_workers | _ => 0 end.

Record ends_ok (s : Hasher) : Prop := {
  e_workers : length (workers s) = num_workers;
  e_finish : sum_list_with finish (work s) + sum_list_with leaving (workers s) = pushed (master s);
  e_ending : match master s with Ending k => k <= num_workers | Receiving n => n <= num_workers | _ => True end;
  e_gone : sum_list_with finished (recv s) + received (master s) = sum_list_with gone (workers s);
  e_order : exists hs k, work s = hs ++ replicate k Finish /\ Forall (fun m => finish m = 0) hs /\
    (0 < sum_list_with leaving (workers s) -> hs = []);
  e_last : recv s = [] \/ last (recv s) = Some WorkerFinished \/ sum_list_with gone (workers s) < num_workers;
}.

Lemma finish_none hs : Forall (fun m => finish m = 0) hs -> sum_list_with finish hs = 0.
Proof. induction 1 as [|m hs Hm _ IH]; [done|]. cbn. lia. Qed.

Lemma finish_replicate k : sum_list_with finish (replicate k Finish) = k.
Proof. induction k as [|k IH]; cbn; [done|]. by rewrite IH. Qed.

Lemma sum_le_length {A} (f : A -> nat) (l : list A) : (forall a, f a <= 1) -> sum_list_with f l <= length l.
Proof. intros Hf. induction l as [|a l IH]; cbn; [lia|]. specialize (Hf a). lia. Qed.

Lemma ends_same s s' : ends_ok s -> work s' = work s -> recv s' = recv s -> workers s' = workers s ->
  pushed (master s') = pushed (master s) -> received (master s') = received (master s) ->
  match master s' with Ending k => k <= num_workers | Receiving n => n <= num_workers | _ => True end -> ends_ok s'.
Proof. intros [] Hw Hr Hk Hp Hv He. split; rewrite ?Hw, ?Hr, ?Hk, ?Hp, ?Hv; done. Qed.

Lemma ends_push_piece s b : ends_ok s -> pushed (master s) = 0 -> ends_ok (push_piece s b).
Proof.
  intros [Hl Hf He Hg (hs & k & Hw & Hhs & Hz) Hlast] Hp. rewrite Hp in Hf.
  assert (k = 0) as -> by (rewrite Hw, sum_list_with_app, finish_replicate in Hf; lia). rewrite app_nil_r in Hw.
  split; cbn; [done| |done|done| |done].
  - rewrite sum_list_with_app. cbn. rewrite Hp. lia.
  - exists (hs ++ [HashPiece (piece_index s) b]), 0. rewrite app_nil_r, Hw. split; [done|]. split; [|lia].
    apply Forall_app. split; [done|by repeat constructor].
Qed.

Lemma ends_worker s k w w' work' recv' : workers s !! k = Some w -> ends_ok s ->
  sum_list_with finish work' + leaving w' = sum_list_with finish (work s) + leaving w ->
  sum_list_with finished recv' + gone w = sum_list_with finished (recv s) + gone w' ->
  (exists hs k, work' = hs ++ replicate k Finish /\ Forall (fun m => finish m = 0) hs /\
    (0 < leaving w' \/ 0 < sum_list_with leaving (workers s) - leaving w -> hs = [])) ->
  (last recv' = Some WorkerFinished \/ gone w' = 0) -> gone w <= gone w' ->
  forall pool', ends_ok (mk_Hasher (master s) (hashed_pieces s) (piece_index s) work' pool' recv' (<[k := w']> (workers s))).
Proof.
  intros Hk [Hl Hf He Hg Hord Hlast] Hfin Hrecv Hord' Hlast' Hmono pool'.
  destruct (update_split _ _ _ Hk) as (rest & Hws & Hup). rewrite Hws in Hf, Hg. cbn [sum_list_with] in Hf, Hg.
  split; cbn [work recv workers master pool]; rewrite ?length_insert; [done| |done| | |].
  - rewrite (Hup w'). cbn [sum_list_with]. lia.
  - rewrite (Hup w'). cbn [sum_list_with]. lia.
  - destruct Hord' as (hs & j & Hw & Hhs & Hz). exists hs, j. split_and!; [done..|]. rewrite (Hup w'). cbn [sum_list_with]. intros Hpos.
    apply Hz. rewrite Hws. cbn [sum_list_with]. lia.
  - rewrite (Hup w'). rewrite Hws in Hlast, Hl. cbn [sum_list_with length] in *.
    assert (sum_list_with gone rest <= length rest) by (apply sum_le_length; intros []; cbn; lia).
    destruct Hlast'; [by auto|right; right; lia].
Qed.

Lemma ends_step s s' : ends_ok s -> hasher_step num_workers s s' -> ends_ok s'.
Proof using Hlen Hworkers.
  intros Hok Hs. destruct Hs as [s region accesses b Hm|s region accesses b pool' Hm Hp|s hash accesses opt Hm
    |s got rest b accesses Hm Hle Hgot|s region b accesses Hm|s region e accesses b pool' Hm Hp|s opt Hm|s k Hm|s Hm
    |s n m recv' Hm Hn Hr|s n Hm Hn|s k m work' Hk Hw|s k index b Hk|s k b Hk|s k Hk].
  - apply (ends_same s); cbn; rewrite ?Hm; done.
  - apply (ends_same s); cbn; rewrite ?Hm; done.
  - apply (ends_same s); cbn; rewrite ?Hm; done.
  - cbv zeta. destruct (is_whole _).
    + apply (ends_same (push_piece s (PieceBuffer_write_bytes b got))); cbn; rewrite ?Hm; try done.
      apply ends_push_piece; [done|by rewrite Hm].
    + apply (ends_same s); cbn; rewrite ?Hm; try done; by destruct (bool_decide _).
  - apply (ends_same s); cbn; rewrite ?Hm; done.
  - apply (ends_same s); cbn; rewrite ?Hm; try done; by destruct e.
  - assert (ends_ok (match opt with Some b => if is_empty b then s else push_piece s b | None => s end)) as Hok'.
    { destruct opt as [b|]; [|done]. destruct (is_empty b); [done|]. apply ends_push_piece; [done|by rewrite Hm]. }
    eapply ends_same; [exact Hok'|done..| | |cbn; lia]; destruct opt as [b|]; cbn; try destruct (is_empty b); cbn; rewrite Hm; cbn; lia.
  - destruct Hok as [Hl Hf He Hg (hs & j & Hw & Hhs & Hz) Hlast]. rewrite Hm in *. cbn in He, Hf.
    split; cbn [work recv workers master pool set_master push_work]; [done| | |done| |done].
    + rewrite sum_list_with_app. cbn. lia.
    + lia.
    + exists hs, (j + 1). rewrite Hw, <- app_assoc, replicate_add. done.
  - apply (ends_same s); cbn; rewrite ?Hm; try done; cbn; lia.
  - destruct Hok as [Hl Hf He Hg Hord Hlast]. rewrite Hm, Hr in *. cbn in He, Hf, Hg. destruct m as [index piece|]; cbn in Hg.
    + split; cbn [work recv workers master pool]; [done..|]. destruct Hlast as [?|[Hlast|?]]; [done| |by auto]. destruct recv'; [by auto|]. by auto.
    + split; cbn [work recv workers master pool]; [done|done|lia|cbn; lia|done|]. destruct Hlast as [?|[Hlast|?]]; [done| |by auto]. destruct recv'; [by auto|]. by auto.
  - assert (n = num_workers) as -> by (destruct Hok as [_ _ He _ _ _]; rewrite Hm in He; lia). apply (ends_same s); cbn; rewrite ?Hm; done.
  - pose proof Hok as [_ _ _ _ (hs & j & Hwk & Hhs & Hz) _]. eapply ends_worker; [exact Hk|exact Hok|..]; rewrite ?Hw.
    + destruct m; cbn; lia.
    + destruct m; cbn; lia.
    + rewrite Hw in Hwk. destruct hs as [|m' hs].
      * destruct j as [|j]; [done|]. injection Hwk as -> ->. exists [], j. done.
      * injection Hwk as <- ->. exists hs, j. apply Forall_cons in Hhs as [Hm0 Hhs]. split_and!; [done..|].
        destruct m; [|done]. cbn. intros [?|?]; [lia|]. assert (HashPiece index buffer :: hs = []) by (apply Hz; lia). done.
    + right. by destruct m.
    + destruct m; cbn; lia.
  - eapply ends_worker; [exact Hk|exact Hok|..]; rewrite ?sum_list_with_app; cbn; try lia.
    destruct Hok as [_ _ _ _ (hs & j & Hwk & Hhs & Hz) _]. exists hs, j. split_and!; [done..|]. intros [?|?]; [lia|]. apply Hz. lia.
  - eapply ends_worker; [exact Hk|exact Hok|..]; cbn; try lia.
    destruct Hok as [_ _ _ _ (hs & j & Hwk & Hhs & Hz) _]. exists hs, j. split_and!; [done..|]. intros [?|?]; [lia|]. apply Hz. lia.
  - eapply ends_worker; [exact Hk|exact Hok|..]; rewrite ?sum_list_with_app; cbn; try lia.
    + destruct Hok as [_ _ _ _ (hs & j & Hwk & Hhs & Hz) _]. exists hs, j. split_and!; [done..|]. intros _. apply Hz.
      destruct (update_split _ _ _ Hk) as (r & -> & _). cbn. lia.
    + left. apply last_snoc.
Qed.

Lemma write_length b got : of_length b -> bytes_read b + length got <= piece_length -> of_length (PieceBuffer_write_bytes b got).
Proof. unfold of_length. intros Hb Hl. cbn. rewrite !length_app, length_take, length_drop. lia. Qed.

Lemma write_slice b got : of_length b -> bytes_read b + length got <= piece_length ->
  as_slice (PieceBuffer_write_bytes b got) = as_slice b ++ got.
Proof.
  unfold of_length, as_slice. intros Hb Hl. cbn. rewrite app_assoc. apply take_app_length'. rewrite length_app, length_take. lia.
Qed.

Lemma slice_length b : of_length b -> bytes_read b <= piece_length -> length (as_slice b) = bytes_read b.
Proof. unfold of_length, as_slice. intros Hb Hr. rewrite length_take. lia. Qed.

Lemma buffers_worker s k w w' work' recv' pool' : workers s !! k = Some w -> buffers_ok s ->
  Forall (fun b => of_length b /\ bytes_read b = 0) pool' -> Forall of_length (worker_buffer w') ->
  Forall (fun m => Forall of_length (work_buffer m)) work' ->
  length pool' + sum_list_with (length ∘ work_buffer) work' + length (worker_buffer w') =
    length (pool s) + sum_list_with (length ∘ work_buffer) (work s) + length (worker_buffer w) ->
  buffers_ok (mk_Hasher (master s) (hashed_pieces s) (piece_index s) work' pool' recv' (<[k := w']> (workers s))).
Proof.
  intros Hk [Hp Hh Hw Hws Ht Hr] Hp' Hw' Hwk' Hsum. split; cbn [work recv workers master pool]; try done.
  - by apply Forall_insert.
  - intros Hfill. rewrite <- (Ht Hfill). unfold count_buffers. cbn [work recv workers master pool].
    destruct (update_split _ _ _ Hk) as (rest & Hrest & Hup). rewrite (Hup w'), Hrest. cbn [sum_list_with compose]. lia.
Qed.

Lemma buffers_step s s' : buffers_ok s -> hasher_step num_workers s s' -> buffers_ok s'.
Proof using Hlen Hworkers.
  intros Hok Hs. destruct Hs as [s region accesses b Hm|s region accesses b pool' Hm Hp|s hash accesses opt Hm
    |s got rest b accesses Hm Hle Hgot|s region b accesses Hm|s region e accesses b pool' Hm Hp|s opt Hm|s k Hm|s Hm
    |s n m recv' Hm Hn Hr|s n Hm Hn|s k m work' Hk Hw|s k index b Hk|s k b Hk|s k Hk].
  12-15: pose proof Hok as [Hpool _ Hwork Hworkers' _ _].
  1-11: destruct Hok as [Hpool Hhand Hwork Hworkers' Htotal Hrefill]; rewrite Hm in *; cbn [master_buffer filling] in *;
    unfold count_buffers in Htotal; rewrite Hm in Htotal; cbn [master_buffer length] in Htotal.
  - split; done.
  - rewrite Hp in *. apply Forall_cons in Hpool as [[Hb1 Hb2] Hpool]. split; cbn [work recv workers master pool master_buffer]; try done.
    + repeat constructor; [done|by rewrite Hb2].
    + intros _. rewrite <- Htotal by done. unfold count_buffers. cbn. lia.
  - split; done.
  - apply Forall_singleton in Hhand as [Hb Hroom]. rewrite Hb in Hle. subst buffer' end_of_region. specialize (Htotal eq_refl).
    pose proof (write_length b got Hb Hle) as Hwl. assert (is_whole (PieceBuffer_write_bytes b got) = false -> has_room (PieceBuffer_write_bytes b got)) as Hr.
    { intros Hwhole%bool_decide_eq_false. unfold of_length in Hwl. rewrite Hwl in Hwhole. cbn in Hwhole. split; [done|cbn; lia]. }
    destruct (bool_decide_reflect (got = [])) as [Hg|Hg]; destruct (is_whole _) eqn:Hwhole; try specialize (Hr eq_refl).
    + split; cbn; try done.
      * apply Forall_app. split; [done|by repeat constructor].
      * intros _. rewrite <- Htotal. unfold count_buffers. cbn. rewrite sum_list_with_app. cbn. lia.
      * destruct (Hgot Hg) as [?|?]; [done|]. unfold of_length in Hb. lia.
    + split; cbn; try done. by apply Forall_singleton.
    + split; cbn; try done.
      * apply Forall_app. split; [done|by repeat constructor].
      * intros _. rewrite <- Htotal. unfold count_buffers. cbn. rewrite sum_list_with_app. cbn. lia.
    + split; cbn; try done. by apply Forall_singleton.
  - split; done.
  - rewrite Hp in *. apply Forall_cons in Hpool as [[Hb1 Hb2] Hpool]. split; cbn [work recv workers master pool]; try done.
    + destruct e; cbn; (repeat constructor; [done|by rewrite Hb2]).
    + intros _. rewrite <- Htotal by done. unfold count_buffers. cbn. destruct e; cbn; lia.
    + by destruct e.
  - destruct opt as [b|]; [|by split]. apply Forall_singleton in Hhand as [Hb _]. destruct (is_empty b); [by split|].
    split; cbn; try done. apply Forall_app. split; [done|]. apply Forall_singleton. by apply Forall_singleton.
  - split; cbn; try done. apply Forall_app. split; [done|by repeat constructor].
  - split; done.
  - destruct m; split; done.
  - split; done.
  - rewrite Hw in Hwork. apply Forall_cons in Hwork as [Hb Hwork]. eapply buffers_worker; [exact Hk|exact Hok|done|by destruct m|done|].
    rewrite Hw. destruct m; cbn; lia.
  - pose proof (Forall_lookup_1 _ _ _ _ Hworkers' Hk) as Hb. eapply buffers_worker; [exact Hk|exact Hok|done..].
  - pose proof (Forall_lookup_1 _ _ _ _ Hworkers' Hk) as Hb. cbn in Hb. rewrite Forall_singleton in Hb.
    eapply buffers_worker; [exact Hk|exact Hok| |constructor|done|].
    + apply Forall_app. split; [done|]. by apply Forall_singleton.
    + unfold PieceBuffers_checkin. rewrite length_app. cbn. lia.
  - eapply buffers_worker; [exact Hk|exact Hok|done|constructor|done|done].
Qed.

Lemma flight_worker s k w w' work' recv' pool' : workers s !! k = Some w ->
  omap accepted_piece recv' ++ worker_piece w' ++ omap work_piece work' ≡ₚ
    omap accepted_piece (recv s) ++ worker_piece w ++ omap work_piece (work s) ->
  flight (mk_Hasher (master s) (hashed_pieces s) (piece_index s) work' pool' recv' (<[k := w']> (workers s))) ≡ₚ flight s.
Proof.
  intros Hk Hp. unfold flight. cbn [hashed_pieces recv workers work].
  destruct (update_split _ _ _ Hk) as (rest & Hrest & Hup). rewrite (Hup w'), Hrest. cbn [mbind list_bind].
  transitivity (hashed_pieces s ++ (rest ≫= worker_piece) ++ (omap accepted_piece recv' ++ worker_piece w' ++ omap work_piece work'));
    [solve_Permutation|]. rewrite Hp. solve_Permutation.
Qed.

Lemma pieces_worker s s' : pieces_ok s -> master s' = master s -> piece_index s' = piece_index s -> flight s' ≡ₚ flight s -> pieces_ok s'.
Proof. unfold pieces_ok. intros Hok -> -> Hf. by destruct (master s); rewrite ?Hf. Qed.

Lemma flight_push s b : flight (push_piece s b) ≡ₚ flight s ++ [(piece_index s, from_bytes (as_slice b))].
Proof. unfold flight. cbn. rewrite omap_app. cbn. solve_Permutation. Qed.

Lemma sum_full {A} (f : A -> nat) (l : list A) : (forall a, f a <= 1) -> length l <= sum_list_with f l -> Forall (fun a => f a = 1) l.
Proof.
  intros Hf. induction l as [|a l IH]; cbn; [constructor|]. intros Hl. pose proof (sum_le_length f l Hf). specialize (Hf a).
  constructor; [lia|]. apply IH. lia.
Qed.

(** Once every end has been received, nothing is in flight. *)
Lemma all_gone s n : ends_ok s -> master s = Receiving n -> num_workers <= n -> flight s = hashed_pieces s.
Proof using Hlen Hworkers.
  intros [Hl Hf He Hg (hs & k & Hw & Hhs & Hz) Hlast] Hm Hn. rewrite Hm in *. cbn in He, Hg.
  assert (forall w, gone w <= 1) as Hone by (intros []; cbn; lia). pose proof (sum_le_length gone (workers s) Hone).
  pose proof (sum_full gone (workers s) Hone ltac:(lia)) as Hall.
  assert (recv s = []) as Hr.
  { destruct Hlast as [?|[Hlast|?]]; [done| |lia]. apply last_Some in Hlast as [l Hlast]. rewrite Hlast, sum_list_with_app in Hg. cbn in Hg. lia. }
  assert (workers s ≫= worker_piece = []) as Hws.
  { clear -Hall. induction Hall as [|w ws Hw _ IH]; [done|]. cbn. rewrite IH. by destruct w. }
  assert (hs = []) as ->.
  { apply Hz. destruct Hall as [|w ws Hw1 _]; [cbn in Hl; lia|]. destruct w; cbn in Hw1 |- *; try done. lia. }
  assert (omap work_piece (replicate k Finish) = []) as Hk by (clear; induction k; [done|by cbn]).
  unfold flight. rewrite Hr, Hws, Hw. cbn. by rewrite Hk, app_nil_r.
Qed.

Lemma pieces_step s s' : pieces_ok s -> buffers_ok s -> ends_ok s -> hasher_step num_workers s s' -> pieces_ok s'.
Proof using Hlen Hworkers Hexpected.
  intros Hok Hbuf Hends Hs. destruct Hs as [s region accesses b Hm|s region accesses b pool' Hm Hp|s hash accesses opt Hm
    |s got rest b accesses Hm Hle Hgot|s region b accesses Hm|s region e accesses b pool' Hm Hp|s opt Hm|s k Hm|s Hm
    |s n m recv' Hm Hn Hr|s n Hm Hn|s k m work' Hk Hw|s k index b Hk|s k b Hk|s k Hk].
  1-11: unfold pieces_ok in Hok; rewrite Hm in Hok.
  - exact Hok.
  - unfold pieces_ok. cbn [master piece_index to_come]. destruct Hbuf as [Hpool _ _ _ _ _]. rewrite Hp in Hpool.
    apply Forall_cons in Hpool as [[_ Hb] _]. unfold as_slice at 1. rewrite Hb. exact Hok.
  - unfold pieces_ok. cbn [master piece_index to_come]. rewrite <- Hok. cbn [to_come pieces_from]. unfold flight. cbn.
    rewrite Nat.add_1_r. solve_Permutation.
  - destruct Hbuf as [_ Hhand _ _ _ _]. rewrite Hm in Hhand. apply Forall_singleton in Hhand as [Hb Hroom].
    unfold of_length in Hb. rewrite Hb in Hle. subst buffer' end_of_region. pose proof (write_slice b got Hb Hle) as Hsl.
    pose proof (write_length b got Hb Hle) as Hwl.
    cbn [to_come] in Hok. rewrite pieces_more, <- Hsl in Hok. destruct (is_whole _) eqn:Hwhole.
    + apply bool_decide_eq_true in Hwhole. unfold of_length in Hwl. rewrite Hwl in Hwhole.
      unfold pieces_ok. cbn [master set_master piece_index push_piece to_come]. rewrite <- Hok.
      change (flight (set_master (push_piece s (PieceBuffer_write_bytes b got)) (Refilling rest (bool_decide (got = [])) accesses)))
        with (flight (push_piece s (PieceBuffer_write_bytes b got))). rewrite flight_push, <- app_assoc. f_equiv. cbn [app].
      pose proof (pieces_more piece_length accesses (piece_index s) [] (as_slice (PieceBuffer_write_bytes b got)) rest) as Hpm.
      rewrite pieces_whole, app_nil_l in Hpm by (done || rewrite slice_length; done || lia). rewrite <- Hpm. by rewrite Nat.add_1_r.
    + apply bool_decide_eq_false in Hwhole. unfold of_length in Hwl. rewrite Hwl in Hwhole.
      case_bool_decide as Hg; [|exact Hok]. destruct (Hgot Hg) as [->|Hfull]; [|lia]. unfold pieces_ok.
      cbn [master set_master piece_index to_come from_option]. rewrite pieces_small in Hok; [exact Hok|].
      rewrite slice_length; [cbn in *; lia|done|cbn; lia].
  - done.
  - unfold pieces_ok. destruct Hbuf as [Hpool _ _ _ _ Hre]. rewrite Hp in Hpool. rewrite Hm in Hre.
    apply Forall_cons in Hpool as [[_ Hb] _]. destruct e; cbn [master piece_index to_come from_option]; unfold as_slice at 1; rewrite Hb.
    + subst region. cbn [to_come] in Hok. rewrite pieces_small in Hok by (cbn; lia). exact Hok.
    + exact Hok.
  - unfold pieces_ok. cbn [master set_master to_come]. rewrite app_nil_r, <- Hok. destruct opt as [b|]; cbn [from_option]; [|by rewrite app_nil_r].
    destruct Hbuf as [_ Hhand _ _ _ _]. rewrite Hm in Hhand. apply Forall_singleton in Hhand as [Hb Hroom].
    pose proof (slice_length b Hb ltac:(lia)) as Hsl. destruct (is_empty b) eqn:He.
    + apply bool_decide_eq_true in He. rewrite He in Hsl. cbn [to_come from_option]. destruct (as_slice b); [|done]. cbn. by rewrite app_nil_r.
    + apply bool_decide_eq_false in He. change (flight (set_master (push_piece s b) (Ending num_workers))) with (flight (push_piece s b)).
      rewrite flight_push. cbn [to_come from_option]. destruct (as_slice b) eqn:Hx; [cbn in Hsl; lia|]. done.
  - unfold pieces_ok. cbn [master set_master to_come]. rewrite <- Hok. unfold flight. cbn. rewrite omap_app. cbn. by rewrite !app_nil_r.
  - exact Hok.
  - unfold pieces_ok. destruct m as [index piece|]; cbn [master to_come]; rewrite <- Hok; unfold flight; cbn; rewrite Hr; cbn; solve_Permutation.
  - unfold pieces_ok. cbn. apply sort_pieces_unique; [done|]. rewrite <- Hok. cbn. by rewrite app_nil_r, (all_gone s n).
  - eapply pieces_worker; [exact Hok|done..|]. eapply flight_worker; [exact Hk|]. rewrite Hw. by destruct m.
  - eapply pieces_worker; [exact Hok|done..|]. eapply flight_worker; [exact Hk|]. rewrite omap_app. cbn. solve_Permutation.
  - eapply pieces_worker; [exact Hok|done..|]. by eapply flight_worker; [exact Hk|].
  - eapply pieces_worker; [exact Hok|done..|]. eapply flight_worker; [exact Hk|]. rewrite omap_app. cbn. solve_Permutation.
Qed.

(** ** Progress *)

Definition hasher_ok (s : Hasher) : Prop := pieces_ok s /\ buffers_ok s /\ ends_ok s.

Lemma hasher_step_ok s s' : hasher_ok s -> hasher_step num_workers s s' -> hasher_ok s'.
Proof using Hlen Hworkers Hexpected. intros (H1 & H2 & H3) Hs. split_and!; eauto using pieces_step, buffers_step, ends_step. Qed.

(** A worker that is not gone can go on, or waits for work. *)
Lemma worker_moves s k w : workers s !! k = Some w -> w <> Gone -> (exists s', hasher_step num_workers s s' /\ master s' = master s) \/ (w = Popping /\ work s = []).
Proof.
  intros Hk Hne. destruct w as [|index b|b| |]; [|left; eexists..|done].
  - destruct (work s) as [|m work'] eqn:Hw; [by right|]. left. eexists. split; [by eapply worker_pops|done].
  - split; [by apply worker_sends|done].
  - split; [by apply worker_checks_in|done].
  - split; [by apply worker_leaves|done].
Qed.

(** The master waits for a buffer: one is with a worker, or queued. *)
Lemma buffer_comes s : buffers_ok s -> ends_ok s -> filling (master s) = true -> master_buffer (master s) = [] -> pool s = [] ->
  exists s', hasher_step num_workers s s' /\ master s' = master s.
Proof using Hlen Hworkers.
  intros Hbuf Hends Hfill Hhand Hpool. destruct Hbuf as [_ _ _ _ Ht _]. specialize (Ht Hfill). unfold count_buffers in Ht.
  rewrite Hhand, Hpool in Ht. cbn in Ht. destruct Hends as [Hl Hf _ _ _ _].
  assert (pushed (master s) = 0) as Hp by (by destruct (master s)). rewrite Hp in Hf.
  assert (forall k w, workers s !! k = Some w -> w <> Gone) as Hng.
  { intros k w Hk ->. destruct (update_split _ _ _ Hk) as (rest & Hrest & _). rewrite Hrest in Hf. cbn in Hf. lia. }
  destruct (work s) as [|m work'] eqn:Hw.
  - assert (exists k w, workers s !! k = Some w /\ w <> Popping) as (k & w & Hk & Hne).
    { destruct (decide (Forall (fun w => length (worker_buffer w) = 0) (workers s))) as [Hall|Hex].
      - exfalso. assert (sum_list_with (length ∘ worker_buffer) (workers s) = 0); [|cbn in Ht; lia].
        clear -Hall. induction Hall as [|w ws Hw _ IH]; [done|]. cbn. rewrite IH. unfold compose in *. lia.
      - apply not_Forall_Exists in Hex; [|apply _]. apply Exists_exists in Hex as (w & Hin & Hw'). apply list_elem_of_lookup in Hin as [k Hk].
        exists k, w. split; [done|]. intros ->. by apply Hw'. }
    destruct (worker_moves s k w Hk (Hng k w Hk)) as [?|[? _]]; [done|by destruct Hne].
  - destruct (workers s) as [|w ws] eqn:Hws; [cbn in Hl; lia|]. destruct (worker_moves s 0 w) as [?|[_ ?]]; [by rewrite Hws|by apply (Hng 0)|done|congruence].
Qed.

Lemma hasher_progress s : hasher_ok s ->
  match master s with Returned _ | Failed => True | _ => exists s', hasher_step num_workers s s' /\ master s' <> Failed end.
Proof using Hlen Hworkers.
  intros (_ & Hbuf & Hends).
  assert (master s <> Failed -> (exists s', hasher_step num_workers s s' /\ master s' = master s) ->
    exists s', hasher_step num_workers s s' /\ master s' <> Failed) as Hsame by (intros Hne (s' & Hs & He); exists s'; by rewrite He).
  destruct (master s) as [[|[region|hash] accesses] opt|region b accesses|region e accesses|k|n|pieces|] eqn:Hm; try done.
  - eexists. split; [by eapply accesses_end|done].
  - destruct opt as [b|]; [eexists; split; [by eapply compute_resumes|done]|]. destruct (pool s) as [|b pool'] eqn:Hp.
    + apply Hsame; [done|]. rewrite <- Hm. eapply buffer_comes; [done..| | |done]; by rewrite Hm.
    + eexists. split; [by eapply compute_checks_out|done].
  - eexists. split; [by eapply precomputed|done].
  - destruct Hbuf as [_ Hhand _ _ _ _]. rewrite Hm in Hhand. apply Forall_singleton in Hhand as [Hb Hroom]. unfold of_length in Hb.
    eexists. split; [eapply (reads _ _ (take (piece_length - bytes_read b) region) (drop (piece_length - bytes_read b) region))|].
    + by rewrite take_drop.
    + rewrite length_take. lia.
    + intros Ht. left. apply (f_equal length) in Ht. rewrite length_take in Ht. cbn in Ht. apply length_zero_iff_nil. rewrite length_drop. lia.
    + cbv zeta. destruct (is_whole _); [done|]. cbn. by destruct (bool_decide _).
  - destruct (pool s) as [|b pool'] eqn:Hp; [|eexists; split; [by eapply refills|by destruct e]].
    apply Hsame; [done|]. rewrite <- Hm. eapply buffer_comes; [done..| | |done]; by rewrite Hm.
  - destruct k as [|k]; eexists; (split; [first [by eapply ends_pushed|by eapply pushes_end]|done]).
  - destruct (decide (num_workers <= n)) as [Hn|Hn]; [eexists; split; [by eapply returns_pieces|done]|].
    destruct (recv s) as [|m recv'] eqn:Hr; [|eexists; split; [eapply receives; [done|lia|done]|by destruct m]].
    destruct Hends as [Hl Hf _ Hg Hord _]. rewrite Hm, Hr in *. cbn in Hf, Hg.
    assert (exists k w, workers s !! k = Some w /\ w <> Gone) as (k & w & Hk & Hne).
    { destruct (decide (Forall (fun w => gone w = 1) (workers s))) as [Hall|Hex].
      - exfalso. assert (sum_list_with gone (workers s) = length (workers s)); [|lia].
        clear -Hall. induction Hall as [|w ws Hw _ IH]; [done|]. cbn. by rewrite IH, Hw.
      - apply not_Forall_Exists in Hex; [|apply _]. apply Exists_exists in Hex as (w & Hin & Hw'). apply list_elem_of_lookup in Hin as [k Hk].
        exists k, w. split; [done|]. intros ->. by apply Hw'. }
    destruct (worker_moves s k w Hk Hne) as [?|[-> Hw]]; [apply Hsame; [done|by rewrite <- Hm]|]. exfalso. rewrite Hw in Hf. cbn in Hf.
    destruct (update_split _ _ _ Hk) as (rest & Hrest & _). rewrite Hrest in Hf, Hl. cbn in Hf, Hl.
    pose proof (sum_le_length leaving rest ltac:(intros []; cbn; lia)). lia.
Qed.

(** ** Termination *)

Definition access_cost (a : PieceAccess) : nat := match a with Compute_ region => 10 * length region + 6 | PreComputed _ => 1 end.
Definition master_cost (m : Master) : nat :=
  let tail := 6 * num_workers + 10 in
  match m with
  | Between accesses _ => sum_list_with access_cost accesses + tail
  | Reading region _ accesses => 10 * length region + 4 + sum_list_with access_cost accesses + tail
  | Refilling region _ accesses => 10 * length region + 5 + sum_list_with access_cost accesses + tail
  | Ending k => 6 * k + 3
  | Receiving _ => 2
  | Returned _ | Failed => 0
  end.
Definition work_cost (m : WorkerMessage) : nat := match m with HashPiece _ _ => 6 | Finish => 5 end.
Definition worker_cost (w : Worker) : nat := match w with Popping | Gone => 0 | Hashed _ _ => 5 | CheckingIn _ => 2 | Leaving => 3 end.
Definition recv_cost (m : MasterMessage) : nat := 1.

(** An upper bound for the steps still to be made. *)
Definition cost (s : Hasher) : nat :=
  master_cost (master s) + sum_list_with work_cost (work s) + sum_list_with worker_cost (workers s) + sum_list_with recv_cost (recv s).

Lemma worker_step_cost s k w w' work' recv' pool' : workers s !! k = Some w ->
  sum_list_with work_cost work' + sum_list_with recv_cost recv' + worker_cost w' <
    sum_list_with work_cost (work s) + sum_list_with recv_cost (recv s) + worker_cost w ->
  cost (mk_Hasher (master s) (hashed_pieces s) (piece_index s) work' pool' recv' (<[k := w']> (workers s))) < cost s.
Proof.
  intros Hk Hlt. unfold cost. cbn [master work workers recv]. destruct (update_split _ _ _ Hk) as (rest & Hrest & Hup).
  rewrite (Hup w'), Hrest. cbn [sum_list_with]. lia.
Qed.

Lemma step_cost s s' : buffers_ok s -> hasher_step num_workers s s' -> cost s' < cost s.
Proof using Hlen Hworkers.
  intros Hbuf Hs. destruct Hs as [s region accesses b Hm|s region accesses b pool' Hm Hp|s hash accesses opt Hm
    |s got rest b accesses Hm Hle Hgot|s region b accesses Hm|s region e accesses b pool' Hm Hp|s opt Hm|s k Hm|s Hm
    |s n m recv' Hm Hn Hr|s n Hm Hn|s k m work' Hk Hw|s k index b Hk|s k b Hk|s k Hk].
  1-11: unfold cost; cbn [master work workers recv set_master push_work push_piece]; rewrite Hm.
  - cbn. lia.
  - cbn. lia.
  - cbn. lia.
  - destruct Hbuf as [_ Hhand _ _ _ _]. rewrite Hm in Hhand. apply Forall_singleton in Hhand as [Hb Hroom]. unfold of_length in Hb.
    subst buffer' end_of_region. destruct (bool_decide_reflect (got = [])) as [Hg|Hg]; destruct (is_whole _) eqn:Hwhole;
      cbn [master work workers recv set_master push_work push_piece].
    + subst got. apply bool_decide_eq_true in Hwhole. cbn in Hwhole. rewrite !length_app, length_take, length_drop in Hwhole. cbn in Hwhole. lia.
    + subst got. cbn. lia.
    + rewrite sum_list_with_app. cbn. rewrite length_app. destruct got; [done|cbn; lia].
    + cbn. rewrite length_app. destruct got; [done|cbn; lia].
  - cbn. lia.
  - destruct e; cbn; lia.
  - destruct opt as [b|]; [destruct (is_empty b)|]; cbn; rewrite ?sum_list_with_app; cbn; lia.
  - rewrite sum_list_with_app. cbn. lia.
  - cbn. lia.
  - rewrite Hr. destruct m; cbn; lia.
  - cbn. lia.
  - eapply worker_step_cost; [exact Hk|]. rewrite Hw. destruct m; cbn; lia.
  - eapply worker_step_cost; [exact Hk|]. rewrite sum_list_with_app. cbn. lia.
  - eapply worker_step_cost; [exact Hk|]. cbn. lia.
  - eapply worker_step_cost; [exact Hk|]. rewrite sum_list_with_app. cbn. lia.
Qed.

End proofs.

Lemma start_ok `{Sha1} piece_length num_workers accesses : 0 < piece_length ->
  hasher_ok piece_length num_workers (pieces_from piece_length accesses 0 []) (start_hasher_workers piece_length num_workers accesses).
Proof.
  intros Hlen. assert (forall A (f : Worker -> list A), f Popping = [] -> replicate num_workers Popping ≫= f = []) as Hnone.
  { intros A f Hf. clear -Hf. induction num_workers as [|n IH]; cbn; [done|]. by rewrite IH, Hf. }
  assert (forall f : Worker -> nat, f Popping = 0 -> sum_list_with f (replicate num_workers Popping) = 0) as Hzero.
  { intros f Hf. clear -Hf. induction num_workers as [|n IH]; cbn; [done|]. by rewrite IH, Hf. }
  split_and!.
  - unfold pieces_ok, flight. cbn. by rewrite Hnone.
  - split; cbn; try done.
    + apply Forall_replicate. split; [apply length_replicate|done].
    + by apply Forall_replicate.
    + intros _. unfold count_buffers. cbn. rewrite Hzero by done. unfold PieceBuffers_new. rewrite length_replicate.
      unfold calculate_total_buffers, TOTAL_BUFFERS_MULTIPLICATIVE, TOTAL_BUFFERS_ADDITIVE. lia.
  - split; cbn; try done.
    + apply length_replicate.
    + by rewrite Hzero.
    + by rewrite Hzero.
    + exists [], 0. split_and!; [done|constructor|done].
    + by left.
Qed.

Lemma run_ok `{Sha1} piece_length num_workers accesses n s : 0 < piece_length -> 0 < num_workers ->
  nsteps (hasher_step num_workers) n (start_hasher_workers piece_length num_workers accesses) s ->
  hasher_ok piece_length num_workers (pieces_from piece_length accesses 0 []) s /\
  n + cost num_workers s <= cost num_workers (start_hasher_workers piece_length num_workers accesses).
Proof.
  intros Hlen Hw Hn. pose proof (start_ok piece_length num_workers accesses Hlen) as Hok.
  destruct (pieces_indices piece_length accesses 0 []) as [Hsorted _].
  induction Hn as [s0|n s0 s1 s2 Hs Hn IH]; [by split|].
  pose proof (step_cost piece_length num_workers Hlen Hw _ _ (proj1 (proj2 Hok)) Hs).
  destruct IH as [? ?]; [by eapply hasher_step_ok|]. split; [done|lia].
Qed.

(** C15. Hashing the pieces of a torrent is deterministic and ends.  However the
    master, its workers, the queue, the pool of buffers and the reads of the
    accessor interleave: every run is finite; as long as the master has not
    returned and no read failed, something can go on without a read failing, so
    there is no deadlock over the buffers; and when the master returns, it
    returns the pieces in order: for regions, the hashes of the chunks of their
    concatenation, whatever the region borders. *)
Theorem hashing_deterministic `{Sha1} piece_length num_workers accesses n (s : Hasher) :
  0 < piece_length -> 0 < num_workers ->
  nsteps (hasher_step num_workers) n (start_hasher_workers piece_length num_workers accesses) s ->
  n <= cost num_workers (start_hasher_workers piece_length num_workers accesses) /\
  match master s with
  | Returned pieces =>
      pieces = pieces_from piece_length accesses 0 [] /\
      forall regions, accesses = Compute_ <$> regions ->
        pieces = imap (fun k c => (k, from_bytes c)) (chunks piece_length (concat regions))
  | Failed => True
  | _ => exists s', hasher_step num_workers s s' /\ master s' <> Failed
  end.
Proof.
  intros Hlen Hw Hn. destruct (run_ok _ _ _ _ _ Hlen Hw Hn) as [Hok Hcost]. split; [lia|].
  pose proof (hasher_progress _ _ _ Hlen Hw _ Hok) as Hp. destruct Hok as [Hpieces _]. unfold pieces_ok in Hpieces.
  destruct (master s) as [| | | | |pieces|]; try done. split; [done|]. intros regions ->. by rewrite Hpieces, pieces_of_regions.
Qed.

(** A read that fails strands the workers: the master returns without telling
    them, so no worker ever leaves its loop. *)
Theorem failed_read_strands_workers `{Sha1} piece_length num_workers accesses n (s : Hasher) :
  0 < piece_length -> 0 < num_workers ->
  nsteps (hasher_step num_workers) n (start_hasher_workers piece_length num_workers accesses) s -> master s = Failed ->
  Forall (fun w => w <> Leaving /\ w <> Gone) (workers s) /\ forall s', hasher_step num_workers s s' -> master s' = Failed.
Proof.
  intros Hlen Hw Hn Hm. destruct (run_ok _ _ _ _ _ Hlen Hw Hn) as [(_ & _ & [_ Hf _ _ _ _]) _]. rewrite Hm in Hf. cbn in Hf. split.
  - apply Forall_forall. intros w Hin. pose proof (sum_list_with_in w leaving (workers s) Hin). split; intros ->; cbn in *; lia.
  - intros s' Hs. destruct Hs; cbn; congruence.
Qed.

(** ** An instance *)

Lemma runs_return `{Sha1} piece_length num_workers accesses : 0 < piece_length -> 0 < num_workers ->
  exists n s pieces, nsteps (hasher_step num_workers) n (start_hasher_workers piece_length num_workers accesses) s /\ master s = Returned pieces.
Proof.
  intros Hlen Hw. set (s0 := start_hasher_workers piece_length num_workers accesses).
  assert (forall k n s, cost num_workers s < k -> nsteps (hasher_step num_workers) n s0 s -> master s <> Failed ->
    exists n s pieces, nsteps (hasher_step num_workers) n s0 s /\ master s = Returned pieces) as Hx.
  { induction k as [|k IH]; intros n s Hk Hn Hm; [lia|]. destruct (run_ok _ _ _ _ _ Hlen Hw Hn) as [Hok _].
    pose proof (hasher_progress _ _ _ Hlen Hw _ Hok) as Hp. destruct (master s) as [| | | | |pieces|] eqn:E; try done.
    6: by exists n, s, pieces.
    all: destruct Hp as (s' & Hs & Hne); apply (IH (n + 1) s'); [|eapply nsteps_trans; [exact Hn|by apply nsteps_once]|done];
      pose proof (step_cost piece_length num_workers Hlen Hw _ _ (proj1 (proj2 Hok)) Hs); lia. }
  apply (Hx (S (cost num_workers s0)) 0 s0); [lia|constructor|done].
Qed.

Lemma hashing_deterministic_witness : exists n s,
  nsteps (hasher_step (H := Sha1_pad) 2) n (start_hasher_workers 2 2 (Compute_ <$> [[x01]; [x02; x03]])) s /\
  master s = Returned [(0, from_bytes (H := Sha1_pad) [x01; x02]); (1, from_bytes (H := Sha1_pad) [x03])].
Proof.
  destruct (runs_return (H := Sha1_pad) 2 2 (Compute_ <$> [[x01]; [x02; x03]])) as (n & s & pieces & Hn & Hm); [lia..|].
  exists n, s. split; [exact Hn|].
  pose proof (proj2 (hashing_deterministic (H := Sha1_pad) 2 2 (Compute_ <$> [[x01]; [x02; x03]]) n s ltac:(lia) ltac:(lia) Hn)) as Hp.
  rewrite Hm in Hp. destruct Hp as [_ Hp]. rewrite Hm. f_equal. exact (Hp [[x01]; [x02; x03]] eq_refl).
Defined.
