(* ===== verification/MetainfoBuild.v ===== *)
(** * [bip_metainfo]: writing torrent files

    The builders of [builder/mod.rs] over an accessor, the accessors of
    [metainfo.rs] and [accessor.rs], and [to_bytes].  The pieces come from the
    hashing of [MetainfoHasher], whose every run returns [pieces_from].  Names
    come from strings, on which [to_string_lossy] is the identity.  The sum of
    the lengths panics when it overflows, as with overflow checks. *)

From stdpp Require Import prelude list gmap strings.
From Stdlib Require Import ZArith Lia Strings.Byte Floats.SpecFloat.
From S2P Require Import Prelude Bytes BTreeMap DecStr Bencode BencodeTotal BencodeRoundtrip BencodeAccess Convert Sha Fs Metainfo MetainfoHasher.

(** ** Accessors *)

(** [path.iter()] and the string of a path. *)
Definition path_iter (p : path) : list bytes := (if is_absolute p then [[SEPARATOR]] else []) ++ components p.
Fixpoint join_separator (cs : list bytes) : bytes :=
  match cs with
  | [] => []
  | [c] => c
  | c :: cs => c ++ SEPARATOR :: join_separator cs
  end.
Definition path_string (p : path) : bytes := (if is_absolute p then [SEPARATOR] else []) ++ join_separator (components p).

(** [Accessor]: what the callbacks are called with, in order. *)
Class Accessor (A E : Type) : Type := {
  access_directory : A -> option path;
  access_metadata : A -> outcome E (list (nat * path));
  access_pieces : A -> outcome E (list PieceAccess);
}.

#[export] Instance Info_accessor : Accessor Info Empty_set := {
  access_directory i := file_directory i;
  access_metadata i := Ok ((fun f => (file_len f, file_path f)) <$> files i);
  access_pieces i := mapM (fun piece => h ← unwrap (ok (from_hash piece)); Ok (PreComputed h)) (pieces i);
}.

Record DirectAccessor : Type := DirectAccessor_new { file_name : bytes; file_contents : bytes }.

#[export] Instance Direct_accessor : Accessor DirectAccessor Empty_set := {
  access_directory _ := None;
  access_metadata d := Ok [(length (file_contents d), path_of_str (file_name d))];
  access_pieces d := Ok [Compute_ (file_contents d)];
}.

(** ** The length of a piece *)

Definition ALL_OPT_MAX_PIECE_LENGTH : Z := 16 * 1024 * 1024.
Definition BALANCED_MAX_PIECES_SIZE : Z := 40000.
Definition BALANCED_MIN_PIECE_LENGTH : Z := 512 * 1024.
Definition FILE_SIZE_MAX_PIECES_SIZE : Z := 20000.
Definition FILE_SIZE_MIN_PIECE_LENGTH : Z := 1 * 1024 * 1024.
Definition TRANSFER_MAX_PIECES_SIZE : Z := 60000.
Definition TRANSFER_MIN_PIECE_LENGTH : Z := 1 * 1024.

Inductive PieceLength : Type :=
| OptBalanced
| OptFileSize
| OptTransfer
| Custom (len : nat).

(** [f64]: the IEEE operations on 53 bits. *)
Definition f64_of (z : Z) : spec_float := binary_normalize 53 1024 z 0 false.
Definition f64_half : spec_float := binary_normalize 53 1024 1 (-1) false.
Definition f64_as_usize (f : spec_float) : Z :=
  match f with
  | S754_finite false m e => Z.min (Z.shiftl (Zpos m) e) (2 ^ 64 - 1)
  | S754_infinity false => (2 ^ 64 - 1)%Z
  | _ => 0%Z
  end.

Definition next_power_of_two {E} (n : Z) : outcome E Z :=
  let p := (2 ^ Z.log2_up n)%Z in
  if decide (p < 2 ^ 64)%Z then Ok p else Panic.

Definition calculate_piece_length {E} (total_file_size max_pieces_size min_piece_length : Z) : outcome E Z :=
  let num_pieces := SFdiv 53 1024 (f64_of max_pieces_size) (f64_of (Z.of_nat SHA_HASH_LEN)) in
  let piece_length := f64_as_usize (SFadd 53 1024 (SFdiv 53 1024 (f64_of total_file_size) num_pieces) f64_half) in
  pot_piece_length ← next_power_of_two piece_length;
  Ok (match bool_decide (min_piece_length < pot_piece_length)%Z, bool_decide (pot_piece_length < ALL_OPT_MAX_PIECE_LENGTH)%Z with
      | true, true => pot_piece_length
      | false, _ => min_piece_length
      | _, false => ALL_OPT_MAX_PIECE_LENGTH
      end).

Definition determine_piece_length {E} (total_file_size : Z) (piece_length : PieceLength) : outcome E nat :=
  match piece_length with
  | Custom len => Ok len
  | OptBalanced => n ← calculate_piece_length total_file_size BALANCED_MAX_PIECES_SIZE BALANCED_MIN_PIECE_LENGTH; Ok (Z.to_nat n)
  | OptFileSize => n ← calculate_piece_length total_file_size FILE_SIZE_MAX_PIECES_SIZE FILE_SIZE_MIN_PIECE_LENGTH; Ok (Z.to_nat n)
  | OptTransfer => n ← calculate_piece_length total_file_size TRANSFER_MAX_PIECES_SIZE TRANSFER_MIN_PIECE_LENGTH; Ok (Z.to_nat n)
  end.

Definition map_pieces_list (pieces : list ShaHash) : bytes := concat (sha_hash <$> pieces).

(** ** Builders *)

Record InfoBuilder : Type := mk_InfoBuilder { ib_info : BencodeMut; ib_piece_length : PieceLength }.
Record MetainfoBuilder : Type := mk_MetainfoBuilder { mb_root : BencodeMut; mb_info : InfoBuilder }.

Definition InfoBuilder_new : InfoBuilder := mk_InfoBuilder MutAccess.new_dict OptBalanced.
Definition MetainfoBuilder_new : MetainfoBuilder := mk_MetainfoBuilder MutAccess.new_dict InfoBuilder_new.

Section build.
Context {E : Type}.

(** [dict_mut().unwrap()] *)
Definition with_dict (v : BencodeMut) (f : list (bytes * BencodeMut) -> outcome E (list (bytes * BencodeMut))) : outcome E BencodeMut :=
  match v with MDict d => d ← f d; Ok (MDict d) | _ => Panic end.
Definition insert_key (key : bytes) (value : BencodeMut) (d : list (bytes * BencodeMut)) : list (bytes * BencodeMut) :=
  (BDict.insert d key value).2.
Definition remove_key (key : bytes) (d : list (bytes * BencodeMut)) : list (bytes * BencodeMut) := (BDict.remove d key).2.

(** Set or unset a key, as every setter but the one of the private flag does. *)
Definition set_key (key : bytes) (value : option BencodeMut) (d : list (bytes * BencodeMut)) : list (bytes * BencodeMut) :=
  match value with Some v => insert_key key v d | None => remove_key key d end.

Definition set_root (self : MetainfoBuilder) (key : bytes) (value : option BencodeMut) : outcome E MetainfoBuilder :=
  root ← with_dict (mb_root self) (fun d => Ok (set_key key value d));
  Ok (mk_MetainfoBuilder root (mb_info self)).

Definition string_list (l : list bytes) : BencodeMut := MList (foldl BList.push [] (MutAccess.new_bytes <$> l)).

Definition set_trackers (self : MetainfoBuilder) (opt_trackers : option (list (list bytes))) : outcome E MetainfoBuilder :=
  set_root self ANNOUNCE_LIST_KEY ((fun groups => MList (foldl BList.push [] (string_list <$> groups))) <$> opt_trackers).
Definition set_main_tracker (self : MetainfoBuilder) (opt_tracker_url : option bytes) : outcome E MetainfoBuilder :=
  set_root self ANNOUNCE_URL_KEY (MutAccess.new_bytes <$> opt_tracker_url).
Definition set_creation_date (self : MetainfoBuilder) (opt_secs_epoch : option Z) : outcome E MetainfoBuilder :=
  set_root self CREATION_DATE_KEY (MutAccess.new_int <$> opt_secs_epoch).
Definition set_comment (self : MetainfoBuilder) (opt_comment : option bytes) : outcome E MetainfoBuilder :=
  set_root self COMMENT_KEY (MutAccess.new_bytes <$> opt_comment).
Definition set_created_by (self : MetainfoBuilder) (opt_created_by : option bytes) : outcome E MetainfoBuilder :=
  set_root self CREATED_BY_KEY (MutAccess.new_bytes <$> opt_created_by).

(** [and_then(insert).or_else(remove)]: [insert] gives the value it replaced. *)
Definition InfoBuilder_set_private_flag (self : InfoBuilder) (opt_is_private : option bool) : outcome E InfoBuilder :=
  let opt_numeric_is_private := (fun is_private : bool => if is_private then 1%Z else 0%Z) <$> opt_is_private in
  info ← with_dict (ib_info self) (fun d => Ok (
    let '(replaced, d) :=
      match opt_numeric_is_private with
      | Some n => BDict.insert d PRIVATE_KEY (MutAccess.new_int n)
      | None => (None, d)
      end in
    match replaced with Some _ => d | None => remove_key PRIVATE_KEY d end));
  Ok (mk_InfoBuilder info (ib_piece_length self)).

Definition InfoBuilder_set_piece_length (self : InfoBuilder) (piece_length : PieceLength) : InfoBuilder :=
  mk_InfoBuilder (ib_info self) piece_length.

Definition set_private_flag (self : MetainfoBuilder) (opt_is_private : option bool) : outcome E MetainfoBuilder :=
  info ← InfoBuilder_set_private_flag (mb_info self) opt_is_private;
  Ok (mk_MetainfoBuilder (mb_root self) info).
Definition set_piece_length (self : MetainfoBuilder) (piece_length : PieceLength) : MetainfoBuilder :=
  mk_MetainfoBuilder (mb_root self) (InfoBuilder_set_piece_length (mb_info self) piece_length).

(** Reading back what was set. *)
Definition root_dict (self : MetainfoBuilder) : outcome E (list (bytes * BencodeMut)) := unwrap (MutAccess.dict (mb_root self)).
Definition get_trackers (self : MetainfoBuilder) : outcome E (option (list (list bytes))) :=
  d ← root_dict self; Ok (convert_announce_list <$> parse_announce_list d).
Definition get_main_tracker (self : MetainfoBuilder) : outcome E (option bytes) := d ← root_dict self; Ok (parse_announce_url d).
Definition get_creation_date (self : MetainfoBuilder) : outcome E (option Z) := d ← root_dict self; Ok (parse_creation_date d).
Definition get_comment (self : MetainfoBuilder) : outcome E (option bytes) := d ← root_dict self; Ok (parse_comment d).
Definition get_created_by (self : MetainfoBuilder) : outcome E (option bytes) := d ← root_dict self; Ok (parse_created_by d).

End build.

(** ** Building *)

Definition file_bencode (f : nat * list bytes) : BencodeMut :=
  MDict (ben_map_entries [(LENGTH_KEY, MutAccess.new_int (as_signed 64 (Z.of_nat f.1))); (PATH_KEY, string_list f.2)]).
Definition files_bencode (files_info : list (nat * list bytes)) : BencodeMut := MList (foldl BList.push [] (file_bencode <$> files_info)).

(** [files_info.iter().fold(0, |acc, nex| acc + nex.0)] *)
Fixpoint add_lengths {E} (acc : nat) (files_info : list (nat * list bytes)) : outcome E nat :=
  match files_info with
  | [] => Ok acc
  | nex :: files_info => if decide (Z.of_nat (acc + nex.1) < 2 ^ 64)%Z then add_lengths (acc + nex.1) files_info else Panic
  end.

(** A buffer of no bytes is whole at once and no region is read: one empty piece for each. *)
Definition empty_pieces `{Sha1} (accesses : list PieceAccess) : list (nat * ShaHash) :=
  imap (fun index access => (index, match access with Compute_ _ => from_bytes [] | PreComputed hash => hash end)) accesses.

Definition pieces_list `{Sha1} (piece_length : nat) (accesses : list PieceAccess) : list (nat * ShaHash) :=
  if decide (piece_length = 0) then empty_pieces accesses else pieces_from piece_length accesses 0 [].

Section building.
Context `{Sha1} {A E : Type} `{Accessor A E}.

(** The keys of a multi file or a single file torrent. *)
Definition insert_files (directory : option bytes) (files_info : list (nat * list bytes)) (d : list (bytes * BencodeMut)) :
    outcome E (list (bytes * BencodeMut)) :=
  match directory, bool_decide (1 < length files_info) with
  | Some directory, _ =>
      Ok (insert_key FILES_KEY (files_bencode files_info) (insert_key NAME_KEY (MutAccess.new_bytes directory) d))
  | None, true => Ok (insert_key FILES_KEY (files_bencode files_info) (insert_key NAME_KEY (MutAccess.new_bytes []) d))
  | None, false =>
      (* files_info[0] *)
      f ← unwrap (files_info !! 0);
      let single_file_name := concat f.2 in
      Ok (insert_key NAME_KEY (MutAccess.new_bytes single_file_name)
            (insert_key LENGTH_KEY (MutAccess.new_int (as_signed 64 (Z.of_nat f.1))) d))
  end.

Definition build_with_accessor (threads : nat) (accessor : A) (opt_root : option BencodeMut) (info : BencodeMut)
    (piece_length : PieceLength) : outcome E bytes :=
  if decide (threads = 0) then Panic
  else
    metadata ← access_metadata accessor;
    let files_info := (fun '(len, p) => (len, path_iter p)) <$> metadata in
    total_files_len ← add_lengths 0 files_info;
    piece_length ← determine_piece_length (Z.of_nat total_files_len) piece_length;
    accesses ← access_pieces accessor;
    let pieces := map_pieces_list (pieces_list piece_length accesses).*2 in
    let access_directory := path_string <$> access_directory accessor in
    info ← with_dict info (fun d =>
      insert_files access_directory files_info
        (insert_key PIECES_KEY (MutAccess.new_bytes pieces)
           (insert_key PIECE_LENGTH_KEY (MutAccess.new_int (as_signed 64 (Z.of_nat piece_length))) d)));
    match opt_root with
    | Some root => root ← with_dict root (fun d => Ok (insert_key INFO_KEY info d)); Ok (encode root)
    | None => Ok (encode info)
    end.

Definition InfoBuilder_build (self : InfoBuilder) (threads : nat) (accessor : A) : outcome E bytes :=
  build_with_accessor threads accessor None (ib_info self) (ib_piece_length self).
Definition MetainfoBuilder_build (self : MetainfoBuilder) (threads : nat) (accessor : A) : outcome E bytes :=
  build_with_accessor threads accessor (Some (mb_root self)) (ib_info (mb_info self)) (ib_piece_length (mb_info self)).

End building.

Section to_bytes.
Context `{Sha1}.

Definition Info_to_bytes (self : Info) : outcome Empty_set bytes :=
  b ← InfoBuilder_set_private_flag InfoBuilder_new (is_private self);
  InfoBuilder_build (InfoBuilder_set_piece_length b (Custom (piece_len self))) 1 self.

Definition Metainfo_to_bytes (self : Metainfo) : outcome Empty_set bytes :=
  b ← set_main_tracker MetainfoBuilder_new (mi_announce self);
  b ← set_creation_date b (mi_creation_date self);
  b ← set_comment b (mi_comment self);
  b ← set_created_by b (mi_created_by self);
  b ← set_private_flag b (is_private (mi_info self));
  MetainfoBuilder_build (set_piece_length b (Custom (piece_len (mi_info self)))) 1 (mi_info self).

End to_bytes.
