(* ===== verification/MetainfoProofs.v ===== *)
(** * [bip_metainfo]: what is written is read back

    Reading a torrent file always comes back and gives a well formed value;
    reading what [to_bytes] wrote gives the value back, but for the fields it
    drops. *)

From stdpp Require Import prelude list gmap strings.
From Stdlib Require Import ZArith Lia Strings.Byte.
From S2P Require Import Prelude Bytes BTreeMap DecStr Bencode BencodeTotal BencodeRoundtrip BencodeAccess Convert Sha Fs Metainfo MetainfoHasher MetainfoBuild.

(** ** Dictionaries *)

Lemma set_key_wf key value (d : list (bytes * BencodeMut)) : bt_wf d -> bt_wf (set_key key value d).
Proof. intros Hd. destruct value; [by apply bt_insert_wf|by apply bt_remove_wf]. Qed.

Lemma set_key_get key value k (d : list (bytes * BencodeMut)) : bt_wf d ->
  bt_get k (set_key key value d) = if decide (k = key) then value else bt_get k d.
Proof.
  intros Hd. destruct value as [v|]; cbn; case_decide as Hk; subst; try rewrite bt_get_insert; try rewrite bt_get_remove by done; try done.
  - by apply bt_get_insert_ne.
  - by apply bt_get_remove_ne.
Qed.

Lemma foldl_push {V} (l acc : list V) : foldl BList.push acc l = acc ++ l.
Proof. revert acc. induction l as [|x l IH]; intros acc; cbn; [by rewrite app_nil_r|]. rewrite IH. unfold BList.push. by rewrite <- app_assoc. Qed.

Lemma string_list_eq l : string_list l = MList (MBytes <$> l).
Proof. unfold string_list. by rewrite foldl_push. Qed.

(** ** Numbers *)

Lemma u64_i64 (n : nat) : (Z.of_nat n < 2 ^ 64)%Z -> as_u64 (as_signed 64 (Z.of_nat n)) = n.
Proof.
  intros Hn. unfold as_u64, as_signed, as_unsigned. rewrite Zminus_mod_idemp_l.
  replace (Z.of_nat n + 2 ^ (64 - 1) - 2 ^ (64 - 1))%Z with (Z.of_nat n) by lia. rewrite Z.mod_small by lia. lia.
Qed.

Lemma as_u64_bound z : (Z.of_nat (as_u64 z) < 2 ^ 64)%Z.
Proof. unfold as_u64. pose proof (as_unsigned_range 64 z ltac:(lia)) as [? ?]. lia. Qed.

(** ** Paths *)

(** A name that stands for itself in a path. *)
Definition plain_name (c : bytes) : Prop :=
  c <> [] /\ c <> DOT /\ (SEPARATOR ∉ c) /\ from_utf8 c = Some c /\ (Z.of_nat (length c) < 2 ^ 63)%Z.
Definition plain_path (p : path) : Prop := is_absolute p = false /\ Forall plain_name (components p).

Lemma split_plain c s : SEPARATOR ∉ c -> split_separator (c ++ SEPARATOR :: s) = c :: split_separator s.
Proof.
  induction c as [|b c IH]; intros Hc; cbn; [by rewrite decide_True|]. apply not_elem_of_cons in Hc as [Hb Hc].
  rewrite decide_False by done. by rewrite IH.
Qed.

Lemma split_last c : SEPARATOR ∉ c -> split_separator c = [c].
Proof.
  induction c as [|b c IH]; intros Hc; cbn; [done|]. apply not_elem_of_cons in Hc as [Hb Hc].
  rewrite decide_False by done. by rewrite IH.
Qed.

Lemma split_join cs : cs <> [] -> Forall plain_name cs -> split_separator (join_separator cs) = cs.
Proof.
  intros Hne Hcs. induction Hcs as [|c cs (_ & _ & Hc & _) Hcs IH]; [done|]. destruct cs as [|c' cs]; [by apply split_last|].
  change (join_separator (c :: c' :: cs)) with (c ++ SEPARATOR :: join_separator (c' :: cs)). by rewrite split_plain, IH.
Qed.

Lemma normalize_plain b cs : Forall plain_name cs -> normalize b cs = cs.
Proof.
  assert (forall l, Forall plain_name l -> filter (fun c => c <> DOT) l = l) as Hf.
  { intros l Hl. induction Hl as [|c l (_ & Hc & _) _ IH]; [done|]. by rewrite filter_cons_True, IH. }
  intros Hcs. pose proof Hcs as Hall. destruct Hcs as [|c cs (_ & Hc & _) _]; [done|]. cbn [normalize].
  rewrite decide_False by naive_solver. by apply Hf.
Qed.

Lemma join_head cs : Forall plain_name cs -> head (join_separator cs) <> Some SEPARATOR.
Proof.
  intros Hcs. destruct Hcs as [|c cs (Hne & _ & Hs & _) _]; [done|]. destruct c as [|b c]; [done|]. apply not_elem_of_cons in Hs as [Hb _].
  destruct cs; cbn; congruence.
Qed.

(** The string of a plain path names it. *)
Lemma path_of_path_string p : plain_path p -> path_of_str (path_string p) = p.
Proof.
  destruct p as [abs cs]. intros [Ha Hcs]. cbn in Ha, Hcs. subst abs. unfold path_string, path_of_str. cbn [is_absolute components app].
  rewrite (bool_decide_eq_false_2 (head _ = _)) by by apply join_head. f_equal. destruct cs as [|c cs]; [done|].
  rewrite split_join by done.
  assert (filter (fun c => c <> []) (c :: cs) = c :: cs) as ->; [|by apply normalize_plain].
  clear -Hcs. induction Hcs as [|c' l (Hc & _) _ IH]; [done|]. by rewrite filter_cons_True, IH.
Qed.

Lemma path_of_plain_name c : plain_name c -> path_of_str c = mk_path false [c].
Proof. intros Hc. apply (path_of_path_string (mk_path false [c])). split; [done|]. by apply Forall_singleton. Qed.

Lemma join_plain p q : plain_path p -> plain_path q -> join p q = mk_path false (components p ++ components q).
Proof.
  intros [Hp Hps] [Hq Hqs]. unfold join. rewrite Hq, Hp. f_equal. apply normalize_plain. by apply Forall_app.
Qed.

(** ** The hashes *)

Lemma copy_hashes_len cs : forall b, length b = SHA_HASH_LEN -> Forall (fun c => length c = SHA_HASH_LEN) cs ->
  copy_hashes cs b = cs.
Proof. induction cs as [|c cs IH]; intros b Hb Hcs; [done|]. apply Forall_cons in Hcs as [Hc Hcs]. cbn. rewrite copy_over_same by lia. by rewrite IH. Qed.

(** ** The info dictionary *)

Section written.
Context `{Sha1}.

(** What the builder makes of a torrent, as the pairs it inserts in order. *)
Definition info_kvs (i : Info) : list (bytes * BencodeMut) :=
  [(PIECE_LENGTH_KEY, MInt (as_signed 64 (Z.of_nat (piece_len i)))); (PIECES_KEY, MBytes (concat (pieces i)))] ++
  match file_directory i with
  | Some d => [(NAME_KEY, MBytes (path_string d)); (FILES_KEY, MList ((fun f => file_bencode (file_len f, path_iter (file_path f))) <$> files i))]
  | None =>
      match files i with
      | f :: _ => [(LENGTH_KEY, MInt (as_signed 64 (Z.of_nat (file_len f)))); (NAME_KEY, MBytes (concat (path_iter (file_path f))))]
      | [] => []
      end
  end.
Definition info_value (i : Info) : BencodeMut := MDict (ben_map_entries (info_kvs i)).

(** A torrent that can be written: whole hashes, plain paths, sizes that add up
    in a [u64], and one file when there is no directory. *)
Record writable (i : Info) : Prop := {
  writable_pieces : Forall (fun p => length p = SHA_HASH_LEN) (pieces i);
  writable_pieces_len : (Z.of_nat (length (concat (pieces i))) < 2 ^ 63)%Z;
  writable_piece_len : (Z.of_nat (piece_len i) < 2 ^ 64)%Z;
  writable_total : (Z.of_nat (total_bytes i) < 2 ^ 64)%Z;
  writable_files : Forall (fun f => plain_path (file_path f)) (files i);
  writable_shape :
    match file_directory i with
    | Some d => plain_path d /\ from_utf8 (path_string d) = Some (path_string d) /\ (Z.of_nat (length (path_string d)) < 2 ^ 63)%Z
    | None => exists f c, files i = [f] /\ components (file_path f) = [c]
    end;
}.

(** The torrent as it is read again. *)
Definition reread (bs : bytes) (i : Info) : Info :=
  mk_Info (from_bytes bs) ((fun f => mk_File (file_len f) (file_path f) None) <$> files i) (pieces i) (piece_len i) None (file_directory i).

Lemma add_lengths_ok {E} fs : forall acc, (Z.of_nat (acc + sum_list fs.*1) < 2 ^ 64)%Z ->
  add_lengths (E := E) acc fs = Ok (acc + sum_list fs.*1).
Proof.
  induction fs as [|[n p] fs IH]; intros acc Hs; cbn in *; [by rewrite Nat.add_0_r|]. rewrite decide_True by lia. rewrite IH by lia. f_equal. lia.
Qed.

Lemma access_own_pieces {E} l : Forall (fun p => length p = SHA_HASH_LEN) l ->
  mapM (M := outcome E) (fun piece => h ← unwrap (ok (from_hash piece)); Ok (PreComputed h)) l = Ok ((fun p => PreComputed (mk_ShaHash p)) <$> l).
Proof.
  intros Hl. induction Hl as [|p l Hp Hl IH]; [done|]. cbn [mapM]. rewrite from_hash_ok by done. cbn. by rewrite IH.
Qed.

Lemma pieces_of_precomputed n l :
  map_pieces_list (pieces_list n ((fun p => PreComputed (mk_ShaHash p)) <$> l)).*2 = concat l.
Proof.
  unfold map_pieces_list, pieces_list. f_equal. case_decide as Hn.
  - unfold empty_pieces. assert (forall (f : nat -> PieceAccess -> nat * ShaHash), (forall k p, f k (PreComputed p) = (k, p)) ->
      sha_hash <$> (imap f ((fun p => PreComputed (mk_ShaHash p)) <$> l)).*2 = l) as Hx; [|by apply Hx].
    intros f Hf. rewrite <- list_fmap_compose. apply list_eq. intros k. rewrite list_lookup_fmap, list_lookup_imap, list_lookup_fmap.
    destruct (l !! k); cbn; [by rewrite Hf|done].
  - generalize 0. induction l as [|p l IH]; intros k; [done|]. cbn. by rewrite IH.
Qed.

Lemma private_flag_dropped {E} o : InfoBuilder_set_private_flag (E := E) InfoBuilder_new o = Ok InfoBuilder_new.
Proof. by destruct o as [[]|]. Qed.

Lemma build_info i opt_root : writable i ->
  build_with_accessor (E := Empty_set) 1 i opt_root MutAccess.new_dict (Custom (piece_len i)) =
  match opt_root with
  | Some root => r ← with_dict root (fun d => Ok (insert_key INFO_KEY (info_value i) d)); Ok (encode r)
  | None => Ok (encode (info_value i))
  end.
Proof.
  intros Hi. destruct Hi as [Hp _ _ Ht _ Hs]. unfold build_with_accessor. rewrite decide_False by lia. cbn [access_metadata Info_accessor mbind outcome_bind].
  rewrite <- list_fmap_compose. rewrite add_lengths_ok.
  2: { rewrite <- list_fmap_compose. exact Ht. }
  cbn [determine_piece_length mbind outcome_bind access_pieces access_directory Info_accessor]. rewrite access_own_pieces by done.
  cbn [mbind outcome_bind]. rewrite pieces_of_precomputed. cbn [with_dict MutAccess.new_dict].
  unfold info_value, info_kvs. destruct (file_directory i) as [d|]; cbn [fmap option_fmap option_map insert_files mbind outcome_bind].
  - unfold files_bencode. rewrite foldl_push, <- list_fmap_compose. by destruct opt_root.
  - destruct Hs as (f & c & -> & _). by destruct opt_root.
Qed.

(** *** It decodes *)

Lemma info_keys_nodup i : NoDup (info_kvs i).*1.
Proof. unfold info_kvs. destruct (file_directory i); [|destruct (files i)]; by apply (bool_decide_unpack _); vm_compute. Qed.

Lemma file_kvs_nodup (v w : BencodeMut) : NoDup ([(LENGTH_KEY, v); (PATH_KEY, w)]).*1.
Proof. by apply (bool_decide_unpack _); vm_compute. Qed.

Lemma path_list_shallow p : plain_path p -> shallow 2 (string_list (path_iter p)).
Proof.
  intros [Ha Hp]. rewrite string_list_eq. apply shallow_list. unfold path_iter. rewrite Ha. cbn [app]. apply Forall_fmap.
  eapply Forall_impl; [exact Hp|]. intros c (_ & _ & _ & _ & Hc). by apply shallow_bytes.
Qed.

Lemma file_shallow f : plain_path (file_path f) -> shallow 3 (file_bencode (file_len f, path_iter (file_path f))).
Proof.
  intros Hf. apply shallow_dict; [apply file_kvs_nodup|]. apply Forall_cons; split; [split; [by vm_compute|apply i64_shallow]|].
  apply Forall_singleton. split; [by vm_compute|by apply path_list_shallow].
Qed.

Lemma single_name f c : plain_path (file_path f) -> components (file_path f) = [c] ->
  plain_name c /\ file_path f = mk_path false [c] /\ concat (path_iter (file_path f)) = c.
Proof.
  intros [Ha Hp] Hc. rewrite Hc in Hp. apply Forall_cons in Hp as [Hp _]. destruct (file_path f) as [a cs]. cbn in Ha, Hc. subst. split_and!; [done..|].
  apply app_nil_r.
Qed.

Lemma info_shallow i : writable i -> shallow 5 (info_value i).
Proof.
  intros [_ Hp _ _ Hf Hs]. apply shallow_dict; [apply info_keys_nodup|]. unfold info_kvs. apply Forall_app. split.
  - apply Forall_cons; split; [split; [by vm_compute|apply i64_shallow]|].
    apply Forall_singleton. split; [by vm_compute|by apply shallow_bytes].
  - destruct (file_directory i) as [d|].
    + destruct Hs as (_ & _ & Hd). apply Forall_cons; split; [split; [by vm_compute|by apply shallow_bytes]|].
      apply Forall_singleton. split; [by vm_compute|]. apply shallow_list, Forall_fmap. eapply Forall_impl; [exact Hf|]. intros f Hpl.
      destruct (file_shallow f Hpl). split; [done|cbn in *; lia].
    + destruct Hs as (f & c & Hfs & Hc). rewrite Hfs in Hf |- *. apply Forall_cons in Hf as [Hf _].
      destruct (single_name f c Hf Hc) as ((_ & _ & _ & _ & Hl) & _ & Hcc). rewrite Hcc.
      apply Forall_cons; split; [split; [by vm_compute|apply i64_shallow]|].
      apply Forall_singleton. split; [by vm_compute|by apply shallow_bytes].
Qed.

(** *** It is read back *)

Lemma push_paths_plain cs : Forall plain_name cs -> forall acc, Forall plain_name acc ->
  push_paths (annotate <$> (MBytes <$> cs)) (mk_path false acc) = Ok (mk_path false (acc ++ cs)).
Proof.
  induction 1 as [|c cs Hc Hcs IH]; intros acc Ha; cbn [fmap list_fmap push_paths]; [by rewrite app_nil_r|].
  pose proof Hc as (_ & _ & _ & Hu & _).
  unfold parse_path_str at 1. rewrite convert_str_bytes by done. cbn [mbind outcome_bind]. rewrite path_of_plain_name by done. rewrite join_plain; [|by split|split; [done|by apply Forall_singleton]].
  cbn [components]. rewrite IH by (apply Forall_app; split; [done|by apply Forall_singleton]). by rewrite <- app_assoc.
Qed.

Lemma file_keys (a b : BencodeMut) : let d := ben_map_entries [(LENGTH_KEY, a); (PATH_KEY, b)] in
  bt_get LENGTH_KEY d = Some a /\ bt_get PATH_KEY d = Some b /\ bt_get MD5SUM_KEY d = None.
Proof. by vm_compute. Qed.

Lemma single_keys (a b c n : BencodeMut) : let d := ben_map_entries [(PIECE_LENGTH_KEY, a); (PIECES_KEY, b); (LENGTH_KEY, c); (NAME_KEY, n)] in
  bt_get PIECE_LENGTH_KEY d = Some a /\ bt_get PIECES_KEY d = Some b /\ bt_get LENGTH_KEY d = Some c /\ bt_get NAME_KEY d = Some n /\
  bt_get MD5SUM_KEY d = None /\ bt_get PRIVATE_KEY d = None.
Proof. by vm_compute. Qed.

Lemma multi_keys (a b n f : BencodeMut) : let d := ben_map_entries [(PIECE_LENGTH_KEY, a); (PIECES_KEY, b); (NAME_KEY, n); (FILES_KEY, f)] in
  bt_get PIECE_LENGTH_KEY d = Some a /\ bt_get PIECES_KEY d = Some b /\ bt_get LENGTH_KEY d = None /\ bt_get NAME_KEY d = Some n /\
  bt_get FILES_KEY d = Some f /\ bt_get PRIVATE_KEY d = None.
Proof. by vm_compute. Qed.

Lemma file_read_back f : (Z.of_nat (file_len f) < 2 ^ 64)%Z -> plain_path (file_path f) ->
  (file_dict ← parse_file_dict (annotate (file_bencode (file_len f, path_iter (file_path f)))); as_multi_file file_dict) =
  Ok (mk_File (file_len f) (file_path f) None).
Proof.
  intros Hl Hp. unfold file_bencode. cbn [fst snd]. rewrite string_list_eq.
  destruct (file_keys (MutAccess.new_int (as_signed 64 (Z.of_nat (file_len f)))) (MList (MBytes <$> path_iter (file_path f)))) as (Ha & Hb & Hm).
  set (d := ben_map_entries _) in *.
  change (parse_file_dict (annotate (MDict d))) with (Ok (E := ParseError) (annotate_entry <$> d)). cbn [mbind outcome_bind].
  unfold as_multi_file, parse_length, parse_md5sum, parse_path_list. rewrite (lookup_int _ _ _ _ Ha), (lookup_no_bytes _ _ _ Hm), (lookup_list _ _ _ _ Hb).
  cbn [mbind outcome_bind ok]. rewrite u64_i64 by done. destruct Hp as [Hr Hp]. unfold path_iter. rewrite Hr. cbn [app].
  unfold path_new. rewrite (push_paths_plain _ Hp []) by done. cbn. destruct (file_path f). cbn in *. by subst.
Qed.

Lemma files_read_back fs : Forall (fun f => (Z.of_nat (file_len f) < 2 ^ 64)%Z /\ plain_path (file_path f)) fs -> forall acc,
  push_files (annotate <$> ((fun f => file_bencode (file_len f, path_iter (file_path f))) <$> fs)) acc =
  Ok (acc ++ ((fun f => mk_File (file_len f) (file_path f) None) <$> fs)).
Proof.
  induction 1 as [|f fs [Hl Hp] Hfs IH]; intros acc; cbn [fmap list_fmap push_files]; [by rewrite app_nil_r|].
  pose proof (file_read_back f Hl Hp) as Hf. apply outcome_bind_ok in Hf as (d & -> & Hf). cbn [mbind outcome_bind]. rewrite Hf. cbn [mbind outcome_bind].
  rewrite IH. by rewrite <- app_assoc.
Qed.

Lemma pieces_read_back l : Forall (fun p => length p = SHA_HASH_LEN) l -> allocate_pieces (concat l) = Ok l.
Proof.
  intros Hl. unfold allocate_pieces. rewrite decide_False.
  - rewrite chunks_of_records by (done || (unfold SHA_HASH_LEN; lia)). by rewrite copy_hashes_len by (done || apply length_replicate).
  - intros Hm. apply Hm. assert (length (concat l) = length l * SHA_HASH_LEN) as ->; [|apply Nat.Div0.mod_mul].
    clear Hm. induction Hl as [|p l Hp Hl IH]; [done|]. cbn [concat length]. rewrite length_app, IH, Hp. lia.
Qed.

Lemma lengths_fit fs : (Z.of_nat (sum_list (file_len <$> fs)) < 2 ^ 64)%Z -> Forall (fun f => (Z.of_nat (file_len f) < 2 ^ 64)%Z) fs.
Proof. induction fs as [|f fs IH]; intros Hs; cbn in *; constructor; [lia|apply IH; lia]. Qed.

Lemma info_read_back i : writable i ->
  parse_info_dictionary (annotate (info_value i)) = Ok (reread (encode (info_value i)) i).
Proof.
  intros [Hp _ Hn Ht Hf Hs]. apply lengths_fit in Ht. unfold parse_info_dictionary, reread.
  change (BencodeRef_buffer (annotate (info_value i))) with (encode (info_value i)). generalize (from_bytes (encode (info_value i))). intros hash.
  change (parse_root_dict (annotate (info_value i))) with (Ok (E := ParseError) (annotate_entry <$> ben_map_entries (info_kvs i))).
  cbn [mbind outcome_bind].
  unfold info_kvs, is_multi_file_torrent, as_single_file, parse_piece_length, parse_private, parse_pieces, parse_length, parse_md5sum, parse_name, parse_files_list.
  destruct (file_directory i) as [dir|].
  - destruct Hs as (Hdir & Hu & _). cbn [app].
    match goal with |- context [ben_map_entries [(_, ?a); (_, ?b); (_, ?c); (_, ?n)]] => destruct (multi_keys a b c n) as (Ka & Kb & Kl & Kn & Kf & Kp) end.
    set (d := ben_map_entries _) in *. rewrite (lookup_int _ _ _ _ Ka), (lookup_no_int _ _ _ Kp), (lookup_bytes _ _ _ _ Kb). cbn [mbind outcome_bind].
    rewrite pieces_read_back by done. cbn [mbind outcome_bind]. rewrite (lookup_no_int _ _ _ Kl). cbn [mbind outcome_bind is_ok negb].
    rewrite (lookup_str _ _ _ _ Hu Kn). cbn [mbind outcome_bind]. rewrite (lookup_list _ _ _ _ Kf). cbn [mbind outcome_bind].
    rewrite files_read_back by (by apply Forall_and). cbn [mbind outcome_bind app ok fmap option_fmap option_map].
    rewrite path_of_path_string, u64_i64 by done. unfold path_new. rewrite join_plain by (done || by split). destruct dir, Hdir. cbn in *. by subst.
  - destruct Hs as (f & c & Hfs & Hc). rewrite Hfs in *. apply Forall_cons in Hf as [Hf _]. apply Forall_cons in Ht as [Ht _].
    destruct (single_name f c Hf Hc) as (Hpl & Hpath & Hcc). rewrite Hcc. pose proof Hpl as (_ & _ & _ & Hu & _). cbn [app].
    match goal with |- context [ben_map_entries [(_, ?a); (_, ?b); (_, ?c); (_, ?n)]] => destruct (single_keys a b c n) as (Ka & Kb & Kl & Kn & Km & Kp) end.
    set (d := ben_map_entries _) in *. rewrite (lookup_int _ _ _ _ Ka), (lookup_no_int _ _ _ Kp), (lookup_bytes _ _ _ _ Kb). cbn [mbind outcome_bind].
    rewrite pieces_read_back by done. cbn [mbind outcome_bind]. rewrite (lookup_int _ _ _ _ Kl). cbn [mbind outcome_bind is_ok negb].
    rewrite (lookup_str _ _ _ _ Hu Kn). cbn [mbind outcome_bind]. rewrite (lookup_no_bytes _ _ _ Km). cbn [ok fmap option_fmap option_map list_fmap].
    rewrite path_of_plain_name, !u64_i64 by done. by rewrite Hpath.
Qed.

(** *** The torrent file *)

Definition root_entries (m : Metainfo) : list (bytes * BencodeMut) :=
  insert_key INFO_KEY (info_value (mi_info m))
    (set_key CREATED_BY_KEY (MBytes <$> mi_created_by m)
      (set_key COMMENT_KEY (MBytes <$> mi_comment m)
        (set_key CREATION_DATE_KEY (MInt <$> mi_creation_date m)
          (set_key ANNOUNCE_URL_KEY (MBytes <$> mi_announce m) [])))).

Lemma Metainfo_to_bytes_eq m : writable (mi_info m) -> Metainfo_to_bytes m = Ok (encode (MDict (root_entries m))).
Proof.
  intros Hw. unfold Metainfo_to_bytes, set_main_tracker, set_creation_date, set_comment, set_created_by, set_root, set_private_flag, set_piece_length.
  cbn [mb_root mb_info MetainfoBuilder_new with_dict MutAccess.new_dict mbind outcome_bind]. rewrite private_flag_dropped. cbn [mbind outcome_bind].
  unfold MetainfoBuilder_build. cbn [mb_root mb_info ib_info ib_piece_length InfoBuilder_set_piece_length InfoBuilder_new].
  rewrite build_info by done. done.
Qed.

(** A text that can be written. *)
Definition text (s : bytes) : Prop := from_utf8 s = Some s /\ (Z.of_nat (length s) < 2 ^ 63)%Z.

Record writable_meta (m : Metainfo) : Prop := {
  writable_info : writable (mi_info m);
  writable_comment : from_option text True (mi_comment m);
  writable_announce : from_option text True (mi_announce m);
  writable_created_by : from_option text True (mi_created_by m);
  writable_creation_date : from_option (in_signed 64) True (mi_creation_date m);
}.

Lemma set_key_Forall (P : bytes * BencodeMut -> Prop) key value d :
  Forall P d -> from_option (fun v => P (key, v)) True value -> Forall P (set_key key value d).
Proof.
  intros Hd Hv. destruct value as [v|]; [by apply bt_insert_Forall|]. cbn. clear Hv.
  induction Hd as [|[k x] d Hx Hd IH]; cbn; [done|]. by destruct (bytes_cmp key k); try constructor.
Qed.

Lemma root_get m k : bt_get k (root_entries m) =
  if decide (k = INFO_KEY) then Some (info_value (mi_info m))
  else if decide (k = CREATED_BY_KEY) then MBytes <$> mi_created_by m
  else if decide (k = COMMENT_KEY) then MBytes <$> mi_comment m
  else if decide (k = CREATION_DATE_KEY) then MInt <$> mi_creation_date m
  else if decide (k = ANNOUNCE_URL_KEY) then MBytes <$> mi_announce m else None.
Proof.
  change (root_entries m) with (set_key INFO_KEY (Some (info_value (mi_info m)))
    (set_key CREATED_BY_KEY (MBytes <$> mi_created_by m) (set_key COMMENT_KEY (MBytes <$> mi_comment m)
      (set_key CREATION_DATE_KEY (MInt <$> mi_creation_date m) (set_key ANNOUNCE_URL_KEY (MBytes <$> mi_announce m) []))))).
  by rewrite !set_key_get by (repeat apply set_key_wf; apply bt_wf_nil).
Qed.

Lemma root_keys m : let d := root_entries m in
  bt_get INFO_KEY d = Some (info_value (mi_info m)) /\ bt_get CREATED_BY_KEY d = MBytes <$> mi_created_by m /\
  bt_get COMMENT_KEY d = MBytes <$> mi_comment m /\ bt_get CREATION_DATE_KEY d = MInt <$> mi_creation_date m /\
  bt_get ANNOUNCE_URL_KEY d = MBytes <$> mi_announce m /\ bt_get ANNOUNCE_LIST_KEY d = None /\ bt_get ENCODING_KEY d = None.
Proof.
  cbv zeta. rewrite !root_get. generalize (info_value (mi_info m)), (MBytes <$> mi_created_by m), (MBytes <$> mi_comment m),
    (MInt <$> mi_creation_date m), (MBytes <$> mi_announce m). intros. by vm_compute.
Qed.

Lemma root_shallow m : writable_meta m -> shallow DEFAULT_MAX_RECURSION (MDict (root_entries m)).
Proof.
  intros [Hi Hc Ha Hb Hd].
  assert (Forall (fun p => (Z.of_nat (length p.1) < 2 ^ 63)%Z /\ mut_wf p.2 /\ mut_depth p.2 <= 49) (root_entries m)) as Hall.
  { destruct (info_shallow _ Hi).
    unfold root_entries, insert_key. apply bt_insert_Forall; [split; [by vm_compute|split; [done|cbn [snd]; lia]]|].
    repeat apply set_key_Forall; [done|..].
    - destruct (mi_announce m) as [t|]; [destruct Ha|done]. cbn [fmap option_fmap option_map from_option fst snd]. split; [by vm_compute|split; [done|cbn; lia]].
    - destruct (mi_creation_date m) as [t|]; [|done]. cbn [fmap option_fmap option_map from_option fst snd]. split; [by vm_compute|split; [done|cbn; lia]].
    - destruct (mi_comment m) as [t|]; [destruct Hc|done]. cbn [fmap option_fmap option_map from_option fst snd]. split; [by vm_compute|split; [done|cbn; lia]].
    - destruct (mi_created_by m) as [t|]; [destruct Hb|done]. cbn [fmap option_fmap option_map from_option fst snd]. split; [by vm_compute|split; [done|cbn; lia]]. }
  split; [apply mut_wf_dict; split|apply mut_depth_dict].
  - unfold root_entries. apply bt_insert_wf. repeat apply set_key_wf. apply bt_wf_nil.
  - eapply Forall_impl; [exact Hall|]. by intros ? (? & ? & _).
  - eapply Forall_impl; [exact Hall|]. by intros ? (_ & _ & ?).
Qed.

Lemma lookup_opt_str {E} (h : BencodeConvertErrorKind -> E) d key o : from_option text True o -> bt_get key d = MBytes <$> o ->
  ok (BConvert.lookup_and_convert_str h (annotate_entry <$> d) key) = o.
Proof. intros Ho Hg. destruct o as [t|]; [rewrite (lookup_str _ _ _ t); [done|apply Ho|done]|by rewrite lookup_no_str]. Qed.

Lemma lookup_opt_int {E} (h : BencodeConvertErrorKind -> E) d key o : bt_get key d = MInt <$> o ->
  ok (BConvert.lookup_and_convert_int h (annotate_entry <$> d) key) = o.
Proof. intros Hg. destruct o as [t|]; [by rewrite (lookup_int _ _ _ t)|by rewrite lookup_no_int]. Qed.

Lemma meta_read_back m : writable_meta m -> Metainfo_from_bytes (encode (MDict (root_entries m))) =
  Ok (mk_Metainfo (mi_comment m) (mi_announce m) None None (mi_created_by m) (mi_creation_date m)
        (reread (encode (info_value (mi_info m))) (mi_info m))).
Proof.
  intros Hm. pose proof Hm as [Hi Hc Ha Hb Hd]. unfold Metainfo_from_bytes, parse_meta_bytes. rewrite decode_shallow by by apply root_shallow.
  cbn [map_err mbind outcome_bind].
  change (parse_root_dict (annotate (MDict (root_entries m)))) with (Ok (E := ParseError) (annotate_entry <$> root_entries m)).
  cbn [mbind outcome_bind]. unfold parse_announce_url, parse_announce_list, parse_comment, parse_encoding, parse_created_by, parse_creation_date, parse_info_bencode.
  destruct (root_keys m) as (Ki & Kb & Kc & Kd & Ka & Kl & Ke).
  rewrite lookup_written, Ki, (lookup_no_list _ _ _ Kl), (lookup_no_str _ _ _ Ke). cbn [mbind outcome_bind].
  rewrite info_read_back by done. cbn [mbind outcome_bind ok fmap option_fmap option_map].
  by rewrite (lookup_opt_str _ _ _ _ Ha Ka), (lookup_opt_str _ _ _ _ Hc Kc), (lookup_opt_str _ _ _ _ Hb Kb), (lookup_opt_int _ _ _ _ Kd).
Qed.

End written.

(** ** What is read is well formed *)

Section read.
Context {B : Type} `{BRefAccess B}.

Lemma convert_returns {E A} (o : option A) (e : E) : returns (ok_or o e).
Proof. by destruct o. Qed.

Lemma lookup_returns {E} (h : BencodeConvertErrorKind -> E) (d : list (bytes * B)) key : returns (BConvert.lookup h d key).
Proof. unfold BConvert.lookup. by destruct (BDict.lookup d key). Qed.

Lemma parse_length_returns (d : list (bytes * B)) : returns (parse_length d).
Proof. apply returns_bind; [apply returns_bind; [apply lookup_returns|intros; apply convert_returns]|done]. Qed.

Lemma parse_length_u64 (d : list (bytes * B)) n : parse_length d = Ok n -> (Z.of_nat n < 2 ^ 64)%Z.
Proof. intros (z & _ & [= <-])%outcome_bind_ok. apply as_u64_bound. Qed.

Lemma parse_name_returns (d : list (bytes * B)) : returns (parse_name d).
Proof. apply returns_bind; [apply lookup_returns|intros; apply convert_returns]. Qed.

Lemma push_paths_returns l : forall p : path, returns (push_paths (B := B) l p).
Proof. induction l as [|x l IH]; intros p; [done|]. apply returns_bind; [apply convert_returns|intros; apply IH]. Qed.

Lemma as_multi_file_returns (d : list (bytes * B)) : returns (as_multi_file d).
Proof.
  apply returns_bind; [apply parse_length_returns|]. intros n _. apply returns_bind.
  - apply returns_bind; [apply lookup_returns|intros; apply convert_returns].
  - intros l _. apply returns_bind; [apply push_paths_returns|done].
Qed.

Lemma as_multi_file_u64 (d : list (bytes * B)) f : as_multi_file d = Ok f -> (Z.of_nat (file_len f) < 2 ^ 64)%Z.
Proof.
  intros (n & Hn%parse_length_u64 & Hf)%outcome_bind_ok. apply outcome_bind_ok in Hf as (l & _ & Hf).
  by apply outcome_bind_ok in Hf as (p & _ & [= <-]).
Qed.

Lemma push_files_returns l : forall acc, returns (push_files (B := B) l acc).
Proof.
  induction l as [|x l IH]; intros acc; [done|]. apply returns_bind; [apply convert_returns|]. intros d _.
  apply returns_bind; [apply as_multi_file_returns|intros; apply IH].
Qed.

Lemma push_files_u64 l : forall acc fs, Forall (fun f => (Z.of_nat (file_len f) < 2 ^ 64)%Z) acc ->
  push_files (B := B) l acc = Ok fs -> Forall (fun f => (Z.of_nat (file_len f) < 2 ^ 64)%Z) fs.
Proof.
  induction l as [|x l IH]; intros acc fs Ha Hfs; [by injection Hfs as <-|].
  apply outcome_bind_ok in Hfs as (d & _ & Hfs). apply outcome_bind_ok in Hfs as (f & Hf%as_multi_file_u64 & Hfs).
  eapply IH; [|exact Hfs]. apply Forall_app. split; [done|by apply Forall_singleton].
Qed.

Lemma as_single_file_returns (d : list (bytes * B)) : returns (as_single_file d).
Proof. apply returns_bind; [apply parse_length_returns|]. intros n _. apply returns_bind; [apply parse_name_returns|done]. Qed.

Lemma as_single_file_u64 (d : list (bytes * B)) f : as_single_file d = Ok f -> (Z.of_nat (file_len f) < 2 ^ 64)%Z.
Proof. intros (n & Hn%parse_length_u64 & Hf)%outcome_bind_ok. by apply outcome_bind_ok in Hf as (p & _ & [= <-]). Qed.

End read.

Lemma allocate_pieces_ok bs ps : allocate_pieces bs = Ok ps ->
  Forall (fun p => length p = SHA_HASH_LEN) ps /\ concat ps = bs.
Proof.
  unfold allocate_pieces. case_decide as Hm; [done|]. intros [= <-].
  assert (0 < SHA_HASH_LEN) by (unfold SHA_HASH_LEN; lia).
  assert (Forall (fun c => length c = SHA_HASH_LEN) (chunks SHA_HASH_LEN bs)) as Hc by (apply chunks_whole; [done|]; destruct (decide (length bs mod SHA_HASH_LEN = 0)); [done|exfalso; auto]).
  rewrite copy_hashes_len by (done || apply length_replicate). split; [done|]. by apply concat_chunks.
Qed.

Section typed.
Context `{Sha1}.

(** What reading promises of a torrent. *)
Record info_typed (i : Info) : Prop := {
  typed_pieces : Forall (fun p => length p = SHA_HASH_LEN) (pieces i);
  typed_piece_len : (Z.of_nat (piece_len i) < 2 ^ 64)%Z;
  typed_files : Forall (fun f => (Z.of_nat (file_len f) < 2 ^ 64)%Z) (files i);
  typed_single : file_directory i = None -> length (files i) = 1;
}.

Lemma parse_info_returns r : returns (parse_info_dictionary r).
Proof.
  apply returns_bind; [apply convert_returns|]. intros d _.
  apply returns_bind; [apply returns_bind; [apply returns_bind; [apply lookup_returns|intros; apply convert_returns]|done]|]. intros n _.
  apply returns_bind; [apply returns_bind; [apply lookup_returns|intros; apply convert_returns]|]. intros ps _.
  apply returns_bind; [unfold allocate_pieces; by case_decide|]. intros bufs _. destruct (is_multi_file_torrent d).
  - apply returns_bind; [apply parse_name_returns|]. intros name _.
    apply returns_bind; [apply returns_bind; [apply lookup_returns|intros; apply convert_returns]|]. intros fs _.
    apply returns_bind; [apply push_files_returns|done].
  - apply returns_bind; [apply as_single_file_returns|done].
Qed.

Lemma parse_info_ok r i : parse_info_dictionary r = Ok i -> info_typed i /\ info_hash i = from_bytes (BencodeRef_buffer r).
Proof.
  unfold parse_info_dictionary. cbv zeta. intros Hi. apply outcome_bind_ok in Hi as (d & _ & Hi). apply outcome_bind_ok in Hi as (n & Hn & Hi).
  apply outcome_bind_ok in Hi as (ps & _ & Hi). apply outcome_bind_ok in Hi as (bufs & [Hb _]%allocate_pieces_ok & Hi).
  assert (Z.of_nat n < 2 ^ 64)%Z by (apply outcome_bind_ok in Hn as (z & _ & [= <-]); apply as_u64_bound).
  destruct (is_multi_file_torrent d).
  - apply outcome_bind_ok in Hi as (name & _ & Hi). apply outcome_bind_ok in Hi as (l & _ & Hi).
    apply outcome_bind_ok in Hi as (fs & Hfs%push_files_u64 & [= <-]); [|done]. by split.
  - apply outcome_bind_ok in Hi as (f & Hf%as_single_file_u64 & [= <-]). split; [|done]. split; try done. by apply Forall_singleton.
Qed.

Lemma slices_lookup bs d buf key v : slices_of bs (RDict d buf) -> bt_get key d = Some v -> slices_of bs v.
Proof.
  cbn [slices_of]. intros [_ Hd] Hg%bt_get_Some_elem. induction d as [|[k x] d IH]; [by apply elem_of_nil in Hg|]. cbn in Hd. destruct Hd as [Hx Hd].
  apply elem_of_cons in Hg as [[= -> ->]|Hg]; [done|by apply IH].
Qed.

Lemma slices_buffer bs r : slices_of bs r -> exists i j, i < j <= length bs /\ BencodeRef_buffer r = slice bs i j.
Proof. destruct r; cbn [slices_of]; by intros [? _]. Qed.

End typed.

(** ** Properties *)

(** Reading a torrent file comes back on every input, with an error or with a
    well formed torrent: hashes of twenty bytes, sizes within a [u64], one file
    when there is no directory, and as info hash the digest of the very slice of
    the input that holds the info dictionary. *)
Theorem metainfo_read_typed `{Sha1} (bs : bytes) :
  returns (Metainfo_from_bytes bs) /\
  forall m, Metainfo_from_bytes bs = Ok m ->
    info_typed (mi_info m) /\
    exists i j, i < j <= length bs /\ info_hash (mi_info m) = from_bytes (slice bs i j).
Proof.
  split.
  - apply returns_bind; [by pose proof (BencodeRef_decode_returns bs BDecodeOpt_default); destruct (BencodeRef_decode _ _)|]. intros r _.
    apply returns_bind; [apply convert_returns|]. intros d _. apply returns_bind; [apply lookup_returns|]. intros info _.
    apply returns_bind; [apply parse_info_returns|done].
  - intros m Hm. apply outcome_bind_ok in Hm as (r & Hr & Hm). apply outcome_bind_ok in Hm as (d & Hd & Hm).
    apply outcome_bind_ok in Hm as (info & Hi & Hm). apply outcome_bind_ok in Hm as (i & [Ht Hh]%parse_info_ok & [= <-]). split; [done|].
    destruct (BencodeRef_decode bs BDecodeOpt_default) as [r'| | |] eqn:E; try done. injection Hr as ->.
    apply BencodeRef_decode_ok in E as (next & Hdec%decode_ok & _). destruct r as [| | |d' buf]; try done. injection Hd as <-.
    unfold parse_info_bencode, BConvert.lookup, BDict.lookup in Hi. destruct (bt_get INFO_KEY d') as [v|] eqn:Eg; [|done]. injection Hi as <-.
    destruct (slices_buffer bs v) as (a & b & Hab & Hv); [eapply slices_lookup; [apply Hdec|exact Eg]|]. exists a, b. cbn. by rewrite Hh, Hv.
Qed.

(** C21. What [to_bytes] writes is read back: the info dictionary and the torrent
    file parse to the torrent they were written from, under the hash of the
    written dictionary.  The list of trackers, the encoding, the checksums of
    the files and the private flag are lost. *)
Theorem metainfo_roundtrip `{Sha1} (m : Metainfo) : writable_meta m ->
  exists info_bytes meta_bytes,
    Info_to_bytes (mi_info m) = Ok info_bytes /\ Metainfo_to_bytes m = Ok meta_bytes /\
    Info_from_bytes info_bytes = Ok (reread info_bytes (mi_info m)) /\
    Metainfo_from_bytes meta_bytes =
      Ok (mk_Metainfo (mi_comment m) (mi_announce m) None None (mi_created_by m) (mi_creation_date m) (reread info_bytes (mi_info m))).
Proof.
  intros Hm. pose proof (writable_info _ Hm) as Hi. exists (encode (info_value (mi_info m))), (encode (MDict (root_entries m))). split_and!.
  - unfold Info_to_bytes. rewrite private_flag_dropped. cbn [mbind outcome_bind]. unfold InfoBuilder_build. cbn [ib_info ib_piece_length InfoBuilder_set_piece_length InfoBuilder_new].
    by rewrite build_info.
  - by apply Metainfo_to_bytes_eq.
  - unfold Info_from_bytes, parse_info_bytes. destruct (info_shallow _ Hi) as [Hw Hd].
    rewrite decode_shallow by (split; [done|unfold DEFAULT_MAX_RECURSION; lia]). cbn [map_err mbind outcome_bind]. by apply info_read_back.
  - by apply meta_read_back.
Qed.

(** ** An instance *)

Definition sample_metainfo : Metainfo :=
  mk_Metainfo (Some (bstr "hi")) None (Some [[bstr "u"]]) None None (Some 7%Z)
    (mk_Info (mk_ShaHash []) [mk_File 3 (mk_path false [bstr "a"; bstr "b"]) (Some (bstr "m")); mk_File 0 (mk_path false [bstr "c"]) None]
       [replicate 20 x01] 16 (Some true) (Some (mk_path false [bstr "dir"]))).

Lemma plain_name_ascii c : c <> [] -> c <> DOT -> bool_decide (SEPARATOR ∈ c) = false -> from_utf8 c = Some c -> length c < 100 -> plain_name c.
Proof. intros ? ? Hs%bool_decide_eq_false ? ?. split_and!; try done. lia. Qed.

Lemma metainfo_roundtrip_witness : exists info_bytes meta_bytes,
  Info_to_bytes (H := Sha1_pad) (mi_info sample_metainfo) = Ok info_bytes /\ Metainfo_to_bytes (H := Sha1_pad) sample_metainfo = Ok meta_bytes /\
  is_private (mi_info sample_metainfo) = Some true /\
  is_private <$> ok (Info_from_bytes (H := Sha1_pad) info_bytes) = Some None.
Proof.
  destruct (metainfo_roundtrip (H := Sha1_pad) sample_metainfo) as (ib & mb & Hib & Hmb & Hri & _).
  - assert (forall c, c ∈ [bstr "a"; bstr "b"; bstr "c"; bstr "dir"] -> plain_name c) as Hpl.
    { intros c Hc. repeat (apply elem_of_cons in Hc as [->|Hc]; [apply plain_name_ascii; (done || cbn; lia)|]). by apply elem_of_nil in Hc. }
    constructor; [|done..]. constructor; cbn.
    + by apply Forall_singleton.
    + lia.
    + lia.
    + lia.
    + apply Forall_cons. split; [|apply Forall_singleton]; (split; [done|]); apply Forall_forall; intros c Hc; apply Hpl; set_solver.
    + split_and!; [|done..]. split; [done|]. apply Forall_singleton, Hpl. set_solver.
  - exists ib, mb. split_and!; [done..|]. rewrite Hri. done.
Defined.
