(* ===== verification/PieceAccess.v ===== *)
(** * [bip_disk]: blocks and the piece accessor

    [PieceAccessor] spreads a block over the files of a torrent.  Sizes and
    offsets are natural numbers; the one product and sum that can leave [u64]
    is checked. *)

From stdpp Require Import prelude list gmap strings.
From Stdlib Require Import ZArith Lia Strings.Byte.
From S2P Require Import Prelude Bytes Convert Sha Fs Metainfo.

Record BlockMetadata : Type := mk_BlockMetadata {
  block_info_hash : ShaHash;
  piece_index : nat;
  block_offset : nat;
  block_length : nat;
}.

#[export] Instance BlockMetadata_eq_dec : EqDecision BlockMetadata.
Proof. solve_decision. Defined.

Definition BlockMetadata_new := mk_BlockMetadata.

Definition default_hash : ShaHash := mk_ShaHash (replicate SHA_HASH_LEN x00).

Definition with_default_hash (piece_index block_offset block_length : nat) : BlockMetadata :=
  BlockMetadata_new default_hash piece_index block_offset block_length.

Definition BlockMetadata_default : BlockMetadata := BlockMetadata_new default_hash 0 0 0.

(** [Block] and [BlockMut] differ in the mutability of their data only. *)
Record Block : Type := mk_Block { metadata : BlockMetadata; block_data : bytes }.

Definition Block_new := mk_Block.
Definition into_parts (self : Block) : BlockMetadata * bytes := (metadata self, block_data self).

(** [u64] arithmetic of the skip count. *)
Definition checked_u64 {E} (n : nat) : outcome E nat :=
  if decide (Z.of_nat n < 2 ^ 64)%Z then Ok n else Panic.

Section accessor.
Context {F : FileSystem} (info_dict : Info).

Section regions.
Context {S : Type} (callback : S -> fs_file -> nat -> nat -> nat -> stM fs_world io_error S).
Context (total_block_length : nat).

Fixpoint regions_loop (fs : list File) (total_bytes_to_skip total_bytes_accessed : nat) (s : S) :
    stM fs_world io_error S :=
  match fs with
  | [] => mret s
  | file :: fs =>
      let total_file_size := file_len file in
      let bytes_to_access := total_file_size in
      let min_bytes_to_skip := min total_bytes_to_skip bytes_to_access in
      let total_bytes_to_skip := total_bytes_to_skip - min_bytes_to_skip in
      let bytes_to_access := bytes_to_access - min_bytes_to_skip in
      if decide (0 < bytes_to_access /\ total_bytes_accessed < total_block_length) then
        let file_path := build_path (file_directory info_dict) file in
        fs_file ← open_file file_path;
        let total_max_bytes_to_access := total_block_length - total_bytes_accessed in
        let actual_bytes_to_access := min total_max_bytes_to_access bytes_to_access in
        let offset := total_file_size - bytes_to_access in
        s ← callback s fs_file offset total_bytes_accessed (total_bytes_accessed + actual_bytes_to_access);
        regions_loop fs total_bytes_to_skip (total_bytes_accessed + actual_bytes_to_access) s
      else regions_loop fs total_bytes_to_skip total_bytes_accessed s
  end.
End regions.

Definition run_with_file_regions {S : Type} (message : BlockMetadata)
    (callback : S -> fs_file -> nat -> nat -> nat -> stM fs_world io_error S) (s : S) :
    stM fs_world io_error S :=
  skip ← lift (checked_u64 (piece_index message * piece_len info_dict));
  skip ← lift (checked_u64 (skip + block_offset message));
  regions_loop callback (block_length message) (files info_dict) skip 0 s.

(** The callback reads into [&mut piece_buffer[begin..end]]. *)
Definition read_region (piece_buffer : bytes) (file : fs_file) (offset begin end_ : nat) :
    stM fs_world io_error bytes :=
  _ ← lift (slice_checked piece_buffer begin end_);
  bs ← read_file file offset (end_ - begin);
  _ ← assert (length bs =? end_ - begin);
  mret (take begin piece_buffer ++ bs ++ drop (begin + length bs) piece_buffer).

Definition read_piece (piece_buffer : bytes) (message : BlockMetadata) : stM fs_world io_error bytes :=
  run_with_file_regions message read_region piece_buffer.

Definition write_region (piece_buffer : bytes) (_ : ()) (file : fs_file) (offset begin end_ : nat) :
    stM fs_world io_error () :=
  bs ← lift (slice_checked piece_buffer begin end_);
  bytes_written ← write_file file offset bs;
  assert (bytes_written =? end_ - begin).

Definition write_piece (piece_buffer : bytes) (message : BlockMetadata) : stM fs_world io_error () :=
  run_with_file_regions message (write_region piece_buffer) ().
End accessor.

(** ** A torrent as one byte string *)

Section flat.
Context {F : FileSystem} {SP : FsSpec F} (info_dict : Info).

Definition path_in (f : File) : path := build_path (file_directory info_dict) f.

(** The files exist with the lengths of the torrent. *)
Definition present (w : fs_world) (fs : list File) : Prop :=
  Forall (fun f => exists c, contents w (path_in f) = Some c /\ length c = file_len f) fs.

Definition flat (w : fs_world) (fs : list File) : bytes :=
  concat ((fun f => default [] (contents w (path_in f))) <$> fs).

Lemma present_same w w' fs :
  (forall f, f ∈ fs -> contents w' (path_in f) = contents w (path_in f)) -> present w fs ->
  present w' fs /\ flat w' fs = flat w fs.
Proof.
  unfold present, flat. induction fs as [|f fs IH]; intros Hs Hp; [done|].
  apply Forall_cons in Hp as [Hf Hp]. destruct IH as [H1 H2]; [intros; apply Hs; by right|done|].
  rewrite Forall_cons. cbn [fmap list_fmap concat]. rewrite H2, (Hs f) by left. done.
Qed.

Lemma length_flat w fs : present w fs -> length (flat w fs) = sum_list (file_len <$> fs).
Proof.
  unfold present, flat. induction 1 as [|f fs (c & Hc & Hl) _ IH]; [done|].
  cbn [fmap list_fmap concat sum_list]. rewrite length_app, IH, Hc. cbn. lia.
Qed.

Lemma flat_cons w f fs c :
  contents w (path_in f) = Some c -> flat w (f :: fs) = c ++ flat w fs.
Proof. intros Hc. unfold flat. cbn [fmap list_fmap concat]. by rewrite Hc. Qed.

(** Reading one region. *)
Lemma read_region_ok w f c buf offset begin n :
  fs_wf w -> contents w (path_of f) = Some c -> offset + n <= length c -> begin + n <= length buf ->
  exists w', read_region buf f offset begin (begin + n) w =
      (Ok (take begin buf ++ take n (drop offset c) ++ drop (begin + n) buf), w') /\
    fs_wf w' /\ (forall q, contents w' q = contents w q).
Proof.
  intros Hw Hc Hn Hb. destruct (read_ok w f c offset n Hw Hc Hn) as (w' & Hr & Hw' & Hs).
  exists w'. split; [|done]. unfold read_region.
  rewrite slice_checked_eq by lia. erewrite stM_bind_ok by done.
  replace (begin + n - begin) with n by lia. erewrite stM_bind_ok by exact Hr.
  unfold slice. replace (offset + n - offset) with n by lia.
  assert (length (take n (drop offset c)) = n) as Hlen by (rewrite length_take, length_drop; lia).
  rewrite Hlen, Nat.eqb_refl. done.
Qed.

Lemma write_region_ok w f c buf offset begin n :
  fs_wf w -> contents w (path_of f) = Some c -> begin + n <= length buf ->
  exists w', write_region buf () f offset begin (begin + n) w = (Ok (), w') /\ fs_wf w' /\
    contents w' (path_of f) = Some (patch c offset (take n (drop begin buf))) /\
    (forall q, q <> path_of f -> contents w' q = contents w q).
Proof.
  intros Hw Hc Hb. unfold write_region.
  destruct (write_ok w f c offset (take n (drop begin buf)) Hw Hc) as (w' & Hr & Hw' & Hat & Hs).
  exists w'. split; [|done].
  rewrite slice_checked_eq by lia. erewrite stM_bind_ok by done. unfold slice.
  replace (begin + n - begin) with n by lia. erewrite stM_bind_ok by exact Hr.
  assert (length (take n (drop begin buf)) = n) as -> by (rewrite length_take, length_drop; lia).
  by rewrite Nat.eqb_refl.
Qed.

(** What one region contributes to the buffer, put in front of what the
    remaining files contribute. *)
Lemma splice_regions (c rest buf : bytes) skip acc left :
  let a := min left (length c - skip) in
  let n := min left (length c + length rest - skip) in
  let buf1 := take acc buf ++ take a (drop skip c) ++ drop (acc + a) buf in
  skip <= length c -> acc + n <= length buf ->
  length buf1 = length buf /\
  take (acc + a) buf1 ++ take (n - a) rest ++ drop (acc + a + (n - a)) buf1 =
  take acc buf ++ take n (drop skip (c ++ rest)) ++ drop (acc + n) buf.
Proof.
  intros a n buf1 Hs Hb.
  assert (length (take a (drop skip c)) = a) as Hla by (rewrite length_take, length_drop; lia).
  assert (length (take acc buf) = acc) as Hlt by (rewrite length_take; lia). split.
  - subst buf1. rewrite !length_app, Hla, Hlt, length_drop. lia.
  - assert (take (acc + a) buf1 = take acc buf ++ take a (drop skip c)) as ->.
    { subst buf1. rewrite app_assoc. apply take_app_length'. rewrite length_app. lia. }
    assert (drop (acc + a + (n - a)) buf1 = drop (acc + n) buf) as ->.
    { subst buf1. rewrite app_assoc, drop_app_ge by (rewrite length_app; lia).
      rewrite drop_drop, length_app, Hla, Hlt. f_equal. lia. }
    rewrite <- app_assoc. f_equal. rewrite app_assoc. f_equal.
    rewrite drop_app_le, take_app, length_drop by lia. subst a n.
    destruct (Nat.le_ge_cases left (length c - skip)) as [Hle|Hge].
    + rewrite !Nat.min_l by lia. rewrite Nat.sub_diag. replace (left - (length c - skip)) with 0 by lia. done.
    + rewrite (Nat.min_r left (length c - skip)) by lia.
      rewrite !(take_ge (drop skip c)) by (rewrite length_drop; lia). done.
Qed.

Lemma read_loop total fs : forall skip acc buf w n,
  fs_wf w -> present w fs -> acc <= total ->
  n = min (total - acc) (length (flat w fs) - skip) -> acc + n <= length buf ->
  exists w', regions_loop info_dict read_region total fs skip acc buf w =
      (Ok (take acc buf ++ take n (drop skip (flat w fs)) ++ drop (acc + n) buf), w') /\
    fs_wf w' /\ (forall q, contents w' q = contents w q).
Proof.
  induction fs as [|f fs IH]; intros skip acc buf w n Hw Hp Hacc Hn Hb.
  - exists w. split; [|done]. cbn in *. rewrite drop_nil, take_nil. replace n with 0 by lia.
    rewrite Nat.add_0_r, app_nil_l, take_drop. done.
  - apply Forall_cons in Hp as [(c & Hc & Hl) Hp]. rewrite (flat_cons _ _ _ _ Hc) in Hn |- *.
    rewrite length_app in Hn. cbn [regions_loop]. rewrite <- Hl.
    case_decide as Hd.
    + destruct (open_ok w _ c Hw Hc) as (h & w1 & Ho & Hh & Hw1 & Hs1).
      erewrite stM_bind_ok by exact Ho. rewrite Nat.min_l in * by lia.
      replace (length c - (length c - skip)) with skip by lia.
      set (a := min (total - acc) (length c - skip)) in *.
      destruct (splice_regions c (flat w fs) buf skip acc (total - acc)) as [Hlb Heq]; [lia|lia|].
      fold a in Hlb, Heq. rewrite <- Hn in Heq.
      destruct (read_region_ok w1 h c buf skip acc a) as (w2 & Hr & Hw2 & Hs2);
        [done|by rewrite Hh, Hs1|lia|lia|].
      erewrite stM_bind_ok by exact Hr. rewrite Nat.sub_diag.
      destruct (present_same w w2 fs) as [Hp2 Hf2]; [intros; by rewrite Hs2, Hs1|done|].
      set (buf1 := take acc buf ++ take a (drop skip c) ++ drop (acc + a) buf) in *.
      destruct (IH 0 (acc + a) buf1 w2 (n - a)) as (w3 & Hr3 & Hw3 & Hs3);
        [done|done|lia|rewrite Hf2; lia|lia|].
      exists w3. rewrite Hr3, Hf2, drop_0, Heq.
      split; [done|]. split; [done|]. intros q. by rewrite Hs3, Hs2, Hs1.
    + destruct (Nat.le_gt_cases (length c) skip) as [Hle|Hgt].
      * rewrite Nat.min_r by lia. destruct (IH (skip - length c) acc buf w n) as (w' & Hr & Hw' & Hs');
          [done|done|done|lia|done|]. exists w'. rewrite Hr. split; [|done].
        rewrite (drop_app_ge _ (flat w fs)) by done. done.
      * assert (acc = total) as -> by lia. replace n with 0 in * by lia.
        destruct (IH (skip - min skip (length c)) total buf w 0) as (w' & Hr & Hw' & Hs'); [done|done|done|lia|lia|].
        exists w'. rewrite Hr. done.
Qed.

(** Bytes replaced in place. *)
Definition overwrite (c : bytes) (off : nat) (bs : bytes) : bytes :=
  take off c ++ bs ++ drop (off + length bs) c.

Lemma patch_overwrite c off bs : off <= length c -> patch c off bs = overwrite c off bs.
Proof. intros H. unfold patch, overwrite. replace (off - length c) with 0 by lia. done. Qed.

Lemma length_overwrite c off bs : off + length bs <= length c -> length (overwrite c off bs) = length c.
Proof. intros H. unfold overwrite. rewrite !length_app, length_take, length_drop. lia. Qed.

Lemma overwrite_nil c off : overwrite c off [] = c.
Proof. unfold overwrite. cbn. rewrite Nat.add_0_r. apply take_drop. Qed.

Lemma overwrite_app_r c rest off bs :
  length c <= off -> overwrite (c ++ rest) off bs = c ++ overwrite rest (off - length c) bs.
Proof.
  intros H. unfold overwrite. rewrite take_app, take_ge by lia. rewrite drop_app_ge by lia.
  rewrite <- app_assoc. repeat f_equal. lia.
Qed.

Lemma overwrite_app_l c rest off bs1 bs2 :
  off + length bs1 <= length c -> (bs2 <> [] -> off + length bs1 = length c) ->
  overwrite (c ++ rest) off (bs1 ++ bs2) = overwrite c off bs1 ++ overwrite rest 0 bs2.
Proof.
  intros H1 H2. destruct bs2 as [|b bs2].
  - rewrite app_nil_r, overwrite_nil. unfold overwrite. rewrite take_app_le, drop_app_le by lia.
    by rewrite <- !app_assoc.
  - specialize (H2 ltac:(done)). unfold overwrite. rewrite take_app_le by lia. rewrite length_app.
    rewrite (drop_ge c) by lia. rewrite drop_app_ge by (cbn; lia). rewrite take_0, app_nil_r, <- !app_assoc.
    replace (off + (length bs1 + length (b :: bs2)) - length c) with (0 + length (b :: bs2)) by lia. done.
Qed.

(** The bytes of the buffer split where the region ends. *)
Lemma split_written (c rest buf : bytes) skip acc left :
  let a := min left (length c - skip) in
  let n := min left (length c + length rest - skip) in
  skip <= length c -> acc + n <= length buf ->
  overwrite (c ++ rest) skip (take n (drop acc buf)) =
  overwrite c skip (take a (drop acc buf)) ++ overwrite rest 0 (take (n - a) (drop (acc + a) buf)).
Proof.
  intros a n Hs Hb. rewrite <- overwrite_app_l.
  - f_equal. rewrite <- drop_drop. rewrite <- (take_drop a (take n _)), take_take, skipn_firstn_comm.
    f_equal. f_equal. lia.
  - rewrite length_take, length_drop. lia.
  - intros Hne. rewrite length_take, length_drop.
    destruct (Nat.le_gt_cases left (length c - skip)) as [Hle|Hgt]; [|lia].
    exfalso. apply Hne. replace (n - a) with 0 by lia. done.
Qed.

Lemma write_loop total fs buf : forall skip acc w n,
  fs_wf w -> present w fs -> NoDup (path_in <$> fs) -> acc <= total ->
  n = min (total - acc) (length (flat w fs) - skip) -> acc + n <= length buf ->
  exists w', regions_loop info_dict (write_region buf) total fs skip acc () w = (Ok (), w') /\
    fs_wf w' /\ present w' fs /\ flat w' fs = overwrite (flat w fs) skip (take n (drop acc buf)) /\
    (forall q, q ∉ path_in <$> fs -> contents w' q = contents w q).
Proof.
  induction fs as [|f fs IH]; intros skip acc w n Hw Hp Hnd Hacc Hn Hb.
  - exists w. cbn in *. replace n with 0 by lia. rewrite take_0, overwrite_nil. done.
  - pose proof Hp as [(c & Hc & Hl) Hpt]%Forall_cons.
    rewrite fmap_cons in Hnd |- *. apply NoDup_cons in Hnd as [Hnin Hnd].
    rewrite (flat_cons _ _ _ _ Hc) in Hn |- *.
    rewrite length_app in Hn. cbn [regions_loop]. rewrite <- Hl.
    case_decide as Hd.
    + destruct (open_ok w _ c Hw Hc) as (h & w1 & Ho & Hh & Hw1 & Hs1).
      erewrite stM_bind_ok by exact Ho. rewrite Nat.min_l in * by lia.
      replace (length c - (length c - skip)) with skip by lia.
      pose proof (split_written c (flat w fs) buf skip acc (total - acc) ltac:(lia)) as Hsp.
      cbv zeta in Hsp. rewrite <- Hn in Hsp. rewrite (Hsp Hb).
      set (a := min (total - acc) (length c - skip)) in *.
      destruct (write_region_ok w1 h c buf skip acc a) as (w2 & Hr & Hw2 & Hat & Hs2);
        [done|by rewrite Hh, Hs1|lia|]. rewrite Hh in Hat, Hs2. rewrite patch_overwrite in Hat by lia.
      erewrite stM_bind_ok by exact Hr. rewrite Nat.sub_diag.
      destruct (present_same w w2 fs) as [Hp2 Hf2]; [|done|].
      { intros g Hg. rewrite Hs2, Hs1; [done|]. intros Heq. apply Hnin. rewrite <- Heq. by apply list_elem_of_fmap_2. }
      destruct (IH 0 (acc + a) w2 (n - a)) as (w3 & Hr3 & Hw3 & Hp3 & Hf3 & Hs3);
        [done|done|done|lia|rewrite Hf2; lia|lia|].
      assert (contents w3 (path_in f) = Some (overwrite c skip (take a (drop acc buf)))) as Hc3
        by (rewrite Hs3; done).
      exists w3. split; [exact Hr3|]. split; [done|]. split; [|split].
      * apply Forall_cons. split; [|done]. eexists. split; [exact Hc3|].
        rewrite length_overwrite; [done|]. rewrite length_take, length_drop. lia.
      * rewrite (flat_cons _ _ _ _ Hc3), Hf3, Hf2. done.
      * intros q [Hq1 Hq2]%not_elem_of_cons. rewrite Hs3, Hs2, Hs1 by done. done.
    + assert (exists w', regions_loop info_dict (write_region buf) total fs (skip - min skip (length c)) acc () w = (Ok (), w') /\
        fs_wf w' /\ present w' fs /\ flat w' fs = overwrite (flat w fs) (skip - min skip (length c)) (take n (drop acc buf)) /\
        (forall q, q ∉ path_in <$> fs -> contents w' q = contents w q)) as (w' & Hr & Hw' & Hp' & Hf' & Hs').
      { apply IH; [done|done|done|done|lia|done]. }
      exists w'. split; [exact Hr|]. split; [done|]. assert (contents w' (path_in f) = Some c) as Hc' by (by rewrite Hs').
      split; [apply Forall_cons; split; [by exists c|done]|]. split; [|intros q [_ Hq]%not_elem_of_cons; by apply Hs'].
      rewrite (flat_cons _ _ _ _ Hc'), Hf'.
      destruct (Nat.le_gt_cases (length c) skip) as [Hle|Hgt].
      * rewrite overwrite_app_r by done. by rewrite Nat.min_r by lia.
      * replace n with 0 by lia. by rewrite take_0, !overwrite_nil.
Qed.
End flat.

Section access.
Context {F : FileSystem} {SP : FsSpec F} (info_dict : Info).

Definition torrent_bytes (w : fs_world) : bytes := flat info_dict w (files info_dict).

(** Where a block starts in the torrent, and how much of it lies inside. *)
Definition block_start (m : BlockMetadata) : nat := piece_index m * piece_len info_dict + block_offset m.
Definition accessible (m : BlockMetadata) : nat :=
  min (block_length m) (total_bytes info_dict - block_start m).

(** The torrent's files are all there, under different paths. *)
Definition torrent_present (w : fs_world) : Prop :=
  fs_wf w /\ present info_dict w (files info_dict) /\ NoDup (paths info_dict).

Lemma length_torrent_bytes w : torrent_present w -> length (torrent_bytes w) = total_bytes info_dict.
Proof. intros (_ & Hp & _). by apply length_flat. Qed.

Lemma regions_start {S} (cb : S -> fs_file -> nat -> nat -> nat -> stM fs_world io_error S) m s w :
  (Z.of_nat (block_start m) < 2 ^ 64)%Z ->
  run_with_file_regions info_dict m cb s w =
  regions_loop info_dict cb (block_length m) (files info_dict) (block_start m) 0 s w.
Proof.
  unfold block_start. intros Hb. unfold run_with_file_regions, checked_u64.
  rewrite decide_True by lia. erewrite stM_bind_ok by reflexivity.
  rewrite decide_True by lia. by erewrite stM_bind_ok by reflexivity.
Qed.

Lemma read_piece_ok w buf m :
  torrent_present w -> (Z.of_nat (block_start m) < 2 ^ 64)%Z -> accessible m <= length buf ->
  exists w', read_piece info_dict buf m w =
      (Ok (take (accessible m) (drop (block_start m) (torrent_bytes w)) ++ drop (accessible m) buf), w') /\
    torrent_present w' /\ torrent_bytes w' = torrent_bytes w /\ (forall q, contents w' q = contents w q).
Proof.
  intros (Hw & Hp & Hnd) Hs Hb. unfold read_piece. rewrite regions_start by done.
  destruct (read_loop info_dict (block_length m) (files info_dict) (block_start m) 0 buf w (accessible m))
    as (w' & Hr & Hw' & Hsame); [done|done|lia| |done|].
  { rewrite length_flat by done. unfold accessible, total_bytes. lia. }
  exists w'. split; [exact Hr|].
  destruct (present_same info_dict w w' (files info_dict)) as [Hp' Hf]; [intros; apply Hsame|done|].
  done.
Qed.

Lemma write_piece_ok w buf m :
  torrent_present w -> (Z.of_nat (block_start m) < 2 ^ 64)%Z -> accessible m <= length buf ->
  exists w', write_piece info_dict buf m w = (Ok (), w') /\ torrent_present w' /\
    torrent_bytes w' = overwrite (torrent_bytes w) (block_start m) (take (accessible m) buf) /\
    (forall q, q ∉ paths info_dict -> contents w' q = contents w q).
Proof.
  intros (Hw & Hp & Hnd) Hs Hb. unfold write_piece. rewrite regions_start by done.
  destruct (write_loop info_dict (block_length m) (files info_dict) buf (block_start m) 0 w (accessible m))
    as (w' & Hr & Hw' & Hp' & Hf & Hsame); [done|done|done|lia| |done|].
  { rewrite length_flat by done. unfold accessible, total_bytes. lia. }
  exists w'. done.
Qed.

(** C9. The piece accessor treats the files of a torrent as one byte string: with
    all files present under different paths, writing a block returns and
    replaces exactly the bytes of the block that lie inside the torrent,
    leaving every other file of the file system alone; reading a block returns
    and fills the buffer with those bytes, across file borders and empty files,
    and changes no contents; so what was written is read back. *)
Theorem piece_access_flat w buf buf' m :
  torrent_present w -> (Z.of_nat (block_start m) < 2 ^ 64)%Z ->
  accessible m <= length buf -> accessible m <= length buf' ->
  exists w1 w2, write_piece info_dict buf m w = (Ok (), w1) /\
    torrent_bytes w1 = overwrite (torrent_bytes w) (block_start m) (take (accessible m) buf) /\
    (forall q, q ∉ paths info_dict -> contents w1 q = contents w q) /\
    (forall m' n, n = accessible m' -> n <= length buf' -> (Z.of_nat (block_start m') < 2 ^ 64)%Z ->
       exists w3, read_piece info_dict buf' m' w1 =
         (Ok (take n (drop (block_start m') (torrent_bytes w1)) ++ drop n buf'), w3)) /\
    read_piece info_dict buf' m w1 = (Ok (take (accessible m) buf ++ drop (accessible m) buf'), w2) /\
    (forall q, contents w2 q = contents w1 q).
Proof.
  intros Hw Hs Hb Hb'. destruct (write_piece_ok w buf m Hw Hs Hb) as (w1 & Hwr & Hw1 & Hf & Hq).
  destruct (read_piece_ok w1 buf' m Hw1 Hs Hb') as (w2 & Hrd & _ & _ & Hq2).
  exists w1, w2. split; [done|]. split; [done|]. split; [done|]. split.
  - intros m' n -> Hn Hs'. destruct (read_piece_ok w1 buf' m' Hw1 Hs' Hn) as (w3 & Hr & _). by exists w3.
  - split; [|done]. rewrite Hrd. do 3 f_equal. rewrite Hf. unfold overwrite.
    assert (length (take (accessible m) buf) = accessible m) as Hl by (rewrite length_take; lia).
    destruct (decide (accessible m = 0)) as [->|Hne]; [by rewrite take_0|].
    rewrite drop_app_ge by (rewrite length_take; lia).
    rewrite length_take, length_torrent_bytes by done.
    replace (block_start m - _) with 0 by (unfold accessible in Hne; lia). rewrite drop_0.
    rewrite take_app_le by lia. apply take_ge. lia.
Qed.
End access.

(** Two files of five and four bytes, and a block over their border. *)
Definition small_info : Info :=
  mk_Info default_hash
    [mk_File 5 (mk_path false [[x61]]) None; mk_File 4 (mk_path false [[x62]]) None] [] 4 None
    (Some (mk_path false [[x64]])).

Definition small_world : @fs_world MemFs :=
  list_to_map [(mk_path false [[x64]; [x61]], replicate 5 x01); (mk_path false [[x64]; [x62]], replicate 4 x02)].

Lemma small_present : torrent_present (F := MemFs) small_info small_world.
Proof.
  split; [done|]. split.
  - repeat constructor; eexists; split; vm_compute; reflexivity.
  - vm_compute. apply NoDup_cons. split; [|apply NoDup_singleton].
    rewrite list_elem_of_singleton. discriminate.
Qed.

Lemma piece_access_flat_witness :
  exists w1 w2, write_piece (F := MemFs) small_info [x0a; x0b; x0c] (with_default_hash 1 0 3) small_world = (Ok (), w1) /\
    read_piece (F := MemFs) small_info [x00; x00; x00; x00] (with_default_hash 1 0 3) w1 = (Ok [x0a; x0b; x0c; x00], w2).
Proof.
  destruct (piece_access_flat (F := MemFs) small_info small_world [x0a; x0b; x0c] [x00; x00; x00; x00]
    (with_default_hash 1 0 3) small_present) as (w1 & w2 & H1 & _ & _ & _ & H2 & _).
  - vm_compute. reflexivity.
  - vm_compute. lia.
  - vm_compute. lia.
  - exists w1, w2. split; [exact H1|exact H2].
Defined.
