(* ===== verification/PieceCheck.v ===== *)
(** * [bip_disk]: the piece checker

    Pending blocks of a piece are merged until one block covers the piece,
    which is then hashed.  A hash map is a [gmap]; the order in which its
    values are visited is an argument. *)

From stdpp Require Import prelude list gmap sets strings.
From Stdlib Require Import ZArith Lia Strings.Byte.
From S2P Require Import Prelude Bytes Convert Sha Fs Metainfo PieceAccess.

Inductive PieceState : Type :=
| Good (index : nat)
| Bad (index : nat).

#[export] Instance PieceState_eq_dec : EqDecision PieceState.
Proof. solve_decision. Defined.

#[export] Program Instance PieceState_countable : Countable PieceState :=
  inj_countable' (fun s => match s with Good i => inl i | Bad i => inr i end)
                 (fun s => match s with inl i => Good i | inr i => Bad i end) _.
Next Obligation. by intros []. Qed.

Record PieceCheckerState : Type := mk_PieceCheckerState {
  new_states : list PieceState;
  old_states : gset PieceState;
  pending_blocks : gmap nat (list BlockMetadata);
  total_blocks : nat;
  last_block_size : nat;
}.

Definition PieceCheckerState_new (total_blocks last_block_size : nat) : PieceCheckerState :=
  mk_PieceCheckerState [] ∅ ∅ total_blocks last_block_size.

Definition set_pending (s : PieceCheckerState) (p : gmap nat (list BlockMetadata)) : PieceCheckerState :=
  mk_PieceCheckerState (new_states s) (old_states s) p (total_blocks s) (last_block_size s).

Definition add_pending_block (self : PieceCheckerState) (msg : BlockMetadata) : PieceCheckerState :=
  set_pending self
    (<[piece_index msg := default [] (pending_blocks self !! piece_index msg) ++ [msg]]> (pending_blocks self)).

(** [run_with_diff]: the states in order, and the state after the calls. *)
Definition run_with_diff (self : PieceCheckerState) : list PieceState * PieceCheckerState :=
  (new_states self,
   mk_PieceCheckerState [] (foldl (fun o s => {[ s ]} ∪ o) (old_states self) (new_states self))
     (pending_blocks self) (total_blocks self) (last_block_size self)).

(** ** Merging *)

Definition merge_piece_messages {E} (message_a message_b : BlockMetadata) : outcome E (option BlockMetadata) :=
  if decide (block_info_hash message_a <> block_info_hash message_b \/
             piece_index message_a <> piece_index message_b) then Ok None
  else
    let info_hash := block_info_hash message_a in
    let piece_index := piece_index message_a in
    let start_a := block_offset message_a in
    end_a ← checked_u64 (start_a + block_length message_a);
    let start_b := block_offset message_b in
    end_b ← checked_u64 (start_b + block_length message_b);
    if decide (start_a <= start_b <= end_a) then
      let end_to_take := max end_a end_b in
      let length := end_to_take - start_a in
      Ok (Some (BlockMetadata_new info_hash piece_index start_a length))
    else if decide (start_b <= start_a <= end_b) then
      let end_to_take := max end_a end_b in
      let length := end_to_take - start_b in
      Ok (Some (BlockMetadata_new info_hash piece_index start_b length))
    else Ok None.

(** [sort_by] is stable. *)
Fixpoint insert_by_offset (m : BlockMetadata) (l : list BlockMetadata) : list BlockMetadata :=
  match l with
  | [] => [m]
  | x :: l' => if decide (block_offset m < block_offset x) then m :: l else x :: insert_by_offset m l'
  end.

Definition sort_by_offset (l : list BlockMetadata) : list BlockMetadata :=
  foldl (fun acc m => insert_by_offset m acc) [] l.

(** The loop pops the last two messages and pushes their merge; [rest] is the
    list below the last message, its end first. *)
Fixpoint merge_loop {E} (last : BlockMetadata) (rest : list BlockMetadata) : outcome E (list BlockMetadata) :=
  match rest with
  | [] => Ok [last]
  | second_last :: rest' =>
      opt_merged ← merge_piece_messages second_last last;
      match opt_merged with
      | Some merged => merge_loop merged rest'
      | None => Ok (reverse rest ++ [last])
      end
  end.

Definition merge_messages {E} (messages : list BlockMetadata) : outcome E (list BlockMetadata) :=
  match reverse (sort_by_offset messages) with
  | [] => Ok []
  | last :: rest => merge_loop last rest
  end.

Inductive TorrentError (IoError : Type) : Type :=
| TorrentIo (e : IoError)
| ExistingFileSizeCheck (file_path : path) (expected_size actual_size : nat)
| ExistingInfoHash (hash : ShaHash)
| TorrentNotFound (hash : ShaHash).
Arguments TorrentIo {IoError} _.
Arguments ExistingFileSizeCheck {IoError} _ _ _.
Arguments ExistingInfoHash {IoError} _.
Arguments TorrentNotFound {IoError} _.

Section order.
Context (iter_order : gmap nat (list BlockMetadata) -> list nat).

Fixpoint merge_keys {E} (keys : list nat) (p : gmap nat (list BlockMetadata)) :
    outcome E (gmap nat (list BlockMetadata)) :=
  match keys with
  | [] => Ok p
  | k :: keys =>
      messages ← merge_messages (default [] (p !! k));
      merge_keys keys (<[k := messages]> p)
  end.

Definition merge_pieces {E} (self : PieceCheckerState) : outcome E PieceCheckerState :=
  p ← merge_keys (iter_order (pending_blocks self)) (pending_blocks self);
  Ok (set_pending self p).

(** ** Checking whole pieces *)

(** [total_blocks - 1] is computed whenever there is a first message. *)
Definition piece_is_complete {E} (total_blocks last_block_size piece_length : nat)
    (messages : list BlockMetadata) : outcome E bool :=
  let is_single_message := length messages =? 1 in
  match messages !! 0 with
  | None => Ok false
  | Some message =>
      let is_piece_length := block_length message =? piece_length in
      if decide (total_blocks = 0) then Panic
      else
        let is_last_block := piece_index message =? total_blocks - 1 in
        let is_last_block_length := block_length message =? last_block_size in
        Ok (is_single_message && (is_piece_length || (is_last_block && is_last_block_length)))
  end.

(** A step over the world inside a step over the world and the checker state. *)
Definition lift_world {W S E A} (m : stM W E A) : stM (W * S) E A :=
  fun ws => let '(o, w) := m ws.1 in (o, (w, ws.2)).

Definition get_state {W S E} : stM (W * S) E S := fun ws => (Ok ws.2, ws).
Definition put_state {W S E} (s : S) : stM (W * S) E () := fun ws => (Ok (), (ws.1, s)).

Definition push_state (s : PieceCheckerState) (k : nat) (st : PieceState) : PieceCheckerState :=
  mk_PieceCheckerState (new_states s ++ [st]) (old_states s) (<[k := []]> (pending_blocks s))
    (total_blocks s) (last_block_size s).

Section checks.
Context {W E B : Type} (piece_length : nat) (callback : B -> BlockMetadata -> stM W E (bool * B)).

Fixpoint check_keys (keys : list nat) (b : B) : stM (W * PieceCheckerState) E B :=
  match keys with
  | [] => mret b
  | k :: keys =>
      self ← get_state;
      let messages := default [] (pending_blocks self !! k) in
      complete ← lift (piece_is_complete (total_blocks self) (last_block_size self) piece_length messages);
      if complete : bool then
        message ← lift (unwrap (messages !! 0));
        if decide (Good (piece_index message) ∈ old_states self) then check_keys keys b
        else
          '(is_good, b) ← lift_world (callback b message);
          _ ← put_state (push_state self k (if is_good : bool then Good (piece_index message)
                                             else Bad (piece_index message)));
          check_keys keys b
      else check_keys keys b
  end.

Definition run_with_whole_pieces (b : B) : stM (W * PieceCheckerState) E B :=
  self ← get_state;
  self ← lift (merge_pieces self);
  _ ← put_state self;
  check_keys (iter_order (pending_blocks self)) b.
End checks.

(** ** [PieceChecker] *)

Section checker.
Context {F : FileSystem} {SH : Sha1} (info_dict : Info).

Definition last_piece_size {E} : outcome E nat :=
  total ← checked_u64 (total_bytes info_dict);
  if decide (piece_len info_dict = 0) then Panic else Ok (total mod piece_len info_dict).

(** The closure of [calculate_diff]; the buffer is shared by all pieces. *)
Definition check_piece (piece_buffer : bytes) (message : BlockMetadata) :
    stM fs_world io_error (bool * bytes) :=
  region ← lift (slice_checked piece_buffer 0 (block_length message));
  region ← read_piece info_dict region message;
  let piece_buffer := region ++ drop (block_length message) piece_buffer in
  region ← lift (slice_checked piece_buffer 0 (block_length message));
  let calculated_hash := from_bytes region in
  expected ← lift (unwrap (pieces info_dict !! piece_index message));
  expected_hash ← lift (match from_hash expected with Ok h => Ok h | _ => Panic end);
  mret (bool_decide (calculated_hash = expected_hash), piece_buffer).

Definition calculate_diff : stM (fs_world * PieceCheckerState) io_error () :=
  let piece_buffer := replicate (piece_len info_dict) x00 in
  _ ← run_with_whole_pieces (piece_len info_dict) check_piece piece_buffer;
  mret ().

Definition fill_checker_state {E} (s : PieceCheckerState) : outcome E PieceCheckerState :=
  total ← checked_u64 (total_bytes info_dict);
  if decide (piece_len info_dict = 0) then Panic
  else
    let full_pieces := total / piece_len info_dict in
    last_piece_size ← last_piece_size;
    let s := foldl (fun s piece_index =>
      add_pending_block s (with_default_hash piece_index 0 (piece_len info_dict))) s (seq 0 full_pieces) in
    if decide (last_piece_size <> 0) then
      Ok (add_pending_block s (with_default_hash full_pieces 0 last_piece_size))
    else Ok s.

(** [Result::expect]: an error becomes a panic. *)
Definition expect {W E E' A} (m : stM W E A) : stM W E' A :=
  fun w => match m w with
           | (Ok a, w) => (Ok a, w)
           | (NoFuel, w) => (NoFuel, w)
           | (_, w) => (Panic, w)
           end.

(** A run over a checker state of its own; the state is the result. *)
Definition with_local_state {W S E E'} (f : E -> E') (m : stM (W * S) E ()) (s : S) : stM W E' S :=
  fun w => let '(o, ws) := m (w, s) in
           (match o with
            | Ok _ => Ok ws.2
            | Err e => Err (f e)
            | Panic => Panic
            | NoFuel => NoFuel
            end, ws.1).

(** One file: created with its full length when missing or empty. *)
Definition validate_file (file : File) : stM fs_world (TorrentError io_error) () :=
  let file_path := build_path (file_directory info_dict) file in
  let expected_size := file_len file in
  f ← st_map_err TorrentIo (open_file file_path);
  actual_size ← st_map_err TorrentIo (file_size f);
  let size_matches := actual_size =? expected_size in
  let size_is_zero := actual_size =? 0 in
  if negb size_matches && size_is_zero then
    _ ← expect (write_file f (expected_size - 1) [x00]); mret ()
  else if negb size_matches then lift (Err (ExistingFileSizeCheck file_path expected_size actual_size))
  else mret ().

Fixpoint validate_files (fs : list File) : stM fs_world (TorrentError io_error) () :=
  match fs with
  | [] => mret ()
  | file :: fs => _ ← validate_file file; validate_files fs
  end.

Definition validate_files_sizes : stM fs_world (TorrentError io_error) () := validate_files (files info_dict).

Definition init_state : stM fs_world (TorrentError io_error) PieceCheckerState :=
  let total_blocks := length (pieces info_dict) in
  last_piece_size ← lift last_piece_size;
  let checker_state := PieceCheckerState_new total_blocks last_piece_size in
  _ ← validate_files_sizes;
  checker_state ← lift (fill_checker_state checker_state);
  with_local_state TorrentIo calculate_diff checker_state.
End checker.
End order.
