(* ===== verification/PieceMerge.v ===== *)
(** * Merging the pending blocks of a piece

    Coverage of block lists, what sorting and merging do to it, and the state a
    piece's pending list is in between blocks. *)

From stdpp Require Import prelude list gmap sets strings sorting.
From Stdlib Require Import ZArith Lia Strings.Byte.
From S2P Require Import Prelude Bytes Convert Sha Fs Metainfo PieceAccess PieceCheck.

Definition block_end (m : BlockMetadata) : nat := block_offset m + block_length m.
Definition covers (m : BlockMetadata) (x : nat) : Prop := block_offset m <= x < block_end m.

#[export] Instance covers_dec m x : Decision (covers m x).
Proof. unfold covers; apply _. Defined.

Definition covered (l : list BlockMetadata) (x : nat) : Prop := exists m, m ∈ l /\ covers m x.

(** Blocks of one piece of one torrent, not empty, with ends inside [u64]. *)
Definition block_of (h : ShaHash) (i : nat) (m : BlockMetadata) : Prop :=
  block_info_hash m = h /\ piece_index m = i /\ 0 < block_length m /\ (Z.of_nat (block_end m) < 2 ^ 64)%Z.

Definition apart (a b : BlockMetadata) : Prop := block_end a <= block_offset b \/ block_end b <= block_offset a.
Definition before (a b : BlockMetadata) : Prop := block_end a <= block_offset b.

(** In increasing order and without overlap. *)
Definition spaced (l : list BlockMetadata) : Prop := Sorted.StronglySorted before l.

Lemma spaced_snoc l a : spaced (l ++ [a]) <-> spaced l /\ forall x, x ∈ l -> before x a.
Proof.
  unfold spaced. rewrite StronglySorted_app. setoid_rewrite list_elem_of_singleton. split.
  - intros (H1 & H2 & _). split; [done|]. intros x Hx. by apply H1.
  - intros (H1 & H2). split_and!; [|done|repeat constructor]. intros x y Hx ->. by apply H2.
Qed.

Lemma covered_perm l k x : l ≡ₚ k -> covered l x <-> covered k x.
Proof. intros H. unfold covered. by setoid_rewrite H. Qed.

Lemma covered_cons m l x : covered (m :: l) x <-> covers m x \/ covered l x.
Proof. unfold covered. setoid_rewrite elem_of_cons. naive_solver. Qed.

Lemma covered_app l k x : covered (l ++ k) x <-> covered l x \/ covered k x.
Proof. unfold covered. setoid_rewrite elem_of_app. naive_solver. Qed.

Lemma covered_nil x : ~ covered [] x.
Proof. intros (m & Hm & _). by apply not_elem_of_nil in Hm. Qed.

#[export] Instance covered_dec l x : Decision (covered l x).
Proof.
  refine (cast_if (decide (Exists (fun m => covers m x) l))); unfold covered.
  - by apply Exists_exists.
  - by rewrite <- Exists_exists.
Defined.

Lemma covered_all_or_not l n :
  (forall x, x < n -> covered l x) \/ exists x, x < n /\ ~ covered l x.
Proof.
  destruct (decide (Forall (covered l) (seq 0 n))) as [Ha|Hn].
  - left. intros x Hx. rewrite Forall_forall in Ha. apply Ha, elem_of_seq. lia.
  - right. apply not_Forall_Exists in Hn; [|apply _]. apply Exists_exists in Hn as (x & Hx & Hc).
    exists x. apply elem_of_seq in Hx. split; [lia|done].
Qed.

(** ** Sorting *)

Lemma insert_by_offset_perm m l : insert_by_offset m l ≡ₚ m :: l.
Proof.
  induction l as [|x l IH]; simpl; [done|]. case_decide; [done|]. rewrite IH. apply Permutation_swap.
Qed.

Lemma sort_perm l : sort_by_offset l ≡ₚ l.
Proof.
  unfold sort_by_offset. cut (forall acc, foldl (fun acc m => insert_by_offset m acc) acc l ≡ₚ acc ++ l).
  { intros H. by rewrite (H []). }
  induction l as [|m l IH]; intros acc; simpl; [by rewrite app_nil_r|].
  rewrite IH, insert_by_offset_perm. apply (Permutation_middle acc l m).
Qed.

(** Inserting a block into a spaced list it is apart from. *)
Lemma insert_spaced h i m l :
  block_of h i m -> Forall (block_of h i) l -> Forall (apart m) l -> spaced l -> spaced (insert_by_offset m l).
Proof.
  intros Hm. induction l as [|x l IH]; intros Hb Ha Hs; simpl; [repeat constructor|].
  apply Forall_cons in Hb as [Hx Hb]. apply Forall_cons in Ha as [Hax Ha].
  apply Sorted.StronglySorted_inv in Hs as [Hs Hxl]. destruct Hm as (_ & _ & Hm & _), Hx as (_ & _ & Hx & _).
  unfold apart, block_end in Hax. case_decide as Hd.
  - assert (before m x) as Hmx by (unfold before, block_end; lia).
    constructor; [by constructor|]. constructor; [done|]. eapply Forall_impl; [exact Hxl|].
    unfold before, block_end in *. intros; lia.
  - constructor; [by apply IH|]. rewrite insert_by_offset_perm. constructor; [|done].
    unfold before, block_end in *. lia.
Qed.

Lemma sort_spaced h i l :
  Forall (block_of h i) l -> ForallOrdPairs apart l -> spaced (sort_by_offset l).
Proof.
  intros Hb Hp. unfold sort_by_offset.
  cut (forall acc, Forall (block_of h i) acc -> spaced acc -> Forall (fun m => Forall (apart m) acc) l ->
    spaced (foldl (fun acc m => insert_by_offset m acc) acc l)).
  { intros H. apply H; [done|constructor|]. by apply Forall_forall. }
  induction Hp as [|m l Hml Hp IH]; intros acc Hacc Hsp Hall; simpl; [done|].
  apply Forall_cons in Hb as [Hm Hb]. apply Forall_cons in Hall as [Hma Hall].
  apply IH; [done| |by eapply insert_spaced|].
  - rewrite insert_by_offset_perm. by constructor.
  - rewrite Forall_forall in Hall, Hml |- *. intros x Hx. rewrite insert_by_offset_perm.
    constructor; [|by apply Hall]. destruct (Hml x Hx); [by right|by left].
Qed.

(** ** Merging *)

Section merging.
Context {E : Type} (h : ShaHash) (i : nat).

Lemma merge_before a b :
  block_of h i a -> block_of h i b -> before a b ->
  @merge_piece_messages E a b =
  Ok (if decide (block_end a = block_offset b) then Some (BlockMetadata_new h i (block_offset a) (block_length a + block_length b))
      else None).
Proof.
  intros (Ha1 & Ha2 & Ha3 & Ha4) (Hb1 & Hb2 & Hb3 & Hb4) Hab. unfold before, block_end in *.
  unfold merge_piece_messages. rewrite decide_False by naive_solver.
  unfold checked_u64. rewrite !decide_True by done. cbn [mbind outcome_bind]. rewrite Ha1, Ha2.
  destruct (decide (block_offset a + block_length a = block_offset b)) as [He|He].
  - rewrite decide_True by lia. do 3 f_equal. lia.
  - rewrite !decide_False by lia. done.
Qed.

Lemma merge_block_of a b :
  block_of h i a -> block_of h i b -> block_end a = block_offset b ->
  let m := BlockMetadata_new h i (block_offset a) (block_length a + block_length b) in
  block_of h i m /\ forall x, covers m x <-> covers a x \/ covers b x.
Proof.
  intros (Ha1 & Ha2 & Ha3 & Ha4) (Hb1 & Hb2 & Hb3 & Hb4) Hab m. unfold block_of, covers, block_end in *. simpl in *.
  split; [split_and!; [done|done|lia|lia]|intros x; lia].
Qed.

(** The merge keeps coverage and order, and stops with one block or at a gap. *)
Lemma merge_loop_spec rest : forall last,
  Forall (block_of h i) (last :: rest) -> spaced (reverse (last :: rest)) ->
  exists l, @merge_loop E last rest = Ok l /\ Forall (block_of h i) l /\ spaced l /\
    (forall x, covered l x <-> covered (last :: rest) x) /\
    ((exists m, l = [m]) \/ exists pre a b, l = pre ++ [a; b] /\ block_end a < block_offset b).
Proof.
  induction rest as [|s rest IH]; intros last Hb Hs; cbn [merge_loop].
  - exists [last]. split_and!; [done|done|by rewrite reverse_singleton in Hs|done|by left; exists last].
  - pose proof Hb as [Hl [Hsec Hrest]%Forall_cons]%Forall_cons.
    pose proof Hs as Hs0. rewrite !reverse_cons in Hs. apply spaced_snoc in Hs as [Hs1 Hlast].
    pose proof Hs1 as [Hs2 Hsecond]%spaced_snoc.
    assert (before s last) as Hsl by (apply Hlast; apply elem_of_app; right; by left).
    rewrite merge_before by done. cbn [mbind outcome_bind]. case_decide as He.
    + destruct (merge_block_of s last Hsec Hl He) as [Hm Hcov].
      destruct (IH (BlockMetadata_new h i (block_offset s) (block_length s + block_length last)))
        as (l & Hr & Hbl & Hsp & Hc & Hend); [by constructor| |].
      * rewrite reverse_cons. apply spaced_snoc. split; [done|]. exact Hsecond.
      * exists l. split_and!; [done|done|done| |done]. intros x. rewrite Hc, !covered_cons, Hcov. tauto.
    + exists (reverse (s :: rest) ++ [last]). rewrite <- reverse_cons. split_and!; [done| |done| |].
      * by rewrite reverse_Permutation.
      * intros x. apply covered_perm, reverse_Permutation.
      * right. exists (reverse rest), s, last. rewrite !reverse_cons, <- app_assoc. split; [done|].
        unfold before in Hsl. lia.
Qed.

Lemma merge_messages_spec l :
  Forall (block_of h i) l -> ForallOrdPairs apart l ->
  exists l', @merge_messages E l = Ok l' /\ Forall (block_of h i) l' /\ spaced l' /\
    (forall x, covered l' x <-> covered l x) /\
    (l' = [] \/ (exists m, l' = [m]) \/ exists pre a b, l' = pre ++ [a; b] /\ block_end a < block_offset b).
Proof.
  intros Hb Hp. unfold merge_messages. pose proof (sort_spaced h i l Hb Hp) as Hs.
  pose proof (sort_perm l) as Hperm. destruct (reverse (sort_by_offset l)) as [|last rest] eqn:Hrev.
  - apply (f_equal reverse) in Hrev. rewrite reverse_involutive in Hrev. rewrite Hrev in Hperm.
    apply Permutation_nil_l in Hperm. subst l. exists []. split_and!; [done|done|constructor|done|by left].
  - destruct (merge_loop_spec rest last) as (l' & Hr & Hbl & Hsp & Hc & Hend).
    + rewrite <- Hrev, reverse_Permutation, Hperm. done.
    + rewrite <- Hrev, reverse_involutive. done.
    + exists l'. split_and!; [done|done|done| |by right]. intros x. rewrite Hc, <- Hrev.
      rewrite (covered_perm _ (sort_by_offset l)) by apply reverse_Permutation. by apply covered_perm.
Qed.

(** A spaced list that covers exactly an interval and does not stop at a gap is
    the interval itself. *)
Lemma spaced_gap pre a b : Forall (block_of h i) (pre ++ [a; b]) -> spaced (pre ++ [a; b]) ->
  block_end a < block_offset b -> ~ covered (pre ++ [a; b]) (block_end a).
Proof.
  intros Hb Hs Hgap (m & Hm & Hc). change [a; b] with ([a] ++ [b]) in *. rewrite app_assoc in *.
  apply spaced_snoc in Hs as [Hs Hlast]. apply spaced_snoc in Hs as [Hs Hpre].
  unfold covers in Hc. rewrite !elem_of_app, !list_elem_of_singleton in Hm.
  destruct Hm as [[Hm| ->]| ->]; [|lia|lia].
  specialize (Hpre m Hm). unfold before in Hpre.
  assert (block_of h i a) as (_ & _ & Hlen & _).
  { rewrite Forall_forall in Hb. apply Hb. rewrite !elem_of_app, !list_elem_of_singleton. auto. }
  unfold block_end in *. lia.
Qed.

Lemma single_interval m e :
  block_of h i m -> 0 < e -> (forall x, covered [m] x <-> x < e) -> m = BlockMetadata_new h i 0 e.
Proof.
  intros (Hh & Hi & Hl & _) He Hc.
  assert (forall x, covers m x <-> x < e) as Hc'.
  { intros x. rewrite <- Hc, covered_cons. pose proof (covered_nil x). tauto. }
  unfold covers, block_end in Hc'. pose proof (proj2 (Hc' 0) He) as H0.
  pose proof (proj2 (Hc' (e - 1)) ltac:(lia)) as H1.
  pose proof (proj1 (Hc' (block_offset m + block_length m - 1)) ltac:(lia)) as H2.
  destruct m as [mh mi mo ml]. simpl in *. subst. unfold BlockMetadata_new. f_equal; lia.
Qed.

Lemma merge_complete l e :
  Forall (block_of h i) l -> ForallOrdPairs apart l -> 0 < e -> (forall x, covered l x <-> x < e) ->
  @merge_messages E l = Ok [BlockMetadata_new h i 0 e].
Proof.
  intros Hb Hp He Hc. destruct (merge_messages_spec l Hb Hp) as (l' & Hr & Hb' & Hs' & Hc' & Hend).
  rewrite Hr. f_equal. assert (forall x, covered l' x <-> x < e) as Hc2 by (intros x; by rewrite Hc').
  destruct Hend as [->|[[m ->]|(pre & a & b & -> & Hgap)]].
  - exfalso. apply (covered_nil 0), Hc2. done.
  - f_equal. apply Forall_cons in Hb' as [Hb' _]. exact (single_interval m e Hb' He Hc2).
  - exfalso. apply (spaced_gap pre a b Hb' Hs' Hgap). apply Hc2.
    assert (covered (pre ++ [a; b]) (block_offset b)) as Hcb%Hc2; [|lia].
    exists b. split; [apply elem_of_app; right; right; by left|].
    rewrite Forall_app, !Forall_cons in Hb'. destruct Hb' as (_ & _ & (_ & _ & Hlen & _) & _).
    unfold covers, block_end. lia.
Qed.
End merging.

(** ** A piece between blocks *)

Lemma ordpairs_snoc l b : ForallOrdPairs apart l -> (forall m, m ∈ l -> apart m b) -> ForallOrdPairs apart (l ++ [b]).
Proof.
  induction 1 as [|x l Hx _ IH]; intros Hb; simpl.
  - repeat constructor.
  - constructor.
    + apply Forall_app. split; [done|]. constructor; [apply Hb; by left|done].
    + apply IH. intros m Hm. apply Hb. by right.
Qed.

Lemma ordpairs_apart l k m b :
  ForallOrdPairs apart (l ++ k) -> m ∈ l -> b ∈ k -> forall x, covers b x -> ~ covers m x.
Proof.
  induction l as [|y l IH]; intros Hp Hm Hb; [by apply not_elem_of_nil in Hm|].
  inversion Hp as [|? ? Hy Hp']; subst. apply elem_of_cons in Hm as [->|Hm]; [|by apply IH].
  rewrite Forall_forall in Hy. specialize (Hy b ltac:(apply elem_of_app; by right)).
  intros x. unfold apart, covers in *. lia.
Qed.

Lemma spaced_apart l : spaced l -> ForallOrdPairs apart l.
Proof.
  induction 1 as [|x l _ IH Hx]; constructor; [|done]. eapply Forall_impl; [exact Hx|]. intros y Hy. by left.
Qed.

Lemma uncovered_apart h i m b :
  block_of h i m -> block_of h i b -> (forall x, covers b x -> ~ covers m x) -> apart m b.
Proof.
  intros (_ & _ & Hm & _) (_ & _ & Hb & _) Hd. unfold apart, covers, block_end in *.
  destruct (Nat.le_gt_cases (block_offset m) (block_offset b)) as [Hle|Hgt].
  - left. destruct (Nat.le_gt_cases (block_offset m + block_length m) (block_offset b)); [done|].
    exfalso. apply (Hd (block_offset b)); lia.
  - right. destruct (Nat.le_gt_cases (block_offset b + block_length b) (block_offset m)); [done|].
    exfalso. apply (Hd (block_offset m)); lia.
Qed.

Section quiet.
Context (P T L : nat) (h : ShaHash).
Hypothesis HT : 0 < T.
Hypothesis HL : L < P.

(** The length of piece [k]: the last one is shorter when the total is no
    multiple of the piece length. *)
Definition plen (k : nat) : nat := if decide (k = T - 1 /\ L <> 0) then L else P.

Lemma plen_pos k : 0 < plen k <= P.
Proof. clear HT. unfold plen. case_decide; lia. Qed.

(** Blocks of piece [k] that do not overlap, and a byte of it still missing. *)
Definition quiet (k : nat) (l : list BlockMetadata) : Prop :=
  Forall (block_of h k) l /\ ForallOrdPairs apart l /\ (forall x, covered l x -> x < plen k) /\
  exists x, x < plen k /\ ~ covered l x.

Lemma quiet_nil k : quiet k [].
Proof.
  clear HT. pose proof (plen_pos k). split_and!; [done|constructor| |].
  - intros x Hx. by apply covered_nil in Hx.
  - exists 0. split; [lia|apply covered_nil].
Qed.

Lemma quiet_incomplete {E} k l : quiet k l -> @piece_is_complete E T L P l = Ok false.
Proof.
  intros (Hb & _ & Hin & (y & Hy & Hny)). unfold piece_is_complete.
  destruct l as [|m l]; [done|]. cbn [lookup list_lookup]. rewrite decide_False by lia. f_equal.
  destruct l as [|m' l]; [|done]. rewrite Nat.eqb_refl, andb_true_l.
  apply Forall_cons in Hb as [(_ & Hk & Hl & _) _].
  assert (forall x, covers m x -> x < plen k) as Hin' by (intros x Hx; apply Hin, covered_cons; by left).
  assert (block_length m < plen k) as Hlt.
  { unfold covers, block_end in Hin'. pose proof (Hin' (block_offset m + block_length m - 1) ltac:(lia)).
    destruct (Nat.eq_dec (block_length m) (plen k)) as [Heq|]; [|lia].
    exfalso. apply Hny. apply covered_cons. left. unfold covers, block_end. lia. }
  pose proof (plen_pos k) as HP. unfold plen in Hlt, HP.
  apply orb_false_iff. split; [apply Nat.eqb_neq; case_decide; lia|].
  apply andb_false_iff. rewrite Hk. case_decide as Hd.
  - right. apply Nat.eqb_neq. lia.
  - destruct (Nat.eqb_spec k (T - 1)); [|by left]. right. apply Nat.eqb_neq. lia.
Qed.

Lemma merge_quiet {E} k l :
  quiet k l -> exists l', @merge_messages E l = Ok l' /\ quiet k l' /\ forall x, covered l' x <-> covered l x.
Proof.
  intros (Hb & Hp & Hin & (y & Hy & Hny)).
  destruct (merge_messages_spec (E := E) h k l Hb Hp) as (l' & Hr & Hb' & Hs' & Hc & _).
  exists l'. split; [done|]. split; [|done]. split_and!; [done|by apply spaced_apart| |].
  - intros x Hx%Hc. by apply Hin.
  - exists y. split; [done|]. by intros Hx%Hc.
Qed.

(** A new block of the piece: the list it joins is still free of overlap. *)
Lemma arrival_apart k l b :
  quiet k l -> block_of h k b -> (forall x, covers b x -> ~ covered l x) ->
  Forall (block_of h k) (l ++ [b]) /\ ForallOrdPairs apart (l ++ [b]).
Proof.
  intros (Hb & Hp & _) Hbl Hd. split; [apply Forall_app; auto|].
  apply ordpairs_snoc; [done|]. intros m Hm. rewrite Forall_forall in Hb.
  eapply uncovered_apart; [by apply Hb|done|]. intros x Hx Hm'. apply (Hd x Hx). by exists m.
Qed.

Lemma arrival_incomplete k l b :
  quiet k l -> block_of h k b -> (forall x, covers b x -> ~ covered l x) -> block_end b <= plen k ->
  (exists x, x < plen k /\ ~ covered (l ++ [b]) x) -> quiet k (l ++ [b]).
Proof.
  intros Hq Hb Hd Hend Hx. destruct (arrival_apart k l b Hq Hb Hd) as [H1 H2].
  split_and!; [done|done| |done]. intros x [Hc|Hc]%covered_app; [by apply Hq|].
  apply covered_cons in Hc as [Hc|Hc]; [unfold covers in Hc; lia|by apply covered_nil in Hc].
Qed.

Lemma arrival_complete {E} k l b :
  quiet k l -> block_of h k b -> (forall x, covers b x -> ~ covered l x) -> block_end b <= plen k ->
  (forall x, x < plen k -> covered (l ++ [b]) x) ->
  @merge_messages E (l ++ [b]) = Ok [BlockMetadata_new h k 0 (plen k)].
Proof.
  intros Hq Hb Hd Hend Hall. destruct (arrival_apart k l b Hq Hb Hd) as [H1 H2].
  apply merge_complete; [done|done|apply plen_pos|]. intros x. split; [|apply Hall].
  intros [Hc|Hc]%covered_app; [by apply Hq|].
  apply covered_cons in Hc as [Hc|Hc]; [unfold covers in Hc; lia|by apply covered_nil in Hc].
Qed.

Lemma whole_complete {E} k : k < T -> @piece_is_complete E T L P [BlockMetadata_new h k 0 (plen k)] = Ok true.
Proof.
  intros Hk. unfold piece_is_complete. cbn [lookup list_lookup]. rewrite decide_False by lia. f_equal.
  unfold BlockMetadata_new; cbn [length block_length piece_index]. rewrite Nat.eqb_refl, andb_true_l.
  unfold plen. case_decide as Hd.
  - apply orb_true_iff. right. rewrite andb_true_iff, !Nat.eqb_eq. lia.
  - by rewrite Nat.eqb_refl.
Qed.

(** ** The checker state *)

Definition all_quiet (p : gmap nat (list BlockMetadata)) : Prop := forall k l, p !! k = Some l -> quiet k l.

Lemma quiet_default k p : all_quiet p -> quiet k (default [] (p !! k)).
Proof. intros Hq. destruct (p !! k) as [l|] eqn:Hl; [by apply Hq|apply quiet_nil]. Qed.

Lemma merge_keys_spec {E} keys : forall (p : gmap nat (list BlockMetadata)),
  NoDup keys -> (forall k, k ∈ keys -> exists l', @merge_messages E (default [] (p !! k)) = Ok l') ->
  exists p', @merge_keys E keys p = Ok p' /\
    (forall k, k ∈ keys -> exists l', @merge_messages E (default [] (p !! k)) = Ok l' /\ p' !! k = Some l') /\
    (forall k, k ∉ keys -> p' !! k = p !! k).
Proof.
  induction keys as [|k keys IH]; intros p Hnd Hok; cbn [merge_keys].
  - exists p. split_and!; [done| |done]. intros k Hk. by apply not_elem_of_nil in Hk.
  - apply NoDup_cons in Hnd as [Hk Hnd]. destruct (Hok k) as [l' Hl']; [by left|].
    rewrite Hl'. cbn [mbind outcome_bind].
    assert (forall k2, k2 ∈ keys -> <[k:=l']> p !! k2 = p !! k2) as Hne.
    { intros k2 Hk2. apply lookup_insert_ne. intros ->. done. }
    destruct (IH (<[k := l']> p) Hnd) as (p' & Hr & Hin & Hout).
    { intros k2 Hk2. rewrite Hne by done. apply Hok. by right. }
    exists p'. split; [done|]. split.
    + intros k2 [->|Hk2]%elem_of_cons.
      * exists l'. split; [done|]. rewrite Hout by done. apply lookup_insert_eq.
      * destruct (Hin k2 Hk2) as (l2 & H1 & H2). rewrite Hne in H1 by done. by exists l2.
    + intros k2 [Hk2 Hk3]%not_elem_of_cons. rewrite Hout by done. by rewrite lookup_insert_ne.
Qed.

Section steps.
Context {W E B : Type} (callback : B -> BlockMetadata -> stM W E (bool * B)).

Lemma check_quiet keys : forall b w s,
  total_blocks s = T -> last_block_size s = L ->
  (forall k, k ∈ keys -> quiet k (default [] (pending_blocks s !! k))) ->
  check_keys P callback keys b (w, s) = (Ok b, (w, s)).
Proof.
  induction keys as [|k keys IH]; intros b w s HsT HsL Hq; cbn [check_keys]; [done|].
  erewrite stM_bind_ok by reflexivity. cbn [snd].
  rewrite HsT, HsL, (quiet_incomplete k) by (apply Hq; by left).
  erewrite stM_bind_ok by reflexivity. apply IH; [done|done|]. intros k2 Hk2. apply Hq. by right.
Qed.

(** One whole piece among quiet ones: one call, one new state. *)
Lemma check_one i keys b w s g b' w' :
  i < T -> total_blocks s = T -> last_block_size s = L -> NoDup keys -> i ∈ keys ->
  (forall k, k ∈ keys -> k <> i -> quiet k (default [] (pending_blocks s !! k))) ->
  pending_blocks s !! i = Some [BlockMetadata_new h i 0 (plen i)] -> Good i ∉ old_states s ->
  callback b (BlockMetadata_new h i 0 (plen i)) w = (Ok (g, b'), w') ->
  check_keys P callback keys b (w, s) = (Ok b', (w', push_state s i (if g : bool then Good i else Bad i))).
Proof.
  intros Hi HsT HsL Hnd Hin Hq Hp Hold Hcb. induction keys as [|k keys IH]; [by apply not_elem_of_nil in Hin|].
  apply NoDup_cons in Hnd as [Hk Hnd]. cbn [check_keys]. erewrite stM_bind_ok by reflexivity. cbn [snd].
  rewrite HsT, HsL. destruct (decide (k = i)) as [->|Hne].
  - rewrite Hp. cbn [default from_option id]. rewrite whole_complete by done.
    erewrite stM_bind_ok by reflexivity. cbn [lookup list_lookup]. erewrite stM_bind_ok by reflexivity.
    cbn [piece_index BlockMetadata_new]. rewrite decide_False by done.
    erewrite stM_bind_ok by (unfold lift_world; cbn [fst snd]; rewrite Hcb; reflexivity).
    cbv beta iota. erewrite stM_bind_ok by reflexivity. apply check_quiet; [done|done|]. cbn [pending_blocks push_state].
    intros k2 Hk2. assert (k2 <> i) by (intros ->; done). rewrite lookup_insert_ne by done.
    apply Hq; [by right|done].
  - rewrite (quiet_incomplete k) by (apply Hq; [by left|done]). erewrite stM_bind_ok by reflexivity.
    apply IH; [done| |].
    + by apply elem_of_cons in Hin as [->|?].
    + intros k2 Hk2 Hne2. apply Hq; [by right|done].
Qed.

(** ** A block arrives *)

Context (iter_order : gmap nat (list BlockMetadata) -> list nat).

(** What holds of the checker state between blocks. *)
Definition checker_ok (s : PieceCheckerState) : Prop :=
  total_blocks s = T /\ last_block_size s = L /\ all_quiet (pending_blocks s).

Definition pending_of (s : PieceCheckerState) (k : nat) : list BlockMetadata := default [] (pending_blocks s !! k).

Lemma run_merged s p' b (w : W) :
  @merge_keys E (iter_order (pending_blocks s)) (pending_blocks s) = Ok p' ->
  run_with_whole_pieces iter_order P callback b (w, s) =
  check_keys P callback (iter_order p') b (w, set_pending s p').
Proof.
  intros Hm. unfold run_with_whole_pieces. erewrite stM_bind_ok by reflexivity. cbn [snd].
  unfold merge_pieces. rewrite Hm. cbn [mbind outcome_bind].
  erewrite stM_bind_ok by reflexivity. erewrite stM_bind_ok by reflexivity. done.
Qed.

Lemma pending_add s b k :
  pending_of (add_pending_block s b) k =
  if decide (k = piece_index b) then pending_of s k ++ [b] else pending_of s k.
Proof.
  unfold pending_of, add_pending_block, set_pending. cbn [pending_blocks]. case_decide as Hk.
  - subst k. by rewrite lookup_insert_eq.
  - by rewrite lookup_insert_ne.
Qed.

(** After the merge of a state whose lists all merge. *)
Lemma merge_state s (Q : nat -> list BlockMetadata -> Prop) :
  visits_all iter_order ->
  (forall k, is_Some (pending_blocks s !! k) ->
     exists l', @merge_messages E (pending_of s k) = Ok l' /\ Q k l') ->
  exists p', @merge_keys E (iter_order (pending_blocks s)) (pending_blocks s) = Ok p' /\
    (forall k, is_Some (p' !! k) <-> is_Some (pending_blocks s !! k)) /\
    (forall k, is_Some (pending_blocks s !! k) -> Q k (default [] (p' !! k))) /\
    (forall k l', is_Some (pending_blocks s !! k) -> @merge_messages E (pending_of s k) = Ok l' -> p' !! k = Some l').
Proof.
  intros Hv Hok. destruct (Hv (pending_blocks s)) as [Hnd Hin].
  destruct (merge_keys_spec (E := E) (iter_order (pending_blocks s)) (pending_blocks s) Hnd) as (p' & Hr & Hp & Hout).
  { intros k Hk%Hin. destruct (Hok k Hk) as (l' & Hl & _). by exists l'. }
  assert (forall k l', is_Some (pending_blocks s !! k) -> @merge_messages E (pending_of s k) = Ok l' -> p' !! k = Some l') as Hat.
  { intros k l' Hk%Hin Hl. destruct (Hp k Hk) as (l2 & Hl2 & ->). unfold pending_of in Hl. congruence. }
  exists p'. split; [done|]. assert (forall k, is_Some (p' !! k) <-> is_Some (pending_blocks s !! k)) as Hdom.
  { intros k. destruct (decide (k ∈ iter_order (pending_blocks s))) as [Hk|Hk].
    - destruct (Hp k Hk) as (l & _ & ->). split; [intros _; by apply Hin|by eexists].
    - by rewrite Hout. }
  split; [done|]. split; [|done].
  intros k Hk. destruct (Hok k Hk) as (l' & Hm & HQ). by rewrite (Hat k l' Hk Hm).
Qed.

Definition fresh (s : PieceCheckerState) (b : BlockMetadata) : Prop :=
  forall x, covers b x -> ~ covered (pending_of s (piece_index b)) x.

(** The block fits: it belongs to the torrent and brings new bytes of its piece. *)
Definition fits (s : PieceCheckerState) (b : BlockMetadata) : Prop :=
  block_of h (piece_index b) b /\ fresh s b /\ block_end b <= plen (piece_index b).

Lemma arrival_step_incomplete s b (w : W) buf :
  visits_all iter_order -> checker_ok s -> fits s b ->
  (exists x, x < plen (piece_index b) /\ ~ covered (pending_of s (piece_index b) ++ [b]) x) ->
  exists s', run_with_whole_pieces iter_order P callback buf (w, add_pending_block s b) = (Ok buf, (w, s')) /\
    checker_ok s' /\ new_states s' = new_states s /\ old_states s' = old_states s /\
    forall k x, covered (pending_of s' k) x <-> covered (pending_of s k) x \/ (k = piece_index b /\ covers b x).
Proof.
  intros Hv (HsT & HsL & Hq) (Hb & Hf & Hend) Hx. set (s1 := add_pending_block s b).
  assert (forall k, quiet k (pending_of s1 k)) as Hq1.
  { intros k. unfold s1. rewrite pending_add. case_decide as Hk; [|by apply quiet_default]. subst k.
    apply arrival_incomplete; [by apply quiet_default|done|done|done|done]. }
  destruct (merge_state s1 (fun k l => quiet k l /\ forall x, covered l x <-> covered (pending_of s1 k) x) Hv)
    as (p' & Hm & Hdom & HQ & _).
  { intros k Hk. destruct (merge_quiet (E := E) k _ (Hq1 k)) as (l' & H1 & H2 & H3). by exists l'. }
  assert (forall k, quiet k (default [] (p' !! k)) /\
    forall x, covered (default [] (p' !! k)) x <-> covered (pending_of s1 k) x) as HQ'.
  { intros k. destruct (pending_blocks s1 !! k) as [l|] eqn:Hl; [apply HQ; by exists l|].
    assert (p' !! k = None) as -> by (apply eq_None_not_Some; rewrite Hdom, Hl; apply is_Some_None).
    unfold pending_of. rewrite Hl. cbn. split; [apply quiet_nil|done]. }
  exists (set_pending s1 p'). split; [|split; [|split; [done|split; [done|]]]].
  - rewrite (run_merged _ p') by exact Hm. apply check_quiet; [done|done|]. intros k _. apply HQ'.
  - split_and!; [done|done|]. intros k l Hl. specialize (HQ' k) as [HQ' _]. cbn in Hl. rewrite Hl in HQ'. done.
  - intros k x. unfold pending_of at 1. cbn [pending_blocks set_pending]. rewrite (proj2 (HQ' k)).
    unfold s1. rewrite pending_add. case_decide as Hk; [|naive_solver].
    rewrite covered_app, covered_cons. pose proof (covered_nil x). naive_solver.
Qed.

Lemma arrival_step_complete s b (w : W) buf g buf' w' :
  let i := piece_index b in
  visits_all iter_order -> checker_ok s -> fits s b -> i < T -> Good i ∉ old_states s ->
  (forall x, x < plen i -> covered (pending_of s i ++ [b]) x) ->
  callback buf (BlockMetadata_new h i 0 (plen i)) w = (Ok (g, buf'), w') ->
  exists s', run_with_whole_pieces iter_order P callback buf (w, add_pending_block s b) = (Ok buf', (w', s')) /\
    checker_ok s' /\ new_states s' = new_states s ++ [if g : bool then Good i else Bad i] /\
    old_states s' = old_states s /\ pending_of s' i = [] /\
    forall k x, k <> i -> covered (pending_of s' k) x <-> covered (pending_of s k) x.
Proof.
  intros i Hv (HsT & HsL & Hq) (Hb & Hf & Hend) Hi Hold Hall Hcb. set (s1 := add_pending_block s b).
  assert (pending_of s1 i = pending_of s i ++ [b]) as Hpi by (unfold s1; by rewrite pending_add, decide_True).
  assert (forall k, k <> i -> pending_of s1 k = pending_of s k) as Hpk
    by (intros k Hk; unfold s1; by rewrite pending_add, decide_False).
  assert (is_Some (pending_blocks s1 !! i)) as Hsi by (unfold s1; cbn; rewrite lookup_insert_eq; by eexists).
  pose proof (arrival_complete (E := E) i _ b (quiet_default i _ Hq) Hb Hf Hend Hall) as Hmi.
  fold (pending_of s i) in Hmi. rewrite <- Hpi in Hmi.
  destruct (merge_state s1 (fun k l => k <> i -> quiet k l /\ forall x, covered l x <-> covered (pending_of s k) x) Hv)
    as (p' & Hm & Hdom & HQ & Hat).
  { intros k Hk. destruct (decide (k = i)) as [->|Hne]; [by eexists|].
    rewrite Hpk by done. destruct (merge_quiet (E := E) k _ (quiet_default k _ Hq)) as (l' & H1 & H2 & H3). by exists l'. }
  assert (forall k, k <> i -> quiet k (default [] (p' !! k)) /\
    forall x, covered (default [] (p' !! k)) x <-> covered (pending_of s k) x) as HQ'.
  { intros k Hk. destruct (pending_blocks s1 !! k) as [l|] eqn:Hl; [apply HQ; [by exists l|done]|].
    assert (p' !! k = None) as -> by (apply eq_None_not_Some; rewrite Hdom, Hl; apply is_Some_None).
    rewrite <- Hpk by done. unfold pending_of. rewrite Hl. cbn. split; [apply quiet_nil|done]. }
  exists (push_state (set_pending s1 p') i (if g then Good i else Bad i)).
  split; [|split; [|split; [done|split; [done|split]]]].
  - rewrite (run_merged _ p') by exact Hm. destruct (Hv p') as [Hnd Hin].
    apply check_one; try done.
    + apply Hin, Hdom. done.
    + intros k _ Hk. by apply HQ'.
    + cbn. by apply Hat.
  - split_and!; [done|done|]. intros k l. cbn. destruct (decide (k = i)) as [->|Hne].
    + rewrite lookup_insert_eq. intros [= <-]. apply quiet_nil.
    + rewrite lookup_insert_ne by done. intros Hl. specialize (HQ' k Hne) as [HQ' _]. rewrite Hl in HQ'. done.
  - unfold pending_of. cbn. by rewrite lookup_insert_eq.
  - intros k x Hk. unfold pending_of at 1. cbn. rewrite lookup_insert_ne by done. by apply HQ'.
Qed.
End steps.
End quiet.

(** ** All blocks of a piece *)

Section feeding.
Context {W E B : Type} (iter_order : gmap nat (list BlockMetadata) -> list nat).
Context (P : nat) (callback : B -> BlockMetadata -> stM W E (bool * B)).

(** Blocks are added one after the other, with a check after each. *)
Fixpoint feed (bs : list BlockMetadata) (buf : B) : stM (W * PieceCheckerState) E B :=
  match bs with
  | [] => mret buf
  | b :: bs =>
      s ← get_state;
      _ ← put_state (add_pending_block s b);
      buf ← run_with_whole_pieces iter_order P callback buf;
      feed bs buf
  end.

Lemma feed_cons b bs buf buf1 w s ws :
  run_with_whole_pieces iter_order P callback buf (w, add_pending_block s b) = (Ok buf1, ws) ->
  feed (b :: bs) buf (w, s) = feed bs buf1 ws.
Proof.
  intros Hr. cbn [feed]. erewrite stM_bind_ok by reflexivity. erewrite stM_bind_ok by reflexivity.
  by erewrite stM_bind_ok by exact Hr.
Qed.

Lemma feed_snoc bs b buf buf1 w s w1 s1 :
  feed bs buf (w, s) = (Ok buf1, (w1, s1)) -> feed (bs ++ [b]) buf (w, s) = feed [b] buf1 (w1, s1).
Proof.
  revert buf w s. induction bs as [|b0 bs IH]; intros buf w s; [intros [= <- <- <-]; done|].
  assert (forall ds, feed (b0 :: ds) buf (w, s) =
    match run_with_whole_pieces iter_order P callback buf (w, add_pending_block s b0) with
    | (Ok buf2, ws) => feed ds buf2 ws
    | (Err e, ws) => (Err e, ws) | (Panic, ws) => (Panic, ws) | (NoFuel, ws) => (NoFuel, ws)
    end) as Hstep by reflexivity.
  rewrite <- app_comm_cons, !Hstep.
  destruct (run_with_whole_pieces _ _ _ _ _) as [[buf2|e| |] [w2 s2]]; [apply IH|discriminate..].
Qed.

Context (T L : nat) (h : ShaHash) (i : nat).
Hypothesis HT : i < T.
Hypothesis HL : L < P.
Hypothesis Hvisits : visits_all iter_order.

Lemma feed_incomplete bs s (w : W) buf rest b0 :
  checker_ok P T L h s -> pending_of s i = [] ->
  Forall (block_of h i) (bs ++ b0 :: rest) -> ForallOrdPairs apart (bs ++ b0 :: rest) ->
  (forall x, covered (bs ++ b0 :: rest) x -> x < plen P T L i) ->
  exists s', feed bs buf (w, s) = (Ok buf, (w, s')) /\ checker_ok P T L h s' /\
    new_states s' = new_states s /\ old_states s' = old_states s /\
    forall x, covered (pending_of s' i) x <-> covered bs x.
Proof.
  revert rest b0. induction bs as [|b bs IH] using rev_ind; intros rest b0 Hok Hnil Hb Hp Hin.
  - exists s. split_and!; [done|done|done|done|]. by rewrite Hnil.
  - rewrite <- app_assoc in Hb, Hp, Hin. cbn [app] in Hb, Hp, Hin.
    destruct (IH _ _ Hok Hnil Hb Hp Hin) as (s1 & Hr & Hok1 & Hn1 & Ho1 & Hc1).
    assert (block_of h i b /\ block_of h i b0) as [Hbb Hb0]
      by (rewrite Forall_app, !Forall_cons in Hb; naive_solver).
    assert (forall m x, m ∈ bs ++ [b] -> covers b0 x -> ~ covers m x) as Hap0.
    { change (b :: b0 :: rest) with ([b] ++ b0 :: rest) in Hp. rewrite app_assoc in Hp.
      intros m x Hm. apply (ordpairs_apart _ _ m b0 Hp Hm). by left. }
    assert (forall m x, m ∈ bs -> covers b x -> ~ covers m x) as Hap.
    { intros m x Hm. apply (ordpairs_apart _ _ m b Hp Hm). by left. }
    pose proof (proj1 (proj2 Hbb)) as Hpi.
    edestruct (arrival_step_incomplete P T L h) with (iter_order := iter_order) (callback := callback)
      (s := s1) (b := b) (w := w) (buf := buf) as (s2 & Hr2 & Hok2 & Hn2 & Ho2 & Hc2); try done; try lia.
    + split; [by rewrite Hpi|]. split.
      * intros x Hx. rewrite Hpi, Hc1. intros (m & Hm & Hcm). by apply (Hap m x).
      * rewrite Hpi. pose proof (Hin (block_end b - 1)) as Hlast. destruct Hbb as (_ & _ & Hlen & _).
        unfold block_end in *. enough (block_offset b + block_length b - 1 < plen P T L i) by lia.
        apply Hlast. exists b. split; [apply elem_of_app; right; left|]. unfold covers, block_end. lia.
    + rewrite Hpi. exists (block_offset b0). destruct Hb0 as (_ & _ & Hlen & _).
      assert (covers b0 (block_offset b0)) as Hcb by (unfold covers, block_end; lia). split.
      * apply Hin. exists b0. split; [|done]. apply elem_of_app. right. right. left.
      * rewrite covered_app, Hc1, <- covered_app. intros (m & Hm & Hcm). by apply (Hap0 m (block_offset b0)).
    + exists s2. split; [|split_and!; [done|by rewrite Hn2|by rewrite Ho2|]].
      * rewrite (feed_snoc _ _ _ _ _ _ _ _ Hr). by rewrite (feed_cons _ _ _ _ _ _ _ Hr2).
      * intros x. rewrite Hc2, Hc1, Hpi, covered_app, covered_cons. pose proof (covered_nil x). naive_solver.
Qed.
End feeding.

(** C26. A piece is checked exactly when its last block arrives: when blocks that
    do not overlap and together make up piece [i] are added in any order, with
    a check after each, the checks of all blocks but the last report nothing
    and do not touch the disk, and the check after the last one hashes the
    whole piece once, reports the verdict and forgets its blocks; the pending
    blocks of other pieces do not interfere. *)
Theorem piece_reported_once {W E B : Type} (iter_order : gmap nat (list BlockMetadata) -> list nat)
    (callback : B -> BlockMetadata -> stM W E (bool * B)) P T L h i bs s (w : W) buf g buf' w' :
  i < T -> L < P -> visits_all iter_order -> checker_ok P T L h s ->
  pending_of s i = [] -> Good i ∉ old_states s ->
  Forall (block_of h i) bs -> ForallOrdPairs apart bs ->
  (forall x, covered bs x <-> x < plen P T L i) ->
  callback buf (BlockMetadata_new h i 0 (plen P T L i)) w = (Ok (g, buf'), w') ->
  (forall bs1 b bs2, bs = bs1 ++ b :: bs2 ->
     exists s', feed iter_order P callback bs1 buf (w, s) = (Ok buf, (w, s')) /\ new_states s' = new_states s) /\
  exists s', feed iter_order P callback bs buf (w, s) = (Ok buf', (w', s')) /\
    new_states s' = new_states s ++ [if g : bool then Good i else Bad i] /\
    pending_of s' i = [] /\ checker_ok P T L h s'.
Proof.
  intros HT HL Hv Hok Hnil Hold Hb Hp Hc Hcb. split.
  - intros bs1 b bs2 ->.
    destruct (feed_incomplete iter_order P callback T L h i HT HL Hv bs1 s w buf bs2 b)
      as (s' & Hr & _ & Hn & _); [done|done|done|done|intros x; by rewrite Hc|]. by exists s'.
  - pose proof (plen_pos P T L HL i) as HP. destruct bs as [|b bs _] using rev_ind.
    { exfalso. apply (covered_nil 0), Hc. lia. }
    destruct (feed_incomplete iter_order P callback T L h i HT HL Hv bs s w buf [] b)
      as (s1 & Hr & Hok1 & Hn & Ho & Hc1); [done|done|done|done|intros x; by rewrite Hc|].
    assert (block_of h i b) as Hbb by (rewrite Forall_app, Forall_cons in Hb; naive_solver).
    pose proof (proj1 (proj2 Hbb)) as Hpi. subst i.
    destruct (arrival_step_complete P T L h ltac:(lia) HL callback iter_order s1 b w buf g buf' w')
      as (s2 & Hr2 & Hok2 & Hn2 & _ & Hp2 & _); [done|done| |done|by rewrite Ho| |done|].
    + split; [done|]. split.
      * intros x Hx. rewrite Hc1. intros (m & Hm & Hcm).
        by apply (ordpairs_apart bs [b] m b Hp Hm ltac:(by left) x Hx).
      * destruct Hbb as (_ & _ & Hlen & _). enough (block_end b - 1 < plen P T L (piece_index b)) by (unfold block_end in *; lia).
        apply Hc. exists b. split; [apply elem_of_app; right; left|]. unfold covers, block_end. lia.
    + intros x Hx%Hc. rewrite covered_app in Hx |- *. by rewrite Hc1.
    + exists s2. split; [|by rewrite Hn2, Hn].
      rewrite (feed_snoc _ _ _ _ _ _ _ _ _ _ _ Hr). by rewrite (feed_cons _ _ _ _ _ _ _ _ _ _ Hr2).
Qed.

(** Blocks of four bytes of piece 0, and a torrent of two pieces of twelve. *)
Definition quarter (k : nat) : BlockMetadata := with_default_hash 0 (4 * k) 4.

Lemma piece_reported_once_witness :
  let cb := fun (b : nat) (_ : BlockMetadata) (w : nat) => (@Ok string _ (true, b), S w) in
  exists s', feed map_keys 12 cb [quarter 2; quarter 0; quarter 1] 7
      (0, PieceCheckerState_new 2 0) = (Ok 7, (1, s')) /\ new_states s' = [Good 0].
Proof.
  intros cb.
  destruct (piece_reported_once map_keys cb 12 2 0 default_hash 0
    [quarter 2; quarter 0; quarter 1] (PieceCheckerState_new 2 0) 0 7 true 7 1) as [_ (s' & H1 & H2 & _)].
  - lia.
  - lia.
  - exact map_keys_visits_all.
  - split; [reflexivity|]. split; [reflexivity|]. intros k l. done.
  - reflexivity.
  - apply not_elem_of_empty.
  - repeat constructor.
  - repeat constructor; unfold apart, block_end; simpl; lia.
  - intros x. change (plen 12 2 0 0) with 12. rewrite !covered_cons. pose proof (covered_nil x).
    unfold covers, block_end; simpl. intuition lia.
  - reflexivity.
  - exists s'. split; [exact H1|exact H2].
Defined.

(** Merging never invents bytes, but it can miss a whole piece: the blocks of
    a piece of five, received in the order 0, 1, 2, 4, then 1 again, then 3,
    with a merge after each, cover every byte of the piece, yet the pending
    list is not one block, so the piece is not checked. *)
Theorem duplicate_hides_piece :
  let arrive := fun acc b => acc ≫= fun l => @merge_messages string (l ++ [b]) in
  exists l, foldl arrive (Ok []) [quarter 0; quarter 1; quarter 2; quarter 4; quarter 1; quarter 3] = Ok l /\
    (forall x, covered l x <-> x < 20) /\ @piece_is_complete string 1 0 20 l = Ok false.
Proof.
  intros arrive. exists [with_default_hash 0 0 12; quarter 1; with_default_hash 0 12 8].
  split; [reflexivity|]. split; [|reflexivity].
  intros x. rewrite !covered_cons. pose proof (covered_nil x). unfold covers, block_end; simpl. intuition lia.
Qed.
