(* ===== verification/PieceInit.v ===== *)
(** * Adding a torrent: file sizes and the initial check

    [PieceChecker::init_state] over any file system with the documented
    behaviour. *)

From stdpp Require Import prelude list gmap sets strings sorting.
From Stdlib Require Import ZArith Lia Strings.Byte.
From S2P Require Import Prelude Bytes Convert Sha Fs Metainfo PieceAccess PieceCheck PieceMerge.

Section init.
Context {F : FileSystem} {SP : FsSpec F} {SH : Sha1} (info_dict : Info).

(** The bytes of a piece on disk, and whether they have the recorded hash. *)
Definition piece_size (k : nat) : nat :=
  plen (piece_len info_dict) (length (pieces info_dict)) (total_bytes info_dict mod piece_len info_dict) k.

Definition piece_bytes (w : fs_world) (k : nat) : bytes :=
  take (piece_size k) (drop (k * piece_len info_dict) (torrent_bytes info_dict w)).

Definition piece_good (w : fs_world) (k : nat) : bool :=
  bool_decide (Some (sha_hash (from_bytes (piece_bytes w k))) = pieces info_dict !! k).

Definition verdict (w : fs_world) (k : nat) : PieceState := if piece_good w k then Good k else Bad k.

(** Hashes of twenty bytes, one for every piece of the files, sizes inside [u64]. *)
Definition info_wf : Prop :=
  0 < piece_len info_dict /\ (Z.of_nat (total_bytes info_dict) < 2 ^ 64)%Z /\
  Forall (fun h => length h = SHA_HASH_LEN) (pieces info_dict) /\
  length (pieces info_dict) =
    total_bytes info_dict / piece_len info_dict +
    (if decide (total_bytes info_dict mod piece_len info_dict = 0) then 0 else 1).

Lemma piece_inside k :
  info_wf -> k < length (pieces info_dict) ->
  0 < piece_size k <= piece_len info_dict /\ k * piece_len info_dict + piece_size k <= total_bytes info_dict.
Proof.
  intros (HP & _ & _ & HT) Hk. unfold piece_size, plen.
  pose proof (Nat.div_mod_eq (total_bytes info_dict) (piece_len info_dict)) as Hdm.
  pose proof (Nat.mod_upper_bound (total_bytes info_dict) (piece_len info_dict) ltac:(lia)) as Hm.
  set (q := total_bytes info_dict / piece_len info_dict) in *.
  set (r := total_bytes info_dict mod piece_len info_dict) in *.
  destruct (decide (r = 0)) as [Hr|Hr].
  - rewrite decide_False by lia. nia.
  - destruct (decide (k = q)) as [->|Hne].
    + rewrite decide_True by lia. nia.
    + rewrite decide_False by lia. assert (k < q) by lia. nia.
Qed.

Lemma piece_bytes_same w w' k :
  torrent_bytes info_dict w' = torrent_bytes info_dict w -> verdict w' k = verdict w k.
Proof. intros H. unfold verdict, piece_good, piece_bytes. by rewrite H. Qed.

(** The closure run for a whole piece. *)
Lemma check_piece_ok w buf h k :
  info_wf -> torrent_present info_dict w -> k < length (pieces info_dict) -> length buf = piece_len info_dict ->
  exists buf' w', check_piece info_dict buf (BlockMetadata_new h k 0 (piece_size k)) w = (Ok (piece_good w k, buf'), w') /\
    length buf' = piece_len info_dict /\ torrent_present info_dict w' /\
    torrent_bytes info_dict w' = torrent_bytes info_dict w /\ (forall q, contents w' q = contents w q).
Proof.
  intros Hwf Hw Hk Hbuf. destruct (piece_inside k Hwf Hk) as [Hsz Hin].
  destruct Hwf as (HP & Htot & Hall & _). destruct (lookup_lt_is_Some_2 _ _ Hk) as [e He].
  set (m := BlockMetadata_new h k 0 (piece_size k)).
  assert (block_start info_dict m = k * piece_len info_dict) as Hst by (unfold block_start, m; simpl; lia).
  assert (accessible info_dict m = piece_size k) as Hacc by (unfold accessible; rewrite Hst; simpl; lia).
  set (region := slice buf 0 (piece_size k)).
  assert (length region = piece_size k) as Hlr by (unfold region; rewrite length_slice; lia).
  destruct (read_piece_ok info_dict w region m Hw) as (w' & Hr & Hw' & Hsame & Hq); [rewrite Hst; lia|lia|].
  rewrite Hacc, Hst, (drop_ge region), app_nil_r in Hr by lia. fold (piece_bytes w k) in Hr.
  assert (length (piece_bytes w k) = piece_size k) as Hlb.
  { unfold piece_bytes. rewrite length_take, length_drop, length_torrent_bytes by done. lia. }
  exists (piece_bytes w k ++ drop (piece_size k) buf), w'. split; [|split; [rewrite length_app, length_drop; lia|done]].
  unfold check_piece. change (block_length m) with (piece_size k).
  rewrite slice_checked_eq by lia. erewrite stM_bind_ok by reflexivity. erewrite stM_bind_ok by exact Hr.
  rewrite slice_checked_eq by (rewrite length_app; lia). erewrite stM_bind_ok by reflexivity.
  rewrite slice_app_l by lia. replace (slice (piece_bytes w k) 0 (piece_size k)) with (piece_bytes w k)
    by (by rewrite <- Hlb, slice_all).
  change (piece_index m) with k. rewrite He. erewrite stM_bind_ok by reflexivity.
  rewrite from_hash_ok by (rewrite Forall_forall in Hall; apply Hall; by eapply list_elem_of_lookup_2).
  erewrite stM_bind_ok by reflexivity. unfold mret, stM_ret. do 3 f_equal.
  unfold piece_good. rewrite He. apply bool_decide_ext. destruct (from_bytes (piece_bytes w k)). cbn. naive_solver.
Qed.

(** ** The initial pending blocks *)

Lemma pending_fill n s :
  (forall k, pending_blocks s !! k = None) ->
  let s' := foldl (fun s k => add_pending_block s (with_default_hash k 0 (piece_len info_dict))) s (seq 0 n) in
  new_states s' = new_states s /\ old_states s' = old_states s /\ total_blocks s' = total_blocks s /\
  last_block_size s' = last_block_size s /\
  forall k, pending_blocks s' !! k =
    if decide (k < n) then Some [with_default_hash k 0 (piece_len info_dict)] else None.
Proof.
  intros Hnone. induction n as [|n IH]; cbv zeta in *.
  - split_and!; [done|done|done|done|]. intros k. rewrite decide_False by lia. apply Hnone.
  - rewrite seq_S, foldl_app. destruct IH as (H1 & H2 & H3 & H4 & H5). cbn [foldl Nat.add].
    set (s1 := foldl _ s (seq 0 n)) in *. unfold add_pending_block, set_pending. cbn.
    split_and!; [done|done|done|done|]. intros k. rewrite H5. destruct (decide (k = n)) as [->|Hne].
    + rewrite lookup_insert_eq, decide_False, decide_True by lia. done.
    + rewrite lookup_insert_ne by done. rewrite H5.
      destruct (decide (k < n)); [rewrite decide_True by lia|rewrite decide_False by lia]; done.
Qed.

Lemma fill_ok {E} s :
  info_wf -> (forall k, pending_blocks s !! k = None) ->
  exists s', @fill_checker_state info_dict E s = Ok s' /\ new_states s' = new_states s /\
    old_states s' = old_states s /\ total_blocks s' = total_blocks s /\ last_block_size s' = last_block_size s /\
    forall k, pending_blocks s' !! k =
      if decide (k < length (pieces info_dict)) then Some [with_default_hash k 0 (piece_size k)] else None.
Proof.
  intros (HP & Htot & _ & HT) Hnone. unfold fill_checker_state, last_piece_size, checked_u64.
  rewrite decide_True by done. cbn [mbind outcome_bind]. rewrite !decide_False by lia. cbn [mbind outcome_bind].
  destruct (pending_fill (total_bytes info_dict / piece_len info_dict) s Hnone) as (H1 & H2 & H3 & H4 & H5).
  cbv zeta in *. set (s1 := foldl _ s _) in *. unfold piece_size, plen.
  set (q := total_bytes info_dict / piece_len info_dict) in *.
  set (r := total_bytes info_dict mod piece_len info_dict) in *.
  destruct (decide (r = 0)) as [Hr|Hr].
  - rewrite decide_False by lia. exists s1. split_and!; [done|done|done|done|done|]. intros k. rewrite H5, HT, Nat.add_0_r.
    rewrite (decide_False (P := k = _ /\ r <> 0)) by lia. done.
  - rewrite decide_True by done. eexists. split; [done|]. cbn. split_and!; [done|done|done|done|].
    intros k. rewrite H5, HT. destruct (decide (k = q)) as [->|Hne].
    + rewrite lookup_insert_eq, decide_False by lia. rewrite (decide_True (P := q < q + 1)) by lia.
      rewrite decide_True by lia. done.
    + rewrite lookup_insert_ne, H5 by done. rewrite (decide_False (P := k = _ /\ r <> 0)) by lia.
      destruct (decide (k < q)); [rewrite decide_True by lia|rewrite decide_False by lia]; done.
Qed.

Lemma whole_piece_complete {E} k :
  info_wf -> k < length (pieces info_dict) ->
  @piece_is_complete E (length (pieces info_dict)) (total_bytes info_dict mod piece_len info_dict) (piece_len info_dict)
    [with_default_hash k 0 (piece_size k)] = Ok true.
Proof.
  intros (HP & _) Hk. pose proof (Nat.mod_upper_bound (total_bytes info_dict) (piece_len info_dict) ltac:(lia)).
  apply whole_complete; lia.
Qed.

Lemma check_all keys : forall buf w s,
  info_wf -> torrent_present info_dict w -> length buf = piece_len info_dict -> NoDup keys ->
  total_blocks s = length (pieces info_dict) ->
  last_block_size s = total_bytes info_dict mod piece_len info_dict -> old_states s = ∅ ->
  (forall k, k ∈ keys -> k < length (pieces info_dict) /\
     pending_blocks s !! k = Some [with_default_hash k 0 (piece_size k)]) ->
  exists buf' w' s', check_keys (piece_len info_dict) (check_piece info_dict) keys buf (w, s) = (Ok buf', (w', s')) /\
    torrent_present info_dict w' /\ torrent_bytes info_dict w' = torrent_bytes info_dict w /\
    (forall q, contents w' q = contents w q) /\
    new_states s' = new_states s ++ (verdict w <$> keys) /\ old_states s' = ∅ /\
    total_blocks s' = total_blocks s /\ last_block_size s' = last_block_size s /\
    forall k, pending_blocks s' !! k = if decide (k ∈ keys) then Some [] else pending_blocks s !! k.
Proof.
  induction keys as [|k keys IH]; intros buf w s Hwf Hw Hbuf Hnd HT HL Hold Hp.
  - exists buf, w, s. cbn. rewrite app_nil_r. split_and!; try done.
  - apply NoDup_cons in Hnd as [Hk Hnd]. destruct (Hp k) as [Hlt Hpk]; [by left|].
    cbn [check_keys]. erewrite stM_bind_ok by reflexivity. cbn [snd]. rewrite Hpk, HT, HL. cbn [default from_option id].
    rewrite whole_piece_complete by done.
    erewrite stM_bind_ok by reflexivity. cbn [lookup list_lookup]. erewrite stM_bind_ok by reflexivity.
    change (piece_index (with_default_hash k 0 (piece_size k))) with k.
    rewrite decide_False by (rewrite Hold; apply not_elem_of_empty).
    destruct (check_piece_ok w buf default_hash k Hwf Hw Hlt Hbuf) as (buf1 & w1 & Hc & Hb1 & Hw1 & Hf1 & Hq1).
    change (BlockMetadata_new default_hash k 0 (piece_size k)) with (with_default_hash k 0 (piece_size k)) in Hc.
    erewrite stM_bind_ok by (unfold lift_world; cbn [fst snd]; rewrite Hc; reflexivity).
    cbv beta iota. erewrite stM_bind_ok by reflexivity. cbn [fst].
    destruct (IH buf1 w1 (push_state s k (verdict w k)))
      as (buf' & w' & s' & Hr & Hw' & Hf' & Hq' & Hn & Ho & HT' & HL' & Hp'); try done.
    + intros k2 Hk2. destruct (Hp k2) as [H1 H2]; [by right|]. split; [done|]. cbn.
      rewrite lookup_insert_ne; [done|]. intros ->. done.
    + exists buf', w', s'. split; [exact Hr|].
      split; [done|]. split; [by rewrite Hf'|]. split; [intros q; by rewrite Hq'|].
      split; [|split; [exact Ho|split; [exact (eq_trans HT' HT)|split; [exact (eq_trans HL' HL)|]]]].
      * rewrite Hn. cbn. rewrite <- app_assoc. cbn. do 2 f_equal.
        apply list_fmap_ext. intros _ k2 _. by apply piece_bytes_same.
      * intros k2. rewrite Hp'. cbn. destruct (decide (k2 = k)) as [->|Hne].
        -- rewrite decide_False, (decide_True (P := k ∈ k :: keys)), lookup_insert_eq by (done || by left). done.
        -- rewrite lookup_insert_ne by done. apply decide_ext. rewrite elem_of_cons. naive_solver.
Qed.

(** ** File sizes *)

(** Missing and empty files are created, files of the right length are kept. *)
Definition acceptable (w : fs_world) (f : File) : Prop :=
  match contents w (path_in info_dict f) with
  | None => True
  | Some c => length c = 0 \/ length c = file_len f
  end.

Definition validated (w : fs_world) (f : File) : bytes :=
  match contents w (path_in info_dict f) with
  | Some c => if decide (length c = file_len f) then c else replicate (file_len f) x00
  | None => replicate (file_len f) x00
  end.

Lemma length_validated w f : length (validated w f) = file_len f.
Proof.
  unfold validated. destruct (contents _ _) as [c|]; [case_decide; [done|]|]; apply length_replicate.
Qed.

Lemma validate_open w f :
  fs_wf w -> exists h c w', open_file (path_in info_dict f) w = (Ok h, w') /\ path_of h = path_in info_dict f /\
    fs_wf w' /\ contents w' (path_in info_dict f) = Some c /\
    c = default [] (contents w (path_in info_dict f)) /\
    forall q, q <> path_in info_dict f -> contents w' q = contents w q.
Proof.
  intros Hw. destruct (contents w (path_in info_dict f)) as [c|] eqn:Hc.
  - destruct (open_ok w _ c Hw Hc) as (h & w' & Ho & Hh & Hw' & Hs). exists h, c, w'.
    split_and!; [done|done|done|by rewrite Hs|done|done].
  - destruct (open_new w _ Hw Hc) as (h & w' & Ho & Hh & Hw' & Hn & Hs). exists h, [], w'. done.
Qed.

Lemma st_map_err_ok {W E E' A} (g : E -> E') (m : stM W E A) w a w' :
  m w = (Ok a, w') -> st_map_err g m w = (Ok a, w').
Proof. intros H. unfold st_map_err. by rewrite H. Qed.

Lemma validate_file_ok w f :
  fs_wf w -> acceptable w f ->
  exists w', validate_file info_dict f w = (Ok (), w') /\ fs_wf w' /\
    contents w' (path_in info_dict f) = Some (validated w f) /\
    (forall q, q <> path_in info_dict f -> contents w' q = contents w q).
Proof.
  intros Hw Ha. destruct (validate_open w f Hw) as (h & c & w1 & Ho & Hh & Hw1 & Hc & Hdef & Hs).
  destruct (size_ok w1 h c Hw1) as (w2 & Hsz & Hw2 & Hs2); [by rewrite Hh|].
  unfold validate_file. fold (path_in info_dict f).
  erewrite stM_bind_ok by (apply st_map_err_ok; exact Ho).
  erewrite stM_bind_ok by (apply st_map_err_ok; exact Hsz).
  assert (validated w f = if decide (length c = file_len f) then c else replicate (file_len f) x00) as Hv.
  { unfold validated. subst c. destruct (contents w _) as [c|]; [done|]. cbn. case_decide as Hd; [|done]. by rewrite <- Hd. }
  rewrite Hv. destruct (Nat.eqb_spec (length c) (file_len f)) as [Heq|Hne]; cbn [negb andb].
  - exists w2. rewrite decide_True by done. split; [done|]. split; [done|]. split; [by rewrite Hs2|].
    intros q Hq. by rewrite Hs2, Hs.
  - assert (length c = 0) as H0.
    { unfold acceptable in Ha. subst c. destruct (contents w _); [cbn in *; lia|done]. }
    rewrite H0, Nat.eqb_refl. apply nil_length_inv in H0. subst c. rewrite H0 in *. cbn [length] in *.
    destruct (write_ok w2 h [] (file_len f - 1) [x00] Hw2) as (w3 & Hwr & Hw3 & Hat & Hs3); [by rewrite Hh, Hs2|].
    erewrite stM_bind_ok by (unfold expect; rewrite Hwr; reflexivity).
    exists w3. rewrite decide_False by done. rewrite Hh in Hat, Hs3. split; [done|]. split; [done|]. split.
    + rewrite Hat. unfold patch. rewrite take_nil, drop_nil, app_nil_r. cbn [app length]. f_equal.
      rewrite Nat.sub_0_r. change [x00] with (replicate 1 x00). rewrite <- replicate_add. f_equal. lia.
    + intros q Hq. by rewrite Hs3, Hs2, Hs.
Qed.

Lemma validate_files_ok fs : forall w,
  fs_wf w -> NoDup (path_in info_dict <$> fs) -> Forall (acceptable w) fs ->
  exists w', validate_files info_dict fs w = (Ok (), w') /\ fs_wf w' /\
    (forall f, f ∈ fs -> contents w' (path_in info_dict f) = Some (validated w f)) /\
    (forall q, q ∉ path_in info_dict <$> fs -> contents w' q = contents w q).
Proof.
  induction fs as [|f fs IH]; intros w Hw Hnd Ha; cbn [validate_files].
  - exists w. split_and!; [done|done| |done]. intros f Hf. by apply not_elem_of_nil in Hf.
  - rewrite fmap_cons in Hnd. apply NoDup_cons in Hnd as [Hnin Hnd]. apply Forall_cons in Ha as [Hf Ha].
    destruct (validate_file_ok w f Hw Hf) as (w1 & Hr & Hw1 & Hc & Hs).
    erewrite stM_bind_ok by exact Hr.
    assert (forall g, g ∈ fs -> contents w1 (path_in info_dict g) = contents w (path_in info_dict g)) as Hg.
    { intros g Hg. apply Hs. intros Heq. apply Hnin. rewrite <- Heq. by apply list_elem_of_fmap_2. }
    destruct (IH w1 Hw1 Hnd) as (w2 & Hr2 & Hw2 & Hin & Hout).
    { rewrite Forall_forall in Ha |- *. intros g Hgin. unfold acceptable. rewrite Hg by done. by apply Ha. }
    exists w2. split; [done|]. split; [done|]. split.
    + intros g [->|Hgin]%elem_of_cons; [rewrite Hout by done; exact Hc|].
      rewrite Hin by done. unfold validated. by rewrite Hg.
    + intros q. rewrite fmap_cons. intros [Hq1 Hq2]%not_elem_of_cons. by rewrite Hout, Hs.
Qed.

Lemma validated_present w w' :
  fs_wf w' -> NoDup (paths info_dict) ->
  (forall f, f ∈ files info_dict -> contents w' (path_in info_dict f) = Some (validated w f)) ->
  torrent_present info_dict w'.
Proof.
  intros Hw Hnd Hc. split_and!; [done| |done]. apply Forall_forall. intros f Hf.
  exists (validated w f). split; [by apply Hc|apply length_validated].
Qed.

Lemma merge_singles {E} keys : forall (p : gmap nat (list BlockMetadata)),
  (forall k, k ∈ keys -> exists m, p !! k = Some [m]) -> exists p', @merge_keys E keys p = Ok p' /\ forall k, p' !! k = p !! k.
Proof.
  induction keys as [|k keys IH]; intros p Hk; cbn [merge_keys]; [by exists p|].
  destruct (Hk k) as [m Hm]; [by left|]. rewrite Hm. cbn.
  assert (forall k2, <[k:=[m]]> p !! k2 = p !! k2) as Hsame.
  { intros k2. destruct (decide (k2 = k)) as [->|Hne]; [by rewrite lookup_insert_eq|by rewrite lookup_insert_ne]. }
  destruct (IH (<[k := [m]]> p)) as (p' & Hr & Hp').
  { intros k2 Hk2. rewrite Hsame. apply Hk. by right. }
  exists p'. split; [done|]. intros k2. by rewrite Hp'.
Qed.

Context (iter_order : gmap nat (list BlockMetadata) -> list nat).

Lemma iter_seq (p : gmap nat (list BlockMetadata)) n :
  visits_all iter_order -> (forall k, is_Some (p !! k) <-> k < n) -> iter_order p ≡ₚ seq 0 n.
Proof.
  intros Hv Hd. destruct (Hv p) as [Hnd Hin]. apply NoDup_Permutation; [done|apply NoDup_seq|].
  intros k. rewrite Hin, Hd, elem_of_seq. lia.
Qed.

Lemma calculate_diff_fresh w s :
  info_wf -> visits_all iter_order -> torrent_present info_dict w ->
  total_blocks s = length (pieces info_dict) ->
  last_block_size s = total_bytes info_dict mod piece_len info_dict -> old_states s = ∅ -> new_states s = [] ->
  (forall k, pending_blocks s !! k =
     if decide (k < length (pieces info_dict)) then Some [with_default_hash k 0 (piece_size k)] else None) ->
  exists w' s', calculate_diff iter_order info_dict (w, s) = (Ok (), (w', s')) /\
    torrent_present info_dict w' /\ (forall q, contents w' q = contents w q) /\
    new_states s' ≡ₚ (verdict w <$> seq 0 (length (pieces info_dict))) /\ old_states s' = ∅ /\
    total_blocks s' = total_blocks s /\ last_block_size s' = last_block_size s /\
    forall k l, pending_blocks s' !! k = Some l -> l = [].
Proof.
  intros Hwf Hv Hw HT HL Hold Hnew Hp.
  assert (forall k, is_Some (pending_blocks s !! k) <-> k < length (pieces info_dict)) as Hd.
  { intros k. rewrite Hp. case_decide as Hk; [|split; [intros [? ?]; done|done]]. split; [done|]. by eexists. }
  destruct (merge_singles (E := io_error) (iter_order (pending_blocks s)) (pending_blocks s)) as (p' & Hm & Hp').
  { intros k Hk%(Hv (pending_blocks s))%Hd. rewrite Hp, decide_True by done. by eexists. }
  pose proof (iter_seq p' (length (pieces info_dict)) Hv ltac:(intros k; by rewrite Hp')) as Hseq.
  destruct (check_all (iter_order p') (replicate (piece_len info_dict) x00) w (set_pending s p'))
    as (buf' & w' & s' & Hr & Hw' & _ & Hq & Hn & Ho & HT' & HL' & Hpe);
    [done|done|apply length_replicate|apply Hv|done|done|done| |].
  { intros k Hk. rewrite Hseq, elem_of_seq in Hk. cbn. rewrite Hp', Hp, decide_True by lia. split; [lia|done]. }
  exists w', s'. split.
  - unfold calculate_diff. erewrite stM_bind_ok; [reflexivity|].
    rewrite (run_merged _ _ _ _ p') by exact Hm. exact Hr.
  - split; [done|]. split; [done|]. split; [|split; [done|split; [done|split; [done|]]]].
    + rewrite Hn. cbn [new_states set_pending]. rewrite Hnew. cbn. by rewrite Hseq.
    + intros k l. rewrite Hpe. case_decide as Hk; [by intros [= <-]|]. cbn. rewrite Hp', Hp.
      rewrite Hseq, elem_of_seq in Hk. rewrite decide_False by lia. done.
Qed.
End init.

Section theorems.
Context {F : FileSystem} {SP : FsSpec F} {SH : Sha1} (info_dict : Info).
Context (iter_order : gmap nat (list BlockMetadata) -> list nat).

Lemma last_piece_size_ok {E} :
  info_wf info_dict -> @last_piece_size info_dict E = Ok (total_bytes info_dict mod piece_len info_dict).
Proof.
  intros (HP & Htot & _). unfold last_piece_size, checked_u64. rewrite decide_True by done.
  cbn [mbind outcome_bind]. by rewrite decide_False by lia.
Qed.

Lemma init_state_ok w :
  info_wf info_dict -> visits_all iter_order -> fs_wf w -> NoDup (paths info_dict) ->
  Forall (acceptable info_dict w) (files info_dict) ->
  exists s w', init_state iter_order info_dict w = (Ok s, w') /\ torrent_present info_dict w' /\
    (forall f, f ∈ files info_dict -> contents w' (path_in info_dict f) = Some (validated info_dict w f)) /\
    (forall q, q ∉ paths info_dict -> contents w' q = contents w q) /\
    new_states s ≡ₚ (verdict info_dict w' <$> seq 0 (length (pieces info_dict))) /\ old_states s = ∅ /\
    forall h, checker_ok (piece_len info_dict) (length (pieces info_dict))
      (total_bytes info_dict mod piece_len info_dict) h s.
Proof.
  intros Hwf Hv Hw Hnd Ha.
  destruct (validate_files_ok info_dict (files info_dict) w Hw Hnd Ha) as (w1 & Hr1 & Hw1 & Hin & Hout).
  pose proof (validated_present info_dict w w1 Hw1 Hnd Hin) as Hpres.
  set (s0 := PieceCheckerState_new (length (pieces info_dict)) (total_bytes info_dict mod piece_len info_dict)).
  destruct (fill_ok info_dict (E := TorrentError io_error) s0 Hwf) as (s1 & Hf & Hn1 & Ho1 & HT1 & HL1 & Hp1); [done|].
  destruct (calculate_diff_fresh info_dict iter_order w1 s1 Hwf Hv Hpres) as (w2 & s2 & Hr2 & Hw2 & Hq2 & Hn2 & Ho2 & HT2 & HL2 & Hp2);
    [by rewrite HT1|by rewrite HL1|by rewrite Ho1|by rewrite Hn1|done|].
  exists s2, w2. split; [|split; [done|split; [|split; [|split; [|split; [done|]]]]]].
  - unfold init_state. rewrite last_piece_size_ok by done. erewrite stM_bind_ok by reflexivity.
    erewrite stM_bind_ok by exact Hr1. fold s0. rewrite Hf. erewrite stM_bind_ok by reflexivity.
    unfold with_local_state. by rewrite Hr2.
  - intros f Hf'. by rewrite Hq2, Hin.
  - intros q Hq. by rewrite Hq2, Hout.
  - rewrite Hn2. apply Permutation_refl'. apply list_fmap_ext. intros _ k _. symmetry. apply piece_bytes_same.
    destruct Hpres as (_ & Hp & _). apply (present_same info_dict w1 w2 (files info_dict)); [intros; apply Hq2|done].
  - intros h. split; [by rewrite HT2, HT1|]. split; [by rewrite HL2, HL1|].
    intros k l Hl. rewrite (Hp2 k l Hl). apply quiet_nil, Nat.mod_upper_bound. destruct Hwf; lia.
Qed.

(** Adding a torrent: when every file is missing, empty or of the right
    length, [init_state] returns; missing and empty files become zero-filled
    files of their length, the others and every foreign file keep their
    contents; every piece is read once and reported good exactly when the bytes
    on disk have its hash; and no block is left pending. *)
Theorem init_state_spec w :
  info_wf info_dict -> visits_all iter_order -> fs_wf w -> NoDup (paths info_dict) ->
  Forall (acceptable info_dict w) (files info_dict) ->
  exists s w', init_state iter_order info_dict w = (Ok s, w') /\ torrent_present info_dict w' /\
    (forall f, f ∈ files info_dict -> contents w' (path_in info_dict f) = Some (validated info_dict w f)) /\
    (forall q, q ∉ paths info_dict -> contents w' q = contents w q) /\
    new_states s ≡ₚ (verdict info_dict w' <$> seq 0 (length (pieces info_dict))) /\ old_states s = ∅ /\
    forall h, checker_ok (piece_len info_dict) (length (pieces info_dict))
      (total_bytes info_dict mod piece_len info_dict) h s.
Proof. apply init_state_ok. Qed.

(** An existing file is never clobbered: when a file of the torrent exists with
    neither length zero nor its own, and the files listed before it are
    acceptable, [init_state] fails with its path and both sizes, and the file
    keeps its contents. *)
Theorem init_state_refuses w fs f rest c :
  info_wf info_dict -> fs_wf w -> NoDup (paths info_dict) ->
  files info_dict = fs ++ f :: rest -> Forall (acceptable info_dict w) fs ->
  contents w (path_in info_dict f) = Some c -> length c <> 0 -> length c <> file_len f ->
  exists w', init_state iter_order info_dict w =
      (Err (ExistingFileSizeCheck (path_in info_dict f) (file_len f) (length c)), w') /\
    contents w' (path_in info_dict f) = Some c.
Proof.
  intros Hwf Hw Hnd Hfs Ha Hc H0 Hne.
  assert (NoDup (path_in info_dict <$> fs) /\ path_in info_dict f ∉ path_in info_dict <$> fs) as [Hnd1 Hnin].
  { unfold paths in Hnd. rewrite Hfs, fmap_app in Hnd. apply NoDup_app in Hnd as (H1 & H2 & _). split; [done|].
    intros Hin. apply (H2 _ Hin). rewrite fmap_cons. by left. }
  destruct (validate_files_ok info_dict fs w Hw Hnd1 Ha) as (w1 & Hr1 & Hw1 & _ & Hout).
  assert (contents w1 (path_in info_dict f) = Some c) as Hc1 by (by rewrite Hout).
  destruct (open_ok w1 _ c Hw1 Hc1) as (h & w2 & Ho & Hh & Hw2 & Hs2).
  destruct (size_ok w2 h c Hw2) as (w3 & Hsz & Hw3 & Hs3); [by rewrite Hh, Hs2|].
  exists w3. split; [|by rewrite Hs3, Hs2]. unfold init_state. rewrite last_piece_size_ok by done.
  erewrite stM_bind_ok by reflexivity. unfold validate_files_sizes. rewrite Hfs.
  assert (validate_files info_dict (fs ++ f :: rest) w = validate_files info_dict (f :: rest) w1) as Hsplit.
  { clear -Hr1. revert w Hr1. induction fs as [|g fs IH]; intros w Hr1; [by injection Hr1 as ->|].
    cbn [validate_files app] in *. unfold mbind, stM_bind in *.
    destruct (validate_file info_dict g w) as [[[]| | |] w2]; try discriminate. by apply IH. }
  unfold mbind at 1, stM_bind at 1. rewrite Hsplit. cbn [validate_files].
  unfold validate_file at 1. unfold mbind, stM_bind. rewrite (st_map_err_ok _ _ _ _ _ Ho).
  rewrite (st_map_err_ok _ _ _ _ _ Hsz).
  destruct (Nat.eqb_spec (length c) (file_len f)) as [|_]; [done|].
  destruct (Nat.eqb_spec (length c) 0) as [|_]; [done|]. done.
Qed.
End theorems.

(** Files of five and four bytes in pieces of four; the second file is missing. *)
Definition init_info : Info :=
  mk_Info default_hash (files small_info) (replicate 3 (replicate 4 x01 ++ replicate 16 x00)) 4 None
    (file_directory small_info).

Definition init_world : @fs_world MemFs := {[ mk_path false [[x64]; [x61]] := replicate 5 x01 ]}.

Lemma init_info_wf : info_wf init_info.
Proof. repeat split; try (vm_compute; lia). repeat constructor. Qed.

Lemma init_paths : NoDup (paths init_info).
Proof.
  vm_compute. apply NoDup_cons. split; [|apply NoDup_singleton]. rewrite list_elem_of_singleton. discriminate.
Qed.

Lemma init_state_spec_witness :
  exists s w', @init_state map_keys MemFs Sha1_pad init_info init_world = (Ok s, w') /\
    new_states s ≡ₚ (@verdict MemFs MemFs_spec Sha1_pad init_info w' <$> seq 0 3).
Proof.
  destruct (@init_state_spec MemFs MemFs_spec Sha1_pad init_info map_keys init_world) as (s & w' & H1 & _ & _ & _ & H2 & _).
  - exact init_info_wf.
  - exact map_keys_visits_all.
  - exact I.
  - exact init_paths.
  - apply Forall_cons; split; [vm_compute; auto|]. apply Forall_cons; split; [exact I|constructor].
  - exists s, w'. split; [exact H1|exact H2].
Defined.

Lemma init_state_refuses_witness :
  exists w', @init_state map_keys MemFs Sha1_pad init_info {[ mk_path false [[x64]; [x62]] := [x07] ]} =
    (Err (ExistingFileSizeCheck (mk_path false [[x64]; [x62]]) 4 1), w').
Proof.
  destruct (@init_state_refuses MemFs MemFs_spec Sha1_pad init_info map_keys {[ mk_path false [[x64]; [x62]] := [x07] ]}
    [mk_File 5 (mk_path false [[x61]]) None] (mk_File 4 (mk_path false [[x62]]) None) [] [x07]) as (w' & H & _).
  - exact init_info_wf.
  - exact I.
  - exact init_paths.
  - reflexivity.
  - apply Forall_cons; split; [exact I|constructor].
  - vm_compute. reflexivity.
  - discriminate.
  - discriminate.
  - exists w'. exact H.
Defined.
