(* ===== verification/DiskTasks.v ===== *)
(** * [bip_disk::disk::tasks]: the context and the tasks of the disk manager

    A task runs on a worker thread with the torrents behind locks; each task
    is one step over the torrents, the file system and the messages sent so
    far.  The receiving end of the channel is taken to be alive. *)

From stdpp Require Import prelude list gmap sets strings.
From Stdlib Require Import ZArith Lia Strings.Byte.
From S2P Require Import Prelude Bytes Convert Sha Fs Metainfo PieceAccess PieceCheck PieceMerge PieceInit.

Inductive IDiskMessage : Type :=
| AddTorrent (metainfo : Metainfo)
| RemoveTorrent (hash : ShaHash)
| SyncTorrent (hash : ShaHash)
| LoadBlock (block : Block)
| ProcessBlock (block : Block).

Inductive BlockError (IoError : Type) : Type :=
| BlockIo (e : IoError)
| BlockNotFound (hash : ShaHash).
Arguments BlockIo {IoError} _.
Arguments BlockNotFound {IoError} _.

Inductive ODiskMessage (IoError : Type) : Type :=
| TorrentAdded (hash : ShaHash)
| TorrentRemoved (hash : ShaHash)
| TorrentSynced (hash : ShaHash)
| FoundGoodPiece (hash : ShaHash) (index : nat)
| FoundBadPiece (hash : ShaHash) (index : nat)
| BlockLoaded (block : Block)
| BlockProcessed (block : Block)
| TorrentErrorMsg (hash : ShaHash) (err : TorrentError IoError)
| LoadBlockError (block : Block) (err : BlockError IoError)
| ProcessBlockError (block : Block) (err : BlockError IoError).
Arguments TorrentAdded {IoError} _.
Arguments TorrentRemoved {IoError} _.
Arguments TorrentSynced {IoError} _.
Arguments FoundGoodPiece {IoError} _ _.
Arguments FoundBadPiece {IoError} _ _.
Arguments BlockLoaded {IoError} _.
Arguments BlockProcessed {IoError} _.
Arguments TorrentErrorMsg {IoError} _ _.
Arguments LoadBlockError {IoError} _ _.
Arguments ProcessBlockError {IoError} _ _.

Record MetainfoState : Type := mk_MetainfoState { file : Metainfo; state : PieceCheckerState }.
Definition MetainfoState_new := mk_MetainfoState.

Section tasks.
Context {F : FileSystem} {SH : Sha1} (iter_order : gmap nat (list BlockMetadata) -> list nat).

Record DiskManagerContext : Type := mk_DiskManagerContext {
  torrents : gmap ShaHash MetainfoState;
  fs : fs_world;
  out : list (ODiskMessage io_error);
}.

Definition DiskManagerContext_new (fs : fs_world) : DiskManagerContext := mk_DiskManagerContext ∅ fs [].

Definition send (msg : ODiskMessage io_error) {E} : stM DiskManagerContext E () :=
  fun c => (Ok (), mk_DiskManagerContext (torrents c) (fs c) (out c ++ [msg])).

Definition run_fs {E A} (m : stM fs_world E A) : stM DiskManagerContext E A :=
  fun c => let '(o, w) := m (fs c) in (o, mk_DiskManagerContext (torrents c) w (out c)).

(** ** The context *)

Definition insert_torrent {E} (file : Metainfo) (state : PieceCheckerState) : stM DiskManagerContext E bool :=
  fun c =>
    let hash := info_hash (mi_info file) in
    match torrents c !! hash with
    | Some _ => (Ok false, c)
    | None => (Ok true, mk_DiskManagerContext (<[hash := MetainfoState_new file state]> (torrents c)) (fs c) (out c))
    end.

(** The closure works on the file system and the checker state of the torrent
    and leaves a result in a variable of the caller; [None] when there is no
    such torrent.  A panic inside the closure is a panic of the task. *)
Definition update_torrent {E A} (hash : ShaHash)
    (call : Metainfo -> stM (fs_world * PieceCheckerState) io_error A) :
    stM DiskManagerContext E (option (outcome io_error A)) :=
  fun c =>
    match torrents c !! hash with
    | Some st =>
        let '(o, (w, s)) := call (file st) (fs c, state st) in
        let c := mk_DiskManagerContext (<[hash := mk_MetainfoState (file st) s]> (torrents c)) w (out c) in
        match o with
        | Panic => (Panic, c)
        | NoFuel => (NoFuel, c)
        | Ok _ | Err _ => (Ok (Some o), c)
        end
    | None => (Ok None, c)
    end.

Definition remove_torrent {E} (hash : ShaHash) : stM DiskManagerContext E bool :=
  fun c => (Ok (bool_decide (is_Some (torrents c !! hash))),
            mk_DiskManagerContext (delete hash (torrents c)) (fs c) (out c)).

(** ** Tasks *)

(** The message for a new piece state, if any. *)
Definition diff_message (hash : ShaHash) (ignore_bad : bool) (piece_state : PieceState) :
    option (ODiskMessage io_error) :=
  match piece_state, ignore_bad with
  | Good index, _ => Some (FoundGoodPiece hash index)
  | Bad index, false => Some (FoundBadPiece hash index)
  | Bad _, true => None
  end.

Fixpoint send_all {E} (msgs : list (ODiskMessage io_error)) : stM DiskManagerContext E () :=
  match msgs with
  | [] => mret ()
  | msg :: msgs => _ ← send msg; send_all msgs
  end.

Definition send_piece_diff {E} (checker_state : PieceCheckerState) (hash : ShaHash) (ignore_bad : bool) :
    stM DiskManagerContext E PieceCheckerState :=
  let '(states, checker_state) := run_with_diff checker_state in
  _ ← send_all (omap (diff_message hash ignore_bad) states);
  mret checker_state.

Definition execute_add_torrent (f : Metainfo) : stM DiskManagerContext (TorrentError io_error) () :=
  let hash := info_hash (mi_info f) in
  init_state ← run_fs (init_state iter_order (mi_info f));
  init_state ← send_piece_diff init_state hash true;
  inserted ← insert_torrent f init_state;
  lift (if inserted : bool then Ok () else Err (ExistingInfoHash hash)).

Definition execute_remove_torrent (hash : ShaHash) : stM DiskManagerContext (TorrentError io_error) () :=
  removed ← remove_torrent hash;
  lift (if removed : bool then Ok () else Err (TorrentNotFound hash)).

(** Every file is synced; each result replaces the one before. *)
Fixpoint sync_files (info : Info) (fs : list File) (sync_result : outcome io_error ()) :
    stM fs_world io_error () :=
  match fs with
  | [] => lift sync_result
  | f :: fs => fun w =>
      let '(sync_result, w) := sync_file (build_path (file_directory info) f) w in
      match sync_result with
      | Panic => (Panic, w)
      | NoFuel => (NoFuel, w)
      | _ => sync_files info fs sync_result w
      end
  end.

Definition execute_sync_torrent (hash : ShaHash) : stM DiskManagerContext (TorrentError io_error) () :=
  found ← update_torrent hash (fun metainfo_file =>
    lift_world (sync_files (mi_info metainfo_file) (files (mi_info metainfo_file)) (Ok ())));
  lift (match found with
        | Some sync_result => map_err TorrentIo sync_result
        | None => Err (TorrentNotFound hash)
        end).

(** The block is filled in place; its bytes after a failed read are not tracked. *)
Definition execute_load_block (block : Block) : stM DiskManagerContext (BlockError io_error) Block :=
  let hash := block_info_hash (metadata block) in
  found ← update_torrent hash (fun metainfo_file =>
    lift_world (read_piece (mi_info metainfo_file) (block_data block) (metadata block)));
  lift (match found with
        | Some access_result =>
            data ← map_err BlockIo access_result; Ok (mk_Block (metadata block) data)
        | None => Err (BlockNotFound hash)
        end).

(** Write, add the block and check; the diff is then sent whatever the result. *)
Definition process_call (block : Block) (metainfo_file : Metainfo) : stM (fs_world * PieceCheckerState) io_error () :=
  _ ← lift_world (write_piece (mi_info metainfo_file) (block_data block) (metadata block));
  checker_state ← get_state;
  _ ← put_state (add_pending_block checker_state (metadata block));
  calculate_diff iter_order (mi_info metainfo_file).

Definition send_diff_of {E} (hash : ShaHash) : stM DiskManagerContext E () :=
  fun c =>
    match torrents c !! hash with
    | Some st =>
        match send_piece_diff (E := E) (state st) (info_hash (mi_info (file st))) false c with
        | (Ok s, c) =>
            (Ok (), mk_DiskManagerContext (<[hash := mk_MetainfoState (file st) s]> (torrents c)) (fs c) (out c))
        | (Err e, c) => (Err e, c)
        | (Panic, c) => (Panic, c)
        | (NoFuel, c) => (NoFuel, c)
        end
    | None => (Ok (), c)
    end.

Definition execute_process_block (block : Block) : stM DiskManagerContext (BlockError io_error) () :=
  let hash := block_info_hash (metadata block) in
  found ← update_torrent hash (process_call block);
  _ ← send_diff_of hash;
  lift (match found with
        | Some block_result => map_err BlockIo block_result
        | None => Err (BlockNotFound hash)
        end).

(** A task's outcome as the message to send; a panic sends nothing. *)
Definition reply {E A} (m : stM DiskManagerContext E A) (ok : A -> ODiskMessage io_error)
    (err : E -> ODiskMessage io_error) : stM DiskManagerContext Empty_set () :=
  fun c =>
    match m c with
    | (Ok a, c) => send (ok a) c
    | (Err e, c) => send (err e) c
    | (Panic, c) => (Panic, c)
    | (NoFuel, c) => (NoFuel, c)
    end.

Definition execute_on_pool (msg : IDiskMessage) : stM DiskManagerContext Empty_set () :=
  match msg with
  | AddTorrent metainfo =>
      let hash := info_hash (mi_info metainfo) in
      reply (execute_add_torrent metainfo) (fun _ => TorrentAdded hash) (TorrentErrorMsg hash)
  | RemoveTorrent hash =>
      reply (execute_remove_torrent hash) (fun _ => TorrentRemoved hash) (TorrentErrorMsg hash)
  | SyncTorrent hash =>
      reply (execute_sync_torrent hash) (fun _ => TorrentSynced hash) (TorrentErrorMsg hash)
  | LoadBlock block =>
      reply (execute_load_block block) BlockLoaded (LoadBlockError block)
  | ProcessBlock block =>
      reply (execute_process_block block) (fun _ => BlockProcessed block) (ProcessBlockError block)
  end.
End tasks.
