(* ===== verification/DiskProofs.v ===== *)
(** * What the disk manager's tasks do *)

From stdpp Require Import prelude list gmap sets strings.
From Stdlib Require Import ZArith Lia Strings.Byte.
From S2P Require Import Prelude Bytes Convert Sha Fs Metainfo PieceAccess PieceCheck PieceMerge PieceInit DiskTasks.

Section process.
Context {F : FileSystem} {SP : FsSpec F} {SH : Sha1} (iter_order : gmap nat (list BlockMetadata) -> list nat).
Hypothesis Hvisits : visits_all iter_order.

Section torrent.
Context (mi : Metainfo).
Abbreviation info := (mi_info mi).
Abbreviation P := (piece_len info).
Abbreviation T := (length (pieces info)).
Abbreviation L := (total_bytes info mod piece_len info).
Abbreviation h := (info_hash info).

(** A torrent between tasks: files in place, blocks pending, nothing to report. *)
Definition torrent_ok (w : fs_world) (s : PieceCheckerState) : Prop :=
  info_wf info /\ torrent_present info w /\ checker_ok P T L h s /\ new_states s = [].

(** A block that belongs to a piece not yet good and brings new bytes. *)
Definition block_ok (s : PieceCheckerState) (b : Block) : Prop :=
  fits P T L h s (metadata b) /\ piece_index (metadata b) < T /\
  (Good (piece_index (metadata b)) ∉ old_states s) /\ block_length (metadata b) <= length (block_data b).

Definition piece_message (w : fs_world) (i : nat) : ODiskMessage io_error :=
  if piece_good info w i then FoundGoodPiece h i else FoundBadPiece h i.

Lemma last_lt : info_wf info -> L < P.
Proof. intros (HP & _). apply Nat.mod_upper_bound. lia. Qed.

Lemma block_write w s b :
  torrent_ok w s -> block_ok s b ->
  exists w', write_piece info (block_data b) (metadata b) w = (Ok (), w') /\ torrent_present info w' /\
    torrent_bytes info w' =
      overwrite (torrent_bytes info w) (block_start info (metadata b)) (take (block_length (metadata b)) (block_data b)).
Proof.
  intros (Hwf & Hw & _) ((_ & _ & Hend) & Hi & _ & Hlen).
  destruct (piece_inside info _ Hwf Hi) as [Hsz Hin]. unfold piece_size, block_end in *.
  assert (accessible info (metadata b) = block_length (metadata b)) as Hacc
    by (unfold accessible, block_start; lia).
  destruct (write_piece_ok info w (block_data b) (metadata b) Hw) as (w' & Hr & Hw' & Hb & _);
    [destruct Hwf as (_ & Htot & _); unfold block_start; lia|lia|].
  exists w'. by rewrite Hacc in Hb.
Qed.

Lemma process_call_incomplete w s b :
  torrent_ok w s -> block_ok s b ->
  (exists x, x < piece_size info (piece_index (metadata b)) /\
     ~ covered (pending_of s (piece_index (metadata b)) ++ [metadata b]) x) ->
  exists w' s', process_call iter_order b mi (w, s) = (Ok (), (w', s')) /\ torrent_ok w' s' /\
    old_states s' = old_states s /\
    torrent_bytes info w' =
      overwrite (torrent_bytes info w) (block_start info (metadata b)) (take (block_length (metadata b)) (block_data b)) /\
    forall k x, covered (pending_of s' k) x <->
      covered (pending_of s k) x \/ (k = piece_index (metadata b) /\ covers (metadata b) x).
Proof.
  intros Hok Hb Hx. destruct (block_write w s b Hok Hb) as (w1 & Hwr & Hw1 & Hbytes).
  destruct Hok as (Hwf & _ & Hck & Hnew). destruct Hb as (Hfits & Hi & _).
  edestruct (arrival_step_incomplete P T L h) with (callback := check_piece info) (s := s) (b := metadata b) (w := w1)
    (buf := replicate P x00) (iter_order := iter_order) as (s' & Hr & Hck' & Hn & Ho & Hc);
    [lia|by apply last_lt|done|done|done|exact Hx|].
  exists w1, s'. split; [|split; [|done]].
  - unfold process_call. erewrite stM_bind_ok by (unfold lift_world; cbn [fst snd]; rewrite Hwr; reflexivity).
    erewrite stM_bind_ok by reflexivity. erewrite stM_bind_ok by reflexivity.
    unfold calculate_diff. by erewrite stM_bind_ok by exact Hr.
  - split_and!; [done|done|done|by rewrite Hn].
Qed.

Lemma process_call_complete w s b :
  let i := piece_index (metadata b) in
  torrent_ok w s -> block_ok s b ->
  (forall x, x < piece_size info i -> covered (pending_of s i ++ [metadata b]) x) ->
  exists w' s', process_call iter_order b mi (w, s) = (Ok (), (w', s')) /\
    new_states s' = [verdict info w' i] /\ old_states s' = old_states s /\
    torrent_ok w' (run_with_diff s').2 /\ pending_of s' i = [] /\
    torrent_bytes info w' =
      overwrite (torrent_bytes info w) (block_start info (metadata b)) (take (block_length (metadata b)) (block_data b)).
Proof.
  intros i Hok Hb Hall. destruct (block_write w s b Hok Hb) as (w1 & Hwr & Hw1 & Hbytes).
  destruct Hok as (Hwf & _ & Hck & Hnew). destruct Hb as (Hfits & Hi & Hold & _).
  destruct (check_piece_ok info w1 (replicate P x00) h i Hwf Hw1 Hi) as (buf' & w2 & Hc & _ & Hw2 & Hsame & _);
    [apply length_replicate|].
  edestruct (arrival_step_complete P T L h) with (callback := check_piece info) (s := s) (b := metadata b) (w := w1)
    (buf := replicate P x00) (iter_order := iter_order) as (s' & Hr & Hck' & Hn & Ho & Hp & _);
    [lia|by apply last_lt|done|done|done|done|done|exact Hall|exact Hc|].
  exists w2, s'. split; [|split; [|split; [done|split; [|split; [done|by rewrite Hsame]]]]].
  - unfold process_call. erewrite stM_bind_ok by (unfold lift_world; cbn [fst snd]; rewrite Hwr; reflexivity).
    erewrite stM_bind_ok by reflexivity. erewrite stM_bind_ok by reflexivity.
    unfold calculate_diff. by erewrite stM_bind_ok by exact Hr.
  - rewrite Hn, Hnew. cbn. f_equal. symmetry. by apply piece_bytes_same.
  - split_and!; [done|done|exact Hck'|done].
Qed.

(** The torrent is registered under its hash with checker state [s]. *)
Definition registered (c : DiskManagerContext) (s : PieceCheckerState) : Prop :=
  torrents c !! h = Some (mk_MetainfoState mi s) /\ torrent_ok (fs c) s.

Lemma update_registered {E A} c s (call : Metainfo -> stM (fs_world * PieceCheckerState) io_error A) a w' s' :
  torrents c !! h = Some (mk_MetainfoState mi s) -> call mi (fs c, s) = (Ok a, (w', s')) ->
  @update_torrent F E A h call c =
  (Ok (Some (Ok a)), mk_DiskManagerContext (<[h := mk_MetainfoState mi s']> (torrents c)) w' (out c)).
Proof. intros Ht Hc. unfold update_torrent. rewrite Ht. cbn [file state]. by rewrite Hc. Qed.

Lemma send_all_ok {E} msgs : forall c : DiskManagerContext,
  @send_all F E msgs c = (Ok (), mk_DiskManagerContext (torrents c) (fs c) (out c ++ msgs)).
Proof.
  induction msgs as [|m msgs IH]; intros c; cbn [send_all]; [by destruct c as [? ? ?]; cbn; rewrite app_nil_r|].
  erewrite stM_bind_ok by reflexivity. rewrite IH. cbn. by rewrite <- app_assoc.
Qed.

Lemma send_diff_registered {E} c s :
  torrents c !! h = Some (mk_MetainfoState mi s) ->
  @send_diff_of F E h c = (Ok (), mk_DiskManagerContext (<[h := mk_MetainfoState mi (run_with_diff s).2]> (torrents c)) (fs c)
    (out c ++ omap (diff_message h false) (new_states s))).
Proof.
  intros Ht. unfold send_diff_of. rewrite Ht. cbn [file state]. unfold send_piece_diff, run_with_diff.
  erewrite stM_bind_ok by apply send_all_ok. done.
Qed.

Lemma process_block_runs c s b w' s' :
  torrents c !! h = Some (mk_MetainfoState mi s) -> block_info_hash (metadata b) = h ->
  process_call iter_order b mi (fs c, s) = (Ok (), (w', s')) ->
  execute_on_pool iter_order (ProcessBlock b) c =
  (Ok (), mk_DiskManagerContext (<[h := mk_MetainfoState mi (run_with_diff s').2]> (torrents c)) w'
    (out c ++ omap (diff_message h false) (new_states s') ++ [BlockProcessed b])).
Proof.
  intros Ht Hh Hc. cbn [execute_on_pool]. unfold reply, execute_process_block. rewrite Hh.
  erewrite stM_bind_ok by (apply (update_registered _ _ _ _ _ _ Ht Hc)).
  erewrite stM_bind_ok by (apply send_diff_registered; cbn; apply lookup_insert_eq).
  unfold lift, send. cbn [torrents fs out map_err]. by rewrite insert_insert_eq, <- app_assoc.
Qed.
End torrent.

(** C1. Processing a block: for a registered torrent whose files are present and a
    block that brings only new bytes (within its piece, disjoint from the blocks
    pending for it) of a piece not yet found good, the task returns, writes exactly the block's bytes, and
    answers with [BlockProcessed]; if bytes of the piece are still missing
    nothing else is sent; if the block completes the piece, one message before
    it says whether the bytes now on disk have the piece's hash, and the
    piece's pending blocks are forgotten; the torrent is then ready for the next
    block and other torrents are untouched.  A block that overlaps one pending is
    left out: it can keep a piece from being checked ([duplicate_hides_piece]). *)
Theorem process_block_spec mi c s b :
  let info := mi_info mi in let i := piece_index (metadata b) in
  registered mi c s -> block_ok mi s b -> block_info_hash (metadata b) = info_hash info ->
  exists c' s', execute_on_pool iter_order (ProcessBlock b) c = (Ok (), c') /\ registered mi c' s' /\
    torrent_bytes info (fs c') =
      overwrite (torrent_bytes info (fs c)) (block_start info (metadata b)) (take (block_length (metadata b)) (block_data b)) /\
    (forall h', h' <> info_hash info -> torrents c' !! h' = torrents c !! h') /\
    ((exists x, x < piece_size info i /\ ~ covered (pending_of s i ++ [metadata b]) x) ->
       out c' = out c ++ [BlockProcessed b] /\
       forall k x, covered (pending_of s' k) x <-> covered (pending_of s k) x \/ (k = i /\ covers (metadata b) x)) /\
    ((forall x, x < piece_size info i -> covered (pending_of s i ++ [metadata b]) x) ->
       out c' = out c ++ [piece_message mi (fs c') i; BlockProcessed b] /\ pending_of s' i = []).
Proof.
  intros info i [Ht Hok] Hb Hh.
  destruct (covered_all_or_not (pending_of s i ++ [metadata b]) (piece_size info i)) as [Hall|Hx].
  - destruct (process_call_complete mi (fs c) s b Hok Hb Hall) as (w' & s' & Hr & Hn & Ho & Hok' & Hp & Hbytes).
    eexists _, _. split; [apply (process_block_runs mi c s b w' s' Ht Hh Hr)|].
    split; [split; [apply lookup_insert_eq|exact Hok']|]. split; [exact Hbytes|].
    split; [intros h' Hh'; cbn; by rewrite lookup_insert_ne|]. split.
    + intros (x & Hx & Hnx). exfalso. by apply Hnx, Hall.
    + intros _. split; [|exact Hp]. cbn [out fs]. rewrite Hn. unfold piece_message, verdict.
      by destruct (piece_good _ w' _).
  - destruct (process_call_incomplete mi (fs c) s b Hok Hb Hx) as (w' & s' & Hr & Hok' & Ho & Hbytes & Hc).
    destruct Hok' as (Hwf & Hw' & Hck & Hn).
    eexists _, _. split; [apply (process_block_runs mi c s b w' s' Ht Hh Hr)|].
    split; [split; [apply lookup_insert_eq|done]|]. split; [exact Hbytes|].
    split; [intros h' Hh'; cbn; by rewrite lookup_insert_ne|]. split.
    + intros _. split; [|exact Hc]. cbn [out]. by rewrite Hn.
    + intros Hall. exfalso. destruct Hx as (x & Hx & Hnx). by apply Hnx, Hall.
Qed.

(** The indices of the good states, in order. *)
Definition good_index (st : PieceState) : option nat := match st with Good i => Some i | Bad _ => None end.

Lemma diff_good_only h (sts : list PieceState) :
  omap (diff_message (F := F) h true) sts = FoundGoodPiece h <$> omap good_index sts.
Proof. induction sts as [|[i|i] sts IH]; cbn; [done|f_equal; exact IH|exact IH]. Qed.

Lemma good_indices info w (ks : list nat) :
  omap good_index (verdict info w <$> ks) = filter (fun k => piece_good info w k = true) ks.
Proof.
  induction ks as [|k ks IH]; [done|]. rewrite fmap_cons, filter_cons. cbn [omap list_omap].
  unfold verdict at 1. destruct (piece_good info w k) eqn:Hg; cbn [good_index].
  - rewrite decide_True by done. f_equal. exact IH.
  - rewrite decide_False by done. exact IH.
Qed.

Lemma add_torrent_diff mi c s w' :
  init_state iter_order (mi_info mi) (fs c) = (Ok s, w') ->
  let h := info_hash (mi_info mi) in
  let msgs := out c ++ omap (diff_message h true) (new_states s) in
  execute_on_pool iter_order (AddTorrent mi) c =
  match torrents c !! h with
  | None => (Ok (), mk_DiskManagerContext (<[h := mk_MetainfoState mi (run_with_diff s).2]> (torrents c)) w'
                      (msgs ++ [TorrentAdded h]))
  | Some _ => (Ok (), mk_DiskManagerContext (torrents c) w' (msgs ++ [TorrentErrorMsg h (ExistingInfoHash h)]))
  end.
Proof.
  intros Hi h msgs. cbn [execute_on_pool]. unfold reply, execute_add_torrent.
  erewrite stM_bind_ok by (unfold run_fs; rewrite Hi; reflexivity).
  unfold send_piece_diff, run_with_diff at 1. cbv beta iota.
  erewrite stM_bind_ok by (erewrite stM_bind_ok by apply send_all_ok; reflexivity).
  cbn [torrents fs out]. unfold insert_torrent at 1, mbind, stM_bind. cbn [torrents fs out].
  fold h. by destruct (torrents c !! h).
Qed.

(** Adding a torrent whose files are missing, empty or of the right length:
    the task first sends [FoundGoodPiece] for exactly the pieces whose bytes on
    disk have their hash, each once; then, if the hash was not yet registered,
    it registers the torrent ready for blocks and sends [TorrentAdded], and
    otherwise leaves the registered torrents alone and sends the error. *)
Theorem add_torrent_spec mi c :
  let info := mi_info mi in let h := info_hash info in
  info_wf info -> fs_wf (fs c) -> NoDup (paths info) -> Forall (acceptable info (fs c)) (files info) ->
  exists c' good, execute_on_pool iter_order (AddTorrent mi) c = (Ok (), c') /\
    good ≡ₚ filter (fun k => piece_good info (fs c') k = true) (seq 0 (length (pieces info))) /\
    (torrents c !! h = None ->
       out c' = out c ++ (FoundGoodPiece h <$> good) ++ [TorrentAdded h] /\ exists s, registered mi c' s) /\
    (is_Some (torrents c !! h) ->
       out c' = out c ++ (FoundGoodPiece h <$> good) ++ [TorrentErrorMsg h (ExistingInfoHash h)] /\
       torrents c' = torrents c).
Proof.
  intros info h Hwf Hw Hnd Ha.
  destruct (init_state_ok info iter_order (fs c) Hwf Hvisits Hw Hnd Ha)
    as (s & w' & Hi & Hpres & _ & _ & Hn & _ & Hck).
  pose proof (add_torrent_diff mi c s w' Hi) as Hrun. cbv zeta in Hrun.
  rewrite diff_good_only in Hrun. fold info h in Hrun.
  assert (omap good_index (new_states s) ≡ₚ
    filter (fun k => piece_good info w' k = true) (seq 0 (length (pieces info)))) as Hgood
    by (rewrite Hn, good_indices; done).
  destruct (torrents c !! h) as [st|] eqn:Ht.
  - eexists _, _. split; [exact Hrun|]. split; [exact Hgood|]. split; [done|].
    intros _. cbn [out torrents]. by rewrite <- app_assoc.
  - eexists _, _. split; [exact Hrun|]. split; [exact Hgood|]. split; [|by intros [? ?]].
    intros _. cbn [out]. rewrite <- app_assoc. split; [done|]. exists (run_with_diff s).2.
    split; [apply lookup_insert_eq|]. split_and!; [done|done|exact (Hck h)|done].
Qed.
End process.

(** ** Syncing *)

Section sync.
Context {F : FileSystem} {SH : Sha1} (iter_order : gmap nat (list BlockMetadata) -> list nat).

Lemma sync_files_last info fs f : forall r w,
  (forall p w, returns (sync_file p w).1) ->
  exists w1, sync_files info (fs ++ [f]) r w = sync_file (build_path (file_directory info) f) w1.
Proof.
  induction fs as [|g fs IH]; intros r w Hret; cbn [sync_files app].
  - exists w. specialize (Hret (build_path (file_directory info) f) w).
    by destruct (sync_file _ w) as [[]?].
  - specialize (Hret (build_path (file_directory info) g) w) as Hg.
    destruct (sync_file _ w) as [[] w1]; try done; by apply IH.
Qed.

(** The reply to a sync is decided by the last file alone: whatever the file
    system answered for the files before it, the torrent is reported synced
    when the last file was synced, and only its error is ever reported. *)
Theorem sync_reports_last_file mi c s fs f :
  let info := mi_info mi in let h := info_hash info in
  torrents c !! h = Some (mk_MetainfoState mi s) -> files info = fs ++ [f] ->
  (forall p w, returns (sync_file p w).1) ->
  exists w1, let '(o, w2) := sync_file (build_path (file_directory info) f) w1 in
    exists c', execute_on_pool iter_order (SyncTorrent h) c = (Ok (), c') /\
      DiskTasks.fs c' = w2 /\
      out c' = out c ++ [match o with Err e => TorrentErrorMsg h (TorrentIo e) | _ => TorrentSynced h end].
Proof.
  intros info h Ht Hf Hret. destruct (sync_files_last info fs f (Ok ()) (DiskTasks.fs c) Hret) as [w1 Hs].
  exists w1. specialize (Hret (build_path (file_directory info) f) w1).
  destruct (sync_file _ w1) as [o w2] eqn:Ho. cbn [fst] in Hret.
  cbn [execute_on_pool]. unfold reply, execute_sync_torrent, mbind, stM_bind, update_torrent. rewrite Ht. cbn [file state].
  unfold lift_world at 1. cbn [fst snd]. fold info. rewrite Hf, Hs.
  destruct o; try done; (eexists; split; [reflexivity|]; done).
Qed.
End sync.

(** ** Concrete runs *)

Definition init_metainfo : Metainfo := mk_Metainfo None None None None None None init_info.

Definition init_context : @DiskManagerContext MemFs :=
  mk_DiskManagerContext {[ default_hash := mk_MetainfoState init_metainfo (PieceCheckerState_new 3 1) ]} small_world [].

Definition half_block : Block := mk_Block (with_default_hash 1 0 2) [x0a; x0b].

Lemma process_block_spec_witness :
  exists c' s', @execute_on_pool MemFs Sha1_pad map_keys (ProcessBlock half_block) init_context = (Ok (), c') /\
    registered (SP := MemFs_spec) init_metainfo c' s'.
Proof.
  destruct (@process_block_spec MemFs MemFs_spec Sha1_pad map_keys map_keys_visits_all init_metainfo init_context
    (PieceCheckerState_new 3 1) half_block) as (c' & s' & H1 & H2 & _).
  - split; [reflexivity|]. split; [exact init_info_wf|]. split; [exact small_present|]. split; [|reflexivity].
    split; [reflexivity|]. split; [reflexivity|]. intros k l Hl. discriminate Hl.
  - split.
    + split; [repeat split; vm_compute; lia|]. split; [|vm_compute; lia].
      intros x _ Hx. by apply covered_nil in Hx.
    + split; [vm_compute; lia|]. split; [apply not_elem_of_empty|vm_compute; lia].
  - reflexivity.
  - exists c', s'. split; [exact H1|exact H2].
Defined.

Lemma add_torrent_spec_witness :
  exists c' good, @execute_on_pool MemFs Sha1_pad map_keys (AddTorrent init_metainfo) (DiskManagerContext_new (F := MemFs) init_world) = (Ok (), c') /\
    out c' = (FoundGoodPiece default_hash <$> good) ++ [TorrentAdded default_hash].
Proof.
  destruct (@add_torrent_spec MemFs MemFs_spec Sha1_pad map_keys map_keys_visits_all init_metainfo
    (DiskManagerContext_new (F := MemFs) init_world)) as (c' & good & H1 & _ & H2 & _).
  - exact init_info_wf.
  - exact I.
  - exact init_paths.
  - apply Forall_cons; split; [vm_compute; auto|]. apply Forall_cons; split; [exact I|constructor].
  - exists c', good. split; [exact H1|]. exact (proj1 (H2 eq_refl)).
Defined.

(** A file system that cannot sync the first file of the example. *)
Definition FlakyFs : FileSystem := {|
  fs_world := gmap path bytes; fs_file := path; io_error := string;
  open_file := @open_file MemFs;
  sync_file p := fun w => (if decide (p = mk_path false [[x64]; [x61]]) then Err "sync"%string else Ok (), w);
  file_size := @file_size MemFs; read_file := @read_file MemFs; write_file := @write_file MemFs;
|}.

Lemma sync_reports_last_file_witness :
  exists c', @execute_on_pool FlakyFs Sha1_pad map_keys (SyncTorrent default_hash)
    (mk_DiskManagerContext (F := FlakyFs) {[ default_hash := mk_MetainfoState init_metainfo (PieceCheckerState_new 3 1) ]} ∅ []) = (Ok (), c') /\
    out c' = [TorrentSynced default_hash].
Proof.
  destruct (@sync_reports_last_file FlakyFs Sha1_pad map_keys init_metainfo
    (mk_DiskManagerContext (F := FlakyFs) {[ default_hash := mk_MetainfoState init_metainfo (PieceCheckerState_new 3 1) ]} ∅ [])
    (PieceCheckerState_new 3 1) [mk_File 5 (mk_path false [[x61]]) None] (mk_File 4 (mk_path false [[x62]]) None))
    as (w1 & H).
  - apply lookup_singleton_eq.
  - reflexivity.
  - intros p w. cbn. destruct (decide _); exact I.
  - destruct H as (c' & H1 & _ & H2). exists c'. split; [exact H1|exact H2].
Defined.
