(* ===== verification/DiskManager.v ===== *)
(** * [bip_disk::disk::manager]: the sink and stream of the disk manager

    Sink handles may be used from several threads, and the stream from another:
    every access to the shared counter and queue is one step of a transition
    system.  A worker runs a whole task in one step (its torrent is locked). *)

From stdpp Require Import prelude list gmap sets strings relations.
From Stdlib Require Import ZArith Lia Strings.Byte.
From S2P Require Import Prelude Bytes Convert Sha Fs Metainfo PieceAccess PieceCheck PieceMerge PieceInit DiskTasks.

(** The messages after which [DiskManagerStream::poll] calls [complete_work]. *)
Definition completes {IoError} (msg : ODiskMessage IoError) : bool :=
  match msg with
  | TorrentAdded _ | TorrentRemoved _ | TorrentSynced _ | BlockLoaded _ | BlockProcessed _ => true
  | _ => false
  end.

(** Where a call of [start_send] is: before the first or second [fetch_add],
    before the [fetch_sub] of a failed attempt, before the push of its task, or
    outside: ready to send, or parked after [NotReady]. *)
Inductive SinkState : Type :=
| Idle
| Trying (second : bool) (item : IDiskMessage)
| Undoing (second : bool) (item : IDiskMessage)
| Queueing (item : IDiskMessage)
| Parked (item : IDiskMessage).

Section manager.
Context {F : FileSystem} {SH : Sha1} (iter_order : gmap nat (list BlockMetadata) -> list nat).
Context (max_capacity : nat).

(** [context] holds the channel in its [out]; [lost] counts the tasks whose
    capacity was never given back and is not part of the program's state. *)
Record Manager : Type := mk_Manager {
  context : DiskManagerContext;
  cur_capacity : nat;
  task_queue : list nat;
  sinks : gmap nat SinkState;
  wake : gset nat;
  running : list IDiskMessage;
  lost : nat;
}.

Definition from_builder (fs : fs_world) (handles : list nat) : Manager :=
  mk_Manager (DiskManagerContext_new fs) 0 [] (list_to_map ((fun k => (k, Idle)) <$> handles)) ∅ [] 0.

Definition set_sink (m : Manager) (k : nat) (st : SinkState) : Manager :=
  mk_Manager (context m) (cur_capacity m) (task_queue m) (<[k := st]> (sinks m)) (wake m) (running m) (lost m).

(** [fetch_add] in [try_submit_work]: submitted, or the attempt is to be undone. *)
Definition try_submit (m : Manager) (k : nat) (second : bool) (item : IDiskMessage) : Manager :=
  if decide (cur_capacity m < max_capacity) then
    mk_Manager (context m) (cur_capacity m + 1) (task_queue m) (<[k := Idle]> (sinks m)) (wake m) (item :: running m) (lost m)
  else
    mk_Manager (context m) (cur_capacity m + 1) (task_queue m) (<[k := Undoing second item]> (sinks m)) (wake m) (running m) (lost m).

(** [fetch_sub] after a failed attempt; the second failure returns [NotReady]. *)
Definition undo_submit (m : Manager) (k : nat) (second : bool) (item : IDiskMessage) : Manager :=
  mk_Manager (context m) (cur_capacity m - 1) (task_queue m)
    (<[k := if second then Parked item else Queueing item]> (sinks m)) (wake m) (running m) (lost m).

Definition push_task (m : Manager) (k : nat) (item : IDiskMessage) : Manager :=
  mk_Manager (context m) (cur_capacity m) (task_queue m ++ [k]) (<[k := Trying true item]> (sinks m)) (wake m) (running m) (lost m).

(** A sender that was notified calls [start_send] again with its item. *)
Definition retry (m : Manager) (k : nat) (item : IDiskMessage) : Manager :=
  mk_Manager (context m) (cur_capacity m) (task_queue m) (<[k := Trying false item]> (sinks m))
    (wake m ∖ {[ k ]}) (running m) (lost m).

(** A worker runs a task to its end; a panic loses the reply. *)
Definition run_task (m : Manager) (l1 : list IDiskMessage) (msg : IDiskMessage) (l2 : list IDiskMessage) : Manager :=
  let '(o, c) := execute_on_pool iter_order msg (context m) in
  mk_Manager c (cur_capacity m) (task_queue m) (sinks m) (wake m) (l1 ++ l2)
    (match o with Ok _ => lost m | _ => lost m + 1 end).

Definition is_error {IoError} (msg : ODiskMessage IoError) : bool :=
  match msg with
  | TorrentErrorMsg _ _ | LoadBlockError _ _ | ProcessBlockError _ _ => true
  | _ => false
  end.

(** The stream takes the first message of the channel; after a completed task it
    empties the queue and notifies ([task.notify()]) every sender in it. *)
Definition poll (m : Manager) (msg : ODiskMessage io_error) (rest : list (ODiskMessage io_error)) : Manager :=
  let c := mk_DiskManagerContext (torrents (context m)) (fs (context m)) rest in
  if completes msg then
    mk_Manager c (cur_capacity m - 1) [] (sinks m) (list_to_set (task_queue m) ∪ wake m) (running m) (lost m)
  else
    mk_Manager c (cur_capacity m) (task_queue m) (sinks m) (wake m) (running m) (if is_error msg then lost m + 1 else lost m).

Inductive step : relation Manager :=
| step_start m k item : sinks m !! k = Some Idle -> step m (set_sink m k (Trying false item))
| step_try m k second item : sinks m !! k = Some (Trying second item) -> step m (try_submit m k second item)
| step_undo m k second item : sinks m !! k = Some (Undoing second item) -> step m (undo_submit m k second item)
| step_queue m k item : sinks m !! k = Some (Queueing item) -> step m (push_task m k item)
| step_retry m k item : sinks m !! k = Some (Parked item) -> k ∈ wake m -> step m (retry m k item)
| step_run m l1 msg l2 : running m = l1 ++ msg :: l2 -> step m (run_task m l1 msg l2)
| step_poll m msg rest : out (context m) = msg :: rest -> step m (poll m msg rest).

(** ** Counting *)

Definition final {IoError} (msg : ODiskMessage IoError) : bool := completes msg || is_error msg.

Definition finals (l : list (ODiskMessage io_error)) : nat := length (filter (fun msg => final msg = true) l).

Definition is_undoing (st : SinkState) : bool := match st with Undoing _ _ => true | _ => false end.
Definition undoing (ss : gmap nat SinkState) : nat := size (filter (fun p => is_undoing p.2 = true) ss).

(** Tasks submitted whose reply the stream has not taken yet. *)
Definition in_flight (m : Manager) : nat := length (running m) + finals (out (context m)).

Definition counted (m : Manager) : Prop := cur_capacity m = in_flight m + lost m + undoing (sinks m).

Lemma finals_app l k : finals (l ++ k) = finals l + finals k.
Proof. unfold finals. by rewrite filter_app, length_app. Qed.

(** The replies of a task: notes about pieces, then one final message. *)
Definition note {IoError} (msg : ODiskMessage IoError) : Prop := final msg = false.

Lemma finals_notes l : Forall note l -> finals l = 0.
Proof.
  unfold finals. induction 1 as [|msg l Hm _ IH]; [done|]. rewrite filter_cons. unfold note in Hm.
  rewrite decide_False by (by rewrite Hm). done.
Qed.

(** A computation that sends nothing but notes. *)
Definition notes_only {E A} (m : stM DiskManagerContext E A) : Prop :=
  forall c, exists l, Forall note l /\ out (m c).2 = out c ++ l.

Lemma notes_bind {E A B} (m : stM DiskManagerContext E A) (f : A -> stM DiskManagerContext E B) :
  notes_only m -> (forall a, notes_only (f a)) -> notes_only (m ≫= f).
Proof.
  intros Hm Hf c. destruct (Hm c) as (l & Hl & Hout). unfold mbind, stM_bind.
  destruct (m c) as [[a| | |] c1]; cbn [snd] in *; try by exists l.
  destruct (Hf a c1) as (l2 & Hl2 & Hout2). exists (l ++ l2). split; [by apply Forall_app|].
  by rewrite Hout2, Hout, <- app_assoc.
Qed.

Lemma notes_silent {E A} (m : stM DiskManagerContext E A) : (forall c, out (m c).2 = out c) -> notes_only m.
Proof. intros H c. exists []. by rewrite H, app_nil_r. Qed.

Lemma notes_lift {E A} (o : outcome E A) : notes_only (lift o).
Proof. by apply notes_silent. Qed.

Lemma notes_run_fs {E A} (m : stM fs_world E A) : notes_only (run_fs m).
Proof. apply notes_silent. intros c. unfold run_fs. by destruct (m _). Qed.

Lemma notes_update {E A} h (call : Metainfo -> stM (fs_world * PieceCheckerState) io_error A) :
  notes_only (update_torrent (E := E) h call).
Proof.
  apply notes_silent. intros c. unfold update_torrent. destruct (torrents c !! h) as [st|]; [|done].
  by destruct (call _ _) as [[] [? ?]].
Qed.

Lemma notes_insert {E} f s : notes_only (insert_torrent (E := E) f s).
Proof. apply notes_silent. intros c. unfold insert_torrent. by destruct (torrents c !! _). Qed.

Lemma notes_remove {E} h : notes_only (remove_torrent (E := E) h).
Proof. by apply notes_silent. Qed.

Lemma notes_send_all {E} l : Forall note l -> notes_only (send_all (E := E) l).
Proof.
  induction 1 as [|msg l Hm Hl IH]; cbn [send_all]; [by apply notes_silent|].
  apply notes_bind; [|done]. intros c. exists [msg]. split; [by constructor|done].
Qed.

Lemma notes_diff {E} s h b : notes_only (send_piece_diff (E := E) s h b).
Proof.
  unfold send_piece_diff. destruct (run_with_diff s) as [sts s']. apply notes_bind; [|by intros; apply notes_silent].
  apply notes_send_all, Forall_forall. intros msg (st & _ & Hst)%list_elem_of_omap. by destruct st, b; simplify_eq/=.
Qed.

Lemma notes_diff_of {E} h : notes_only (send_diff_of (E := E) h).
Proof.
  intros c. unfold send_diff_of. destruct (torrents c !! h) as [st|]; [|by exists []; rewrite app_nil_r].
  destruct (notes_diff (E := E) (state st) (info_hash (mi_info (file st))) false c) as (l & Hl & Hout).
  exists l. split; [done|]. by destruct (send_piece_diff _ _ _ c) as [[] ?].
Qed.

#[local] Hint Resolve notes_bind notes_lift notes_run_fs notes_update notes_insert notes_remove notes_diff notes_diff_of : rbt.

(** Every task that does not panic ends in one final message, after notes only. *)
Lemma reply_final {E A} (m : stM DiskManagerContext E A) ok err c o c' :
  notes_only m -> (forall a, final (ok a) = true) -> (forall e, final (err e) = true) ->
  reply m ok err c = (o, c') ->
  exists l, Forall note l /\
    match o with
    | Ok _ => exists msg, final msg = true /\ out c' = out c ++ l ++ [msg]
    | _ => out c' = out c ++ l
    end.
Proof.
  intros Hm Hok Herr. destruct (Hm c) as (l & Hl & Hout). unfold reply, send.
  destruct (m c) as [[a|e| |] c1]; cbn [snd] in Hout; intros [= <- <-]; exists l; (split; [done|]); try done.
  - exists (ok a). split; [done|]. cbn. by rewrite Hout, <- app_assoc.
  - exists (err e). split; [done|]. cbn. by rewrite Hout, <- app_assoc.
Qed.

Lemma task_replies msg c o c' :
  execute_on_pool iter_order msg c = (o, c') ->
  exists l, Forall note l /\
    match o with
    | Ok _ => exists msg, final msg = true /\ out c' = out c ++ l ++ [msg]
    | _ => out c' = out c ++ l
    end.
Proof.
  destruct msg; cbn [execute_on_pool]; apply reply_final; try done;
    unfold execute_add_torrent, execute_remove_torrent, execute_sync_torrent, execute_load_block, execute_process_block;
    eauto 8 with rbt.
Qed.

Lemma undoing_fresh ss k st :
  ss !! k = None -> undoing (<[k := st]> ss) = (if is_undoing st then 1 else 0) + undoing ss.
Proof.
  intros Hk. unfold undoing. rewrite map_filter_insert. cbn [snd].
  assert (filter (fun p : nat * SinkState => is_undoing p.2 = true) ss !! k = None) as Hf
    by (apply map_lookup_filter_None; by left).
  destruct (is_undoing st).
  - rewrite decide_True by done. by rewrite map_size_insert_None.
  - rewrite decide_False by done. by rewrite delete_id.
Qed.

Lemma undoing_insert ss k old st :
  ss !! k = Some old ->
  undoing (<[k := st]> ss) + (if is_undoing old then 1 else 0) = undoing ss + (if is_undoing st then 1 else 0).
Proof.
  intros Hk. rewrite <- (insert_delete_id ss k old Hk) at 2. rewrite <- (insert_delete_eq ss k st).
  rewrite !undoing_fresh by apply lookup_delete_eq. lia.
Qed.

Lemma undoing_none ss : (forall k st, ss !! k = Some st -> is_undoing st = false) -> undoing ss = 0.
Proof.
  intros H. unfold undoing. apply map_size_empty_iff, map_empty_filter_2. intros k st Hk.
  cbn. by rewrite (H k st Hk).
Qed.

Lemma counted_run m l1 msg l2 :
  running m = l1 ++ msg :: l2 -> counted m -> counted (run_task m l1 msg l2).
Proof.
  intros Hr Hc. unfold run_task. destruct (execute_on_pool iter_order msg (context m)) as [o c] eqn:Ho.
  apply task_replies in Ho as (l & Hl & Hout). unfold counted, in_flight in *. cbn.
  rewrite Hr in Hc. rewrite length_app in *. cbn [length] in Hc.
  pose proof (finals_notes l Hl) as H0. destruct o as [[]|e| |].
  - destruct Hout as (fin & Hfin & ->). rewrite !finals_app, H0. unfold finals at 2. rewrite filter_cons, decide_True by done.
    cbn. lia.
  - rewrite Hout, finals_app, H0. lia.
  - rewrite Hout, finals_app, H0. lia.
  - rewrite Hout, finals_app, H0. lia.
Qed.

Lemma finals_cons msg l : finals (msg :: l) = (if final msg then 1 else 0) + finals l.
Proof.
  unfold finals. rewrite filter_cons. destruct (final msg); [by rewrite decide_True|by rewrite decide_False].
Qed.

(** Every step keeps the count. *)
Lemma step_counted m m' : step m m' -> counted m -> counted m'.
Proof.
  intros Hs Hc. destruct Hs as [m k item Hk|m k b item Hk|m k b item Hk|m k item Hk|m k item Hk _|m l1 msg l2 Hr|m msg rest Ho];
    [..|by apply counted_run|]; unfold counted, in_flight in *.
  - pose proof (undoing_insert (sinks m) k _ (Trying false item) Hk). cbn in *. lia.
  - unfold try_submit. destruct (decide (cur_capacity m < max_capacity)); cbn.
    + pose proof (undoing_insert (sinks m) k _ Idle Hk). cbn in *. lia.
    + pose proof (undoing_insert (sinks m) k _ (Undoing b item) Hk). cbn in *. lia.
  - pose proof (undoing_insert (sinks m) k _ (if b then Parked item else Queueing item) Hk).
    destruct b; cbn in *; lia.
  - pose proof (undoing_insert (sinks m) k _ (Trying true item) Hk). cbn in *. lia.
  - pose proof (undoing_insert (sinks m) k _ (Trying false item) Hk). cbn in *. lia.
  - rewrite Ho, finals_cons in Hc. unfold poll. unfold final at 1 in Hc.
    destruct (completes msg); cbn [context out running lost sinks cur_capacity orb] in *; [lia|].
    destruct (is_error msg); cbn [context out running lost sinks cur_capacity] in *; lia.
Qed.

Lemma initial_counted fs handles : counted (from_builder fs handles).
Proof.
  unfold counted, in_flight. cbn. symmetry. apply undoing_none. intros k st Hk.
  apply elem_of_list_to_map_2, list_elem_of_fmap in Hk as (k' & [= -> ->] & _). done.
Qed.

Lemma reachable_counted fs handles m : rtc step (from_builder fs handles) m -> counted m.
Proof.
  intros Hr. remember (from_builder fs handles) as m0 eqn:Hm0.
  assert (counted m0) as Hc by (subst; apply initial_counted). clear Hm0.
  induction Hr as [|m0 m1 m2 Hs _ IH]; [done|]. apply IH. by eapply step_counted.
Qed.

Lemma lost_grows m m' : step m m' -> lost m <= lost m'.
Proof.
  intros Hs. destruct Hs as [m k item Hk|m k b item Hk|m k b item Hk|m k item Hk|m k item Hk _|m l1 msg l2 Hr|m msg rest Ho]; cbn; try lia.
  - unfold try_submit. by destruct (decide _).
  - unfold run_task. destruct (execute_on_pool _ _ _) as [[] ?]; cbn; lia.
  - unfold poll. destruct (completes msg); cbn; [lia|]. destruct (is_error msg); lia.
Qed.

Lemma in_flight_grows m m' : step m m' -> in_flight m < in_flight m' -> cur_capacity m < max_capacity /\ in_flight m' = in_flight m + 1.
Proof.
  intros Hs Hl. unfold in_flight in *.
  destruct Hs as [m k item Hk|m k b item Hk|m k b item Hk|m k item Hk|m k item Hk _|m l1 msg l2 Hr|m msg rest Ho]; cbn in *; try lia.
  - unfold try_submit in *. destruct (decide _); cbn in *; [|lia]. split; [done|lia].
  - unfold run_task in *. destruct (execute_on_pool _ _ _) as [o c] eqn:Hx. cbn in *.
    apply task_replies in Hx as (l & Hn & Hout). rewrite Hr, !length_app in Hl. cbn in Hl. exfalso.
    pose proof (finals_notes l Hn) as H0. destruct o as [[]| | |]; [destruct Hout as (fin & Hf & Hout)|..];
      rewrite Hout, !finals_app, H0, ?finals_cons in Hl; unfold finals in Hl; cbn in Hl; try lia.
    rewrite Hf in Hl. cbn in Hl. lia.
  - unfold poll in *. rewrite Ho, finals_cons in Hl. exfalso.
    destruct (completes msg), (final msg); cbn [context out running] in Hl; lia.
Qed.

(** ** Runs chosen step by step *)

Inductive action : Type :=
| Start (k : nat) (item : IDiskMessage)
| Advance (k : nat)
| Work
| Poll.

Definition act (m : Manager) (a : action) : option Manager :=
  match a with
  | Start k item => if sinks m !! k is Some Idle then Some (set_sink m k (Trying false item)) else None
  | Advance k =>
      match sinks m !! k with
      | Some (Trying second item) => Some (try_submit m k second item)
      | Some (Undoing second item) => Some (undo_submit m k second item)
      | Some (Queueing item) => Some (push_task m k item)
      | Some (Parked item) => if decide (k ∈ wake m) then Some (retry m k item) else None
      | _ => None
      end
  | Work => if running m is msg :: l then Some (run_task m [] msg l) else None
  | Poll => if out (context m) is msg :: rest then Some (poll m msg rest) else None
  end.

Fixpoint acts (m : Manager) (l : list action) : option Manager :=
  match l with
  | [] => Some m
  | a :: l => m ← act m a; acts m l
  end.

Lemma act_step m a m' : act m a = Some m' -> step m m'.
Proof.
  destruct a as [k item|k| |]; cbn; intros H.
  - destruct (sinks m !! k) as [[]|] eqn:Hk; simplify_eq. by constructor.
  - destruct (sinks m !! k) as [[|? ?|? ?|?|?]|] eqn:Hk; try discriminate.
    + injection H as <-. by apply step_try.
    + injection H as <-. by apply step_undo.
    + injection H as <-. by apply step_queue.
    + case_decide; simplify_eq. by apply step_retry.
  - destruct (running m) as [|msg l] eqn:Hr; simplify_eq. by apply (step_run m [] msg l).
  - destruct (out (context m)) as [|msg rest] eqn:Ho; simplify_eq. by apply step_poll.
Qed.

Lemma acts_steps l : forall m m', acts m l = Some m' -> rtc step m m'.
Proof.
  induction l as [|a l IH]; intros m m'; cbn; [by intros [= <-]|].
  intros (m1 & Ha & Hl)%bind_Some. eapply rtc_l; [by eapply act_step|by apply IH].
Qed.
End manager.

(** ** Properties *)

Section theorems.
Context {F : FileSystem} {SH : Sha1} (iter_order : gmap nat (list BlockMetadata) -> list nat).
Context (max_capacity : nat).

(** C13. The disk manager bounds its work: in every state reachable by any number
    of sink handles, workers and the stream in any interleaving, at most
    [max_capacity] submitted messages are unanswered, and the shared counter is
    the number of unanswered messages, of replies that never gave back their
    room and of attempts about to be undone. *)
Theorem manager_bounds_work w0 handles m :
  rtc (step iter_order max_capacity) (from_builder w0 handles) m ->
  in_flight m <= max_capacity /\ cur_capacity m = in_flight m + lost m + undoing (sinks m).
Proof.
  intros Hr. split; [|by eapply reachable_counted]. revert m Hr.
  apply (rtc_ind_r (fun m => in_flight m <= max_capacity)); [cbn; lia|].
  intros m m' Hr Hs IH. pose proof (reachable_counted iter_order max_capacity w0 handles m Hr) as Hc. unfold counted in Hc.
  destruct (Nat.le_gt_cases (in_flight m') (in_flight m)) as [Hle|Hgt]; [lia|].
  destruct (in_flight_grows iter_order max_capacity m m' Hs Hgt) as [Hlt ->]. lia.
Qed.

Lemma exhausted_stays w0 handles m m' :
  rtc (step iter_order max_capacity) (from_builder w0 handles) m -> max_capacity <= lost m ->
  rtc (step iter_order max_capacity) m m' -> max_capacity <= lost m' /\ max_capacity <= cur_capacity m'.
Proof.
  intros Hr Hl Hs. assert (max_capacity <= lost m') as Hl'.
  { induction Hs as [|m m1 m2 Hs1 _ IH]; [done|]. apply IH; [by eapply rtc_r|].
    pose proof (lost_grows iter_order max_capacity m m1 Hs1). lia. }
  split; [done|]. pose proof (reachable_counted iter_order max_capacity w0 handles m' ltac:(by etrans)) as Hc.
  unfold counted in Hc. lia.
Qed.

(** The state after [j] failed removals, each answered and received. *)
Definition after_errors (w0 : fs_world) (j : nat) : Manager :=
  mk_Manager (DiskManagerContext_new w0) j [] {[ 0 := Idle ]} ∅ [] j.

Lemma remove_unknown w0 hash :
  execute_on_pool iter_order (RemoveTorrent hash) (DiskManagerContext_new w0) =
  (Ok (), mk_DiskManagerContext ∅ w0 [TorrentErrorMsg hash (TorrentNotFound hash)]).
Proof.
  cbn [execute_on_pool]. unfold reply, execute_remove_torrent, remove_torrent, mbind, stM_bind. cbn [torrents DiskManagerContext_new].
  rewrite lookup_empty, bool_decide_eq_false_2 by apply is_Some_None. by rewrite delete_empty.
Qed.

Lemma error_round w0 (hash : ShaHash) j :
  j < max_capacity -> rtc (step iter_order max_capacity) (after_errors w0 j) (after_errors w0 (j + 1)).
Proof.
  intros Hj. apply (acts_steps iter_order max_capacity [Start 0 (RemoveTorrent hash); Advance 0; Work; Poll]).
  cbn [acts act]. unfold after_errors. cbn [sinks]. rewrite lookup_singleton_eq. cbn [mbind option_bind].
  unfold set_sink. cbn [sinks]. rewrite lookup_insert_eq. cbn [mbind option_bind].
  unfold try_submit. cbn [cur_capacity]. rewrite decide_True by done. cbn [running mbind option_bind].
  unfold run_task. cbn [context]. rewrite remove_unknown. cbn [mbind option_bind context out]. unfold poll.
  cbn [completes is_error context torrents fs cur_capacity task_queue sinks wake running lost app].
  by rewrite insert_insert_eq, insert_singleton_eq.
Qed.

(** Failed tasks use up the manager: the stream gives room back only for
    successful replies, so after [max_capacity] failed removals, each sent when
    the one before was answered and received, nothing is in flight, and from
    then on no attempt of any handle ever submits work again. *)
Theorem error_replies_exhaust_capacity w0 (hash : ShaHash) :
  exists m, rtc (step iter_order max_capacity) (from_builder w0 [0]) m /\ in_flight m = 0 /\ sinks m !! 0 = Some Idle /\
    forall m', rtc (step iter_order max_capacity) m m' ->
      forall k second item, try_submit max_capacity m' k second item =
        mk_Manager (context m') (cur_capacity m' + 1) (task_queue m') (<[k := Undoing second item]> (sinks m'))
          (wake m') (running m') (lost m').
Proof.
  assert (forall j, j <= max_capacity -> rtc (step iter_order max_capacity) (from_builder w0 [0]) (after_errors w0 j)) as Hreach.
  { intros j. induction j as [|j IH]; intros Hj; [done|].
    etrans; [apply IH; lia|]. rewrite <- Nat.add_1_r. apply (error_round w0 hash). lia. }
  exists (after_errors w0 max_capacity). split; [by apply Hreach|]. split; [done|]. split; [done|].
  intros m' Hm' k second item.
  destruct (exhausted_stays w0 [0] (after_errors w0 max_capacity) m') as [_ Hcur]; [by apply Hreach|done|done|].
  unfold try_submit. by rewrite decide_False by lia.
Qed.
End theorems.

(** A torrent without files, which can always be added. *)
Definition empty_metainfo : Metainfo :=
  mk_Metainfo None None None None None None (mk_Info default_hash [] [] 1 None None).

(** Handle 2 submits; handle 1 fails and is about to undo its attempt when the
    reply is received; handle 0 then fails twice because of that attempt, and
    handle 1 fails again because of the second attempt of handle 0. *)
Definition unlucky_run : list action :=
  [Start 2 (AddTorrent empty_metainfo); Advance 2;
   Start 1 (SyncTorrent default_hash); Advance 1;
   Work; Poll;
   Start 0 (SyncTorrent default_hash); Advance 0; Advance 0; Advance 0; Advance 0;
   Advance 1; Advance 1; Advance 1;
   Advance 0; Advance 1].

(** Wakeups can be lost: with room for one message and three handles, a run
    leads to a state in which nothing is in flight and the counter is zero,
    yet two handles are parked on [NotReady] with their tasks in the queue and
    no notification pending; only a new send through another handle can get
    the manager going again. *)
Theorem sinks_park_with_room :
  exists m, rtc (@step MemFs Sha1_pad map_keys 1) (from_builder (F := MemFs) ∅ [0; 1; 2]) m /\
    cur_capacity m = 0 /\ in_flight m = 0 /\ wake m = ∅ /\
    sinks m !! 0 = Some (Parked (SyncTorrent default_hash)) /\
    sinks m !! 1 = Some (Parked (SyncTorrent default_hash)) /\ sinks m !! 2 = Some Idle /\
    forall m', @step MemFs Sha1_pad map_keys 1 m m' -> exists item, m' = set_sink m 2 (Trying false item).
Proof.
  set (parked := Parked (SyncTorrent default_hash)).
  pose (ss := {[ 0 := parked; 1 := parked; 2 := Idle ]} : gmap nat SinkState).
  assert ((fun m => (cur_capacity m, running m, wake m, sinks m)) <$>
    acts (F := MemFs) (SH := Sha1_pad) map_keys 1 (from_builder (F := MemFs) ∅ [0; 1; 2]) unlucky_run =
    Some (0, [], ∅, ss)) as Hf by (vm_compute; reflexivity).
  assert ((fun m => out (context m)) <$>
    acts (F := MemFs) (SH := Sha1_pad) map_keys 1 (from_builder (F := MemFs) ∅ [0; 1; 2]) unlucky_run = Some []) as Ho
    by (vm_compute; reflexivity).
  destruct (acts _ _ _ _) as [m|] eqn:Hm; [|discriminate Hf]. cbn in Hf, Ho. injection Hf as H1 H2 H3 H4. injection Ho as H5.
  exists m. split; [by eapply acts_steps|]. unfold in_flight. rewrite H1, H2, H3, H4, H5.
  split_and!; try reflexivity. intros m' Hs.
  destruct Hs as [m k item Hk|m k b item Hk|m k b item Hk|m k item Hk|m k item Hk Hw|m l1 msg l2 Hr|m msg rest Hx];
    try (rewrite H4 in Hk; unfold ss in Hk; rewrite !lookup_insert_Some, lookup_singleton_Some in Hk; unfold parked in Hk).
  - assert (k = 2) as -> by naive_solver. by exists item.
  - naive_solver.
  - naive_solver.
  - naive_solver.
  - rewrite H3 in Hw. by apply not_elem_of_empty in Hw.
  - rewrite H2 in Hr. by destruct l1.
  - congruence.
Qed.

Lemma manager_bounds_work_witness :
  exists m, @acts MemFs Sha1_pad map_keys 1 (from_builder (F := MemFs) ∅ [0; 1; 2]) (take 5 unlucky_run) = Some m /\
    cur_capacity m = 2 /\ in_flight m <= 1.
Proof.
  assert (cur_capacity <$> @acts MemFs Sha1_pad map_keys 1 (from_builder (F := MemFs) ∅ [0; 1; 2]) (take 5 unlucky_run) = Some 2)
    as Hc by (vm_compute; reflexivity).
  destruct (@acts _ _ _ _ _ _) as [m|] eqn:Hm; [|discriminate Hc].
  exists m. split; [reflexivity|]. split; [by injection Hc|].
  exact (proj1 (@manager_bounds_work MemFs Sha1_pad map_keys 1 ∅ [0; 1; 2] m (acts_steps map_keys 1 _ _ _ Hm))).
Defined.
