(* ===== verification/Nom.v ===== *)
(** * The parsers of the [nom] crate, as the message formats use them

    [IResult] is the result type the sources match on.  The parsers and
    combinators of [nom] are an external crate: a class of operations, with
    its documented behaviour as the laws of a second class.  The laws do not fix
    the payload of an error nor the number of bytes an incomplete input lacks;
    they hold up to the equivalence that ignores both.  [nom_ref] meets them. *)

From stdpp Require Import prelude list gmap strings.
From Stdlib Require Import ZArith Lia Strings.Byte.
From S2P Require Import Prelude Bytes DecStr.

Inductive Needed : Type :=
| NeededUnknown
| NeededSize (n : nat).

(** What a call of a parser comes to; [Panicked] is a call that panics in one of
    the closures given to the combinators, [OutOfFuel] a loop cut off by the
    fuel of its model. *)
Inductive IResult (E A : Type) : Type :=
| Done (rest : bytes) (o : A)
| Error (e : E)
| Incomplete (needed : Needed)
| Panicked
| OutOfFuel.
Arguments Done {E A} rest o.
Arguments Error {E A} e.
Arguments Incomplete {E A} needed.
Arguments Panicked {E A}.
Arguments OutOfFuel {E A}.

#[export] Instance IResult_equiv E A : Equiv (IResult E A) := fun x y =>
  match x, y with
  | Done r a, Done s b => r = s /\ a = b
  | Error _, Error _ | Incomplete _, Incomplete _ | Panicked, Panicked | OutOfFuel, OutOfFuel => True
  | _, _ => False
  end.

#[export] Instance IResult_equivalence E A : Equivalence (≡@{IResult E A}).
Proof.
  split.
  - by intros [].
  - intros [] []; unfold equiv; simpl; intuition congruence.
  - intros [] [] []; unfold equiv; simpl; intuition congruence.
Qed.

Lemma equiv_Done {E A} (x : IResult E A) r a : x ≡ Done r a <-> x = Done r a.
Proof. split; [|by intros ->]. destruct x; unfold equiv; simpl; try done. by intros [-> ->]. Qed.

Definition is_Done {E A} (x : IResult E A) : bool := match x with Done _ _ => true | _ => false end.

#[export] Instance is_Done_proper E A : Proper ((≡) ==> (=)) (@is_Done E A).
Proof. by intros [] []. Qed.

(** Running a parser on what another one left. *)
Definition and_then {E A B} (x : IResult E A) (f : A -> bytes -> IResult E B) : IResult E B :=
  match x with
  | Done r a => f a r
  | Error e => Error e
  | Incomplete n => Incomplete n
  | Panicked => Panicked
  | OutOfFuel => OutOfFuel
  end.

#[export] Instance and_then_proper E A B :
  Proper ((≡) ==> pointwise_relation A (pointwise_relation bytes (≡)) ==> (≡)) (@and_then E A B).
Proof. intros [r a|e|n| |] [s b|e'|n'| |] H f g Hf; try by destruct H. destruct H as [-> ->]. apply Hf. Qed.

(** The second parser when the first one fails. *)
Definition or_else {E A} (x y : IResult E A) : IResult E A := match x with Error _ => y | _ => x end.

#[export] Instance or_else_proper E A : Proper ((≡) ==> (≡) ==> (≡)) (@or_else E A).
Proof. intros [r a|e|n| |] [s b|e'|n'| |] H y z Hy; by destruct H. Qed.

(** ** Operations *)

Class Nom : Type := {
  nom_error : Type;
  be_u8 : bytes -> IResult nom_error byte;
  be_u16 : bytes -> IResult nom_error Z;
  be_u32 : bytes -> IResult nom_error Z;
  be_u64 : bytes -> IResult nom_error Z;
  be_i32 : bytes -> IResult nom_error Z;
  be_i64 : bytes -> IResult nom_error Z;
  nom_take : nat -> bytes -> IResult nom_error bytes;
  nom_take_str : nat -> bytes -> IResult nom_error bytes;
  tag : bytes -> bytes -> IResult nom_error bytes;
  eof : bytes -> IResult nom_error bytes;
  count_fixed : forall {A}, nat -> (bytes -> IResult nom_error A) -> bytes -> IResult nom_error (list A);
  length_bytes : (bytes -> IResult nom_error nat) -> bytes -> IResult nom_error bytes;
  value : forall {A}, A -> bytes -> IResult nom_error A;
  nom_map : forall {A B}, (bytes -> IResult nom_error A) -> (A -> B) -> bytes -> IResult nom_error B;
  tuple : forall {A B}, (bytes -> IResult nom_error A) -> (bytes -> IResult nom_error B) -> bytes -> IResult nom_error (A * B);
  do_parse : forall {A B}, (bytes -> IResult nom_error A) -> (A -> bytes -> IResult nom_error B) ->
    bytes -> IResult nom_error B;
  opt : forall {A}, (bytes -> IResult nom_error A) -> bytes -> IResult nom_error (option A);
  alt : forall {A}, (bytes -> IResult nom_error A) -> (bytes -> IResult nom_error A) -> bytes -> IResult nom_error A;
  (** The arms of [switch!]: the parser an output selects, if any. *)
  switch : forall {A B}, (bytes -> IResult nom_error A) -> (A -> option (bytes -> IResult nom_error B)) ->
    bytes -> IResult nom_error B;
}.

Abbreviation parser A := (bytes -> IResult nom_error A).

(** ** Documented behaviour *)

Definition incomplete {E A} : IResult E A := Incomplete NeededUnknown.

Definition word_of {E} (n : nat) (f : bytes -> Z) (i : bytes) : IResult E Z :=
  if decide (n <= length i) then Done (drop n i) (f (take n i)) else incomplete.

Fixpoint count_spec {E A} (n : nat) (p : bytes -> IResult E A) (i : bytes) : IResult E (list A) :=
  match n with
  | O => Done i []
  | S n => and_then (p i) (fun a r => and_then (count_spec n p r) (fun l r' => Done r' (a :: l)))
  end.

Class NomSpec (N : Nom) : Prop := {
  some_error : exists e : nom_error, True;
  be_u8_spec i : be_u8 i ≡ match i with b :: r => Done r b | [] => incomplete end;
  be_u16_spec i : be_u16 i ≡ word_of 2 be_value i;
  be_u32_spec i : be_u32 i ≡ word_of 4 be_value i;
  be_u64_spec i : be_u64 i ≡ word_of 8 be_value i;
  be_i32_spec i : be_i32 i ≡ word_of 4 (fun b => as_signed 32 (be_value b)) i;
  be_i64_spec i : be_i64 i ≡ word_of 8 (fun b => as_signed 64 (be_value b)) i;
  take_spec n i : nom_take n i ≡ if decide (n <= length i) then Done (drop n i) (take n i) else incomplete;
  take_str_spec n i e : nom_take_str n i ≡
    and_then (nom_take n i) (fun s r => match from_utf8 s with Some s => Done r s | None => Error e end);
  tag_spec t i e : tag t i ≡
    if decide (take (length t) i = t) then Done (drop (length t) i) t
    else if decide (i = take (length i) t) then incomplete else Error e;
  eof_spec i e : eof i ≡ if decide (i = []) then Done [] [] else Error e;
  count_fixed_spec {A} n (p : parser A) i : count_fixed n p i ≡ count_spec n p i;
  length_bytes_spec p i : length_bytes p i ≡ and_then (p i) nom_take;
  value_spec {A} (a : A) i : value a i ≡ Done i a;
  map_spec {A B} (p : parser A) (f : A -> B) i : nom_map p f i ≡ and_then (p i) (fun a r => Done r (f a));
  tuple_spec {A B} (p : parser A) (q : parser B) i :
    tuple p q i ≡ and_then (p i) (fun a r => and_then (q r) (fun b r' => Done r' (a, b)));
  do_parse_spec {A B} (p : parser A) (f : A -> parser B) i : do_parse p f i ≡ and_then (p i) f;
  (** Whether an incomplete child is absent or leaves the result open is not fixed. *)
  opt_spec {A} (p : parser A) i :
    opt p i ≡ and_then (p i) (fun a r => Done r (Some a)) \/ opt p i ≡ Done i None /\ is_Done (p i) = false;
  alt_spec {A} (p q : parser A) i : alt p q i ≡ or_else (p i) (q i);
  switch_spec {A B} (p : parser A) (f : A -> option (parser B)) i e :
    switch p f i ≡ and_then (p i) (fun a r => match f a with Some q => q r | None => Error e end);
}.

(** ** An implementation of the laws *)

Definition nom_ref : Nom := {|
  nom_error := ();
  be_u8 i := match i with b :: r => Done r b | [] => incomplete end;
  be_u16 := word_of 2 be_value;
  be_u32 := word_of 4 be_value;
  be_u64 := word_of 8 be_value;
  be_i32 := word_of 4 (fun b => as_signed 32 (be_value b));
  be_i64 := word_of 8 (fun b => as_signed 64 (be_value b));
  nom_take n i := if decide (n <= length i) then Done (drop n i) (take n i) else incomplete;
  nom_take_str n i :=
    if decide (n <= length i) then
      match from_utf8 (take n i) with Some s => Done (drop n i) s | None => Error () end
    else incomplete;
  tag t i :=
    if decide (take (length t) i = t) then Done (drop (length t) i) t
    else if decide (i = take (length i) t) then incomplete else Error ();
  eof i := if decide (i = []) then Done [] [] else Error ();
  count_fixed A n p i := count_spec n p i;
  length_bytes p i :=
    and_then (p i) (fun n r => if decide (n <= length r) then Done (drop n r) (take n r) else incomplete);
  value A a i := Done i a;
  nom_map A B p f i := and_then (p i) (fun a r => Done r (f a));
  tuple A B p q i := and_then (p i) (fun a r => and_then (q r) (fun b r' => Done r' (a, b)));
  do_parse A B p f i := and_then (p i) f;
  opt A p i := match p i with Done r a => Done r (Some a) | Error _ => Done i None | Incomplete n => Incomplete n | Panicked => Panicked | OutOfFuel => OutOfFuel end;
  alt A p q i := or_else (p i) (q i);
  switch A B p f i := and_then (p i) (fun a r => match f a with Some q => q r | None => Error () end);
|}.

#[export] Instance nom_ref_spec : NomSpec nom_ref.
Proof.
  split; try (intros; reflexivity).
  - by exists ().
  - intros n i []. simpl. by case_decide.
  - by intros t i [].
  - by intros i [].
  - intros A p i. simpl. destruct (p i); [left|right|left..]; done.
  - by intros A B p f i [].
Qed.

(** ** Parsers on encodings

    [parses p bs a]: in front of anything, [p] takes the encoding [bs] of [a];
    [parses_all p bs a]: it takes all of [bs]. *)
Section parses.
Context {N : Nom} {NS : NomSpec N}.

Definition parses {A} (p : parser A) (bs : bytes) (a : A) : Prop := forall rest, p (bs ++ rest) = Done rest a.
Definition parses_all {A} (p : parser A) (bs : bytes) (a : A) : Prop := p bs = Done [] a.

Lemma do_parse_Done {A B} (p : parser A) (f : A -> parser B) i r a :
  p i = Done r a -> do_parse p f i ≡ f a r.
Proof. intros H. by rewrite do_parse_spec, H. Qed.

Lemma parses_do {A B} (p : parser A) (f : A -> parser B) bs bs' a b :
  parses p bs a -> parses (f a) bs' b -> parses (do_parse p f) (bs ++ bs') b.
Proof. intros Hp Hf rest. apply equiv_Done. rewrite <- app_assoc, (do_parse_Done _ _ _ _ _ (Hp _)). by rewrite Hf. Qed.

Lemma parses_do_all {A B} (p : parser A) (f : A -> parser B) bs bs' a b :
  parses p bs a -> parses_all (f a) bs' b -> parses_all (do_parse p f) (bs ++ bs') b.
Proof. intros Hp Hf. apply equiv_Done. rewrite (do_parse_Done _ _ _ _ _ (Hp _)). by rewrite Hf. Qed.

Lemma parses_value {A} (a : A) : parses (value a) [] a.
Proof. intros rest. apply equiv_Done. by rewrite value_spec. Qed.

Lemma parses_do_value {A B} (p : parser A) (f : A -> parser B) bs a b :
  parses p bs a -> parses (f a) [] b -> parses (do_parse p f) bs b.
Proof. intros. rewrite <- (app_nil_r bs). by eapply parses_do. Qed.

Lemma parses_map {A B} (p : parser A) (f : A -> B) bs a : parses p bs a -> parses (nom_map p f) bs (f a).
Proof. intros H rest. apply equiv_Done. by rewrite map_spec, H. Qed.

Lemma parses_map_all {A B} (p : parser A) (f : A -> B) bs a : parses_all p bs a -> parses_all (nom_map p f) bs (f a).
Proof. intros H. apply equiv_Done. rewrite map_spec. by rewrite H. Qed.

Lemma parses_tuple {A B} (p : parser A) (q : parser B) bs bs' a b :
  parses p bs a -> parses q bs' b -> parses (tuple p q) (bs ++ bs') (a, b).
Proof. intros Hp Hq rest. apply equiv_Done. rewrite <- app_assoc, tuple_spec, Hp. simpl. by rewrite Hq. Qed.

Lemma switch_Done {A B} (p : parser A) (f : A -> option (parser B)) i r a q :
  p i = Done r a -> f a = Some q -> switch p f i ≡ q r.
Proof. destruct some_error as [e _]. intros H Hf. rewrite (switch_spec _ _ _ e), H. simpl. by rewrite Hf. Qed.

Lemma parses_switch {A B} (p : parser A) (f : A -> option (parser B)) bs bs' a q b :
  parses p bs a -> f a = Some q -> parses q bs' b -> parses (switch p f) (bs ++ bs') b.
Proof.
  intros Hp Hf Hq rest. apply equiv_Done. rewrite <- app_assoc, (switch_Done _ _ _ _ _ _ (Hp _) Hf). by rewrite Hq.
Qed.

Lemma parses_switch_value {A B} (p : parser A) (f : A -> option (parser B)) bs a (b : B) :
  parses p bs a -> f a = Some (value b) -> parses (switch p f) bs b.
Proof. intros Hp Hf. rewrite <- (app_nil_r bs). eapply parses_switch; [done..|apply parses_value]. Qed.

Lemma parses_switch_all {A B} (p : parser A) (f : A -> option (parser B)) bs bs' a q b :
  parses p bs a -> f a = Some q -> parses_all q bs' b -> parses_all (switch p f) (bs ++ bs') b.
Proof. intros Hp Hf Hq. apply equiv_Done. rewrite (switch_Done _ _ _ _ _ _ (Hp _) Hf). by rewrite Hq. Qed.

Lemma parses_switch_value_all {A B} (p : parser A) (f : A -> option (parser B)) bs a (b : B) :
  parses p bs a -> f a = Some (value b) -> parses_all (switch p f) bs b.
Proof.
  intros Hp Hf. rewrite <- (app_nil_r bs). eapply parses_switch_all; [done..|].
  pose proof (parses_value b) as Hv. specialize (Hv []). done.
Qed.

Lemma parses_word (p : parser Z) n (f : bytes -> Z) z :
  (forall i, p i ≡ word_of n f i) -> f (be_bytes n z) = z -> parses p (be_bytes n z) z.
Proof.
  intros Hp Hf rest. apply equiv_Done. rewrite Hp. unfold word_of.
  pose proof (length_be_bytes n z) as Hl. rewrite decide_True by (rewrite length_app; lia).
  rewrite drop_app_length', take_app_length' by done. by rewrite Hf.
Qed.

Lemma unsigned_word n w z :
  (256 ^ Z.of_nat n = 2 ^ w)%Z -> in_unsigned w z -> be_value (be_bytes n z) = z.
Proof. intros Hw Hz. rewrite be_value_be_bytes, Hw. by apply as_unsigned_id. Qed.

Lemma signed_word n w z :
  (256 ^ Z.of_nat n = 2 ^ w)%Z -> (1 <= w)%Z -> in_signed w z -> as_signed w (be_value (be_bytes n z)) = z.
Proof. intros Hw ? Hz. rewrite be_value_be_bytes, Hw. by apply as_signed_as_unsigned. Qed.

Lemma parses_u16 z : in_unsigned 16 z -> parses be_u16 (be_bytes 2 z) z.
Proof. intros. eapply parses_word; [apply be_u16_spec|by apply (unsigned_word 2 16)]. Qed.
Lemma parses_u32 z : in_unsigned 32 z -> parses be_u32 (be_bytes 4 z) z.
Proof. intros. eapply parses_word; [apply be_u32_spec|by apply (unsigned_word 4 32)]. Qed.
Lemma parses_u64 z : in_unsigned 64 z -> parses be_u64 (be_bytes 8 z) z.
Proof. intros. eapply parses_word; [apply be_u64_spec|by apply (unsigned_word 8 64)]. Qed.
Lemma parses_i32 z : in_signed 32 z -> parses be_i32 (be_bytes 4 z) z.
Proof. intros. eapply parses_word; [apply be_i32_spec|by apply (signed_word 4 32)]. Qed.
Lemma parses_i64 z : in_signed 64 z -> parses be_i64 (be_bytes 8 z) z.
Proof. intros. eapply parses_word; [apply be_i64_spec|by apply (signed_word 8 64)]. Qed.

Lemma parses_u8 b : parses be_u8 [b] b.
Proof. intros rest. apply equiv_Done. by rewrite be_u8_spec. Qed.

Lemma parses_take n bs : length bs = n -> parses (nom_take n) bs bs.
Proof.
  intros <- rest. apply equiv_Done. rewrite take_spec, decide_True by (rewrite length_app; lia).
  by rewrite drop_app_length, take_app_length.
Qed.

Lemma parses_count n bs : length bs = n -> parses (count_fixed n be_u8) bs bs.
Proof.
  intros <- rest. apply equiv_Done. rewrite count_fixed_spec. induction bs as [|b bs IH]; simpl; [done|].
  rewrite be_u8_spec. simpl. by rewrite IH.
Qed.

Lemma parses_length_bytes (p : parser nat) bs bs' :
  parses p bs (length bs') -> parses (length_bytes p) (bs ++ bs') bs'.
Proof.
  intros Hp rest. apply equiv_Done. rewrite <- app_assoc, length_bytes_spec, Hp. simpl.
  by rewrite (parses_take _ bs' eq_refl rest).
Qed.

Lemma parses_tag t : parses (tag t) t t.
Proof.
  destruct some_error as [e _]. intros rest. apply equiv_Done.
  rewrite (tag_spec _ _ e), decide_True by apply take_app_length. by rewrite drop_app_length.
Qed.

Lemma tag_other t i : length t <= length i -> take (length t) i <> t -> exists e, tag t i = Error e.
Proof.
  destruct some_error as [e _]. intros Hl Ht. pose proof (tag_spec t i e) as H.
  rewrite decide_False in H by done. rewrite decide_False in H.
  - destruct (tag t i); try done. eauto.
  - intros Hi. apply Ht. assert (length i = length (take (length i) t)) as Hl' by congruence.
    rewrite length_take in Hl'. assert (length i = length t) as Hlen by lia. rewrite take_ge by lia.
    rewrite Hi, Hlen. by rewrite take_ge.
Qed.

Lemma parses_alt_l {A} (p q : parser A) bs a : parses p bs a -> parses (alt p q) bs a.
Proof. intros H rest. apply equiv_Done. by rewrite alt_spec, H. Qed.

Lemma alt_r {A} (p q : parser A) i e : p i = Error e -> alt p q i ≡ q i.
Proof. intros H. by rewrite alt_spec, H. Qed.

Lemma map_Error {A B} (p : parser A) (f : A -> B) i e : p i = Error e -> exists e', nom_map p f i = Error e'.
Proof. intros H. pose proof (map_spec p f i) as Hm. rewrite H in Hm. destruct (nom_map p f i); try done. eauto. Qed.

(** ** Parsers on any input

    [yields p P]: on every input [p] returns, and a value it gives has [P]. *)
Definition yields {A} (p : parser A) (P : A -> Prop) : Prop :=
  forall i, match p i with Done _ a => P a | Panicked | OutOfFuel => False | _ => True end.

Lemma yields_equiv {A} (x y : IResult nom_error A) (P : A -> Prop) : x ≡ y ->
  match y with Done _ a => P a | Panicked | OutOfFuel => False | _ => True end ->
  match x with Done _ a => P a | Panicked | OutOfFuel => False | _ => True end.
Proof. destruct x, y; unfold equiv; simpl; try done. by intros [-> ->]. Qed.

Lemma yields_impl {A} (p : parser A) (P Q : A -> Prop) : yields p P -> (forall a, P a -> Q a) -> yields p Q.
Proof. intros Hp Hq i. specialize (Hp i). destruct (p i); auto. Qed.

Lemma yields_do {A B} (p : parser A) (f : A -> parser B) P Q :
  yields p P -> (forall a, P a -> yields (f a) Q) -> yields (do_parse p f) Q.
Proof.
  intros Hp Hf i. eapply yields_equiv; [apply do_parse_spec|]. specialize (Hp i).
  destruct (p i) as [r a| | | |]; simpl; try done. by apply Hf.
Qed.

Lemma yields_map {A B} (p : parser A) (f : A -> B) P (Q : B -> Prop) :
  yields p P -> (forall a, P a -> Q (f a)) -> yields (nom_map p f) Q.
Proof.
  intros Hp Hf i. eapply yields_equiv; [apply map_spec|]. specialize (Hp i).
  destruct (p i) as [r a| | | |]; simpl; try done. by apply Hf.
Qed.

Lemma yields_tuple {A B} (p : parser A) (q : parser B) P Q :
  yields p P -> yields q Q -> yields (tuple p q) (fun ab => P ab.1 /\ Q ab.2).
Proof.
  intros Hp Hq i. eapply yields_equiv; [apply tuple_spec|]. specialize (Hp i).
  destruct (p i) as [r a| | | |]; simpl; try done. specialize (Hq r). by destruct (q r).
Qed.

Lemma yields_switch {A B} (p : parser A) (f : A -> option (parser B)) P Q :
  yields p P -> (forall a q, P a -> f a = Some q -> yields q Q) -> yields (switch p f) Q.
Proof.
  destruct some_error as [e _]. intros Hp Hf i. eapply yields_equiv; [apply (switch_spec _ _ _ e)|]. specialize (Hp i).
  destruct (p i) as [r a| | | |]; simpl; try done. destruct (f a) eqn:Ha; [by eapply Hf|done].
Qed.

Lemma yields_alt {A} (p q : parser A) P : yields p P -> yields q P -> yields (alt p q) P.
Proof.
  intros Hp Hq i. eapply yields_equiv; [apply alt_spec|]. specialize (Hp i). destruct (p i); simpl; try done. apply Hq.
Qed.

Lemma yields_value {A} (a : A) (P : A -> Prop) : P a -> yields (value a) P.
Proof. intros Ha i. eapply yields_equiv; [apply value_spec|]. done. Qed.

Lemma yields_take n : yields (nom_take n) (fun bs => length bs = n).
Proof. intros i. eapply yields_equiv; [apply take_spec|]. case_decide; [|done]. rewrite length_take. lia. Qed.

Lemma yields_tag t : yields (tag t) (fun _ => True).
Proof.
  destruct some_error as [e _]. intros i. eapply yields_equiv; [apply (tag_spec _ _ e)|]. by repeat case_decide.
Qed.

Lemma yields_count n : yields (count_fixed n be_u8) (fun bs => length bs = n).
Proof.
  intros i. eapply yields_equiv; [apply count_fixed_spec|]. revert i. induction n as [|n IH]; intros i; simpl; [done|].
  pose proof (be_u8_spec i) as Hb. destruct i as [|b i].
  - by destruct (be_u8 []).
  - apply equiv_Done in Hb. rewrite Hb. simpl. specialize (IH i). destruct (count_spec n be_u8 i); simpl in *; congruence.
Qed.

Lemma yields_word (p : parser Z) n f (P : Z -> Prop) :
  (forall i, p i ≡ word_of n f i) -> (forall bs, length bs = n -> P (f bs)) -> yields p P.
Proof.
  intros Hp Hf i. eapply yields_equiv; [apply Hp|]. unfold word_of. case_decide; [|done]. apply Hf.
  rewrite length_take. lia.
Qed.

Lemma unsigned_value n w bs : length bs = n -> (256 ^ Z.of_nat n = 2 ^ w)%Z -> in_unsigned w (be_value bs).
Proof. intros Hl Hw. unfold in_unsigned. rewrite <- Hw, <- Hl. apply be_value_range. Qed.

Lemma yields_u16 : yields be_u16 (in_unsigned 16).
Proof. eapply yields_word; [apply be_u16_spec|]. intros. by eapply unsigned_value. Qed.
Lemma yields_u32 : yields be_u32 (in_unsigned 32).
Proof. eapply yields_word; [apply be_u32_spec|]. intros. by eapply unsigned_value. Qed.
Lemma yields_u64 : yields be_u64 (in_unsigned 64).
Proof. eapply yields_word; [apply be_u64_spec|]. intros. by eapply unsigned_value. Qed.
Lemma yields_i32 : yields be_i32 (in_signed 32).
Proof. eapply yields_word; [apply be_i32_spec|]. intros. by apply as_signed_range. Qed.
Lemma yields_i64 : yields be_i64 (in_signed 64).
Proof. eapply yields_word; [apply be_i64_spec|]. intros. by apply as_signed_range. Qed.

End parses.

#[export] Hint Resolve yields_u16 yields_u32 yields_u64 yields_i32 yields_i64 yields_take yields_tag yields_count : rbt.
