(* ===== verification/WriteBytes.v ===== *)
(** * Writers: [std::io::Write] and the [byteorder] extension

    A writer is a class; a growing vector and a cursor over a fixed buffer are
    the two writers the trackers use.  The big-endian [write_*] methods come
    from the [byteorder] crate and are a class with their documented behaviour. *)

From stdpp Require Import prelude list gmap strings.
From Stdlib Require Import ZArith Lia Strings.Byte.
From S2P Require Import Prelude Bytes.

Class Write (W E : Type) : Type := { write_all : bytes -> stM W E () }.

Class WriteBytesExt (W E : Type) : Type := {
  write_u8 : byte -> stM W E ();
  write_u16 : Z -> stM W E ();
  write_u32 : Z -> stM W E ();
  write_u64 : Z -> stM W E ();
  write_i32 : Z -> stM W E ();
  write_i64 : Z -> stM W E ();
}.

(** What is in a writer and how much it still takes; [None] is without bound. *)
Class WriteSpec (W E : Type) `{Write W E} : Type := {
  writer_wf : W -> Prop;
  written : W -> bytes;
  room : W -> option nat;
  write_fits w bs :
    writer_wf w -> from_option (fun n => length bs <= n) True (room w) ->
    exists w', write_all bs w = (Ok (), w') /\ writer_wf w' /\ written w' = written w ++ bs /\
      room w' = (fun n => n - length bs) <$> room w;
  write_full w bs n :
    writer_wf w -> room w = Some n -> n < length bs ->
    exists e w', write_all bs w = (Err e, w') /\ writer_wf w' /\ written w' = written w ++ take n bs /\ room w' = Some 0;
}.

(** Documented behaviour of [byteorder]: the big-endian bytes, through [write_all]. *)
Class WriteBytesSpec (W E : Type) `{Write W E, WriteBytesExt W E} : Prop := {
  write_u8_spec b w : write_u8 b w = write_all [b] w;
  write_u16_spec z w : write_u16 z w = write_all (be_bytes 2 z) w;
  write_u32_spec z w : write_u32 z w = write_all (be_bytes 4 z) w;
  write_u64_spec z w : write_u64 z w = write_all (be_bytes 8 z) w;
  write_i32_spec z w : write_i32 z w = write_all (be_bytes 4 z) w;
  write_i64_spec z w : write_i64 z w = write_all (be_bytes 8 z) w;
}.

(** ** [Vec<u8>] *)

#[export] Instance Vec_write_all E : Write bytes E := {| write_all bs v := (Ok (), v ++ bs) |}.

#[export] Program Instance Vec_write_spec E : WriteSpec bytes E := {|
  writer_wf _ := True;
  written v := v;
  room _ := None;
|}.
Next Obligation. intros E w bs _ _. by eexists. Qed.
Next Obligation. done. Qed.

(** ** [Cursor<&mut [u8]>] *)

Inductive WriteError : Type := WriteZero.

Record Cursor : Type := mk_Cursor { buffer : bytes; position : nat }.

Definition Cursor_new (buffer : bytes) : Cursor := mk_Cursor buffer 0.

#[export] Instance Cursor_write_all : Write Cursor WriteError := {|
  write_all bs c :=
    let n := min (length bs) (length (buffer c) - position c) in
    (if decide (n = length bs) then Ok () else Err WriteZero,
     mk_Cursor (take (position c) (buffer c) ++ take n bs ++ drop (position c + n) (buffer c)) (position c + n));
|}.

#[export] Program Instance Cursor_write_spec : WriteSpec Cursor WriteError := {|
  writer_wf c := position c <= length (buffer c);
  written c := take (position c) (buffer c);
  room c := Some (length (buffer c) - position c);
|}.
Next Obligation.
  intros c bs Hc Hr. simpl in *.
  replace (length bs `min` (length (buffer c) - position c)) with (length bs) by lia.
  rewrite decide_True by done. eexists. split; [done|]. simpl.
  rewrite !length_app, !length_take, length_drop, (take_ge bs) by lia. split; [lia|].
  rewrite app_assoc, take_app_length' by (rewrite length_app, length_take; lia). split; [done|]. f_equal. lia.
Qed.
Next Obligation.
  intros c bs n Hc [= <-] Hr. simpl in *.
  replace (length bs `min` (length (buffer c) - position c)) with (length (buffer c) - position c) by lia.
  rewrite decide_False by lia. do 2 eexists. split; [done|]. simpl.
  rewrite !length_app, !length_take, length_drop. split; [lia|].
  rewrite app_assoc, take_app_length' by (rewrite length_app, !length_take; lia). split; [done|]. f_equal. lia.
Qed.

(** ** What a sequence of writes leaves

    [writes m bs opt]: [m] writes [bs] and, if there is room for it, [opt] (at
    most one byte); without room for [bs] it fails. *)
Section writes.
Context {W E : Type} `{WriteSpec W E}.

Definition fits (w : W) (n : nat) : Prop := from_option (fun r => n <= r) True (room w).

#[global] Instance fits_dec w n : Decision (fits w n).
Proof. unfold fits. destruct (room w); simpl; apply _. Defined.

Definition appends (w w' : W) (bs : bytes) : Prop :=
  writer_wf w' /\ written w' = written w ++ bs /\ room w' = (fun n => n - length bs) <$> room w.

Definition writes (m : stM W E ()) (bs opt : bytes) : Prop :=
  forall w, writer_wf w ->
    (fits w (length bs + length opt) -> exists w', m w = (Ok (), w') /\ appends w w' (bs ++ opt)) /\
    (fits w (length bs) -> ~ fits w (length bs + length opt) -> exists w', m w = (Ok (), w') /\ appends w w' bs) /\
    (~ fits w (length bs) -> exists e w', m w = (Err e, w')).

Lemma fits_app w w' bs n : appends w w' bs -> fits w (length bs) -> fits w' n <-> fits w (length bs + n).
Proof. intros (_ & _ & Hr). unfold fits. rewrite Hr. destruct (room w); simpl; [lia|done]. Qed.

Lemma appends_app w w' w'' bs bs' : appends w w' bs -> appends w' w'' bs' -> appends w w'' (bs ++ bs').
Proof.
  intros (_ & Hw & Hr) (Hwf & Hw' & Hr'). split; [done|]. rewrite Hw', Hw, app_assoc. split; [done|].
  rewrite Hr', Hr, length_app. destruct (room w); simpl; [|done]. f_equal. lia.
Qed.

Lemma fits_le w n k : fits w n -> k <= n -> fits w k.
Proof. unfold fits. destruct (room w); simpl; [lia|done]. Qed.

Lemma writes_bind (m m' : stM W E ()) bs bs' opt :
  writes m bs [] -> writes m' bs' opt -> writes (m ≫= fun _ => m') (bs ++ bs') opt.
Proof.
  intros Hm Hm' w Hw. destruct (Hm w Hw) as (H1 & _ & H3). simpl in *. rewrite Nat.add_0_r, app_nil_r in H1.
  rewrite length_app, <- Nat.add_assoc. split_and!.
  - intros Hf. destruct H1 as (w1 & He & Ha); [by eapply fits_le; [done|lia]|].
    rewrite (stM_bind_ok _ _ _ _ _ He). destruct (Hm' w1 (proj1 Ha)) as (H1 & _).
    destruct H1 as (w2 & He2 & Ha2); [apply (fits_app w w1 bs); [done|eapply fits_le; [done|lia]|done]|].
    exists w2. split; [done|]. rewrite <- app_assoc. by eapply appends_app.
  - intros Hf Hn. destruct H1 as (w1 & He & Ha); [by eapply fits_le; [done|lia]|].
    assert (fits w (length bs)) as Hbs by (eapply fits_le; [done|lia]).
    rewrite (stM_bind_ok _ _ _ _ _ He). destruct (Hm' w1 (proj1 Ha)) as (_ & H2 & _).
    destruct H2 as (w2 & He2 & Ha2).
    + by apply (fits_app w w1 bs).
    + by intros ?%(fits_app w w1 bs).
    + exists w2. split; [done|]. by eapply appends_app.
  - intros Hn. destruct (decide (fits w (length bs))) as [Hf|Hf].
    + destruct H1 as (w1 & He & Ha); [done|]. rewrite (stM_bind_ok _ _ _ _ _ He).
      apply (Hm' w1 (proj1 Ha)). by intros ?%(fits_app w w1 bs).
    + destruct (H3 Hf) as (e & w' & He). exists e, w'. unfold mbind, stM_bind. by rewrite He.
Qed.

Lemma writes_all bs : writes (write_all bs) bs [].
Proof.
  intros w Hw. simpl. rewrite Nat.add_0_r, app_nil_r. split_and!.
  - intros Hf. destruct (write_fits w bs Hw Hf) as (w' & He & Hw' & Hr). exists w'. done.
  - done.
  - intros Hf. unfold fits in Hf. destruct (room w) as [n|] eqn:Hn; [|done].
    destruct (write_full w bs n Hw Hn) as (e & w' & He & _); [simpl in Hf; lia|]. eauto.
Qed.

Lemma writes_ret : writes (mret ()) [] [].
Proof.
  intros w Hw. simpl. split_and!; [|done|].
  - intros _. exists w. split; [done|]. unfold appends. rewrite app_nil_r. split_and!; [done..|].
    destruct (room w); simpl; [|done]. f_equal. lia.
  - intros Hn. exfalso. apply Hn. unfold fits. destruct (room w); simpl; [lia|done].
Qed.

Lemma writes_equiv (m m' : stM W E ()) bs opt : (forall w, m w = m' w) -> writes m' bs opt -> writes m bs opt.
Proof. intros He Hm w Hw. rewrite !He. by apply Hm. Qed.

Lemma writes_then_ret (m : stM W E ()) bs opt : writes m bs opt -> writes (m ≫= fun _ => mret ()) bs opt.
Proof.
  intros Hm w Hw. destruct (Hm w Hw) as (H1 & H2 & H3). split_and!.
  - intros Hf. destruct (H1 Hf) as (w' & He & Ha). exists w'. by rewrite (stM_bind_ok _ _ _ _ _ He).
  - intros Hf Hn. destruct (H2 Hf Hn) as (w' & He & Ha). exists w'. by rewrite (stM_bind_ok _ _ _ _ _ He).
  - intros Hn. destruct (H3 Hn) as (e & w' & He). exists e, w'. unfold mbind, stM_bind. by rewrite He.
Qed.

Context `{!WriteBytesExt W E} {WB : WriteBytesSpec W E}.

Lemma writes_u8 b : writes (write_u8 b) [b] [].
Proof. eapply writes_equiv; [apply write_u8_spec|apply writes_all]. Qed.
Lemma writes_u16 z : writes (write_u16 z) (be_bytes 2 z) [].
Proof. eapply writes_equiv; [apply write_u16_spec|apply writes_all]. Qed.
Lemma writes_u32 z : writes (write_u32 z) (be_bytes 4 z) [].
Proof. eapply writes_equiv; [apply write_u32_spec|apply writes_all]. Qed.
Lemma writes_u64 z : writes (write_u64 z) (be_bytes 8 z) [].
Proof. eapply writes_equiv; [apply write_u64_spec|apply writes_all]. Qed.
Lemma writes_i32 z : writes (write_i32 z) (be_bytes 4 z) [].
Proof. eapply writes_equiv; [apply write_i32_spec|apply writes_all]. Qed.
Lemma writes_i64 z : writes (write_i64 z) (be_bytes 8 z) [].
Proof. eapply writes_equiv; [apply write_i64_spec|apply writes_all]. Qed.

End writes.

#[export] Hint Resolve writes_all writes_ret writes_u8 writes_u16 writes_u32 writes_u64 writes_i32 writes_i64 : rbt.

(** [byteorder] over any writer. *)
Definition WriteBytes_ref {W E} `{Write W E} : WriteBytesExt W E := {|
  write_u8 b := write_all [b];
  write_u16 z := write_all (be_bytes 2 z);
  write_u32 z := write_all (be_bytes 4 z);
  write_u64 z := write_all (be_bytes 8 z);
  write_i32 z := write_all (be_bytes 4 z);
  write_i64 z := write_all (be_bytes 8 z);
|}.

Lemma WriteBytes_ref_spec {W E} `{Write W E} : @WriteBytesSpec W E _ WriteBytes_ref.
Proof. by split. Qed.
