(* ===== verification/UtContact.v ===== *)
(** * [bip_utracker::contact]: compact peer lists

    Borrowed and owned buffers are the same bytes.  An iterator is its buffer
    and offset; [drain] runs one to its end, with fuel. *)

From stdpp Require Import prelude list gmap strings.
From Stdlib Require Import ZArith Lia Strings.Byte.
From S2P Require Import Prelude Bytes Convert Nom WriteBytes.

Definition SOCKET_ADDR_V4_BYTES : nat := 6.
Definition SOCKET_ADDR_V6_BYTES : nat := 18.

(** ** Lists of one family *)

Record CompactPeersV4 : Type := mk_CompactPeersV4 { peers_v4 : bytes }.
Record CompactPeersV6 : Type := mk_CompactPeersV6 { peers_v6 : bytes }.

Definition CompactPeersV4_new : CompactPeersV4 := mk_CompactPeersV4 [].
Definition CompactPeersV6_new : CompactPeersV6 := mk_CompactPeersV6 [].

Definition parse_peers_v4 {E} (bs : bytes) : IResult E CompactPeersV4 :=
  let remainder_bytes := length bs mod SOCKET_ADDR_V4_BYTES in
  if decide (remainder_bytes <> 0) then Incomplete (NeededSize (SOCKET_ADDR_V4_BYTES - remainder_bytes))
  else
    let end_of_bytes := slice bs (length bs) (length bs) in
    Done end_of_bytes (mk_CompactPeersV4 bs).

Definition parse_peers_v6 {E} (bs : bytes) : IResult E CompactPeersV6 :=
  let remainder_bytes := length bs mod SOCKET_ADDR_V6_BYTES in
  if decide (remainder_bytes <> 0) then Incomplete (NeededSize (SOCKET_ADDR_V6_BYTES - remainder_bytes))
  else
    let end_of_bytes := slice bs (length bs) (length bs) in
    Done end_of_bytes (mk_CompactPeersV6 bs).

Definition CompactPeersV4_from_bytes {E} (bs : bytes) : IResult E CompactPeersV4 := parse_peers_v4 bs.
Definition CompactPeersV6_from_bytes {E} (bs : bytes) : IResult E CompactPeersV6 := parse_peers_v6 bs.

Definition CompactPeersV4_write_bytes {W E} `{Write W E} (self : CompactPeersV4) : stM W E () :=
  _ ← write_all (peers_v4 self); mret ().
Definition CompactPeersV6_write_bytes {W E} `{Write W E} (self : CompactPeersV6) : stM W E () :=
  _ ← write_all (peers_v6 self); mret ().

Definition CompactPeersV4_insert (self : CompactPeersV4) (peer : SocketAddrV4) : CompactPeersV4 :=
  mk_CompactPeersV4 (peers_v4 self ++ sock_v4_to_bytes_be peer).
Definition CompactPeersV6_insert (self : CompactPeersV6) (peer : SocketAddrV6) : CompactPeersV6 :=
  mk_CompactPeersV6 (peers_v6 self ++ sock_v6_to_bytes_be peer).

(** ** Iterators *)

Record CompactPeersV4Iter : Type := mk_CompactPeersV4Iter { iter_v4 : bytes; offset_v4 : nat }.
Record CompactPeersV6Iter : Type := mk_CompactPeersV6Iter { iter_v6 : bytes; offset_v6 : nat }.

Definition CompactPeersV4Iter_new (peers : bytes) : CompactPeersV4Iter := mk_CompactPeersV4Iter peers 0.
Definition CompactPeersV6Iter_new (peers : bytes) : CompactPeersV6Iter := mk_CompactPeersV6Iter peers 0.

Definition CompactPeersV4_iter (self : CompactPeersV4) : CompactPeersV4Iter := CompactPeersV4Iter_new (peers_v4 self).
Definition CompactPeersV6_iter (self : CompactPeersV6) : CompactPeersV6Iter := CompactPeersV6Iter_new (peers_v6 self).

Definition CompactPeersV4Iter_next (self : CompactPeersV4Iter) : option SocketAddrV4 * CompactPeersV4Iter :=
  if decide (offset_v4 self = length (iter_v4 self)) then (None, self)
  else
    let sock_bytes :=
      copy_over (take SOCKET_ADDR_V4_BYTES (drop (offset_v4 self) (iter_v4 self))) (replicate SOCKET_ADDR_V4_BYTES x00) in
    (Some (bytes_be_to_sock_v4 sock_bytes), mk_CompactPeersV4Iter (iter_v4 self) (offset_v4 self + SOCKET_ADDR_V4_BYTES)).

Definition CompactPeersV6Iter_next (self : CompactPeersV6Iter) : option SocketAddrV6 * CompactPeersV6Iter :=
  if decide (offset_v6 self = length (iter_v6 self)) then (None, self)
  else
    let sock_bytes :=
      copy_over (take SOCKET_ADDR_V6_BYTES (drop (offset_v6 self) (iter_v6 self))) (replicate SOCKET_ADDR_V6_BYTES x00) in
    (Some (bytes_be_to_sock_v6 sock_bytes), mk_CompactPeersV6Iter (iter_v6 self) (offset_v6 self + SOCKET_ADDR_V6_BYTES)).

(** ** Lists of either family *)

Inductive CompactPeers : Type :=
| PeersV4 (peers : CompactPeersV4)
| PeersV6 (peers : CompactPeersV6).

Definition CompactPeers_from_bytes_v4 {E} (bs : bytes) : IResult E CompactPeers :=
  match CompactPeersV4_from_bytes bs with
  | Done i peers => Done i (PeersV4 peers)
  | Error err => Error err
  | Incomplete need => Incomplete need
  | Panicked => Panicked
  | OutOfFuel => OutOfFuel
  end.

Definition CompactPeers_from_bytes_v6 {E} (bs : bytes) : IResult E CompactPeers :=
  match CompactPeersV6_from_bytes bs with
  | Done i peers => Done i (PeersV6 peers)
  | Error err => Error err
  | Incomplete need => Incomplete need
  | Panicked => Panicked
  | OutOfFuel => OutOfFuel
  end.

Definition CompactPeers_write_bytes {W E} `{Write W E} (self : CompactPeers) : stM W E () :=
  match self with
  | PeersV4 peers => CompactPeersV4_write_bytes peers
  | PeersV6 peers => CompactPeersV6_write_bytes peers
  end.

Inductive CompactPeersIterType : Type :=
| IterV4 (iter : CompactPeersV4Iter)
| IterV6 (iter : CompactPeersV6Iter).

Record CompactPeersIter : Type := CompactPeersIter_new { peers_iter : CompactPeersIterType }.

Definition CompactPeers_iter (self : CompactPeers) : CompactPeersIter :=
  match self with
  | PeersV4 peers => CompactPeersIter_new (IterV4 (CompactPeersV4_iter peers))
  | PeersV6 peers => CompactPeersIter_new (IterV6 (CompactPeersV6_iter peers))
  end.

Definition CompactPeersIter_next (self : CompactPeersIter) : option SocketAddr * CompactPeersIter :=
  match peers_iter self with
  | IterV4 iter => let '(a, iter) := CompactPeersV4Iter_next iter in (SockV4 <$> a, CompactPeersIter_new (IterV4 iter))
  | IterV6 iter => let '(a, iter) := CompactPeersV6Iter_next iter in (SockV6 <$> a, CompactPeersIter_new (IterV6 iter))
  end.

(** A [for] loop over an iterator: the items up to the first [None]. *)
Fixpoint drain {I A E} (next : I -> option A * I) (fuel : nat) (it : I) : outcome E (list A) :=
  match fuel with
  | O => NoFuel
  | S fuel =>
      match next it with
      | (None, _) => Ok []
      | (Some a, it) => l ← drain next fuel it; Ok (a :: l)
      end
  end.

(** ** Iterating over records of one size *)

Section chunks.
Context {I A E : Type} (next : I -> option A * I) (it : bytes -> nat -> I) (k : nat) (dec : bytes -> A).
Hypothesis Hend : forall bs, (next (it bs (length bs))).1 = None.
Hypothesis Hnext : forall bs off, off + k <= length bs ->
  next (it bs off) = (Some (dec (take k (drop off bs))), it bs (off + k)).

Lemma drain_chunks (chunks : list bytes) : forall pre fuel,
  Forall (fun c => length c = k) chunks -> length chunks < fuel ->
  drain next fuel (it (pre ++ concat chunks) (length pre)) = Ok (E := E) (dec <$> chunks).
Proof using Hend Hnext.
  induction chunks as [|c chunks IH]; intros pre fuel Hk Hf; (destruct fuel as [|fuel]; [simpl in Hf; lia|]); simpl.
  - specialize (Hend (pre ++ [])). rewrite app_nil_r in Hend |- *. destruct (next _) as [o i]. simpl in Hend. by subst o.
  - apply Forall_cons in Hk as [Hc Hk]. rewrite Hnext by (rewrite !length_app; lia).
    rewrite drop_app_length, (take_app_length' c) by lia.
    specialize (IH (pre ++ c) fuel Hk ltac:(simpl in Hf; lia)).
    rewrite length_app, Hc, <- app_assoc in IH. rewrite IH. done.
Qed.

End chunks.

(** Byte strings of a multiple of [k] bytes are records of [k] bytes. *)
Lemma split_chunks (k : nat) : 0 < k -> forall bs : bytes, length bs mod k = 0 ->
  exists chunks, bs = concat chunks /\ Forall (fun c => length c = k) chunks /\ length bs = k * length chunks.
Proof.
  intros Hk bs. remember (length bs / k) as n eqn:Hn. revert bs Hn.
  induction n as [|n IH]; intros bs Hn Hm; pose proof (Nat.div_mod (length bs) k ltac:(lia)) as Hd; rewrite <- Hn, Hm in Hd.
  - exists []. simpl. destruct bs; [by rewrite Nat.mul_0_r|simpl in Hd; lia].
  - assert (length (drop k bs) = n * k) as Hl by (rewrite length_drop; lia).
    destruct (IH (drop k bs)) as (cs & He & Hc & Hlc).
    + rewrite Hl. symmetry. apply Nat.div_mul. lia.
    + rewrite Hl. apply Nat.Div0.mod_mul.
    + exists (take k bs :: cs). simpl. rewrite <- He, take_drop. split_and!; [done| |].
      * constructor; [rewrite length_take; lia|done].
      * rewrite length_drop in Hlc. lia.
Qed.

(** ** The lists are the addresses they were built from *)

Definition v4_of (l : list SocketAddrV4) : CompactPeersV4 := foldl CompactPeersV4_insert CompactPeersV4_new l.
Definition v6_of (l : list SocketAddrV6) : CompactPeersV6 := foldl CompactPeersV6_insert CompactPeersV6_new l.

(** Addresses the wire format can carry whole. *)
Definition plain_v4 (a : SocketAddrV4) : Prop := in_unsigned 16 (v4_port a).
Definition plain_v6 (a : SocketAddrV6) : Prop :=
  ipv6_wf (v6_ip a) /\ in_unsigned 16 (v6_port a) /\ v6_flowinfo a = 0%Z /\ v6_scope_id a = 0%Z.

Lemma v4_of_bytes l : peers_v4 (v4_of l) = concat (sock_v4_to_bytes_be <$> l).
Proof.
  induction l as [|a l IH] using rev_ind; [done|].
  unfold v4_of. rewrite foldl_snoc. simpl. fold (v4_of l). rewrite IH, fmap_app, concat_app.
  change (concat (sock_v4_to_bytes_be <$> [a])) with (sock_v4_to_bytes_be a ++ []). by rewrite app_nil_r.
Qed.

Lemma v6_of_bytes l : peers_v6 (v6_of l) = concat (sock_v6_to_bytes_be <$> l).
Proof.
  induction l as [|a l IH] using rev_ind; [done|].
  unfold v6_of. rewrite foldl_snoc. simpl. fold (v6_of l). rewrite IH, fmap_app, concat_app.
  change (concat (sock_v6_to_bytes_be <$> [a])) with (sock_v6_to_bytes_be a ++ []). by rewrite app_nil_r.
Qed.

Lemma length_peer_v4 a : length (sock_v4_to_bytes_be a) = 6.
Proof. done. Qed.
Lemma length_peer_v6 a : length (sock_v6_to_bytes_be a) = 18.
Proof. by rewrite sock_v6_bytes, length_app, length_ipv6_bytes. Qed.

Lemma sock_v6_plain a : plain_v6 a -> bytes_be_to_sock_v6 (sock_v6_to_bytes_be a) = a.
Proof. intros (Hi & Hp & Hf & Hs). rewrite sock_v6_of_bytes by done. destruct a; simpl in *. by subst. Qed.

Lemma concat_records {A} (enc : A -> bytes) k (l : list A) :
  (forall a, length (enc a) = k) -> length (concat (enc <$> l)) = k * length l.
Proof. intros He. induction l as [|a l IH]; [simpl; lia|]. rewrite fmap_cons. cbn [concat length]. rewrite length_app, He, IH. lia. Qed.

Lemma copy_whole (bs : bytes) n : length bs = n -> copy_over bs (replicate n x00) = bs.
Proof. intros Hl. unfold copy_over. rewrite length_replicate, take_ge by lia. rewrite drop_ge by (rewrite length_replicate; lia). apply app_nil_r. Qed.

Lemma v4_drain {E} l : Forall plain_v4 l ->
  drain CompactPeersV4Iter_next (S (length l)) (CompactPeersV4_iter (v4_of l)) = Ok (E := E) l.
Proof.
  intros Hl. unfold CompactPeersV4_iter, CompactPeersV4Iter_new. rewrite v4_of_bytes.
  etransitivity;
    [refine (drain_chunks CompactPeersV4Iter_next mk_CompactPeersV4Iter 6 bytes_be_to_sock_v4 _ _ (sock_v4_to_bytes_be <$> l) [] _ _ _)|].
  - intros bs. unfold CompactPeersV4Iter_next. simpl. by rewrite decide_True.
  - intros bs off Ho. unfold CompactPeersV4Iter_next. cbn [iter_v4 offset_v4]. rewrite decide_False by lia.
    rewrite copy_whole; [done|]. rewrite length_take, length_drop. unfold SOCKET_ADDR_V4_BYTES. lia.
  - apply Forall_fmap, Forall_true. intros; apply length_peer_v4.
  - rewrite length_fmap. lia.
  - f_equal. rewrite <- list_fmap_compose. rewrite <- (list_fmap_id l) at 2. apply list_fmap_ext. intros i a Ha. cbn [compose].
    apply sock_v4_of_bytes. by apply (Forall_lookup_1 _ _ _ _ Hl Ha).
Qed.

Lemma v6_drain {E} l : Forall plain_v6 l ->
  drain CompactPeersV6Iter_next (S (length l)) (CompactPeersV6_iter (v6_of l)) = Ok (E := E) l.
Proof.
  intros Hl. unfold CompactPeersV6_iter, CompactPeersV6Iter_new. rewrite v6_of_bytes.
  etransitivity;
    [refine (drain_chunks CompactPeersV6Iter_next mk_CompactPeersV6Iter 18 bytes_be_to_sock_v6 _ _ (sock_v6_to_bytes_be <$> l) [] _ _ _)|].
  - intros bs. unfold CompactPeersV6Iter_next. simpl. by rewrite decide_True.
  - intros bs off Ho. unfold CompactPeersV6Iter_next. cbn [iter_v6 offset_v6]. rewrite decide_False by lia.
    rewrite copy_whole; [done|]. rewrite length_take, length_drop. unfold SOCKET_ADDR_V6_BYTES. lia.
  - apply Forall_fmap, Forall_true. intros; apply length_peer_v6.
  - rewrite length_fmap. lia.
  - f_equal. rewrite <- list_fmap_compose. rewrite <- (list_fmap_id l) at 2. apply list_fmap_ext. intros i a Ha. cbn [compose].
    apply sock_v6_plain. by apply (Forall_lookup_1 _ _ _ _ Hl Ha).
Qed.

Lemma parse_v4_ok {E} l : parse_peers_v4 (E := E) (peers_v4 (v4_of l)) = Done [] (v4_of l).
Proof.
  unfold parse_peers_v4, SOCKET_ADDR_V4_BYTES. rewrite decide_False.
  - unfold slice. rewrite Nat.sub_diag. simpl. by destruct (v4_of l).
  - rewrite v4_of_bytes, (concat_records _ 6) by done. rewrite Nat.mul_comm, Nat.Div0.mod_mul. lia.
Qed.

Lemma parse_v6_ok {E} l : parse_peers_v6 (E := E) (peers_v6 (v6_of l)) = Done [] (v6_of l).
Proof.
  unfold parse_peers_v6, SOCKET_ADDR_V6_BYTES. rewrite decide_False.
  - unfold slice. rewrite Nat.sub_diag. simpl. by destruct (v6_of l).
  - rewrite v6_of_bytes, (concat_records _ 18) by apply length_peer_v6. rewrite Nat.mul_comm, Nat.Div0.mod_mul. lia.
Qed.

Lemma v4_bytes_plain bs : length bs = 6 -> plain_v4 (bytes_be_to_sock_v4 bs).
Proof. intros _. apply port_range. Qed.

Lemma v6_bytes_plain bs : length bs = 18 -> plain_v6 (bytes_be_to_sock_v6 bs).
Proof.
  intros Hl. split_and!; [|apply port_range|done|done]. apply bytes_be_to_ipv6_wf.
  rewrite copy_whole; rewrite length_take; lia.
Qed.

Lemma map_records {A} (enc : A -> bytes) (dec : bytes -> A) k (chunks : list bytes) :
  (forall bs, length bs = k -> enc (dec bs) = bs) -> Forall (fun c => length c = k) chunks ->
  enc <$> (dec <$> chunks) = chunks.
Proof.
  intros He Hc. rewrite <- list_fmap_compose. rewrite <- (list_fmap_id chunks) at 2. apply list_fmap_ext.
  intros i c Hi. apply He. by apply (Forall_lookup_1 _ _ _ _ Hc Hi).
Qed.

Lemma parse_v4_inv {E} bs rest p : parse_peers_v4 (E := E) bs = Done rest p ->
  rest = [] /\ peers_v4 p = bs /\ exists l, p = v4_of l /\ Forall plain_v4 l.
Proof.
  unfold parse_peers_v4. case_decide as Hm; [done|]. unfold slice. rewrite Nat.sub_diag. intros [= <- <-].
  split_and!; [done..|].
  destruct (split_chunks 6 ltac:(lia) bs Hm) as (cs & -> & Hc & _).
  exists (bytes_be_to_sock_v4 <$> cs). split.
  - pose proof (v4_of_bytes (bytes_be_to_sock_v4 <$> cs)) as Hb.
    rewrite (map_records _ _ 6 cs bytes_of_sock_v4 Hc) in Hb. by destruct (v4_of _); simpl in Hb; subst.
  - apply Forall_fmap. eapply Forall_impl; [done|]. intros c Hl. by apply v4_bytes_plain.
Qed.

Lemma parse_v6_inv {E} bs rest p : parse_peers_v6 (E := E) bs = Done rest p ->
  rest = [] /\ peers_v6 p = bs /\ exists l, p = v6_of l /\ Forall plain_v6 l.
Proof.
  unfold parse_peers_v6. case_decide as Hm; [done|]. unfold slice. rewrite Nat.sub_diag. intros [= <- <-].
  split_and!; [done..|].
  destruct (split_chunks 18 ltac:(lia) bs Hm) as (cs & -> & Hc & _).
  exists (bytes_be_to_sock_v6 <$> cs). split.
  - pose proof (v6_of_bytes (bytes_be_to_sock_v6 <$> cs)) as Hb.
    rewrite (map_records _ _ 18 cs bytes_of_sock_v6 Hc) in Hb. by destruct (v6_of _); simpl in Hb; subst.
  - apply Forall_fmap. eapply Forall_impl; [done|]. intros c Hl. by apply v6_bytes_plain.
Qed.

(** A well-formed list of peers is one built by insertions, and iterating over it
    gives back what was inserted. *)
Definition peers_wf (p : CompactPeers) (l : list SocketAddr) : Prop :=
  match p with
  | PeersV4 p => exists l4, p = v4_of l4 /\ Forall plain_v4 l4 /\ l = SockV4 <$> l4
  | PeersV6 p => exists l6, p = v6_of l6 /\ Forall plain_v6 l6 /\ l = SockV6 <$> l6
  end.

Definition peers_bytes (p : CompactPeers) : bytes :=
  match p with PeersV4 p => peers_v4 p | PeersV6 p => peers_v6 p end.

Definition peers_parser {E} (p : CompactPeers) : bytes -> IResult E CompactPeers :=
  match p with PeersV4 _ => CompactPeers_from_bytes_v4 | PeersV6 _ => CompactPeers_from_bytes_v6 end.

Lemma peers_parse_ok {E} p l : peers_wf p l -> peers_parser (E := E) p (peers_bytes p) = Done [] p.
Proof.
  destruct p as [p|p]; intros (l' & -> & _); simpl; unfold CompactPeers_from_bytes_v4, CompactPeers_from_bytes_v6,
    CompactPeersV4_from_bytes, CompactPeersV6_from_bytes; [by rewrite parse_v4_ok|by rewrite parse_v6_ok].
Qed.

Lemma peers_parse_inv {E} p0 bs rest p : peers_parser (E := E) p0 bs = Done rest p ->
  rest = [] /\ peers_bytes p = bs /\ exists l, peers_wf p l.
Proof.
  destruct p0; simpl; unfold CompactPeers_from_bytes_v4, CompactPeers_from_bytes_v6, CompactPeersV4_from_bytes,
    CompactPeersV6_from_bytes.
  - destruct (parse_peers_v4 bs) as [r q| | | |] eqn:Hp; try done. intros [= <- <-].
    apply parse_v4_inv in Hp as (-> & Hb & l & Hl & Hf). split_and!; [done..|]. eexists; simpl; eauto.
  - destruct (parse_peers_v6 bs) as [r q| | | |] eqn:Hp; try done. intros [= <- <-].
    apply parse_v6_inv in Hp as (-> & Hb & l & Hl & Hf). split_and!; [done..|]. eexists; simpl; eauto.
Qed.

Lemma drain_map {I J A B E} (next : I -> option A * I) (next' : J -> option B * J) (f : A -> B) (g : I -> J) fuel :
  (forall i, next' (g i) = (f <$> (next i).1, g (next i).2)) ->
  forall i, drain (E := E) next' fuel (g i) = drain (E := E) next fuel i ≫= fun l : list A => Ok (f <$> l).
Proof.
  intros Hn. induction fuel as [|fuel IH]; intros i; simpl; [done|]. rewrite Hn.
  destruct (next i) as [[a|] i']; simpl; [|done]. rewrite IH. by destruct (drain next fuel i').
Qed.

Lemma peers_drain {E} p l : peers_wf p l ->
  drain CompactPeersIter_next (S (length l)) (CompactPeers_iter p) = Ok (E := E) l.
Proof.
  destruct p as [p|p]; intros (l' & -> & Hl & ->); simpl CompactPeers_iter; rewrite length_fmap.
  - rewrite (drain_map CompactPeersV4Iter_next CompactPeersIter_next SockV4 (fun i => CompactPeersIter_new (IterV4 i)))
      by (intros i; unfold CompactPeersIter_next; simpl; by destruct (CompactPeersV4Iter_next i)).
    by rewrite v4_drain.
  - rewrite (drain_map CompactPeersV6Iter_next CompactPeersIter_next SockV6 (fun i => CompactPeersIter_new (IterV6 i)))
      by (intros i; unfold CompactPeersIter_next; simpl; by destruct (CompactPeersV6Iter_next i)).
    by rewrite v6_drain.
Qed.

Lemma drain_more {I A E} (next : I -> option A * I) fuel fuel' : fuel <= fuel' -> forall i (l : list A),
  drain (E := E) next fuel i = Ok l -> drain (E := E) next fuel' i = Ok l.
Proof.
  revert fuel'. induction fuel as [|fuel IH]; intros [|fuel'] Hf i l; simpl; try done; [lia|].
  destruct (next i) as [[a|] i']; [|done]. destruct (drain next fuel i') as [l'| | |] eqn:Hd; simpl; try done.
  intros [= <-]. by rewrite (IH fuel' ltac:(lia) _ _ Hd).
Qed.

(** Enough fuel for the list: as many turns as there are bytes. *)
Lemma peers_drain_bytes {E} p l : peers_wf p l ->
  drain CompactPeersIter_next (S (length (peers_bytes p))) (CompactPeers_iter p) = Ok (E := E) l.
Proof.
  intros Hp. refine (drain_more _ _ _ _ _ _ (peers_drain p l Hp)). apply le_n_S.
  destruct p as [p|p]; destruct Hp as (l' & -> & _ & ->); simpl; rewrite length_fmap.
  - rewrite v4_of_bytes. rewrite (concat_records _ 6) by apply length_peer_v4. lia.
  - rewrite v6_of_bytes. rewrite (concat_records _ 18) by apply length_peer_v6. lia.
Qed.

(** Compact lists of peers keep their type: a byte string is accepted exactly when
    it is a whole number of addresses; after any number of insertions the buffer
    still is, is accepted again, and the iterator ends after giving the
    addresses read followed by those inserted, in order.  This is what makes
    the iterators, which only stop at an offset equal to the length, end. *)
Theorem compact_peers_contract (E : Type) :
  (forall bs, is_Done (CompactPeersV4_from_bytes (E := E) bs) = bool_decide (length bs mod SOCKET_ADDR_V4_BYTES = 0)) /\
  (forall bs, is_Done (CompactPeersV6_from_bytes (E := E) bs) = bool_decide (length bs mod SOCKET_ADDR_V6_BYTES = 0)) /\
  (forall bs rest p l4, CompactPeersV4_from_bytes (E := E) bs = Done rest p -> Forall plain_v4 l4 ->
     let p' := foldl CompactPeersV4_insert p l4 in
     exists l, rest = [] /\ drain CompactPeersV4Iter_next (S (length l)) (CompactPeersV4_iter p) = Ok (E := E) l /\
       drain CompactPeersV4Iter_next (S (length (l ++ l4))) (CompactPeersV4_iter p') = Ok (E := E) (l ++ l4) /\
       CompactPeersV4_from_bytes (E := E) (peers_v4 p') = Done [] p') /\
  (forall bs rest p l6, CompactPeersV6_from_bytes (E := E) bs = Done rest p -> Forall plain_v6 l6 ->
     let p' := foldl CompactPeersV6_insert p l6 in
     exists l, rest = [] /\ drain CompactPeersV6Iter_next (S (length l)) (CompactPeersV6_iter p) = Ok (E := E) l /\
       drain CompactPeersV6Iter_next (S (length (l ++ l6))) (CompactPeersV6_iter p') = Ok (E := E) (l ++ l6) /\
       CompactPeersV6_from_bytes (E := E) (peers_v6 p') = Done [] p').
Proof.
  split_and!.
  - intros bs. unfold CompactPeersV4_from_bytes, parse_peers_v4. case_decide as Hm; by case_bool_decide.
  - intros bs. unfold CompactPeersV6_from_bytes, parse_peers_v6. case_decide as Hm; by case_bool_decide.
  - intros bs rest p l4 Hp H4. apply parse_v4_inv in Hp as (-> & _ & l & -> & Hl). exists l.
    unfold v4_of. rewrite <- foldl_app. fold (v4_of (l ++ l4)) (v4_of l).
    split_and!; [done|by apply v4_drain|apply v4_drain; by apply Forall_app|apply parse_v4_ok].
  - intros bs rest p l6 Hp H6. apply parse_v6_inv in Hp as (-> & _ & l & -> & Hl). exists l.
    unfold v6_of. rewrite <- foldl_app. fold (v6_of (l ++ l6)) (v6_of l).
    split_and!; [done|by apply v6_drain|apply v6_drain; by apply Forall_app|apply parse_v6_ok].
Qed.
