(* ===== verification/UtOption.v ===== *)
(** * [bip_utracker::option]: the options of an announce request

    A hash map from option bytes to contents.  The order in which the map is
    walked when writing is an argument. *)

From stdpp Require Import prelude list gmap strings.
From Stdlib Require Import ZArith Lia Strings.Byte.
From S2P Require Import Prelude Bytes Convert Nom WriteBytes.

Definition END_OF_OPTIONS_BYTE : byte := x00.
Definition NO_OPERATION_BYTE : byte := x01.
Definition URL_DATA_BYTE : byte := x02.

Class AnnounceOption (O : Type) : Type := {
  option_byte : byte;
  option_length : O -> nat;
  read_option : bytes -> option O;
  (** The buffer after the call. *)
  write_option : O -> bytes -> outcome Empty_set bytes;
}.
Arguments option_byte O {_}.

Record AnnounceOptions : Type := mk_AnnounceOptions { raw_options : gmap byte bytes }.

Definition AnnounceOptions_new : AnnounceOptions := mk_AnnounceOptions ∅.

(** ** Parsing *)

Section parsing.
Context {N : Nom}.

Definition byte_usize : parser nat := nom_map be_u8 (fun b => Z.to_nat (byte_val b)).

Definition parse_end_option : parser bool := nom_map (alt eof (tag [END_OF_OPTIONS_BYTE])) (fun _ => true).

Definition parse_no_option : parser bool := nom_map (tag [NO_OPERATION_BYTE]) (fun _ => false).

Definition parse_user_option (option_map : gmap byte bytes) : parser (bool * gmap byte bytes) :=
  do_parse be_u8 (fun option_byte =>
  do_parse (length_bytes byte_usize) (fun option_contents =>
  value (false,
    match option_map !! option_byte with
    | Some occ => <[option_byte := occ ++ option_contents]> option_map
    | None => <[option_byte := option_contents]> option_map
    end))).

(** One round of the loop. *)
Definition parse_option (option_map : gmap byte bytes) : parser (bool * gmap byte bytes) :=
  alt (nom_map parse_end_option (fun found_eof => (found_eof, option_map)))
    (alt (nom_map parse_no_option (fun found_eof => (found_eof, option_map))) (parse_user_option option_map)).

Fixpoint parse_options_loop (fuel : nat) (curr_bytes : bytes) (eof : bool) (option_map : gmap byte bytes) :
    IResult nom_error (bool * gmap byte bytes) :=
  if eof then Done curr_bytes (eof, option_map)
  else
    match fuel with
    | O => OutOfFuel
    | S fuel =>
        match parse_option option_map curr_bytes with
        | Done new_bytes (found_eof, option_map) => parse_options_loop fuel new_bytes found_eof option_map
        | some_error => some_error
        end
    end.

Definition parse_options (option_map : gmap byte bytes) (bs : bytes) : IResult nom_error (bool * gmap byte bytes) :=
  parse_options_loop (S (length bs)) bs false option_map.

Definition AnnounceOptions_from_bytes : parser AnnounceOptions :=
  nom_map (parse_options ∅) (fun r => mk_AnnounceOptions r.2).

End parsing.

(** ** Writing *)

Section writing.
Context {W E : Type} `{Write W E, WriteBytesExt W E} (iter_order : gmap byte bytes -> list byte).

Fixpoint write_chunks (b : byte) (cs : list bytes) : stM W E () :=
  match cs with
  | [] => mret ()
  | content_chunk :: cs =>
      let content_chunk_len := as_u8 (Z.of_nat (length content_chunk)) in
      _ ← write_u8 b;
      _ ← write_u8 content_chunk_len;
      _ ← write_all content_chunk;
      write_chunks b cs
  end.

Fixpoint write_entries (raw_options : gmap byte bytes) (keys : list byte) : stM W E () :=
  match keys with
  | [] => mret ()
  | b :: keys =>
      _ ← match raw_options !! b with Some content => write_chunks b (chunks 255 content) | None => mret () end;
      write_entries raw_options keys
  end.

(** A result that is not looked at. *)
Definition ignored {A} (m : stM W E A) : stM W E () :=
  fun w => match m w with
           | (Ok _, w) | (Err _, w) => (Ok (), w)
           | (Panic, w) => (Panic, w)
           | (NoFuel, w) => (NoFuel, w)
           end.

Definition AnnounceOptions_write_bytes (self : AnnounceOptions) : stM W E () :=
  _ ← write_entries (raw_options self) (iter_order (raw_options self));
  _ ← ignored (write_u8 END_OF_OPTIONS_BYTE);
  mret ().

End writing.

(** ** Access *)

Definition insert_bytes (self : AnnounceOptions) (b : byte) (contents : bytes) : AnnounceOptions :=
  mk_AnnounceOptions (<[b := contents]> (raw_options self)).

Definition AnnounceOptions_get (O : Type) `{AnnounceOption O} (self : AnnounceOptions) : option O :=
  raw_options self !! option_byte O ≫= read_option.

Definition AnnounceOptions_insert {O : Type} `{AnnounceOption O} (self : AnnounceOptions) (option : O) :
    outcome Empty_set AnnounceOptions :=
  bs ← write_option option (replicate (option_length option) x00);
  Ok (insert_bytes self (option_byte O) bs).

Definition AnnounceOptions_to_owned (iter_order : gmap byte bytes -> list byte) (self : AnnounceOptions) : AnnounceOptions :=
  foldl (fun options key => insert_bytes options key (default [] (raw_options self !! key)))
    AnnounceOptions_new (iter_order (raw_options self)).

(** ** The one option of the crate *)

Record URLDataOption : Type := URLDataOption_new { url_data : bytes }.

(** [write_all] on a slice, with its result unwrapped. *)
#[export] Instance URLDataOption_option : AnnounceOption URLDataOption := {|
  option_byte := URL_DATA_BYTE;
  option_length o := length (url_data o);
  read_option bs := Some (URLDataOption_new bs);
  write_option o buffer :=
    if decide (length (url_data o) <= length buffer) then Ok (copy_over (url_data o) buffer) else Panic;
|}.

(** ** What parsing does *)

Definition add_option (m : gmap byte bytes) (b : byte) (contents : bytes) : gmap byte bytes :=
  <[b := default [] (m !! b) ++ contents]> m.

Section laws.
Context {N : Nom} {NS : NomSpec N}.

Definition option_step (m : gmap byte bytes) (bs : bytes) : IResult nom_error (bool * gmap byte bytes) :=
  match bs with
  | [] => Done [] (true, m)
  | b :: r =>
      if decide (b = END_OF_OPTIONS_BYTE) then Done r (true, m)
      else if decide (b = NO_OPERATION_BYTE) then Done r (false, m)
      else
        match r with
        | [] => incomplete
        | n :: r =>
            let n := Z.to_nat (byte_val n) in
            if decide (n <= length r) then Done (drop n r) (false, add_option m b (take n r)) else incomplete
        end
  end.

Lemma tag_byte t b r e : tag [t] (b :: r) ≡ if decide (b = t) then Done r [t] else Error e.
Proof.
  rewrite (tag_spec _ _ e). simpl. rewrite take_0, drop_0. case_decide as H1; [|].
  - injection H1 as ->. by rewrite decide_True.
  - rewrite (decide_False (P := b = t)) by congruence. case_decide as H2; [|done]. exfalso.
    destruct r; injection H2; congruence.
Qed.

Lemma user_option_spec m bs : parse_user_option m bs ≡
  match bs with
  | b :: n :: r =>
      let n := Z.to_nat (byte_val n) in
      if decide (n <= length r) then Done (drop n r) (false, add_option m b (take n r)) else incomplete
  | _ => incomplete
  end.
Proof.
  unfold parse_user_option. rewrite do_parse_spec, be_u8_spec. destruct bs as [|b bs]; [done|]. simpl.
  rewrite do_parse_spec, length_bytes_spec. unfold byte_usize. rewrite map_spec, be_u8_spec.
  destruct bs as [|n r]; [done|]. simpl. rewrite take_spec. case_decide; [|done]. simpl.
  rewrite value_spec. unfold add_option. by destruct (m !! b).
Qed.

Lemma parse_option_spec m bs : parse_option m bs ≡ option_step m bs.
Proof.
  destruct some_error as [e _]. unfold parse_option, parse_end_option, parse_no_option.
  rewrite alt_spec, map_spec, map_spec, alt_spec, (eof_spec _ e).
  destruct bs as [|b r]; [done|]. rewrite (decide_False (P := b :: r = [])) by done.
  rewrite (tag_byte _ _ _ e), alt_spec, map_spec, map_spec, (tag_byte _ _ _ e), user_option_spec. simpl.
  case_decide; [done|]. simpl. case_decide; [done|]. done.
Qed.

Lemma option_step_shorter m bs r f m' : option_step m bs = Done r (f, m') -> length r < length bs \/ f = true.
Proof.
  destruct bs as [|b [|n bs]]; simpl; repeat case_decide; try done; intros [= <- <- _]; auto; left; simpl; try lia.
  rewrite length_drop. lia.
Qed.

Lemma loop_step fuel bs m r f m' :
  option_step m bs = Done r (f, m') ->
  parse_options_loop (S fuel) bs false m = parse_options_loop fuel r f m'.
Proof. intros H. pose proof (parse_option_spec m bs) as Hp. rewrite H, equiv_Done in Hp. simpl. by rewrite Hp. Qed.

(** No option is stored under a reserved byte. *)
Definition keys_ok (m : gmap byte bytes) : Prop :=
  forall k, is_Some (m !! k) -> k <> END_OF_OPTIONS_BYTE /\ k <> NO_OPERATION_BYTE.

Lemma option_step_keys m bs r f m' : option_step m bs = Done r (f, m') -> keys_ok m -> keys_ok m'.
Proof.
  intros Ho Hm. destruct bs as [|b [|n bs]]; simpl in Ho; repeat case_decide; simplify_eq; try done.
  intros k. unfold add_option. rewrite lookup_insert_is_Some'. intros [<-|Hk]; [done|by apply Hm].
Qed.

(** The loop ends: a round that does not end it takes at least a byte. *)
Lemma loop_returns fuel : forall bs m, length bs < fuel -> keys_ok m ->
  match parse_options_loop fuel bs false m with
  | Done _ (_, m') => keys_ok m' | Panicked | OutOfFuel => False | _ => True
  end.
Proof.
  induction fuel as [|fuel IH]; intros bs m Hf Hm; [lia|].
  destruct (option_step m bs) as [r [f m']|e|n| |] eqn:Ho.
  - rewrite (loop_step _ _ _ _ _ _ Ho). pose proof (option_step_keys _ _ _ _ _ Ho Hm). destruct f; [by destruct fuel|].
    apply option_step_shorter in Ho as [Ho|Ho]; [|done]. apply IH; [lia|done].
  - pose proof (parse_option_spec m bs) as Hp. rewrite Ho in Hp. simpl. by destruct (parse_option m bs).
  - pose proof (parse_option_spec m bs) as Hp. rewrite Ho in Hp. simpl. by destruct (parse_option m bs).
  - destruct bs as [|b [|n bs]]; simpl in Ho; repeat case_decide; done.
  - destruct bs as [|b [|n bs]]; simpl in Ho; repeat case_decide; done.
Qed.

Lemma yields_options : yields AnnounceOptions_from_bytes (fun o => keys_ok (raw_options o)).
Proof.
  apply (yields_map _ _ (fun r => keys_ok r.2)); [|done]. intros bs.
  pose proof (loop_returns (S (length bs)) bs ∅ (Nat.lt_succ_diag_r _)) as H. unfold parse_options.
  destruct (parse_options_loop _ _ _ _) as [r [f m]| | | |]; try done; apply H; intros k [c Hc]; by rewrite lookup_empty in Hc.
Qed.

(** ** Records: what is between the option byte and the next one *)

Definition record_bytes (rc : byte * bytes) : bytes := rc.1 :: as_u8 (Z.of_nat (length rc.2)) :: rc.2.

Definition record_ok (rc : byte * bytes) : Prop :=
  rc.1 <> END_OF_OPTIONS_BYTE /\ rc.1 <> NO_OPERATION_BYTE /\ length rc.2 <= 255.

Lemma step_record m rc tail : record_ok rc ->
  option_step m (record_bytes rc ++ tail) = Done tail (false, add_option m rc.1 rc.2).
Proof.
  intros (H0 & H1 & Hl). simpl. rewrite !decide_False by done. rewrite byte_val_as_u8, Z.mod_small by lia.
  rewrite Nat2Z.id, decide_True by (rewrite length_app; lia). by rewrite drop_app_length, take_app_length.
Qed.

Lemma loop_records rs : forall m tail fuel, Forall record_ok rs -> length (concat (record_bytes <$> rs) ++ tail) < fuel ->
  exists fuel', length tail < fuel' /\
    parse_options_loop fuel (concat (record_bytes <$> rs) ++ tail) false m =
    parse_options_loop fuel' tail false (foldl (fun m rc => add_option m rc.1 rc.2) m rs).
Proof.
  induction rs as [|rc rs IH]; intros m tail fuel Hrs Hf; [by exists fuel|].
  apply Forall_cons in Hrs as [Hrc Hrs]. rewrite fmap_cons in Hf |- *. cbn [concat] in Hf |- *. rewrite <- app_assoc in Hf |- *.
  destruct fuel as [|fuel]; [lia|]. rewrite (loop_step _ _ _ _ _ _ (step_record m rc _ Hrc)). simpl in Hf.
  destruct (IH (add_option m rc.1 rc.2) tail fuel Hrs) as (fuel' & Hf' & He); [rewrite length_app in Hf; simpl in Hf; lia|].
  exists fuel'. split; [done|]. by rewrite He.
Qed.

Lemma parse_records rs m tail : Forall record_ok rs ->
  let m' := foldl (fun m rc => add_option m rc.1 rc.2) m rs in
  parse_options m (concat (record_bytes <$> rs) ++ END_OF_OPTIONS_BYTE :: tail) = Done tail (true, m') /\
  parse_options m (concat (record_bytes <$> rs)) = Done [] (true, m').
Proof.
  intros Hrs m'. unfold parse_options. split.
  - destruct (loop_records rs m (END_OF_OPTIONS_BYTE :: tail) _ Hrs (Nat.lt_succ_diag_r _)) as (f & Hf & ->).
    destruct f as [|f]; [simpl in Hf; lia|]. rewrite (loop_step _ _ _ tail true m') by done. by destruct f.
  - rewrite <- (app_nil_r (concat _)).
    destruct (loop_records rs m [] _ Hrs (Nat.lt_succ_diag_r _)) as (f & Hf & ->).
    destruct f as [|f]; [simpl in Hf; lia|]. rewrite (loop_step _ _ _ [] true m') by done. by destruct f.
Qed.

End laws.

(** ** Records of a map *)

Definition records (m : gmap byte bytes) (keys : list byte) : list (byte * bytes) :=
  keys ≫= fun k => pair k <$> chunks 255 (default [] (m !! k)).

Lemma add_chunks k cs : forall m,
  foldl (fun m rc => add_option m rc.1 rc.2) m (pair k <$> cs) =
  match cs with [] => m | _ => add_option m k (concat cs) end.
Proof.
  induction cs as [|c cs IH]; intros m; simpl; [done|]. rewrite IH. destruct cs as [|c' cs]; [by rewrite app_nil_r|].
  unfold add_option. rewrite lookup_insert_eq. simpl. rewrite insert_insert_eq. by rewrite <- app_assoc.
Qed.

Lemma fold_records m keys : forall acc, NoDup keys -> (forall k, k ∈ keys -> acc !! k = None) ->
  forall j, foldl (fun m rc => add_option m rc.1 rc.2) acc (records m keys) !! j =
    if decide (j ∈ keys /\ default [] (m !! j) <> []) then m !! j else acc !! j.
Proof.
  induction keys as [|k keys IH]; intros acc Hnd Hacc j.
  - rewrite decide_False; [done|]. intros [Hj _]. by apply not_elem_of_nil in Hj.
  - apply NoDup_cons in Hnd as [Hk Hnd]. unfold records. cbn [mbind list_bind]. fold (records m keys). rewrite foldl_app, add_chunks.
    destruct (chunks 255 (default [] (m !! k))) as [|c cs] eqn:Hc.
    + apply chunks_nil in Hc. rewrite IH; [|done|intros; apply Hacc; by right].
      apply decide_ext. rewrite elem_of_cons. split; [tauto|]. intros [[->|]?]; [done|tauto].
    + rewrite IH; [|done|].
      * pose proof (concat_chunks 255 (default [] (m !! k)) ltac:(lia)) as Hcc. rewrite Hc in Hcc.
        assert (default [] (m !! k) <> []) as Hne by (intros He; by rewrite He in Hc).
        destruct (decide (j = k)) as [->|Hj].
        -- rewrite decide_False by tauto. rewrite decide_True by (rewrite elem_of_cons; tauto).
           unfold add_option. rewrite lookup_insert_eq, Hacc by left. simpl default. rewrite Hcc. by destruct (m !! k).
        -- unfold add_option. rewrite lookup_insert_ne by done. apply decide_ext. rewrite elem_of_cons. naive_solver.
      * intros k' Hk'. unfold add_option. rewrite lookup_insert_ne by (intros ->; done). apply Hacc. by right.
Qed.

(** ** Round trip *)

(** What survives the wire: options with contents.  The two reserved bytes
    cannot name an option. *)
Definition options_norm (o : AnnounceOptions) : AnnounceOptions :=
  mk_AnnounceOptions (filter (fun p => p.2 <> []) (raw_options o)).

Definition options_ok (o : AnnounceOptions) : Prop := keys_ok (raw_options o).

Definition options_bytes (iter_order : gmap byte bytes -> list byte) (o : AnnounceOptions) : bytes :=
  concat (record_bytes <$> records (raw_options o) (iter_order (raw_options o))).

Section roundtrip.
Context (iter_order : gmap byte bytes -> list byte).

Lemma records_ok o : visits_all iter_order -> options_ok o ->
  Forall record_ok (records (raw_options o) (iter_order (raw_options o))).
Proof.
  intros Hv Ho. apply Forall_forall. intros rc (k & Hrc & Hk)%list_elem_of_bind.
  apply list_elem_of_fmap in Hrc as (c & -> & Hc). apply Hv in Hk. destruct (Ho k Hk). split_and!; [done..|]. simpl.
  pose proof (chunks_bound 255 (length (default [] (raw_options o !! k))) (default [] (raw_options o !! k))) as Hb.
  rewrite Forall_forall in Hb. by apply Hb.
Qed.

Lemma records_norm o : visits_all iter_order ->
  foldl (fun m rc => add_option m rc.1 rc.2) ∅ (records (raw_options o) (iter_order (raw_options o))) =
  raw_options (options_norm o).
Proof.
  intros Hv. destruct (Hv (raw_options o)) as [Hnd Hin]. apply map_eq. intros j.
  rewrite fold_records; [|done|intros; apply lookup_empty]. simpl.
  case_decide as Hj.
  - destruct Hj as [Hj Hne]. apply Hin in Hj as [c Hc]. rewrite Hc in Hne |- *. symmetry. by apply map_lookup_filter_Some.
  - rewrite lookup_empty. symmetry. apply map_lookup_filter_None. right. intros c Hc Hne. apply Hj. rewrite Hin, Hc. by eauto.
Qed.

Lemma options_parse `{NS : NomSpec} o : visits_all iter_order -> options_ok o ->
  parses_all AnnounceOptions_from_bytes (options_bytes iter_order o) (options_norm o) /\
  forall tail, AnnounceOptions_from_bytes (options_bytes iter_order o ++ END_OF_OPTIONS_BYTE :: tail) = Done tail (options_norm o).
Proof.
  intros Hv Ho. unfold parses_all, AnnounceOptions_from_bytes.
  assert (forall tail, parse_options ∅ (options_bytes iter_order o ++ END_OF_OPTIONS_BYTE :: tail) =
    Done tail (true, raw_options (options_norm o))) as Ht.
  { intros tail. rewrite <- records_norm by done. by apply parse_records, records_ok. }
  split.
  - apply equiv_Done. rewrite map_spec. unfold options_bytes.
    rewrite (proj2 (parse_records _ ∅ [] (records_ok o Hv Ho))), records_norm by done. done.
  - intros tail. apply equiv_Done. rewrite map_spec, Ht. done.
Qed.

Context {W E : Type} `{WriteSpec W E} `{!WriteBytesExt W E} {WB : WriteBytesSpec W E}.

Lemma writes_chunks b cs : writes (write_chunks b cs) (concat (record_bytes <$> (pair b <$> cs))) [].
Proof.
  induction cs as [|c cs IH]; [apply writes_ret|]. rewrite !fmap_cons. cbn [concat]. unfold record_bytes at 1. simpl fst; simpl snd.
  change (b :: as_u8 (Z.of_nat (length c)) :: c) with ([b] ++ [as_u8 (Z.of_nat (length c))] ++ c).
  rewrite <- !app_assoc. cbn [write_chunks]. repeat (apply writes_bind; [auto with rbt|]). done.
Qed.

Lemma writes_entries m keys : writes (write_entries m keys) (concat (record_bytes <$> records m keys)) [].
Proof.
  induction keys as [|k keys IH]; [apply writes_ret|]. unfold records. cbn [mbind list_bind]. fold (records m keys).
  rewrite fmap_app, concat_app. cbn [write_entries]. apply writes_bind; [|done].
  destruct (m !! k); [apply writes_chunks|apply writes_ret].
Qed.

Lemma writes_ignored b : writes (ignored (write_u8 b)) [] [b].
Proof.
  intros w Hw. simpl. unfold ignored. rewrite !write_u8_spec. split_and!.
  - intros Hf. destruct (write_fits w [b] Hw Hf) as (w' & -> & Hw'). exists w'. done.
  - intros _ Hn. unfold fits in Hn. destruct (room w) as [[|n]|] eqn:Hr; simpl in Hn; [|lia|done].
    destruct (write_full w [b] 0 Hw Hr) as (e & w' & -> & Hw' & Hb & Hr'); [simpl; lia|].
    exists w'. split; [done|]. unfold appends. by rewrite Hb, Hr, Hr'.
  - intros Hn. exfalso. apply Hn. unfold fits. destruct (room w); simpl; [lia|done].
Qed.

Lemma writes_options o : writes (AnnounceOptions_write_bytes iter_order o) (options_bytes iter_order o) [END_OF_OPTIONS_BYTE].
Proof.
  unfold AnnounceOptions_write_bytes. rewrite <- (app_nil_r (options_bytes _ _)).
  apply writes_bind; [apply writes_entries|]. apply writes_then_ret, writes_ignored.
Qed.

End roundtrip.
