(* ===== verification/UtAnnounce.v ===== *)
(** * [bip_utracker::announce]: announce requests and responses *)

From stdpp Require Import prelude list gmap strings.
From Stdlib Require Import ZArith Lia Strings.Byte.
From S2P Require Import Prelude Bytes Convert Sha Nom WriteBytes UtContact UtOption.

Definition IMPLIED_IPV4_ID : bytes := replicate 4 x00.
Definition IMPLIED_IPV6_ID : bytes := replicate 16 x00.

Definition DEFAULT_NUM_WANT : Z := -1.

Definition ANNOUNCE_NONE_EVENT : Z := 0.
Definition ANNOUNCE_COMPLETED_EVENT : Z := 1.
Definition ANNOUNCE_STARTED_EVENT : Z := 2.
Definition ANNOUNCE_STOPPED_EVENT : Z := 3.

Definition INFO_HASH_LEN : nat := SHA_HASH_LEN.
Definition PEER_ID_LEN : nat := SHA_HASH_LEN.

(** ** Data *)

Inductive AnnounceEvent : Type :=
| EventNone
| EventCompleted
| EventStarted
| EventStopped.

Record ClientState : Type := ClientState_new {
  downloaded : Z;
  left_ : Z;
  uploaded : Z;
  event : AnnounceEvent;
}.

Inductive SourceIP : Type :=
| ImpliedV4
| ExplicitV4 (addr : Ipv4Addr)
| ImpliedV6
| ExplicitV6 (addr : Ipv6Addr).

Inductive DesiredPeers : Type :=
| DesiredDefault
| Specified (count : Z).

Record AnnounceRequest : Type := AnnounceRequest_new {
  req_info_hash : ShaHash;
  req_peer_id : ShaHash;
  req_state : ClientState;
  source_ip : SourceIP;
  req_key : Z;
  num_want : DesiredPeers;
  req_port : Z;
  req_options : AnnounceOptions;
}.

Record AnnounceResponse : Type := AnnounceResponse_new {
  interval : Z;
  leechers : Z;
  seeders : Z;
  res_peers : CompactPeers;
}.

Definition is_ipv6 (self : SourceIP) : bool :=
  match self with
  | ImpliedV6 => true
  | ExplicitV6 _ => true
  | ImpliedV4 => false
  | ExplicitV4 _ => false
  end.
Definition is_ipv4 (self : SourceIP) : bool := negb (is_ipv6 self).

Definition as_id (self : AnnounceEvent) : Z :=
  match self with
  | EventNone => ANNOUNCE_NONE_EVENT
  | EventCompleted => ANNOUNCE_COMPLETED_EVENT
  | EventStarted => ANNOUNCE_STARTED_EVENT
  | EventStopped => ANNOUNCE_STOPPED_EVENT
  end.

(** ** Parsing *)

Section parsing.
Context {N : Nom}.

Definition parse_event : parser AnnounceEvent :=
  switch be_i32 (fun id =>
    if decide (id = ANNOUNCE_NONE_EVENT) then Some (value EventNone)
    else if decide (id = ANNOUNCE_COMPLETED_EVENT) then Some (value EventCompleted)
    else if decide (id = ANNOUNCE_STARTED_EVENT) then Some (value EventStarted)
    else if decide (id = ANNOUNCE_STOPPED_EVENT) then Some (value EventStopped)
    else None).
Definition AnnounceEvent_from_bytes : parser AnnounceEvent := parse_event.

Definition parse_state : parser ClientState :=
  do_parse be_i64 (fun downloaded =>
  do_parse be_i64 (fun left_ =>
  do_parse be_i64 (fun uploaded =>
  do_parse AnnounceEvent_from_bytes (fun event =>
  value (ClientState_new downloaded left_ uploaded event))))).
Definition ClientState_from_bytes : parser ClientState := parse_state.

Definition parse_ipv4 : parser Ipv4Addr := nom_map (count_fixed 4 be_u8) bytes_be_to_ipv4.
Definition parse_ipv6 : parser Ipv6Addr := nom_map (count_fixed 16 be_u8) bytes_be_to_ipv6.

Definition parse_preference_v4 : parser SourceIP :=
  alt (nom_map (tag IMPLIED_IPV4_ID) (fun _ => ImpliedV4)) (nom_map parse_ipv4 ExplicitV4).
Definition parse_preference_v6 : parser SourceIP :=
  alt (nom_map (tag IMPLIED_IPV6_ID) (fun _ => ImpliedV6)) (nom_map parse_ipv6 ExplicitV6).
Definition SourceIP_from_bytes_v4 : parser SourceIP := parse_preference_v4.
Definition SourceIP_from_bytes_v6 : parser SourceIP := parse_preference_v6.

Definition parse_desired : parser DesiredPeers :=
  switch (tuple be_i32 (value true)) (fun '(specified_peers, b) =>
    if decide (specified_peers = DEFAULT_NUM_WANT /\ b = true) then Some (value DesiredDefault)
    else if decide (b = true) then Some (value (Specified specified_peers))
    else None).
Definition DesiredPeers_from_bytes : parser DesiredPeers := parse_desired.

(** [InfoHash::from_hash(bytes).unwrap()] in a closure. *)
Definition unwrap_hash (bs : bytes) : parser ShaHash :=
  fun i => match from_hash bs with Ok h => Done i h | _ => Panicked end.

Definition announce_parse_request (ip_type : parser SourceIP) : parser AnnounceRequest :=
  do_parse (do_parse (nom_take INFO_HASH_LEN) unwrap_hash) (fun info_hash =>
  do_parse (do_parse (nom_take PEER_ID_LEN) unwrap_hash) (fun peer_id =>
  do_parse ClientState_from_bytes (fun state =>
  do_parse ip_type (fun ip =>
  do_parse be_u32 (fun key =>
  do_parse DesiredPeers_from_bytes (fun num_want =>
  do_parse be_u16 (fun port =>
  do_parse AnnounceOptions_from_bytes (fun options =>
  value (AnnounceRequest_new info_hash peer_id state ip key num_want port options))))))))).

Definition AnnounceRequest_from_bytes_v4 : parser AnnounceRequest := announce_parse_request SourceIP_from_bytes_v4.
Definition AnnounceRequest_from_bytes_v6 : parser AnnounceRequest := announce_parse_request SourceIP_from_bytes_v6.

Definition announce_parse_respone (peers_type : parser CompactPeers) : parser AnnounceResponse :=
  do_parse be_i32 (fun interval =>
  do_parse be_i32 (fun leechers =>
  do_parse be_i32 (fun seeders =>
  do_parse peers_type (fun peers =>
  value (AnnounceResponse_new interval leechers seeders peers))))).

Definition AnnounceResponse_from_bytes_v4 : parser AnnounceResponse := announce_parse_respone CompactPeers_from_bytes_v4.
Definition AnnounceResponse_from_bytes_v6 : parser AnnounceResponse := announce_parse_respone CompactPeers_from_bytes_v6.

End parsing.

(** ** Writing *)

Section writing.
Context {W E : Type} `{Write W E, WriteBytesExt W E} (iter_order : gmap byte bytes -> list byte).

Definition AnnounceEvent_write_bytes (self : AnnounceEvent) : stM W E () :=
  _ ← write_i32 (as_id self); mret ().

Definition ClientState_write_bytes (self : ClientState) : stM W E () :=
  _ ← write_i64 (downloaded self);
  _ ← write_i64 (left_ self);
  _ ← write_i64 (uploaded self);
  _ ← AnnounceEvent_write_bytes (event self);
  mret ().

Definition write_bytes_slice (bs : bytes) : stM W E () := write_all bs.

Definition SourceIP_write_bytes (self : SourceIP) : stM W E () :=
  match self with
  | ImpliedV4 => write_bytes_slice IMPLIED_IPV4_ID
  | ImpliedV6 => write_bytes_slice IMPLIED_IPV6_ID
  | ExplicitV4 addr => write_bytes_slice (ipv4_to_bytes_be addr)
  | ExplicitV6 addr => write_bytes_slice (ipv6_to_bytes_be addr)
  end.

Definition DesiredPeers_write_bytes (self : DesiredPeers) : stM W E () :=
  let write_value := match self with DesiredDefault => DEFAULT_NUM_WANT | Specified count => count end in
  _ ← write_i32 write_value; mret ().

Definition AnnounceRequest_write_bytes (self : AnnounceRequest) : stM W E () :=
  _ ← write_all (sha_hash (req_info_hash self));
  _ ← write_all (sha_hash (req_peer_id self));
  _ ← ClientState_write_bytes (req_state self);
  _ ← SourceIP_write_bytes (source_ip self);
  _ ← write_u32 (req_key self);
  _ ← DesiredPeers_write_bytes (num_want self);
  _ ← write_u16 (req_port self);
  _ ← AnnounceOptions_write_bytes iter_order (req_options self);
  mret ().

Definition AnnounceResponse_write_bytes (self : AnnounceResponse) : stM W E () :=
  _ ← write_i32 (interval self);
  _ ← write_i32 (leechers self);
  _ ← write_i32 (seeders self);
  _ ← CompactPeers_write_bytes (res_peers self);
  mret ().

End writing.

(** ** Encodings, and the values they stand for

    An explicit all-zero address reads back as an implied one, a request for
    minus one peers as the default, an option without contents not at all. *)

Definition state_bytes (s : ClientState) : bytes :=
  be_bytes 8 (downloaded s) ++ be_bytes 8 (left_ s) ++ be_bytes 8 (uploaded s) ++ be_bytes 4 (as_id (event s)).

Definition ip_bytes (ip : SourceIP) : bytes :=
  match ip with
  | ImpliedV4 => IMPLIED_IPV4_ID
  | ImpliedV6 => IMPLIED_IPV6_ID
  | ExplicitV4 addr => ipv4_to_bytes_be addr
  | ExplicitV6 addr => ipv6_to_bytes_be addr
  end.

Definition want_value (d : DesiredPeers) : Z := match d with DesiredDefault => DEFAULT_NUM_WANT | Specified c => c end.

Definition announce_head (r : AnnounceRequest) : bytes :=
  sha_hash (req_info_hash r) ++ sha_hash (req_peer_id r) ++ state_bytes (req_state r) ++ ip_bytes (source_ip r) ++
  be_bytes 4 (req_key r) ++ be_bytes 4 (want_value (num_want r)) ++ be_bytes 2 (req_port r).

Definition announce_bytes (iter_order : gmap byte bytes -> list byte) (r : AnnounceRequest) : bytes :=
  announce_head r ++ options_bytes iter_order (req_options r).

Definition response_bytes (r : AnnounceResponse) : bytes :=
  be_bytes 4 (interval r) ++ be_bytes 4 (leechers r) ++ be_bytes 4 (seeders r) ++ peers_bytes (res_peers r).

Definition ip_norm (ip : SourceIP) : SourceIP :=
  if decide (ip_bytes ip = IMPLIED_IPV4_ID) then ImpliedV4
  else if decide (ip_bytes ip = IMPLIED_IPV6_ID) then ImpliedV6 else ip.

Definition want_norm (d : DesiredPeers) : DesiredPeers :=
  if decide (want_value d = DEFAULT_NUM_WANT) then DesiredDefault else d.

Definition announce_norm (r : AnnounceRequest) : AnnounceRequest :=
  AnnounceRequest_new (req_info_hash r) (req_peer_id r) (req_state r) (ip_norm (source_ip r)) (req_key r)
    (want_norm (num_want r)) (req_port r) (options_norm (req_options r)).

Definition ip_wf (ip : SourceIP) : Prop := match ip with ExplicitV6 addr => ipv6_wf addr | _ => True end.

Definition state_wf (s : ClientState) : Prop :=
  in_signed 64 (downloaded s) /\ in_signed 64 (left_ s) /\ in_signed 64 (uploaded s).

Definition announce_wf (r : AnnounceRequest) : Prop :=
  sha_wf (req_info_hash r) /\ sha_wf (req_peer_id r) /\ state_wf (req_state r) /\ ip_wf (source_ip r) /\
  in_unsigned 32 (req_key r) /\ in_signed 32 (want_value (num_want r)) /\ in_unsigned 16 (req_port r) /\
  options_ok (req_options r).

Definition response_wf (r : AnnounceResponse) : Prop :=
  in_signed 32 (interval r) /\ in_signed 32 (leechers r) /\ in_signed 32 (seeders r) /\ exists l, peers_wf (res_peers r) l.

Section parse_lemmas.
Context {N : Nom} {NS : NomSpec N}.

Lemma parses_event e : parses AnnounceEvent_from_bytes (be_bytes 4 (as_id e)) e.
Proof.
  eapply parses_switch_value; [apply parses_i32; by destruct e|]. by destruct e.
Qed.

Lemma parses_state s : state_wf s -> parses ClientState_from_bytes (state_bytes s) s.
Proof.
  intros (H1 & H2 & H3). unfold ClientState_from_bytes, parse_state, state_bytes.
  do 3 (eapply parses_do; [by apply parses_i64|]). eapply parses_do_value; [apply parses_event|].
  destruct s. apply parses_value.
Qed.

Lemma parses_ip (tg : bytes) (p : parser SourceIP) ip0 ip bs :
  length bs = length tg -> parses p bs ip ->
  parses (alt (nom_map (tag tg) (fun _ => ip0)) p) bs (if decide (bs = tg) then ip0 else ip).
Proof.
  intros Hl Hp. case_decide as Ht.
  - subst. apply parses_alt_l, (parses_map (tag tg) (fun _ => ip0) tg tg), parses_tag.
  - intros rest. apply equiv_Done. destruct (tag_other tg (bs ++ rest)) as [e He].
    + rewrite length_app. lia.
    + rewrite take_app_length' by done. done.
    + destruct (map_Error _ (fun _ => ip0) _ _ He) as [e' He']. rewrite (alt_r _ _ _ _ He'), Hp. done.
Qed.

Lemma parses_source_ip ip : ip_wf ip ->
  parses (if is_ipv4 ip then SourceIP_from_bytes_v4 else SourceIP_from_bytes_v6) (ip_bytes ip) (ip_norm ip).
Proof.
  intros Hw. destruct ip as [|a| |a]; cbn [is_ipv4 is_ipv6 negb].
  - apply parses_alt_l, (parses_map _ (fun _ => ImpliedV4) _ _ (parses_tag IMPLIED_IPV4_ID)).
  - unfold ip_norm. cbn [ip_bytes].
    rewrite (decide_False (P := ipv4_to_bytes_be a = IMPLIED_IPV6_ID)) by done.
    apply (parses_ip IMPLIED_IPV4_ID); [done|]. rewrite <- (ipv4_roundtrip a) at 2.
    apply parses_map, parses_map, parses_count. done.
  - apply parses_alt_l, (parses_map _ (fun _ => ImpliedV6) _ _ (parses_tag IMPLIED_IPV6_ID)).
  - unfold ip_norm. cbn [ip_bytes]. pose proof (length_ipv6_bytes a) as Hl.
    rewrite (decide_False (P := ipv6_to_bytes_be a = IMPLIED_IPV4_ID)) by (intros He; by rewrite He in Hl).
    apply (parses_ip IMPLIED_IPV6_ID); [done|]. rewrite <- (ipv6_roundtrip a) at 2 by done.
    apply parses_map, parses_map, parses_count. done.
Qed.

Lemma parses_desired d : in_signed 32 (want_value d) ->
  parses DesiredPeers_from_bytes (be_bytes 4 (want_value d)) (want_norm d).
Proof.
  intros Hd. eapply parses_switch_value.
  - rewrite <- (app_nil_r (be_bytes _ _)). apply parses_tuple; [by apply parses_i32|apply parses_value].
  - unfold want_norm. destruct (decide (want_value d = DEFAULT_NUM_WANT)) as [He|He].
    + by rewrite decide_True.
    + rewrite decide_False by tauto. by destruct d.
Qed.

Lemma parses_hash h : sha_wf h -> parses (do_parse (nom_take SHA_HASH_LEN) unwrap_hash) (sha_hash h) h.
Proof.
  intros Hh. eapply parses_do_value; [by apply parses_take|]. intros rest. unfold unwrap_hash, from_hash.
  rewrite decide_False by (unfold sha_wf in Hh; lia). rewrite copy_whole by done. by destruct h.
Qed.

Definition announce_parser (r : AnnounceRequest) : parser AnnounceRequest :=
  if is_ipv4 (source_ip r) then AnnounceRequest_from_bytes_v4 else AnnounceRequest_from_bytes_v6.

Lemma announce_parser_ip r :
  announce_parser r = announce_parse_request (if is_ipv4 (source_ip r) then SourceIP_from_bytes_v4 else SourceIP_from_bytes_v6).
Proof. unfold announce_parser. by destruct (is_ipv4 (source_ip r)). Qed.

Lemma announce_parse iter_order r : visits_all iter_order -> announce_wf r ->
  parses_all (announce_parser r) (announce_bytes iter_order r) (announce_norm r) /\
  forall tail, announce_parser r (announce_bytes iter_order r ++ END_OF_OPTIONS_BYTE :: tail) = Done tail (announce_norm r).
Proof.
  intros Hv (Hh & Hp & Hs & Hi & Hk & Hw & Hport & Ho).
  destruct (options_parse iter_order (req_options r) Hv Ho) as [Hend Htail].
  assert (forall bs rest, AnnounceOptions_from_bytes bs = Done rest (options_norm (req_options r)) ->
    announce_parser r (announce_head r ++ bs) = Done rest (announce_norm r)) as Hgen.
  { intros bs rest Hbs. rewrite announce_parser_ip. unfold announce_head. rewrite <- !app_assoc. apply equiv_Done.
    unfold announce_parse_request.
    erewrite do_parse_Done by apply (parses_hash _ Hh). erewrite do_parse_Done by apply (parses_hash _ Hp).
    erewrite do_parse_Done by apply (parses_state _ Hs). erewrite do_parse_Done by apply (parses_source_ip _ Hi).
    erewrite do_parse_Done by apply (parses_u32 _ Hk). erewrite do_parse_Done by apply (parses_desired _ Hw).
    erewrite do_parse_Done by apply (parses_u16 _ Hport). erewrite do_parse_Done by exact Hbs. apply value_spec. }
  unfold announce_bytes. split; [by apply Hgen|]. intros tail. rewrite <- app_assoc. apply Hgen, Htail.
Qed.

Definition response_parser (r : AnnounceResponse) : parser AnnounceResponse :=
  match res_peers r with PeersV4 _ => AnnounceResponse_from_bytes_v4 | PeersV6 _ => AnnounceResponse_from_bytes_v6 end.

Lemma response_parse r : response_wf r -> parses_all (response_parser r) (response_bytes r) r.
Proof.
  intros (H1 & H2 & H3 & l & Hl). pose proof (peers_parse_ok (E := nom_error) _ _ Hl) as Hp.
  assert (response_parser r = announce_parse_respone (peers_parser (res_peers r))) as ->.
  { unfold response_parser, peers_parser. by destruct (res_peers r). }
  unfold announce_parse_respone, response_bytes. do 3 (eapply parses_do_all; [by apply parses_i32|]).
  apply equiv_Done. rewrite do_parse_spec, Hp. simpl. rewrite value_spec. by destruct r.
Qed.

(** Whatever is parsed is well formed. *)

Lemma yields_hash : yields (do_parse (nom_take SHA_HASH_LEN) unwrap_hash) sha_wf.
Proof.
  eapply yields_do; [apply yields_take|]. intros bs Hl i. unfold unwrap_hash, from_hash.
  rewrite decide_False by (intros Hn; exact (Hn Hl)). unfold sha_wf. cbn [sha_hash]. by rewrite copy_whole.
Qed.

Lemma yields_state : yields ClientState_from_bytes state_wf.
Proof.
  do 3 (eapply yields_do; [apply yields_i64|intros ? ?]). apply (yields_do _ _ (fun _ => True)).
  - eapply yields_switch; [apply yields_i32|]. intros id q _ Hq. repeat case_decide; simplify_eq; by apply yields_value.
  - intros e _. by apply yields_value.
Qed.

Lemma yields_ip_v4 : yields SourceIP_from_bytes_v4 ip_wf.
Proof.
  apply yields_alt; [by eapply yields_map; [apply yields_tag|]|].
  eapply (yields_map _ _ (fun _ => True)); [|done]. by eapply yields_map; [apply yields_count|].
Qed.

Lemma yields_ip_v6 : yields SourceIP_from_bytes_v6 ip_wf.
Proof.
  apply yields_alt; [by eapply yields_map; [apply yields_tag|]|].
  eapply (yields_map _ _ ipv6_wf); [|done]. eapply yields_map; [apply yields_count|]. intros bs. apply bytes_be_to_ipv6_wf.
Qed.

Lemma yields_desired : yields DesiredPeers_from_bytes (fun d => in_signed 32 (want_value d)).
Proof.
  eapply yields_switch.
  - apply yields_tuple; [apply yields_i32|]. by apply (yields_value true (fun _ => True)).
  - intros [z b] q [Hz _] Hq. repeat case_decide; simplify_eq; by apply yields_value.
Qed.

Lemma yields_announce ip : yields ip ip_wf -> yields (announce_parse_request ip) announce_wf.
Proof.
  intros Hip. eapply yields_do; [apply yields_hash|intros h Hh]. eapply yields_do; [apply yields_hash|intros p Hp].
  eapply yields_do; [apply yields_state|intros s Hs]. eapply yields_do; [apply Hip|intros i Hi].
  eapply yields_do; [apply yields_u32|intros k Hk]. eapply yields_do; [apply yields_desired|intros d Hd].
  eapply yields_do; [apply yields_u16|intros port Hport]. eapply yields_do; [apply yields_options|intros o Ho].
  by apply yields_value.
Qed.

Lemma yields_response p0 : yields (announce_parse_respone (peers_parser p0)) response_wf.
Proof.
  eapply yields_do; [apply yields_i32|intros i Hi]. eapply yields_do; [apply yields_i32|intros l Hl].
  eapply yields_do; [apply yields_i32|intros s Hs]. apply (yields_do _ _ (fun p => exists l, peers_wf p l)).
  - intros bs. destruct (peers_parser p0 bs) as [r p| | | |] eqn:Hp; try done.
    + by apply peers_parse_inv in Hp as (_ & _ & Hw).
    + destruct p0; simpl in Hp; unfold CompactPeers_from_bytes_v4, CompactPeers_from_bytes_v6, CompactPeersV4_from_bytes,
        CompactPeersV6_from_bytes, parse_peers_v4, parse_peers_v6 in Hp; by case_decide.
    + destruct p0; simpl in Hp; unfold CompactPeers_from_bytes_v4, CompactPeers_from_bytes_v6, CompactPeersV4_from_bytes,
        CompactPeersV6_from_bytes, parse_peers_v4, parse_peers_v6 in Hp; by case_decide.
  - intros p Hp. by apply yields_value.
Qed.

End parse_lemmas.

Section write_lemmas.
Context {W E : Type} `{WriteSpec W E} `{!WriteBytesExt W E} {WB : WriteBytesSpec W E}.

Lemma writes_state s : writes (ClientState_write_bytes s) (state_bytes s) [].
Proof.
  unfold ClientState_write_bytes, state_bytes. do 3 (apply writes_bind; [auto with rbt|]).
  apply writes_then_ret. apply writes_then_ret. auto with rbt.
Qed.

Lemma writes_ip ip : writes (SourceIP_write_bytes ip) (ip_bytes ip) [].
Proof. destruct ip; apply writes_all. Qed.

Lemma writes_announce iter_order r :
  writes (AnnounceRequest_write_bytes iter_order r) (announce_bytes iter_order r) [END_OF_OPTIONS_BYTE].
Proof.
  unfold AnnounceRequest_write_bytes, announce_bytes, announce_head. rewrite <- !app_assoc.
  apply writes_bind; [auto with rbt|]. apply writes_bind; [auto with rbt|]. apply writes_bind; [apply writes_state|].
  apply writes_bind; [apply writes_ip|]. apply writes_bind; [auto with rbt|].
  apply writes_bind; [apply writes_then_ret; destruct (num_want r); apply writes_i32|]. apply writes_bind; [auto with rbt|].
  apply writes_then_ret. by apply writes_options.
Qed.

Lemma writes_peers p : writes (CompactPeers_write_bytes p) (peers_bytes p) [].
Proof. destruct p; apply writes_then_ret, writes_all. Qed.

Lemma writes_response r : writes (AnnounceResponse_write_bytes r) (response_bytes r) [].
Proof.
  unfold AnnounceResponse_write_bytes, response_bytes. do 3 (apply writes_bind; [auto with rbt|]).
  apply writes_then_ret, writes_peers.
Qed.

End write_lemmas.
