(* ===== verification/UtScrape.v ===== *)
(** * [bip_utracker::scrape]: scrape requests and responses *)

From stdpp Require Import prelude list gmap strings.
From Stdlib Require Import ZArith Lia Strings.Byte.
From S2P Require Import Prelude Bytes Convert Sha Nom WriteBytes UtContact UtAnnounce.

Definition SCRAPE_STATS_BYTES : nat := 12.

Record ScrapeStats : Type := ScrapeStats_new {
  num_seeders : Z;
  num_downloads : Z;
  num_leechers : Z;
}.

Record ScrapeRequest : Type := mk_ScrapeRequest { hashes : bytes }.
Record ScrapeResponse : Type := mk_ScrapeResponse { stats : bytes }.

Definition ScrapeRequest_new : ScrapeRequest := mk_ScrapeRequest [].
Definition ScrapeResponse_new : ScrapeResponse := mk_ScrapeResponse [].

(** ** Parsing *)

Definition parse_stats `{Nom} : parser ScrapeStats :=
  do_parse be_i32 (fun seeders =>
  do_parse be_i32 (fun downloaded =>
  do_parse be_i32 (fun leechers =>
  value (ScrapeStats_new seeders downloaded leechers)))).
Definition ScrapeStats_from_bytes `{Nom} : parser ScrapeStats := parse_stats.

Definition scrape_parse_request {E} (bs : bytes) : IResult E ScrapeRequest :=
  let remainder_bytes := length bs mod INFO_HASH_LEN in
  if decide (remainder_bytes <> 0) then Incomplete (NeededSize (INFO_HASH_LEN - remainder_bytes))
  else
    let end_of_bytes := slice bs (length bs) (length bs) in
    Done end_of_bytes (mk_ScrapeRequest bs).
Definition ScrapeRequest_from_bytes {E} (bs : bytes) : IResult E ScrapeRequest := scrape_parse_request bs.

Definition scrape_parse_response {E} (bs : bytes) : IResult E ScrapeResponse :=
  let remainder_bytes := length bs mod SCRAPE_STATS_BYTES in
  if decide (remainder_bytes <> 0) then Incomplete (NeededSize (SCRAPE_STATS_BYTES - remainder_bytes))
  else
    let end_of_bytes := slice bs (length bs) (length bs) in
    Done end_of_bytes (mk_ScrapeResponse bs).
Definition ScrapeResponse_from_bytes {E} (bs : bytes) : IResult E ScrapeResponse := scrape_parse_response bs.

(** ** Writing and building *)

Definition ScrapeRequest_write_bytes {W E} `{Write W E} (self : ScrapeRequest) : stM W E () := write_all (hashes self).
Definition ScrapeResponse_write_bytes {W E} `{Write W E} (self : ScrapeResponse) : stM W E () := write_all (stats self).

Definition ScrapeRequest_insert (self : ScrapeRequest) (hash : ShaHash) : ScrapeRequest :=
  mk_ScrapeRequest (hashes self ++ sha_hash hash).

Definition ScrapeResponse_insert (self : ScrapeResponse) (s : ScrapeStats) : ScrapeResponse :=
  let seeders_bytes := four_bytes_to_array (as_unsigned 32 (num_seeders s)) in
  let downloads_bytes := four_bytes_to_array (as_unsigned 32 (num_downloads s)) in
  let leechers_bytes := four_bytes_to_array (as_unsigned 32 (num_leechers s)) in
  mk_ScrapeResponse (((stats self ++ seeders_bytes) ++ downloads_bytes) ++ leechers_bytes).

(** ** Iterators *)

Record ScrapeRequestIter : Type := mk_ScrapeRequestIter { iter_hashes : bytes; offset_hashes : nat }.
Record ScrapeResponseIter : Type := mk_ScrapeResponseIter { iter_stats : bytes; offset_stats : nat }.

Definition ScrapeRequestIter_new (bs : bytes) : ScrapeRequestIter := mk_ScrapeRequestIter bs 0.
Definition ScrapeResponseIter_new (bs : bytes) : ScrapeResponseIter := mk_ScrapeResponseIter bs 0.
Definition ScrapeRequest_iter (self : ScrapeRequest) : ScrapeRequestIter := ScrapeRequestIter_new (hashes self).
Definition ScrapeResponse_iter (self : ScrapeResponse) : ScrapeResponseIter := ScrapeResponseIter_new (stats self).

Definition ScrapeRequestIter_next (self : ScrapeRequestIter) : outcome Empty_set (option ShaHash * ScrapeRequestIter) :=
  if decide (offset_hashes self = length (iter_hashes self)) then Ok (None, self)
  else
    let start := offset_hashes self in
    let end_ := offset_hashes self + INFO_HASH_LEN in
    bs ← slice_checked (iter_hashes self) start end_;
    match from_hash bs with
    | Ok h => Ok (Some h, mk_ScrapeRequestIter (iter_hashes self) end_)
    | _ => Panic
    end.

Definition ScrapeResponseIter_next `{Nom} (self : ScrapeResponseIter) :
    outcome Empty_set (option ScrapeStats * ScrapeResponseIter) :=
  if decide (offset_stats self = length (iter_stats self)) then Ok (None, self)
  else
    let start := offset_stats self in
    let end_ := offset_stats self + SCRAPE_STATS_BYTES in
    bs ← slice_checked (iter_stats self) start end_;
    match ScrapeStats_from_bytes bs with
    | Done _ s => Ok (Some s, mk_ScrapeResponseIter (iter_stats self) end_)
    | OutOfFuel => NoFuel
    | _ => Panic
    end.

(** [ExactSizeIterator::len] *)
Definition ScrapeRequestIter_len (self : ScrapeRequestIter) : nat := length (iter_hashes self) / INFO_HASH_LEN.
Definition ScrapeResponseIter_len (self : ScrapeResponseIter) : nat := length (iter_stats self) / SCRAPE_STATS_BYTES.

(** A loop over an iterator whose steps may panic. *)
Fixpoint drain_checked {I A} (next : I -> outcome Empty_set (option A * I)) (fuel : nat) (it : I) :
    outcome Empty_set (list A) :=
  match fuel with
  | O => NoFuel
  | S fuel =>
      r ← next it;
      match r with
      | (None, _) => Ok []
      | (Some a, it) => l ← drain_checked next fuel it; Ok (a :: l)
      end
  end.

(** ** The contents of requests and responses *)

Definition request_of (l : list ShaHash) : ScrapeRequest := foldl ScrapeRequest_insert ScrapeRequest_new l.
Definition response_of (l : list ScrapeStats) : ScrapeResponse := foldl ScrapeResponse_insert ScrapeResponse_new l.

Definition stats_wf (s : ScrapeStats) : Prop :=
  in_signed 32 (num_seeders s) /\ in_signed 32 (num_downloads s) /\ in_signed 32 (num_leechers s).

Definition stats_bytes (s : ScrapeStats) : bytes :=
  be_bytes 4 (num_seeders s) ++ be_bytes 4 (num_downloads s) ++ be_bytes 4 (num_leechers s).

Lemma request_of_bytes l : hashes (request_of l) = concat (sha_hash <$> l).
Proof.
  induction l as [|h l IH] using rev_ind; [done|]. unfold request_of. rewrite foldl_snoc. simpl. fold (request_of l).
  rewrite IH, fmap_app, concat_app. change (concat (sha_hash <$> [h])) with (sha_hash h ++ []). by rewrite app_nil_r.
Qed.

Lemma insert_stats r s : stats (ScrapeResponse_insert r s) = stats r ++ stats_bytes s.
Proof.
  unfold ScrapeResponse_insert, stats_bytes. cbn [stats]. rewrite !four_bytes_be. unfold as_unsigned.
  rewrite !(be_bytes_mod 4 _ 32) by done. by rewrite !app_assoc.
Qed.

Lemma response_of_bytes l : stats (response_of l) = concat (stats_bytes <$> l).
Proof.
  induction l as [|s l IH] using rev_ind; [done|]. unfold response_of. rewrite foldl_snoc, insert_stats. fold (response_of l).
  rewrite IH, fmap_app, concat_app. change (concat (stats_bytes <$> [s])) with (stats_bytes s ++ []). by rewrite app_nil_r.
Qed.

Section chunks.
Context {I A : Type} (next : I -> outcome Empty_set (option A * I)) (it : bytes -> nat -> I) (k : nat) (R : bytes -> A -> Prop).
Hypothesis Hend : forall bs, next (it bs (length bs)) = Ok (None, it bs (length bs)).
Hypothesis Hnext : forall bs off a, off + k <= length bs -> R (take k (drop off bs)) a ->
  next (it bs off) = Ok (Some a, it bs (off + k)).

Lemma drain_checked_chunks (cs : list bytes) (l : list A) : forall pre fuel,
  Forall (fun c => length c = k) cs -> Forall2 R cs l -> length cs < fuel ->
  drain_checked next fuel (it (pre ++ concat cs) (length pre)) = Ok l.
Proof using Hend Hnext.
  intros pre fuel Hk Hr. revert pre fuel Hk. induction Hr as [|c a cs l Ha Hr IH]; intros pre fuel Hk Hf;
    (destruct fuel as [|fuel]; [simpl in Hf; lia|]); cbn [concat drain_checked].
  - rewrite app_nil_r. by rewrite Hend.
  - apply Forall_cons in Hk as [Hc Hk]. rewrite (Hnext _ _ a).
    + specialize (IH (pre ++ c) fuel Hk ltac:(simpl in Hf; lia)). rewrite length_app, Hc, <- app_assoc in IH. simpl. by rewrite IH.
    + rewrite !length_app. lia.
    + by rewrite drop_app_length, (take_app_length' c) by lia.
Qed.

End chunks.

Lemma Forall2_records {A} (enc : A -> bytes) (R : bytes -> A -> Prop) l :
  Forall (fun a => R (enc a) a) l -> Forall2 R (enc <$> l) l.
Proof. induction 1; constructor; done. Qed.

Lemma request_drain l : Forall sha_wf l ->
  drain_checked ScrapeRequestIter_next (S (length l)) (ScrapeRequest_iter (request_of l)) = Ok l.
Proof.
  intros Hl. unfold ScrapeRequest_iter, ScrapeRequestIter_new. rewrite request_of_bytes.
  refine (drain_checked_chunks ScrapeRequestIter_next mk_ScrapeRequestIter INFO_HASH_LEN (fun c h => sha_wf h /\ c = sha_hash h)
    _ _ (sha_hash <$> l) l [] _ _ _ _).
  - intros bs. unfold ScrapeRequestIter_next. cbn [offset_hashes iter_hashes]. by rewrite decide_True.
  - intros bs off h Ho [Hh Hc]. unfold ScrapeRequestIter_next. cbn [offset_hashes iter_hashes].
    rewrite decide_False by (change INFO_HASH_LEN with 20 in Ho; lia).
    rewrite slice_checked_eq by lia. unfold slice. replace (off + INFO_HASH_LEN - off) with INFO_HASH_LEN by lia.
    rewrite Hc. simpl. unfold from_hash. rewrite decide_False by (unfold sha_wf in Hh; lia).
    rewrite copy_whole by done. by destruct h.
  - by apply Forall_fmap.
  - apply Forall2_records. eapply Forall_impl; [done|]. done.
  - rewrite length_fmap. lia.
Qed.

Lemma response_drain `{NS : NomSpec} l : Forall stats_wf l ->
  drain_checked ScrapeResponseIter_next (S (length l)) (ScrapeResponse_iter (response_of l)) = Ok l.
Proof.
  intros Hl. unfold ScrapeResponse_iter, ScrapeResponseIter_new. rewrite response_of_bytes.
  refine (drain_checked_chunks ScrapeResponseIter_next mk_ScrapeResponseIter SCRAPE_STATS_BYTES
    (fun c s => stats_wf s /\ c = stats_bytes s) _ _ (stats_bytes <$> l) l [] _ _ _ _).
  - intros bs. unfold ScrapeResponseIter_next. cbn [offset_stats iter_stats]. by rewrite decide_True.
  - intros bs off s Ho [(H1 & H2 & H3) Hc]. unfold ScrapeResponseIter_next. cbn [offset_stats iter_stats].
    rewrite decide_False by (change SCRAPE_STATS_BYTES with 12 in Ho; lia).
    rewrite slice_checked_eq by lia. unfold slice. replace (off + SCRAPE_STATS_BYTES - off) with SCRAPE_STATS_BYTES by lia.
    rewrite Hc. cbn [mbind outcome_bind].
    assert (parses_all ScrapeStats_from_bytes (stats_bytes s) s) as ->; [|done].
    unfold ScrapeStats_from_bytes, parse_stats, stats_bytes. do 2 (eapply parses_do_all; [by apply parses_i32|]).
    rewrite <- (app_nil_r (be_bytes 4 (num_leechers s))). eapply parses_do_all; [by apply parses_i32|].
    destruct s. apply (parses_value _ []).
  - by apply Forall_fmap, Forall_true.
  - apply Forall2_records. eapply Forall_impl; [done|]. done.
  - rewrite length_fmap. lia.
Qed.

Lemma parse_request_ok {E} l : Forall sha_wf l -> ScrapeRequest_from_bytes (E := E) (hashes (request_of l)) = Done [] (request_of l).
Proof.
  intros Hl. unfold ScrapeRequest_from_bytes, scrape_parse_request. rewrite decide_False.
  - unfold slice. rewrite Nat.sub_diag. simpl. by destruct (request_of l).
  - rewrite request_of_bytes. assert (length (concat (sha_hash <$> l)) = INFO_HASH_LEN * length l) as ->.
    { induction Hl as [|h l Hh Hl IH]; [done|]. rewrite fmap_cons. cbn [concat length]. rewrite length_app, IH, Hh. unfold INFO_HASH_LEN. lia. }
    rewrite Nat.mul_comm, Nat.Div0.mod_mul. lia.
Qed.

Lemma parse_response_ok {E} l : ScrapeResponse_from_bytes (E := E) (stats (response_of l)) = Done [] (response_of l).
Proof.
  unfold ScrapeResponse_from_bytes, scrape_parse_response. rewrite decide_False.
  - unfold slice. rewrite Nat.sub_diag. simpl. by destruct (response_of l).
  - rewrite response_of_bytes, (concat_records _ 12) by done. rewrite Nat.mul_comm, Nat.Div0.mod_mul. lia.
Qed.

(** Scraping keeps what it is given, in order: a request of any hashes and a
    response of any statistics is accepted by its parser and its iterator gives
    back exactly those, without a panic; the length the iterators announce is
    their number, but it does not go down as they are consumed. *)
Theorem scrape_contract `{NS : NomSpec} (hs : list ShaHash) (ss : list ScrapeStats) :
  Forall sha_wf hs -> Forall stats_wf ss ->
  ScrapeRequest_from_bytes (E := nom_error) (hashes (request_of hs)) = Done [] (request_of hs) /\
  drain_checked ScrapeRequestIter_next (S (length hs)) (ScrapeRequest_iter (request_of hs)) = Ok hs /\
  ScrapeResponse_from_bytes (E := nom_error) (stats (response_of ss)) = Done [] (response_of ss) /\
  drain_checked ScrapeResponseIter_next (S (length ss)) (ScrapeResponse_iter (response_of ss)) = Ok ss /\
  ScrapeResponseIter_len (ScrapeResponse_iter (response_of ss)) = length ss /\
  (forall it s it', ScrapeResponseIter_next it = Ok (Some s, it') -> ScrapeResponseIter_len it' = ScrapeResponseIter_len it).
Proof.
  intros Hh Hs. split_and!; [by apply parse_request_ok|by apply request_drain|apply parse_response_ok|by apply response_drain| |].
  - change (length (stats (response_of ss)) / 12 = length ss). rewrite response_of_bytes, (concat_records _ 12) by done.
    rewrite Nat.mul_comm. by apply Nat.div_mul.
  - intros it s it'. unfold ScrapeResponseIter_next. case_decide; [done|]. intros Hn. outcome_inv.
    destruct (ScrapeStats_from_bytes _); try done. by injection Hn as _ <-.
Qed.

Lemma scrape_contract_witness :
  drain_checked (ScrapeResponseIter_next (H := nom_ref)) 3
    (ScrapeResponse_iter (response_of [ScrapeStats_new 1 2 (-3); ScrapeStats_new 4 5 6])) =
  Ok [ScrapeStats_new 1 2 (-3); ScrapeStats_new 4 5 6].
Proof.
  eapply (@scrape_contract nom_ref nom_ref_spec [] [ScrapeStats_new 1 2 (-3); ScrapeStats_new 4 5 6]); [done|].
  repeat constructor; vm_compute; done.
Defined.
