(* ===== verification/UtMessage.v ===== *)
(** * [bip_utracker]: requests, responses and error messages

    The messages of the UDP tracker protocol ([request.rs], [response.rs],
    [error.rs]).  A string is its UTF-8 bytes. *)

From stdpp Require Import prelude list gmap strings.
From Stdlib Require Import ZArith Lia Strings.Byte.
From S2P Require Import Prelude Bytes DecStr Convert Sha Nom WriteBytes UtContact UtOption UtAnnounce UtScrape.

Definition CONNECT_ACTION_ID : Z := 0.
Definition ANNOUNCE_IPV4_ACTION_ID : Z := 1.
Definition SCRAPE_ACTION_ID : Z := 2.
Definition ANNOUNCE_IPV6_ACTION_ID : Z := 4.
Definition ERROR_ACTION_ID : Z := 3.

Definition CONNECT_ID_PROTOCOL_ID : Z := 0x41727101980.

(** ** Errors *)

Record ErrorResponse : Type := ErrorResponse_new { message : bytes }.

Definition ErrorResponse_from_bytes `{Nom} (bs : bytes) : IResult nom_error ErrorResponse :=
  nom_map (nom_take_str (length bs)) ErrorResponse_new bs.

Definition ErrorResponse_write_bytes {W E} `{Write W E} (self : ErrorResponse) : stM W E () :=
  _ ← write_all (message self); mret ().

(** ** Requests *)

Inductive RequestType : Type :=
| ReqConnect
| ReqAnnounce (req : AnnounceRequest)
| ReqScrape (req : ScrapeRequest).

Record TrackerRequest : Type := TrackerRequest_new {
  connection_id : Z;
  req_transaction_id : Z;
  request_type : RequestType;
}.

Definition parse_request `{Nom} : parser TrackerRequest :=
  switch (tuple be_u64 (tuple be_u32 be_u32)) (fun '(cid, (action, tid)) =>
    if decide (cid = CONNECT_ID_PROTOCOL_ID /\ action = CONNECT_ACTION_ID) then
      Some (value (TrackerRequest_new CONNECT_ID_PROTOCOL_ID tid ReqConnect))
    else if decide (action = ANNOUNCE_IPV4_ACTION_ID) then
      Some (nom_map AnnounceRequest_from_bytes_v4 (fun ann_req => TrackerRequest_new cid tid (ReqAnnounce ann_req)))
    else if decide (action = SCRAPE_ACTION_ID) then
      Some (nom_map ScrapeRequest_from_bytes (fun scr_req => TrackerRequest_new cid tid (ReqScrape scr_req)))
    else if decide (action = ANNOUNCE_IPV6_ACTION_ID) then
      Some (nom_map AnnounceRequest_from_bytes_v6 (fun ann_req => TrackerRequest_new cid tid (ReqAnnounce ann_req)))
    else None).
Definition TrackerRequest_from_bytes `{Nom} : parser TrackerRequest := parse_request.

Definition TrackerRequest_write_bytes {W E} `{Write W E, WriteBytesExt W E} (iter_order : gmap byte bytes -> list byte)
    (self : TrackerRequest) : stM W E () :=
  _ ← write_u64 (connection_id self);
  _ ← match request_type self with
      | ReqConnect =>
          _ ← write_u32 CONNECT_ACTION_ID;
          _ ← write_u32 (req_transaction_id self);
          mret ()
      | ReqAnnounce req =>
          let action_id := if is_ipv4 (source_ip req) then ANNOUNCE_IPV4_ACTION_ID else ANNOUNCE_IPV6_ACTION_ID in
          _ ← write_u32 action_id;
          _ ← write_u32 (req_transaction_id self);
          _ ← AnnounceRequest_write_bytes iter_order req;
          mret ()
      | ReqScrape req =>
          _ ← write_u32 SCRAPE_ACTION_ID;
          _ ← write_u32 (req_transaction_id self);
          _ ← ScrapeRequest_write_bytes req;
          mret ()
      end;
  mret ().

(** ** Responses *)

Inductive ResponseType : Type :=
| ResConnect (id : Z)
| ResAnnounce (res : AnnounceResponse)
| ResScrape (res : ScrapeResponse)
| ResError (err : ErrorResponse).

Record TrackerResponse : Type := TrackerResponse_new {
  res_transaction_id : Z;
  response_type : ResponseType;
}.

Definition parse_response `{Nom} : parser TrackerResponse :=
  switch (tuple be_u32 be_u32) (fun '(action, tid) =>
    if decide (action = CONNECT_ACTION_ID) then
      Some (nom_map be_u64 (fun cid => TrackerResponse_new tid (ResConnect cid)))
    else if decide (action = ANNOUNCE_IPV4_ACTION_ID) then
      Some (nom_map AnnounceResponse_from_bytes_v4 (fun ann_res => TrackerResponse_new tid (ResAnnounce ann_res)))
    else if decide (action = SCRAPE_ACTION_ID) then
      Some (nom_map ScrapeResponse_from_bytes (fun scr_res => TrackerResponse_new tid (ResScrape scr_res)))
    else if decide (action = ERROR_ACTION_ID) then
      Some (nom_map ErrorResponse_from_bytes (fun err_res => TrackerResponse_new tid (ResError err_res)))
    else if decide (action = ANNOUNCE_IPV6_ACTION_ID) then
      Some (nom_map AnnounceResponse_from_bytes_v6 (fun ann_req => TrackerResponse_new tid (ResAnnounce ann_req)))
    else None).
Definition TrackerResponse_from_bytes `{Nom} : parser TrackerResponse := parse_response.

Definition TrackerResponse_write_bytes {W E} `{Write W E, WriteBytesExt W E} (self : TrackerResponse) : stM W E () :=
  _ ← match response_type self with
      | ResConnect id =>
          _ ← write_u32 CONNECT_ACTION_ID;
          _ ← write_u32 (res_transaction_id self);
          _ ← write_u64 id;
          mret ()
      | ResAnnounce req =>
          let action_id :=
            match res_peers req with PeersV4 _ => ANNOUNCE_IPV4_ACTION_ID | PeersV6 _ => ANNOUNCE_IPV6_ACTION_ID end in
          _ ← write_u32 action_id;
          _ ← write_u32 (res_transaction_id self);
          _ ← AnnounceResponse_write_bytes req;
          mret ()
      | ResScrape req =>
          _ ← write_u32 SCRAPE_ACTION_ID;
          _ ← write_u32 (res_transaction_id self);
          _ ← ScrapeResponse_write_bytes req;
          mret ()
      | ResError err =>
          _ ← write_u32 ERROR_ACTION_ID;
          _ ← write_u32 (res_transaction_id self);
          _ ← ErrorResponse_write_bytes err;
          mret ()
      end;
  mret ().

(** ** Well-formed messages and their encodings *)

Definition request_wf (r : TrackerRequest) : Prop :=
  in_unsigned 64 (connection_id r) /\ in_unsigned 32 (req_transaction_id r) /\
  match request_type r with
  | ReqConnect => connection_id r = CONNECT_ID_PROTOCOL_ID
  | ReqAnnounce req => announce_wf req
  | ReqScrape req => length (hashes req) mod INFO_HASH_LEN = 0
  end.

Definition tracker_response_wf (r : TrackerResponse) : Prop :=
  in_unsigned 32 (res_transaction_id r) /\
  match response_type r with
  | ResConnect id => in_unsigned 64 id
  | ResAnnounce res => response_wf res
  | ResScrape res => length (stats res) mod SCRAPE_STATS_BYTES = 0
  | ResError err => from_utf8 (message err) = Some (message err)
  end.

(** The request read back: see [announce_norm]. *)
Definition request_norm (r : TrackerRequest) : TrackerRequest :=
  match request_type r with
  | ReqAnnounce req => TrackerRequest_new (connection_id r) (req_transaction_id r) (ReqAnnounce (announce_norm req))
  | _ => r
  end.

Definition request_action (r : TrackerRequest) : Z :=
  match request_type r with
  | ReqConnect => CONNECT_ACTION_ID
  | ReqAnnounce req => if is_ipv4 (source_ip req) then ANNOUNCE_IPV4_ACTION_ID else ANNOUNCE_IPV6_ACTION_ID
  | ReqScrape _ => SCRAPE_ACTION_ID
  end.

Definition response_action (r : TrackerResponse) : Z :=
  match response_type r with
  | ResConnect _ => CONNECT_ACTION_ID
  | ResAnnounce res => match res_peers res with PeersV4 _ => ANNOUNCE_IPV4_ACTION_ID | PeersV6 _ => ANNOUNCE_IPV6_ACTION_ID end
  | ResScrape _ => SCRAPE_ACTION_ID
  | ResError _ => ERROR_ACTION_ID
  end.

Definition request_bytes (iter_order : gmap byte bytes -> list byte) (r : TrackerRequest) : bytes :=
  (be_bytes 8 (connection_id r) ++ be_bytes 4 (request_action r) ++ be_bytes 4 (req_transaction_id r)) ++
  match request_type r with
  | ReqConnect => []
  | ReqAnnounce req => announce_bytes iter_order req
  | ReqScrape req => hashes req
  end.

(** The byte that ends the options, written if there is room for it. *)
Definition request_tail (r : TrackerRequest) : bytes :=
  match request_type r with ReqAnnounce _ => [END_OF_OPTIONS_BYTE] | _ => [] end.

Definition tracker_response_bytes (r : TrackerResponse) : bytes :=
  (be_bytes 4 (response_action r) ++ be_bytes 4 (res_transaction_id r)) ++
  match response_type r with
  | ResConnect id => be_bytes 8 id
  | ResAnnounce res => response_bytes res
  | ResScrape res => stats res
  | ResError err => message err
  end.

Section parse_lemmas.
Context {N : Nom} {NS : NomSpec N}.

Lemma parse_whole {E A} (p : bytes -> IResult E A) bs r : p bs = Done [] r -> p (bs ++ []) = Done [] r.
Proof. by rewrite app_nil_r. Qed.

Lemma scrape_request_parse req : length (hashes req) mod INFO_HASH_LEN = 0 ->
  ScrapeRequest_from_bytes (E := nom_error) (hashes req) = Done [] req.
Proof.
  intros Hm. unfold ScrapeRequest_from_bytes, scrape_parse_request. rewrite Hm, decide_False by lia.
  unfold slice. rewrite Nat.sub_diag. by destruct req.
Qed.

Lemma scrape_response_parse res : length (stats res) mod SCRAPE_STATS_BYTES = 0 ->
  ScrapeResponse_from_bytes (E := nom_error) (stats res) = Done [] res.
Proof.
  intros Hm. unfold ScrapeResponse_from_bytes, scrape_parse_response. rewrite Hm, decide_False by lia.
  unfold slice. rewrite Nat.sub_diag. by destruct res.
Qed.

Lemma error_parse err : from_utf8 (message err) = Some (message err) ->
  ErrorResponse_from_bytes (message err) = Done [] err.
Proof.
  intros Hu. destruct some_error as [e _]. apply equiv_Done. unfold ErrorResponse_from_bytes.
  rewrite map_spec, (take_str_spec _ _ e), take_spec, decide_True by done. simpl.
  rewrite take_ge, drop_ge, Hu by done. by destruct err.
Qed.

Lemma request_parse iter_order r : visits_all iter_order -> request_wf r ->
  parses_all TrackerRequest_from_bytes (request_bytes iter_order r) (request_norm r) /\
  parses_all TrackerRequest_from_bytes (request_bytes iter_order r ++ request_tail r) (request_norm r).
Proof.
  intros Hv (Hc & Ht & Hr). destruct r as [cid tid rt]. unfold request_bytes, request_tail, request_norm. cbn [connection_id req_transaction_id request_type] in *.
  assert (forall a, in_unsigned 32 a -> parses (tuple be_u64 (tuple be_u32 be_u32)) (be_bytes 8 cid ++ be_bytes 4 a ++ be_bytes 4 tid) (cid, (a, tid))) as Hhead.
  { intros a Ha. apply parses_tuple; [by apply parses_u64|]. apply parses_tuple; by apply parses_u32. }
  destruct rt as [|req|req]; cbn [request_action request_type] in *.
  - subst cid. rewrite !app_nil_r. split; (eapply parses_switch_value_all; [by apply Hhead|]); reflexivity.
  - destruct (announce_parse iter_order req Hv Hr) as [Hall Htail]. specialize (Htail []).
    unfold announce_parser in Hall, Htail. destruct (is_ipv4 (source_ip req)).
    + split; [|rewrite <- app_assoc]; (eapply parses_switch_all; [by apply Hhead| |]).
      * cbv beta iota. rewrite decide_False by (intros [_ ?]; done). by rewrite decide_True.
      * by apply (parses_map_all _ (fun a => TrackerRequest_new cid tid (ReqAnnounce a))).
      * cbv beta iota. rewrite decide_False by (intros [_ ?]; done). by rewrite decide_True.
      * by apply (parses_map_all _ (fun a => TrackerRequest_new cid tid (ReqAnnounce a))).
    + split; [|rewrite <- app_assoc]; (eapply parses_switch_all; [by apply Hhead| |]).
      * cbv beta iota. rewrite decide_False by (intros [_ ?]; done). by rewrite !decide_False, decide_True by done.
      * by apply (parses_map_all _ (fun a => TrackerRequest_new cid tid (ReqAnnounce a))).
      * cbv beta iota. rewrite decide_False by (intros [_ ?]; done). by rewrite !decide_False, decide_True by done.
      * by apply (parses_map_all _ (fun a => TrackerRequest_new cid tid (ReqAnnounce a))).
  - rewrite app_nil_r. split; (eapply parses_switch_all; [by apply Hhead| |]).
    1,3: cbv beta iota; rewrite decide_False by (intros [_ ?]; done); by rewrite decide_False, decide_True.
    all: by apply (parses_map_all _ (fun a => TrackerRequest_new cid tid (ReqScrape a))), scrape_request_parse.
Qed.

Lemma tracker_response_parse r : tracker_response_wf r ->
  parses_all TrackerResponse_from_bytes (tracker_response_bytes r) r.
Proof.
  intros (Ht & Hr). destruct r as [tid rt]. unfold tracker_response_bytes. cbn [res_transaction_id response_type] in *.
  assert (forall a, in_unsigned 32 a -> parses (tuple be_u32 be_u32) (be_bytes 4 a ++ be_bytes 4 tid) (a, tid)) as Hhead.
  { intros a Ha. apply parses_tuple; by apply parses_u32. }
  destruct rt as [id|res|res|err]; cbn [response_action response_type] in *.
  - eapply parses_switch_all; [by apply Hhead|reflexivity|].
    apply (parses_map_all _ (fun c => TrackerResponse_new tid (ResConnect c))).
    pose proof (parses_u64 id Hr []) as H. by rewrite app_nil_r in H.
  - pose proof (response_parse res Hr) as Hp. unfold response_parser in Hp. destruct (res_peers res);
      (eapply parses_switch_all; [by apply Hhead|reflexivity|]); by apply (parses_map_all _ (fun a => TrackerResponse_new tid (ResAnnounce a))).
  - eapply parses_switch_all; [by apply Hhead|reflexivity|].
    by apply (parses_map_all _ (fun a => TrackerResponse_new tid (ResScrape a))), scrape_response_parse.
  - eapply parses_switch_all; [by apply Hhead|reflexivity|].
    by apply (parses_map_all _ (fun a => TrackerResponse_new tid (ResError a))), error_parse.
Qed.

End parse_lemmas.

Section write_lemmas.
Context {W E : Type} `{WriteSpec W E} `{!WriteBytesExt W E} {WB : WriteBytesSpec W E}.

Lemma writes_request iter_order r :
  writes (TrackerRequest_write_bytes iter_order r) (request_bytes iter_order r) (request_tail r).
Proof.
  unfold TrackerRequest_write_bytes, request_bytes, request_tail. rewrite <- !app_assoc.
  apply writes_bind; [auto with rbt|]. apply writes_then_ret. unfold request_action.
  destruct (request_type r) as [|req|req]; (apply writes_bind; [auto with rbt|]).
  - rewrite app_nil_r. apply writes_then_ret. auto with rbt.
  - apply writes_bind; [auto with rbt|]. apply writes_then_ret. by apply writes_announce.
  - apply writes_bind; [auto with rbt|]. apply writes_then_ret, writes_all.
Qed.

Lemma writes_tracker_response r : writes (TrackerResponse_write_bytes r) (tracker_response_bytes r) [].
Proof.
  unfold TrackerResponse_write_bytes, tracker_response_bytes. rewrite <- !app_assoc.
  apply writes_then_ret. unfold response_action.
  destruct (response_type r) as [id|res|res|err]; (apply writes_bind; [auto with rbt|]);
    (apply writes_bind; [auto with rbt|]); apply writes_then_ret.
  - auto with rbt.
  - by apply writes_response.
  - apply writes_all.
  - apply writes_then_ret, writes_all.
Qed.

End write_lemmas.

(** ** Properties *)

Section properties.
Context {N : Nom} {NS : NomSpec N}.
Context {W E : Type} `{WriteSpec W E} `{!WriteBytesExt W E} {WB : WriteBytesSpec W E}.

(** C10. Requests survive the wire: a well-formed request is written to any writer
    with room for it, and what was written parses, to the end, as the same
    request up to [request_norm]; without room for it, writing fails.  The byte
    that ends the options is dropped when only it does not fit. *)
Theorem tracker_request_roundtrip iter_order r (w : W) :
  visits_all iter_order -> request_wf r -> writer_wf w ->
  (fits w (length (request_bytes iter_order r)) ->
   exists w' bs, TrackerRequest_write_bytes iter_order r w = (Ok (), w') /\ written w' = written w ++ bs /\
     TrackerRequest_from_bytes bs = Done [] (request_norm r)) /\
  (~ fits w (length (request_bytes iter_order r)) ->
   exists e w', TrackerRequest_write_bytes iter_order r w = (Err e, w')).
Proof using NS WB.
  intros Hv Hr Hw. destruct (writes_request iter_order r w Hw) as (H1 & H2 & H3).
  destruct (request_parse iter_order r Hv Hr) as [Hp Hp']. split; [|exact H3]. intros Hf.
  destruct (decide (fits w (length (request_bytes iter_order r) + length (request_tail r)))) as [Ht|Ht].
  - destruct (H1 Ht) as (w' & He & _ & Ha & _). exists w', (request_bytes iter_order r ++ request_tail r). done.
  - destruct (H2 Hf Ht) as (w' & He & _ & Ha & _). exists w', (request_bytes iter_order r). done.
Qed.

(** Responses survive the wire: a well-formed response is written exactly when
    the writer has room for it, and what was written parses, to the end, as
    the same response. *)
Theorem tracker_response_roundtrip r (w : W) :
  tracker_response_wf r -> writer_wf w ->
  (fits w (length (tracker_response_bytes r)) ->
   exists w' bs, TrackerResponse_write_bytes r w = (Ok (), w') /\ written w' = written w ++ bs /\
     TrackerResponse_from_bytes bs = Done [] r) /\
  (~ fits w (length (tracker_response_bytes r)) -> exists e w', TrackerResponse_write_bytes r w = (Err e, w')).
Proof using NS WB.
  intros Hr Hw. destruct (writes_tracker_response r w Hw) as (H1 & _ & H3). split; [|exact H3]. intros Hf.
  rewrite Nat.add_0_r, app_nil_r in H1. destruct (H1 Hf) as (w' & He & _ & Ha & _).
  exists w', (tracker_response_bytes r). split_and!; [done..|]. by apply tracker_response_parse.
Qed.

End properties.

Lemma yields_messages {N : Nom} {NS : NomSpec N} :
  yields TrackerRequest_from_bytes request_wf /\ yields TrackerResponse_from_bytes tracker_response_wf.
Proof.
  split.
  - eapply yields_switch; [apply yields_tuple; [apply yields_u64|apply yields_tuple; apply yields_u32]|].
    intros [cid [a tid]] q (Hc & Ha & Ht) Hq. cbn [fst snd] in *. repeat case_decide; simplify_eq.
    + apply yields_value. done.
    + eapply yields_map; [apply yields_announce, yields_ip_v4|]. done.
    + apply (yields_map _ _ (fun req => length (hashes req) mod INFO_HASH_LEN = 0)); [|done].
      intros bs. unfold ScrapeRequest_from_bytes, scrape_parse_request. by case_decide.
    + eapply yields_map; [apply yields_announce, yields_ip_v6|]. done.
  - eapply yields_switch; [apply yields_tuple; apply yields_u32|].
    intros [a tid] q (Ha & Ht) Hq. cbn [fst snd] in *. repeat case_decide; simplify_eq.
    + eapply yields_map; [apply yields_u64|]. done.
    + eapply yields_map; [apply (yields_response (PeersV4 CompactPeersV4_new))|]. done.
    + apply (yields_map _ _ (fun res => length (stats res) mod SCRAPE_STATS_BYTES = 0)); [|done].
      intros bs. unfold ScrapeResponse_from_bytes, scrape_parse_response. by case_decide.
    + apply (yields_map _ _ (fun err => from_utf8 (message err) = Some (message err))); [|done].
      intros bs. destruct some_error as [e _]. eapply yields_equiv.
      { unfold ErrorResponse_from_bytes. by rewrite map_spec, (take_str_spec _ _ e), take_spec. }
      rewrite decide_True by done. simpl. unfold from_utf8. destruct (utf8_ok _ _) eqn:Hu; simpl; [|done]. by rewrite Hu.
    + eapply yields_map; [apply (yields_response (PeersV6 CompactPeersV6_new))|]. done.
Qed.

(** The parsers of the tracker protocol are total and typed: on every byte string
    both return, without a panic and without looping, and a message they return
    is well formed: fields in range, hashes of twenty bytes, whole lists of
    addresses, hashes or statistics, text in UTF-8, and no option under a
    reserved byte. *)
Theorem tracker_messages_typed {N : Nom} {NS : NomSpec N} :
  yields TrackerRequest_from_bytes request_wf /\ yields TrackerResponse_from_bytes tracker_response_wf.
Proof. exact yields_messages. Qed.

(** ** Instances of the properties *)

Definition sample_hash : ShaHash := mk_ShaHash (replicate 20 xab).

Definition sample_announce : TrackerRequest :=
  TrackerRequest_new 7 9 (ReqAnnounce (AnnounceRequest_new sample_hash sample_hash (ClientState_new 1 (-2) 3 EventStarted)
    (ExplicitV4 (mk_Ipv4Addr x00 x00 x00 x00)) 5 (Specified 50) 6881
    (mk_AnnounceOptions {[ URL_DATA_BYTE := replicate 300 x2f ]}))).

Lemma sample_announce_wf : request_wf sample_announce.
Proof.
  unfold request_wf. cbn [sample_announce request_type]. unfold announce_wf, state_wf. split_and!; try (vm_compute; done).
  intros k [c Hc]. cbn [req_options raw_options] in Hc. apply lookup_singleton_Some in Hc as [<- _]. by split.
Qed.

(** An explicit all-zero address is read back as an implied one. *)
Lemma tracker_request_roundtrip_witness :
  exists w' bs, TrackerRequest_write_bytes (H0 := WriteBytes_ref) map_keys sample_announce (Cursor_new (replicate 500 x00)) = (Ok (), w') /\
    written w' = written (Cursor_new (replicate 500 x00)) ++ bs /\
    TrackerRequest_from_bytes (H := nom_ref) bs = Done [] (request_norm sample_announce).
Proof.
  refine (proj1 (@tracker_request_roundtrip nom_ref nom_ref_spec Cursor WriteError _ _ WriteBytes_ref WriteBytes_ref_spec
    map_keys sample_announce (Cursor_new (replicate 500 x00)) map_keys_visits_all sample_announce_wf _) _).
  - vm_compute. lia.
  - unfold fits. vm_compute. lia.
Defined.

Definition sample_response : TrackerResponse :=
  TrackerResponse_new 9 (ResAnnounce (AnnounceResponse_new 1800 (-1) 4
    (PeersV4 (v4_of [mk_SocketAddrV4 (mk_Ipv4Addr x7f x00 x00 x01) 6881])))).

Lemma tracker_response_roundtrip_witness :
  exists w' bs, TrackerResponse_write_bytes (H0 := WriteBytes_ref) sample_response ([] : bytes) = (Ok (E := Empty_set) (), w') /\
    w' = [] ++ bs /\ TrackerResponse_from_bytes (H := nom_ref) bs = Done [] sample_response.
Proof.
  refine (proj1 (@tracker_response_roundtrip nom_ref nom_ref_spec bytes Empty_set _ _ WriteBytes_ref WriteBytes_ref_spec
    sample_response [] _ I) I).
  split; [vm_compute; done|]. split_and!; try (vm_compute; done).
  eexists. exists [mk_SocketAddrV4 (mk_Ipv4Addr x7f x00 x00 x01) 6881]. split_and!; [done| |done].
  repeat constructor; vm_compute; done.
Defined.

Lemma tracker_messages_typed_witness : yields (TrackerRequest_from_bytes (H := nom_ref)) request_wf.
Proof. exact (proj1 (@tracker_messages_typed nom_ref nom_ref_spec)). Defined.
