(* ===== verification/HsMessage.v ===== *)
(** * [bip_handshake]: handshake messages

    Protocols, extension bits and the handshake message with its wire format
    ([message/*.rs], [bittorrent/message.rs]). *)

From stdpp Require Import prelude list gmap strings.
From Stdlib Require Import ZArith Lia Strings.Byte.
From S2P Require Import Prelude Bytes Convert Sha Nom WriteBytes UtContact UtAnnounce.

(** ** Protocols *)

Definition BT_PROTOCOL : bytes :=
  [x42; x69; x74; x54; x6f; x72; x72; x65; x6e; x74; x20; x70; x72; x6f; x74; x6f; x63; x6f; x6c].
Definition BT_PROTOCOL_LEN : nat := 19.

Inductive Protocol : Type :=
| BitTorrent
| Custom (prot : bytes).

#[export] Instance Protocol_eq_dec : EqDecision Protocol.
Proof. solve_decision. Defined.

Definition parse_raw_protocol `{Nom} : parser bytes :=
  do_parse be_u8 (fun length =>
  do_parse (nom_take (Z.to_nat (byte_val length))) (fun raw_protocol =>
  value raw_protocol)).

Definition parse_real_protocol `{Nom} : parser Protocol :=
  switch parse_raw_protocol (fun raw =>
    if decide (raw = BT_PROTOCOL) then Some (value BitTorrent) else Some (value (Custom raw))).
Definition parse_protocol `{Nom} : parser Protocol := parse_real_protocol.
Definition Protocol_from_bytes `{Nom} : parser Protocol := parse_protocol.

Definition Protocol_write_len (self : Protocol) : nat :=
  match self with BitTorrent => BT_PROTOCOL_LEN | Custom custom => length custom end.

Definition Protocol_write_bytes {W E} `{Write W E} (self : Protocol) : stM W E () :=
  let '(len, bs) :=
    match self with BitTorrent => (BT_PROTOCOL_LEN, BT_PROTOCOL) | Custom prot => (length prot, prot) end in
  _ ← write_all [as_u8 (Z.of_nat len)];
  _ ← write_all bs;
  mret ().

(** ** Extensions *)

Definition NUM_EXTENSION_BYTES : nat := 8.

Inductive Extension : Type := ExtensionProtocol.

Definition extension_bit (e : Extension) : nat := match e with ExtensionProtocol => 43 end.

Record Extensions : Type := with_bytes { ext_bytes : bytes }.

#[export] Instance Extensions_eq_dec : EqDecision Extensions.
Proof. solve_decision. Defined.

Definition Extensions_new : Extensions := with_bytes (replicate NUM_EXTENSION_BYTES x00).

(** [0x80 >> bit_index] *)
Definition bit_mask (bit_index : nat) : Z := Z.shiftr 0x80 (Z.of_nat bit_index).

Definition Extensions_add (self : Extensions) (extension : Extension) : Extensions :=
  let active_bit := extension_bit extension in
  let byte_index := active_bit / 8 in
  let bit_index := active_bit mod 8 in
  with_bytes (<[byte_index := as_u8 (Z.lor (byte_val (ext_bytes self !!! byte_index)) (bit_mask bit_index))]> (ext_bytes self)).

Definition Extensions_remove (self : Extensions) (extension : Extension) : Extensions :=
  let active_bit := extension_bit extension in
  let byte_index := active_bit / 8 in
  let bit_index := active_bit mod 8 in
  with_bytes (<[byte_index := as_u8 (Z.land (byte_val (ext_bytes self !!! byte_index)) (Z.lxor 0xff (bit_mask bit_index)))]>
    (ext_bytes self)).

Definition Extensions_contains (self : Extensions) (extension : Extension) : bool :=
  let active_bit := extension_bit extension in
  let byte_index := active_bit / 8 in
  let bit_index := active_bit mod 8 in
  negb (Z.land (byte_val (ext_bytes self !!! byte_index)) (bit_mask bit_index) =? 0)%Z.

Definition Extensions_write_bytes {W E} `{Write W E} (self : Extensions) : stM W E () := write_all (ext_bytes self).

Definition Extensions_union (self ext : Extensions) : Extensions :=
  foldl (fun result_ext index =>
    with_bytes (<[index := as_u8 (Z.land (byte_val (ext_bytes self !!! index)) (byte_val (ext_bytes ext !!! index)))]>
      (ext_bytes result_ext)))
  Extensions_new (seq 0 NUM_EXTENSION_BYTES).

Definition parse_extension_bits `{Nom} : parser Extensions :=
  do_parse (count_fixed NUM_EXTENSION_BYTES be_u8) (fun bs => value (with_bytes bs)).
Definition Extensions_from_bytes `{Nom} : parser Extensions := parse_extension_bits.

(** ** Messages between the parts of the handshaker *)

Record InitiateMessage : Type := InitiateMessage_new {
  init_prot : Protocol;
  init_hash : ShaHash;
  init_addr : SocketAddr;
}.

Record CompleteMessage (S : Type) : Type := CompleteMessage_new {
  comp_prot : Protocol;
  comp_ext : Extensions;
  comp_hash : ShaHash;
  comp_pid : ShaHash;
  comp_addr : SocketAddr;
  comp_sock : S;
}.
Arguments CompleteMessage_new {S} comp_prot comp_ext comp_hash comp_pid comp_addr comp_sock.
Arguments comp_prot {S} _.
Arguments comp_ext {S} _.
Arguments comp_hash {S} _.
Arguments comp_pid {S} _.
Arguments comp_addr {S} _.
Arguments comp_sock {S} _.

(** ** The handshake message *)

Record HandshakeMessage : Type := mk_HandshakeMessage {
  hs_prot : Protocol;
  hs_ext : Extensions;
  hs_hash : ShaHash;
  hs_pid : ShaHash;
}.

Definition from_parts {E} (prot : Protocol) (ext : Extensions) (hash pid : ShaHash) : outcome E HandshakeMessage :=
  match prot with
  | Custom custom => if decide (255 < length custom) then Panic else Ok (mk_HandshakeMessage prot ext hash pid)
  | BitTorrent => Ok (mk_HandshakeMessage prot ext hash pid)
  end.

Definition write_len_with_protocol_len (protocol_len : nat) : nat :=
  1 + protocol_len + NUM_EXTENSION_BYTES + INFO_HASH_LEN + PEER_ID_LEN.

(** The length of the protocol goes through a [u8]. *)
Definition HandshakeMessage_write_len (self : HandshakeMessage) : nat :=
  write_len_with_protocol_len (Z.to_nat (as_unsigned 8 (Z.of_nat (Protocol_write_len (hs_prot self))))).

Definition HandshakeMessage_write_bytes {W E} `{Write W E} (self : HandshakeMessage) : stM W E () :=
  _ ← Protocol_write_bytes (hs_prot self);
  _ ← Extensions_write_bytes (hs_ext self);
  _ ← write_all (sha_hash (hs_hash self));
  _ ← write_all (sha_hash (hs_pid self));
  mret ().

Section parsing.
Context {N : Nom}.

Definition parse_remote_hash : parser ShaHash := do_parse (nom_take INFO_HASH_LEN) unwrap_hash.
Definition parse_remote_pid : parser ShaHash := do_parse (nom_take PEER_ID_LEN) unwrap_hash.

Definition parse_remote_handshake : parser HandshakeMessage :=
  do_parse Protocol_from_bytes (fun prot =>
  do_parse Extensions_from_bytes (fun ext =>
  do_parse parse_remote_hash (fun hash =>
  do_parse parse_remote_pid (fun pid i =>
  match from_parts (E := Empty_set) prot ext hash pid with Ok m => Done i m | _ => Panicked end)))).
Definition HandshakeMessage_from_bytes : parser HandshakeMessage := parse_remote_handshake.

End parsing.

(** ** Wire format *)

Definition prot_name (p : Protocol) : bytes := match p with BitTorrent => BT_PROTOCOL | Custom prot => prot end.

(** A custom protocol with the name of the standard one reads back as that one. *)
Definition prot_norm (p : Protocol) : Protocol := if decide (prot_name p = BT_PROTOCOL) then BitTorrent else p.

Definition handshake_norm (m : HandshakeMessage) : HandshakeMessage :=
  mk_HandshakeMessage (prot_norm (hs_prot m)) (hs_ext m) (hs_hash m) (hs_pid m).

Definition prot_wf (p : Protocol) : Prop := length (prot_name p) <= 255.
Definition ext_wf (e : Extensions) : Prop := length (ext_bytes e) = NUM_EXTENSION_BYTES.

Definition handshake_wf (m : HandshakeMessage) : Prop :=
  prot_wf (hs_prot m) /\ ext_wf (hs_ext m) /\ sha_wf (hs_hash m) /\ sha_wf (hs_pid m).

Definition prot_bytes (p : Protocol) : bytes := [as_u8 (Z.of_nat (length (prot_name p)))] ++ prot_name p.

Definition handshake_bytes (m : HandshakeMessage) : bytes :=
  prot_bytes (hs_prot m) ++ ext_bytes (hs_ext m) ++ sha_hash (hs_hash m) ++ sha_hash (hs_pid m).

Lemma prot_write_len p : Protocol_write_len p = length (prot_name p).
Proof. by destruct p. Qed.

Lemma byte_length n : n <= 255 -> Z.to_nat (byte_val (as_u8 (Z.of_nat n))) = n.
Proof. intros. rewrite byte_val_as_u8, Z.mod_small by lia. lia. Qed.

Lemma length_handshake_bytes m : handshake_wf m -> length (handshake_bytes m) = HandshakeMessage_write_len m.
Proof.
  intros (Hp & He & Hh & Hi). unfold handshake_bytes, prot_bytes, HandshakeMessage_write_len, write_len_with_protocol_len.
  rewrite !length_app, He, Hh, Hi, prot_write_len. unfold as_unsigned. rewrite Z.mod_small by (unfold prot_wf in Hp; lia).
  rewrite Nat2Z.id. unfold INFO_HASH_LEN, PEER_ID_LEN. simpl length at 1. lia.
Qed.

Section lemmas.
Context {N : Nom} {NS : NomSpec N}.

Lemma parses_protocol p : prot_wf p -> parses Protocol_from_bytes (prot_bytes p) (prot_norm p).
Proof.
  intros Hp. eapply parses_switch_value with (a := prot_name p).
  - unfold prot_bytes. eapply parses_do; [apply parses_u8|]. rewrite byte_length by done.
    eapply parses_do_value; [by apply parses_take|]. apply parses_value.
  - unfold prot_norm. case_decide; [done|]. by destruct p.
Qed.

Lemma parses_extensions e : ext_wf e -> parses Extensions_from_bytes (ext_bytes e) e.
Proof.
  intros He. eapply parses_do_value; [by apply parses_count|]. destruct e. apply parses_value.
Qed.

Lemma parses_handshake m : handshake_wf m -> parses HandshakeMessage_from_bytes (handshake_bytes m) (handshake_norm m).
Proof.
  intros (Hp & He & Hh & Hi). eapply parses_do; [by apply parses_protocol|]. eapply parses_do; [by apply parses_extensions|].
  eapply parses_do; [by apply parses_hash|]. eapply parses_do_value; [by apply parses_hash|].
  intros rest. unfold from_parts, handshake_norm, prot_norm. case_decide; [done|].
  destruct (hs_prot m) as [|c]; [done|]. rewrite decide_False by (unfold prot_wf in Hp; simpl in Hp; lia). done.
Qed.

Lemma yields_protocol : yields Protocol_from_bytes prot_wf.
Proof.
  apply (yields_switch _ _ (fun raw => length raw <= 255)).
  - apply (yields_do _ _ (fun _ => True)); [intros i; eapply yields_equiv; [apply be_u8_spec|by destruct i]|].
    intros b _. eapply yields_do; [apply yields_take|]. intros raw Hr. apply yields_value.
    pose proof (byte_val_range b). simpl in Hr. lia.
  - intros raw q Hr Hq. case_decide; simplify_eq; apply yields_value; [simpl; unfold prot_wf; simpl; lia|done].
Qed.

Lemma yields_handshake : yields HandshakeMessage_from_bytes handshake_wf.
Proof.
  eapply yields_do; [apply yields_protocol|intros p Hp]. apply (yields_do _ _ ext_wf).
  { eapply yields_do; [apply yields_count|]. intros bs Hb. by apply yields_value. }
  intros e He. eapply yields_do; [apply yields_hash|intros h Hh]. eapply yields_do; [apply yields_hash|intros i Hi].
  intros bs. unfold from_parts. destruct p as [|c]; [done|]. unfold prot_wf in Hp. simpl in Hp.
  rewrite decide_False by lia. done.
Qed.

End lemmas.

Lemma writes_handshake {W E} `{WriteSpec W E} m :
  writes (HandshakeMessage_write_bytes m) (handshake_bytes m) [].
Proof.
  unfold HandshakeMessage_write_bytes, handshake_bytes. apply writes_bind.
  - unfold Protocol_write_bytes, prot_bytes. destruct (hs_prot m); simpl;
      (apply (writes_bind _ _ [_]); [apply writes_all|]); apply writes_then_ret, writes_all.
  - apply writes_bind; [apply writes_all|]. apply writes_bind; [apply writes_all|]. apply writes_then_ret, writes_all.
Qed.

(** ** Extension bits, most significant bit of a byte first *)

Definition ext_bit (e : Extensions) (i : nat) : bool :=
  Z.testbit (byte_val (ext_bytes e !!! (i / 8))) (Z.of_nat (7 - i mod 8)).

Lemma testbit_as_u8 z k : (0 <= k < 8)%Z -> Z.testbit (byte_val (as_u8 z)) k = Z.testbit z k.
Proof. intros. rewrite byte_val_as_u8. change 256%Z with (2 ^ 8)%Z. apply Z.mod_pow2_bits_low. lia. Qed.

Lemma mask_bit j k : j < 8 -> k < 8 -> Z.testbit (bit_mask j) (Z.of_nat (7 - k)) = bool_decide (k = j).
Proof.
  intros Hj Hk. do 8 (destruct j as [|j]; [by do 8 (destruct k as [|k]; [done|]); lia|]). lia.
Qed.

Lemma unmask_bit j k : j < 8 -> k < 8 -> Z.testbit (Z.lxor 0xff (bit_mask j)) (Z.of_nat (7 - k)) = negb (bool_decide (k = j)).
Proof.
  intros Hj Hk. do 8 (destruct j as [|j]; [by do 8 (destruct k as [|k]; [done|]); lia|]). lia.
Qed.

Lemma land_mask z j : j < 8 -> (0 <= z)%Z ->
  negb (Z.land z (bit_mask j) =? 0)%Z = Z.testbit z (Z.of_nat (7 - j)).
Proof.
  intros Hj Hz. assert (bit_mask j = 2 ^ Z.of_nat (7 - j))%Z as ->.
  { do 8 (destruct j as [|j]; [done|]). lia. }
  destruct (Z.testbit z _) eqn:Ht.
  - apply negb_true_iff, Z.eqb_neq. intros H0. assert (Z.testbit (Z.land z (2 ^ Z.of_nat (7 - j))) (Z.of_nat (7 - j)) = true) as H1.
    { rewrite Z.land_spec, Ht, Z.pow2_bits_true by lia. done. }
    by rewrite H0, Z.testbit_0_l in H1.
  - apply negb_false_iff, Z.eqb_eq. apply Z.bits_inj'. intros n Hn. rewrite Z.testbit_0_l, Z.land_spec.
    destruct (decide (n = Z.of_nat (7 - j))) as [->|Hne]; [by rewrite Ht|].
    rewrite Z.pow2_bits_false by lia. apply andb_false_r.
Qed.

Lemma update_bit e i j f : ext_wf e -> i < 64 -> j < 64 ->
  (forall z k, k < 8 -> Z.testbit (f z) (Z.of_nat (7 - k)) =
     if decide (j mod 8 = k) then Z.testbit (f z) (Z.of_nat (7 - j mod 8)) else Z.testbit z (Z.of_nat (7 - k))) ->
  ext_bit (with_bytes (<[j / 8 := as_u8 (f (byte_val (ext_bytes e !!! (j / 8))))]> (ext_bytes e))) i =
  if decide (i = j) then Z.testbit (f (byte_val (ext_bytes e !!! (j / 8)))) (Z.of_nat (7 - j mod 8)) else ext_bit e i.
Proof.
  intros He Hi Hj Hf. unfold ext_bit. cbn [ext_bytes].
  pose proof (Nat.mod_upper_bound i 8 ltac:(lia)). pose proof (Nat.mod_upper_bound j 8 ltac:(lia)).
  pose proof (Nat.div_mod i 8 ltac:(lia)). pose proof (Nat.div_mod j 8 ltac:(lia)).
  assert (j / 8 < length (ext_bytes e)) by (rewrite He; unfold NUM_EXTENSION_BYTES; lia).
  destruct (decide (i / 8 = j / 8)) as [Hd|Hd].
  - rewrite Hd, list_lookup_total_insert_eq by done. rewrite testbit_as_u8 by lia. rewrite Hf by done.
    destruct (decide (i = j)) as [->|Hne]; [by rewrite decide_True|]. rewrite decide_False by lia. done.
  - rewrite list_lookup_total_insert_ne by done. by rewrite decide_False by (intros ->; done).
Qed.

Lemma extension_bit_lt x : extension_bit x < 64.
Proof. destruct x. simpl. lia. Qed.

Lemma add_bit e x i : ext_wf e -> i < 64 -> ext_bit (Extensions_add e x) i = bool_decide (i = extension_bit x) || ext_bit e i.
Proof.
  intros He Hi. unfold Extensions_add. pose proof (extension_bit_lt x) as Hx.
  pose proof (Nat.mod_upper_bound (extension_bit x) 8 ltac:(lia)).
  rewrite (update_bit e i (extension_bit x) (fun z => Z.lor z (bit_mask (extension_bit x mod 8)))); [|done..|].
  - case_decide as H1; [|by rewrite bool_decide_false]. rewrite bool_decide_true, Z.lor_spec, mask_bit, bool_decide_true by done.
    apply orb_true_r.
  - intros z k Hk. rewrite !Z.lor_spec, !mask_bit by done. case_decide as H1; [by rewrite H1|].
    rewrite bool_decide_false by congruence. apply orb_false_r.
Qed.

Lemma remove_bit e x i : ext_wf e -> i < 64 ->
  ext_bit (Extensions_remove e x) i = negb (bool_decide (i = extension_bit x)) && ext_bit e i.
Proof.
  intros He Hi. unfold Extensions_remove. pose proof (extension_bit_lt x) as Hx.
  pose proof (Nat.mod_upper_bound (extension_bit x) 8 ltac:(lia)).
  rewrite (update_bit e i (extension_bit x) (fun z => Z.land z (Z.lxor 0xff (bit_mask (extension_bit x mod 8))))); [|done..|].
  - case_decide as H1; [|by rewrite bool_decide_false]. rewrite Z.land_spec, unmask_bit, !bool_decide_true by done.
    apply andb_false_r.
  - intros z k Hk. rewrite !Z.land_spec, !unmask_bit by done. case_decide as H1; [by rewrite H1|].
    rewrite bool_decide_false by congruence. apply andb_true_r.
Qed.

Lemma contains_bit e x : Extensions_contains e x = ext_bit e (extension_bit x).
Proof.
  unfold Extensions_contains, ext_bit. apply land_mask; [apply Nat.mod_upper_bound; lia|]. apply byte_val_range.
Qed.

Lemma union_bytes a b : ext_wf a -> ext_wf b ->
  ext_bytes (Extensions_union a b) = zip_with (fun x y => as_u8 (Z.land (byte_val x) (byte_val y))) (ext_bytes a) (ext_bytes b).
Proof.
  unfold ext_wf, NUM_EXTENSION_BYTES. destruct a as [a], b as [b]. cbn [ext_bytes]. intros Ha Hb.
  do 8 (destruct a as [|? a]; [done|]; destruct b as [|? b]; [done|]). destruct a; [|done]. destruct b; [|done]. reflexivity.
Qed.

Lemma union_bit a b i : ext_wf a -> ext_wf b -> i < 64 -> ext_bit (Extensions_union a b) i = ext_bit a i && ext_bit b i.
Proof.
  intros Ha Hb Hi. unfold ext_bit. rewrite union_bytes by done.
  assert (i / 8 < 8) as Hd by (apply Nat.Div0.div_lt_upper_bound; lia).
  destruct (lookup_lt_is_Some_2 (ext_bytes a) (i / 8)) as [x Hx]; [by rewrite Ha|].
  destruct (lookup_lt_is_Some_2 (ext_bytes b) (i / 8)) as [y Hy]; [by rewrite Hb|].
  rewrite (list_lookup_total_correct _ _ (as_u8 (Z.land (byte_val x) (byte_val y)))) by (apply lookup_zip_with_Some; eauto).
  rewrite (list_lookup_total_correct _ _ _ Hx), (list_lookup_total_correct _ _ _ Hy).
  pose proof (Nat.mod_upper_bound i 8 ltac:(lia)). rewrite testbit_as_u8 by lia. apply Z.land_spec.
Qed.

(** ** Properties *)

(** Handshake messages survive the wire: a well-formed message takes exactly
    [write_len] bytes in any writer with room for them, and those bytes, in
    front of anything, parse back as the message; whatever is parsed is well
    formed, and no input makes the parser panic. *)
Theorem handshake_message_roundtrip {N : Nom} {NS : NomSpec N} {W E : Type} `{WriteSpec W E} m (w : W) :
  handshake_wf m -> writer_wf w -> fits w (HandshakeMessage_write_len m) ->
  (exists w' bs, HandshakeMessage_write_bytes m w = (Ok (), w') /\ written w' = written w ++ bs /\
     length bs = HandshakeMessage_write_len m /\
     forall rest, HandshakeMessage_from_bytes (bs ++ rest) = Done rest (handshake_norm m)) /\
  yields HandshakeMessage_from_bytes handshake_wf.
Proof.
  intros Hm Hw Hf. split; [|apply yields_handshake]. rewrite <- length_handshake_bytes in Hf |- * by done.
  destruct (writes_handshake m w Hw) as (H1 & _). rewrite Nat.add_0_r, app_nil_r in H1.
  destruct (H1 Hf) as (w' & He & _ & Ha & _). exists w', (handshake_bytes m). split_and!; [done..|]. by apply parses_handshake.
Qed.

Lemma handshake_message_roundtrip_witness :
  HandshakeMessage_from_bytes (N := nom_ref)
    (handshake_bytes (mk_HandshakeMessage (Custom [x01; x02]) Extensions_new (mk_ShaHash (replicate 20 x03)) (mk_ShaHash (replicate 20 x04)))
       ++ [xff]) =
  Done [xff] (mk_HandshakeMessage (Custom [x01; x02]) Extensions_new (mk_ShaHash (replicate 20 x03)) (mk_ShaHash (replicate 20 x04))).
Proof.
  set (m := mk_HandshakeMessage _ _ _ _).
  destruct (proj1 (@handshake_message_roundtrip nom_ref nom_ref_spec bytes Empty_set _ _ m [] ltac:(repeat split; vm_compute; lia) I I))
    as (w' & bs & Hb & Hw & _ & Hp).
  assert (bs = handshake_bytes m) as ->.
  { vm_compute in Hb. injection Hb as <-. vm_compute in Hw. rewrite <- Hw. reflexivity. }
  apply Hp.
Defined.

(** The extension bits are a set of bits: adding and removing an extension
    changes its bit and no other, [contains] reads it, and [union] keeps the
    bits both sides have, an intersection. *)
Theorem extensions_are_bits (a b : Extensions) (x : Extension) (i : nat) :
  ext_wf a -> ext_wf b -> i < 64 ->
  ext_bit (Extensions_add a x) i = bool_decide (i = extension_bit x) || ext_bit a i /\
  ext_bit (Extensions_remove a x) i = negb (bool_decide (i = extension_bit x)) && ext_bit a i /\
  ext_bit (Extensions_union a b) i = ext_bit a i && ext_bit b i /\
  Extensions_contains a x = ext_bit a (extension_bit x).
Proof. intros. split_and!; [by apply add_bit|by apply remove_bit|by apply union_bit|apply contains_bit]. Qed.

Lemma extensions_are_bits_witness :
  ext_bit (Extensions_add Extensions_new ExtensionProtocol) 43 = true.
Proof. exact (proj1 (extensions_are_bits Extensions_new Extensions_new ExtensionProtocol 43 eq_refl eq_refl ltac:(lia))). Defined.
