(* ===== verification/HsFramed.v ===== *)
(** * [bip_handshake::bittorrent::framed]: a handshake on a socket

    The socket is an external type known by the [tokio_io] traits: a class
    of operations and the documented behaviour of a byte stream.  A [loop] is
    run with fuel; the theorems show how much is enough. *)

From stdpp Require Import prelude list gmap strings.
From Stdlib Require Import ZArith Lia Strings.Byte.
From S2P Require Import Prelude Bytes Convert Sha Nom WriteBytes UtContact UtAnnounce HsMessage.

(** [read_buf] into a buffer with room for [n] bytes gives the bytes read;
    [write_buf] gives the number of bytes taken. *)
Class AsyncSocket (S E : Type) : Type := {
  read_buf : nat -> stM S E (Async bytes);
  write_buf : bytes -> stM S E (Async nat);
  flush : stM S E (Async ());
}.

Inductive HandshakeState : Type :=
| Waiting
| Length (length : byte)
| Finished.

Inductive FrameError (E : Type) : Type :=
| WriteZeroError
| InvalidData
| SocketError (e : E).
Arguments WriteZeroError {E}.
Arguments InvalidData {E}.
Arguments SocketError {E} e.

Record FramedHandshake (S : Type) : Type := mk_FramedHandshake {
  sock : S;
  write_buffer : bytes;
  read_buffer : bytes;
  read_pos : nat;
  hs_state : HandshakeState;
}.
Arguments mk_FramedHandshake {S} sock write_buffer read_buffer read_pos hs_state.
Arguments sock {S} _.
Arguments write_buffer {S} _.
Arguments read_buffer {S} _.
Arguments read_pos {S} _.
Arguments hs_state {S} _.

Definition FramedHandshake_new {S} (sock : S) : FramedHandshake S := mk_FramedHandshake sock [] [x00] 0 Waiting.
Definition into_inner {S} (self : FramedHandshake S) : S := sock self.

Section framed.
Context {S E : Type} {A : AsyncSocket S E} {N : Nom}.

(** A call on the socket inside the frame. *)
Definition on_sock {B} (m : stM S E B) : stM (FramedHandshake S) (FrameError E) B :=
  fun fr =>
    let '(r, s) := m (sock fr) in
    (map_err SocketError r, mk_FramedHandshake s (write_buffer fr) (read_buffer fr) (read_pos fr) (hs_state fr)).

Definition get_frame {E'} : stM (FramedHandshake S) E' (FramedHandshake S) := fun fr => (Ok fr, fr).
Definition put_frame {E'} (fr : FramedHandshake S) : stM (FramedHandshake S) E' () := fun _ => (Ok (), fr).

(** ** Sink *)

(** [BytesMut] grows, so writing to it does not fail. *)
Definition framed_start_send (item : HandshakeMessage) : stM (FramedHandshake S) (FrameError E) () :=
  fun fr =>
    match HandshakeMessage_write_bytes (E := E) item (write_buffer fr) with
    | (r, b) => (map_err SocketError r, mk_FramedHandshake (sock fr) b (read_buffer fr) (read_pos fr) (hs_state fr))
    end.

Fixpoint framed_poll_complete (fuel : nat) : stM (FramedHandshake S) (FrameError E) (Async ()) :=
  match fuel with
  | O => fun fr => (NoFuel, fr)
  | Datatypes.S fuel =>
      fr ← get_frame;
      write_result ← on_sock (write_buf (write_buffer fr));
      match write_result with
      | Ready 0 => lift (Err WriteZeroError)
      | Ready written =>
          fr ← get_frame;
          if decide (written <= length (write_buffer fr)) then
            _ ← put_frame (mk_FramedHandshake (sock fr) (drop written (write_buffer fr)) (read_buffer fr) (read_pos fr) (hs_state fr));
            fr ← get_frame;
            match write_buffer fr with
            | [] =>
                flushed ← on_sock flush;
                match flushed with Ready _ => mret (Ready ()) | NotReady => mret NotReady end
            | _ :: _ => framed_poll_complete fuel
            end
          else lift Panic
      | NotReady => mret NotReady
      end
  end.

(** ** Stream *)

Fixpoint framed_poll (fuel : nat) : stM (FramedHandshake S) (FrameError E) (Async (option HandshakeMessage)) :=
  match fuel with
  | O => fun fr => (NoFuel, fr)
  | Datatypes.S fuel =>
      fr ← get_frame;
      match hs_state fr with
      | Waiting =>
          read_result ← on_sock (read_buf (length (read_buffer fr)));
          match read_result with
          | Ready [] => mret (Ready None)
          | Ready [length] =>
              let buffer := replicate (write_len_with_protocol_len (Z.to_nat (byte_val length))) x00 in
              fr ← get_frame;
              _ ← put_frame (mk_FramedHandshake (sock fr) (write_buffer fr) (<[0 := length]> buffer) 1 (Length length));
              framed_poll fuel
          | Ready _ => lift Panic
          | NotReady => mret NotReady
          end
      | Length len =>
          let expected_length := write_len_with_protocol_len (Z.to_nat (byte_val len)) in
          if decide (read_pos fr = expected_length) then
            match HandshakeMessage_from_bytes (read_buffer fr) with
            | Done _ message =>
                _ ← put_frame (mk_FramedHandshake (sock fr) (write_buffer fr) (read_buffer fr) (read_pos fr) Finished);
                mret (Ready (Some message))
            | Incomplete _ | Panicked => lift Panic
            | Error _ => lift (Err InvalidData)
            | OutOfFuel => lift NoFuel
            end
          else
            if decide (read_pos fr <= length (read_buffer fr)) then
              read_result ← on_sock (read_buf (length (read_buffer fr) - read_pos fr));
              match read_result with
              | Ready [] => mret (Ready None)
              | Ready read =>
                  fr ← get_frame;
                  _ ← put_frame (mk_FramedHandshake (sock fr) (write_buffer fr)
                        (take (read_pos fr) (read_buffer fr) ++ read ++ drop (read_pos fr + length read) (read_buffer fr))
                        (read_pos fr + length read) (Length len));
                  framed_poll fuel
              | NotReady => mret NotReady
              end
            else lift Panic
      | Finished => mret (Ready None)
      end
  end.

End framed.

(** ** Documented behaviour of a byte stream

    [incoming] are the bytes the peer sends from now on, [outgoing] those sent
    to it.  Reading nothing into a buffer with room means the end of the stream. *)
Class SocketSpec (S E : Type) {A : AsyncSocket S E} : Type := {
  incoming : S -> bytes;
  outgoing : S -> bytes;
  read_spec n s r s' : read_buf n s = (r, s') -> outgoing s' = outgoing s /\
    match r with
    | Ok (Ready bs) => incoming s = bs ++ incoming s' /\ length bs <= n /\ (bs = [] -> n = 0 \/ incoming s = [])
    | Ok NotReady | Err _ => incoming s' = incoming s
    | Panic | NoFuel => False
    end;
  write_spec bs s r s' : write_buf bs s = (r, s') -> incoming s' = incoming s /\
    match r with
    | Ok (Ready n) => outgoing s' = outgoing s ++ take n bs /\ n <= length bs
    | Ok NotReady | Err _ => outgoing s' = outgoing s
    | Panic | NoFuel => False
    end;
  write_nothing s : exists s', write_buf [] s = (Ok (Ready 0), s');
  flush_spec s r s' : flush s = (r, s') -> incoming s' = incoming s /\ outgoing s' = outgoing s /\
    match r with Ok _ | Err _ => True | Panic | NoFuel => False end;
}.

(** A handshake is known by its first byte to be whole. *)
Lemma whole_handshake `{NS : NomSpec} b rest :
  length (b :: rest) = write_len_with_protocol_len (Z.to_nat (byte_val b)) ->
  exists m, handshake_wf m /\ HandshakeMessage_from_bytes (b :: rest) = Done [] m.
Proof.
  intros Hl. set (n := Z.to_nat (byte_val b)) in *. pose proof (byte_val_range b) as Hb.
  unfold write_len_with_protocol_len, NUM_EXTENSION_BYTES, INFO_HASH_LEN, PEER_ID_LEN, SHA_HASH_LEN in Hl. simpl in Hl.
  set (name := take n rest). set (tail := drop n rest).
  set (m := mk_HandshakeMessage (Custom name) (with_bytes (take 8 tail)) (mk_ShaHash (take 20 (drop 8 tail)))
              (mk_ShaHash (drop 28 tail))).
  assert (length name = n) as Hn by (unfold name; rewrite length_take; lia).
  assert (length tail = 48) as Ht by (unfold tail; rewrite length_drop; lia).
  assert (handshake_wf m) as Hm.
  { unfold handshake_wf, prot_wf, ext_wf, sha_wf. cbn [m hs_prot prot_name hs_ext ext_bytes hs_hash hs_pid sha_hash].
    rewrite !length_take, !length_drop, Hn, Ht. unfold NUM_EXTENSION_BYTES, SHA_HASH_LEN. lia. }
  assert (handshake_bytes m = b :: rest) as Hbs.
  { unfold handshake_bytes, prot_bytes. cbn [m hs_prot prot_name hs_ext ext_bytes hs_hash hs_pid sha_hash].
    rewrite Hn. unfold n. rewrite Z2Nat.id, as_u8_byte_val by lia. simpl. f_equal.
    replace (drop 28 tail) with (drop 20 (drop 8 tail)) by (by rewrite drop_drop). rewrite (take_drop 20), (take_drop 8). unfold name, tail. apply take_drop. }
  pose proof (parses_handshake m Hm []) as Hp. rewrite app_nil_r, Hbs in Hp. exists (handshake_norm m). split; [|done].
  destruct Hm as (H1 & H2). split; [|done]. unfold handshake_norm, prot_wf, prot_norm. simpl. case_decide; simpl; [lia|done].
Qed.

Section reading.
Context {S E : Type} {A : AsyncSocket S E} {SS : SocketSpec S E} {N : Nom} {NS : NomSpec N}.

Definition expected (len : byte) : nat := write_len_with_protocol_len (Z.to_nat (byte_val len)).

(** [total]: everything the peer sends, from the first byte on. *)
Definition frame_inv (total : bytes) (fr : FramedHandshake S) : Prop :=
  match hs_state fr with
  | Waiting => length (read_buffer fr) = 1 /\ total = incoming (sock fr)
  | Length len =>
      length (read_buffer fr) = expected len /\ 1 <= read_pos fr <= expected len /\
      read_buffer fr !! 0 = Some len /\ total = take (read_pos fr) (read_buffer fr) ++ incoming (sock fr)
  | Finished => exists bs m, total = bs ++ incoming (sock fr) /\ HandshakeMessage_from_bytes bs = Done [] m
  end.

(** Rounds of the loop that are enough. *)
Definition rounds (fr : FramedHandshake S) : nat :=
  match hs_state fr with Waiting => 307 | Length len => expected len - read_pos fr + 2 | Finished => 1 end.

(** What one call of [poll] may come to. *)
Definition poll_result (total : bytes) (fr : FramedHandshake S)
    (res : outcome (FrameError E) (Async (option HandshakeMessage)) * FramedHandshake S) : Prop :=
  match res with
  | (Ok (Ready (Some m)), fr') =>
      hs_state fr' = Finished /\ handshake_wf m /\
      exists len bs, total = (len :: bs) ++ incoming (sock fr') /\ length (len :: bs) = expected len /\
        HandshakeMessage_from_bytes (len :: bs) = Done [] m
  | (Ok (Ready None), fr') =>
      hs_state fr = Finished \/
      incoming (sock fr') = [] /\ forall len bs, total = len :: bs -> length total < expected len
  | (Ok NotReady, fr') | (Err (SocketError _), fr') => frame_inv total fr'
  | (Err _, _) | (Panic, _) | (NoFuel, _) => False
  end.

Lemma expected_bound len : 49 <= expected len <= 304.
Proof.
  unfold expected, write_len_with_protocol_len, NUM_EXTENSION_BYTES, INFO_HASH_LEN, PEER_ID_LEN, SHA_HASH_LEN.
  pose proof (byte_val_range len). lia.
Qed.

Lemma on_sock_read n fr r s :
  read_buf n (sock fr) = (r, s) ->
  on_sock (read_buf n) fr =
    (map_err SocketError r, mk_FramedHandshake s (write_buffer fr) (read_buffer fr) (read_pos fr) (hs_state fr)).
Proof. intros H. unfold on_sock. by rewrite H. Qed.

Lemma poll_steps total fuel : forall fr, frame_inv total fr -> rounds fr <= fuel ->
  poll_result total fr (framed_poll fuel fr).
Proof.
  induction fuel as [|fuel IH]; intros fr Hi Hf.
  { unfold rounds in Hf. destruct (hs_state fr); lia. }
  unfold frame_inv in Hi. unfold rounds in Hf. cbn [framed_poll]. unfold mbind, stM_bind, get_frame. cbn [fst snd].
  destruct (hs_state fr) as [|len|] eqn:Hst.
  - destruct Hi as [Hlen Htot]. rewrite Hlen. destruct (read_buf 1 (sock fr)) as [r s] eqn:Hr.
    rewrite (on_sock_read _ _ _ _ Hr). destruct (read_spec _ _ _ _ Hr) as [_ Hs].
    destruct r as [[[|len [|b bs]]|]|e| |]; cbn [map_err]; try done.
    + right. destruct Hs as (Hin & _ & [?|He]); [done..|]. rewrite He in Hin, Htot. subst total. done.
    + destruct Hs as (Hin & _). cbn [put_frame sock write_buffer]. match goal with |- context [framed_poll fuel ?x] => set (fr1 := x) end.
      pose proof (expected_bound len) as Hb. assert (frame_inv total fr1) as Hfr1.
      { unfold frame_inv, fr1. cbn [hs_state read_buffer read_pos sock]. fold (expected len).
        rewrite length_insert, length_replicate. split_and!; [done|lia..| |].
        - apply list_lookup_insert_eq. rewrite length_replicate. lia.
        - rewrite Htot, Hin. destruct (expected len) as [|n]; [lia|]. done. }
      specialize (IH fr1 Hfr1). unfold rounds in IH. cbn [fr1 hs_state read_pos] in IH. specialize (IH ltac:(lia)).
      revert IH. unfold poll_result. destruct (framed_poll fuel fr1) as [[[[m|]|]|e| |] fr2]; try done.
      intros [?|?]; [done|by right].
    + destruct Hs as (_ & Hl & _). simpl in Hl. lia.
    + cbn. unfold frame_inv. cbn. rewrite Hst. split; [done|]. by rewrite Hs.
    + cbn. unfold frame_inv. cbn. rewrite Hst. split; [done|]. by rewrite Hs.
  - destruct Hi as (Hlen & Hpos & H0 & Htot). fold (expected len). case_decide as Hp.
    + rewrite Hp, take_ge in Htot by lia. destruct (read_buffer fr) as [|b rest] eqn:Hbuf; [done|]. injection H0 as ->.
      destruct (whole_handshake len rest Hlen) as (m & Hm & Hparse). rewrite Hparse. cbn.
      split_and!; [done..|]. exists len, rest. done.
    + rewrite decide_True by lia. destruct (read_buf (length (read_buffer fr) - read_pos fr) (sock fr)) as [r s] eqn:Hr.
      rewrite (on_sock_read _ _ _ _ Hr). destruct (read_spec _ _ _ _ Hr) as [_ Hs].
      destruct r as [[bs|]|e| |]; cbn [map_err]; try done.
      * destruct bs as [|b bs].
        { right. destruct Hs as (Hin & _ & [?|He]); [done|lia|]. cbn [mret stM_ret sock]. rewrite He in Hin, Htot. split; [done|].
          intros len' bs Ht. rewrite app_nil_r in Htot. rewrite Htot. destruct (read_buffer fr) as [|x rest]; [done|].
          injection H0 as ->. destruct (read_pos fr) as [|k]; [lia|]. rewrite Htot in Ht. injection Ht as <- _.
          rewrite length_take. lia. }
        destruct Hs as (Hin & Hl & _). cbn [put_frame sock write_buffer read_buffer read_pos].
        match goal with |- context [framed_poll fuel ?x] => set (fr1 := x) end.
        assert (frame_inv total fr1) as Hfr1.
        { unfold frame_inv, fr1. cbn [hs_state read_buffer read_pos sock].
          rewrite !length_app, length_take, length_drop. split_and!; [cbn [length] in *; lia|lia|cbn [length] in *; lia| |].
          - destruct (read_pos fr) as [|k]; [lia|]. destruct (read_buffer fr); [done|]. done.
          - rewrite Htot, Hin, (app_assoc (take (read_pos fr) (read_buffer fr)) (b :: bs) (drop _ _)), take_app_length'.
            + by rewrite <- app_assoc.
            + rewrite length_app, length_take. lia. }
        specialize (IH fr1 Hfr1). unfold rounds in IH. cbn [fr1 hs_state read_pos] in IH. cbn [length] in IH, Hl. specialize (IH ltac:(lia)).
        revert IH. unfold poll_result. destruct (framed_poll fuel fr1) as [[[[m|]|]|e| |] fr2]; try done.
        intros [?|?]; [done|by right].
      * cbn. unfold frame_inv. cbn. rewrite Hst, Hs. done.
      * cbn. unfold frame_inv. cbn. rewrite Hst, Hs. done.
  - by left.
Qed.

(** Reading does not touch what is being sent. *)
Lemma poll_keeps_writes fuel : forall fr, let fr' := (framed_poll (E := E) fuel fr).2 in
  outgoing (sock fr') = outgoing (sock fr) /\ write_buffer fr' = write_buffer fr.
Proof.
  assert (forall n (fr : FramedHandshake S) r s, read_buf (E := E) n (sock fr) = (r, s) -> outgoing s = outgoing (sock fr)) as Hout.
  { intros n fr r s Hr. by destruct (read_spec _ _ _ _ Hr). }
  induction fuel as [|fuel IH]; intros fr; [done|]. cbn [framed_poll]. unfold mbind, stM_bind, get_frame, on_sock. cbn [fst snd]. destruct (hs_state fr) as [|len|]; [| |done].
  - destruct (read_buf (length (read_buffer fr)) (sock fr)) as [r s] eqn:Hr. apply Hout in Hr. destruct r as [[[|b [|b' bs]]|]|e| |]; cbn [map_err]; try (split; [exact Hr|done]).
    cbn [put_frame sock write_buffer]. match goal with |- context [framed_poll fuel ?x] => destruct (IH x) as [H1 H2] end. split; [etransitivity; [exact H1|exact Hr]|exact H2].
  - case_decide as Hpos; [by destruct (HandshakeMessage_from_bytes (read_buffer fr))|]. case_decide; [|done].
    destruct (read_buf (length (read_buffer fr) - read_pos fr) (sock fr)) as [r s] eqn:Hr. apply Hout in Hr. destruct r as [[[|b bs]|]|e| |]; cbn [map_err]; try (split; [exact Hr|done]).
    cbn [put_frame sock write_buffer read_buffer read_pos]. match goal with |- context [framed_poll fuel ?x] => destruct (IH x) as [H1 H2] end. split; [etransitivity; [exact H1|exact Hr]|exact H2].
Qed.

End reading.

(** ** Properties *)

(** C12. The frame takes its handshake and nothing more: after any number of calls that
    found the socket not ready, however the bytes are cut, a call of [poll]
    neither panics nor loops, and ends in one of four ways: the message in
    exactly the bytes its length byte announces, leaving every later byte in
    the socket; an end of stream inside the handshake; not ready, to be called
    again; or an error of the socket itself. *)
Theorem framed_reads_exactly {S E : Type} {A : AsyncSocket S E} {SS : SocketSpec S E} {N : Nom} {NS : NomSpec N}
    (s : S) (fr : FramedHandshake S) fuel :
  rtc (fun a b => framed_poll fuel a = (Ok NotReady, b)) (FramedHandshake_new s) fr -> 307 <= fuel ->
  poll_result (incoming s) fr (framed_poll fuel fr).
Proof.
  intros Hr Hf. assert (forall fr : FramedHandshake S, rounds fr <= fuel) as Hrounds.
  { intros fr'. unfold rounds. destruct (hs_state fr') as [|len|]; [lia| |lia]. pose proof (expected_bound len). lia. }
  apply poll_steps; [|done]. revert fr Hr.
  apply (rtc_ind_r (frame_inv (incoming s))); [done|].
  intros a b _ Hab Ha. pose proof (poll_steps _ fuel a Ha (Hrounds a)) as Hp. by rewrite Hab in Hp.
Qed.

(** A socket in memory: [patience] says for each call how many bytes it handles
    at most, zero for a call that would block; when it is used up, all. *)
Record MemSock : Type := mk_MemSock { mem_in : bytes; mem_out : bytes; patience : list nat }.

#[export] Instance MemSock_socket : AsyncSocket MemSock Empty_set := {|
  read_buf n s :=
    match patience s with
    | [] => (Ok (Ready (take n (mem_in s))), mk_MemSock (drop n (mem_in s)) (mem_out s) [])
    | 0 :: p => (Ok NotReady, mk_MemSock (mem_in s) (mem_out s) p)
    | k :: p =>
        (Ok (Ready (take (min k n) (mem_in s))), mk_MemSock (drop (min k n) (mem_in s)) (mem_out s) p)
    end;
  write_buf bs s :=
    match bs, patience s with
    | [], _ => (Ok (Ready 0), s)
    | _, [] => (Ok (Ready (length bs)), mk_MemSock (mem_in s) (mem_out s ++ bs) [])
    | _, 0 :: p => (Ok NotReady, mk_MemSock (mem_in s) (mem_out s) p)
    | _, k :: p =>
        (Ok (Ready (min k (length bs))), mk_MemSock (mem_in s) (mem_out s ++ take (min k (length bs)) bs) p)
    end;
  flush s :=
    match patience s with
    | 0 :: p => (Ok NotReady, mk_MemSock (mem_in s) (mem_out s) p)
    | _ => (Ok (Ready ()), s)
    end;
|}.

#[export] Program Instance MemSock_spec : SocketSpec MemSock Empty_set := {| incoming := mem_in; outgoing := mem_out |}.
Next Obligation.
  intros n [i o [|[|k] p]] r s'; cbn; intros [= <- <-]; cbn; split; try done.
  - rewrite take_drop, length_take. split_and!; [done|lia|]. intros Ht. destruct n, i; try done; auto.
  - change (match n with 0 => 0 | Datatypes.S m' => Datatypes.S (k `min` m') end) with (Datatypes.S k `min` n).
    rewrite take_drop, length_take. split_and!; [done|lia|]. intros Ht. destruct n, i; try done; auto.
Qed.
Next Obligation.
  intros [|b bs] [i o [|[|k] p]] r s'; cbn; intros [= <- <-]; cbn; split; try done.
  - by rewrite app_nil_r.
  - by rewrite app_nil_r.
  - by rewrite app_nil_r.
  - rewrite take_ge by lia. split; [done|lia].
  - split; [done|lia].
Qed.
Next Obligation. intros [i o p]. cbn. eauto. Qed.
Next Obligation. intros [i o [|[|k] p]] r s'; cbn; intros [= <- <-]; done. Qed.

Definition sample_handshake : HandshakeMessage :=
  mk_HandshakeMessage BitTorrent Extensions_new (mk_ShaHash (replicate 20 x03)) (mk_ShaHash (replicate 20 x04)).

(** Byte 55 after the handshake stays in the socket, as the test of the source asks. *)
Lemma framed_reads_exactly_witness :
  let s := mk_MemSock (handshake_bytes sample_handshake ++ [x37]) [] [1; 7; 0; 20] in
  exists fr1, framed_poll (N := nom_ref) 400 (FramedHandshake_new s) = (Ok NotReady, fr1) /\
    poll_result (N := nom_ref) (incoming s) fr1 (framed_poll (N := nom_ref) 400 fr1).
Proof.
  eexists. split; [vm_compute; reflexivity|].
  refine (@framed_reads_exactly MemSock Empty_set MemSock_socket MemSock_spec nom_ref nom_ref_spec
    (mk_MemSock (handshake_bytes sample_handshake ++ [x37]) [] [1; 7; 0; 20]) _ 400 _ _).
  - apply rtc_once. vm_compute. reflexivity.
  - lia.
Defined.

Section writing.
Context {S E : Type} {A : AsyncSocket S E} {SS : SocketSpec S E}.

(** All bytes given to the frame, sent or not. *)
Definition handed (fr : FramedHandshake S) : bytes := outgoing (sock fr) ++ write_buffer fr.

Definition complete_result (fr : FramedHandshake S) (res : outcome (FrameError E) (Async ()) * FramedHandshake S) : Prop :=
  handed res.2 = handed fr /\ incoming (sock res.2) = incoming (sock fr) /\ length (write_buffer res.2) <= length (write_buffer fr) /\
  match res.1 with
  | Ok (Ready _) => write_buffer res.2 = []
  | Ok NotReady | Err _ => True
  | Panic | NoFuel => False
  end.

Lemma complete_steps fuel : forall fr, length (write_buffer fr) < fuel -> complete_result fr (framed_poll_complete fuel fr).
Proof.
  induction fuel as [|fuel IH]; intros fr Hf; [lia|]. cbn [framed_poll_complete].
  unfold mbind, stM_bind, get_frame, on_sock. cbn [fst snd].
  destruct (write_buf (write_buffer fr) (sock fr)) as [r s] eqn:Hw. destruct (write_spec _ _ _ _ Hw) as [Hin Hs].
  destruct r as [[n|]|e| |]; cbn [map_err]; try done;
    try (split_and!; cbn; [unfold handed; cbn; by rewrite Hs|by rewrite Hin|done|done]).
  destruct Hs as [Hout Hn]. destruct n as [|n].
  { rewrite take_0, app_nil_r in Hout. split_and!; cbn; [unfold handed; cbn; by rewrite Hout|by rewrite Hin|done|done]. }
  cbn [write_buffer sock read_buffer read_pos hs_state]. rewrite decide_True by done. cbn [put_frame write_buffer].
  set (fr1 := mk_FramedHandshake s (drop (Datatypes.S n) (write_buffer fr)) (read_buffer fr) (read_pos fr) (hs_state fr)).
  assert (handed fr1 = handed fr) as Hh.
  { unfold handed, fr1. cbn. by rewrite Hout, <- app_assoc, take_drop. }
  destruct (drop (Datatypes.S n) (write_buffer fr)) as [|b rest] eqn:Hd.
  - cbn [fr1 sock]. destruct (flush s) as [r s'] eqn:Hfl. destruct (flush_spec _ _ _ Hfl) as (Hi' & Ho' & Hr).
    assert (forall fr2, sock fr2 = s' -> write_buffer fr2 = [] -> handed fr2 = handed fr) as Hlast.
    { intros fr2 <- Hb2. unfold handed at 1. rewrite Hb2, Ho'. rewrite <- Hh. reflexivity. }
    destruct r as [[u|]|e| |]; try done; (split_and!; [by apply Hlast|cbn; congruence|cbn; lia|done]).
  - assert (length (write_buffer fr1) < fuel) as Hl1.
    { unfold fr1. cbn [write_buffer]. rewrite <- Hd, length_drop. lia. }
    destruct (IH fr1 Hl1) as (H1 & H2 & H3 & H4). split_and!; [by rewrite H1|by rewrite H2, <- Hin| |done].
    etransitivity; [exact H3|]. unfold fr1. cbn [write_buffer]. rewrite <- Hd, length_drop. lia.
Qed.

(** Sending does not touch what is being read. *)
Lemma complete_keeps_reads fuel : forall fr, let fr' := (framed_poll_complete (E := E) fuel fr).2 in
  read_buffer fr' = read_buffer fr /\ read_pos fr' = read_pos fr /\ hs_state fr' = hs_state fr.
Proof.
  induction fuel as [|fuel IH]; intros fr; [done|]. cbn [framed_poll_complete]. unfold mbind, stM_bind, get_frame, on_sock. cbn [fst snd].
  destruct (write_buf (write_buffer fr) (sock fr)) as [[[[|n]|]|e| |] s]; cbn [map_err]; try done. cbn [write_buffer sock read_buffer read_pos hs_state].
  case_decide; [|done]. cbn [put_frame write_buffer sock]. destruct (drop _ _); [cbn [sock]; by destruct (flush s) as [[[u|]|e| |] s']|].
  match goal with |- context [framed_poll_complete fuel ?x] => exact (IH x) end.
Qed.

Lemma complete_nothing fuel fr : write_buffer fr = [] -> (framed_poll_complete (Datatypes.S fuel) fr).1 = Err WriteZeroError.
Proof.
  intros Hb. cbn [framed_poll_complete]. unfold mbind, stM_bind, get_frame, on_sock. cbn [fst snd]. rewrite Hb.
  destruct (write_nothing (sock fr)) as [s ->]. done.
Qed.

End writing.

(** Sending loses and invents no byte: [start_send] appends the encoding of the
    message to the buffer, and a call of [poll_complete] moves a prefix of the
    buffer to the socket, all of it when it reports ready, without a panic and
    without looping. *)
Theorem framed_sends_exactly {S E : Type} {A : AsyncSocket S E} {SS : SocketSpec S E} (m : HandshakeMessage)
    (fr fr1 : FramedHandshake S) fuel :
  framed_start_send (E := E) m fr = (Ok (), fr1) -> length (write_buffer fr1) < fuel ->
  handed fr1 = handed fr ++ handshake_bytes m /\ complete_result fr1 (framed_poll_complete fuel fr1).
Proof.
  intros Hs Hf. split; [|by apply complete_steps]. unfold framed_start_send in Hs.
  pose proof (@writes_handshake bytes E _ _ m (write_buffer fr) I) as (H1 & _). destruct (H1 I) as (w & Hw & _ & Hb & _).
  rewrite Hw in Hs. injection Hs as <-. unfold handed. cbn in *. rewrite Hb, app_nil_r. by rewrite app_assoc.
Qed.

Lemma framed_sends_exactly_witness :
  complete_result (E := Empty_set)
    (framed_start_send (E := Empty_set) sample_handshake (FramedHandshake_new (mk_MemSock [] [] [3; 0]))).2
    (framed_poll_complete 100 (framed_start_send (E := Empty_set) sample_handshake (FramedHandshake_new (mk_MemSock [] [] [3; 0]))).2).
Proof.
  refine (proj2 (@framed_sends_exactly MemSock Empty_set MemSock_socket MemSock_spec sample_handshake
    (FramedHandshake_new (mk_MemSock [] [] [3; 0])) _ 100 _ _)).
  - vm_compute. reflexivity.
  - vm_compute. lia.
Defined.

(** A flush that is not ready spoils the send: the handshake has been written
    whole when the flush of the socket would block; the frame then reports not
    ready, and the next call of [poll_complete], with an empty buffer, fails
    with a write error although every byte was sent. *)
Theorem blocked_flush_fails :
  let fr := (framed_start_send (E := Empty_set) sample_handshake (FramedHandshake_new (mk_MemSock [] [] [68; 0]))).2 in
  exists fr1, framed_poll_complete 100 fr = (Ok NotReady, fr1) /\ mem_out (sock fr1) = handshake_bytes sample_handshake /\
    forall fuel, (framed_poll_complete (Datatypes.S fuel) fr1).1 = Err WriteZeroError.
Proof.
  eexists. split; [vm_compute; reflexivity|]. split; [reflexivity|]. intros fuel. by apply complete_nothing.
Qed.
