(* ===== verification/HsFilter.v ===== *)
(** * [bip_handshake]: filters and the two sides of a handshake

    [filter/*.rs] and [handshake/handler/*.rs].  A filter object is a value of a
    type with the methods of the trait and the equality of [as_any].  The
    handlers run on the frame of [HsFramed]: a future is polled until it is ready,
    as often as its timer allows; a timeout or an error of the socket makes a step
    fail, and the handler then gives no message. *)

From stdpp Require Import prelude list gmap strings.
From Stdlib Require Import ZArith Lia Strings.Byte.
From S2P Require Import Prelude Bytes Convert Sha Nom WriteBytes UtContact UtAnnounce HsMessage HsFramed.

(** ** Decisions *)

Inductive FilterDecision : Type :=
| Pass
| Block
| NeedData
| Allow.

#[export] Instance FilterDecision_eq_dec : EqDecision FilterDecision.
Proof. solve_decision. Defined.

Definition decision_num (d : FilterDecision) : nat :=
  match d with Pass => 0 | Block => 1 | NeedData => 2 | Allow => 3 end.

Definition choose (self other : FilterDecision) : FilterDecision :=
  let self_num := decision_num self in
  let other_num := decision_num other in
  if decide (other_num < self_num) then self else other.

Class HandshakeFilter (F : Type) : Type := {
  filter_eq : EqDecision F;
  on_addr : F -> option SocketAddr -> FilterDecision;
  on_prot : F -> option Protocol -> FilterDecision;
  on_ext : F -> option Extensions -> FilterDecision;
  on_hash : F -> option ShaHash -> FilterDecision;
  on_pid : F -> option ShaHash -> FilterDecision;
}.
#[export] Existing Instance filter_eq.

Inductive HandshakeType (S : Type) : Type :=
| Initiate (sock : S) (init_msg : InitiateMessage)
| Complete (sock : S) (addr : SocketAddr).
Arguments Initiate {S} sock init_msg.
Arguments Complete {S} sock addr.

(** ** The set of filters *)

Section filters.
Context {F : Type} `{HandshakeFilter F}.

Record Filters : Type := mk_Filters { filters : list F }.

Definition Filters_new : Filters := mk_Filters [].

Definition check_index (ref_filters : list F) (filter : F) : option nat :=
  Prelude.position (fun ref_filter => bool_decide (ref_filter = filter)) ref_filters.

Definition add_filter (self : Filters) (filter : F) : Filters :=
  match check_index (filters self) filter with
  | Some _ => self
  | None => mk_Filters (filters self ++ [filter])
  end.

Definition remove_filter (self : Filters) (filter : F) : Filters :=
  match check_index (filters self) filter with
  | Some index => mk_Filters (swap_remove (filters self) index)
  | None => self
  end.

Definition clear_filters (self : Filters) : Filters := mk_Filters [].

Definition should_filter (addr : option SocketAddr) (prot : option Protocol) (ext : option Extensions)
    (hash pid : option ShaHash) (fs : Filters) : bool :=
  let '(addr_filter, prot_filter, ext_filter, hash_filter, pid_filter) :=
    foldl (fun '(addr_filter, prot_filter, ext_filter, hash_filter, pid_filter) ref_filter =>
      (choose addr_filter (on_addr ref_filter addr), choose prot_filter (on_prot ref_filter prot),
       choose ext_filter (on_ext ref_filter ext), choose hash_filter (on_hash ref_filter hash),
       choose pid_filter (on_pid ref_filter pid)))
    (Pass, Pass, Pass, Pass, Pass) (filters fs) in
  bool_decide (choose (choose (choose (choose addr_filter prot_filter) ext_filter) hash_filter) pid_filter = Block).

(** ** Handlers *)

(** [connect] is the transport: a socket, unless it fails or times out. *)
Definition initiator_handler {S} (connect : SocketAddr -> option S) (item : InitiateMessage) (fs : Filters) :
    option (HandshakeType S) :=
  if should_filter (Some (init_addr item)) (Some (init_prot item)) None (Some (init_hash item)) None fs then None
  else
    match connect (init_addr item) with
    | Some socket => Some (Initiate socket item)
    | None => None
    end.

Definition ListenerHandler_new {S} (item : S * SocketAddr) (fs : Filters) : option (HandshakeType S) :=
  let '(sock, addr) := item in
  if should_filter (Some addr) None None None None fs then None else Some (Complete sock addr).

(** [framed.send(..)] and [framed.into_future()] under a timer that allows so many
    polls; every poll has the rounds that [HsFramed] shows to be enough. *)
Definition frame_rounds : nat := 307.

Section exchange.
Context {S E : Type} {A : AsyncSocket S E} {N : Nom} (send_polls recv_polls : nat).

Fixpoint finish_send (polls : nat) (framed : FramedHandshake S) : outcome Empty_set (option (FramedHandshake S)) :=
  match polls with
  | 0 => Ok None
  | Datatypes.S polls =>
      match framed_poll_complete (E := E) frame_rounds framed with
      | (Ok (Ready _), framed) => Ok (Some framed)
      | (Ok NotReady, framed) => finish_send polls framed
      | (Err _, _) => Ok None
      | (Panic, _) => Panic
      | (NoFuel, _) => NoFuel
      end
  end.

Definition framed_send (msg : HandshakeMessage) (framed : FramedHandshake S) : outcome Empty_set (option (FramedHandshake S)) :=
  match framed_start_send (E := E) msg framed with
  | (Ok _, framed) => finish_send send_polls framed
  | (Err _, _) => Ok None
  | (Panic, _) => Panic
  | (NoFuel, _) => NoFuel
  end.

Fixpoint finish_recv (polls : nat) (framed : FramedHandshake S) : outcome Empty_set (option (HandshakeMessage * FramedHandshake S)) :=
  match polls with
  | 0 => Ok None
  | Datatypes.S polls =>
      match framed_poll (E := E) frame_rounds framed with
      | (Ok (Ready opt_msg), framed) => Ok (msg ← opt_msg; Some (msg, framed))
      | (Ok NotReady, framed) => finish_recv polls framed
      | (Err _, _) => Ok None
      | (Panic, _) => Panic
      | (NoFuel, _) => NoFuel
      end
  end.

Definition initiate_handshake (sock : S) (init_msg : InitiateMessage) (ext : Extensions) (pid : ShaHash) (fs : Filters) :
    outcome Empty_set (option (CompleteMessage S)) :=
  let framed := FramedHandshake_new sock in
  let prot := init_prot init_msg in
  let hash := init_hash init_msg in
  let addr := init_addr init_msg in
  handshake_msg ← from_parts prot ext hash pid;
  sent ← framed_send handshake_msg framed;
  match sent with
  | None => Ok None
  | Some framed =>
      received ← finish_recv recv_polls framed;
      match received with
      | None => Ok None
      | Some (msg, framed) =>
          let socket := into_inner framed in
          if bool_decide (hs_hash msg <> hash) || bool_decide (hs_prot msg <> prot) ||
             should_filter (Some addr) (Some (hs_prot msg)) (Some (hs_ext msg)) (Some (hs_hash msg)) (Some (hs_pid msg)) fs
          then Ok None
          else Ok (Some (CompleteMessage_new prot (Extensions_union ext (hs_ext msg)) hash (hs_pid msg) addr socket))
      end
  end.

Definition complete_handshake (sock : S) (addr : SocketAddr) (ext : Extensions) (pid : ShaHash) (fs : Filters) :
    outcome Empty_set (option (CompleteMessage S)) :=
  let framed := FramedHandshake_new sock in
  received ← finish_recv recv_polls framed;
  match received with
  | None => Ok None
  | Some (msg, framed) =>
      if should_filter (Some addr) (Some (hs_prot msg)) (Some (hs_ext msg)) (Some (hs_hash msg)) (Some (hs_pid msg)) fs
      then Ok None
      else
        handshake_msg ← from_parts (hs_prot msg) ext (hs_hash msg) pid;
        sent ← framed_send handshake_msg framed;
        match sent with
        | None => Ok None
        | Some framed =>
            let socket := into_inner framed in
            Ok (Some (CompleteMessage_new (hs_prot msg) (Extensions_union ext (hs_ext msg)) (hs_hash msg) (hs_pid msg) addr socket))
        end
  end.

Definition execute_handshake (item : HandshakeType S) (ext : Extensions) (pid : ShaHash) (fs : Filters) :
    outcome Empty_set (option (CompleteMessage S)) :=
  match item with
  | Initiate sock init_msg => initiate_handshake sock init_msg ext pid fs
  | Complete sock addr => complete_handshake sock addr ext pid fs
  end.

End exchange.
End filters.
Arguments Filters F : clear implicits.
Arguments Filters_new {F}.

(** ** What the filters decide *)

Section laws.
Context {F : Type} `{HandshakeFilter F}.

Lemma choose_num a b : decision_num (choose a b) = max (decision_num a) (decision_num b).
Proof. by destruct a, b. Qed.

Lemma decision_num_inj a b : decision_num a = decision_num b -> a = b.
Proof. by destruct a, b. Qed.

(** Every answer a set of filters gives about a handshake. *)
Definition answers (addr : option SocketAddr) (prot : option Protocol) (ext : option Extensions)
    (hash pid : option ShaHash) (fs : list F) : list FilterDecision :=
  fs ≫= fun f => [on_addr f addr; on_prot f prot; on_ext f ext; on_hash f hash; on_pid f pid].

Definition max_answer (l : list FilterDecision) : nat := foldr (fun d n => max (decision_num d) n) 0 l.

Lemma max_answer_app l k : max_answer (l ++ k) = max (max_answer l) (max_answer k).
Proof. induction l as [|d l IH]; simpl; [done|]. rewrite IH. lia. Qed.

Lemma max_answer_le l n : max_answer l <= n <-> forall d, d ∈ l -> decision_num d <= n.
Proof.
  induction l as [|d l IH]; simpl.
  - split; [intros _ d Hd; by apply not_elem_of_nil in Hd|lia].
  - rewrite Nat.max_lub_iff, IH. setoid_rewrite elem_of_cons. naive_solver.
Qed.

Lemma max_answer_zip l : forall k, length l = length k ->
  max_answer (zip_with choose l k) = max (max_answer l) (max_answer k).
Proof.
  induction l as [|a l IH]; intros [|b k] Hl; try done. cbn [zip_with max_answer foldr]. fold max_answer.
  rewrite choose_num. fold (max_answer (zip_with choose l k)). rewrite IH by (by injection Hl).
  fold (max_answer l) (max_answer k). lia.
Qed.

Lemma choose_all a p e h i : decision_num (choose (choose (choose (choose a p) e) h) i) = max_answer [a; p; e; h; i].
Proof. rewrite !choose_num. simpl. by rewrite Nat.max_0_r, !Nat.max_assoc. Qed.

Lemma should_filter_max addr prot ext hash pid (fs : Filters F) :
  should_filter addr prot ext hash pid fs = bool_decide (max_answer (answers addr prot ext hash pid (filters fs)) = 1).
Proof.
  unfold should_filter. destruct fs as [l]. cbn [filters].
  assert (forall a p e h i, let '(a', p', e', h', i') :=
    foldl (fun '(addr_filter, prot_filter, ext_filter, hash_filter, pid_filter) ref_filter =>
      (choose addr_filter (on_addr ref_filter addr), choose prot_filter (on_prot ref_filter prot),
       choose ext_filter (on_ext ref_filter ext), choose hash_filter (on_hash ref_filter hash),
       choose pid_filter (on_pid ref_filter pid))) (a, p, e, h, i) l in
    decision_num (choose (choose (choose (choose a' p') e') h') i') =
    max (max_answer [a; p; e; h; i]) (max_answer (answers addr prot ext hash pid l))) as Hfold.
  { induction l as [|f l IH]; intros a p e h i.
    - cbn [foldl]. rewrite choose_all. change (max_answer (answers addr prot ext hash pid [])) with 0. by rewrite Nat.max_0_r.
    - cbn [foldl]. specialize (IH (choose a (on_addr f addr)) (choose p (on_prot f prot)) (choose e (on_ext f ext))
        (choose h (on_hash f hash)) (choose i (on_pid f pid))).
      destruct (foldl _ _ l) as [[[[a' p'] e'] h'] i']. rewrite IH. unfold answers. cbn [mbind list_bind]. fold (answers addr prot ext hash pid l).
      rewrite max_answer_app, Nat.max_assoc. f_equal.
      apply (max_answer_zip [a; p; e; h; i] [on_addr f addr; on_prot f prot; on_ext f ext; on_hash f hash; on_pid f pid] eq_refl). }
  specialize (Hfold Pass Pass Pass Pass Pass). destruct (foldl _ _ l) as [[[[a p] e] h] i].
  change (max_answer [Pass; Pass; Pass; Pass; Pass]) with 0 in Hfold. rewrite Nat.max_0_l in Hfold. rewrite <- Hfold.
  apply bool_decide_ext. split; [by intros ->|]. intros Hn. by apply decision_num_inj.
Qed.

Lemma should_filter_answers addr prot ext hash pid (fs : Filters F) :
  should_filter addr prot ext hash pid fs = true <->
  Block ∈ answers addr prot ext hash pid (filters fs) /\
  (NeedData ∉ answers addr prot ext hash pid (filters fs)) /\ (Allow ∉ answers addr prot ext hash pid (filters fs)).
Proof.
  rewrite should_filter_max, bool_decide_eq_true. set (l := answers _ _ _ _ _ _). split.
  - intros Hm. assert (max_answer l <= 1) as Hle by lia. rewrite max_answer_le in Hle. split_and!.
    + destruct (decide (Block ∈ l)) as [|Hb]; [done|]. exfalso. assert (max_answer l <= 0) as H0; [|lia].
      apply max_answer_le. intros d Hd. specialize (Hle d Hd). destruct d; simpl in *; try lia. done.
    + intros Hd. specialize (Hle _ Hd). simpl in Hle. lia.
    + intros Hd. specialize (Hle _ Hd). simpl in Hle. lia.
  - intros (Hb & Hn & Ha). assert (max_answer l <= 1) as Hle.
    { apply max_answer_le. intros d Hd. destruct d; simpl; try lia; done. }
    assert (~ max_answer l <= 0); [|lia]. rewrite max_answer_le. intros H0. specialize (H0 _ Hb). simpl in H0. lia.
Qed.

Lemma answers_perm addr prot ext hash pid (l k : list F) : l ≡ₚ k ->
  answers addr prot ext hash pid l ≡ₚ answers addr prot ext hash pid k.
Proof. intros Hp. unfold answers. by rewrite Hp. Qed.

(** ** The set *)

Lemma check_index_Some (l : list F) f i : check_index l f = Some i -> l !! i = Some f.
Proof.
  intros [(x & Hx & He%bool_decide_eq_true) _]%position_Some. by subst.
Qed.

Lemma check_index_None (l : list F) f : check_index l f = None -> f ∉ l.
Proof. unfold check_index. rewrite position_None. intros Hn Hf. specialize (Hn f Hf). by rewrite bool_decide_true in Hn. Qed.

End laws.

(** ** Properties *)

(** The filters are a set, whatever [swap_remove] does to their order: adding
    and removing change one element, and a handshake is refused exactly when
    some filter blocks some field of it and no filter, for any field, allows it
    or asks for data it was not given. *)
Theorem filters_decide {F : Type} `{HandshakeFilter F} (fs : Filters F) (f : F) addr prot ext hash pid :
  NoDup (filters fs) ->
  (NoDup (filters (add_filter fs f)) /\ forall g, g ∈ filters (add_filter fs f) <-> g = f \/ g ∈ filters fs) /\
  (NoDup (filters (remove_filter fs f)) /\ forall g, g ∈ filters (remove_filter fs f) <-> g <> f /\ g ∈ filters fs) /\
  (should_filter addr prot ext hash pid fs = true <->
   (exists g, g ∈ filters fs /\ Block ∈ answers addr prot ext hash pid [g]) /\
   forall g, g ∈ filters fs ->
     (NeedData ∉ answers addr prot ext hash pid [g]) /\ (Allow ∉ answers addr prot ext hash pid [g])).
Proof.
  intros Hnd. split_and!.
  - unfold add_filter. destruct (check_index (filters fs) f) eqn:Hc; [done|]. apply NoDup_app. split_and!; [done| |apply NoDup_singleton].
    intros g Hg ->%list_elem_of_singleton. by apply check_index_None in Hc.
  - intros g. unfold add_filter. destruct (check_index (filters fs) f) eqn:Hc; simpl.
    + split; [auto|]. intros [->|?]; [|done]. apply check_index_Some in Hc. by eapply list_elem_of_lookup_2.
    + rewrite elem_of_app, list_elem_of_singleton. tauto.
  - unfold remove_filter. destruct (check_index (filters fs) f) as [i|] eqn:Hc; [|done]. simpl.
    apply check_index_Some, swap_remove_perm in Hc. rewrite <- Hc in Hnd. by apply NoDup_cons in Hnd as [_ ?].
  - intros g. unfold remove_filter. destruct (check_index (filters fs) f) as [i|] eqn:Hc; simpl.
    + apply check_index_Some, swap_remove_perm in Hc. generalize dependent (swap_remove (filters fs) i). intros l Hc.
      rewrite <- Hc in Hnd |- *. apply NoDup_cons in Hnd as [Hf _]. rewrite elem_of_cons. split; [|naive_solver]. intros Hg. split; [by intros ->|by right].
    + apply check_index_None in Hc. split; [|tauto]. intros Hg. split; [by intros ->|done].
  - rewrite should_filter_answers. unfold answers. setoid_rewrite list_elem_of_bind. setoid_rewrite list_elem_of_singleton.
    split.
    + intros ((g & Hb & Hg) & Hn & Ha). split; [exists g; eauto|]. intros g' Hg'. split.
      * intros (x & Hx & ->). apply Hn. eauto.
      * intros (x & Hx & ->). apply Ha. eauto.
    + intros ((g & Hg & x & Hx & ->) & Hall). split_and!; [eauto| |].
      * intros (y & Hy & Hin). destruct (Hall y Hin) as [H1 _]. apply H1. eauto.
      * intros (y & Hy & Hin). destruct (Hall y Hin) as [_ H1]. apply H1. eauto.
Qed.

(** A filter that blocks an address, or allows a peer. *)
Inductive SampleFilter : Type :=
| BlockAddr (addr : SocketAddr)
| AllowPid (pid : ShaHash).

#[export] Instance SampleFilter_filter : HandshakeFilter SampleFilter.
Proof.
  refine {|
    on_addr f opt := match f, opt with
                     | BlockAddr a, Some b => if decide (a = b) then Block else Pass
                     | BlockAddr _, None => NeedData
                     | _, _ => Pass
                     end;
    on_prot _ _ := Pass; on_ext _ _ := Pass; on_hash _ _ := Pass;
    on_pid f opt := match f, opt with
                    | AllowPid p, Some q => if decide (p = q) then Allow else Pass
                    | AllowPid _, None => NeedData
                    | _, _ => Pass
                    end |}.
  solve_decision.
Defined.

Definition sample_addr : SocketAddr := SockV4 (mk_SocketAddrV4 (mk_Ipv4Addr x01 x02 x03 x04) 5).

Lemma filters_decide_witness :
  AllowPid (mk_ShaHash []) ∈
    filters (remove_filter (mk_Filters [BlockAddr sample_addr; AllowPid (mk_ShaHash [])]) (BlockAddr sample_addr)).
Proof.
  refine (proj2 (proj2 (proj1 (proj2 (filters_decide (mk_Filters [BlockAddr sample_addr; AllowPid (mk_ShaHash [])]) (BlockAddr sample_addr)
    None None None None None _))) _) _).
  - apply NoDup_cons. split; [|apply NoDup_singleton]. by intros ?%list_elem_of_singleton.
  - split; [discriminate|]. right. left.
Defined.

(** Allowing one field lifts the block of another: a peer whose address a
    filter blocks, and no filter allows, passes because of its peer id; and
    before its id is known it passes because a filter still needs data. *)
Theorem allow_lifts_other_blocks (pid : ShaHash) :
  let fs := mk_Filters [BlockAddr sample_addr; AllowPid pid] in
  should_filter (Some sample_addr) (Some BitTorrent) (Some Extensions_new) (Some pid) (Some pid) fs = false /\
  ListenerHandler_new ((), sample_addr) fs = Some (Complete () sample_addr) /\
  (Allow ∉ ((fun f => on_addr f (Some sample_addr)) <$> filters fs)) /\ Block ∈ ((fun f => on_addr f (Some sample_addr)) <$> filters fs).
Proof.
  cbv zeta. split_and!.
  - unfold should_filter. cbn. rewrite (decide_True (P := sample_addr = sample_addr)), (decide_True (P := pid = pid)) by done. done.
  - unfold ListenerHandler_new. destruct (should_filter _ _ _ _ _ _) eqn:Hf; [|done].
    apply should_filter_answers in Hf as (_ & Hn & _). exfalso. apply Hn. apply list_elem_of_bind. exists (AllowPid pid).
    split; [|by right; left]. do 4 right. by left.
  - cbn. rewrite decide_True by done. intros Ha. by repeat (apply elem_of_cons in Ha as [Ha|Ha]; [done|]); apply not_elem_of_nil in Ha.
  - cbn. rewrite decide_True by done. by left.
Qed.

(** ** Agreement of the two sides *)

Section agreement.
Context {S E : Type} {A : AsyncSocket S E} {SS : SocketSpec S E} {N : Nom} {NS : NomSpec N}.
Implicit Types (s : S) (fr : FramedHandshake S).

(** [m] was read from exactly the bytes that its length byte announces. *)
Definition took s s' (m : HandshakeMessage) : Prop :=
  exists len bs, incoming s = (len :: bs) ++ incoming s' /\ length (len :: bs) = expected len /\ HandshakeMessage_from_bytes (len :: bs) = Done [] m.

Lemma length_handshake m : handshake_wf m -> length (handshake_bytes m) <= 304.
Proof.
  intros (Hp & He & Hh & Hi). unfold handshake_bytes, prot_bytes. rewrite !length_app, He, Hh, Hi. cbn [length]. unfold prot_wf in Hp.
  unfold NUM_EXTENSION_BYTES, SHA_HASH_LEN. lia.
Qed.

Lemma finish_send_spec polls : forall fr, length (write_buffer fr) < frame_rounds -> exists o, finish_send (E := E) polls fr = Ok o /\
  forall fr', o = Some fr' -> outgoing (sock fr') = handed fr /\ incoming (sock fr') = incoming (sock fr) /\
    read_buffer fr' = read_buffer fr /\ hs_state fr' = hs_state fr.
Proof.
  induction polls as [|polls IH]; intros fr Hl; cbn [finish_send]; [by exists None|].
  destruct (complete_steps (E := E) frame_rounds fr Hl) as (Hh & Hi & Hw & Hr). destruct (complete_keeps_reads (E := E) frame_rounds fr) as (H1 & _ & H3).
  destruct (framed_poll_complete frame_rounds fr) as [[[u|]|e| |] fr1]; cbn [fst snd] in *; try done.
  - exists (Some fr1). split; [done|]. intros fr' [= <-]. split_and!; try done. rewrite <- Hh. unfold handed. by rewrite Hr, app_nil_r.
  - destruct (IH fr1 ltac:(lia)) as (o & Ho & Hs). exists o. split; [done|]. intros fr' Hfr. rewrite <- Hh, <- Hi, <- H1, <- H3. by apply Hs.
  - by exists None.
Qed.

Lemma framed_send_spec polls msg fr : handshake_wf msg -> write_buffer fr = [] -> exists o, framed_send (E := E) polls msg fr = Ok o /\
  forall fr', o = Some fr' -> outgoing (sock fr') = outgoing (sock fr) ++ handshake_bytes msg /\ incoming (sock fr') = incoming (sock fr) /\
    read_buffer fr' = read_buffer fr /\ hs_state fr' = hs_state fr.
Proof.
  intros Hm Hb. unfold framed_send, framed_start_send. pose proof (@writes_handshake bytes E _ _ msg (write_buffer fr) I) as (H1 & _).
  destruct (H1 I) as (b & -> & _ & Hw & _). cbn [map_err].
  assert (b = handshake_bytes msg) as -> by (rewrite Hb, app_nil_r in Hw; exact Hw).
  set (fr1 := mk_FramedHandshake _ _ _ _ _). pose proof (length_handshake msg Hm) as Hl.
  destruct (finish_send_spec polls fr1) as (o & Ho & Hs); [unfold frame_rounds; cbn [fr1 write_buffer]; lia|]. exists o. split; [exact Ho|].
  intros fr' Hfr. destruct (Hs fr' Hfr) as (H2 & H3 & H4 & H5). split_and!; done.
Qed.

Lemma finish_recv_spec total polls : forall fr, frame_inv total fr -> exists o, finish_recv (E := E) polls fr = Ok o /\
  forall m fr', o = Some (m, fr') -> handshake_wf m /\ outgoing (sock fr') = outgoing (sock fr) /\ write_buffer fr' = write_buffer fr /\
    exists len bs, total = (len :: bs) ++ incoming (sock fr') /\ length (len :: bs) = expected len /\ HandshakeMessage_from_bytes (len :: bs) = Done [] m.
Proof.
  induction polls as [|polls IH]; intros fr Hi; cbn [finish_recv]; [by exists None|].
  assert (rounds fr <= frame_rounds) as Hf by (unfold rounds, frame_rounds; destruct (hs_state fr) as [|len|]; [lia|pose proof (expected_bound len); lia|lia]).
  pose proof (poll_steps (E := E) total frame_rounds fr Hi Hf) as Hr. destruct (poll_keeps_writes (E := E) frame_rounds fr) as [Hout Hwb].
  destruct (framed_poll frame_rounds fr) as [[[[m|]|]|e| |] fr1]; cbn [fst snd poll_result] in *; try done.
  - destruct Hr as (_ & Hm & Hr). exists (Some (m, fr1)). split; [done|]. by intros m' fr' [= <- <-].
  - by exists None.
  - destruct (IH fr1 Hr) as (o & Ho & Hs). exists o. split; [done|]. intros m fr' Hfr. rewrite <- Hout, <- Hwb. by apply Hs.
  - by exists None.
Qed.

Context {F : Type} `{HandshakeFilter F} (send_polls recv_polls : nat).
Implicit Types (fs : Filters F).

(** No filter objects to the message [m] of the peer at [addr]. *)
Definition admitted addr (m : HandshakeMessage) fs : Prop :=
  should_filter (Some addr) (Some (hs_prot m)) (Some (hs_ext m)) (Some (hs_hash m)) (Some (hs_pid m)) fs = false.

(** What it takes to complete as the side that connects. *)
Definition initiated s prot hash addr ext pid fs (c : CompleteMessage S) : Prop :=
  exists m, took s (comp_sock c) m /\ hs_hash m = hash /\ hs_prot m = prot /\ admitted addr m fs /\
  outgoing (comp_sock c) = outgoing s ++ handshake_bytes (mk_HandshakeMessage prot ext hash pid) /\
  c = CompleteMessage_new prot (Extensions_union ext (hs_ext m)) hash (hs_pid m) addr (comp_sock c).

(** And as the side that is connected to. *)
Definition accepted s addr ext pid fs (c : CompleteMessage S) : Prop :=
  exists m, took s (comp_sock c) m /\ admitted addr m fs /\
  outgoing (comp_sock c) = outgoing s ++ handshake_bytes (mk_HandshakeMessage (hs_prot m) ext (hs_hash m) pid) /\
  c = CompleteMessage_new (hs_prot m) (Extensions_union ext (hs_ext m)) (hs_hash m) (hs_pid m) addr (comp_sock c).

Lemma from_parts_ok prot ext hash pid : prot_wf prot -> from_parts (E := Empty_set) prot ext hash pid = Ok (mk_HandshakeMessage prot ext hash pid).
Proof. intros Hp. unfold from_parts. destruct prot as [|c]; [done|]. unfold prot_wf in Hp. cbn in Hp. by rewrite decide_False by lia. Qed.

Lemma initiate_spec s prot hash addr ext pid fs : prot_wf prot -> ext_wf ext -> sha_wf hash -> sha_wf pid ->
  exists o, initiate_handshake (E := E) send_polls recv_polls s (InitiateMessage_new prot hash addr) ext pid fs = Ok o /\
  forall c, o = Some c -> initiated s prot hash addr ext pid fs c.
Proof.
  intros Hp He Hh Hi. unfold initiate_handshake. cbn [init_prot init_hash init_addr]. rewrite from_parts_ok by done. cbn [mbind outcome_bind].
  destruct (framed_send_spec send_polls (mk_HandshakeMessage prot ext hash pid) (FramedHandshake_new s)) as (o1 & -> & Hsend); [by split_and!|done|].
  cbn [mbind outcome_bind]. destruct o1 as [fr1|]; [|by exists None]. destruct (Hsend fr1 eq_refl) as (Hout & Hin & Hbuf & Hst).
  destruct (finish_recv_spec (incoming s) recv_polls fr1) as (o2 & -> & Hrecv).
  { unfold frame_inv. rewrite Hst, Hbuf, Hin. done. }
  cbn [mbind outcome_bind]. destruct o2 as [[m fr2]|]; [|by exists None]. destruct (Hrecv m fr2 eq_refl) as (Hm & Hout2 & _ & Htook).
  destruct (_ || _) eqn:Hc; [by exists None|]. apply orb_false_iff in Hc as [[Hc1%bool_decide_eq_false Hc2%bool_decide_eq_false]%orb_false_iff Hc3].
  eexists. split; [done|]. intros c [= <-]. exists m. unfold into_inner. cbn [comp_sock]. split_and!; try done.
  - destruct (decide (hs_hash m = hash)); [done|]. by destruct Hc1.
  - destruct (decide (hs_prot m = prot)); [done|]. by destruct Hc2.
  - by rewrite Hout2, Hout.
Qed.

Lemma complete_spec s addr ext pid fs : ext_wf ext -> sha_wf pid ->
  exists o, complete_handshake (E := E) send_polls recv_polls s addr ext pid fs = Ok o /\ forall c, o = Some c -> accepted s addr ext pid fs c.
Proof.
  intros He Hi. unfold complete_handshake. destruct (finish_recv_spec (incoming s) recv_polls (FramedHandshake_new s)) as (o1 & -> & Hrecv); [done|].
  cbn [mbind outcome_bind]. destruct o1 as [[m fr1]|]; [|by exists None]. destruct (Hrecv m fr1 eq_refl) as (Hm & Hout & Hwb & Htook).
  destruct (should_filter _ _ _ _ _ fs) eqn:Hf; [by exists None|]. destruct Hm as (Hm1 & Hm2 & Hm3 & Hm4). rewrite from_parts_ok by done. cbn [mbind outcome_bind].
  destruct (framed_send_spec send_polls (mk_HandshakeMessage (hs_prot m) ext (hs_hash m) pid) fr1) as (o2 & -> & Hsend); [by split_and!|done|].
  cbn [mbind outcome_bind]. destruct o2 as [fr2|]; [|by exists None]. destruct (Hsend fr2 eq_refl) as (Hout2 & Hin2 & _).
  eexists. split; [done|]. intros c [= <-]. exists m. unfold into_inner. cbn [comp_sock]. split_and!; try done; [unfold took; by rewrite Hin2|by rewrite Hout2, Hout].
Qed.

(** A message that was taken from bytes that begin with the encoding of [m]. *)
Lemma took_bytes s s' m m' rest : handshake_wf m -> incoming s = handshake_bytes m ++ rest -> took s s' m' -> m' = handshake_norm m /\ incoming s' = rest.
Proof.
  intros Hm Hin (len & bs & Hi & Hl & Hd). assert (len :: bs = handshake_bytes m /\ incoming s' = rest) as [Hbs Hrest].
  { rewrite Hin in Hi. apply app_inj_1 in Hi as [H1 H2]; [done|]. rewrite Hl, (length_handshake_bytes m Hm). destruct Hm as (Hp & _). unfold prot_wf in Hp.
    unfold handshake_bytes, prot_bytes in Hi. cbn in Hi. injection Hi as <- _. unfold expected, HandshakeMessage_write_len. rewrite byte_length, prot_write_len by done.
    unfold as_unsigned. rewrite Z.mod_small by lia. by rewrite Nat2Z.id. }
  split; [|done]. rewrite Hbs in Hd. pose proof (parses_handshake m Hm []) as Hp. rewrite app_nil_r in Hp. congruence.
Qed.
(** Sockets, among those with [P], that take and give at once. *)
Record prompt (P : S -> Prop) : Prop := {
  prompt_read : forall n s, P s -> exists bs s', read_buf n s = (Ok (Ready bs), s') /\ P s';
  prompt_write : forall bs s, P s -> exists s', write_buf bs s = (Ok (Ready (length bs)), s') /\ P s';
  prompt_flush : forall s, P s -> exists s', flush s = (Ok (Ready ()), s') /\ P s';
}.

Lemma prompt_poll P fuel : prompt P -> forall fr, P (sock fr) ->
  match framed_poll (E := E) fuel fr with (Ok NotReady, _) | (Err (SocketError _), _) => False | (_, fr') => P (sock fr') end.
Proof.
  intros HP. induction fuel as [|fuel IH]; intros fr Hs; [done|]. cbn [framed_poll]. unfold mbind, stM_bind, get_frame, on_sock. cbn [fst snd]. destruct (hs_state fr) as [|len|]; [| |done].
  - destruct (prompt_read P HP (length (read_buffer fr)) (sock fr) Hs) as (bs & s' & -> & Hs'). cbn [map_err]. destruct bs as [|b [|b' bs]]; try done. by apply IH.
  - case_decide; [by destruct (HandshakeMessage_from_bytes (read_buffer fr))|]. case_decide; [|done].
    destruct (prompt_read P HP (length (read_buffer fr) - read_pos fr) (sock fr) Hs) as (bs & s' & -> & Hs'). cbn [map_err]. destruct bs; [done|]. by apply IH.
Qed.

Lemma prompt_recv P fr m rest : prompt P -> P (sock fr) -> 0 < recv_polls -> length (read_buffer fr) = 1 -> hs_state fr = Waiting -> handshake_wf m ->
  incoming (sock fr) = handshake_bytes m ++ rest -> exists fr', finish_recv (E := E) recv_polls fr = Ok (Some (handshake_norm m, fr')) /\ P (sock fr').
Proof.
  intros HP Hs Hn Hb Hst Hm Hin. destruct recv_polls as [|n]; [lia|]. cbn [finish_recv]. pose proof (prompt_poll P frame_rounds HP fr Hs) as Hp.
  assert (frame_inv (incoming (sock fr)) fr) as Hi by (unfold frame_inv; by rewrite Hst).
  pose proof (poll_steps (E := E) (incoming (sock fr)) frame_rounds fr Hi ltac:(unfold rounds; rewrite Hst; done)) as Hr.
  destruct (framed_poll frame_rounds fr) as [[[[m'|]|]|[]| |] fr1]; cbn [poll_result] in Hr; try done.
  - destruct Hr as (_ & _ & Hr). exists fr1. destruct (took_bytes (sock fr) (sock fr1) m m' rest Hm Hin Hr) as [-> _]. done.
  - exfalso. destruct Hr as [?|[_ Hr]]; [congruence|]. pose proof Hm as (Hpw & _). unfold prot_wf in Hpw. specialize (Hr _ _ Hin). rewrite Hin, length_app in Hr.
    rewrite (length_handshake_bytes m Hm) in Hr. unfold expected, HandshakeMessage_write_len in Hr. rewrite byte_length, prot_write_len in Hr by done.
    unfold as_unsigned in Hr. rewrite Z.mod_small, Nat2Z.id in Hr by lia. lia.
Qed.

Lemma prompt_send P fr m : prompt P -> P (sock fr) -> 0 < send_polls -> handshake_wf m -> write_buffer fr = [] ->
  exists fr', framed_send (E := E) send_polls m fr = Ok (Some fr') /\ P (sock fr').
Proof.
  intros HP Hs Hn Hm Hb. unfold framed_send, framed_start_send. pose proof (@writes_handshake bytes E _ _ m (write_buffer fr) I) as (H1 & _).
  destruct (H1 I) as (b & -> & _ & Hw & _). cbn [map_err]. assert (b = handshake_bytes m) as -> by (rewrite Hb, app_nil_r in Hw; exact Hw).
  destruct send_polls as [|n]; [lia|]. cbn [finish_send]. unfold frame_rounds. cbn [framed_poll_complete]. unfold mbind, stM_bind, get_frame, on_sock. cbn [fst snd sock write_buffer].
  destruct (prompt_write P HP (handshake_bytes m) (sock fr) Hs) as (s1 & -> & Hs1). cbn [map_err].
  destruct (length (handshake_bytes m)) as [|k] eqn:Hk; [done|]. cbn [write_buffer sock]. rewrite decide_True by lia. cbn [put_frame write_buffer sock]. rewrite drop_ge by lia. cbn [sock].
  destruct (prompt_flush P HP s1 Hs1) as (s2 & -> & Hs2). cbn [map_err mret stM_ret]. by eexists.
Qed.

Lemma norm_same prot ext hash pid : prot_norm prot = prot -> handshake_norm (mk_HandshakeMessage prot ext hash pid) = mk_HandshakeMessage prot ext hash pid.
Proof. intros Hn. unfold handshake_norm. cbn [hs_prot]. by rewrite Hn. Qed.

Lemma initiate_completes P s prot hash addr ext pid ext' pid' rest fs o : prompt P -> P s -> 0 < send_polls -> 0 < recv_polls ->
  handshake_wf (mk_HandshakeMessage prot ext hash pid) -> handshake_wf (mk_HandshakeMessage prot ext' hash pid') -> prot_norm prot = prot ->
  incoming s = handshake_bytes (mk_HandshakeMessage prot ext' hash pid') ++ rest -> admitted addr (mk_HandshakeMessage prot ext' hash pid') fs ->
  initiate_handshake (E := E) send_polls recv_polls s (InitiateMessage_new prot hash addr) ext pid fs = Ok o -> is_Some o.
Proof.
  intros HP HPs Hsp Hrp Hm1 Hm2 Hn Hin Hadm. unfold initiate_handshake, admitted in *. cbn [init_prot init_hash init_addr hs_hash hs_prot hs_ext hs_pid] in *.
  rewrite from_parts_ok by apply Hm1. cbn [mbind outcome_bind].
  destruct (framed_send_spec send_polls _ (FramedHandshake_new s) Hm1 eq_refl) as (o' & Ho & Hsent).
  destruct (prompt_send P (FramedHandshake_new s) _ HP HPs Hsp Hm1 eq_refl) as (fr1 & Hfs & HPf). rewrite Hfs in Ho |- *. injection Ho as <-.
  destruct (Hsent fr1 eq_refl) as (_ & Hfin & Hfb & Hfst). cbn [mbind outcome_bind].
  destruct (prompt_recv P fr1 (mk_HandshakeMessage prot ext' hash pid') rest HP HPf Hrp) as (fr2 & -> & _); [by rewrite Hfb|by rewrite Hfst|exact Hm2|by rewrite Hfin|]. rewrite norm_same by done.
  cbn [mbind outcome_bind hs_hash hs_prot hs_ext hs_pid]. rewrite Hadm, !bool_decide_false by tauto. cbn [orb]. intros [= <-]. eauto.
Qed.

Lemma complete_completes P s prot hash addr ext pid ext' pid' rest fs o : prompt P -> P s -> 0 < send_polls -> 0 < recv_polls ->
  handshake_wf (mk_HandshakeMessage prot ext hash pid) -> handshake_wf (mk_HandshakeMessage prot ext' hash pid') -> prot_norm prot = prot ->
  incoming s = handshake_bytes (mk_HandshakeMessage prot ext' hash pid') ++ rest -> admitted addr (mk_HandshakeMessage prot ext' hash pid') fs ->
  complete_handshake (E := E) send_polls recv_polls s addr ext pid fs = Ok o -> is_Some o.
Proof.
  intros HP HPs Hsp Hrp Hm1 Hm2 Hn Hin Hadm. unfold complete_handshake, admitted in *. cbn [hs_hash hs_prot hs_ext hs_pid] in *.
  destruct (prompt_recv P (FramedHandshake_new s) _ rest HP HPs Hrp eq_refl eq_refl Hm2 Hin) as (fr1 & Hfr & HPf).
  destruct (finish_recv_spec (incoming s) recv_polls (FramedHandshake_new s)) as (o' & Ho & Hrecv); [done|]. rewrite Hfr in Ho |- *. injection Ho as <-.
  destruct (Hrecv _ _ eq_refl) as (_ & _ & Hwb & _). rewrite norm_same by done. cbn [mbind outcome_bind hs_hash hs_prot hs_ext hs_pid].
  rewrite Hadm, from_parts_ok by apply Hm1. cbn [mbind outcome_bind]. destruct (prompt_send P fr1 _ HP HPf Hsp Hm1 Hwb) as (fr2 & -> & _).
  cbn [mbind outcome_bind]. intros [= <-]. eauto.
Qed.

(** Two sides that read what the other sent. *)
Lemma sides_agree prot hash ext1 pid1 ext2 pid2 addr1 addr2 fs1 fs2 s1 s2 c1 c2 rest1 rest2 :
  handshake_wf (mk_HandshakeMessage prot ext1 hash pid1) -> handshake_wf (mk_HandshakeMessage prot ext2 hash pid2) ->
  initiated s1 prot hash addr2 ext1 pid1 fs1 c1 -> accepted s2 addr1 ext2 pid2 fs2 c2 -> outgoing s1 = [] -> outgoing s2 = [] ->
  incoming s2 = outgoing (comp_sock c1) ++ rest1 -> incoming s1 = outgoing (comp_sock c2) ++ rest2 ->
  comp_prot c1 = prot /\ comp_prot c2 = prot /\ comp_hash c1 = hash /\ comp_hash c2 = hash /\ comp_pid c1 = pid2 /\ comp_pid c2 = pid1 /\
  (forall i, i < 64 -> ext_bit (comp_ext c1) i = ext_bit ext1 i && ext_bit ext2 i /\ ext_bit (comp_ext c2) i = ext_bit ext1 i && ext_bit ext2 i) /\
  incoming (comp_sock c1) = rest2 /\ incoming (comp_sock c2) = rest1.
Proof.
  intros Hm1 (Hpw & He2 & Hhw & Hi2) (r1 & Ht1 & Hh1 & Hp1 & _ & Hout1 & Ec1) (r2 & Ht2 & _ & Hout2 & Ec2) Ho1 Ho2 Hin2 Hin1.
  rewrite Ho1 in Hout1. rewrite Ho2 in Hout2. cbn [app] in Hout1, Hout2. rewrite Hout1 in Hin2. rewrite Hout2 in Hin1.
  destruct (took_bytes _ _ _ r2 rest1 Hm1 Hin2 Ht2) as [-> Hrest1]. cbn [handshake_norm hs_prot hs_hash hs_ext hs_pid] in Hin1, Hpw, He2, Hhw, Hi2.
  assert (handshake_wf (mk_HandshakeMessage (prot_norm prot) ext2 hash pid2)) as Hm2.
  { split_and!; try done. unfold prot_wf, prot_norm. cbn [hs_prot]. case_decide as Hd; [cbn; lia|done]. }
  destruct (took_bytes _ _ _ r1 rest2 Hm2 Hin1 Ht1) as [-> Hrest2]. cbn [handshake_norm hs_prot hs_hash hs_ext hs_pid] in Hp1.
  assert (prot_norm prot = prot) as Hn.
  { rewrite <- Hp1. unfold prot_norm. repeat case_decide; done. }
  destruct Hm1 as (_ & He1 & _). cbn [hs_ext] in He1.
  rewrite Ec1, Ec2. cbn [comp_prot comp_hash comp_pid comp_ext comp_sock handshake_norm hs_prot hs_hash hs_ext hs_pid]. split_and!; try done.
  intros i Hi. rewrite !union_bit by done. split; [done|apply andb_comm].
Qed.
End agreement.


(** Two ends of a connection, with a byte after the handshake of the one. *)
Lemma memory_prompt : prompt (fun s : MemSock => patience s = []).
Proof.
  split.
  - intros n [i o p]. cbn. intros ->. eauto.
  - intros [|b bs] [i o p]; cbn; intros ->; eauto.
  - intros [i o p]. cbn. intros ->. eauto.
Qed.

Definition with_protocol : Extensions := Extensions_add Extensions_new ExtensionProtocol.
Definition our_side : HandshakeMessage := mk_HandshakeMessage BitTorrent with_protocol (mk_ShaHash (replicate 20 x03)) (mk_ShaHash (replicate 20 x04)).
Definition their_side : HandshakeMessage := mk_HandshakeMessage BitTorrent with_protocol (mk_ShaHash (replicate 20 x03)) (mk_ShaHash (replicate 20 x05)).

Lemma bittorrent_wf : prot_wf BitTorrent.
Proof. apply Nat.leb_le. reflexivity. Qed.
Lemma our_side_wf : handshake_wf our_side.
Proof. split; [apply bittorrent_wf|]. split_and!; reflexivity. Qed.

