(* ===== verification/Umio.v ===== *)
(** * The [umio] event loop, as the dispatchers use it

    The provider handed to a dispatcher is an external type: a class of
    operations and, as a second class, its documented behaviour.  [T] is the
    type of the timeouts of a dispatcher.  [umio_ref] meets the laws. *)

From stdpp Require Import prelude list gmap strings.
From Stdlib Require Import ZArith Lia Strings.Byte.
From S2P Require Import Prelude Bytes Convert.

Class Umio (T : Type) : Type := {
  provider : Type;
  timeout_id : Type;
  timeout_eq :: EqDecision timeout_id;
  umio_error : Type;
  (** The closure is given a buffer; it leaves the buffer changed and tells how
      much of it to send where.  [A] is what it assigns to captured variables. *)
  outgoing : forall {A}, (bytes -> A * option (nat * SocketAddr) * bytes) -> provider -> A * provider;
  set_timeout : T -> Z -> provider -> outcome umio_error timeout_id * provider;
  clear_timeout : timeout_id -> provider -> provider;
  umio_shutdown : provider -> provider;
}.
Arguments provider T {_}.
Arguments timeout_id T {_}.

(** [sent]: the datagrams handed to the network; [timer]: the pending timeouts;
    [free]: how many more can be set; [buffer_length] is fixed by the builder. *)
Class UmioSpec (T : Type) {U : Umio T} : Type := {
  sent : provider T -> list (bytes * SocketAddr);
  timer : provider T -> timeout_id T -> option (T * Z);
  free : provider T -> nat;
  is_down : provider T -> bool;
  buffer_length : nat;
  outgoing_spec {A} (f : bytes -> A * option (nat * SocketAddr) * bytes) p :
    exists buf p', length buf = buffer_length /\ outgoing f p = ((f buf).1.1, p') /\
      sent p' = sent p ++ match (f buf).1.2 with Some (n, addr) => [(take n (f buf).2, addr)] | None => [] end /\
      (forall h, timer p' h = timer p h) /\ free p' = free p /\ is_down p' = is_down p;
  set_timeout_ok t d p : 0 < free p ->
    exists h p', set_timeout t d p = (Ok h, p') /\ timer p h = None /\
      (forall h', timer p' h' = if decide (h' = h) then Some (t, d) else timer p h') /\
      S (free p') = free p /\ sent p' = sent p /\ is_down p' = is_down p;
  clear_timeout_ok h p x : timer p h = Some x ->
    let p' := clear_timeout h p in
    (forall h', timer p' h' = if decide (h' = h) then None else timer p h') /\
    free p' = S (free p) /\ sent p' = sent p /\ is_down p' = is_down p;
  shutdown_ok p : let p' := umio_shutdown p in
    is_down p' = true /\ sent p' = sent p /\ (forall h, timer p' h = timer p h) /\ free p' = free p;
}.

(** The provider a dispatcher sees when a pending timeout fires: without it. *)
Definition fired {T} {U : Umio T} {US : UmioSpec T} (p : provider T) (h : timeout_id T) (t : T) (p' : provider T) : Prop :=
  (exists d, timer p h = Some (t, d)) /\ (forall h', timer p' h' = if decide (h' = h) then None else timer p h') /\
  free p' = S (free p) /\ sent p' = sent p /\ is_down p' = is_down p.

(** ** An implementation *)

Record Loop (T : Type) : Type := mk_Loop {
  loop_sent : list (bytes * SocketAddr);
  loop_timers : gmap nat (T * Z);
  loop_free : nat;
  loop_down : bool;
}.
Arguments mk_Loop {T} loop_sent loop_timers loop_free loop_down.
Arguments loop_sent {T} _.
Arguments loop_timers {T} _.
Arguments loop_free {T} _.
Arguments loop_down {T} _.

Definition umio_ref (T : Type) (len : nat) : Umio T := {|
  provider := Loop T;
  timeout_id := nat;
  umio_error := ();
  outgoing A f p :=
    let '(a, o, buf) := f (replicate len x00) in
    (a, mk_Loop (loop_sent p ++ match o with Some (n, addr) => [(take n buf, addr)] | None => [] end)
          (loop_timers p) (loop_free p) (loop_down p));
  set_timeout t d p :=
    match loop_free p with
    | 0 => (Err (), p)
    | S n =>
        let h := fresh (dom (loop_timers p)) in
        (Ok h, mk_Loop (loop_sent p) (<[h := (t, d)]> (loop_timers p)) n (loop_down p))
    end;
  clear_timeout h p :=
    match loop_timers p !! h with
    | Some _ => mk_Loop (loop_sent p) (delete h (loop_timers p)) (S (loop_free p)) (loop_down p)
    | None => p
    end;
  umio_shutdown p := mk_Loop (loop_sent p) (loop_timers p) (loop_free p) true;
|}.

Program Definition umio_ref_spec (T : Type) (len : nat) : @UmioSpec T (umio_ref T len) :=
  {| sent := loop_sent; timer p h := loop_timers p !! h; free := loop_free; is_down := loop_down; buffer_length := len |}.
Next Obligation.
  intros T len A f p. exists (replicate len x00). cbn. destruct (f (replicate len x00)) as [[a o] buf].
  eexists. split; [apply length_replicate|]. done.
Qed.
Next Obligation.
  intros T len t d p Hf. cbn in *. destruct (loop_free p) as [|n]; [lia|]. do 2 eexists. split; [done|]. cbn.
  assert (loop_timers p !! fresh (dom (loop_timers p)) = None) as Hn by (apply not_elem_of_dom, is_fresh).
  split_and!; [done| |done..]. intros h'. case_decide as Hh; [subst; by rewrite lookup_insert_eq|by rewrite lookup_insert_ne].
Qed.
Next Obligation.
  intros T len h p x Hx. cbn in *. rewrite Hx. cbn. split; [|done].
  intros h'. case_decide as Hh; [subst; by rewrite lookup_delete_eq|by rewrite lookup_delete_ne].
Qed.
Next Obligation. done. Qed.
