(* ===== verification/UtServer.v ===== *)
(** * [bip_utracker::server]: the tracker server

    The dispatcher parses a datagram, asks the handler and writes its answer
    ([server/dispatcher.rs], [server/handler.rs]).  A handler may call its
    result callback once or not at all. *)

From stdpp Require Import prelude list gmap strings.
From Stdlib Require Import ZArith Lia Strings.Byte.
From S2P Require Import Prelude Bytes DecStr Convert Sha Nom WriteBytes UtContact UtOption UtAnnounce UtScrape UtMessage Umio.

Definition EXPECTED_PACKET_LENGTH : nat := 1500.

(** [Ok] is the response, [Err] the error message. *)
Definition ServerResult (T : Type) : Type := T + bytes.

Class ServerHandler (H : Type) : Type := {
  handle_connect : SocketAddr -> H -> option (ServerResult Z) * H;
  handle_announce : SocketAddr -> Z -> AnnounceRequest -> H -> option (ServerResult AnnounceResponse) * H;
  handle_scrape : SocketAddr -> Z -> ScrapeRequest -> H -> option (ServerResult ScrapeResponse) * H;
}.

Section server.
Context {H : Type} {SH : ServerHandler H} {U : Umio ()} {N : Nom} {WE : WriteBytesExt Cursor WriteError}.

Record ServerDispatcher : Type := ServerDispatcher_new { handler : H }.

Definition write_response (response : TrackerResponse) (addr : SocketAddr) (p : provider ()) : provider () :=
  (outgoing (fun buffer =>
     let '(r, cursor) := TrackerResponse_write_bytes response (Cursor_new buffer) in
     ((), if is_ok r then Some (position cursor, addr) else None, WriteBytes.buffer cursor)) p).2.

Definition forward_connect (self : ServerDispatcher) (p : provider ()) (trans_id : Z) (addr : SocketAddr) :
    ServerDispatcher * provider () :=
  match handle_connect addr (handler self) with
  | (Some result, h) =>
      let response_type :=
        match result with inl conn_id => ResConnect conn_id | inr err_msg => ResError (ErrorResponse_new err_msg) end in
      (ServerDispatcher_new h, write_response (TrackerResponse_new trans_id response_type) addr p)
  | (None, h) => (ServerDispatcher_new h, p)
  end.

Definition forward_announce (self : ServerDispatcher) (p : provider ()) (trans_id conn_id : Z) (request : AnnounceRequest)
    (addr : SocketAddr) : ServerDispatcher * provider () :=
  match handle_announce addr conn_id request (handler self) with
  | (Some result, h) =>
      let response_type :=
        match result with inl response => ResAnnounce response | inr err_msg => ResError (ErrorResponse_new err_msg) end in
      (ServerDispatcher_new h, write_response (TrackerResponse_new trans_id response_type) addr p)
  | (None, h) => (ServerDispatcher_new h, p)
  end.

Definition forward_scrape (self : ServerDispatcher) (p : provider ()) (trans_id conn_id : Z) (request : ScrapeRequest)
    (addr : SocketAddr) : ServerDispatcher * provider () :=
  match handle_scrape addr conn_id request (handler self) with
  | (Some result, h) =>
      let response_type :=
        match result with inl response => ResScrape response | inr err_msg => ResError (ErrorResponse_new err_msg) end in
      (ServerDispatcher_new h, write_response (TrackerResponse_new trans_id response_type) addr p)
  | (None, h) => (ServerDispatcher_new h, p)
  end.

Definition server_process_request (self : ServerDispatcher) (p : provider ()) (request : TrackerRequest) (addr : SocketAddr) :
    ServerDispatcher * provider () :=
  let conn_id := connection_id request in
  let trans_id := req_transaction_id request in
  match request_type request with
  | ReqConnect => if decide (conn_id = CONNECT_ID_PROTOCOL_ID) then forward_connect self p trans_id addr else (self, p)
  | ReqAnnounce req => forward_announce self p trans_id conn_id req addr
  | ReqScrape req => forward_scrape self p trans_id conn_id req addr
  end.

Definition server_incoming (self : ServerDispatcher) (p : provider ()) (message : bytes) (addr : SocketAddr) :
    outcome Empty_set (ServerDispatcher * provider ()) :=
  match TrackerRequest_from_bytes message with
  | Done _ req => Ok (server_process_request self p req addr)
  | Error _ | Incomplete _ => Ok (self, p)
  | Panicked => Panic
  | OutOfFuel => NoFuel
  end.

(** The only message of the server is the shutdown its drop sends. *)
Definition server_notify (self : ServerDispatcher) (p : provider ()) : ServerDispatcher * provider () :=
  (self, umio_shutdown p).

End server.
Arguments ServerDispatcher H : clear implicits.

(** ** What a request is answered with *)

Section laws.
Context {H : Type} {SH : ServerHandler H} {U : Umio ()} {US : UmioSpec ()} {N : Nom} {NS : NomSpec N}.
Context {WE : WriteBytesExt Cursor WriteError} {WS : WriteBytesSpec Cursor WriteError}.

Definition result_type {T} (ok : T -> ResponseType) (r : ServerResult T) : ResponseType :=
  match r with inl a => ok a | inr msg => ResError (ErrorResponse_new msg) end.

(** The answer of the handler to a request, and the handler after it. *)
Definition answer (h : H) (req : TrackerRequest) (addr : SocketAddr) : option ResponseType * H :=
  match request_type req with
  | ReqConnect => let '(r, h) := handle_connect addr h in (result_type ResConnect <$> r, h)
  | ReqAnnounce a => let '(r, h) := handle_announce addr (connection_id req) a h in (result_type ResAnnounce <$> r, h)
  | ReqScrape s => let '(r, h) := handle_scrape addr (connection_id req) s h in (result_type ResScrape <$> r, h)
  end.

Lemma write_response_sends r addr p :
  let p' := write_response r addr p in
  sent p' = sent p ++
    (if decide (length (tracker_response_bytes r) <= buffer_length) then [(tracker_response_bytes r, addr)] else []) /\
  (forall h, timer p' h = timer p h) /\ is_down p' = is_down p.
Proof.
  unfold write_response. cbv zeta. destruct (outgoing_spec (fun buffer =>
     let '(r0, cursor) := TrackerResponse_write_bytes r (Cursor_new buffer) in
     ((), if is_ok r0 then Some (position cursor, addr) else None, WriteBytes.buffer cursor)) p)
    as (buf & p' & Hl & -> & Hs & Ht & _ & Hd). cbn [snd]. split; [|done]. rewrite Hs. f_equal. clear Hs Ht Hd p'.
  assert (writer_wf (Cursor_new buf)) as Hw by (cbn; lia).
  destruct (writes_tracker_response r (Cursor_new buf) Hw) as (H1 & _ & H3).
  rewrite Nat.add_0_r, app_nil_r in H1.
  assert (fits (Cursor_new buf) (length (tracker_response_bytes r)) <-> length (tracker_response_bytes r) <= buffer_length) as Hfit.
  { unfold fits. cbn. lia. }
  case_decide as Hb.
  - destruct (H1 (proj2 Hfit Hb)) as (w & He & _ & Hwr & _). rewrite He. cbn. cbn in Hwr. by rewrite Hwr.
  - destruct (H3 (fun Hf => Hb (proj1 Hfit Hf))) as (e & w & He). by rewrite He.
Qed.

Lemma process_request_spec d p req addr : request_wf req ->
  let '(d', p') := server_process_request d p req addr in
  handler d' = (answer (handler d) req addr).2 /\
  p' = match (answer (handler d) req addr).1 with
       | Some rt => write_response (TrackerResponse_new (req_transaction_id req) rt) addr p
       | None => p
       end.
Proof.
  intros (_ & _ & Hr). unfold server_process_request, answer. destruct (request_type req) as [|a|s].
  - rewrite decide_True by done. unfold forward_connect. by destruct (handle_connect addr (handler d)) as [[[]|] h].
  - unfold forward_announce. by destruct (handle_announce addr _ a (handler d)) as [[[]|] h].
  - unfold forward_scrape. by destruct (handle_scrape addr _ s (handler d)) as [[[]|] h].
Qed.

(** C17. The server serves every datagram: it never panics; a datagram that is not a
    request changes nothing; a request reaches the handler well formed, and the
    handler's answer, if it gives one that fits a packet, is sent back to the
    sender as one datagram under the transaction id of the request, which a
    client parses back as that answer. *)
Theorem server_serves (d : ServerDispatcher H) (p : provider ()) (message : bytes) (addr : SocketAddr) :
  exists d' p', server_incoming d p message addr = Ok (d', p') /\
    match TrackerRequest_from_bytes message with
    | Done _ req =>
        request_wf req /\ handler d' = (answer (handler d) req addr).2 /\
        match (answer (handler d) req addr).1 with
        | Some rt =>
            let r := TrackerResponse_new (req_transaction_id req) rt in
            sent p' = sent p ++
              (if decide (length (tracker_response_bytes r) <= buffer_length) then [(tracker_response_bytes r, addr)] else []) /\
            (tracker_response_wf r -> TrackerResponse_from_bytes (tracker_response_bytes r) = Done [] r)
        | None => p' = p
        end
    | _ => d' = d /\ p' = p
    end.
Proof using NS WS.
  pose proof (proj1 yields_messages message) as Hy. unfold server_incoming.
  destruct (TrackerRequest_from_bytes message) as [rest req| | | |]; try done; [|by eauto..].
  pose proof (process_request_spec d p req addr Hy) as Hp. destruct (server_process_request d p req addr) as [d' p'].
  destruct Hp as [Hh Hp]. exists d', p'. split_and!; [done..|].
  destruct (answer (handler d) req addr).1 as [rt|]; [|done]. subst p'. split; [apply write_response_sends|].
  apply tracker_response_parse.
Qed.

End laws.

(** A handler that hands out one connection id and nothing else. *)
#[export] Instance SampleHandler : ServerHandler () := {|
  handle_connect _ h := (Some (inl 42%Z), h);
  handle_announce _ _ _ h := (Some (inr []), h);
  handle_scrape _ _ _ h := (None, h);
|}.

Definition connect_message : bytes := be_bytes 8 CONNECT_ID_PROTOCOL_ID ++ be_bytes 4 CONNECT_ACTION_ID ++ be_bytes 4 7.

Lemma server_serves_witness :
  let addr := SockV4 (mk_SocketAddrV4 (mk_Ipv4Addr x01 x02 x03 x04) 5) in
  exists d p, server_incoming (U := umio_ref () EXPECTED_PACKET_LENGTH) (N := nom_ref) (WE := WriteBytes_ref)
      (ServerDispatcher_new ()) (mk_Loop [] ∅ 0 false) connect_message addr = Ok (d, p) /\
    loop_sent p = [(tracker_response_bytes (TrackerResponse_new 7 (ResConnect 42)), addr)].
Proof.
  intros addr.
  destruct (@server_serves () SampleHandler (umio_ref () EXPECTED_PACKET_LENGTH) (umio_ref_spec () EXPECTED_PACKET_LENGTH)
    nom_ref nom_ref_spec WriteBytes_ref WriteBytes_ref_spec (ServerDispatcher_new ()) (mk_Loop [] ∅ 0 false) connect_message addr)
    as (d & p & He & Hs).
  exists d, p. split; [exact He|]. destruct Hs as (_ & _ & Hs & _). exact Hs.
Defined.
