(* ===== verification/UtClient.v ===== *)
(** * [bip_utracker::client]: the tracker client

    The dispatcher of [client/dispatcher.rs] and the limiter of
    [client/mod.rs].  Clock readings and random numbers are arguments of the
    handlers; the sink of the handshaker is the list of what it was sent. *)

From stdpp Require Import prelude list gmap strings.
From Stdlib Require Import ZArith Lia Strings.Byte.
From S2P Require Import Prelude Bytes DecStr Convert Sha Node Nom WriteBytes UtContact UtOption UtAnnounce UtScrape UtMessage HsMessage Umio.

Definition CONNECTION_ID_VALID_DURATION_MILLIS : Z := 60000.
Definition MAXIMUM_REQUEST_RETRANSMIT_ATTEMPTS : Z := 8.

(** ** Messages *)

(** A token is its transaction id. *)
Definition ClientToken : Type := Z.

Inductive ClientRequest : Type :=
| ClientAnnounce (hash : ShaHash) (state : ClientState)
| ClientScrape (hash : ShaHash).

Inductive ClientError : Type :=
| MaxTimeout
| MaxLength
| ClientShutdown
| ServerError
| IPVersionMismatch
| ServerMessage (err : ErrorResponse).

Inductive ClientResponse : Type :=
| AnnounceResult (res : AnnounceResponse)
| ScrapeResult (res : ScrapeResponse).

Record ClientMetadata : Type := ClientMetadata_new {
  token : ClientToken;
  result : ClientError + ClientResponse;
}.

Inductive DispatchTimeout : Type :=
| TimeoutConnect (token : ClientToken)
| TimeoutCleanUp.

Inductive DispatchMessage : Type :=
| DispatchRequest (addr : SocketAddr) (token : ClientToken) (request : ClientRequest)
| DispatchStartTimer
| DispatchShutdown.

(** ** Requests and their timers *)

Section client.
Context {U : Umio DispatchTimeout} {N : Nom} {WE : WriteBytesExt Cursor WriteError} {C : Chrono}.

Record ConnectTimer : Type := mk_ConnectTimer {
  timer_addr : SocketAddr;
  attempt : Z;
  timer_request : ClientRequest;
  timer_id : option (timeout_id DispatchTimeout);
}.

Context (request_order : gmap ClientToken ConnectTimer -> list ClientToken).
Context (cache_order : gmap SocketAddr (Z * DateTime) -> list SocketAddr).
Context (option_order : gmap byte bytes -> list byte).

Definition ConnectTimer_new (addr : SocketAddr) (request : ClientRequest) : ConnectTimer :=
  mk_ConnectTimer addr 0 request None.

Definition calculate_message_timeout_millis (attempt : Z) : Z := as_unsigned 64 (15 * 2 ^ attempt * 1000).

Definition current_timeout (self : ConnectTimer) (timed_out : bool) : option Z * ConnectTimer :=
  if decide (attempt self = MAXIMUM_REQUEST_RETRANSMIT_ATTEMPTS) then (None, self)
  else
    let attempt' := if timed_out then (attempt self + 1)%Z else attempt self in
    (Some (calculate_message_timeout_millis attempt'),
     mk_ConnectTimer (timer_addr self) attempt' (timer_request self) (timer_id self)).

Definition set_timeout_id (self : ConnectTimer) (id : timeout_id DispatchTimeout) : ConnectTimer :=
  mk_ConnectTimer (timer_addr self) (attempt self) (timer_request self) (Some id).

(** ** Connection ids *)

Definition ConnectIdCache : Type := gmap SocketAddr (Z * DateTime).

Definition id_is_expired (curr_time prev_time : DateTime) : bool :=
  let valid_duration := CONNECTION_ID_VALID_DURATION_MILLIS in
  let difference := dt_sub prev_time curr_time in
  bool_decide (valid_duration <= difference)%Z.

Definition cache_get (now : DateTime) (self : ConnectIdCache) (addr : SocketAddr) : option Z * ConnectIdCache :=
  match self !! addr with
  | None => (None, self)
  | Some (id, prev_time) =>
      if id_is_expired now prev_time then (None, delete addr self) else (Some id, self)
  end.

Definition cache_put (now : DateTime) (self : ConnectIdCache) (addr : SocketAddr) (connect_id : Z) : ConnectIdCache :=
  <[addr := (connect_id, now)]> self.

(** Entry [curr_index] of the map as it is then. *)
Fixpoint clean_loop (fuel : nat) (curr_time : DateTime) (curr_index : nat) (cache : ConnectIdCache) :
    outcome Empty_set ConnectIdCache :=
  match fuel with
  | O => NoFuel
  | S fuel =>
      match cache_order cache !! curr_index with
      | None => Ok cache
      | Some addr =>
          let cache :=
            match cache !! addr with
            | Some (_, prev_time) => if id_is_expired curr_time prev_time then delete addr cache else cache
            | None => cache
            end in
          clean_loop fuel curr_time (curr_index + 1) cache
      end
  end.

Definition clean_expired (now : DateTime) (self : ConnectIdCache) : outcome Empty_set ConnectIdCache :=
  clean_loop (S (size self)) now 0 self.

(** ** The dispatcher *)

(** [active] is the counter of the limiter, shared with the client. *)
Record ClientDispatcher : Type := mk_ClientDispatcher {
  handshaker : list (InitiateMessage + ClientMetadata);
  pid : ShaHash;
  port : Z;
  bound_addr : SocketAddr;
  active_requests : gmap ClientToken ConnectTimer;
  id_cache : ConnectIdCache;
  active : Z;
}.

Definition ClientDispatcher_new (peer_id : ShaHash) (port : Z) (bind : SocketAddr) : ClientDispatcher :=
  mk_ClientDispatcher [] peer_id port bind ∅ ∅ 0.

Definition dispatch : Type -> Type := stM (ClientDispatcher * provider DispatchTimeout) Empty_set.

Definition modify (f : ClientDispatcher -> ClientDispatcher) : dispatch () := fun s => (Ok (), (f s.1, s.2)).
Definition self_ : dispatch ClientDispatcher := fun s => (Ok s.1, s).
Definition set_requests (m : gmap ClientToken ConnectTimer) (d : ClientDispatcher) : ClientDispatcher :=
  mk_ClientDispatcher (handshaker d) (pid d) (port d) (bound_addr d) m (id_cache d) (active d).
Definition set_cache (c : ConnectIdCache) (d : ClientDispatcher) : ClientDispatcher :=
  mk_ClientDispatcher (handshaker d) (pid d) (port d) (bound_addr d) (active_requests d) c (active d).
Definition hand_over (item : InitiateMessage + ClientMetadata) (d : ClientDispatcher) : ClientDispatcher :=
  mk_ClientDispatcher (handshaker d ++ [item]) (pid d) (port d) (bound_addr d) (active_requests d) (id_cache d) (active d).

(** [RequestLimiter::acknowledge]: an atomic decrement. *)
Definition acknowledge (d : ClientDispatcher) : ClientDispatcher :=
  mk_ClientDispatcher (handshaker d) (pid d) (port d) (bound_addr d) (active_requests d) (id_cache d)
    (as_unsigned 64 (active d - 1)).

Definition notify_client (token : ClientToken) (result : ClientError + ClientResponse) : dispatch () :=
  _ ← modify (hand_over (inr (ClientMetadata_new token result)));
  modify acknowledge.

(** [provider.outgoing] around the writing of a request. *)
Definition send_packet (request : TrackerRequest) (addr : SocketAddr) : dispatch bool :=
  fun s =>
    let '(write_success, p) :=
      outgoing (fun bytes =>
        let '(r, writer) := TrackerRequest_write_bytes option_order request (Cursor_new bytes) in
        (is_ok r, if is_ok r then Some (position writer, addr) else None, WriteBytes.buffer writer)) s.2 in
    (Ok write_success, (s.1, p)).

(** [set_timeout(..).expect(..)] and [clear_timeout]. *)
Definition start_timeout (t : DispatchTimeout) (d : Z) : dispatch (timeout_id DispatchTimeout) :=
  fun s => match set_timeout t d s.2 with (Ok h, p) => (Ok h, (s.1, p)) | (_, p) => (Panic, (s.1, p)) end.
Definition stop_timeout (h : timeout_id DispatchTimeout) : dispatch () := fun s => (Ok (), (s.1, clear_timeout h s.2)).

(** [provider.shutdown()] *)
Definition stop_loop : dispatch () := fun s => (Ok (), (s.1, umio_shutdown s.2)).

Definition client_process_request (now : DateTime) (rnd : Z) (token : ClientToken) (timed_out : bool) : dispatch () :=
  d ← self_;
  match active_requests d !! token with
  | None => mret ()
  | Some conn_timer =>
      _ ← modify (set_requests (delete token (active_requests d)));
      let '(next_timeout, conn_timer) := current_timeout conn_timer timed_out in
      match next_timeout with
      | None => notify_client token (inl MaxTimeout)
      | Some next_timeout =>
          let addr := timer_addr conn_timer in
          let '(opt_conn_id, cache) := cache_get now (id_cache d) addr in
          _ ← modify (set_cache cache);
          let '(conn_id, request_type) :=
            match opt_conn_id, timer_request conn_timer with
            | Some id, ClientAnnounce hash state =>
                let source_ip := match addr with SockV4 _ => ImpliedV4 | SockV6 _ => ImpliedV6 end in
                (id, ReqAnnounce (AnnounceRequest_new hash (pid d) state source_ip rnd DesiredDefault (port d) AnnounceOptions_new))
            | Some id, ClientScrape hash => (id, ReqScrape (ScrapeRequest_insert ScrapeRequest_new hash))
            | None, _ => (CONNECT_ID_PROTOCOL_ID, ReqConnect)
            end in
          let tracker_request := TrackerRequest_new conn_id token request_type in
          write_success ← send_packet tracker_request addr;
          if (write_success : bool) then
            id ← start_timeout (TimeoutConnect token) next_timeout;
            d ← self_;
            modify (set_requests (<[token := set_timeout_id conn_timer id]> (active_requests d)))
          else notify_client token (inl MaxLength)
      end
  end.

Definition same_version (a b : SocketAddr) : bool :=
  match a, b with SockV4 _, SockV6 _ | SockV6 _, SockV4 _ => false | _, _ => true end.

Definition send_request (now : DateTime) (rnd : Z) (addr : SocketAddr) (token : ClientToken) (request : ClientRequest) : dispatch () :=
  d ← self_;
  if same_version (bound_addr d) addr then
    _ ← modify (set_requests (<[token := ConnectTimer_new addr request]> (active_requests d)));
    client_process_request now rnd token false
  else notify_client token (inl IPVersionMismatch).

(** The peers of a response, one initiation each. *)
Fixpoint forward_peers (hash : ShaHash) (addrs : list SocketAddr) : dispatch () :=
  match addrs with
  | [] => mret ()
  | addr :: addrs =>
      _ ← modify (hand_over (inl (InitiateMessage_new BitTorrent hash addr)));
      forward_peers hash addrs
  end.

Definition recv_response (now : DateTime) (rnd : Z) (addr : SocketAddr) (response : TrackerResponse) : dispatch () :=
  let token := res_transaction_id response in
  d ← self_;
  match active_requests d !! token with
  | None => mret ()
  | Some conn_timer =>
      _ ← modify (set_requests (delete token (active_requests d)));
      if decide (timer_addr conn_timer = addr) then
        h ← lift (unwrap (timer_id conn_timer));
        _ ← stop_timeout h;
        match response_type response with
        | ResConnect id =>
            d ← self_;
            _ ← modify (set_cache (cache_put now (id_cache d) addr id));
            d ← self_;
            _ ← modify (set_requests (<[token := conn_timer]> (active_requests d)));
            client_process_request now rnd token false
        | response_type =>
            match timer_request conn_timer, response_type with
            | ClientAnnounce hash _, ResAnnounce res =>
                addrs ← lift (drain CompactPeersIter_next (S (length (peers_bytes (res_peers res)))) (CompactPeers_iter (res_peers res)));
                _ ← forward_peers hash addrs;
                notify_client token (inr (AnnounceResult res))
            | ClientScrape _, ResScrape res => notify_client token (inr (ScrapeResult res))
            | _, ResError err => notify_client token (inl (ServerMessage err))
            | _, _ => notify_client token (inl ServerError)
            end
        end
      else mret ()
  end.

(** Notify every active request, by its index among the keys. *)
Fixpoint notify_all (keys : list ClientToken) (indices : list nat) : dispatch () :=
  match indices with
  | [] => mret ()
  | token_index :: indices =>
      next_token ← lift (unwrap (keys !! token_index));
      _ ← notify_client next_token (inl ClientShutdown);
      notify_all keys indices
  end.

Definition client_shutdown : dispatch () :=
  d ← self_;
  _ ← notify_all (request_order (active_requests d)) (seq 0 (size (active_requests d)));
  _ ← modify (set_requests ∅);
  stop_loop.

(** ** Events *)

Definition client_incoming (now : DateTime) (rnd : Z) (message : bytes) (addr : SocketAddr) : dispatch () :=
  match TrackerResponse_from_bytes message with
  | Done _ rsp => recv_response now rnd addr rsp
  | Error _ | Incomplete _ => mret ()
  | Panicked => lift Panic
  | OutOfFuel => lift NoFuel
  end.

Definition client_timeout (now : DateTime) (rnd : Z) (timeout : DispatchTimeout) : dispatch () :=
  match timeout with
  | TimeoutConnect token => client_process_request now rnd token true
  | TimeoutCleanUp =>
      d ← self_;
      cache ← lift (clean_expired now (id_cache d));
      _ ← modify (set_cache cache);
      _ ← start_timeout TimeoutCleanUp CONNECTION_ID_VALID_DURATION_MILLIS;
      mret ()
  end.

Definition client_notify (now : DateTime) (rnd : Z) (message : DispatchMessage) : dispatch () :=
  match message with
  | DispatchRequest addr token req_type => send_request now rnd addr token req_type
  | DispatchStartTimer => client_timeout now rnd TimeoutCleanUp
  | DispatchShutdown => client_shutdown
  end.

(** ** The client *)

(** [RequestLimiter::can_initiate] up to its decision; a refused attempt is taken
    back by a later [acknowledge]. *)
Definition can_initiate (capacity : Z) (d : ClientDispatcher) : bool * ClientDispatcher :=
  let current_active_requests := active d in
  (bool_decide (current_active_requests < capacity)%Z,
   mk_ClientDispatcher (handshaker d) (pid d) (port d) (bound_addr d) (active_requests d) (id_cache d)
     (as_unsigned 64 (current_active_requests + 1))).

End client.
