(* ===== verification/UtClientProofs.v ===== *)
(** * Properties of the tracker client

    The client, its channel to the dispatcher and the network as a step
    relation; every accepted request is accounted for. *)

From stdpp Require Import prelude list gmap strings relations.
From Stdlib Require Import ZArith Lia Strings.Byte.
From S2P Require Import Prelude Bytes DecStr Convert Sha Node Nom WriteBytes UtContact UtOption UtAnnounce UtScrape UtMessage HsMessage Umio UtClient.

Lemma size_list_to_set_le {K} `{Countable K} (l : list K) : size (list_to_set (C := gset K) l) <= length l.
Proof.
  induction l as [|t l IH]; [by cbn; rewrite size_empty|]. cbn [list_to_set length].
  rewrite size_union_alt, size_singleton. apply le_n_S. etransitivity; [apply (subseteq_size _ (list_to_set l)); set_solver|done].
Qed.

(** ** Connection ids *)

Section cache.
Context {C : Chrono} {CL : ChronoLaws}.

Lemma never_expired now prev : (0 <= dt_sub now prev)%Z -> id_is_expired now prev = false.
Proof.
  intros Hm. unfold id_is_expired. apply bool_decide_false. rewrite dt_sub_opp.
  unfold CONNECTION_ID_VALID_DURATION_MILLIS. lia.
Qed.

(** Entries not from the future. *)
Definition cache_past (now : DateTime) (c : ConnectIdCache) : Prop :=
  forall addr id t, c !! addr = Some (id, t) -> (0 <= dt_sub now t)%Z.

Lemma clean_keeps cache_order now c i fuel :
  cache_past now c -> i <= length (cache_order c) < i + fuel ->
  clean_loop cache_order fuel now i c = Ok c.
Proof.
  intros Hp. revert i. induction fuel as [|fuel IH]; intros i Hf; simpl.
  - lia.
  - destruct (cache_order c !! i) as [addr|] eqn:Hi; [|done].
    assert (match c !! addr with Some (_, prev_time) => if id_is_expired now prev_time then delete addr c else c | None => c end = c) as ->.
    { destruct (c !! addr) as [[id t]|] eqn:Ha; [|done]. rewrite never_expired by (by eapply Hp). done. }
    apply IH. apply lookup_lt_Some in Hi. lia.
Qed.

Lemma clean_expired_keeps cache_order now c : visits_all cache_order -> cache_past now c ->
  clean_expired cache_order now c = Ok c.
Proof.
  intros Hv Hp. apply clean_keeps; [done|]. pose proof (order_size cache_order c Hv) as Ho.
  unfold ConnectIdCache in *. rewrite Ho. lia.
Qed.

(** Connection ids never expire: with a clock that does not run backwards, an id
    put into the cache is returned at every later time, a minute after and a year
    after alike, and the clean-up removes nothing. *)
Theorem connect_ids_never_expire cache_order (then_ now : DateTime) (c : ConnectIdCache) (addr : SocketAddr) (id : Z) :
  visits_all cache_order -> cache_past now c -> (0 <= dt_sub now then_)%Z ->
  let c' := cache_put then_ c addr id in
  cache_get now c' addr = (Some id, c') /\ clean_expired cache_order now c' = Ok c'.
Proof using CL.
  intros Hv Hp Ht c'. assert (cache_past now c') as Hp'.
  { intros a i t. intros Ha. apply (lookup_insert_Some (M := gmap SocketAddr) c) in Ha as [[_ [= _ <-]]|[_ Ha]]; [done|by eapply Hp]. }
  split; [|by apply clean_expired_keeps]. unfold cache_get, c', cache_put, ConnectIdCache. rewrite lookup_insert_eq. by rewrite never_expired.
Qed.

Lemma clean_returns cache_order now n : visits_all cache_order -> forall fuel i c,
  size c <= n -> i <= n -> i + fuel = S n -> exists c', clean_loop cache_order fuel now i c = Ok c'.
Proof.
  intros Hv. induction fuel as [|fuel IH]; intros i c Hc Hi Hf; [lia|]. simpl.
  destruct (cache_order c !! i) as [addr|] eqn:Ha; [|eauto].
  apply lookup_lt_Some in Ha. pose proof (order_size cache_order c Hv) as Ho. unfold ConnectIdCache in *. apply IH; [|lia..].
  destruct (c !! addr) as [[id t]|] eqn:Hl; [|done]. destruct (id_is_expired now t); [|done].
  rewrite map_size_delete, Hl. lia.
Qed.

End cache.

Lemma connect_ids_never_expire_witness :
  cache_get (C := Chrono_Z) 10000000%Z (cache_put (C := Chrono_Z) 0%Z ∅ (SockV4 (mk_SocketAddrV4 (mk_Ipv4Addr x01 x02 x03 x04) 5)) 42)
    (SockV4 (mk_SocketAddrV4 (mk_Ipv4Addr x01 x02 x03 x04) 5)) =
  (Some 42%Z, cache_put (C := Chrono_Z) 0%Z ∅ (SockV4 (mk_SocketAddrV4 (mk_Ipv4Addr x01 x02 x03 x04) 5)) 42).
Proof.
  refine (proj1 (connect_ids_never_expire (C := Chrono_Z) map_keys 0%Z 10000000%Z ∅ _ 42 map_keys_visits_all _ _)).
  - intros addr id t Ha. by apply (lookup_empty_Some (M := gmap SocketAddr)) in Ha.
  - vm_compute. discriminate.
Defined.


(** ** Bookkeeping *)

Section bookkeeping.
Context {U : Umio DispatchTimeout} {US : UmioSpec DispatchTimeout} {N : Nom} {NS : NomSpec N}.
Context {WE : WriteBytesExt Cursor WriteError} {WS : WriteBytesSpec Cursor WriteError} {C : Chrono}.
Context (request_order : gmap ClientToken ConnectTimer -> list ClientToken).
Context (cache_order : gmap SocketAddr (Z * DateTime) -> list SocketAddr).
Context (option_order : gmap byte bytes -> list byte).
Context (capacity : nat).
Hypothesis Hrequests : visits_all request_order.
Hypothesis Hcache : visits_all cache_order.

(** The tokens the client was told about, and those of the active requests. *)
Definition told (item : InitiateMessage + ClientMetadata) : option ClientToken :=
  match item with inl _ => None | inr m => Some (token m) end.
Definition answered (d : ClientDispatcher) : list ClientToken := omap told (handshaker d).
Definition toks (m : gmap ClientToken ConnectTimer) : list ClientToken := (map_to_list m).*1.

Lemma toks_insert m t ct : m !! t = None -> toks (<[t := ct]> m) ≡ₚ t :: toks m.
Proof. intros Hm. unfold toks. by rewrite map_to_list_insert by done. Qed.

Lemma toks_delete m t ct : m !! t = Some ct -> t :: toks (delete t m) ≡ₚ toks m.
Proof. intros Hm. unfold toks. rewrite <- (map_to_list_delete m t ct) by done. done. Qed.

Lemma elem_of_toks m t : t ∈ toks m <-> is_Some (m !! t).
Proof.
  unfold toks. rewrite list_elem_of_fmap. split.
  - intros ([t' ct] & -> & Hm%elem_of_map_to_list). by exists ct.
  - intros [ct Hm]. exists (t, ct). split; [done|]. by apply elem_of_map_to_list.
Qed.

Lemma length_toks m : length (toks m) = size m.
Proof. unfold toks. by rewrite length_fmap, length_map_to_list. Qed.

(** The live timers of requests: [tm] maps a token to its one timer; [cl] counts
    the clean-up timer.  [hole] is the request being processed, without one. *)
Record timers_ok (hole : option ClientToken) (tm : gmap ClientToken (timeout_id DispatchTimeout)) (cl : nat)
    (act : gmap ClientToken ConnectTimer) (lost : list ClientToken) (p : provider DispatchTimeout) : Prop := {
  t_conn : forall t h, (exists d, timer p h = Some (TimeoutConnect t, d)) <-> tm !! t = Some h;
  t_act : forall t ct, act !! t = Some ct -> hole <> Some t -> exists h, timer_id ct = Some h /\ tm !! t = Some h;
  t_hole : forall t, hole = Some t -> tm !! t = None;
  t_dom : forall t, is_Some (tm !! t) -> is_Some (act !! t) \/ t ∈ lost;
  t_none : cl = 0 -> forall h d, timer p h <> Some (TimeoutCleanUp, d);
  t_clean : forall h h' d d', timer p h = Some (TimeoutCleanUp, d) -> timer p h' = Some (TimeoutCleanUp, d') -> h = h';
  t_cl : cl <= 1;
  t_free : free p + cl + size tm = capacity + 2;
}.

(** [queue]: tokens of the requests in the channel or in hand; [undo]: refused
    attempts not taken back yet. *)
Record books (queue lost acc : list ClientToken) (undo : nat) (d : ClientDispatcher) : Prop := {
  i_perm : answered d ++ queue ++ toks (active_requests d) ++ lost ≡ₚ acc;
  i_nodup : NoDup acc;
  i_count : active d = Z.of_nat (length queue + size (active_requests d) + length lost + undo);
  i_cap : length queue + size (active_requests d) + length lost <= capacity;
  i_undo : undo <= 1;
}.

Definition client_inv (hole : option ClientToken) (cl : nat) (queue lost acc : list ClientToken) (undo : nat)
    (s : ClientDispatcher * provider DispatchTimeout) : Prop :=
  books queue lost acc undo s.1 /\ is_down s.2 = false /\ exists tm, timers_ok hole tm cl (active_requests s.1) lost s.2.

(** [m] returns from [s], with [Q] of the result. *)
Definition does {A} (m : dispatch A) (s : ClientDispatcher * provider DispatchTimeout)
    (Q : A -> ClientDispatcher * provider DispatchTimeout -> Prop) : Prop :=
  exists a s', m s = (Ok a, s') /\ Q a s'.

Lemma does_ret {A} (a : A) s (Q : A -> ClientDispatcher * provider DispatchTimeout -> Prop) : Q a s -> does (mret a) s Q.
Proof. intros HQ. by exists a, s. Qed.

Lemma does_bind {A B} (m : dispatch A) (f : A -> dispatch B) s Q :
  does m s (fun a s' => does (f a) s' Q) -> does (m ≫= f) s Q.
Proof. intros (a & s' & Hm & b & s'' & Hf & HQ). exists b, s''. split; [|done].
  etransitivity; [by apply (stM_bind_ok f m)|done].
Qed.

Lemma does_impl {A} (m : dispatch A) s (P Q : A -> ClientDispatcher * provider DispatchTimeout -> Prop) :
  does m s P -> (forall a s', P a s' -> Q a s') -> does m s Q.
Proof. intros (a & s' & Hm & HP) HQ. exists a, s'. eauto. Qed.

Lemma does_modify f d p (Q : () -> ClientDispatcher * provider DispatchTimeout -> Prop) : Q () (f d, p) -> does (modify f) (d, p) Q.
Proof. intros HQ. by exists (), (f d, p). Qed.

Lemma does_self d p (Q : ClientDispatcher -> ClientDispatcher * provider DispatchTimeout -> Prop) : Q d (d, p) -> does self_ (d, p) Q.
Proof. intros HQ. by exists d, (d, p). Qed.

Lemma does_lift {A} (a : A) s (Q : A -> ClientDispatcher * provider DispatchTimeout -> Prop) : Q a s -> does (lift (Ok a)) s Q.
Proof. intros HQ. by exists a, s. Qed.

(** *** Moving a token *)

Hypothesis Hwidth : (Z.of_nat capacity + 2 < 2 ^ 64)%Z.

Lemma books_answer t r queue lost acc undo d :
  books (t :: queue) lost acc undo d -> books queue lost acc undo (acknowledge (hand_over (inr (ClientMetadata_new t r)) d)).
Proof using Hwidth.
  intros [Hp Hn Hc Hcap Hu]. unfold answered in Hp. split; cbn; [|done| |simpl in Hcap; lia|done].
  - rewrite <- Hp. unfold answered; cbn. rewrite omap_app. cbn. solve_Permutation.
  - rewrite as_unsigned_id; unfold in_unsigned; simpl in *; lia.
Qed.

Lemma books_hand_out t ct queue lost acc undo d : active_requests d !! t = Some ct -> books queue lost acc undo d ->
  books (t :: queue) lost acc undo (set_requests (delete t (active_requests d)) d).
Proof.
  intros Ht [Hp Hn Hc Hcap Hu]. assert (size (active_requests d) <> 0) by (intros He%map_size_empty_iff; by rewrite He in Ht).
  split; cbn; [|done| | |done]; rewrite ?map_size_delete, ?Ht; [|simpl; lia..].
  rewrite <- Hp, <- (toks_delete (active_requests d) t ct) by done. solve_Permutation.
Qed.

Lemma books_fresh t queue lost acc undo d : books (t :: queue) lost acc undo d ->
  active_requests d !! t = None /\ (t ∉ lost).
Proof.
  intros [Hp Hn _ _ _]. rewrite <- Hp in Hn. apply NoDup_app in Hn as (_ & _ & Hn). simpl in Hn.
  apply NoDup_cons in Hn as [Ht _]. rewrite !elem_of_app, elem_of_toks in Ht.
  split; [|tauto]. apply eq_None_not_Some. tauto.
Qed.

Lemma books_put_back t ct queue lost acc undo d : books (t :: queue) lost acc undo d ->
  books queue lost acc undo (set_requests (<[t := ct]> (active_requests d)) d).
Proof.
  intros Hb. destruct (books_fresh _ _ _ _ _ _ Hb) as [Ht _]. destruct Hb as [Hp Hn Hc Hcap Hu].
  split; cbn; [|done| | |done]; rewrite ?map_size_insert, ?Ht; [|simpl in *; lia..].
  rewrite <- Hp, toks_insert by done. solve_Permutation.
Qed.

Lemma books_lose t ct queue lost acc undo d : active_requests d !! t = Some ct -> books queue lost acc undo d ->
  books queue (t :: lost) acc undo (set_requests (delete t (active_requests d)) d).
Proof.
  intros Ht Hb. apply (books_hand_out _ _ _ _ _ _ _ Ht) in Hb as [Hp Hn Hc Hcap Hu]. cbn in *.
  split; cbn; [|done|lia..|done]. rewrite <- Hp. solve_Permutation.
Qed.

(** *** Timers *)

Lemma timers_size hole tm cl act lost p : timers_ok hole tm cl act lost p -> size tm <= size act + length lost.
Proof using Type.
  intros Ht. rewrite <- !size_dom. etransitivity; [apply (subseteq_size _ (dom act ∪ list_to_set lost))|].
  - intros t. rewrite elem_of_union, !elem_of_dom, elem_of_list_to_set. apply (t_dom _ _ _ _ _ _ Ht).
  - rewrite size_union_alt. apply Nat.add_le_mono_l. etransitivity; [apply (subseteq_size _ (list_to_set lost)), subseteq_difference_l; done|].
    apply size_list_to_set_le.
Qed.

Lemma timers_fire_connect tm cl act lost p h t p' : timers_ok None tm cl act lost p -> fired p h (TimeoutConnect t) p' ->
  tm !! t = Some h /\ timers_ok (Some t) (delete t tm) cl act lost p'.
Proof.
  intros [Hconn Hact _ Hdom Hnone Hclean Hcl Hfree] (Hd & Htim & Hf & _). pose proof (proj1 (Hconn t h) Hd) as Ht.
  split; [done|]. split; [| | | | | |done|].
  - intros t' h'. rewrite Htim. destruct (decide (t' = t)) as [->|Hne].
    + rewrite lookup_delete_eq. split; [|done]. intros [d Hd']. case_decide as Hh; [done|]. destruct Hh.
      apply (inj Some). rewrite <- Ht. symmetry. apply Hconn. eauto.
    + rewrite lookup_delete_ne, <- Hconn by done. case_decide as Hh; [|done]. subst h'. destruct Hd as [d Hd]. rewrite Hd.
      split; intros [d' [=]]; congruence.
  - intros t' ct Ha Hne. destruct (Hact t' ct Ha) as (h' & ? & ?); [done|]. exists h'. by rewrite lookup_delete_ne by congruence.
  - intros t' [= <-]. apply lookup_delete_eq.
  - intros t' Hs. apply Hdom. destruct Hs as [x Hx%lookup_delete_Some]. exists x. tauto.
  - intros -> h' d. rewrite Htim. case_decide; [done|]. by apply Hnone.
  - intros h1 h2 d1 d2. rewrite !Htim. repeat case_decide; try done. apply Hclean.
  - rewrite map_size_delete, Ht. assert (size tm <> 0) by (intros He%map_size_empty_iff; by rewrite He in Ht). lia.
Qed.

Lemma timers_fire_clean tm cl act lost p h p' : timers_ok None tm cl act lost p -> fired p h TimeoutCleanUp p' ->
  cl = 1 /\ timers_ok None tm 0 act lost p'.
Proof.
  intros [Hconn Hact Hhole Hdom Hnone Hclean Hcl Hfree] ([d Hd] & Htim & Hf & _).
  assert (cl = 1) as -> by (destruct cl as [|[|]]; [by destruct (Hnone eq_refl h d)|done|lia]).
  split; [done|]. split; [|done..| | |lia|lia].
  - intros t' h'. rewrite <- Hconn, Htim. case_decide as Hh; [|done]. subst h'. rewrite Hd. split; intros [d' [=]].
  - intros _ h' d'. rewrite Htim. case_decide as Hh; [done|]. intros Hx. destruct Hh. by eapply Hclean.
  - intros h1 h2 d1 d2. rewrite !Htim. repeat case_decide; try done. apply Hclean.
Qed.

Lemma timers_same hole tm cl act lost p p' : (forall h, timer p' h = timer p h) -> free p' = free p ->
  timers_ok hole tm cl act lost p -> timers_ok hole tm cl act lost p'.
Proof.
  intros Hs Hf [Hconn Hact Hhole Hdom Hnone Hclean Hcl Hfree]. split; try done.
  - intros t h. by rewrite Hs.
  - intros H0 h d. rewrite Hs. by apply Hnone.
  - intros h1 h2 d1 d2. rewrite !Hs. apply Hclean.
  - lia.
Qed.

Lemma timers_set_connect tm cl act lost p t ct h d p' :
  timers_ok None tm cl act lost p -> act !! t = None -> (t ∉ lost) -> timer p h = None ->
  (forall h', timer p' h' = if decide (h' = h) then Some (TimeoutConnect t, d) else timer p h') -> S (free p') = free p ->
  timers_ok None (<[t := h]> tm) cl (<[t := set_timeout_id ct h]> act) lost p'.
Proof.
  intros [Hconn Hact _ Hdom Hnone Hclean Hcl Hfree] Ha Hl Hh Htim Hf.
  assert (tm !! t = None) as Ht. { apply eq_None_not_Some. intros [?|?]%Hdom; [by destruct (act !! t)|done]. }
  split; [| |done| | | |done|].
  - intros t' h'. rewrite Htim. destruct (decide (t' = t)) as [->|Hne].
    + rewrite lookup_insert_eq. case_decide as Hd; [subst; naive_solver|]. rewrite Hconn, Ht. naive_solver.
    + rewrite lookup_insert_ne, <- Hconn by done. case_decide as Hd; [|done]. subst h'. rewrite Hh.
      split; intros [d' [=]]. congruence.
  - intros t' ct'. destruct (decide (t' = t)) as [->|Hne].
    + rewrite !lookup_insert_eq. intros [= <-] _. by exists h.
    + rewrite !lookup_insert_ne by done. apply Hact.
  - intros t'. destruct (decide (t' = t)) as [->|Hne]; [rewrite !lookup_insert_eq; eauto|]. rewrite !lookup_insert_ne by done. apply Hdom.
  - intros H0 h' d'. rewrite Htim. case_decide; [done|]. by apply Hnone.
  - intros h1 h2 d1 d2. rewrite !Htim. repeat case_decide; try done. apply Hclean.
  - rewrite map_size_insert, Ht. lia.
Qed.

Lemma timers_set_clean tm act lost p h d p' :
  timers_ok None tm 0 act lost p -> timer p h = None ->
  (forall h', timer p' h' = if decide (h' = h) then Some (TimeoutCleanUp, d) else timer p h') -> S (free p') = free p ->
  timers_ok None tm 1 act lost p'.
Proof.
  intros [Hconn Hact Hhole Hdom Hnone Hclean Hcl Hfree] Hh Htim Hf. specialize (Hnone eq_refl). split; try done; [| |lia].
  - intros t' h'. rewrite <- Hconn, Htim. case_decide as Hd; [|done]. subst h'. rewrite Hh. split; intros [d' [=]].
  - intros h1 h2 d1 d2. rewrite !Htim. repeat case_decide; try done; [congruence|..]; intros Hx Hy.
    + by destruct (Hnone _ _ Hy).
    + by destruct (Hnone _ _ Hx).
    + by destruct (Hnone _ _ Hx).
Qed.

(** *** States *)

Lemma inv_hand_out t ct cl queue lost acc undo d p :
  client_inv (Some t) cl queue lost acc undo (d, p) -> active_requests d !! t = Some ct ->
  client_inv None cl (t :: queue) lost acc undo (set_requests (delete t (active_requests d)) d, p).
Proof.
  intros (Hb & Hd & tm & [Hconn Hact Hhole Hdom Hnone Hclean Hcl Hfree]) Ht. split; [by eapply books_hand_out|]. split; [done|].
  exists tm. cbn in *. split; try done.
  - intros t' ct' [Hne Ha]%lookup_delete_Some _. apply Hact; [done|congruence].
  - intros t' Hs. destruct (Hdom t' Hs) as [Ha|Ha]; [left|by right]. rewrite lookup_delete_ne; [done|].
    intros <-. rewrite Hhole in Hs by done. by destruct Hs.
Qed.

Lemma inv_absent t cl queue lost acc undo d p :
  client_inv (Some t) cl queue lost acc undo (d, p) -> active_requests d !! t = None -> client_inv None cl queue lost acc undo (d, p).
Proof.
  intros (Hb & Hd & tm & [Hconn Hact Hhole Hdom Hnone Hclean Hcl Hfree]) Ht. split_and!; [done..|]. exists tm. cbn in *.
  split; try done. intros t' ct' Ha _. apply Hact; [done|congruence].
Qed.

Lemma inv_put_back t ct cl queue lost acc undo d p :
  client_inv None cl (t :: queue) lost acc undo (d, p) ->
  client_inv (Some t) cl queue lost acc undo (set_requests (<[t := ct]> (active_requests d)) d, p).
Proof.
  intros (Hb & Hd & tm & [Hconn Hact Hhole Hdom Hnone Hclean Hcl Hfree]). destruct (books_fresh _ _ _ _ _ _ Hb) as [Ht Hl].
  split; [by apply books_put_back|]. split; [done|]. exists tm. cbn in *. split; try done.
  - intros t' ct' [[-> _]|[_ Ha]]%lookup_insert_Some Hne; [done|]. by apply Hact.
  - intros t' [= <-]. apply eq_None_not_Some. intros [Ha|Ha]%Hdom; [|done]. rewrite Ht in Ha. by destruct Ha.
  - intros t' [Ha|Ha]%Hdom; [left|by right]. by apply lookup_insert_is_Some'; right.
Qed.

Lemma inv_lose t ct cl queue lost acc undo d p :
  client_inv None cl queue lost acc undo (d, p) -> active_requests d !! t = Some ct ->
  client_inv None cl queue (t :: lost) acc undo (set_requests (delete t (active_requests d)) d, p).
Proof.
  intros (Hb & Hd & tm & [Hconn Hact Hhole Hdom Hnone Hclean Hcl Hfree]) Ht. split; [by eapply books_lose|]. split; [done|].
  exists tm. cbn in *. split; try done.
  - intros t' ct' [Hne Ha]%lookup_delete_Some _. by apply Hact.
  - intros t' Hs. destruct (decide (t' = t)) as [->|Hne]; [right; left|]. destruct (Hdom t' Hs) as [Ha|Ha]; [left|right; by right].
    by rewrite lookup_delete_ne.
Qed.

Lemma inv_cache c hole cl queue lost acc undo d p :
  client_inv hole cl queue lost acc undo (d, p) -> client_inv hole cl queue lost acc undo (set_cache c d, p).
Proof. intros ([] & Hd & Ht). by split_and!. Qed.

Lemma inv_answer t r cl queue lost acc undo d p :
  client_inv None cl (t :: queue) lost acc undo (d, p) ->
  does (notify_client t r) (d, p) (fun _ => client_inv None cl queue lost acc undo).
Proof using Hwidth.
  intros (Hb & Hd & Ht). apply does_bind, does_modify, does_modify. split; [by apply books_answer|done].
Qed.

Lemma inv_clear t ct cl queue lost acc undo d p :
  client_inv None cl queue lost acc undo (d, p) -> active_requests d !! t = Some ct ->
  exists h, timer_id ct = Some h /\ client_inv (Some t) cl queue lost acc undo (d, clear_timeout h p).
Proof.
  intros (Hb & Hd & tm & Ht) Ha. destruct (t_act _ _ _ _ _ _ Ht _ _ Ha) as (h & Hh & Htm); [done|]. exists h. split; [done|].
  apply (t_conn _ _ _ _ _ _ Ht) in Htm as [dur Hdur]. destruct (clear_timeout_ok h p _ Hdur) as (Htim & Hf & Hs & Hdn).
  destruct (timers_fire_connect _ _ _ _ _ h t (clear_timeout h p) Ht) as [_ Ht']; [split_and!; [by eauto|done..]|].
  split_and!; [done|by cbn in *; congruence|by eauto].
Qed.

Lemma inv_send r addr hole cl queue lost acc undo d p :
  client_inv hole cl queue lost acc undo (d, p) ->
  does (send_packet option_order r addr) (d, p) (fun _ s => s.1 = d /\ client_inv hole cl queue lost acc undo s).
Proof.
  intros (Hb & Hd & tm & Ht). unfold send_packet, does. cbn [fst snd].
  lazymatch goal with |- context [outgoing ?f p] => destruct (outgoing_spec f p) as (buf & p' & _ & -> & _ & Htim & Hf & Hdn) end.
  do 2 eexists. split; [done|]. split; [done|]. split_and!; [done|by cbn in *; congruence|]. exists tm. by eapply timers_same.
Qed.

Lemma inv_start t ct dur cl queue lost acc undo d p :
  client_inv None cl (t :: queue) lost acc undo (d, p) ->
  does (start_timeout (TimeoutConnect t) dur) (d, p) (fun h s => s.1 = d /\
    client_inv None cl queue lost acc undo (set_requests (<[t := set_timeout_id ct h]> (active_requests d)) d, s.2)).
Proof.
  intros (Hb & Hd & tm & Ht). destruct (books_fresh _ _ _ _ _ _ Hb) as [Ha Hl].
  pose proof (timers_size _ _ _ _ _ _ Ht). pose proof (t_free _ _ _ _ _ _ Ht). pose proof (t_cl _ _ _ _ _ _ Ht).
  pose proof (i_cap _ _ _ _ _ Hb). cbn in *.
  destruct (set_timeout_ok (TimeoutConnect t) dur p) as (h & p' & He & Hh & Htim & Hf & _ & Hdn); [lia|].
  exists h, (d, p'). split; [unfold start_timeout; cbn; by rewrite He|]. split; [done|]. split; [by apply books_put_back|].
  split; [by cbn in *; congruence|]. exists (<[t := h]> tm). by eapply timers_set_connect.
Qed.

Lemma inv_restart dur queue lost acc undo d p :
  client_inv None 0 queue lost acc undo (d, p) ->
  does (start_timeout TimeoutCleanUp dur) (d, p) (fun h s => client_inv None 1 queue lost acc undo s).
Proof.
  intros (Hb & Hd & tm & Ht).
  pose proof (timers_size _ _ _ _ _ _ Ht). pose proof (t_free _ _ _ _ _ _ Ht). pose proof (i_cap _ _ _ _ _ Hb). cbn in *.
  destruct (set_timeout_ok TimeoutCleanUp dur p) as (h & p' & He & Hh & Htim & Hf & _ & Hdn); [lia|].
  exists h, (d, p'). split; [unfold start_timeout; cbn; by rewrite He|]. split; [done|].
  split; [by cbn in *; congruence|]. exists tm. by eapply timers_set_clean.
Qed.

(** *** Handlers *)

Lemma inv_process now rnd t b cl queue lost acc undo d p :
  client_inv (Some t) cl queue lost acc undo (d, p) ->
  does (client_process_request option_order now rnd t b) (d, p) (fun _ => client_inv None cl queue lost acc undo).
Proof using Hwidth.
  intros Hi. apply does_bind, does_self. destruct (active_requests d !! t) as [ct|] eqn:Ha.
  2: { apply does_ret. by eapply inv_absent. }
  apply does_bind, does_modify. apply (inv_hand_out _ ct) in Hi; [|done].
  destruct (current_timeout ct b) as [[dur|] ct']; [|by apply inv_answer].
  cbv zeta. destruct (cache_get now (id_cache d) (timer_addr ct')) as [oid c].
  apply does_bind, does_modify. apply (inv_cache c) in Hi.
  destruct (match oid with Some id => _ | None => _ end) as [conn_id rt].
  apply does_bind. eapply does_impl; [by apply inv_send|]. intros ok [d2 p2] [He Hi2]. cbn in He; subst d2.
  destruct ok; [|by apply inv_answer]. apply does_bind. eapply does_impl; [by apply (inv_start _ ct')|].
  intros h [d3 p3] [He Hi3]. cbn in He; subst d3. by apply does_bind, does_self, does_modify.
Qed.

Lemma inv_send_request now rnd addr t req cl queue lost acc undo d p :
  client_inv None cl (t :: queue) lost acc undo (d, p) ->
  does (send_request option_order now rnd addr t req) (d, p) (fun _ => client_inv None cl queue lost acc undo).
Proof using Hwidth.
  intros Hi. apply does_bind, does_self. destruct (same_version _ _); [|by apply inv_answer].
  apply does_bind, does_modify, inv_process. by apply inv_put_back.
Qed.

Lemma inv_forward hash addrs hole cl queue lost acc undo d p :
  client_inv hole cl queue lost acc undo (d, p) ->
  does (forward_peers hash addrs) (d, p) (fun _ => client_inv hole cl queue lost acc undo).
Proof.
  revert d. induction addrs as [|a addrs IH]; intros d Hi; [by apply does_ret|].
  apply does_bind, does_modify, IH. destruct Hi as ([Hp] & Hd & Ht). split_and!; [|done..]. split; [|done..].
  unfold answered; cbn. rewrite omap_app. cbn. by rewrite app_nil_r.
Qed.

(** The request a datagram makes the dispatcher forget: its transaction id under
    another address. *)
Definition forgets (d : ClientDispatcher) (message : bytes) (addr : SocketAddr) : list ClientToken :=
  match TrackerResponse_from_bytes message with
  | Done _ response =>
      match active_requests d !! res_transaction_id response with
      | Some conn_timer => if decide (timer_addr conn_timer = addr) then [] else [res_transaction_id response]
      | None => []
      end
  | _ => []
  end.

Lemma inv_incoming now rnd message addr cl queue lost acc undo d p :
  client_inv None cl queue lost acc undo (d, p) ->
  does (client_incoming option_order now rnd message addr) (d, p)
    (fun _ => client_inv None cl queue (forgets d message addr ++ lost) acc undo).
Proof using NS Hwidth.
  intros Hi. pose proof (proj2 yields_messages message) as Hy. unfold client_incoming, forgets.
  destruct (TrackerResponse_from_bytes message) as [rest rsp|e|n| |]; try done; [|by apply does_ret..].
  apply does_bind, does_self. destruct (active_requests d !! _) as [ct|] eqn:Ha; [|by apply does_ret].
  apply does_bind, does_modify. case_decide as Haddr; [|by apply does_ret; eapply inv_lose].
  destruct (inv_clear _ _ _ _ _ _ _ _ _ Hi Ha) as (h & -> & Hi'). apply (inv_hand_out _ ct) in Hi'; [|done]. clear Hi. cbn [app].
  apply does_bind, does_lift, does_bind. exists (). eexists. split; [done|]. cbn [fst snd].
  destruct Hy as [_ Hy]. destruct (response_type rsp) as [id|res|res|err].
  - apply does_bind, does_self, does_bind, does_modify, does_bind, does_self, does_bind, does_modify, inv_process.
    by apply inv_put_back, inv_cache.
  - destruct (timer_request ct) as [hash st|hash]; [|by apply inv_answer]. destruct Hy as (_ & _ & _ & l & Hl).
    apply does_bind. rewrite (peers_drain_bytes _ _ Hl). apply does_lift, does_bind.
    eapply does_impl; [by apply inv_forward|]. intros [] [d2 p2] Hi2. by apply inv_answer.
  - destruct (timer_request ct) as [hash st|hash]; by apply inv_answer.
  - destruct (timer_request ct) as [hash st|hash]; by apply inv_answer.
Qed.

Lemma inv_cleanup now rnd queue lost acc undo d p :
  client_inv None 0 queue lost acc undo (d, p) ->
  does (client_timeout cache_order option_order now rnd TimeoutCleanUp) (d, p) (fun _ => client_inv None 1 queue lost acc undo).
Proof using Hcache.
  intros Hi. apply does_bind, does_self, does_bind.
  destruct (clean_returns cache_order now (size (id_cache d)) Hcache (S (size (id_cache d))) 0 (id_cache d)) as [c Hc]; [lia..|].
  unfold clean_expired. rewrite Hc. apply does_lift, does_bind, does_modify, does_bind.
  eapply does_impl; [by apply inv_restart, inv_cache|]. intros h s Hs. by apply does_ret.
Qed.

Lemma notify_all_books keys n queue lost acc undo p : forall i d, i + n = length keys ->
  books (drop i keys ++ queue) lost acc undo (set_requests ∅ d) ->
  does (notify_all keys (seq i n)) (d, p) (fun _ s => books queue lost acc undo (set_requests ∅ s.1) /\ s.2 = p).
Proof using Hwidth.
  induction n as [|n IH]; intros i d Hn Hb; cbn [seq notify_all].
  - rewrite drop_ge in Hb by lia. by apply does_ret.
  - destruct (keys !! i) as [t|] eqn:Ht; [|apply lookup_ge_None in Ht; lia].
    apply does_bind, does_lift, does_bind, does_bind, does_modify, does_modify, IH; [lia|].
    rewrite (drop_S keys t i Ht) in Hb. apply (books_answer _ (inl ClientShutdown)) in Hb. destruct Hb. by split.
Qed.

Lemma order_toks m : request_order m ≡ₚ toks m.
Proof using Hrequests.
  destruct (Hrequests m) as [Hnd Hin]. apply NoDup_Permutation; [done|apply NoDup_fst_map_to_list|].
  intros t. by rewrite Hin, elem_of_toks.
Qed.

Lemma inv_shutdown hole cl queue lost acc undo d p :
  client_inv hole cl queue lost acc undo (d, p) ->
  does (client_shutdown request_order) (d, p) (fun _ s =>
    books queue lost acc undo s.1 /\ active_requests s.1 = ∅ /\ is_down s.2 = true).
Proof using Hwidth Hrequests.
  intros ([Hp Hn Hc Hcap Hu] & _). apply does_bind, does_self, does_bind.
  rewrite <- length_toks, <- (Permutation_length (order_toks _)).
  eapply does_impl; [apply (notify_all_books _ _ queue lost acc undo); [done|]|].
  - rewrite drop_0. split; cbn in *; [|done|..|done]; rewrite ?length_app, ?map_size_empty, ?(Permutation_length (order_toks _)), ?length_toks;
      [|lia..]. rewrite <- Hp, order_toks. cbn. change (toks ∅) with (@nil ClientToken). solve_Permutation.
  - intros [] [d2 p2] [Hb _]. apply does_bind, does_modify. exists (). eexists. split; [done|]. split; [done|]. split; [done|].
    by apply shutdown_ok.
Qed.

(** ** The client, its channel and the event loop *)

(** Where [TrackerClient::request] is: it has counted itself in and has its
    message to send, or it has been refused and has to count itself out. *)
Inductive Requesting : Type :=
| Idle
| Sending (addr : SocketAddr) (token : ClientToken) (request : ClientRequest)
| Refused.

(** [accepted] and [lost] are ghosts: the tokens handed out by [request], and
    those forgotten. *)
Record Client : Type := mk_Client {
  disp : ClientDispatcher;
  eloop : provider DispatchTimeout;
  channel : list DispatchMessage;
  requesting : Requesting;
  dropped : bool;
  crashed : bool;
  accepted : list ClientToken;
  lost : list ClientToken;
}.

(** [TrackerClient::with_capacity]: the start message is the first. *)
Definition client_start (d : ClientDispatcher) (p : provider DispatchTimeout) : Client :=
  mk_Client d p [DispatchStartTimer] Idle false false [] [].

Definition run_handler (c : Client) (m : dispatch ()) (p : provider DispatchTimeout) (msgs : list DispatchMessage)
    (forgot : list ClientToken) : Client :=
  let '(o, (d, p)) := m (disp c, p) in
  mk_Client d p msgs (requesting c) (dropped c) (crashed c || negb (is_ok o)) (accepted c) (forgot ++ lost c).

Inductive client_step : Client -> Client -> Prop :=
| step_accept c addr t req d :
    dropped c = false -> requesting c = Idle -> (t ∉ accepted c) -> can_initiate (Z.of_nat capacity) (disp c) = (true, d) ->
    client_step c (mk_Client d (eloop c) (channel c) (Sending addr t req) false (crashed c) (accepted c ++ [t]) (lost c))
| step_send c addr t req :
    requesting c = Sending addr t req ->
    client_step c (mk_Client (disp c) (eloop c) (channel c ++ [DispatchRequest addr t req]) Idle (dropped c) (crashed c)
      (accepted c) (lost c))
| step_refuse c d :
    dropped c = false -> requesting c = Idle -> can_initiate (Z.of_nat capacity) (disp c) = (false, d) ->
    client_step c (mk_Client d (eloop c) (channel c) Refused false (crashed c) (accepted c) (lost c))
| step_take_back c :
    requesting c = Refused ->
    client_step c (mk_Client (acknowledge (disp c)) (eloop c) (channel c) Idle (dropped c) (crashed c) (accepted c) (lost c))
| step_drop c :
    dropped c = false -> requesting c = Idle ->
    client_step c (mk_Client (disp c) (eloop c) (channel c ++ [DispatchShutdown]) Idle true (crashed c) (accepted c) (lost c))
| step_notify c m msgs now rnd :
    is_down (eloop c) = false -> channel c = m :: msgs ->
    client_step c (run_handler c (client_notify request_order cache_order option_order now rnd m) (eloop c) msgs [])
| step_incoming c now rnd message addr :
    is_down (eloop c) = false ->
    client_step c (run_handler c (client_incoming option_order now rnd message addr) (eloop c) (channel c)
      (forgets (disp c) message addr))
| step_timeout c h t p now rnd :
    is_down (eloop c) = false -> fired (eloop c) h t p ->
    client_step c (run_handler c (client_timeout cache_order option_order now rnd t) p (channel c) []).

Definition message_token (m : DispatchMessage) : option ClientToken :=
  match m with DispatchRequest _ t _ => Some t | _ => None end.
Definition sending_token (r : Requesting) : list ClientToken := match r with Sending _ t _ => [t] | _ => [] end.
Definition queued (c : Client) : list ClientToken := omap message_token (channel c) ++ sending_token (requesting c).
Definition refusals (c : Client) : nat := match requesting c with Refused => 1 | _ => 0 end.

(** The channel holds the start message while there is no clean-up timer, then
    requests, then the shutdown message once the client is dropped. *)
Definition channel_ok (cl : nat) (c : Client) : Prop :=
  exists reqs, channel c = (if decide (cl = 0) then [DispatchStartTimer] else []) ++ reqs ++ (if dropped c then [DispatchShutdown] else []) /\
    Forall (fun m => is_Some (message_token m)) reqs.

Definition client_ok (c : Client) : Prop :=
  crashed c = false /\ (dropped c = true -> requesting c = Idle) /\
  ((exists cl, client_inv None cl (queued c) (lost c) (accepted c) (refusals c) (disp c, eloop c) /\ channel_ok cl c) \/
   (books (queued c) (lost c) (accepted c) (refusals c) (disp c) /\ active_requests (disp c) = ∅ /\
    is_down (eloop c) = true /\ dropped c = true /\ channel c = [])).

Lemma run_handler_does c m p msgs forgot P : does m (disp c, p) (fun _ => P) ->
  exists d p', P (d, p') /\ run_handler c m p msgs forgot =
    mk_Client d p' msgs (requesting c) (dropped c) (crashed c || false) (accepted c) (forgot ++ lost c).
Proof. intros ([] & [d p'] & Hm & HP). exists d, p'. split; [done|]. unfold run_handler. by rewrite Hm. Qed.

Lemma books_accept t queue lost acc d d' : books queue lost acc 0 d -> (t ∉ acc) ->
  can_initiate (Z.of_nat capacity) d = (true, d') -> books (queue ++ [t]) lost (acc ++ [t]) 0 d'.
Proof using Hwidth.
  intros [Hp Hn Hc Hcap Hu] Ht [= Hb <-]. apply bool_decide_eq_true in Hb.
  split; cbn; rewrite ?length_app; cbn [length]; [| |rewrite as_unsigned_id; unfold in_unsigned; lia|lia..].
  - rewrite <- Hp. solve_Permutation.
  - apply NoDup_app. split_and!; [done| |apply NoDup_singleton]. intros x Hx ->%list_elem_of_singleton. done.
Qed.

Lemma books_refuse queue lost acc d b d' : books queue lost acc 0 d -> can_initiate (Z.of_nat capacity) d = (b, d') ->
  books queue lost acc 1 d'.
Proof using Hwidth.
  intros [Hp Hn Hc Hcap Hu] [= _ <-]. split; cbn; [done..| |done|done]. rewrite as_unsigned_id; unfold in_unsigned; lia.
Qed.

Lemma books_take_back queue lost acc d : books queue lost acc 1 d -> books queue lost acc 0 (acknowledge d).
Proof using Hwidth.
  intros [Hp Hn Hc Hcap Hu]. split; cbn; [done..| |done|lia]. rewrite as_unsigned_id; unfold in_unsigned; lia.
Qed.

Lemma notify_ok c m msgs now rnd cl : crashed c = false -> (dropped c = true -> requesting c = Idle) -> channel c = m :: msgs ->
  client_inv None cl (queued c) (lost c) (accepted c) (refusals c) (disp c, eloop c) -> channel_ok cl c ->
  client_ok (run_handler c (client_notify request_order cache_order option_order now rnd m) (eloop c) msgs []).
Proof using Hwidth Hcache Hrequests.
  intros Hcr Hdr Hm Hi (reqs & Hch & Hreqs). rewrite Hm in Hch. unfold queued in Hi. rewrite Hm in Hi.
  assert (cl <= 1) as Hcl by (destruct Hi as (_ & _ & tm & Ht); apply Ht). case_decide as H0.
  { subst cl. injection Hch as -> Hms.
    destruct (run_handler_does c (client_notify request_order cache_order option_order now rnd DispatchStartTimer) (eloop c) msgs [] _
      (inv_cleanup now rnd _ _ _ _ _ _ Hi)) as (d & p & Hi' & ->).
    split_and!; [by rewrite Hcr|done|]. left. exists 1. split; [done|]. by exists reqs. }
  destruct reqs as [|r reqs]; cbn in Hch.
  - destruct (dropped c) eqn:Hd; [|done]. injection Hch as -> ->.
    destruct (run_handler_does c (client_notify request_order cache_order option_order now rnd DispatchShutdown) (eloop c) [] [] _
      (inv_shutdown _ _ _ _ _ _ _ _ Hi)) as (d & p & (Hb & Ha & Hdn) & ->).
    split_and!; [by cbn; rewrite Hcr|by cbn; auto|]. right. by cbn.
  - injection Hch as <- ->. apply Forall_cons in Hreqs as [[t Ht] Hreqs]. destruct m as [addr t' req| |]; simplify_eq. cbn in Ht, Hi. simplify_eq.
    destruct (run_handler_does c (client_notify request_order cache_order option_order now rnd (DispatchRequest addr t req)) (eloop c)
      (reqs ++ (if dropped c then [DispatchShutdown] else [])) [] _ (inv_send_request now rnd addr t req _ _ _ _ _ _ _ Hi)) as (d & p & Hi' & ->).
    split_and!; [by rewrite Hcr|done|]. left. exists cl. split; [done|]. exists reqs. cbn. by rewrite decide_False.
Qed.

Lemma timeout_ok c h t p now rnd cl : crashed c = false -> (dropped c = true -> requesting c = Idle) -> fired (eloop c) h t p ->
  client_inv None cl (queued c) (lost c) (accepted c) (refusals c) (disp c, eloop c) -> channel_ok cl c ->
  client_ok (run_handler c (client_timeout cache_order option_order now rnd t) p (channel c) []).
Proof using Hwidth Hcache.
  intros Hcr Hdr Hf (Hb & Hup & tm & Ht) Hch. assert (is_down p = false) as Hp by (cbn in Hup; destruct Hf as (_ & _ & _ & _ & ?); congruence).
  destruct t as [t|].
  - destruct (timers_fire_connect _ _ _ _ _ _ _ _ Ht Hf) as [_ Ht'].
    destruct (run_handler_does c (client_timeout cache_order option_order now rnd (TimeoutConnect t)) p (channel c) [] _
      (inv_process now rnd t true cl _ _ _ _ (disp c) p (conj Hb (conj Hp (ex_intro _ _ Ht'))))) as (d & p' & Hi' & ->).
    split_and!; [by rewrite Hcr|done|]. left. by exists cl.
  - destruct (timers_fire_clean _ _ _ _ _ _ _ Ht Hf) as [-> Ht'].
    destruct (run_handler_does c (client_timeout cache_order option_order now rnd TimeoutCleanUp) p (channel c) [] _
      (inv_cleanup now rnd _ _ _ _ (disp c) p (conj Hb (conj Hp (ex_intro _ _ Ht'))))) as (d & p' & Hi' & ->).
    split_and!; [by rewrite Hcr|done|]. left. by exists 1.
Qed.

Lemma step_client_ok c c' : client_ok c -> client_step c c' -> client_ok c'.
Proof using Hwidth Hcache Hrequests NS.
  intros (Hcr & Hdr & Hok) Hs.
  destruct Hok as [(cl & Hi & reqs & Hch & Hreqs)|(Hb & Ha & Hdn & Hd & Hch)].
  2: { specialize (Hdr Hd). by destruct Hs; congruence. }
  destruct Hs as [c addr t req d Hd Hr Ht Hcan|c addr t req Hr|c d Hd Hr Hcan|c Hr|c Hd Hr
    |c m msgs now rnd Hup Hm|c now rnd message addr Hup|c h t p now rnd Hup Hf];
    unfold queued, refusals in *; try rewrite Hr in *; cbn [sending_token] in *.
  - destruct Hi as (Hb & Hi). split_and!; [done..|]. left. exists cl. rewrite Hd in Hch. split; [|by exists reqs].
    split; [|by injection Hcan as _ <-]. unfold queued, refusals; cbn. rewrite app_nil_r in Hb. by eapply books_accept.
  - split_and!; [done..|]. left. exists cl. unfold queued, refusals; cbn. rewrite omap_app; cbn. rewrite app_nil_r. split; [done|].
    destruct (dropped c) eqn:Hd; [by specialize (Hdr eq_refl)|]. exists (reqs ++ [DispatchRequest addr t req]).
    cbn. rewrite Hch, !app_nil_r. split; [by rewrite app_assoc|]. apply Forall_app. split; [done|]. by repeat constructor; eexists.
  - destruct Hi as (Hb & Hi). split_and!; [done..|]. left. exists cl. rewrite Hd in Hch. split; [|by exists reqs].
    split; [|by injection Hcan as _ <-]. unfold queued, refusals; cbn. by eapply books_refuse.
  - destruct Hi as (Hb & Hi). split_and!; [done..|]. left. exists cl. split; [|by exists reqs].
    split; [|done]. unfold queued, refusals; cbn. by apply books_take_back.
  - split_and!; [done..|]. left. exists cl. unfold queued, refusals; cbn. rewrite omap_app; cbn. rewrite app_nil_r.
    split; [done|]. exists reqs. cbn. rewrite Hch, Hd, app_nil_r. by rewrite app_assoc.
  - eapply notify_ok; [done..|]. by exists reqs.
  - destruct (run_handler_does c (client_incoming option_order now rnd message addr) (eloop c) (channel c)
      (forgets (disp c) message addr) _ (inv_incoming now rnd message addr _ _ _ _ _ _ _ Hi)) as (d & p & Hi' & ->).
    split_and!; [by rewrite Hcr|done|]. left. exists cl. split; [done|]. by exists reqs.
  - eapply timeout_ok; [done..|]. by exists reqs.
Qed.

Lemma client_start_ok peer_id port bind p : is_down p = false -> (forall h, timer p h = None) -> free p = capacity + 2 ->
  client_ok (client_start (ClientDispatcher_new peer_id port bind) p).
Proof.
  intros Hup Ht Hf. split_and!; [done..|]. left. exists 0. split; [|by exists []]. split_and!; [|done|].
  - split; [done|apply NoDup_nil_2|done|apply Nat.le_0_l|apply Nat.le_0_l].
  - exists ∅. split.
    + intros t h. rewrite Ht. split; [intros [? [=]]|done].
    + done.
    + done.
    + intros t [? [=]].
    + intros _ h d. by rewrite Ht.
    + intros h h' d d'. by rewrite Ht.
    + lia.
    + rewrite map_size_empty. cbn [snd client_start eloop]. rewrite Hf. lia.
Qed.

(** C2. Every request of a tracker client is accounted for.  Whatever the client, the
    trackers, the clock and the timers do, and however their steps interleave:
    no handler of the dispatcher panics (a free timer is always left); every
    accepted request is exactly one of answered, queued, active or lost to a
    response from a foreign address, so no token is answered twice; the shared
    counter is the number of outstanding requests, which never exceeds the
    capacity; and after the shutdown every accepted request that was not lost
    has been answered. *)
Theorem client_answers_once peer_id port bind (p : provider DispatchTimeout) (c : Client) :
  is_down p = false -> (forall h, timer p h = None) -> free p = capacity + 2 ->
  rtc client_step (client_start (ClientDispatcher_new peer_id port bind) p) c ->
  let outstanding := length (queued c) + size (active_requests (disp c)) + length (lost c) in
  crashed c = false /\ NoDup (accepted c) /\
  answered (disp c) ++ queued c ++ toks (active_requests (disp c)) ++ lost c ≡ₚ accepted c /\
  active (disp c) = Z.of_nat (outstanding + refusals c) /\ outstanding <= capacity /\
  (is_down (eloop c) = true -> answered (disp c) ++ lost c ≡ₚ accepted c).
Proof using Hwidth Hcache Hrequests NS.
  intros Hup Ht Hf Hs.
  assert (client_ok c) as (Hcr & Hdr & Hc).
  { pose proof (client_start_ok peer_id port bind p Hup Ht Hf) as Hok. induction Hs; [done|]. eauto using step_client_ok. }
  assert (books (queued c) (lost c) (accepted c) (refusals c) (disp c)) as [Hp Hn Hcount Hcap Hu]
    by (destruct Hc as [(cl & Hi & _)|(Hb & _)]; [apply Hi|done]).
  split_and!; [done..|]. intros Hdn. destruct Hc as [(cl & Hi & _)|(_ & Ha & _ & Hd & Hch)].
  - destruct Hi as (_ & Hi & _). cbn in Hi. congruence.
  - unfold queued in Hp. rewrite Hch, (Hdr Hd), Ha in Hp. exact Hp.
Qed.

End bookkeeping.

Definition sample_addr : SocketAddr := SockV4 (mk_SocketAddrV4 (mk_Ipv4Addr x7f x00 x00 x01) 6969).

(** A run on the reference instances: a request is accepted, then the client is
    dropped. *)
Section sample.
#[local] Instance sample_U : Umio DispatchTimeout := umio_ref DispatchTimeout 1500.
#[local] Instance sample_US : UmioSpec DispatchTimeout := umio_ref_spec DispatchTimeout 1500.
#[local] Instance sample_N : Nom := nom_ref.
#[local] Instance sample_WE : WriteBytesExt Cursor WriteError := WriteBytes_ref.
#[local] Instance sample_C : Chrono := Chrono_Z.

Definition sample_start : Client :=
  client_start (ClientDispatcher_new sample_hash 6881 sample_addr) (mk_Loop (T := DispatchTimeout) [] ∅ 6 false).

Lemma sample_run : exists c, rtc (client_step map_keys map_keys map_keys 4) sample_start c /\
  is_down (eloop c) = true /\ accepted c = [7%Z].
Proof.
  assert (forall c (m : DispatchMessage) msgs, is_down (eloop c) = false -> channel c = m :: msgs ->
    client_step map_keys map_keys map_keys 4 c
      (run_handler c (client_notify map_keys map_keys map_keys 0%Z 0%Z m) (eloop c) msgs [])) as Hn
    by (intros; by apply step_notify).
  eexists. split.
  { eapply rtc_l; [eapply (step_accept _ _ _ _ _ sample_addr 7%Z (ClientScrape sample_hash)); [reflexivity..|apply not_elem_of_nil|reflexivity]|].
    eapply rtc_l; [eapply step_send; reflexivity|].
    eapply rtc_l; [eapply step_drop; reflexivity|].
    eapply rtc_l; [eapply Hn; [vm_compute; reflexivity|reflexivity]|].
    eapply rtc_l; [eapply Hn; [vm_compute; reflexivity|reflexivity]|].
    eapply rtc_l; [eapply Hn; [vm_compute; reflexivity|reflexivity]|].
    apply rtc_refl. }
  split; vm_compute; reflexivity.
Qed.

Lemma client_answers_once_witness : exists c, rtc (client_step map_keys map_keys map_keys 4) sample_start c /\
  answered (disp c) ++ lost c ≡ₚ [7%Z].
Proof.
  destruct sample_run as (c & Hr & Hd & Ha). exists c. split; [exact Hr|]. rewrite <- Ha.
  refine (proj2 (proj2 (proj2 (proj2 (proj2 (client_answers_once (NS := nom_ref_spec) map_keys map_keys map_keys 4 map_keys_visits_all map_keys_visits_all
    _ sample_hash 6881 sample_addr (mk_Loop (T := DispatchTimeout) [] ∅ 6 false) c _ _ _ Hr))))) Hd); [lia|reflexivity|intros h; reflexivity|reflexivity].
Defined.
End sample.
