(* ===== verification/UtClientRuns.v ===== *)
(** * Exchanges of the tracker client

    What one request sends and sets on the event loop, the exchange of an
    announce, and the retransmissions of a request nobody answers. *)

From stdpp Require Import prelude list gmap strings relations.
From Stdlib Require Import ZArith Lia Strings.Byte.
From S2P Require Import Prelude Bytes DecStr Convert Sha Node Nom WriteBytes UtContact UtOption UtAnnounce UtScrape UtMessage HsMessage Umio UtClient UtClientProofs.

Section runs.
Context {U : Umio DispatchTimeout} {US : UmioSpec DispatchTimeout} {N : Nom} {NS : NomSpec N}.
Context {WE : WriteBytesExt Cursor WriteError} {WS : WriteBytesSpec Cursor WriteError} {C : Chrono} {CL : ChronoLaws}.
Context (cache_order : gmap SocketAddr (Z * DateTime) -> list SocketAddr).
Context (option_order : gmap byte bytes -> list byte).
Hypothesis Hoptions : visits_all option_order.

Definition packet (r : TrackerRequest) : bytes := request_bytes option_order r ++ request_tail r.

Definition implied (addr : SocketAddr) : SourceIP := match addr with SockV4 _ => ImpliedV4 | SockV6 _ => ImpliedV6 end.

(** The message for a request: the request itself under a known connection id,
    a connect message otherwise. *)
Definition next_message (d : ClientDispatcher) (id : option Z) (rnd : Z) (t : ClientToken) (ct : ConnectTimer) : TrackerRequest :=
  match id, timer_request ct with
  | Some id, ClientAnnounce hash state =>
      TrackerRequest_new id t (ReqAnnounce
        (AnnounceRequest_new hash (pid d) state (implied (timer_addr ct)) rnd DesiredDefault (port d) AnnounceOptions_new))
  | Some id, ClientScrape hash => TrackerRequest_new id t (ReqScrape (ScrapeRequest_insert ScrapeRequest_new hash))
  | None, _ => TrackerRequest_new CONNECT_ID_PROTOCOL_ID t ReqConnect
  end.

Definition request_hash (r : ClientRequest) : ShaHash := match r with ClientAnnounce hash _ | ClientScrape hash => hash end.

Lemma packet_length d id rnd t ct : sha_wf (pid d) -> sha_wf (request_hash (timer_request ct)) ->
  length (packet (next_message d id rnd t ct)) <= 256.
Proof.
  intros Hp Hh. unfold packet, next_message, request_bytes. destruct id as [id|]; [|vm_compute; lia].
  assert (options_bytes option_order AnnounceOptions_new = []) as Ho.
  { unfold options_bytes. cbn. destruct (Hoptions ∅) as [_ Hin]. destruct (option_order ∅) as [|k l]; [done|].
    destruct (proj1 (Hin k)) as [? [=]]. left. }
  unfold sha_wf in *. destruct (timer_request ct) as [hash st|hash]; cbn [request_type connection_id req_transaction_id request_hash] in *;
    rewrite !length_app, !length_be_bytes.
  - unfold announce_bytes, announce_head, state_bytes. cbn [req_info_hash req_peer_id req_state source_ip req_key num_want req_port req_options].
    rewrite Ho, !length_app, Hp, Hh, !length_be_bytes. destruct (timer_addr ct); cbn; lia.
  - cbn [ScrapeRequest_insert ScrapeRequest_new hashes]. rewrite length_app, Hh. cbn. lia.
Qed.

Lemma cursor_fits buf n : fits (Cursor_new buf) n <-> n <= length buf.
Proof. unfold fits. cbn. lia. Qed.

Lemma send_packet_sends r addr d p : length (packet r) <= buffer_length ->
  exists p', send_packet option_order r addr (d, p) = (Ok true, (d, p')) /\ sent p' = sent p ++ [(packet r, addr)] /\
    (forall h, timer p' h = timer p h) /\ free p' = free p /\ is_down p' = is_down p.
Proof.
  intros Hl. unfold send_packet. cbn [fst snd].
  lazymatch goal with |- context [outgoing ?f p] => destruct (outgoing_spec f p) as (buf & p' & Hb & -> & Hs & Ht & Hf & Hd) end.
  assert (writer_wf (Cursor_new buf)) as Hw by (cbn; lia).
  destruct (writes_request option_order r (Cursor_new buf) Hw) as ((w & He & _ & Hwr & _) & _ & _).
  { rewrite cursor_fits, Hb. unfold packet in Hl. by rewrite length_app in Hl. }
  rewrite He in *. cbn in Hs, Hwr. exists p'. split_and!; try done. by rewrite Hs, Hwr.
Qed.

Lemma process_sends now rnd t b ct ct' dur id c d p :
  active_requests d !! t = Some ct -> current_timeout ct b = (Some dur, ct') ->
  cache_get now (id_cache d) (timer_addr ct) = (id, c) ->
  length (packet (next_message d id rnd t ct)) <= buffer_length -> 0 < free p ->
  exists h p', client_process_request option_order now rnd t b (d, p) =
      (Ok (), (set_requests (<[t := set_timeout_id ct' h]> (delete t (active_requests d))) (set_cache c d), p')) /\
    sent p' = sent p ++ [(packet (next_message d id rnd t ct), timer_addr ct)] /\ timer p h = None /\
    (forall h', timer p' h' = if decide (h' = h) then Some (TimeoutConnect t, dur) else timer p h') /\
    S (free p') = free p /\ is_down p' = is_down p.
Proof.
  intros Ha Hc Hg Hl Hf.
  assert (timer_addr ct' = timer_addr ct /\ timer_request ct' = timer_request ct) as [Haddr Hreq].
  { unfold current_timeout in Hc. case_decide; [done|]. by injection Hc as _ <-. }
  destruct (send_packet_sends (next_message d id rnd t ct) (timer_addr ct)
    (set_cache c (set_requests (delete t (active_requests d)) d)) p Hl) as (p1 & He & Hs & Ht & Hf1 & Hd1).
  destruct (set_timeout_ok (TimeoutConnect t) dur p1) as (h & p2 & He2 & Hh & Ht2 & Hf2 & Hs2 & Hd2); [lia|].
  exists h, p2. split.
  - unfold client_process_request. etransitivity; [eapply stM_bind_ok; reflexivity|]. cbn [fst snd]. rewrite Ha.
    etransitivity; [eapply stM_bind_ok; reflexivity|]. cbn [fst snd]. rewrite Hc. cbv zeta. rewrite Haddr, Hreq, Hg.
    etransitivity; [eapply stM_bind_ok; reflexivity|]. cbn [fst snd].
    assert (forall X (k : Z -> RequestType -> X), (let '(conn_id, request_type) :=
       match id, timer_request ct with
       | Some id, ClientAnnounce hash state => (id, ReqAnnounce (AnnounceRequest_new hash (pid d) state
            (match timer_addr ct with SockV4 _ => ImpliedV4 | SockV6 _ => ImpliedV6 end) rnd DesiredDefault (port d) AnnounceOptions_new))
       | Some id, ClientScrape hash => (id, ReqScrape (ScrapeRequest_insert ScrapeRequest_new hash))
       | None, _ => (CONNECT_ID_PROTOCOL_ID, ReqConnect)
       end in k conn_id request_type) =
       k (connection_id (next_message d id rnd t ct)) (request_type (next_message d id rnd t ct))) as Hm
      by (intros X k; unfold next_message; by destruct id, (timer_request ct)).
    rewrite Hm.
    assert (TrackerRequest_new (connection_id (next_message d id rnd t ct)) t (request_type (next_message d id rnd t ct)) =
      next_message d id rnd t ct) as -> by (unfold next_message; by destruct id, (timer_request ct)).
    etransitivity; [eapply stM_bind_ok; exact He|]. cbn beta iota.
    etransitivity; [eapply stM_bind_ok; unfold start_timeout; cbn [fst snd]; by rewrite He2|]. done.
  - rewrite Hs2, Hs, <- Ht, Hf2, Hd2. split_and!; try done. intros h'. by rewrite Ht2, Ht.
Qed.

(** ** Retransmission *)

(** Request [t] was sent [n + 1] times and waits on one timer. *)
Definition waiting (t : ClientToken) (addr : SocketAddr) (req : ClientRequest) (n : nat)
    (s : ClientDispatcher * provider DispatchTimeout) : Prop :=
  exists h, active_requests s.1 !! t = Some (mk_ConnectTimer addr (Z.of_nat n) req (Some h)) /\
    timer s.2 h = Some (TimeoutConnect t, (15000 * 2 ^ Z.of_nat n)%Z) /\
    forall h' x, timer s.2 h' = Some (TimeoutConnect t, x) -> h' = h.

(** [n] timeouts of [t] in a row, with no other event. *)
Inductive silent (t : ClientToken) (s0 : ClientDispatcher * provider DispatchTimeout) : nat -> ClientDispatcher * provider DispatchTimeout -> Prop :=
| silent_0 : silent t s0 0 s0
| silent_S n d p h p' now rnd s : silent t s0 n (d, p) -> fired p h (TimeoutConnect t) p' ->
    client_timeout cache_order option_order now rnd (TimeoutConnect t) (d, p') = (Ok (), s) -> silent t s0 (S n) s.

Lemma message_timeout n : n <= 8 -> calculate_message_timeout_millis (Z.of_nat n) = (15000 * 2 ^ Z.of_nat n)%Z.
Proof. intros Hn. do 9 (destruct n as [|n]; [reflexivity|]). lia. Qed.

Lemma fired_gone {p : provider DispatchTimeout} {h t p'} :
  fired p h (TimeoutConnect t) p' -> (forall h' x, timer p h' = Some (TimeoutConnect t, x) -> h' = h) ->
  0 < free p' /\ forall h' x, timer p' h' <> Some (TimeoutConnect t, x).
Proof.
  intros (_ & Ht & Hf & _) Hu. split; [lia|]. intros h' x. rewrite Ht. case_decide as Hh; [done|]. intros Hx. by apply Hh, (Hu h' x).
Qed.

(** One more transmission. *)
Lemma process_waits now rnd t (b : bool) addr req n n' o d p s :
  256 <= buffer_length -> sha_wf (pid d) -> sha_wf (request_hash req) -> 0 < free p ->
  (forall h x, timer p h <> Some (TimeoutConnect t, x)) -> n' <= 8 -> n < 8 -> (if b then n' = S n else n' = n) ->
  active_requests d !! t = Some (mk_ConnectTimer addr (Z.of_nat n) req o) ->
  client_process_request option_order now rnd t b (d, p) = (Ok (), s) ->
  waiting t addr req n' s /\ handshaker s.1 = handshaker d /\ pid s.1 = pid d /\
  exists pkt, sent s.2 = sent p ++ [(pkt, addr)].
Proof using Hoptions WS.
  intros Hbuf Hpid Hhash Hf Hno Hn' Hn Hb Ha He. set (ct := mk_ConnectTimer addr (Z.of_nat n) req o) in *.
  assert (current_timeout ct b = (Some (15000 * 2 ^ Z.of_nat n')%Z, mk_ConnectTimer addr (Z.of_nat n') req o)) as Hc.
  { unfold current_timeout. rewrite decide_False by (cbn; unfold MAXIMUM_REQUEST_RETRANSMIT_ATTEMPTS; lia).
    cbn [attempt ct]. assert ((if b then Z.of_nat n + 1 else Z.of_nat n)%Z = Z.of_nat n') as -> by (destruct b; lia).
    by rewrite message_timeout. }
  destruct (cache_get now (id_cache d) (timer_addr ct)) as [id c] eqn:Hg.
  destruct (process_sends now rnd t b ct _ _ id c d p Ha Hc Hg) as (h & p' & Hp & Hs & Hh & Ht & _); [|done|].
  { etransitivity; [by apply packet_length|done]. }
  rewrite He in Hp. injection Hp as ->. cbn. split_and!; [|done..|by eexists].
  exists h. split_and!; cbn; [by rewrite lookup_insert_eq|by rewrite Ht, decide_True|].
  intros h' x. rewrite Ht. case_decide; [done|]. intros Hx. by destruct (Hno h' x).
Qed.

Lemma process_expires now rnd t addr req o d p s :
  active_requests d !! t = Some (mk_ConnectTimer addr 8 req o) ->
  client_process_request option_order now rnd t true (d, p) = (Ok (), s) ->
  active_requests s.1 = delete t (active_requests d) /\ s.2 = p /\
  handshaker s.1 = handshaker d ++ [inr (ClientMetadata_new t (inl MaxTimeout))].
Proof.
  intros Ha. unfold client_process_request, mbind, stM_bind, self_. cbn [fst snd]. rewrite Ha. cbn. by intros [= <-].
Qed.

Lemma process_returns now rnd t addr req n o d p :
  256 <= buffer_length -> sha_wf (pid d) -> sha_wf (request_hash req) -> 0 < free p ->
  active_requests d !! t = Some (mk_ConnectTimer addr n req o) ->
  exists s, client_process_request option_order now rnd t true (d, p) = (Ok (), s) /\ pid s.1 = pid d.
Proof using Hoptions WS.
  intros Hbuf Hpid Hhash Hf Ha. destruct (current_timeout (mk_ConnectTimer addr n req o) true) as [[dur|] ct'] eqn:Hc.
  - destruct (cache_get now (id_cache d) addr) as [id c] eqn:Hg.
    destruct (process_sends now rnd t true _ _ _ id c d p Ha Hc Hg) as (h & p' & -> & _); [|done|by eexists].
    by etransitivity; [apply packet_length|].
  - unfold client_process_request, mbind, stM_bind, self_. cbn [fst snd]. rewrite Ha. cbn [modify fst snd]. rewrite Hc. by eexists.
Qed.

Lemma send_request_waits now rnd addr t req d p :
  256 <= buffer_length -> sha_wf (pid d) -> sha_wf (request_hash req) -> 0 < free p ->
  (forall h x, timer p h <> Some (TimeoutConnect t, x)) -> same_version (bound_addr d) addr = true ->
  exists s, send_request option_order now rnd addr t req (d, p) = (Ok (), s) /\
    waiting t addr req 0 s /\ handshaker s.1 = handshaker d /\ pid s.1 = pid d /\ exists pkt, sent s.2 = sent p ++ [(pkt, addr)].
Proof using Hoptions WS.
  intros Hbuf Hpid Hhash Hf Hno Hv. set (d1 := set_requests (<[t := ConnectTimer_new addr req]> (active_requests d)) d).
  assert (active_requests d1 !! t = Some (mk_ConnectTimer addr (Z.of_nat 0) req None)) as Ha by apply lookup_insert_eq.
  destruct (cache_get now (id_cache d1) addr) as [id c] eqn:Hg.
  destruct (process_sends now rnd t false (ConnectTimer_new addr req) (ConnectTimer_new addr req) _ id c d1 p Ha eq_refl Hg)
    as (h & p' & Hp & _); [by etransitivity; [apply packet_length|]|done|].
  eexists. split.
  - unfold send_request. etransitivity; [eapply stM_bind_ok; reflexivity|]. cbn [fst snd]. rewrite Hv.
    etransitivity; [eapply stM_bind_ok; reflexivity|]. exact Hp.
  - by eapply (process_waits now rnd t false addr req 0 0 None d1 p); try done; lia.
Qed.

(** A request nobody answers is retransmitted and then given up: it is sent once
    at once and once more after each of the first eight timeouts, each packet to
    the tracker, with timeouts of 15 * 2^n seconds; the ninth timeout ends it with
    exactly one notification, of [MaxTimeout], and no timer of it is left. *)
Theorem request_gives_up now rnd addr t req d (p : provider DispatchTimeout) :
  256 <= buffer_length -> sha_wf (pid d) -> sha_wf (request_hash req) -> 0 < free p ->
  (forall h x, timer p h <> Some (TimeoutConnect t, x)) -> same_version (bound_addr d) addr = true ->
  exists s0, send_request option_order now rnd addr t req (d, p) = (Ok (), s0) /\
    forall n s, silent t s0 n s ->
      n <= 9 /\
      (exists pkts, sent s.2 = sent p ++ map (fun pkt => (pkt, addr)) pkts /\ length pkts = Nat.min (S n) 9) /\
      (n <= 8 -> waiting t addr req n s /\ handshaker s.1 = handshaker d) /\
      (n = 9 -> active_requests s.1 !! t = None /\ (forall h x, timer s.2 h <> Some (TimeoutConnect t, x)) /\
         handshaker s.1 = handshaker d ++ [inr (ClientMetadata_new t (inl MaxTimeout))]).
Proof using Hoptions WS.
  intros Hbuf Hpid Hhash Hf Hno Hv.
  destruct (send_request_waits now rnd addr t req d p Hbuf Hpid Hhash Hf Hno Hv) as (s0 & Hs0 & Hw0 & Hh0 & Hp0 & pkt0 & Hsent0).
  exists s0. split; [done|]. intros n s Hs.
  enough (n <= 9 /\ (exists pkts, sent s.2 = sent p ++ map (fun pkt => (pkt, addr)) pkts /\ length pkts = Nat.min (S n) 9) /\
    (n <= 8 -> waiting t addr req n s /\ handshaker s.1 = handshaker d /\ pid s.1 = pid d) /\
    (n = 9 -> active_requests s.1 !! t = None /\ (forall h x, timer s.2 h <> Some (TimeoutConnect t, x)) /\
       handshaker s.1 = handshaker d ++ [inr (ClientMetadata_new t (inl MaxTimeout))])) by naive_solver.
  induction Hs as [|n d1 p1 h p2 now1 rnd1 s Hs IH Hfire He].
  - split_and!; [lia|by exists [pkt0]|done|lia].
  - destruct IH as (Hn & (pkts & Hsent & Hlen) & Hwait & Hend). destruct (decide (n = 9)) as [->|Hn9].
    { destruct (Hend eq_refl) as (_ & Hnone & _). destruct Hfire as ([x Hx] & _). by destruct (Hnone h x). }
    destruct (Hwait ltac:(lia)) as ((h1 & Ha & Htim & Hu) & Hh & Hpd). cbn in *.
    assert (h = h1) as -> by (destruct Hfire as ([x Hx] & _); by eapply Hu).
    destruct (fired_gone Hfire Hu) as [Hf2 Hno2]. assert (sent p2 = sent p1) as Hs2 by apply Hfire.
    destruct (decide (n = 8)) as [->|Hn8].
    + destruct (process_expires now1 rnd1 t addr req _ _ _ _ Ha He) as (Ha' & Hp' & Hh'). rewrite Ha', Hp', Hh', Hs2, Hh.
      split_and!; [lia| |lia|]; [by exists pkts|]. intros _. split_and!; [apply lookup_delete_eq|done..].
    + destruct (process_waits now1 rnd1 t true addr req n (S n) _ d1 p2 s Hbuf ltac:(by rewrite Hpd) Hhash Hf2 Hno2 ltac:(lia) ltac:(lia) eq_refl Ha He)
        as (Hw & Hh' & Hpd' & pkt & Hsent'). split_and!; [lia| | |lia].
      * exists (pkts ++ [pkt]). rewrite Hsent', Hs2, Hsent, map_app, app_assoc. split; [done|]. rewrite length_app, Hlen. cbn. lia.
      * intros _. split_and!; [done|congruence..].
Qed.

(** ** An announce *)

Lemma forward_peers_hands hash addrs d p : exists d',
  forward_peers hash addrs (d, p) = (Ok (), (d', p)) /\ active_requests d' = active_requests d /\
  handshaker d' = handshaker d ++ map (fun addr => inl (InitiateMessage_new BitTorrent hash addr)) addrs.
Proof.
  revert d. induction addrs as [|a addrs IH]; intros d; [exists d; by rewrite app_nil_r|].
  destruct (IH (hand_over (inl (InitiateMessage_new BitTorrent hash a)) d)) as (d' & He & Ha & Hh).
  exists d'. split; [done|]. split; [done|]. rewrite Hh. cbn. by rewrite <- app_assoc.
Qed.

(** A response from the tracker's address: the request is taken out and its timer
    cleared before the response is looked at. *)
Lemma recv_matched now rnd addr rsp req n h d p :
  tracker_response_wf rsp -> active_requests d !! res_transaction_id rsp = Some (mk_ConnectTimer addr n req (Some h)) ->
  let t := res_transaction_id rsp in
  let d1 := set_requests (delete t (active_requests d)) d in
  let p1 := clear_timeout h p in
  client_incoming option_order now rnd (tracker_response_bytes rsp) addr (d, p) =
    match response_type rsp with
    | ResConnect id =>
        client_process_request option_order now rnd t false
          (set_requests (<[t := mk_ConnectTimer addr n req (Some h)]> (delete t (active_requests d)))
             (set_cache (cache_put now (id_cache d) addr id) d1), p1)
    | ResAnnounce res =>
        match req with
        | ClientAnnounce hash _ =>
            (addrs ← lift (drain CompactPeersIter_next (S (length (peers_bytes (res_peers res)))) (CompactPeers_iter (res_peers res)));
             _ ← forward_peers hash addrs; notify_client t (inr (AnnounceResult res))) (d1, p1)
        | ClientScrape _ => notify_client t (inl ServerError) (d1, p1)
        end
    | ResScrape res =>
        match req with
        | ClientAnnounce _ _ => notify_client t (inl ServerError) (d1, p1)
        | ClientScrape _ => notify_client t (inr (ScrapeResult res)) (d1, p1)
        end
    | ResError err => notify_client t (inl (ServerMessage err)) (d1, p1)
    end.
Proof using NS.
  intros Hwf Ha. cbv zeta. unfold client_incoming. rewrite tracker_response_parse by done.
  unfold recv_response. etransitivity; [eapply stM_bind_ok; reflexivity|]. cbn [fst snd]. rewrite Ha.
  etransitivity; [eapply stM_bind_ok; reflexivity|]. cbn [timer_addr]. rewrite decide_True by done.
  etransitivity; [eapply stM_bind_ok; reflexivity|].
  etransitivity; [eapply stM_bind_ok; reflexivity|]. cbn [fst snd timer_request].
  by destruct (response_type rsp), req.
Qed.

(** C16. An announce to a tracker the client does not know yet: the request goes out
    as a connect message; the tracker's connect response is answered with the
    announce itself, under the connection id received, with the client's peer id
    and port; the tracker's announce response hands every peer of its list to the
    handshaker, in order, then the response to the client, and leaves neither the
    request nor its timer behind. *)
Theorem announce_exchange now now' now'' rnd rnd' rnd'' addr t hash state id res peers d (p : provider DispatchTimeout) :
  256 <= buffer_length -> sha_wf (pid d) -> sha_wf hash -> 0 < free p -> same_version (bound_addr d) addr = true ->
  id_cache d !! addr = None -> active_requests d !! t = None ->
  in_unsigned 32 t -> in_unsigned 64 id -> response_wf res -> peers_wf (res_peers res) peers ->
  let connect := TrackerRequest_new CONNECT_ID_PROTOCOL_ID t ReqConnect in
  let announce := TrackerRequest_new id t (ReqAnnounce
    (AnnounceRequest_new hash (pid d) state (implied addr) rnd' DesiredDefault (port d) AnnounceOptions_new)) in
  exists s1 s2 s3,
    send_request option_order now rnd addr t (ClientAnnounce hash state) (d, p) = (Ok (), s1) /\
    client_incoming option_order now' rnd' (tracker_response_bytes (TrackerResponse_new t (ResConnect id))) addr s1 = (Ok (), s2) /\
    client_incoming option_order now'' rnd'' (tracker_response_bytes (TrackerResponse_new t (ResAnnounce res))) addr s2 = (Ok (), s3) /\
    sent s3.2 = sent p ++ [(packet connect, addr); (packet announce, addr)] /\
    handshaker s3.1 = handshaker d ++ map (fun peer => inl (InitiateMessage_new BitTorrent hash peer)) peers ++
      [inr (ClientMetadata_new t (inr (AnnounceResult res)))] /\
    active_requests s3.1 !! t = None /\ (forall h, timer s3.2 h = timer p h) /\ free s3.2 = free p.
Proof using Hoptions WS NS CL.
  intros Hbuf Hpid Hhash Hf Hv Hid Hact Ht32 Hid64 Hres Hpeers connect announce.
  set (req := ClientAnnounce hash state) in *. set (ct0 := ConnectTimer_new addr req) in *.
  set (d0 := set_requests (<[t := ct0]> (active_requests d)) d).
  assert (cache_get now (id_cache d0) addr = (None, id_cache d)) as Hg0 by (unfold cache_get; change (id_cache d0) with (id_cache d); by rewrite Hid).
  destruct (process_sends now rnd t false ct0 ct0 _ None (id_cache d) d0 p (lookup_insert_eq _ _ _) eq_refl Hg0)
    as (h1 & p1 & He1 & Hs1 & Hh1 & Ht1 & Hf1 & _); [by etransitivity; [apply packet_length|]|done|].
  set (ct1 := set_timeout_id ct0 h1) in *.
  set (d1 := set_requests (<[t := ct1]> (delete t (active_requests d0))) (set_cache (id_cache d) d0)) in *.
  pose proof (Ht1 h1) as Hx1. rewrite decide_True in Hx1 by done.
  destruct (clear_timeout_ok h1 p1 _ Hx1) as (Htc & Hfc & Hsc & _).
  set (d2 := set_requests (<[t := ct1]> (delete t (active_requests d1)))
    (set_cache (cache_put now' (id_cache d1) addr id) (set_requests (delete t (active_requests d1)) d1))) in *.
  assert (cache_get now' (id_cache d2) addr = (Some id, id_cache d2)) as Hg2.
  { unfold cache_get. cbn. unfold cache_put, ConnectIdCache. rewrite lookup_insert_eq, never_expired; [done|]. rewrite dt_sub_refl. lia. }
  destruct (process_sends now' rnd' t false ct1 ct1 _ (Some id) (id_cache d2) d2 (clear_timeout h1 p1) (lookup_insert_eq _ _ _) eq_refl Hg2)
    as (h3 & p3 & He3 & Hs3 & Hh3 & Ht3 & Hf3 & _); [by etransitivity; [apply packet_length|]|lia|].
  set (d3 := set_requests _ (set_cache (id_cache d2) d2)) in He3.
  pose proof (Ht3 h3) as Hx3. rewrite decide_True in Hx3 by done.
  destruct (clear_timeout_ok h3 p3 _ Hx3) as (Htc3 & Hfc3 & Hsc3 & _).
  destruct (forward_peers_hands hash peers (set_requests (delete t (active_requests d3)) d3) (clear_timeout h3 p3)) as (d4 & He4 & Ha4 & Hh4).
  eexists (d1, p1), (d3, p3), _. split_and!.
  - unfold send_request. etransitivity; [eapply stM_bind_ok; reflexivity|]. cbn [fst snd]. rewrite Hv.
    etransitivity; [eapply stM_bind_ok; reflexivity|]. exact He1.
  - etransitivity; [apply (recv_matched now' rnd' addr (TrackerResponse_new t (ResConnect id)) req 0 h1 d1 p1)|exact He3]; [done|].
    apply lookup_insert_eq.
  - etransitivity; [apply (recv_matched now'' rnd'' addr (TrackerResponse_new t (ResAnnounce res)) req 0 h3 d3 p3)|]; [done|apply lookup_insert_eq|].
    cbn [response_type res_transaction_id]. rewrite (peers_drain_bytes _ _ Hpeers).
    etransitivity; [eapply stM_bind_ok; reflexivity|]. etransitivity; [eapply stM_bind_ok; exact He4|]. reflexivity.
  - cbn. rewrite Hsc3, Hs3, Hsc, Hs1, <- app_assoc. done.
  - cbn. rewrite Hh4. cbn. by rewrite <- app_assoc.
  - cbn. rewrite Ha4. apply lookup_delete_eq.
  - intros h. cbn [fst snd]. rewrite Htc3. case_decide as H3.
    + subst h. rewrite Htc in Hh3. case_decide as H1; [by subst|]. by rewrite Ht1, decide_False in Hh3.
    + rewrite Ht3, decide_False, Htc by done. case_decide as H1; [by subst|]. by rewrite Ht1, decide_False.
  - cbn. lia.
Qed.

(** ** Two slips *)

(** A response under the transaction id of a request, but from another address
    than the tracker's, ends the request without a word: it is no longer active,
    no one is notified, and the counter of the limiter stays where it was. *)
Theorem misaddressed_response_forgets now rnd addr rsp ct d (p : provider DispatchTimeout) :
  tracker_response_wf rsp -> active_requests d !! res_transaction_id rsp = Some ct -> timer_addr ct <> addr ->
  client_incoming option_order now rnd (tracker_response_bytes rsp) addr (d, p) =
    (Ok (), (set_requests (delete (res_transaction_id rsp) (active_requests d)) d, p)).
Proof using NS.
  intros Hwf Ha Haddr. unfold client_incoming. rewrite tracker_response_parse by done.
  unfold recv_response. etransitivity; [eapply stM_bind_ok; reflexivity|]. cbn [fst snd]. rewrite Ha.
  etransitivity; [eapply stM_bind_ok; reflexivity|]. by rewrite decide_False.
Qed.

(** A tracker that answers the last connect message of a request is not asked any
    more: the request ends with [MaxTimeout] although the tracker just answered. *)
Theorem late_connect_times_out now rnd addr t id req h d (p : provider DispatchTimeout) :
  in_unsigned 32 t -> in_unsigned 64 id ->
  active_requests d !! t = Some (mk_ConnectTimer addr MAXIMUM_REQUEST_RETRANSMIT_ATTEMPTS req (Some h)) ->
  exists s, client_incoming option_order now rnd (tracker_response_bytes (TrackerResponse_new t (ResConnect id))) addr (d, p) = (Ok (), s) /\
    handshaker s.1 = handshaker d ++ [inr (ClientMetadata_new t (inl MaxTimeout))] /\ s.2 = clear_timeout h p.
Proof using NS.
  intros Ht Hid Ha. eexists. split; [etransitivity; [by eapply recv_matched|]|].
  - cbn [response_type res_transaction_id]. unfold client_process_request. etransitivity; [eapply stM_bind_ok; reflexivity|].
    cbn [fst snd]. cbn [active_requests set_requests]. rewrite lookup_insert_eq. reflexivity.
  - done.
Qed.

End runs.

(** ** Instances of the properties *)

Section sample.
#[local] Existing Instances sample_U sample_US sample_N sample_WE sample_C.
#[local] Instance sample_NS : NomSpec sample_N := nom_ref_spec.
#[local] Instance sample_WS : WriteBytesSpec Cursor WriteError := WriteBytes_ref_spec.
#[local] Instance sample_CL : ChronoLaws := Chrono_Z_laws.

Definition sample_dispatcher : ClientDispatcher := ClientDispatcher_new sample_hash 6881 sample_addr.
Definition sample_loop : provider DispatchTimeout := mk_Loop (T := DispatchTimeout) [] ∅ 6 false.

Lemma fired_ref (p : provider DispatchTimeout) h t dur : timer p h = Some (t, dur) -> exists p', fired p h t p'.
Proof.
  intros Ht. exists (mk_Loop (T := DispatchTimeout) (loop_sent p) (delete h (loop_timers p)) (S (loop_free p)) (loop_down p)).
  split; [by exists dur|]. split; [|done]. intros h'. cbn. case_decide as Hh; [subst; by apply lookup_delete_eq|by apply lookup_delete_ne].
Qed.

(** A tracker at [sample_addr] that never answers: nine timeouts can fire. *)
Lemma request_gives_up_witness : exists s0,
  send_request map_keys (0%Z : DateTime) 5%Z sample_addr 7%Z (ClientScrape sample_hash) (sample_dispatcher, sample_loop) = (Ok (), s0) /\
  exists s, silent map_keys map_keys 7%Z s0 9 s /\
    handshaker s.1 = [inr (ClientMetadata_new 7%Z (inl MaxTimeout))] /\ length (sent s.2) = 9.
Proof.
  assert (256 <= buffer_length) as Hbuf by (apply Nat.leb_le; vm_compute; reflexivity).
  assert (forall h x, timer sample_loop h <> Some (TimeoutConnect 7%Z, x)) as Hno by (intros h x; discriminate).
  assert (0 < free sample_loop) as Hfree by (cbn; lia).
  destruct (request_gives_up (C := sample_C) map_keys map_keys map_keys_visits_all 0%Z 5%Z sample_addr 7%Z (ClientScrape sample_hash)
    sample_dispatcher sample_loop Hbuf eq_refl eq_refl Hfree Hno eq_refl) as (s0 & He & Hs).
  exists s0. split; [exact He|].
  assert (forall n, n <= 9 -> exists s, silent map_keys map_keys 7%Z s0 n s /\ pid s.1 = sample_hash) as Hrun.
  { induction n as [|n IH]; intros Hn.
    - destruct (send_request_waits (C := sample_C) map_keys map_keys_visits_all 0%Z 5%Z sample_addr 7%Z (ClientScrape sample_hash)
        sample_dispatcher sample_loop Hbuf eq_refl eq_refl Hfree Hno eq_refl) as (s0' & He' & _ & _ & Hpid & _).
      rewrite He in He'. injection He' as <-. exists s0. split; [constructor|exact Hpid].
    - destruct IH as ([d p] & Hsil & Hpid); [lia|]. destruct (Hs _ _ Hsil) as (_ & _ & [(h & Ha & Ht & _) _] & _); [lia|].
      destruct (fired_ref _ _ _ _ Ht) as [p' Hf]. cbn [fst snd] in *.
      assert (0 < free p') as Hfree' by (destruct Hf as (_ & _ & Hf & _); lia).
      destruct (process_returns (C := sample_C) map_keys map_keys_visits_all 0%Z 5%Z 7%Z sample_addr (ClientScrape sample_hash) _ _ d p' Hbuf
        ltac:(by rewrite Hpid) eq_refl Hfree' Ha) as (s & Hp & Hpid').
      exists s. split; [by eapply silent_S|congruence]. }
  destruct (Hrun 9 ltac:(lia)) as (s & Hsil & _). exists s. split; [done|].
  destruct (Hs _ _ Hsil) as (_ & (pkts & Hsent & Hlen) & _ & (_ & _ & Hh)); [done|]. split; [exact Hh|].
  rewrite Hsent, length_app, length_map, Hlen. reflexivity.
Defined.

Definition sample_response : AnnounceResponse :=
  AnnounceResponse_new 1800 1 1 (PeersV4 (v4_of [mk_SocketAddrV4 (mk_Ipv4Addr x01 x02 x03 x04) 5])).

Lemma announce_exchange_witness : exists s1 s2 s3,
  send_request map_keys (0%Z : DateTime) 5%Z sample_addr 7%Z (ClientAnnounce sample_hash (ClientState_new 1 2 3 EventStarted))
    (sample_dispatcher, sample_loop) = (Ok (), s1) /\
  client_incoming map_keys (1%Z : DateTime) 6%Z (tracker_response_bytes (TrackerResponse_new 7 (ResConnect 42))) sample_addr s1 = (Ok (), s2) /\
  client_incoming map_keys (2%Z : DateTime) 8%Z (tracker_response_bytes (TrackerResponse_new 7 (ResAnnounce sample_response))) sample_addr s2 = (Ok (), s3) /\
  handshaker s3.1 = [inl (InitiateMessage_new BitTorrent sample_hash (SockV4 (mk_SocketAddrV4 (mk_Ipv4Addr x01 x02 x03 x04) 5)));
    inr (ClientMetadata_new 7%Z (inr (AnnounceResult sample_response)))].
Proof.
  destruct (announce_exchange (C := sample_C) map_keys map_keys_visits_all 0%Z 1%Z 2%Z 5%Z 6%Z 8%Z sample_addr 7%Z sample_hash
    (ClientState_new 1 2 3 EventStarted) 42%Z sample_response [SockV4 (mk_SocketAddrV4 (mk_Ipv4Addr x01 x02 x03 x04) 5)] sample_dispatcher sample_loop)
    as (s1 & s2 & s3 & H1 & H2 & H3 & _ & Hh & _).
  1: apply Nat.leb_le; vm_compute; reflexivity.
  1-6: first [reflexivity|cbn; lia].
  1,2: split; [discriminate|reflexivity].
  - split_and!; [split; [discriminate|reflexivity]..|]. exists [SockV4 (mk_SocketAddrV4 (mk_Ipv4Addr x01 x02 x03 x04) 5)].
    eexists. split; [reflexivity|]. split; [|reflexivity]. repeat constructor; try discriminate.
  - eexists. split; [reflexivity|]. split; [|reflexivity]. repeat constructor; try discriminate.
  - exists s1, s2, s3. split_and!; [exact H1|exact H2|exact H3|exact Hh].
Defined.

End sample.
