(* ===== verification/PeerMessage.v ===== *)
(** * [bip_peer::message]: the standard messages of the peer wire protocol

    [message/standard.rs], [message/bits_ext/port.rs] and the headers of
    [message/mod.rs].  A [Bytes] is its contents.  The parsers of the messages
    ignore their [()] input, here the empty input.  A subtraction of [u32]s that
    would wrap panics, as with overflow checks. *)

From stdpp Require Import prelude list gmap strings.
From Stdlib Require Import ZArith Lia Strings.Byte.
From S2P Require Import Prelude Bytes Bencode BencodeAccess Nom WriteBytes.

(** ** Headers *)

Definition KEEP_ALIVE_MESSAGE_LEN : Z := 0.
Definition CHOKE_MESSAGE_LEN : Z := 1.
Definition UNCHOKE_MESSAGE_LEN : Z := 1.
Definition INTERESTED_MESSAGE_LEN : Z := 1.
Definition UNINTERESTED_MESSAGE_LEN : Z := 1.
Definition HAVE_MESSAGE_LEN : Z := 5.
Definition BASE_BITFIELD_MESSAGE_LEN : Z := 1.
Definition REQUEST_MESSAGE_LEN : Z := 13.
Definition BASE_PIECE_MESSAGE_LEN : Z := 9.
Definition CANCEL_MESSAGE_LEN : Z := 13.

Definition CHOKE_MESSAGE_ID : byte := x00.
Definition UNCHOKE_MESSAGE_ID : byte := x01.
Definition INTERESTED_MESSAGE_ID : byte := x02.
Definition UNINTERESTED_MESSAGE_ID : byte := x03.
Definition HAVE_MESSAGE_ID : byte := x04.
Definition BITFIELD_MESSAGE_ID : byte := x05.
Definition REQUEST_MESSAGE_ID : byte := x06.
Definition PIECE_MESSAGE_ID : byte := x07.
Definition CANCEL_MESSAGE_ID : byte := x08.

Definition MESSAGE_LENGTH_LEN_BYTES : nat := 4.
Definition MESSAGE_ID_LEN_BYTES : nat := 1.
Definition HEADER_LEN : nat := MESSAGE_LENGTH_LEN_BYTES + MESSAGE_ID_LEN_BYTES.

(** A [usize] has 64 bits; nothing is a panic. *)
Definition u32_to_usize (value : Z) : option nat :=
  if decide (as_unsigned 32 (as_unsigned 64 value) <> value) then None else Some (Z.to_nat value).

(** [io::Error]: the ones the messages make, beside those of a writer. *)
Class IoError (E : Type) : Type := {
  io_other : string -> E;
  io_convert : BencodeConvertErrorKind -> E;
  io_decode : BencodeParseErrorKind -> E;
}.

(** [throwaway_input!] *)
Definition throwaway_input {E A} (x : IResult E A) : IResult E A :=
  match x with
  | Done _ result => Done [] result
  | Error e => Error e
  | Incomplete i => Incomplete i
  | Panicked => Panicked
  | OutOfFuel => OutOfFuel
  end.

(** [bytes.split_off(at)] handed to a parser; it panics past the end. *)
Definition with_split_off {E A} (bs : bytes) (at_ : nat) (f : bytes -> bytes -> IResult E A) (i : bytes) : IResult E A :=
  if decide (at_ <= length bs) then f (drop at_ bs) i else Panicked.

(** A [u32] minus a constant, handed to a parser. *)
Definition with_sub {E A} (len k : Z) (f : Z -> bytes -> IResult E A) (i : bytes) : IResult E A :=
  if decide (len < k)%Z then Panicked else f (len - k)%Z i.

Section writers.
Context {W E : Type} `{Write W E, !WriteBytesExt W E}.

Definition write_length_id_pair (length : Z) (opt_id : option byte) : stM W E () :=
  _ ← write_u32 length;
  match opt_id with Some id => write_u8 id | None => mret () end.

End writers.

(** ** Messages *)

Record HaveMessage : Type := HaveMessage_new { have_piece_index : Z }.
Record BitFieldMessage : Type := BitFieldMessage_new { bitfield : bytes }.
Record RequestMessage : Type := RequestMessage_new { req_piece_index : Z; req_block_offset : Z; req_block_length : nat }.
Record PieceMessage : Type := PieceMessage_new { pm_piece_index : Z; pm_block_offset : Z; pm_block : bytes }.
Record CancelMessage : Type := CancelMessage_new { can_piece_index : Z; can_block_offset : Z; can_block_length : nat }.
Record PortMessage : Type := PortMessage_new { port : Z }.

(** ** The bits of a bit field *)

Record BitFieldIter : Type := mk_BitFieldIter { bfi_bytes : bytes; cur_bit : nat }.
Definition BitFieldIter_new (bs : bytes) : BitFieldIter := mk_BitFieldIter bs 0.
Definition bitfield_iter (self : BitFieldMessage) : BitFieldIter := BitFieldIter_new (bitfield self).

(** [(byte << bit) >> 7 == 1] on a [u8] *)
Definition bit_set (b : byte) (bit_in_byte : nat) : bool :=
  bool_decide (Z.shiftr (as_unsigned 8 (Z.shiftl (byte_val b) (Z.of_nat bit_in_byte))) 7 = 1)%Z.

Fixpoint BitFieldIter_next (fuel : nat) (self : BitFieldIter) : outcome Empty_set (option HaveMessage * BitFieldIter) :=
  match fuel with
  | O => NoFuel
  | S fuel =>
      let byte_in_bytes := cur_bit self / 8 in
      let bit_in_byte := cur_bit self mod 8 in
      match bfi_bytes self !! byte_in_bytes with
      | Some b =>
          let have_message := HaveMessage_new (as_unsigned 32 (Z.of_nat (cur_bit self))) in
          let self := mk_BitFieldIter (bfi_bytes self) (cur_bit self + 1) in
          if bit_set b bit_in_byte then Ok (Some have_message, self) else BitFieldIter_next fuel self
      | None => Ok (None, self)
      end
  end.

(** Running the iterator to its end. *)
Fixpoint BitFieldIter_collect (fuel : nat) (self : BitFieldIter) : outcome Empty_set (list HaveMessage) :=
  match fuel with
  | O => NoFuel
  | S fuel' =>
      '(next, self) ← BitFieldIter_next fuel self;
      match next with
      | Some have => rest ← BitFieldIter_collect fuel' self; Ok (have :: rest)
      | None => Ok []
      end
  end.

(** ** Parsing *)

Section parsers.
Context {N : Nom} {E : Type}.

Definition parse_have : parser (outcome E HaveMessage) := nom_map be_u32 (fun index => Ok (HaveMessage_new index)).
Definition HaveMessage_parse_bytes (bs _input : bytes) : IResult nom_error (outcome E HaveMessage) := throwaway_input (parse_have bs).

Definition BitFieldMessage_parse_bytes (bs : bytes) (len : Z) (_input : bytes) : IResult nom_error (outcome E BitFieldMessage) :=
  match u32_to_usize len with
  | None => Panicked
  | Some cast_len =>
      if decide (cast_len <= length bs) then Done [] (Ok (BitFieldMessage_new (take cast_len bs)))
      else Incomplete (NeededSize (cast_len - length bs))
  end.

(** A block description; the closure converts the length. *)
Definition parse_block_of {A} (f : Z -> Z -> nat -> A) : parser (outcome E A) :=
  do_parse (tuple be_u32 (tuple be_u32 be_u32)) (fun '(index, (offset, length)) i =>
    match u32_to_usize length with Some length => Done i (Ok (f index offset length)) | None => Panicked end).

Definition parse_request : parser (outcome E RequestMessage) := parse_block_of RequestMessage_new.
Definition RequestMessage_parse_bytes (bs _input : bytes) : IResult nom_error (outcome E RequestMessage) :=
  throwaway_input (parse_request bs).

Definition parse_piece (bs : bytes) (len : Z) : parser (outcome E PieceMessage) :=
  do_parse be_u32 (fun piece_index =>
  do_parse be_u32 (fun block_offset =>
  do_parse (with_sub len 8 (fun l i => match u32_to_usize l with Some n => value n i | None => Panicked end)) (fun block_len =>
  do_parse (nom_map (nom_take block_len) (fun _ => slice bs 8 (8 + block_len))) (fun block =>
  value (Ok (PieceMessage_new piece_index block_offset block)))))).
Definition PieceMessage_parse_bytes (bs : bytes) (len : Z) (_input : bytes) : IResult nom_error (outcome E PieceMessage) :=
  throwaway_input (parse_piece bs len bs).

Definition parse_cancel : parser (outcome E CancelMessage) := parse_block_of CancelMessage_new.
Definition CancelMessage_parse_bytes (bs _input : bytes) : IResult nom_error (outcome E CancelMessage) :=
  throwaway_input (parse_cancel bs).

Definition parse_port : parser PortMessage := nom_map be_u16 PortMessage_new.
Definition PortMessage_parse_bytes (bs _input : bytes) : IResult nom_error (outcome E PortMessage) :=
  match parse_port bs with
  | Done _ result => Done [] (Ok result)
  | Error err => Error err
  | Incomplete need => Incomplete need
  | Panicked => Panicked
  | OutOfFuel => OutOfFuel
  end.

End parsers.

(** ** Writing *)

Definition PORT_MESSAGE_LEN : Z := 3.
Definition PORT_MESSAGE_ID : byte := x09.

Section writing.
Context {W E : Type} `{Write W E, !WriteBytesExt W E}.

Definition HaveMessage_write_bytes (self : HaveMessage) : stM W E () :=
  _ ← write_length_id_pair HAVE_MESSAGE_LEN (Some HAVE_MESSAGE_ID);
  write_u32 (have_piece_index self).

Definition BitFieldMessage_write_bytes (self : BitFieldMessage) : stM W E () :=
  let actual_length := as_unsigned 32 (Z.of_nat (1 + length (bitfield self))) in
  _ ← write_length_id_pair actual_length (Some BITFIELD_MESSAGE_ID);
  write_all (bitfield self).

Definition RequestMessage_write_bytes (self : RequestMessage) : stM W E () :=
  _ ← write_length_id_pair REQUEST_MESSAGE_LEN (Some REQUEST_MESSAGE_ID);
  _ ← write_u32 (req_piece_index self);
  _ ← write_u32 (req_block_offset self);
  write_u32 (as_unsigned 32 (Z.of_nat (req_block_length self))).

Definition PieceMessage_write_bytes (self : PieceMessage) : stM W E () :=
  let actual_length := as_unsigned 32 (Z.of_nat (9 + length (pm_block self))) in
  _ ← write_length_id_pair actual_length (Some PIECE_MESSAGE_ID);
  _ ← write_u32 (pm_piece_index self);
  _ ← write_u32 (pm_block_offset self);
  write_all (pm_block self).

Definition CancelMessage_write_bytes (self : CancelMessage) : stM W E () :=
  _ ← write_length_id_pair CANCEL_MESSAGE_LEN (Some CANCEL_MESSAGE_ID);
  _ ← write_u32 (can_piece_index self);
  _ ← write_u32 (can_block_offset self);
  write_u32 (as_unsigned 32 (Z.of_nat (can_block_length self))).

Definition PortMessage_write_bytes (self : PortMessage) : stM W E () :=
  _ ← write_length_id_pair PORT_MESSAGE_LEN (Some PORT_MESSAGE_ID);
  write_u16 (port self).

End writing.

(** * The bit field and its iterator

    The messages [BitFieldIter] gives are exactly the set bits of the field, in
    the order of the wire: the high bit of a byte is the first piece of its
    eight. *)

(** Piece [i] is bit [7 - i mod 8] of byte [i / 8]. *)
Definition has_piece (bs : bytes) (i : nat) : bool :=
  match bs !! (i / 8) with Some b => Z.testbit (byte_val b) (7 - Z.of_nat (i mod 8)) | None => false end.

(** The pieces of a field from [c] on. *)
Definition pieces_from (bs : bytes) (c : nat) : list nat := filter (fun i => has_piece bs i = true) (seq c (8 * length bs - c)).

Lemma bit_set_testbit b j : j < 8 -> bit_set b j = Z.testbit (byte_val b) (7 - Z.of_nat j).
Proof. intros Hj. do 8 (destruct j as [|j]; [by destruct b|]). lia. Qed.

Lemma has_piece_at (bs : bytes) (c : nat) b : bs !! (c / 8) = Some b -> bit_set b (c mod 8) = has_piece bs c.
Proof. intros Hb. unfold has_piece. rewrite Hb. apply bit_set_testbit, Nat.mod_upper_bound. lia. Qed.

Lemma byte_at (bs : bytes) (c : nat) : c < 8 * length bs <-> is_Some (bs !! (c / 8)).
Proof. rewrite lookup_lt_is_Some. split; intros Hc; [apply Nat.Div0.div_lt_upper_bound; lia|]. pose proof (Nat.div_mod_eq c 8). pose proof (Nat.mod_upper_bound c 8). lia. Qed.

Lemma pieces_from_step bs c : c < 8 * length bs ->
  pieces_from bs c = if has_piece bs c then c :: pieces_from bs (S c) else pieces_from bs (S c).
Proof.
  intros Hc. unfold pieces_from. replace (8 * length bs - c) with (S (8 * length bs - S c)) by lia. cbn [seq]. rewrite filter_cons.
  destruct (has_piece bs c); [by rewrite decide_True|by rewrite decide_False].
Qed.

Lemma pieces_from_end bs c : 8 * length bs <= c -> pieces_from bs c = [].
Proof. intros Hc. unfold pieces_from. by replace (8 * length bs - c) with 0 by lia. Qed.

(** One call of the iterator goes on to the next set bit, or to the end. *)
Lemma BitFieldIter_next_spec bs fuel : forall c, 8 * length bs - c < fuel -> (Z.of_nat (8 * length bs) <= 2 ^ 32)%Z ->
  exists r c', BitFieldIter_next fuel (mk_BitFieldIter bs c) = Ok (r, mk_BitFieldIter bs c') /\
  match r with
  | Some have => c < c' /\ c' <= 8 * length bs /\ have = HaveMessage_new (Z.of_nat (c' - 1)) /\ pieces_from bs c = (c' - 1) :: pieces_from bs c'
  | None => pieces_from bs c = []
  end.
Proof.
  induction fuel as [|fuel IH]; intros c Hf Hl; [lia|]. cbn [BitFieldIter_next bfi_bytes cur_bit]. destruct (bs !! (c / 8)) as [b|] eqn:Hb.
  - assert (c < 8 * length bs) as Hc by (apply byte_at; eauto). rewrite (has_piece_at bs c b Hb), pieces_from_step by done. rewrite Nat.add_1_r.
    destruct (has_piece bs c).
    + eexists _, _. split; [done|]. split; [lia|]. split; [lia|]. rewrite as_unsigned_id by (unfold in_unsigned; lia). by replace (S c - 1) with c by lia.
    + destruct (IH (S c)) as (r & c' & Hr & Hs); [lia|done|]. exists r, c'. split; [done|]. destruct r; [|done].
      destruct Hs as (? & ? & ? & ?). split_and!; [lia|done..].
  - eexists _, _. split; [done|]. apply pieces_from_end. destruct (decide (c < 8 * length bs)) as [[x Hx]%byte_at|]; [congruence|lia].
Qed.

Lemma BitFieldIter_collect_from bs fuel : forall c, 8 * length bs - c < fuel -> (Z.of_nat (8 * length bs) <= 2 ^ 32)%Z ->
  BitFieldIter_collect fuel (mk_BitFieldIter bs c) = Ok ((fun i => HaveMessage_new (Z.of_nat i)) <$> pieces_from bs c).
Proof.
  induction fuel as [|fuel IH]; intros c Hf Hl; [lia|]. cbn [BitFieldIter_collect].
  destruct (BitFieldIter_next_spec bs (S fuel) c Hf Hl) as (r & c' & -> & Hs). cbn [mbind outcome_bind]. destruct r as [have|]; [|by rewrite Hs].
  destruct Hs as (Hc & Hc' & -> & ->). rewrite IH by (done || lia). done.
Qed.

(** The iterator over a bit field gives a have message for each piece whose bit
    is set, in increasing order and no other, and it comes to its end after at
    most one call per bit. *)
Theorem bitfield_iterates_pieces (msg : BitFieldMessage) (fuel : nat) :
  (Z.of_nat (8 * length (bitfield msg)) <= 2 ^ 32)%Z -> 8 * length (bitfield msg) < fuel ->
  BitFieldIter_collect fuel (bitfield_iter msg) =
  Ok ((fun i => HaveMessage_new (Z.of_nat i)) <$> filter (fun i => has_piece (bitfield msg) i = true) (seq 0 (8 * length (bitfield msg)))).
Proof. intros Hl Hf. unfold bitfield_iter, BitFieldIter_new. rewrite BitFieldIter_collect_from by (done || lia). unfold pieces_from. by rewrite Nat.sub_0_r. Qed.

Lemma bitfield_iterates_pieces_witness :
  BitFieldIter_collect 17 (bitfield_iter (BitFieldMessage_new [x81; x40])) = Ok [HaveMessage_new 0; HaveMessage_new 7; HaveMessage_new 9].
Proof. rewrite (bitfield_iterates_pieces (BitFieldMessage_new [x81; x40]) 17); [reflexivity|by vm_compute|cbn; lia]. Defined.
