(* ===== verification/PeerExtended.v ===== *)
(** * [bip_peer::message]: extension messages

    The bencode accessors of [message/bencode.rs], the extended handshake of
    [message/bits_ext/handshake.rs], the messages switched on by extension bits
    ([message/bits_ext/mod.rs]) and the metadata messages of
    [message/prot_ext/ut_metadata.rs].  The orders in which the two hash maps of
    a builder are walked are arguments. *)

From stdpp Require Import prelude list gmap strings.
From Stdlib Require Import ZArith Lia Strings.Byte.
From S2P Require Import Prelude Bytes BTreeMap DecStr Bencode BencodeAccess Convert Nom WriteBytes PeerMessage.

(** ** Extended types *)

Definition UT_METADATA_ID : bytes := bstr "ut_metadata".
Definition UT_PEX_ID : bytes := bstr "ut_pex".

Inductive ExtendedType : Type :=
| UtMetadata
| UtPex
| CustomType (id : bytes).

#[export] Instance ExtendedType_eq_dec : EqDecision ExtendedType.
Proof. solve_decision. Defined.

#[export] Program Instance ExtendedType_countable : Countable ExtendedType :=
  inj_countable' (fun t => match t with UtMetadata => None | UtPex => Some None | CustomType id => Some (Some id) end)
    (fun o => match o with None => UtMetadata | Some None => UtPex | Some (Some id) => CustomType id end) _.
Next Obligation. by intros []. Qed.

Definition from_id (id : bytes) : ExtendedType :=
  if decide (id = UT_METADATA_ID) then UtMetadata else if decide (id = UT_PEX_ID) then UtPex else CustomType id.

Definition ExtendedType_id (self : ExtendedType) : bytes :=
  match self with UtMetadata => UT_METADATA_ID | UtPex => UT_PEX_ID | CustomType id => id end.

(** ** [bencode.rs] *)

Definition ID_MAP_KEY : bytes := bstr "m".
Definition CLIENT_ID_KEY : bytes := bstr "v".
Definition CLIENT_TCP_PORT_KEY : bytes := bstr "p".
Definition OUR_IP_KEY : bytes := bstr "yourip".
Definition CLIENT_IPV6_ADDR_KEY : bytes := bstr "ipv6".
Definition CLIENT_IPV4_ADDR_KEY : bytes := bstr "ipv4".
Definition CLIENT_MAX_REQUESTS_KEY : bytes := bstr "reqq".
Definition METADATA_SIZE_KEY : bytes := bstr "metadata_size".
Definition MESSAGE_TYPE_KEY : bytes := bstr "msg_type".
Definition PIECE_INDEX_KEY : bytes := bstr "piece".
Definition TOTAL_SIZE_KEY : bytes := bstr "total_size".

Section accessors.
Context {E : Type} `{IoError E} {B : Type} `{BRefAccess B}.

Definition parse_id_map (root : list (bytes * B)) : gmap ExtendedType byte :=
  match BConvert.lookup_and_convert_dict (E := E) io_convert root ID_MAP_KEY with
  | Ok ben_id_map =>
      foldl (fun id_map '(id, ben_value) =>
        match from_utf8 id, BConvert.convert_int (E := E) io_convert ben_value id with
        | Some str_id, Ok value => <[from_id str_id := as_u8 value]> id_map
        | _, _ => id_map
        end) ∅ (BDict.to_list ben_id_map)
  | _ => ∅
  end.

Definition parse_client_id (root : list (bytes * B)) : option bytes :=
  result_ok (BConvert.lookup_and_convert_str (E := E) io_convert root CLIENT_ID_KEY).

Definition parse_client_tcp_port (root : list (bytes * B)) : option Z :=
  port ← result_ok (BConvert.lookup_and_convert_int (E := E) io_convert root CLIENT_TCP_PORT_KEY);
  if decide (as_unsigned 16 port = port) then Some (as_unsigned 16 port) else None.

Definition parse_our_ip (root : list (bytes * B)) : option IpAddr :=
  ip_bytes ← result_ok (BConvert.lookup_and_convert_bytes (E := E) io_convert root OUR_IP_KEY);
  if decide (length ip_bytes = 4) then Some (IpV4 (bytes_be_to_ipv4 ip_bytes))
  else if decide (length ip_bytes = 16) then Some (IpV6 (bytes_be_to_ipv6 ip_bytes)) else None.

Definition parse_client_ipv6_addr (root : list (bytes * B)) : option Ipv6Addr :=
  ipv6_bytes ← result_ok (BConvert.lookup_and_convert_bytes (E := E) io_convert root CLIENT_IPV6_ADDR_KEY);
  if decide (length ipv6_bytes = 16) then Some (bytes_be_to_ipv6 ipv6_bytes) else None.

Definition parse_client_ipv4_addr (root : list (bytes * B)) : option Ipv4Addr :=
  ipv4_bytes ← result_ok (BConvert.lookup_and_convert_bytes (E := E) io_convert root CLIENT_IPV4_ADDR_KEY);
  if decide (length ipv4_bytes = 4) then Some (bytes_be_to_ipv4 ipv4_bytes) else None.

Definition parse_client_max_requests (root : list (bytes * B)) : option Z :=
  result_ok (BConvert.lookup_and_convert_int (E := E) io_convert root CLIENT_MAX_REQUESTS_KEY).

Definition parse_metadata_size (root : list (bytes * B)) : option Z :=
  result_ok (BConvert.lookup_and_convert_int (E := E) io_convert root METADATA_SIZE_KEY).

Definition parse_message_type (root : list (bytes * B)) : outcome E byte :=
  msg_type ← BConvert.lookup_and_convert_int io_convert root MESSAGE_TYPE_KEY; Ok (as_u8 msg_type).

Definition parse_piece_index (root : list (bytes * B)) : outcome E Z :=
  BConvert.lookup_and_convert_int io_convert root PIECE_INDEX_KEY.

Definition parse_total_size (root : list (bytes * B)) : outcome E Z :=
  BConvert.lookup_and_convert_int io_convert root TOTAL_SIZE_KEY.

End accessors.

(** ** The extended handshake *)

(** What the builder and the message both hold. *)
Record ExtendedFields : Type := mk_ExtendedFields {
  id_map : gmap ExtendedType byte;
  our_id : option bytes;
  our_tcp_port : option Z;
  their_ip : option IpAddr;
  our_ipv6_addr : option Ipv6Addr;
  our_ipv4_addr : option Ipv4Addr;
  our_max_requests : option Z;
  metadata_size : option Z;
}.

Record ExtendedMessageBuilder : Type := mk_ExtendedMessageBuilder {
  builder_fields : ExtendedFields;
  custom_entries : gmap bytes BencodeMut;
}.

Record ExtendedMessage : Type := mk_ExtendedMessage {
  ext_fields : ExtendedFields;
  raw_bencode : bytes;
}.

Definition ExtendedMessageBuilder_new : ExtendedMessageBuilder :=
  mk_ExtendedMessageBuilder (mk_ExtendedFields ∅ None None None None None None None) ∅.

Section setters.
Context (self : ExtendedMessageBuilder).
Let f := builder_fields self.
Let set (f : ExtendedFields) : ExtendedMessageBuilder := mk_ExtendedMessageBuilder f (custom_entries self).

Definition with_our_id (id : option bytes) : ExtendedMessageBuilder :=
  set (mk_ExtendedFields (id_map f) id (our_tcp_port f) (their_ip f) (our_ipv6_addr f) (our_ipv4_addr f) (our_max_requests f) (metadata_size f)).
Definition with_extended_type (ext_type : ExtendedType) (opt_value : option byte) : ExtendedMessageBuilder :=
  set (mk_ExtendedFields (match opt_value with Some value => <[ext_type := value]> (id_map f) | None => delete ext_type (id_map f) end)
    (our_id f) (our_tcp_port f) (their_ip f) (our_ipv6_addr f) (our_ipv4_addr f) (our_max_requests f) (metadata_size f)).
Definition with_our_tcp_port (tcp : option Z) : ExtendedMessageBuilder :=
  set (mk_ExtendedFields (id_map f) (our_id f) tcp (their_ip f) (our_ipv6_addr f) (our_ipv4_addr f) (our_max_requests f) (metadata_size f)).
Definition with_their_ip (ip : option IpAddr) : ExtendedMessageBuilder :=
  set (mk_ExtendedFields (id_map f) (our_id f) (our_tcp_port f) ip (our_ipv6_addr f) (our_ipv4_addr f) (our_max_requests f) (metadata_size f)).
Definition with_our_ipv6_addr (ipv6 : option Ipv6Addr) : ExtendedMessageBuilder :=
  set (mk_ExtendedFields (id_map f) (our_id f) (our_tcp_port f) (their_ip f) ipv6 (our_ipv4_addr f) (our_max_requests f) (metadata_size f)).
Definition with_our_ipv4_addr (ipv4 : option Ipv4Addr) : ExtendedMessageBuilder :=
  set (mk_ExtendedFields (id_map f) (our_id f) (our_tcp_port f) (their_ip f) (our_ipv6_addr f) ipv4 (our_max_requests f) (metadata_size f)).
Definition with_max_requests (max_requests : option Z) : ExtendedMessageBuilder :=
  set (mk_ExtendedFields (id_map f) (our_id f) (our_tcp_port f) (their_ip f) (our_ipv6_addr f) (our_ipv4_addr f) max_requests (metadata_size f)).
Definition with_metadata_size (size : option Z) : ExtendedMessageBuilder :=
  set (mk_ExtendedFields (id_map f) (our_id f) (our_tcp_port f) (their_ip f) (our_ipv6_addr f) (our_ipv4_addr f) (our_max_requests f) size).
Definition with_custom_entry (key : bytes) (opt_value : option BencodeMut) : ExtendedMessageBuilder :=
  mk_ExtendedMessageBuilder f (match opt_value with Some value => <[key := value]> (custom_entries self) | None => delete key (custom_entries self) end).
End setters.

Definition dict_insert (key : bytes) (value : BencodeMut) (d : list (bytes * BencodeMut)) : list (bytes * BencodeMut) :=
  (BDict.insert d key value).2.
(** [opt.map(|v| access.insert(key, v))] *)
Definition dict_insert_opt (key : bytes) (opt : option BencodeMut) (d : list (bytes * BencodeMut)) : list (bytes * BencodeMut) :=
  match opt with Some v => dict_insert key v d | None => d end.

Section builder.
Context (id_order : gmap ExtendedType byte -> list (ExtendedType * byte)) (custom_order : gmap bytes BencodeMut -> list (bytes * BencodeMut)).

Definition id_map_bencode (m : gmap ExtendedType byte) : BencodeMut :=
  MDict (foldl (fun d '(ext_id, value) => dict_insert (ExtendedType_id ext_id) (MutAccess.new_int (byte_val value)) d) [] (id_order m)).

Definition bencode_from_builder (builder : ExtendedFields) (custom_entries : gmap bytes BencodeMut) : bytes :=
  let opt_our_ip := (fun ip => match ip with IpV4 a => ipv4_to_bytes_be a | IpV6 a => ipv6_to_bytes_be a end) <$> their_ip builder in
  let opt_client_ipv6_addr := ipv6_to_bytes_be <$> our_ipv6_addr builder in
  let opt_client_ipv4_addr := ipv4_to_bytes_be <$> our_ipv4_addr builder in
  let d := dict_insert ID_MAP_KEY (id_map_bencode (id_map builder)) [] in
  let d := foldl (fun d '(key, value) => dict_insert key value d) d (custom_order custom_entries) in
  let d := dict_insert_opt CLIENT_ID_KEY (MutAccess.new_bytes <$> our_id builder) d in
  let d := dict_insert_opt CLIENT_TCP_PORT_KEY (MutAccess.new_int <$> our_tcp_port builder) d in
  let d := dict_insert_opt OUR_IP_KEY (MutAccess.new_bytes <$> opt_our_ip) d in
  let d := dict_insert_opt CLIENT_IPV6_ADDR_KEY (MutAccess.new_bytes <$> opt_client_ipv6_addr) d in
  let d := dict_insert_opt CLIENT_IPV4_ADDR_KEY (MutAccess.new_bytes <$> opt_client_ipv4_addr) d in
  let d := dict_insert_opt CLIENT_MAX_REQUESTS_KEY (MutAccess.new_int <$> our_max_requests builder) d in
  let d := dict_insert_opt METADATA_SIZE_KEY (MutAccess.new_int <$> metadata_size builder) d in
  encode (MDict d).

Definition ExtendedMessage_from_builder (builder : ExtendedMessageBuilder) : ExtendedMessage :=
  mk_ExtendedMessage (builder_fields builder) (bencode_from_builder (builder_fields builder) (custom_entries builder)).
Definition ExtendedMessageBuilder_build (self : ExtendedMessageBuilder) : ExtendedMessage := ExtendedMessage_from_builder self.

End builder.

Definition bencode_size (self : ExtendedMessage) : nat := length (raw_bencode self).
Definition query_id (self : ExtendedMessage) (ext_type : ExtendedType) : option byte := id_map (ext_fields self) !! ext_type.
Definition bencode_ref (self : ExtendedMessage) : outcome Empty_set BencodeRef :=
  unwrap (result_ok (BencodeRef_decode (raw_bencode self) BDecodeOpt_default)).

Definition EXTENDED_ROOT_ERROR_KEY : bytes := bstr "ExtendedMessage".
Definition BASE_EXTENDED_MESSAGE_LEN : Z := 6.
Definition EXTENDED_MESSAGE_ID : byte := x14.
Definition EXTENDED_MESSAGE_HANDSHAKE_ID : byte := x00.

Definition read_fields {E B} `{IoError E, BRefAccess B} (ben_dict : list (bytes * B)) : ExtendedFields :=
  mk_ExtendedFields (parse_id_map (E := E) ben_dict) (parse_client_id (E := E) ben_dict) (parse_client_tcp_port (E := E) ben_dict)
    (parse_our_ip (E := E) ben_dict) (parse_client_ipv6_addr (E := E) ben_dict) (parse_client_ipv4_addr (E := E) ben_dict)
    (parse_client_max_requests (E := E) ben_dict) (parse_metadata_size (E := E) ben_dict).

Section extended.
Context {N : Nom} {E : Type} `{IoError E}.

Definition ExtendedMessage_parse_bytes (bs : bytes) (len : Z) (_input : bytes) : IResult nom_error (outcome E ExtendedMessage) :=
  match u32_to_usize len with
  | None => Panicked
  | Some cast_len =>
      if decide (cast_len <= length bs) then
        let raw_bencode := take cast_len bs in
        let res_extended_message :=
          bencode ← map_err io_decode (BencodeRef_decode raw_bencode BDecodeOpt_default);
          ben_dict ← BConvert.convert_dict io_convert bencode EXTENDED_ROOT_ERROR_KEY;
          Ok (mk_ExtendedMessage (read_fields (E := E) ben_dict) raw_bencode) in
        Done [] res_extended_message
      else Incomplete (NeededSize (cast_len - length bs))
  end.

Context {W : Type} `{Write W E, !WriteBytesExt W E}.

(** A result that is not looked at; a panic still unwinds. *)
Definition ignore_result (m : stM W E ()) : stM W E () :=
  fun w => match m w with (Err _, w) => (Ok (), w) | r => r end.

Definition ExtendedMessage_write_bytes (self : ExtendedMessage) : stM W E () :=
  let real_length := 2 + bencode_size self in
  _ ← write_length_id_pair (as_unsigned 32 (Z.of_nat real_length)) (Some EXTENDED_MESSAGE_ID);
  _ ← ignore_result (write_all [EXTENDED_MESSAGE_HANDSHAKE_ID]);
  write_all (raw_bencode self).

End extended.

(** ** Messages switched on by extension bits *)

Inductive BitsExtensionMessage : Type :=
| Port (msg : PortMessage)
| Extended (msg : ExtendedMessage).

Section bits_ext.
Context {N : Nom} {E : Type} `{IoError E}.

Definition parse_extension (bs : bytes) : parser (outcome E BitsExtensionMessage) :=
  alt
    (fun _ => switch (fun i => throwaway_input (tuple be_u32 be_u8 i)) (fun '(message_len, id) =>
       if decide (message_len = PORT_MESSAGE_LEN /\ id = PORT_MESSAGE_ID) then
         Some (nom_map (with_split_off bs HEADER_LEN PortMessage_parse_bytes) (fun res_port => port ← res_port; Ok (Port port)))
       else None) bs)
    (fun _ => switch (fun i => throwaway_input (tuple be_u32 (tuple be_u8 be_u8) i)) (fun '(message_len, (id, ext_id)) =>
       if decide (id = EXTENDED_MESSAGE_ID /\ ext_id = EXTENDED_MESSAGE_HANDSHAKE_ID) then
         Some (nom_map (with_sub message_len 2 (fun len => with_split_off bs (HEADER_LEN + 1) (fun tail => ExtendedMessage_parse_bytes tail len)))
                 (fun res_extended => extended ← res_extended; Ok (Extended extended)))
       else None) bs).
Definition BitsExtensionMessage_parse_bytes (bs : bytes) : parser (outcome E BitsExtensionMessage) := parse_extension bs.

Context {W : Type} `{Write W E, !WriteBytesExt W E}.

Definition BitsExtensionMessage_write_bytes (self : BitsExtensionMessage) : stM W E () :=
  match self with Port msg => PortMessage_write_bytes msg | Extended msg => ExtendedMessage_write_bytes msg end.

End bits_ext.

Definition BitsExtensionMessage_message_size (self : BitsExtensionMessage) : nat :=
  match self with
  | Port _ => Z.to_nat PORT_MESSAGE_LEN
  | Extended msg => Z.to_nat BASE_EXTENDED_MESSAGE_LEN + bencode_size msg
  end.

(** ** Metadata messages *)

Definition REQUEST_MESSAGE_TYPE_ID : byte := x00.
Definition DATA_MESSAGE_TYPE_ID : byte := x01.
Definition REJECT_MESSAGE_TYPE_ID : byte := x02.
Definition UT_METADATA_ROOT_ERROR_KEY : bytes := bstr "PeerExtensionProtocolMessage".

Record UtMetadataRequestMessage : Type := mk_UtMetadataRequestMessage { utreq_piece : Z; utreq_bencode_size : nat }.
Record UtMetadataDataMessage : Type := mk_UtMetadataDataMessage { utdata_piece : Z; total_size : Z; utdata_data : bytes; utdata_bencode_size : nat }.
Record UtMetadataRejectMessage : Type := mk_UtMetadataRejectMessage { utrej_piece : Z; utrej_bencode_size : nat }.

Inductive UtMetadataMessage : Type :=
| UtRequest (request : UtMetadataRequestMessage)
| UtData (data : UtMetadataDataMessage)
| UtReject (reject : UtMetadataRejectMessage).

(** The dictionaries of the three messages. *)
Definition ut_piece_bencode (msg_type : byte) (piece : Z) : BencodeMut :=
  MDict (ben_map_entries [(MESSAGE_TYPE_KEY, MutAccess.new_int (byte_val msg_type)); (PIECE_INDEX_KEY, MutAccess.new_int piece)]).
Definition ut_data_bencode (piece size : Z) : BencodeMut :=
  MDict (ben_map_entries [(MESSAGE_TYPE_KEY, MutAccess.new_int (byte_val DATA_MESSAGE_TYPE_ID)); (PIECE_INDEX_KEY, MutAccess.new_int piece);
    (TOTAL_SIZE_KEY, MutAccess.new_int size)]).

Definition UtMetadataRequestMessage_new (piece : Z) : UtMetadataRequestMessage :=
  mk_UtMetadataRequestMessage piece (length (encode (ut_piece_bencode REQUEST_MESSAGE_TYPE_ID piece))).
Definition UtMetadataDataMessage_new (piece size : Z) (data : bytes) : UtMetadataDataMessage :=
  mk_UtMetadataDataMessage piece size data (length (encode (ut_data_bencode piece size))).
Definition UtMetadataRejectMessage_new (piece : Z) : UtMetadataRejectMessage :=
  mk_UtMetadataRejectMessage piece (length (encode (ut_piece_bencode REJECT_MESSAGE_TYPE_ID piece))).

Definition UtMetadataMessage_message_size (self : UtMetadataMessage) : nat :=
  match self with
  | UtRequest request => utreq_bencode_size request
  | UtData data => utdata_bencode_size data + length (utdata_data data)
  | UtReject reject => utrej_bencode_size reject
  end.

Section ut_metadata.
Context {E : Type} `{IoError E}.

Definition UtMetadataMessage_parse_bytes (bs : bytes) : outcome E UtMetadataMessage :=
  match BencodeRef_decode bs (mk_BDecodeOpt 2 false false) with
  | Ok bencode =>
      bencode_dict ← BConvert.convert_dict io_convert bencode UT_METADATA_ROOT_ERROR_KEY;
      msg_type ← parse_message_type bencode_dict;
      piece ← parse_piece_index bencode_dict;
      let bencode_bytes := take (length (BencodeRef_buffer bencode)) bs in
      let extra_bytes := drop (length (BencodeRef_buffer bencode)) bs in
      if decide (msg_type = REQUEST_MESSAGE_TYPE_ID) then Ok (UtRequest (mk_UtMetadataRequestMessage piece (length bencode_bytes)))
      else if decide (msg_type = REJECT_MESSAGE_TYPE_ID) then Ok (UtReject (mk_UtMetadataRejectMessage piece (length bencode_bytes)))
      else if decide (msg_type = DATA_MESSAGE_TYPE_ID) then
        size ← parse_total_size bencode_dict;
        Ok (UtData (mk_UtMetadataDataMessage piece size extra_bytes (length bencode_bytes)))
      else Err (io_other "Failed To Recognize Message Type For UtMetadataMessage")
  | Err err => Err (io_decode err)
  | Panic => Panic
  | NoFuel => NoFuel
  end.

Context {W : Type} `{Write W E, !WriteBytesExt W E}.

Definition UtMetadataMessage_write_bytes (self : UtMetadataMessage) : stM W E () :=
  match self with
  | UtRequest request => write_all (encode (ut_piece_bencode REQUEST_MESSAGE_TYPE_ID (utreq_piece request)))
  | UtData data =>
      _ ← write_all (encode (ut_data_bencode (utdata_piece data) (total_size data)));
      write_all (utdata_data data)
  | UtReject reject => write_all (encode (ut_piece_bencode REJECT_MESSAGE_TYPE_ID (utrej_piece reject)))
  end.

End ut_metadata.
