(* ===== verification/PeerWire.v ===== *)
(** * [bip_peer]: the peer wire protocol, its extensions and the codec

    The traits of [protocol/mod.rs] as classes, the wire message of
    [message/mod.rs], the extension message of [message/prot_ext/mod.rs], the
    protocols of [protocol/*.rs] and the codec of [codec.rs].  [&mut self] is
    state passing; a protocol that writes works on its own state and the writer.
    The buffer a codec writes to is a writer that can reserve room. *)

From stdpp Require Import prelude list gmap strings.
From Stdlib Require Import ZArith Lia Strings.Byte.
From S2P Require Import Prelude Bytes Bencode BencodeAccess Nom WriteBytes PeerMessage PeerExtended.

(** ** Protocols *)

Class PeerProtocol (P M W E : Type) : Type := {
  bytes_needed : bytes -> stM P E (option nat);
  parse_bytes : bytes -> stM P E M;
  write_bytes : M -> stM (P * W) E ();
  message_size : M -> P -> nat * P;
}.

Class NestedPeerProtocol (P M : Type) : Type := {
  received_message : M -> P -> P;
  sent_message : M -> P -> P;
}.

(** A write that leaves the protocol alone. *)
Definition on_writer {P W E A} (m : stM W E A) : stM (P * W) E A :=
  fun '(p, w) => let '(o, w) := m w in (o, (p, w)).

(** ** Messages *)

Inductive PeerWireProtocolMessage (M : Type) : Type :=
| KeepAlive
| Choke
| UnChoke
| Interested
| UnInterested
| Have (msg : HaveMessage)
| BitField (msg : BitFieldMessage)
| Request (msg : RequestMessage)
| Piece (msg : PieceMessage)
| Cancel (msg : CancelMessage)
| BitsExtension (ext : BitsExtensionMessage)
| ProtExtension (ext : M).
Arguments KeepAlive {M}.
Arguments Choke {M}.
Arguments UnChoke {M}.
Arguments Interested {M}.
Arguments UnInterested {M}.
Arguments Have {M} msg.
Arguments BitField {M} msg.
Arguments Request {M} msg.
Arguments Piece {M} msg.
Arguments Cancel {M} msg.
Arguments BitsExtension {M} ext.
Arguments ProtExtension {M} ext.

(** [ManagedMessage] *)
Definition keep_alive {M} : PeerWireProtocolMessage M := KeepAlive.
Definition is_keep_alive {M} (self : PeerWireProtocolMessage M) : bool := match self with KeepAlive => true | _ => false end.

Section wire.
Context {N : Nom} {P M W E : Type} `{IoError E, Write W E, !WriteBytesExt W E, !PeerProtocol P M W E}.

Definition wire_bytes_needed (bs : bytes) : outcome E (option nat) :=
  match be_u32 bs with
  | Done _ length =>
      match u32_to_usize length with Some n => Ok (Some (MESSAGE_LENGTH_LEN_BYTES + n)) | None => Panic end
  | Panicked => Panic
  | OutOfFuel => NoFuel
  | _ => Ok None
  end.

(** [res.map(f)], with the state of the extension protocol beside it. *)
Definition map_result {A B} (f : A -> B) (res : outcome E A) : outcome E B := a ← res; Ok (f a).

(** The arms of the [switch!]. *)
Definition standard_arm (bs : bytes) (message_len : Z) (opt_id : option byte) : option (parser (outcome E (PeerWireProtocolMessage M))) :=
    match opt_id with
    | None => if decide (message_len = KEEP_ALIVE_MESSAGE_LEN) then Some (value (Ok KeepAlive)) else None
    | Some id =>
        if decide (message_len = CHOKE_MESSAGE_LEN /\ id = CHOKE_MESSAGE_ID) then Some (value (Ok Choke))
        else if decide (message_len = UNCHOKE_MESSAGE_LEN /\ id = UNCHOKE_MESSAGE_ID) then Some (value (Ok UnChoke))
        else if decide (message_len = INTERESTED_MESSAGE_LEN /\ id = INTERESTED_MESSAGE_ID) then Some (value (Ok Interested))
        else if decide (message_len = UNINTERESTED_MESSAGE_LEN /\ id = UNINTERESTED_MESSAGE_ID) then Some (value (Ok UnInterested))
        else if decide (message_len = HAVE_MESSAGE_LEN /\ id = HAVE_MESSAGE_ID) then
          Some (nom_map (with_split_off bs HEADER_LEN HaveMessage_parse_bytes) (map_result Have))
        else if decide (id = BITFIELD_MESSAGE_ID) then
          Some (nom_map (with_sub message_len 1 (fun len => with_split_off bs HEADER_LEN (fun tail => BitFieldMessage_parse_bytes tail len)))
                  (map_result BitField))
        else if decide (message_len = REQUEST_MESSAGE_LEN /\ id = REQUEST_MESSAGE_ID) then
          Some (nom_map (with_split_off bs HEADER_LEN RequestMessage_parse_bytes) (map_result Request))
        else if decide (id = PIECE_MESSAGE_ID) then
          Some (nom_map (with_sub message_len 1 (fun len => with_split_off bs HEADER_LEN (fun tail => PieceMessage_parse_bytes tail len)))
                  (map_result Piece))
        else if decide (message_len = CANCEL_MESSAGE_LEN /\ id = CANCEL_MESSAGE_ID) then
          Some (nom_map (with_split_off bs HEADER_LEN CancelMessage_parse_bytes) (map_result Cancel))
        else None
    end.

Definition parse_standard (bs : bytes) : parser (outcome E (PeerWireProtocolMessage M)) :=
  fun _ => switch (fun i => throwaway_input (tuple be_u32 (opt be_u8) i)) (fun '(message_len, opt_id) => standard_arm bs message_len opt_id) bs.

(** No standard parser that was chosen fails, so [bytes] is whole when the
    extensions are tried. *)
Definition parse_message (bs : bytes) (ext_protocol : P) : IResult nom_error (outcome E (PeerWireProtocolMessage M) * P) :=
  alt (nom_map (parse_standard bs) (fun res => (res, ext_protocol)))
    (alt (nom_map (BitsExtensionMessage_parse_bytes bs) (fun res_bits_ext => (map_result BitsExtension res_bits_ext, ext_protocol)))
       (nom_map (value (parse_bytes bs ext_protocol)) (fun '(res_prot_ext, p) => (map_result ProtExtension res_prot_ext, p))))
    [].

Definition wire_parse_bytes (bs : bytes) : stM P E (PeerWireProtocolMessage M) :=
  fun p =>
    match parse_message bs p with
    | Done _ result => result
    | Panicked => (Panic, p)
    | OutOfFuel => (NoFuel, p)
    | _ => (Err (io_other "Failed To Parse PeerWireProtocolMessage"), p)
    end.

Definition wire_write_bytes (self : PeerWireProtocolMessage M) : stM (P * W) E () :=
  match self with
  | KeepAlive => on_writer (write_length_id_pair KEEP_ALIVE_MESSAGE_LEN None)
  | Choke => on_writer (write_length_id_pair CHOKE_MESSAGE_LEN (Some CHOKE_MESSAGE_ID))
  | UnChoke => on_writer (write_length_id_pair UNCHOKE_MESSAGE_LEN (Some UNCHOKE_MESSAGE_ID))
  | Interested => on_writer (write_length_id_pair INTERESTED_MESSAGE_LEN (Some INTERESTED_MESSAGE_ID))
  | UnInterested => on_writer (write_length_id_pair UNINTERESTED_MESSAGE_LEN (Some UNINTERESTED_MESSAGE_ID))
  | Have msg => on_writer (HaveMessage_write_bytes msg)
  | BitField msg => on_writer (BitFieldMessage_write_bytes msg)
  | Request msg => on_writer (RequestMessage_write_bytes msg)
  | Piece msg => on_writer (PieceMessage_write_bytes msg)
  | Cancel msg => on_writer (CancelMessage_write_bytes msg)
  | BitsExtension ext => on_writer (BitsExtensionMessage_write_bytes ext)
  | ProtExtension ext => write_bytes ext
  end.

Definition wire_message_size (self : PeerWireProtocolMessage M) (ext_protocol : P) : nat * P :=
  let '(message_specific_len, ext_protocol) :=
    match self with
    | KeepAlive => (Z.to_nat KEEP_ALIVE_MESSAGE_LEN, ext_protocol)
    | Choke => (Z.to_nat CHOKE_MESSAGE_LEN, ext_protocol)
    | UnChoke => (Z.to_nat UNCHOKE_MESSAGE_LEN, ext_protocol)
    | Interested => (Z.to_nat INTERESTED_MESSAGE_LEN, ext_protocol)
    | UnInterested => (Z.to_nat UNINTERESTED_MESSAGE_LEN, ext_protocol)
    | Have _ => (Z.to_nat HAVE_MESSAGE_LEN, ext_protocol)
    | BitField msg => (Z.to_nat BASE_BITFIELD_MESSAGE_LEN + length (bitfield msg), ext_protocol)
    | Request _ => (Z.to_nat REQUEST_MESSAGE_LEN, ext_protocol)
    | Piece msg => (Z.to_nat BASE_PIECE_MESSAGE_LEN + length (pm_block msg), ext_protocol)
    | Cancel _ => (Z.to_nat CANCEL_MESSAGE_LEN, ext_protocol)
    | BitsExtension ext => (BitsExtensionMessage_message_size ext, ext_protocol)
    | ProtExtension ext => message_size ext ext_protocol
    end in
  (MESSAGE_LENGTH_LEN_BYTES + message_specific_len, ext_protocol).

(** ** [PeerWireProtocol] *)

Context `{!NestedPeerProtocol P ExtendedMessage}.

Record PeerWireProtocol : Type := PeerWireProtocol_new { ext_protocol : P }.

Definition lift_ext {A} (m : stM P E A) : stM PeerWireProtocol E A :=
  fun s => let '(o, p) := m (ext_protocol s) in (o, PeerWireProtocol_new p).

#[global] Instance PeerWireProtocol_protocol : PeerProtocol PeerWireProtocol (PeerWireProtocolMessage M) W E := {
  bytes_needed bs := lift (wire_bytes_needed bs);
  parse_bytes bs := fun s =>
    match lift_ext (wire_parse_bytes bs) s with
    | (Ok (BitsExtension (Extended msg)), s) =>
        (Ok (BitsExtension (Extended msg)), PeerWireProtocol_new (received_message msg (ext_protocol s)))
    | other => other
    end;
  write_bytes message := fun '(s, w) =>
    let '(r, (p, w)) := wire_write_bytes message (ext_protocol s, w) in
    match r, message with
    | Ok (), BitsExtension (Extended msg) => (Ok (), (PeerWireProtocol_new (sent_message msg p), w))
    | other, _ => (other, (PeerWireProtocol_new p, w))
    end;
  message_size message s := let '(n, p) := wire_message_size message (ext_protocol s) in (n, PeerWireProtocol_new p);
}.

End wire.
Arguments PeerWireProtocol P : clear implicits.
Arguments PeerWireProtocol_new {P} ext_protocol.
Arguments ext_protocol {P} _.

(** ** [NullProtocol] and [UnitProtocol] *)

Inductive NullProtocolMessage : Type := .
Inductive NullProtocol : Type := NullProtocol_new.
Inductive UnitProtocol : Type := UnitProtocol_new.

#[export] Instance NullProtocol_protocol {W E} `{IoError E} : PeerProtocol NullProtocol NullProtocolMessage W E := {
  bytes_needed _ := mret (Some 0);
  parse_bytes _ := lift (Err (io_other "Attempted To Parse Bytes As Null Protocol"));
  write_bytes _ := lift Panic;
  message_size _ p := (0, p);
}.

#[export] Instance UnitProtocol_protocol {W E} : PeerProtocol UnitProtocol () W E := {
  bytes_needed _ := mret (Some 0);
  parse_bytes _ := mret ();
  write_bytes _ := mret ();
  message_size _ p := (0, p);
}.

#[export] Instance NullProtocol_nested M : NestedPeerProtocol NullProtocol M := {| received_message _ p := p; sent_message _ p := p |}.
#[export] Instance UnitProtocol_nested M : NestedPeerProtocol UnitProtocol M := {| received_message _ p := p; sent_message _ p := p |}.

(** ** The extension protocol *)

Definition EXTENSION_HEADER_LEN : nat := HEADER_LEN + 1.

Inductive PeerExtensionProtocolMessage (M : Type) : Type :=
| UtMetadataExt (msg : UtMetadataMessage)
| CustomExt (msg : M).
Arguments UtMetadataExt {M} msg.
Arguments CustomExt {M} msg.

Section extension.
Context {N : Nom} {P M W E : Type} `{IoError E, Write W E, !WriteBytesExt W E, !PeerProtocol P M W E}.

Definition parse_extensions_with_id (bs : bytes) (extended : ExtendedMessage) (id : byte) (_input : bytes) :
    IResult nom_error (outcome E (PeerExtensionProtocolMessage M)) :=
  let lt_metadata_id := query_id extended UtMetadata in
  let result :=
    if decide (lt_metadata_id = Some id) then map_result UtMetadataExt (UtMetadataMessage_parse_bytes bs)
    else Err (io_other "Unknown Id For PeerExtensionProtocolMessage") in
  Done [] result.

(** [split_to] panics past the end, like the subtraction before it. *)
Definition parse_extensions (bs : bytes) (extended : ExtendedMessage) (custom_prot : P) :
    IResult nom_error (outcome E (PeerExtensionProtocolMessage M) * P) :=
  alt
    (nom_map (fun _ => switch (fun i => throwaway_input (tuple be_u32 (tuple be_u8 be_u8) i)) (fun '(message_len, (id, message_id)) =>
       if decide (id = EXTENDED_MESSAGE_ID) then
         Some (with_sub message_len 2 (fun len => with_split_off bs EXTENSION_HEADER_LEN (fun tail i =>
           if decide (Z.to_nat len <= length tail) then parse_extensions_with_id (take (Z.to_nat len) tail) extended message_id i else Panicked)))
       else None) bs) (fun res => (res, custom_prot)))
    (nom_map (value (parse_bytes bs custom_prot)) (fun '(res_cust_ext, p) => (map_result CustomExt res_cust_ext, p)))
    [].

Definition ext_parse_bytes (bs : bytes) (extended : ExtendedMessage) : stM P E (PeerExtensionProtocolMessage M) :=
  fun p =>
    match parse_extensions bs extended p with
    | Done _ result => result
    | Panicked => (Panic, p)
    | OutOfFuel => (NoFuel, p)
    | _ => (Err (io_other "Failed To Parse PeerExtensionProtocolMessage"), p)
    end.

Definition ext_write_bytes (self : PeerExtensionProtocolMessage M) (extended : ExtendedMessage) : stM (P * W) E () :=
  match self with
  | UtMetadataExt msg =>
      match query_id extended UtMetadata with
      | Some ext_id =>
          let total_len := as_unsigned 32 (Z.of_nat (2 + UtMetadataMessage_message_size msg)) in
          _ ← on_writer (write_length_id_pair total_len (Some EXTENDED_MESSAGE_ID));
          _ ← on_writer (write_u8 ext_id);
          on_writer (UtMetadataMessage_write_bytes msg)
      | None => lift (Err (io_other "Can't Send UtMetadataMessage As We Have No Id Mapping"))
      end
  | CustomExt msg => write_bytes msg
  end.

Definition ext_message_size (self : PeerExtensionProtocolMessage M) (custom_prot : P) : nat * P :=
  match self with
  | UtMetadataExt msg => (UtMetadataMessage_message_size msg, custom_prot)
  | CustomExt msg => message_size msg custom_prot
  end.

Record PeerExtensionProtocol : Type := mk_PeerExtensionProtocol {
  our_extended_msg : option ExtendedMessage;
  their_extended_msg : option ExtendedMessage;
  custom_protocol : P;
}.
Definition PeerExtensionProtocol_new (custom_protocol : P) : PeerExtensionProtocol := mk_PeerExtensionProtocol None None custom_protocol.
Definition set_custom (s : PeerExtensionProtocol) (p : P) : PeerExtensionProtocol :=
  mk_PeerExtensionProtocol (our_extended_msg s) (their_extended_msg s) p.

#[global] Instance PeerExtensionProtocol_protocol : PeerProtocol PeerExtensionProtocol (PeerExtensionProtocolMessage M) W E := {
  bytes_needed bs := lift (wire_bytes_needed bs);
  parse_bytes bs := fun s =>
    match our_extended_msg s with
    | Some extended_msg => let '(r, p) := ext_parse_bytes bs extended_msg (custom_protocol s) in (r, set_custom s p)
    | None => (Err (io_other "Extension Message Received From Peer Before Extended Message..."), s)
    end;
  write_bytes message := fun '(s, w) =>
    match their_extended_msg s with
    | Some extended_msg => let '(r, (p, w)) := ext_write_bytes message extended_msg (custom_protocol s, w) in (r, (set_custom s p, w))
    | None => (Err (io_other "Extension Message Sent From Us Before Extended Message..."), (s, w))
    end;
  message_size message s := let '(n, p) := ext_message_size message (custom_protocol s) in (n, set_custom s p);
}.

Context `{!NestedPeerProtocol P ExtendedMessage}.

#[global] Instance PeerExtensionProtocol_nested : NestedPeerProtocol PeerExtensionProtocol ExtendedMessage := {
  received_message message s :=
    mk_PeerExtensionProtocol (our_extended_msg s) (Some message) (received_message message (custom_protocol s));
  sent_message message s :=
    mk_PeerExtensionProtocol (Some message) (their_extended_msg s) (sent_message message (custom_protocol s));
}.

End extension.
Arguments PeerExtensionProtocol P : clear implicits.
Arguments PeerExtensionProtocol_new {P} custom_protocol.
Arguments mk_PeerExtensionProtocol {P} our_extended_msg their_extended_msg custom_protocol.
Arguments our_extended_msg {P} _.
Arguments their_extended_msg {P} _.
Arguments custom_protocol {P} _.

(** ** The codec *)

Record PeerProtocolCodec (P : Type) : Type := mk_PeerProtocolCodec { protocol : P; max_payload : option nat }.
Arguments mk_PeerProtocolCodec {P} protocol max_payload.
Arguments protocol {P} _.
Arguments max_payload {P} _.

Definition PeerProtocolCodec_new {P} (protocol : P) : PeerProtocolCodec P := mk_PeerProtocolCodec protocol None.
Definition with_max_payload {P} (protocol : P) (max_payload : nat) : PeerProtocolCodec P := mk_PeerProtocolCodec protocol (Some max_payload).

(** [BytesMut::reserve]: room for so many more bytes, at least. *)
Class Reserve (W : Type) : Type := { reserve : nat -> W -> W }.
Class ReserveSpec (W E : Type) `{WriteSpec W E, Reserve W} : Prop := {
  reserve_spec n w : writer_wf w -> writer_wf (reserve n w) /\ written (reserve n w) = written w /\ from_option (fun r => n <= r) True (room (reserve n w));
}.

Section codec.
Context {P M W E : Type} `{IoError E, !PeerProtocol P M W E, !Reserve W}.

Definition codec_decode : stM (PeerProtocolCodec P * bytes) E (option M) :=
  fun '(self, src) =>
    let src_len := length src in
    match bytes_needed src (protocol self) with
    | (Ok needed, p) =>
        let self := mk_PeerProtocolCodec p (max_payload self) in
        match needed with
        | Some needed =>
            if default false ((fun max_payload => bool_decide (max_payload < needed)) <$> max_payload self)
            then (Err (io_other "PeerProtocolCodec Enforced Maximum Payload Check For Peer"), (self, src))
            else if decide (needed <= src_len) then
              let '(r, p) := parse_bytes (take needed src) (protocol self) in
              (message ← r; Ok (Some message), (mk_PeerProtocolCodec p (max_payload self), drop needed src))
            else (Ok None, (self, src))
        | None => (Ok None, (self, src))
        end
    | (Err e, p) => (Err e, (mk_PeerProtocolCodec p (max_payload self), src))
    | (Panic, p) => (Panic, (mk_PeerProtocolCodec p (max_payload self), src))
    | (NoFuel, p) => (NoFuel, (mk_PeerProtocolCodec p (max_payload self), src))
    end.

Definition codec_encode (item : M) : stM (PeerProtocolCodec P * W) E () :=
  fun '(self, dst) =>
    let '(n, p) := message_size item (protocol self) in
    let '(r, (p, dst)) := write_bytes item (p, reserve n dst) in
    (r, (mk_PeerProtocolCodec p (max_payload self), dst)).

End codec.
