(* ===== verification/PeerProofs.v ===== *)
(** * Properties of the peer wire protocol

    Frames, what each message looks like on the wire, that it is read back, and
    that no frame makes a parser panic. *)

From stdpp Require Import prelude list gmap strings.
From Stdlib Require Import ZArith Lia Strings.Byte.
From S2P Require Import Prelude Bytes BTreeMap DecStr Bencode BencodeTotal BencodeRoundtrip BencodeAccess Convert Nom WriteBytes PeerMessage PeerExtended PeerWire.

(** ** Wire format *)

Definition header (len : Z) (id : byte) : bytes := be_bytes 4 len ++ [id].
Definition block_bytes (index offset length : Z) : bytes := be_bytes 4 index ++ be_bytes 4 offset ++ be_bytes 4 length.

Definition ut_bytes (m : UtMetadataMessage) : bytes :=
  match m with
  | UtRequest r => encode (ut_piece_bencode REQUEST_MESSAGE_TYPE_ID (utreq_piece r))
  | UtData d => encode (ut_data_bencode (utdata_piece d) (total_size d)) ++ utdata_data d
  | UtReject r => encode (ut_piece_bencode REJECT_MESSAGE_TYPE_ID (utrej_piece r))
  end.

Definition bits_ext_bytes (m : BitsExtensionMessage) : bytes :=
  match m with
  | Port msg => header PORT_MESSAGE_LEN PORT_MESSAGE_ID ++ be_bytes 2 (port msg)
  | Extended msg => header (Z.of_nat (2 + bencode_size msg)) EXTENDED_MESSAGE_ID ++ [EXTENDED_MESSAGE_HANDSHAKE_ID] ++ raw_bencode msg
  end.

(** The bytes of a message, given those of an extension. *)
Definition wire_bytes {M} (ext_bytes : M -> bytes) (m : PeerWireProtocolMessage M) : bytes :=
  match m with
  | KeepAlive => be_bytes 4 KEEP_ALIVE_MESSAGE_LEN
  | Choke => header CHOKE_MESSAGE_LEN CHOKE_MESSAGE_ID
  | UnChoke => header UNCHOKE_MESSAGE_LEN UNCHOKE_MESSAGE_ID
  | Interested => header INTERESTED_MESSAGE_LEN INTERESTED_MESSAGE_ID
  | UnInterested => header UNINTERESTED_MESSAGE_LEN UNINTERESTED_MESSAGE_ID
  | Have msg => header HAVE_MESSAGE_LEN HAVE_MESSAGE_ID ++ be_bytes 4 (have_piece_index msg)
  | BitField msg => header (Z.of_nat (1 + length (bitfield msg))) BITFIELD_MESSAGE_ID ++ bitfield msg
  | Request msg => header REQUEST_MESSAGE_LEN REQUEST_MESSAGE_ID ++
      block_bytes (req_piece_index msg) (req_block_offset msg) (Z.of_nat (req_block_length msg))
  | Piece msg => header (Z.of_nat (9 + length (pm_block msg))) PIECE_MESSAGE_ID ++
      be_bytes 4 (pm_piece_index msg) ++ be_bytes 4 (pm_block_offset msg) ++ pm_block msg
  | Cancel msg => header CANCEL_MESSAGE_LEN CANCEL_MESSAGE_ID ++
      block_bytes (can_piece_index msg) (can_block_offset msg) (Z.of_nat (can_block_length msg))
  | BitsExtension ext => bits_ext_bytes ext
  | ProtExtension ext => ext_bytes ext
  end.

(** A buffer that holds exactly one message. *)
Definition framed (bs : bytes) : Prop := 4 <= length bs /\ Z.of_nat (length bs) = (4 + be_value (take 4 bs))%Z.

Definition u32 (z : Z) : Prop := in_unsigned 32 z.
Definition u32_len (n : nat) : Prop := u32 (Z.of_nat n).

(** An extended handshake whose fields are those of its bencode. *)
Definition extended_wf {E} `{IoError E} (m : ExtendedMessage) : Prop :=
  u32_len (2 + bencode_size m) /\
  exists r d, BencodeRef_decode (raw_bencode m) BDecodeOpt_default = Ok r /\
    BConvert.convert_dict (E := E) io_convert r EXTENDED_ROOT_ERROR_KEY = Ok d /\ ext_fields m = read_fields (E := E) d.

Definition bits_ext_wf {E} `{IoError E} (m : BitsExtensionMessage) : Prop :=
  match m with Port msg => in_unsigned 16 (port msg) | Extended msg => extended_wf (E := E) msg end.

(** The messages whose fields fit their place; a keep alive has no id. *)
Definition wire_wf {E M} `{IoError E} (m : PeerWireProtocolMessage M) : Prop :=
  match m with
  | KeepAlive | ProtExtension _ => False
  | Choke | UnChoke | Interested | UnInterested => True
  | Have msg => u32 (have_piece_index msg)
  | BitField msg => u32_len (1 + length (bitfield msg))
  | Request msg => u32 (req_piece_index msg) /\ u32 (req_block_offset msg) /\ u32_len (req_block_length msg)
  | Piece msg => u32 (pm_piece_index msg) /\ u32 (pm_block_offset msg) /\ u32_len (9 + length (pm_block msg))
  | Cancel msg => u32 (can_piece_index msg) /\ u32 (can_block_offset msg) /\ u32_len (can_block_length msg)
  | BitsExtension ext => bits_ext_wf (E := E) ext
  end.

(** ** Numbers *)

Lemma u32_to_usize_ok z : u32 z -> u32_to_usize z = Some (Z.to_nat z).
Proof.
  intros [H1 H2]. unfold u32_to_usize. rewrite (as_unsigned_id 64), (as_unsigned_id 32) by (split; lia). by rewrite decide_False by auto.
Qed.

Lemma be_value_header len id body : u32 len -> be_value (take 4 (header len id ++ body)) = len.
Proof.
  intros Hl. unfold header. rewrite <- app_assoc, take_app_length' by (by rewrite length_be_bytes). by apply (unsigned_word 4 32).
Qed.

Lemma length_header len id : length (header len id) = 5.
Proof. unfold header. by rewrite length_app, length_be_bytes. Qed.

Lemma framed_header len id body : u32 len -> len = Z.of_nat (1 + length body) -> framed (header len id ++ body).
Proof. intros Hu Hl. split; rewrite length_app, length_header; [lia|]. rewrite be_value_header by done. lia. Qed.

Lemma framed_u32 bs : framed bs -> u32 (be_value (take 4 bs)).
Proof.
  intros [Hl _]. apply (unsigned_value 4 32); [|done]. rewrite length_take. lia.
Qed.

Section parse.
Context {N : Nom} {NS : NomSpec N}.

(** ** Headers *)

Lemma be_u32_read bs : 4 <= length bs -> be_u32 bs = Done (drop 4 bs) (be_value (take 4 bs)).
Proof. intros Hl. apply equiv_Done. rewrite be_u32_spec. unfold word_of. by rewrite decide_True. Qed.

Lemma be_u32_short bs : length bs < 4 -> exists n, be_u32 bs = Incomplete n.
Proof. intros Hl. pose proof (be_u32_spec bs) as Hs. unfold word_of in Hs. rewrite decide_False in Hs by lia. destruct (be_u32 bs); try done. eauto. Qed.

Lemma be_u8_read b bs : be_u8 (b :: bs) = Done bs b.
Proof. apply equiv_Done. by rewrite be_u8_spec. Qed.

Lemma be_u8_empty : exists n, be_u8 [] = Incomplete n.
Proof. pose proof (be_u8_spec []) as Hs. destruct (be_u8 []); try done. eauto. Qed.

Lemma opt_Done {A} (p : parser A) i r a : p i = Done r a -> opt p i = Done r (Some a).
Proof. intros Hp. apply equiv_Done. destruct (opt_spec p i) as [Ho|[_ Ho]]; rewrite Hp in Ho; [done|discriminate]. Qed.

Lemma throwaway_Done {A} (x : IResult nom_error A) r a : x ≡ Done r a -> throwaway_input x = Done [] a.
Proof. intros ->%equiv_Done. done. Qed.

Lemma read_id len id body : u32 len ->
  throwaway_input (tuple be_u32 be_u8 (header len id ++ body)) = Done [] (len, id) /\
  throwaway_input (tuple be_u32 (opt be_u8) (header len id ++ body)) = Done [] (len, Some id).
Proof.
  intros Hl. assert (be_u32 (header len id ++ body) = Done (id :: body) len) as Hb.
  { unfold header. rewrite <- app_assoc. by apply parses_u32. }
  split; eapply throwaway_Done; rewrite tuple_spec, Hb; cbn [and_then].
  - by rewrite be_u8_read.
  - by rewrite (opt_Done _ _ _ _ (be_u8_read id body)).
Qed.

Lemma read_ids len id id' body : u32 len ->
  throwaway_input (tuple be_u32 (tuple be_u8 be_u8) (header len id ++ id' :: body)) = Done [] (len, (id, id')).
Proof.
  intros Hl. assert (be_u32 (header len id ++ id' :: body) = Done (id :: id' :: body) len) as Hb.
  { unfold header. rewrite <- app_assoc. by apply parses_u32. }
  eapply throwaway_Done. rewrite tuple_spec, Hb. cbn [and_then]. rewrite tuple_spec, be_u8_read. cbn [and_then]. by rewrite be_u8_read.
Qed.

Lemma switch_None {A B} (p : parser A) (f : A -> option (parser B)) i r a : p i = Done r a -> f a = None -> exists e, switch p f i = Error e.
Proof.
  destruct some_error as [e _]. intros Hp Hf. pose proof (switch_spec p f i e) as Hs. rewrite Hp in Hs. cbn in Hs. rewrite Hf in Hs.
  destruct (switch p f i); try done. eauto.
Qed.

Lemma map_Done {A B} (p : parser A) (f : A -> B) i r a : p i = Done r a -> nom_map p f i = Done r (f a).
Proof. intros Hp. apply equiv_Done. by rewrite map_spec, Hp. Qed.

Lemma split_header {A} len id body (f : bytes -> parser A) i : with_split_off (header len id ++ body) HEADER_LEN f i = f body i.
Proof.
  unfold with_split_off. rewrite decide_True by (rewrite length_app, length_header; change HEADER_LEN with 5; lia).
  by rewrite drop_app_length' by (by rewrite length_header).
Qed.

Lemma with_sub_ok {A} len k (f : Z -> parser A) i : (k <= len)%Z -> with_sub len k f i = f (len - k)%Z i.
Proof. intros Hk. unfold with_sub. by rewrite decide_False by lia. Qed.

(** ** Standard messages *)

Context {E : Type} `{IoError E}.

Lemma have_read index body : u32 index -> HaveMessage_parse_bytes (E := E) (be_bytes 4 index) body = Done [] (Ok (HaveMessage_new index)).
Proof.
  intros Hi. unfold HaveMessage_parse_bytes. eapply throwaway_Done. unfold parse_have. rewrite map_spec.
  pose proof (parses_u32 index Hi []) as Hp. rewrite app_nil_r in Hp. by rewrite Hp.
Qed.

Lemma block_read {A} (f : Z -> Z -> nat -> A) index offset n : u32 index -> u32 offset -> u32_len n ->
  throwaway_input (parse_block_of (E := E) f (block_bytes index offset (Z.of_nat n))) = Done [] (Ok (f index offset n)).
Proof.
  intros Hi Ho Hn. eapply throwaway_Done with (r := []). unfold parse_block_of, block_bytes. rewrite do_parse_spec.
  pose proof (parses_tuple _ _ _ _ _ _ (parses_u32 index Hi) (parses_tuple _ _ _ _ _ _ (parses_u32 offset Ho) (parses_u32 _ Hn)) []) as Hp.
  rewrite app_nil_r in Hp. rewrite Hp. cbn [and_then]. rewrite u32_to_usize_ok by done. by rewrite Nat2Z.id.
Qed.

Lemma piece_read index offset block i : u32 index -> u32 offset -> u32_len (9 + length block) ->
  PieceMessage_parse_bytes (E := E) (be_bytes 4 index ++ be_bytes 4 offset ++ block) (Z.of_nat (9 + length block) - 1) i =
  Done [] (Ok (PieceMessage_new index offset block)).
Proof.
  intros Hi Ho Hn. unfold PieceMessage_parse_bytes. eapply throwaway_Done with (r := []). unfold parse_piece.
  rewrite do_parse_spec, (parses_u32 index Hi). cbn [and_then]. rewrite do_parse_spec, (parses_u32 offset Ho). cbn [and_then].
  rewrite do_parse_spec, with_sub_ok by lia. replace (Z.of_nat (9 + length block) - 1 - 8)%Z with (Z.of_nat (length block)) by lia.
  rewrite u32_to_usize_ok by (unfold u32_len, u32, in_unsigned in *; lia). rewrite value_spec. cbn [and_then]. rewrite Nat2Z.id.
  pose proof (parses_take (length block) block eq_refl []) as Ht. rewrite app_nil_r in Ht.
  rewrite do_parse_spec, map_spec, Ht. cbn [and_then]. rewrite value_spec.
  unfold slice. rewrite app_assoc, drop_app_length' by (by rewrite length_app, !length_be_bytes).
  by rewrite take_ge by lia.
Qed.

Lemma bitfield_read bs i : u32_len (1 + length bs) ->
  BitFieldMessage_parse_bytes (E := E) bs (Z.of_nat (1 + length bs) - 1) i = Done [] (Ok (BitFieldMessage_new bs)).
Proof.
  intros Hn. unfold BitFieldMessage_parse_bytes. rewrite u32_to_usize_ok by (unfold u32_len, u32, in_unsigned in *; lia).
  replace (Z.to_nat (Z.of_nat (1 + length bs) - 1)) with (length bs) by lia. rewrite decide_True by lia. by rewrite take_ge by lia.
Qed.

Context {M : Type}.

(** Reading a message of a known header. *)
Lemma standard_read_arm len id body (q : parser (outcome E (PeerWireProtocolMessage M))) m : u32 len ->
  standard_arm (header len id ++ body) len (Some id) = Some q -> q [] ≡ Done [] (Ok m) -> parse_standard (E := E) (header len id ++ body) [] = Done [] (Ok m).
Proof.
  intros Hl Hq Hm. apply equiv_Done. unfold parse_standard. destruct (read_id len id body Hl) as [_ Hr].
  by rewrite (switch_Done _ _ _ _ _ q Hr Hq).
Qed.

Definition is_standard (m : PeerWireProtocolMessage M) : Prop := match m with BitsExtension _ => False | _ => True end.

Lemma standard_read ext_bytes (m : PeerWireProtocolMessage M) : wire_wf (E := E) m -> is_standard m ->
  parse_standard (E := E) (wire_bytes ext_bytes m) [] = Done [] (Ok m).
Proof.
  intros Hm Hs. destruct m as [| | | | |[index]|[bs]|[index offset n]|[index offset block]|[index offset n]|ext|ext]; try done; cbn [wire_bytes].
  1-4: rewrite <- (app_nil_r (header _ _)); eapply standard_read_arm; [done|reflexivity|by rewrite value_spec].
  - eapply standard_read_arm; [done|reflexivity|]. rewrite (map_Done _ _ [] [] (Ok (HaveMessage_new index))); [done|].
    rewrite split_header. by apply have_read.
  - eapply standard_read_arm; [done| |].
    + unfold standard_arm. repeat rewrite decide_False by (by intros [_ ?]). by rewrite decide_True.
    + rewrite (map_Done _ _ [] [] (Ok (BitFieldMessage_new bs))); [done|]. rewrite with_sub_ok, split_header by (cbn; lia). by apply bitfield_read.
  - destruct Hm as (Hi & Ho & Hn). eapply standard_read_arm; [done|reflexivity|].
    rewrite (map_Done _ _ [] [] (Ok (RequestMessage_new index offset n))); [done|]. rewrite split_header. by apply block_read.
  - destruct Hm as (Hi & Ho & Hn). eapply standard_read_arm; [done| |].
    + unfold standard_arm. repeat rewrite decide_False by (done || by intros [_ ?]). by rewrite decide_True.
    + rewrite (map_Done _ _ [] [] (Ok (PieceMessage_new index offset block))); [done|]. rewrite with_sub_ok, split_header by (cbn; lia). by apply piece_read.
  - destruct Hm as (Hi & Ho & Hn). eapply standard_read_arm; [done|reflexivity|].
    rewrite (map_Done _ _ [] [] (Ok (CancelMessage_new index offset n))); [done|]. rewrite split_header. by apply block_read.
Qed.

(** The ids of the extensions are not those of a standard message. *)
Lemma standard_other len id body : u32 len -> id = PORT_MESSAGE_ID \/ id = EXTENDED_MESSAGE_ID ->
  exists e, parse_standard (M := M) (E := E) (header len id ++ body) [] = Error e.
Proof.
  intros Hl Hid. destruct (read_id len id body Hl) as [_ Hr]. unfold parse_standard. eapply switch_None; [exact Hr|].
  unfold standard_arm. destruct Hid as [-> | ->]; repeat rewrite decide_False by (done || by intros [_ ?]); done.
Qed.

(** ** Extension bits *)

Lemma alt_Done {A} (p q : parser A) i r a : p i = Done r a -> alt p q i = Done r a.
Proof. intros Hp. apply equiv_Done. by rewrite alt_spec, Hp. Qed.

Lemma alt_second {A} (p q : parser A) i r a : (exists e, p i = Error e) -> q i = Done r a -> alt p q i = Done r a.
Proof. intros [e Hp] Hq. apply equiv_Done. rewrite alt_spec, Hp. cbn. by rewrite Hq. Qed.

Lemma alt_Error {A} (p q : parser A) i : (exists e, p i = Error e) -> (exists e, q i = Error e) -> exists e, alt p q i = Error e.
Proof.
  intros [e1 H1] [e2 H2]. pose proof (alt_spec p q i) as Ha. rewrite H1 in Ha. cbn in Ha. rewrite H2 in Ha. destruct (alt p q i); try done. eauto.
Qed.

Lemma extended_read msg i : extended_wf (E := E) msg ->
  ExtendedMessage_parse_bytes (E := E) (raw_bencode msg) (Z.of_nat (2 + bencode_size msg) - 2) i = Done [] (Ok msg).
Proof.
  intros (Hl & r & d & Hr & Hd & Hf). unfold ExtendedMessage_parse_bytes, bencode_size in *.
  rewrite u32_to_usize_ok by (unfold u32_len, u32, in_unsigned in *; lia).
  replace (Z.to_nat (Z.of_nat (2 + length (raw_bencode msg)) - 2)) with (length (raw_bencode msg)) by lia. rewrite decide_True by lia.
  rewrite take_ge by lia. rewrite Hr. cbn [map_err mbind outcome_bind]. rewrite Hd. cbn [mbind outcome_bind]. rewrite <- Hf. by destruct msg.
Qed.

Lemma bits_ext_read m : bits_ext_wf (E := E) m -> parse_extension (E := E) (bits_ext_bytes m) [] = Done [] (Ok m).
Proof.
  intros Hm. unfold parse_extension. destruct m as [[p]|msg]; cbn [bits_ext_bytes].
  - apply alt_Done. destruct (read_id PORT_MESSAGE_LEN PORT_MESSAGE_ID (be_bytes 2 p)) as [Hr _]; [done|].
    apply equiv_Done. erewrite switch_Done; [|exact Hr|cbn beta iota; rewrite decide_True by done; reflexivity].
    rewrite (map_Done _ _ [] [] (Ok (PortMessage_new p))); [done|]. rewrite split_header. unfold PortMessage_parse_bytes, parse_port. cbn [port].
    pose proof (parses_map _ PortMessage_new _ _ (parses_u16 p Hm) []) as Hp. rewrite app_nil_r in Hp. by rewrite Hp.
  - pose proof (proj1 Hm) as Hl. apply alt_second.
    + destruct (read_id _ EXTENDED_MESSAGE_ID ([EXTENDED_MESSAGE_HANDSHAKE_ID] ++ raw_bencode msg) Hl) as [Hr _].
      eapply switch_None; [exact Hr|]. cbn beta iota. by rewrite decide_False by (by intros [_ ?]).
    + pose proof (read_ids _ EXTENDED_MESSAGE_ID EXTENDED_MESSAGE_HANDSHAKE_ID (raw_bencode msg) Hl) as Hr.
      apply equiv_Done. erewrite switch_Done; [|exact Hr|cbn beta iota; rewrite decide_True by done; reflexivity].
      rewrite (map_Done _ _ [] [] (Ok msg)); [done|]. rewrite with_sub_ok by lia. unfold with_split_off.
      rewrite decide_True by (rewrite !length_app, length_header; change (HEADER_LEN + 1) with 6; cbn; lia).
      rewrite app_assoc, drop_app_length' by (by rewrite length_app, length_header). by apply extended_read.
Qed.

End parse.

(** ** Writing *)

Section write.
Context {W E : Type} {WR : Write W E} {WS : WriteSpec W E} {WE : WriteBytesExt W E} {WB : WriteBytesSpec W E}.

Lemma writes_header len id : writes (write_length_id_pair len (Some id)) (header len id) [].
Proof. unfold write_length_id_pair, header. apply writes_bind; auto with rbt. Qed.

Lemma writes_block (index offset length : Z) :
  writes (_ ← write_u32 index; _ ← write_u32 offset; write_u32 length) (block_bytes index offset length) [].
Proof. unfold block_bytes. apply writes_bind; [auto with rbt|]. apply writes_bind; auto with rbt. Qed.

Lemma as_u32_len n : u32_len n -> as_unsigned 32 (Z.of_nat n) = Z.of_nat n.
Proof. apply as_unsigned_id. Qed.

(** What a write leaves when there is room. *)
Definition written_by (m : stM W E ()) (bs : bytes) : Prop :=
  forall w, writer_wf w -> fits w (length bs) -> exists w', m w = (Ok (), w') /\ appends w w' bs.

Lemma writes_written m bs : writes m bs [] -> written_by m bs.
Proof. intros Hm w Hw Hf. destruct (Hm w Hw) as [Hx _]. rewrite app_nil_r in Hx. apply Hx. cbn. by rewrite Nat.add_0_r. Qed.

Lemma written_bind m m' bs bs' : written_by m bs -> written_by m' bs' -> written_by (m ≫= fun _ => m') (bs ++ bs').
Proof.
  intros Hm Hm' w Hw Hf. rewrite length_app in Hf. destruct (Hm w Hw) as (w1 & H1 & Ha); [eapply fits_le; [done|lia]|].
  destruct (Hm' w1) as (w2 & H2 & Ha2); [apply Ha|eapply fits_app; [done|eapply fits_le; [done|lia]|done]|].
  exists w2. split; [by rewrite (stM_bind_ok _ _ _ _ _ H1)|by eapply appends_app].
Qed.

Lemma written_ignore m bs : written_by m bs -> written_by (ignore_result m) bs.
Proof. intros Hm w Hw Hf. destruct (Hm w Hw Hf) as (w' & Hx & Ha). exists w'. split; [|done]. unfold ignore_result. by rewrite Hx. Qed.

Lemma extended_written msg : u32_len (2 + bencode_size msg) -> written_by (ExtendedMessage_write_bytes msg) (bits_ext_bytes (Extended msg)).
Proof.
  intros Hl. unfold ExtendedMessage_write_bytes. rewrite as_u32_len by done. cbn [bits_ext_bytes]. apply written_bind; [apply writes_written, writes_header|].
  apply written_bind; [apply written_ignore, writes_written, writes_all|apply writes_written, writes_all].
Qed.

End write.

(** ** Frames do not make the parsers panic *)

Section safe.
Context {N : Nom} {NS : NomSpec N} {E : Type} `{IoError E}.

(** A call that comes back, whatever it says. *)
Definition safe {A} (x : IResult nom_error (outcome E A)) : Prop :=
  match x with Done _ r => returns r | Panicked | OutOfFuel => False | _ => True end.

Lemma safe_equiv {A} (x y : IResult nom_error (outcome E A)) : x ≡ y -> safe y -> safe x.
Proof. apply (yields_equiv x y returns). Qed.

Lemma safe_map {A B} (p : parser (outcome E A)) (f : A -> B) i : safe (p i) -> safe (nom_map p (map_result f) i).
Proof.
  intros Hp. eapply safe_equiv; [apply map_spec|]. destruct (p i) as [r a| | | |]; try done. cbn in *. by destruct a.
Qed.

Lemma safe_throwaway {A} (p : parser (outcome E A)) i : yields p returns -> safe (throwaway_input (p i)).
Proof. intros Hp. specialize (Hp i). by destruct (p i). Qed.

Lemma safe_have bs i : safe (HaveMessage_parse_bytes (E := E) bs i).
Proof. apply safe_throwaway. eapply yields_map; [apply yields_u32|done]. Qed.

Lemma safe_bitfield bs len i : u32 len -> safe (BitFieldMessage_parse_bytes (E := E) bs len i).
Proof. intros Hl. unfold BitFieldMessage_parse_bytes. rewrite u32_to_usize_ok by done. by case_decide. Qed.

Lemma safe_block {A} (f : Z -> Z -> nat -> A) bs : safe (throwaway_input (parse_block_of (E := E) f bs)).
Proof.
  apply safe_throwaway. eapply yields_do; [eapply yields_tuple; [apply yields_u32|eapply yields_tuple; apply yields_u32]|].
  intros [index [offset len]] (_ & _ & Hl) i. cbn in Hl. by rewrite u32_to_usize_ok.
Qed.

(** Eight bytes are there before eight are taken off the length. *)
Lemma safe_piece bs len i : u32 len -> len = Z.of_nat (length bs) -> safe (PieceMessage_parse_bytes (E := E) bs len i).
Proof.
  intros Hu Hl. unfold PieceMessage_parse_bytes.
  assert (safe (parse_piece (E := E) bs len bs)) as Hs; [|by destruct (parse_piece bs len bs)].
  unfold parse_piece. eapply safe_equiv; [apply do_parse_spec|]. destruct (decide (4 <= length bs)) as [H4|H4].
  2: { destruct (be_u32_short bs) as [n ->]; [lia|done]. }
  rewrite be_u32_read by done. cbn [and_then]. eapply safe_equiv; [apply do_parse_spec|]. destruct (decide (8 <= length bs)) as [H8|H8].
  2: { destruct (be_u32_short (drop 4 bs)) as [n ->]; [rewrite length_drop; lia|done]. }
  rewrite be_u32_read by (rewrite length_drop; lia). cbn [and_then]. eapply safe_equiv; [apply do_parse_spec|].
  rewrite with_sub_ok, u32_to_usize_ok by (unfold u32, in_unsigned in *; lia). eapply safe_equiv; [by rewrite value_spec|]. cbn [and_then].
  eapply (yields_do _ _ (fun _ => True) returns); [eapply yields_map; [apply yields_take|done]|]. intros block _. by apply yields_value.
Qed.

Lemma safe_extended bs len i : u32 len -> safe (ExtendedMessage_parse_bytes (E := E) bs len i).
Proof.
  intros Hl. unfold ExtendedMessage_parse_bytes. rewrite u32_to_usize_ok by done. case_decide; [|done]. cbn [safe].
  apply returns_bind; [by pose proof (BencodeRef_decode_returns (take (Z.to_nat len) bs) BDecodeOpt_default); destruct (BencodeRef_decode _ _)|].
  intros r _. apply returns_bind; [|done]. unfold BConvert.convert_dict. by destruct (bra_dict r).
Qed.

Lemma safe_port bs i : safe (PortMessage_parse_bytes (E := E) bs i).
Proof.
  unfold PortMessage_parse_bytes. assert (yields parse_port (fun _ => True)) as Hy by (eapply yields_map; [apply yields_u16|done]).
  specialize (Hy bs). by destruct (parse_port bs).
Qed.

(** A frame is a bare length of zero, or a header with the rest of the message. *)
Lemma framed_cases bs : framed bs ->
  length bs = 4 /\ be_value (take 4 bs) = 0%Z \/
  exists len id body, bs = header len id ++ body /\ u32 len /\ len = Z.of_nat (1 + length body).
Proof.
  intros Hf. pose proof (framed_u32 bs Hf) as Hu. destruct Hf as [H4 Hl]. destruct (drop 4 bs) as [|id body] eqn:Ed.
  - left. pose proof (length_drop bs 4) as Hd. rewrite Ed in Hd. cbn in Hd. lia.
  - right. exists (be_value (take 4 bs)), id, body. pose proof (length_drop bs 4) as Hd. rewrite Ed in Hd. cbn in Hd. split_and!; [|done|lia].
    unfold header. rewrite be_bytes_be_value by (rewrite length_take; lia). rewrite <- app_assoc. cbn. by rewrite <- Ed, take_drop.
Qed.

(** Reading a bare length: the id is missing, or not decided. *)
Lemma read_bare bs : length bs = 4 ->
  (exists n, throwaway_input (tuple be_u32 (opt be_u8) bs) = Incomplete n) \/
  throwaway_input (tuple be_u32 (opt be_u8) bs) = Done [] (be_value (take 4 bs), None).
Proof.
  intros Hl. pose proof (tuple_spec be_u32 (opt be_u8) bs) as Ht. rewrite be_u32_read, drop_ge in Ht by lia. cbn [and_then] in Ht.
  destruct be_u8_empty as [n Hn]. destruct (opt_spec be_u8 []) as [Ho|[Ho _]]; rewrite Ho in Ht.
  - rewrite Hn in Ht. cbn in Ht. left. destruct (tuple be_u32 (opt be_u8) bs); try done. eauto.
  - right. by apply throwaway_Done in Ht.
Qed.

Lemma safe_switch {A B} (p : parser A) (f : A -> option (parser (outcome E B))) i r a :
  p i = Done r a -> (forall q, f a = Some q -> safe (q r)) -> safe (switch p f i).
Proof.
  destruct some_error as [e _]. intros Hp Hf. eapply safe_equiv; [apply (switch_spec _ _ _ e)|]. rewrite Hp. cbn.
  destruct (f a) as [q|] eqn:Ef; [by apply Hf|done].
Qed.

Lemma safe_value {A} (a : A) i : safe (value (Ok a : outcome E A) i).
Proof. eapply safe_equiv; [apply value_spec|]. done. Qed.

Lemma safe_standard {M} bs : framed bs -> safe (parse_standard (M := M) (E := E) bs []).
Proof.
  intros Hf. unfold parse_standard. destruct (framed_cases bs Hf) as [[Hl Hz]|(len & id & body & -> & Hu & Hlen)].
  - destruct (read_bare bs Hl) as [[n Hr]|Hr].
    + destruct some_error as [e _]. eapply safe_equiv; [apply (switch_spec _ _ _ e)|]. cbn beta. rewrite Hr. done.
    + eapply safe_switch; [exact Hr|]. intros q. cbn. case_decide; [|done]. intros [= <-]. apply safe_value.
  - destruct (read_id len id body Hu) as [_ Hr]. eapply safe_switch; [exact Hr|]. intros q. cbn [standard_arm].
    repeat case_decide; try done; intros Hq; apply (inj Some) in Hq; subst q; try apply safe_value; apply safe_map; try (rewrite with_sub_ok by lia; cbn beta); rewrite split_header.
    + apply safe_have.
    + apply safe_bitfield. unfold u32, in_unsigned in *. lia.
    + apply safe_block.
    + apply safe_piece; [unfold u32, in_unsigned in *; lia|lia].
    + apply safe_block.
Qed.

Lemma safe_alt {A} (p q : parser (outcome E A)) i : safe (p i) -> safe (q i) -> safe (alt p q i).
Proof. intros Hp Hq. eapply safe_equiv; [apply alt_spec|]. by destruct (p i). Qed.

(** Reading two ids; without the second one the frame is too short. *)
Lemma read_ids_framed len id body : u32 len ->
  (exists n, throwaway_input (tuple be_u32 (tuple be_u8 be_u8) (header len id ++ body)) = Incomplete n) \/
  exists id' body', body = id' :: body' /\ throwaway_input (tuple be_u32 (tuple be_u8 be_u8) (header len id ++ body)) = Done [] (len, (id, id')).
Proof.
  intros Hu. destruct body as [|id' body']; [left|right; exists id', body'; split; [done|by apply read_ids]].
  pose proof (tuple_spec be_u32 (tuple be_u8 be_u8) (header len id ++ [])) as Ht.
  assert (be_u32 (header len id ++ []) = Done [id] len) as Hb by (unfold header; rewrite <- app_assoc; by apply parses_u32).
  rewrite Hb in Ht. cbn [and_then] in Ht. rewrite (tuple_spec be_u8 be_u8), be_u8_read in Ht. cbn [and_then] in Ht. destruct be_u8_empty as [n Hn]. rewrite Hn in Ht.
  cbn in Ht. destruct (tuple be_u32 (tuple be_u8 be_u8) _); try done. eauto.
Qed.

Lemma read_ids_bare bs : length bs = 4 -> exists n, throwaway_input (tuple be_u32 (tuple be_u8 be_u8) bs) = Incomplete n.
Proof.
  intros Hl. pose proof (tuple_spec be_u32 (tuple be_u8 be_u8) bs) as Ht. rewrite be_u32_read, drop_ge in Ht by lia. cbn [and_then] in Ht.
  destruct be_u8_empty as [n Hn]. rewrite (tuple_spec be_u8 be_u8), Hn in Ht. cbn in Ht. destruct (tuple be_u32 (tuple be_u8 be_u8) bs); try done. eauto.
Qed.

Lemma safe_bits_ext bs : framed bs -> safe (parse_extension (E := E) bs []).
Proof.
  destruct some_error as [e _]. intros Hf. unfold parse_extension.
  destruct (framed_cases bs Hf) as [[Hl Hz]|(len & id & body & -> & Hu & Hlen)].
  - apply safe_alt; (eapply safe_equiv; [apply (switch_spec _ _ _ e)|]); cbn beta.
    + assert (exists n, throwaway_input (tuple be_u32 be_u8 bs) = Incomplete n) as [n ->]; [|done].
      pose proof (tuple_spec be_u32 be_u8 bs) as Ht. rewrite be_u32_read, drop_ge in Ht by lia. cbn [and_then] in Ht.
      destruct be_u8_empty as [n Hn]. rewrite Hn in Ht. destruct (tuple be_u32 be_u8 bs); try done. eauto.
    + by destruct (read_ids_bare bs Hl) as [n ->].
  - apply safe_alt.
    + destruct (read_id len id body Hu) as [Hr _]. eapply safe_switch; [exact Hr|]. intros q. cbn beta iota. case_decide; [|done]. intros Hq. apply (inj Some) in Hq. subst q.
      apply safe_map. rewrite split_header. apply safe_port.
    + destruct (read_ids_framed len id body Hu) as [[n Hr]|(id' & body' & -> & Hr)].
      * eapply safe_equiv; [apply (switch_spec _ _ _ e)|]. cbn beta. rewrite Hr. done.
      * eapply safe_switch; [exact Hr|]. intros q. cbn beta iota. case_decide; [|done]. intros Hq. apply (inj Some) in Hq. subst q. apply safe_map. cbn in Hlen.
        rewrite with_sub_ok by lia. unfold with_split_off. rewrite decide_True by (rewrite length_app, length_header; change (HEADER_LEN + 1) with 6; cbn; lia).
        apply safe_extended. unfold u32, in_unsigned in *. lia.
Qed.

End safe.

(** * An extended handshake says what its builder was told

    The bencode of [bencode_from_builder] is read back to the fields of the
    builder, in whatever order the hash maps are walked. *)

(** ** Inserting the pairs of a map *)

Lemma dict_insert_get k key v d : bt_get k (dict_insert key v d) = if decide (k = key) then Some v else bt_get k d.
Proof. unfold dict_insert. cbn. case_decide as Hk; [subst; apply bt_get_insert|by apply bt_get_insert_ne]. Qed.

Lemma dict_insert_opt_get k key o d :
  bt_get k (dict_insert_opt key o d) = if decide (k = key) then from_option Some (bt_get k d) o else bt_get k d.
Proof. destruct o as [v|]; cbn [dict_insert_opt from_option]; [by rewrite dict_insert_get|by case_decide]. Qed.

Lemma dict_insert_opt_wf key o d : bt_wf d -> bt_wf (dict_insert_opt key o d).
Proof. intros Hd. destruct o; [by apply bt_insert_wf|done]. Qed.

Lemma dict_insert_opt_Forall (P : bytes * BencodeMut -> Prop) key o d :
  Forall P d -> from_option (fun v => P (key, v)) True o -> Forall P (dict_insert_opt key o d).
Proof. intros Hd Ho. destruct o; [by apply bt_insert_Forall|done]. Qed.

(** Inserting pairs with distinct keys finds exactly them, and what was there. *)
Lemma insert_all_get (l : list (bytes * BencodeMut)) : forall d k, NoDup l.*1 ->
  bt_get k (foldl (fun d '(key, value) => dict_insert key value d) d l) =
  match list_find (fun p => p.1 = k) l with Some (_, (_, v)) => Some v | None => bt_get k d end.
Proof. intros d k Hl. apply (foldl_insert_get l d k Hl). Qed.

Lemma insert_all_wf (l : list (bytes * BencodeMut)) d : bt_wf d -> bt_wf (foldl (fun d '(key, value) => dict_insert key value d) d l).
Proof. apply (foldl_insert_wf l d). Qed.

Lemma insert_all_Forall (P : bytes * BencodeMut -> Prop) (l : list (bytes * BencodeMut)) : forall d, Forall P d -> Forall P l ->
  Forall P (foldl (fun d '(key, value) => dict_insert key value d) d l).
Proof.
  induction l as [|[k v] l IH]; intros d Hd Hl; [done|]. apply Forall_cons in Hl as [Hk Hl]. cbn [foldl]. apply IH; [by apply bt_insert_Forall|done].
Qed.

Lemma insert_all_None (l : list (bytes * BencodeMut)) d k : NoDup l.*1 -> k ∉ l.*1 ->
  bt_get k (foldl (fun d '(key, value) => dict_insert key value d) d l) = bt_get k d.
Proof.
  intros Hl Hk. rewrite insert_all_get by done. destruct (list_find _ l) as [[i [k' v]]|] eqn:E; [|done].
  apply list_find_Some in E as (Hi & Hk' & _). cbn in Hk'. subst k'. exfalso. apply Hk. apply list_elem_of_lookup_2 in Hi. by apply (list_elem_of_fmap_2 fst) in Hi.
Qed.

Lemma bt_wf_NoDup {V} (d : list (bytes * V)) : bt_wf d -> NoDup d.*1.
Proof.
  induction d as [|[k v] d IH]; intros Hd; [constructor|]. apply bt_wf_cons in Hd as [Hd Hk]. apply NoDup_cons. split; [|by apply IH].
  intros Hin. by apply (bytes_lt_irrefl k), Hk.
Qed.

(** The map left by inserting pairs under images of their keys. *)
Lemma fold_insert_lookup {A B K V} `{Countable K} (f : A -> K) (g : B -> V) (l : list (A * B)) : forall (m : gmap K V) t x,
  NoDup (f <$> l.*1) ->
  foldl (fun m '(a, b) => <[f a := g b]> m) m l !! t = Some x <->
  (exists a b, (a, b) ∈ l /\ f a = t /\ g b = x) \/ (t ∉ f <$> l.*1) /\ m !! t = Some x.
Proof.
  induction l as [|[a b] l IH]; intros m t x Hl; cbn [foldl fmap list_fmap fst] in *.
  - split; [intros Hm; right; split; [apply not_elem_of_nil|done]|]. intros [(a & b & Hab & _)|[_ Hm]]; [by apply elem_of_nil in Hab|done].
  - apply NoDup_cons in Hl as [Ha Hl]. rewrite IH by done. split.
    + intros [(a' & b' & Hab & Hf & Hg)|[Hn Hm]]; [left; exists a', b'; split; [by right|done]|].
      destruct (decide (t = f a)) as [->|Hne].
      * rewrite lookup_insert_eq in Hm. left. exists a, b. split; [left|]. split; [done|]. congruence.
      * rewrite lookup_insert_ne in Hm by done. right. split; [|done]. by apply not_elem_of_cons.
    + intros [(a' & b' & Hab & Hf & Hg)|[Hn Hm]].
      * apply elem_of_cons in Hab as [[= -> ->]|Hab]; [|left; eauto]. right. subst t. split; [done|]. rewrite lookup_insert_eq. by subst x.
      * apply not_elem_of_cons in Hn as [Hne Hn]. right. split; [done|]. by rewrite lookup_insert_ne.
Qed.

(** ** The ids *)

(** A type that is the one its id names. *)
Definition canonical_type (t : ExtendedType) : Prop :=
  from_id (ExtendedType_id t) = t /\ from_utf8 (ExtendedType_id t) = Some (ExtendedType_id t) /\ (Z.of_nat (length (ExtendedType_id t)) < 2 ^ 63)%Z.

Lemma canonical_inj t u : canonical_type t -> canonical_type u -> ExtendedType_id t = ExtendedType_id u -> t = u.
Proof. intros (Ht & _) (Hu & _) He. by rewrite <- Ht, <- Hu, He. Qed.

(** The pairs a hash map is walked in. *)
Definition walks {K V} `{Countable K} (order : gmap K V -> list (K * V)) : Prop := forall m, order m ≡ₚ map_to_list m.

Section ids.
Context (id_order : gmap ExtendedType byte -> list (ExtendedType * byte)) (Hids : walks id_order).
Context (ids : gmap ExtendedType byte) (Hcan : map_Forall (fun t _ => canonical_type t) ids).

Definition id_kvs : list (bytes * BencodeMut) := (fun p => (ExtendedType_id p.1, MInt (byte_val p.2))) <$> id_order ids.
Definition id_entries : list (bytes * BencodeMut) := foldl (fun d '(key, value) => dict_insert key value d) [] id_kvs.

Lemma id_map_bencode_eq : id_map_bencode id_order ids = MDict id_entries.
Proof.
  unfold id_map_bencode, id_entries, id_kvs. f_equal. generalize (@nil (bytes * BencodeMut)) as d.
  induction (id_order ids) as [|[t v] l IH]; intros d; [done|]. cbn. apply IH.
Qed.

Lemma id_order_elem t v : (t, v) ∈ id_order ids <-> ids !! t = Some v.
Proof using Hids. rewrite (Hids ids). apply elem_of_map_to_list. Qed.

Lemma id_kvs_keys : NoDup id_kvs.*1.
Proof using Hids Hcan.
  unfold id_kvs. rewrite <- list_fmap_compose. assert (NoDup (id_order ids).*1) as Hnd by (rewrite (Hids ids); apply NoDup_fst_map_to_list).
  assert (forall t v, (t, v) ∈ id_order ids -> canonical_type t) as Hc by (intros t v Hin%id_order_elem; by apply (Hcan t v)).
  clear Hids. induction (id_order ids) as [|[t v] l IH]; [constructor|]. cbn in *. apply NoDup_cons in Hnd as [Ht Hnd]. apply NoDup_cons. split.
  - intros ([u w] & Hu & Hin)%list_elem_of_fmap. cbn in Hu. apply Ht. apply (list_elem_of_fmap_2 fst) in Hin as Hin'. cbn in Hin'.
    rewrite (canonical_inj t u); [done|apply (Hc t v); left|apply (Hc u w); by right|done].
  - apply IH; [done|]. intros u w Hin. apply (Hc u w). by right.
Qed.

Lemma id_entries_wf : bt_wf id_entries.
Proof. apply insert_all_wf, bt_wf_nil. Qed.

Lemma id_entries_elem k v : (k, v) ∈ id_entries <-> exists t b, ids !! t = Some b /\ k = ExtendedType_id t /\ v = MInt (byte_val b).
Proof using Hids Hcan.
  assert ((k, v) ∈ id_entries <-> (k, v) ∈ id_kvs) as ->.
  { split.
    - intros Hin%bt_elem_get; [|apply id_entries_wf]. by apply (ben_map_get id_kvs k v id_kvs_keys).
    - intros Hin. apply bt_get_Some_elem. by apply (ben_map_get id_kvs k v id_kvs_keys). }
  unfold id_kvs. rewrite list_elem_of_fmap. split.
  - intros ([t b] & [= -> ->] & Hin%id_order_elem). eauto.
  - intros (t & b & Hin%id_order_elem & -> & ->). by exists (t, b).
Qed.

Lemma id_entries_shallow : shallow 2 (MDict id_entries).
Proof using Hids Hcan.
  apply (shallow_dict 1 id_kvs); [apply id_kvs_keys|]. unfold id_kvs. apply Forall_fmap, Forall_forall. intros [t b] Hin%id_order_elem. cbn.
  destruct (Hcan t b Hin) as (_ & _ & Hl). split; [done|]. apply shallow_int. pose proof (byte_val_range b). unfold in_signed. lia.
Qed.

(** The id map is read back. *)
Lemma ids_read_back {E} `{IoError E} (root : list (bytes * BencodeMut)) : bt_get ID_MAP_KEY root = Some (MDict id_entries) ->
  parse_id_map (E := E) (annotate_entry <$> root) = ids.
Proof using Hids Hcan.
  intros Hg. unfold parse_id_map, BConvert.lookup_and_convert_dict. rewrite lookup_written, Hg. cbn [mbind outcome_bind].
  change (BConvert.convert_dict (E := E) io_convert (annotate (MDict id_entries)) ID_MAP_KEY) with (Ok (E := E) (annotate_entry <$> id_entries)).
  unfold BDict.to_list.
  assert (Forall (fun p : bytes * BencodeMut => exists t b, ids !! t = Some b /\ p = (ExtendedType_id t, MInt (byte_val b))) id_entries) as Hall.
  { apply Forall_forall. intros [k v] (t & b & Hb & -> & ->)%id_entries_elem. eauto. }
  transitivity (foldl (fun m '(k, v) => <[from_id k := as_u8 (default 0%Z (MutAccess.int v))]> m) (∅ : gmap ExtendedType byte) id_entries).
  { clear Hg. generalize (∅ : gmap ExtendedType byte) as m. induction Hall as [|[k v] l (t & b & Hb & [= -> ->]) Hall IH]; intros m; [done|].
    cbn [fmap list_fmap foldl annotate_entry]. destruct (Hcan t b Hb) as (_ & Hu & _). rewrite Hu. apply IH. }
  apply map_eq. intros t. apply option_eq. intros x.
  rewrite (fold_insert_lookup from_id (fun v => as_u8 (default 0%Z (MutAccess.int v)))).
  - rewrite lookup_empty. split.
    + intros [(k & v & Hin & Ht & Hx)|[_ ?]]; [|done]. apply id_entries_elem in Hin as (u & b & Hb & -> & ->).
      destruct (Hcan u b Hb) as (Hu & _). rewrite <- Ht, Hu, <- Hx. cbn. by rewrite as_u8_byte_val.
    + intros Hx. left. exists (ExtendedType_id t), (MInt (byte_val x)). split; [apply id_entries_elem; eauto|].
      split; [apply (Hcan t x Hx)|]. cbn. apply as_u8_byte_val.
  - pose proof id_entries_wf as Hw. apply bt_wf_NoDup in Hw. clear -Hw Hall Hcan.
    induction Hall as [|[k v] l (t & b & Hb & [= -> ->]) Hall IH]; [constructor|]. cbn in *. apply NoDup_cons in Hw as [Hk Hw]. apply NoDup_cons.
    split; [|by apply IH]. intros (k & Hk' & Hin)%list_elem_of_fmap. apply Hk. apply list_elem_of_fmap in Hin as ([k' v'] & -> & Hin).
    rewrite Forall_forall in Hall. destruct (Hall _ Hin) as (u & c & Hc & [= -> ->]). destruct (Hcan t b Hb) as (Ht & _), (Hcan u c Hc) as (Hu & _).
    cbn in Hk'. rewrite Ht, Hu in Hk'. subst u. by apply (list_elem_of_fmap_2 fst) in Hin.
Qed.

End ids.

(** ** The whole message *)

Definition own_keys : list bytes :=
  [CLIENT_ID_KEY; CLIENT_TCP_PORT_KEY; OUR_IP_KEY; CLIENT_IPV6_ADDR_KEY; CLIENT_IPV4_ADDR_KEY; CLIENT_MAX_REQUESTS_KEY; METADATA_SIZE_KEY].

(** The fields of a builder over what is in the dictionary before. *)
Definition insert_fields (os : list (option BencodeMut)) (d : list (bytes * BencodeMut)) : list (bytes * BencodeMut) :=
  foldl (fun d '(key, o) => dict_insert_opt key o d) d (zip own_keys os).

Lemma insert_fields_wf os d : bt_wf d -> bt_wf (insert_fields os d).
Proof.
  unfold insert_fields. generalize (zip own_keys os) as l. intros l. revert d.
  induction l as [|[k o] l IH]; intros d Hd; [done|]. apply IH. by apply dict_insert_opt_wf.
Qed.

Lemma insert_fields_Forall (P : bytes * BencodeMut -> Prop) os d : Forall P d ->
  Forall (fun p : bytes * option BencodeMut => from_option (fun v => P (p.1, v)) True p.2) (zip own_keys os) -> Forall P (insert_fields os d).
Proof.
  unfold insert_fields. generalize (zip own_keys os) as l. intros l. revert d.
  induction l as [|[k o] l IH]; intros d Hd Hl; [done|]. apply Forall_cons in Hl as [Ho Hl]. apply IH; [by apply dict_insert_opt_Forall|done].
Qed.

Lemma insert_fields_other l : forall d k, k ∉ l.*1 -> bt_get k (foldl (fun d '(key, o) => dict_insert_opt key o d) d l) = bt_get k d.
Proof.
  induction l as [|[k' o] l IH]; intros d k Hk; [done|]. cbn in Hk. apply not_elem_of_cons in Hk as [Hne Hk]. cbn [foldl].
  rewrite IH by done. rewrite dict_insert_opt_get. by rewrite decide_False.
Qed.

Lemma insert_fields_own l : forall d k o, NoDup l.*1 -> (k, o) ∈ l -> bt_get k d = None ->
  bt_get k (foldl (fun d '(key, o) => dict_insert_opt key o d) d l) = o.
Proof.
  induction l as [|[k' o'] l IH]; intros d k o Hnd Hin Hd; [by apply elem_of_nil in Hin|]. apply NoDup_cons in Hnd as [Hk' Hnd]. cbn [foldl].
  apply elem_of_cons in Hin as [[= -> ->]|Hin].
  - rewrite insert_fields_other by done. rewrite dict_insert_opt_get, decide_True, Hd by done. by destruct o'.
  - apply IH; [done..|]. rewrite dict_insert_opt_get, decide_False; [done|]. intros ->. apply Hk'. by apply (list_elem_of_fmap_2 fst) in Hin.
Qed.

Lemma own_keys_nodup : NoDup own_keys.
Proof. by apply (bool_decide_unpack _); vm_compute. Qed.

Lemma insert_fields_get os d i k o : length os = 7 -> own_keys !! i = Some k -> os !! i = Some o -> bt_get k d = None ->
  bt_get k (insert_fields os d) = o.
Proof.
  intros Hl Hk Ho Hd. apply insert_fields_own; [|by eapply list_elem_of_lookup_2, lookup_zip_with_Some; eauto|done].
  rewrite fst_zip by (rewrite Hl; cbn; lia). apply own_keys_nodup.
Qed.

(** A builder whose fields fit the message and whose own entries keep off them. *)
Record builder_wf (b : ExtendedMessageBuilder) : Prop := {
  built_ids : map_Forall (fun t _ => canonical_type t) (id_map (builder_fields b));
  built_custom : map_Forall (fun k v => (k ∉ ID_MAP_KEY :: own_keys) /\ (Z.of_nat (length k) < 2 ^ 63)%Z /\ shallow 49 v) (custom_entries b);
  built_id : from_option (fun s => from_utf8 s = Some s /\ (Z.of_nat (length s) < 2 ^ 63)%Z) True (our_id (builder_fields b));
  built_port : from_option (in_unsigned 16) True (our_tcp_port (builder_fields b));
  built_ip : from_option (fun ip => match ip with IpV4 _ => True | IpV6 a => ipv6_wf a end) True (their_ip (builder_fields b));
  built_ipv6 : from_option ipv6_wf True (our_ipv6_addr (builder_fields b));
  built_requests : from_option (in_signed 64) True (our_max_requests (builder_fields b));
  built_size : from_option (in_signed 64) True (metadata_size (builder_fields b));
}.

Definition ip_to_bytes (ip : IpAddr) : bytes := match ip with IpV4 a => ipv4_to_bytes_be a | IpV6 a => ipv6_to_bytes_be a end.

Definition field_values (f : ExtendedFields) : list (option BencodeMut) :=
  [MBytes <$> our_id f; MInt <$> our_tcp_port f; MBytes <$> (ip_to_bytes <$> their_ip f); MBytes <$> (ipv6_to_bytes_be <$> our_ipv6_addr f);
   MBytes <$> (ipv4_to_bytes_be <$> our_ipv4_addr f); MInt <$> our_max_requests f; MInt <$> metadata_size f].

Section built.
Context (id_order : gmap ExtendedType byte -> list (ExtendedType * byte)) (custom_order : gmap bytes BencodeMut -> list (bytes * BencodeMut)).
Context (Hids : walks id_order) (Hcustom : walks custom_order) (b : ExtendedMessageBuilder) (Hb : builder_wf b).
Let f := builder_fields b.

Definition custom_root : list (bytes * BencodeMut) :=
  foldl (fun d '(key, value) => dict_insert key value d) (dict_insert ID_MAP_KEY (MDict (id_entries id_order (id_map f))) []) (custom_order (custom_entries b)).
Definition built_root : list (bytes * BencodeMut) := insert_fields (field_values f) custom_root.

Lemma built_bencode : raw_bencode (ExtendedMessageBuilder_build id_order custom_order b) = encode (MDict built_root).
Proof. cbn [raw_bencode ExtendedMessageBuilder_build ExtendedMessage_from_builder]. unfold bencode_from_builder. by rewrite id_map_bencode_eq. Qed.

Lemma custom_order_elem k v : (k, v) ∈ custom_order (custom_entries b) <-> custom_entries b !! k = Some v.
Proof using Hcustom. rewrite (Hcustom (custom_entries b)). apply elem_of_map_to_list. Qed.

Lemma custom_keys_nodup : NoDup (custom_order (custom_entries b)).*1.
Proof using Hcustom. rewrite (Hcustom (custom_entries b)). apply NoDup_fst_map_to_list. Qed.

Lemma custom_root_own k : k ∈ ID_MAP_KEY :: own_keys ->
  bt_get k custom_root = if decide (k = ID_MAP_KEY) then Some (MDict (id_entries id_order (id_map f))) else None.
Proof using Hcustom Hb.
  intros Hk. unfold custom_root. rewrite insert_all_None; [by rewrite dict_insert_get|apply custom_keys_nodup|].
  intros ([k' v] & -> & Hin%custom_order_elem)%list_elem_of_fmap. by apply (built_custom b Hb k' v Hin).
Qed.

Lemma own_get i k o : own_keys !! i = Some k -> field_values f !! i = Some o -> bt_get k built_root = o.
Proof using Hcustom Hb.
  intros Hk Ho. eapply insert_fields_get; [done|exact Hk|exact Ho|]. rewrite custom_root_own by (right; by eapply list_elem_of_lookup_2).
  rewrite decide_False; [done|]. intros ->. do 7 (destruct i as [|i]; [by vm_compute in Hk|]). done.
Qed.

Lemma id_map_get : bt_get ID_MAP_KEY built_root = Some (MDict (id_entries id_order (id_map f))).
Proof using Hcustom Hb.
  unfold built_root, insert_fields. rewrite insert_fields_other; [rewrite custom_root_own by left; by rewrite decide_True|].
  rewrite fst_zip by (cbn; lia). by apply (bool_decide_unpack _); vm_compute.
Qed.

(** A field that is written is read back, and one that is not is not found. *)
Section own_fields.
Context {E} `{IoError E} (i : nat) (k : bytes) (Hk : own_keys !! i = Some k).
Lemma own_int o : field_values f !! i = Some (MInt <$> o) ->
  result_ok (BConvert.lookup_and_convert_int (E := E) io_convert (annotate_entry <$> built_root) k) = o.
Proof using Hcustom Hb Hk.
  intros Ho%(own_get i k); [|done]. destruct o as [z|]; [by rewrite (lookup_int _ _ _ z)|by rewrite lookup_no_int].
Qed.
Lemma own_bytes o : field_values f !! i = Some (MBytes <$> o) ->
  result_ok (BConvert.lookup_and_convert_bytes (E := E) io_convert (annotate_entry <$> built_root) k) = o.
Proof using Hcustom Hb Hk.
  intros Ho%(own_get i k); [|done]. destruct o as [z|]; [by rewrite (lookup_bytes _ _ _ z)|by rewrite lookup_no_bytes].
Qed.
Lemma own_str o : field_values f !! i = Some (MBytes <$> o) -> from_option (fun s => from_utf8 s = Some s) True o ->
  result_ok (BConvert.lookup_and_convert_str (E := E) io_convert (annotate_entry <$> built_root) k) = o.
Proof using Hcustom Hb Hk.
  intros Ho%(own_get i k) Hu; [|done]. destruct o as [z|]; [by rewrite (lookup_str _ _ _ z)|by rewrite lookup_no_str].
Qed.
End own_fields.

Lemma fields_read_back {E} `{IoError E} : read_fields (E := E) (annotate_entry <$> built_root) = f.
Proof using Hids Hcustom Hb.
  destruct Hb as [Hi _ Hid Hp Hip Hip6 _ _]. unfold read_fields. rewrite (ids_read_back id_order Hids (id_map f) Hi) by apply id_map_get.
  unfold parse_client_id, parse_client_tcp_port, parse_our_ip, parse_client_ipv6_addr, parse_client_ipv4_addr, parse_client_max_requests, parse_metadata_size.
  rewrite (own_str 0 CLIENT_ID_KEY eq_refl (our_id f) eq_refl), (own_int 1 CLIENT_TCP_PORT_KEY eq_refl (our_tcp_port f) eq_refl),
    (own_bytes 2 OUR_IP_KEY eq_refl (ip_to_bytes <$> their_ip f) eq_refl), (own_bytes 3 CLIENT_IPV6_ADDR_KEY eq_refl (ipv6_to_bytes_be <$> our_ipv6_addr f) eq_refl),
    (own_bytes 4 CLIENT_IPV4_ADDR_KEY eq_refl (ipv4_to_bytes_be <$> our_ipv4_addr f) eq_refl),
    (own_int 5 CLIENT_MAX_REQUESTS_KEY eq_refl (our_max_requests f) eq_refl), (own_int 6 METADATA_SIZE_KEY eq_refl (metadata_size f) eq_refl)
    by (fold f in Hid; destruct (our_id f); [apply Hid|done]).
  fold f in Hp, Hip, Hip6. destruct f as [ids oid oport oip oip6 oip4 oreq osize]. cbn in *. f_equal.
  - destruct oport as [z|]; [|done]. cbn in *. rewrite as_unsigned_id by done. by rewrite decide_True.
  - destruct oip as [[a|a]|]; [| |done]; cbn [fmap option_fmap option_map ip_to_bytes mbind option_bind from_option] in *.
    + rewrite decide_True by (by destruct a). by rewrite ipv4_roundtrip.
    + rewrite decide_False, decide_True by (rewrite length_ipv6_bytes; lia). by rewrite ipv6_roundtrip.
  - destruct oip6 as [a|]; [|done]. cbn [fmap option_fmap option_map mbind option_bind from_option] in *.
    rewrite decide_True by apply length_ipv6_bytes. by rewrite ipv6_roundtrip.
  - destruct oip4 as [a|]; [|done]. cbn [fmap option_fmap option_map mbind option_bind].
    rewrite decide_True by (by destruct a). by rewrite ipv4_roundtrip.
Qed.

(** The dictionary is one the parser takes. *)
Lemma built_entries : bt_wf built_root /\ Forall (fun p => (Z.of_nat (length p.1) < 2 ^ 63)%Z /\ shallow 49 p.2) built_root.
Proof using Hids Hcustom Hb.
  pose proof Hb as [Hi Hc Hid Hp Hip Hip6 Hr Hs]. fold f in Hid, Hp, Hip, Hip6, Hr, Hs. split.
  - apply insert_fields_wf, insert_all_wf, bt_insert_wf, bt_wf_nil.
  - apply insert_fields_Forall.
    + apply insert_all_Forall; [|by apply Forall_forall; intros [k v] Hin%custom_order_elem; apply (Hc k v Hin)].
      apply Forall_singleton. split; [by vm_compute|].
      destruct (id_entries_shallow id_order Hids (id_map f) Hi) as [Hw Hd]. split; [exact Hw|]. etransitivity; [exact Hd|lia].
    + destruct f as [ids oid oport oip oip6 oip4 oreq osize]. cbn [our_id our_tcp_port their_ip our_ipv6_addr our_ipv4_addr our_max_requests metadata_size] in *.
      unfold field_values, own_keys. cbn [zip zip_with our_id our_tcp_port their_ip our_ipv6_addr our_ipv4_addr our_max_requests metadata_size].
      repeat constructor; cbn [fst snd].
      * destruct oid; [|done]. split; [by vm_compute|]. apply shallow_bytes, Hid.
      * destruct oport; [|done]. split; [by vm_compute|]. apply shallow_int. cbn in Hp. unfold in_unsigned, in_signed in *. lia.
      * destruct oip as [[a|a]|]; [| |done]; (split; [by vm_compute|]); apply shallow_bytes; [by destruct a|].
        cbn [ip_to_bytes]. by rewrite length_ipv6_bytes.
      * destruct oip6; [|done]. split; [by vm_compute|]. apply shallow_bytes. by rewrite length_ipv6_bytes.
      * destruct oip4 as [a|]; [|done]. split; [by vm_compute|]. apply shallow_bytes. by destruct a.
      * destruct oreq; [|done]. split; [by vm_compute|]. by apply shallow_int.
      * destruct osize; [|done]. split; [by vm_compute|]. by apply shallow_int.
Qed.

Lemma built_shallow : shallow DEFAULT_MAX_RECURSION (MDict built_root).
Proof using Hids Hcustom Hb.
  destruct built_entries as [Hw Hall].
  split; [apply mut_wf_dict; split; [done|]|apply mut_depth_dict]; (eapply Forall_impl; [exact Hall|]); by intros ? (? & ? & ?).
Qed.

(** A built message is one that is read back. *)
Lemma built_extended_wf {E} `{IoError E} : let m := ExtendedMessageBuilder_build id_order custom_order b in
  u32_len (2 + bencode_size m) -> extended_wf (E := E) m.
Proof using Hids Hcustom Hb.
  intros m Hl. split; [done|]. exists (annotate (MDict built_root)), (annotate_entry <$> built_root).
  split; [|split; [done|]].
  - subst m. rewrite built_bencode. apply decode_shallow, built_shallow.
  - by rewrite fields_read_back.
Qed.

End built.
