(* ===== verification/PeerRuns.v ===== *)
(** * The peer wire protocol over a connection

    Messages through the codec, the extended handshake and the metadata
    messages it makes possible. *)

From stdpp Require Import prelude list gmap strings.
From Stdlib Require Import ZArith Lia Strings.Byte.
From S2P Require Import Prelude Bytes BTreeMap DecStr Bencode BencodeTotal BencodeRoundtrip BencodeAccess Convert Nom WriteBytes PeerMessage PeerExtended PeerWire PeerProofs.

(** ** Frames *)

Definition no_ext {M} (_ : M) : bytes := [].

Lemma length_block index offset n : length (block_bytes index offset n) = 12.
Proof. unfold block_bytes. by rewrite !length_app, !length_be_bytes. Qed.

Lemma wire_framed {E M} `{IoError E} xb (m : PeerWireProtocolMessage M) : wire_wf (E := E) m -> framed (wire_bytes xb m).
Proof.
  intros Hm. destruct m as [| | | | |msg|msg|msg|msg|msg|[msg|msg]|]; try done; cbn [wire_bytes bits_ext_bytes].
  1-4: rewrite <- (app_nil_r (header _ _)).
  all: apply framed_header; try done; try apply Hm; rewrite ?length_block, ?length_app, ?length_be_bytes; done || lia.
Qed.

Section wire.
Context {N : Nom} {NS : NomSpec N} {W E : Type} {IO : IoError E} {WR : Write W E} {WE : WriteBytesExt W E}.
Context {P M : Type} {PP : PeerProtocol P M W E}.

Lemma needed_short bs : length bs < 4 -> wire_bytes_needed (E := E) bs = Ok None.
Proof. intros Hl. unfold wire_bytes_needed. by destruct (be_u32_short bs Hl) as [n ->]. Qed.

Lemma needed_length bs : 4 <= length bs -> wire_bytes_needed (E := E) bs = Ok (Some (4 + Z.to_nat (be_value (take 4 bs)))).
Proof.
  intros Hl. unfold wire_bytes_needed. rewrite be_u32_read by done. rewrite u32_to_usize_ok; [done|].
  apply (unsigned_value 4 32); [rewrite length_take; lia|done].
Qed.

Lemma needed_framed bs rest : framed bs -> wire_bytes_needed (E := E) (bs ++ rest) = Ok (Some (length bs)).
Proof.
  intros [H4 Hl]. rewrite needed_length by (rewrite length_app; lia). rewrite take_app_le by lia.
  do 2 f_equal. lia.
Qed.

(** ** One message *)

Lemma wire_read xb (m : PeerWireProtocolMessage M) p : wire_wf (E := E) m -> wire_parse_bytes (wire_bytes xb m) p = (Ok m, p).
Proof.
  intros Hm. unfold wire_parse_bytes.
  assert (parse_message (wire_bytes xb m) p = Done [] (Ok m, p)) as ->; [|done]. unfold parse_message.
  assert (is_standard m \/ exists ext, m = BitsExtension ext) as [Hs|[ext ->]] by (destruct m; cbn; eauto).
  - apply alt_Done. rewrite (map_Done _ _ [] [] (Ok m)); [done|]. by apply standard_read.
  - apply alt_second.
    + assert (exists e, parse_standard (M := M) (E := E) (wire_bytes xb (BitsExtension ext)) [] = Error e) as [e He].
      { destruct ext as [msg|msg]; apply standard_other; (done || apply Hm || auto). }
      by eapply map_Error.
    + apply alt_Done. rewrite (map_Done _ _ [] [] (Ok ext)); [done|]. by apply bits_ext_read.
Qed.

(** A message read by the protocol: a handshake is told to the extension. *)
Context {NP : NestedPeerProtocol P ExtendedMessage}.

Definition after_reading (m : PeerWireProtocolMessage M) (p : P) : P :=
  match m with BitsExtension (Extended msg) => received_message msg p | _ => p end.
Definition after_writing (m : PeerWireProtocolMessage M) (p : P) : P :=
  match m with BitsExtension (Extended msg) => sent_message msg p | _ => p end.

Lemma protocol_read xb m (s : PeerWireProtocol P) : wire_wf (E := E) m ->
  parse_bytes (wire_bytes xb m) s = (Ok m, PeerWireProtocol_new (after_reading m (ext_protocol s))).
Proof.
  intros Hm. cbn [parse_bytes PeerWireProtocol_protocol]. unfold lift_ext. rewrite wire_read by done.
  by destruct m as [| | | | | | | | | |[]|].
Qed.

Context {WS : WriteSpec W E} {WB : WriteBytesSpec W E}.

Lemma on_writer_ok (m : stM W E ()) bs (p : P) w : written_by m bs -> writer_wf w -> fits w (length bs) ->
  exists w', on_writer m (p, w) = (Ok (), (p, w')) /\ appends w w' bs.
Proof. intros Hm Hw Hf. destruct (Hm w Hw Hf) as (w' & Hx & Ha). exists w'. split; [|done]. unfold on_writer. by rewrite Hx. Qed.

Lemma wire_written xb (m : PeerWireProtocolMessage M) (p : P) w : wire_wf (E := E) m -> writer_wf w -> fits w (length (wire_bytes xb m)) ->
  exists w', wire_write_bytes m (p, w) = (Ok (), (p, w')) /\ appends w w' (wire_bytes xb m).
Proof.
  intros Hm. destruct m as [| | | | |msg|msg|msg|msg|msg|[msg|msg]|]; try done; cbn [wire_write_bytes]; apply on_writer_ok;
    cbn [wire_bytes bits_ext_bytes BitsExtensionMessage_write_bytes].
  1-4: apply writes_written, writes_header.
  - apply writes_written, writes_bind; [apply writes_header|auto with rbt].
  - unfold BitFieldMessage_write_bytes. rewrite as_u32_len by done. apply writes_written, writes_bind; [apply writes_header|auto with rbt].
  - unfold RequestMessage_write_bytes. rewrite as_u32_len by apply Hm. apply writes_written, writes_bind; [apply writes_header|apply writes_block].
  - unfold PieceMessage_write_bytes. rewrite as_u32_len by apply Hm. apply writes_written, writes_bind; [apply writes_header|].
    apply writes_bind; [auto with rbt|]. apply writes_bind; auto with rbt.
  - unfold CancelMessage_write_bytes. rewrite as_u32_len by apply Hm. apply writes_written, writes_bind; [apply writes_header|apply writes_block].
  - apply writes_written, writes_bind; [apply writes_header|auto with rbt].
  - apply extended_written. apply Hm.
Qed.

Lemma protocol_written xb m (s : PeerWireProtocol P) w : wire_wf (E := E) m -> writer_wf w -> fits w (length (wire_bytes xb m)) ->
  exists w', write_bytes m (s, w) = (Ok (), (PeerWireProtocol_new (after_writing m (ext_protocol s)), w')) /\ appends w w' (wire_bytes xb m).
Proof.
  intros Hm Hw Hf. destruct (wire_written xb m (ext_protocol s) w Hm Hw Hf) as (w' & Hx & Ha). exists w'. split; [|done].
  cbn [write_bytes PeerWireProtocol_protocol]. rewrite Hx. by destruct m as [| | | | | | | | | |[]|].
Qed.

(** The size asked for covers the message; a handshake asks for four bytes more. *)
Lemma wire_size xb m (p : P) : wire_wf (E := E) m ->
  wire_message_size m p = (length (wire_bytes xb m) + (match m with BitsExtension (Extended _) => 4 | _ => 0 end), p).
Proof.
  intros Hm. destruct m as [| | | | |msg|msg|msg|msg|msg|[msg|msg]|]; try done; cbn [wire_message_size wire_bytes bits_ext_bytes BitsExtensionMessage_message_size];
    unfold MESSAGE_LENGTH_LEN_BYTES, bencode_size; f_equal; rewrite ?length_app, ?length_header, ?length_block, ?length_be_bytes; cbn [length]; try done;
    unfold BASE_BITFIELD_MESSAGE_LEN, BASE_PIECE_MESSAGE_LEN, BASE_EXTENDED_MESSAGE_LEN; lia.
Qed.

End wire.

(** ** No frame makes a protocol panic *)

Definition parse_safe (P : Type) {M W E} `{PeerProtocol P M W E} : Prop := forall bs (p : P), framed bs -> returns (parse_bytes bs p).1.

Lemma null_safe {W E} `{IoError E} : parse_safe NullProtocol (W := W) (E := E).
Proof. done. Qed.
Lemma unit_safe {W E} : parse_safe UnitProtocol (W := W) (E := E).
Proof. done. Qed.

Section safety.
Context {N : Nom} {NS : NomSpec N} {W E : Type} {IO : IoError E} {WR : Write W E} {WE : WriteBytesExt W E}.
Context {P M : Type} {PP : PeerProtocol P M W E} {NP : NestedPeerProtocol P ExtendedMessage}.

(** [safe] beside the state of a protocol. *)
Definition safe_with {A S} (x : IResult nom_error (outcome E A * S)) : Prop :=
  match x with Done _ r => returns r.1 | Panicked | OutOfFuel => False | _ => True end.

Lemma safe_with_equiv {A S} (x y : IResult nom_error (outcome E A * S)) : x ≡ y -> safe_with y -> safe_with x.
Proof. apply (yields_equiv x y (fun r => returns r.1)). Qed.

Lemma safe_with_alt {A S} (p q : parser (outcome E A * S)) i : safe_with (p i) -> safe_with (q i) -> safe_with (alt p q i).
Proof. intros Hp Hq. eapply safe_with_equiv; [apply alt_spec|]. by destruct (p i). Qed.

Lemma safe_with_map {A B S} (p : parser (outcome E A)) (f : outcome E A -> outcome E B) (s : S) i :
  (forall r, returns r -> returns (f r)) -> safe (p i) -> safe_with (nom_map p (fun res => (f res, s)) i).
Proof. intros Hf Hp. eapply safe_with_equiv; [apply map_spec|]. destruct (p i); try done. by apply Hf. Qed.

Lemma map_result_returns {A B} (f : A -> B) (r : outcome E A) : returns r -> returns (map_result f r).
Proof. by destruct r. Qed.

Lemma safe_with_value {A B S} (f : A -> B) (x : outcome E A * S) i : returns x.1 ->
  safe_with (nom_map (value x) (fun '(res, p) => (map_result f res, p)) i).
Proof.
  intros Hx. eapply safe_with_equiv; [apply map_spec|]. eapply safe_with_equiv; [by rewrite value_spec|]. cbn. destruct x as [r s]. by apply map_result_returns.
Qed.

Lemma wire_parse_safe bs (p : P) : parse_safe P -> framed bs -> returns (wire_parse_bytes bs p).1.
Proof.
  intros HP Hf. assert (safe_with (parse_message bs p)) as Hs.
  { unfold parse_message. apply safe_with_alt; [apply (safe_with_map _ id); [done|by apply safe_standard]|].
    apply safe_with_alt; [apply (safe_with_map _ (map_result BitsExtension)); [apply map_result_returns|by apply safe_bits_ext]|].
    apply safe_with_value. by apply HP. }
  unfold wire_parse_bytes. by destruct (parse_message bs p).
Qed.

Lemma wire_safe : parse_safe P -> parse_safe (PeerWireProtocol P).
Proof.
  intros HP bs s Hf. pose proof (wire_parse_safe bs (ext_protocol s) HP Hf) as Hs. cbn [parse_bytes PeerWireProtocol_protocol]. unfold lift_ext.
  destruct (wire_parse_bytes bs (ext_protocol s)) as [r p]. by destruct r as [[| | | | | | | | | |[]|]| | |].
Qed.

Lemma ut_parse_returns bs : returns (UtMetadataMessage_parse_bytes (E := E) bs).
Proof.
  assert (forall (d : list (bytes * BencodeRef)) k, returns (BConvert.lookup_and_convert_int (E := E) io_convert d k)) as Hi.
  { intros d k. apply returns_bind; [unfold BConvert.lookup; by destruct (BDict.lookup d k)|]. intros r _. unfold BConvert.convert_int. by destruct (bra_int r). }
  unfold UtMetadataMessage_parse_bytes. pose proof (BencodeRef_decode_returns bs (mk_BDecodeOpt 2 false false)) as Hd.
  destruct (BencodeRef_decode bs _) as [r| | |]; try done. apply returns_bind; [unfold BConvert.convert_dict; by destruct (bra_dict r)|].
  intros d _. apply returns_bind; [by apply returns_bind|]. intros t _. apply returns_bind; [apply Hi|]. intros piece _.
  repeat case_decide; try done. apply returns_bind; [apply Hi|done].
Qed.

Lemma ext_parse_safe bs extended (p : P) : parse_safe P -> framed bs -> returns (ext_parse_bytes bs extended p).1.
Proof.
  intros HP Hf. assert (safe_with (parse_extensions bs extended p)) as Hs; [|unfold ext_parse_bytes; by destruct (parse_extensions bs extended p)].
  destruct some_error as [e _]. unfold parse_extensions. apply safe_with_alt; [|apply safe_with_value; by apply HP].
  apply (safe_with_map _ id); [done|]. destruct (framed_cases bs Hf) as [[Hl Hz]|(len & id & body & -> & Hu & Hlen)].
  - destruct (read_ids_bare bs Hl) as [n Hr]. eapply safe_equiv; [apply (switch_spec _ _ _ e)|]. cbn beta. by rewrite Hr.
  - destruct (read_ids_framed len id body Hu) as [[n Hr]|(id' & body' & -> & Hr)].
    + eapply safe_equiv; [apply (switch_spec _ _ _ e)|]. cbn beta. by rewrite Hr.
    + eapply safe_switch; [exact Hr|]. intros q. cbn beta iota. case_decide; [|done]. intros Hq. apply (inj Some) in Hq. subst q. cbn in Hlen.
      rewrite with_sub_ok by lia. unfold with_split_off.
      rewrite decide_True by (rewrite length_app, length_header; change EXTENSION_HEADER_LEN with 6; cbn; lia).
      rewrite decide_True by (rewrite length_drop, length_app, length_header; change EXTENSION_HEADER_LEN with 6; cbn; lia).
      cbn. case_decide; [|done]. apply map_result_returns, ut_parse_returns.
Qed.

Lemma extension_safe : parse_safe P -> parse_safe (PeerExtensionProtocol P).
Proof.
  intros HP bs s Hf. cbn [parse_bytes PeerExtensionProtocol_protocol]. destruct (our_extended_msg s) as [e|]; [|done].
  pose proof (ext_parse_safe bs e (custom_protocol s) HP Hf) as Hs. by destruct (ext_parse_bytes bs e (custom_protocol s)).
Qed.

End safety.

(** ** Metadata messages *)

(** A metadata message as its constructor makes it. *)
Definition ut_wf (m : UtMetadataMessage) : Prop :=
  u32_len (2 + length (ut_bytes m)) /\
  match m with
  | UtRequest r => in_signed 64 (utreq_piece r) /\ r = UtMetadataRequestMessage_new (utreq_piece r)
  | UtData d => in_signed 64 (utdata_piece d) /\ in_signed 64 (total_size d) /\ d = UtMetadataDataMessage_new (utdata_piece d) (total_size d) (utdata_data d)
  | UtReject r => in_signed 64 (utrej_piece r) /\ r = UtMetadataRejectMessage_new (utrej_piece r)
  end.

Lemma ut_size m : ut_wf m -> UtMetadataMessage_message_size m = length (ut_bytes m).
Proof.
  intros [_ Hm]. destruct m as [r|d|r]; cbn [ut_bytes UtMetadataMessage_message_size].
  - destruct Hm as (_ & ->). done.
  - destruct Hm as (_ & _ & ->). by rewrite length_app.
  - destruct Hm as (_ & ->). done.
Qed.

Lemma byte_shallow b : shallow 1 (MInt (byte_val b)).
Proof. apply shallow_int. pose proof (byte_val_range b). unfold in_signed. lia. Qed.

Lemma ut_piece_keys (a b : BencodeMut) : let d := ben_map_entries [(MESSAGE_TYPE_KEY, a); (PIECE_INDEX_KEY, b)] in
  bt_get MESSAGE_TYPE_KEY d = Some a /\ bt_get PIECE_INDEX_KEY d = Some b /\ NoDup ([(MESSAGE_TYPE_KEY, a); (PIECE_INDEX_KEY, b)]).*1.
Proof. split_and!; [by vm_compute..|by apply (bool_decide_unpack _); vm_compute]. Qed.

Lemma ut_data_keys (a b c : BencodeMut) : let d := ben_map_entries [(MESSAGE_TYPE_KEY, a); (PIECE_INDEX_KEY, b); (TOTAL_SIZE_KEY, c)] in
  bt_get MESSAGE_TYPE_KEY d = Some a /\ bt_get PIECE_INDEX_KEY d = Some b /\ bt_get TOTAL_SIZE_KEY d = Some c /\
  NoDup ([(MESSAGE_TYPE_KEY, a); (PIECE_INDEX_KEY, b); (TOTAL_SIZE_KEY, c)]).*1.
Proof. split_and!; [by vm_compute..|by apply (bool_decide_unpack _); vm_compute]. Qed.

Section ut_metadata.
Context {E : Type} {IO : IoError E}.

Lemma ut_piece_decodes t piece tail : in_signed 64 piece ->
  BencodeRef_decode (encode (ut_piece_bencode t piece) ++ tail) (mk_BDecodeOpt 2 false false) = Ok (annotate (ut_piece_bencode t piece)).
Proof.
  intros Hp. apply decode_prefix; [|done]. apply shallow_dict; [apply (ut_piece_keys (MInt (byte_val t)) (MInt piece))|].
  apply Forall_cons; split; [split; [by vm_compute|apply byte_shallow]|]. apply Forall_singleton. split; [by vm_compute|by apply shallow_int].
Qed.

Lemma ut_data_decodes piece size tail : in_signed 64 piece -> in_signed 64 size ->
  BencodeRef_decode (encode (ut_data_bencode piece size) ++ tail) (mk_BDecodeOpt 2 false false) = Ok (annotate (ut_data_bencode piece size)).
Proof.
  intros Hp Hs. apply decode_prefix; [|done].
  apply shallow_dict; [apply (ut_data_keys (MInt (byte_val DATA_MESSAGE_TYPE_ID)) (MInt piece) (MInt size))|].
  apply Forall_cons; split; [split; [by vm_compute|apply byte_shallow]|]. apply Forall_cons; split; [split; [by vm_compute|by apply shallow_int]|].
  apply Forall_singleton. split; [by vm_compute|by apply shallow_int].
Qed.

(** Reading a dictionary that was written, with what follows it. *)
Lemma ut_parse_written d t piece tail :
  BencodeRef_decode (encode (MDict d) ++ tail) (mk_BDecodeOpt 2 false false) = Ok (annotate (MDict d)) ->
  bt_get MESSAGE_TYPE_KEY d = Some (MInt (byte_val t)) -> bt_get PIECE_INDEX_KEY d = Some (MInt piece) ->
  UtMetadataMessage_parse_bytes (E := E) (encode (MDict d) ++ tail) =
  let n := length (encode (MDict d)) in
  if decide (t = REQUEST_MESSAGE_TYPE_ID) then Ok (UtRequest (mk_UtMetadataRequestMessage piece n))
  else if decide (t = REJECT_MESSAGE_TYPE_ID) then Ok (UtReject (mk_UtMetadataRejectMessage piece n))
  else if decide (t = DATA_MESSAGE_TYPE_ID) then
    size ← parse_total_size (annotate_entry <$> d); Ok (UtData (mk_UtMetadataDataMessage piece size tail n))
  else Err (io_other "Failed To Recognize Message Type For UtMetadataMessage").
Proof.
  intros Hd Ht Hp. unfold UtMetadataMessage_parse_bytes. rewrite Hd.
  change (BConvert.convert_dict (E := E) io_convert (annotate (MDict d)) UT_METADATA_ROOT_ERROR_KEY) with (Ok (E := E) (annotate_entry <$> d)).
  change (BencodeRef_buffer (annotate (MDict d))) with (encode (MDict d)). cbn [mbind outcome_bind].
  rewrite take_app_length, drop_app_length. unfold parse_message_type, parse_piece_index. rewrite (lookup_int _ _ _ _ Ht), (lookup_int _ _ _ _ Hp).
  cbn [mbind outcome_bind]. by rewrite as_u8_byte_val.
Qed.

Lemma ut_read m : ut_wf m -> UtMetadataMessage_parse_bytes (E := E) (ut_bytes m) = Ok m.
Proof.
  intros [_ Hm]. destruct m as [r|d|r]; cbn [ut_bytes].
  - destruct Hm as [Hp Hr]. rewrite <- (app_nil_r (encode _)). destruct (ut_piece_keys (MInt (byte_val REQUEST_MESSAGE_TYPE_ID)) (MInt (utreq_piece r))) as (Ka & Kb & _).
    rewrite (ut_parse_written _ _ _ _ (ut_piece_decodes _ _ _ Hp) Ka Kb). cbv zeta. rewrite decide_True by done. by rewrite Hr.
  - destruct Hm as (Hp & Hs & Hr). destruct (ut_data_keys (MInt (byte_val DATA_MESSAGE_TYPE_ID)) (MInt (utdata_piece d)) (MInt (total_size d))) as (Ka & Kb & Kc & _).
    rewrite (ut_parse_written _ _ _ _ (ut_data_decodes _ _ _ Hp Hs) Ka Kb). cbv zeta. rewrite !decide_False, decide_True by done.
    unfold parse_total_size. rewrite (lookup_int _ _ _ _ Kc). cbn [mbind outcome_bind]. by rewrite Hr.
  - destruct Hm as [Hp Hr]. rewrite <- (app_nil_r (encode _)). destruct (ut_piece_keys (MInt (byte_val REJECT_MESSAGE_TYPE_ID)) (MInt (utrej_piece r))) as (Ka & Kb & _).
    rewrite (ut_parse_written _ _ _ _ (ut_piece_decodes _ _ _ Hp) Ka Kb). cbv zeta. rewrite decide_False, decide_True by done. by rewrite Hr.
Qed.

End ut_metadata.

(** ** Metadata messages through the protocols *)

Definition ext_ut_bytes (id : byte) (m : UtMetadataMessage) : bytes :=
  header (Z.of_nat (2 + length (ut_bytes m))) EXTENDED_MESSAGE_ID ++ [id] ++ ut_bytes m.

Lemma framed_ext_ut id m : u32_len (2 + length (ut_bytes m)) -> framed (ext_ut_bytes id m).
Proof. intros Hl. apply framed_header; [done|]. rewrite length_app. cbn [length]. lia. Qed.

Section exchange.
Context {N : Nom} {NS : NomSpec N} {W E : Type} {IO : IoError E} {WR : Write W E} {WE : WriteBytesExt W E}.
Context {P M : Type} {PP : PeerProtocol P M W E} {NP : NestedPeerProtocol P ExtendedMessage}.

Lemma ut_ext_read e id m (p : P) : query_id e UtMetadata = Some id -> ut_wf m ->
  ext_parse_bytes (ext_ut_bytes id m) e p = (Ok (UtMetadataExt m : PeerExtensionProtocolMessage M), p).
Proof.
  intros Hq Hm. pose proof (proj1 Hm) as Hl. unfold ext_parse_bytes.
  assert (parse_extensions (ext_ut_bytes id m) e p = Done [] (Ok (UtMetadataExt m), p)) as ->; [|done]. unfold parse_extensions. apply alt_Done.
  rewrite (map_Done _ _ [] [] (Ok (UtMetadataExt m))); [done|]. apply equiv_Done.
  pose proof (read_ids _ EXTENDED_MESSAGE_ID id (ut_bytes m) Hl) as Hr.
  erewrite switch_Done; [|exact Hr|cbn beta iota; rewrite decide_True by done; reflexivity].
  rewrite with_sub_ok by lia. unfold with_split_off, ext_ut_bytes.
  rewrite decide_True by (rewrite !length_app, length_header; change EXTENSION_HEADER_LEN with 6; cbn; lia).
  rewrite app_assoc, drop_app_length' by (by rewrite length_app, length_header).
  replace (Z.to_nat (Z.of_nat (2 + length (ut_bytes m)) - 2)) with (length (ut_bytes m)) by lia. rewrite decide_True by lia. rewrite take_ge by lia.
  unfold parse_extensions_with_id. rewrite Hq, decide_True by done. by rewrite ut_read.
Qed.

(** No built in message has the id of an extension other than zero. *)
Lemma ut_wire_read e id m (s : PeerExtensionProtocol P) : our_extended_msg s = Some e -> query_id e UtMetadata = Some id -> id <> x00 -> ut_wf m ->
  wire_parse_bytes (ext_ut_bytes id m) s = (Ok (ProtExtension (UtMetadataExt m : PeerExtensionProtocolMessage M)), s).
Proof.
  intros He Hq Hid Hm. pose proof (proj1 Hm) as Hl. unfold wire_parse_bytes.
  assert (parse_message (ext_ut_bytes id m) s = Done [] (Ok (ProtExtension (UtMetadataExt m : PeerExtensionProtocolMessage M)), s)) as ->; [|done].
  unfold parse_message. apply alt_second.
  - destruct (standard_other (E := E) (M := PeerExtensionProtocolMessage M) _ EXTENDED_MESSAGE_ID ([id] ++ ut_bytes m) Hl) as [e' He']; [auto|]. by eapply map_Error.
  - apply alt_second.
    + assert (exists e', parse_extension (E := E) (ext_ut_bytes id m) [] = Error e') as [e' He']; [|by eapply map_Error].
      unfold parse_extension. destruct (read_id _ EXTENDED_MESSAGE_ID ([id] ++ ut_bytes m) Hl) as [Hr _].
      apply alt_Error.
      * eapply switch_None; [exact Hr|]. cbn beta iota. by rewrite decide_False by (by intros [_ ?]).
      * eapply switch_None; [exact (read_ids _ EXTENDED_MESSAGE_ID id (ut_bytes m) Hl)|]. cbn beta iota. by rewrite decide_False by (by intros [_ ?]).
    + apply equiv_Done. rewrite map_spec, value_spec. cbn [and_then parse_bytes PeerExtensionProtocol_protocol]. rewrite He.
      rewrite (ut_ext_read e id m _ Hq Hm). cbn. by destruct s.
Qed.

Context {WS : WriteSpec W E} {WB : WriteBytesSpec W E}.

Lemma on_writer_bind (m m' : stM W E ()) (s : P * W) : (on_writer m ≫= fun _ => on_writer m') s = on_writer (m ≫= fun _ => m') s.
Proof. destruct s as [p w]. unfold mbind, stM_bind, on_writer. destruct (m w) as [[[]| | |] w1]; done. Qed.

Lemma ut_written m : written_by (W := W) (E := E) (UtMetadataMessage_write_bytes m) (ut_bytes m).
Proof.
  destruct m; cbn [UtMetadataMessage_write_bytes ut_bytes]; [apply writes_written, writes_all|apply written_bind; apply writes_written, writes_all|apply writes_written, writes_all].
Qed.

Lemma ut_ext_written e id m (p : P) w : query_id e UtMetadata = Some id -> ut_wf m -> writer_wf w -> fits w (length (ext_ut_bytes id m)) ->
  exists w', ext_write_bytes (UtMetadataExt m : PeerExtensionProtocolMessage M) e (p, w) = (Ok (), (p, w')) /\ appends w w' (ext_ut_bytes id m).
Proof.
  intros Hq Hm Hw Hf. unfold ext_write_bytes. rewrite Hq, ut_size by done. rewrite as_u32_len by apply Hm.
  set (m1 := write_length_id_pair _ _). set (m2 := write_u8 id). set (m3 := UtMetadataMessage_write_bytes m).
  destruct (on_writer_ok (m1 ≫= fun _ => m2 ≫= fun _ => m3) (ext_ut_bytes id m) p w) as (w' & Hx & Ha); [|done|done|].
  - apply written_bind; [apply writes_written, writes_header|]. apply written_bind; [apply writes_written, writes_u8|apply ut_written].
  - exists w'. split; [|done]. rewrite <- Hx, <- on_writer_bind. unfold mbind at 1 3, stM_bind at 1 3.
    destruct (on_writer m1 (p, w)) as [[[]| | |] [p1 w1]]; try done. apply on_writer_bind.
Qed.

End exchange.

(** ** A buffer that reserves just what it is asked for *)

#[export] Instance WriteError_io : IoError WriteError := {| io_other _ := WriteZero; io_convert _ := WriteZero; io_decode _ := WriteZero |}.

#[export] Instance Cursor_reserve : Reserve Cursor := {|
  reserve n c := mk_Cursor (buffer c ++ replicate (position c + n - length (buffer c)) x00) (position c);
|}.

#[export] Instance Cursor_reserve_spec : ReserveSpec Cursor WriteError.
Proof.
  split. intros n c Hc. cbn in *. rewrite length_app, length_replicate. split_and!; [lia| |lia]. by rewrite take_app_le.
Qed.

(** ** Properties *)

(** The length of the message at the front of a buffer, once it is there. *)
Definition frame_length (src : bytes) : option nat :=
  if decide (length src < 4) then None else Some (4 + Z.to_nat (be_value (take 4 src))).
Definition too_long (max_payload : option nat) (n : nat) : bool := default false ((fun m => bool_decide (m < n)) <$> max_payload).

Section properties.
Context {N : Nom} {NS : NomSpec N} {W E : Type} {IO : IoError E} {WR : Write W E} {WE : WriteBytesExt W E}.

(** C22. The decoder takes whole messages: on any buffer it comes back without a
    panic; it refuses a message longer than the limit and leaves the buffer
    alone, it waits for a message that is not there yet, and it takes exactly
    the bytes of one that is. *)
Theorem codec_decodes_frames {P M} {PP : PeerProtocol P M W E} {NP : NestedPeerProtocol P ExtendedMessage}
    (codec : PeerProtocolCodec (PeerWireProtocol P)) (src : bytes) :
  parse_safe P ->
  let '(r, (codec', rest)) := codec_decode (codec, src) in
  returns r /\ max_payload codec' = max_payload codec /\
  match frame_length src with
  | None => r = Ok None /\ rest = src
  | Some n =>
      if too_long (max_payload codec) n then (exists e, r = Err e) /\ rest = src
      else if decide (n <= length src) then r <> Ok None /\ rest = drop n src
      else r = Ok None /\ rest = src
  end.
Proof.
  intros HP. unfold codec_decode, frame_length. cbn [bytes_needed PeerWireProtocol_protocol lift]. case_decide as H4.
  - unfold lift. rewrite needed_short by done. done.
  - unfold lift. rewrite needed_length by lia. cbn [protocol max_payload]. unfold too_long. set (n := 4 + _).
    destruct (default false _); [split_and!; [done..|by eexists|done]|]. case_decide as Hn; [|done].
    assert (framed (take n src)) as Hf.
    { split; rewrite length_take; [lia|]. rewrite take_take. replace (4 `min` n) with 4 by lia.
      pose proof (unsigned_value 4 32 (take 4 src) ltac:(rewrite length_take; lia) eq_refl) as [? _]. unfold n in *. lia. }
    pose proof (wire_safe HP (take n src) (protocol codec) Hf) as Hs. destruct (parse_bytes (take n src) (protocol codec)) as [r s] eqn:Ep.
    by destruct r.
Qed.

Context {WS : WriteSpec W E} {WB : WriteBytesSpec W E} {RS : Reserve W} {RL : ReserveSpec W E}.

Lemma codec_exchange {P M} {PP : PeerProtocol P M W E} {NP : NestedPeerProtocol P ExtendedMessage}
    (codec : PeerProtocolCodec (PeerWireProtocol P)) (m : PeerWireProtocolMessage M) (dst : W) :
  wire_wf (E := E) m -> writer_wf dst ->
  exists codec' dst' bs,
    codec_encode m (codec, dst) = (Ok (), (codec', dst')) /\ written dst' = written dst ++ bs /\
    forall (peer : PeerProtocolCodec (PeerWireProtocol P)) rest, too_long (max_payload peer) (length bs) = false ->
      codec_decode (peer, bs ++ rest) =
      (Ok (Some m), (mk_PeerProtocolCodec (PeerWireProtocol_new (after_reading m (ext_protocol (protocol peer)))) (max_payload peer), rest)).
Proof.
  intros Hm Hw. set (bs := wire_bytes no_ext m). unfold codec_encode. cbn [message_size PeerWireProtocol_protocol].
  rewrite (wire_size no_ext) by done. fold bs. set (k := length bs + _). destruct (reserve_spec (E := E) k dst Hw) as (Hw' & Hwr & Hr).
  destruct (protocol_written no_ext m (PeerWireProtocol_new (ext_protocol (protocol codec))) (reserve k dst) Hm Hw') as (dst' & Hx & Ha & Hwd & _).
  { unfold fits. fold bs. destruct (room (reserve k dst)); cbn in *; [unfold k in *; lia|done]. }
  rewrite Hx. eexists _, dst', bs. split; [done|]. split; [by rewrite Hwd, Hwr|]. intros peer rest Hmax.
  pose proof (wire_framed (E := E) no_ext m Hm) as Hf. unfold codec_decode. cbn [bytes_needed PeerWireProtocol_protocol]. unfold lift.
  rewrite needed_framed by done. cbn [protocol max_payload]. unfold too_long in Hmax. fold bs. rewrite Hmax. rewrite decide_True by (rewrite length_app; lia).
  rewrite take_app_length, drop_app_length. unfold bs. by rewrite protocol_read.
Qed.

(** C40. What one codec encodes another decodes: every built in message but a keep
    alive is written whole into a buffer that reserves what the codec asks for,
    and a decoder whose limit it meets reads it back from the front of its
    buffer, whatever follows. *)
Theorem codec_roundtrip {P M} {PP : PeerProtocol P M W E} {NP : NestedPeerProtocol P ExtendedMessage}
    (codec : PeerProtocolCodec (PeerWireProtocol P)) (m : PeerWireProtocolMessage M) (dst : W) :
  wire_wf (E := E) m -> writer_wf dst ->
  exists codec' dst' bs,
    codec_encode m (codec, dst) = (Ok (), (codec', dst')) /\ written dst' = written dst ++ bs /\
    forall (peer : PeerProtocolCodec (PeerWireProtocol P)) rest, too_long (max_payload peer) (length bs) = false ->
      codec_decode (peer, bs ++ rest) =
      (Ok (Some m), (mk_PeerProtocolCodec (PeerWireProtocol_new (after_reading m (ext_protocol (protocol peer)))) (max_payload peer), rest)).
Proof. apply codec_exchange. Qed.

(** C25. An extended handshake carries what its builder was told, in whatever order
    the hash maps are walked: a peer that decodes the message reads the ids, the
    client, the port, the addresses, the request limit and the metadata size that
    were set.  The values are ones of their Rust types, extension names are in
    the form they are read as, and custom entries keep off the keys of the fields. *)
Theorem handshake_tells_fields {P M} {PP : PeerProtocol P M W E} {NP : NestedPeerProtocol P ExtendedMessage}
    (id_order : gmap ExtendedType byte -> list (ExtendedType * byte)) (custom_order : gmap bytes BencodeMut -> list (bytes * BencodeMut))
    (codec : PeerProtocolCodec (PeerWireProtocol P)) (b : ExtendedMessageBuilder) (dst : W) :
  let msg := ExtendedMessageBuilder_build id_order custom_order b in
  walks id_order -> walks custom_order -> builder_wf b -> u32_len (2 + bencode_size msg) -> writer_wf dst ->
  exists codec' dst' bs,
    codec_encode (BitsExtension (Extended msg) : PeerWireProtocolMessage M) (codec, dst) = (Ok (), (codec', dst')) /\ written dst' = written dst ++ bs /\
    forall (peer : PeerProtocolCodec (PeerWireProtocol P)) rest, too_long (max_payload peer) (length bs) = false ->
      exists peer' received,
        codec_decode (peer, bs ++ rest) = (Ok (Some (BitsExtension (Extended received) : PeerWireProtocolMessage M)), (peer', rest)) /\
        ext_fields received = builder_fields b.
Proof.
  intros msg Hi Hc Hb Hl Hw. pose proof (built_extended_wf (E := E) id_order custom_order Hi Hc b Hb Hl) as He.
  destruct (codec_exchange codec (BitsExtension (Extended msg) : PeerWireProtocolMessage M) dst He Hw) as (codec' & dst' & bs & Hx & Hwr & Hd).
  exists codec', dst', bs. split; [done|]. split; [done|]. intros peer rest Hmax. eexists _, msg. split; [by apply Hd|done].
Qed.

(** C24. The extension protocol end to end: [a] sends an extended handshake that gives
    metadata messages an id, [b] reads it; from then on [a] reads every metadata
    message that [b] writes, under that id. *)
Theorem metadata_exchange {P M} {PP : PeerProtocol P M W E} {NP : NestedPeerProtocol P ExtendedMessage}
    (a b : PeerWireProtocol (PeerExtensionProtocol P)) (e : ExtendedMessage) (id : byte) (wa : W) :
  let hs := wire_bytes (M := PeerExtensionProtocolMessage M) no_ext (BitsExtension (Extended e)) in
  extended_wf (E := E) e -> query_id e UtMetadata = Some id -> id <> x00 -> writer_wf wa -> fits wa (length hs) ->
  exists a' wa' b',
    write_bytes (BitsExtension (Extended e) : PeerWireProtocolMessage (PeerExtensionProtocolMessage M)) (a, wa) = (Ok (), (a', wa')) /\
    written wa' = written wa ++ hs /\
    parse_bytes hs b = (Ok (BitsExtension (Extended e) : PeerWireProtocolMessage (PeerExtensionProtocolMessage M)), b') /\
    forall m wb, ut_wf m -> writer_wf wb -> fits wb (length (ext_ut_bytes id m)) ->
    exists wb',
      write_bytes (ProtExtension (UtMetadataExt m : PeerExtensionProtocolMessage M)) (b', wb) = (Ok (), (b', wb')) /\
      written wb' = written wb ++ ext_ut_bytes id m /\
      parse_bytes (ext_ut_bytes id m) a' = (Ok (ProtExtension (UtMetadataExt m : PeerExtensionProtocolMessage M)), a').
Proof.
  intros hs He Hq Hid Hwa Hfa. set (m0 := BitsExtension (Extended e) : PeerWireProtocolMessage (PeerExtensionProtocolMessage M)).
  destruct (protocol_written no_ext m0 a wa He Hwa Hfa) as (wa' & Hx & _ & Hwr & _). eexists _, wa', _. split; [exact Hx|]. split; [done|].
  split; [by apply (protocol_read no_ext m0)|]. intros m wb Hm Hwb Hfb.
  destruct (ut_ext_written (M := M) e id m (received_message e (custom_protocol (ext_protocol b))) wb Hq Hm Hwb Hfb) as (wb' & Hy & _ & Hwr' & _).
  exists wb'. split; [|split; [done|]].
  - cbn [write_bytes PeerWireProtocol_protocol wire_write_bytes ext_protocol after_reading m0]. cbn [write_bytes PeerExtensionProtocol_protocol received_message PeerExtensionProtocol_nested their_extended_msg custom_protocol].
    rewrite Hy. done.
  - cbn [parse_bytes PeerWireProtocol_protocol]. unfold lift_ext.
    assert (our_extended_msg (ext_protocol (PeerWireProtocol_new (after_writing m0 (ext_protocol a)))) = Some e) as Hours by reflexivity.
    by rewrite (ut_wire_read e id m _ Hours Hq Hid Hm).
Qed.

(** The codec asks for two bytes too few for a metadata message: the size leaves
    out the id of the message and of its extension. *)
Theorem metadata_size_short {P M} {PP : PeerProtocol P M W E} {NP : NestedPeerProtocol P ExtendedMessage}
    (s : PeerWireProtocol (PeerExtensionProtocol P)) (id : byte) (m : UtMetadataMessage) : ut_wf m ->
  (message_size (ProtExtension (UtMetadataExt m : PeerExtensionProtocolMessage M)) s).1 + 2 = length (ext_ut_bytes id m).
Proof.
  intros Hm. cbn [message_size PeerWireProtocol_protocol wire_message_size PeerExtensionProtocol_protocol ext_message_size]. rewrite ut_size by done.
  cbn [fst]. unfold ext_ut_bytes. rewrite !length_app, length_header. cbn. lia.
Qed.

(** A keep alive is read exactly when [opt!] takes a missing byte for none; when
    it waits for the byte instead, a keep alive is refused. *)
Theorem keep_alive_read {P M} {PP : PeerProtocol P M W E} (p : P) :
  wire_parse_bytes (be_bytes 4 KEEP_ALIVE_MESSAGE_LEN) p = (Ok (KeepAlive : PeerWireProtocolMessage M), p) /\ opt be_u8 [] = Done [] None \/
  (exists e, wire_parse_bytes (M := M) (be_bytes 4 KEEP_ALIVE_MESSAGE_LEN) p = (Err e, p)) /\ exists n, opt be_u8 [] = Incomplete n.
Proof.
  destruct some_error as [e _]. set (bs := be_bytes 4 _). pose proof (tuple_spec be_u32 (opt be_u8) bs) as Ht. rewrite be_u32_read in Ht by done. cbn [and_then] in Ht.
  destruct be_u8_empty as [n Hn]. destruct (opt_spec be_u8 []) as [Ho|[Ho%equiv_Done _]].
  - right. rewrite Hn in Ho. cbn in Ho. assert (exists n, opt be_u8 [] = Incomplete n) as [n' Hn'] by (destruct (opt be_u8 []); try done; eauto).
    split; [|eauto]. change (drop 4 bs) with (@nil byte) in Ht. rewrite Hn' in Ht. cbn [and_then] in Ht.
    assert (exists k, tuple be_u32 (opt be_u8) bs = Incomplete k) as [k Hk] by (revert Ht; destruct (tuple be_u32 (opt be_u8) bs); try done; eauto).
    clear Ht. unfold wire_parse_bytes.
    assert (exists k, parse_message (M := M) (E := E) bs p = Incomplete k) as [k' ->]; [|eauto]. unfold parse_message.
    match goal with |- exists k, alt ?f ?g [] = _ => pose proof (alt_spec f g []) as Ha; assert (f [] ≡ Incomplete NeededUnknown) as Hf end.
    + rewrite map_spec. unfold parse_standard. rewrite (switch_spec _ _ _ e). cbn beta. by rewrite Hk.
    + rewrite Hf in Ha. cbn in Ha. destruct (alt _ _ []); try done. eauto.
  - left. split; [|done]. change (drop 4 bs) with (@nil byte) in Ht. rewrite Ho in Ht. cbn [and_then] in Ht. apply throwaway_Done in Ht.
    unfold wire_parse_bytes. assert (parse_message (M := M) (E := E) bs p = Done [] (Ok KeepAlive, p)) as ->; [|done].
    unfold parse_message. apply alt_Done. rewrite (map_Done _ _ [] [] (Ok KeepAlive)); [done|]. apply equiv_Done. unfold parse_standard.
    rewrite (switch_Done _ _ _ [] (KEEP_ALIVE_MESSAGE_LEN, None) (value (Ok KeepAlive))); [by rewrite value_spec|exact Ht|done].
Qed.

End properties.

(** ** The theorems on sample messages *)

#[local] Existing Instance nom_ref.
#[local] Existing Instance WriteBytes_ref.

Definition sample_codec : PeerProtocolCodec (PeerWireProtocol NullProtocol) := PeerProtocolCodec_new (PeerWireProtocol_new NullProtocol_new).
Definition sample_builder : ExtendedMessageBuilder :=
  with_metadata_size (with_extended_type ExtendedMessageBuilder_new UtMetadata (Some x03)) (Some 31235%Z).
Definition sample_handshake : ExtendedMessage := ExtendedMessageBuilder_build map_to_list map_to_list sample_builder.

Lemma sample_builder_wf : builder_wf sample_builder.
Proof.
  split; cbn [sample_builder builder_fields custom_entries with_metadata_size with_extended_type ExtendedMessageBuilder_new id_map our_id our_tcp_port their_ip our_ipv6_addr our_max_requests metadata_size from_option]; try exact I.
  - intros t v Hv. apply lookup_insert_Some in Hv as [[<- _]|[_ Hv]]; [|by rewrite lookup_empty in Hv]. by split; [|split]; vm_compute.
  - intros t v Hv. by rewrite lookup_empty in Hv.
  - unfold in_signed. lia.
Qed.

Lemma codec_decodes_frames_witness : exists r c,
  codec_decode (M := PeerWireProtocolMessage NullProtocolMessage) (W := Cursor) (E := WriteError) (sample_codec, [x00; x00; x00; x01; x00; x09]) = (r, (c, [x09])) /\
  r <> Ok None.
Proof.
  pose proof (@codec_decodes_frames nom_ref nom_ref_spec Cursor WriteError _ _ WriteBytes_ref NullProtocol NullProtocolMessage _ _ sample_codec
    [x00; x00; x00; x01; x00; x09] null_safe) as Hd.
  destruct (codec_decode _) as [r [c' rest]]. destruct Hd as (_ & _ & Hf).
  assert (frame_length [x00; x00; x00; x01; x00; x09] = Some 5) as E by (vm_compute; reflexivity). rewrite E in Hf.
  destruct Hf as [Hf ->]. exists r, c'. split; [reflexivity|exact Hf].
Defined.

Definition sample_request : PeerWireProtocolMessage NullProtocolMessage := Request (RequestMessage_new 3 0 4000).

Lemma codec_roundtrip_witness : exists codec' dst',
  codec_encode (W := Cursor) (E := WriteError) sample_request (sample_codec, Cursor_new (replicate 17 x00)) = (Ok (), (codec', dst')) /\
  length (written dst') = 17.
Proof.
  destruct (@codec_roundtrip nom_ref nom_ref_spec Cursor WriteError _ _ WriteBytes_ref _ WriteBytes_ref_spec _ _ NullProtocol NullProtocolMessage _ _
    sample_codec sample_request (Cursor_new (replicate 17 x00))) as (codec' & dst' & bs & He & _).
  - vm_compute. repeat split; discriminate.
  - vm_compute. lia.
  - exists codec', dst'. split; [exact He|]. vm_compute in He. injection He as _ <-. vm_compute. reflexivity.
Defined.

Lemma handshake_tells_fields_witness : exists codec' dst',
  codec_encode (W := Cursor) (E := WriteError) (BitsExtension (Extended sample_handshake) : PeerWireProtocolMessage NullProtocolMessage)
    (sample_codec, Cursor_new (replicate 200 x00)) = (Ok (), (codec', dst')).
Proof.
  destruct (@handshake_tells_fields nom_ref nom_ref_spec Cursor WriteError _ _ WriteBytes_ref _ WriteBytes_ref_spec _ _ NullProtocol NullProtocolMessage _ _
    map_to_list map_to_list sample_codec sample_builder (Cursor_new (replicate 200 x00))) as (codec' & dst' & bs & He & _).
  - intros m. reflexivity.
  - intros m. reflexivity.
  - apply sample_builder_wf.
  - vm_compute. repeat split; discriminate.
  - vm_compute. lia.
  - exists codec', dst'. exact He.
Defined.

Lemma metadata_exchange_witness : exists a' wa',
  write_bytes (W := Cursor) (E := WriteError) (BitsExtension (Extended sample_handshake) : PeerWireProtocolMessage (PeerExtensionProtocolMessage NullProtocolMessage))
    (PeerWireProtocol_new (PeerExtensionProtocol_new NullProtocol_new), Cursor_new (replicate 200 x00)) = (Ok (), (a', wa')) /\
  parse_bytes (W := Cursor) (E := WriteError) (ext_ut_bytes x03 (UtRequest (UtMetadataRequestMessage_new 1))) a' =
    (Ok (ProtExtension (UtMetadataExt (UtRequest (UtMetadataRequestMessage_new 1)) : PeerExtensionProtocolMessage NullProtocolMessage)), a').
Proof.
  destruct (@metadata_exchange nom_ref nom_ref_spec Cursor WriteError _ _ WriteBytes_ref _ WriteBytes_ref_spec NullProtocol NullProtocolMessage _ _
    (PeerWireProtocol_new (PeerExtensionProtocol_new NullProtocol_new)) (PeerWireProtocol_new (PeerExtensionProtocol_new NullProtocol_new))
    sample_handshake x03 (Cursor_new (replicate 200 x00))) as (a' & wa' & b' & Hw & _ & _ & Hm).
  - apply built_extended_wf; [intros m; reflexivity|intros m; reflexivity|apply sample_builder_wf|]. vm_compute. repeat split; discriminate.
  - vm_compute. reflexivity.
  - discriminate.
  - vm_compute. lia.
  - vm_compute. lia.
  - exists a', wa'. split; [exact Hw|].
    destruct (Hm (UtRequest (UtMetadataRequestMessage_new 1)) (Cursor_new (replicate 200 x00))) as (wb' & _ & _ & Hp); [| | |exact Hp].
    + vm_compute. repeat split; discriminate.
    + vm_compute. lia.
    + vm_compute. lia.
Defined.

Lemma metadata_size_short_witness :
  (message_size (W := Cursor) (E := WriteError)
    (ProtExtension (UtMetadataExt (UtRequest (UtMetadataRequestMessage_new 1)) : PeerExtensionProtocolMessage NullProtocolMessage))
    (PeerWireProtocol_new (PeerExtensionProtocol_new NullProtocol_new))).1 + 2 = 31.
Proof.
  rewrite (@metadata_size_short nom_ref Cursor WriteError _ _ WriteBytes_ref NullProtocol NullProtocolMessage _ _
    (PeerWireProtocol_new (PeerExtensionProtocol_new NullProtocol_new)) x03 (UtRequest (UtMetadataRequestMessage_new 1))); [vm_compute; reflexivity|].
  vm_compute. repeat split; discriminate.
Defined.
