(* ===== verification/DhtMessage.v ===== *)
(** * The [bip_bencode] 0.2 that [bip_dht] is built on

    [bip_dht] uses a released version of the bencode crate whose interface
    ([Bencode], [BencodeConvert], [Dictionary], [ben_map!]) differs from the one
    of this repository.  It is a class of operations with a second class for
    their documented behaviour; [ben_ref] meets it with the crate at hand. *)

From stdpp Require Import prelude list gmap strings.
From Stdlib Require Import ZArith Lia Strings.Byte.
From S2P Require Import Prelude Bytes BTreeMap DecStr Bencode BencodeTotal BencodeRoundtrip BencodeAccess Convert Sha Node Compact.

(** [BenDict] is [&Dictionary]; [ben_entries] is [ben_map!] and [Bencode::Dict] of
    a map filled in that order; [ben_items] is [ben_list!] and [Bencode::List]. *)
Class BenOps : Type := {
  Ben : Type;
  BenDict : Type;
  ben_error : Type;
  ben_int : Z -> Ben;
  ben_bytes : bytes -> Ben;
  ben_items : list Ben -> Ben;
  ben_entries : list (bytes * Ben) -> Ben;
  ben_as_int : Ben -> option Z;
  ben_as_bytes : Ben -> option bytes;
  ben_as_str : Ben -> option bytes;
  ben_as_list : Ben -> option (list Ben);
  ben_as_dict : Ben -> option BenDict;
  ben_lookup : BenDict -> bytes -> option Ben;
  ben_decode : bytes -> option Ben;
  ben_encode : Ben -> bytes;
  convert_int : Ben -> bytes -> outcome ben_error Z;
  convert_str : Ben -> bytes -> outcome ben_error bytes;
  convert_dict : Ben -> bytes -> outcome ben_error BenDict;
  lookup_and_convert_int : BenDict -> bytes -> outcome ben_error Z;
  lookup_and_convert_bytes : BenDict -> bytes -> outcome ben_error bytes;
  lookup_and_convert_str : BenDict -> bytes -> outcome ben_error bytes;
  lookup_and_convert_list : BenDict -> bytes -> outcome ben_error (list Ben);
  lookup_and_convert_dict : BenDict -> bytes -> outcome ben_error BenDict;
}.

Section laws.
Context {BO : BenOps}.

(** Values of which the encoding is asked to be read back, at most [n] deep. *)
Fixpoint ben_written (n : nat) (b : Ben) : Prop :=
  match n with
  | 0 => False
  | S n =>
      (exists z, b = ben_int z /\ in_signed 64 z) \/
      (exists s, b = ben_bytes s /\ (Z.of_nat (length s) < 2 ^ 63)%Z) \/
      (exists l, b = ben_items l /\ Forall (ben_written n) l) \/
      (exists kvs, b = ben_entries kvs /\ NoDup kvs.*1 /\ Forall (fun p => (Z.of_nat (length p.1) < 2 ^ 63)%Z /\ ben_written n p.2) kvs)
  end.

Lemma written_int n z : in_signed 64 z -> ben_written (S n) (ben_int z).
Proof. intros Hz. left. eauto. Qed.
Lemma written_bytes n s : (Z.of_nat (length s) < 2 ^ 63)%Z -> ben_written (S n) (ben_bytes s).
Proof. intros Hs. right. left. eauto. Qed.
Lemma written_items n l : Forall (ben_written n) l -> ben_written (S n) (ben_items l).
Proof. intros Hl. right. right. left. eauto. Qed.
Lemma written_entries n kvs : NoDup kvs.*1 -> Forall (fun p => (Z.of_nat (length p.1) < 2 ^ 63)%Z /\ ben_written n p.2) kvs ->
  ben_written (S n) (ben_entries kvs).
Proof. intros Hk Hl. right. right. right. eauto. Qed.

(** A conversion gives the value when it is there and of the type, and an error otherwise. *)
Definition converts {A} (get : Ben -> option A) (b : option Ben) (r : outcome ben_error A) : Prop :=
  match b ≫= get with Some a => r = Ok a | None => exists e, r = Err e end.
End laws.

Class BenLaws {BO : BenOps} : Prop := {
  as_int_int z : ben_as_int (ben_int z) = Some z;
  as_bytes_bytes s : ben_as_bytes (ben_bytes s) = Some s;
  as_str_bytes s : ben_as_str (ben_bytes s) = from_utf8 s;
  as_list_items l : ben_as_list (ben_items l) = Some l;
  as_dict_entries kvs : NoDup kvs.*1 ->
    exists d, ben_as_dict (ben_entries kvs) = Some d /\ forall k v, ben_lookup d k = Some v <-> (k, v) ∈ kvs;
  convert_int_spec b k : converts ben_as_int (Some b) (convert_int b k);
  convert_str_spec b k : converts ben_as_str (Some b) (convert_str b k);
  convert_dict_spec b k : converts ben_as_dict (Some b) (convert_dict b k);
  lookup_int_spec d k : converts ben_as_int (ben_lookup d k) (lookup_and_convert_int d k);
  lookup_bytes_spec d k : converts ben_as_bytes (ben_lookup d k) (lookup_and_convert_bytes d k);
  lookup_str_spec d k : converts ben_as_str (ben_lookup d k) (lookup_and_convert_str d k);
  lookup_list_spec d k : converts ben_as_list (ben_lookup d k) (lookup_and_convert_list d k);
  lookup_dict_spec d k : converts ben_as_dict (ben_lookup d k) (lookup_and_convert_dict d k);
  ben_decode_encode b : ben_written 4 b -> ben_decode (ben_encode b) = Some b;
}.

(** ** What the conversions do, in the forms used *)

Section use.
Context {BO : BenOps} {BL : BenLaws}.

Lemma converts_returns {A} (get : Ben -> option A) b r : converts get b r -> returns r.
Proof. unfold converts. destruct (b ≫= get); [by intros ->|by intros [e ->]]. Qed.

Lemma converts_Ok {A} (get : Ben -> option A) b r a : converts get b r -> r = Ok a <-> b ≫= get = Some a.
Proof. unfold converts. destruct (b ≫= get) as [x|]; [intros ->|intros [e ->]]; (split; intros Hx; [congruence|]); [by injection Hx as ->|done]. Qed.

Lemma converts_found {A} (get : Ben -> option A) b v r a : converts get b r -> b = Some v -> get v = Some a -> r = Ok a.
Proof. intros Hc -> Hg. apply (converts_Ok _ _ _ a Hc). by cbn. Qed.

Lemma converts_missing {A} (get : Ben -> option A) b r : converts get b r -> b = None -> exists e, r = Err e.
Proof. unfold converts. by intros Hc ->. Qed.
End use.

(** ** The crate at hand *)

Definition ben_ref : BenOps := {|
  Ben := BencodeMut;
  BenDict := list (bytes * BencodeMut);
  ben_error := BencodeConvertErrorKind;
  ben_int := MInt;
  ben_bytes := MBytes;
  ben_items := MList;
  ben_entries kvs := MDict (ben_map_entries kvs);
  ben_as_int := bra_int;
  ben_as_bytes := bra_bytes;
  ben_as_str := bra_str;
  ben_as_list := bra_list;
  ben_as_dict := bra_dict;
  ben_lookup d k := bt_get k d;
  ben_decode bs := match BencodeRef_decode bs BDecodeOpt_default with Ok r => Some (to_mut r) | _ => None end;
  ben_encode := encode;
  convert_int := BConvert.convert_int id;
  convert_str := BConvert.convert_str id;
  convert_dict := BConvert.convert_dict id;
  lookup_and_convert_int := BConvert.lookup_and_convert_int id;
  lookup_and_convert_bytes := BConvert.lookup_and_convert_bytes id;
  lookup_and_convert_str := BConvert.lookup_and_convert_str id;
  lookup_and_convert_list := BConvert.lookup_and_convert_list id;
  lookup_and_convert_dict := BConvert.lookup_and_convert_dict id;
|}.

Lemma ben_ref_shallow n b : @ben_written ben_ref n b -> shallow n b.
Proof.
  revert b. induction n as [|n IH]; intros b Hb; [done|]. destruct Hb as [(z & -> & Hz)|[(s & -> & Hs)|[(l & -> & Hl)|(kvs & -> & Hk & Hl)]]]; cbn.
  - by apply shallow_int.
  - by apply shallow_bytes.
  - apply shallow_list. eapply Forall_impl; [done|]. cbn. auto.
  - apply shallow_dict; [done|]. eapply Forall_impl; [done|]. cbn. intros p [? ?]. auto.
Qed.

Lemma to_mut_annotate v : to_mut (annotate v) = v.
Proof.
  induction v as [n|b|l IH|d IH] using BencodeMut_induction; cbn [annotate to_mut]; [done|done| |]; f_equal.
  - induction IH as [|x l Hx Hl IHl]; [done|]. cbn. by rewrite Hx, IHl.
  - induction IH as [|[k x] d Hx Hd IHd]; [done|]. cbn in *. by rewrite Hx, IHd.
Qed.

Lemma ok_or_converts {A} (get : BencodeMut -> option A) (o : option BencodeMut) (e1 e2 : BencodeConvertErrorKind) :
  @converts ben_ref A get o (match o with Some n => ok_or (get n) e1 | None => Err e2 end).
Proof. unfold converts. destruct o as [b|]; cbn; [destruct (get b); cbn; eauto|eauto]. Qed.

#[export] Instance ben_ref_laws : @BenLaws ben_ref.
Proof.
  split; cbn [ben_ref ben_as_int ben_as_bytes ben_as_str ben_as_list ben_as_dict ben_int ben_bytes ben_items ben_entries ben_lookup ben_decode ben_encode
    convert_int convert_str convert_dict lookup_and_convert_int lookup_and_convert_bytes lookup_and_convert_str lookup_and_convert_list lookup_and_convert_dict].
  - done.
  - done.
  - intros s. rewrite bra_str_kind. done.
  - done.
  - intros kvs Hnd. eexists. split; [done|]. intros k v. by apply ben_map_get.
  - intros b k. apply (ok_or_converts _ (Some b) _ (MissingKey k)).
  - intros b k. apply (ok_or_converts _ (Some b) _ (MissingKey k)).
  - intros b k. apply (ok_or_converts _ (Some b) _ (MissingKey k)).
  - intros d k. pose proof (ok_or_converts bra_int (bt_get k d) (WrongType k "Integer") (MissingKey k)) as Hc.
    unfold BConvert.lookup_and_convert_int, BConvert.lookup, BDict.lookup. by destruct (bt_get k d).
  - intros d k. pose proof (ok_or_converts bra_bytes (bt_get k d) (WrongType k "Bytes") (MissingKey k)) as Hc.
    unfold BConvert.lookup_and_convert_bytes, BConvert.lookup, BDict.lookup. by destruct (bt_get k d).
  - intros d k. pose proof (ok_or_converts bra_str (bt_get k d) (WrongType k "UTF-8 Bytes") (MissingKey k)) as Hc.
    unfold BConvert.lookup_and_convert_str, BConvert.lookup, BDict.lookup. by destruct (bt_get k d).
  - intros d k. pose proof (ok_or_converts bra_list (bt_get k d) (WrongType k "List") (MissingKey k)) as Hc.
    unfold BConvert.lookup_and_convert_list, BConvert.lookup, BDict.lookup. by destruct (bt_get k d).
  - intros d k. pose proof (ok_or_converts bra_dict (bt_get k d) (WrongType k "Dictionary") (MissingKey k)) as Hc.
    unfold BConvert.lookup_and_convert_dict, BConvert.lookup, BDict.lookup. by destruct (bt_get k d).
  - intros b Hb%ben_ref_shallow. rewrite decode_shallow; [by rewrite to_mut_annotate|].
    destruct Hb as [Hw Hd]. split; [done|]. unfold DEFAULT_MAX_RECURSION. cbn in *. lia.
Qed.

(** * [bip_dht::message]: KRPC messages

    Requests, responses and errors of the mainline DHT: their validation, the
    parsers over a decoded bencode dictionary and their encoders, one after the
    other as in [message/*.rs].  Keys and texts are bytes; what the text of a
    response error names is [Details]. *)

(** ** Keys *)

Definition TRANSACTION_ID_KEY : bytes := bstr "t".
Definition MESSAGE_TYPE_KEY : bytes := bstr "y".
Definition REQUEST_TYPE_KEY : bytes := bstr "q".
Definition RESPONSE_TYPE_KEY : bytes := bstr "r".
Definition ERROR_TYPE_KEY : bytes := bstr "e".
Definition ROOT_ID_KEY : bytes := bstr "root".
Definition NODE_ID_KEY : bytes := bstr "id".
Definition NODES_KEY : bytes := bstr "nodes".
Definition VALUES_KEY : bytes := bstr "values".
Definition TARGET_ID_KEY : bytes := bstr "target".
Definition INFO_HASH_KEY : bytes := bstr "info_hash".
Definition TOKEN_KEY : bytes := bstr "token".
Definition REQUEST_ARGS_KEY : bytes := bstr "a".
Definition PING_TYPE_KEY : bytes := bstr "ping".
Definition FIND_NODE_TYPE_KEY : bytes := bstr "find_node".
Definition GET_PEERS_TYPE_KEY : bytes := bstr "get_peers".
Definition ANNOUNCE_PEER_TYPE_KEY : bytes := bstr "announce_peer".
Definition RESPONSE_ARGS_KEY : bytes := bstr "r".
Definition PORT_KEY : bytes := bstr "port".
Definition IMPLIED_PORT_KEY : bytes := bstr "implied_port".
Definition ERROR_ARGS_KEY : bytes := bstr "e".
Definition NUM_ERROR_ARGS : nat := 2.

(** ** Errors *)

Definition GENERIC_ERROR_CODE : byte := xc9.
Definition SERVER_ERROR_CODE : byte := xca.
Definition PROTOCOL_ERROR_CODE : byte := xcb.
Definition METHOD_UNKNOWN_CODE : byte := xcc.

Inductive ErrorCode : Type := GenericError | ServerError | ProtocolError | MethodUnknown.

Definition ErrorCode_into (self : ErrorCode) : byte :=
  match self with
  | GenericError => GENERIC_ERROR_CODE
  | ServerError => SERVER_ERROR_CODE
  | ProtocolError => PROTOCOL_ERROR_CODE
  | MethodUnknown => METHOD_UNKNOWN_CODE
  end.

Record ErrorMessage : Type := mk_ErrorMessage { em_trans_id : bytes; error_code : ErrorCode; error_message : bytes }.
Definition ErrorMessage_new (trans_id : bytes) (code : ErrorCode) (message : bytes) : ErrorMessage := mk_ErrorMessage trans_id code message.

(** What the text of an invalid response names. *)
Inductive Details : Type :=
| NodeIdLength (trans_id : bytes) (len : nat)
| NodesLength (trans_id : bytes) (len : nat)
| ValuesNotBytes (trans_id : bytes)
| ValuesWrongLength (trans_id : bytes)
| NoNodesOrValues
| InvalidErrorCode (code : byte)
| NumberOfErrorArgs (len : nat).

Inductive DhtError {BO : BenOps} : Type :=
| BencodeError (e : ben_error)
| InvalidMessage (code : bytes)
| InvalidResponse (details : Details)
| UnsolicitedResponse
| InvalidRequest (msg : ErrorMessage).

(** ** Messages *)

Record PingRequest : Type := mk_PingRequest { pq_trans_id : bytes; pq_node_id : ShaHash }.
Record PingResponse : Type := mk_PingResponse { pr_trans_id : bytes; pr_node_id : ShaHash }.
Record FindNodeRequest : Type := mk_FindNodeRequest { fq_trans_id : bytes; fq_node_id : ShaHash; fq_target_id : ShaHash }.
Record FindNodeResponse : Type := mk_FindNodeResponse { fr_trans_id : bytes; fr_node_id : ShaHash; fr_nodes : CompactNodeInfo }.
Record GetPeersRequest : Type := mk_GetPeersRequest { gq_trans_id : bytes; gq_node_id : ShaHash; gq_info_hash : ShaHash }.
Inductive ConnectPort : Type := Implied | Explicit (port : Z).
Record AnnouncePeerRequest : Type := mk_AnnouncePeerRequest {
  aq_trans_id : bytes; aq_node_id : ShaHash; aq_info_hash : ShaHash; aq_token : bytes; aq_port : ConnectPort }.
Record AnnouncePeerResponse : Type := mk_AnnouncePeerResponse { ar_trans_id : bytes; ar_node_id : ShaHash }.

Inductive RequestType : Type :=
| RqPing (rqst : PingRequest)
| RqFindNode (rqst : FindNodeRequest)
| RqGetPeers (rqst : GetPeersRequest)
| RqAnnouncePeer (rqst : AnnouncePeerRequest).

Inductive ExpectedResponse : Type := ExPing | ExFindNode | ExGetPeers | ExAnnouncePeer | ExGetData | ExPutData | ExNone.

Section messages.
Context {BO : BenOps}.

Inductive CompactInfoType : Type :=
| CiNodes (n : CompactNodeInfo)
| CiValues (v : @CompactValueInfo Ben)
| CiBoth (n : CompactNodeInfo) (v : @CompactValueInfo Ben).

Record GetPeersResponse : Type := mk_GetPeersResponse {
  gr_trans_id : bytes; gr_node_id : ShaHash; gr_token : option bytes; gr_info_type : CompactInfoType }.

Inductive ResponseType : Type :=
| RsPing (rsp : PingResponse)
| RsFindNode (rsp : FindNodeResponse)
| RsGetPeers (rsp : GetPeersResponse)
| RsAnnouncePeer (rsp : AnnouncePeerResponse).

Inductive MessageType : Type :=
| MtRequest (rqst : RequestType)
| MtResponse (rsp : ResponseType)
| MtError (msg : ErrorMessage).

(** [handle_error]: [error.into()] *)
Definition validated {A} (r : outcome ben_error A) : outcome DhtError A := map_err BencodeError r.

(** [result.map_err(|_| e)] *)
Definition or_else_err {E A} (r : outcome E A) (e : DhtError) : outcome DhtError A := map_err (fun _ => e) r.

(** ** Validation *)

Definition rqst_validate_node_id (trans_id node_id : bytes) : outcome DhtError ShaHash :=
  or_else_err (from_hash node_id)
    (InvalidRequest (ErrorMessage_new trans_id ProtocolError
      (bstr "Node ID With Length " ++ usize_to_string (length node_id) ++ bstr " Is Not Valid"))).

Definition rqst_validate_info_hash (trans_id info_hash : bytes) : outcome DhtError ShaHash :=
  or_else_err (from_hash info_hash)
    (InvalidRequest (ErrorMessage_new trans_id ProtocolError
      (bstr "InfoHash With Length " ++ usize_to_string (length info_hash) ++ bstr " Is Not Valid"))).

Definition rsp_validate_node_id (trans_id node_id : bytes) : outcome DhtError ShaHash :=
  or_else_err (from_hash node_id) (InvalidResponse (NodeIdLength trans_id (length node_id))).

Definition validate_nodes (trans_id nodes : bytes) : outcome DhtError CompactNodeInfo :=
  or_else_err (CompactNodeInfo_new nodes) (InvalidResponse (NodesLength trans_id (length nodes))).

Fixpoint values_are_bytes (trans_id : bytes) (values : list Ben) : outcome DhtError () :=
  match values with
  | [] => Ok ()
  | bencode :: values =>
      match ben_as_bytes bencode with
      | Some _ => values_are_bytes trans_id values
      | None => Err (InvalidResponse (ValuesNotBytes trans_id))
      end
  end.

Definition validate_values (trans_id : bytes) (values : list Ben) : outcome DhtError (@CompactValueInfo Ben) :=
  _ ← values_are_bytes trans_id values;
  or_else_err (CompactValueInfo_new ben_as_bytes values) (InvalidResponse (ValuesWrongLength trans_id)).

(** ** [ErrorMessage] *)

Definition ErrorCode_new (code : byte) : outcome DhtError ErrorCode :=
  if decide (code = GENERIC_ERROR_CODE) then Ok GenericError
  else if decide (code = SERVER_ERROR_CODE) then Ok ServerError
  else if decide (code = PROTOCOL_ERROR_CODE) then Ok ProtocolError
  else if decide (code = METHOD_UNKNOWN_CODE) then Ok MethodUnknown
  else Err (InvalidResponse (InvalidErrorCode code)).

Definition extract_error_args (args : list Ben) : outcome DhtError (byte * bytes) :=
  if decide (length args <> NUM_ERROR_ARGS) then Err (InvalidResponse (NumberOfErrorArgs (length args)))
  else
    arg0 ← unwrap (args !! 0);
    code ← validated (convert_int arg0 (ERROR_ARGS_KEY ++ bstr "[0]"));
    arg1 ← unwrap (args !! 1);
    message ← validated (convert_str arg1 (ERROR_ARGS_KEY ++ bstr "[1]"));
    Ok (as_u8 code, message).

Definition ErrorMessage_from_parts (root : BenDict) (trans_id : bytes) : outcome DhtError ErrorMessage :=
  error_args ← validated (lookup_and_convert_list root ERROR_ARGS_KEY);
  '(code, message) ← extract_error_args error_args;
  error_code ← ErrorCode_new code;
  Ok (mk_ErrorMessage trans_id error_code message).

Definition ErrorMessage_encode (self : ErrorMessage) : bytes :=
  let error_code := byte_val (ErrorCode_into (error_code self)) in
  ben_encode (ben_entries [
    (TRANSACTION_ID_KEY, ben_bytes (em_trans_id self));
    (MESSAGE_TYPE_KEY, ben_bytes ERROR_TYPE_KEY);
    (ERROR_TYPE_KEY, ben_items [ben_int error_code; ben_bytes (error_message self)])]).

(** ** [ping] *)

Definition PingRequest_from_parts (rqst_root : BenDict) (trans_id : bytes) : outcome DhtError PingRequest :=
  node_id_bytes ← validated (lookup_and_convert_bytes rqst_root NODE_ID_KEY);
  node_id ← rqst_validate_node_id trans_id node_id_bytes;
  Ok (mk_PingRequest trans_id node_id).

Definition PingRequest_encode (self : PingRequest) : bytes :=
  ben_encode (ben_entries [
    (TRANSACTION_ID_KEY, ben_bytes (pq_trans_id self));
    (MESSAGE_TYPE_KEY, ben_bytes REQUEST_TYPE_KEY);
    (REQUEST_TYPE_KEY, ben_bytes PING_TYPE_KEY);
    (REQUEST_ARGS_KEY, ben_entries [(NODE_ID_KEY, ben_bytes (sha_hash (pq_node_id self)))])]).

Definition PingResponse_from_parts (rsp_root : BenDict) (trans_id : bytes) : outcome DhtError PingResponse :=
  request ← PingRequest_from_parts rsp_root trans_id;
  Ok (mk_PingResponse (pq_trans_id request) (pq_node_id request)).

Definition PingResponse_encode (self : PingResponse) : bytes :=
  ben_encode (ben_entries [
    (TRANSACTION_ID_KEY, ben_bytes (pr_trans_id self));
    (MESSAGE_TYPE_KEY, ben_bytes RESPONSE_TYPE_KEY);
    (RESPONSE_TYPE_KEY, ben_entries [(NODE_ID_KEY, ben_bytes (sha_hash (pr_node_id self)))])]).
(** ** [find_node] *)

Definition FindNodeRequest_from_parts (rqst_root : BenDict) (trans_id target_key : bytes) : outcome DhtError FindNodeRequest :=
  node_id_bytes ← validated (lookup_and_convert_bytes rqst_root NODE_ID_KEY);
  node_id ← rqst_validate_node_id trans_id node_id_bytes;
  target_id_bytes ← validated (lookup_and_convert_bytes rqst_root target_key);
  target_id ← rqst_validate_node_id trans_id target_id_bytes;
  Ok (mk_FindNodeRequest trans_id node_id target_id).

Definition FindNodeRequest_encode (self : FindNodeRequest) : bytes :=
  ben_encode (ben_entries [
    (TRANSACTION_ID_KEY, ben_bytes (fq_trans_id self));
    (MESSAGE_TYPE_KEY, ben_bytes REQUEST_TYPE_KEY);
    (REQUEST_TYPE_KEY, ben_bytes FIND_NODE_TYPE_KEY);
    (REQUEST_ARGS_KEY, ben_entries [
      (NODE_ID_KEY, ben_bytes (sha_hash (fq_node_id self)));
      (TARGET_ID_KEY, ben_bytes (sha_hash (fq_target_id self)))])]).

Definition FindNodeResponse_new (trans_id : bytes) (node_id : ShaHash) (nodes : bytes) : outcome DhtError FindNodeResponse :=
  compact_nodes ← validate_nodes trans_id nodes;
  Ok (mk_FindNodeResponse trans_id node_id compact_nodes).

Definition FindNodeResponse_from_parts (rsp_root : BenDict) (trans_id : bytes) : outcome DhtError FindNodeResponse :=
  node_id_bytes ← validated (lookup_and_convert_bytes rsp_root NODE_ID_KEY);
  node_id ← rsp_validate_node_id trans_id node_id_bytes;
  nodes ← validated (lookup_and_convert_bytes rsp_root NODES_KEY);
  FindNodeResponse_new trans_id node_id nodes.

Definition FindNodeResponse_encode (self : FindNodeResponse) : bytes :=
  ben_encode (ben_entries [
    (TRANSACTION_ID_KEY, ben_bytes (fr_trans_id self));
    (MESSAGE_TYPE_KEY, ben_bytes RESPONSE_TYPE_KEY);
    (RESPONSE_TYPE_KEY, ben_entries [
      (NODE_ID_KEY, ben_bytes (sha_hash (fr_node_id self)));
      (NODES_KEY, ben_bytes (nodes (fr_nodes self)))])]).

(** ** [get_peers] *)

Definition GetPeersRequest_from_parts (rqst_root : BenDict) (trans_id : bytes) : outcome DhtError GetPeersRequest :=
  node_id_bytes ← validated (lookup_and_convert_bytes rqst_root NODE_ID_KEY);
  node_id ← rqst_validate_node_id trans_id node_id_bytes;
  info_hash_bytes ← validated (lookup_and_convert_bytes rqst_root INFO_HASH_KEY);
  info_hash ← rqst_validate_info_hash trans_id info_hash_bytes;
  Ok (mk_GetPeersRequest trans_id node_id info_hash).

Definition GetPeersRequest_encode (self : GetPeersRequest) : bytes :=
  ben_encode (ben_entries [
    (TRANSACTION_ID_KEY, ben_bytes (gq_trans_id self));
    (MESSAGE_TYPE_KEY, ben_bytes REQUEST_TYPE_KEY);
    (REQUEST_TYPE_KEY, ben_bytes GET_PEERS_TYPE_KEY);
    (REQUEST_ARGS_KEY, ben_entries [
      (NODE_ID_KEY, ben_bytes (sha_hash (gq_node_id self)));
      (INFO_HASH_KEY, ben_bytes (sha_hash (gq_info_hash self)))])]).

Definition GetPeersResponse_from_parts (rsp_root : BenDict) (trans_id : bytes) : outcome DhtError GetPeersResponse :=
  node_id_bytes ← validated (lookup_and_convert_bytes rsp_root NODE_ID_KEY);
  node_id ← rsp_validate_node_id trans_id node_id_bytes;
  let token := result_ok (lookup_and_convert_bytes rsp_root TOKEN_KEY) in
  let maybe_nodes := result_ok (lookup_and_convert_bytes rsp_root NODES_KEY) in
  let maybe_values := result_ok (lookup_and_convert_list rsp_root VALUES_KEY) in
  info_type ←
    match maybe_nodes, maybe_values with
    | Some nodes, Some values =>
        nodes_info ← validate_nodes trans_id nodes;
        values_info ← validate_values trans_id values;
        Ok (CiBoth nodes_info values_info)
    | Some nodes, None => nodes_info ← validate_nodes trans_id nodes; Ok (CiNodes nodes_info)
    | None, Some values => values_info ← validate_values trans_id values; Ok (CiValues values_info)
    | None, None => Err (InvalidResponse NoNodesOrValues)
    end;
  Ok (mk_GetPeersResponse trans_id node_id token info_type).

Definition GetPeersResponse_encode (self : GetPeersResponse) : bytes :=
  let response_args := [(NODE_ID_KEY, ben_bytes (sha_hash (gr_node_id self)))] in
  let response_args := response_args ++ match gr_token self with Some token => [(TOKEN_KEY, ben_bytes token)] | None => [] end in
  let response_args := response_args ++
    match gr_info_type self with
    | CiNodes n => [(NODES_KEY, ben_bytes (nodes n))]
    | CiValues v => [(VALUES_KEY, ben_items (values v))]
    | CiBoth n v => [(NODES_KEY, ben_bytes (nodes n)); (VALUES_KEY, ben_items (values v))]
    end in
  ben_encode (ben_entries [
    (TRANSACTION_ID_KEY, ben_bytes (gr_trans_id self));
    (MESSAGE_TYPE_KEY, ben_bytes RESPONSE_TYPE_KEY);
    (REQUEST_TYPE_KEY, ben_bytes GET_PEERS_TYPE_KEY);
    (RESPONSE_ARGS_KEY, ben_entries response_args)]).

(** ** [announce_peer] *)

Definition AnnouncePeerRequest_from_parts (rqst_root : BenDict) (trans_id : bytes) : outcome DhtError AnnouncePeerRequest :=
  node_id_bytes ← validated (lookup_and_convert_bytes rqst_root NODE_ID_KEY);
  node_id ← rqst_validate_node_id trans_id node_id_bytes;
  info_hash_bytes ← validated (lookup_and_convert_bytes rqst_root INFO_HASH_KEY);
  info_hash ← rqst_validate_info_hash trans_id info_hash_bytes;
  token ← validated (lookup_and_convert_bytes rqst_root TOKEN_KEY);
  let port := validated (lookup_and_convert_int rqst_root PORT_KEY) in
  let explicit := port_number ← port; Ok (Explicit (as_unsigned 16 port_number)) in
  response_port ←
    match ben_as_int <$> ben_lookup rqst_root IMPLIED_PORT_KEY with
    | Some (Some n) => if decide (n <> 0%Z) then Ok Implied else explicit
    | _ => explicit
    end;
  Ok (mk_AnnouncePeerRequest trans_id node_id info_hash token response_port).

Definition AnnouncePeerRequest_encode (self : AnnouncePeerRequest) : bytes :=
  let '(displayed_port, implied_value) := match aq_port self with Implied => (0%Z, 1%Z) | Explicit n => (n, 0%Z) end in
  ben_encode (ben_entries [
    (TRANSACTION_ID_KEY, ben_bytes (aq_trans_id self));
    (MESSAGE_TYPE_KEY, ben_bytes REQUEST_TYPE_KEY);
    (REQUEST_TYPE_KEY, ben_bytes ANNOUNCE_PEER_TYPE_KEY);
    (REQUEST_ARGS_KEY, ben_entries [
      (NODE_ID_KEY, ben_bytes (sha_hash (aq_node_id self)));
      (IMPLIED_PORT_KEY, ben_int implied_value);
      (INFO_HASH_KEY, ben_bytes (sha_hash (aq_info_hash self)));
      (PORT_KEY, ben_int displayed_port);
      (TOKEN_KEY, ben_bytes (aq_token self))])]).

Definition AnnouncePeerResponse_from_parts (rqst_root : BenDict) (trans_id : bytes) : outcome DhtError AnnouncePeerResponse :=
  node_id_bytes ← validated (lookup_and_convert_bytes rqst_root NODE_ID_KEY);
  node_id ← rqst_validate_node_id trans_id node_id_bytes;
  Ok (mk_AnnouncePeerResponse trans_id node_id).

Definition AnnouncePeerResponse_encode (self : AnnouncePeerResponse) : bytes :=
  ben_encode (ben_entries [
    (TRANSACTION_ID_KEY, ben_bytes (ar_trans_id self));
    (MESSAGE_TYPE_KEY, ben_bytes RESPONSE_TYPE_KEY);
    (RESPONSE_TYPE_KEY, ben_entries [(NODE_ID_KEY, ben_bytes (sha_hash (ar_node_id self)))])]).

(** ** Any message *)

Definition forward_compatible_find_node (rqst_root : BenDict) : option bytes :=
  match ben_lookup rqst_root TARGET_ID_KEY, ben_lookup rqst_root INFO_HASH_KEY with
  | Some _, _ => Some TARGET_ID_KEY
  | _, Some _ => Some INFO_HASH_KEY
  | None, None => None
  end.

Definition RequestType_from_parts (root : BenDict) (trans_id rqst_type : bytes) : outcome DhtError RequestType :=
  rqst_root ← validated (lookup_and_convert_dict root REQUEST_ARGS_KEY);
  if decide (rqst_type = PING_TYPE_KEY) then ping_rqst ← PingRequest_from_parts rqst_root trans_id; Ok (RqPing ping_rqst)
  else if decide (rqst_type = FIND_NODE_TYPE_KEY) then
    find_node_rqst ← FindNodeRequest_from_parts rqst_root trans_id TARGET_ID_KEY; Ok (RqFindNode find_node_rqst)
  else if decide (rqst_type = GET_PEERS_TYPE_KEY) then
    get_peers_rqst ← GetPeersRequest_from_parts rqst_root trans_id; Ok (RqGetPeers get_peers_rqst)
  else if decide (rqst_type = ANNOUNCE_PEER_TYPE_KEY) then
    announce_peer_rqst ← AnnouncePeerRequest_from_parts rqst_root trans_id; Ok (RqAnnouncePeer announce_peer_rqst)
  else
    match forward_compatible_find_node rqst_root with
    | Some target_key => find_node_rqst ← FindNodeRequest_from_parts rqst_root trans_id target_key; Ok (RqFindNode find_node_rqst)
    | None => Err (InvalidRequest (ErrorMessage_new trans_id MethodUnknown (bstr "Received Unknown Request Method: " ++ rqst_type)))
    end.

Definition ResponseType_from_parts (root : BenDict) (trans_id : bytes) (rsp_type : ExpectedResponse) : outcome DhtError ResponseType :=
  rqst_root ← validated (lookup_and_convert_dict root RESPONSE_ARGS_KEY);
  match rsp_type with
  | ExPing => ping_rsp ← PingResponse_from_parts rqst_root trans_id; Ok (RsPing ping_rsp)
  | ExFindNode => find_node_rsp ← FindNodeResponse_from_parts rqst_root trans_id; Ok (RsFindNode find_node_rsp)
  | ExGetPeers => get_peers_rsp ← GetPeersResponse_from_parts rqst_root trans_id; Ok (RsGetPeers get_peers_rsp)
  | ExAnnouncePeer => announce_peer_rsp ← AnnouncePeerResponse_from_parts rqst_root trans_id; Ok (RsAnnouncePeer announce_peer_rsp)
  | ExGetData | ExPutData => Panic
  | ExNone => Err UnsolicitedResponse
  end.

Definition MessageType_new (message : Ben) (trans_mapper : bytes -> ExpectedResponse) : outcome DhtError MessageType :=
  msg_root ← validated (convert_dict message ROOT_ID_KEY);
  trans_id ← validated (lookup_and_convert_bytes msg_root TRANSACTION_ID_KEY);
  msg_type ← validated (lookup_and_convert_str msg_root MESSAGE_TYPE_KEY);
  if decide (msg_type = REQUEST_TYPE_KEY) then
    rqst_type ← validated (lookup_and_convert_str msg_root REQUEST_TYPE_KEY);
    rqst_msg ← RequestType_from_parts msg_root trans_id rqst_type;
    Ok (MtRequest rqst_msg)
  else if decide (msg_type = RESPONSE_TYPE_KEY) then
    let rsp_type := trans_mapper trans_id in
    rsp_message ← ResponseType_from_parts msg_root trans_id rsp_type;
    Ok (MtResponse rsp_message)
  else if decide (msg_type = ERROR_TYPE_KEY) then
    err_message ← ErrorMessage_from_parts msg_root trans_id;
    Ok (MtError err_message)
  else Err (InvalidMessage msg_type).

(** What each message encodes to. *)
Definition Message_encode (m : MessageType) : bytes :=
  match m with
  | MtRequest (RqPing p) => PingRequest_encode p
  | MtRequest (RqFindNode f) => FindNodeRequest_encode f
  | MtRequest (RqGetPeers g) => GetPeersRequest_encode g
  | MtRequest (RqAnnouncePeer a) => AnnouncePeerRequest_encode a
  | MtResponse (RsPing p) => PingResponse_encode p
  | MtResponse (RsFindNode f) => FindNodeResponse_encode f
  | MtResponse (RsGetPeers g) => GetPeersResponse_encode g
  | MtResponse (RsAnnouncePeer a) => AnnouncePeerResponse_encode a
  | MtError e => ErrorMessage_encode e
  end.

End messages.
