(* ===== verification/DhtMessageProofs.v ===== *)
(** * KRPC messages: total parsing and round trips

    Parsing comes back on every bencode value and gives messages with ids of
    twenty bytes, whole compact lists and ports of sixteen bits; what a message
    encodes to is decoded and parsed back to it. *)

From stdpp Require Import prelude list gmap strings.
From Stdlib Require Import ZArith Lia Strings.Byte.
From S2P Require Import Prelude Bytes DecStr Bencode Convert Sha Node Compact DhtMessage.

(** ** Well formed messages *)

Definition nodes_wf (n : CompactNodeInfo) : Prop := length (nodes n) mod BYTES_PER_COMPACT_NODE_INFO = 0.
Definition port_wf (p : ConnectPort) : Prop := match p with Implied => True | Explicit n => in_unsigned 16 n end.

Definition request_wf (m : RequestType) : Prop :=
  match m with
  | RqPing p => sha_wf (pq_node_id p)
  | RqFindNode f => sha_wf (fq_node_id f) /\ sha_wf (fq_target_id f)
  | RqGetPeers g => sha_wf (gq_node_id g) /\ sha_wf (gq_info_hash g)
  | RqAnnouncePeer a => sha_wf (aq_node_id a) /\ sha_wf (aq_info_hash a) /\ port_wf (aq_port a)
  end.

Section typed.
Context {BO : BenOps} {BL : BenLaws}.

(** Every value is six bytes. *)
Definition values_wf (v : @CompactValueInfo Ben) : Prop :=
  Forall (fun b => exists s, ben_as_bytes b = Some s /\ length s = BYTES_PER_COMPACT_IP) (values v).

Definition info_wf (i : CompactInfoType) : Prop :=
  match i with CiNodes n => nodes_wf n | CiValues v => values_wf v | CiBoth n v => nodes_wf n /\ values_wf v end.

Definition response_wf (m : ResponseType) : Prop :=
  match m with
  | RsPing p => sha_wf (pr_node_id p)
  | RsFindNode f => sha_wf (fr_node_id f) /\ nodes_wf (fr_nodes f)
  | RsGetPeers g => sha_wf (gr_node_id g) /\ info_wf (gr_info_type g)
  | RsAnnouncePeer a => sha_wf (ar_node_id a)
  end.

Definition message_wf (m : MessageType) : Prop :=
  match m with MtRequest r => request_wf r | MtResponse r => response_wf r | MtError _ => True end.

Definition message_trans_id (m : MessageType) : bytes :=
  match m with
  | MtRequest (RqPing p) => pq_trans_id p
  | MtRequest (RqFindNode f) => fq_trans_id f
  | MtRequest (RqGetPeers g) => gq_trans_id g
  | MtRequest (RqAnnouncePeer a) => aq_trans_id a
  | MtResponse (RsPing p) => pr_trans_id p
  | MtResponse (RsFindNode f) => fr_trans_id f
  | MtResponse (RsGetPeers g) => gr_trans_id g
  | MtResponse (RsAnnouncePeer a) => ar_trans_id a
  | MtError e => em_trans_id e
  end.

(** What the mapper has to answer for a message to be taken for what it is. *)
Definition expected_as (m : MessageType) (e : ExpectedResponse) : Prop :=
  match m with
  | MtResponse (RsPing _) => e = ExPing
  | MtResponse (RsFindNode _) => e = ExFindNode
  | MtResponse (RsGetPeers _) => e = ExGetPeers
  | MtResponse (RsAnnouncePeer _) => e = ExAnnouncePeer
  | _ => True
  end.

(** ** Parsing is total *)

Lemma validated_safely {A} (get : Ben -> option A) b r : converts get b r -> safely (fun a => b ≫= get = Some a) (validated r).
Proof. unfold converts, validated. destruct (b ≫= get); [by intros ->|by intros [e ->]]. Qed.

Lemma from_hash_safely h e : safely sha_wf (or_else_err (from_hash h) e).
Proof.
  destruct (decide (length h = SHA_HASH_LEN)) as [Hl|Hl]; [by rewrite from_hash_ok|].
  unfold from_hash. by rewrite decide_True.
Qed.

Lemma bytes_safely d k : safely (fun _ => True) (validated (lookup_and_convert_bytes d k)).
Proof. eapply safely_impl; [apply validated_safely, lookup_bytes_spec|done]. Qed.

Lemma validate_nodes_safely t n : safely nodes_wf (validate_nodes t n).
Proof. unfold validate_nodes, CompactNodeInfo_new. case_decide as Hd; [done|]. exact Hd. Qed.

Lemma validate_values_safely t vs : safely values_wf (validate_values t vs).
Proof.
  unfold validate_values. apply (safely_bind (fun _ => Forall (fun b => is_Some (ben_as_bytes b)) vs)).
  - induction vs as [|b vs IH]; cbn; [constructor|]. destruct (ben_as_bytes b) as [s|] eqn:E; [|done].
    eapply safely_impl; [exact IH|]. intros [] Hf. constructor; [by eexists|done].
  - intros _ Hf. unfold CompactValueInfo_new.
    assert (forall i, safely (fun _ : () => Forall (fun b => exists s, ben_as_bytes b = Some s /\ length s = BYTES_PER_COMPACT_IP) vs) (check_values ben_as_bytes i vs)) as Hc.
    { induction Hf as [|b l [s Hs] Hl IH]; intros i; cbn [check_values]; [constructor|]. rewrite Hs. cbn [unwrap mbind outcome_bind].
      case_decide as Hd; [done|]. eapply safely_impl; [apply (IH (S i))|]. intros [] Hall. constructor; [|done]. by exists s. }
    specialize (Hc 0). destruct (check_values _ 0 vs); by cbn in *.
Qed.

(** One step of a parser: its precondition is the property of the call. *)
Ltac parse_step := first
  [ eapply safely_bind; [apply bytes_safely|cbn beta; intros ? _]
  | eapply safely_bind; [apply from_hash_safely|cbn beta; intros ? ?]
  | eapply safely_bind; [apply validate_nodes_safely|cbn beta; intros ? ?]
  | eapply safely_bind; [apply validate_values_safely|cbn beta; intros ? ?] ].

Lemma ping_safely d t : safely (fun p => sha_wf (pq_node_id p) /\ pq_trans_id p = t) (PingRequest_from_parts d t).
Proof. unfold PingRequest_from_parts, rqst_validate_node_id. do 2 parse_step. done. Qed.

Lemma find_node_safely d t k : safely (fun f => sha_wf (fq_node_id f) /\ sha_wf (fq_target_id f)) (FindNodeRequest_from_parts d t k).
Proof. unfold FindNodeRequest_from_parts, rqst_validate_node_id. do 4 parse_step. done. Qed.

Lemma get_peers_safely d t : safely (fun g => sha_wf (gq_node_id g) /\ sha_wf (gq_info_hash g)) (GetPeersRequest_from_parts d t).
Proof. unfold GetPeersRequest_from_parts, rqst_validate_node_id, rqst_validate_info_hash. do 4 parse_step. done. Qed.

Lemma announce_safely d t : safely (fun a => sha_wf (aq_node_id a) /\ sha_wf (aq_info_hash a) /\ port_wf (aq_port a)) (AnnouncePeerRequest_from_parts d t).
Proof.
  unfold AnnouncePeerRequest_from_parts, rqst_validate_node_id, rqst_validate_info_hash. do 5 parse_step.
  apply (safely_bind port_wf); [|by cbn].
  assert (safely port_wf (port_number ← validated (lookup_and_convert_int d PORT_KEY); Ok (Explicit (as_unsigned 16 port_number)))) as He.
  { eapply safely_bind; [apply validated_safely, lookup_int_spec|]. intros z _. cbn. apply as_unsigned_range. lia. }
  destruct (ben_as_int <$> _) as [[n|]|]; [case_decide; [done|]|..]; exact He.
Qed.

Lemma find_node_rsp_safely d t : safely (fun f => (sha_wf (fr_node_id f) /\ nodes_wf (fr_nodes f)) /\ fr_trans_id f = t) (FindNodeResponse_from_parts d t).
Proof. unfold FindNodeResponse_from_parts, rsp_validate_node_id, FindNodeResponse_new. do 4 parse_step. done. Qed.

Lemma get_peers_rsp_safely d t : safely (fun g => (sha_wf (gr_node_id g) /\ info_wf (gr_info_type g)) /\ gr_trans_id g = t) (GetPeersResponse_from_parts d t).
Proof.
  unfold GetPeersResponse_from_parts, rsp_validate_node_id. do 2 parse_step. apply (safely_bind info_wf); [|by cbn].
  destruct (result_ok _), (result_ok _); [do 2 parse_step; done|parse_step; done|parse_step; done|done].
Qed.

Lemma announce_rsp_safely d t : safely (fun a => sha_wf (ar_node_id a) /\ ar_trans_id a = t) (AnnouncePeerResponse_from_parts d t).
Proof. unfold AnnouncePeerResponse_from_parts, rqst_validate_node_id. do 2 parse_step. done. Qed.

Lemma error_safely d t : safely (fun _ => True) (ErrorMessage_from_parts d t).
Proof.
  unfold ErrorMessage_from_parts. eapply safely_bind; [apply validated_safely, lookup_list_spec|]. intros args _.
  eapply (safely_bind (fun _ => True)).
  - unfold extract_error_args. case_decide as Hl; [done|].
    destruct args as [|a0 [|a1 [|]]]; [done..| |done].
    cbn [lookup list_lookup unwrap mbind outcome_bind].
    eapply safely_bind; [apply validated_safely, convert_int_spec|]. intros z _.
    eapply safely_bind; [apply validated_safely, convert_str_spec|]. done.
  - intros [code msg] _. unfold ErrorCode_new. repeat case_decide; done.
Qed.

Lemma request_safely d t ty : safely request_wf (RequestType_from_parts d t ty).
Proof.
  unfold RequestType_from_parts. eapply safely_bind; [apply validated_safely, lookup_dict_spec|]. intros root _.
  repeat case_decide; [eapply safely_bind; [apply ping_safely|by intros ? []]|eapply safely_bind; [apply find_node_safely|done]
    |eapply safely_bind; [apply get_peers_safely|done]|eapply safely_bind; [apply announce_safely|done]|].
  destruct (forward_compatible_find_node root); [eapply safely_bind; [apply find_node_safely|done]|done].
Qed.

Definition expectable (e : ExpectedResponse) : Prop := e <> ExGetData /\ e <> ExPutData.

Lemma response_safely d t e : expectable e ->
  safely (fun r => response_wf r /\ message_trans_id (MtResponse r) = t /\ expected_as (MtResponse r) e) (ResponseType_from_parts d t e).
Proof.
  intros [He1 He2]. unfold ResponseType_from_parts. eapply safely_bind; [apply validated_safely, lookup_dict_spec|]. intros root _.
  destruct e; [|eapply safely_bind; [apply find_node_rsp_safely|by intros f []]|eapply safely_bind; [apply get_peers_rsp_safely|by intros g []]
    |eapply safely_bind; [apply announce_rsp_safely|by intros a []]|done|done|done].
  eapply (safely_bind (fun p => sha_wf (pr_node_id p) /\ pr_trans_id p = t)); [|by intros p []].
  unfold PingResponse_from_parts. eapply safely_bind; [apply ping_safely|done].
Qed.

Lemma parse_safely message trans_mapper : (forall t, expectable (trans_mapper t)) ->
  safely (fun m => message_wf m /\ expected_as m (trans_mapper (message_trans_id m))) (MessageType_new message trans_mapper).
Proof.
  intros Hm. unfold MessageType_new. eapply safely_bind; [apply validated_safely, convert_dict_spec|]. intros root _.
  eapply safely_bind; [apply bytes_safely|]. intros t _. eapply safely_bind; [apply validated_safely, lookup_str_spec|]. intros ty _.
  repeat case_decide.
  - eapply safely_bind; [apply validated_safely, lookup_str_spec|]. intros rt _. eapply safely_bind; [apply request_safely|done].
  - eapply safely_bind; [apply response_safely, Hm|]. intros r (Hw & <- & He). done.
  - eapply safely_bind; [apply error_safely|done].
  - done.
Qed.

(** Parsing comes back on every bencode value, never with a panic as long as no
    [get] or [put] response is expected.  A message it accepts is well formed,
    and a response is of the kind expected for its transaction id. *)
Theorem krpc_parse_typed (message : Ben) (trans_mapper : bytes -> ExpectedResponse) :
  (forall t, expectable (trans_mapper t)) ->
  safely (fun m => message_wf m /\ expected_as m (trans_mapper (message_trans_id m))) (MessageType_new message trans_mapper).
Proof. apply parse_safely. Qed.

(** ** What is encoded is read back *)

Definition dict_of (d : BenDict) (kvs : list (bytes * Ben)) : Prop := forall k v, ben_lookup d k = Some v <-> (k, v) ∈ kvs.

Lemma dict_of_None d kvs k : dict_of d kvs -> k ∉ kvs.*1 -> ben_lookup d k = None.
Proof.
  intros Hd Hk. destruct (ben_lookup d k) as [v|] eqn:E; [|done]. apply Hd in E. by apply (list_elem_of_fmap_2 fst) in E.
Qed.

Section fields.
Context (d : BenDict) (kvs : list (bytes * Ben)) (Hd : dict_of d kvs) (k : bytes).
Lemma field_bytes s : (k, ben_bytes s) ∈ kvs -> lookup_and_convert_bytes d k = Ok s.
Proof using Hd BL. intros Hk%Hd. apply (converts_found _ _ _ _ _ (lookup_bytes_spec d k) Hk), as_bytes_bytes. Qed.
Lemma field_str s : from_utf8 s = Some s -> (k, ben_bytes s) ∈ kvs -> lookup_and_convert_str d k = Ok s.
Proof using Hd BL. intros Hs Hk%Hd. apply (converts_found _ _ _ _ _ (lookup_str_spec d k) Hk). by rewrite as_str_bytes. Qed.
Lemma field_int z : (k, ben_int z) ∈ kvs -> lookup_and_convert_int d k = Ok z.
Proof using Hd BL. intros Hk%Hd. apply (converts_found _ _ _ _ _ (lookup_int_spec d k) Hk), as_int_int. Qed.
Lemma field_list l : (k, ben_items l) ∈ kvs -> lookup_and_convert_list d k = Ok l.
Proof using Hd BL. intros Hk%Hd. apply (converts_found _ _ _ _ _ (lookup_list_spec d k) Hk), as_list_items. Qed.
Lemma field_dict kvs' : NoDup kvs'.*1 -> (k, ben_entries kvs') ∈ kvs -> exists d', lookup_and_convert_dict d k = Ok d' /\ dict_of d' kvs'.
Proof using Hd BL.
  intros Hn Hk%Hd. destruct (as_dict_entries kvs' Hn) as (d' & Hd' & Hl). exists d'. split; [|done].
  by apply (converts_found _ _ _ _ _ (lookup_dict_spec d k) Hk).
Qed.
Lemma no_field_bytes : k ∉ kvs.*1 -> result_ok (lookup_and_convert_bytes d k) = None.
Proof using Hd BL. intros Hk. destruct (converts_missing _ _ _ (lookup_bytes_spec d k)) as [e ->]; [by eapply dict_of_None|done]. Qed.
Lemma no_field_list : k ∉ kvs.*1 -> result_ok (lookup_and_convert_list d k) = None.
Proof using Hd BL. intros Hk. destruct (converts_missing _ _ _ (lookup_list_spec d k)) as [e ->]; [by eapply dict_of_None|done]. Qed.
End fields.

(** A key among those of a literal list, or none of them. *)
Ltac in_list := repeat first [left; reflexivity | right].
Ltac keys := apply (bool_decide_unpack _); vm_compute; exact I.

Definition small (s : bytes) : Prop := (Z.of_nat (length s) < 2 ^ 63)%Z.

Lemma sha_small h : sha_wf h -> small (sha_hash h).
Proof. intros Hh. unfold small. rewrite Hh. by vm_compute. Qed.

Lemma sha_read h e : sha_wf h -> or_else_err (from_hash (sha_hash h)) e = Ok h.
Proof. intros Hh. rewrite from_hash_ok by done. by destruct h. Qed.

Lemma nodes_read t n : nodes_wf n -> validate_nodes t (nodes n) = Ok n.
Proof. intros Hn. unfold validate_nodes, CompactNodeInfo_new. rewrite decide_False by (intros Hx; by apply Hx). by destruct n. Qed.

Lemma values_read t v : values_wf v -> validate_values t (values v) = Ok v.
Proof.
  intros Hv. pose proof Hv as Hv'. unfold validate_values. assert (values_are_bytes t (values v) = Ok ()) as ->.
  { clear Hv'. induction Hv as [|b l (s & Hs & _) Hl IH]; [done|]. cbn. by rewrite Hs. }
  cbn [mbind outcome_bind]. unfold CompactValueInfo_new. assert (forall i, check_values ben_as_bytes i (values v) = Ok ()) as Hc.
  { induction Hv' as [|b l (s & Hs & Hl) _ IH]; intros i; [done|]. cbn [check_values]. rewrite Hs. cbn [unwrap mbind outcome_bind].
    rewrite decide_False by (intros Hx; by apply Hx). apply IH. }
  rewrite Hc. by destruct v.
Qed.

(** A message whose parts fit the wire: texts are small, values are written as
    bytes, an error text is UTF-8. *)
Definition message_sendable (m : MessageType) : Prop :=
  message_wf m /\ small (message_trans_id m) /\
  match m with
  | MtRequest (RqAnnouncePeer a) => small (aq_token a)
  | MtResponse (RsFindNode f) => small (nodes (fr_nodes f))
  | MtResponse (RsGetPeers g) =>
      from_option small True (gr_token g) /\
      match gr_info_type g with CiNodes n | CiBoth n _ => small (nodes n) | _ => True end /\
      match gr_info_type g with CiValues v | CiBoth _ v => exists l, values v = ben_bytes <$> l | _ => True end
  | MtError e => small (error_message e) /\ from_utf8 (error_message e) = Some (error_message e)
  | _ => True
  end.

(** The outer dictionary of a request and what is made of it. *)
Definition request_frame (t ty : bytes) (kvs : list (bytes * Ben)) : list (bytes * Ben) :=
  [(TRANSACTION_ID_KEY, ben_bytes t); (MESSAGE_TYPE_KEY, ben_bytes REQUEST_TYPE_KEY); (REQUEST_TYPE_KEY, ben_bytes ty); (REQUEST_ARGS_KEY, ben_entries kvs)].

Lemma frame_written (root kvs : list (bytes * Ben)) k : NoDup root.*1 -> NoDup kvs.*1 -> small k ->
  Forall (fun p => small p.1 /\ (p = (k, ben_entries kvs) \/ exists s, p.2 = ben_bytes s /\ small s)) root ->
  Forall (fun p => small p.1 /\ ben_written 2 p.2) kvs -> ben_written 4 (ben_entries root).
Proof.
  intros Hr Hn Hk Hall Hkv. apply written_entries; [done|]. eapply Forall_impl; [exact Hall|]. intros p [Hp [->|(s & -> & Hs)]]; (split; [done|]).
  - by apply written_entries.
  - by apply written_bytes.
Qed.

Lemma literal_small s : bool_decide (Z.of_nat (length s) < 2 ^ 63)%Z = true -> small s.
Proof. by intros ?%bool_decide_eq_true. Qed.
Ltac small_literal := apply literal_small; vm_compute; reflexivity.
Ltac frame_entries :=
  repeat (apply Forall_cons_2; [split; [small_literal|first [left; reflexivity | right; eexists; split; [reflexivity|first [assumption|small_literal]]]]|]); apply Forall_nil_2.

Lemma request_read t ty kvs mapper : small t -> small ty -> from_utf8 ty = Some ty -> NoDup kvs.*1 -> Forall (fun p => small p.1 /\ ben_written 2 p.2) kvs ->
  exists b root d, ben_decode (ben_encode (ben_entries (request_frame t ty kvs))) = Some b /\ dict_of d kvs /\
    lookup_and_convert_dict root REQUEST_ARGS_KEY = Ok d /\
    MessageType_new b mapper = rqst_msg ← RequestType_from_parts root t ty; Ok (MtRequest rqst_msg).
Proof.
  intros Ht Hty Hu Hn Hkv. set (root := request_frame t ty kvs). assert (NoDup root.*1) as Hr by keys.
  exists (ben_entries root). destruct (as_dict_entries root Hr) as (r & Hr' & Hroot).
  destruct (field_dict r root Hroot REQUEST_ARGS_KEY kvs Hn) as (d & Hd & Hkvs); [in_list|].
  exists r, d. split; [|split; [done|split; [done|]]].
  - apply ben_decode_encode, (frame_written _ kvs REQUEST_ARGS_KEY); [done|done|small_literal| |done].
    frame_entries.
  - unfold MessageType_new. rewrite (converts_found _ _ _ _ _ (convert_dict_spec (ben_entries root) ROOT_ID_KEY) eq_refl Hr').
    cbn [validated map_err mbind outcome_bind]. rewrite (field_bytes r root Hroot TRANSACTION_ID_KEY t) by in_list. cbn [validated map_err mbind outcome_bind].
    rewrite (field_str r root Hroot MESSAGE_TYPE_KEY REQUEST_TYPE_KEY) by (done || in_list). cbn [validated map_err mbind outcome_bind].
    rewrite decide_True by done. rewrite (field_str r root Hroot REQUEST_TYPE_KEY ty) by (done || in_list). done.
Qed.

(** The same for a response; [extra] are keys of it that are not read. *)
Definition response_frame (t : bytes) (extra : list (bytes * Ben)) (kvs : list (bytes * Ben)) : list (bytes * Ben) :=
  [(TRANSACTION_ID_KEY, ben_bytes t); (MESSAGE_TYPE_KEY, ben_bytes RESPONSE_TYPE_KEY)] ++ extra ++ [(RESPONSE_ARGS_KEY, ben_entries kvs)].

Lemma response_read t extra kvs mapper : small t -> extra = [] \/ extra = [(REQUEST_TYPE_KEY, ben_bytes GET_PEERS_TYPE_KEY)] ->
  NoDup kvs.*1 -> Forall (fun p => small p.1 /\ ben_written 2 p.2) kvs ->
  exists b root d, ben_decode (ben_encode (ben_entries (response_frame t extra kvs))) = Some b /\ dict_of d kvs /\
    lookup_and_convert_dict root RESPONSE_ARGS_KEY = Ok d /\
    MessageType_new b mapper = rsp_message ← ResponseType_from_parts root t (mapper t); Ok (MtResponse rsp_message).
Proof.
  intros Ht Hx Hn Hkv. set (root := response_frame t extra kvs). assert (NoDup root.*1) as Hr by (destruct Hx as [-> | ->]; keys).
  exists (ben_entries root). destruct (as_dict_entries root Hr) as (r & Hr' & Hroot).
  destruct (field_dict r root Hroot RESPONSE_ARGS_KEY kvs Hn) as (d & Hd & Hkvs); [destruct Hx as [-> | ->]; in_list|].
  exists r, d. split; [|split; [done|split; [done|]]].
  - apply ben_decode_encode, (frame_written _ kvs RESPONSE_ARGS_KEY); [done|done|small_literal| |done].
    destruct Hx as [-> | ->]; frame_entries.
  - unfold MessageType_new. rewrite (converts_found _ _ _ _ _ (convert_dict_spec (ben_entries root) ROOT_ID_KEY) eq_refl Hr').
    cbn [validated map_err mbind outcome_bind]. rewrite (field_bytes r root Hroot TRANSACTION_ID_KEY t) by in_list. cbn [validated map_err mbind outcome_bind].
    rewrite (field_str r root Hroot MESSAGE_TYPE_KEY RESPONSE_TYPE_KEY) by (done || in_list). done.
Qed.

(** ** Each message *)

Definition read_back (m : MessageType) (mapper : bytes -> ExpectedResponse) : Prop :=
  exists b, ben_decode (Message_encode m) = Some b /\ MessageType_new b mapper = Ok m.

Ltac entries_written :=
  repeat (apply Forall_cons_2; [split; [small_literal|first [apply written_bytes; first [assumption|by apply sha_small] | apply written_int]]|]); try apply Forall_nil_2.

Lemma ping_args_read h t d : sha_wf h -> dict_of d [(NODE_ID_KEY, ben_bytes (sha_hash h))] -> PingRequest_from_parts d t = Ok (mk_PingRequest t h).
Proof.
  intros Hh Hd. unfold PingRequest_from_parts. rewrite (field_bytes _ _ Hd NODE_ID_KEY (sha_hash h)) by in_list.
  cbn [validated map_err mbind outcome_bind]. unfold rqst_validate_node_id. by rewrite sha_read.
Qed.

Lemma ping_roundtrip p mapper : message_sendable (MtRequest (RqPing p)) -> read_back (MtRequest (RqPing p)) mapper.
Proof.
  intros (Hw & Ht & _). cbn in Hw, Ht.
  destruct (request_read (pq_trans_id p) PING_TYPE_KEY [(NODE_ID_KEY, ben_bytes (sha_hash (pq_node_id p)))] mapper)
    as (b & root & d & Hb & Hd & Hr & Hm); [done|small_literal|done|keys|entries_written|].
  exists b. split; [exact Hb|]. rewrite Hm. unfold RequestType_from_parts. rewrite Hr. cbn [validated map_err mbind outcome_bind].
  rewrite decide_True by done. rewrite (ping_args_read (pq_node_id p)) by done. by destruct p.
Qed.

Lemma find_node_roundtrip f mapper : message_sendable (MtRequest (RqFindNode f)) -> read_back (MtRequest (RqFindNode f)) mapper.
Proof.
  intros ((Hn & Hg) & Ht & _). cbn in Ht. set (kvs := [(NODE_ID_KEY, ben_bytes (sha_hash (fq_node_id f))); (TARGET_ID_KEY, ben_bytes (sha_hash (fq_target_id f)))]).
  destruct (request_read (fq_trans_id f) FIND_NODE_TYPE_KEY kvs mapper) as (b & root & d & Hb & Hd & Hr & Hm); [done|small_literal|done|keys|entries_written|].
  exists b. split; [exact Hb|]. rewrite Hm. unfold RequestType_from_parts. rewrite Hr. cbn [validated map_err mbind outcome_bind].
  rewrite decide_False, decide_True by done. unfold FindNodeRequest_from_parts, rqst_validate_node_id.
  rewrite (field_bytes _ _ Hd NODE_ID_KEY (sha_hash (fq_node_id f))) by in_list. cbn [validated map_err mbind outcome_bind]. rewrite sha_read by done. cbn [mbind outcome_bind].
  rewrite (field_bytes _ _ Hd TARGET_ID_KEY (sha_hash (fq_target_id f))) by in_list. cbn [validated map_err mbind outcome_bind]. rewrite sha_read by done. by destruct f.
Qed.

Lemma get_peers_roundtrip g mapper : message_sendable (MtRequest (RqGetPeers g)) -> read_back (MtRequest (RqGetPeers g)) mapper.
Proof.
  intros ((Hn & Hg) & Ht & _). cbn in Ht. set (kvs := [(NODE_ID_KEY, ben_bytes (sha_hash (gq_node_id g))); (INFO_HASH_KEY, ben_bytes (sha_hash (gq_info_hash g)))]).
  destruct (request_read (gq_trans_id g) GET_PEERS_TYPE_KEY kvs mapper) as (b & root & d & Hb & Hd & Hr & Hm); [done|small_literal|done|keys|entries_written|].
  exists b. split; [exact Hb|]. rewrite Hm. unfold RequestType_from_parts. rewrite Hr. cbn [validated map_err mbind outcome_bind].
  rewrite decide_False, decide_False, decide_True by done. unfold GetPeersRequest_from_parts, rqst_validate_node_id, rqst_validate_info_hash.
  rewrite (field_bytes _ _ Hd NODE_ID_KEY (sha_hash (gq_node_id g))) by in_list. cbn [validated map_err mbind outcome_bind]. rewrite sha_read by done. cbn [mbind outcome_bind].
  rewrite (field_bytes _ _ Hd INFO_HASH_KEY (sha_hash (gq_info_hash g))) by in_list. cbn [validated map_err mbind outcome_bind]. rewrite sha_read by done. by destruct g.
Qed.

Definition announce_kvs (a : AnnouncePeerRequest) : list (bytes * Ben) :=
  [(NODE_ID_KEY, ben_bytes (sha_hash (aq_node_id a))); (IMPLIED_PORT_KEY, ben_int (match aq_port a with Implied => 1 | Explicit _ => 0 end)%Z);
   (INFO_HASH_KEY, ben_bytes (sha_hash (aq_info_hash a))); (PORT_KEY, ben_int (match aq_port a with Implied => 0 | Explicit n => n end)%Z);
   (TOKEN_KEY, ben_bytes (aq_token a))].

Lemma announce_args_read a d : request_wf (RqAnnouncePeer a) -> dict_of d (announce_kvs a) ->
  AnnouncePeerRequest_from_parts d (aq_trans_id a) = Ok a.
Proof.
  intros (Hn & Hg & Hp) Hd. unfold AnnouncePeerRequest_from_parts, rqst_validate_node_id, rqst_validate_info_hash.
  rewrite (field_bytes _ _ Hd NODE_ID_KEY (sha_hash (aq_node_id a))) by in_list. cbn [validated map_err mbind outcome_bind]. rewrite sha_read by done. cbn [mbind outcome_bind].
  rewrite (field_bytes _ _ Hd INFO_HASH_KEY (sha_hash (aq_info_hash a))) by in_list. cbn [validated map_err mbind outcome_bind]. rewrite sha_read by done. cbn [mbind outcome_bind].
  rewrite (field_bytes _ _ Hd TOKEN_KEY (aq_token a)) by in_list. cbn [validated map_err mbind outcome_bind].
  assert (ben_lookup d IMPLIED_PORT_KEY = Some (ben_int (match aq_port a with Implied => 1 | Explicit _ => 0 end)%Z)) as -> by (apply Hd; in_list).
  cbn [fmap option_fmap option_map]. rewrite as_int_int. rewrite (field_int _ _ Hd PORT_KEY (match aq_port a with Implied => 0 | Explicit n => n end)%Z) by in_list.
  destruct a as [t n h tok [|port]]; cbn in *; [done|]. by rewrite as_unsigned_id.
Qed.

Lemma announce_roundtrip a mapper : message_sendable (MtRequest (RqAnnouncePeer a)) -> read_back (MtRequest (RqAnnouncePeer a)) mapper.
Proof.
  intros (Hw & Ht & Htok). pose proof Hw as (Hn & Hg & Hp). cbn in Ht, Htok.
  destruct (request_read (aq_trans_id a) ANNOUNCE_PEER_TYPE_KEY (announce_kvs a) mapper) as (b & root & d & Hb & Hd & Hr & Hm); [done|small_literal|done|keys| |].
  { unfold announce_kvs. entries_written; destruct (aq_port a); cbn in Hp; unfold in_signed, in_unsigned in *; lia. }
  exists b. split; [cbn; unfold AnnouncePeerRequest_encode; rewrite <- Hb; unfold announce_kvs; by destruct (aq_port a)|].
  rewrite Hm. unfold RequestType_from_parts. rewrite Hr. cbn [validated map_err mbind outcome_bind].
  rewrite decide_False, decide_False, decide_False, decide_True by done. by rewrite announce_args_read.
Qed.

Lemma id_rsp_roundtrip (t : bytes) (h : ShaHash) mapper : small t -> sha_wf h ->
  exists b root d, ben_decode (ben_encode (ben_entries (response_frame t [] [(NODE_ID_KEY, ben_bytes (sha_hash h))]))) = Some b /\
    dict_of d [(NODE_ID_KEY, ben_bytes (sha_hash h))] /\ lookup_and_convert_dict root RESPONSE_ARGS_KEY = Ok d /\
    MessageType_new b mapper = rsp_message ← ResponseType_from_parts root t (mapper t); Ok (MtResponse rsp_message).
Proof. intros Ht Hh. apply response_read; [done|by left|keys|entries_written]. Qed.

Lemma ping_rsp_roundtrip p mapper : message_sendable (MtResponse (RsPing p)) -> mapper (pr_trans_id p) = ExPing -> read_back (MtResponse (RsPing p)) mapper.
Proof.
  intros (Hw & Ht & _) He. destruct (id_rsp_roundtrip (pr_trans_id p) (pr_node_id p) mapper Ht Hw) as (b & root & d & Hb & Hd & Hr & Hm).
  exists b. split; [exact Hb|]. rewrite Hm, He. unfold ResponseType_from_parts. rewrite Hr. cbn [validated map_err mbind outcome_bind].
  unfold PingResponse_from_parts. rewrite (ping_args_read (pr_node_id p)) by done. by destruct p.
Qed.

Lemma announce_rsp_roundtrip a mapper : message_sendable (MtResponse (RsAnnouncePeer a)) -> mapper (ar_trans_id a) = ExAnnouncePeer -> read_back (MtResponse (RsAnnouncePeer a)) mapper.
Proof.
  intros (Hw & Ht & _) He. destruct (id_rsp_roundtrip (ar_trans_id a) (ar_node_id a) mapper Ht Hw) as (b & root & d & Hb & Hd & Hr & Hm).
  exists b. split; [exact Hb|]. rewrite Hm, He. unfold ResponseType_from_parts. rewrite Hr. cbn [validated map_err mbind outcome_bind].
  unfold AnnouncePeerResponse_from_parts, rqst_validate_node_id. rewrite (field_bytes _ _ Hd NODE_ID_KEY (sha_hash (ar_node_id a))) by in_list.
  cbn [validated map_err mbind outcome_bind]. rewrite sha_read by done. by destruct a.
Qed.

Lemma find_node_rsp_roundtrip f mapper : message_sendable (MtResponse (RsFindNode f)) -> mapper (fr_trans_id f) = ExFindNode -> read_back (MtResponse (RsFindNode f)) mapper.
Proof.
  intros ((Hn & Hg) & Ht & Hs) He. cbn in Ht. set (kvs := [(NODE_ID_KEY, ben_bytes (sha_hash (fr_node_id f))); (NODES_KEY, ben_bytes (nodes (fr_nodes f)))]).
  destruct (response_read (fr_trans_id f) [] kvs mapper) as (b & root & d & Hb & Hd & Hr & Hm); [done|by left|keys|entries_written|].
  exists b. split; [exact Hb|]. rewrite Hm, He. unfold ResponseType_from_parts. rewrite Hr. cbn [validated map_err mbind outcome_bind].
  unfold FindNodeResponse_from_parts, rsp_validate_node_id. rewrite (field_bytes _ _ Hd NODE_ID_KEY (sha_hash (fr_node_id f))) by in_list.
  cbn [validated map_err mbind outcome_bind]. rewrite sha_read by done. cbn [mbind outcome_bind].
  rewrite (field_bytes _ _ Hd NODES_KEY (nodes (fr_nodes f))) by in_list. cbn [validated map_err mbind outcome_bind].
  unfold FindNodeResponse_new. rewrite nodes_read by done. by destruct f.
Qed.

Definition info_kvs (i : CompactInfoType) : list (bytes * Ben) :=
  match i with
  | CiNodes n => [(NODES_KEY, ben_bytes (nodes n))]
  | CiValues v => [(VALUES_KEY, ben_items (values v))]
  | CiBoth n v => [(NODES_KEY, ben_bytes (nodes n)); (VALUES_KEY, ben_items (values v))]
  end.
Definition get_peers_kvs (g : GetPeersResponse) : list (bytes * Ben) :=
  ([(NODE_ID_KEY, ben_bytes (sha_hash (gr_node_id g)))] ++ match gr_token g with Some token => [(TOKEN_KEY, ben_bytes token)] | None => [] end) ++
  info_kvs (gr_info_type g).

Lemma values_written v : values_wf v -> (exists l, values v = ben_bytes <$> l) -> ben_written 2 (ben_items (values v)).
Proof.
  intros Hv [l Hl]. apply written_items, Forall_forall. intros b Hb. unfold values_wf in Hv. rewrite Forall_forall in Hv.
  destruct (Hv b Hb) as (s & Hs & Hlen). rewrite Hl in Hb. apply list_elem_of_fmap in Hb as (s' & -> & _). rewrite as_bytes_bytes in Hs.
  injection Hs as ->. apply written_bytes. rewrite Hlen. by vm_compute.
Qed.

Lemma get_peers_kvs_ok g : message_sendable (MtResponse (RsGetPeers g)) ->
  NoDup (get_peers_kvs g).*1 /\ Forall (fun p => small p.1 /\ ben_written 2 p.2) (get_peers_kvs g).
Proof.
  intros ((Hn & Hi) & _ & Htok & Hns & Hvs). split.
  - unfold get_peers_kvs. destruct (gr_token g), (gr_info_type g); keys.
  - unfold get_peers_kvs. rewrite !Forall_app. split; [split; [entries_written|destruct (gr_token g); cbn in Htok; entries_written]|].
    destruct (gr_info_type g) as [n|v|n v]; cbn [info_kvs]; cbn in Hi.
    + entries_written.
    + apply Forall_singleton. split; [small_literal|by apply values_written].
    + destruct Hi as [Hi1 Hi2]. apply Forall_cons. split; [split; [small_literal|by apply written_bytes]|]. apply Forall_singleton. split; [small_literal|]. by apply values_written.
Qed.

Lemma get_peers_args_read g d : sha_wf (gr_node_id g) -> info_wf (gr_info_type g) -> dict_of d (get_peers_kvs g) ->
  GetPeersResponse_from_parts d (gr_trans_id g) = Ok g.
Proof.
  intros Hn Hi Hd. unfold GetPeersResponse_from_parts, rsp_validate_node_id.
  rewrite (field_bytes _ _ Hd NODE_ID_KEY (sha_hash (gr_node_id g))) by in_list. cbn [validated map_err mbind outcome_bind]. rewrite sha_read by done. cbn [mbind outcome_bind].
  destruct g as [t h tok info]. cbn [gr_trans_id gr_node_id gr_token gr_info_type] in *.
  assert (result_ok (lookup_and_convert_bytes d TOKEN_KEY) = tok) as ->.
  { destruct tok as [tok|]; [by rewrite (field_bytes _ _ Hd TOKEN_KEY tok) by in_list|].
    apply (no_field_bytes _ _ Hd). unfold get_peers_kvs. cbn [gr_token gr_info_type]. destruct info; keys. }
  assert (result_ok (lookup_and_convert_bytes d NODES_KEY) = match info with CiNodes n | CiBoth n _ => Some (nodes n) | CiValues _ => None end) as ->.
  { destruct info as [n|v|n v]; [rewrite (field_bytes _ _ Hd NODES_KEY (nodes n)); [done|destruct tok; in_list]| |rewrite (field_bytes _ _ Hd NODES_KEY (nodes n)); [done|destruct tok; in_list]].
    apply (no_field_bytes _ _ Hd). unfold get_peers_kvs. cbn [gr_token gr_info_type]. destruct tok; keys. }
  assert (result_ok (lookup_and_convert_list d VALUES_KEY) = match info with CiValues v | CiBoth _ v => Some (values v) | CiNodes _ => None end) as ->.
  { destruct info as [n|v|n v]; [|rewrite (field_list _ _ Hd VALUES_KEY (values v)); [done|destruct tok; in_list]|rewrite (field_list _ _ Hd VALUES_KEY (values v)); [done|destruct tok; in_list]].
    apply (no_field_list _ _ Hd). unfold get_peers_kvs. cbn [gr_token gr_info_type]. destruct tok; keys. }
  destruct info as [n|v|n v]; cbn in Hi; [by rewrite nodes_read|by rewrite values_read|]. destruct Hi as [Hi1 Hi2]. rewrite nodes_read by done. cbn [mbind outcome_bind]. by rewrite values_read.
Qed.

Lemma get_peers_rsp_roundtrip g mapper : message_sendable (MtResponse (RsGetPeers g)) -> mapper (gr_trans_id g) = ExGetPeers -> read_back (MtResponse (RsGetPeers g)) mapper.
Proof.
  intros Hs He. destruct (get_peers_kvs_ok g Hs) as [Hnd Hkv]. destruct Hs as ((Hn & Hi) & Ht & _).
  destruct (response_read (gr_trans_id g) [(REQUEST_TYPE_KEY, ben_bytes GET_PEERS_TYPE_KEY)] (get_peers_kvs g) mapper)
    as (b & root & d & Hb & Hd & Hr & Hm); [done|by right|done|done|].
  exists b. split; [exact Hb|]. rewrite Hm, He. unfold ResponseType_from_parts. rewrite Hr. cbn [validated map_err mbind outcome_bind].
  by rewrite get_peers_args_read.
Qed.

Lemma error_code_read c : ErrorCode_new (ErrorCode_into c) = Ok c.
Proof. by destruct c. Qed.

Lemma error_roundtrip e mapper : message_sendable (MtError e) -> read_back (MtError e) mapper.
Proof.
  intros (_ & Ht & Hl & Hu). cbn in Ht. set (args := [ben_int (byte_val (ErrorCode_into (error_code e))); ben_bytes (error_message e)]).
  set (root := [(TRANSACTION_ID_KEY, ben_bytes (em_trans_id e)); (MESSAGE_TYPE_KEY, ben_bytes ERROR_TYPE_KEY); (ERROR_TYPE_KEY, ben_items args)]).
  assert (NoDup root.*1) as Hr by keys. exists (ben_entries root). destruct (as_dict_entries root Hr) as (r & Hr' & Hroot). split.
  - apply ben_decode_encode, written_entries; [done|]. repeat (apply Forall_cons; split; [split; [small_literal|]|]); [| | |constructor].
    + by apply written_bytes.
    + apply written_bytes. by vm_compute.
    + apply written_items. repeat (apply Forall_cons; split); [apply written_int|by apply written_bytes|constructor]. by destruct (error_code e); vm_compute.
  - unfold MessageType_new. rewrite (converts_found _ _ _ _ _ (convert_dict_spec (ben_entries root) ROOT_ID_KEY) eq_refl Hr').
    cbn [validated map_err mbind outcome_bind]. rewrite (field_bytes r root Hroot TRANSACTION_ID_KEY (em_trans_id e)) by in_list. cbn [validated map_err mbind outcome_bind].
    rewrite (field_str r root Hroot MESSAGE_TYPE_KEY ERROR_TYPE_KEY) by (done || in_list). cbn [validated map_err mbind outcome_bind].
    rewrite decide_False, decide_False, decide_True by done. unfold ErrorMessage_from_parts.
    rewrite (field_list r root Hroot ERROR_ARGS_KEY args) by in_list. cbn [validated map_err mbind outcome_bind]. unfold extract_error_args.
    rewrite decide_False by (intros Hx; by apply Hx). cbn [lookup list_lookup args unwrap mbind outcome_bind].
    rewrite (converts_found _ _ _ _ _ (convert_int_spec _ _) eq_refl (as_int_int _)). cbn [validated map_err mbind outcome_bind].
    rewrite (converts_found _ _ _ _ (error_message e) (convert_str_spec _ _) eq_refl) by (by rewrite as_str_bytes). cbn [validated map_err mbind outcome_bind].
    rewrite as_u8_byte_val, error_code_read. by destruct e.
Qed.

(** C28. What a message encodes to is decoded, and parsed back to the message when the
    answer to it is the one expected. *)
Theorem krpc_roundtrip (m : MessageType) (trans_mapper : bytes -> ExpectedResponse) :
  message_sendable m -> expected_as m (trans_mapper (message_trans_id m)) ->
  exists b, ben_decode (Message_encode m) = Some b /\ MessageType_new b trans_mapper = Ok m.
Proof.
  intros Hs He. destruct m as [[p|f|g|a]|[p|f|g|a]|e].
  - by apply ping_roundtrip.
  - by apply find_node_roundtrip.
  - by apply get_peers_roundtrip.
  - by apply announce_roundtrip.
  - by apply ping_rsp_roundtrip.
  - by apply find_node_rsp_roundtrip.
  - by apply get_peers_rsp_roundtrip.
  - by apply announce_rsp_roundtrip.
  - by apply error_roundtrip.
Qed.

End typed.

(** ** The theorems on sample messages *)

#[local] Existing Instance ben_ref.

Definition sample_id : ShaHash := mk_ShaHash (replicate 20 x41).

Lemma krpc_parse_typed_witness :
  safely (@message_wf ben_ref) (@MessageType_new ben_ref (MDict [(bstr "q", MInt 3); (bstr "t", MBytes (bstr "ab")); (bstr "y", MBytes (bstr "q"))]) (fun _ => ExNone)).
Proof. eapply safely_impl; [apply (@krpc_parse_typed ben_ref ben_ref_laws); intros t; split; discriminate|]. by intros m []. Defined.

Lemma krpc_roundtrip_witness :
  let m := @MtResponse ben_ref (RsGetPeers (mk_GetPeersResponse (bstr "ab") sample_id (Some (bstr "tok"))
             (@CiBoth ben_ref (mk_CompactNodeInfo (replicate 26 x05)) (mk_CompactValueInfo [MBytes (bstr "abcdef")])))) in
  exists b, @ben_decode ben_ref (Message_encode m) = Some b /\ MessageType_new b (fun _ => ExGetPeers) = Ok m.
Proof.
  intros m. apply (@krpc_roundtrip ben_ref ben_ref_laws m (fun _ => ExGetPeers)); [|reflexivity].
  split; [split; [reflexivity|split; [reflexivity|]]|].
  - repeat constructor. exists (bstr "abcdef"). split; reflexivity.
  - split; [vm_compute; reflexivity|]. split; [vm_compute; reflexivity|]. split; [vm_compute; reflexivity|]. exists [bstr "abcdef"]. reflexivity.
Defined.
