(* ===== verification/DhtBootstrap.v ===== *)
(** * [bip_dht::worker]: tasks, events and the world of the DHT thread

    The tasks and events of [worker/mod.rs], and what the worker acts on: the
    event loop of [mio], the channel to the outgoing messenger, the channels to
    the clients, the handshaker, the clock and random numbers.  They are one
    class of operations on a world, with a second class for their documented
    behaviour.

    An action (refresh, bootstrap, lookup) runs on a state made of itself, the
    routing table and the world.  A reference to a node of the table is the node;
    what is written through it goes to the entry equal to it, which is unique
    among the pingable entries of a table. *)

From stdpp Require Import prelude list gmap strings.
From Stdlib Require Import ZArith Lia Strings.Byte.
From S2P Require Import Prelude Bytes Bencode Convert Sha Node Bucket Table Transaction DhtMessage.

(** ** Tasks and events *)

Inductive ScheduledTask : Type :=
| CheckTableRefresh (t : TransactionID)
| CheckBootstrapTimeout (t : TransactionID)
| CheckLookupTimeout (t : TransactionID)
| CheckLookupEndGame (t : TransactionID).

Inductive ShutdownCause : Type := BootstrapFailed | ClientInitiated | Unspecified.

Inductive DhtEvent : Type :=
| BootstrapCompleted
| LookupCompleted (info_hash : ShaHash)
| ShuttingDown (cause : ShutdownCause).

(** *** [router.rs] *)

Inductive Router : Type := uTorrent | BitTorrent | BitComet | Transmission | CustomRouter (addr : SocketAddr).

Definition UTORRENT_DHT : bytes * Z := (bstr "router.utorrent.com", 6881%Z).
Definition BITTORRENT_DHT : bytes * Z := (bstr "router.bittorrent.com", 6881%Z).
Definition BITCOMET_DHT : bytes * Z := (bstr "router.bitcomet.com", 6881%Z).
Definition TRANSMISSION_DHT : bytes * Z := (bstr "dht.transmissionbt.com", 6881%Z).

(** [S] is [mpsc::Sender<DhtEvent>]. *)
Inductive OneshotTask (S : Type) : Type :=
| Incoming (buffer : bytes) (addr : SocketAddr)
| RegisterSender (send : S)
| StartBootstrap (routers : list Router) (nodes : list SocketAddr)
| StartLookup (info_hash : ShaHash) (should_announce : bool)
| Shutdown (cause : ShutdownCause).
Arguments Incoming {S} buffer addr.
Arguments RegisterSender {S} send.
Arguments StartBootstrap {S} routers nodes.
Arguments StartLookup {S} info_hash should_announce.
Arguments Shutdown {S} cause.

#[export] Instance TransactionID_eq_dec : EqDecision TransactionID.
Proof. solve_decision. Defined.
#[export] Program Instance TransactionID_countable : Countable TransactionID :=
  inj_countable' (fun t => (trans_id t, trans_id_bytes t)) (fun '(i, b) => mk_TransactionID i b) _.
Next Obligation. by intros []. Qed.
#[export] Instance ActionID_eq_dec : EqDecision ActionID.
Proof. solve_decision. Defined.
#[export] Program Instance ActionID_countable : Countable ActionID := inj_countable' act_id mk_ActionID _.
Next Obligation. by intros []. Qed.

(** ** The world *)

(** [timeout_ms], [clear_timeout], [channel_send] ([event_loop.channel().send]) and
    [loop_shutdown] are the event loop; [out_send] is the channel to the outgoing
    messenger; [event_send] a channel to a client; [rand_indices] are the numbers
    of one shuffle; [resolve] is [to_socket_addrs]; [router_order] the order a
    hash set of addresses is walked in. *)
Class DhtIo {CH : Chrono} : Type := {
  io_world : Type;
  io_timeout : Type;
  io_sender : Type;
  timeout_ms : Z * ScheduledTask -> Z -> io_world -> option io_timeout * io_world;
  clear_timeout : io_timeout -> io_world -> io_world;
  channel_send : OneshotTask io_sender -> io_world -> bool * io_world;
  loop_shutdown : io_world -> io_world;
  out_send : bytes * SocketAddr -> io_world -> bool * io_world;
  event_send : io_sender -> DhtEvent -> io_world -> bool * io_world;
  handshaker_connect : ShaHash -> SocketAddr -> io_world -> io_world;
  handshaker_port : io_world -> Z;
  utc_now : io_world -> DateTime * io_world;
  rand_indices : io_world -> (nat -> nat) * io_world;
  rand_u32 : io_world -> Z * io_world;
  resolve : bytes * Z -> io_world -> option (list SocketAddr) * io_world;
  router_order : gset SocketAddr -> list SocketAddr;
}.

(** ** Actions *)

Section action.
Context {CH : Chrono} {IO : DhtIo}.

(** A call on the action [A], the routing table and the world. *)
Definition actM (A B : Type) : Type := stM (A * (RoutingTable * io_world)) Empty_set B.

Definition get_self {A} : actM A A := fun s => (Ok s.1, s).
Definition set_self {A} (a : A) : actM A () := fun s => (Ok (), (a, s.2)).
Definition get_table {A} : actM A RoutingTable := fun s => (Ok s.2.1, s).
Definition set_table {A} (t : RoutingTable) : actM A () := fun '(a, (_, w)) => (Ok (), (a, (t, w))).
Definition io {A B} (f : io_world -> B * io_world) : actM A B := fun '(a, (t, w)) => let '(b, w) := f w in (Ok b, (a, (t, w))).
Definition io_ {A} (f : io_world -> io_world) : actM A () := io (fun w => ((), f w)).

(** [for x in l { .. }] whose body may return from the function. *)
Fixpoint for_each {S E X R} (l : list X) (body : X -> stM S E (option R)) : stM S E (option R) :=
  match l with
  | [] => mret None
  | x :: l => r ← body x; match r with Some r => mret (Some r) | None => for_each l body end
  end.

(** Writing through a reference to a node of the table. *)
Definition same_node (now : DateTime) (node n : Node) : bool := pingable_nodes_filter now n && node_eqb n node.
Definition update_nodes (now : DateTime) (f : Node -> Node) (node : Node) (l : list Node) : list Node :=
  match position (same_node now node) l with
  | Some i => alter f i l
  | None => l
  end.
Definition update_node (now : DateTime) (f : Node -> Node) (node : Node) (t : RoutingTable) : RoutingTable :=
  with_buckets t ((fun b => mk_Bucket (update_nodes now f node (nodes b))) <$> buckets t).

(** [table.find_node(node).map(|n| f(n))] *)
Definition find_and_update (now : DateTime) (f : Node -> Node) (node : Node) (t : RoutingTable) : outcome Empty_set RoutingTable :=
  found ← find_node now t node;
  Ok (match found with Some n => update_node now f n t | None => t end).

Definition find_and_mark {A} (f : DateTime -> Node -> Node) (node : Node) : actM A () :=
  now ← io utc_now;
  t ← get_table;
  t ← lift (find_and_update now (f now) node t);
  set_table t.

(** [node.local_request()] on a node the table handed out. *)
Definition mark_requested {A} (node : Node) : actM A () :=
  now ← io utc_now;
  t ← get_table;
  set_table (update_node now (local_request now) node t).

Definition generate_id (g : MIDGenerator) : io_world -> outcome Empty_set (TransactionID * MIDGenerator) * io_world :=
  fun w => let '(rand, w) := rand_indices w in (MIDGenerator_generate rand g, w).

(** Generating an id with the generator of the action. *)
Definition gen_with {A} (get : A -> MIDGenerator) (set : MIDGenerator -> A -> A) : actM A TransactionID :=
  self ← get_self;
  r ← io (generate_id (get self));
  '(trans_id, g) ← lift r;
  _ ← set_self (set g self);
  mret trans_id.

(** Both [flip_id_bit_at_index]: the id with one bit changed. *)
Definition flip_id_bit_at_index (node_id : ShaHash) (index : nat) : outcome Empty_set ShaHash :=
  let id_bytes := sha_hash node_id in
  let byte_index := index / 8 in
  let bit_index := index mod 8 in
  let actual_bit_index := 7 - bit_index in
  b ← unwrap (id_bytes !! byte_index);
  Ok (mk_ShaHash (<[byte_index := as_u8 (Z.lxor (byte_val b) (Z.shiftl 1 (Z.of_nat actual_bit_index)))]> id_bytes)).

(** ** [Router] *)

Definition map_ipv4 (addr : SocketAddr) : option SocketAddrV4 := match addr with SockV4 n => Some n | SockV6 _ => None end.
Definition map_ipv6 (addr : SocketAddr) : option SocketAddrV6 := match addr with SockV4 _ => None | SockV6 n => Some n end.

Definition socket_addrs (self : Router) : io_world -> option (list SocketAddr) * io_world :=
  match self with
  | uTorrent => resolve UTORRENT_DHT
  | BitTorrent => resolve BITTORRENT_DHT
  | BitComet => resolve BITCOMET_DHT
  | Transmission => resolve TRANSMISSION_DHT
  | CustomRouter addr => fun w => (Some [addr], w)
  end.

Definition ipv4_addr (self : Router) (w : io_world) : option SocketAddrV4 * io_world :=
  let '(addrs, w) := socket_addrs self w in (addrs ≫= fun addrs => head (omap map_ipv4 addrs), w).
Definition ipv6_addr (self : Router) (w : io_world) : option SocketAddrV6 * io_world :=
  let '(addrs, w) := socket_addrs self w in (addrs ≫= fun addrs => head (omap map_ipv6 addrs), w).
Definition socket_addr (self : Router) (w : io_world) : option SocketAddr * io_world :=
  let '(addrs, w) := socket_addrs self w in (addrs ≫= head, w).

End action.

(** * [bip_dht::worker::refresh] and [bip_dht::worker::bootstrap]

    Keeping the table fresh, one bucket per timeout, and filling it bucket by
    bucket at the start.  The two functions that call each other during a
    bootstrap pass over the buckets; one unit of fuel per bucket is enough. *)

(** ** [TableRefresh] *)

Definition REFRESH_INTERVAL_TIMEOUT : Z := 6000.

Inductive RefreshStatus : Type := Refreshing | RefreshFailed.

Record TableRefresh : Type := mk_TableRefresh { rf_id_generator : MIDGenerator; curr_refresh_bucket : nat }.

Definition TableRefresh_new (id_generator : MIDGenerator) : TableRefresh := mk_TableRefresh id_generator 0.

Definition is_questionable `{Chrono} (now : DateTime) (n : Node) : bool := bool_decide (status now n = Questionable).

Section refresh.
Context {CH : Chrono} {IO : DhtIo} {BO : BenOps}.

Definition refresh_generate : actM TableRefresh TransactionID :=
  gen_with rf_id_generator (fun g self => mk_TableRefresh g (curr_refresh_bucket self)).

Definition set_refresh_bucket (n : nat) : actM TableRefresh () :=
  self ← get_self; set_self (mk_TableRefresh (rf_id_generator self) n).

Definition continue_refresh : actM TableRefresh RefreshStatus :=
  self ← get_self;
  _ ← (if decide (curr_refresh_bucket self = MAX_BUCKETS) then set_refresh_bucket 0 else mret ());
  self ← get_self;
  table ← get_table;
  target_id ← lift (flip_id_bit_at_index (rt_node_id table) (curr_refresh_bucket self));
  now ← io utc_now;
  closest ← lift (closest_nodes now table target_id);
  failed ← for_each (take 1 (List.filter (is_questionable now) closest)) (fun node =>
    trans_id ← refresh_generate;
    let find_node_msg := FindNodeRequest_encode (mk_FindNodeRequest (trans_id_bytes trans_id) (rt_node_id table) target_id) in
    sent ← io (out_send (find_node_msg, node_addr node));
    if (sent : bool) then _ ← mark_requested node; mret None else mret (Some RefreshFailed));
  match failed with
  | Some status => mret status
  | None =>
      trans_id ← refresh_generate;
      timeout ← io (timeout_ms (0%Z, CheckTableRefresh trans_id) REFRESH_INTERVAL_TIMEOUT);
      match timeout with
      | None => mret RefreshFailed
      | Some _ =>
          self ← get_self;
          _ ← set_refresh_bucket (curr_refresh_bucket self + 1);
          mret Refreshing
      end
  end.
End refresh.

(** ** [TableBootstrap] *)

Definition BOOTSTRAP_INITIAL_TIMEOUT : Z := 2500.
Definition BOOTSTRAP_NODE_TIMEOUT : Z := 500.
Definition BOOTSTRAP_PINGS_PER_BUCKET : nat := 8.

Inductive BootstrapStatus : Type := Idle | Bootstrapping | BsCompleted | BsFailed.

Section bootstrap.
Context {CH : Chrono} {IO : DhtIo} {BO : BenOps}.

Record TableBootstrap : Type := mk_TableBootstrap {
  bs_table_id : ShaHash;
  bs_id_generator : MIDGenerator;
  starting_nodes : list SocketAddr;
  active_messages : gmap TransactionID io_timeout;
  starting_routers : gset SocketAddr;
  curr_bootstrap_bucket : nat;
}.

Definition TableBootstrap_new (table_id : ShaHash) (id_generator : MIDGenerator) (nodes routers : list SocketAddr) : TableBootstrap :=
  let router_filter := list_to_set routers in
  mk_TableBootstrap table_id id_generator nodes ∅ router_filter 0.

Definition set_active (m : gmap TransactionID io_timeout) (self : TableBootstrap) : TableBootstrap :=
  mk_TableBootstrap (bs_table_id self) (bs_id_generator self) (starting_nodes self) m (starting_routers self) (curr_bootstrap_bucket self).
Definition set_bootstrap_bucket (n : nat) (self : TableBootstrap) : TableBootstrap :=
  mk_TableBootstrap (bs_table_id self) (bs_id_generator self) (starting_nodes self) (active_messages self) (starting_routers self) n.
Definition bootstrap_generate : actM TableBootstrap TransactionID :=
  gen_with bs_id_generator (fun g self =>
    mk_TableBootstrap (bs_table_id self) g (starting_nodes self) (active_messages self) (starting_routers self) (curr_bootstrap_bucket self)).
Definition modify {A} (f : A -> A) : actM A () := self ← get_self; set_self (f self).

Definition current_bootstrap_status (self : TableBootstrap) : BootstrapStatus :=
  if decide (curr_bootstrap_bucket self = MAX_BUCKETS \/ active_messages self = ∅) then Idle else Bootstrapping.

Definition is_router (self : TableBootstrap) (addr : SocketAddr) : bool := bool_decide (addr ∈ starting_routers self).

Definition start_bootstrap : actM TableBootstrap BootstrapStatus :=
  _ ← modify (set_active ∅);
  _ ← modify (set_bootstrap_bucket 0);
  trans_id ← bootstrap_generate;
  res_timeout ← io (timeout_ms (BOOTSTRAP_INITIAL_TIMEOUT, CheckBootstrapTimeout trans_id) BOOTSTRAP_INITIAL_TIMEOUT);
  match res_timeout with
  | None => mret BsFailed
  | Some timeout =>
      _ ← modify (fun self => set_active (<[trans_id := timeout]> (active_messages self)) self);
      self ← get_self;
      let find_node_msg := FindNodeRequest_encode (mk_FindNodeRequest (trans_id_bytes trans_id) (bs_table_id self) (bs_table_id self)) in
      failed ← for_each (router_order (starting_routers self) ++ starting_nodes self) (fun addr =>
        sent ← io (out_send (find_node_msg, addr));
        mret (if (sent : bool) then None else Some BsFailed));
      match failed with
      | Some status => mret status
      | None => self ← get_self; mret (current_bootstrap_status self)
      end
  end.

(** [next] is [self.bootstrap_next_bucket(..)]. *)
Definition send_bootstrap_requests (next : actM TableBootstrap BootstrapStatus) (nodes : list Node) (target_id : ShaHash) :
    actM TableBootstrap BootstrapStatus :=
  let nodes := take BOOTSTRAP_PINGS_PER_BUCKET nodes in
  failed ← for_each nodes (fun node =>
    trans_id ← bootstrap_generate;
    self ← get_self;
    let find_node_msg := FindNodeRequest_encode (mk_FindNodeRequest (trans_id_bytes trans_id) (bs_table_id self) target_id) in
    res_timeout ← io (timeout_ms (BOOTSTRAP_NODE_TIMEOUT, CheckBootstrapTimeout trans_id) BOOTSTRAP_NODE_TIMEOUT);
    match res_timeout with
    | None => mret (Some BsFailed)
    | Some timeout =>
        sent ← io (out_send (find_node_msg, node_addr node));
        if (sent : bool) then
          _ ← mark_requested node;
          _ ← modify (fun self => set_active (<[trans_id := timeout]> (active_messages self)) self);
          mret None
        else mret (Some BsFailed)
    end);
  match failed with
  | Some status => mret status
  | None =>
      let messages_sent := length nodes in
      _ ← modify (fun self => set_bootstrap_bucket (curr_bootstrap_bucket self + 1) self);
      self ← get_self;
      if decide (curr_bootstrap_bucket self = MAX_BUCKETS) then mret BsCompleted
      else if decide (messages_sent = 0) then next
      else mret Bootstrapping
  end.

(** The nodes of what [buckets().skip(n).next()] gives, placeholders when there is no bucket. *)
Definition bucket_or_dummy (c : option BucketContents) : list Node :=
  match c with
  | Some (BcSorted b) | Some (BcAssorted b) => nodes b
  | Some BcEmpty | None => nodes Bucket_new
  end.

Fixpoint bootstrap_next_bucket (fuel : nat) : actM TableBootstrap BootstrapStatus :=
  match fuel with
  | 0 => lift NoFuel
  | S fuel =>
      self ← get_self;
      table ← get_table;
      target_id ← lift (flip_id_bit_at_index (bs_table_id self) (curr_bootstrap_bucket self));
      now ← io utc_now;
      if decide (curr_bootstrap_bucket self = 0 \/ curr_bootstrap_bucket self = 1) then
        closest ← lift (closest_nodes now table target_id);
        send_bootstrap_requests (bootstrap_next_bucket fuel) (List.filter (is_questionable now) closest) target_id
      else
        let skipped := curr_bootstrap_bucket self - 2 in
        percent_25_bucket ← lift (Buckets_nth (buckets table) 0 skipped);
        percent_50_bucket ← lift (Buckets_nth (buckets table) 0 (skipped + 1));
        percent_100_bucket ← lift (Buckets_nth (buckets table) 0 (skipped + 2));
        let iter := List.filter (is_questionable now)
          (bucket_or_dummy percent_25_bucket ++ bucket_or_dummy percent_50_bucket ++ bucket_or_dummy percent_100_bucket) in
        send_bootstrap_requests (bootstrap_next_bucket fuel) iter target_id
  end.

Definition bootstrap_fuel : nat := MAX_BUCKETS + 1.

(** [if self.active_messages.is_empty() { self.bootstrap_next_bucket(..) } else { self.current_bootstrap_status() }] *)
Definition next_if_idle : actM TableBootstrap BootstrapStatus :=
  self ← get_self;
  if decide (active_messages self = ∅) then bootstrap_next_bucket bootstrap_fuel
  else mret (current_bootstrap_status self).

Definition Bootstrap_recv_response (trans_id : TransactionID) : actM TableBootstrap BootstrapStatus :=
  self ← get_self;
  match active_messages self !! trans_id with
  | None => mret (current_bootstrap_status self)
  | Some timeout =>
      _ ← (if decide (curr_bootstrap_bucket self <> 0) then
             _ ← io_ (clear_timeout timeout);
             modify (fun self => set_active (delete trans_id (active_messages self)) self)
           else mret ());
      next_if_idle
  end.

Definition Bootstrap_recv_timeout (trans_id : TransactionID) : actM TableBootstrap BootstrapStatus :=
  self ← get_self;
  match active_messages self !! trans_id with
  | None => mret (current_bootstrap_status self)
  | Some _ =>
      _ ← modify (fun self => set_active (delete trans_id (active_messages self)) self);
      next_if_idle
  end.
End bootstrap.
