(* ===== verification/DhtLookup.v ===== *)
(** * [bip_dht::worker::lookup]: searching for the peers of a torrent

    The iterative search for the nodes closest to an info hash, its endgame and
    the final announces. *)

From stdpp Require Import prelude list gmap strings.
From Stdlib Require Import ZArith Lia Strings.Byte.
From S2P Require Import Prelude Bytes Bencode Convert Sha Node Bucket Table Transaction Compact DhtMessage DhtBootstrap.

Definition LOOKUP_TIMEOUT_MS : Z := 1500.
Definition ENDGAME_TIMEOUT_MS : Z := 1500.
Definition INITIAL_PICK_NUM : nat := 4.
Definition ITERATIVE_PICK_NUM : nat := 3.
Definition ANNOUNCE_PICK_NUM : nat := 8.

(** The derived order of hashes. *)
Definition sha_cmp (a b : ShaHash) : comparison := bytes_cmp (sha_hash a) (sha_hash b).
Definition sha_ltb (a b : ShaHash) : bool := bytes_ltb (sha_hash a) (sha_hash b).

(** [slice::binary_search_by]: halve the slice until it is empty. *)
Inductive search_result : Type := Found (i : nat) | InsertAt (i : nat).
Fixpoint binary_search_by {A} (fuel : nat) (f : A -> comparison) (base : nat) (s : list A) : outcome Empty_set search_result :=
  match fuel with
  | 0 => NoFuel
  | S fuel =>
      let half := length s / 2 in
      match drop half s with
      | [] => Ok (InsertAt base)
      | x :: tail =>
          match f x with
          | Lt => binary_search_by fuel f (base + half + 1) tail
          | Gt => binary_search_by fuel f base (take half s)
          | Eq => Ok (Found (base + half))
          end
      end
  end.

(** [net::default_route_v4] *)
Definition default_route_v4 : SocketAddr := SockV4 (mk_SocketAddrV4 (mk_Ipv4Addr x00 x00 x00 x00) 0).

(** [Vec::insert] *)
Definition vec_insert {A} (i : nat) (x : A) (l : list A) : outcome Empty_set (list A) :=
  if decide (i <= length l) then Ok (take i l ++ x :: drop i l) else Panic.

Section picks.
Context {CH : Chrono}.

(** Distance, node, requested from. *)
Record SortedNode : Type := mk_SortedNode { sn_dist : ShaHash; sn_node : Node; sn_pinged : bool }.

Definition insert_sorted_node (nodes : list SortedNode) (target : ShaHash) (node : Node) (pinged : bool) : outcome Empty_set (list SortedNode) :=
  let node_dist := bitxor target (node_id node) in
  search_result ← binary_search_by (length nodes + 1) (fun n => sha_cmp (sn_dist n) node_dist) 0 nodes;
  match search_result with
  | Found dup_index =>
      dup ← unwrap (nodes !! dup_index);
      if negb (node_eqb (sn_node dup) node) then vec_insert dup_index (mk_SortedNode node_dist node pinged) nodes else Ok nodes
  | InsertAt ins_index => vec_insert ins_index (mk_SortedNode node_dist node pinged) nodes
  end.

Definition dummy_pick : Node * bool := (as_bad (mk_ShaHash (replicate NODE_ID_LEN x00)) default_route_v4, false).

(** The picks and the list with the picked nodes marked. *)
Definition pick_initial_nodes (sorted_nodes : list SortedNode) : list (Node * bool) * list SortedNode :=
  let picked := take INITIAL_PICK_NUM sorted_nodes in
  (((fun src => (sn_node src, true)) <$> picked) ++ replicate (INITIAL_PICK_NUM - length picked) dummy_pick,
   ((fun src => mk_SortedNode (sn_dist src) (sn_node src) true) <$> picked) ++ drop INITIAL_PICK_NUM sorted_nodes).

Fixpoint insert_closest_nodes (nodes : list (Node * bool)) (target_id : ShaHash) (new_node : Node) : list (Node * bool) :=
  let new_distance := bitxor target_id (node_id new_node) in
  match nodes with
  | [] => []
  | (old_node, used) :: nodes =>
      if negb used then (new_node, true) :: nodes
      else
        let old_distance := bitxor target_id (node_id old_node) in
        if sha_ltb new_distance old_distance then (new_node, used) :: nodes
        else (old_node, used) :: insert_closest_nodes nodes target_id new_node
  end.

Definition questionable_v4 (now : DateTime) (p : ShaHash * SocketAddrV4) : outcome Empty_set Node := as_questionable now p.1 (SockV4 p.2).

Definition pick_iterate_nodes (now : DateTime) (unsorted_nodes : list (ShaHash * SocketAddrV4)) (target_id : ShaHash) :
    outcome Empty_set (list (Node * bool)) :=
  foldl (fun acc p => pick_nodes ← acc; node ← questionable_v4 now p; Ok (insert_closest_nodes pick_nodes target_id node))
    (Ok (replicate ITERATIVE_PICK_NUM dummy_pick)) unsorted_nodes.
End picks.

Inductive LookupStatus : Type := Searching | Values (values : list SocketAddrV4) | LkCompleted | LkFailed.

(** What [HashMap<Node, _>] and [HashSet<Node>] know of a node. *)
Definition node_key `{Chrono} (n : Node) : ShaHash * SocketAddr := (node_id n, node_addr n).

Section lookup.
Context {CH : Chrono} {IO : DhtIo} {BO : BenOps}.

Record TableLookup : Type := mk_TableLookup {
  lk_table_id : ShaHash;
  lk_target_id : ShaHash;
  in_endgame : bool;
  recv_values : bool;
  lk_id_generator : MIDGenerator;
  will_announce : bool;
  active_lookups : gmap TransactionID (ShaHash * io_timeout);
  announce_tokens : gmap (ShaHash * SocketAddr) bytes;
  requested_nodes : gset (ShaHash * SocketAddr);
  all_sorted_nodes : list SortedNode;
}.

Definition set_endgame (b : bool) (s : TableLookup) : TableLookup :=
  mk_TableLookup (lk_table_id s) (lk_target_id s) b (recv_values s) (lk_id_generator s) (will_announce s) (active_lookups s) (announce_tokens s) (requested_nodes s) (all_sorted_nodes s).
Definition set_recv_values (b : bool) (s : TableLookup) : TableLookup :=
  mk_TableLookup (lk_table_id s) (lk_target_id s) (in_endgame s) b (lk_id_generator s) (will_announce s) (active_lookups s) (announce_tokens s) (requested_nodes s) (all_sorted_nodes s).
Definition set_lookups (m : gmap TransactionID (ShaHash * io_timeout)) (s : TableLookup) : TableLookup :=
  mk_TableLookup (lk_table_id s) (lk_target_id s) (in_endgame s) (recv_values s) (lk_id_generator s) (will_announce s) m (announce_tokens s) (requested_nodes s) (all_sorted_nodes s).
Definition set_tokens (m : gmap (ShaHash * SocketAddr) bytes) (s : TableLookup) : TableLookup :=
  mk_TableLookup (lk_table_id s) (lk_target_id s) (in_endgame s) (recv_values s) (lk_id_generator s) (will_announce s) (active_lookups s) m (requested_nodes s) (all_sorted_nodes s).
Definition set_requested (m : gset (ShaHash * SocketAddr)) (s : TableLookup) : TableLookup :=
  mk_TableLookup (lk_table_id s) (lk_target_id s) (in_endgame s) (recv_values s) (lk_id_generator s) (will_announce s) (active_lookups s) (announce_tokens s) m (all_sorted_nodes s).
Definition set_sorted (l : list SortedNode) (s : TableLookup) : TableLookup :=
  mk_TableLookup (lk_table_id s) (lk_target_id s) (in_endgame s) (recv_values s) (lk_id_generator s) (will_announce s) (active_lookups s) (announce_tokens s) (requested_nodes s) l.
Definition lookup_generate : actM TableLookup TransactionID :=
  gen_with lk_id_generator (fun g s =>
    mk_TableLookup (lk_table_id s) (lk_target_id s) (in_endgame s) (recv_values s) g (will_announce s) (active_lookups s) (announce_tokens s) (requested_nodes s) (all_sorted_nodes s)).

Definition current_lookup_status (self : TableLookup) : LookupStatus :=
  if in_endgame self || bool_decide (active_lookups self <> ∅) then Searching else LkCompleted.

Definition get_peers_msg (self : TableLookup) (trans_id : TransactionID) : bytes :=
  GetPeersRequest_encode (mk_GetPeersRequest (trans_id_bytes trans_id) (lk_table_id self) (lk_target_id self)).

Definition start_request_round (nodes : list (Node * ShaHash)) : actM TableLookup LookupStatus :=
  failed ← for_each nodes (fun '(node, dist_to_beat) =>
    trans_id ← lookup_generate;
    res_timeout ← io (timeout_ms (0%Z, CheckLookupTimeout trans_id) LOOKUP_TIMEOUT_MS);
    match res_timeout with
    | None => mret (Some LkFailed)
    | Some timeout =>
        _ ← modify (fun self => set_lookups (<[trans_id := (dist_to_beat, timeout)]> (active_lookups self)) self);
        self ← get_self;
        sent ← io (out_send (get_peers_msg self trans_id, node_addr node));
        if (sent : bool) then
          _ ← modify (fun self => set_requested ({[node_key node]} ∪ requested_nodes self) self);
          _ ← find_and_mark local_request node;
          mret None
        else mret (Some LkFailed)
    end);
  match failed with
  | Some status => mret status
  | None =>
      let messages_sent := length nodes in
      if decide (messages_sent = 0) then _ ← modify (set_lookups ∅); mret LkCompleted
      else mret Searching
  end.

(** The loop over the nodes not requested from yet; [i] is the position in the list. *)
Fixpoint endgame_requests (n i : nat) (timeout : io_timeout) : actM TableLookup (option LookupStatus) :=
  match n with
  | 0 => mret None
  | S n =>
      self ← get_self;
      match all_sorted_nodes self !! i with
      | None => mret None
      | Some info =>
          if sn_pinged info then endgame_requests n (i + 1) timeout
          else
            trans_id ← lookup_generate;
            _ ← modify (fun self => set_lookups (<[trans_id := (sn_dist info, timeout)]> (active_lookups self)) self);
            self ← get_self;
            sent ← io (out_send (get_peers_msg self trans_id, node_addr (sn_node info)));
            if (sent : bool) then
              _ ← find_and_mark local_request (sn_node info);
              _ ← modify (fun self => set_sorted (<[i := mk_SortedNode (sn_dist info) (sn_node info) true]> (all_sorted_nodes self)) self);
              endgame_requests n (i + 1) timeout
            else mret (Some LkFailed)
      end
  end.

Definition start_endgame_round : actM TableLookup LookupStatus :=
  _ ← modify (set_endgame true);
  trans_id ← lookup_generate;
  res_timeout ← io (timeout_ms (0%Z, CheckLookupEndGame trans_id) ENDGAME_TIMEOUT_MS);
  match res_timeout with
  | None => mret LkFailed
  | Some timeout =>
      self ← get_self;
      failed ← (if negb (recv_values self) then endgame_requests (length (all_sorted_nodes self)) 0 timeout else mret None);
      mret (default Searching failed)
  end.

(** [TableLookup::new] up to the first request round: the lookup and the nodes to ask. *)
Definition initial_lookup (table_id target_id : ShaHash) (id_generator : MIDGenerator) (will_announce : bool) (now : DateTime) (table : RoutingTable) :
    outcome Empty_set (TableLookup * list (Node * ShaHash)) :=
  closest ← closest_nodes now table target_id;
  let good := take MAX_BUCKET_SIZE (List.filter (fun n => bool_decide (status now n = Good)) closest) in
  all_sorted_nodes ← foldl (fun acc node => nodes ← acc; insert_sorted_node nodes target_id node false) (Ok []) good;
  let '(initial_pick_nodes, all_sorted_nodes) := pick_initial_nodes all_sorted_nodes in
  let initial_pick_nodes_filtered :=
    (fun '(node, _) => (node, bitxor (node_id node) target_id)) <$> List.filter (fun '(_, good) => good) initial_pick_nodes in
  Ok (mk_TableLookup table_id target_id false false id_generator will_announce ∅ ∅ ∅ all_sorted_nodes, initial_pick_nodes_filtered).

Definition TableLookup_new (table_id target_id : ShaHash) (id_generator : MIDGenerator) (will_announce : bool) :
    stM (RoutingTable * io_world) Empty_set (option TableLookup) :=
  fun '(table, w) =>
    let '(now, w) := utc_now w in
    match initial_lookup table_id target_id id_generator will_announce now table with
    | Ok (table_lookup, nodes) =>
        match start_request_round nodes (table_lookup, (table, w)) with
        | (Ok LkFailed, (_, tw)) => (Ok None, tw)
        | (Ok _, (table_lookup, tw)) => (Ok (Some table_lookup), tw)
        | (Err e, (_, tw)) => (Err e, tw)
        | (Panic, (_, tw)) => (Panic, tw)
        | (NoFuel, (_, tw)) => (NoFuel, tw)
        end
    | Err e => (Err e, (table, w))
    | Panic => (Panic, (table, w))
    | NoFuel => (NoFuel, (table, w))
    end.

(** [nodes.into_iter().collect()], [values.into_iter().collect()]: the fuel is one more than the calls. *)
Definition nodes_of (n : CompactNodeInfo) : outcome Empty_set (list (ShaHash * SocketAddrV4)) :=
  unwrap_result (collect CompactNodeInfoIter_next (length (nodes n) + 1) (CompactNodeInfo_into_iter n)).
Definition values_of (v : @CompactValueInfo Ben) : outcome Empty_set (list SocketAddrV4) :=
  unwrap_result (collect (CompactValueInfoIter_next ben_as_bytes) (length (values v) + 1) (CompactValueInfo_into_iter v)).

(** [!requested_nodes.contains(&node)] *)
Definition not_requested (self : TableLookup) (p : ShaHash * SocketAddrV4) : bool := bool_decide ((p.1, SockV4 p.2) ∉ requested_nodes self).

Definition next_distance (self : TableLookup) (dist_to_beat : ShaHash) (l : list (ShaHash * SocketAddrV4)) : ShaHash :=
  foldl (fun closest '(id, _) => let distance := bitxor (lk_target_id self) id in if sha_ltb distance closest then distance else closest)
    dist_to_beat (List.filter (not_requested self) l).

(** Pushing the nodes of a response into the list of all nodes. *)
Definition push_nodes (now : DateTime) (target_id : ShaHash) (picks : list (Node * bool)) (l : list (ShaHash * SocketAddrV4)) (sorted : list SortedNode) :
    outcome Empty_set (list SortedNode) :=
  foldl (fun acc p =>
    sorted ← acc;
    node ← questionable_v4 now p;
    let will_ping := existsb (fun '(n, _) => node_eqb n node) picks in
    insert_sorted_node sorted target_id node will_ping) (Ok sorted) l.

(** The nodes to ask next, the distance they have to beat, and the list of all nodes. *)
Definition iterate_response (now : DateTime) (self : TableLookup) (dist_to_beat : ShaHash) (opt_nodes : option CompactNodeInfo) :
    outcome Empty_set (option (list (Node * bool)) * ShaHash * list SortedNode) :=
  match opt_nodes with
  | Some nodes =>
      l ← nodes_of nodes;
      let next_dist_to_beat := next_distance self dist_to_beat l in
      if sha_ltb next_dist_to_beat dist_to_beat then
        iterate_nodes ← pick_iterate_nodes now (List.filter (not_requested self) l) (lk_target_id self);
        sorted ← push_nodes now (lk_target_id self) iterate_nodes l (all_sorted_nodes self);
        Ok (Some iterate_nodes, next_dist_to_beat, sorted)
      else
        sorted ← push_nodes now (lk_target_id self) [] l (all_sorted_nodes self);
        Ok (None, next_dist_to_beat, sorted)
  | None => Ok (None, dist_to_beat, all_sorted_nodes self)
  end.

(** [if self.active_lookups.is_empty() { start_endgame_round }] with its early return. *)
Definition endgame_if_idle : actM TableLookup (option LookupStatus) :=
  self ← get_self;
  if decide (active_lookups self = ∅) then
    status ← start_endgame_round;
    mret (match status with LkFailed => Some LkFailed | _ => None end)
  else mret None.

Definition iterate_round (iterate_nodes : option (list (Node * bool))) (next_dist_to_beat : ShaHash) : actM TableLookup (option LookupStatus) :=
  match iterate_nodes with
  | Some nodes =>
      let filtered_nodes := (fun '(n, _) => (n, next_dist_to_beat)) <$> List.filter (fun '(_, good) => good) nodes in
      status ← start_request_round filtered_nodes;
      mret (match status with LkFailed => Some LkFailed | _ => None end)
  | None => mret None
  end.

Definition Lookup_recv_response (node : Node) (trans_id : TransactionID) (msg : GetPeersResponse) : actM TableLookup LookupStatus :=
  self ← get_self;
  match active_lookups self !! trans_id with
  | None => mret (current_lookup_status self)
  | Some (dist_to_beat, timeout) =>
      _ ← modify (fun self => set_lookups (delete trans_id (active_lookups self)) self);
      _ ← (if negb (in_endgame self) then io_ (clear_timeout timeout) else mret ());
      _ ← match gr_token msg with
          | Some token => modify (fun self => set_tokens (<[node_key node := token]> (announce_tokens self)) self)
          | None => mret ()
          end;
      '(opt_values, opt_nodes) ←
        match gr_info_type msg with
        | CiNodes n => mret (None, Some n)
        | CiValues v => _ ← modify (set_recv_values true); l ← lift (values_of v); mret (Some l, None)
        | CiBoth n v => l ← lift (values_of v); mret (Some l, Some n)
        end;
      now ← io utc_now;
      self ← get_self;
      '(iterate_nodes, next_dist_to_beat, sorted) ← lift (iterate_response now self dist_to_beat opt_nodes);
      _ ← modify (set_sorted sorted);
      failed ←
        (if negb (in_endgame self) then
           failed ← iterate_round iterate_nodes next_dist_to_beat;
           match failed with Some status => mret (Some status) | None => endgame_if_idle end
         else mret None);
      match failed with
      | Some status => mret status
      | None =>
          match opt_values with
          | Some values => mret (Values values)
          | None => self ← get_self; mret (current_lookup_status self)
          end
      end
  end.

Definition Lookup_recv_timeout (trans_id : TransactionID) : actM TableLookup LookupStatus :=
  self ← get_self;
  match active_lookups self !! trans_id with
  | None => mret (current_lookup_status self)
  | Some _ =>
      _ ← modify (fun self => set_lookups (delete trans_id (active_lookups self)) self);
      failed ← (if negb (in_endgame self) then endgame_if_idle else mret None);
      match failed with
      | Some status => mret status
      | None => self ← get_self; mret (current_lookup_status self)
      end
  end.

(** One announce; the flag is [fatal_error]. *)
Definition announce_to (handshake_port : Z) (node : Node) (fatal_error : bool) : actM TableLookup bool :=
  trans_id ← lookup_generate;
  self ← get_self;
  token ← lift (unwrap (announce_tokens self !! node_key node));
  let announce_peer_msg := AnnouncePeerRequest_encode
    (mk_AnnouncePeerRequest (trans_id_bytes trans_id) (lk_table_id self) (lk_target_id self) token (Explicit handshake_port)) in
  sent ← io (out_send (announce_peer_msg, node_addr node));
  let fatal_error := fatal_error || negb sent in
  _ ← (if negb fatal_error then find_and_mark local_request node else mret ());
  mret fatal_error.

Fixpoint announce_all (handshake_port : Z) (l : list Node) (fatal_error : bool) : actM TableLookup bool :=
  match l with
  | [] => mret fatal_error
  | node :: l => fatal_error ← announce_to handshake_port node fatal_error; announce_all handshake_port l fatal_error
  end.

Definition announce_nodes (self : TableLookup) : list Node :=
  take ANNOUNCE_PICK_NUM (List.filter (fun n => bool_decide (is_Some (announce_tokens self !! node_key n))) (sn_node <$> all_sorted_nodes self)).

Definition recv_finished (handshake_port : Z) : actM TableLookup LookupStatus :=
  self ← get_self;
  fatal_error ← (if will_announce self then announce_all handshake_port (announce_nodes self) false else mret false);
  _ ← modify (set_lookups ∅);
  _ ← modify (set_endgame false);
  if (fatal_error : bool) then mret LkFailed else self ← get_self; mret (current_lookup_status self).
End lookup.
