(* ===== verification/DhtHandler.v ===== *)
(** * [bip_dht::worker::handler]: the event handler of the DHT

    The handler owns the routing table, the announced peers, the tokens and the
    running actions; it is called by the event loop with a task or a timeout.
    A handler call is a definition over the handler and the world; the arms of
    [handle_incoming] are definitions of their own. *)

From stdpp Require Import prelude list gmap strings.
From Stdlib Require Import ZArith Lia Strings.Byte.
From S2P Require Import Prelude Bytes Bencode Convert Sha Node Bucket Table Storage Token Transaction Compact DhtMessage DhtBootstrap DhtLookup.

Definition MAX_BOOTSTRAP_ATTEMPTS : nat := 3.
Definition BOOTSTRAP_GOOD_NODE_THRESHOLD : nat := 10.

(** [IpAddr::from_socket_addr] *)
Definition from_socket_addr (sock_addr : SocketAddr) : IpAddr :=
  match sock_addr with SockV4 a => IpV4 (v4_ip a) | SockV6 a => IpV6 (v6_ip a) end.

Section handler.
Context {CH : Chrono} {SH : Sha1} {IO : DhtIo} {BO : BenOps}.

Inductive TableAction : Type :=
| ActLookup (lookup : TableLookup)
| ActRefresh (refresh : TableRefresh)
| ActBootstrap (bootstrap : TableBootstrap) (attempts : nat).

Inductive PostBootstrapAction : Type :=
| PostLookup (info_hash : ShaHash) (should_announce : bool)
| PostRefresh (refresh : TableRefresh) (trans_id : TransactionID).

(** [DhtHandler] and its [DetachedDhtHandler]; the handshaker and the channel out are in the world. *)
Record DhtHandler : Type := mk_DhtHandler {
  read_only : bool;
  token_store : TokenStore;
  aid_generator : AIDGenerator;
  bootstrapping : bool;
  routing_table : RoutingTable;
  active_stores : AnnounceStorage;
  future_actions : list PostBootstrapAction;
  event_notifiers : list io_sender;
  table_actions : gmap ActionID TableAction;
}.

Definition set_token_store x h := mk_DhtHandler (read_only h) x (aid_generator h) (bootstrapping h) (routing_table h) (active_stores h) (future_actions h) (event_notifiers h) (table_actions h).
Definition set_aid_generator x h := mk_DhtHandler (read_only h) (token_store h) x (bootstrapping h) (routing_table h) (active_stores h) (future_actions h) (event_notifiers h) (table_actions h).
Definition set_bootstrapping x h := mk_DhtHandler (read_only h) (token_store h) (aid_generator h) x (routing_table h) (active_stores h) (future_actions h) (event_notifiers h) (table_actions h).
Definition set_routing_table x h := mk_DhtHandler (read_only h) (token_store h) (aid_generator h) (bootstrapping h) x (active_stores h) (future_actions h) (event_notifiers h) (table_actions h).
Definition set_active_stores x h := mk_DhtHandler (read_only h) (token_store h) (aid_generator h) (bootstrapping h) (routing_table h) x (future_actions h) (event_notifiers h) (table_actions h).
Definition set_future_actions x h := mk_DhtHandler (read_only h) (token_store h) (aid_generator h) (bootstrapping h) (routing_table h) (active_stores h) x (event_notifiers h) (table_actions h).
Definition set_event_notifiers x h := mk_DhtHandler (read_only h) (token_store h) (aid_generator h) (bootstrapping h) (routing_table h) (active_stores h) (future_actions h) x (table_actions h).
Definition set_table_actions x h := mk_DhtHandler (read_only h) (token_store h) (aid_generator h) (bootstrapping h) (routing_table h) (active_stores h) (future_actions h) (event_notifiers h) x.

(** A call on the handler and the world. *)
Definition hM (B : Type) : Type := stM (DhtHandler * io_world) Empty_set B.
Definition get_h : hM DhtHandler := fun s => (Ok s.1, s).
Definition mod_h (f : DhtHandler -> DhtHandler) : hM () := fun '(h, w) => (Ok (), (f h, w)).
Definition hio {B} (f : io_world -> B * io_world) : hM B := fun '(h, w) => let '(b, w) := f w in (Ok b, (h, w)).
Definition hio_ (f : io_world -> io_world) : hM () := hio (fun w => ((), f w)).

(** Running a call of an action on the table of the handler: the result and the action left. *)
Definition run_action {A B} (m : actM A B) (a : A) : hM (B * A) :=
  fun '(h, w) =>
    let '(o, (a, (t, w))) := m (a, (routing_table h, w)) in
    (b ← o; Ok (b, a), (set_routing_table t h, w)).

Definition insert_action (id : ActionID) (a : TableAction) : hM () := mod_h (fun h => set_table_actions (<[id := a]> (table_actions h)) h).

(** ** Helpers *)

Definition shutdown_event_loop (cause : ShutdownCause) : hM () := _ ← hio (channel_send (Shutdown cause)); mret ().

(** [notifiers.retain(|send| send.send(event).is_ok())] *)
Fixpoint retain_sent (event : DhtEvent) (l : list io_sender) (w : io_world) : list io_sender * io_world :=
  match l with
  | [] => ([], w)
  | s :: l =>
      let '(ok, w) := event_send s event w in
      let '(l, w) := retain_sent event l w in
      (if (ok : bool) then s :: l else l, w)
  end.
Definition broadcast_dht_event (event : DhtEvent) : hM () :=
  h ← get_h;
  notifiers ← hio (retain_sent event (event_notifiers h));
  mod_h (set_event_notifiers notifiers).

Definition num_good_nodes (now : DateTime) (table : RoutingTable) : outcome Empty_set nat :=
  l ← closest_nodes now table (rt_node_id table); Ok (length (List.filter (fun n => bool_decide (status now n = Good)) l)).
Definition count_good : hM nat :=
  h ← get_h; now ← hio utc_now; lift (num_good_nodes now (routing_table h)).
Definition should_rebootstrap : hM bool :=
  n ← count_good; mret (bool_decide (n <= BOOTSTRAP_GOOD_NODE_THRESHOLD)).

Definition handle_start_lookup (info_hash : ShaHash) (should_announce : bool) : hM () :=
  h ← get_h;
  rand ← hio rand_indices;
  '(mid_generator, aid) ← lift (AIDGenerator_generate rand (aid_generator h));
  _ ← mod_h (set_aid_generator aid);
  let action_id := MIDGenerator_action_id mid_generator in
  if bootstrapping h then mod_h (fun h => set_future_actions (future_actions h ++ [PostLookup info_hash should_announce]) h)
  else
    r ← (fun '(h, w) =>
           let '(o, (t, w)) := TableLookup_new (rt_node_id (routing_table h)) info_hash mid_generator should_announce (routing_table h, w) in
           (o, (set_routing_table t h, w)));
    match r with
    | Some lookup => insert_action action_id (ActLookup lookup)
    | None => shutdown_event_loop Unspecified
    end.

Definition handle_check_table_refresh (trans_id : TransactionID) : hM () :=
  h ← get_h;
  match table_actions h !! TransactionID_action_id trans_id with
  | Some (ActRefresh refresh) =>
      '(status, refresh) ← run_action continue_refresh refresh;
      _ ← insert_action (TransactionID_action_id trans_id) (ActRefresh refresh);
      match status with Refreshing => mret () | RefreshFailed => shutdown_event_loop Unspecified end
  | Some (ActLookup _) | Some (ActBootstrap _ _) | None => mret ()
  end.

Definition start_post_action (a : PostBootstrapAction) : hM () :=
  match a with
  | PostLookup info_hash should_announce => handle_start_lookup info_hash should_announce
  | PostRefresh refresh trans_id =>
      _ ← insert_action (TransactionID_action_id trans_id) (ActRefresh refresh);
      handle_check_table_refresh trans_id
  end.
Fixpoint start_post_actions (l : list PostBootstrapAction) : hM () :=
  match l with [] => mret () | a :: l => _ ← start_post_action a; start_post_actions l end.

Definition broadcast_bootstrap_completed (action_id : ActionID) : hM () :=
  _ ← broadcast_dht_event BootstrapCompleted;
  _ ← mod_h (set_bootstrapping false);
  _ ← mod_h (fun h => set_table_actions (delete action_id (table_actions h)) h);
  h ← get_h;
  _ ← mod_h (set_future_actions []);
  start_post_actions (future_actions h).

(** The bootstrap and its attempts are passed and returned; one unit of fuel per attempt. *)
Fixpoint attempt_rebootstrap (fuel : nat) (bootstrap : TableBootstrap) (attempts : nat) : hM (option bool * (TableBootstrap * nat)) :=
  match fuel with
  | 0 => lift NoFuel
  | S fuel =>
      let attempts := attempts + 1 in
      if decide (MAX_BOOTSTRAP_ATTEMPTS <= attempts) then
        n ← count_good;
        if decide (n = 0) then _ ← shutdown_event_loop BootstrapFailed; mret (None, (bootstrap, attempts))
        else mret (Some false, (bootstrap, attempts))
      else
        '(bootstrap_status, bootstrap) ← run_action start_bootstrap bootstrap;
        match bootstrap_status with
        | Idle => mret (Some false, (bootstrap, attempts))
        | Bootstrapping => mret (Some true, (bootstrap, attempts))
        | BsFailed => _ ← shutdown_event_loop Unspecified; mret (None, (bootstrap, attempts))
        | BsCompleted =>
            again ← should_rebootstrap;
            if (again : bool) then attempt_rebootstrap fuel bootstrap attempts else mret (Some false, (bootstrap, attempts))
        end
  end.

(** What follows a status of a bootstrap: whether it is complete, with the action put back. *)
Definition after_bootstrap_status (action_id : ActionID) (status : BootstrapStatus) (bootstrap : TableBootstrap) (attempts : nat) : hM bool :=
  '(complete, (bootstrap, attempts)) ←
    match status with
    | Idle => mret (true, (bootstrap, attempts))
    | Bootstrapping => mret (false, (bootstrap, attempts))
    | BsFailed => _ ← shutdown_event_loop Unspecified; mret (false, (bootstrap, attempts))
    | BsCompleted =>
        again ← should_rebootstrap;
        if (again : bool) then
          '(r, ba) ← attempt_rebootstrap (MAX_BOOTSTRAP_ATTEMPTS + 1) bootstrap attempts;
          mret (bool_decide (r = Some false), ba)
        else mret (true, (bootstrap, attempts))
    end;
  _ ← insert_action action_id (ActBootstrap bootstrap attempts);
  mret complete.
(** ** Requests *)

(** [routing_table.find_node(&Node::as_good(id, addr)).map(|n| n.remote_request())] *)
Definition mark_requester (node_id : ShaHash) (addr : SocketAddr) : hM () :=
  now ← hio utc_now;
  let node := as_good now node_id addr in
  h ← get_h;
  now ← hio utc_now;
  table ← lift (find_and_update now (remote_request now) node (routing_table h));
  mod_h (set_routing_table table).

(** Sending a reply; the event loop is shut down when the channel is gone. *)
Definition send_reply (msg : bytes) (addr : SocketAddr) : hM () :=
  sent ← hio (out_send (msg, addr));
  if (sent : bool) then mret () else shutdown_event_loop Unspecified.

Definition handle_ping (p : PingRequest) (addr : SocketAddr) : hM () :=
  _ ← mark_requester (pq_node_id p) addr;
  h ← get_h;
  let ping_msg := PingResponse_encode (mk_PingResponse (pq_trans_id p) (rt_node_id (routing_table h))) in
  send_reply ping_msg addr.

(** The compact form of the eight nodes closest to an id. *)
Fixpoint encode_nodes (l : list Node) : outcome Empty_set bytes :=
  match l with
  | [] => Ok []
  | node :: l => e ← Node_encode node; rest ← encode_nodes l; Ok (e ++ rest)
  end.
Definition closest_nodes_bytes (id : ShaHash) : hM bytes :=
  h ← get_h;
  now ← hio utc_now;
  l ← lift (closest_nodes now (routing_table h) id);
  lift (encode_nodes (take 8 l)).

Definition handle_find_node (f : FindNodeRequest) (addr : SocketAddr) : hM () :=
  _ ← mark_requester (fq_node_id f) addr;
  closest_nodes_bytes ← closest_nodes_bytes (fq_target_id f);
  h ← get_h;
  find_node_rsp ← lift (unwrap_result (FindNodeResponse_new (fq_trans_id f) (rt_node_id (routing_table h)) closest_nodes_bytes));
  send_reply (FindNodeResponse_encode find_node_rsp) addr.

(** The closure given to [find_items]: six bytes for a v4 address, nothing for a v6 one. *)
Definition contact_bytes (addr : SocketAddr) : bytes :=
  match addr with
  | SockV4 v4_addr =>
      let port := v4_port v4_addr in
      ipv4_to_bytes_be (v4_ip v4_addr) ++ [as_u8 (Z.shiftr port 8); as_u8 (Z.land port 0xFF)]
  | SockV6 _ => []
  end.
Definition contact_info_bencode (contact_info_bytes : bytes) : outcome Empty_set (list Ben) :=
  foldl (fun acc chunk_index =>
    l ← acc;
    let start := chunk_index * 6 in
    let stop := chunk_index * 6 + 6 in
    chunk ← slice_checked contact_info_bytes start stop;
    Ok (l ++ [ben_bytes chunk])) (Ok []) (seq 0 (length contact_info_bytes / 6)).

Definition token_draw (w : io_world) : draw * io_world :=
  let '(now1, w) := utc_now w in
  let '(now2, w) := utc_now w in
  let '(rand1, w) := rand_u32 w in
  let '(rand2, w) := rand_u32 w in
  (mk_draw now1 now2 rand1 rand2, w).

Definition handle_get_peers (g : GetPeersRequest) (addr : SocketAddr) : hM () :=
  _ ← mark_requester (gq_node_id g) addr;
  h ← get_h;
  now ← hio utc_now;
  let '(contacts, stores) := find (active_stores h) (gq_info_hash g) now in
  _ ← mod_h (set_active_stores stores);
  let contact_info_bytes := concat (contact_bytes <$> contacts) in
  contact_info ← lift (contact_info_bencode contact_info_bytes);
  closest_nodes_bytes ← closest_nodes_bytes (gq_info_hash g);
  h ← get_h;
  d ← hio token_draw;
  let '(token, store) := checkout (token_store h) (from_socket_addr addr) d in
  _ ← mod_h (set_token_store store);
  nodes ← lift (unwrap_result (CompactNodeInfo_new closest_nodes_bytes));
  info_type ←
    (if decide (contact_info <> []) then
       values ← lift (unwrap_result (CompactValueInfo_new ben_as_bytes contact_info)); mret (CiBoth nodes values)
     else mret (CiNodes nodes));
  h ← get_h;
  let get_peers_rsp := mk_GetPeersResponse (gq_trans_id g) (rt_node_id (routing_table h)) (Some (Token.token token)) info_type in
  send_reply (GetPeersResponse_encode get_peers_rsp) addr.

Definition connect_addr (port : ConnectPort) (addr : SocketAddr) : SocketAddr :=
  match port with
  | Implied => addr
  | Explicit port =>
      match addr with
      | SockV4 v4_addr => SockV4 (mk_SocketAddrV4 (v4_ip v4_addr) port)
      | SockV6 v6_addr => SockV6 (mk_SocketAddrV6 (v6_ip v6_addr) port (v6_flowinfo v6_addr) (v6_scope_id v6_addr))
      end
  end.

Definition validate_token (bs : bytes) (addr : SocketAddr) : hM bool :=
  match Token_new bs with
  | Ok t =>
      h ← get_h;
      d ← hio token_draw;
      let '(valid, store) := checkin (token_store h) (from_socket_addr addr) t d in
      _ ← mod_h (set_token_store store);
      mret valid
  | _ => mret false
  end.

Definition handle_announce_peer (a : AnnouncePeerRequest) (addr : SocketAddr) : hM () :=
  _ ← mark_requester (aq_node_id a) addr;
  is_valid ← validate_token (aq_token a) addr;
  let connect_addr := connect_addr (aq_port a) addr in
  response_msg ←
    (if negb is_valid then
       mret (ErrorMessage_encode (ErrorMessage_new (aq_trans_id a) ProtocolError (bstr "Received An Invalid Token")))
     else
       h ← get_h;
       now ← hio utc_now;
       item_time ← hio utc_now;
       let '(stored, stores) := add (active_stores h) (aq_info_hash a) connect_addr now item_time in
       _ ← mod_h (set_active_stores stores);
       if (stored : bool) then
         h ← get_h; mret (AnnouncePeerResponse_encode (mk_AnnouncePeerResponse (aq_trans_id a) (rt_node_id (routing_table h))))
       else mret (ErrorMessage_encode (ErrorMessage_new (aq_trans_id a) ServerError (bstr "Announce Storage Is Full"))));
  send_reply response_msg addr.

(** ** Responses *)

Definition add_to_table (node : Node) : hM () :=
  h ← get_h;
  now ← hio utc_now;
  table ← lift (RoutingTable_add_node now (routing_table h) node);
  mod_h (set_routing_table table).

Fixpoint add_questionable (l : list (ShaHash * SocketAddrV4)) : hM () :=
  match l with
  | [] => mret ()
  | p :: l =>
      now ← hio utc_now;
      node ← lift (questionable_v4 now p);
      _ ← add_to_table node;
      add_questionable l
  end.

Definition handle_find_node_response (f : FindNodeResponse) (addr : SocketAddr) : hM () :=
  trans_id ← lift (unwrap (TransactionID_from_bytes (fr_trans_id f)));
  let action_id := TransactionID_action_id trans_id in
  now ← hio utc_now;
  let node := as_good now (fr_node_id f) addr in
  l ← lift (nodes_of (fr_nodes f));
  _ ← add_questionable l;
  h ← get_h;
  bootstrap_complete ←
    match table_actions h !! action_id with
    | Some (ActRefresh _) => _ ← add_to_table node; mret false
    | Some (ActBootstrap bootstrap attempts) =>
        _ ← (if negb (is_router bootstrap (node_addr node)) then add_to_table node else mret ());
        '(status, bootstrap) ← run_action (Bootstrap_recv_response trans_id) bootstrap;
        after_bootstrap_status action_id status bootstrap attempts
    | Some (ActLookup _) | None => mret false
    end;
  if (bootstrap_complete : bool) then broadcast_bootstrap_completed action_id else mret ().

Fixpoint connect_values (info_hash : ShaHash) (l : list SocketAddrV4) : hM () :=
  match l with
  | [] => mret ()
  | v4_addr :: l => _ ← hio_ (handshaker_connect info_hash (SockV4 v4_addr)); connect_values info_hash l
  end.

Definition after_lookup_status (info_hash : ShaHash) (status : LookupStatus) : hM () :=
  match status with
  | Searching => mret ()
  | LkCompleted => broadcast_dht_event (LookupCompleted info_hash)
  | LkFailed => shutdown_event_loop Unspecified
  | Values values => connect_values info_hash values
  end.

Definition handle_get_peers_response (g : GetPeersResponse) (addr : SocketAddr) : hM () :=
  trans_id ← lift (unwrap (TransactionID_from_bytes (gr_trans_id g)));
  let action_id := TransactionID_action_id trans_id in
  now ← hio utc_now;
  let node := as_good now (gr_node_id g) addr in
  _ ← add_to_table node;
  h ← get_h;
  match table_actions h !! action_id with
  | Some (ActLookup lookup) =>
      '(status, lookup) ← run_action (Lookup_recv_response node trans_id g) lookup;
      _ ← insert_action action_id (ActLookup lookup);
      after_lookup_status (lk_target_id lookup) status
  | Some (ActRefresh _) | Some (ActBootstrap _ _) | None => mret ()
  end.

(** The closure given to [MessageType::new]. *)
Definition expected_response (actions : gmap ActionID TableAction) (trans : bytes) : ExpectedResponse :=
  match TransactionID_from_bytes trans with
  | None => ExNone
  | Some trans_id =>
      match actions !! TransactionID_action_id trans_id with
      | Some (ActLookup _) => ExGetPeers
      | Some (ActRefresh _) => ExFindNode
      | Some (ActBootstrap _ _) => ExFindNode
      | None => ExNone
      end
  end.

Definition handle_message (m : MessageType) (addr : SocketAddr) : hM () :=
  match m with
  | MtRequest (RqPing p) => handle_ping p addr
  | MtRequest (RqFindNode f) => handle_find_node f addr
  | MtRequest (RqGetPeers g) => handle_get_peers g addr
  | MtRequest (RqAnnouncePeer a) => handle_announce_peer a addr
  | MtResponse (RsFindNode f) => handle_find_node_response f addr
  | MtResponse (RsGetPeers g) => handle_get_peers_response g addr
  | MtResponse (RsPing _) | MtResponse (RsAnnouncePeer _) | MtError _ => mret ()
  end.

Definition handle_incoming (buffer : bytes) (addr : SocketAddr) : hM () :=
  match ben_decode buffer with
  | None => mret ()
  | Some bencode =>
      h ← get_h;
      match MessageType_new bencode (expected_response (table_actions h)) with
      | Ok (MtRequest rqst) => if read_only h then mret () else handle_message (MtRequest rqst) addr
      | Ok message => handle_message message addr
      | Err _ => mret ()
      | Panic => lift Panic
      | NoFuel => lift NoFuel
      end
  end.

(** ** The other tasks *)

Definition handle_register_sender (sender : io_sender) : hM () :=
  mod_h (fun h => set_event_notifiers (event_notifiers h ++ [sender]) h).

(** [routers.into_iter().filter_map(|r| r.ipv4_addr().ok().map(SocketAddr::V4))] *)
Fixpoint resolve_routers (l : list Router) (w : io_world) : list SocketAddr * io_world :=
  match l with
  | [] => ([], w)
  | r :: l =>
      let '(a, w) := ipv4_addr r w in
      let '(l, w) := resolve_routers l w in
      (match a with Some v4 => SockV4 v4 :: l | None => l end, w)
  end.

Definition handle_start_bootstrap (routers : list Router) (nodes : list SocketAddr) : hM () :=
  h ← get_h;
  rand ← hio rand_indices;
  '(mid_generator, aid) ← lift (AIDGenerator_generate rand (aid_generator h));
  _ ← mod_h (set_aid_generator aid);
  let action_id := MIDGenerator_action_id mid_generator in
  router_addrs ← hio (resolve_routers routers);
  let table_bootstrap := TableBootstrap_new (rt_node_id (routing_table h)) mid_generator nodes router_addrs in
  '(bootstrap_status, table_bootstrap) ← run_action start_bootstrap table_bootstrap;
  _ ← mod_h (set_bootstrapping true);
  bootstrap_complete ← after_bootstrap_status action_id bootstrap_status table_bootstrap 0;
  if (bootstrap_complete : bool) then broadcast_bootstrap_completed action_id else mret ().

Definition handle_shutdown (cause : ShutdownCause) : hM () :=
  _ ← broadcast_dht_event (ShuttingDown cause);
  hio_ loop_shutdown.

Definition handle_check_bootstrap_timeout (trans_id : TransactionID) : hM () :=
  let action_id := TransactionID_action_id trans_id in
  h ← get_h;
  bootstrap_complete ←
    match table_actions h !! action_id with
    | Some (ActBootstrap bootstrap attempts) =>
        '(status, bootstrap) ← run_action (Bootstrap_recv_timeout trans_id) bootstrap;
        after_bootstrap_status action_id status bootstrap attempts
    | Some (ActLookup _) | Some (ActRefresh _) | None => mret false
    end;
  if (bootstrap_complete : bool) then broadcast_bootstrap_completed action_id else mret ().

Definition handle_check_lookup_timeout (trans_id : TransactionID) : hM () :=
  let action_id := TransactionID_action_id trans_id in
  h ← get_h;
  match table_actions h !! action_id with
  | Some (ActLookup lookup) =>
      '(status, lookup) ← run_action (Lookup_recv_timeout trans_id) lookup;
      _ ← insert_action action_id (ActLookup lookup);
      after_lookup_status (lk_target_id lookup) status
  | Some (ActBootstrap _ _) | Some (ActRefresh _) | None => mret ()
  end.

Definition handle_check_lookup_endgame (trans_id : TransactionID) : hM () :=
  let action_id := TransactionID_action_id trans_id in
  h ← get_h;
  _ ← mod_h (fun h => set_table_actions (delete action_id (table_actions h)) h);
  match table_actions h !! action_id with
  | Some (ActLookup lookup) =>
      port ← hio (fun w => (handshaker_port w, w));
      '(status, lookup) ← run_action (recv_finished port) lookup;
      after_lookup_status (lk_target_id lookup) status
  | Some (ActBootstrap _ _) | Some (ActRefresh _) | None => mret ()
  end.

(** ** [Handler for DhtHandler] *)

Definition notify (task : OneshotTask io_sender) : hM () :=
  match task with
  | Incoming buffer addr => handle_incoming buffer addr
  | RegisterSender send => handle_register_sender send
  | StartBootstrap routers nodes => handle_start_bootstrap routers nodes
  | StartLookup info_hash should_announce => handle_start_lookup info_hash should_announce
  | Shutdown cause => handle_shutdown cause
  end.

Definition timeout (data : Z * ScheduledTask) : hM () :=
  match data.2 with
  | CheckTableRefresh trans_id => handle_check_table_refresh trans_id
  | CheckBootstrapTimeout trans_id => handle_check_bootstrap_timeout trans_id
  | CheckLookupTimeout trans_id => handle_check_lookup_timeout trans_id
  | CheckLookupEndGame trans_id => handle_check_lookup_endgame trans_id
  end.

(** [DhtHandler::new], with the numbers its generators shuffle and the store draws. *)
Definition DhtHandler_new (table : RoutingTable) (read_only : bool) (w : io_world) : outcome Empty_set DhtHandler * io_world :=
  let '(rand0, w) := rand_indices w in
  let '(rand1, w) := rand_indices w in
  let '(rand2, w) := rand_indices w in
  let '(now, w) := utc_now w in
  let '(secret1, w) := rand_u32 w in
  let '(secret2, w) := rand_u32 w in
  (aid_generator ← AIDGenerator_new rand0;
   '(mid_generator, aid_generator) ← AIDGenerator_generate rand1 aid_generator;
   '(refresh_trans_id, mid_generator) ← MIDGenerator_generate rand2 mid_generator;
   let table_refresh := TableRefresh_new mid_generator in
   let future_actions := [PostRefresh table_refresh refresh_trans_id] in
   Ok (mk_DhtHandler read_only (TokenStore_new now secret1 secret2) aid_generator false table AnnounceStorage_new future_actions [] ∅), w).

End handler.
