(* ===== verification/DhtSpec.v ===== *)
(** * What the DHT worker relies on, and how its calls are reasoned about

    The documented behaviour of the world of [DhtBootstrap], an instance of it, the
    assertions of calls that come back, and the invariants of the tables and id
    generators the worker uses. *)

From stdpp Require Import prelude list gmap strings.
From Stdlib Require Import ZArith Lia Strings.Byte.
From S2P Require Import Prelude Bytes Bencode Convert Sha Trans Node Bucket Table TableProofs Closest Storage Token Transaction Compact DhtMessage DhtMessageProofs DhtBootstrap DhtLookup DhtHandler.

(** ** The world *)

(** What leaves the worker, and whether it was taken. *)
Inductive output (S : Type) : Type :=
| Datagram (msg : bytes) (addr : SocketAddr) (ok : bool)
| Queued (task : OneshotTask S) (ok : bool)
| Notified (send : S) (event : DhtEvent) (ok : bool)
| Connected (info_hash : ShaHash) (addr : SocketAddr)
| LoopDown.
Arguments Datagram {S} msg addr ok.
Arguments Queued {S} task ok.
Arguments Notified {S} send event ok.
Arguments Connected {S} info_hash addr.
Arguments LoopDown {S}.

(** [timers] are the pending timeouts, [log] is what has left the worker. *)
Class DhtIoSpec {CH : Chrono} {IO : DhtIo} : Type := {
  timers : io_world -> io_timeout -> option ScheduledTask;
  log : io_world -> list (output io_sender);
  timeout_eq :: EqDecision io_timeout;
  timeout_ms_spec data delay w : match timeout_ms data delay w with
    | (Some h, w') => timers w h = None /\ (forall h', timers w' h' = if decide (h' = h) then Some data.2 else timers w h') /\ log w' = log w
    | (None, w') => (forall h', timers w' h' = timers w h') /\ log w' = log w
    end;
  clear_timeout_spec h w : let w' := clear_timeout h w in
    (forall h', timers w' h' = if decide (h' = h) then None else timers w h') /\ log w' = log w;
  channel_send_spec task w : let '(ok, w') := channel_send task w in (forall h, timers w' h = timers w h) /\ log w' = log w ++ [Queued task ok];
  loop_shutdown_spec w : let w' := loop_shutdown w in (forall h, timers w' h = timers w h) /\ log w' = log w ++ [LoopDown];
  out_send_spec m w : let '(ok, w') := out_send m w in (forall h, timers w' h = timers w h) /\ log w' = log w ++ [Datagram m.1 m.2 ok];
  event_send_spec s e w : let '(ok, w') := event_send s e w in (forall h, timers w' h = timers w h) /\ log w' = log w ++ [Notified s e ok];
  connect_spec i a w : let w' := handshaker_connect i a w in (forall h, timers w' h = timers w h) /\ log w' = log w ++ [Connected i a];
  port_spec w : in_unsigned 16 (handshaker_port w);
  utc_now_spec w : let '(t, w') := utc_now w in (forall h, timers w' h = timers w h) /\ log w' = log w /\ is_Some (dt_checked_sub t (minutes MAX_LAST_SEEN_MINS));
  rand_indices_spec w : let '(_, w') := rand_indices w in (forall h, timers w' h = timers w h) /\ log w' = log w;
  rand_u32_spec w : let '(_, w') := rand_u32 w in (forall h, timers w' h = timers w h) /\ log w' = log w;
  resolve_spec host w : let '(_, w') := resolve host w in (forall h, timers w' h = timers w h) /\ log w' = log w;
  router_order_spec s : router_order s ≡ₚ elements s;
}.

(** ** An instance *)

Record World : Type := mk_World { w_timers : gmap nat ScheduledTask; w_log : list (output nat); w_free : nat; w_clock : Z; w_open : bool }.

(** The clock ticks with every reading; names are not resolved. *)
#[export] Instance dht_ref : @DhtIo Chrono_Z := {|
  io_world := World;
  io_timeout := nat;
  io_sender := nat;
  timeout_ms data _ w :=
    match w_free w with
    | 0 => (None, w)
    | S n => let h := fresh (dom (w_timers w)) in (Some h, mk_World (<[h := data.2]> (w_timers w)) (w_log w) n (w_clock w) (w_open w))
    end;
  clear_timeout h w := mk_World (delete h (w_timers w)) (w_log w) (S (w_free w)) (w_clock w) (w_open w);
  channel_send task w := (true, mk_World (w_timers w) (w_log w ++ [Queued task true]) (w_free w) (w_clock w) (w_open w));
  loop_shutdown w := mk_World (w_timers w) (w_log w ++ [LoopDown]) (w_free w) (w_clock w) (w_open w);
  out_send m w := (w_open w, mk_World (w_timers w) (w_log w ++ [Datagram m.1 m.2 (w_open w)]) (w_free w) (w_clock w) (w_open w));
  event_send s e w := (true, mk_World (w_timers w) (w_log w ++ [Notified s e true]) (w_free w) (w_clock w) (w_open w));
  handshaker_connect i a w := mk_World (w_timers w) (w_log w ++ [Connected i a]) (w_free w) (w_clock w) (w_open w);
  handshaker_port _ := 6881%Z;
  utc_now w := (w_clock w : @DateTime Chrono_Z, mk_World (w_timers w) (w_log w) (w_free w) (w_clock w + 1) (w_open w));
  rand_indices w := (fun n => n, w);
  rand_u32 w := (w_clock w, w);
  resolve _ w := (None, w);
  router_order := elements;
|}.

#[export] Program Instance dht_ref_spec : @DhtIoSpec Chrono_Z dht_ref := {| timers w h := w_timers w !! h; log := w_log |}.
Next Obligation.
  intros [z task] delay w. cbn. destruct (w_free w) as [|n]; [done|]. cbn.
  assert (w_timers w !! fresh (dom (w_timers w)) = None) as Hn by (apply not_elem_of_dom, is_fresh). split; [done|]. split; [|done].
  intros h'. case_decide as Hh; [subst; by rewrite lookup_insert_eq|by rewrite lookup_insert_ne].
Qed.
Next Obligation.
  intros h w. cbn. split; [|done]. intros h'. case_decide as Hh; [subst; by rewrite lookup_delete_eq|by rewrite lookup_delete_ne].
Qed.
Next Obligation. done. Qed.
Next Obligation. done. Qed.
Next Obligation. done. Qed.
Next Obligation. done. Qed.
Next Obligation. done. Qed.
Next Obligation. intros w. cbn. unfold in_unsigned. lia. Qed.
Next Obligation. intros w. cbn. split; [done|]. split; [done|]. by eexists. Qed.
Next Obligation. done. Qed.
Next Obligation. done. Qed.
Next Obligation. done. Qed.
Next Obligation. done. Qed.

(** ** Id generators, also after they wrapped around *)

Section blocks.
Context (max : Z) (len : nat) (Hlen : 0 < len) (Hmax : (max < 2 ^ 63)%Z /\ (Z.of_nat len < 2 ^ 63)%Z) (Hdiv : (Z.of_nat len | max)%Z) (Hpos : (0 < max)%Z).

Definition block_ok (next : Z) (curr : nat) (ids : list Z) : Prop :=
  (Z.of_nat len | next)%Z /\ (0 <= next <= max)%Z /\ Forall (fun x => (0 <= x < max)%Z) (drop curr ids).

Lemma block_ok_take next curr ids x : block_ok next curr ids -> ids !! curr = Some x -> block_ok next (curr + 1) ids /\ (0 <= x < max)%Z.
Proof using.
  intros (Hd & Hn & Hall) Hx. rewrite (drop_S _ _ _ Hx) in Hall. apply Forall_cons in Hall as [Hx' Hall].
  split; [|done]. split; [done|]. split; [done|]. by rewrite Nat.add_1_r.
Qed.

Lemma block_ok_refill next curr ids rand : block_ok next curr ids ->
  exists next' ids0 ids' x, generate_block max len next = Ok (next', ids0) /\ fisher_shuffle 0%Z rand ids0 = Ok ids' /\ ids' !! 0 = Some x /\ block_ok next' 0 ids'.
Proof using Hlen Hmax Hdiv Hpos.
  intros (Hd & Hn & _).
  assert (exists s, (Z.of_nat len | s)%Z /\ (0 <= s)%Z /\ (s + Z.of_nat len <= max)%Z /\ generate_block max len next = Ok (s + Z.of_nat len, seqZ s (Z.of_nat len))%Z) as (s & Hs & Hs0 & Hle & Hg).
  { unfold generate_block. assert (Z.of_nat len <= max)%Z as Hlm by (by apply Z.divide_pos_le).
    destruct (decide (next = max)) as [->|Hne].
    - exists 0%Z. split; [apply Z.divide_0_r|]. split; [done|]. split; [done|]. cbn [mbind outcome_bind]. rewrite Z.sub_0_r, Z.add_0_l.
      rewrite store_from_all by (rewrite length_seqZ, length_replicate; lia). done.
    - exists next. split; [done|]. split; [lia|]. assert (next + Z.of_nat len <= max)%Z as Hb.
      { destruct Hd as [k Hk], Hdiv as [m Hm]. assert (k < m)%Z by nia.
        assert ((k + 1) * Z.of_nat len <= m * Z.of_nat len)%Z by (apply Z.mul_le_mono_nonneg_r; lia). lia. }
      split; [done|]. unfold add_u64. rewrite decide_True by lia. cbn [mbind outcome_bind].
      replace (next + Z.of_nat len - next)%Z with (Z.of_nat len) by lia.
      rewrite store_from_all by (rewrite length_seqZ, length_replicate; lia). done. }
  destruct (fisher_shuffle_perm 0%Z rand (seqZ s (Z.of_nat len))) as (ids' & Hsh & Hperm).
  pose proof (Permutation_length Hperm) as Hl. rewrite length_seqZ in Hl.
  destruct (lookup_lt_is_Some_2 ids' 0) as [x Hx]; [lia|].
  exists (s + Z.of_nat len)%Z, (seqZ s (Z.of_nat len)), ids', x. split; [done|]. split; [done|]. split; [done|]. split; [|split; [lia|]].
  - apply Z.divide_add_r; [done|]. exists 1%Z. lia.
  - rewrite drop_0, Hperm. apply Forall_forall. intros y Hy%elem_of_seqZ. lia.
Qed.
End blocks.

(** A generator of the ids of the action [id]. *)
Definition gen_ok (id : ActionID) (g : MIDGenerator) : Prop :=
  (0 <= act_id id < MAX_ACTION_ID)%Z /\ mid_action_id g = (act_id id * 2 ^ 24)%Z /\
  block_ok MAX_MESSAGE_ID MESSAGE_ID_PREALLOC_LEN (mid_next_alloc g) (mid_curr_index g) (message_ids g).

(** An id of the action [id], as it goes over the wire. *)
Definition id_of (id : ActionID) (t : TransactionID) : Prop :=
  TransactionID_action_id t = id /\ TransactionID_from_bytes (trans_id_bytes t) = Some t /\ length (trans_id_bytes t) = 8.

Lemma id_of_lor id y : (0 <= act_id id < MAX_ACTION_ID)%Z -> (0 <= y < MAX_MESSAGE_ID)%Z -> id_of id (TransactionID_new (Z.lor (act_id id * 2 ^ 24) y)).
Proof.
  intros Hx Hy. change MAX_ACTION_ID with (2 ^ 40)%Z in Hx. split; [|split].
  - unfold TransactionID_action_id. cbn [trans_id TransactionID_new]. rewrite action_of by done. by destruct id.
  - rewrite lor_ids by done. apply new_of_bytes. change MAX_MESSAGE_ID with (2 ^ 24)%Z in Hy. lia.
  - done.
Qed.

Lemma gen_ok_step id g rand : gen_ok id g -> exists t g', MIDGenerator_generate rand g = Ok (t, g') /\ gen_ok id g' /\ id_of id t.
Proof.
  intros (Hid & Ha & Hb). unfold MIDGenerator_generate. cbn [mid_generate]. destruct (message_ids g !! mid_curr_index g) as [x|] eqn:Hx.
  - destruct (block_ok_take _ _ _ _ _ _ Hb Hx) as [Hb' Hr]. rewrite Ha. eexists _, _. split; [done|]. split; [|by apply id_of_lor]. split; [done|]. by split.
  - edestruct (block_ok_refill MAX_MESSAGE_ID MESSAGE_ID_PREALLOC_LEN) as (n' & ids0 & ids' & x & Hg & Hs & Hx' & Hb');
      [unfold MESSAGE_ID_PREALLOC_LEN; lia|vm_compute; done|exists 8192%Z; vm_compute; done|done|exact Hb|].
    rewrite generate_mids_block, Hg. cbn [mbind outcome_bind]. rewrite Hs. cbn [mbind outcome_bind].
    cbn [message_ids mid_curr_index mid_action_id mid_next_alloc]. rewrite Hx'.
    destruct (block_ok_take _ _ _ _ _ _ Hb' Hx') as [Hb2 Hr]. rewrite Ha. eexists _, _. split; [done|]. split; [|by apply id_of_lor]. split; [done|]. by split.
Qed.

Definition aid_ok (g : AIDGenerator) : Prop := block_ok MAX_ACTION_ID ACTION_ID_PREALLOC_LEN (aid_next_alloc g) (aid_curr_index g) (action_ids g).

Lemma gen_ok_new x : (0 <= x < MAX_ACTION_ID)%Z -> let g := MIDGenerator_new (as_unsigned 64 (Z.shiftl x MESSAGE_ID_SHIFT)) in gen_ok (MIDGenerator_action_id g) g.
Proof.
  intros Hx g. unfold g. rewrite action_shifted by done. unfold MIDGenerator_action_id. cbn [mid_action_id MIDGenerator_new].
  rewrite <- (Z.lor_0_r (x * 2 ^ 24)) at 1. rewrite action_of by (vm_compute; done). split; [done|]. split; [done|].
  unfold MIDGenerator_new. cbn [mid_next_alloc mid_curr_index message_ids]. split; [apply Z.divide_0_r|]. split; [vm_compute; done|].
  rewrite drop_ge by (rewrite length_replicate; done). constructor.
Qed.

Lemma aid_ok_step g rand : aid_ok g -> exists m g', AIDGenerator_generate rand g = Ok (m, g') /\ aid_ok g' /\ gen_ok (MIDGenerator_action_id m) m.
Proof.
  intros Hb. unfold AIDGenerator_generate. cbn [aid_generate]. destruct (action_ids g !! aid_curr_index g) as [x|] eqn:Hx.
  - destruct (block_ok_take _ _ _ _ _ _ Hb Hx) as [Hb' Hr]. eexists _, _. split; [done|]. split; [exact Hb'|by apply gen_ok_new].
  - edestruct (block_ok_refill MAX_ACTION_ID ACTION_ID_PREALLOC_LEN) as (n' & ids0 & ids' & x & Hg & Hs & Hx' & Hb');
      [unfold ACTION_ID_PREALLOC_LEN; lia|vm_compute; done|exists 536870912%Z; vm_compute; done|done|exact Hb|].
    rewrite generate_aids_block, Hg. cbn [mbind outcome_bind]. rewrite Hs. cbn [mbind outcome_bind]. cbn [action_ids aid_curr_index aid_next_alloc]. rewrite Hx'.
    destruct (block_ok_take _ _ _ _ _ _ Hb' Hx') as [Hb2 Hr]. eexists _, _. split; [done|]. split; [exact Hb2|by apply gen_ok_new].
Qed.

Lemma aid_ok_new rand : exists g, AIDGenerator_new rand = Ok g /\ aid_ok g.
Proof.
  edestruct (block_ok_refill MAX_ACTION_ID ACTION_ID_PREALLOC_LEN) with (next := 0%Z) (curr := 0) (ids := @nil Z) (rand := rand)
    as (n' & ids0 & ids' & x & Hg & Hs & Hx' & Hb'); [unfold ACTION_ID_PREALLOC_LEN; lia|vm_compute; done|exists 536870912%Z; vm_compute; done|done| |].
  - split; [apply Z.divide_0_r|]. split; [vm_compute; done|constructor].
  - unfold AIDGenerator_new. rewrite generate_aids_block, Hg. cbn [mbind outcome_bind]. rewrite Hs. eexists. split; [done|exact Hb'].
Qed.

(** ** Tables *)

Section tables.
Context {CH : Chrono}.

(** Every entry of the table satisfies [P]. *)
Definition table_all (P : Node -> Prop) (t : RoutingTable) : Prop := Forall (fun b => Forall P (Bucket.nodes b)) (buckets t).

Lemma table_all_elem P t x : table_all P t -> in_table t x -> P x.
Proof.
  intros Ht (i & b & Hb & Hx). unfold table_all in Ht. rewrite Forall_lookup in Ht. specialize (Ht i b Hb). rewrite Forall_forall in Ht. by apply Ht.
Qed.

Lemma table_all_insert P t i b : table_all P t -> Forall P (Bucket.nodes b) -> table_all P (with_buckets t (<[i := b]> (buckets t))).
Proof. intros Ht Hb. by apply Forall_insert. Qed.

Lemma add_node_all P now fuel : P default_node -> forall t,
  table_all P t ->
  (forall n t', P n -> add_node fuel now t n = Ok t' -> table_all P t') /\
  (forall n k t', P n -> bucket_node fuel now t n k = Ok t' -> table_all P t') /\
  (forall i r t', split_bucket fuel now t i = Ok (r, t') -> table_all P t').
Proof.
  intros Hdef. induction fuel as [|fuel IH]; intros t Ht; [done|]. cbn [add_node bucket_node split_bucket]. split; [|split].
  - intros n t' Hn. case_decide; [by intros [= <-]|]. case_decide; [|by intros [= <-]]. by apply (proj1 (proj2 (IH t Ht))).
  - intros n k t' Hn. destruct (buckets t !! bucket_placement k (length (buckets t))) as [b|] eqn:Hb; [|done]. cbn [unwrap mbind outcome_bind].
    assert (Forall P (Bucket.nodes b)) as Hbn by (unfold table_all in Ht; rewrite Forall_lookup in Ht; by apply (Ht _ _ Hb)).
    assert (Forall P (Bucket.nodes (Bucket_add_node now b n).2)) as Hb'.
    { apply Forall_forall. intros x [Hx|[-> _]]%Bucket_add_elem; [|done]. rewrite Forall_forall in Hbn. by apply Hbn. }
    destruct (Bucket_add_node now b n) as [placed b']. cbn [snd] in Hb'.
    set (t1 := with_buckets t _). assert (table_all P t1) as Ht1 by (by apply table_all_insert).
    destruct placed; [by intros [= <-]|]. intros ([split t2] & Hs & Hr)%outcome_bind_ok.
    apply (proj2 (proj2 (IH t1 Ht1))) in Hs. destruct split; [by apply (proj1 (proj2 (IH t2 Hs))) in Hr|by injection Hr as <-].
  - intros i r t'. destruct (can_split_bucket _ _); cbn [negb]; [|by intros [= _ <-]].
    destruct (last (buckets t)) as [sb|] eqn:Hl; [|done].
    assert (Forall P (Bucket.nodes sb)) as Hsb.
    { apply last_Some_elem_of in Hl. unfold table_all in Ht. rewrite Forall_forall in Ht. by apply Ht. }
    set (t0 := with_buckets _ _). assert (table_all P t0) as Ht0.
    { unfold t0, table_all. cbn [buckets with_buckets]. rewrite !Forall_app. split; [split; [by apply Forall_take|]|]; repeat constructor; done. }
    intros (t2 & Hf & [= _ <-])%outcome_bind_ok. clearbody t0. clear -IH Hsb Ht0 Hf. revert t0 Ht0 Hf.
    induction Hsb as [|x l Hx Hl IHl]; intros t0 Ht0 Hf; cbn [foldl] in Hf; [by injection Hf as <-|]. cbn [mbind outcome_bind] in Hf.
    destruct (add_node fuel now t0 x) as [t1| | |] eqn:Ha; [apply (IHl t1); [by apply (proj1 (IH t0 Ht0)) in Ha|done]|exfalso..];
      (clear -Hf; induction l as [|y l IH]; cbn in Hf; [done|by apply IH]).
Qed.

(** A v4 address with a port of sixteen bits. *)
Definition v4_addr (a : SocketAddr) : Prop := match a with SockV4 a => in_unsigned 16 (v4_port a) | SockV6 _ => False end.
Definition v4_node (n : Node) : Prop := v4_addr (node_addr n).

Record table_ok (t : RoutingTable) : Prop := { tok_inv : table_inv t; tok_v4 : table_all v4_node t }.

Lemma add_node_ok now t n : table_ok t -> sha_wf (node_id n) -> v4_node n ->
  exists t', RoutingTable_add_node now t n = Ok t' /\ table_ok t' /\ rt_node_id t' = rt_node_id t.
Proof.
  intros [Hi H4] Hw Hn. destruct (RoutingTable_add_spec now t n Hi Hw) as (t' & Ha & [E1 E2 _ _] & _). exists t'. split; [done|]. split; [|done].
  split; [done|]. refine (proj1 (add_node_all v4_node now table_fuel _ t H4) n t' Hn Ha). split; by vm_compute.
Qed.

(** Entries that differ in nothing the invariant speaks of. *)
Definition same_entry (a b : Node) : Prop := node_id b = node_id a /\ node_addr b = node_addr a /\ last_response b = last_response a.

Lemma same_entry_eqb a b a' b' : same_entry a a' -> same_entry b b' -> node_eqb a' b' = node_eqb a b.
Proof. intros (H1 & H2 & _) (K1 & K2 & _). unfold node_eqb. by rewrite H1, H2, K1, K2. Qed.

Lemma bucket_inv_same b b' : Forall2 same_entry (Bucket.nodes b) (Bucket.nodes b') -> bucket_inv b -> bucket_inv b'.
Proof.
  intros Hs [Hl Hd]. split; [by rewrite <- (Forall2_length _ _ _ Hs)|]. intros i j x' y' Hij Hx Hy He.
  destruct (Forall2_lookup_r _ _ _ _ _ Hs Hx) as (x & Hx0 & Hxs). destruct (Forall2_lookup_r _ _ _ _ _ Hs Hy) as (y & Hy0 & Hys).
  rewrite (same_entry_eqb x y) in He by done. pose proof (Hd i j x y Hij Hx0 Hy0 He) as Hr. destruct Hys as (_ & _ & ->). done.
Qed.

Definition same_table (t t' : RoutingTable) : Prop :=
  rt_node_id t' = rt_node_id t /\ Forall2 (fun b b' => Forall2 same_entry (Bucket.nodes b) (Bucket.nodes b')) (buckets t) (buckets t').

Lemma table_ok_same t t' : same_table t t' -> table_ok t -> table_ok t'.
Proof.
  intros [Hid Hs] [[Hl Hw Hb Hp] H4]. pose proof (Forall2_length _ _ _ Hs) as Hlen. split.
  - split; [by rewrite <- Hlen|by rewrite Hid| |].
    + intros i b' Hb'. destruct (Forall2_lookup_r _ _ _ _ _ Hs Hb') as (b & Hb0 & Hbs). by apply (bucket_inv_same b), (Hb i).
    + intros i b' n' Hb' Hn' Hr. destruct (Forall2_lookup_r _ _ _ _ _ Hs Hb') as (b & Hb0 & Hbs).
      apply list_elem_of_lookup in Hn' as (j & Hj). destruct (Forall2_lookup_r _ _ _ _ _ Hbs Hj) as (n & Hn0 & E1 & E2 & E3).
      rewrite E1, Hid, <- Hlen. apply (Hp i b n Hb0); [by eapply list_elem_of_lookup_2|by rewrite <- E3].
  - unfold table_all in *. rewrite Forall_forall in *. intros b' Hb'. apply list_elem_of_lookup in Hb' as (i & Hb').
    destruct (Forall2_lookup_r _ _ _ _ _ Hs Hb') as (b & Hb0 & Hbs). specialize (H4 b ltac:(by eapply list_elem_of_lookup_2)).
    rewrite Forall_forall in *. intros n' Hn'. apply list_elem_of_lookup in Hn' as (j & Hj).
    destruct (Forall2_lookup_r _ _ _ _ _ Hbs Hj) as (n & Hn0 & _ & E2 & _). unfold v4_node. rewrite E2. apply H4. by eapply list_elem_of_lookup_2.
Qed.

Lemma same_entry_refl n : same_entry n n.
Proof. done. Qed.
Lemma local_request_same now n : same_entry n (local_request now n).
Proof. unfold local_request. by case_decide. Qed.
Lemma remote_request_same now n : same_entry n (remote_request now n).
Proof. done. Qed.

Lemma update_nodes_same now f node l : (forall n, same_entry n (f n)) -> Forall2 same_entry l (update_nodes now f node l).
Proof.
  intros Hf. unfold update_nodes. destruct (position _ l) as [i|]; [|apply Forall_Forall2_diag, Forall_true, same_entry_refl].
  apply Forall2_same_length_lookup. split; [by rewrite length_alter|]. intros j x y Hx Hy. destruct (decide (i = j)) as [->|Hne].
  - rewrite list_lookup_alter_eq, Hx in Hy. injection Hy as <-. apply Hf.
  - rewrite list_lookup_alter_ne in Hy by done. rewrite Hx in Hy. injection Hy as <-. apply same_entry_refl.
Qed.

Lemma same_table_refl t : same_table t t.
Proof. split; [done|]. apply Forall_Forall2_diag, Forall_true. intros b. apply Forall_Forall2_diag, Forall_true, same_entry_refl. Qed.

Lemma update_node_same now f node t : (forall n, same_entry n (f n)) -> same_table t (update_node now f node t).
Proof.
  intros Hf. split; [done|]. unfold update_node. cbn [buckets with_buckets]. apply Forall2_fmap_r. apply Forall_Forall2_diag, Forall_true.
  intros b. cbn. by apply update_nodes_same.
Qed.

Lemma Buckets_next_ok bs index : 1 <= length bs <= MAX_BUCKETS ->
  exists c, Buckets_next bs index = Ok (c, index + 1) /\ index <= MAX_BUCKETS \/ Buckets_next bs index = Ok (None, index).
Proof.
  intros Hl. unfold Buckets_next. case_decide; [exists None; by right|]. repeat case_decide.
  - exists None. left. split; [done|lia].
  - destruct (lookup_lt_is_Some_2 bs (length bs - 1)) as [b ->]; [lia|]. eexists. left. split; [done|lia].
  - destruct (lookup_lt_is_Some_2 bs index) as [b ->]; [lia|]. eexists. left. split; [done|lia].
  - eexists. left. split; [done|lia].
Qed.

Lemma Buckets_nth_ok bs n : 1 <= length bs <= MAX_BUCKETS -> forall index, exists c, Buckets_nth bs index n = Ok c.
Proof.
  intros Hl. induction n as [|n IH]; intros index; cbn [Buckets_nth]; destruct (Buckets_next_ok bs index Hl) as [[c|] [[-> _]| ->]];
    cbn [mbind outcome_bind]; eauto.
Qed.

Lemma Buckets_find_ok bs p : 1 <= length bs <= MAX_BUCKETS -> forall fuel index,
  MAX_BUCKETS + 2 <= fuel + index -> index <= MAX_BUCKETS + 1 -> exists c, Buckets_find fuel bs index p = Ok c.
Proof.
  intros Hl. induction fuel as [|fuel IH]; intros index Hf Hi; cbn [Buckets_find]; [lia|].
  destruct (Buckets_next_ok bs index Hl) as [[c|] [[-> Hx]| ->]]; cbn [mbind outcome_bind]; eauto. destruct (p c); [eauto|]. apply IH; lia.
Qed.

Lemma find_node_ok now t n : table_ok t -> exists r, find_node now t n = Ok r.
Proof.
  intros Ht. pose proof (ti_len _ (tok_inv _ Ht)) as Hl. unfold find_node.
  destruct (Buckets_nth_ok (buckets t) (leading_bit_count (rt_node_id t) (node_id n)) Hl 0) as [c ->]. cbn [mbind outcome_bind].
  assert (exists c', match c with Some c => Ok (Some c) | None => Buckets_find (MAX_BUCKETS + 2) (buckets t) 0 is_assorted end = Ok c') as [c' ->].
  { destruct c; [eauto|]. apply Buckets_find_ok; [done|lia|lia]. }
  cbn [mbind outcome_bind]. destruct c' as [[]|]; eauto.
Qed.

Lemma find_and_update_ok now f n t : (forall n, same_entry n (f n)) -> table_ok t ->
  exists t', find_and_update now f n t = Ok t' /\ table_ok t' /\ same_table t t'.
Proof.
  intros Hf Ht. unfold find_and_update. destruct (find_node_ok now t n Ht) as [[m|] ->]; cbn [mbind outcome_bind].
  - exists (update_node now f m t). split; [done|]. pose proof (update_node_same now f m t Hf) as Hs. split; [by apply (table_ok_same t)|done].
  - exists t. split; [done|]. split; [done|apply same_table_refl].
Qed.

Lemma closest_nodes_table now t id : table_ok t -> sha_wf id -> exists l, closest_nodes now t id = Ok l /\ Forall (fun n => sha_wf (node_id n) /\ v4_node n) l.
Proof.
  intros Ht Hid. destruct (closest_nodes_ok now t id (tok_inv _ Ht) Hid) as (l & Hl & Hp & _). exists l. split; [done|]. rewrite Hp.
  apply Forall_forall. intros n Hn. unfold all_pingable in Hn. apply list_elem_of_In, in_concat in Hn as (ns & Hns & Hn).
  apply list_elem_of_In, list_elem_of_fmap in Hns as (b & -> & Hb). apply list_elem_of_In, filter_elem in Hn as [Hg Hn].
  apply is_good_node_status in Hg. apply list_elem_of_lookup in Hb as (i & Hb). split.
  - apply (ti_placed _ (tok_inv _ Ht) i b n Hb Hn), (status_responded now), Hg.
  - apply (table_all_elem v4_node t); [apply Ht|]. by exists i, b.
Qed.
End tables.

(** ** Ids with one bit changed *)

Lemma flip_bit id i b : sha_wf id -> i < MAX_BUCKETS -> sha_hash id !! (i / 8) = Some b -> forall j, j < MAX_BUCKETS ->
  true_bit (<[i / 8 := as_u8 (Z.lxor (byte_val b) (Z.shiftl 1 (Z.of_nat (7 - i mod 8))))]> (sha_hash id)) j = xorb (true_bit (sha_hash id) j) (bool_decide (j = i)).
Proof.
  intros Hid Hi Hb j Hj. pose proof (lookup_lt_Some _ _ _ Hb) as Hlt. unfold true_bit. destruct (decide (j / 8 = i / 8)) as [E|E].
  - rewrite E, list_lookup_total_insert_eq by done. rewrite (list_lookup_total_correct _ _ _ Hb), byte_val_as_u8.
    pose proof (Nat.mod_upper_bound j 8). change 256%Z with (2 ^ 8)%Z. rewrite Z.mod_pow2_bits_low by lia. rewrite Z.lxor_spec. f_equal.
    rewrite Z.shiftl_spec by lia. case_bool_decide as Hij; [subst; by rewrite Z.sub_diag|].
    assert (j mod 8 <> i mod 8) by (pose proof (Nat.div_mod_eq j 8); pose proof (Nat.div_mod_eq i 8); lia).
    pose proof (Nat.mod_upper_bound i 8). destruct (decide (7 - j mod 8 < 7 - i mod 8)); [apply Z.testbit_neg_r; lia|].
    apply Z.bits_above_log2; [done|]. change (Z.log2 1) with 0%Z. lia.
  - rewrite list_lookup_total_insert_ne by done. rewrite bool_decide_eq_false_2 by (intros ->; done). by rewrite xorb_false_r.
Qed.

Lemma flip_ok id i : sha_wf id -> i < MAX_BUCKETS -> exists id', flip_id_bit_at_index id i = Ok id' /\ sha_wf id' /\ leading_bit_count id id' = i.
Proof.
  intros Hid Hi. unfold flip_id_bit_at_index. destruct (lookup_lt_is_Some_2 (sha_hash id) (i / 8)) as [b Hb].
  { rewrite Hid. apply Nat.Div0.div_lt_upper_bound. unfold MAX_BUCKETS in Hi. lia. }
  rewrite Hb. cbn [unwrap mbind outcome_bind]. eexists. split; [done|]. pose proof (flip_bit id i b Hid Hi Hb) as Hf.
  set (id' := mk_ShaHash _). assert (sha_wf id') as Hw by (unfold sha_wf, id'; cbn [sha_hash]; by rewrite length_insert). split; [done|].
  destruct (common_prefix_length id id' Hid Hw) as (n & Hn & Hle & Heq & Hne & _). unfold leading_bit_count. rewrite Hn.
  change (SHA_HASH_LEN * 8) with MAX_BUCKETS in *. destruct (lt_eq_lt_dec n i) as [[Hl| ->]|Hl]; [|done|].
  - exfalso. apply Hne; [lia|]. unfold id'. cbn [sha_hash]. rewrite Hf by lia. rewrite bool_decide_eq_false_2 by lia. by rewrite xorb_false_r.
  - specialize (Heq i Hl). unfold id' in Heq. cbn [sha_hash] in Heq. rewrite Hf, bool_decide_eq_true_2 in Heq by lia. by destruct (true_bit _ _).
Qed.

Lemma RoutingTable_new_ok `{Chrono} id : sha_wf id -> table_ok (RoutingTable_new id).
Proof.
  intros Hid. split; [by apply RoutingTable_new_inv|]. apply Forall_singleton, Forall_forall. intros n Hn%Bucket_new_default. subst. unfold v4_node. split; by vm_compute.
Qed.

(** The ids the worker asks for: flipping bit [i] of an id gives an id whose
    first bit that differs is bit [i], which belongs into bucket [i] of the
    routing table; past the last bit the code panics. *)
Theorem flip_targets_bucket (id : ShaHash) (i : nat) : sha_wf id ->
  (i < MAX_BUCKETS -> exists id', flip_id_bit_at_index id i = Ok id' /\ sha_wf id' /\ leading_bit_count id id' = i) /\
  (MAX_BUCKETS <= i -> flip_id_bit_at_index id i = Panic).
Proof.
  intros Hid. split; [by apply flip_ok|]. intros Hi. unfold flip_id_bit_at_index. rewrite lookup_ge_None_2; [done|]. rewrite Hid. apply Nat.div_le_lower_bound; [lia|].
  unfold MAX_BUCKETS in Hi. lia.
Qed.

Lemma flip_targets_bucket_witness : exists id', flip_id_bit_at_index (mk_ShaHash (replicate 20 x00)) 9 = Ok id' /\ leading_bit_count (mk_ShaHash (replicate 20 x00)) id' = 9.
Proof.
  destruct (flip_targets_bucket (mk_ShaHash (replicate 20 x00)) 9) as [H _]; [reflexivity|].
  destruct H as (id' & H1 & _ & H2); [unfold MAX_BUCKETS, SHA_HASH_LEN; lia|]. exists id'. split; assumption.
Defined.

(** * Calls of the DHT worker that come back

    The assertion that a call returns, its rules for the operations of the
    actions, and what the refresh and the bootstrap of the table guarantee: a
    call that goes on leaves a timeout behind that will call the action again. *)

(** ** A call returns *)

Definition wp {W E A} (m : stM W E A) (s : W) (Q : A -> W -> Prop) : Prop := exists a s', m s = (Ok a, s') /\ Q a s'.

Lemma wp_ret {W E A} (a : A) (s : W) Q : Q a s -> wp (E := E) (mret a) s Q.
Proof. intros H. by exists a, s. Qed.
Lemma wp_bind {W E A B} (m : stM W E A) (f : A -> stM W E B) s Q : wp m s (fun a s' => wp (f a) s' Q) -> wp (m ≫= f) s Q.
Proof. intros (a & s' & Hm & b & s'' & Hf & HQ). exists b, s''. split; [|done]. by rewrite (stM_bind_ok _ _ _ _ _ Hm). Qed.
Lemma wp_mono {W E A} (m : stM W E A) s (P Q : A -> W -> Prop) : wp m s P -> (forall a s', P a s' -> Q a s') -> wp m s Q.
Proof. intros (a & s' & Hm & HP) H. exists a, s'. auto. Qed.
Lemma wp_lift {W E A} (o : outcome E A) a (s : W) Q : o = Ok a -> Q a s -> wp (lift o) s Q.
Proof. intros -> H. by exists a, s. Qed.

(** ** Worlds *)

Section worlds.
Context {CH : Chrono} {IO : DhtIo} {IS : DhtIoSpec}.

Definition quiet (w w' : io_world) : Prop := (forall h, timers w' h = timers w h) /\ log w' = log w.
(** No timeout is lost. *)
Definition grows (w w' : io_world) : Prop :=
  (forall h task, timers w h = Some task -> timers w' h = Some task) /\ exists l, log w' = log w ++ l.

Lemma grows_refl w : grows w w.
Proof. split; [done|]. exists []. by rewrite app_nil_r. Qed.
Lemma grows_trans w1 w2 w3 : grows w1 w2 -> grows w2 w3 -> grows w1 w3.
Proof. intros [H1 [l1 E1]] [H2 [l2 E2]]. split; [eauto|]. exists (l1 ++ l2). by rewrite E2, E1, app_assoc. Qed.
Lemma quiet_grows w w' : quiet w w' -> grows w w'.
Proof. intros [H1 H2]. split; [intros h task; by rewrite H1|]. exists []. by rewrite H2, app_nil_r. Qed.
Lemma said_grows w w' l : (forall h, timers w' h = timers w h) -> log w' = log w ++ l -> grows w w'.
Proof. intros H1 H2. split; [intros h task; by rewrite H1|]. by exists l. Qed.

(** ** Calls of actions *)

Definition act_wp {A B} (m : actM A B) (a : A) (t : RoutingTable) (w : io_world) (Q : B -> A -> io_world -> Prop) : Prop :=
  wp m (a, (t, w)) (fun b s => table_ok s.2.1 /\ rt_node_id s.2.1 = rt_node_id t /\ grows w s.2.2 /\ Q b s.1 s.2.2).

Section rules.
Context {A : Type}.
Implicit Types (a : A) (t : RoutingTable) (w : io_world).

Lemma act_wp_ret {B} (b : B) a t w Q : table_ok t -> Q b a w -> act_wp (mret b) a t w Q.
Proof. intros Ht HQ. apply wp_ret. split_and!; try done. apply grows_refl. Qed.

Lemma act_wp_bind {B C} (m : actM A B) (f : B -> actM A C) a t w Q :
  act_wp m a t w (fun b a' w' => forall t', table_ok t' -> rt_node_id t' = rt_node_id t -> act_wp (f b) a' t' w' Q) -> act_wp (m ≫= f) a t w Q.
Proof.
  intros Hm. apply wp_bind. eapply wp_mono; [exact Hm|]. intros b [a' [t' w']] (Ht & Hi & Hg & Hf). cbn in *.
  eapply wp_mono; [exact (Hf t' Ht Hi)|]. intros c [a'' [t'' w'']] (Ht' & Hi' & Hg' & HQ). cbn in *.
  split; [done|]. split; [congruence|]. split; [by eapply grows_trans|done].
Qed.

Lemma act_wp_mono {B} (m : actM A B) a t w (P Q : B -> A -> io_world -> Prop) :
  act_wp m a t w P -> (forall b a' w', grows w w' -> P b a' w' -> Q b a' w') -> act_wp m a t w Q.
Proof. intros Hm H. eapply wp_mono; [exact Hm|]. intros b [a' [t' w']] (? & ? & ? & ?). split_and!; try done. by apply H. Qed.

Lemma act_wp_get a t w Q : table_ok t -> Q a a w -> act_wp get_self a t w Q.
Proof. intros Ht HQ. eexists _, _. split; [done|]. split_and!; try done. apply grows_refl. Qed.
Lemma act_wp_set a' a t w Q : table_ok t -> Q () a' w -> act_wp (set_self a') a t w Q.
Proof. intros Ht HQ. eexists _, _. split; [done|]. split_and!; try done. apply grows_refl. Qed.
Lemma act_wp_modify f a t w Q : table_ok t -> Q () (f a) w -> act_wp (modify f) a t w Q.
Proof. intros Ht HQ. apply act_wp_bind, act_wp_get; [done|]. intros t' Ht' _. by apply act_wp_set. Qed.
Lemma act_wp_table a t w (Q : RoutingTable -> A -> io_world -> Prop) : table_ok t -> Q t a w -> act_wp get_table a t w Q.
Proof. intros Ht HQ. eexists _, _. split; [done|]. split_and!; try done. apply grows_refl. Qed.
Lemma act_wp_lift {B} (o : outcome Empty_set B) b a t w Q : o = Ok b -> table_ok t -> Q b a w -> act_wp (lift o) a t w Q.
Proof. intros -> Ht HQ. by apply (act_wp_ret b). Qed.

Lemma act_wp_io {B} (f : io_world -> B * io_world) a t w Q :
  table_ok t -> grows w (f w).2 -> Q (f w).1 a (f w).2 -> act_wp (io f) a t w Q.
Proof. intros Ht Hg HQ. unfold act_wp, wp, io. destruct (f w) as [b w']. by eexists _, _. Qed.

Lemma act_wp_now a t w (Q : DateTime -> A -> io_world -> Prop) : table_ok t ->
  (forall now w', grows w w' -> is_Some (dt_checked_sub now (minutes MAX_LAST_SEEN_MINS)) -> Q now a w') -> act_wp (io utc_now) a t w Q.
Proof.
  intros Ht HQ. pose proof (utc_now_spec w) as Hs. destruct (utc_now w) as [now w'] eqn:E. destruct Hs as (H1 & H2 & H3).
  assert (grows w w') by (by apply quiet_grows). apply act_wp_io; [done|by rewrite E|]. rewrite E. by apply HQ.
Qed.

Lemma act_wp_send m a t w (Q : bool -> A -> io_world -> Prop) : table_ok t -> (forall ok w', grows w w' -> Q ok a w') -> act_wp (io (out_send m)) a t w Q.
Proof.
  intros Ht HQ. pose proof (out_send_spec m w) as Hs. destruct (out_send m w) as [ok w'] eqn:E. destruct Hs as [H1 H2].
  assert (grows w w') by (by eapply said_grows). apply act_wp_io; [done|by rewrite E|]. rewrite E. by apply HQ.
Qed.

Lemma act_wp_timeout d delay a t w (Q : option io_timeout -> A -> io_world -> Prop) : table_ok t ->
  (forall h w', grows w w' -> timers w' h = Some d.2 -> Q (Some h) a w') -> (forall w', grows w w' -> Q None a w') ->
  act_wp (io (timeout_ms d delay)) a t w Q.
Proof.
  intros Ht HS HN. pose proof (timeout_ms_spec d delay w) as Hs. destruct (timeout_ms d delay w) as [[h|] w'] eqn:E.
  - destruct Hs as (Hf & Hh & Hl). assert (grows w w').
    { split; [|exists []; by rewrite Hl, app_nil_r]. intros h' task Ht'. rewrite Hh. case_decide; congruence. }
    apply act_wp_io; [done|by rewrite E|]. rewrite E. apply HS; [done|]. rewrite Hh. by rewrite decide_True.
  - assert (grows w w') by (by apply quiet_grows). apply act_wp_io; [done|by rewrite E|]. rewrite E. by apply HN.
Qed.

Lemma act_wp_gen id get set a t w Q : table_ok t -> gen_ok id (get a) ->
  (forall tid g w', gen_ok id g -> id_of id tid -> grows w w' -> Q tid (set g a) w') -> act_wp (gen_with get set) a t w Q.
Proof.
  intros Ht Hg HQ. apply act_wp_bind, act_wp_get; [done|]. intros t1 Ht1 _. apply act_wp_bind.
  pose proof (rand_indices_spec w) as Hs. apply act_wp_io; [done|..]; unfold generate_id; destruct (rand_indices w) as [rand w'];
    assert (grows w w') by (by apply quiet_grows); [done|]. intros t2 Ht2 _.
  destruct (gen_ok_step id (get a) rand Hg) as (tid & g' & He & Hg' & Hid).
  apply act_wp_bind. eapply act_wp_lift; [exact He|done|]. intros t3 Ht3 _. cbn. apply act_wp_bind, act_wp_set; [done|]. intros t4 Ht4 _.
  apply act_wp_ret; [done|]. by apply HQ.
Qed.

Lemma act_wp_mark n a t w (Q : () -> A -> io_world -> Prop) : table_ok t -> (forall w', grows w w' -> Q () a w') -> act_wp (mark_requested n) a t w Q.
Proof.
  intros Ht HQ. apply act_wp_bind, act_wp_now; [done|]. intros now w' Hg _ t1 Ht1 _. apply act_wp_bind, act_wp_table; [done|]. intros t2 Ht2 Hi2.
  eexists _, _. split; [done|]. cbn. split; [|split; [done|split; [apply grows_refl|by apply HQ]]].
  eapply table_ok_same, Ht1. apply update_node_same. intros m. apply local_request_same.
Qed.

Lemma act_wp_find_mark n a t w (Q : () -> A -> io_world -> Prop) : table_ok t -> (forall w', grows w w' -> Q () a w') ->
  act_wp (find_and_mark local_request n) a t w Q.
Proof.
  intros Ht HQ. apply act_wp_bind, act_wp_now; [done|]. intros now w' Hg _ t1 Ht1 Hi1. apply act_wp_bind, act_wp_table; [done|]. intros t2 Ht2 Hi2.
  destruct (find_and_update_ok now (local_request now) n t1 ltac:(intros m; apply local_request_same) Ht1) as (t3 & He & Ht3 & Hi3 & _).
  apply act_wp_bind. eapply act_wp_lift; [exact He|done|]. intros t4 Ht4 Hi4. eexists _, _. split; [done|]. cbn. split; [done|].
  split; [congruence|]. split; [apply grows_refl|by apply HQ].
Qed.

(** [I r k] holds after [k] rounds; [r] is what the loop returned with. *)
Lemma act_wp_for {X R} (I : option R -> nat -> A -> io_world -> Prop) (body : X -> actM A (option R)) l : forall k a t w,
  table_ok t -> I None k a w ->
  (forall x k a t' w, x ∈ l -> table_ok t' -> rt_node_id t' = rt_node_id t -> I None k a w -> act_wp (body x) a t' w (fun r a' w' => I r (k + 1) a' w')) ->
  act_wp (for_each l body) a t w (fun r a' w' => match r with None => I None (k + length l) a' w' | Some _ => exists j, I r j a' w' end).
Proof.
  induction l as [|x l IH]; intros k a t w Ht HI Hb; cbn [for_each].
  - apply act_wp_ret; [done|]. by rewrite Nat.add_0_r.
  - apply act_wp_bind. eapply act_wp_mono; [apply (Hb x k); [left|done|done|done]|]. intros [r|] a' w' Hg HI'; cbn beta; intros t' Ht' Hi'.
    + apply act_wp_ret; [done|]. eauto.
    + eapply act_wp_mono; [apply (IH (k + 1)); [done|done|]|].
      * intros y j b t2 w2 Hy Ht2 Hi2. apply Hb; [by right|done|congruence].
      * intros [r|] a2 w2 _ H2; [done|]. cbn [length]. by replace (k + S (length l)) with (k + 1 + length l) by lia.
Qed.
End rules.

(** *** Calls that may take back a timeout of their own action *)

Definition task_action (task : ScheduledTask) : ActionID :=
  match task with CheckTableRefresh t | CheckBootstrapTimeout t | CheckLookupTimeout t | CheckLookupEndGame t => TransactionID_action_id t end.

(** No timeout of another action is lost. *)
Definition frame (id : ActionID) (w w' : io_world) : Prop :=
  (forall h task, timers w h = Some task -> task_action task <> id -> timers w' h = Some task) /\ exists l, log w' = log w ++ l.

Lemma grows_frame id w w' : grows w w' -> frame id w w'.
Proof. intros [H1 H2]. split; [auto|done]. Qed.
Lemma frame_trans id w1 w2 w3 : frame id w1 w2 -> frame id w2 w3 -> frame id w1 w3.
Proof. intros [H1 [l1 E1]] [H2 [l2 E2]]. split; [eauto|]. exists (l1 ++ l2). by rewrite E2, E1, app_assoc. Qed.

Definition act_fr {A B} (id : ActionID) (m : actM A B) (a : A) (t : RoutingTable) (w : io_world) (Q : B -> A -> io_world -> Prop) : Prop :=
  wp m (a, (t, w)) (fun b s => table_ok s.2.1 /\ rt_node_id s.2.1 = rt_node_id t /\ frame id w s.2.2 /\ Q b s.1 s.2.2).

Lemma act_fr_of {A B} id (m : actM A B) a t w Q : act_wp m a t w Q -> act_fr id m a t w Q.
Proof. intros Hm. eapply wp_mono; [exact Hm|]. intros b s (? & ? & Hg & ?). split_and!; try done. by apply grows_frame. Qed.

Lemma act_fr_bind {A B C} id (m : actM A B) (f : B -> actM A C) a t w Q :
  act_fr id m a t w (fun b a' w' => forall t', table_ok t' -> rt_node_id t' = rt_node_id t -> act_fr id (f b) a' t' w' Q) -> act_fr id (m ≫= f) a t w Q.
Proof.
  intros Hm. apply wp_bind. eapply wp_mono; [exact Hm|]. intros b [a' [t' w']] (Ht & Hi & Hg & Hf). cbn in *.
  eapply wp_mono; [exact (Hf t' Ht Hi)|]. intros c [a'' [t'' w'']] (Ht' & Hi' & Hg' & HQ). cbn in *.
  split; [done|]. split; [congruence|]. split; [by eapply frame_trans|done].
Qed.

Lemma act_fr_clear {A} id h task (a : A) t w (Q : () -> A -> io_world -> Prop) : table_ok t -> timers w h = Some task -> task_action task = id ->
  (forall w', frame id w w' -> (forall h', h' <> h -> timers w' h' = timers w h') -> Q () a w') -> act_fr id (io_ (clear_timeout h)) a t w Q.
Proof.
  intros Ht Hh Hid HQ. destruct (clear_timeout_spec h w) as [H1 H2]. set (w' := clear_timeout h w) in *.
  assert (frame id w w') as Hf.
  { split; [|exists []; by rewrite H2, app_nil_r]. intros h' task' Hh' Hne. rewrite H1. case_decide; [subst; congruence|done]. }
  eexists _, _. split; [done|]. cbn. split_and!; try done. apply HQ; [done|]. intros h' Hne. rewrite H1. by rewrite decide_False.
Qed.
End worlds.

(** A pure call in an action. *)
Ltac act_lift H := apply act_wp_bind; eapply act_wp_lift; [exact H|done|intros ? ? _].

(** ** The refresh of the table *)

Section actions.
Context {CH : Chrono} {IO : DhtIo} {IS : DhtIoSpec} {BO : BenOps}.

Definition refresh_ok (id : ActionID) (r : TableRefresh) : Prop := gen_ok id (rf_id_generator r) /\ curr_refresh_bucket r <= MAX_BUCKETS.
(** A timeout will call the refresh again. *)
Definition refresh_live (id : ActionID) (w : io_world) : Prop := exists h t, timers w h = Some (CheckTableRefresh t) /\ TransactionID_action_id t = id.

Lemma refresh_bucket_step id r t w Q : table_ok t -> refresh_ok id r -> (forall r' , refresh_ok id r' -> curr_refresh_bucket r' < MAX_BUCKETS -> Q () r' w) ->
  act_wp (if decide (curr_refresh_bucket r = MAX_BUCKETS) then set_refresh_bucket 0 else mret ()) r t w Q.
Proof.
  intros Ht [Hg Hc] HQ. case_decide as E.
  - apply act_wp_bind, act_wp_get; [done|]. intros t1 Ht1 _. apply act_wp_set; [done|]. apply HQ; [|by vm_compute; lia]. split; [done|]. cbn. lia.
  - apply act_wp_ret; [done|]. apply HQ; [by split|lia].
Qed.

Lemma refresh_generate_step id r t w Q : table_ok t -> refresh_ok id r ->
  (forall tid r' w', refresh_ok id r' -> curr_refresh_bucket r' = curr_refresh_bucket r -> id_of id tid -> grows w w' -> Q tid r' w') -> act_wp refresh_generate r t w Q.
Proof. intros Ht [Hg Hc] HQ. apply (act_wp_gen id); [done|done|]. intros tid g w' Hg' Hid Hw. by apply HQ. Qed.

Lemma continue_refresh_spec id r t w : table_ok t -> refresh_ok id r ->
  act_wp continue_refresh r t w (fun st r' w' => refresh_ok id r' /\ (st = Refreshing -> refresh_live id w')).
Proof.
  intros Ht Hr. unfold continue_refresh. apply act_wp_bind, act_wp_get; [done|]. intros ? ? _.
  apply act_wp_bind. apply (refresh_bucket_step id); [done|done|]. intros r' Hr' Hc ? ? _. clear r Hr.
  apply act_wp_bind, act_wp_get; [done|]. intros t1 Ht1 _. apply act_wp_bind, act_wp_table; [done|]. intros ? ? _.
  destruct (flip_ok (rt_node_id t1) _ (ti_id _ (tok_inv _ Ht1)) Hc) as (target & Hflip & Hw & _). act_lift Hflip.
  apply act_wp_bind, act_wp_now; [done|]. intros now w1 _ _ ? ? _. destruct (closest_nodes_table now t1 target Ht1 Hw) as (l & Hl & _). act_lift Hl.
  apply act_wp_bind. eapply act_wp_mono.
  { apply (act_wp_for (fun st _ r _ => refresh_ok id r /\ curr_refresh_bucket r < MAX_BUCKETS /\ st <> Some Refreshing)) with (k := 0); [done|done|].
    clear r' Hr' Hc Hflip w1. intros n k r ? w1 _ ? _ (Hr & Hc & _). apply act_wp_bind, (refresh_generate_step id); [done|done|].
    intros tid r' w2 Hr' Hc' Hid _ ? ? _. rewrite <- Hc' in Hc. apply act_wp_bind, act_wp_send; [done|]. intros [] w3 _ ? ? _; [|by apply act_wp_ret].
    apply act_wp_bind, act_wp_mark; [done|]. intros w4 _ ? ? _. by apply act_wp_ret. }
  clear r' Hr' Hc Hflip. intros failed r w2 _ HI ? ? _.
  destruct failed as [st|]; [destruct HI as (_ & Hr & _ & Hst); apply act_wp_ret; [done|]; split; congruence|]. destruct HI as (Hr & Hc & _).
  apply act_wp_bind, (refresh_generate_step id); [done|done|]. intros tid r' w3 Hr' Hc' [Hid _] _ ? ? _. rewrite <- Hc' in Hc.
  apply act_wp_bind, act_wp_timeout; [done|..].
  - intros h w4 _ Hh ? ? _. apply act_wp_bind, act_wp_get; [done|]. intros ? ? _. apply act_wp_bind. apply act_wp_bind, act_wp_get; [done|]. intros ? ? _.
    apply act_wp_set; [done|]. intros ? ? _. apply act_wp_ret; [done|]. split; [|intros _; by exists h, tid]. split; [apply Hr'|]. cbn [curr_refresh_bucket]. lia.
  - intros w4 _ ? ? _. by apply act_wp_ret.
Qed.

(** ** The bootstrap *)

Definition boot_ok (id : ActionID) (b : TableBootstrap) : Prop := gen_ok id (bs_id_generator b) /\ sha_wf (bs_table_id b).
(** Every message that is waited for has its timeout, [but] aside. *)
Definition boot_timers (id : ActionID) (but : TransactionID -> Prop) (b : TableBootstrap) (w : io_world) : Prop :=
  forall tid h, active_messages b !! tid = Some h -> ~ but tid -> timers w h = Some (CheckBootstrapTimeout tid) /\ TransactionID_action_id tid = id.
Definition nothing : TransactionID -> Prop := fun _ => False.
Definition boot_live (id : ActionID) (b : TableBootstrap) (w : io_world) : Prop :=
  curr_bootstrap_bucket b < MAX_BUCKETS /\ active_messages b <> ∅ /\ boot_timers id nothing b w.
Definition boot_post (id : ActionID) (st : BootstrapStatus) (b : TableBootstrap) (w : io_world) : Prop :=
  boot_ok id b /\ match st with Bootstrapping => boot_live id b w | Idle => False | BsCompleted | BsFailed => True end.

Lemma boot_timers_grow id but b w w' : grows w w' -> boot_timers id but b w -> boot_timers id but b w'.
Proof. intros [Hg _] Hb tid h Ht Hn. destruct (Hb tid h Ht Hn) as [H1 H2]. auto. Qed.

Lemma boot_timers_insert id but b w tid h : boot_timers id but b w -> timers w h = Some (CheckBootstrapTimeout tid) -> TransactionID_action_id tid = id ->
  boot_timers id but (set_active (<[tid := h]> (active_messages b)) b) w.
Proof.
  intros Hb Hh Hid tid' h'. cbn [active_messages set_active]. intros [[<- <-]|[_ Ht]]%lookup_insert_Some Hn; [done|]. by apply Hb.
Qed.

Lemma boot_status id b w : boot_ok id b -> boot_live id b w -> boot_post id (current_bootstrap_status b) b w.
Proof. intros Hb (Hc & Ha & Ht). unfold current_bootstrap_status. rewrite decide_False by (intros [?|?]; [lia|done]). by split. Qed.

Lemma boot_generate_step id b t w Q : table_ok t -> boot_ok id b ->
  (forall tid b' w', boot_ok id b' -> active_messages b' = active_messages b -> curr_bootstrap_bucket b' = curr_bootstrap_bucket b -> id_of id tid -> grows w w' -> Q tid b' w') ->
  act_wp bootstrap_generate b t w Q.
Proof. intros Ht [Hg Hc] HQ. apply (act_wp_gen id); [done|done|]. intros tid g w' Hg' Hid Hw. by apply HQ. Qed.

Lemma start_bootstrap_spec id b t w : table_ok t -> boot_ok id b ->
  act_wp start_bootstrap b t w (fun st b' w' => boot_post id st b' w' /\ st <> BsCompleted).
Proof.
  intros Ht Hb. unfold start_bootstrap. apply act_wp_bind, act_wp_modify; [done|]. intros ? ? _. apply act_wp_bind, act_wp_modify; [done|]. intros ? ? _.
  apply act_wp_bind, (boot_generate_step id); [done|exact Hb|]. clear Hb. intros tid b' w1 Hb Ha Hc [Hid _] _ ? ? _. cbn in Ha, Hc.
  apply act_wp_bind, act_wp_timeout; [done|..]; [|intros; by apply act_wp_ret]. intros h w2 _ Hh ? ? _. apply act_wp_bind, act_wp_modify; [done|]. intros ? ? _.
  set (b2 := set_active _ b'). assert (boot_ok id b2 /\ boot_live id b2 w2) as [Hb2 Hl2].
  { split; [exact Hb|]. split; [cbn; rewrite Hc; vm_compute; lia|]. split; [apply insert_non_empty|].
    apply boot_timers_insert; [|done|done]. intros tid' h'. by rewrite Ha, lookup_empty. }
  apply act_wp_bind, act_wp_get; [done|]. intros ? ? _. apply act_wp_bind. eapply act_wp_mono.
  { apply (act_wp_for (fun st _ b w => boot_ok id b /\ boot_live id b w /\ (st = None \/ st = Some BsFailed))) with (k := 0); [done|by auto|].
    intros addr k b3 ? w3 _ ? _ (Hb3 & (Hc3 & Ha3 & Hl3) & _). apply act_wp_bind, act_wp_send; [done|]. intros ok w4 Hg ? ? _.
    apply act_wp_ret; [done|]. split; [done|]. split; [|destruct ok; auto]. split; [done|]. split; [done|]. by eapply boot_timers_grow. }
  intros [st|] b3 w3 _; [intros (_ & Hb3 & _ & [?|[= ->]]); [done|]|intros (Hb3 & Hl3 & _)]; intros ? ? _; [by apply act_wp_ret|].
  apply act_wp_bind, act_wp_get; [done|]. intros ? ? _. apply act_wp_ret; [done|]. split; [by apply boot_status|]. unfold current_bootstrap_status. by case_decide.
Qed.

Lemma send_bootstrap_spec id next nodes target b t w : table_ok t -> boot_ok id b -> boot_timers id nothing b w -> curr_bootstrap_bucket b < MAX_BUCKETS ->
  (forall b' t' w', table_ok t' -> boot_ok id b' -> boot_timers id nothing b' w' -> curr_bootstrap_bucket b' = S (curr_bootstrap_bucket b) -> curr_bootstrap_bucket b' < MAX_BUCKETS ->
    act_wp next b' t' w' (boot_post id)) ->
  act_wp (send_bootstrap_requests next nodes target) b t w (boot_post id).
Proof.
  intros Ht Hb Hm Hc Hnext. unfold send_bootstrap_requests. apply act_wp_bind. eapply act_wp_mono.
  { apply (act_wp_for (fun st k b' w => boot_ok id b' /\ (0 < k -> st = None -> active_messages b' <> ∅) /\ boot_timers id nothing b' w /\
      curr_bootstrap_bucket b' = curr_bootstrap_bucket b /\ (st = None \/ st = Some BsFailed))) with (k := 0); [done|split_and!; try done; [lia|by left]|].
    clear Hb Hm. intros node k b0 ? w1 _ ? _ (Hb & _ & Hm & Hc' & _).
    apply act_wp_bind, (boot_generate_step id); [done|exact Hb|]. intros tid b1 w2 Hb1 Ha1 Hc1 [Hid _] Hg ? ? _.
    assert (boot_timers id nothing b1 w2) as Hm1 by (intros tid' h'; rewrite Ha1; by apply (boot_timers_grow _ _ _ _ _ Hg Hm)).
    apply act_wp_bind, act_wp_get; [done|]. intros ? ? _. apply act_wp_bind, act_wp_timeout; [done|..].
    - intros h w3 Hg3 Hh ? ? _. apply (boot_timers_grow _ _ _ _ _ Hg3) in Hm1. apply act_wp_bind, act_wp_send; [done|]. intros [] w4 Hg4 ? ? _.
      + apply act_wp_bind, act_wp_mark; [done|]. intros w5 Hg5 ? ? _. apply act_wp_bind, act_wp_modify; [done|]. intros ? ? _. apply act_wp_ret; [done|].
        assert (grows w3 w5) as Hg35 by (by eapply grows_trans). split; [exact Hb1|]. split; [intros _ _; apply insert_non_empty|].
        split; [|split; [cbn; congruence|by left]]. apply boot_timers_insert; [by eapply boot_timers_grow|by apply Hg35|done].
      + apply act_wp_ret; [done|]. split; [done|]. split; [done|]. split; [by eapply boot_timers_grow|]. split; [congruence|by right].
    - intros w3 Hg3 ? ? _. apply act_wp_ret; [done|]. split; [done|]. split; [done|]. split; [by eapply boot_timers_grow|]. split; [congruence|by right]. }
  intros [st|] b1 w1 _; [intros (_ & Hb1 & _ & _ & _ & [?|[= ->]]); [done|]|intros (Hb1 & Ha1 & Hm1 & Hc1 & _)]; intros ? ? _; [by apply act_wp_ret|].
  apply act_wp_bind, act_wp_modify; [done|]. intros ? ? _. apply act_wp_bind, act_wp_get; [done|]. intros ? ? _. cbn [curr_bootstrap_bucket set_bootstrap_bucket].
  case_decide as Hd; [by apply act_wp_ret|]. case_decide as Hs.
  - apply Hnext; [done|exact Hb1|exact Hm1|cbn [curr_bootstrap_bucket set_bootstrap_bucket]; lia|cbn [curr_bootstrap_bucket set_bootstrap_bucket]; lia].
  - apply act_wp_ret; [done|]. split; [exact Hb1|]. split; [cbn [curr_bootstrap_bucket set_bootstrap_bucket]; lia|]. split; [apply Ha1; [lia|done]|exact Hm1].
Qed.

Lemma next_bucket_spec id fuel : forall b t w, table_ok t -> boot_ok id b -> boot_timers id nothing b w ->
  curr_bootstrap_bucket b < MAX_BUCKETS -> MAX_BUCKETS < fuel + curr_bootstrap_bucket b ->
  act_wp (bootstrap_next_bucket fuel) b t w (boot_post id).
Proof.
  induction fuel as [|fuel IH]; intros b t w Ht Hb Hm Hc Hf; [lia|]. cbn [bootstrap_next_bucket].
  apply act_wp_bind, act_wp_get; [done|]. intros t1 Ht1 _. apply act_wp_bind, act_wp_table; [done|]. intros ? ? _.
  destruct (flip_ok _ _ (proj2 Hb) Hc) as (target & Hflip & Hw & _). act_lift Hflip. apply act_wp_bind, act_wp_now; [done|]. intros now w1 Hg _ ? ? _.
  apply (boot_timers_grow _ _ _ _ _ Hg) in Hm.
  assert (forall nodes t, table_ok t -> act_wp (send_bootstrap_requests (bootstrap_next_bucket fuel) nodes target) b t w1 (boot_post id)) as Hsend.
  { intros nodes t2 Ht2. apply send_bootstrap_spec; [done..|]. intros b' t5 w' Ht5 Hb' Hm' Hc' Hlt. apply IH; [done..|lia]. }
  case_decide.
  - destruct (closest_nodes_table now t1 target Ht1 Hw) as (l & Hl & _). act_lift Hl. by apply Hsend.
  - pose proof (fun n => Buckets_nth_ok (buckets t1) n (ti_len _ (tok_inv _ Ht1)) 0) as Hn.
    destruct (Hn (curr_bootstrap_bucket b - 2)) as [c1 Hb1]. act_lift Hb1. destruct (Hn (curr_bootstrap_bucket b - 2 + 1)) as [c2 Hb2]. act_lift Hb2.
    destruct (Hn (curr_bootstrap_bucket b - 2 + 2)) as [c3 Hb3]. act_lift Hb3. by apply Hsend.
Qed.

(** What follows when a message is no longer waited for. *)
Lemma next_if_idle_spec id b t w : table_ok t -> boot_ok id b -> boot_timers id nothing b w -> curr_bootstrap_bucket b < MAX_BUCKETS ->
  act_wp next_if_idle b t w (boot_post id).
Proof.
  intros Ht Hb Hm Hc. apply act_wp_bind, act_wp_get; [done|]. intros ? ? _. case_decide as He.
  - apply next_bucket_spec; [done..|]. unfold bootstrap_fuel. lia.
  - apply act_wp_ret; [done|]. by apply boot_status.
Qed.

Lemma Bootstrap_response_spec id tid b t w : table_ok t -> boot_ok id b -> boot_live id b w -> act_fr id (Bootstrap_recv_response tid) b t w (boot_post id).
Proof.
  intros Ht Hb (Hc & Ha & Hm). unfold Bootstrap_recv_response. apply act_fr_bind, act_fr_of, act_wp_get; [done|]. intros ? ? _.
  destruct (active_messages b !! tid) as [h|] eqn:Hh; [|by apply act_fr_of, act_wp_ret, boot_status].
  destruct (Hm tid h Hh ltac:(by intros [])) as [Htm Hid]. apply act_fr_bind. case_decide as Hcb.
  - apply act_fr_bind, (act_fr_clear id h (CheckBootstrapTimeout tid)); [done|done|done|]. intros w1 Hf Hk ? ? _. apply act_fr_of, act_wp_modify; [done|]. intros ? ? _.
    apply act_fr_of, next_if_idle_spec; [done|exact Hb| |done]. intros tid' h'. cbn [active_messages set_active]. intros [Hne Hh']%lookup_delete_Some Hn.
    destruct (Hm tid' h' Hh' Hn) as [Ht1 Ht2]. split; [|done]. rewrite Hk; [done|]. intros ->. congruence.
  - apply act_fr_of, act_wp_ret; [done|]. intros ? ? _. by apply act_fr_of, next_if_idle_spec.
Qed.

Lemma Bootstrap_timeout_spec id tid b t w : table_ok t -> boot_ok id b -> curr_bootstrap_bucket b < MAX_BUCKETS -> active_messages b <> ∅ ->
  boot_timers id (eq tid) b w -> act_wp (Bootstrap_recv_timeout tid) b t w (boot_post id).
Proof.
  intros Ht Hb Hc Ha Hm. unfold Bootstrap_recv_timeout. apply act_wp_bind, act_wp_get; [done|]. intros ? ? _.
  destruct (active_messages b !! tid) as [h|] eqn:Hh.
  - apply act_wp_bind, act_wp_modify; [done|]. intros ? ? _. apply next_if_idle_spec; [done|exact Hb| |done]. intros tid' h'. cbn [active_messages set_active].
    intros [Hne Hh']%lookup_delete_Some _. by apply Hm.
  - apply act_wp_ret; [done|]. apply boot_status; [done|]. split; [done|]. split; [done|]. intros tid' h' Hh' _. apply Hm; [done|]. intros ->. congruence.
Qed.
End actions.
