(* ===== verification/DhtLookupProofs.v ===== *)
(** * The search for peers: order, termination, timeouts

    The list of all nodes of a search stays sorted by distance, every call of a
    search comes back, and a search that goes on leaves a timeout behind that
    will call it again. *)

From stdpp Require Import prelude list gmap strings sorting.
From Stdlib Require Import ZArith Lia Strings.Byte.
From S2P Require Import Prelude Bytes Bencode Convert Sha Trans Node Bucket Table TableProofs Closest Transaction Compact DhtMessage DhtMessageProofs DhtBootstrap DhtLookup DhtSpec.

(** ** Binary search *)

Section search.
Context {A : Type} (R : A -> A -> Prop) (f : A -> comparison).
Context (Hlt : forall x y, R x y -> f y = Lt -> f x = Lt) (Hgt : forall x y, R x y -> f x = Gt -> f y = Gt).

(** Where an element was found, or between the smaller and the greater ones. *)
Definition search_ok (s : list A) (base : nat) (r : search_result) : Prop :=
  match r with
  | Found i => exists j x, i = base + j /\ s !! j = Some x /\ f x = Eq
  | InsertAt i => exists j, i = base + j /\ j <= length s /\
      (StronglySorted R s -> Forall (fun x => f x = Lt) (take j s) /\ Forall (fun x => f x = Gt) (drop j s))
  end.

Lemma binary_search_spec fuel : forall s base, length s < fuel -> exists r, binary_search_by fuel f base s = Ok r /\ search_ok s base r.
Proof using Hlt Hgt.
  induction fuel as [|fuel IH]; intros s base Hf; [lia|]. cbn [binary_search_by]. set (half := length s / 2).
  destruct (drop half s) as [|x tail] eqn:Hd.
  - assert (length s = 0) as Hl.
    { apply (f_equal length) in Hd. rewrite length_drop in Hd. cbn [length] in Hd. destruct (decide (length s = 0)); [done|].
      assert (half < length s) by (apply Nat.div_lt; lia). lia. }
    eexists. split; [done|]. exists 0. split; [lia|]. split; [lia|]. destruct s; [|done]. intros _. split; constructor.
  - assert (length s <> 0) as Hne by (intros E; destruct s; [by rewrite drop_nil in Hd|done]).
    assert (half < length s) as Hhalf by (apply Nat.div_lt; lia).
    assert (s = take half s ++ x :: tail) as Hs by (by rewrite <- Hd, take_drop).
    assert (length (take half s) = half) as Hlh by (rewrite length_take; lia).
    assert (length s = half + S (length tail)) as Hlen by (rewrite Hs at 1; rewrite length_app, Hlh; done).
    destruct (f x) eqn:Hx.
    + eexists. split; [done|]. exists half, x. split; [done|]. split; [|done]. rewrite Hs, lookup_app_r by lia. by rewrite Hlh, Nat.sub_diag.
    + destruct (IH tail (base + half + 1)) as (r & Hr & Hok); [lia|]. exists r. split; [done|]. destruct r as [i|i].
      * destruct Hok as (j & y & -> & Hj & Hy). exists (half + 1 + j), y. split; [lia|]. split; [|done].
        rewrite Hs, lookup_app_r by lia. rewrite Hlh. by replace (half + 1 + j - half) with (S j) by lia.
      * destruct Hok as (j & -> & Hj & Hsort). exists (half + 1 + j). split; [lia|]. split; [lia|]. intros Hss. rewrite Hs in Hss.
        apply StronglySorted_app in Hss as (H1 & _ & H2). apply StronglySorted_cons in H2 as [H2 H3]. destruct (Hsort H3) as [Ht Hg].
        rewrite Hs, take_app, drop_app, Hlh. replace (half + 1 + j - half) with (S j) by lia. rewrite (take_ge (take half s)), (drop_ge (take half s)) by lia.
        cbn [take drop app]. split; [|done]. apply Forall_app. split; [|by constructor].
        apply Forall_forall. intros y Hy. apply (Hlt y x); [|done]. apply H1; [done|left].
    + destruct (IH (take half s) base) as (r & Hr & Hok); [lia|]. exists r. split; [done|]. destruct r as [i|i].
      * destruct Hok as (j & y & -> & Hj & Hy). exists j, y. split; [done|]. split; [|done]. by apply lookup_take_Some in Hj as [Hj _].
      * destruct Hok as (j & -> & Hj & Hsort). exists j. split; [done|]. split; [lia|]. intros Hss. rewrite Hs in Hss.
        apply StronglySorted_app in Hss as (H1 & H0 & H2). apply StronglySorted_cons in H2 as [H2 H3]. destruct (Hsort H0) as [Ht Hg].
        rewrite Hs, take_app, drop_app, Hlh. replace (j - half) with 0 by lia. cbn [take drop app]. rewrite app_nil_r. split; [done|]. apply Forall_app. split; [done|].
        constructor; [done|]. apply (Forall_impl _ _ _ H2). intros y Hy. by apply (Hgt x y).
Qed.
End search.

(** ** The sorted list *)

Section sorted.
Context {CH : Chrono}.

Definition nearer (a b : SortedNode) : Prop := sha_cmp (sn_dist b) (sn_dist a) <> Lt.
Definition sorted_ok (target : ShaHash) (l : list SortedNode) : Prop :=
  StronglySorted nearer l /\ Forall (fun s => sn_dist s = bitxor target (node_id (sn_node s))) l.

Lemma sha_cmp_lt_trans a b c : sha_cmp b a <> Lt -> sha_cmp b c = Lt -> sha_cmp a c = Lt.
Proof.
  unfold sha_cmp. intros H1 H2. destruct (bytes_trichotomy (sha_hash a) (sha_hash b)) as [H|[E|H]]; [by eapply bytes_lt_trans|by rewrite E|done].
Qed.
Lemma sha_cmp_gt a b : sha_cmp a b = Gt <-> sha_cmp b a = Lt.
Proof. unfold sha_cmp. rewrite (bytes_cmp_antisym (sha_hash a)). by destruct (bytes_cmp (sha_hash a) (sha_hash b)). Qed.
Lemma sha_cmp_gt_trans a b c : sha_cmp b a <> Lt -> sha_cmp a c = Gt -> sha_cmp b c = Gt.
Proof.
  rewrite !sha_cmp_gt. unfold sha_cmp. intros H1 H2. destruct (bytes_trichotomy (sha_hash a) (sha_hash b)) as [H|[E|H]]; [by eapply bytes_lt_trans|by rewrite <- E|done].
Qed.
Lemma sha_cmp_eq a b : sha_cmp a b = Eq <-> a = b.
Proof. unfold sha_cmp. rewrite bytes_cmp_eq. destruct a, b; cbn. split; [by intros ->|by intros [= ->]]. Qed.
Lemma nearer_refl a : nearer a a.
Proof. unfold nearer. intros H. pose proof (proj2 (sha_cmp_eq (sn_dist a) (sn_dist a)) eq_refl). congruence. Qed.

Lemma vec_insert_spec {A} (R : A -> A -> Prop) i x l : i <= length l ->
  vec_insert i x l = Ok (take i l ++ x :: drop i l) /\
  (StronglySorted R l -> (forall y, y ∈ take i l -> R y x) -> (forall y, y ∈ drop i l -> R x y) -> StronglySorted R (take i l ++ x :: drop i l)).
Proof.
  intros Hi. unfold vec_insert. rewrite decide_True by done. split; [done|]. intros Hs H1 H2. rewrite <- (take_drop i l) in Hs.
  apply StronglySorted_app in Hs as (H3 & H4 & H5). apply StronglySorted_app. split; [|split; [done|]].
  - intros y z Hy [->|Hz]%elem_of_cons; auto.
  - apply StronglySorted_cons. split; [|done]. by apply Forall_forall.
Qed.

Lemma insert_sorted_spec target n pinged l : sorted_ok target l ->
  exists l', insert_sorted_node l target n pinged = Ok l' /\ sorted_ok target l' /\
    (l' ≡ₚ mk_SortedNode (bitxor target (node_id n)) n pinged :: l \/ l' = l /\ exists x, x ∈ l /\ node_eqb (sn_node x) n = true).
Proof.
  intros [Hs Hd]. unfold insert_sorted_node. set (d := bitxor target (node_id n)). set (x := mk_SortedNode d n pinged).
  assert (forall i, i <= length l -> (StronglySorted nearer l -> StronglySorted nearer (take i l ++ x :: drop i l)) ->
    exists l', vec_insert i x l = Ok l' /\ sorted_ok target l' /\ (l' ≡ₚ x :: l \/ l' = l /\ exists x, x ∈ l /\ node_eqb (sn_node x) n = true)) as Hins.
  { intros i Hi Hss. destruct (vec_insert_spec nearer i x l Hi) as [-> _]. eexists. split; [done|].
    assert (take i l ++ x :: drop i l ≡ₚ x :: l) as Hp by (by rewrite <- Permutation_middle, take_drop).
    split; [|by left]. split; [auto|]. rewrite Hp. by constructor. }
  destruct (binary_search_spec nearer (fun s => sha_cmp (sn_dist s) d)) with (fuel := length l + 1) (s := l) (base := 0) as (r & Hr & Hok).
  - intros a b. apply sha_cmp_lt_trans.
  - intros a b. apply sha_cmp_gt_trans.
  - lia.
  - rewrite Hr. cbn [mbind outcome_bind]. destruct r as [i|i].
    + destruct Hok as (j & y & -> & Hj & He). apply sha_cmp_eq in He. rewrite Nat.add_0_l, Hj. cbn [unwrap mbind outcome_bind].
      destruct (node_eqb (sn_node y) n) eqn:Hn; cbn [negb].
      * exists l. split; [done|]. split; [done|]. right. split; [done|]. exists y. split; [by eapply list_elem_of_lookup_2|done].
      * apply lookup_lt_Some in Hj as Hlt. apply Hins; [lia|]. intros _. apply vec_insert_spec; [lia|done|..].
        -- intros z Hz. unfold nearer. cbn [sn_dist x]. rewrite <- He. rewrite <- (take_drop_middle l j y Hj) in Hs.
           apply (StronglySorted_app_1_elem_of _ _ _ z y Hs Hz). left.
        -- intros z Hz. unfold nearer. cbn [sn_dist x]. rewrite <- He. rewrite (drop_S _ _ _ Hj) in Hz. apply elem_of_cons in Hz as [->|Hz]; [apply nearer_refl|].
           rewrite <- (take_drop_middle l j y Hj) in Hs. apply StronglySorted_app_1_r, StronglySorted_cons in Hs as [Hs _]. rewrite Forall_forall in Hs. by apply Hs.
    + destruct Hok as (j & -> & Hj & Hsort). destruct (Hsort Hs) as [Ht Hg]. rewrite Nat.add_0_l. apply Hins; [done|]. intros _.
      rewrite Forall_forall in Ht, Hg. apply vec_insert_spec; [done|done|..]; intros z Hz; unfold nearer; cbn [sn_dist x].
      * specialize (Ht z Hz). apply sha_cmp_gt in Ht. congruence.
      * specialize (Hg z Hz). congruence.
Qed.
End sorted.

(** ** Pure parts of a search *)

Section pure.
Context {CH : Chrono} {BO : BenOps} {BL : BenLaws}.

Lemma nodes_of_ok n : nodes_wf n -> exists l, nodes_of n = Ok l /\ Forall entry_wf l.
Proof.
  intros Hn. unfold nodes_wf in Hn. destruct (entries_of_bytes (length (nodes n) / BYTES_PER_COMPACT_NODE_INFO) (nodes n)) as (ps & Hps & Hc & _).
  { pose proof (Nat.div_mod_eq (length (nodes n)) BYTES_PER_COMPACT_NODE_INFO). lia. }
  exists ps. split; [|done]. pose proof (collect_nodes_entries ps Hps) as Hl. rewrite Hc in Hl. unfold nodes_of. unfold collect_nodes in Hl. cbn [nodes] in Hl.
  destruct n as [n]. cbn [nodes] in *. by rewrite Hl.
Qed.

Lemma values_of_ok v : values_wf v -> exists l, values_of v = Ok l.
Proof.
  intros Hv. unfold values_wf in Hv. assert (exists socks, Forall2 (is_value ben_as_bytes) (values v) socks) as [socks Hs].
  { induction Hv as [|b l (s & Hs & Hl) _ [socks IH]]; [by exists []|]. exists (bytes_be_to_sock_v4 s :: socks). constructor; [|done]. by exists s. }
  exists socks. unfold values_of, CompactValueInfo_into_iter.
  pose proof (value_iter_collect ben_as_bytes _ _ Hs [] (length (values v) + 1) ltac:(lia)) as Hc. cbn in Hc. cbn. by rewrite Hc.
Qed.

(** A fold of a step that keeps [P] and comes back. *)
Lemma fold_ok {A B E} (P : B -> Prop) (f : B -> A -> outcome E B) l : (forall b x, P b -> exists b', f b x = Ok b' /\ P b') ->
  forall b, P b -> exists b', foldl (fun acc x => b ← acc; f b x) (Ok b) l = Ok b' /\ P b'.
Proof.
  intros Hf. induction l as [|x l IH]; intros b Hb; cbn [foldl]; [eauto|]. cbn [mbind outcome_bind].
  destruct (Hf b x Hb) as (b1 & -> & Hb1). by apply IH.
Qed.

Definition clock_ok (now : DateTime) : Prop := is_Some (dt_checked_sub now (minutes MAX_LAST_SEEN_MINS)).

Lemma questionable_ok now p : clock_ok now -> exists n, questionable_v4 now p = Ok n /\ node_id n = p.1 /\ node_addr n = SockV4 p.2.
Proof. intros [t Ht]. unfold questionable_v4, as_questionable. rewrite Ht. cbn. eauto. Qed.

Lemma pick_iterate_ok now l target : clock_ok now -> exists picks, pick_iterate_nodes now l target = Ok picks.
Proof.
  intros Hn. unfold pick_iterate_nodes. destruct (fold_ok (fun _ : list (Node * bool) => True)
    (fun picks p => node ← questionable_v4 now p; Ok (insert_closest_nodes picks target node)) l) with (b := replicate ITERATIVE_PICK_NUM dummy_pick) as (b' & Hb & _); [|done|eauto].
  intros b x _. destruct (questionable_ok now x Hn) as (n & -> & _). cbn. eauto.
Qed.

Lemma push_nodes_ok now target picks l sorted : clock_ok now -> sorted_ok target sorted ->
  exists sorted', push_nodes now target picks l sorted = Ok sorted' /\ sorted_ok target sorted'.
Proof.
  intros Hn. unfold push_nodes. apply (fold_ok (sorted_ok target) (fun sorted p => node ← questionable_v4 now p; insert_sorted_node sorted target node _)).
  intros b x Hb. destruct (questionable_ok now x Hn) as (n & -> & _). cbn [mbind outcome_bind].
  destruct (insert_sorted_spec target n (existsb (fun '(m, _) => node_eqb m n) picks) b Hb) as (b' & H1 & H2 & _). eauto.
Qed.

Lemma initial_sorted target l : exists sorted, foldl (fun acc node => nodes ← acc; insert_sorted_node nodes target node false) (Ok []) l = Ok sorted /\ sorted_ok target sorted.
Proof.
  apply (fold_ok (sorted_ok target) (fun nodes node => insert_sorted_node nodes target node false)).
  - intros b x Hb. destruct (insert_sorted_spec target x false b Hb) as (b' & H1 & H2 & _). eauto.
  - split; constructor.
Qed.

(** Marking nodes as asked changes neither nodes nor distances. *)
Definition marked (a b : SortedNode) : Prop := sn_dist b = sn_dist a /\ sn_node b = sn_node a.

Lemma sorted_ok_marked target l l' : Forall2 marked l l' -> sorted_ok target l -> sorted_ok target l'.
Proof.
  intros Hm [Hs Hd]. split.
  - clear Hd. induction Hm as [|a b l l' [Ha _] Hm IH]; [done|]. apply StronglySorted_cons in Hs as [H1 H2]. apply StronglySorted_cons. split; [|by apply IH].
    clear IH H2. induction Hm as [|c d l l' [Hc _] _ IH]; constructor; apply Forall_cons in H1 as [H1 H2]; [|by apply IH].
    unfold nearer in *. by rewrite Ha, Hc.
  - induction Hm as [|a b l l' [H1 H2] Hm IH]; constructor; apply Forall_cons in Hd as [Hd Hd']; [by rewrite H1, H2|]. apply IH; [|done].
    by apply StronglySorted_cons in Hs as [_ Hs].
Qed.

Lemma pick_initial_marked l : Forall2 marked l (pick_initial_nodes l).2.
Proof.
  unfold pick_initial_nodes. cbn [snd]. rewrite <- (take_drop INITIAL_PICK_NUM l) at 1. apply Forall2_app.
  - induction (take INITIAL_PICK_NUM l); cbn; constructor; done.
  - induction (drop INITIAL_PICK_NUM l); constructor; done.
Qed.

Lemma pick_initial_none l : List.filter (fun '(_, good) => good) (pick_initial_nodes l).1 = [] -> l = [].
Proof. destruct l; [done|]. unfold pick_initial_nodes. done. Qed.

Lemma mark_one_marked i s l : l !! i = Some s -> Forall2 marked l (<[i := mk_SortedNode (sn_dist s) (sn_node s) true]> l).
Proof.
  intros Hs. apply Forall2_same_length_lookup. split; [by rewrite length_insert|]. intros j a b Ha Hb. destruct (decide (i = j)) as [->|Hne].
  - rewrite list_lookup_insert_eq in Hb by (by eapply lookup_lt_Some). simplify_eq. done.
  - rewrite list_lookup_insert_ne in Hb by done. simplify_eq. done.
Qed.
End pure.

(** ** The calls of a search *)

Section lookup.
Context {CH : Chrono} {IO : DhtIo} {IS : DhtIoSpec} {BO : BenOps} {BL : BenLaws}.

Definition lookup_ok (id : ActionID) (l : TableLookup) : Prop :=
  gen_ok id (lk_id_generator l) /\ sorted_ok (lk_target_id l) (all_sorted_nodes l).
(** Every message that is waited for has its timeout, [but] aside. *)
Definition lookup_timers (id : ActionID) (but : TransactionID -> Prop) (l : TableLookup) (w : io_world) : Prop :=
  forall tid d h, active_lookups l !! tid = Some (d, h) -> ~ but tid -> timers w h = Some (CheckLookupTimeout tid) /\ TransactionID_action_id tid = id.
Definition endgame_timer (id : ActionID) (w : io_world) : Prop := exists h t, timers w h = Some (CheckLookupEndGame t) /\ TransactionID_action_id t = id.
(** A timeout will call the search again, unless there was no node to ask. *)
Definition lookup_live (id : ActionID) (l : TableLookup) (w : io_world) : Prop :=
  if in_endgame l then endgame_timer id w
  else lookup_timers id nothing l w /\ (active_lookups l <> ∅ \/ all_sorted_nodes l = []).
Definition lookup_post (id : ActionID) (st : LookupStatus) (l : TableLookup) (w : io_world) : Prop :=
  lookup_ok id l /\ (st = LkFailed \/ lookup_live id l w).

Lemma lookup_timers_grow id but l w w' : grows w w' -> lookup_timers id but l w -> lookup_timers id but l w'.
Proof. intros [Hg _] Hb tid d h Ht Hn. destruct (Hb tid d h Ht Hn) as [H1 H2]. auto. Qed.
Lemma endgame_timer_grow id w w' : grows w w' -> endgame_timer id w -> endgame_timer id w'.
Proof. intros [Hg _] (h & t & H1 & H2). exists h, t. auto. Qed.

Lemma lookup_timers_insert id but l w tid d h : lookup_timers id but l w -> timers w h = Some (CheckLookupTimeout tid) -> TransactionID_action_id tid = id ->
  lookup_timers id but (set_lookups (<[tid := (d, h)]> (active_lookups l)) l) w.
Proof.
  intros Hb Hh Hid tid' d' h'. cbn [active_lookups set_lookups]. intros [[<- [= <- <-]]|[_ Ht]]%lookup_insert_Some Hn; [done|]. by eapply Hb.
Qed.

Lemma lookup_generate_step id l t w Q : table_ok t -> lookup_ok id l ->
  (forall tid l' w', lookup_ok id l' -> active_lookups l' = active_lookups l -> in_endgame l' = in_endgame l -> all_sorted_nodes l' = all_sorted_nodes l ->
     announce_tokens l' = announce_tokens l -> id_of id tid -> grows w w' -> Q tid l' w') ->
  act_wp lookup_generate l t w Q.
Proof. intros Ht [Hg Hc] HQ. apply (act_wp_gen id); [done|done|]. intros tid g w' Hg' Hid Hw. by apply HQ. Qed.

(** What a round of requests leaves when it does not fail. *)
Definition round_ok (id : ActionID) (n : nat) (l l' : TableLookup) (w : io_world) : Prop :=
  lookup_timers id nothing l' w /\ in_endgame l' = in_endgame l /\ all_sorted_nodes l' = all_sorted_nodes l /\ (0 < n -> active_lookups l' <> ∅).

Lemma request_round_spec id nodes l t w : table_ok t -> lookup_ok id l -> lookup_timers id nothing l w ->
  act_wp (start_request_round nodes) l t w (fun st l' w' => lookup_ok id l' /\ (st = LkFailed \/ round_ok id (length nodes) l l' w')).
Proof.
  intros Ht Hl Hm. unfold start_request_round. apply act_wp_bind. eapply act_wp_mono.
  { apply (act_wp_for (fun st k l' w => lookup_ok id l' /\ (st = Some LkFailed \/ st = None /\ round_ok id k l l' w))) with (k := 0);
      [done|split; [done|]; right; split; [done|]; split_and!; (done || lia)|].
    clear Hm. intros [n d] k l1 ? w1 _ ? _ (Hl1 & [?|(_ & Hm1 & He1 & Hs1 & _)]); [done|].
    apply act_wp_bind, (lookup_generate_step id); [done|done|]. intros tid l2 w2 Hl2 Ha2 He2 Hs2 _ [Hid _] Hg2 ? ? _.
    assert (lookup_timers id nothing l2 w2) as Hm2 by (intros tid' d' h'; rewrite Ha2; by apply (lookup_timers_grow _ _ _ _ _ Hg2 Hm1)).
    apply act_wp_bind, act_wp_timeout; [done|..]; [|intros; apply act_wp_ret; auto]. intros h w3 Hg3 Hh ? ? _.
    apply act_wp_bind, act_wp_modify; [done|]. intros ? ? _. apply act_wp_bind, act_wp_get; [done|]. intros ? ? _.
    apply act_wp_bind, act_wp_send; [done|]. intros [] w4 Hg4 ? ? _; [|apply act_wp_ret; auto].
    apply act_wp_bind, act_wp_modify; [done|]. intros ? ? _. apply act_wp_bind, act_wp_find_mark; [done|]. intros w5 Hg5 ? ? _. apply act_wp_ret; [done|].
    assert (grows w3 w5) as Hg35 by (by eapply grows_trans). split; [exact Hl2|]. right. split; [done|].
    split; [|split; [cbn; congruence|split; [cbn; congruence|intros _; apply insert_non_empty]]].
    apply lookup_timers_insert; [|by apply Hg35|done]. apply (lookup_timers_grow _ _ _ _ _ Hg35). by eapply lookup_timers_grow. }
  intros [st|] l1 w1 _; [intros (_ & Hl1 & [[= ->]|[? _]]); [|done]|intros (Hl1 & [?|(_ & Hm1 & He1 & Hs1 & Ha1)]); [done|]]; intros ? ? _; [apply act_wp_ret; auto|].
  case_decide as Hd.
  - apply act_wp_bind, act_wp_modify; [done|]. intros ? ? _. apply act_wp_ret; [done|]. split; [exact Hl1|]. right. split; [|split; [done|split; [done|lia]]].
    intros tid d h. cbn [active_lookups set_lookups]. by rewrite lookup_empty.
  - apply act_wp_ret; [done|]. split; [done|]. right. by split_and!.
Qed.

Lemma endgame_requests_spec id h n : forall i l t w, table_ok t -> lookup_ok id l ->
  act_wp (endgame_requests n i h) l t w (fun st l' w' => lookup_ok id l' /\ in_endgame l' = in_endgame l /\ (st = None \/ st = Some LkFailed)).
Proof.
  induction n as [|n IH]; intros i l t w Ht Hl; cbn [endgame_requests]; [apply act_wp_ret; auto|].
  apply act_wp_bind, act_wp_get; [done|]. intros ? ? _. destruct (all_sorted_nodes l !! i) as [s|] eqn:Hs; [|apply act_wp_ret; auto].
  destruct (sn_pinged s); [by apply IH|]. apply act_wp_bind, (lookup_generate_step id); [done|done|]. intros tid l2 w2 Hl2 _ He2 Hs2 _ _ _ ? ? _.
  apply act_wp_bind, act_wp_modify; [done|]. intros ? ? _. apply act_wp_bind, act_wp_get; [done|]. intros ? ? _.
  apply act_wp_bind, act_wp_send; [done|]. intros [] w4 _ ? ? _; [|apply act_wp_ret; auto].
  apply act_wp_bind, act_wp_find_mark; [done|]. intros w5 _ ? ? _. apply act_wp_bind, act_wp_modify; [done|]. intros ? ? _.
  eapply act_wp_mono; [apply IH; [done|]|].
  - split; [apply Hl2|]. cbn [all_sorted_nodes set_sorted lk_target_id set_lookups]. eapply sorted_ok_marked, Hl2. apply mark_one_marked. by rewrite Hs2.
  - intros st l3 w6 _ (Hr1 & Hr2 & Hr3). cbn in Hr2. split; [done|]. split; [congruence|done].
Qed.

Lemma endgame_round_spec id l t w : table_ok t -> lookup_ok id l ->
  act_wp start_endgame_round l t w (fun st l' w' => lookup_ok id l' /\ (st = LkFailed \/ in_endgame l' = true /\ endgame_timer id w')).
Proof.
  intros Ht Hl. unfold start_endgame_round. apply act_wp_bind, act_wp_modify; [done|]. intros ? ? _.
  apply act_wp_bind, (lookup_generate_step id); [done|exact Hl|]. intros tid l2 w2 Hl2 _ He2 _ _ [Hid _] _ ? ? _. cbn in He2.
  apply act_wp_bind, act_wp_timeout; [done|..]; [|intros; apply act_wp_ret; auto]. intros h w3 _ Hh ? ? _.
  assert (endgame_timer id w3) as Hg by (by exists h, tid). apply act_wp_bind, act_wp_get; [done|]. intros ? ? _. apply act_wp_bind.
  destruct (recv_values l2); cbn [negb].
  - apply act_wp_ret; [done|]. intros ? ? _. apply act_wp_ret; auto.
  - eapply act_wp_mono; [by apply endgame_requests_spec|]. intros st l3 w4 Hgr (Hl3 & He3 & Hst) ? ? _. apply act_wp_ret; [done|]. split; [done|].
    destruct Hst as [->| ->]; [right|by left]. split; [congruence|]. by eapply endgame_timer_grow.
Qed.

Lemma endgame_if_idle_spec id l t w : table_ok t -> lookup_ok id l -> in_endgame l = false -> lookup_timers id nothing l w ->
  act_wp endgame_if_idle l t w (fun r l' w' => lookup_ok id l' /\ (r = Some LkFailed \/ r = None /\ lookup_live id l' w')).
Proof.
  intros Ht Hl He Hm. unfold endgame_if_idle. apply act_wp_bind, act_wp_get; [done|]. intros ? ? _. case_decide as Ha.
  - apply act_wp_bind. eapply act_wp_mono; [by apply endgame_round_spec|]. intros st l1 w1 _ (Hl1 & Hst) ? ? _. apply act_wp_ret; [done|]. split; [done|].
    destruct Hst as [->|[He1 Ht1]]; [by left|]. destruct st; [right..|by left]; (split; [done|]); unfold lookup_live; by rewrite He1.
  - apply act_wp_ret; [done|]. split; [done|]. right. split; [done|]. unfold lookup_live. rewrite He. auto.
Qed.

Lemma iterate_round_spec id picks d l t w : table_ok t -> lookup_ok id l -> in_endgame l = false -> lookup_timers id nothing l w ->
  act_wp (iterate_round picks d) l t w (fun r l' w' => lookup_ok id l' /\ (r = Some LkFailed \/ r = None /\ in_endgame l' = false /\ lookup_timers id nothing l' w')).
Proof.
  intros Ht Hl He Hm. unfold iterate_round. destruct picks as [picks|]; [|by apply act_wp_ret; auto].
  apply act_wp_bind. eapply act_wp_mono; [by apply request_round_spec|]. intros st l1 w1 _ (Hl1 & Hst) ? ? _. apply act_wp_ret; [done|]. split; [done|].
  destruct Hst as [->|(Hm1 & He1 & _)]; [by left|]. destruct st; [right..|by left]; (split; [done|]); split; congruence || done.
Qed.

Lemma iterate_response_ok now l d opt : clock_ok now -> sorted_ok (lk_target_id l) (all_sorted_nodes l) -> (forall n, opt = Some n -> nodes_wf n) ->
  exists r, iterate_response now l d opt = Ok r /\ sorted_ok (lk_target_id l) r.2.
Proof.
  intros Hn Hs Ho. unfold iterate_response. destruct opt as [n|]; [|eauto]. destruct (nodes_of_ok n (Ho n eq_refl)) as (ps & -> & _). cbn [mbind outcome_bind].
  destruct (sha_ltb _ _).
  - destruct (pick_iterate_ok now (List.filter (not_requested l) ps) (lk_target_id l) Hn) as [picks ->]. cbn [mbind outcome_bind].
    destruct (push_nodes_ok now (lk_target_id l) picks ps (all_sorted_nodes l) Hn Hs) as (sorted & -> & Hs'). cbn [mbind outcome_bind]. eauto.
  - destruct (push_nodes_ok now (lk_target_id l) [] ps (all_sorted_nodes l) Hn Hs) as (sorted & -> & Hs'). cbn [mbind outcome_bind]. eauto.
Qed.

(** A search after the message it was called for has been taken out. *)
Definition lookup_held (id : ActionID) (l : TableLookup) (w : io_world) : Prop :=
  lookup_ok id l /\ if in_endgame l then endgame_timer id w else lookup_timers id nothing l w.

Lemma lookup_held_grow id l w w' : grows w w' -> lookup_held id l w -> lookup_held id l w'.
Proof. intros Hg [Hl Hh]. split; [done|]. destruct (in_endgame l); [by eapply endgame_timer_grow|by eapply lookup_timers_grow]. Qed.

(** The nodes and values of a response. *)
Lemma response_parts_spec id g l t w Q : table_ok t -> info_wf (gr_info_type g) -> lookup_held id l w ->
  (forall vals ns l', lookup_held id l' w -> in_endgame l' = in_endgame l -> (forall n, ns = Some n -> nodes_wf n) -> Q (vals, ns) l' w) ->
  act_wp (match gr_info_type g with
          | CiNodes n => mret (None, Some n)
          | CiValues v => _ ← modify (set_recv_values true); l ← lift (values_of v); mret (Some l, None)
          | CiBoth n v => l ← lift (values_of v); mret (Some l, Some n)
          end) l t w Q.
Proof.
  intros Ht Hi Hh HQ. destruct (gr_info_type g) as [n|v|n v]; cbn in Hi.
  - apply act_wp_ret; [done|]. apply HQ; [done|done|]. by intros ? [= <-].
  - apply act_wp_bind, act_wp_modify; [done|]. intros ? ? _. destruct (values_of_ok v Hi) as [vals Hv]. act_lift Hv. apply act_wp_ret; [done|]. by apply HQ.
  - destruct Hi as [Hn Hv]. destruct (values_of_ok v Hv) as [vals Hv']. act_lift Hv'. apply act_wp_ret; [done|]. apply HQ; [done|done|]. by intros ? [= <-].
Qed.

Lemma lookup_rest_spec id picks d (vals : option (list SocketAddrV4)) e l t w : table_ok t -> lookup_held id l w -> e = in_endgame l ->
  act_wp (failed ← (if negb e then
            failed ← iterate_round picks d;
            match failed with Some status => mret (Some status) | None => endgame_if_idle end
          else mret None);
        match failed with
        | Some status => mret status
        | None => match vals with Some values => mret (Values values) | None => self ← get_self; mret (current_lookup_status self) end
        end) l t w (lookup_post id).
Proof.
  intros Ht [Hl Hh] ->. apply act_wp_bind. destruct (in_endgame l) eqn:He; cbn [negb].
  - apply act_wp_ret; [done|]. intros ? ? _.
    assert (lookup_live id l w) as Hlive by (unfold lookup_live; by rewrite He).
    destruct vals; [|apply act_wp_bind, act_wp_get; [done|]; intros ? ? _]; (apply act_wp_ret; [done|]; split; auto).
  - apply act_wp_bind. eapply act_wp_mono; [by apply iterate_round_spec|]. intros r l1 w1 _ (Hl1 & [->|(-> & He1 & Hm1)]) ? ? _.
    + apply act_wp_ret; [done|]. intros ? ? _. apply act_wp_ret; [done|]. split; auto.
    + eapply act_wp_mono; [by apply endgame_if_idle_spec|]. intros r l2 w2 _ (Hl2 & [->|(-> & Hlive)]) ? ? _; [apply act_wp_ret; [done|]; split; auto|].
      destruct vals; [|apply act_wp_bind, act_wp_get; [done|]; intros ? ? _]; (apply act_wp_ret; [done|]; split; auto).
Qed.

Lemma Lookup_response_spec id n tid g l t w : table_ok t -> lookup_ok id l -> lookup_live id l w -> info_wf (gr_info_type g) ->
  act_fr id (Lookup_recv_response n tid g) l t w (lookup_post id).
Proof.
  intros Ht Hl Hlive Hi. unfold Lookup_recv_response. apply act_fr_bind, act_fr_of, act_wp_get; [done|]. intros ? ? _.
  destruct (active_lookups l !! tid) as [[d h]|] eqn:Hh; [|apply act_fr_of, act_wp_ret; [done|]; split; auto].
  apply act_fr_bind, act_fr_of, act_wp_modify; [done|]. intros t1 Ht1 _. set (l1 := set_lookups _ l). apply act_fr_bind.
  assert (act_fr id (if negb (in_endgame l) then io_ (clear_timeout h) else mret ()) l1 t1 w (fun _ l' w' => l' = l1 /\ lookup_held id l1 w')) as Hclear.
  { unfold lookup_live in Hlive. unfold lookup_held. change (in_endgame l1) with (in_endgame l). destruct (in_endgame l); cbn [negb]; [by apply act_fr_of, act_wp_ret|].
    destruct Hlive as [Hm _]. destruct (Hm tid d h Hh ltac:(by intros [])) as [Htm Hid].
    apply (act_fr_clear id h (CheckLookupTimeout tid)); [done|done|done|]. intros w1 _ Hk. split; [done|]. split; [exact Hl|].
    intros tid' d' h'. cbn [active_lookups set_lookups l1]. intros [Hne Hh']%lookup_delete_Some Hn.
    destruct (Hm tid' d' h' Hh' Hn) as [Hr1 Hr2]. split; [|done]. rewrite Hk; [done|]. intros ->. congruence. }
  eapply wp_mono; [exact Hclear|]. intros [] [l' [t2 w2]] (Ht2 & Hi2 & Hf2 & -> & Hheld). cbn in Ht2, Hi2, Hf2, Hheld. cbn [fst snd]. split_and!; [done..|]. intros t3 Ht3 _.
  clear Hclear Hlive Hf2 Hi2. apply act_fr_of. apply act_wp_bind.
  assert (act_wp match gr_token g with Some token => modify (fun self => set_tokens (<[node_key n := token]> (announce_tokens self)) self) | None => mret () end
    l1 t3 w2 (fun _ l' w' => w' = w2 /\ lookup_held id l' w2 /\ in_endgame l' = in_endgame l)) as Htok.
  { destruct (gr_token g); [by apply act_wp_modify|by apply act_wp_ret]. }
  eapply act_wp_mono; [exact Htok|]. clear Htok Hheld. intros [] l2 ? _ (-> & Hheld & He2) ? ? _.
  apply act_wp_bind, (response_parts_spec id); [done|done|done|]. clear Hheld. intros vals ns l3 Hheld He3 Hns ? ? _. cbn beta iota.
  apply act_wp_bind, act_wp_now; [done|]. intros now w3 Hg3 Hnow ? ? _. apply (lookup_held_grow _ _ _ _ Hg3) in Hheld.
  apply act_wp_bind, act_wp_get; [done|]. intros ? ? _. destruct (iterate_response_ok now l3 d ns Hnow (proj2 (proj1 Hheld)) Hns) as ([[picks d'] sorted] & Hit & Hs).
  act_lift Hit. apply act_wp_bind, act_wp_modify; [done|]. intros ? ? _. apply lookup_rest_spec; [done| |done].
  destruct Hheld as [[Hg _] Hh3]. split; [by split|exact Hh3].
Qed.

Lemma Lookup_timeout_spec id tid l t w : table_ok t -> lookup_ok id l ->
  (if in_endgame l then endgame_timer id w else lookup_timers id (eq tid) l w /\ (active_lookups l <> ∅ \/ all_sorted_nodes l = [])) ->
  act_wp (Lookup_recv_timeout tid) l t w (lookup_post id).
Proof.
  intros Ht Hl Hm. unfold Lookup_recv_timeout. apply act_wp_bind, act_wp_get; [done|]. intros ? ? _. destruct (active_lookups l !! tid) as [[d h]|] eqn:Hh.
  - apply act_wp_bind, act_wp_modify; [done|]. intros ? ? _. set (l1 := set_lookups _ l).
    assert (lookup_held id l1 w) as [Hl1 Hheld].
    { split; [exact Hl|]. change (in_endgame l1) with (in_endgame l). destruct (in_endgame l); [done|]. destruct Hm as [Hm _].
      intros tid' d' h'. cbn [active_lookups set_lookups l1]. intros [Hne Hh']%lookup_delete_Some _. by eapply Hm. }
    apply act_wp_bind. change (in_endgame l) with (in_endgame l1). destruct (in_endgame l1) eqn:He; cbn [negb].
    + apply act_wp_ret; [done|]. intros ? ? _. apply act_wp_bind, act_wp_get; [done|]. intros ? ? _. apply act_wp_ret; [done|]. split; [done|]. right.
      unfold lookup_live. by rewrite He.
    + eapply act_wp_mono; [by apply endgame_if_idle_spec|]. intros r l2 w2 _ (Hl2 & [->|(-> & Hlive)]) ? ? _; [apply act_wp_ret; [done|]; split; auto|].
      apply act_wp_bind, act_wp_get; [done|]. intros ? ? _. apply act_wp_ret; [done|]. split; auto.
  - apply act_wp_ret; [done|]. split; [done|]. right. unfold lookup_live. destruct (in_endgame l); [done|]. destruct Hm as [Hm Ha]. split; [|done].
    intros tid' d' h' Hh' _. eapply Hm; [done|]. intros ->. congruence.
Qed.

Lemma announce_all_spec id port tokens ns : Forall (fun n => is_Some (tokens !! node_key n)) ns -> forall f l t w, table_ok t -> lookup_ok id l -> announce_tokens l = tokens ->
  act_wp (announce_all port ns f) l t w (fun _ l' _ => lookup_ok id l').
Proof.
  induction 1 as [|n ns [token Htok] _ IH]; intros f l t w Ht Hl Hk; cbn [announce_all]; [by apply act_wp_ret|]. apply act_wp_bind. unfold announce_to.
  apply act_wp_bind, (lookup_generate_step id); [done|done|]. intros tid l2 w2 Hl2 _ _ _ Hk2 _ _ ? ? _. apply act_wp_bind, act_wp_get; [done|]. intros ? ? _.
  rewrite Hk2, Hk, Htok. act_lift (eq_refl (Ok (E := Empty_set) token)). apply act_wp_bind, act_wp_send; [done|]. intros ok w3 _ ? ? _.
  assert (announce_tokens l2 = tokens) as Hk3 by congruence.
  apply act_wp_bind. destruct (negb (f || negb ok)).
  - apply act_wp_find_mark; [done|]. intros w4 _ ? ? _. apply act_wp_ret; [done|]. intros ? ? _. by apply IH.
  - apply act_wp_ret; [done|]. intros ? ? _. apply act_wp_ret; [done|]. intros ? ? _. by apply IH.
Qed.

Lemma recv_finished_spec id port l t w : table_ok t -> lookup_ok id l -> act_wp (recv_finished port) l t w (fun _ l' _ => lookup_ok id l').
Proof.
  intros Ht Hl. unfold recv_finished. apply act_wp_bind, act_wp_get; [done|]. intros t1 Ht1 _. apply act_wp_bind.
  assert (act_wp (if will_announce l then announce_all port (announce_nodes l) false else mret false) l t1 w (fun _ l' _ => lookup_ok id l')) as Ha.
  { destruct (will_announce l); [|by apply act_wp_ret]. apply (announce_all_spec id port (announce_tokens l)); [|done..]. apply Forall_take, Forall_forall.
    intros n Hn. apply filter_elem in Hn as [Hn _]. by apply bool_decide_eq_true in Hn. }
  eapply act_wp_mono; [exact Ha|]. intros fatal l1 w1 _ Hl1 ? ? _. apply act_wp_bind, act_wp_modify; [done|]. intros ? ? _.
  apply act_wp_bind, act_wp_modify; [done|]. intros ? ? _. destruct fatal; [by apply act_wp_ret|]. apply act_wp_bind, act_wp_get; [done|]. intros ? ? _. by apply act_wp_ret.
Qed.

Lemma lookup_new_spec id self target g ann t w : table_ok t -> sha_wf target -> gen_ok id g ->
  wp (TableLookup_new self target g ann) (t, w) (fun r s => table_ok s.1 /\ rt_node_id s.1 = rt_node_id t /\ grows w s.2 /\
    match r with Some l => lookup_ok id l /\ lookup_live id l s.2 | None => True end).
Proof.
  intros Ht Hw Hg. unfold wp, TableLookup_new. pose proof (utc_now_spec w) as Hs. destruct (utc_now w) as [now w1]. destruct Hs as (Hq1 & Hq2 & _).
  assert (grows w w1) as Hg1 by (by apply quiet_grows). unfold initial_lookup.
  destruct (closest_nodes_table now t target Ht Hw) as (cl & -> & _). cbn [mbind outcome_bind].
  destruct (initial_sorted target (take MAX_BUCKET_SIZE (List.filter (fun n => bool_decide (status now n = Good)) cl))) as (sorted & -> & Hso). cbn [mbind outcome_bind].
  pose proof (sorted_ok_marked _ _ _ (pick_initial_marked sorted) Hso) as Hso'. pose proof (pick_initial_none sorted) as Hnone.
  pose proof (Forall2_length _ _ _ (pick_initial_marked sorted)) as Hlen.
  destruct (pick_initial_nodes sorted) as [picks sorted']. cbn [fst snd] in Hso', Hnone, Hlen. cbn beta iota.
  set (l := mk_TableLookup _ _ _ _ _ _ _ _ _ _). set (ns := _ <$> _).
  assert (length ns = 0 -> sorted' = []) as Hns.
  { intros Hl%length_zero_iff_nil. unfold ns in Hl. apply fmap_nil_inv in Hl. rewrite (Hnone Hl) in Hlen. by destruct sorted'. }
  assert (lookup_ok id l) as Hl by (by split). assert (lookup_timers id nothing l w1) as Hm by (intros tid d h; cbn; by rewrite lookup_empty).
  destruct (request_round_spec id ns l t w1 Ht Hl Hm) as (st & [l' [t' w']] & -> & Ht' & Hi' & Hg' & Hl' & Hst). cbn in *.
  pose proof (grows_trans _ _ _ Hg1 Hg') as Hgw.
  assert (st <> LkFailed -> lookup_live id l' w') as Hlive.
  { intros Hne. destruct Hst as [?|(Hm' & He' & Hs' & Ha')]; [done|]. unfold lookup_live. rewrite He'. cbn. split; [done|].
    destruct (decide (length ns = 0)) as [E|E]; [right; rewrite Hs'; cbn; auto|left; apply Ha'; lia]. }
  destruct st; eexists _, _; (split; [done|]); cbn; split_and!; auto.
Qed.

(** ** Announcing *)

(** An announce to [n] with the token it gave. *)
Definition announce_sent (id : ActionID) (port : Z) (l : TableLookup) (n : Node) (o : output io_sender) : Prop :=
  exists tid token ok, id_of id tid /\ announce_tokens l !! node_key n = Some token /\
    o = Datagram (AnnouncePeerRequest_encode (mk_AnnouncePeerRequest (trans_id_bytes tid) (lk_table_id l) (lk_target_id l) token (Explicit port))) (node_addr n) ok.

(** The parts of a search an announce does not touch. *)
Definition same_search (l l' : TableLookup) : Prop :=
  announce_tokens l' = announce_tokens l /\ lk_table_id l' = lk_table_id l /\ lk_target_id l' = lk_target_id l.

Definition sent (o : output io_sender) : bool := match o with Datagram _ _ ok => ok | _ => true end.

Lemma generate_log id l t w : gen_ok id (lk_id_generator l) ->
  wp lookup_generate (l, (t, w)) (fun tid s => s.2.1 = t /\ log s.2.2 = log w /\ gen_ok id (lk_id_generator s.1) /\ same_search l s.1 /\ id_of id tid).
Proof.
  intros Hg. unfold lookup_generate, gen_with. apply wp_bind. eexists _, _. split; [done|]. apply wp_bind. pose proof (rand_indices_spec w) as Hs.
  unfold wp at 1, io at 1, generate_id at 1. cbn [fst]. destruct (rand_indices w) as [rand w1]. eexists _, _. split; [done|].
  destruct (gen_ok_step id _ rand Hg) as (tid & g' & He & Hg' & Hid). apply wp_bind. eapply wp_lift; [exact He|]. cbn beta iota. apply wp_bind.
  eexists _, _. split; [done|]. apply wp_ret. cbn. split; [done|]. split; [apply Hs|]. by split_and!.
Qed.

Lemma find_mark_log n l t w : table_ok t -> wp (find_and_mark (A := TableLookup) local_request n) (l, (t, w)) (fun _ s => s.1 = l /\ table_ok s.2.1 /\ log s.2.2 = log w).
Proof.
  intros Ht. unfold find_and_mark. apply wp_bind. pose proof (utc_now_spec w) as Hs. unfold wp at 1, io at 1. destruct (utc_now w) as [now w1]. eexists _, _. split; [done|].
  apply wp_bind. eexists _, _. split; [done|]. cbn [fst snd].
  destruct (find_and_update_ok now (local_request now) n t ltac:(intros m; apply local_request_same) Ht) as (t' & He & Ht' & _).
  apply wp_bind. eapply wp_lift; [exact He|]. eexists _, _. split; [done|]. cbn. split; [done|]. split; [done|apply Hs].
Qed.

Lemma announce_to_log id port n f l t w : table_ok t -> gen_ok id (lk_id_generator l) -> is_Some (announce_tokens l !! node_key n) ->
  wp (announce_to port n f) (l, (t, w)) (fun f' s => table_ok s.2.1 /\ gen_ok id (lk_id_generator s.1) /\ same_search l s.1 /\
    exists o, announce_sent id port l n o /\ log s.2.2 = log w ++ [o] /\ f' = f || negb (sent o)).
Proof.
  intros Ht Hg [token Htok]. unfold announce_to. apply wp_bind. eapply wp_mono; [by apply generate_log|]. intros tid [l1 [t1 w1]] (E & Hl1 & Hg1 & Hs1 & Hid). cbn in E, Hl1, Hg1, Hs1. subst t1.
  apply wp_bind. eexists _, _. split; [done|]. cbn [fst]. pose proof Hs1 as (Hk & Hi & Hta). apply wp_bind. eapply wp_lift; [by rewrite Hk, Htok|].
  apply wp_bind. rewrite Hi, Hta. set (m := AnnouncePeerRequest_encode _). pose proof (out_send_spec (m, node_addr n) w1) as Hs. unfold wp at 1, io at 1.
  destruct (out_send (m, node_addr n) w1) as [ok w2]. destruct Hs as [_ Hl2]. eexists _, _. split; [done|].
  assert (exists o, announce_sent id port l n o /\ log w2 = log w ++ [o] /\ f || negb ok = f || negb (sent o)) as Ho.
  { exists (Datagram m (node_addr n) ok). split; [by exists tid, token, ok|]. by rewrite Hl2, Hl1. }
  cbn beta iota. apply wp_bind. destruct (negb (f || negb ok)).
  - eapply wp_mono; [by apply find_mark_log|]. intros [] [l3 [t3 w3]] (E & Ht3 & Hl3). cbn in E, Ht3, Hl3. subst l3. apply wp_ret. cbn. rewrite Hl3. by split_and!.
  - apply wp_ret, wp_ret. by split_and!.
Qed.

Lemma announce_sent_same id port l l' n o : same_search l l' -> announce_sent id port l' n o -> announce_sent id port l n o.
Proof. intros (H1 & H2 & H3) (tid & token & ok & K1 & K2 & ->). exists tid, token, ok. rewrite H1 in K2. by rewrite H2, H3. Qed.

Lemma announce_all_log id port ns : forall f l t w, table_ok t -> gen_ok id (lk_id_generator l) -> Forall (fun n => is_Some (announce_tokens l !! node_key n)) ns ->
  wp (announce_all port ns f) (l, (t, w)) (fun f' s => exists os, Forall2 (announce_sent id port l) ns os /\ log s.2.2 = log w ++ os /\ f' = f || existsb (fun o => negb (sent o)) os).
Proof.
  induction ns as [|n ns IH]; intros f l t w Ht Hg Hns; cbn [announce_all].
  - apply wp_ret. exists []. split; [constructor|]. cbn. by rewrite app_nil_r, orb_false_r.
  - apply Forall_cons in Hns as [Hn Hns]. apply wp_bind. eapply wp_mono; [by apply announce_to_log|]. intros f1 [l1 [t1 w1]] (Ht1 & Hg1 & Hs1 & o & Ho & Hl1 & ->). cbn in *.
    eapply wp_mono; [apply IH; [done|done|by rewrite (proj1 Hs1)]|]. intros f2 [l2 [t2 w2]] (os & Hos & Hl2 & ->). cbn in *. exists (o :: os). split; [constructor; [done|]|].
    + eapply Forall2_impl; [exact Hos|]. intros m o'. by apply announce_sent_same.
    + split; [by rewrite Hl2, Hl1, <- app_assoc|]. cbn. by rewrite orb_assoc.
Qed.

Definition node_dist (l : TableLookup) (n : Node) : ShaHash := bitxor (lk_target_id l) (node_id n).
Definition has_token (l : TableLookup) (n : Node) : bool := bool_decide (is_Some (announce_tokens l !! node_key n)).

Lemma dist_sorted l : sorted_ok (lk_target_id l) (all_sorted_nodes l) ->
  StronglySorted (fun a b => sha_ltb (node_dist l b) (node_dist l a) = false) (sn_node <$> all_sorted_nodes l).
Proof.
  intros [Hs Hd]. induction Hs as [|x xs Hs IH Hx]; cbn; [constructor|]. apply Forall_cons in Hd as [Hdx Hd]. constructor; [by apply IH|].
  apply Forall_fmap. rewrite Forall_forall in *. intros y Hy. cbn. specialize (Hx y Hy). unfold nearer in Hx. rewrite (Hd y Hy), Hdx in Hx.
  unfold sha_ltb, node_dist. apply not_true_iff_false. rewrite bytes_ltb_lt. exact Hx.
Qed.

Lemma sorted_filter_list {A} (R : A -> A -> Prop) f l : StronglySorted R l -> StronglySorted R (List.filter f l).
Proof.
  induction 1 as [|x l Hl IH Hx]; cbn; [constructor|]. destruct (f x); [|done]. constructor; [done|]. rewrite Forall_forall in *. intros y [_ Hy]%filter_elem. by apply Hx.
Qed.

Lemma announce_nodes_nearest l n : sorted_ok (lk_target_id l) (all_sorted_nodes l) -> n ∈ sn_node <$> all_sorted_nodes l -> has_token l n = true ->
  n ∈ announce_nodes l \/ length (announce_nodes l) = ANNOUNCE_PICK_NUM /\ Forall (fun m => sha_ltb (node_dist l n) (node_dist l m) = false) (announce_nodes l).
Proof.
  intros Hs Hn Ht. apply dist_sorted in Hs. unfold announce_nodes. fold (has_token l). set (all := List.filter (fun n => has_token l n) _).
  assert (StronglySorted (fun a b => sha_ltb (node_dist l b) (node_dist l a) = false) all) as Hall by (by apply sorted_filter_list).
  assert (n ∈ all) as Hin by (by apply filter_elem). rewrite <- (take_drop ANNOUNCE_PICK_NUM all) in Hin, Hall. apply elem_of_app in Hin as [?|Hin]; [by left|right].
  apply StronglySorted_app in Hall as (Hcross & _). split.
  - rewrite length_take. assert (drop ANNOUNCE_PICK_NUM all <> []) as Hne by (intros E; rewrite E in Hin; by apply not_elem_of_nil in Hin).
    destruct (decide (ANNOUNCE_PICK_NUM <= length all)); [lia|]. by rewrite drop_ge in Hne by lia.
  - apply Forall_forall. intros m Hm. by apply Hcross.
Qed.

(** C30. At the end of a search that announces, an announce goes out to at most eight
    nodes, each with the token that node gave, the info hash, the port of the
    handshaker and an id of the search; and no node of the search's own list that
    gave a token and was left out is nearer to the info hash than one of them.  The search fails exactly
    when a message could not be sent. *)
Theorem search_announces_nearest (id : ActionID) (port : Z) (l : TableLookup) (t : RoutingTable) (w : io_world) :
  table_ok t -> lookup_ok id l -> will_announce l = true ->
  exists st l' t' w' os, recv_finished port (l, (t, w)) = (Ok st, (l', (t', w'))) /\
    log w' = log w ++ os /\ Forall2 (announce_sent id port l) (announce_nodes l) os /\
    length (announce_nodes l) <= 8 /\
    (forall n, n ∈ sn_node <$> all_sorted_nodes l -> has_token l n = true -> n ∈ announce_nodes l \/
       length (announce_nodes l) = 8 /\ Forall (fun m => sha_ltb (node_dist l n) (node_dist l m) = false) (announce_nodes l)) /\
    st = (if existsb (fun o => negb (sent o)) os then LkFailed else LkCompleted).
Proof.
  intros Ht [Hg Hs] Ha. unfold recv_finished.
  assert (wp (self ← get_self; fatal_error ← (if will_announce self then announce_all port (announce_nodes self) false else mret false);
    _ ← modify (set_lookups ∅); _ ← modify (set_endgame false); if (fatal_error : bool) then mret LkFailed else self ← get_self; mret (current_lookup_status self))
    (l, (t, w)) (fun st s => exists os, log s.2.2 = log w ++ os /\ Forall2 (announce_sent id port l) (announce_nodes l) os /\
      st = if existsb (fun o => negb (sent o)) os then LkFailed else LkCompleted)) as (st & [l' [t' w']] & Hr & os & Hl & Hos & Hst).
  { apply wp_bind. eexists _, _. split; [done|]. cbn [fst]. rewrite Ha. apply wp_bind. eapply wp_mono; [apply (announce_all_log id); [done|done|]|].
    - apply Forall_take, Forall_forall. intros n Hn. apply filter_elem in Hn as [Hn _]. by apply bool_decide_eq_true in Hn.
    - intros fatal [l1 [t1 w1]] (os & Hos & Hl & ->). cbn in Hl. apply wp_bind, wp_bind. eexists _, _. split; [done|]. eexists _, _. split; [done|].
      apply wp_bind, wp_bind. eexists _, _. split; [done|]. eexists _, _. split; [done|]. cbn [orb]. destruct (existsb _ os) eqn:E.
      + apply wp_ret. exists os. by rewrite E.
      + apply wp_bind. eexists _, _. split; [done|]. apply wp_ret. exists os. rewrite E. done. }
  exists st, l', t', w', os. split; [done|]. split; [done|]. split; [done|]. split; [unfold announce_nodes; rewrite length_take; unfold ANNOUNCE_PICK_NUM; lia|].
  split; [|done]. intros n Hn Htok. by apply announce_nodes_nearest.
Qed.
End lookup.
(** ** A witness *)

#[local] Existing Instance ben_ref.
#[local] Existing Instance ben_ref_laws.

Definition near_node : @Node Chrono_Z := as_good (0%Z : @DateTime Chrono_Z) (mk_ShaHash (replicate 20 x01)) (SockV4 (mk_SocketAddrV4 (mk_Ipv4Addr x7f x00 x00 x01) 6881)).
Definition near_search (g : MIDGenerator) : @TableLookup Chrono_Z dht_ref :=
  let target := mk_ShaHash (replicate 20 x03) in
  mk_TableLookup (mk_ShaHash (replicate 20 x02)) target true false g true ∅ {[node_key near_node := bstr "token"]} ∅
    [mk_SortedNode (bitxor target (node_id near_node)) near_node true].

Lemma search_announces_nearest_witness : exists g st s os, recv_finished (IO := dht_ref) 6881 (near_search g, (RoutingTable_new (mk_ShaHash (replicate 20 x02)), mk_World ∅ [] 9 0 true)) = (Ok st, s) /\
  log s.2.2 = os /\ length os = 1.
Proof.
  destruct (aid_ok_new (fun n => n)) as (a & _ & Ha). destruct (aid_ok_step a (fun n => n) Ha) as (g & _ & _ & _ & Hg).
  destruct (@search_announces_nearest Chrono_Z dht_ref dht_ref_spec ben_ref (MIDGenerator_action_id g) 6881 (near_search g)
    (RoutingTable_new (mk_ShaHash (replicate 20 x02))) (mk_World ∅ [] 9 0 true)) as (st & l' & t' & w' & os & Hr & Hl & Hos & _).
  - apply RoutingTable_new_ok. reflexivity.
  - split; [exact Hg|]. split; [repeat constructor|]. apply Forall_singleton. reflexivity.
  - reflexivity.
  - exists g, st, (l', (t', w')), os. split; [exact Hr|]. split; [exact Hl|]. apply Forall2_length in Hos. rewrite <- Hos. vm_compute. reflexivity.
Defined.
