(* ===== verification/DhtHandlerProofs.v ===== *)
(** * The DHT handler: every call comes back and no action is forgotten

    The invariant of the handler and its world, and that the handler keeps it:
    until a shutdown is asked for, every running action has a timeout pending
    that will call it again. *)

From stdpp Require Import prelude list gmap strings.
From Stdlib Require Import ZArith Lia Strings.Byte.
From S2P Require Import Prelude Bytes Bencode Convert Sha Trans Node Bucket Table TableProofs Closest Storage Token Transaction Compact DhtMessage DhtMessageProofs DhtBootstrap DhtLookup DhtHandler DhtSpec DhtLookupProofs.

Section handler.
Context {CH : Chrono} {SH : Sha1} {IO : DhtIo} {IS : DhtIoSpec} {BO : BenOps} {BL : BenLaws}.

(** ** The invariant *)

Definition act_ok (id : ActionID) (a : TableAction) : Prop :=
  match a with ActLookup l => lookup_ok id l | ActRefresh r => refresh_ok id r | ActBootstrap b _ => boot_ok id b end.
(** A timeout is pending that will call the action. *)
Definition act_live (id : ActionID) (a : TableAction) (w : io_world) : Prop :=
  match a with ActLookup l => lookup_live id l w | ActRefresh _ => refresh_live id w | ActBootstrap b _ => boot_live id b w end.
Definition post_ok (a : PostBootstrapAction) : Prop :=
  match a with PostLookup info_hash _ => sha_wf info_hash | PostRefresh r tid => refresh_ok (TransactionID_action_id tid) r end.

Record handler_ok (h : DhtHandler) : Prop := {
  hok_table : table_ok (routing_table h);
  hok_aid : aid_ok (aid_generator h);
  hok_actions : forall id a, table_actions h !! id = Some a -> act_ok id a;
  hok_future : Forall post_ok (future_actions h);
}.

(** The handler has asked its event loop to shut down. *)
Definition asked (w : io_world) : Prop := exists cause ok, Queued (Shutdown cause) ok ∈ log w.
Definition others (id : ActionID) (h : DhtHandler) (w : io_world) : Prop :=
  forall id' a, id' <> id -> table_actions h !! id' = Some a -> act_live id' a w.
Definition all_live (h : DhtHandler) (w : io_world) : Prop := forall id a, table_actions h !! id = Some a -> act_live id a w.
Definition inv (h : DhtHandler) (w : io_world) : Prop := handler_ok h /\ (asked w \/ all_live h w).

Lemma asked_mono w w' l : log w' = log w ++ l -> asked w -> asked w'.
Proof. intros E (c & ok & H). exists c, ok. rewrite E. apply elem_of_app. by left. Qed.
Lemma asked_frame id w w' : frame id w w' -> asked w -> asked w'.
Proof. intros [_ [l E]]. by eapply asked_mono. Qed.
Lemma asked_grows w w' : grows w w' -> asked w -> asked w'.
Proof. intros [_ [l E]]. by eapply asked_mono. Qed.

(** What an action waits for is its own. *)
Lemma act_live_frame id id' a w w' : frame id w w' -> id' <> id -> act_live id' a w -> act_live id' a w'.
Proof.
  intros [Hf _] Hne. destruct a as [l|r|b n]; cbn.
  - unfold lookup_live. destruct (in_endgame l).
    + intros (h & t & H1 & <-). exists h, t. split; [|done]. by apply Hf.
    + intros [Hm Ha]. split; [|done]. intros tid d h Ht Hn. destruct (Hm tid d h Ht Hn) as [H1 H2]. split; [|done]. apply Hf; [done|]. cbn. congruence.
  - intros (h & t & H1 & <-). exists h, t. split; [|done]. by apply Hf.
  - intros (Hc & Ha & Hm). split_and!; [done..|]. intros tid h Ht Hn. destruct (Hm tid h Ht Hn) as [H1 H2]. split; [|done]. apply Hf; [done|]. cbn. congruence.
Qed.
Lemma act_live_grows id a w w' : grows w w' -> act_live id a w -> act_live id a w'.
Proof.
  intros Hg. destruct a as [l|r|b n]; cbn.
  - unfold lookup_live. destruct (in_endgame l); [by apply endgame_timer_grow|]. intros [Hm Ha]. split; [|done]. by eapply lookup_timers_grow.
  - intros (h & t & H1 & H2). exists h, t. split; [by apply Hg|done].
  - intros (Hc & Ha & Hm). split_and!; [done..|]. by eapply boot_timers_grow.
Qed.

(** ** Calls that leave the actions alone *)

(** [h'] and [w'] after a call of or for the action [id] that changed no other action. *)
Definition hframe (id : ActionID) (h : DhtHandler) (w : io_world) (h' : DhtHandler) (w' : io_world) : Prop :=
  handler_ok h' /\ table_actions h' = table_actions h /\ rt_node_id (routing_table h') = rt_node_id (routing_table h) /\ frame id w w'.
Definition hkeeps (h : DhtHandler) (w : io_world) (h' : DhtHandler) (w' : io_world) : Prop :=
  handler_ok h' /\ table_actions h' = table_actions h /\ rt_node_id (routing_table h') = rt_node_id (routing_table h) /\ grows w w'.

Lemma hkeeps_refl h w : handler_ok h -> hkeeps h w h w.
Proof. intros Hh. split_and!; try done. apply grows_refl. Qed.
Lemma hkeeps_trans h1 w1 h2 w2 h3 w3 : hkeeps h1 w1 h2 w2 -> hkeeps h2 w2 h3 w3 -> hkeeps h1 w1 h3 w3.
Proof. intros (_ & H2 & H3 & H4) (K1 & K2 & K3 & K4). split; [done|]. split; [congruence|]. split; [congruence|]. by eapply grows_trans. Qed.
Lemma hkeeps_inv h w h' w' : hkeeps h w h' w' -> inv h w -> inv h' w'.
Proof.
  intros (H1 & H2 & _ & H4) [_ Hi]. split; [done|]. destruct Hi as [Hi|Hi]; [left; by eapply asked_grows|right].
  intros id a. rewrite H2. intros Ha. eapply act_live_grows; [done|]. by apply Hi.
Qed.
Lemma hkeeps_others id h w h' w' : hkeeps h w h' w' -> others id h w -> others id h' w'.
Proof. intros (_ & H2 & _ & H4) Hi id' a Hne. rewrite H2. intros Ha. eapply act_live_grows; [done|]. by apply Hi. Qed.
Lemma hframe_others id h w h' w' : hframe id h w h' w' -> others id h w -> others id h' w'.
Proof. intros (_ & H2 & _ & H4) Hi id' a Hne. rewrite H2. intros Ha. eapply act_live_frame; [done|done|]. by apply Hi. Qed.

Definition hcall {B} (m : hM B) (h : DhtHandler) (w : io_world) (Q : B -> DhtHandler -> io_world -> Prop) : Prop :=
  wp m (h, w) (fun b s => hkeeps h w s.1 s.2 /\ Q b s.1 s.2).

Lemma hcall_bind {B C} (m : hM B) (f : B -> hM C) h w Q :
  hcall m h w (fun b h' w' => hkeeps h w h' w' -> handler_ok h' -> hcall (f b) h' w' Q) -> hcall (m ≫= f) h w Q.
Proof.
  intros Hm. apply wp_bind. eapply wp_mono; [exact Hm|]. intros b [h' w'] [Hk Hf]. cbn in *. eapply wp_mono; [exact (Hf Hk (proj1 Hk))|].
  intros c [h'' w''] [Hk' HQ]. cbn in *. split; [|done]. by eapply hkeeps_trans.
Qed.
(** The first part of a call. *)
Lemma wp_hcall {B C} (m : hM B) (f : B -> hM C) h w (Q : C -> DhtHandler * io_world -> Prop) :
  hcall m h w (fun b h' w' => hkeeps h w h' w' -> handler_ok h' -> wp (f b) (h', w') Q) -> wp (m ≫= f) (h, w) Q.
Proof. intros Hm. apply wp_bind. eapply wp_mono; [exact Hm|]. intros b [h' w'] [Hk Hf]. cbn in *. by apply Hf; [|apply Hk]. Qed.
Lemma hcall_inv {B} (m : hM B) h w : hcall m h w (fun _ _ _ => True) -> inv h w -> wp m (h, w) (fun _ s => inv s.1 s.2).
Proof. intros Hm Hi. eapply wp_mono; [exact Hm|]. intros b s [Hk _]. by eapply hkeeps_inv. Qed.
Lemma hcall_mono {B} (m : hM B) h w (P Q : B -> DhtHandler -> io_world -> Prop) : hcall m h w P -> (forall b h' w', P b h' w' -> Q b h' w') -> hcall m h w Q.
Proof. intros Hm H. eapply wp_mono; [exact Hm|]. intros b s [Hk HP]. split; [done|]. by apply H. Qed.

Lemma hcall_ret {B} (b : B) h w Q : handler_ok h -> Q b h w -> hcall (mret b) h w Q.
Proof. intros Hh HQ. apply wp_ret. split; [by apply hkeeps_refl|done]. Qed.
Lemma hcall_lift {B} (o : outcome Empty_set B) b h w Q : o = Ok b -> handler_ok h -> Q b h w -> hcall (lift o) h w Q.
Proof. intros -> Hh HQ. by apply (hcall_ret b). Qed.
Lemma hcall_get h w (Q : DhtHandler -> DhtHandler -> io_world -> Prop) : handler_ok h -> Q h h w -> hcall get_h h w Q.
Proof. intros Hh HQ. eexists _, _. split; [done|]. split; [by apply hkeeps_refl|done]. Qed.
Lemma hcall_io {B} (f : io_world -> B * io_world) h w Q : handler_ok h -> grows w (f w).2 -> Q (f w).1 h (f w).2 -> hcall (hio f) h w Q.
Proof. intros Hh Hg HQ. unfold hcall, wp, hio. destruct (f w) as [b w']. eexists _, _. split; [done|]. split; [|done]. by split_and!. Qed.
Lemma hcall_mod f h w Q : handler_ok (f h) -> table_actions (f h) = table_actions h -> rt_node_id (routing_table (f h)) = rt_node_id (routing_table h) ->
  Q () (f h) w -> hcall (mod_h f) h w Q.
Proof. intros H1 H2 H3 HQ. eexists _, _. split; [done|]. split; [|done]. split_and!; try done. apply grows_refl. Qed.

(** ** The operations of the handler *)

Lemma handler_ok_fields h h' : handler_ok h -> table_ok (routing_table h') -> aid_generator h' = aid_generator h -> table_actions h' = table_actions h ->
  future_actions h' = future_actions h -> handler_ok h'.
Proof. intros [H1 H2 H3 H4] Ht Ha Hb Hc. split; [done|by rewrite Ha|by rewrite Hb|by rewrite Hc]. Qed.

Lemma hcall_now h w (Q : DateTime -> DhtHandler -> io_world -> Prop) : handler_ok h -> (forall now w', quiet w w' -> clock_ok now -> Q now h w') -> hcall (hio utc_now) h w Q.
Proof.
  intros Hh HQ. pose proof (utc_now_spec w) as Hs. destruct (utc_now w) as [now w'] eqn:E. destruct Hs as (H1 & H2 & H3).
  apply hcall_io; [done|rewrite E; by apply quiet_grows|]. rewrite E. by apply HQ.
Qed.

Lemma quiet_trans w1 w2 w3 : quiet w1 w2 -> quiet w2 w3 -> quiet w1 w3.
Proof. intros [H1 H2] [K1 K2]. split; [intros h; by rewrite K1|congruence]. Qed.

Lemma hcall_rand h w Q : handler_ok h -> (forall rand w', grows w w' -> Q rand h w') -> hcall (hio rand_indices) h w Q.
Proof.
  intros Hh HQ. pose proof (rand_indices_spec w) as Hs. destruct (rand_indices w) as [r w'] eqn:E.
  assert (grows w w') by (by apply quiet_grows). apply hcall_io; [done|by rewrite E|]. rewrite E. by apply HQ.
Qed.

Lemma token_draw_quiet w : quiet w (token_draw w).2.
Proof.
  unfold token_draw. pose proof (utc_now_spec w) as H1. destruct (utc_now w) as [n1 w1]. pose proof (utc_now_spec w1) as H2. destruct (utc_now w1) as [n2 w2].
  pose proof (rand_u32_spec w2) as H3. destruct (rand_u32 w2) as [r1 w3]. pose proof (rand_u32_spec w3) as H4. destruct (rand_u32 w3) as [r2 w4]. cbn [snd].
  destruct H1 as (H1 & H1' & _), H2 as (H2 & H2' & _). eapply quiet_trans; [|eapply quiet_trans; [|eapply quiet_trans]]; [exact (conj H1 H1')|exact (conj H2 H2')|exact H3|exact H4].
Qed.

Lemma hcall_shutdown cause h w (Q : () -> DhtHandler -> io_world -> Prop) : handler_ok h -> (forall w', asked w' -> Q () h w') -> hcall (shutdown_event_loop cause) h w Q.
Proof.
  intros Hh HQ. apply hcall_bind. pose proof (channel_send_spec (Shutdown cause) w) as Hs. destruct (channel_send _ w) as [ok w'] eqn:E. destruct Hs as [H1 H2].
  assert (grows w w') by (by eapply said_grows). apply hcall_io; [done|by rewrite E|]. rewrite E. intros _ _. apply hcall_ret; [done|]. apply HQ.
  exists cause, ok. cbn [snd]. rewrite H2. apply elem_of_app. right. left.
Qed.

(** [msg] was sent to [addr]; when it could not be, a shutdown is asked for. *)
Definition replied (msg : bytes) (addr : SocketAddr) (w w' : io_world) : Prop :=
  log w' = log w ++ [Datagram msg addr true] \/ exists ok, log w' = log w ++ [Datagram msg addr false; Queued (Shutdown Unspecified) ok].

Lemma hcall_reply msg addr h w (Q : () -> DhtHandler -> io_world -> Prop) : handler_ok h -> (forall w', replied msg addr w w' -> Q () h w') -> hcall (send_reply msg addr) h w Q.
Proof.
  intros Hh HQ. apply hcall_bind. pose proof (out_send_spec (msg, addr) w) as Hs. destruct (out_send _ w) as [ok w'] eqn:E. destruct Hs as [H1 H2].
  apply hcall_io; [done|rewrite E; by eapply said_grows|]. rewrite E. intros _ _. cbn [fst snd]. destruct ok; [apply hcall_ret; [done|]; apply HQ; by left|].
  apply hcall_bind. pose proof (channel_send_spec (Shutdown Unspecified) w') as Hs. destruct (channel_send _ w') as [ok w''] eqn:E'. destruct Hs as [H3 H4].
  apply hcall_io; [done|rewrite E'; by eapply said_grows|]. rewrite E'. intros _ _. apply hcall_ret; [done|]. apply HQ. right. exists ok. cbn [snd]. by rewrite H4, H2, <- app_assoc.
Qed.

Lemma retain_sent_grows e l : forall w, grows w (retain_sent e l w).2.
Proof.
  induction l as [|x l IH]; intros w; cbn [retain_sent]; [apply grows_refl|]. pose proof (event_send_spec x e w) as Hs. destruct (event_send x e w) as [ok w1].
  destruct Hs as [H1 H2]. specialize (IH w1). destruct (retain_sent e l w1) as [l' w2]. cbn [snd] in *. eapply grows_trans; [by eapply said_grows|done].
Qed.

Lemma hcall_broadcast e h w (Q : () -> DhtHandler -> io_world -> Prop) : handler_ok h ->
  (forall h' w', handler_ok h' -> table_actions h' = table_actions h -> Q () h' w') -> hcall (broadcast_dht_event e) h w Q.
Proof.
  intros Hh HQ. apply hcall_bind, hcall_get; [done|]. intros _ _. apply hcall_bind, hcall_io; [done|apply retain_sent_grows|]. intros _ _.
  assert (forall n, handler_ok (set_event_notifiers n h)) as Hn by (intros n; by apply (handler_ok_fields h); [|apply Hh|..]).
  apply hcall_mod; [apply Hn|done|done|]. by apply HQ.
Qed.

Lemma hcall_table t h w (Q : () -> DhtHandler -> io_world -> Prop) : handler_ok h -> table_ok t -> rt_node_id t = rt_node_id (routing_table h) ->
  Q () (set_routing_table t h) w -> hcall (mod_h (set_routing_table t)) h w Q.
Proof. intros Hh Ht Hi HQ. apply hcall_mod; [by apply (handler_ok_fields h)|done|done|done]. Qed.

Lemma hcall_mark id addr h w (Q : () -> DhtHandler -> io_world -> Prop) : handler_ok h ->
  (forall t w', handler_ok (set_routing_table t h) -> same_table (routing_table h) t -> quiet w w' -> Q () (set_routing_table t h) w') -> hcall (mark_requester id addr) h w Q.
Proof.
  intros Hh HQ. apply hcall_bind, hcall_now; [done|]. intros now w1 Hq1 _ _ _. apply hcall_bind, hcall_get; [done|]. intros _ _. apply hcall_bind, hcall_now; [done|].
  intros now2 w2 Hq2 _ _ _. destruct (find_and_update_ok now2 (remote_request now2) (as_good now id addr) (routing_table h) ltac:(intros m; apply remote_request_same) (hok_table _ Hh)) as (t' & He & Ht' & Hs').
  apply hcall_bind. eapply hcall_lift; [exact He|done|]. intros _ _. apply hcall_table; [done|done|apply Hs'|]. apply HQ; [by apply (handler_ok_fields h)|done|by eapply quiet_trans].
Qed.

Lemma hcall_add n h w (Q : () -> DhtHandler -> io_world -> Prop) : handler_ok h -> sha_wf (node_id n) -> v4_node n -> (forall h' w', handler_ok h' -> Q () h' w') -> hcall (add_to_table n) h w Q.
Proof.
  intros Hh Hw Hn HQ. apply hcall_bind, hcall_get; [done|]. intros _ _. apply hcall_bind, hcall_now; [done|]. intros now w1 _ _ _ _.
  destruct (add_node_ok now (routing_table h) n (hok_table _ Hh) Hw Hn) as (t' & He & Ht' & Hi').
  apply hcall_bind. eapply hcall_lift; [exact He|done|]. intros _ _. apply hcall_table; [done..|]. apply HQ. by apply (handler_ok_fields h).
Qed.

Lemma hcall_questionable l : Forall entry_wf l -> forall h w (Q : () -> DhtHandler -> io_world -> Prop), handler_ok h -> (forall h' w', handler_ok h' -> Q () h' w') -> hcall (add_questionable l) h w Q.
Proof.
  induction 1 as [|p l [Hp Hport] _ IH]; intros h w Q Hh HQ; cbn [add_questionable]; [by apply hcall_ret; auto|].
  apply hcall_bind, hcall_now; [done|]. intros now w1 _ Hnow _ _. destruct (questionable_ok now p Hnow) as (n & He & Hi & Ha).
  apply hcall_bind. eapply hcall_lift; [exact He|done|]. intros _ _. apply hcall_bind, hcall_add; [done|by rewrite Hi|unfold v4_node; by rewrite Ha|].
  intros h' w' Hh' _ _. by apply IH.
Qed.

Lemma hcall_count h w (Q : nat -> DhtHandler -> io_world -> Prop) : handler_ok h -> (forall n w', Q n h w') -> hcall count_good h w Q.
Proof.
  intros Hh HQ. apply hcall_bind, hcall_get; [done|]. intros _ _. apply hcall_bind, hcall_now; [done|]. intros now w1 _ _ _ _. unfold num_good_nodes.
  destruct (closest_nodes_table now (routing_table h) (rt_node_id (routing_table h)) (hok_table _ Hh) (ti_id _ (tok_inv _ (hok_table _ Hh)))) as (l & Hl & _).
  rewrite Hl. by apply (hcall_ret _ _ _ _ Hh).
Qed.
Lemma hcall_should h w (Q : bool -> DhtHandler -> io_world -> Prop) : handler_ok h -> (forall b w', Q b h w') -> hcall should_rebootstrap h w Q.
Proof. intros Hh HQ. apply hcall_bind, hcall_count; [done|]. intros n w' _ _. by apply hcall_ret. Qed.

Lemma hcall_connect info_hash l h : handler_ok h -> forall w (Q : () -> DhtHandler -> io_world -> Prop), (forall w', Q () h w') -> hcall (connect_values info_hash l) h w Q.
Proof.
  intros Hh. induction l as [|a l IH]; intros w Q HQ; cbn [connect_values]; [by apply hcall_ret|]. apply hcall_bind.
  destruct (connect_spec info_hash (SockV4 a) w) as [H1 H2]. apply hcall_io; [done|by eapply said_grows|]. intros _ _. by apply IH.
Qed.
End handler.

(** * The answers of the DHT handler to requests

    What a node that is not read only answers to each request: one datagram to
    the sender, with the transaction id of the request and the id of the node,
    and with the nodes, contacts and tokens the handler holds. *)

(** ** Compact forms *)

Section compact.
Context {CH : Chrono}.

(** The node as an entry of a compact list. *)
Definition entry_of (n : Node) : ShaHash * SocketAddrV4 :=
  (node_id n, match node_addr n with SockV4 a => a | SockV6 _ => mk_SocketAddrV4 (mk_Ipv4Addr x00 x00 x00 x00) 0 end).

Lemma encode_nodes_ok l : Forall (fun n => sha_wf (node_id n) /\ v4_node n) l ->
  exists bs, encode_nodes l = Ok bs /\ nodes_wf (mk_CompactNodeInfo bs) /\ nodes_of (mk_CompactNodeInfo bs) = Ok (entry_of <$> l).
Proof.
  intros Hl. exists (concat (compact_entry <$> (entry_of <$> l))). split; [|].
  - induction Hl as [|n l [Hw Hn] _ IH]; [done|]. cbn [encode_nodes]. unfold v4_node in Hn. destruct (node_addr n) as [a|] eqn:Ha; [|done].
    rewrite (Node_encode_v4 n a) by done. cbn [mbind outcome_bind]. rewrite IH. cbn [mbind outcome_bind]. do 2 f_equal. unfold compact_entry, entry_of. cbn. by rewrite Ha.
  - assert (Forall entry_wf (entry_of <$> l)) as He.
    { apply Forall_fmap. apply (Forall_impl _ _ _ Hl). intros n [Hw Hn]. unfold v4_node in Hn. unfold entry_of. cbn. destruct (node_addr n); by split. }
    split.
    + unfold nodes_wf. cbn [nodes]. rewrite length_concat_entries by done. apply Nat.Div0.mod_mul.
    + unfold nodes_of. pose proof (collect_nodes_entries _ He) as Hc. unfold collect_nodes in Hc. by rewrite Hc.
Qed.

Context {BO : BenOps}.

(** The contacts that have a compact form. *)
Definition v4_contacts (l : list SocketAddr) : list SocketAddrV4 := omap map_ipv4 l.
Definition contact_value (a : SocketAddrV4) : bytes := contact_bytes (SockV4 a).

Lemma length_contact a : length (contact_value a) = 6.
Proof. by destruct a as [[]]. Qed.

Lemma contact_bytes_v4 l : concat (contact_bytes <$> l) = concat (contact_value <$> v4_contacts l).
Proof. induction l as [|[a|a] l IH]; [done| |done]. cbn. by rewrite IH. Qed.

Lemma length_contacts cs : length (concat (contact_value <$> cs)) = length cs * 6.
Proof. induction cs as [|c cs IH]; [done|]. cbn [fmap list_fmap concat length]. rewrite length_app, length_contact, IH. lia. Qed.

Lemma contact_info_ok cs : contact_info_bencode (concat (contact_value <$> cs)) = Ok (ben_bytes <$> (contact_value <$> cs)).
Proof.
  unfold contact_info_bencode. rewrite length_contacts, Nat.div_mul by lia.
  assert (forall dn todo, cs = dn ++ todo -> foldl (fun acc i => l ← acc; chunk ← slice_checked (concat (contact_value <$> cs)) (i * 6) (i * 6 + 6); Ok (l ++ [ben_bytes chunk]))
    (Ok (E := Empty_set) (ben_bytes <$> (contact_value <$> dn))) (seq (length dn) (length todo)) = Ok (ben_bytes <$> (contact_value <$> cs))) as Hf; [|by apply (Hf [] cs)].
  intros dn todo. revert dn. induction todo as [|c todo IH]; intros dn E; cbn [length seq foldl]; [by rewrite E, app_nil_r|]. cbn [mbind outcome_bind].
  rewrite slice_checked_eq by (rewrite length_contacts, E, length_app; cbn [length]; lia). cbn [mbind outcome_bind].
  assert (slice (concat (contact_value <$> cs)) (length dn * 6) (length dn * 6 + 6) = contact_value c) as ->.
  { unfold slice. rewrite E, fmap_app, concat_app, drop_app_length' by (by rewrite length_contacts). cbn [fmap list_fmap concat].
    rewrite take_app_length' by (rewrite length_contact; lia). done. }
  specialize (IH (dn ++ [c])). rewrite length_app, !fmap_app in IH. cbn [length] in IH. rewrite Nat.add_1_r in IH. apply IH. by rewrite <- app_assoc.
Qed.
End compact.

(** ** Answers *)

Section answers.
Context {CH : Chrono} {SH : Sha1} {IO : DhtIo} {IS : DhtIoSpec} {BO : BenOps} {BL : BenLaws}.

Definition our_id (h : DhtHandler) : ShaHash := rt_node_id (routing_table h).

(** The compact form of the eight nodes nearest to [id] in the table of the handler, requests that came in aside. *)
Definition closest_compact (h : DhtHandler) (id : ShaHash) (ns : CompactNodeInfo) : Prop :=
  exists now t l, same_table (routing_table h) t /\ closest_nodes now t id = Ok l /\ nodes_of ns = Ok (entry_of <$> take 8 l) /\ nodes_wf ns.

(** What is answered to a request, and the stores afterwards. *)
Definition answer (h : DhtHandler) (addr : SocketAddr) (m : RequestType) (rsp : MessageType) (stores : AnnounceStorage) : Prop :=
  match m with
  | RqPing p => rsp = MtResponse (RsPing (mk_PingResponse (pq_trans_id p) (our_id h))) /\ stores = active_stores h
  | RqFindNode f => exists ns, closest_compact h (fq_target_id f) ns /\
      rsp = MtResponse (RsFindNode (mk_FindNodeResponse (fq_trans_id f) (our_id h) ns)) /\ stores = active_stores h
  | RqGetPeers g => exists ns now d, closest_compact h (gq_info_hash g) ns /\
      let contacts := v4_contacts (find (active_stores h) (gq_info_hash g) now).1 in
      let token := (checkout (token_store h) (from_socket_addr addr) d).1 in
      let info := match contacts with [] => CiNodes ns | _ => CiBoth ns (mk_CompactValueInfo (ben_bytes <$> (contact_value <$> contacts))) end in
      rsp = MtResponse (RsGetPeers (mk_GetPeersResponse (gq_trans_id g) (our_id h) (Some (Token.token token)) info)) /\
      stores = (find (active_stores h) (gq_info_hash g) now).2
  | RqAnnouncePeer a => exists now item_time d,
      let valid := match Token_new (aq_token a) with Ok t => (checkin (token_store h) (from_socket_addr addr) t d).1 | _ => false end in
      let '(stored, stores') := add (active_stores h) (aq_info_hash a) (connect_addr (aq_port a) addr) now item_time in
      if valid then stores = stores' /\
        rsp = if (stored : bool) then MtResponse (RsAnnouncePeer (mk_AnnouncePeerResponse (aq_trans_id a) (our_id h)))
              else MtError (ErrorMessage_new (aq_trans_id a) ServerError (bstr "Announce Storage Is Full"))
      else stores = active_stores h /\ rsp = MtError (ErrorMessage_new (aq_trans_id a) ProtocolError (bstr "Received An Invalid Token"))
  end.

(** One reply is sent to the sender. *)
Definition answered (h : DhtHandler) (addr : SocketAddr) (m : RequestType) (w : io_world) (h' : DhtHandler) (w' : io_world) : Prop :=
  exists rsp, answer h addr m rsp (active_stores h') /\ replied (Message_encode rsp) addr w w'.

Lemma replied_quiet msg addr w w' w'' : quiet w w' -> replied msg addr w' w'' -> replied msg addr w w''.
Proof. unfold replied. by intros [_ ->]. Qed.

Lemma ping_answer p addr h w : handler_ok h -> hcall (handle_ping p addr) h w (fun _ h' w' => answered h addr (RqPing p) w h' w').
Proof.
  intros Hh. apply hcall_bind, hcall_mark; [done|]. intros t w1 Hh1 Hi Hq _ _. apply hcall_bind, hcall_get; [done|]. intros _ _.
  apply hcall_reply; [done|]. intros w2 Hr. eexists. split; [by split|]. cbn [our_id]. eapply replied_quiet; [done|]. unfold our_id. rewrite <- (proj1 Hi). exact Hr.
Qed.

Lemma closest_bytes_ok id h0 h w (Q : bytes -> DhtHandler -> io_world -> Prop) : handler_ok h -> same_table (routing_table h0) (routing_table h) -> sha_wf id ->
  (forall bs w', quiet w w' -> closest_compact h0 id (mk_CompactNodeInfo bs) -> Q bs h w') -> hcall (closest_nodes_bytes id) h w Q.
Proof.
  intros Hh Hst Hid HQ. apply hcall_bind, hcall_get; [done|]. intros _ _. apply hcall_bind, hcall_now; [done|]. intros now w1 Hq _ _ _.
  destruct (closest_nodes_table now (routing_table h) id (hok_table _ Hh) Hid) as (l & Hl & Hall). apply hcall_bind. eapply hcall_lift; [exact Hl|done|]. intros _ _.
  destruct (encode_nodes_ok (take 8 l)) as (bs & He & Hw & Hn); [by apply Forall_take|]. eapply hcall_lift; [exact He|done|]. apply HQ; [done|].
  exists now, (routing_table h), l. done.
Qed.

Lemma find_node_answer f addr h w : handler_ok h -> sha_wf (fq_target_id f) -> hcall (handle_find_node f addr) h w (fun _ h' w' => answered h addr (RqFindNode f) w h' w').
Proof.
  intros Hh Hid. apply hcall_bind, hcall_mark; [done|]. intros t w1 Hh1 Hi Hq _ _. apply hcall_bind, (closest_bytes_ok _ h); [done|done|done|]. intros bs w2 Hq2 Hc _ _.
  apply hcall_bind, hcall_get; [done|]. intros _ _. pose proof Hc as (_ & _ & _ & _ & _ & _ & Hw). unfold FindNodeResponse_new.
  rewrite (nodes_read _ (mk_CompactNodeInfo bs)) by done. apply hcall_bind. eapply hcall_lift; [done|done|]. intros _ _.
  apply hcall_reply; [done|]. intros w3 Hr. eexists. split; [eexists; by split|]. eapply replied_quiet; [by eapply quiet_trans|]. unfold our_id. rewrite <- (proj1 Hi). exact Hr.
Qed.

Lemma hcall_stores x h w (Q : () -> DhtHandler -> io_world -> Prop) : handler_ok h -> Q () (set_active_stores x h) w -> hcall (mod_h (set_active_stores x)) h w Q.
Proof. intros Hh HQ. apply hcall_mod; [by apply (handler_ok_fields h); [|apply Hh|..]|done|done|done]. Qed.
Lemma hcall_tokens x h w (Q : () -> DhtHandler -> io_world -> Prop) : handler_ok h -> Q () (set_token_store x h) w -> hcall (mod_h (set_token_store x)) h w Q.
Proof. intros Hh HQ. apply hcall_mod; [by apply (handler_ok_fields h); [|apply Hh|..]|done|done|done]. Qed.
Lemma hcall_draw h w (Q : draw -> DhtHandler -> io_world -> Prop) : handler_ok h -> (forall d w', quiet w w' -> Q d h w') -> hcall (hio token_draw) h w Q.
Proof. intros Hh HQ. pose proof (token_draw_quiet w) as Hq. apply hcall_io; [done|by apply quiet_grows|]. by apply HQ. Qed.

(** What is said of the contacts. *)
Definition contacts_info (ns : CompactNodeInfo) (cs : list SocketAddrV4) : CompactInfoType :=
  match cs with [] => CiNodes ns | _ => CiBoth ns (mk_CompactValueInfo (ben_bytes <$> (contact_value <$> cs))) end.

Lemma contacts_info_ok ns cs h w (Q : CompactInfoType -> DhtHandler -> io_world -> Prop) : handler_ok h -> Q (contacts_info ns cs) h w ->
  hcall (if decide (ben_bytes <$> (contact_value <$> cs) <> []) then
     values ← lift (unwrap_result (CompactValueInfo_new ben_as_bytes (ben_bytes <$> (contact_value <$> cs)))); mret (CiBoth ns values)
   else mret (CiNodes ns)) h w Q.
Proof.
  intros Hh HQ. destruct cs as [|c cs]; [by apply hcall_ret|]. rewrite decide_True by done. set (vs := ben_bytes <$> _).
  assert (Forall2 (is_value ben_as_bytes) vs (bytes_be_to_sock_v4 <$> (contact_value <$> c :: cs))) as Hv.
  { unfold vs. clear -BL. induction (c :: cs) as [|c' cs' IH]; [constructor|]. constructor; [|done]. exists (contact_value c'). split; [apply as_bytes_bytes|]. split; [apply length_contact|done]. }
  pose proof (check_values_skip ben_as_bytes vs _ Hv 0 []) as Hc. rewrite app_nil_r in Hc. unfold CompactValueInfo_new. rewrite Hc.
  apply hcall_bind. eapply hcall_lift; [done|done|]. intros _ _. by apply hcall_ret.
Qed.

Lemma get_peers_answer g addr h w : handler_ok h -> sha_wf (gq_info_hash g) -> hcall (handle_get_peers g addr) h w (fun _ h' w' => answered h addr (RqGetPeers g) w h' w').
Proof.
  intros Hh Hid. apply hcall_bind, hcall_mark; [done|]. intros t w1 Hh1 Hi Hq1 _ _. apply hcall_bind, hcall_get; [done|]. intros _ _.
  apply hcall_bind, hcall_now; [done|]. intros now w2 Hq2 _ _ _. cbn [active_stores set_routing_table].
  destruct (find (active_stores h) (gq_info_hash g) now) as [contacts stores] eqn:Hf. apply hcall_bind, hcall_stores; [done|]. intros _ Hh2.
  rewrite contact_bytes_v4. apply hcall_bind. eapply hcall_lift; [apply contact_info_ok|done|]. intros _ _.
  apply hcall_bind, (closest_bytes_ok _ h); [done|done|done|]. intros bs w3 Hq3 Hc _ _. apply hcall_bind, hcall_get; [done|]. intros _ _.
  apply hcall_bind, hcall_draw; [done|]. intros d w4 Hq4 _ _. cbn [token_store set_routing_table set_active_stores].
  destruct (checkout (token_store h) (from_socket_addr addr) d) as [token store] eqn:Hk. apply hcall_bind, hcall_tokens; [done|]. intros _ Hh3.
  pose proof Hc as (_ & _ & _ & _ & _ & _ & Hw). unfold CompactNodeInfo_new. unfold nodes_wf in Hw. rewrite decide_False by (cbn [nodes] in Hw; lia).
  apply hcall_bind. eapply hcall_lift; [done|done|]. intros _ _. apply hcall_bind, contacts_info_ok; [done|]. intros _ _.
  apply hcall_bind, hcall_get; [done|]. intros _ _. apply hcall_reply; [done|]. intros w5 Hr.
  eexists. split; [exists (mk_CompactNodeInfo bs), now, d; split; [done|]; rewrite Hf, Hk; cbn zeta; split; [done|done]|].
  eapply replied_quiet; [eapply quiet_trans; [|eapply quiet_trans; [|eapply quiet_trans]]; done|]. unfold our_id. rewrite <- (proj1 Hi). exact Hr.
Qed.

Lemma validate_token_ok bs addr h w (Q : bool -> DhtHandler -> io_world -> Prop) : handler_ok h ->
  (forall store d w', handler_ok (set_token_store store h) -> quiet w w' ->
    Q (match Token_new bs with Ok t => (checkin (token_store h) (from_socket_addr addr) t d).1 | _ => false end) (set_token_store store h) w') ->
  hcall (validate_token bs addr) h w Q.
Proof.
  intros Hh HQ. unfold validate_token. destruct (Token_new bs) as [tk| | |] eqn:Hk.
  - apply hcall_bind, hcall_get; [done|]. intros _ _. apply hcall_bind, hcall_draw; [done|]. intros d w1 Hq _ _.
    destruct (checkin (token_store h) (from_socket_addr addr) tk d) as [valid store] eqn:Hc. apply hcall_bind, hcall_tokens; [done|]. intros _ Hh1.
    apply hcall_ret; [done|]. specialize (HQ store d w1 Hh1 Hq). by rewrite Hc in HQ.
  - apply hcall_ret; [done|]. specialize (HQ (token_store h) (token_draw w).1 w). destruct h. apply HQ; [done|by split].
  - apply hcall_ret; [done|]. specialize (HQ (token_store h) (token_draw w).1 w). destruct h. apply HQ; [done|by split].
  - apply hcall_ret; [done|]. specialize (HQ (token_store h) (token_draw w).1 w). destruct h. apply HQ; [done|by split].
Qed.

Lemma announce_answer a addr h w : handler_ok h -> hcall (handle_announce_peer a addr) h w (fun _ h' w' => answered h addr (RqAnnouncePeer a) w h' w').
Proof.
  intros Hh. apply hcall_bind, hcall_mark; [done|]. intros t w1 Hh1 Hi Hq1 _ _. apply hcall_bind, validate_token_ok; [done|]. intros store d w2 Hh2 Hq2 _ _.
  cbn [token_store set_routing_table]. set (valid := match Token_new (aq_token a) with Ok _ => _ | _ => _ end). apply hcall_bind. destruct valid eqn:Hv; cbn [negb].
  - apply hcall_bind, hcall_get; [done|]. intros _ _. apply hcall_bind, hcall_now; [done|]. intros now w3 Hq3 _ _ _. apply hcall_bind, hcall_now; [done|]. intros item w4 Hq4 _ _ _.
    cbn [active_stores set_routing_table set_token_store].
    destruct (add (active_stores h) (aq_info_hash a) (connect_addr (aq_port a) addr) now item) as [stored stores] eqn:Ha.
    apply hcall_bind, hcall_stores; [done|]. intros _ Hh3.
    assert (forall rsp w5, rsp = (if (stored : bool) then MtResponse (RsAnnouncePeer (mk_AnnouncePeerResponse (aq_trans_id a) (our_id h)))
      else MtError (ErrorMessage_new (aq_trans_id a) ServerError (bstr "Announce Storage Is Full"))) -> replied (Message_encode rsp) addr w4 w5 ->
      answered h addr (RqAnnouncePeer a) w (set_active_stores stores (set_token_store store (set_routing_table t h))) w5) as Hans.
    { intros rsp w5 Hrsp Hr. exists rsp. split; [exists now, item, d; rewrite Ha; fold valid; rewrite Hv; by split|].
      eapply replied_quiet; [|exact Hr]. eapply quiet_trans; [|eapply quiet_trans; [|eapply quiet_trans]]; done. }
    destruct stored.
    + apply hcall_bind, hcall_get; [done|]. intros _ _. apply hcall_ret; [done|]. intros _ _. apply hcall_reply; [done|]. intros w5 Hr.
      eapply Hans; [done|]. cbn [Message_encode]. unfold our_id. rewrite <- (proj1 Hi). exact Hr.
    + apply hcall_ret; [done|]. intros _ _. apply hcall_reply; [done|]. intros w5 Hr. by eapply Hans.
  - apply hcall_ret; [done|]. intros _ _. apply hcall_reply; [done|]. intros w3 Hr. eexists. split.
    + exists (now1 d), (now1 d), d. fold valid. rewrite Hv. destruct (add _ _ _ _ _). split; [done|reflexivity].
    + eapply replied_quiet; [by eapply quiet_trans|exact Hr].
Qed.

Lemma answer_trans_id h addr m rsp stores : answer h addr m rsp stores -> message_trans_id rsp = message_trans_id (MtRequest m).
Proof.
  destruct m as [p|f|g|a]; cbn [answer].
  - by intros [-> _].
  - by intros (ns & _ & -> & _).
  - by intros (ns & now & d & _ & -> & _).
  - intros (now & item & d & Ha). destruct (add _ _ _ _ _) as [stored stores']. destruct (match Token_new (aq_token a) with Ok _ => _ | _ => _ end).
    + destruct Ha as [_ ->]. by destruct stored.
    + by destruct Ha as [_ ->].
Qed.
End answers.
