(* ===== verification/DhtRuns.v ===== *)
(** * Runs of the DHT handler

    Every task and every timeout comes back and keeps the invariant of
    [DhtHandlerProofs], and so do the runs made of them. *)

From stdpp Require Import prelude list gmap strings.
From Stdlib Require Import ZArith Lia Strings.Byte.
From S2P Require Import Prelude Bytes Bencode Convert Sha Trans Node Bucket Table TableProofs Closest Storage Token Transaction Compact DhtMessage DhtMessageProofs DhtBootstrap DhtLookup DhtHandler DhtSpec DhtLookupProofs DhtHandlerProofs.

Section runs.
Context {CH : Chrono} {SH : Sha1} {IO : DhtIo} {IS : DhtIoSpec} {BO : BenOps} {BL : BenLaws}.

(** ** Running an action *)

Lemma run_action_fr {A B} id (m : actM A B) a h w Q : handler_ok h -> act_fr id m a (routing_table h) w Q ->
  wp (run_action m a) (h, w) (fun r s => hframe id h w s.1 s.2 /\ Q r.1 r.2 s.2).
Proof.
  intros Hh (b & [a' [t' w']] & Hm & Ht & Hi & Hf & HQ). cbn in *. eexists (b, a'), (set_routing_table t' h, w'). unfold run_action. rewrite Hm. split; [done|].
  cbn [fst snd]. split; [|done]. split; [by apply (handler_ok_fields h)|done].
Qed.

Lemma run_action_keeps {A B} (m : actM A B) a h w (Q : B * A -> DhtHandler -> io_world -> Prop) : handler_ok h ->
  act_wp m a (routing_table h) w (fun b a' w' => forall h', handler_ok h' -> Q (b, a') h' w') -> hcall (run_action m a) h w Q.
Proof.
  intros Hh (b & [a' [t' w']] & Hm & Ht & Hi & Hf & HQ). cbn in *. eexists (b, a'), (set_routing_table t' h, w'). unfold run_action. rewrite Hm. split; [done|].
  assert (handler_ok (set_routing_table t' h)) as Hh' by (by apply (handler_ok_fields h)). cbn [fst snd]. split; [|by apply HQ]. by split_and!.
Qed.

(** Putting an action back. *)
Lemma insert_ok id a h : handler_ok h -> act_ok id a -> handler_ok (set_table_actions (<[id := a]> (table_actions h)) h).
Proof. intros [H1 H2 H3 H4] Ha. split; [done|done| |done]. cbn. intros id' a' [[<- <-]|[_ H]]%lookup_insert_Some; [done|by apply H3]. Qed.
Lemma delete_ok id h : handler_ok h -> handler_ok (set_table_actions (delete id (table_actions h)) h).
Proof. intros [H1 H2 H3 H4]. split; [done|done| |done]. cbn. intros id' a' [_ H]%lookup_delete_Some. by apply H3. Qed.
Lemma insert_inv id a h w : handler_ok h -> act_ok id a -> asked w \/ others id h w /\ act_live id a w -> inv (set_table_actions (<[id := a]> (table_actions h)) h) w.
Proof.
  intros Hh Ha Hw. split; [by apply insert_ok|]. destruct Hw as [?|[Ho Hl]]; [by left|right]. intros id' a'. cbn.
  intros [[<- <-]|[Hne H]]%lookup_insert_Some; [done|]. by apply Ho.
Qed.

Lemma wp_insert id a h w (Q : () -> DhtHandler * io_world -> Prop) : Q () (set_table_actions (<[id := a]> (table_actions h)) h, w) -> wp (insert_action id a) (h, w) Q.
Proof. intros HQ. by eexists _, _. Qed.
Lemma wp_mod f h w (Q : () -> DhtHandler * io_world -> Prop) : Q () (f h, w) -> wp (mod_h f) (h, w) Q.
Proof. intros HQ. by eexists _, _. Qed.
Lemma wp_get h w (Q : DhtHandler -> DhtHandler * io_world -> Prop) : Q h (h, w) -> wp get_h (h, w) Q.
Proof. intros HQ. by eexists _, _. Qed.

(** A last call that leaves the actions alone. *)
Lemma wp_last (m : hM ()) h w (P : Prop) : handler_ok h -> hcall m h w (fun _ _ w' => P -> asked w') -> (P \/ inv h w) -> wp m (h, w) (fun _ s => inv s.1 s.2).
Proof.
  intros Hh Hm Hp. eapply wp_mono; [exact Hm|]. intros [] [h' w'] [Hk Ha]. cbn in *. destruct Hp as [Hp|Hi]; [|by eapply hkeeps_inv].
  split; [apply Hk|]. left. auto.
Qed.

(** ** Refreshing *)

Lemma refresh_timeout_ok tid h w : let id := TransactionID_action_id tid in handler_ok h ->
  asked w \/ others id h w /\ (forall a, table_actions h !! id = Some a -> (forall r, a <> ActRefresh r) -> act_live id a w) ->
  wp (handle_check_table_refresh tid) (h, w) (fun _ s => inv s.1 s.2).
Proof.
  intros id Hh Hw. apply wp_bind, wp_get. fold id. destruct (table_actions h !! id) as [[l|r|b n]|] eqn:Ha.
  2: { apply wp_hcall, run_action_keeps; [done|]. eapply act_wp_mono; [apply (continue_refresh_spec id); [apply Hh|exact (hok_actions _ Hh _ _ Ha)]|].
    intros st r' w' Hg [Hr Hl] h' Hh' Hk _. apply wp_bind, wp_insert. set (h2 := set_table_actions _ _). assert (handler_ok h2) as Hh2 by (by apply insert_ok).
    assert (st = Refreshing -> inv h2 w') as Hst.
    { intros E. apply insert_inv; [done|done|]. destruct Hw as [Hw|[Ho _]]; [left; by eapply asked_grows|right]. split; [by eapply hkeeps_others|by apply Hl]. }
    destruct st; [apply wp_ret; by apply Hst|]. eapply (wp_last _ _ _ True); [done| |by left]. apply hcall_shutdown; auto. }
  all: apply wp_ret; cbn [fst snd]; split; [done|]; destruct Hw as [?|[Ho Hi]]; [by left|right]; intros id' a' Ha'; (destruct (decide (id' = id)) as [->|?]; [|by apply Ho]);
    rewrite Ha in Ha'; first [done|injection Ha' as <-; apply Hi; [done|by intros ?]].
Qed.

(** ** Starting a search *)

Lemma start_lookup_ok info_hash ann h w : inv h w -> sha_wf info_hash -> wp (handle_start_lookup info_hash ann) (h, w) (fun _ s => inv s.1 s.2).
Proof.
  intros Hi Hw. pose proof (proj1 Hi) as Hh. apply wp_bind, wp_get. apply wp_hcall, hcall_rand; [done|]. intros rand w1 Hg1 Hk1 _.
  destruct (aid_ok_step (aid_generator h) rand (hok_aid _ Hh)) as (mid & aid & He & Haid & Hgen). apply wp_bind. eapply wp_lift; [exact He|]. cbn beta iota.
  apply wp_bind, wp_mod. set (h1 := set_aid_generator aid h). assert (handler_ok h1) as Hh1 by (by split; apply Hh || done).
  assert (inv h1 w1) as Hi1 by (apply (hkeeps_inv h w); [|done]; by split_and!). set (id := MIDGenerator_action_id mid) in *.
  destruct (bootstrapping h).
  - apply wp_mod. cbn. assert (handler_ok (set_future_actions (future_actions h1 ++ [PostLookup info_hash ann]) h1)) as Hh2.
    { destruct Hh1 as [K1 K2 K3 K4]. split; [done..|]. cbn. apply Forall_app. split; [done|]. by repeat constructor. }
    apply (hkeeps_inv h1 w1); [|done]. split_and!; try done. apply grows_refl.
  - apply wp_bind. destruct (lookup_new_spec id (rt_node_id (routing_table h1)) info_hash mid ann (routing_table h1) w1 (hok_table _ Hh1) Hw Hgen)
      as (r & [t' w'] & Hr & Ht & Hid & Hg & Hl). cbn in Ht, Hid, Hg, Hl. eexists r, (set_routing_table t' h1, w'). rewrite Hr. split; [done|].
    assert (hkeeps h1 w1 (set_routing_table t' h1) w') as Hk by (split_and!; try done; by apply (handler_ok_fields h1)).
    assert (handler_ok (set_routing_table t' h1)) as Hh2 by apply Hk.
    destruct r as [l|].
    + apply wp_insert. destruct Hl as [Hl1 Hl2]. apply insert_inv; [done|done|]. destruct (hkeeps_inv _ _ _ _ Hk Hi1) as [_ [?|Hlive]]; [by left|right].
      split; [|done]. intros id' a' _ Ha'. by apply Hlive.
    + eapply (wp_last _ _ _ True); [done| |by left]. apply hcall_shutdown; auto.
Qed.

(** ** Completing a bootstrap *)

Lemma post_action_ok a h w : inv h w -> post_ok a -> wp (start_post_action a) (h, w) (fun _ s => inv s.1 s.2).
Proof.
  intros Hi Ha. destruct a as [ih ann|r tid]; cbn [start_post_action]; [by apply start_lookup_ok|]. cbn in Ha. destruct Hi as [Hh Hw].
  apply wp_bind, wp_insert. apply refresh_timeout_ok; [by apply insert_ok|]. destruct Hw as [?|Hw]; [by left|right]. split.
  - intros id' a' Hne. cbn. rewrite lookup_insert_ne by done. apply Hw.
  - intros a. cbn. rewrite lookup_insert_eq. intros [= <-] Hr. by destruct (Hr r).
Qed.

Lemma post_actions_ok l : Forall post_ok l -> forall h w, inv h w -> wp (start_post_actions l) (h, w) (fun _ s => inv s.1 s.2).
Proof.
  induction 1 as [|a l Ha _ IH]; intros h w Hi; cbn [start_post_actions]; [by apply wp_ret|]. apply wp_bind. eapply wp_mono; [by apply post_action_ok|].
  intros [] [h' w'] Hi'. by apply IH.
Qed.

Lemma bootstrap_completed_ok id h w : handler_ok h -> asked w \/ others id h w -> wp (broadcast_bootstrap_completed id) (h, w) (fun _ s => inv s.1 s.2).
Proof.
  intros Hh Hw. apply wp_hcall, hcall_broadcast; [done|]. intros h1 w1 Hh1 Hta Hk _.
  assert (asked w1 \/ others id h1 w1) as Hw1 by (destruct Hw as [Hw|Hw]; [left; eapply asked_grows, Hw; apply Hk|right; by eapply hkeeps_others]).
  apply wp_bind, wp_mod. apply wp_bind, wp_mod. apply wp_bind, wp_get. apply wp_bind, wp_mod.
  apply post_actions_ok; [apply Hh1|]. set (h2 := set_future_actions _ _). pose proof (delete_ok id h1 Hh1) as [K1 K2 K3 K4].
  split; [split; [done..|constructor]|]. destruct Hw1 as [?|Ho]; [by left|right]. intros id' a'. cbn. intros [Hne Ha]%lookup_delete_Some. by apply Ho.
Qed.

(** ** The status of a bootstrap *)

Lemma rebootstrap_ok id fuel b n h w : 0 < fuel -> handler_ok h -> boot_ok id b ->
  hcall (attempt_rebootstrap fuel b n) h w (fun r h' w' => boot_ok id r.2.1 /\ match r.1 with Some true => boot_live id r.2.1 w' | Some false => True | None => asked w' end).
Proof.
  intros Hf Hh Hb. destruct fuel as [|fuel]; [lia|]. cbn [attempt_rebootstrap]. case_decide.
  - apply hcall_bind, hcall_count; [done|]. intros k w1 _ _. case_decide; [|by apply hcall_ret].
    apply hcall_bind, hcall_shutdown; [done|]. intros w2 Ha _ _. by apply hcall_ret.
  - apply hcall_bind, run_action_keeps; [done|]. eapply act_wp_mono; [apply (start_bootstrap_spec id); [apply Hh|done]|].
    intros st b' w1 _ [[Hb' Hst] Hne] h' Hh' _ _. destruct st; [done|by apply hcall_ret|done|].
    apply hcall_bind, hcall_shutdown; [done|]. intros w2 Ha _ _. by apply hcall_ret.
Qed.

(** The action is put back, and called again unless the bootstrap is complete or a shutdown asked for. *)
Definition boot_back (id : ActionID) (h : DhtHandler) (w : io_world) (complete : bool) (h' : DhtHandler) (w' : io_world) : Prop :=
  grows w w' /\ handler_ok h' /\ exists b n, table_actions h' = <[id := ActBootstrap b n]> (table_actions h) /\ (complete = false -> asked w' \/ boot_live id b w').

Lemma after_bootstrap_ok id st b n h w : handler_ok h -> boot_post id st b w -> wp (after_bootstrap_status id st b n) (h, w) (fun c s => boot_back id h w c s.1 s.2).
Proof.
  intros Hh [Hb Hst]. apply wp_hcall.
  assert (forall (complete : bool) b n h' w', hkeeps h w h' w' -> boot_ok id b -> (complete = false -> asked w' \/ boot_live id b w') ->
    wp (_ ← insert_action id (ActBootstrap b n); mret complete) (h', w') (fun c s => boot_back id h w c s.1 s.2)) as Hback.
  { intros complete b' n' h' w' (Hh' & Hta & _ & Hg) Hb' Hl. apply wp_bind, wp_insert. apply wp_ret. split; [done|]. split; [by apply insert_ok|].
    exists b', n'. split; [cbn; by rewrite Hta|done]. }
  destruct st.
  - done.
  - apply hcall_ret; [done|]. intros Hk _. apply Hback; auto.
  - apply hcall_bind, hcall_should; [done|]. intros again w1 Hk1 _. destruct again; [|apply hcall_ret; [done|]; intros Hk _; by apply Hback].
    apply hcall_bind. eapply hcall_mono; [apply (rebootstrap_ok id); [lia|done|done]|]. intros [r [b' n']] h' w' [Hb' Hr] Hk' Hh'. cbn in Hb', Hr.
    apply hcall_ret; [done|]. intros Hk'' _. apply Hback; [done|done|].
    intros E. destruct r as [[]|]; [by right| |by left]. by rewrite bool_decide_eq_true_2 in E.
  - apply hcall_bind, hcall_shutdown; [done|]. intros w1 Ha Hk1 _. apply hcall_ret; [done|]. intros Hk _. apply Hback; [done|done|by left].
Qed.

Lemma bootstrap_end_ok id complete h w h' w' : boot_back id h w complete h' w' -> asked w \/ others id h w ->
  wp (if (complete : bool) then broadcast_bootstrap_completed id else mret ()) (h', w') (fun _ s => inv s.1 s.2).
Proof.
  intros (Hg & Hh' & b & n & Hta & Hl) Hw.
  assert (asked w' \/ others id h' w') as Hw'.
  { destruct Hw as [Hw|Hw]; [left; by eapply asked_grows|right]. intros id' a Hne. rewrite Hta, lookup_insert_ne by done. intros Ha. eapply act_live_grows; [done|]. by apply Hw. }
  destruct complete; [by apply bootstrap_completed_ok|]. apply wp_ret. split; [done|]. destruct (Hl eq_refl) as [?|Hlive]; [by left|]. destruct Hw' as [?|Ho]; [by left|right].
  cbn. intros id' a Ha. destruct (decide (id' = id)) as [->|Hne]; [|by apply Ho]. rewrite Hta, lookup_insert_eq in Ha. by injection Ha as <-.
Qed.

(** A call of a bootstrap and what follows it. *)
Lemma bootstrap_call_ok id m b n h w : handler_ok h -> asked w \/ others id h w -> act_fr id m b (routing_table h) w (boot_post id) ->
  wp ('(status, bootstrap) ← run_action m b; after_bootstrap_status id status bootstrap n) (h, w)
    (fun complete s => wp (if (complete : bool) then broadcast_bootstrap_completed id else mret ()) s (fun _ s => inv s.1 s.2)).
Proof.
  intros Hh Hw Hm. apply wp_bind. eapply wp_mono; [by apply run_action_fr|]. intros [st b'] [h1 w1] [Hf Hp]. cbn in Hf, Hp.
  eapply wp_mono; [apply after_bootstrap_ok; [apply Hf|done]|]. intros complete [h2 w2] Hb. cbn in Hb. eapply bootstrap_end_ok; [exact Hb|].
  destruct Hw as [Hw|Hw]; [left; eapply asked_frame, Hw; apply Hf|right; by eapply hframe_others].
Qed.

Lemma resolve_routers_quiet l : forall w, quiet w (resolve_routers l w).2.
Proof.
  induction l as [|r l IH]; intros w; cbn [resolve_routers]; [by split|].
  assert (quiet w (ipv4_addr r w).2) as Hq.
  { unfold ipv4_addr. assert (quiet w (socket_addrs r w).2) as Hq; [|by destruct (socket_addrs r w)].
    destruct r; cbn [socket_addrs]; [pose proof (resolve_spec UTORRENT_DHT w) as Hs|pose proof (resolve_spec BITTORRENT_DHT w) as Hs
      |pose proof (resolve_spec BITCOMET_DHT w) as Hs|pose proof (resolve_spec TRANSMISSION_DHT w) as Hs|by split]; by destruct (resolve _ w). }
  destruct (ipv4_addr r w) as [a w1]. specialize (IH w1). destruct (resolve_routers l w1) as [l' w2]. cbn [snd] in *. by eapply quiet_trans.
Qed.

Lemma start_bootstrap_ok routers nodes h w : inv h w -> wp (handle_start_bootstrap routers nodes) (h, w) (fun _ s => inv s.1 s.2).
Proof.
  intros Hi. pose proof (proj1 Hi) as Hh. apply wp_bind, wp_get. apply wp_hcall, hcall_rand; [done|]. intros rand w1 Hg1 Hk1 _.
  destruct (aid_ok_step (aid_generator h) rand (hok_aid _ Hh)) as (mid & aid & He & Haid & Hgen). apply wp_bind. eapply wp_lift; [exact He|]. cbn beta iota.
  apply wp_bind, wp_mod. set (h1 := set_aid_generator aid h). assert (handler_ok h1) as Hh1 by (by split; apply Hh || done).
  assert (inv h1 w1) as Hi1 by (apply (hkeeps_inv h w); [|done]; by split_and!). set (id := MIDGenerator_action_id mid) in *.
  apply wp_hcall, hcall_io; [done|apply quiet_grows, resolve_routers_quiet|]. intros Hk2 _. set (w2 := (resolve_routers routers w1).2) in *.
  set (b := TableBootstrap_new _ _ _ _). assert (boot_ok id b) as Hb by (split; [done|apply (ti_id _ (tok_inv _ (hok_table _ Hh)))]).
  apply wp_hcall, run_action_keeps; [done|]. eapply act_wp_mono; [apply (start_bootstrap_spec id); [apply Hh1|done]|].
  intros st b' w3 _ [Hp _] h3 Hh3 Hk3 _. apply wp_bind, wp_mod. set (h4 := set_bootstrapping true h3). assert (handler_ok h4) as Hh4 by (by apply (handler_ok_fields h3); [|apply Hh3|..]).
  apply wp_bind. eapply wp_mono; [by apply (after_bootstrap_ok id)|]. intros complete [h5 w5] Hback. cbn in Hback. eapply bootstrap_end_ok; [exact Hback|].
  assert (hkeeps h1 w1 h4 w3) as Hk4 by (eapply hkeeps_trans; [exact Hk2|]; destruct Hk3 as (? & ? & ? & ?); by split_and!).
  destruct (hkeeps_inv _ _ _ _ Hk4 Hi1) as [_ [?|Hl]]; [by left|right]. intros id' a' _ Ha'. by apply Hl.
Qed.

Lemma all_live_others id h w : all_live h w -> others id h w.
Proof. intros Hl id' a _. apply Hl. Qed.

(** ** Responses *)

Lemma hkeeps_live h w h' w' : hkeeps h w h' w' -> all_live h w -> all_live h' w'.
Proof. intros (_ & H2 & _ & H4) Hi id a. rewrite H2. intros Ha. eapply act_live_grows; [done|]. by apply Hi. Qed.

Lemma find_node_response_ok f addr h w : handler_ok h -> all_live h w -> v4_addr addr -> is_Some (TransactionID_from_bytes (fr_trans_id f)) ->
  sha_wf (fr_node_id f) -> nodes_wf (fr_nodes f) -> wp (handle_find_node_response f addr) (h, w) (fun _ s => inv s.1 s.2).
Proof.
  intros Hh Hl Ha [tid Htid] Hid Hns. unfold handle_find_node_response. apply wp_bind. eapply wp_lift; [by rewrite Htid|]. set (id := TransactionID_action_id tid).
  apply wp_hcall, hcall_now; [done|]. intros now w1 _ _ Hk1 _. destruct (nodes_of_ok _ Hns) as (l & Hnl & Hwf). apply wp_bind. eapply wp_lift; [exact Hnl|].
  apply wp_hcall, (hcall_questionable l Hwf); [done|]. intros h2 w2 Hh2 Hk2 _. apply (hkeeps_live _ _ _ _ Hk1) in Hl. apply (hkeeps_live _ _ _ _ Hk2) in Hl. clear Hk1 Hk2.
  apply wp_bind, wp_get. apply wp_bind.
  assert (forall h w (Q : () -> DhtHandler -> io_world -> Prop), handler_ok h -> (forall h' w', handler_ok h' -> Q () h' w') ->
    hcall (add_to_table (as_good now (fr_node_id f) addr)) h w Q) as Hadd by (intros; by apply hcall_add).
  destruct (table_actions h2 !! id) as [[lk|rf|b n]|] eqn:Hact.
  - apply wp_ret, wp_ret. split; [done|by right].
  - apply wp_hcall, Hadd; [done|]. intros h3 w3 Hh3 Hk3 _. apply wp_ret, wp_ret. split; [done|right]. by eapply hkeeps_live.
  - apply wp_hcall. assert (forall h3 w3, hkeeps h2 w2 h3 w3 -> handler_ok h3 ->
      wp ('(status, bootstrap) ← run_action (Bootstrap_recv_response tid) b; after_bootstrap_status id status bootstrap n) (h3, w3)
        (fun complete s => wp (if (complete : bool) then broadcast_bootstrap_completed id else mret ()) s (fun _ s => inv s.1 s.2))) as Hrest.
    { intros h3 w3 Hk3 Hh3. pose proof (hkeeps_live _ _ _ _ Hk3 Hl) as Hl3. apply bootstrap_call_ok; [done|right; by apply all_live_others|].
      apply Bootstrap_response_spec; [apply Hh3|exact (hok_actions _ Hh2 _ _ Hact)|]. apply (Hl3 id (ActBootstrap b n)). destruct Hk3 as (_ & -> & _). done. }
    destruct (negb _); [apply Hadd; [done|]; intros h3 w3 Hh3 Hk3 _; by apply Hrest|]. apply hcall_ret; [done|]. intros Hk3 _. by apply Hrest.
  - apply wp_ret, wp_ret. split; [done|by right].
Qed.

(** What follows a status of a search whose action has been put back. *)
Lemma after_lookup_ok info_hash st h w : handler_ok h -> st = LkFailed \/ inv h w -> wp (after_lookup_status info_hash st) (h, w) (fun _ s => inv s.1 s.2).
Proof.
  intros Hh Hst. destruct st; cbn [after_lookup_status].
  - apply wp_ret. by destruct Hst.
  - destruct Hst as [?|Hi]; [done|]. apply hcall_inv; [|done]. by apply hcall_connect.
  - destruct Hst as [?|Hi]; [done|]. apply hcall_inv; [|done]. by apply hcall_broadcast.
  - apply (wp_last _ _ _ True); [done|by apply hcall_shutdown; auto|by left].
Qed.

Lemma get_peers_response_ok g addr h w : handler_ok h -> all_live h w -> v4_addr addr -> is_Some (TransactionID_from_bytes (gr_trans_id g)) ->
  sha_wf (gr_node_id g) -> info_wf (gr_info_type g) -> wp (handle_get_peers_response g addr) (h, w) (fun _ s => inv s.1 s.2).
Proof.
  intros Hh Hl Ha [tid Htid] Hid Hinfo. unfold handle_get_peers_response. apply wp_bind. eapply wp_lift; [by rewrite Htid|]. set (id := TransactionID_action_id tid).
  apply wp_hcall, hcall_now; [done|]. intros now w1 _ _ Hk1 _. apply wp_hcall, hcall_add; [done|done|done|]. intros h2 w2 Hh2 Hk2 _.
  apply (hkeeps_live _ _ _ _ Hk1) in Hl. apply (hkeeps_live _ _ _ _ Hk2) in Hl. clear Hk1 Hk2. apply wp_bind, wp_get.
  destruct (table_actions h2 !! id) as [[lk|rf|b n]|] eqn:Hact; [|apply wp_ret; split; [done|by right]..].
  apply wp_bind. eapply wp_mono; [apply (run_action_fr id); [done|]; apply Lookup_response_spec; [apply Hh2|exact (hok_actions _ Hh2 _ _ Hact)|exact (Hl _ _ Hact)|done]|].
  intros [st lk'] [h3 w3] [Hf [Hok Hst]]. cbn in Hf, Hok, Hst. apply wp_bind, wp_insert. apply after_lookup_ok; [by apply insert_ok; [apply Hf|]|].
  destruct Hst as [?|Hlive]; [by left|right]. apply insert_inv; [apply Hf|done|right]. split; [|done]. eapply hframe_others; [done|]. by apply all_live_others.
Qed.

(** ** Datagrams *)

Lemma expected_spec actions t : expectable (expected_response actions t).
Proof. unfold expected_response. destruct (TransactionID_from_bytes t) as [tid|]; [|done]. by destruct (actions !! _) as [[]|]. Qed.

Lemma incoming_ok buffer addr h w : handler_ok h -> all_live h w -> v4_addr addr -> wp (handle_incoming buffer addr) (h, w) (fun _ s => inv s.1 s.2).
Proof.
  intros Hh Hl Ha. assert (inv h w) as Hi by (by split; [|right]). unfold handle_incoming. destruct (ben_decode buffer) as [b|]; [|by apply wp_ret].
  apply wp_bind, wp_get. pose proof (parse_safely b (expected_response (table_actions h)) (expected_spec _)) as Hp.
  destruct (MessageType_new b (expected_response (table_actions h))) as [m|e| |]; cbn in Hp; [|by apply wp_ret|done|done]. destruct Hp as [Hw He].
  assert (forall t, expected_response (table_actions h) t <> ExNone -> is_Some (TransactionID_from_bytes t)) as Htid
    by (intros t; unfold expected_response; by destruct (TransactionID_from_bytes t)).
  destruct m as [rq|rs|er]; cbn [handle_message].
  - destruct (read_only h); [by apply wp_ret|]. destruct rq as [p|f|g|a]; cbn in Hw.
    + apply hcall_inv; [|done]. eapply hcall_mono; [by apply ping_answer|done].
    + apply hcall_inv; [|done]. eapply hcall_mono; [apply find_node_answer; [done|apply Hw]|done].
    + apply hcall_inv; [|done]. eapply hcall_mono; [apply get_peers_answer; [done|apply Hw]|done].
    + apply hcall_inv; [|done]. eapply hcall_mono; [by apply announce_answer|done].
  - destruct rs as [p|f|g|a]; cbn in Hw, He; [by apply wp_ret| | |by apply wp_ret].
    + destruct Hw. apply find_node_response_ok; [done..| |done|done]. apply Htid. by rewrite He.
    + destruct Hw. apply get_peers_response_ok; [done..| |done|done]. apply Htid. by rewrite He.
  - by apply wp_ret.
Qed.

(** ** Tasks *)

(** Datagrams come from v4 addresses, as the nodes of compact lists do. *)
Definition task_ok (task : OneshotTask io_sender) : Prop :=
  match task with Incoming _ addr => v4_addr addr | StartLookup info_hash _ => sha_wf info_hash | _ => True end.

Lemma dht_notify_ok task h w : handler_ok h -> all_live h w -> task_ok task -> wp (notify task) (h, w) (fun _ s => inv s.1 s.2).
Proof.
  intros Hh Hl Ht. assert (inv h w) as Hi by (by split; [|right]). destruct task as [buffer addr|send|routers ns|ih ann|cause]; cbn [notify].
  - by apply incoming_ok.
  - apply hcall_inv; [|done]. by apply hcall_mod; [apply (handler_ok_fields h); [|apply Hh|..]|..].
  - by apply start_bootstrap_ok.
  - by apply start_lookup_ok.
  - apply hcall_inv; [|done]. apply hcall_bind, hcall_broadcast; [done|]. intros h1 w1 Hh1 _ _ _. destruct (loop_shutdown_spec w1) as [H1 H2].
    apply hcall_io; [done|by eapply said_grows|done].
Qed.

(** ** Timeouts *)

(** A timeout with [task] has fired and is pending no longer. *)
Definition fired (task : ScheduledTask) (w w' : io_world) : Prop :=
  exists hd, timers w hd = Some task /\ (forall h', h' <> hd -> timers w' h' = timers w h') /\ log w' = log w.

Lemma fired_keeps task w w' h task' : fired task w w' -> timers w h = Some task' -> task' <> task -> timers w' h = Some task'.
Proof. intros (hd & H1 & H2 & _) Hh Hne. rewrite H2; [done|]. intros ->. congruence. Qed.

Lemma fired_others task h w w' : all_live h w -> fired task w w' -> others (task_action task) h w'.
Proof.
  intros Hl Hf id a Hne Ha. eapply act_live_frame; [|exact Hne|by apply Hl]. split; [|exists []; destruct Hf as (_ & _ & _ & ->); by rewrite app_nil_r].
  intros hd task' Hhd Hne'. eapply fired_keeps; [done|done|]. by intros ->.
Qed.

(** What is left to an action when a timeout of its own has fired. *)
Definition left_live (task : ScheduledTask) (id : ActionID) (a : TableAction) (w : io_world) : Prop :=
  match a, task with
  | ActRefresh _, CheckTableRefresh _ => True
  | ActBootstrap b _, CheckBootstrapTimeout tid => curr_bootstrap_bucket b < MAX_BUCKETS /\ active_messages b <> ∅ /\ boot_timers id (eq tid) b w
  | ActLookup l, CheckLookupTimeout tid =>
      if in_endgame l then endgame_timer id w else lookup_timers id (eq tid) l w /\ (active_lookups l <> ∅ \/ all_sorted_nodes l = [])
  | ActLookup _, CheckLookupEndGame _ => True
  | _, _ => act_live id a w
  end.

Lemma fired_left task id a w w' : fired task w w' -> act_live id a w -> left_live task id a w'.
Proof.
  intros Hf. destruct a as [l|r|b n], task as [t|t|t|t]; cbn [act_live left_live]; try done; unfold lookup_live.
  1-3: destruct (in_endgame l); [intros (hd & t' & H1 & H2); exists hd, t'; split; [by eapply fired_keeps|done]|];
    intros [Hm Ha]; split; [|done]; intros tid d hd Ht Hn; edestruct Hm as [H1 H2]; [done|by intros []|]; (split; [|done]); eapply fired_keeps; [done..|]; congruence.
  1-3: intros (hd & t' & H1 & H2); exists hd, t'; split; [by eapply fired_keeps|done].
  all: intros (Hc & Ha & Hm); split_and!; [done..|]; intros tid hd Ht Hn; edestruct Hm as [H1 H2]; [done|by intros []|]; (split; [|done]); eapply fired_keeps; [done..|]; congruence.
Qed.

Lemma dht_timeout_ok data h w w' : handler_ok h -> all_live h w -> fired data.2 w w' -> wp (timeout data) (h, w') (fun _ s => inv s.1 s.2).
Proof.
  intros Hh Hl Hf. pose proof (fired_others _ _ _ _ Hl Hf) as Ho.
  assert (forall id a, table_actions h !! id = Some a -> left_live data.2 id a w') as Hown by (intros id a Ha; eapply fired_left; [done|by apply Hl]).
  assert ((forall a, table_actions h !! task_action data.2 = Some a -> act_live (task_action data.2) a w') -> inv h w') as Hinv.
  { intros Hi. split; [done|right]. intros id a Ha. destruct (decide (id = task_action data.2)) as [->|Hne]; [by apply Hi|by apply Ho]. }
  destruct data as [delay [tid|tid|tid|tid]]; cbn [timeout snd task_action] in *; set (id := TransactionID_action_id tid) in *.
  - apply refresh_timeout_ok; [done|right]. split; [done|]. intros a Ha Hne. specialize (Hown _ _ Ha). destruct a; [done|by destruct (Hne refresh)|done].
  - apply wp_bind, wp_get. apply wp_bind. fold id. destruct (table_actions h !! id) as [[l|r|b n]|] eqn:Ha.
    3: { specialize (Hown _ _ Ha). cbn in Hown. destruct Hown as (Hc & Hac & Hm). apply bootstrap_call_ok; [done|by right|]. apply act_fr_of.
         apply (Bootstrap_timeout_spec id); [apply Hh|exact (hok_actions _ Hh _ _ Ha)|done..]. }
    all: apply wp_ret, wp_ret, Hinv; intros a' E; simplify_eq; by apply (Hown _ _ Ha).
  - apply wp_bind, wp_get. fold id. destruct (table_actions h !! id) as [[l|r|b n]|] eqn:Ha.
    2-4: apply wp_ret, Hinv; intros a' E; simplify_eq; by apply (Hown _ _ Ha).
    apply wp_bind. eapply wp_mono; [apply (run_action_fr id); [done|]; apply act_fr_of, Lookup_timeout_spec; [apply Hh|exact (hok_actions _ Hh _ _ Ha)|exact (Hown _ _ Ha)]|].
    intros [st l'] [h3 w3] [Hfr [Hok Hst]]. cbn in Hfr, Hok, Hst. apply wp_bind, wp_insert. apply after_lookup_ok; [by apply insert_ok; [apply Hfr|]|].
    destruct Hst as [?|Hlive]; [by left|right]. apply insert_inv; [apply Hfr|done|right]. split; [|done]. by eapply hframe_others.
  - apply wp_bind, wp_get. apply wp_bind, wp_mod. fold id. set (h1 := set_table_actions _ h). assert (inv h1 w') as Hi1.
    { split; [by apply delete_ok|right]. intros id' a'. cbn. intros [Hne Ha]%lookup_delete_Some. by apply Ho. }
    destruct (table_actions h !! id) as [[l|r|b n]|] eqn:Ha; [|by apply wp_ret..].
    pose proof (proj1 Hi1) as Hh1. apply wp_hcall, hcall_io; [done|apply grows_refl|]. intros _ _. apply wp_hcall, run_action_keeps; [done|].
    eapply act_wp_mono; [apply (recv_finished_spec id); [apply Hh1|exact (hok_actions _ Hh _ _ Ha)]|]. intros st l' w2 _ _ h2 Hh2 Hk2 _. cbn beta iota.
    apply after_lookup_ok; [done|right]. by eapply hkeeps_inv.
Qed.

(** ** Runs *)

(** The event loop calls the handler with a task or a timeout that fired, until a shutdown has been asked for; nothing else touches its timeouts. *)
Inductive dht_step : DhtHandler * io_world -> DhtHandler * io_world -> Prop :=
| step_task task h w s : ~ asked w -> task_ok task -> notify task (h, w) = (Ok (), s) -> dht_step (h, w) s
| step_timeout data h w w' s : ~ asked w -> fired data.2 w w' -> timeout data (h, w') = (Ok (), s) -> dht_step (h, w) s
| step_world h w w' : quiet w w' -> dht_step (h, w) (h, w').

Lemma wp_result (m : hM ()) s (Q : DhtHandler * io_world -> Prop) s' : wp m s (fun _ s => Q s) -> m s = (Ok (), s') -> Q s'.
Proof. intros ([] & s2 & H1 & H2) H. congruence. Qed.

Lemma steps_inv s s' : rtc dht_step s s' -> inv s.1 s.2 -> inv s'.1 s'.2.
Proof.
  induction 1 as [|s1 s2 s3 Hs _ IH]; [done|]. intros Hi. apply IH. clear IH. destruct Hs as [task h w s Ha Ht Hn|data h w w' s Ha Hf Hn|h w w' Hq]; cbn in Hi.
  - destruct Hi as [Hh [?|Hl]]; [done|]. exact (wp_result _ _ _ _ (dht_notify_ok task h w Hh Hl Ht) Hn).
  - destruct Hi as [Hh [?|Hl]]; [done|]. exact (wp_result _ _ _ _ (dht_timeout_ok data h w w' Hh Hl Hf) Hn).
  - eapply hkeeps_inv; [|exact Hi]. split_and!; [apply Hi|done|done|by apply quiet_grows].
Qed.

Lemma handler_new_ok table ro w : table_ok table -> exists h w', DhtHandler_new table ro w = (Ok h, w') /\ handler_ok h /\ table_actions h = ∅ /\ log w' = log w.
Proof.
  intros Ht. unfold DhtHandler_new. pose proof (rand_indices_spec w) as H1. destruct (rand_indices w) as [r0 w1].
  pose proof (rand_indices_spec w1) as H2. destruct (rand_indices w1) as [r1 w2]. pose proof (rand_indices_spec w2) as H3. destruct (rand_indices w2) as [r2 w3].
  pose proof (utc_now_spec w3) as H4. destruct (utc_now w3) as [now w4]. pose proof (rand_u32_spec w4) as H5. destruct (rand_u32 w4) as [s1 w5].
  pose proof (rand_u32_spec w5) as H6. destruct (rand_u32 w5) as [s2 w6].
  destruct (aid_ok_new r0) as (g & -> & Hg). cbn [mbind outcome_bind]. destruct (aid_ok_step g r1 Hg) as (m & g' & -> & Hg' & Hm). cbn [mbind outcome_bind].
  destruct (gen_ok_step _ m r2 Hm) as (tid & m' & -> & Hm' & [Hid _]). cbn [mbind outcome_bind]. eexists _, _. split; [done|]. split; [|split; [done|]].
  - split; [done|done|done|]. apply Forall_singleton. cbn. rewrite Hid. split; [done|cbn; lia].
  - destruct H1 as [_ ?], H2 as [_ ?], H3 as [_ ?], H4 as (_ & ? & _), H5 as [_ ?], H6 as [_ ?]. congruence.
Qed.

(** C3. The worker is safe until it asks for a shutdown: [DhtHandler::new] comes
    back, and after any run of tasks and timeouts (datagrams of any content,
    bootstraps, searches, in any order) in which no shutdown has been asked for,
    the next task and the next timeout come back as well, without a panic and
    without running on forever.  Every datagram comes from a v4 address and the
    nodes of the table the handler starts with have v4 addresses: a node with a v6
    address makes [Node::encode] panic when it is given to a requester.  The routing table has kept its
    invariant and the lists of the searches are sorted by distance; and every
    refresh, bootstrap and search that is running has a timeout pending that will
    call it again, a search that found no node to ask excepted. *)
Theorem dht_worker_safe (table : RoutingTable) (ro : bool) (w0 : io_world) : table_ok table ->
  exists h0 w1, DhtHandler_new table ro w0 = (Ok h0, w1) /\
    forall s, rtc dht_step (h0, w1) s -> ~ asked s.2 ->
      handler_ok s.1 /\ all_live s.1 s.2 /\
      (forall task, task_ok task -> exists s', notify task s = (Ok (), s')) /\
      (forall data w', fired data.2 s.2 w' -> exists s', timeout data (s.1, w') = (Ok (), s')).
Proof.
  intros Ht. destruct (handler_new_ok table ro w0 Ht) as (h0 & w1 & Hn & Hh & Ha & _). exists h0, w1. split; [done|]. intros s Hs Hna.
  destruct (steps_inv _ _ Hs) as [Hh' [?|Hl]]; [|done|].
  { split; [done|right]. intros id a. cbn. rewrite Ha. by rewrite lookup_empty. }
  destruct s as [h w]. cbn in *. split; [done|]. split; [done|]. split.
  - intros task Htask. destruct (dht_notify_ok task h w Hh' Hl Htask) as ([] & s' & He & _). eauto.
  - intros data w' Hf. destruct (dht_timeout_ok data h w w' Hh' Hl Hf) as ([] & s' & He & _). eauto.
Qed.

(** C20. A node that is not read only answers every request it can parse with one
    datagram to its sender, carrying the transaction id of the request and, but
    for errors, the id of the node: a ping with nothing more, [find_node] with
    the eight nodes of the routing table nearest to the target, [get_peers] with
    a token made for the sender's address, the nodes nearest to the info hash and
    the contacts stored for it, [announce_peer] by storing the sender's contact
    when its token is valid, with an error otherwise or when the storage is full.
    A read only node does not answer.  The handler is in order ([handler_ok], kept
    by every run), which includes that the nodes of its table have v4 addresses. *)
Theorem dht_answers_requests (buffer : bytes) (addr : SocketAddr) (b : Ben) (m : RequestType) (h : DhtHandler) (w : io_world) :
  handler_ok h -> ben_decode buffer = Some b -> MessageType_new b (expected_response (table_actions h)) = Ok (MtRequest m) ->
  exists h' w', handle_incoming buffer addr (h, w) = (Ok (), (h', w')) /\
    if read_only h then h' = h /\ w' = w
    else exists rsp, answer h addr m rsp (active_stores h') /\ message_trans_id rsp = message_trans_id (MtRequest m) /\
           replied (Message_encode rsp) addr w w' /\ our_id h' = our_id h.
Proof.
  intros Hh Hb Hm. unfold handle_incoming. rewrite Hb.
  pose proof (parse_safely b (expected_response (table_actions h)) (expected_spec _)) as Hp. rewrite Hm in Hp. destruct Hp as [Hw _].
  assert (forall call, hcall call h w (fun _ h' w' => answered h addr m w h' w') ->
    exists h' w', call (h, w) = (Ok (), (h', w')) /\ exists rsp, answer h addr m rsp (active_stores h') /\
      message_trans_id rsp = message_trans_id (MtRequest m) /\ replied (Message_encode rsp) addr w w' /\ our_id h' = our_id h) as Hcall.
  { intros call ([] & [h' w'] & Hc & Hk & rsp & Ha & Hr). exists h', w'. split; [done|]. exists rsp. split; [done|]. split; [by eapply answer_trans_id|].
    split; [done|]. apply Hk. }
  unfold mbind at 1, stM_bind at 1, get_h at 1. cbn [fst]. rewrite Hm. destruct (read_only h); [by eexists _, _|].
  destruct m as [p|f|g|a]; cbn [handle_message]; apply Hcall; [by apply ping_answer|apply find_node_answer; [done|apply Hw]|apply get_peers_answer; [done|apply Hw]|by apply announce_answer].
Qed.

Lemma empty_round l t w : start_request_round [] (l, (t, w)) = (Ok LkCompleted, (set_lookups ∅ l, (t, w))).
Proof. done. Qed.

(** A search started on a table without pingable nodes is forgotten: the handler
    keeps it, but nothing is sent, no timeout is set and the client is told
    nothing, neither that the search is complete nor that it failed. *)
Theorem search_without_nodes_is_silent (info_hash : ShaHash) (ann : bool) (h : DhtHandler) (w : io_world) :
  handler_ok h -> sha_wf info_hash -> bootstrapping h = false -> (forall now, all_pingable now (routing_table h) = []) ->
  exists h' w' id l, handle_start_lookup info_hash ann (h, w) = (Ok (), (h', w')) /\
    table_actions h' = <[id := ActLookup l]> (table_actions h) /\ active_lookups l = ∅ /\ in_endgame l = false /\
    (forall hd, timers w' hd = timers w hd) /\ log w' = log w.
Proof.
  intros Hh Hw Hb Hp. unfold handle_start_lookup.
  assert (wp (handle_start_lookup info_hash ann) (h, w) (fun _ s => exists id l, table_actions s.1 = <[id := ActLookup l]> (table_actions h) /\
    active_lookups l = ∅ /\ in_endgame l = false /\ quiet w s.2)) as ([] & [h' w'] & Hr & id & l & H1 & H2 & H3 & H4 & H5); [|by exists h', w', id, l].
  apply wp_bind, wp_get. apply wp_bind. pose proof (rand_indices_spec w) as Hs. unfold wp at 1, hio at 1. destruct (rand_indices w) as [rand w1]. eexists _, _. split; [done|].
  destruct (aid_ok_step (aid_generator h) rand (hok_aid _ Hh)) as (mid & aid & He & _ & _). apply wp_bind. eapply wp_lift; [exact He|]. cbn beta iota.
  apply wp_bind, wp_mod. rewrite Hb. apply wp_bind. pose proof (utc_now_spec w1) as Hs2. unfold wp at 1, TableLookup_new at 1. cbn [routing_table set_aid_generator].
  destruct (utc_now w1) as [now w2]. destruct Hs2 as (Hq1 & Hq2 & _).
  destruct (closest_nodes_ok now (routing_table h) info_hash (tok_inv _ (hok_table _ Hh)) Hw) as (cl & Hcl & Hperm & _). rewrite Hp in Hperm.
  apply Permutation_nil_r in Hperm as ->. unfold initial_lookup at 1. rewrite Hcl. eexists _, _. split; [done|]. apply wp_insert. cbn [fst snd].
  eexists _, _. split; [done|]. split; [done|]. split; [done|]. eapply quiet_trans; [exact Hs|]. by split.
Qed.
End runs.

(** ** Witnesses *)

#[local] Existing Instance Sha1_pad.
#[local] Existing Instance ben_ref.
#[local] Existing Instance ben_ref_laws.

Definition some_id : ShaHash := mk_ShaHash (replicate 20 x01).
Definition some_world : @io_world Chrono_Z dht_ref := mk_World ∅ [] 1000 (2 ^ 40) true.
Definition some_addr : SocketAddr := SockV4 (mk_SocketAddrV4 (mk_Ipv4Addr x7f x00 x00 x01) 6881).
Definition some_handler (g : AIDGenerator) : @DhtHandler Chrono_Z dht_ref :=
  mk_DhtHandler false (TokenStore_new (0%Z : @DateTime Chrono_Z) 1%Z 2%Z) g false (RoutingTable_new some_id) AnnounceStorage_new [] [] ∅.

Lemma some_handler_ok g : aid_ok g -> handler_ok (some_handler g).
Proof. intros Hg. split; [by apply RoutingTable_new_ok|done|done|constructor]. Qed.

(** A new handler, and the bootstrap that is its first task. *)
Lemma dht_worker_safe_witness : exists h0 w1 s', DhtHandler_new (IO := dht_ref) (RoutingTable_new some_id) false some_world = (Ok h0, w1) /\
  notify (IO := dht_ref) (StartBootstrap [CustomRouter some_addr] []) (h0, w1) = (Ok (), s') /\ rtc dht_step (h0, w1) s'.
Proof.
  destruct (@dht_worker_safe Chrono_Z Sha1_pad dht_ref dht_ref_spec ben_ref ben_ref_laws (RoutingTable_new some_id) false some_world) as (h0 & w1 & Hn & Hrun);
    [apply RoutingTable_new_ok; reflexivity|].
  assert (~ asked w1) as Hna.
  { destruct (handler_new_ok (RoutingTable_new some_id) false some_world) as (h1 & w2 & Hn' & _ & _ & Hl); [apply RoutingTable_new_ok; reflexivity|].
    assert (w1 = w2) as -> by congruence. intros (c & ok & Hin). rewrite Hl in Hin. by apply not_elem_of_nil in Hin. }
  destruct (Hrun (h0, w1)) as (_ & _ & Ht & _); [apply rtc_refl|exact Hna|].
  destruct (Ht (StartBootstrap [CustomRouter some_addr] [])) as [s' Hs']; [exact I|]. exists h0, w1, s'. split; [exact Hn|]. split; [exact Hs'|].
  apply rtc_once. apply (step_task (StartBootstrap [CustomRouter some_addr] [])); [exact Hna|exact I|exact Hs'].
Defined.

Definition some_ping : bytes := PingRequest_encode (mk_PingRequest (bstr "aa") some_id).

Lemma dht_answers_requests_witness : exists g h' w' rsp, handle_incoming some_ping some_addr (some_handler g, some_world) = (Ok (), (h', w')) /\
  replied (IO := dht_ref) (Message_encode rsp) some_addr some_world w' /\ message_trans_id rsp = bstr "aa".
Proof.
  destruct (aid_ok_new (fun n => n)) as (g & _ & Hg).
  destruct (@dht_answers_requests Chrono_Z Sha1_pad dht_ref dht_ref_spec ben_ref ben_ref_laws some_ping some_addr
    (MDict [(bstr "a", MDict [(bstr "id", MBytes (sha_hash some_id))]); (bstr "q", MBytes (bstr "ping")); (bstr "t", MBytes (bstr "aa")); (bstr "y", MBytes (bstr "q"))])
    (RqPing (mk_PingRequest (bstr "aa") some_id)) (some_handler g) some_world) as (h' & w' & Hr & rsp & _ & Hid & Hrep & _).
  - apply some_handler_ok, Hg.
  - vm_compute. reflexivity.
  - reflexivity.
  - exists g, h', w', rsp. split; [exact Hr|]. split; [exact Hrep|exact Hid].
Defined.

Lemma search_without_nodes_is_silent_witness : exists g h' w', handle_start_lookup (IO := dht_ref) some_id true (some_handler g, some_world) = (Ok (), (h', w')) /\
  log w' = [].
Proof.
  destruct (aid_ok_new (fun n => n)) as (g & _ & Hg).
  destruct (@search_without_nodes_is_silent Chrono_Z dht_ref dht_ref_spec ben_ref some_id true (some_handler g) some_world)
    as (h' & w' & id & l & H1 & _ & _ & _ & _ & H2).
  - apply some_handler_ok, Hg.
  - reflexivity.
  - reflexivity.
  - intros now. vm_compute. reflexivity.
  - exists g, h', w'. split; [exact H1|]. rewrite H2. reflexivity.
Defined.
