(* ===== verification/SelBase.v ===== *)
(** * [bip_select]: peers, messages and what modules run on

    The peer identity of [bip_peer] ([manager/peer_info.rs]), the messages of
    [lib.rs], [discovery/mod.rs], [revelation/mod.rs] and [extended/mod.rs], and
    the two error types.

    Tasks of the [futures] crate and the random numbers of [rand] are operations
    on a world.  The peers of a hash set or map are found by what [PartialEq] and
    [Hash] look at, so a set of peers is a map from that key to the peer stored. *)

From stdpp Require Import prelude list gmap strings.
From Stdlib Require Import ZArith Lia Strings.Byte.
From S2P Require Import Prelude Bytes Convert Sha Metainfo UtAnnounce HsMessage PeerMessage PeerExtended.

(** ** Peers *)

Record PeerInfo : Type := PeerInfo_new { peer_addr : SocketAddr; peer_id : ShaHash; peer_hash : ShaHash; peer_ext : Extensions }.

#[export] Instance PeerInfo_eq_dec : EqDecision PeerInfo.
Proof. solve_decision. Defined.

(** [PartialEq::eq]: the extensions are not looked at. *)
Definition PeerInfo_eq (self other : PeerInfo) : bool :=
  bool_decide (peer_addr self = peer_addr other) && bool_decide (peer_id self = peer_id other) && bool_decide (peer_hash self = peer_hash other).

(** What [Hash::hash] feeds to the hasher. *)
Abbreviation PeerKey := (SocketAddr * ShaHash * ShaHash)%type.
Definition peer_key (self : PeerInfo) : PeerKey := (peer_addr self, peer_id self, peer_hash self).

Lemma PeerInfo_eq_key p q : PeerInfo_eq p q = true <-> peer_key p = peer_key q.
Proof.
  unfold PeerInfo_eq, peer_key. rewrite !andb_true_iff, !bool_decide_eq_true. split; [by intros [[-> ->] ->]|].
  by intros [= -> -> ->].
Qed.

(** [HashSet<PeerInfo>]: [insert] keeps the element that is there. *)
Abbreviation PeerSet := (gmap PeerKey PeerInfo).
Definition peers_insert (p : PeerInfo) (s : PeerSet) : PeerSet :=
  match s !! peer_key p with Some _ => s | None => <[peer_key p := p]> s end.
Definition peers_remove (p : PeerInfo) (s : PeerSet) : PeerSet := delete (peer_key p) s.
Definition peers_is_empty (s : PeerSet) : bool := bool_decide (s = ∅).

(** Every peer is stored under its own key, and has the hash [h]. *)
Definition peers_of (h : ShaHash) (s : PeerSet) : Prop := forall k p, s !! k = Some p -> k = peer_key p /\ peer_hash p = h.

Lemma peers_of_empty h : peers_of h ∅.
Proof. intros k p Hk. by rewrite lookup_empty in Hk. Qed.

Lemma peers_of_insert p s : peers_of (peer_hash p) s -> peers_of (peer_hash p) (peers_insert p s).
Proof.
  intros Hs. unfold peers_insert. destruct (s !! peer_key p); [done|]. intros k q. rewrite lookup_insert_Some.
  intros [[<- <-]|[_ Hq]]; [done|by apply Hs].
Qed.

Lemma peers_of_remove h p s : peers_of h s -> peers_of h (peers_remove p s).
Proof. intros Hs k q. unfold peers_remove. rewrite lookup_delete_Some. intros [_ Hq]. by apply Hs. Qed.

(** ** Tasks and random numbers *)

(** [task::current], [Task::notify] and [rand::thread_rng().next_u32()]. *)
Class Futures : Type := {
  Task : Type;
  fworld : Type;
  current : fworld -> Task;
  notify : Task -> fworld -> fworld;
  next_u32 : fworld -> Z * fworld;
}.

(** A world that runs task [0], numbers its draws and keeps the tasks woken. *)
Definition Futures_log : Futures := {|
  Task := nat;
  fworld := nat * list nat;
  current _ := 0;
  notify t w := (w.1, w.2 ++ [t]);
  next_u32 w := (Z.of_nat w.1, (S w.1, w.2));
|}.

(** ** Messages *)

(** [std::time::Duration], in nanoseconds. *)
Definition Duration : Type := N.
Definition from_millis (millis : N) : Duration := (millis * 1000000)%N.
Definition duration_checked_sub (self rhs : Duration) : option Duration := if (self <? rhs)%N then None else Some (self - rhs)%N.

Inductive ControlMessage : Type :=
| AddTorrent (metainfo : Metainfo)
| RemoveTorrent (metainfo : Metainfo)
| PeerConnected (info : PeerInfo)
| PeerDisconnected (info : PeerInfo)
| Tick (duration : Duration).

Inductive IDiscoveryMessage : Type :=
| DControl (control : ControlMessage)
| DownloadMetainfo (hash : ShaHash)
| ReceivedUtMetadataMessage (info : PeerInfo) (msg : UtMetadataMessage).

Inductive ODiscoveryMessage : Type :=
| SendDhtAnnounce (hash : ShaHash)
| SendUdpTrackerAnnounce (hash : ShaHash) (addr : SocketAddr) (state : ClientState)
| SendUtMetadataMessage (info : PeerInfo) (msg : UtMetadataMessage)
| DownloadedMetainfo (metainfo : Metainfo).

Inductive DiscoveryErrorKind : Type :=
| DInvalidMessage (info : PeerInfo) (message : bytes)
| DInvalidMetainfoExists (hash : ShaHash)
| DInvalidMetainfoNotExists (hash : ShaHash).

Inductive IRevealMessage : Type :=
| RControl (control : ControlMessage)
| FoundGoodPiece (hash : ShaHash) (index : Z)
| ReceivedBitField (info : PeerInfo) (msg : BitFieldMessage)
| ReceivedHave (info : PeerInfo) (msg : HaveMessage).

Inductive ORevealMessage : Type :=
| SendBitField (info : PeerInfo) (msg : BitFieldMessage)
| SendHave (info : PeerInfo) (msg : HaveMessage).

Inductive RevealErrorKind : Type :=
| RInvalidMessage (info : PeerInfo) (message : bytes)
| RInvalidMetainfoExists (hash : ShaHash)
| RInvalidMetainfoNotExists (hash : ShaHash)
| RInvalidPieceOutOfRange (hash : ShaHash) (index : Z).

Inductive IExtendedMessage : Type :=
| EControl (control : ControlMessage)
| RecievedExtendedMessage (info : PeerInfo) (msg : ExtendedMessage).

Inductive OExtendedMessage : Type :=
| SendExtendedMessage (info : PeerInfo) (msg : ExtendedMessage).

(** ** What both sides said in the extended handshake *)

Record ExtendedPeerInfo : Type := ExtendedPeerInfo_new { ours : option ExtendedMessage; theirs : option ExtendedMessage }.
Definition update_ours (self : ExtendedPeerInfo) (message : ExtendedMessage) : ExtendedPeerInfo := ExtendedPeerInfo_new (Some message) (theirs self).
Definition update_theirs (self : ExtendedPeerInfo) (message : ExtendedMessage) : ExtendedPeerInfo := ExtendedPeerInfo_new (ours self) (Some message).
Definition our_message (self : ExtendedPeerInfo) : option ExtendedMessage := ours self.
Definition their_message (self : ExtendedPeerInfo) : option ExtendedMessage := theirs self.

(** The part of a call that runs after its result is known: a panic stops it, an
    error does not. *)
Definition with_result {W E F A B} (m : stM W E A) (k : outcome E A -> stM W F B) : stM W F B :=
  fun w => match m w with
           | (Panic, w) => (Panic, w)
           | (NoFuel, w) => (NoFuel, w)
           | (r, w) => k r w
           end.
