(* ===== verification/SelMetadata.v ===== *)
(** * [bip_select::discovery::ut_metadata]: exchanging metadata

    The module that downloads the info dictionary of a torrent from peers and
    serves the ones that are known.  A call runs on the module and the world of
    tasks and random numbers.  The orders in which the map of pending downloads
    and a set of peers are walked are arguments.  [usize] has 64 bits; a vector
    longer than [isize::MAX] panics. *)

From stdpp Require Import prelude list gmap strings.
From Stdlib Require Import ZArith Lia Strings.Byte.
From S2P Require Import Prelude Bytes Convert Sha Metainfo MetainfoBuild PeerExtended SelBase.

Definition REQUEST_TIMEOUT_MILLIS : N := 2000.
Definition MAX_REQUEST_SIZE : nat := 16 * 1024.
Definition MAX_ACTIVE_REQUESTS : nat := 100.
Definition MAX_PEER_REQUESTS : nat := 100.

Record PendingInfo : Type := mk_PendingInfo { pend_messages : list UtMetadataRequestMessage; pend_left : nat; pend_bytes : bytes }.
Record ActiveRequest : Type := mk_ActiveRequest { ar_left : Duration; ar_message : UtMetadataRequestMessage; ar_sent_to : PeerInfo }.
Record PeerRequest : Type := mk_PeerRequest { pr_send_to : PeerInfo; pr_request : UtMetadataRequestMessage }.
Record ActivePeers : Type := mk_ActivePeers { ap_peers : PeerSet; ap_metadata_size : Z }.

Record UtMetadataModule {FU : Futures} : Type := mk_UtMetadataModule {
  completed_map : gmap ShaHash bytes;
  pending_map : gmap ShaHash (option PendingInfo);
  active_peers : gmap ShaHash ActivePeers;
  active_requests : list ActiveRequest;
  peer_requests : list PeerRequest;
  opt_sink : option Task;
  opt_stream : option Task;
}.
#[global] Arguments UtMetadataModule FU : clear implicits.

Definition UtMetadataModule_new {FU : Futures} : UtMetadataModule FU := mk_UtMetadataModule FU ∅ ∅ ∅ [] [] None None.

Section fields.
Context {FU : Futures} (self : UtMetadataModule FU).
Definition with_completed c := mk_UtMetadataModule FU c (pending_map self) (active_peers self) (active_requests self) (peer_requests self) (opt_sink self) (opt_stream self).
Definition with_pending p := mk_UtMetadataModule FU (completed_map self) p (active_peers self) (active_requests self) (peer_requests self) (opt_sink self) (opt_stream self).
Definition with_peers a := mk_UtMetadataModule FU (completed_map self) (pending_map self) a (active_requests self) (peer_requests self) (opt_sink self) (opt_stream self).
Definition with_requests r := mk_UtMetadataModule FU (completed_map self) (pending_map self) (active_peers self) r (peer_requests self) (opt_sink self) (opt_stream self).
Definition with_peer_requests q := mk_UtMetadataModule FU (completed_map self) (pending_map self) (active_peers self) (active_requests self) q (opt_sink self) (opt_stream self).
Definition with_sink t := mk_UtMetadataModule FU (completed_map self) (pending_map self) (active_peers self) (active_requests self) (peer_requests self) t (opt_stream self).
Definition with_stream t := mk_UtMetadataModule FU (completed_map self) (pending_map self) (active_peers self) (active_requests self) (peer_requests self) (opt_sink self) t.
End fields.

(** ** Pure helpers *)

Definition generate_active_request (message : UtMetadataRequestMessage) (peer : PeerInfo) : ActiveRequest :=
  mk_ActiveRequest (from_millis REQUEST_TIMEOUT_MILLIS) message peer.

(** [vec![0u8; n]] panics on a capacity above [isize::MAX]. *)
Definition vec_zeroed {E} (n : Z) : outcome E bytes :=
  if (2 ^ 63 - 1 <? n)%Z then Panic else Ok (replicate (Z.to_nat n) x00).

Definition pending_info_from_metadata_size {E} (metadata_size : Z) : outcome E PendingInfo :=
  let cast_metadata_size := as_unsigned 64 metadata_size in
  bytes ← vec_zeroed cast_metadata_size;
  let max_request_size := Z.of_nat MAX_REQUEST_SIZE in
  let num_pieces := Z.to_nat (if negb (cast_metadata_size mod max_request_size =? 0)%Z then cast_metadata_size / max_request_size + 1
                              else cast_metadata_size / max_request_size)%Z in
  let messages := (fun index => UtMetadataRequestMessage_new (as_signed 64 (Z.of_nat index))) <$> seq 0 num_pieces in
  Ok (mk_PendingInfo messages num_pieces bytes).

(** [piece as usize * MAX_REQUEST_SIZE], checked. *)
Definition piece_offset {E} (piece : Z) : outcome E Z :=
  let offset := (as_unsigned 64 piece * Z.of_nat MAX_REQUEST_SIZE)%Z in
  if (2 ^ 64 <=? offset)%Z then Panic else Ok offset.

(** [(&mut bytes[offset..]).write(data)]: what fits is written. *)
Definition write_at {E} (bs : bytes) (offset : Z) (data : bytes) : outcome E bytes :=
  if (Z.of_nat (length bs) <? offset)%Z then Panic
  else Ok (take (Z.to_nat offset) bs ++ copy_over data (drop (Z.to_nat offset) bs)).

(** [pending.as_ref().map(|pending| !pending.messages.is_empty()).unwrap_or(false)] *)
Definition has_messages (opt_pending : option PendingInfo) : bool :=
  match opt_pending with Some pending => negb (bool_decide (pend_messages pending = [])) | None => false end.
Definition is_completed (opt_pending : option PendingInfo) : bool :=
  match opt_pending with Some pending => bool_decide (pend_left pending = 0) | None => false end.

Definition push_message (message : UtMetadataRequestMessage) (opt_pending : option PendingInfo) : option PendingInfo :=
  (fun pending => mk_PendingInfo (pend_messages pending ++ [message]) (pend_left pending) (pend_bytes pending)) <$> opt_pending.
Definition remove_active (p : PeerInfo) (active : ActivePeers) : ActivePeers :=
  mk_ActivePeers (peers_remove p (ap_peers active)) (ap_metadata_size active).

(** [active_requests.retain(..)] of [apply_tick] *)
Fixpoint retain_unexpired (duration : Duration) (l : list ActiveRequest) (peers : gmap ShaHash ActivePeers) (pending : gmap ShaHash (option PendingInfo)) :
    list ActiveRequest * gmap ShaHash ActivePeers * gmap ShaHash (option PendingInfo) :=
  match l with
  | [] => ([], peers, pending)
  | request :: l =>
      match duration_checked_sub (ar_left request) duration with
      | None =>
          let hash := peer_hash (ar_sent_to request) in
          retain_unexpired duration l (alter (remove_active (ar_sent_to request)) hash peers) (alter (push_message (ar_message request)) hash pending)
      | Some _ =>
          let '(kept, peers, pending) := retain_unexpired duration l peers pending in (request :: kept, peers, pending)
      end
  end.

(** [active_request.left -= duration] *)
Definition subtract_left {E} (duration : Duration) (request : ActiveRequest) : outcome E ActiveRequest :=
  left_ ← unwrap (duration_checked_sub (ar_left request) duration);
  Ok (mk_ActiveRequest left_ (ar_message request) (ar_sent_to request)).

Fixpoint map_outcome {E A B} (f : A -> outcome E B) (l : list A) : outcome E (list B) :=
  match l with
  | [] => Ok []
  | a :: l => b ← f a; bs ← map_outcome f l; Ok (b :: bs)
  end.

(** ** The module *)

Section module.
Context {FU : Futures} `{Sha1}.
Context (pending_order : gmap ShaHash (option PendingInfo) -> list ShaHash) (peer_order : PeerSet -> list PeerKey).

Definition utM (A : Type) : Type := stM (UtMetadataModule FU * fworld) DiscoveryErrorKind A.

Definition get_self : utM (UtMetadataModule FU) := fun s => (Ok s.1, s).
Definition set_self (m : UtMetadataModule FU) : utM () := fun s => (Ok (), (m, s.2)).
Definition task_current : utM Task := fun s => (Ok (current s.2), s).
Definition task_notify (t : Task) : utM () := fun s => (Ok (), (s.1, notify t s.2)).
Definition rng_next_u32 : utM Z := fun s => let '(r, w) := next_u32 s.2 in (Ok r, (s.1, w)).
Definition start_ready : utM (AsyncSink IDiscoveryMessage) := mret SinkReady.

Definition add_torrent (metainfo : Metainfo) : utM (AsyncSink IDiscoveryMessage) :=
  self ← get_self;
  let hash := info_hash (mi_info metainfo) in
  match completed_map self !! hash with
  | Some _ => lift (Err (DInvalidMetainfoExists hash))
  | None =>
      info_bytes ← lift (map_err (fun e : Empty_set => match e with end) (Info_to_bytes (mi_info metainfo)));
      set_self (with_completed self (<[hash := info_bytes]> (completed_map self)));;
      start_ready
  end.

Definition remove_torrent (metainfo : Metainfo) : utM (AsyncSink IDiscoveryMessage) :=
  self ← get_self;
  let hash := info_hash (mi_info metainfo) in
  match completed_map self !! hash with
  | None => lift (Err (DInvalidMetainfoNotExists hash))
  | Some _ => set_self (with_completed self (delete hash (completed_map self)));; start_ready
  end.

Definition supports (msg : option ExtendedMessage) : bool :=
  match msg ≫= fun msg => query_id msg UtMetadata with Some _ => true | None => false end.

Definition their_size (ext_info : ExtendedPeerInfo) : option Z := their_message ext_info ≫= fun msg => metadata_size (ext_fields msg).

Definition add_peer (info : PeerInfo) (ext_info : ExtendedPeerInfo) : utM (AsyncSink IDiscoveryMessage) :=
  self ← get_self;
  let our_support := supports (our_message ext_info) in
  let they_support := supports (their_message ext_info) in
  let opt_metadata_size := their_size ext_info in
  match our_support, they_support, opt_metadata_size with
  | true, true, Some metadata_size =>
      let active := default (mk_ActivePeers ∅ metadata_size) (active_peers self !! peer_hash info) in
      set_self (with_peers self (<[peer_hash info := mk_ActivePeers (peers_insert info (ap_peers active)) (ap_metadata_size active)]> (active_peers self)));;
      start_ready
  | _, _, _ => start_ready
  end.

Definition remove_peer (info : PeerInfo) : utM (AsyncSink IDiscoveryMessage) :=
  self ← get_self;
  match active_peers self !! peer_hash info with
  | Some active =>
      let active := remove_active info active in
      let peers := <[peer_hash info := active]> (active_peers self) in
      set_self (with_peers self (if peers_is_empty (ap_peers active) then delete (peer_hash info) peers else peers));;
      start_ready
  | None => start_ready
  end.

Definition apply_tick (duration : Duration) : utM (AsyncSink IDiscoveryMessage) :=
  self ← get_self;
  let '(kept, peers, pending) := retain_unexpired duration (active_requests self) (active_peers self) (pending_map self) in
  requests ← lift (map_outcome (subtract_left duration) kept);
  set_self (with_requests (with_pending (with_peers self peers) pending) requests);;
  start_ready.

Definition download_metainfo (hash : ShaHash) : utM (AsyncSink IDiscoveryMessage) :=
  self ← get_self;
  match pending_map self !! hash with
  | None => set_self (with_pending self (<[hash := None]> (pending_map self)));; start_ready
  | Some _ => start_ready
  end.

Definition recv_request (info : PeerInfo) (request : UtMetadataRequestMessage) : utM (AsyncSink IDiscoveryMessage) :=
  self ← get_self;
  if bool_decide (length (peer_requests self) = MAX_PEER_REQUESTS) then mret (SinkNotReady (ReceivedUtMetadataMessage info (UtRequest request)))
  else set_self (with_peer_requests self (peer_requests self ++ [mk_PeerRequest info request]));; start_ready.

Definition recv_data (info : PeerInfo) (data : UtMetadataDataMessage) : utM (AsyncSink IDiscoveryMessage) :=
  self ← get_self;
  match position (fun request => PeerInfo_eq (ar_sent_to request) info && (utreq_piece (ar_message request) =? utdata_piece data)%Z) (active_requests self) with
  | Some index =>
      let self := with_requests self (swap_remove (active_requests self) index) in
      match pending_map self !! peer_hash info with
      | Some (Some pending) =>
          data_offset ← lift (piece_offset (utdata_piece data));
          left_ ← lift (match pend_left pending with 0 => Panic | S left_ => Ok left_ end);
          written ← lift (write_at (pend_bytes pending) data_offset (utdata_data data));
          set_self (with_pending self (<[peer_hash info := Some (mk_PendingInfo (pend_messages pending) left_ written)]> (pending_map self)));;
          start_ready
      | _ => set_self self;; start_ready
      end
  | None => start_ready
  end.

Definition recv_reject (_info : PeerInfo) (_reject : UtMetadataRejectMessage) : utM (AsyncSink IDiscoveryMessage) := start_ready.

(** *** What the stream gives *)

Fixpoint retrieve_completed_download (fuel : nat) : utM (option ODiscoveryMessage) :=
  match fuel with
  | 0 => lift NoFuel
  | S fuel =>
      self ← get_self;
      match List.find (fun hash => is_completed (default None (pending_map self !! hash))) (pending_order (pending_map self)) with
      | None => mret None
      | Some completed_hash =>
          opt_pending ← lift (unwrap (pending_map self !! completed_hash));
          completed ← lift (unwrap opt_pending);
          set_self (with_peers (with_pending self (delete completed_hash (pending_map self))) (delete completed_hash (active_peers self)));;
          match Info_from_bytes (pend_bytes completed) with
          | Ok info => mret (Some (DownloadedMetainfo (Metainfo_from_info info)))
          | Err _ => retrieve_completed_download fuel
          | Panic => lift Panic
          | NoFuel => lift NoFuel
          end
      end
  end.

(** [peers.iter().nth(n)] *)
Definition nth_peer (peers : PeerSet) (n : nat) : option PeerInfo := peer_order peers !! n ≫= fun key => peers !! key.

(** The loop of [retrieve_piece_request] over the keys that are left. *)
Fixpoint request_over (hashes : list ShaHash) : utM (option ODiscoveryMessage) :=
  match hashes with
  | [] => mret None
  | hash :: hashes =>
      self ← get_self;
      let opt_pending := default None (pending_map self !! hash) in
      let has_ready_requests := has_messages opt_pending in
      let has_active_peers := match active_peers self !! hash with Some peers => negb (peers_is_empty (ap_peers peers)) | None => false end in
      if has_ready_requests && has_active_peers then
        pending ← lift (unwrap opt_pending);
        active ← lift (unwrap (active_peers self !! hash));
        let num_active_peers := size (ap_peers active) in
        drawn ← rng_next_u32;
        let selected_peer_num := Z.to_nat (as_unsigned 64 drawn mod Z.of_nat num_active_peers) in
        selected_peer ← lift (unwrap (nth_peer (ap_peers active) selected_peer_num));
        selected_message ← lift (unwrap (last (pend_messages pending)));
        let pending := mk_PendingInfo (take (length (pend_messages pending) - 1) (pend_messages pending)) (pend_left pending) (pend_bytes pending) in
        set_self (with_requests (with_pending self (<[hash := Some pending]> (pending_map self)))
                    (active_requests self ++ [generate_active_request selected_message selected_peer]));;
        mret (Some (SendUtMetadataMessage selected_peer (UtRequest selected_message)))
      else request_over hashes
  end.

Definition retrieve_piece_request : utM (option ODiscoveryMessage) :=
  self ← get_self;
  request_over (pending_order (pending_map self)).

(** The loop of [retrieve_piece_response] over the requests that are left. *)
Fixpoint response_over (requests : list PeerRequest) : utM (option ODiscoveryMessage) :=
  match requests with
  | [] => mret None
  | request :: requests =>
      self ← get_self;
      set_self (with_peer_requests self requests);;
      let hash := peer_hash (pr_send_to request) in
      let piece := utreq_piece (pr_request request) in
      start ← lift (piece_offset piece);
      end_ ← lift (let end_ := (start + Z.of_nat MAX_REQUEST_SIZE)%Z in if (2 ^ 64 <=? end_)%Z then Panic else Ok end_);
      match completed_map self !! hash with
      | Some data =>
          if ((start <=? Z.of_nat (length data)) && (end_ <=? Z.of_nat (length data)))%Z then
            let info_slice := slice data (Z.to_nat start) (Z.to_nat end_) in
            let message := UtMetadataDataMessage_new piece (Z.of_nat (length info_slice)) info_slice in
            mret (Some (SendUtMetadataMessage (pr_send_to request) (UtData message)))
          else response_over requests
      | None => response_over requests
      end
  end.

Definition retrieve_piece_response : utM (option ODiscoveryMessage) :=
  self ← get_self;
  response_over (peer_requests self).

(** *** Waking the two sides *)

(** The loop of [initialize_pending] over the keys that are left. *)
Fixpoint initialize_over (hashes : list ShaHash) (pending_tasks_available : bool) : utM bool :=
  match hashes with
  | [] => mret pending_tasks_available
  | hash :: hashes =>
      self ← get_self;
      opt_pending ← match default None (pending_map self !! hash) with
                    | None =>
                        opt_pending_info ← match active_peers self !! hash with
                                           | Some active => pending ← lift (pending_info_from_metadata_size (ap_metadata_size active)); mret (Some pending)
                                           | None => mret None
                                           end;
                        set_self (with_pending self (<[hash := opt_pending_info]> (pending_map self)));;
                        mret opt_pending_info
                    | Some pending => mret (Some pending)
                    end;
      initialize_over hashes (pending_tasks_available || has_messages opt_pending)
  end.

Definition initialize_pending : utM bool :=
  self ← get_self;
  initialize_over (pending_order (pending_map self)) false.

(** The loop of [validate_downloaded] over the keys that are left. *)
Fixpoint validate_over (hashes : list ShaHash) (completed_downloads_available : bool) : utM bool :=
  match hashes with
  | [] => mret completed_downloads_available
  | expected_hash :: hashes =>
      self ← get_self;
      match default None (pending_map self !! expected_hash) with
      | Some pending =>
          if bool_decide (pend_left pending = 0) then
            let real_hash := from_bytes (pend_bytes pending) in
            let needs_reset := negb (bool_decide (real_hash = expected_hash)) in
            (if needs_reset then set_self (with_pending self (<[expected_hash := None]> (pending_map self))) else mret ());;
            validate_over hashes (completed_downloads_available || negb needs_reset)
          else validate_over hashes completed_downloads_available
      | None => validate_over hashes completed_downloads_available
      end
  end.

Definition validate_downloaded : utM bool :=
  self ← get_self;
  validate_over (pending_order (pending_map self)) false.

Definition check_stream_unblock : utM () :=
  downloads_available ← validate_downloaded;
  tasks_available ← initialize_pending;
  self ← get_self;
  let free_task_queue_space := negb (bool_decide (length (active_requests self) = MAX_ACTIVE_REQUESTS)) in
  let peer_requests_available := negb (bool_decide (peer_requests self = [])) in
  match opt_stream self with
  | Some task =>
      if (free_task_queue_space && tasks_available) || peer_requests_available || downloads_available
      then set_self (with_stream self None);; task_notify task
      else mret ()
  | None => mret ()
  end.

Definition check_sink_unblock : utM () :=
  self ← get_self;
  match opt_sink self with
  | Some task =>
      if negb (bool_decide (length (peer_requests self) = MAX_PEER_REQUESTS))
      then set_self (with_sink self None);; task_notify task
      else mret ()
  | None => mret ()
  end.

(** *** The listener, the sink and the stream *)

Definition extend (_info : PeerInfo) (builder : ExtendedMessageBuilder) : ExtendedMessageBuilder := with_extended_type builder UtMetadata (Some x05).

(** [expect] on the result of [add_peer] *)
Definition on_update (info : PeerInfo) (extended : ExtendedPeerInfo) : utM () :=
  with_result (add_peer info extended) (fun result => match result with Err _ => lift Panic | _ => mret () end);;
  check_stream_unblock.

Definition start_send (item : IDiscoveryMessage) : utM (AsyncSink IDiscoveryMessage) :=
  with_result
    (match item with
     | DControl (AddTorrent metainfo) => add_torrent metainfo
     | DControl (RemoveTorrent metainfo) => remove_torrent metainfo
     | DControl (PeerConnected _) => start_ready
     | DControl (PeerDisconnected info) => remove_peer info
     | DControl (Tick duration) => apply_tick duration
     | DownloadMetainfo hash => download_metainfo hash
     | ReceivedUtMetadataMessage info (UtRequest msg) => recv_request info msg
     | ReceivedUtMetadataMessage info (UtData msg) => recv_data info msg
     | ReceivedUtMetadataMessage info (UtReject msg) => recv_reject info msg
     end)
    (fun start_send =>
       check_stream_unblock;;
       (match start_send with
        | Ok (SinkNotReady _) => self ← get_self; task ← task_current; set_self (with_sink self (Some task))
        | _ => mret ()
        end);;
       lift start_send).

Definition poll_complete : utM (Async ()) := mret (Ready ()).

(** [or_else] on the three sources of messages. *)
Definition or_else (m : utM (option ODiscoveryMessage)) (k : utM (option ODiscoveryMessage)) : utM (option ODiscoveryMessage) :=
  opt ← m; match opt with Some r => mret (Some r) | None => k end.

Definition poll : utM (Async (option ODiscoveryMessage)) :=
  self ← get_self;
  opt_result ← or_else (or_else (retrieve_completed_download (S (size (pending_map self)))) retrieve_piece_request) retrieve_piece_response;
  check_sink_unblock;;
  match opt_result with
  | Some value => mret (Ready (Some value))
  | None => self ← get_self; task ← task_current; set_self (with_stream self (Some task));; mret NotReady
  end.

End module.
