(* ===== verification/SelMetadataProofs.v ===== *)
(** * The metadata module: its invariant and its loops

    Every piece of a pending download is asked for, waits to be asked for, or
    has arrived, exactly one of the three; so a data message that answers a
    request always finds room for its piece.  The loops over the pending
    downloads are described entry by entry, whatever the order of the map. *)

From stdpp Require Import prelude list gmap strings.
From Stdlib Require Import ZArith Lia Strings.Byte.
From S2P Require Import Prelude Bytes Bencode BencodeTotal Convert Sha Metainfo MetainfoBuild MetainfoProofs PeerExtended SelBase SelMetadata.

(** ** Sizes *)

Definition REQUEST : Z := Z.of_nat MAX_REQUEST_SIZE.
Lemma REQUEST_eq : REQUEST = 16384%Z.
Proof. reflexivity. Qed.

(** A metadata size the module can hold. *)
Definition size_fits (size : Z) : Prop := (0 <= size < 2 ^ 63)%Z.

(** The number of pieces of [n] bytes. *)
Definition pieces_of_len (n : nat) : nat := Z.to_nat ((Z.of_nat n + REQUEST - 1) / REQUEST).

Lemma pieces_of_len_spec n i : i < pieces_of_len n <-> (Z.of_nat i * REQUEST < Z.of_nat n)%Z.
Proof.
  unfold pieces_of_len. rewrite REQUEST_eq. pose proof (Z.div_mod (Z.of_nat n + 16384 - 1) 16384 ltac:(lia)) as Hd.
  pose proof (Z.mod_pos_bound (Z.of_nat n + 16384 - 1) 16384 ltac:(lia)). lia.
Qed.

Lemma pieces_of_len_zero n : pieces_of_len n = 0 -> n = 0.
Proof. intros Hz. destruct (decide (n = 0)); [done|]. assert (0 < pieces_of_len n) by (apply pieces_of_len_spec; lia). lia. Qed.

Lemma num_pieces_eq (c : Z) : (0 <= c)%Z ->
  Z.to_nat (if negb (c mod REQUEST =? 0) then c / REQUEST + 1 else c / REQUEST)%Z = pieces_of_len (Z.to_nat c).
Proof.
  intros Hc. unfold pieces_of_len. rewrite Z2Nat.id by done. rewrite REQUEST_eq. f_equal.
  pose proof (Z.div_mod c 16384 ltac:(lia)). pose proof (Z.mod_pos_bound c 16384 ltac:(lia)).
  pose proof (Z.div_mod (c + 16384 - 1) 16384 ltac:(lia)). pose proof (Z.mod_pos_bound (c + 16384 - 1) 16384 ltac:(lia)).
  destruct (Z.eqb_spec (c mod 16384) 0); cbn [negb]; lia.
Qed.

(** What a fresh download of [n] bytes waits for. *)
Definition fresh_pending (n : nat) : PendingInfo :=
  mk_PendingInfo ((fun i => UtMetadataRequestMessage_new (Z.of_nat i)) <$> seq 0 (pieces_of_len n)) (pieces_of_len n) (replicate n x00).

Lemma pending_info_ok {E} size p : pending_info_from_metadata_size (E := E) size = Ok p ->
  (as_unsigned 64 size < 2 ^ 63)%Z /\ p = fresh_pending (Z.to_nat (as_unsigned 64 size)).
Proof.
  unfold pending_info_from_metadata_size, vec_zeroed. destruct (Z.ltb_spec (2 ^ 63 - 1) (as_unsigned 64 size)) as [|Hs]; [done|].
  cbn [mbind outcome_bind]. intros [= <-]. pose proof (as_unsigned_range 64 size ltac:(lia)) as [Hr _].
  split; [lia|]. fold REQUEST. rewrite num_pieces_eq by done. unfold fresh_pending. f_equal. apply list_fmap_ext.
  intros i j Hj%lookup_seq. destruct Hj as [-> Hj]. f_equal.
  apply pieces_of_len_spec in Hj. rewrite REQUEST_eq, Z2Nat.id in Hj by done. cbn [Nat.add] in *.
  rewrite <- (as_unsigned_id 64 (Z.of_nat i)) at 1 by (unfold in_unsigned; lia). apply as_signed_as_unsigned; [lia|]. unfold in_signed. lia.
Qed.

Lemma pending_info_fits {E} size : size_fits size -> pending_info_from_metadata_size (E := E) size = Ok (fresh_pending (Z.to_nat size)).
Proof.
  intros Hs. destruct (pending_info_from_metadata_size size) as [p|e| |] eqn:Hp.
  - apply pending_info_ok in Hp as [_ ->]. rewrite as_unsigned_id by (unfold in_unsigned, size_fits in *; lia). done.
  - unfold pending_info_from_metadata_size, vec_zeroed in Hp. by destruct (_ <? _)%Z.
  - unfold pending_info_from_metadata_size, vec_zeroed in Hp. unfold size_fits in Hs. rewrite as_unsigned_id in Hp by (unfold in_unsigned; lia).
    destruct (Z.ltb_spec (2 ^ 63 - 1) size); [lia|done].
  - unfold pending_info_from_metadata_size, vec_zeroed in Hp. by destruct (_ <? _)%Z.
Qed.

(** A piece that lies in [n] bytes. *)
Definition piece_in (n : nat) (piece : Z) : Prop := (0 <= piece)%Z /\ (piece * REQUEST < Z.of_nat n)%Z.

Lemma piece_offset_ok {E} n piece : piece_in n piece -> (Z.of_nat n < 2 ^ 63)%Z -> piece_offset (E := E) piece = Ok (piece * REQUEST)%Z.
Proof.
  intros [Hp Hn] Hl. unfold piece_offset. fold REQUEST. rewrite REQUEST_eq in *. rewrite as_unsigned_id by (unfold in_unsigned; lia).
  destruct (Z.leb_spec (2 ^ 64) (piece * 16384)); [lia|done].
Qed.

Lemma write_at_ok {E} n piece bs data : length bs = n -> piece_in n piece ->
  write_at (E := E) bs (piece * REQUEST) data =
  Ok (take (Z.to_nat (piece * REQUEST)) bs ++ copy_over data (drop (Z.to_nat (piece * REQUEST)) bs)).
Proof. intros Hl [Hp Hn]. unfold write_at. destruct (Z.ltb_spec (Z.of_nat (length bs)) (piece * REQUEST)); [lia|done]. Qed.

Lemma length_copy_over (src dst : bytes) : length (copy_over src dst) = length dst.
Proof. unfold copy_over. rewrite length_app, length_take, length_drop. lia. Qed.

Lemma length_written k (bs data : bytes) : length (take k bs ++ copy_over data (drop k bs)) = length bs.
Proof. rewrite length_app, length_copy_over, length_take, length_drop. lia. Qed.

(** ** The invariant *)

(** The requests that are out to peers of the torrent [h]. *)
Definition asked (h : ShaHash) (l : list ActiveRequest) : list UtMetadataRequestMessage :=
  ar_message <$> filter (fun r => peer_hash (ar_sent_to r) = h) l.

(** The pieces of a download that have not arrived: each once, all of them in
    range, and [left] counts them. *)
Definition outstanding (h : ShaHash) (l : list ActiveRequest) (p : PendingInfo) : list Z :=
  utreq_piece <$> (pend_messages p ++ asked h l).

Record pending_ok (h : ShaHash) (l : list ActiveRequest) (p : PendingInfo) : Prop := {
  po_nodup : NoDup (outstanding h l p);
  po_range : Forall (piece_in (length (pend_bytes p))) (outstanding h l p);
  po_left : pend_left p = length (outstanding h l p);
  po_len : (Z.of_nat (length (pend_bytes p)) < 2 ^ 63)%Z;
}.

Record meta_ok `{FU : Futures} (s : UtMetadataModule FU) : Prop := {
  mo_peers : forall h a, active_peers s !! h = Some a -> peers_of h (ap_peers a) /\ size_fits (ap_metadata_size a);
  mo_pending : forall h p, pending_map s !! h = Some (Some p) -> pending_ok h (active_requests s) p;
  mo_active : forall r, r ∈ active_requests s -> exists p, pending_map s !! peer_hash (ar_sent_to r) = Some (Some p);
  mo_queue : forall r, r ∈ peer_requests s -> (0 <= utreq_piece (pr_request r) < 2 ^ 50 - 1)%Z;
}.

Lemma asked_perm h l l' : l ≡ₚ l' -> asked h l ≡ₚ asked h l'.
Proof. intros Hl. unfold asked. by rewrite Hl. Qed.

Lemma asked_nil h l : asked h l = [] <-> forall r, r ∈ l -> peer_hash (ar_sent_to r) <> h.
Proof.
  unfold asked. split.
  - intros Hf%fmap_nil_inv r Hr <-. assert (r ∈ filter (fun r' => peer_hash (ar_sent_to r') = peer_hash (ar_sent_to r)) l) as Hin.
    { by apply list_elem_of_filter. }
    rewrite Hf in Hin. by apply elem_of_nil in Hin.
  - intros Hn. destruct (filter _ l) as [|r k] eqn:Hf; [done|].
    assert (r ∈ filter (fun r => peer_hash (ar_sent_to r) = h) l) as [Hh Hr]%list_elem_of_filter by (rewrite Hf; apply list_elem_of_here).
    by destruct (Hn r Hr).
Qed.

Lemma asked_cons h r l : asked h (r :: l) = if decide (peer_hash (ar_sent_to r) = h) then ar_message r :: asked h l else asked h l.
Proof. unfold asked. rewrite filter_cons. by destruct (decide _). Qed.

Lemma pending_ok_perm h l l' p p' : pend_bytes p = pend_bytes p' -> pend_left p = pend_left p' ->
  outstanding h l p ≡ₚ outstanding h l' p' -> pending_ok h l p -> pending_ok h l' p'.
Proof.
  intros Hb Hl Ho [H1 H2 H3 H4]. split; rewrite <- ?Ho, <- ?Hb, <- ?Hl; done.
Qed.

Lemma pending_ok_asked h l l' p : asked h l = asked h l' -> pending_ok h l p -> pending_ok h l' p.
Proof. intros Ha. apply pending_ok_perm; [done..|]. unfold outstanding. by rewrite Ha. Qed.

(** No request is out for a download that was just set up. *)
Lemma fresh_pending_ok h l n : (Z.of_nat n < 2 ^ 63)%Z -> asked h l = [] -> pending_ok h l (fresh_pending n).
Proof.
  intros Hn Ha. assert (outstanding h l (fresh_pending n) = Z.of_nat <$> seq 0 (pieces_of_len n)) as Ho.
  { unfold outstanding. rewrite Ha, app_nil_r. cbn [fresh_pending pend_messages]. rewrite <- list_fmap_compose. by apply list_fmap_ext. }
  split; rewrite ?Ho.
  - apply (NoDup_fmap_2 _), NoDup_seq.
  - apply Forall_fmap, Forall_forall. intros i Hi%elem_of_seq. cbn [fresh_pending pend_bytes compose]. rewrite length_replicate.
    split; [lia|]. apply pieces_of_len_spec. lia.
  - by rewrite length_fmap, length_seq.
  - cbn [fresh_pending pend_bytes]. by rewrite length_replicate.
Qed.

(** A download with nothing left has no request out. *)
Lemma pending_ok_done h l p : pending_ok h l p -> pend_left p = 0 -> asked h l = [].
Proof.
  intros [_ _ Hl _] Hz. rewrite Hz in Hl. symmetry in Hl. apply nil_length_inv, fmap_nil_inv, app_eq_nil in Hl. tauto.
Qed.

(** ** The loops over the pending downloads *)

(** Runs the steps of a call that are known. *)
Ltac ut_run :=
  unfold mbind, stM_bind;
  cbn [get_self set_self task_current task_notify start_ready lift mret stM_ret fst snd].

Section loops.
Context {FU : Futures} `{SH : Sha1}.
Implicit Types (s : UtMetadataModule FU) (w : fworld).

Lemma with_pending_self s : with_pending s (pending_map s) = s.
Proof. by destruct s. Qed.

(** A download that has arrived and is not what was asked for starts again. *)
Definition reset (h : ShaHash) (o : option PendingInfo) : option PendingInfo :=
  match o with
  | Some p => if bool_decide (pend_left p = 0) && negb (bool_decide (from_bytes (pend_bytes p) = h)) then None else Some p
  | None => None
  end.

(** A download that has arrived and is what was asked for. *)
Definition verified (h : ShaHash) (o : option PendingInfo) : bool :=
  match o with Some p => bool_decide (pend_left p = 0) && bool_decide (from_bytes (pend_bytes p) = h) | None => false end.

Lemma validate_over_cons w h l b s o : pending_map s !! h = Some o ->
  validate_over (h :: l) b (s, w) = validate_over l (b || verified h o) (with_pending s (<[h := reset h o]> (pending_map s)), w).
Proof.
  intros Ho. cbn [validate_over]. ut_run. rewrite Ho. cbn [default id].
  assert (reset h o = o -> (s, w) = (with_pending s (<[h := reset h o]> (pending_map s)), w)) as Hid.
  { intros ->. by rewrite (insert_id _ _ _ Ho), with_pending_self. }
  destruct o as [p|]; cbn [verified reset] in *; [|by rewrite orb_false_r, <- Hid].
  destruct (bool_decide (pend_left p = 0)); cbn [andb] in *; [|by rewrite orb_false_r, <- Hid].
  rewrite negb_involutive. destruct (bool_decide (from_bytes (pend_bytes p) = h)); cbn [negb] in *; [by rewrite <- Hid|done].
Qed.

Lemma validate_over_spec w l : forall b s, NoDup l -> (forall k, k ∈ l -> is_Some (pending_map s !! k)) ->
  exists (b' : bool) m, validate_over l b (s, w) = (Ok b', (with_pending s m, w)) /\
  (b' = true <-> b = true \/ exists k o, k ∈ l /\ pending_map s !! k = Some o /\ verified k o = true) /\
  forall k, m !! k = if decide (k ∈ l) then reset k <$> pending_map s !! k else pending_map s !! k.
Proof.
  induction l as [|h l IH]; intros b s Hnd Hin.
  - exists b, (pending_map s). cbn [validate_over]. rewrite with_pending_self. split; [done|]. split; [|done].
    split; [by left|]. intros [?|(k & o & Hk%elem_of_nil & _)]; done.
  - apply NoDup_cons in Hnd as [Hh Hnd]. destruct (Hin h (list_elem_of_here _ _)) as [o Ho]. rewrite (validate_over_cons _ _ _ _ _ _ Ho).
    set (s1 := with_pending s (<[h := reset h o]> (pending_map s))).
    assert (forall k, k ∈ l -> pending_map s1 !! k = pending_map s !! k) as Hs1.
    { intros k Hk. cbn [s1 with_pending pending_map]. rewrite lookup_insert_ne; [done|]. by intros ->. }
    destruct (IH (b || verified h o) s1 Hnd) as (b' & m & Hm & Hb & Hk).
    { intros k Hk. rewrite Hs1 by done. apply Hin. by apply list_elem_of_further. }
    exists b', m. rewrite Hm. split; [done|]. split.
    + rewrite Hb, orb_true_iff. split.
      * intros [[?|?]|(k & o' & Hkl & Hko & Hv)]; [by left|right; exists h, o; split; [apply list_elem_of_here|done]|].
        right. exists k, o'. rewrite <- Hs1 by done. split; [by apply list_elem_of_further|done].
      * intros [?|(k & o' & [->|Hkl]%elem_of_cons & Hko & Hv)]; [by do 2 left|left; right; congruence|].
        right. exists k, o'. by rewrite Hs1.
    + intros k. rewrite Hk. destruct (decide (k = h)) as [->|Hne].
      * rewrite decide_False by done. rewrite decide_True by apply list_elem_of_here. cbn [s1 with_pending pending_map]. by rewrite lookup_insert_eq, Ho.
      * destruct (decide (k ∈ l)) as [Hkl|Hkl].
        -- rewrite Hs1 by done. by rewrite decide_True by (by apply list_elem_of_further).
        -- rewrite decide_False by (rewrite elem_of_cons; tauto). cbn [s1 with_pending pending_map]. by rewrite lookup_insert_ne.
Qed.

(** A download that is not set up is set up when the size is known. *)
Definition inited (peers : gmap ShaHash ActivePeers) (h : ShaHash) (o o' : option PendingInfo) : Prop :=
  match o with
  | Some p => o' = Some p
  | None =>
      match peers !! h with
      | Some a => (as_unsigned 64 (ap_metadata_size a) < 2 ^ 63)%Z /\ o' = Some (fresh_pending (Z.to_nat (as_unsigned 64 (ap_metadata_size a))))
      | None => o' = None
      end
  end.

(** The only panic: a metadata size that no vector has. *)
Definition bad_size (peers : gmap ShaHash ActivePeers) (h : ShaHash) : Prop :=
  exists a, peers !! h = Some a /\ (2 ^ 63 <= as_unsigned 64 (ap_metadata_size a))%Z.

Lemma initialize_over_cons w h l b s o : pending_map s !! h = Some o ->
  (exists s' w', initialize_over (h :: l) b (s, w) = (Panic, (s', w')) /\ bad_size (active_peers s) h) \/
  exists o', inited (active_peers s) h o o' /\
    initialize_over (h :: l) b (s, w) = initialize_over l (b || has_messages o') (with_pending s (<[h := o']> (pending_map s)), w).
Proof.
  intros Ho. cbn [initialize_over]. ut_run. rewrite Ho. cbn [default id]. destruct o as [p|].
  { right. exists (Some p). split; [done|]. cbn [mret stM_ret]. by rewrite (insert_id _ _ _ Ho), with_pending_self. }
  cbn [inited]. destruct (active_peers s !! h) as [a|] eqn:Ha; [|right; by exists None].
  destruct (pending_info_from_metadata_size (E := DiscoveryErrorKind) (ap_metadata_size a)) as [p|e| |] eqn:Hp.
  - right. pose proof (pending_info_ok _ _ Hp) as [Hlt Heq]. exists (Some p). split; [by subst p|]. done.
  - unfold pending_info_from_metadata_size, vec_zeroed in Hp. by destruct (_ <? _)%Z.
  - left. eexists _, _. split; [done|]. exists a. split; [done|].
    unfold pending_info_from_metadata_size, vec_zeroed in Hp. destruct (Z.ltb_spec (2 ^ 63 - 1) (as_unsigned 64 (ap_metadata_size a))); [lia|done].
  - unfold pending_info_from_metadata_size, vec_zeroed in Hp. by destruct (_ <? _)%Z.
Qed.

Lemma initialize_over_spec w l : forall b s, NoDup l -> (forall k, k ∈ l -> is_Some (pending_map s !! k)) ->
  (exists h s' w', initialize_over l b (s, w) = (Panic, (s', w')) /\ bad_size (active_peers s) h) \/
  exists (b' : bool) m, initialize_over l b (s, w) = (Ok b', (with_pending s m, w)) /\
  (b' = true <-> b = true \/ exists k o, k ∈ l /\ m !! k = Some o /\ has_messages o = true) /\
  forall k, if decide (k ∈ l) then exists o o', pending_map s !! k = Some o /\ m !! k = Some o' /\ inited (active_peers s) k o o'
            else m !! k = pending_map s !! k.
Proof.
  induction l as [|h l IH]; intros b s Hnd Hin.
  - right. exists b, (pending_map s). cbn [initialize_over]. rewrite with_pending_self. split; [done|]. split; [|done].
    split; [by left|]. intros [?|(k & o & Hk%elem_of_nil & _)]; done.
  - apply NoDup_cons in Hnd as [Hh Hnd]. destruct (Hin h (list_elem_of_here _ _)) as [o Ho].
    destruct (initialize_over_cons w h l b s o Ho) as [(s' & w' & -> & Hbad)|(o' & Hi & ->)]; [left; by eexists _, _, _|].
    set (s1 := with_pending s (<[h := o']> (pending_map s))).
    assert (forall k, k <> h -> pending_map s1 !! k = pending_map s !! k) as Hs1.
    { intros k Hk. cbn [s1 with_pending pending_map]. by rewrite lookup_insert_ne. }
    destruct (IH (b || has_messages o') s1 Hnd) as [(k & s' & w' & -> & Hbad)|(b' & m & -> & Hb & Hk)].
    { intros k Hk. rewrite Hs1 by (by intros ->). apply Hin. by apply list_elem_of_further. }
    { left. by eexists _, _, _. }
    assert (m !! h = Some o') as Hmh.
    { specialize (Hk h). rewrite decide_False in Hk by done. rewrite Hk. cbn [s1 with_pending pending_map]. apply lookup_insert_eq. }
    right. exists b', m. split; [done|]. split.
    + rewrite Hb, orb_true_iff. split.
      * intros [[?|?]|(k & o2 & Hkl & Hko & Hv)]; [by left|right; exists h, o'; split; [apply list_elem_of_here|done]|].
        right. exists k, o2. split; [by apply list_elem_of_further|done].
      * intros [?|(k & o2 & [->|Hkl]%elem_of_cons & Hko & Hv)]; [by do 2 left|left; right; congruence|]. right. by exists k, o2.
    + intros k. specialize (Hk k). destruct (decide (k = h)) as [->|Hne].
      * rewrite decide_True by apply list_elem_of_here. by exists o, o'.
      * destruct (decide (k ∈ l)) as [Hkl|Hkl].
        -- rewrite decide_True by (by apply list_elem_of_further). by rewrite Hs1 in Hk.
        -- rewrite decide_False by (rewrite elem_of_cons; tauto). by rewrite Hk, Hs1.
Qed.

(** ** One check of the stream *)

(** What the two loops make of the pending downloads. *)
Definition refreshed (peers : gmap ShaHash ActivePeers) (m m' : gmap ShaHash (option PendingInfo)) : Prop :=
  forall k, match m !! k with
            | Some o => exists o', m' !! k = Some o' /\ inited peers k (reset k o) o'
            | None => m' !! k = None
            end.

(** A download that has arrived is what was asked for, or empty. *)
Definition arrived_valid (m : gmap ShaHash (option PendingInfo)) : Prop :=
  forall k p, m !! k = Some (Some p) -> pend_left p = 0 -> from_bytes (pend_bytes p) = k \/ pend_bytes p = [].

(** Nothing to give: no room or nothing to ask for, nobody to answer, nothing downloaded. *)
Record nothing_to_do (s : UtMetadataModule FU) : Prop := {
  nd_tasks : length (active_requests s) = MAX_ACTIVE_REQUESTS \/ forall k o, pending_map s !! k = Some o -> has_messages o = false;
  nd_queue : peer_requests s = [];
  nd_arrived : forall k p, pending_map s !! k = Some (Some p) -> pend_left p = 0 -> pend_bytes p = [];
}.

Lemma fresh_arrived n : pend_left (fresh_pending n) = 0 -> pend_bytes (fresh_pending n) = [].
Proof. intros Hz%pieces_of_len_zero. cbn [fresh_pending pend_bytes]. by subst n. Qed.

Lemma inited_arrived peers k o p : inited peers k (reset k o) (Some p) -> pend_left p = 0 -> verified k o = true \/ pend_bytes p = [].
Proof.
  intros Hi Hz. destruct (reset k o) as [q|] eqn:Hr; cbn [inited] in Hi.
  - injection Hi as ->. left. destruct o as [p'|]; [|done]. cbn [reset verified] in *.
    destruct (bool_decide (pend_left p' = 0)) eqn:Hl; cbn [andb] in *.
    + destruct (bool_decide (from_bytes (pend_bytes p') = k)); cbn [negb] in *; [done|done].
    + injection Hr as ->. apply bool_decide_eq_false in Hl. done.
  - right. destruct (peers !! k) as [a|]; [|done]. destruct Hi as [_ [= ->]]. by apply fresh_arrived.
Qed.

Lemma inited_verified peers k o o' : inited peers k (reset k o) o' -> verified k o = true -> verified k o' = true.
Proof.
  intros Hi Hv. destruct o as [p|]; [|done]. cbn [verified reset] in *. apply andb_true_iff in Hv as [Hl Hf].
  rewrite Hl, Hf in Hi. cbn [andb negb inited] in Hi. subst o'. cbn [verified]. by rewrite Hl, Hf.
Qed.

Lemma refreshed_valid peers m m' : refreshed peers m m' -> arrived_valid m'.
Proof.
  intros Hr k p Hp Hz. specialize (Hr k). destruct (m !! k) as [o|]; [|congruence]. destruct Hr as (o' & Ho' & Hi).
  assert (o' = Some p) as -> by congruence. destruct (inited_arrived _ _ _ _ Hi Hz) as [Hv|?]; [|by right].
  left. pose proof (inited_verified _ _ _ _ Hi Hv) as Hv'. cbn [verified] in Hv'. apply andb_true_iff in Hv' as [_ Hf]. by apply bool_decide_eq_true in Hf.
Qed.

Context (pending_order : gmap ShaHash (option PendingInfo) -> list ShaHash) (peer_order : PeerSet -> list PeerKey).
Hypothesis Hpending : visits_all pending_order.

Lemma refresh_spec w s :
  exists d m1, validate_downloaded pending_order (s, w) = (Ok d, (with_pending s m1, w)) /\
  (d = true <-> exists k o, pending_map s !! k = Some o /\ verified k o = true) /\
  ((exists h s' w', initialize_pending pending_order (with_pending s m1, w) = (Panic, (s', w')) /\ bad_size (active_peers s) h) \/
   exists t m, initialize_pending pending_order (with_pending s m1, w) = (Ok t, (with_pending s m, w)) /\
   (t = true <-> exists k o, m !! k = Some o /\ has_messages o = true) /\ refreshed (active_peers s) (pending_map s) m).
Proof.
  unfold validate_downloaded, initialize_pending. ut_run.
  destruct (Hpending (pending_map s)) as [Hnd Hin].
  destruct (validate_over_spec w (pending_order (pending_map s)) false s Hnd) as (d & m1 & -> & Hd & Hm1); [intros k; apply Hin|].
  exists d, m1. split; [done|]. split.
  { rewrite Hd. split; [intros [?|(k & o & _ & ?)]; [done|by exists k, o]|]. intros (k & o & Ho & Hv). right. exists k, o. split; [apply Hin; eauto|done]. }
  assert (forall k, m1 !! k = reset k <$> pending_map s !! k) as Hm1'.
  { intros k. rewrite Hm1. destruct (decide (k ∈ _)) as [|Hk]; [done|]. rewrite Hin in Hk. destruct (pending_map s !! k); [by destruct Hk|done]. }
  destruct (Hpending m1) as [Hnd1 Hin1]. cbn [with_pending pending_map].
  destruct (initialize_over_spec w (pending_order m1) false (with_pending s m1) Hnd1) as [(h & s' & w' & -> & Hb)|(t & m & -> & Ht & Hm)];
    [intros k; apply Hin1|left; by eexists _, _, _|].
  right. exists t, m. split; [done|]. cbn [with_pending pending_map active_peers] in *.
  assert (refreshed (active_peers s) (pending_map s) m) as Hr.
  { intros k. specialize (Hm k). destruct (decide (k ∈ pending_order m1)) as [Hk|Hk].
    - destruct Hm as (o & o' & Ho & Ho' & Hi). rewrite Hm1' in Ho. destruct (pending_map s !! k) as [o0|]; [|done].
      injection Ho as <-. by exists o'.
    - rewrite Hin1, Hm1' in Hk. destruct (pending_map s !! k) as [o0|] eqn:Ho0; [by destruct Hk|]. rewrite Hm, Hm1', Ho0. done. }
  split; [|done]. rewrite Ht. split; [intros [?|(k & o & _ & ?)]; [done|by exists k, o]|].
  intros (k & o & Ho & Hv). right. exists k, o. split; [|done]. rewrite Hin1, Hm1'. specialize (Hr k). destruct (pending_map s !! k); [done|congruence].
Qed.

(** The stream is woken when there is something for it, and only then. *)
Lemma check_stream_spec w s :
  (exists h s' w', check_stream_unblock pending_order (s, w) = (Panic, (s', w')) /\ bad_size (active_peers s) h) \/
  exists m t w', check_stream_unblock pending_order (s, w) = (Ok (), (with_stream (with_pending s m) t, w')) /\
  refreshed (active_peers s) (pending_map s) m /\
  match opt_stream s with
  | None => t = None /\ w' = w
  | Some task => (t = None /\ w' = notify task w) \/ (t = Some task /\ w' = w /\ nothing_to_do (with_pending s m))
  end.
Proof.
  destruct (refresh_spec w s) as (d & m1 & Hv & Hd & [(h & s' & w' & Hi & Hb)|(t & m & Hi & Ht & Hr)]).
  { left. exists h, s', w'. unfold check_stream_unblock. ut_run. by rewrite Hv, Hi. }
  right. unfold check_stream_unblock. ut_run. rewrite Hv, Hi. ut_run.
  cbn [with_pending opt_stream active_requests peer_requests]. destruct (opt_stream s) as [task|] eqn:Hs.
  2: { exists m, None, w. split; [|done]. f_equal. f_equal. unfold with_stream, with_pending. cbn. by rewrite Hs. }
  destruct ((negb _ && t) || negb _ || d) eqn:Hw.
  - exists m, None, (notify task w). split; [done|]. split; [done|]. by left.
  - exists m, (Some task), w. split; [f_equal; f_equal; unfold with_stream, with_pending; cbn; by rewrite Hs|]. split; [done|]. right.
    split; [done|]. split; [done|]. apply orb_false_iff in Hw as [[Hw1 Hw2]%orb_false_iff Hw3]. split; cbn [with_pending active_requests pending_map peer_requests].
    + apply andb_false_iff in Hw1 as [Hw1|Hw1]; [left; apply negb_false_iff, bool_decide_eq_true in Hw1; done|].
      right. intros k o Ho. apply not_true_iff_false. intros Hm. apply not_true_iff_false in Hw1. apply Hw1, Ht. by exists k, o.
    + by apply negb_false_iff, bool_decide_eq_true in Hw2.
    + intros k p Hp Hz. specialize (Hr k). destruct (pending_map s !! k) as [o|] eqn:Ho; [|congruence]. destruct Hr as (o' & Ho' & Hin).
      assert (o' = Some p) as -> by congruence. destruct (inited_arrived _ _ _ _ Hin Hz) as [Hvf|?]; [|done].
      exfalso. apply not_true_iff_false in Hw3. apply Hw3, Hd. by exists k, o.
Qed.
End loops.

(** * The metadata module: every call keeps the invariant

    Each operation of [ut_metadata.rs] on a module in order: what it leaves, and
    that it does not panic on messages whose numbers fit. *)

Section inv.
Context {FU : Futures} `{SH : Sha1}.
Implicit Types (s : UtMetadataModule FU) (w : fworld).

(** The tasks and the completed downloads have no part in the invariant. *)
Lemma meta_ok_ext s s' : pending_map s = pending_map s' -> active_peers s = active_peers s' -> active_requests s = active_requests s' ->
  peer_requests s = peer_requests s' -> meta_ok s -> meta_ok s'.
Proof. intros H1 H2 H3 H4 [? ? ? ?]. by split; rewrite <- ?H1, <- ?H2, <- ?H3, <- ?H4. Qed.

(** No request is out for a torrent that is not set up. *)
Lemma not_set_up_asked s k : meta_ok s -> (forall p, pending_map s !! k <> Some (Some p)) -> asked k (active_requests s) = [].
Proof. intros Hs Hn. apply asked_nil. intros r Hr <-. destruct (mo_active s Hs r Hr) as [p Hp]. by destruct (Hn p). Qed.

Lemma meta_ok_refreshed s m t : meta_ok s -> refreshed (active_peers s) (pending_map s) m -> meta_ok (with_stream (with_pending s m) t).
Proof.
  intros Hs Hr. split; cbn; [apply Hs| |..].
  - intros k p Hp. specialize (Hr k). destruct (pending_map s !! k) as [o|] eqn:Ho; [|congruence]. destruct Hr as (o' & Ho' & Hi).
    assert (o' = Some p) as -> by congruence. destruct (reset k o) as [q|] eqn:Hq; cbn [inited] in Hi.
    + injection Hi as ->. assert (o = Some q) as ->.
      { destruct o as [p0|]; [|done]. cbn [reset] in Hq. by destruct (_ && _). }
      by apply Hs.
    + destruct (active_peers s !! k) as [a|] eqn:Ha; [|done]. destruct Hi as [Hlt [= ->]]. apply fresh_pending_ok.
      * pose proof (as_unsigned_range 64 (ap_metadata_size a) ltac:(lia)) as [? _]. lia.
      * destruct o as [p0|]; [|apply not_set_up_asked; [done|congruence]]. cbn [reset] in Hq.
        destruct (bool_decide_reflect (pend_left p0 = 0)) as [Hz|]; [|done]. by apply (pending_ok_done k _ p0); [apply Hs|].
  - intros r Hr'. destruct (mo_active s Hs r Hr') as [p Hp]. specialize (Hr (peer_hash (ar_sent_to r))). rewrite Hp in Hr.
    destruct Hr as (o' & Ho' & Hi). cbn [reset] in Hi. destruct (bool_decide_reflect (pend_left p = 0)) as [Hz|]; cbn [andb inited] in Hi; [|subst o'; eauto].
    pose proof (pending_ok_done _ _ _ (mo_pending s Hs _ _ Hp) Hz) as Hn. rewrite asked_nil in Hn. by destruct (Hn r Hr').
  - apply Hs.
Qed.

(** ** The operations *)

(** A call that keeps the invariant and touches neither the world nor the tasks;
    it may set up the torrent [new] and no other. *)
Definition op_keeps (new : option ShaHash) (m : utM (AsyncSink IDiscoveryMessage)) : Prop :=
  forall s w, meta_ok s -> exists r s', m (s, w) = (r, (s', w)) /\ returns r /\ meta_ok s' /\ opt_stream s' = opt_stream s /\ opt_sink s' = opt_sink s /\
  forall k, is_Some (pending_map s' !! k) -> is_Some (pending_map s !! k) \/ Some k = new.

Lemma start_ready_keeps : op_keeps None start_ready.
Proof. intros s w Hs. exists (Ok SinkReady), s. split_and!; try done. intros k Hk. by left. Qed.

Lemma add_torrent_keeps metainfo : writable (mi_info metainfo) -> op_keeps None (add_torrent metainfo).
Proof.
  intros Hw s w Hs. unfold add_torrent. ut_run. destruct (completed_map s !! info_hash (mi_info metainfo)).
  { eexists _, s. split_and!; try done. intros k Hk. by left. }
  unfold Info_to_bytes. rewrite private_flag_dropped. cbn [mbind outcome_bind InfoBuilder_set_piece_length]. unfold InfoBuilder_build.
  cbn [ib_info ib_piece_length InfoBuilder_new]. rewrite build_info by done. cbn [map_err]. ut_run.
  eexists _, _. split; [done|]. split; [done|]. split; [by eapply meta_ok_ext, Hs|]. split_and!; try done. intros k Hk. by left.
Qed.

Lemma remove_torrent_keeps metainfo : op_keeps None (remove_torrent metainfo).
Proof.
  intros s w Hs. unfold remove_torrent. ut_run. destruct (completed_map s !! info_hash (mi_info metainfo)); eexists _, _; split_and!; try done.
  - by eapply meta_ok_ext, Hs.
  - intros k Hk. by left.
  - intros k Hk. by left.
Qed.

Lemma with_peers_ok s peers : meta_ok s -> (forall h a, peers !! h = Some a -> peers_of h (ap_peers a) /\ size_fits (ap_metadata_size a)) ->
  meta_ok (with_peers s peers).
Proof. intros [? ? ? ?] Hp. by split. Qed.

(** A size the other side announces and a vector can have. *)
Definition ext_fits (ext_info : ExtendedPeerInfo) : Prop := forall size, their_size ext_info = Some size -> size_fits size.

Lemma add_peer_keeps info ext_info : ext_fits ext_info -> op_keeps None (add_peer info ext_info).
Proof.
  intros He s w Hs. pose proof (start_ready_keeps s w Hs) as Hid. unfold add_peer. ut_run. destruct (supports (our_message ext_info)); [|exact Hid].
  destruct (supports (their_message ext_info)); [|exact Hid]. destruct (their_size ext_info) as [size|] eqn:Hsize; [|exact Hid].
  eexists _, _. split; [done|]. split; [done|]. split; [|split_and!; try done; intros k Hk; by left].
  apply with_peers_ok; [done|]. intros h a. rewrite lookup_insert_Some. intros [[<- <-]|[_ Ha]]; [|by apply Hs]. cbn [ap_peers ap_metadata_size].
  destruct (active_peers s !! peer_hash info) as [a|] eqn:Ha; cbn [default id ap_peers ap_metadata_size].
  - destruct (mo_peers s Hs _ _ Ha). split; [by apply peers_of_insert|done].
  - split; [apply peers_of_insert, peers_of_empty|]. by apply He.
Qed.

Lemma remove_peer_keeps info : op_keeps None (remove_peer info).
Proof.
  intros s w Hs. pose proof (start_ready_keeps s w Hs) as Hid. unfold remove_peer. ut_run.
  destruct (active_peers s !! peer_hash info) as [a|] eqn:Ha; [|exact Hid].
  eexists _, _. split; [done|]. split; [done|]. split; [|split_and!; try done; intros k Hk; by left].
  assert (forall h b, <[peer_hash info := remove_active info a]> (active_peers s) !! h = Some b -> peers_of h (ap_peers b) /\ size_fits (ap_metadata_size b)) as Hp.
  { intros h b. rewrite lookup_insert_Some. intros [[<- <-]|[_ Hb]]; [|by apply Hs]. destruct (mo_peers s Hs _ _ Ha). split; [by apply peers_of_remove|done]. }
  apply with_peers_ok; [done|]. destruct (peers_is_empty _); [|done]. intros h b [_ Hb]%lookup_delete_Some. by apply Hp.
Qed.

Lemma download_metainfo_keeps hash : op_keeps (Some hash) (download_metainfo hash).
Proof.
  intros s w Hs. unfold download_metainfo. ut_run. destruct (pending_map s !! hash) as [o|] eqn:Ho.
  { eexists _, s. split_and!; try done. intros k Hk. by left. }
  eexists _, _. split; [done|]. split; [done|]. split; [|split_and!; try done].
  - split; cbn; [apply Hs| | |apply Hs].
    + intros k p. rewrite lookup_insert_Some. intros [[_ ?]|[_ ?]]; [done|by apply Hs].
    + intros r Hr. destruct (mo_active s Hs r Hr) as [p Hp]. exists p. rewrite lookup_insert_ne; [done|]. intros ->. congruence.
  - cbn. intros k. destruct (decide (k = hash)) as [->|]; [by right|]. rewrite lookup_insert_ne by done. by left.
Qed.

Lemma recv_request_keeps info request : (0 <= utreq_piece request < 2 ^ 50 - 1)%Z -> op_keeps None (recv_request info request).
Proof.
  intros Hp s w Hs. unfold recv_request. ut_run. destruct (bool_decide _).
  { eexists _, s. split_and!; try done. intros k Hk. by left. }
  eexists _, _. split; [done|]. split; [done|]. split; [|split_and!; try done; intros k Hk; by left].
  destruct Hs as [? ? ? Hq]. split; cbn; [done..|]. intros r [Hr|Hr%list_elem_of_singleton]%elem_of_app; [by apply Hq|by subst r].
Qed.

(** A data message that answers a request takes its place in the download. *)
Lemma recv_data_step s w info data i r p : meta_ok s ->
  position (fun request => PeerInfo_eq (ar_sent_to request) info && (utreq_piece (ar_message request) =? utdata_piece data)%Z) (active_requests s) = Some i ->
  active_requests s !! i = Some r -> pending_map s !! peer_hash info = Some (Some p) ->
  let off := Z.to_nat (utdata_piece data * REQUEST) in
  exists left_, pend_left p = S left_ /\ utreq_piece (ar_message r) = utdata_piece data /\ peer_hash (ar_sent_to r) = peer_hash info /\
  piece_in (length (pend_bytes p)) (utdata_piece data) /\
  recv_data info data (s, w) = (Ok SinkReady, (with_pending (with_requests s (swap_remove (active_requests s) i))
    (<[peer_hash info := Some (mk_PendingInfo (pend_messages p) left_ (take off (pend_bytes p) ++ copy_over (utdata_data data) (drop off (pend_bytes p))))]> (pending_map s)), w)).
Proof.
  intros Hs Hpos Hr Hp off. pose proof Hpos as [(r' & Hr' & Hb) _]%position_Some. assert (r' = r) as -> by congruence.
  apply andb_true_iff in Hb as [He Hz%Z.eqb_eq]. apply PeerInfo_eq_key in He. unfold peer_key in He. injection He as _ _ Hh.
  pose proof (mo_pending s Hs _ _ Hp) as [_ Hrange Hleft Hlen].
  assert (utreq_piece (ar_message r) ∈ outstanding (peer_hash info) (active_requests s) p) as Hin.
  { unfold outstanding. apply list_elem_of_fmap_2, elem_of_app. right. apply list_elem_of_fmap_2, list_elem_of_filter. split; [done|]. by eapply list_elem_of_lookup_2. }
  rewrite Forall_forall in Hrange. pose proof (Hrange _ Hin) as Hpi. rewrite Hz in Hpi.
  destruct (pend_left p) as [|left_] eqn:Hl; [symmetry in Hleft; apply nil_length_inv in Hleft; rewrite Hleft in Hin; by apply elem_of_nil in Hin|].
  exists left_. split_and!; [done|done|done|exact Hpi|]. unfold recv_data. ut_run. rewrite Hpos. cbn [with_requests pending_map]. rewrite Hp.
  rewrite (piece_offset_ok _ _ Hpi Hlen), Hl, (write_at_ok _ _ _ _ eq_refl Hpi). done.
Qed.

Lemma recv_data_keeps info data : op_keeps None (recv_data info data).
Proof.
  intros s w Hs. destruct (position (fun request => PeerInfo_eq (ar_sent_to request) info && (utreq_piece (ar_message request) =? utdata_piece data)%Z)
    (active_requests s)) as [i|] eqn:Hpos.
  2: { unfold recv_data. ut_run. rewrite Hpos. eexists _, s. split_and!; try done. intros k Hk. by left. }
  pose proof Hpos as [(r & Hr & Hb) _]%position_Some. apply andb_true_iff in Hb as [He _]. apply PeerInfo_eq_key in He. unfold peer_key in He. injection He as _ _ Hh.
  destruct (mo_active s Hs r) as [p Hp]; [by eapply list_elem_of_lookup_2|]. rewrite Hh in Hp.
  destruct (recv_data_step s w info data i r p Hs Hpos Hr Hp) as (left_ & Hleft & Hz & _ & _ & ->).
  pose proof (swap_remove_perm _ _ _ Hr) as Hperm. set (active := swap_remove (active_requests s) i) in *.
  eexists _, _. split; [done|]. split; [done|]. split; [|split_and!; try done].
  - split; cbn; [apply Hs| | |apply Hs].
    + intros k q. rewrite lookup_insert_Some. intros [[<- [= <-]]|[Hne Hq]].
      * destruct (mo_pending s Hs _ _ Hp) as [H1 H2 H3 H4].
        assert (utreq_piece (ar_message r) :: outstanding (peer_hash info) active p ≡ₚ outstanding (peer_hash info) (active_requests s) p) as Ho.
        { unfold outstanding. rewrite <- (asked_perm _ _ _ Hperm), asked_cons, decide_True by done. rewrite !fmap_app, fmap_cons. apply Permutation_middle. }
        rewrite <- Ho in H1, H2, H3. apply NoDup_cons in H1 as [_ H1]. apply Forall_cons in H2 as [_ H2]. rewrite Hleft in H3. injection H3 as H3.
        split; cbn [pend_left pend_bytes]; rewrite ?length_written; done.
      * eapply pending_ok_perm, Hs, Hq; try done. unfold outstanding. rewrite <- (asked_perm _ _ _ Hperm), asked_cons, decide_False by congruence. done.
    + intros r' Hr'. destruct (mo_active s Hs r') as [q Hq]; [rewrite <- Hperm; by apply list_elem_of_further|].
      destruct (decide (peer_hash (ar_sent_to r') = peer_hash info)) as [Heq|]; [rewrite Heq, lookup_insert_eq; eauto|]. rewrite lookup_insert_ne by done. eauto.
  - cbn. intros k. destruct (decide (k = peer_hash info)) as [->|]; [rewrite Hp; eauto|]. rewrite lookup_insert_ne by done. by left.
Qed.

(** *** Ticks *)

Definition expired (d : Duration) (r : ActiveRequest) : Prop := (ar_left r < d)%N.
#[local] Instance expired_dec d r : Decision (expired d r).
Proof. unfold expired. apply _. Defined.

Lemma retain_spec d l : forall peers pending, exists kept peers' pending',
  retain_unexpired d l peers pending = (kept, peers', pending') /\
  kept = filter (fun r => ~ expired d r) l /\
  (forall k, pending' !! k = (fun o => (fun p => mk_PendingInfo (pend_messages p ++ asked k (filter (expired d) l)) (pend_left p) (pend_bytes p)) <$> o) <$> pending !! k) /\
  forall (P : ShaHash -> ActivePeers -> Prop), (forall h a q, P h a -> P h (remove_active q a)) ->
    (forall h a, peers !! h = Some a -> P h a) -> forall h a, peers' !! h = Some a -> P h a.
Proof.
  induction l as [|r l IH]; intros peers pending; cbn [retain_unexpired].
  - exists [], peers, pending. split; [done|]. split; [done|]. split; [|by auto]. intros k. destruct (pending !! k) as [[[ms lf bs]|]|]; [|done..].
    cbn. by rewrite app_nil_r.
  - unfold duration_checked_sub. destruct (N.ltb_spec (ar_left r) d) as [Hlt|Hge].
    + destruct (IH (alter (remove_active (ar_sent_to r)) (peer_hash (ar_sent_to r)) peers) (alter (push_message (ar_message r)) (peer_hash (ar_sent_to r)) pending))
        as (kept & peers' & pending' & -> & Hk & Hp & Ha).
      exists kept, peers', pending'. rewrite !filter_cons, decide_False, decide_True by (unfold expired; (done || lia)). split; [done|]. split; [done|]. split.
      * intros k. rewrite Hp. destruct (decide (k = peer_hash (ar_sent_to r))) as [->|Hne].
        -- rewrite lookup_alter_eq, asked_cons, decide_True by done. destruct (pending !! _) as [[p|]|]; [|done..]. cbn. by rewrite <- app_assoc.
        -- rewrite lookup_alter_ne, asked_cons, decide_False by done. done.
      * intros P HP Hin. apply Ha; [done|]. intros h a. rewrite lookup_alter_Some. intros [(<- & a0 & Ha0 & ->)|[_ Hh]]; auto.
    + destruct (IH peers pending) as (kept & peers' & pending' & -> & Hk & Hp & Ha).
      exists (r :: kept), peers', pending'. rewrite !filter_cons, decide_True, decide_False by (unfold expired; lia). split; [done|]. by rewrite Hk.
Qed.

Lemma subtract_left_ok {E} d r : ~ expired d r -> subtract_left (E := E) d r = Ok (mk_ActiveRequest (ar_left r - d)%N (ar_message r) (ar_sent_to r)).
Proof. unfold expired, subtract_left, duration_checked_sub. intros He. by destruct (N.ltb_spec (ar_left r) d). Qed.

Lemma subtract_all {E} d l : exists l', map_outcome (E := E) (subtract_left d) (filter (fun r => ~ expired d r) l) = Ok l' /\
  Forall2 (fun r r' => ar_message r' = ar_message r /\ ar_sent_to r' = ar_sent_to r) (filter (fun r => ~ expired d r) l) l'.
Proof.
  induction l as [|r l (l' & Hl & Hf)]; [by exists []|]. rewrite filter_cons. destruct (decide (~ expired d r)) as [He|]; [|by exists l'].
  cbn [map_outcome]. rewrite subtract_left_ok by done. cbn [mbind outcome_bind]. rewrite Hl. cbn [mbind outcome_bind]. eexists. split; [done|]. by constructor.
Qed.

Lemma asked_same k l l' : Forall2 (fun r r' => ar_message r' = ar_message r /\ ar_sent_to r' = ar_sent_to r) l l' -> asked k l' = asked k l.
Proof. induction 1 as [|r r' l l' [Hm Hs] _ IH]; [done|]. by rewrite !asked_cons, Hs, Hm, IH. Qed.

Lemma asked_partition d k l : asked k (filter (expired d) l) ++ asked k (filter (fun r => ~ expired d r) l) ≡ₚ asked k l.
Proof.
  induction l as [|r l IH]; [done|]. rewrite !filter_cons. destruct (decide (expired d r)) as [He|He].
  - rewrite decide_False by tauto. rewrite !asked_cons. destruct (decide _); [cbn; by rewrite IH|done].
  - rewrite decide_True by done. rewrite !asked_cons. destruct (decide _); [rewrite <- Permutation_middle; by rewrite IH|done].
Qed.

Lemma apply_tick_keeps duration : op_keeps None (apply_tick duration).
Proof.
  intros s w Hs. unfold apply_tick. ut_run.
  destruct (retain_spec duration (active_requests s) (active_peers s) (pending_map s)) as (kept & peers & pending & -> & -> & Hp & Ha).
  destruct (subtract_all (E := DiscoveryErrorKind) duration (active_requests s)) as (l & -> & Hl).
  eexists _, _. split; [done|]. split; [done|]. split; [|split_and!; try done].
  - split; cbn.
    + apply (Ha (fun h a => peers_of h (ap_peers a) /\ size_fits (ap_metadata_size a))); [|apply Hs]. intros h a q [? ?]. split; [by apply peers_of_remove|done].
    + intros k p. rewrite Hp. destruct (pending_map s !! k) as [[q|]|] eqn:Hq; [|done..]. intros [= <-].
      eapply pending_ok_perm, Hs, Hq; try done. unfold outstanding. cbn [pend_messages]. rewrite (asked_same _ _ _ Hl), <- app_assoc, asked_partition. done.
    + intros r' Hr'. apply list_elem_of_lookup in Hr' as [i Hi]. destruct (Forall2_lookup_r _ _ _ _ _ Hl Hi) as (r & Hr & _ & ->).
      apply list_elem_of_lookup_2, list_elem_of_filter in Hr as [_ Hr]. destruct (mo_active s Hs r Hr) as [p Hq]. rewrite Hp, Hq. cbn. eauto.
    + apply Hs.
  - cbn. intros k. rewrite Hp, fmap_is_Some. by left.
Qed.

(** ** The sink and the listener *)

(** Messages whose numbers fit: the metadata to serve can be written, and a
    request names a piece whose end is a [usize]. *)
Definition message_fits (item : IDiscoveryMessage) : Prop :=
  match item with
  | DControl (AddTorrent metainfo) => writable (mi_info metainfo)
  | ReceivedUtMetadataMessage _ (UtRequest msg) => (0 <= utreq_piece msg < 2 ^ 50 - 1)%Z
  | _ => True
  end.

(** The torrent a message asks to download. *)
Definition wanted (item : IDiscoveryMessage) : option ShaHash := match item with DownloadMetainfo hash => Some hash | _ => None end.

Context (pending_order : gmap ShaHash (option PendingInfo) -> list ShaHash).
Hypothesis Hpending : visits_all pending_order.

(** What a call that ends with the check of the stream leaves. *)
Record settled (new : option ShaHash) (s s' : UtMetadataModule FU) (w w' : fworld) : Prop := {
  st_ok : meta_ok s';
  st_valid : arrived_valid (pending_map s');
  st_keys : forall k, is_Some (pending_map s' !! k) -> is_Some (pending_map s !! k) \/ Some k = new;
  st_stream : match opt_stream s with
              | None => opt_stream s' = None /\ w' = w
              | Some task => (opt_stream s' = None /\ w' = notify task w) \/ (opt_stream s' = Some task /\ w' = w /\ nothing_to_do s')
              end;
}.

Lemma fits_not_bad s h : meta_ok s -> ~ bad_size (active_peers s) h.
Proof.
  intros Hs (a & Ha & Hb). destruct (mo_peers s Hs _ _ Ha) as [_ Hf]. unfold size_fits in Hf. rewrite as_unsigned_id in Hb by (unfold in_unsigned; lia). lia.
Qed.

Lemma check_settles new s0 s w : meta_ok s -> opt_stream s = opt_stream s0 ->
  (forall k, is_Some (pending_map s !! k) -> is_Some (pending_map s0 !! k) \/ Some k = new) ->
  exists s' w', check_stream_unblock pending_order (s, w) = (Ok (), (s', w')) /\ settled new s0 s' w w' /\ opt_sink s' = opt_sink s.
Proof.
  intros Hs Hstream Hkeys. destruct (check_stream_spec pending_order Hpending w s) as [(h & s' & w' & _ & Hb)|(m & t & w' & Hc & Hr & Ht)].
  { by destruct (fits_not_bad s h Hs). }
  eexists _, w'. split; [exact Hc|]. split; [|done]. split; cbn [with_stream with_pending pending_map opt_stream].
  - by apply meta_ok_refreshed.
  - by eapply refreshed_valid.
  - intros k [o Ho]. apply Hkeys. specialize (Hr k). destruct (pending_map s !! k); [eauto|congruence].
  - rewrite <- Hstream. destruct (opt_stream s) as [task|]; [|done]. destruct Ht as [Ht|(-> & -> & [? ? ?])]; [by left|]. right. by split_and!.
Qed.

Lemma start_send_settles item s w : meta_ok s -> message_fits item ->
  exists r s' w', start_send pending_order item (s, w) = (r, (s', w')) /\ returns r /\ settled (wanted item) s s' w w'.
Proof.
  intros Hs Hf. unfold start_send. set (op := match item with DControl _ => _ | DownloadMetainfo _ => _ | ReceivedUtMetadataMessage _ _ => _ end).
  assert (op_keeps (wanted item) op) as Hop.
  { destruct item as [[]| |? []]; cbn [op wanted].
    - by apply add_torrent_keeps.
    - apply remove_torrent_keeps.
    - apply start_ready_keeps.
    - apply remove_peer_keeps.
    - apply apply_tick_keeps.
    - apply download_metainfo_keeps.
    - by apply recv_request_keeps.
    - apply recv_data_keeps.
    - apply start_ready_keeps. }
  clearbody op. destruct (Hop s w Hs) as (r & s1 & He & Hret & Hs1 & Hstream & Hsink & Hkeys). unfold with_result. rewrite He.
  destruct (check_settles (wanted item) s s1 w Hs1 Hstream Hkeys) as (s2 & w2 & Hc & Hset & _).
  assert (forall a : outcome DiscoveryErrorKind (AsyncSink IDiscoveryMessage), exists r' s' w', (check_stream_unblock pending_order;;
    (match a with Ok (SinkNotReady _) => self ← get_self; task ← task_current; set_self (with_sink self (Some task)) | _ => mret () end);; lift a) (s1, w) =
    (r', (s', w')) /\ r' = a /\ settled (wanted item) s s' w w') as Hgoal.
  { intros a. ut_run. rewrite Hc. destruct Hset as [H1 H2 H3 H4].
    assert (settled (wanted item) s (with_sink s2 (Some (current w2))) w w2) as Hset'.
    { split; cbn [with_sink pending_map opt_stream]; try done; [by eapply meta_ok_ext, H1|].
      destruct (opt_stream s); [|done]. destruct H4 as [?|(? & ? & [? ? ?])]; [by left|]. right. by split_and!. }
    destruct a as [[|msg]| | |]; eexists _, _, _; split; try done; split; try done. }
  destruct r as [a|e| |]; [| |done..].
  - destruct (Hgoal (Ok a)) as (r' & s' & w' & -> & -> & ?). by eexists _, _, _.
  - destruct (Hgoal (Err e)) as (r' & s' & w' & -> & -> & ?). by eexists _, _, _.
Qed.

Lemma on_update_settles info ext_info s w : meta_ok s -> ext_fits ext_info ->
  exists s' w', on_update pending_order info ext_info (s, w) = (Ok (), (s', w')) /\ settled None s s' w w'.
Proof.
  intros Hs Hf. destruct (add_peer_keeps info ext_info Hf s w Hs) as (r & s1 & He & Hret & Hs1 & Hstream & Hsink & Hkeys).
  assert (exists a, r = Ok a) as [a ->].
  { unfold add_peer in He. revert He. ut_run. destruct (supports _); [|intros [= <- _]; eauto]. destruct (supports _); [|intros [= <- _]; eauto].
    destruct (their_size _); intros [= <- _]; eauto. }
  destruct (check_settles None s s1 w Hs1 Hstream Hkeys) as (s2 & w2 & Hc & Hset & _).
  exists s2, w2. split; [|done]. unfold on_update, with_result. ut_run. rewrite He. exact Hc.
Qed.
End inv.
