(* ===== verification/SelDownload.v ===== *)
(** * The metadata module: its stream and its runs

    What a poll gives, and the theorems over every sequence of calls on a module:
    it never panics, what it reports as downloaded is what was asked for, a task
    that waits is woken when there is something for it, and only whole pieces are
    served. *)

From stdpp Require Import prelude list gmap strings.
From Stdlib Require Import ZArith Lia Strings.Byte.
From S2P Require Import Prelude Bytes Bencode BencodeTotal Convert Sha Fs Metainfo MetainfoBuild MetainfoProofs HsMessage PeerExtended SelBase SelMetadata SelMetadataProofs.

(** ** Reading what was downloaded *)

Section reading.
Context `{SH : Sha1}.

Lemma Info_from_bytes_returns bs : returns (Info_from_bytes bs).
Proof.
  unfold Info_from_bytes, parse_info_bytes. pose proof (BencodeRef_decode_returns bs BDecodeOpt_default) as Hd.
  destruct (BencodeRef_decode bs BDecodeOpt_default); try done. apply parse_info_returns.
Qed.

Lemma Info_from_bytes_hash bs i : Info_from_bytes bs = Ok i -> bs <> [] /\ info_hash i = from_bytes bs.
Proof.
  unfold Info_from_bytes, parse_info_bytes. destruct (BencodeRef_decode bs BDecodeOpt_default) as [r|e| |] eqn:Hd; try done. cbn [map_err mbind outcome_bind].
  intros [_ Hh]%parse_info_ok. apply decode_buffer in Hd as (next & Hn & _ & Hb). split; [intros ->; cbn in Hn; lia|]. by rewrite Hh, Hb.
Qed.

Lemma Info_from_bytes_cases bs : (exists i, Info_from_bytes bs = Ok i /\ bs <> [] /\ info_hash i = from_bytes bs) \/ exists e, Info_from_bytes bs = Err e.
Proof.
  pose proof (Info_from_bytes_returns bs) as Hr. destruct (Info_from_bytes bs) as [i|e| |] eqn:Hi; try done; [|by eauto].
  left. exists i. split; [done|]. by apply Info_from_bytes_hash.
Qed.

Lemma Info_from_bytes_nil : exists e, Info_from_bytes [] = Err e.
Proof. destruct (Info_from_bytes_cases []) as [(i & _ & ? & _)|?]; done. Qed.
End reading.

(** ** The three sources of messages *)

Section stream.
Context {FU : Futures} `{SH : Sha1}.
Context (pending_order : gmap ShaHash (option PendingInfo) -> list ShaHash) (peer_order : PeerSet -> list PeerKey).
Hypothesis Hpending : visits_all pending_order.
Hypothesis Hpeers : visits_all peer_order.
Implicit Types (s : UtMetadataModule FU) (w : fworld).

(** The downloads a poll removes have arrived, and are given or cannot be read. *)
Definition swept (s s' : UtMetadataModule FU) (o : option ODiscoveryMessage) : Prop :=
  s' = with_peers (with_pending s (pending_map s')) (active_peers s') /\
  forall k, (pending_map s' !! k = pending_map s !! k /\ active_peers s' !! k = active_peers s !! k) \/
    pending_map s' !! k = None /\ active_peers s' !! k = None /\ exists p, pending_map s !! k = Some (Some p) /\ pend_left p = 0 /\
      match Info_from_bytes (pend_bytes p) with Ok i => o = Some (DownloadedMetainfo (Metainfo_from_info i)) | _ => True end.

Lemma find_completed m : match List.find (fun h => is_completed (default None (m !! h))) (pending_order m) with
  | Some h => exists p, m !! h = Some (Some p) /\ pend_left p = 0
  | None => forall k p, m !! k = Some (Some p) -> pend_left p <> 0
  end.
Proof.
  destruct (List.find _ _) as [h|] eqn:Hf.
  - apply find_some in Hf as [_ Hc]. destruct (m !! h) as [[p|]|]; cbn in Hc; try done. apply bool_decide_eq_true in Hc. eauto.
  - intros k p Hp Hz. assert (k ∈ pending_order m) as Hin by (apply Hpending; eauto). apply list_elem_of_In in Hin.
    pose proof (find_none _ _ Hf k Hin) as Hn. cbn in Hn. rewrite Hp in Hn. cbn in Hn. by rewrite bool_decide_true in Hn.
Qed.

Lemma retrieve_completed_spec w fuel : forall s, size (pending_map s) < fuel ->
  exists o s', retrieve_completed_download pending_order fuel (s, w) = (Ok o, (s', w)) /\ swept s s' o /\
  match o with
  | Some msg => exists k p i, msg = DownloadedMetainfo (Metainfo_from_info i) /\ pending_map s !! k = Some (Some p) /\ pend_left p = 0 /\
      Info_from_bytes (pend_bytes p) = Ok i /\ pending_map s' !! k = None
  | None => forall k p, pending_map s' !! k = Some (Some p) -> pend_left p <> 0
  end.
Proof.
  induction fuel as [|fuel IH]; intros s Hf; [lia|]. cbn [retrieve_completed_download]. ut_run.
  pose proof (find_completed (pending_map s)) as Hc. destruct (List.find _ _) as [h|].
  2: { exists None, s. split; [done|]. split; [|done]. split; [by destruct s|]. intros k. by left. }
  destruct Hc as (p & Hp & Hz). rewrite Hp. cbn [unwrap]. set (s1 := with_peers _ _).
  destruct (Info_from_bytes_cases (pend_bytes p)) as [(i & Hi & _)|[e Hi]]; rewrite Hi.
  - eexists _, _. split; [done|]. split; [|exists h, p, i; split_and!; try done; apply lookup_delete_eq].
    split; [done|]. intros k. cbn. destruct (decide (k = h)) as [->|]; [|left; by rewrite !lookup_delete_ne].
    right. rewrite !lookup_delete_eq. split; [done|]. split; [done|]. exists p. by rewrite Hi.
  - destruct (IH s1) as (o & s' & He & [Hs' Hsw] & Ho).
    { cbn [s1 with_peers with_pending pending_map]. rewrite map_size_delete_Some by eauto.
      assert (size (pending_map s) <> 0) by (apply map_size_ne_0_lookup; eauto). lia. }
    exists o, s'. split; [done|]. split.
    + split; [rewrite Hs'; done|]. intros k. specialize (Hsw k). cbn [s1 with_peers with_pending pending_map active_peers] in Hsw.
      destruct (decide (k = h)) as [->|Hne]; [|by rewrite !lookup_delete_ne in Hsw].
      rewrite !lookup_delete_eq in Hsw. right. destruct Hsw as [[-> ->]|(_ & _ & q & ? & _)]; [|done]. split; [done|]. split; [done|]. exists p. by rewrite Hi.
    + destruct o as [msg|]; [|done]. destruct Ho as (k & q & i & -> & Hk & Hz' & Hi' & Hn). exists k, q, i. split_and!; try done.
      cbn [s1 with_peers with_pending pending_map] in Hk. by apply lookup_delete_Some in Hk as [_ ?].
Qed.

(** *** Asking *)

(** The module after piece [msg] of [h] was asked of [q]. *)
Definition asks (s : UtMetadataModule FU) (h : ShaHash) (p : PendingInfo) (ms : list UtMetadataRequestMessage) (msg : UtMetadataRequestMessage) (q : PeerInfo) :
    UtMetadataModule FU :=
  with_requests (with_pending s (<[h := Some (mk_PendingInfo ms (pend_left p) (pend_bytes p))]> (pending_map s)))
    (active_requests s ++ [generate_active_request msg q]).

(** A download with a piece to ask for and a peer to ask. *)
Definition can_ask (s : UtMetadataModule FU) (k : ShaHash) : Prop :=
  exists p a, pending_map s !! k = Some (Some p) /\ pend_messages p <> [] /\ active_peers s !! k = Some a /\ ap_peers a <> ∅.

Lemma select_peer (peers : PeerSet) (drawn : Z) : peers <> ∅ -> exists q key,
  peers !! key = Some q /\ nth_peer peer_order peers (Z.to_nat (as_unsigned 64 drawn mod Z.of_nat (size peers))) = Some q.
Proof.
  intros Hne. assert (0 < size peers) as Hs by (apply Nat.neq_0_lt_0; by apply map_size_non_empty_iff).
  assert (0 < Z.of_nat (size peers))%Z as Hz by lia. pose proof (Z.mod_pos_bound (as_unsigned 64 drawn) _ Hz) as Hb.
  destruct (lookup_lt_is_Some_2 (peer_order peers) (Z.to_nat (as_unsigned 64 drawn mod Z.of_nat (size peers)))) as [key Hk].
  { rewrite (order_size peer_order peers Hpeers). lia. }
  destruct (proj1 (proj2 (Hpeers peers) key) (list_elem_of_lookup_2 _ _ _ Hk)) as [q Hq]. exists q, key. split; [done|]. unfold nth_peer. rewrite Hk. exact Hq.
Qed.

Lemma request_over_spec w s l :
  (request_over peer_order l (s, w) = (Ok None, (s, w)) /\ forall k, k ∈ l -> ~ can_ask s k) \/
  exists h p a ms msg q key, h ∈ l /\ pending_map s !! h = Some (Some p) /\ pend_messages p = ms ++ [msg] /\ active_peers s !! h = Some a /\
    ap_peers a !! key = Some q /\
    request_over peer_order l (s, w) = (Ok (Some (SendUtMetadataMessage q (UtRequest msg))), (asks s h p ms msg q, (next_u32 w).2)).
Proof.
  induction l as [|h l IH]; [left; split; [done|]; intros k Hk; by apply elem_of_nil in Hk|]. cbn [request_over]. ut_run.
  destruct (has_messages (default None (pending_map s !! h)) && match active_peers s !! h with Some peers => negb (peers_is_empty (ap_peers peers)) | None => false end) eqn:Hc.
  - right. apply andb_true_iff in Hc as [Hm Ha]. destruct (pending_map s !! h) as [[p|]|] eqn:Hp; cbn in Hm; try done.
    destruct (active_peers s !! h) as [a|] eqn:Hah; [|done]. unfold peers_is_empty in Ha. apply negb_true_iff, bool_decide_eq_false in Hm, Ha.
    destruct (select_peer (ap_peers a) (next_u32 w).1 Ha) as (q & key & Hq & Hsel).
    destruct (exists_last Hm) as (ms & msg & Hms). exists h, p, a, ms, msg, q, key. split; [apply list_elem_of_here|]. split_and!; try done.
    cbn [default id unwrap]. unfold rng_next_u32. cbn [snd fst]. destruct (next_u32 w) as [drawn w'] eqn:Hn. cbn [fst snd] in *.
    rewrite Hsel. cbn [unwrap]. rewrite Hms, last_snoc, length_app. cbn [unwrap length].
    replace (length ms + 1 - 1) with (length ms) by lia. rewrite take_app_length. done.
  - destruct IH as [[He Hk]|(h' & p & a & ms & msg & q & key & Hin & ?)].
    + left. split; [done|]. intros k [->|Hkl]%elem_of_cons; [|by apply Hk]. intros (p & a & Hp & Hm & Ha & Hne). rewrite Hp, Ha in Hc. cbn in Hc.
      unfold peers_is_empty in Hc. rewrite !bool_decide_false in Hc by done. done.
    + right. exists h', p, a, ms, msg, q, key. split; [by apply list_elem_of_further|done].
Qed.

(** *** Serving *)

(** A request the module answers: a whole piece of metadata it knows. *)
Definition servable (s : UtMetadataModule FU) (r : PeerRequest) : Prop :=
  exists data, completed_map s !! peer_hash (pr_send_to r) = Some data /\ (Z.of_nat (length data) >= (utreq_piece (pr_request r) + 1) * REQUEST)%Z.

(** The answer: the bytes of the piece. *)
Definition answer_to (r : PeerRequest) (data : bytes) : ODiscoveryMessage :=
  let piece := utreq_piece (pr_request r) in
  SendUtMetadataMessage (pr_send_to r) (UtData (UtMetadataDataMessage_new piece REQUEST
    (slice data (Z.to_nat (piece * REQUEST)) (Z.to_nat ((piece + 1) * REQUEST))))).

Lemma response_over_spec w : forall l s, peer_requests s = l -> (forall r, r ∈ l -> (0 <= utreq_piece (pr_request r) < 2 ^ 50 - 1)%Z) ->
  (Forall (fun r => ~ servable s r) l /\ response_over l (s, w) = (Ok None, (with_peer_requests s [], w))) \/
  exists skipped r data rest, l = skipped ++ r :: rest /\ Forall (fun r => ~ servable s r) skipped /\
    completed_map s !! peer_hash (pr_send_to r) = Some data /\ (Z.of_nat (length data) >= (utreq_piece (pr_request r) + 1) * REQUEST)%Z /\
    response_over l (s, w) = (Ok (Some (answer_to r data)), (with_peer_requests s rest, w)).
Proof.
  induction l as [|r l IH]; intros s Hl Hr; [left; split; [constructor|]; destruct s; cbn in Hl; by subst|].
  cbn [response_over]. ut_run. pose proof (Hr r (list_elem_of_here _ _)) as Hp. remember (utreq_piece (pr_request r)) as piece eqn:Hpiece.
  assert (piece_offset (E := DiscoveryErrorKind) piece = Ok (piece * REQUEST)%Z) as ->.
  { unfold piece_offset. fold REQUEST. rewrite REQUEST_eq, as_unsigned_id by (unfold in_unsigned; lia). destruct (Z.leb_spec (2 ^ 64) (piece * 16384)); [lia|done]. }
  fold REQUEST. destruct (Z.leb_spec (2 ^ 64) (piece * REQUEST + REQUEST)) as [Hx|_]; [rewrite REQUEST_eq in Hx; lia|].
  assert (~ servable s r -> (Forall (fun r => ~ servable s r) (r :: l) /\ response_over l (with_peer_requests s l, w) = (Ok None, (with_peer_requests s [], w))) \/
    exists skipped r0 data rest, r :: l = skipped ++ r0 :: rest /\ Forall (fun r => ~ servable s r) skipped /\
    completed_map s !! peer_hash (pr_send_to r0) = Some data /\ (Z.of_nat (length data) >= (utreq_piece (pr_request r0) + 1) * REQUEST)%Z /\
    response_over l (with_peer_requests s l, w) = (Ok (Some (answer_to r0 data)), (with_peer_requests s rest, w))) as Hskip.
  { intros Hs. destruct (IH (with_peer_requests s l) eq_refl) as [[Hf He]|(skipped & r0 & data & rest & -> & Hf & Hd & Hlen & He)];
      [intros r0 Hr0; apply Hr; by apply list_elem_of_further|left; split; [by constructor|done]|].
    right. exists (r :: skipped), r0, data, rest. split_and!; try done. by constructor. }
  unfold servable in Hskip at 1. rewrite <- Hpiece in Hskip. destruct (completed_map s !! peer_hash (pr_send_to r)) as [data|] eqn:Hd.
  2: { apply Hskip. by intros (? & ? & _). }
  destruct (_ && _) eqn:Hb.
  - right. exists [], r, data, l. rewrite <- Hpiece. apply andb_true_iff in Hb as [_ Hb%Z.leb_le]. split_and!; try done; [lia|].
    unfold answer_to. rewrite <- Hpiece. replace ((piece + 1) * REQUEST)%Z with (piece * REQUEST + REQUEST)%Z by lia.
    assert (Z.of_nat (length (slice data (Z.to_nat (piece * REQUEST)) (Z.to_nat (piece * REQUEST + REQUEST)))) = REQUEST) as Hlen; [|by rewrite Hlen at 1].
    unfold slice. rewrite length_take, length_drop. rewrite REQUEST_eq in *. lia.
  - apply Hskip. intros (data' & [= <-] & Hge). apply andb_false_iff in Hb as [Hb%Z.leb_gt|Hb%Z.leb_gt]; rewrite REQUEST_eq in *; lia.
Qed.

(** *** One poll *)

(** The three things a poll can give, and the module it leaves. *)
Inductive gives (s : UtMetadataModule FU) : option ODiscoveryMessage -> UtMetadataModule FU -> Prop :=
| gives_download k p i s' :
    pending_map s !! k = Some (Some p) -> pend_left p = 0 -> Info_from_bytes (pend_bytes p) = Ok i -> pending_map s' !! k = None ->
    swept s s' (Some (DownloadedMetainfo (Metainfo_from_info i))) ->
    gives s (Some (DownloadedMetainfo (Metainfo_from_info i))) s'
| gives_request s1 h p a ms msg q key :
    swept s s1 None -> (forall k p, pending_map s1 !! k = Some (Some p) -> pend_left p <> 0) ->
    pending_map s1 !! h = Some (Some p) -> pend_messages p = ms ++ [msg] -> active_peers s1 !! h = Some a -> ap_peers a !! key = Some q ->
    gives s (Some (SendUtMetadataMessage q (UtRequest msg))) (asks s1 h p ms msg q)
| gives_answer s1 skipped r data rest :
    swept s s1 None -> (forall k, ~ can_ask s1 k) ->
    peer_requests s = skipped ++ r :: rest -> Forall (fun r => ~ servable s r) skipped ->
    completed_map s !! peer_hash (pr_send_to r) = Some data -> (Z.of_nat (length data) >= (utreq_piece (pr_request r) + 1) * REQUEST)%Z ->
    gives s (Some (answer_to r data)) (with_peer_requests s1 rest)
| gives_nothing s1 :
    swept s s1 None -> (forall k p, pending_map s1 !! k = Some (Some p) -> pend_left p <> 0) -> (forall k, ~ can_ask s1 k) ->
    Forall (fun r => ~ servable s r) (peer_requests s) ->
    gives s None (with_peer_requests s1 []).

Lemma swept_fields s s' o : swept s s' o -> completed_map s' = completed_map s /\ active_requests s' = active_requests s /\ peer_requests s' = peer_requests s /\
  opt_sink s' = opt_sink s /\ opt_stream s' = opt_stream s.
Proof. intros [-> _]. done. Qed.

Lemma retrieve_spec w s : meta_ok s -> exists o s' w', gives s o s' /\ opt_sink s' = opt_sink s /\ opt_stream s' = opt_stream s /\
  or_else (or_else (retrieve_completed_download pending_order (S (size (pending_map s)))) (retrieve_piece_request pending_order peer_order)) retrieve_piece_response (s, w) =
  (Ok o, (s', w')).
Proof.
  intros Hs. unfold or_else. ut_run.
  destruct (retrieve_completed_spec w (S (size (pending_map s))) s) as (o & s1 & -> & Hsw & Ho); [lia|].
  destruct (swept_fields s s1 o Hsw) as (Hc1 & Ha1 & Hq1 & Hsi & Hst). destruct o as [msg|].
  { destruct Ho as (k & p & i & -> & ? & ? & ? & ?). exists (Some (DownloadedMetainfo (Metainfo_from_info i))), s1, w. split; [|done]. by eapply gives_download. }
  unfold retrieve_piece_request. ut_run.
  destruct (request_over_spec w s1 (pending_order (pending_map s1))) as [[-> Hno]|(h & p & a & ms & msg & q & key & _ & Hp & Hm & Ha & Hq & ->)].
  2: { exists (Some (SendUtMetadataMessage q (UtRequest msg))), (asks s1 h p ms msg q), (next_u32 w).2. split; [by eapply gives_request|done]. }
  assert (forall k, ~ can_ask s1 k) as Hno'.
  { intros k Hk. apply (Hno k); [|done]. destruct Hk as (p & a & Hp & _). apply Hpending. eauto. }
  unfold retrieve_piece_response. ut_run.
  assert (forall r, servable s1 r <-> servable s r) as Hsv by (intros r; unfold servable; by rewrite Hc1).
  destruct (response_over_spec w (peer_requests s1) s1 eq_refl) as [[Hf ->]|(skipped & r & data & rest & Hl & Hf & Hd & Hlen & ->)].
  - rewrite Hq1. apply Hs.
  - exists None, (with_peer_requests s1 []), w. split; [|done]. apply gives_nothing; try done. rewrite <- Hq1. eapply Forall_impl; [exact Hf|]. intros r Hr Hv. by apply Hr, Hsv.
  - exists (Some (answer_to r data)), (with_peer_requests s1 rest), w. split; [|done]. apply (gives_answer s s1 skipped r data rest); try done; [congruence| |congruence]. eapply Forall_impl; [exact Hf|]. intros r0 Hr Hv. by apply Hr, Hsv.
Qed.

Lemma meta_ok_swept s s' o : swept s s' o -> meta_ok s -> meta_ok s'.
Proof.
  intros Hsw Hs. destruct (swept_fields _ _ _ Hsw) as (_ & Ha & Hq & _). destruct Hsw as [_ Hk]. split; rewrite ?Ha, ?Hq.
  - intros h a Hh. destruct (Hk h) as [[_ He]|(_ & He & _)]; [|congruence]. rewrite He in Hh. by apply Hs.
  - intros h p Hh. destruct (Hk h) as [[He _]|(He & _)]; [|congruence]. rewrite He in Hh. by apply Hs.
  - intros r Hr. destruct (mo_active s Hs r Hr) as [p Hp]. exists p. destruct (Hk (peer_hash (ar_sent_to r))) as [[-> _]|(_ & _ & q & Hq' & Hz & _)]; [done|].
    assert (q = p) as -> by congruence. pose proof (pending_ok_done _ _ _ (mo_pending s Hs _ _ Hp) Hz) as Hn. rewrite asked_nil in Hn. by destruct (Hn r Hr).
  - apply Hs.
Qed.

Lemma meta_ok_asks s h p a ms msg q key : meta_ok s -> pending_map s !! h = Some (Some p) -> pend_messages p = ms ++ [msg] ->
  active_peers s !! h = Some a -> ap_peers a !! key = Some q -> meta_ok (asks s h p ms msg q).
Proof.
  intros Hs Hp Hm Ha Hq. destruct (mo_peers s Hs _ _ Ha) as [Hpe _]. destruct (Hpe _ _ Hq) as [_ Hh].
  assert (forall k, asked k (active_requests s ++ [generate_active_request msg q]) = asked k (active_requests s) ++ if decide (k = h) then [msg] else []) as Hask.
  { intros k. unfold asked. rewrite filter_app, fmap_app. f_equal. rewrite filter_cons. cbn [generate_active_request ar_sent_to].
    destruct (decide (k = h)) as [->|]; [by rewrite decide_True|]. by rewrite decide_False by congruence. }
  split; cbn; [apply Hs| | |apply Hs].
  - intros k p'. rewrite lookup_insert_Some. intros [[<- [= <-]]|[Hne Hk]].
    + eapply pending_ok_perm, Hs, Hp; try done. unfold outstanding. rewrite Hask, decide_True by done. cbn [pend_messages]. rewrite Hm, <- app_assoc. apply fmap_Permutation.
      apply Permutation_app_head, Permutation_app_comm.
    + eapply pending_ok_asked, Hs, Hk. by rewrite Hask, decide_False, app_nil_r by done.
  - intros r [Hr| ->%list_elem_of_singleton]%elem_of_app; cbn [generate_active_request ar_sent_to].
    + destruct (mo_active s Hs r Hr) as [p' Hp']. destruct (decide (peer_hash (ar_sent_to r) = h)) as [->|]; [rewrite lookup_insert_eq; eauto|].
      rewrite lookup_insert_ne by done. eauto.
    + rewrite Hh, lookup_insert_eq. eauto.
Qed.

Lemma with_peer_requests_ok s l : meta_ok s -> (forall r, r ∈ l -> r ∈ peer_requests s) -> meta_ok (with_peer_requests s l).
Proof. intros [? ? ? Hq] Hl. split; cbn; try done. intros r Hr. by apply Hq, Hl. Qed.

Lemma gives_ok s o s' : meta_ok s -> gives s o s' -> meta_ok s'.
Proof.
  intros Hs [k p i s1 _ _ _ _ Hsw|s1 h p a ms msg q key Hsw _ Hp Hm Ha Hq|s1 skipped r data rest Hsw _ Hl _ _ _|s1 Hsw _ _ _].
  - by eapply meta_ok_swept.
  - eapply meta_ok_asks; try done. by eapply meta_ok_swept.
  - apply with_peer_requests_ok; [by eapply meta_ok_swept|]. destruct (swept_fields _ _ _ Hsw) as (_ & _ & -> & _). rewrite Hl.
    intros r' Hr. apply elem_of_app. right. by apply list_elem_of_further.
  - apply with_peer_requests_ok; [by eapply meta_ok_swept|]. intros r Hr. by apply elem_of_nil in Hr.
Qed.

(** Two modules that differ in the waiting tasks only. *)
Definition same_work (s s' : UtMetadataModule FU) : Prop :=
  completed_map s' = completed_map s /\ pending_map s' = pending_map s /\ active_peers s' = active_peers s /\
  active_requests s' = active_requests s /\ peer_requests s' = peer_requests s.

Definition as_poll (o : option ODiscoveryMessage) : Async (option ODiscoveryMessage) := match o with Some value => Ready (Some value) | None => NotReady end.

Lemma poll_spec s w : meta_ok s -> exists o s1 s' w', poll pending_order peer_order (s, w) = (Ok (as_poll o), (s', w')) /\
  gives s o s1 /\ same_work s1 s' /\ meta_ok s' /\ (opt_sink s' = None \/ opt_sink s' = opt_sink s /\ length (peer_requests s') = MAX_PEER_REQUESTS) /\
  match o with Some _ => opt_stream s' = opt_stream s | None => opt_stream s' = Some (current w') end.
Proof.
  intros Hs. destruct (retrieve_spec w s Hs) as (o & s1 & w1 & Hg & Hsink & Hstream & He).
  assert (exists s2 w2, check_sink_unblock (s1, w1) = (Ok (), (s2, w2)) /\ same_work s1 s2 /\ opt_stream s2 = opt_stream s1 /\
    (opt_sink s2 = None \/ opt_sink s2 = opt_sink s1 /\ length (peer_requests s2) = MAX_PEER_REQUESTS)) as (s2 & w2 & Hc & Hw & Hst & Hsi).
  { unfold check_sink_unblock. ut_run. destruct (opt_sink s1) as [task|] eqn:Ht; [|exists s1, w1; rewrite Ht; by split_and!; try left].
    destruct (bool_decide_reflect (length (peer_requests s1) = MAX_PEER_REQUESTS)); cbn [negb].
    - exists s1, w1. rewrite Ht. split_and!; try done. by right.
    - eexists _, _. split; [done|]. split_and!; try done. by left. }
  rewrite Hsink, Hstream in *. pose proof (gives_ok s o s1 Hs Hg) as Hok. destruct Hw as (Hw1 & Hw2 & Hw3 & Hw4 & Hw5).
  unfold poll, mbind, stM_bind. cbn [get_self fst]. rewrite He. ut_run. rewrite Hc. destruct o as [value|].
  - exists (Some value), s1, s2, w2. split; [done|]. split; [done|]. split; [done|]. split; [by eapply meta_ok_ext, Hok|]. done.
  - exists None, s1, (with_stream s2 (Some (current w2))), w2. split; [done|]. split; [done|]. split; [done|]. split; [by eapply meta_ok_ext, Hok|]. done.
Qed.
End stream.

(** * The metadata module: theorems over its runs

    A run is any sequence of calls on a new module: messages to its sink, updates
    of the extended handshake, and polls of its stream, in any world and with the
    maps walked in any order. *)

Section runs.
Context {FU : Futures} `{SH : Sha1}.
Implicit Types (s : UtMetadataModule FU) (w : fworld).

Inductive ut_call : Type :=
| CallSend (item : IDiscoveryMessage)
| CallUpdate (info : PeerInfo) (extended : ExtendedPeerInfo)
| CallPoll.

(** One call, and the message it gives. *)
Definition perform (po : gmap ShaHash (option PendingInfo) -> list ShaHash) (pe : PeerSet -> list PeerKey) (c : ut_call) : utM (option ODiscoveryMessage) :=
  match c with
  | CallSend item => start_send po item;; mret None
  | CallUpdate info extended => on_update po info extended;; mret None
  | CallPoll => a ← poll po pe; mret (match a with Ready o => o | NotReady => None end)
  end.

Definition call_fits (c : ut_call) : Prop :=
  match c with CallSend item => message_fits item | CallUpdate _ extended => ext_fits extended | CallPoll => True end.

(** The runs of a module, with what each call gave. *)
Inductive ut_runs : list (ut_call * option ODiscoveryMessage) -> UtMetadataModule FU -> Prop :=
| runs_new : ut_runs [] UtMetadataModule_new
| runs_call tr s c po pe w r s' w' :
    ut_runs tr s -> visits_all po -> visits_all pe -> call_fits c -> perform po pe c (s, w) = (r, (s', w')) ->
    ut_runs (tr ++ [(c, match r with Ok o => o | _ => None end)]) s'.

(** How often a torrent was asked for, and how often it was reported. *)
Definition asked_for (h : ShaHash) (e : ut_call * option ODiscoveryMessage) : bool :=
  match e.1 with CallSend (DownloadMetainfo hash) => bool_decide (hash = h) | _ => false end.
Definition reported (h : ShaHash) (e : ut_call * option ODiscoveryMessage) : bool :=
  match e.2 with Some (DownloadedMetainfo metainfo) => bool_decide (info_hash (mi_info metainfo) = h) | _ => false end.
Definition count {A} (p : A -> bool) (l : list A) : nat := length (filter (fun x => p x = true) l).

Lemma count_snoc {A} (p : A -> bool) l x : count p (l ++ [x]) = count p l + if p x then 1 else 0.
Proof. unfold count. rewrite filter_app, length_app, filter_cons. cbn [filter]. by destruct (p x); [rewrite decide_True|rewrite decide_False]. Qed.

(** A download that is pending. *)
Definition pends (s : UtMetadataModule FU) (h : ShaHash) : nat := match pending_map s !! h with Some _ => 1 | None => 0 end.

Record run_ok (tr : list (ut_call * option ODiscoveryMessage)) (s : UtMetadataModule FU) : Prop := {
  ro_ok : meta_ok s;
  ro_valid : arrived_valid (pending_map s);
  ro_count : forall h, count (reported h) tr + pends s h <= count (asked_for h) tr;
  ro_read : forall c metainfo, (c, Some (DownloadedMetainfo metainfo)) ∈ tr ->
    exists bs i, from_bytes bs = info_hash i /\ Info_from_bytes bs = Ok i /\ metainfo = Metainfo_from_info i;
}.

Lemma meta_ok_new : meta_ok (FU := FU) UtMetadataModule_new.
Proof.
  split; cbn.
  - intros h a. by rewrite lookup_empty.
  - intros h p. by rewrite lookup_empty.
  - intros r Hr. by apply elem_of_nil in Hr.
  - intros r Hr. by apply elem_of_nil in Hr.
Qed.

Lemma gives_keys s o s' k : gives s o s' -> is_Some (pending_map s' !! k) -> is_Some (pending_map s !! k).
Proof.
  assert (forall s1 o', swept s s1 o' -> is_Some (pending_map s1 !! k) -> is_Some (pending_map s !! k)) as Hsw.
  { intros s1 o' [_ Hk] [x Hx]. destruct (Hk k) as [[He _]|(He & _)]; [rewrite He in Hx; eauto|congruence]. }
  intros [] Hk; cbn in Hk; eauto. destruct (decide (k = h)) as [->|]; [eapply Hsw; eauto|]. rewrite lookup_insert_ne in Hk by done. eauto.
Qed.

Lemma gives_valid s o s' : gives s o s' -> arrived_valid (pending_map s) -> arrived_valid (pending_map s').
Proof.
  intros Hg Hv. assert (forall s1 o', swept s s1 o' -> arrived_valid (pending_map s1)) as Hsw.
  { intros s1 o' [_ Hk] k p Hp. destruct (Hk k) as [[He _]|(He & _)]; [rewrite He in Hp; by apply Hv|congruence]. }
  destruct Hg; cbn; eauto. intros k p'. rewrite lookup_insert_Some. intros [[<- [= <-]]|[_ Hk]]; cbn [pend_left pend_bytes].
  - eapply Hsw; eauto.
  - eapply Hsw; eauto.
Qed.

Lemma perform_ok po pe c s w : visits_all po -> visits_all pe -> call_fits c -> meta_ok s -> arrived_valid (pending_map s) ->
  exists r s' w', perform po pe c (s, w) = (r, (s', w')) /\ returns r /\ meta_ok s' /\ arrived_valid (pending_map s') /\
  (forall h, (if reported h (c, match r with Ok o => o | _ => None end) then 1 else 0) + pends s' h <= pends s h + if asked_for h (c, match r with Ok o => o | _ => None end) then 1 else 0) /\
  forall metainfo, r = Ok (Some (DownloadedMetainfo metainfo)) -> exists bs i, from_bytes bs = info_hash i /\ Info_from_bytes bs = Ok i /\ metainfo = Metainfo_from_info i.
Proof.
  intros Hpo Hpe Hc Hs Hv. destruct c as [item|info ext|]; cbn [perform call_fits] in *.
  - destruct (start_send_settles po Hpo item s w Hs Hc) as (r & s' & w' & He & Hr & [Hok Hva Hk _]).
    exists (match r with Ok _ => Ok None | Err e => Err e | Panic => Panic | NoFuel => NoFuel end), s', w'. unfold mbind, stM_bind. rewrite He.
    split; [by destruct r|]. split; [by destruct r|]. split; [done|]. split; [done|]. split; [|by destruct r].
    intros h. assert (reported h (CallSend item, match (match r with Ok _ => Ok None | Err e => Err e | Panic => Panic | NoFuel => NoFuel end) with Ok o => o | _ => None end) = false) as -> by (by destruct r).
    cbn [asked_for fst]. unfold pends. destruct (pending_map s' !! h) eqn:Hp; [|lia]. destruct (Hk h) as [[x Hx]|Hw]; [eauto|rewrite Hx; lia|].
    destruct item; try done. cbn [wanted] in Hw. injection Hw as ->. rewrite bool_decide_true by done. lia.
  - destruct (on_update_settles po Hpo info ext s w Hs Hc) as (s' & w' & He & [Hok Hva Hk _]).
    exists (Ok None), s', w'. unfold mbind, stM_bind. rewrite He. split_and!; try done. intros h. cbn [reported asked_for fst snd]. unfold pends.
    destruct (pending_map s' !! h) eqn:Hp; [|lia]. destruct (Hk h) as [[x Hx]|Hw]; [eauto|rewrite Hx; lia|done].
  - destruct (poll_spec po pe Hpo Hpe s w Hs) as (o & s1 & s' & w' & He & Hg & (_ & Hp & _) & Hok & _).
    exists (Ok o), s', w'. unfold mbind, stM_bind. rewrite He. split; [by destruct o|]. split; [done|]. split; [done|]. rewrite Hp.
    split; [by eapply gives_valid|]. split.
    + intros h. cbn [asked_for fst]. unfold pends. rewrite Hp. pose proof (gives_keys s o s1 h Hg) as Hk.
      assert (reported h (CallPoll, o) = true -> is_Some (pending_map s !! h) /\ pending_map s1 !! h = None) as Hrep.
      { cbn [reported snd]. destruct Hg as [k p i s2 Hkp Hz Hi Hn _| | |]; try done. cbn [Metainfo_from_info mi_info]. intros Hb%bool_decide_eq_true.
        destruct (Info_from_bytes_hash _ _ Hi) as [Hne Hh]. destruct (Hv k p Hkp Hz) as [Hf|Hf]; [|done].
        assert (h = k) as -> by (rewrite <- Hb, <- Hf; exact Hh). eauto. }
      destruct (reported h (CallPoll, o)); [destruct Hrep as [[x ->] ->]; [done|lia]|].
      destruct (pending_map s1 !! h); [destruct Hk as [x ->]; [eauto|lia]|]. lia.
    + intros metainfo [= ->]. inversion Hg as [k p i s2 Hkp Hz Hi Hn _| | |]; subst. exists (pend_bytes p), i.
      destruct (Info_from_bytes_hash _ _ Hi) as [_ Hh]. by rewrite Hh.
Qed.

Lemma ut_runs_ok tr s : ut_runs tr s -> run_ok tr s.
Proof.
  induction 1 as [|tr s c po pe w r s' w' Hrun [Hok Hv Hcount Hread] Hpo Hpe Hc Hp].
  - split; [apply meta_ok_new|..].
    + intros k p Hk. cbn in Hk. by rewrite lookup_empty in Hk.
    + intros h. unfold pends. cbn. by rewrite lookup_empty.
    + intros c metainfo Hin. by apply elem_of_nil in Hin.
  - destruct (perform_ok po pe c s w Hpo Hpe Hc Hok Hv) as (r' & s'' & w'' & He & Hr & Hok' & Hv' & Hcount' & Hread').
    rewrite Hp in He. injection He as <- <- <-. split; try done.
    + intros h. rewrite !count_snoc. specialize (Hcount h). specialize (Hcount' h). lia.
    + intros c' metainfo [Hin|Hin%list_elem_of_singleton]%elem_of_app; [by eapply Hread|]. injection Hin as -> Hin. apply Hread'. destruct r; congruence.
Qed.

Context (po : gmap ShaHash (option PendingInfo) -> list ShaHash) (pe : PeerSet -> list PeerKey).
Hypothesis Hpo : visits_all po.
Hypothesis Hpe : visits_all pe.

(** C14. Whatever peers send and in whatever order, a call on a metadata module
    returns: a data message always finds its piece inside the download, no count
    underflows, no peer is picked from an empty set, and the stream never runs
    out of steps.  Calls fit: a torrent that is added can be written, the sizes
    peers name are not negative, and a request names a piece whose end is a
    [usize]. *)
Theorem metadata_module_safe tr s c w : ut_runs tr s -> call_fits c -> returns (perform po pe c (s, w)).1.
Proof.
  intros [Hok Hv _ _]%ut_runs_ok Hc. destruct (perform_ok po pe c s w Hpo Hpe Hc Hok Hv) as (r & s' & w' & -> & Hr & _). done.
Qed.

(** A torrent is reported as downloaded only when it was asked for, at most
    once per request, and what is reported was read from bytes whose SHA-1 is
    the hash asked for: no peer can pass other metadata for it. *)
Theorem metadata_reported_is_asked tr s : ut_runs tr s ->
  (forall h, count (reported h) tr <= count (asked_for h) tr) /\
  forall c metainfo, (c, Some (DownloadedMetainfo metainfo)) ∈ tr ->
    exists bs i, metainfo = Metainfo_from_info i /\ Info_from_bytes bs = Ok i /\ from_bytes bs = info_hash i /\ 0 < count (asked_for (info_hash i)) tr.
Proof.
  intros [_ _ Hcount Hread]%ut_runs_ok. assert (forall h, count (reported h) tr <= count (asked_for h) tr) as Hle by (intros h; specialize (Hcount h); lia).
  split; [done|]. intros c metainfo Hin. destruct (Hread _ _ Hin) as (bs & i & Hh & Hi & ->). exists bs, i. split_and!; try done.
  eapply Nat.lt_le_trans; [|apply Hle]. apply list_elem_of_lookup in Hin as [j Hj]. rewrite <- (take_drop_middle _ _ _ Hj).
  unfold count. rewrite filter_app, length_app, filter_cons, decide_True; [cbn; lia|]. cbn [reported snd Metainfo_from_info mi_info]. by apply bool_decide_true.
Qed.

Lemma nothing_gives s : nothing_to_do s -> length (active_requests s) <> MAX_ACTIVE_REQUESTS -> forall o s', gives s o s' -> o = None.
Proof.
  intros [Ht Hq Ha] Hl o s' Hg. destruct Ht as [?|Ht]; [done|].
  assert (forall s1 k p, swept s s1 None -> pending_map s1 !! k = Some (Some p) -> pend_messages p = []) as Hno.
  { intros s1 k p [_ Hk] Hp. destruct (Hk k) as [[He _]|(He & _)]; [|congruence]. rewrite He in Hp. specialize (Ht _ _ Hp). cbn in Ht.
    by apply negb_false_iff, bool_decide_eq_true in Ht. }
  destruct Hg as [k p i s1 Hp Hz Hi _ _|s1 h p a ms msg q key Hsw _ Hp Hm _ _|s1 skipped r data rest _ _ Hr _ _ _|]; [| | |done].
  - destruct (Info_from_bytes_hash _ _ Hi) as [Hne _]. by destruct (Hne (Ha _ _ Hp Hz)).
  - rewrite (Hno _ _ _ Hsw Hp) in Hm. by destruct ms.
  - rewrite Hq in Hr. by destruct skipped.
Qed.

(** C27. No wakeup is lost: after a message or an update, a task that waits on the
    stream was notified, or a poll would still give nothing, unless as many
    requests are out as the module allows itself. *)
Theorem metadata_stream_woken tr s c task w r s' w' : ut_runs tr s -> call_fits c -> c <> CallPoll ->
  opt_stream s = Some task -> perform po pe c (s, w) = (r, (s', w')) ->
  (opt_stream s' = None /\ w' = notify task w) \/
  (opt_stream s' = Some task /\ w' = w /\
   (length (active_requests s') <> MAX_ACTIVE_REQUESTS -> forall w2, (perform po pe CallPoll (s', w2)).1 = Ok None)).
Proof.
  intros [Hok _ _ _]%ut_runs_ok Hc Hne Ht Hp.
  assert (exists new, settled new s s' w w') as [new [Hok' _ _ Hset]].
  { destruct c as [item|info ext|]; cbn [perform call_fits] in *; [| |done]; unfold mbind, stM_bind in Hp.
    - destruct (start_send_settles po Hpo item s w Hok Hc) as (r' & s2 & w2 & He & Hr & Hset). rewrite He in Hp. exists (wanted item). destruct r'; by injection Hp as _ <- <-.
    - destruct (on_update_settles po Hpo info ext s w Hok Hc) as (s2 & w2 & He & Hset). rewrite He in Hp. injection Hp as _ <- <-. by exists None. }
  rewrite Ht in Hset. destruct Hset as [?|(Hs' & Hw' & Hn)]; [by left|]. right. split_and!; try done. intros Hl w2.
  destruct (poll_spec po pe Hpo Hpe s' w2 Hok') as (o & s1 & s3 & w3 & He & Hg & _). cbn [perform]. unfold mbind, stM_bind. rewrite He.
  by rewrite (nothing_gives s' Hn Hl o s1 Hg).
Qed.

(** C34. What is served: the answers are to the first request of the queue for a
    piece the module has in full, with the bytes of that piece; a poll that
    gives nothing leaves no such request behind.  So the last piece of metadata
    whose length is not a multiple of the piece size is never sent. *)
Theorem metadata_serves_whole_pieces tr s w o s' w' : ut_runs tr s -> perform po pe CallPoll (s, w) = (Ok o, (s', w')) ->
  (forall q d, o = Some (SendUtMetadataMessage q (UtData d)) -> exists skipped r data rest,
     peer_requests s = skipped ++ r :: rest /\ peer_requests s' = rest /\ Forall (fun r => ~ servable s r) skipped /\ pr_send_to r = q /\
     completed_map s !! peer_hash q = Some data /\ utdata_piece d = utreq_piece (pr_request r) /\
     (Z.of_nat (length data) >= (utdata_piece d + 1) * REQUEST)%Z /\
     utdata_data d = slice data (Z.to_nat (utdata_piece d * REQUEST)) (Z.to_nat ((utdata_piece d + 1) * REQUEST))) /\
  (o = None -> peer_requests s' = [] /\ Forall (fun r => ~ servable s r) (peer_requests s)).
Proof.
  intros [Hok _ _ _]%ut_runs_ok Hp. destruct (poll_spec po pe Hpo Hpe s w Hok) as (o' & s1 & s2 & w2 & He & Hg & (_ & _ & _ & _ & Hq) & _).
  cbn [perform] in Hp. unfold mbind, stM_bind in Hp. rewrite He in Hp. assert (o' = o /\ s2 = s') as [-> ->] by (destruct o'; cbn in Hp; by injection Hp as -> -> ->).
  clear Hp He. rewrite Hq. split.
  - intros q d ->. inversion Hg as [| |s3 skipped r data rest Hsw _ Hl Hf Hd Hlen|]; subst.
    exists skipped, r, data, rest. by split_and!.
  - intros ->. inversion Hg; subst. done.
Qed.
End runs.

(** ** A run *)

Section play.
Context {FU : Futures} `{SH : Sha1} (w : fworld).
Context (po : gmap ShaHash (option PendingInfo) -> list ShaHash) (pe : PeerSet -> list PeerKey).

(** The calls of a list, one after the other, each in the world [w]. *)
Fixpoint play (cs : list ut_call) (tr : list (ut_call * option ODiscoveryMessage)) (s : UtMetadataModule FU) :
    list (ut_call * option ODiscoveryMessage) * UtMetadataModule FU :=
  match cs with
  | [] => (tr, s)
  | c :: cs => let m := perform po pe c (s, w) in play cs (tr ++ [(c, match m.1 with Ok o => o | _ => None end)]) m.2.1
  end.

Lemma play_runs cs : visits_all po -> visits_all pe -> Forall call_fits cs -> forall tr s, ut_runs tr s -> ut_runs (play cs tr s).1 (play cs tr s).2.
Proof.
  intros Hpo Hpe. induction 1 as [|c cs Hc _ IH]; intros tr s Hr; [done|]. cbn [play]. apply IH.
  destruct (perform po pe c (s, w)) as [r [s' w']] eqn:Hp. cbn [fst snd]. by eapply runs_call.
Qed.
End play.

#[local] Existing Instance Futures_log.
#[local] Existing Instance Sha1_pad.

Definition sample_content : bytes := bstr "d6:lengthi1e4:name1:a12:piece lengthi1e6:pieces20:aaaaaaaaaaaaaaaaaaaae".
Definition sample_dict : Info :=
  mk_Info (from_bytes sample_content) [mk_File 1 (mk_path false [bstr "a"]) None] [bstr "aaaaaaaaaaaaaaaaaaaa"] 1 None None.
Definition sample_fields (size : option Z) : ExtendedFields := mk_ExtendedFields {[UtMetadata := x05]} None None None None None None size.
Definition sample_extended (size : Z) : ExtendedPeerInfo :=
  ExtendedPeerInfo_new (Some (mk_ExtendedMessage (sample_fields None) [])) (Some (mk_ExtendedMessage (sample_fields (Some size)) [])).
Definition sample_peer : PeerInfo :=
  PeerInfo_new (SockV4 (mk_SocketAddrV4 (mk_Ipv4Addr x01 x02 x03 x04) 6881)) (mk_ShaHash (bstr "bbbbbbbbbbbbbbbbbbbb")) (from_bytes sample_content) Extensions_new.

Lemma sample_dict_read : Info_from_bytes sample_content = Ok sample_dict.
Proof. vm_compute. reflexivity. Qed.

(** The torrent is asked for, a peer appears, its answer arrives. *)
Definition sample_calls : list ut_call :=
  [CallSend (DownloadMetainfo (info_hash sample_dict)); CallUpdate sample_peer (sample_extended (Z.of_nat (length sample_content))); CallPoll;
   CallSend (ReceivedUtMetadataMessage sample_peer (UtData (UtMetadataDataMessage_new 0 70 sample_content))); CallPoll].

Lemma sample_calls_fit : Forall call_fits sample_calls.
Proof.
  unfold sample_calls. rewrite !Forall_cons. split_and!; try exact I; [|apply Forall_nil_2].
  intros size Hs. injection Hs as <-. vm_compute. split; (reflexivity || discriminate).
Qed.

Definition sample_run := play (7, []) map_keys map_keys sample_calls [] UtMetadataModule_new.

Lemma sample_runs : ut_runs sample_run.1 sample_run.2.
Proof. apply play_runs; [apply map_keys_visits_all..|apply sample_calls_fit|constructor]. Qed.

Lemma metadata_module_safe_witness : returns (perform map_keys map_keys CallPoll (sample_run.2, (8, []))).1.
Proof. refine (metadata_module_safe map_keys map_keys map_keys_visits_all map_keys_visits_all sample_run.1 sample_run.2 CallPoll (8, []) sample_runs I). Defined.

Lemma metadata_reported_is_asked_witness :
  count (reported (info_hash sample_dict)) sample_run.1 = 1 /\ count (reported (info_hash sample_dict)) sample_run.1 <= count (asked_for (info_hash sample_dict)) sample_run.1.
Proof. split; [vm_compute; reflexivity|apply (metadata_reported_is_asked _ _ sample_runs)]. Defined.

(** A parked stream, and a request from a peer. *)
Definition parked_run := play (7, []) map_keys map_keys [CallPoll] [] UtMetadataModule_new.
Definition sample_request : ut_call := CallSend (ReceivedUtMetadataMessage sample_peer (UtRequest (UtMetadataRequestMessage_new 0))).

Lemma metadata_stream_woken_witness :
  let m := perform map_keys map_keys sample_request (parked_run.2, (7, [])) in
  (opt_stream m.2.1 = None /\ m.2.2 = (7, [0])) \/
  (opt_stream m.2.1 = Some 0 /\ m.2.2 = (7, []) /\
   (length (active_requests m.2.1) <> MAX_ACTIVE_REQUESTS -> forall w2, (perform map_keys map_keys CallPoll (m.2.1, w2)).1 = Ok None)).
Proof.
  intros m.
  refine (metadata_stream_woken map_keys map_keys map_keys_visits_all map_keys_visits_all parked_run.1 parked_run.2 sample_request 0 (7, []) m.1 m.2.1 m.2.2 _ _ _ _ _).
  - apply play_runs; [apply map_keys_visits_all..|by repeat constructor|constructor].
  - cbn. lia.
  - discriminate.
  - reflexivity.
  - unfold m. by destruct (perform _ _ _ _) as [r [s w]].
Defined.

Lemma sample_writable : writable sample_dict.
Proof.
  split.
  - by apply Forall_singleton.
  - cbn. lia.
  - cbn. lia.
  - unfold total_bytes. cbn. lia.
  - apply Forall_singleton. split; [done|]. apply Forall_singleton. split_and!; try done. intros Hin. by apply list_elem_of_singleton in Hin.
  - by eexists _, _.
Qed.

(** The module serves the sample torrent, whose only piece is shorter than the
    piece size, and a peer asks for it. *)
Definition serving_calls : list ut_call := [CallSend (DControl (AddTorrent (Metainfo_from_info sample_dict))); sample_request].
Definition serving_run := play (7, []) map_keys map_keys serving_calls [] UtMetadataModule_new.

Lemma metadata_serves_whole_pieces_witness :
  let m := perform map_keys map_keys CallPoll (serving_run.2, (7, [])) in
  length (peer_requests serving_run.2) = 1 /\ completed_map serving_run.2 !! peer_hash sample_peer = Some sample_content /\
  m.1 = Ok None /\ peer_requests m.2.1 = [].
Proof.
  intros m. assert (m.1 = Ok None) as Hm by (vm_compute; reflexivity).
  split; [vm_compute; reflexivity|]. split; [vm_compute; reflexivity|]. split; [exact Hm|].
  refine (proj1 (proj2 (metadata_serves_whole_pieces map_keys map_keys map_keys_visits_all map_keys_visits_all serving_run.1 serving_run.2 (7, []) None m.2.1 m.2.2 _ _) eq_refl)).
  - apply play_runs; [apply map_keys_visits_all..| |constructor]. unfold serving_calls. rewrite !Forall_cons. split_and!; [exact sample_writable|cbn; lia..|apply Forall_nil_2].
  - rewrite <- Hm. unfold m. by destruct (perform _ _ _ _) as [r [s w]].
Defined.

(** A size no vector has ends the module: the first update of a peer that
    announces a negative one panics. *)
Example negative_size_panics :
  (perform map_keys map_keys (CallUpdate sample_peer (sample_extended (-1)))
     ((play (7, []) map_keys map_keys [CallSend (DownloadMetainfo (info_hash sample_dict))] [] UtMetadataModule_new).2, (7, []))).1 = Panic.
Proof. vm_compute. reflexivity. Qed.

(** So does a request for a negative piece. *)
Example negative_piece_panics :
  (perform map_keys map_keys CallPoll ((play (7, []) map_keys map_keys
     [CallSend (ReceivedUtMetadataMessage sample_peer (UtRequest (UtMetadataRequestMessage_new (-1))))] [] UtMetadataModule_new).2, (7, []))).1 = Panic.
Proof. vm_compute. reflexivity. Qed.
