(* ===== verification/SelExchange.v ===== *)
(** * The metadata module: downloads from honest peers

    In a run in which the peers of the torrents asked for tell the right size and
    send the right bytes, however the calls are ordered, the pieces of a download
    that are not outstanding hold the bytes of the torrent.  From there, polls and
    answers to the requests that are out, mixed in any way, end after a bounded
    number of steps, and only when the torrent has been reported. *)

From stdpp Require Import prelude list gmap strings.
From Stdlib Require Import ZArith Lia Strings.Byte.
From S2P Require Import Prelude Bytes Bencode Convert Sha Metainfo MetainfoBuild MetainfoProofs HsMessage PeerExtended SelBase SelMetadata SelMetadataProofs SelDownload.

(** ** Pieces *)

(** The bytes of a piece of the metadata [content]; the last may be short. *)
Definition piece_bytes (content : bytes) (piece : Z) : bytes := slice content (Z.to_nat (piece * REQUEST)) (Z.to_nat ((piece + 1) * REQUEST)).

Lemma piece_bytes_eq content j : piece_bytes content (Z.of_nat j) = take MAX_REQUEST_SIZE (drop (j * MAX_REQUEST_SIZE) content).
Proof.
  unfold piece_bytes, slice, REQUEST. replace (Z.to_nat (Z.of_nat j * Z.of_nat MAX_REQUEST_SIZE)) with (j * MAX_REQUEST_SIZE) by lia.
  f_equal. lia.
Qed.

(** The pieces that are not outstanding hold the bytes of [content]. *)
Definition filled (content : bytes) (out : list Z) (bs : bytes) : Prop :=
  length bs = length content /\ forall piece, piece_in (length content) piece -> piece ∉ out -> piece_bytes bs piece = piece_bytes content piece.

Lemma filled_weaken content out out' bs : (forall piece, piece ∈ out -> piece ∈ out') -> filled content out bs -> filled content out' bs.
Proof. intros Hsub [Hl Hf]. split; [done|]. intros piece Hp Hn. apply Hf; [done|]. intros Hin. by apply Hn, Hsub. Qed.

Lemma filled_perm content out out' bs : out ≡ₚ out' -> filled content out bs -> filled content out' bs.
Proof. intros Hp. apply filled_weaken. intros piece. by rewrite Hp. Qed.

(** A download whose pieces have all arrived. *)
Lemma filled_done content bs : filled content [] bs -> bs = content.
Proof.
  intros [Hl Hf]. apply list_eq. intros i. destruct (decide (i < length content)) as [Hi|Hi]; [|by rewrite !lookup_ge_None_2 by lia].
  set (j := i / MAX_REQUEST_SIZE). pose proof (Nat.div_mod_eq i MAX_REQUEST_SIZE) as Hd. fold j in Hd.
  assert (i mod MAX_REQUEST_SIZE < MAX_REQUEST_SIZE) as Hm by (by apply Nat.mod_upper_bound).
  assert (piece_bytes bs (Z.of_nat j) = piece_bytes content (Z.of_nat j)) as He.
  { apply Hf; [|apply not_elem_of_nil]. split; [lia|]. unfold REQUEST. lia. }
  rewrite !piece_bytes_eq in He. apply (f_equal (.!! i mod MAX_REQUEST_SIZE)) in He. rewrite !lookup_take_lt, !lookup_drop in He by done.
  by replace (j * MAX_REQUEST_SIZE + i mod MAX_REQUEST_SIZE) with i in He by lia.
Qed.

(** A byte of a download after data was written into it. *)
Lemma lookup_copy_over (data bs : bytes) off i : off <= length bs ->
  (take off bs ++ copy_over data (drop off bs)) !! i =
  if decide (off <= i < length bs /\ i < off + length data) then data !! (i - off) else bs !! i.
Proof.
  intros Ho. unfold copy_over. rewrite length_drop. destruct (decide (i < off)) as [Hi|Hi].
  { rewrite lookup_app_l, lookup_take_lt by (rewrite ?length_take; lia). by rewrite decide_False by lia. }
  rewrite lookup_app_r by (rewrite length_take; lia). rewrite length_take, Nat.min_l by done.
  destruct (decide (i - off < length (take (length bs - off) data))) as [Hd|Hd]; rewrite length_take in Hd.
  - rewrite lookup_app_l, lookup_take_lt by (rewrite ?length_take; lia). by rewrite decide_True by lia.
  - rewrite lookup_app_r by (rewrite length_take; lia). rewrite length_take, lookup_drop.
    destruct (decide (i < length bs)) as [Hb|Hb]; [rewrite decide_False by lia|rewrite decide_False by lia].
    + rewrite lookup_drop. f_equal. lia.
    + rewrite lookup_drop. rewrite !lookup_ge_None_2 by lia. done.
Qed.

(** The bytes of a piece, written to their place, fill it. *)
Lemma filled_write content piece out bs : piece_in (length content) piece -> filled content (piece :: out) bs ->
  let off := Z.to_nat (piece * REQUEST) in
  filled content out (take off bs ++ copy_over (piece_bytes content piece) (drop off bs)).
Proof.
  intros [Hp0 Hp] [Hl Hf] off. destruct (Z_of_nat_complete piece Hp0) as [j ->]. unfold REQUEST in *.
  assert (off = j * MAX_REQUEST_SIZE) as Hoff by lia. assert (off < length content) as Hlt by lia.
  split; [by rewrite length_written|]. intros piece' Hin' Hn. destruct (Z_of_nat_complete piece' (proj1 Hin')) as [j' ->].
  assert (j' <> j -> piece_bytes bs (Z.of_nat j') = piece_bytes content (Z.of_nat j')) as Hother.
  { intros Hne. apply Hf; [done|]. intros [Heq|?]%elem_of_cons; [lia|done]. }
  rewrite !piece_bytes_eq in Hother. rewrite (piece_bytes_eq content j), (piece_bytes_eq content j'), piece_bytes_eq. apply list_eq. intros i. destruct (decide (i < MAX_REQUEST_SIZE)) as [Hi|Hi].
  2: { by rewrite !lookup_take_ge by lia. }
  rewrite !lookup_take_lt, !lookup_drop, lookup_copy_over by lia. rewrite length_take, length_drop, <- Hoff.
  destruct (decide (j' = j)) as [->|Hne].
  - rewrite <- Hoff. destruct (decide (_ /\ _)) as [Hd|Hd].
    + rewrite lookup_take_lt, lookup_drop by lia. f_equal. lia.
    + rewrite !lookup_ge_None_2 by lia. done.
  - rewrite decide_False by (destruct (decide (j' < j)); nia). apply (f_equal (.!! i)) in Hother; [|done]. by rewrite !lookup_take_lt, !lookup_drop in Hother by done.
Qed.

(** Nothing of a new download has arrived. *)
Lemma filled_fresh content h l : filled content (outstanding h l (fresh_pending (length content))) (pend_bytes (fresh_pending (length content))).
Proof.
  cbn [fresh_pending pend_bytes]. split; [apply length_replicate|]. intros piece [Hp0 Hp] Hn. destruct Hn. destruct (Z_of_nat_complete piece Hp0) as [j ->].
  unfold outstanding. rewrite fmap_app. apply elem_of_app. left. cbn [fresh_pending pend_messages]. rewrite <- list_fmap_compose.
  apply list_elem_of_fmap. exists j. split; [done|]. apply elem_of_seq. pose proof (proj2 (pieces_of_len_spec (length content) j) Hp). lia.
Qed.

(** ** Honest runs *)

Section exchange.
Context {FU : Futures} `{SH : Sha1}.
Implicit Types (s : UtMetadataModule FU) (w : fworld).

(** The metadata of the torrents that are asked for, by hash. *)
Context (lib : gmap ShaHash bytes).
Hypothesis Hlib : forall k content, lib !! k = Some content ->
  from_bytes content = k /\ (exists i, Info_from_bytes content = Ok i) /\ (Z.of_nat (length content) < 2 ^ 63)%Z.

(** The calls of an honest run: only torrents of [lib] are asked for, and what a
    peer of such a torrent says about its size and its pieces is so.  Everything
    else that fits may happen: ticks, lost peers, requests, other torrents. *)
Definition honest_call (c : ut_call) : Prop :=
  match c with
  | CallSend (DownloadMetainfo hash) => is_Some (lib !! hash)
  | CallSend (ReceivedUtMetadataMessage info (UtData data)) => forall content, lib !! peer_hash info = Some content ->
      utdata_data data = piece_bytes content (utdata_piece data)
  | CallUpdate info extended => forall content size, lib !! peer_hash info = Some content -> their_size extended = Some size -> size = Z.of_nat (length content)
  | _ => True
  end.

(** What honest calls keep. *)
Record honest (s : UtMetadataModule FU) : Prop := {
  hn_ok : meta_ok s;
  hn_lib : forall k, is_Some (pending_map s !! k) -> is_Some (lib !! k);
  hn_fill : forall k p content, pending_map s !! k = Some (Some p) -> lib !! k = Some content ->
    filled content (outstanding k (active_requests s) p) (pend_bytes p);
  hn_size : forall k a content, active_peers s !! k = Some a -> lib !! k = Some content -> ap_metadata_size a = Z.of_nat (length content);
}.

(** A download waits to be set up only while no peer of its torrent is known. *)
Definition set_up (s : UtMetadataModule FU) : Prop := forall k, pending_map s !! k = Some None -> active_peers s !! k = None.

Lemma honest_ext s s' : meta_ok s' -> pending_map s' = pending_map s -> active_peers s' = active_peers s -> active_requests s' = active_requests s ->
  honest s -> honest s'.
Proof. intros Hok H1 H2 H3 [? ? ? ?]. split; rewrite ?H1, ?H2, ?H3; done. Qed.

Lemma honest_peers s peers : meta_ok (with_peers s peers) ->
  (forall k a content, peers !! k = Some a -> lib !! k = Some content -> ap_metadata_size a = Z.of_nat (length content)) ->
  honest s -> honest (with_peers s peers).
Proof. intros Hok Hs [? ? ? ?]. by split. Qed.

(** A download with nothing left is the torrent. *)
Lemma honest_done s k p content : honest s -> pending_map s !! k = Some (Some p) -> lib !! k = Some content -> pend_left p = 0 -> pend_bytes p = content.
Proof.
  intros [Hok _ Hf _] Hp Hc Hz. destruct (mo_pending s Hok _ _ Hp) as [_ _ Hl _]. rewrite Hz in Hl. symmetry in Hl. apply nil_length_inv in Hl.
  specialize (Hf _ _ _ Hp Hc). rewrite Hl in Hf. by apply filled_done.
Qed.

(** So no download starts again. *)
Lemma honest_reset s k o : honest s -> pending_map s !! k = Some o -> reset k o = o.
Proof.
  intros Hs Ho. destruct o as [p|]; [|done]. cbn [reset]. destruct (bool_decide_reflect (pend_left p = 0)) as [Hz|]; [|done].
  destruct (hn_lib s Hs k) as [content Hc]; [eauto|]. rewrite (honest_done s k p content Hs Ho Hc Hz).
  destruct (Hlib _ _ Hc) as [-> _]. by rewrite bool_decide_true.
Qed.

Lemma refreshed_honest s m t : honest s -> refreshed (active_peers s) (pending_map s) m ->
  honest (with_stream (with_pending s m) t) /\ set_up (with_stream (with_pending s m) t).
Proof.
  intros Hs Hr. assert (forall k o', m !! k = Some o' -> exists o, pending_map s !! k = Some o /\ inited (active_peers s) k o o') as Hm.
  { intros k o' Ho'. specialize (Hr k). destruct (pending_map s !! k) as [o|] eqn:Ho; [|congruence]. destruct Hr as (o2 & Ho2 & Hi).
    rewrite (honest_reset s k o Hs Ho) in Hi. exists o. split; [done|]. assert (o2 = o') as -> by congruence. done. }
  pose proof (meta_ok_refreshed s m t (hn_ok s Hs) Hr) as Hok. split; [split; [done|..]; cbn|].
  - intros k [o' Ho']. destruct (Hm k o' Ho') as (o & Ho & _). apply (hn_lib s Hs). eauto.
  - intros k p content Hp Hc. destruct (Hm k _ Hp) as ([q|] & Ho & Hi); cbn [inited] in Hi.
    + injection Hi as <-. by apply (hn_fill s Hs).
    + destruct (active_peers s !! k) as [a|] eqn:Ha; [|done]. destruct Hi as [_ [= ->]]. rewrite (hn_size s Hs _ _ _ Ha Hc), as_unsigned_id, Nat2Z.id.
      * apply filled_fresh.
      * destruct (Hlib _ _ Hc) as (_ & _ & ?). unfold in_unsigned. lia.
  - apply Hs.
  - intros k Hk. destruct (Hm k _ Hk) as ([q|] & _ & Hi); cbn [inited] in Hi; [done|]. cbn. destruct (active_peers s !! k); [by destruct Hi|done].
Qed.

(** The check after a call changes no download that is set up. *)
Lemma refreshed_same s m : honest s -> set_up s -> refreshed (active_peers s) (pending_map s) m -> m = pending_map s.
Proof.
  intros Hs Hu Hr. apply map_eq. intros k. specialize (Hr k). destruct (pending_map s !! k) as [o|] eqn:Ho; [|done]. destruct Hr as (o' & -> & Hi).
  rewrite (honest_reset s k o Hs Ho) in Hi. destruct o as [p|]; cbn [inited] in Hi; [by subst|]. rewrite (Hu k Ho) in Hi. by subst.
Qed.

(** *** The operations *)

Definition op_honest (m : utM (AsyncSink IDiscoveryMessage)) : Prop := forall s w, honest s -> honest (m (s, w)).2.1.

(** The part of [honest] that is left when the invariant of the module is known. *)
Lemma op_honest_of new (m : utM (AsyncSink IDiscoveryMessage)) : op_keeps new m ->
  (forall s w, honest s -> meta_ok (m (s, w)).2.1 -> honest (m (s, w)).2.1) -> op_honest m.
Proof. intros Hk Hm s w Hs. destruct (Hk s w (hn_ok s Hs)) as (r & s' & He & _ & Hok & _). apply Hm; [done|]. by rewrite He. Qed.

Lemma add_torrent_honest metainfo : writable (mi_info metainfo) -> op_honest (add_torrent metainfo).
Proof.
  intros Hw. eapply op_honest_of; [by apply add_torrent_keeps|]. intros s w Hs Hok. eapply honest_ext, Hs; [done|..]; clear Hok; unfold add_torrent; ut_run;
    destruct (completed_map s !! _); try done; destruct (Info_to_bytes _) as [|[]| |]; done.
Qed.

Lemma remove_torrent_honest metainfo : op_honest (remove_torrent metainfo).
Proof.
  eapply op_honest_of; [apply remove_torrent_keeps|]. intros s w Hs Hok. eapply honest_ext, Hs; [done|..]; clear Hok; unfold remove_torrent; ut_run;
    by destruct (completed_map s !! _).
Qed.

Lemma recv_request_honest info request : (0 <= utreq_piece request < 2 ^ 50 - 1)%Z -> op_honest (recv_request info request).
Proof.
  intros Hp. eapply op_honest_of; [by apply recv_request_keeps|]. intros s w Hs Hok. eapply honest_ext, Hs; [done|..]; clear Hok; unfold recv_request; ut_run;
    by destruct (bool_decide _).
Qed.

Lemma add_peer_honest info ext_info : ext_fits ext_info -> honest_call (CallUpdate info ext_info) -> op_honest (add_peer info ext_info).
Proof.
  intros Hf Hh. eapply op_honest_of; [by apply add_peer_keeps|]. intros s w Hs. cbn [honest_call] in Hh. unfold add_peer. ut_run.
  destruct (supports (our_message ext_info)); [|done]. destruct (supports (their_message ext_info)); [|done]. destruct (their_size ext_info) as [size|]; [|done].
  cbn [fst snd set_self]. intros Hok. apply honest_peers; [done| |done]. intros k a content. rewrite lookup_insert_Some. intros [[<- <-]|[_ Ha]] Hc; [|by eapply Hs].
  cbn [ap_metadata_size]. destruct (active_peers s !! peer_hash info) as [a|] eqn:Ha; cbn [default id ap_metadata_size]; [by eapply Hs|by apply Hh].
Qed.

Lemma remove_peer_honest info : op_honest (remove_peer info).
Proof.
  eapply op_honest_of; [apply remove_peer_keeps|]. intros s w Hs. unfold remove_peer. ut_run.
  destruct (active_peers s !! peer_hash info) as [a|] eqn:Ha; [|done]. cbn [fst snd set_self]. intros Hok. apply honest_peers; [done| |done].
  assert (forall k b content, <[peer_hash info := remove_active info a]> (active_peers s) !! k = Some b -> lib !! k = Some content ->
    ap_metadata_size b = Z.of_nat (length content)) as Hp.
  { intros k b content. rewrite lookup_insert_Some. intros [[<- <-]|[_ Hb]] Hc; [exact (hn_size s Hs _ _ _ Ha Hc)|by eapply Hs]. }
  intros k b content. destruct (peers_is_empty _); [|apply Hp]. intros [_ Hb]%lookup_delete_Some. by apply Hp.
Qed.

Lemma download_metainfo_honest hash : is_Some (lib !! hash) -> op_honest (download_metainfo hash).
Proof.
  intros Hl. eapply op_honest_of; [apply download_metainfo_keeps|]. intros s w Hs. unfold download_metainfo. ut_run.
  destruct (pending_map s !! hash) as [o|] eqn:Ho; [done|]. cbn [fst snd set_self]. intros Hok. split; cbn; [done|..|apply Hs].
  - intros k. destruct (decide (k = hash)) as [->|]; [done|]. rewrite lookup_insert_ne by done. apply Hs.
  - intros k p content. rewrite lookup_insert_Some. intros [[_ ?]|[_ Hp]]; [done|by apply Hs].
Qed.

Lemma apply_tick_honest duration : op_honest (apply_tick duration).
Proof.
  eapply op_honest_of; [apply apply_tick_keeps|]. intros s w Hs. unfold apply_tick. ut_run.
  destruct (retain_spec duration (active_requests s) (active_peers s) (pending_map s)) as (kept & peers & pending & -> & -> & Hp & Ha).
  destruct (subtract_all (E := DiscoveryErrorKind) duration (active_requests s)) as (l & -> & Hl). cbn [fst snd set_self]. intros Hok. split; cbn; [done|..].
  - intros k. rewrite Hp, fmap_is_Some. apply Hs.
  - intros k p content. rewrite Hp. destruct (pending_map s !! k) as [[q|]|] eqn:Hq; [|done..]. intros [= <-] Hc. eapply filled_perm, (hn_fill s Hs _ _ _ Hq Hc).
    unfold outstanding. cbn [pend_messages]. by rewrite (asked_same _ _ _ Hl), <- app_assoc, asked_partition.
  - intros k a content Hk. revert content. revert k a Hk.
    apply (Ha (fun k a => forall content, lib !! k = Some content -> ap_metadata_size a = Z.of_nat (length content))); [done|]. intros k a Hk content. by apply Hs.
Qed.

(** The answer to a request, and what it does to a module in order. *)
Lemma recv_data_cases s w info data : honest s ->
  (recv_data info data (s, w) = (Ok SinkReady, (s, w)) /\ forall r, r ∈ active_requests s -> ar_sent_to r = info -> utreq_piece (ar_message r) <> utdata_piece data) \/
  exists i r p, active_requests s !! i = Some r /\ peer_hash (ar_sent_to r) = peer_hash info /\ utreq_piece (ar_message r) = utdata_piece data /\
    pending_map s !! peer_hash info = Some (Some p) /\ piece_in (length (pend_bytes p)) (utdata_piece data) /\
    let off := Z.to_nat (utdata_piece data * REQUEST) in
    recv_data info data (s, w) = (Ok SinkReady, (with_pending (with_requests s (swap_remove (active_requests s) i))
      (<[peer_hash info := Some (mk_PendingInfo (pend_messages p) (pend_left p - 1) (take off (pend_bytes p) ++ copy_over (utdata_data data) (drop off (pend_bytes p))))]> (pending_map s)), w)).
Proof.
  intros Hs. destruct (position (fun request => PeerInfo_eq (ar_sent_to request) info && (utreq_piece (ar_message request) =? utdata_piece data)%Z)
    (active_requests s)) as [i|] eqn:Hpos.
  2: { left. split; [unfold recv_data; ut_run; by rewrite Hpos|]. intros r Hr Hto Hz. rewrite position_None in Hpos. specialize (Hpos r Hr). cbn in Hpos.
       by rewrite Hto, (proj2 (PeerInfo_eq_key info info) eq_refl), Hz, Z.eqb_refl in Hpos. }
  right. pose proof Hpos as [(r & Hr & Hb) _]%position_Some. apply andb_true_iff in Hb as [He _]. apply PeerInfo_eq_key in He. unfold peer_key in He. injection He as _ _ Hh.
  destruct (mo_active s (hn_ok s Hs) r) as [p Hp]; [by eapply list_elem_of_lookup_2|]. rewrite Hh in Hp.
  destruct (recv_data_step s w info data i r p (hn_ok s Hs) Hpos Hr Hp) as (left_ & Hleft & Hz & Hh' & Hin & He). exists i, r, p. split_and!; try done.
  cbn zeta. rewrite Hleft. cbn [Nat.sub]. rewrite Nat.sub_0_r. exact He.
Qed.

Lemma recv_data_honest info data : honest_call (CallSend (ReceivedUtMetadataMessage info (UtData data))) -> op_honest (recv_data info data).
Proof.
  intros Hh. eapply op_honest_of; [apply recv_data_keeps|]. intros s w Hs. cbn [honest_call] in Hh.
  destruct (recv_data_cases s w info data Hs) as [[-> _]|(i & r & p & Hr & Hrh & Hz & Hp & Hin & ->)]; [done|]. cbn [fst snd]. intros Hok.
  pose proof (swap_remove_perm _ _ _ Hr) as Hperm. split; [done|..|apply Hs]; cbn.
  - intros k. destruct (decide (k = peer_hash info)) as [->|]; [intros _; apply (hn_lib s Hs); eauto|]. rewrite lookup_insert_ne by done. apply Hs.
  - intros k q content. rewrite lookup_insert_Some. intros [[<- [= <-]]|[Hne Hq]] Hc; cbn [pend_bytes].
    + pose proof (hn_fill s Hs _ _ _ Hp Hc) as Hf. pose proof (proj1 Hf) as Hlen. rewrite (Hh _ Hc). rewrite Hlen in Hin. apply filled_write; [done|].
      eapply filled_perm, Hf. unfold outstanding. cbn [pend_messages]. rewrite <- (asked_perm _ _ _ Hperm), asked_cons, decide_True by done.
      rewrite !fmap_app, fmap_cons, Hz. symmetry. apply Permutation_middle.
    + eapply filled_perm, (hn_fill s Hs _ _ _ Hq Hc). unfold outstanding. by rewrite <- (asked_perm _ _ _ Hperm), asked_cons, decide_False by congruence.
Qed.

(** *** The calls *)

Section calls.
Context (po : gmap ShaHash (option PendingInfo) -> list ShaHash) (pe : PeerSet -> list PeerKey).
Hypothesis Hpo : visits_all po.
Hypothesis Hpe : visits_all pe.

Lemma check_honest s w : honest s -> exists m t w', check_stream_unblock po (s, w) = (Ok (), (with_stream (with_pending s m) t, w')) /\
  honest (with_stream (with_pending s m) t) /\ set_up (with_stream (with_pending s m) t) /\ (set_up s -> m = pending_map s).
Proof.
  intros Hs. destruct (check_stream_spec po Hpo w s) as [(k' & s' & w' & _ & Hb)|(m & t & w' & Hc & Hr & _)]; [by destruct (fits_not_bad s k' (hn_ok s Hs))|].
  exists m, t, w'. destruct (refreshed_honest s m t Hs Hr). split_and!; try done. intros Hu. by apply refreshed_same.
Qed.

Lemma start_send_honest item s w : honest s -> message_fits item -> honest_call (CallSend item) ->
  honest (start_send po item (s, w)).2.1 /\ set_up (start_send po item (s, w)).2.1.
Proof.
  intros Hs Hf Hh. unfold start_send. set (op := match item with DControl _ => _ | DownloadMetainfo _ => _ | ReceivedUtMetadataMessage _ _ => _ end).
  assert (op_honest op /\ returns (op (s, w)).1) as [Hop Hret].
  { assert (forall new (m : utM (AsyncSink IDiscoveryMessage)), op_keeps new m -> op_honest m -> op_honest m /\ returns (m (s, w)).1) as Hboth.
    { intros new m Hk Hm. split; [done|]. by destruct (Hk s w (hn_ok s Hs)) as (r & s' & -> & Hr & _). }
    destruct item as [[]| |? []]; cbn [op message_fits] in *.
    - eapply Hboth; [by apply add_torrent_keeps|by apply add_torrent_honest].
    - eapply Hboth; [apply remove_torrent_keeps|apply remove_torrent_honest].
    - eapply Hboth; [apply start_ready_keeps|by intros ???].
    - eapply Hboth; [apply remove_peer_keeps|apply remove_peer_honest].
    - eapply Hboth; [apply apply_tick_keeps|apply apply_tick_honest].
    - eapply Hboth; [apply download_metainfo_keeps|by apply download_metainfo_honest].
    - eapply Hboth; [by apply recv_request_keeps|by apply recv_request_honest].
    - eapply Hboth; [apply recv_data_keeps|by apply recv_data_honest].
    - eapply Hboth; [apply start_ready_keeps|by intros ???]. }
  clearbody op. specialize (Hop s w Hs). unfold with_result. destruct (op (s, w)) as [r [s1 w1]]. cbn [fst snd] in *.
  destruct (check_honest s1 w1 Hop) as (m & t & w2 & Hc & Hs2 & Hu2 & _).
  assert (forall task, honest (with_sink (with_stream (with_pending s1 m) t) task) /\ set_up (with_sink (with_stream (with_pending s1 m) t) task)) as Hsink.
  { intros task. split; [|exact Hu2]. eapply honest_ext, Hs2; try done. eapply meta_ok_ext, Hs2; done. }
  destruct r as [[|msg]|e| |]; try done; ut_run; rewrite Hc; try (by split). apply Hsink.
Qed.

Lemma on_update_honest info ext_info s w : honest s -> ext_fits ext_info -> honest_call (CallUpdate info ext_info) ->
  honest (on_update po info ext_info (s, w)).2.1 /\ set_up (on_update po info ext_info (s, w)).2.1.
Proof.
  intros Hs Hf Hh. pose proof (add_peer_honest info ext_info Hf Hh s w Hs) as Hs1. destruct (add_peer_keeps info ext_info Hf s w (hn_ok s Hs)) as (r & s1 & He & Hr & _).
  assert (exists a, r = Ok a) as [a ->].
  { unfold add_peer in He. revert He. ut_run. destruct (supports _); [|intros [= <- _]; eauto]. destruct (supports _); [|intros [= <- _]; eauto].
    destruct (their_size _); intros [= <- _]; eauto. }
  rewrite He in Hs1. cbn [fst snd] in Hs1. destruct (check_honest s1 w Hs1) as (m & t & w2 & Hc & Hs2 & Hu2 & _).
  unfold on_update, with_result. ut_run. rewrite He. cbn [mret stM_ret]. by rewrite Hc.
Qed.

Lemma swept_honest s s1 o : swept s s1 o -> honest s -> honest s1.
Proof.
  intros Hsw Hs. destruct (swept_fields _ _ _ Hsw) as (_ & Ha & _). pose proof (meta_ok_swept _ _ _ Hsw (hn_ok s Hs)) as Hok. destruct Hsw as [_ Hk]. split; [done|..]; rewrite ?Ha.
  - intros k [x Hx]. destruct (Hk k) as [[He _]|(He & _)]; [|congruence]. rewrite He in Hx. apply (hn_lib s Hs). eauto.
  - intros k p content Hp. destruct (Hk k) as [[He _]|(He & _)]; [|congruence]. rewrite He in Hp. by apply Hs.
  - intros k a content Hp. destruct (Hk k) as [[_ He]|(_ & He & _)]; [|congruence]. rewrite He in Hp. by apply Hs.
Qed.

Lemma gives_honest s o s' : gives s o s' -> honest s -> honest s'.
Proof.
  intros Hg Hs. pose proof (gives_ok s o s' (hn_ok s Hs) Hg) as Hok.
  destruct Hg as [k p i s1 _ _ _ _ Hsw|s1 h p a ms msg q key Hsw _ Hp Hm Ha Hq|s1 skipped r data rest Hsw _ _ _ _ _|s1 Hsw _ _ _].
  - by eapply swept_honest.
  - pose proof (swept_honest _ _ _ Hsw Hs) as Hs1. destruct (proj1 (mo_peers s1 (hn_ok s1 Hs1) _ _ Ha) _ _ Hq) as [_ Hh]. split; [done|..|apply Hs1]; cbn.
    + intros k. destruct (decide (k = h)) as [->|]; [intros _; apply (hn_lib s1 Hs1); eauto|]. rewrite lookup_insert_ne by done. apply Hs1.
    + assert (forall k, asked k (active_requests s1 ++ [generate_active_request msg q]) = asked k (active_requests s1) ++ if decide (h = k) then [msg] else []) as Hask.
      { intros k. unfold asked. rewrite filter_app, fmap_app. f_equal. rewrite filter_cons. cbn [generate_active_request ar_sent_to]. rewrite Hh. by destruct (decide (h = k)). }
      intros k p' content. rewrite lookup_insert_Some. intros [[<- [= <-]]|[Hne Hk]] Hc; cbn [pend_bytes].
      * eapply filled_perm, (hn_fill s1 Hs1 _ _ _ Hp Hc). unfold outstanding. rewrite Hask, decide_True by done. cbn [pend_messages]. rewrite Hm, <- app_assoc.
        apply fmap_Permutation, Permutation_app_head, Permutation_app_comm.
      * eapply filled_perm, (hn_fill s1 Hs1 _ _ _ Hk Hc). unfold outstanding. by rewrite Hask, decide_False, app_nil_r by done.
  - pose proof (swept_honest _ _ _ Hsw Hs) as Hs1. by eapply honest_ext, Hs1.
  - pose proof (swept_honest _ _ _ Hsw Hs) as Hs1. by eapply honest_ext, Hs1.
Qed.

Lemma gives_set_up s o s' : gives s o s' -> set_up s -> set_up s'.
Proof.
  intros Hg Hu. assert (forall s1 o', swept s s1 o' -> set_up s1) as Hsw.
  { intros s1 o' [_ Hk] k Hn. destruct (Hk k) as [[He ->]|(He & _)]; [|congruence]. rewrite He in Hn. by apply Hu. }
  destruct Hg as [k p i s1 _ _ _ _ Hs1|s1 h p a ms msg q key Hs1 _ _ _ _ _|s1 skipped r data rest Hs1 _ _ _ _ _|s1 Hs1 _ _ _];
    pose proof (Hsw _ _ Hs1) as Hu1; try done. intros k. cbn. destruct (decide (k = h)) as [->|]; [by rewrite lookup_insert_eq|].
  rewrite lookup_insert_ne by done. apply Hu1.
Qed.

Lemma poll_honest s w : honest s -> exists o s1 s' w', perform po pe CallPoll (s, w) = (Ok o, (s', w')) /\ gives s o s1 /\ same_work s1 s' /\
  honest s' /\ (set_up s -> set_up s').
Proof.
  intros Hs. destruct (poll_spec po pe Hpo Hpe s w (hn_ok s Hs)) as (o & s1 & s' & w' & He & Hg & Hw & Hok & _). pose proof Hw as (_ & Hw2 & Hw3 & Hw4 & _).
  exists o, s1, s', w'. cbn [perform]. unfold mbind, stM_bind. rewrite He. split; [by destruct o|]. split; [done|]. split; [done|]. split.
  - eapply honest_ext, (gives_honest s o s1 Hg Hs); done.
  - intros Hu k. rewrite Hw2, Hw3. by eapply gives_set_up.
Qed.
End calls.

Lemma runs_honest tr s : ut_runs tr s -> Forall (fun e => honest_call e.1) tr -> honest s /\ set_up s.
Proof.
  induction 1 as [|tr s c po pe w r s' w' Hrun IH Hpo Hpe Hc Hp].
  - intros _. split; [split; [apply meta_ok_new|..]|]; intros k; cbn; rewrite lookup_empty; [by intros [? ?]|done..].
  - intros [Htr [Hh _]%Forall_cons]%Forall_app. destruct (IH Htr) as [Hs Hu]. cbn [fst] in Hh. destruct c as [item|info ext|].
    + pose proof (start_send_honest po Hpo item s w Hs Hc Hh) as Hgoal. cbn [perform] in Hp. unfold mbind, stM_bind in Hp.
      destruct (start_send po item (s, w)) as [[a|e| |] [s2 w2]]; cbn [fst snd] in Hgoal; injection Hp as _ <- _; done.
    + pose proof (on_update_honest po Hpo info ext s w Hs Hc Hh) as Hgoal. cbn [perform] in Hp. unfold mbind, stM_bind in Hp.
      destruct (on_update po info ext (s, w)) as [[a|e| |] [s2 w2]]; cbn [fst snd] in Hgoal; injection Hp as _ <- _; done.
    + destruct (poll_honest po pe Hpo Hpe s w Hs) as (o & s1 & s2 & w2 & He & _ & _ & Hs2 & Hu2). rewrite He in Hp. injection Hp as _ <- _. auto.
Qed.

(** ** The exchange *)

(** The answer of an honest peer to a request. *)
Definition answer (content : bytes) (r : ActiveRequest) : ut_call :=
  let piece := utreq_piece (ar_message r) in
  CallSend (ReceivedUtMetadataMessage (ar_sent_to r) (UtData (UtMetadataDataMessage_new piece (Z.of_nat (length content)) (piece_bytes content piece)))).

(** A step of an exchange: a poll that gives something, or the answer to any of
    the requests that are out. *)
Inductive exchange_step (s : UtMetadataModule FU) : ut_call -> option ODiscoveryMessage -> Prop :=
| step_poll msg : exchange_step s CallPoll (Some msg)
| step_answer r content : r ∈ active_requests s -> lib !! peer_hash (ar_sent_to r) = Some content -> exchange_step s (answer content r) None.

(** Steps one after the other, in any worlds and orders of the maps. *)
Inductive exchange : UtMetadataModule FU -> list (ut_call * option ODiscoveryMessage) -> UtMetadataModule FU -> Prop :=
| exchange_nil s : exchange s [] s
| exchange_cons s c o po pe w s1 w1 tr s2 :
    visits_all po -> visits_all pe -> exchange_step s c o -> perform po pe c (s, w) = (Ok o, (s1, w1)) -> exchange s1 tr s2 ->
    exchange s ((c, o) :: tr) s2.

(** The steps that are left at most: one for each download, two for each piece to
    ask for, one for each request that is out and each request of a peer. *)
Definition download_work (o : option PendingInfo) : nat := match o with Some p => S (2 * length (pend_messages p)) | None => 1 end.
Definition pending_work (m : gmap ShaHash (option PendingInfo)) : nat := sum_list_with (fun e => download_work e.2) (map_to_list m).
Definition work (s : UtMetadataModule FU) : nat := pending_work (pending_map s) + length (active_requests s) + length (peer_requests s).

Lemma sum_list_with_perm {A} (f : A -> nat) l l' : l ≡ₚ l' -> sum_list_with f l = sum_list_with f l'.
Proof. induction 1; cbn; lia. Qed.

Lemma pending_work_delete m k o : m !! k = Some o -> pending_work m = download_work o + pending_work (delete k m).
Proof. intros Hk. unfold pending_work. by rewrite <- (sum_list_with_perm _ _ _ (map_to_list_delete m k o Hk)). Qed.

Lemma pending_work_insert m k o o' : m !! k = Some o -> pending_work (<[k := o']> m) + download_work o = pending_work m + download_work o'.
Proof.
  intros Hk. rewrite (pending_work_delete m k o Hk), (pending_work_delete (<[k := o']> m) k o') by apply lookup_insert_eq. rewrite delete_insert_eq. lia.
Qed.

Lemma pending_work_subset m m' : m' ⊆ m -> pending_work m' <= pending_work m.
Proof.
  intros Hs%map_to_list_submseteq. apply submseteq_Permutation in Hs as [k Hk]. unfold pending_work. rewrite (sum_list_with_perm _ _ _ Hk), sum_list_with_app. lia.
Qed.

Lemma swept_subset s s1 o : swept s s1 o -> pending_map s1 ⊆ pending_map s.
Proof. intros [_ Hk]. apply map_subseteq_spec. intros k x Hx. destruct (Hk k) as [[He _]|(He & _)]; [by rewrite He in Hx|congruence]. Qed.

Lemma gives_work s msg s' : gives s (Some msg) s' -> work s' < work s.
Proof.
  intros Hg. unfold work. inversion Hg as [k p i s1 Hk _ _ Hn Hsw|s1 h p a ms m q key Hsw _ Hp Hm _ _|s1 skipped r data rest Hsw _ Hl _ _ _|]; subst;
    destruct (swept_fields _ _ _ Hsw) as (_ & Ha & Hq & _); pose proof (swept_subset _ _ _ Hsw) as Hsub.
  - rewrite Ha, Hq. rewrite (pending_work_delete _ _ _ Hk). assert (pending_map s' ⊆ delete k (pending_map s)) as Hd.
    { apply map_subseteq_spec. intros k' x Hx. rewrite lookup_delete_ne by (intros ->; congruence). by eapply lookup_weaken. }
    apply pending_work_subset in Hd. cbn [download_work]. lia.
  - cbn [asks with_requests with_pending pending_map active_requests peer_requests]. rewrite Ha, Hq, length_app. apply pending_work_subset in Hsub.
    pose proof (pending_work_insert _ h _ (Some (mk_PendingInfo ms (pend_left p) (pend_bytes p))) Hp) as Hi. cbn [download_work pend_messages] in Hi. rewrite Hm, length_app in Hi. cbn [length] in *. lia.
  - cbn [with_peer_requests pending_map active_requests peer_requests]. rewrite Ha, Hl, length_app. apply pending_work_subset in Hsub. cbn [length]. lia.
Qed.

(** An answer always arrives: it removes a request and no download. *)
Lemma answer_step po pe s w r content : visits_all po -> honest s -> set_up s -> r ∈ active_requests s -> lib !! peer_hash (ar_sent_to r) = Some content ->
  exists s' w', perform po pe (answer content r) (s, w) = (Ok None, (s', w')) /\ honest s' /\ set_up s' /\ work s' < work s /\
  active_peers s' = active_peers s /\ forall k, is_Some (pending_map s !! k) -> is_Some (pending_map s' !! k).
Proof.
  intros Hpo Hs Hu Hr Hc. set (data := UtMetadataDataMessage_new (utreq_piece (ar_message r)) (Z.of_nat (length content)) (piece_bytes content (utreq_piece (ar_message r)))).
  assert (honest_call (CallSend (ReceivedUtMetadataMessage (ar_sent_to r) (UtData data)))) as Hh.
  { cbn [honest_call]. intros content' Hc'. assert (content' = content) as -> by congruence. done. }
  pose proof (recv_data_honest (ar_sent_to r) data Hh s w Hs) as Hs1.
  destruct (recv_data_cases s w (ar_sent_to r) data Hs) as [[_ Hno]|(i & r' & p & Hr' & _ & _ & Hp & _ & He)]; [by destruct (Hno r Hr eq_refl)|]. cbn zeta in He.
  rewrite He in Hs1. cbn [fst snd] in Hs1. set (s1 := with_pending _ _) in *.
  assert (set_up s1) as Hu1.
  { intros k. cbn. destruct (decide (k = peer_hash (ar_sent_to r))) as [->|]; [by rewrite lookup_insert_eq|]. rewrite lookup_insert_ne by done. apply Hu. }
  destruct (check_honest po Hpo s1 w Hs1) as (m & t & w2 & Hck & Hs2 & Hu2 & Hm). rewrite (Hm Hu1) in *. clear Hm m.
  eexists _, w2. split_and!; [|exact Hs2|exact Hu2|..].
  - cbn [answer perform]. fold data. unfold start_send, with_result. ut_run. rewrite He. ut_run. by rewrite Hck.
  - unfold work. cbn. pose proof (pending_work_insert _ _ _ (Some (mk_PendingInfo (pend_messages p) (pend_left p - 1)
      (take (Z.to_nat (utdata_piece data * REQUEST)) (pend_bytes p) ++ copy_over (utdata_data data) (drop (Z.to_nat (utdata_piece data * REQUEST)) (pend_bytes p))))) Hp) as Hi.
    cbn [download_work pend_messages] in Hi. pose proof (Permutation_length (swap_remove_perm _ _ _ Hr')) as Hlen. cbn [length] in Hlen.
    cbn [data utdata_piece utdata_data UtMetadataDataMessage_new] in Hi. lia.
  - done.
  - intros k Hk. cbn. destruct (decide (k = peer_hash (ar_sent_to r))) as [->|]; [rewrite lookup_insert_eq; eauto|by rewrite lookup_insert_ne].
Qed.

(** What a poll does to a download: it keeps it and its peers, or reports it. *)
Lemma gives_reports s o s' k content i : honest s -> gives s o s' -> is_Some (pending_map s !! k) -> lib !! k = Some content -> Info_from_bytes content = Ok i ->
  (is_Some (pending_map s' !! k) /\ active_peers s' !! k = active_peers s !! k) \/ o = Some (DownloadedMetainfo (Metainfo_from_info i)).
Proof.
  intros Hs Hg Hk Hc Hi. assert (forall s1 o', swept s s1 o' -> (is_Some (pending_map s1 !! k) /\ active_peers s1 !! k = active_peers s !! k) \/ o' = Some (DownloadedMetainfo (Metainfo_from_info i))) as Hsw.
  { intros s1 o' [_ Hsw]. destruct (Hsw k) as [[-> ->]|(_ & _ & p & Hp & Hz & Ho)]; [by left|]. right. by rewrite (honest_done s k p content Hs Hp Hc Hz), Hi in Ho. }
  destruct Hg as [k' p i' s1 _ _ _ _ Hs1|s1 h p a ms msg q key Hs1 _ _ _ _ _|s1 skipped r data rest Hs1 _ _ _ _ _|s1 Hs1 _ _ _];
    (destruct (Hsw _ _ Hs1) as [[Hk1 Ha1]|He]; [left|try done; by right]); cbn; try done.
  split; [|done]. destruct (decide (k = h)) as [->|]; [rewrite lookup_insert_eq; eauto|by rewrite lookup_insert_ne].
Qed.

Section download.
Context (h : ShaHash) (content : bytes) (i : Info).
Hypothesis Hcontent : lib !! h = Some content.
Hypothesis Hinfo : Info_from_bytes content = Ok i.

(** The download of [h] goes on, with peers to ask. *)
Definition underway (s : UtMetadataModule FU) : Prop :=
  is_Some (pending_map s !! h) /\ exists a, active_peers s !! h = Some a /\ ap_peers a <> ∅.

Lemma step_spec po pe s w c o s1 w1 : visits_all po -> visits_all pe -> honest s -> set_up s -> exchange_step s c o -> perform po pe c (s, w) = (Ok o, (s1, w1)) ->
  honest s1 /\ set_up s1 /\ work s1 < work s /\ (underway s -> underway s1 \/ o = Some (DownloadedMetainfo (Metainfo_from_info i))).
Proof.
  intros Hpo Hpe Hs Hu Hst Hp. destruct Hst as [msg|r content' Hr Hc].
  - destruct (poll_honest po pe Hpo Hpe s w Hs) as (o' & s2 & s' & w' & He & Hg & (_ & Hw2 & Hw3 & Hw4 & Hw5) & Hs' & Hu'). rewrite He in Hp. injection Hp as -> <- <-.
    split_and!; [done|by apply Hu'| |].
    + pose proof (gives_work _ _ _ Hg) as Hw. unfold work in *. by rewrite Hw2, Hw4, Hw5.
    + intros [Hk (a & Ha & Hne)]. destruct (gives_reports s _ _ h content i Hs Hg Hk Hcontent Hinfo) as [[Hk' Ha']|?]; [left|by right].
      split; [by rewrite Hw2|]. exists a. by rewrite Hw3, Ha'.
  - destruct (answer_step po pe s w r content' Hpo Hs Hu Hr Hc) as (s' & w' & He & Hs' & Hu' & Hw & Ha & Hk). rewrite He in Hp. injection Hp as <- <-.
    split_and!; try done. intros [Hh Hpeers]. left. split; [by apply Hk|]. by rewrite Ha.
Qed.

Lemma exchange_spec s tr s' : exchange s tr s' -> honest s -> set_up s ->
  honest s' /\ set_up s' /\ length tr + work s' <= work s /\
  (underway s -> underway s' \/ exists c, (c, Some (DownloadedMetainfo (Metainfo_from_info i))) ∈ tr).
Proof.
  induction 1 as [s|s c o po pe w s1 w1 tr s2 Hpo Hpe Hst Hp _ IH]; intros Hs Hu; [by split_and!; auto|].
  destruct (step_spec po pe s w c o s1 w1 Hpo Hpe Hs Hu Hst Hp) as (Hs1 & Hu1 & Hw1 & Hd1). destruct (IH Hs1 Hu1) as (Hs2 & Hu2 & Hw2 & Hd2).
  split_and!; [done|done|cbn [length]; lia|]. intros Hund. destruct (Hd1 Hund) as [Hund1| ->].
  - destruct (Hd2 Hund1) as [?|[c' Hin]]; [by left|]. right. exists c'. by apply list_elem_of_further.
  - right. exists c. apply list_elem_of_here.
Qed.

(** While the download goes on there is a step to take. *)
Lemma underway_step (po : gmap ShaHash (option PendingInfo) -> list ShaHash) (pe : PeerSet -> list PeerKey) s w : visits_all po -> visits_all pe -> honest s -> set_up s -> underway s -> exists c o s', exchange s [(c, o)] s'.
Proof.
  intros Hpo Hpe Hs Hu [Hk (a & Ha & Hne)]. destruct (active_requests s) as [|r rs] eqn:Hact.
  - destruct (poll_honest po pe Hpo Hpe s w Hs) as (o & s1 & s' & w' & He & Hg & _). destruct o as [msg|].
    { exists CallPoll, (Some msg), s'. by eapply exchange_cons; [exact Hpo|exact Hpe|constructor|exact He|constructor]. }
    exfalso. destruct (gives_reports s _ _ h content i Hs Hg Hk Hcontent Hinfo) as [[[o Ho] Ha']|?]; [|done].
    inversion Hg as [| | |s2 Hsw Hz Hno _]; subst. cbn in Ho, Ha'. destruct o as [p|].
    + destruct (swept_fields _ _ _ Hsw) as (_ & Hact' & _). pose proof (meta_ok_swept _ _ _ Hsw (hn_ok s Hs)) as Hok. apply (Hno h). exists p, a. rewrite Ha'.
      split_and!; try done. intros Hm. apply (Hz _ _ Ho). destruct (mo_pending _ Hok _ _ Ho) as [_ _ -> _]. unfold outstanding. by rewrite Hm, Hact', Hact.
    + pose proof (proj1 (map_subseteq_spec _ _) (swept_subset _ _ _ Hsw) _ _ Ho) as Ho'. rewrite (Hu _ Ho') in Ha. done.
  - assert (r ∈ active_requests s) as Hr by (rewrite Hact; apply list_elem_of_here). destruct (mo_active s (hn_ok s Hs) r Hr) as [p Hp].
    destruct (hn_lib s Hs (peer_hash (ar_sent_to r))) as [content' Hc']; [eauto|].
    destruct (answer_step po pe s w r content' Hpo Hs Hu Hr Hc') as (s' & w' & He & _).
    exists (answer content' r), None, s'. eapply exchange_cons; [exact Hpo|exact Hpe|by constructor|exact He|constructor].
Qed.
End download.

(** C4. Downloads complete.  Take any run of a metadata module in which peers are
    honest about the torrents of [lib] and only those are asked for, with ticks,
    lost peers, requests of peers and other downloads in any order, that leaves a
    download of [h] pending and a peer of [h] known.  From there polls and answers
    to the requests that are out, any of them at any time, can be taken for at
    most [work s] steps, and they can always be taken until the torrent with the
    hash [h] has been reported. *)
Theorem metadata_download_completes (tr : list (ut_call * option ODiscoveryMessage)) s (h : ShaHash) (content : bytes) (i : Info) (po : gmap ShaHash (option PendingInfo) -> list ShaHash) (pe : PeerSet -> list PeerKey) w : ut_runs tr s -> Forall (fun e => honest_call e.1) tr -> visits_all po -> visits_all pe ->
  lib !! h = Some content -> Info_from_bytes content = Ok i -> underway h s ->
  forall steps s', exchange s steps s' ->
    length steps <= work s /\
    ((exists c, (c, Some (DownloadedMetainfo (Metainfo_from_info i))) ∈ steps) \/ exists c o s'', exchange s' [(c, o)] s'').
Proof.
  intros Hrun Hhon Hpo Hpe Hc Hi Hund steps s' Hex. destruct (runs_honest tr s Hrun Hhon) as [Hs Hu].
  destruct (exchange_spec h content i Hc Hi s steps s' Hex Hs Hu) as (Hs' & Hu' & Hw & Hd). split; [lia|].
  destruct (Hd Hund) as [Hund'|?]; [right|by left]. by eapply underway_step.
Qed.
End exchange.

(** ** A torrent of two pieces *)

#[local] Existing Instance Futures_log.
#[local] Existing Instance Sha1_pad.

Definition long_content : bytes := bstr "d6:lengthi820e4:name1:a12:piece lengthi1e6:pieces16400:" ++ replicate (820 * 20) x61 ++ bstr "e".
Definition long_dict : Info := match Info_from_bytes long_content with Ok i => i | _ => sample_dict end.
Lemma long_dict_read : Info_from_bytes long_content = Ok long_dict.
Proof.
  unfold long_dict. assert (match Info_from_bytes long_content with Ok _ => true | _ => false end = true) as Hi by (vm_compute; reflexivity).
  by destruct (Info_from_bytes long_content).
Qed.

Definition long_hash : ShaHash := from_bytes long_content.
Definition long_peer (last : Byte.byte) : PeerInfo :=
  PeerInfo_new (SockV4 (mk_SocketAddrV4 (mk_Ipv4Addr x01 x02 x03 last) 6881)) (mk_ShaHash (bstr "bbbbbbbbbbbbbbbbbbbb")) long_hash Extensions_new.
Definition long_lib : gmap ShaHash bytes := {[long_hash := long_content]}.

Definition long_calls : list ut_call :=
  let extended := sample_extended (Z.of_nat (length long_content)) in
  [CallSend (DownloadMetainfo long_hash); CallUpdate (long_peer x04) extended; CallUpdate (long_peer x05) extended; CallPoll; CallPoll].
#[local] Opaque long_content long_dict long_hash.

(** Two peers are met, and both pieces are asked for. *)
Definition long_world : @fworld Futures_log := (0, []).
Definition long_run : list (ut_call * option ODiscoveryMessage) * UtMetadataModule Futures_log := play long_world map_keys map_keys long_calls [] UtMetadataModule_new.


Lemma long_run_runs : ut_runs long_run.1 long_run.2.
Proof.
  unfold long_run. apply play_runs; [apply map_keys_visits_all..| |constructor]. assert (ext_fits (sample_extended (Z.of_nat (length long_content)))) as Hfit.
  { intros size [= <-]. unfold size_fits. split; [lia|]. vm_compute. reflexivity. }
  unfold long_calls. cbv zeta. apply Forall_cons; split; [exact I|]. apply Forall_cons; split; [exact Hfit|]. apply Forall_cons; split; [exact Hfit|]. apply Forall_cons; split; [exact I|]. apply Forall_singleton. exact I.
Qed.

Lemma play_calls {FU : Futures} `{SH : Sha1} (w : fworld) po pe cs : forall tr (s : UtMetadataModule FU), (play w po pe cs tr s).1.*1 = tr.*1 ++ cs.
Proof. induction cs as [|c cs IH]; intros tr s; cbn [play]; [by rewrite app_nil_r|]. by rewrite IH, fmap_app, <- app_assoc. Qed.

Lemma long_run_calls : long_run.1.*1 = long_calls.
Proof. apply play_calls. Qed.

#[local] Opaque long_run.

(** The request for a piece that is out at [j]. *)
Definition long_request (s : UtMetadataModule Futures_log) (j : nat) : ActiveRequest :=
  default (generate_active_request (UtMetadataRequestMessage_new 0) (long_peer x04)) (active_requests s !! j).

(** The answer to the request at [j] that is out. *)
Definition long_answer (j : nat) (s : UtMetadataModule Futures_log) : UtMetadataModule Futures_log :=
  (perform map_keys map_keys (answer long_content (long_request s j)) (s, long_world)).2.1.

Lemma exchange_at j s : j < length (active_requests s) -> peer_hash (ar_sent_to (long_request s j)) = long_hash ->
  (perform map_keys map_keys (answer long_content (long_request s j)) (s, long_world)).1 = Ok None ->
  forall tr s2, exchange long_lib (long_answer j s) tr s2 -> exchange long_lib s ((answer long_content (long_request s j), None) :: tr) s2.
Proof.
  intros Hj Hh He tr s2 Hex. unfold long_answer in Hex. destruct (perform _ _ _ _) as [r [s1 w1]] eqn:Hp. cbn [fst snd] in *. subst r.
  eapply exchange_cons; [apply map_keys_visits_all..| |exact Hp|exact Hex]. apply step_answer.
  - unfold long_request. destruct (lookup_lt_is_Some_2 _ _ Hj) as [r Hr]. rewrite Hr. by eapply list_elem_of_lookup_2.
  - rewrite Hh. apply lookup_singleton_eq.
Qed.

Lemma long_lib_ok k content : long_lib !! k = Some content -> from_bytes content = k /\ (exists i, Info_from_bytes content = Ok i) /\ (Z.of_nat (length content) < 2 ^ 63)%Z.
Proof.
  unfold long_lib. intros [<- <-]%lookup_singleton_Some. split; [done|]. split; [|vm_compute; reflexivity].
  exists long_dict. apply long_dict_read.
Qed.

Lemma long_run_honest : Forall (fun e => honest_call long_lib e.1) long_run.1.
Proof.
  apply (proj1 (Forall_fmap fst (honest_call long_lib) long_run.1)). rewrite long_run_calls.
  assert (forall p, peer_hash p = long_hash -> honest_call long_lib (CallUpdate p (sample_extended (Z.of_nat (length long_content))))) as Hupdate.
  { intros p Hp content size Hc Hs. unfold long_lib in Hc. rewrite Hp in Hc. apply lookup_singleton_Some in Hc as [_ <-]. by injection Hs as <-. }
  unfold long_calls. cbv zeta. rewrite !Forall_cons. split_and!; [|by apply Hupdate..|done|done|constructor]. exists long_content. apply lookup_singleton_eq.
Qed.

Definition underway_b (h : ShaHash) (s : UtMetadataModule Futures_log) : bool :=
  match pending_map s !! h, active_peers s !! h with Some _, Some a => negb (peers_is_empty (ap_peers a)) | _, _ => false end.

Lemma underway_b_sound h s : underway_b h s = true -> underway h s.
Proof.
  unfold underway_b, underway. destruct (pending_map s !! h) as [o|]; [|done]. destruct (active_peers s !! h) as [a|]; [|done].
  intros Ha%negb_true_iff%bool_decide_eq_false. split; [eauto|]. by exists a.
Qed.

Lemma long_run_underway : underway long_hash long_run.2.
Proof. apply underway_b_sound. vm_compute. reflexivity. Qed.

(** The piece that was asked for last is answered first, and both arrive. *)
Lemma metadata_download_completes_witness : exists steps s', exchange long_lib long_run.2 steps s' /\
  (utreq_piece ∘ ar_message <$> active_requests long_run.2 = [1; 0])%Z /\
  length steps <= work long_run.2 /\
  ((exists c, (c, Some (DownloadedMetainfo (Metainfo_from_info long_dict))) ∈ steps) \/ exists c o s'', exchange long_lib s' [(c, o)] s'').
Proof.
  eassert (exchange long_lib long_run.2 _ (perform map_keys map_keys CallPoll (long_answer 0 (long_answer 1 long_run.2), long_world)).2.1) as Hex.
  { apply (exchange_at 1); [apply Nat.ltb_lt; vm_compute; reflexivity|vm_compute; reflexivity..|].
    apply (exchange_at 0); [apply Nat.ltb_lt; vm_compute; reflexivity|vm_compute; reflexivity..|].
    eapply (exchange_cons _ _ CallPoll (Some (DownloadedMetainfo (Metainfo_from_info long_dict))) map_keys map_keys long_world); [apply map_keys_visits_all..|constructor| |constructor].
    instantiate (1 := (perform map_keys map_keys CallPoll (long_answer 0 (long_answer 1 long_run.2), long_world)).2.2).
    assert ((perform map_keys map_keys CallPoll (long_answer 0 (long_answer 1 long_run.2), long_world)).1 = Ok (Some (DownloadedMetainfo (Metainfo_from_info long_dict)))) as He
      by (vm_compute; reflexivity).
    by destruct (perform _ _ _ _) as [r [s1 w1]]; cbn [fst snd] in *; subst r. }
  eexists _, _. split; [exact Hex|]. split; [vm_compute; reflexivity|].
  refine (metadata_download_completes long_lib long_lib_ok long_run.1 long_run.2 long_hash long_content long_dict map_keys map_keys long_world
    long_run_runs long_run_honest map_keys_visits_all map_keys_visits_all (lookup_singleton_eq _ _) long_dict_read _ _ _ Hex).
  exact long_run_underway.
Defined.
