(* ===== verification/SelHonest.v ===== *)
(** * [bip_select::revelation::honest]: telling peers what we have

    The module keeps a bit set of the good pieces of each torrent and the peers
    connected for it.  The bit set ([bit_set::BitSet<u8>]) and the byte buffer
    ([bytes::BytesMut]) are other crates: each is a class of the operations used
    and a class of what their documentation says of them. *)

From stdpp Require Import prelude list gmap strings.
From Stdlib Require Import ZArith Lia Strings.Byte.
From S2P Require Import Prelude Bytes Convert Sha Metainfo PeerMessage SelBase.

(** ** The two crates *)

Class BitSetOps : Type := {
  bitset : Type;
  bitset_default : bitset;
  bitset_reserve_len_exact : nat -> bitset -> bitset;
  bitset_insert : nat -> bitset -> bitset;
  bitset_is_empty : bitset -> bool;
  (** [get_ref().storage()] *)
  bitset_storage : bitset -> bytes;
}.

(** Element [i] is bit [i mod 8], from the low end, of block [i / 8]. *)
Definition stored (blocks : bytes) (i : nat) : bool :=
  match blocks !! (i / 8) with Some b => Z.testbit (byte_val b) (Z.of_nat (i mod 8)) | None => false end.

Class BitSetLaws {B : BitSetOps} : Prop := {
  bitset_default_stored : forall i, stored (bitset_storage bitset_default) i = false;
  bitset_reserve_stored : forall n b i, stored (bitset_storage (bitset_reserve_len_exact n b)) i = stored (bitset_storage b) i;
  bitset_insert_stored : forall n b i, stored (bitset_storage (bitset_insert n b)) i = bool_decide (i = n) || stored (bitset_storage b) i;
  bitset_is_empty_stored : forall b, bitset_is_empty b = true <-> forall i, stored (bitset_storage b) i = false;
}.

(** [put_u8] panics when no capacity is left; [split_off 0] takes the contents. *)
Class BytesMutOps : Type := {
  buf : Type;
  buf_new : buf;
  buf_bytes : buf -> bytes;
  buf_put_u8 : byte -> buf -> option buf;
  buf_split_off_0 : buf -> bytes * buf;
}.

Class BytesMutLaws {B : BytesMutOps} : Prop := {
  buf_new_bytes : buf_bytes buf_new = [];
  buf_put_bytes : forall x b b', buf_put_u8 x b = Some b' -> buf_bytes b' = buf_bytes b ++ [x];
  buf_split_bytes : forall b, (buf_split_off_0 b).1 = buf_bytes b /\ buf_bytes (buf_split_off_0 b).2 = [];
}.

(** ** The module *)

Record PeersInfo {B : BitSetOps} : Type := mk_PeersInfo { num_pieces : nat; status : bitset; peers : PeerSet }.
#[global] Arguments PeersInfo B : clear implicits.

Record HonestRevealModule {FU : Futures} {B : BitSetOps} {M : BytesMutOps} : Type := mk_HonestRevealModule {
  torrents : gmap ShaHash (PeersInfo B);
  out_queue : list ORevealMessage;
  out_bytes : buf;
  honest_stream : option Task;
}.
#[global] Arguments HonestRevealModule FU B M : clear implicits.

Section module.
Context {FU : Futures} {B : BitSetOps} {M : BytesMutOps}.
Context (peer_order : PeerSet -> list PeerKey).

Definition HonestRevealModule_new : HonestRevealModule FU B M := mk_HonestRevealModule FU B M ∅ [] buf_new None.

Definition hrM (A : Type) : Type := stM (HonestRevealModule FU B M * fworld) RevealErrorKind A.
Definition hr_get : hrM (HonestRevealModule FU B M) := fun s => (Ok s.1, s).
Definition hr_set (m : HonestRevealModule FU B M) : hrM () := fun s => (Ok (), (m, s.2)).
Definition hr_notify (t : Task) : hrM () := fun s => (Ok (), (s.1, notify t s.2)).
Definition hr_current : hrM Task := fun s => (Ok (current s.2), s).
Definition hr_torrents (self : HonestRevealModule FU B M) t := mk_HonestRevealModule FU B M t (out_queue self) (out_bytes self) (honest_stream self).
Definition hr_stream (self : HonestRevealModule FU B M) t := mk_HonestRevealModule FU B M (torrents self) (out_queue self) (out_bytes self) t.
Definition hr_ready : hrM (AsyncSink IRevealMessage) := mret SinkReady.

(** The inner loop of [insert_reversed_bits]: eight bits from the low end. *)
Definition reverse_step (st : byte * byte) : byte * byte :=
  let '(reversed_byte, b) := st in
  let reversed_byte := as_u8 (Z.shiftl (byte_val reversed_byte) 1) in
  let reversed_byte := as_u8 (Z.lor (byte_val reversed_byte) (Z.land (byte_val b) 1)) in
  (reversed_byte, as_u8 (Z.shiftr (byte_val b) 1)).
Definition reverse_byte (b : byte) : byte := (Nat.iter 8 reverse_step (x00, b)).1.

Fixpoint insert_reversed_bits (slice : bytes) (out : buf) : outcome RevealErrorKind buf :=
  match slice with
  | [] => Ok out
  | b :: slice => out ← unwrap (buf_put_u8 (reverse_byte b) out); insert_reversed_bits slice out
  end.

Definition hr_add_torrent (metainfo : Metainfo) : hrM (AsyncSink IRevealMessage) :=
  self ← hr_get;
  let hash := info_hash (mi_info metainfo) in
  match torrents self !! hash with
  | Some _ => lift (Err (RInvalidMetainfoExists hash))
  | None =>
      let num_pieces := length (pieces (mi_info metainfo)) in
      let piece_set := bitset_reserve_len_exact num_pieces bitset_default in
      hr_set (hr_torrents self (<[hash := mk_PeersInfo B num_pieces piece_set ∅]> (torrents self)));;
      hr_ready
  end.

Definition hr_remove_torrent (metainfo : Metainfo) : hrM (AsyncSink IRevealMessage) :=
  self ← hr_get;
  let hash := info_hash (mi_info metainfo) in
  match torrents self !! hash with
  | None => lift (Err (RInvalidMetainfoNotExists hash))
  | Some _ => hr_set (hr_torrents self (delete hash (torrents self)));; hr_ready
  end.

Definition hr_add_peer (peer : PeerInfo) : hrM (AsyncSink IRevealMessage) :=
  self ← hr_get;
  let hash := peer_hash peer in
  match torrents self !! hash with
  | Some info =>
      let self := hr_torrents self (<[hash := mk_PeersInfo B (num_pieces info) (status info) (peers_insert peer (peers info))]> (torrents self)) in
      if negb (bitset_is_empty (status info)) then
        out ← lift (insert_reversed_bits (bitset_storage (status info)) (out_bytes self));
        let '(bitfield_bytes, rest) := buf_split_off_0 out in
        hr_set (mk_HonestRevealModule FU B M (torrents self) (out_queue self ++ [SendBitField peer (BitFieldMessage_new bitfield_bytes)]) rest (honest_stream self));;
        hr_ready
      else hr_set self;; hr_ready
  | None => lift (Err (RInvalidMetainfoNotExists hash))
  end.

Definition hr_remove_peer (peer : PeerInfo) : hrM (AsyncSink IRevealMessage) :=
  self ← hr_get;
  let hash := peer_hash peer in
  match torrents self !! hash with
  | Some info =>
      hr_set (hr_torrents self (<[hash := mk_PeersInfo B (num_pieces info) (status info) (peers_remove peer (peers info))]> (torrents self)));;
      hr_ready
  | None => lift (Err (RInvalidMetainfoNotExists hash))
  end.

(** [for peer in peers_info.peers.iter()] *)
Definition have_messages (set : PeerSet) (index : Z) : list ORevealMessage :=
  (fun peer => SendHave peer (HaveMessage_new (as_unsigned 32 index))) <$> omap (fun key => set !! key) (peer_order set).

Definition insert_piece (hash : ShaHash) (index : Z) : hrM (AsyncSink IRevealMessage) :=
  self ← hr_get;
  match torrents self !! hash with
  | Some info =>
      if (Z.of_nat (num_pieces info) <=? index)%Z then lift (Err (RInvalidPieceOutOfRange hash index))
      else
        hr_set (mk_HonestRevealModule FU B M
          (<[hash := mk_PeersInfo B (num_pieces info) (bitset_insert (Z.to_nat index) (status info)) (peers info)]> (torrents self))
          (out_queue self ++ have_messages (peers info) index) (out_bytes self) (honest_stream self));;
        hr_ready
  | None => lift (Err (RInvalidMetainfoNotExists hash))
  end.

Definition hr_check_stream_unblock : hrM () :=
  self ← hr_get;
  if negb (bool_decide (out_queue self = [])) then
    match honest_stream self with
    | Some task => hr_set (hr_stream self None);; hr_notify task
    | None => mret ()
    end
  else mret ().

Definition hr_start_send (item : IRevealMessage) : hrM (AsyncSink IRevealMessage) :=
  with_result
    (match item with
     | RControl (AddTorrent metainfo) => hr_add_torrent metainfo
     | RControl (RemoveTorrent metainfo) => hr_remove_torrent metainfo
     | RControl (PeerConnected info) => hr_add_peer info
     | RControl (PeerDisconnected info) => hr_remove_peer info
     | FoundGoodPiece hash index => insert_piece hash index
     | RControl (Tick _) | ReceivedBitField _ _ | ReceivedHave _ _ => hr_ready
     end)
    (fun result => hr_check_stream_unblock;; lift result).

Definition hr_poll_complete : hrM (Async ()) := mret (Ready ()).

Definition hr_poll : hrM (Async (option ORevealMessage)) :=
  self ← hr_get;
  match out_queue self with
  | item :: queue => hr_set (mk_HonestRevealModule FU B M (torrents self) queue (out_bytes self) (honest_stream self));; mret (Ready (Some item))
  | [] => task ← hr_current; hr_set (hr_stream self (Some task));; mret NotReady
  end.

End module.
