(* ===== verification/SelHonestProofs.v ===== *)
(** * Revelation is honest and complete

    Over every run of the revelation module: the messages for each peer are exactly
    the ones the calls on the module ask for, a connected peer is told of every
    piece we have, and a task that waits on the stream is woken when there is a
    message. *)

From stdpp Require Import prelude list gmap strings.
From Stdlib Require Import ZArith Lia Strings.Byte.
From S2P Require Import Prelude Bytes Convert Sha Metainfo PeerMessage SelBase SelHonest.

(** ** Reversed bits *)

Lemma reverse_byte_testbit b j : j < 8 -> Z.testbit (byte_val (reverse_byte b)) (7 - Z.of_nat j) = Z.testbit (byte_val b) (Z.of_nat j).
Proof. intros Hj. do 8 (destruct j as [|j]; [destruct b; reflexivity|]). lia. Qed.

(** The field that is sent holds piece [i] exactly when the set does. *)
Lemma reversed_has_piece blocks i : has_piece (reverse_byte <$> blocks) i = stored blocks i.
Proof.
  unfold has_piece, stored. rewrite list_lookup_fmap. destruct (blocks !! (i / 8)) as [b|]; [|done]. cbn [fmap option_fmap option_map].
  apply reverse_byte_testbit, Nat.mod_upper_bound. lia.
Qed.

Section proofs.
Context {FU : Futures} {B : BitSetOps} {BL : BitSetLaws} {M : BytesMutOps} {ML : BytesMutLaws}.
Implicit Types (s : HonestRevealModule FU B M) (w : fworld).

Lemma insert_reversed_ok slice : forall out out', insert_reversed_bits slice out = Ok out' -> buf_bytes out' = buf_bytes out ++ (reverse_byte <$> slice).
Proof.
  induction slice as [|b slice IH]; intros out out'; cbn [insert_reversed_bits]; [intros [= ->]; by rewrite app_nil_r|].
  destruct (buf_put_u8 (reverse_byte b) out) as [o|] eqn:Ho; [|done]. cbn [unwrap mbind outcome_bind]. intros Hi.
  rewrite (IH _ _ Hi), (buf_put_bytes _ _ _ Ho), <- app_assoc. done.
Qed.

Lemma insert_reversed_no_error slice e : forall out, insert_reversed_bits slice out <> Err e.
Proof.
  induction slice as [|b slice IH]; intros out; cbn [insert_reversed_bits]; [done|]. destruct (buf_put_u8 (reverse_byte b) out); cbn [unwrap mbind outcome_bind]; [apply IH|done].
Qed.

(** ** Runs *)

Inductive hr_call : Type := HSend (item : IRevealMessage) | HPoll.

Definition hr_perform (pe : PeerSet -> list PeerKey) (c : hr_call) : hrM (option ORevealMessage) :=
  match c with
  | HSend item => hr_start_send pe item;; mret None
  | HPoll => a ← hr_poll; mret (match a with Ready o => o | NotReady => None end)
  end.

(** Piece numbers are [u64], and there are not more pieces than a have message can name. *)
Definition hr_fits (c : hr_call) : Prop :=
  match c with
  | HSend (FoundGoodPiece _ index) => (0 <= index)%Z
  | HSend (RControl (AddTorrent metainfo)) => (Z.of_nat (length (pieces (mi_info metainfo))) <= 2 ^ 32)%Z
  | _ => True
  end.

(** Calls that returned, with what they gave. *)
Inductive hr_runs : list (hr_call * option ORevealMessage) -> HonestRevealModule FU B M -> Prop :=
| hr_runs_new : hr_runs [] HonestRevealModule_new
| hr_runs_call tr s c pe w r s' w' :
    hr_runs tr s -> visits_all pe -> hr_fits c -> hr_perform pe c (s, w) = (r, (s', w')) -> returns r ->
    hr_runs (tr ++ [(c, match r with Ok o => o | _ => None end)]) s'.

(** What a message tells a peer. *)
Definition tells (m : ORevealMessage) (p : PeerInfo) (i : nat) : Prop :=
  match m with
  | SendBitField q msg => peer_key q = peer_key p /\ has_piece (bitfield msg) i = true
  | SendHave q msg => peer_key q = peer_key p /\ have_piece_index msg = Z.of_nat i
  end.

Definition delivered (tr : list (hr_call * option ORevealMessage)) : list ORevealMessage := omap snd tr.

Record torrent_ok (msgs : list ORevealMessage) (h : ShaHash) (info : PeersInfo B) : Prop := {
  to_count : (Z.of_nat (num_pieces info) <= 2 ^ 32)%Z;
  to_peers : peers_of h (peers info);
  to_told : forall k q i, peers info !! k = Some q -> stored (bitset_storage (status info)) i = true -> exists m, m ∈ msgs /\ tells m q i;
}.

Record honest_ok (tr : list (hr_call * option ORevealMessage)) (s : HonestRevealModule FU B M) : Prop := {
  ho_torrents : forall h info, torrents s !! h = Some info -> torrent_ok (delivered tr ++ out_queue s) h info;
  ho_bytes : buf_bytes (out_bytes s) = [];
  ho_stream : is_Some (honest_stream s) -> out_queue s = [];
}.

Lemma torrent_ok_mono msgs msgs' h info : (forall m, m ∈ msgs -> m ∈ msgs') -> torrent_ok msgs h info -> torrent_ok msgs' h info.
Proof. intros Hm [H1 H2 H4]. split; try done. intros k q i Hk Hi. destruct (H4 k q i Hk Hi) as (m & ? & ?). eauto. Qed.

Lemma delivered_snoc tr c o : delivered (tr ++ [(c, o)]) = delivered tr ++ match o with Some m => [m] | None => [] end.
Proof. unfold delivered. rewrite omap_app. by destruct o. Qed.

(** ** One message *)

Ltac hr_run := unfold mbind, stM_bind; cbn [hr_get hr_set hr_notify hr_current hr_ready lift mret stM_ret fst snd].

Definition hr_op (pe : PeerSet -> list PeerKey) (item : IRevealMessage) : hrM (AsyncSink IRevealMessage) :=
  match item with
  | RControl (AddTorrent metainfo) => hr_add_torrent metainfo
  | RControl (RemoveTorrent metainfo) => hr_remove_torrent metainfo
  | RControl (PeerConnected info) => hr_add_peer info
  | RControl (PeerDisconnected info) => hr_remove_peer info
  | FoundGoodPiece hash index => insert_piece pe hash index
  | RControl (Tick _) | ReceivedBitField _ _ | ReceivedHave _ _ => hr_ready
  end.

(** What a message leaves before the stream is checked. *)
Record op_done (tr : list (hr_call * option ORevealMessage)) (s s1 : HonestRevealModule FU B M) : Prop := {
  od_torrents : forall h info, torrents s1 !! h = Some info -> torrent_ok (delivered tr ++ out_queue s1) h info;
  od_bytes : buf_bytes (out_bytes s1) = [];
  od_stream : honest_stream s1 = honest_stream s;
}.

Section op.
Context (tr : list (hr_call * option ORevealMessage)) (s : HonestRevealModule FU B M) (item : IRevealMessage).
Hypothesis Hs : honest_ok tr s.
Abbreviation tr' := (tr ++ [(HSend item, None)]).

Lemma delivered_send : delivered tr' = delivered tr.
Proof. rewrite delivered_snoc. by rewrite app_nil_r. Qed.

Lemma old_torrents new h info : torrents s !! h = Some info -> torrent_ok (delivered tr' ++ out_queue s ++ new) h info.
Proof.
  intros Hh. eapply torrent_ok_mono, (ho_torrents tr s Hs), Hh. intros m. rewrite delivered_send, app_assoc, !elem_of_app. tauto.
Qed.

(** Nothing is said; a set of torrents that are in order. *)
Lemma op_done_quiet ts : (forall h info, ts !! h = Some info -> torrent_ok (delivered tr' ++ out_queue s) h info) -> op_done tr' s (hr_torrents s ts).
Proof. intros Ht. split; cbn; [done|apply Hs|done]. Qed.

Lemma old_torrents_nil h info : torrents s !! h = Some info -> torrent_ok (delivered tr' ++ out_queue s) h info.
Proof. intros Hh. pose proof (old_torrents [] h info Hh) as Ho. by rewrite app_nil_r in Ho. Qed.

Lemma op_done_same : op_done tr' s s.
Proof. pose proof (op_done_quiet (torrents s) old_torrents_nil) as Hd. by destruct s. Qed.

Lemma add_torrent_done metainfo w r s1 w1 : (Z.of_nat (length (pieces (mi_info metainfo))) <= 2 ^ 32)%Z ->
  hr_add_torrent metainfo (s, w) = (r, (s1, w1)) -> w1 = w /\ op_done tr' s s1.
Proof.
  intros Hn. unfold hr_add_torrent. hr_run. destruct (torrents s !! _); intros [= <- <- <-]; split; try done; [apply op_done_same|].
  apply op_done_quiet. intros h info. rewrite lookup_insert_Some. intros [[<- <-]|[_ Hh]]; [|by apply old_torrents_nil].
  assert (forall i, stored (bitset_storage (bitset_reserve_len_exact (length (pieces (mi_info metainfo))) bitset_default)) i = false) as Hz.
  { intros i. rewrite bitset_reserve_stored. apply bitset_default_stored. }
  split; cbn [num_pieces peers status]; [done|apply peers_of_empty|]. intros k q i _ Hi. by rewrite Hz in Hi.
Qed.

Lemma remove_torrent_done metainfo w r s1 w1 : hr_remove_torrent metainfo (s, w) = (r, (s1, w1)) -> w1 = w /\ op_done tr' s s1.
Proof.
  unfold hr_remove_torrent. hr_run. destruct (torrents s !! _); intros [= <- <- <-]; split; try done; [|apply op_done_same].
  apply op_done_quiet. intros h info [_ Hh]%lookup_delete_Some. by apply old_torrents_nil.
Qed.

Lemma remove_peer_done peer w r s1 w1 : hr_remove_peer peer (s, w) = (r, (s1, w1)) -> w1 = w /\ op_done tr' s s1.
Proof.
  unfold hr_remove_peer. hr_run. destruct (torrents s !! _) as [info|] eqn:Hi; intros [= <- <- <-]; split; try done; [|apply op_done_same].
  apply op_done_quiet. intros h info'. rewrite lookup_insert_Some. intros [[<- <-]|[_ Hh]]; [|by apply old_torrents_nil].
  destruct (old_torrents_nil _ _ Hi) as [H1 H2 H4]. split; cbn [num_pieces peers status]; try done; [by apply peers_of_remove|].
  intros k q i Hk. apply (H4 k). unfold peers_remove in Hk. by apply lookup_delete_Some in Hk as [_ Hk].
Qed.

(** A peer that joins is sent the field of the pieces, if there are any. *)
Lemma add_peer_done peer w r s1 w1 : returns r -> hr_add_peer peer (s, w) = (r, (s1, w1)) -> w1 = w /\ op_done tr' s s1.
Proof.
  intros Hr. unfold hr_add_peer. hr_run. destruct (torrents s !! peer_hash peer) as [info|] eqn:Hi; [|intros [= <- <- <-]; split; [done|apply op_done_same]].
  set (ts := <[_ := _]> (torrents s)). cbn [hr_torrents torrents out_queue out_bytes honest_stream].
  assert (forall new, (forall i, stored (bitset_storage (status info)) i = true -> exists m, m ∈ new /\ tells m peer i) ->
    forall h info', ts !! h = Some info' -> torrent_ok (delivered tr' ++ out_queue s ++ new) h info') as Hts.
  { intros new Hnew h info'. unfold ts. rewrite lookup_insert_Some. intros [[<- <-]|[_ Hh]]; [|by apply old_torrents].
    destruct (old_torrents new _ _ Hi) as [H1 H2 H4]. split; cbn [num_pieces peers status]; try done; [by apply peers_of_insert|].
    intros k q i Hk Hst. unfold peers_insert in Hk. destruct (peers info !! peer_key peer) eqn:Hold; [by apply (H4 k)|].
    apply lookup_insert_Some in Hk as [[_ <-]|[_ Hk]]; [|by apply (H4 k)]. destruct (Hnew i Hst) as (m & Hm & Ht). exists m. split; [|done]. rewrite !elem_of_app. tauto. }
  destruct (bitset_is_empty (status info)) eqn:He; cbn [negb].
  - intros [= <- <- <-]. split; [done|]. apply op_done_quiet. intros h info' Hh. rewrite <- (app_nil_r (out_queue s)). eapply Hts, Hh.
    intros i Hst. by rewrite (proj1 (bitset_is_empty_stored _) He) in Hst.
  - destruct (insert_reversed_bits _ _) as [out|e| |] eqn:Hins; [|intros [= <- <- <-]..]; [|by split; [|apply op_done_same]|done..].
    destruct (buf_split_bytes out) as [Hsb Hrest]. destruct (buf_split_off_0 out) as [bs rest]. cbn [fst snd] in *. intros [= <- <- <-]. split; [done|].
    apply insert_reversed_ok in Hins. rewrite (ho_bytes tr s Hs) in Hins. cbn [app] in Hins. rewrite <- Hsb in Hins. subst bs.
    split; cbn; [|done|done]. apply Hts. intros i Hst. eexists. split; [by apply list_elem_of_singleton|]. cbn. by rewrite reversed_has_piece.
Qed.
End op.

Lemma insert_piece_done pe tr s hash index w r s1 w1 : visits_all pe -> honest_ok tr s -> (0 <= index)%Z -> insert_piece pe hash index (s, w) = (r, (s1, w1)) ->
  w1 = w /\ op_done (tr ++ [(HSend (FoundGoodPiece hash index), None)]) s s1.
Proof.
  intros Hpe Hs Hidx. set (item := FoundGoodPiece hash index). set (tr' := tr ++ _). unfold insert_piece. hr_run.
  destruct (torrents s !! hash) as [info|] eqn:Hi; [|intros [= <- <- <-]; split; [done|by apply op_done_same]].
  destruct (Z.leb_spec (Z.of_nat (num_pieces info)) index) as [Hlt|Hlt]; [intros [= <- <- <-]; split; [done|by apply op_done_same]|].
  intros [= <- <- <-]. split; [done|]. set (new := have_messages pe (peers info) index).
  pose proof (old_torrents tr s item Hs new hash info Hi) as [H1 H2 H4].
  assert (forall m, m ∈ new <-> exists k q, peers info !! k = Some q /\ m = SendHave q (HaveMessage_new index)) as Hnew.
  { intros m. unfold new, have_messages. rewrite list_elem_of_fmap. rewrite as_unsigned_id by (unfold in_unsigned; lia). split.
    - intros (q & -> & (k & _ & Hk)%list_elem_of_omap). by exists k, q.
    - intros (k & q & Hk & ->). exists q. split; [done|]. apply list_elem_of_omap. exists k. split; [|done]. apply Hpe. eauto. }
  split; cbn; [|apply Hs|done]. intros h info'. rewrite lookup_insert_Some. intros [[<- <-]|[_ Hh]]; [|by apply old_torrents].
  split; cbn [num_pieces peers status]; try done. intros k q i Hk. rewrite bitset_insert_stored. destruct (bool_decide_reflect (i = Z.to_nat index)) as [->|]; [|by apply (H4 k)].
      intros _. exists (SendHave q (HaveMessage_new index)). split; [rewrite !elem_of_app; right; right; apply Hnew; eauto|]. split; [done|]. cbn. lia.
Qed.

Lemma hr_op_done pe tr s item w r s1 w1 : visits_all pe -> honest_ok tr s -> hr_fits (HSend item) -> hr_op pe item (s, w) = (r, (s1, w1)) -> returns r ->
  w1 = w /\ op_done (tr ++ [(HSend item, None)]) s s1.
Proof.
  intros Hpe Hs Hf He Hr. destruct item as [[]| | |]; cbn [hr_op hr_fits] in *.
  - by eapply add_torrent_done.
  - by eapply remove_torrent_done.
  - by eapply add_peer_done.
  - by eapply remove_peer_done.
  - injection He as <- <- <-. split; [done|by apply op_done_same].
  - by eapply insert_piece_done.
  - injection He as <- <- <-. split; [done|by apply op_done_same].
  - injection He as <- <- <-. split; [done|by apply op_done_same].
Qed.

Lemma hr_send_ok pe tr s item w r s' w' : visits_all pe -> honest_ok tr s -> hr_fits (HSend item) ->
  hr_start_send pe item (s, w) = (r, (s', w')) -> returns r -> honest_ok (tr ++ [(HSend item, None)]) s'.
Proof.
  intros Hpe Hs Hf He Hr. change (with_result (hr_op pe item) (fun result => hr_check_stream_unblock;; lift result) (s, w) = (r, (s', w'))) in He.
  unfold with_result in He. destruct (hr_op pe item (s, w)) as [r1 [s1 w1]] eqn:Hop.
  assert (returns r1) as Hr1 by (destruct r1; [done..|injection He as <- _ _; done|injection He as <- _ _; done]).
  destruct (hr_op_done pe tr s item w r1 s1 w1 Hpe Hs Hf Hop Hr1) as [-> [Ht Hb Hst]].
  assert (exists t, s' = hr_stream s1 t /\ (is_Some t -> out_queue s1 = [])) as (t & -> & Hstream).
  { revert He. unfold hr_check_stream_unblock. hr_run. destruct (bool_decide_reflect (out_queue s1 = [])) as [Hz|Hz]; cbn [negb].
    - intros He. exists (honest_stream s1). split; [|done]. destruct r1; try done; injection He as _ <- _; by destruct s1.
    - destruct (honest_stream s1) as [task|] eqn:Hs1; intros He; exists None; (split; [|by intros []]); destruct r1; try done; injection He as _ <- _; [done..| |];
        destruct s1; cbn in Hs1; by subst. }
  by split; cbn [hr_stream torrents out_queue out_bytes honest_stream].
Qed.

Lemma hr_runs_ok tr s : hr_runs tr s -> honest_ok tr s.
Proof.
  induction 1 as [|tr s c pe w r s' w' Hrun Hs Hpe Hf He Hr].
  - split; cbn; [intros h info; by rewrite lookup_empty|apply buf_new_bytes|by intros []].
  - destruct c as [item|]; cbn [hr_perform] in He; unfold mbind, stM_bind in He.
    + destruct (hr_start_send pe item (s, w)) as [r1 [s1 w1]] eqn:Hsend.
      assert (returns r1 /\ s1 = s' /\ match r with Ok o => o | _ => None end = None) as (Hr1 & -> & ->).
      { destruct r1; injection He as <- <- _; done. }
      by eapply hr_send_ok.
    + revert He. unfold hr_poll. hr_run. destruct (out_queue s) as [|m queue] eqn:Hq; intros [= <- <- <-].
      * split; cbn; [|apply Hs|done]. rewrite delivered_snoc, app_nil_r. intros h info Hh. by eapply torrent_ok_mono, (ho_torrents tr s Hs), Hh.
      * assert (delivered (tr ++ [(HPoll, Some m)]) ++ queue = delivered tr ++ out_queue s) as Hd by (by rewrite delivered_snoc, <- app_assoc, Hq).
        split; cbn [torrents out_queue out_bytes honest_stream]; rewrite ?Hd; [|apply Hs|].
        -- intros h info Hh. by eapply torrent_ok_mono, (ho_torrents tr s Hs), Hh.
        -- intros Ht. apply (ho_stream tr s Hs) in Ht. congruence.
Qed.

(** ** What each peer is told

    The pieces and the peers of each torrent, and the messages for each peer, read
    off the calls alone. *)
Abbreviation spec_torrents := (gmap ShaHash (nat * gset nat * gset PeerKey)).

Definition reveal_step (m : spec_torrents) (c : hr_call) : spec_torrents :=
  match c with
  | HSend (RControl (AddTorrent metainfo)) =>
      let h := info_hash (mi_info metainfo) in
      match m !! h with Some _ => m | None => <[h := (length (pieces (mi_info metainfo)), ∅, ∅)]> m end
  | HSend (RControl (RemoveTorrent metainfo)) => delete (info_hash (mi_info metainfo)) m
  | HSend (RControl (PeerConnected p)) => match m !! peer_hash p with Some (n, found, ps) => <[peer_hash p := (n, found, {[peer_key p]} ∪ ps)]> m | None => m end
  | HSend (RControl (PeerDisconnected p)) => match m !! peer_hash p with Some (n, found, ps) => <[peer_hash p := (n, found, ps ∖ {[peer_key p]})]> m | None => m end
  | HSend (FoundGoodPiece h index) =>
      match m !! h with
      | Some (n, found, ps) => if (index <? Z.of_nat n)%Z then <[h := (n, {[Z.to_nat index]} ∪ found, ps)]> m else m
      | None => m
      end
  | _ => m
  end.

(** A peer is told a set of pieces, or one. *)
Inductive told : Type := ToldField (found : gset nat) | ToldHave (piece : nat).

(** What a call makes us tell the peer [k]: the pieces we have when it connects, if
    any, and each piece that is found while it is connected, found before or not. *)
Definition reveal_tells (m : spec_torrents) (c : hr_call) (k : PeerKey) : list told :=
  match c with
  | HSend (RControl (PeerConnected p)) =>
      match m !! peer_hash p with Some (_, found, _) => if decide (peer_key p = k /\ found <> ∅) then [ToldField found] else [] | None => [] end
  | HSend (FoundGoodPiece h index) =>
      match m !! h with
      | Some (n, _, ps) => if (index <? Z.of_nat n)%Z && bool_decide (k ∈ ps) then [ToldHave (Z.to_nat index)] else []
      | None => []
      end
  | _ => []
  end.

Fixpoint tells_from (m : spec_torrents) (cs : list hr_call) (k : PeerKey) : list told :=
  match cs with
  | [] => []
  | c :: cs => reveal_tells m c k ++ tells_from (reveal_step m c) cs k
  end.

Definition revealed (tr : list (hr_call * option ORevealMessage)) : spec_torrents := foldl reveal_step ∅ tr.*1.
Definition told_to (k : PeerKey) (tr : list (hr_call * option ORevealMessage)) : list told := tells_from ∅ tr.*1 k.

Lemma tells_from_snoc cs c k : forall m, tells_from m (cs ++ [c]) k = tells_from m cs k ++ reveal_tells (foldl reveal_step m cs) c k.
Proof. induction cs as [|c' cs IH]; intros m; cbn; [by rewrite app_nil_r|]. by rewrite IH, app_assoc. Qed.

Lemma revealed_snoc tr c o : revealed (tr ++ [(c, o)]) = reveal_step (revealed tr) c.
Proof. unfold revealed. by rewrite fmap_app, foldl_app. Qed.

Lemma told_to_snoc k tr c o : told_to k (tr ++ [(c, o)]) = told_to k tr ++ reveal_tells (revealed tr) c k.
Proof. unfold told_to, revealed. rewrite fmap_app. apply tells_from_snoc. Qed.

(** The messages for a peer, and a message that says what is to be told. *)
Definition message_peer (m : ORevealMessage) : PeerInfo := match m with SendBitField q _ | SendHave q _ => q end.
Definition for_peer (k : PeerKey) (msgs : list ORevealMessage) : list ORevealMessage := filter (fun m => peer_key (message_peer m) = k) msgs.
Definition expresses (m : ORevealMessage) (t : told) : Prop :=
  match m, t with
  | SendBitField _ msg, ToldField found => forall i, has_piece (bitfield msg) i = true <-> i ∈ found
  | SendHave _ msg, ToldHave piece => have_piece_index msg = Z.of_nat piece
  | _, _ => False
  end.

Definition refines_reveal (s : HonestRevealModule FU B M) (m : spec_torrents) : Prop :=
  forall h, match torrents s !! h, m !! h with
            | Some info, Some (n, found, ps) =>
                num_pieces info = n /\ (forall i, stored (bitset_storage (status info)) i = true <-> i ∈ found) /\ dom (peers info) = ps
            | None, None => True
            | _, _ => False
            end.

(** Replacing the entry of one torrent on both sides. *)
Lemma refines_insert s m h info n found ps q b st : refines_reveal s m -> num_pieces info = n ->
  (forall i, stored (bitset_storage (status info)) i = true <-> i ∈ found) -> dom (peers info) = ps ->
  refines_reveal (mk_HonestRevealModule FU B M (<[h := info]> (torrents s)) q b st) (<[h := (n, found, ps)]> m).
Proof.
  intros Hr Hn Hf Hp k. cbn [torrents]. destruct (decide (k = h)) as [->|]; [by rewrite !lookup_insert_eq|]. rewrite !lookup_insert_ne by done. apply Hr.
Qed.

Lemma dom_peers_insert (p : PeerInfo) (ps : PeerSet) : dom (peers_insert p ps) = {[peer_key p]} ∪ dom ps.
Proof.
  unfold peers_insert. destruct (ps !! peer_key p) as [q|] eqn:Hq; [|apply dom_insert_L]. apply elem_of_dom_2 in Hq. set_solver.
Qed.

(** The have messages for one of the peers. *)
Lemma have_messages_for (pe : PeerSet -> list PeerKey) (ps : PeerSet) (index : Z) (h : ShaHash) (k : PeerKey) : visits_all pe -> peers_of h ps ->
  for_peer k (have_messages pe ps index) = match ps !! k with Some q => [SendHave q (HaveMessage_new (as_unsigned 32 index))] | None => [] end.
Proof.
  intros Hpe Hps. unfold have_messages. destruct (Hpe ps) as [Hnd Hin]. 
  assert (forall l, NoDup l -> for_peer k ((fun peer => SendHave peer (HaveMessage_new (as_unsigned 32 index))) <$> omap (fun key => ps !! key) l) =
    if decide (k ∈ l) then match ps !! k with Some q => [SendHave q (HaveMessage_new (as_unsigned 32 index))] | None => [] end else []) as Hl.
  { induction l as [|key l IH]; [done|]. intros [Hn Hd]%NoDup_cons. specialize (IH Hd). cbn [omap list_omap]. destruct (ps !! key) as [q|] eqn:Hq.
    - destruct (Hps _ _ Hq) as [Hkey _]. unfold for_peer in *. cbn [fmap list_fmap]. rewrite filter_cons. cbn [message_peer]. rewrite <- Hkey.
      destruct (decide (key = k)) as [->|Hne].
      + rewrite IH. rewrite decide_False by done. rewrite decide_True by apply list_elem_of_here. by rewrite Hq.
      + rewrite IH. destruct (decide (k ∈ l)); [by rewrite decide_True by (by apply list_elem_of_further)|]. rewrite decide_False; [done|]. rewrite elem_of_cons. intros [?|?]; [by destruct Hne|done].
    - rewrite IH. destruct (decide (k ∈ l)); [by rewrite decide_True by (by apply list_elem_of_further)|]. destruct (decide (k ∈ key :: l)) as [[->|?]%elem_of_cons|]; [by rewrite Hq|done|done]. }
  rewrite (Hl _ Hnd). destruct (decide (k ∈ pe ps)) as [|Hk]; [done|]. destruct (ps !! k) eqn:Hpk; [|done]. destruct Hk. apply Hin. eauto.
Qed.
(** What a message to the module does, and what it says to each peer. *)
Definition op_says (m : spec_torrents) (c : hr_call) (s s1 : HonestRevealModule FU B M) : Prop :=
  refines_reveal s1 (reveal_step m c) /\
  exists new, out_queue s1 = out_queue s ++ new /\ forall k, Forall2 expresses (for_peer k new) (reveal_tells m c k).

Lemma op_says_quiet m c s s1 : refines_reveal s1 (reveal_step m c) -> out_queue s1 = out_queue s -> (forall k, reveal_tells m c k = []) -> op_says m c s s1.
Proof. intros Hr Hq Ht. split; [done|]. exists []. rewrite app_nil_r. split; [done|]. intros k. by rewrite Ht. Qed.

Lemma add_peer_says tr s m p w r s1 w1 : honest_ok tr s -> refines_reveal s m -> hr_add_peer p (s, w) = (r, (s1, w1)) -> returns r -> op_says m (HSend (RControl (PeerConnected p))) s s1.
Proof.
  intros Hs Hr. unfold hr_add_peer. hr_run. specialize (Hr (peer_hash p)) as Hh. destruct (torrents s !! peer_hash p) as [info|] eqn:Hi.
  2: { destruct (m !! peer_hash p) eqn:Hm; [done|]. intros [= _ <- _] _. apply op_says_quiet; cbn; try done; rewrite Hm; done. }
  destruct (m !! peer_hash p) as [[[n found] ps]|] eqn:Hm; [|done]. destruct Hh as (Hn & Hst & Hps).
  assert (forall q b st, refines_reveal (mk_HonestRevealModule FU B M (<[peer_hash p := mk_PeersInfo B (num_pieces info) (status info) (peers_insert p (peers info))]> (torrents s)) q b st)
    (reveal_step m (HSend (RControl (PeerConnected p))))) as Hr1.
  { intros q b st. cbn [reveal_step]. rewrite Hm. apply refines_insert; try done. cbn [peers]. by rewrite dom_peers_insert, Hps. }
  destruct (bitset_is_empty (status info)) eqn:He; cbn [negb].
  - intros [= _ <- _] _. apply op_says_quiet; [apply Hr1|done|]. intros k. cbn [reveal_tells]. rewrite Hm, decide_False; [done|]. intros [_ Hne]. apply Hne.
    apply set_eq. intros i. rewrite <- Hst, (proj1 (bitset_is_empty_stored _) He). set_solver.
  - cbn [hr_torrents torrents out_queue out_bytes honest_stream].
    destruct (insert_reversed_bits _ _) as [out|e| |] eqn:Hins; [|by destruct (insert_reversed_no_error _ _ _ Hins)|intros [= <- _ _]; done..].
    destruct (buf_split_bytes out) as [Hsb _]. destruct (buf_split_off_0 out) as [bs rest]. cbn [fst snd] in *. intros [= _ <- _] _.
    apply insert_reversed_ok in Hins. rewrite (ho_bytes tr s Hs) in Hins. cbn [app] in Hins. rewrite <- Hsb in Hins. subst bs. split; [apply Hr1|]. eexists. split; [done|].
    intros k. cbn [reveal_tells]. rewrite Hm. unfold for_peer. rewrite filter_cons. cbn [message_peer].
    assert (found <> ∅) as Hne.
    { intros ->. apply not_true_iff_false in He. apply He, bitset_is_empty_stored. intros i. apply not_true_iff_false. rewrite Hst. set_solver. }
    destruct (decide (peer_key p = k)) as [->|Hk]; [rewrite decide_True by done|rewrite decide_False by tauto; constructor].
    constructor; [|constructor]. intros i. cbn [bitfield]. rewrite reversed_has_piece. apply Hst.
Qed.

Lemma insert_piece_says pe tr s m h index w r s1 w1 : visits_all pe -> honest_ok tr s -> refines_reveal s m -> (0 <= index)%Z -> insert_piece pe h index (s, w) = (r, (s1, w1)) ->
  op_says m (HSend (FoundGoodPiece h index)) s s1.
Proof.
  intros Hpe Hs Hr Hidx. unfold insert_piece. hr_run. specialize (Hr h) as Hh. destruct (torrents s !! h) as [info|] eqn:Hi.
  2: { destruct (m !! h) eqn:Hm; [done|]. intros [= _ <- _]. apply op_says_quiet; cbn; rewrite ?Hm; done. }
  destruct (m !! h) as [[[n found] ps]|] eqn:Hm; [|done]. destruct Hh as (<- & Hst & Hps).
  destruct (Z.leb_spec (Z.of_nat (num_pieces info)) index) as [Hlt|Hlt]; intros [= _ <- _].
  { apply op_says_quiet; cbn; rewrite ?Hm; [by rewrite (proj2 (Z.ltb_ge _ _))|done|by rewrite (proj2 (Z.ltb_ge _ _))]. }
  destruct (ho_torrents tr s Hs _ _ Hi) as [Hcount Hpeers _]. split.
  - cbn [reveal_step]. rewrite Hm, (proj2 (Z.ltb_lt _ _)) by done. apply refines_insert; try done. intros i. cbn [status].
    rewrite bitset_insert_stored, orb_true_iff, bool_decide_eq_true, Hst. set_solver.
  - eexists. split; [done|]. intros k. cbn [reveal_tells]. rewrite Hm, (proj2 (Z.ltb_lt _ _)) by done. cbn [andb]. rewrite (have_messages_for pe _ _ h) by done.
    rewrite as_unsigned_id by (unfold in_unsigned; lia). destruct (peers info !! k) as [q|] eqn:Hq.
    + rewrite bool_decide_true by (rewrite <- Hps; by apply elem_of_dom_2 in Hq). repeat constructor. cbn. lia.
    + rewrite bool_decide_false by (rewrite <- Hps; by apply not_elem_of_dom). constructor.
Qed.

Lemma hr_op_says pe tr s m item w r s1 w1 : visits_all pe -> honest_ok tr s -> refines_reveal s m -> hr_fits (HSend item) -> hr_op pe item (s, w) = (r, (s1, w1)) -> returns r ->
  op_says m (HSend item) s s1.
Proof.
  intros Hpe Hs Hr Hf He Hret. destruct item as [[metainfo|metainfo|p|p|d]|h index|i b|i b]; cbn [hr_op hr_fits] in *;
    [| |by eapply add_peer_says| | |by eapply insert_piece_says|..]; try (injection He as _ <- _; by apply op_says_quiet).
  - revert He. unfold hr_add_torrent. hr_run. specialize (Hr (info_hash (mi_info metainfo))) as Hh.
    destruct (torrents s !! info_hash (mi_info metainfo)), (m !! info_hash (mi_info metainfo)) as [[[]]|] eqn:Hm; try done; intros [= _ <- _]; apply op_says_quiet; cbn; rewrite ?Hm; try done.
    apply refines_insert; try done. intros i. cbn [status]. rewrite bitset_reserve_stored, bitset_default_stored. set_solver.
  - revert He. unfold hr_remove_torrent. hr_run. specialize (Hr (info_hash (mi_info metainfo))) as Hh. destruct (torrents s !! _) as [info|] eqn:Hi; intros [= _ <- _]; apply op_says_quiet; try done; cbn [reveal_step].
    + intros k. cbn [hr_torrents torrents]. destruct (decide (k = info_hash (mi_info metainfo))) as [->|]; [by rewrite !lookup_delete_eq|]. rewrite !lookup_delete_ne by done. apply Hr.
    + rewrite delete_id; [done|]. by destruct (m !! _).
  - revert He. unfold hr_remove_peer. hr_run. specialize (Hr (peer_hash p)) as Hh. destruct (torrents s !! peer_hash p) as [info|] eqn:Hi; destruct (m !! peer_hash p) as [[[n found] ps]|] eqn:Hm; try done;
      intros [= _ <- _]; apply op_says_quiet; cbn [reveal_step]; rewrite ?Hm; try done.
    destruct Hh as (Hn & Hst & Hps). apply refines_insert; try done. cbn [peers]. unfold peers_remove. by rewrite dom_delete_L, Hps.
Qed.

Lemma check_torrents s w : exists s' w', hr_check_stream_unblock (s, w) = (Ok (), (s', w')) /\ torrents s' = torrents s /\ out_queue s' = out_queue s.
Proof.
  unfold hr_check_stream_unblock. hr_run. destruct (bool_decide (out_queue s = [])); cbn [negb]; [by eexists _, _|].
  destruct (honest_stream s); by eexists _, _.
Qed.

(** What has been given or waits to be given to a peer is what it is to be told. *)
Definition all_told (tr : list (hr_call * option ORevealMessage)) (s : HonestRevealModule FU B M) : Prop :=
  forall k, Forall2 expresses (for_peer k (delivered tr ++ out_queue s)) (told_to k tr).

Lemma hr_runs_refine tr s : hr_runs tr s -> refines_reveal s (revealed tr) /\ all_told tr s.
Proof.
  induction 1 as [|tr s c pe w r s' w' Hrun [IHr IHt] Hpe Hf He Hr].
  - split; [intros h; cbn; by rewrite !lookup_empty|intros k; constructor].
  - rewrite revealed_snoc. destruct c as [item|]; cbn [hr_perform] in He; unfold mbind, stM_bind in He.
    + change (hr_start_send pe item) with (with_result (hr_op pe item) (fun result => hr_check_stream_unblock;; lift result)) in He. unfold with_result in He.
      destruct (hr_op pe item (s, w)) as [r1 [s1 w1]] eqn:Hop.
      assert (returns r1 /\ torrents s' = torrents s1 /\ out_queue s' = out_queue s1 /\ match r with Ok o => o | _ => None end = None) as (Hr1 & Ht & Hq & ->).
      { destruct (check_torrents s1 w1) as (s2 & w2 & Hc & Ht2 & Hq2). unfold mbind, stM_bind in He. destruct r1; try rewrite Hc in He; injection He as <- <- _; done. }
      destruct (hr_op_says pe tr s _ item w r1 s1 w1 Hpe (hr_runs_ok tr s Hrun) IHr Hf Hop Hr1) as [Hs1 (new & Hnew & Hsay)]. split; [intros h; rewrite Ht; apply Hs1|].
      intros k. rewrite told_to_snoc, delivered_snoc, app_nil_r, Hq, Hnew, app_assoc. unfold for_peer. rewrite filter_app. apply Forall2_app; [apply IHt|apply Hsay].
    + revert He. unfold hr_poll. hr_run. destruct (out_queue s) as [|x queue] eqn:Hq; intros [= <- <- <-]; (split; [exact IHr|]); intros k; specialize (IHt k);
        rewrite told_to_snoc, delivered_snoc; cbn [reveal_tells hr_stream out_queue]; rewrite Hq in IHt.
      * rewrite !app_nil_r in *. rewrite Hq, ?app_nil_r. exact IHt.
      * rewrite app_nil_r, <- app_assoc. exact IHt.
Qed.

(** C19. Revelation is exact.  The pieces and the peers of each torrent are the ones
    the calls say: a piece counts when the torrent is known and the index in
    range.  The messages for a peer, given or waiting to be given, are in order
    exactly what it is to be told: at each connection to a torrent with pieces a
    field that holds the pieces found so far and no others, and while it is
    connected one have message for each call that reports a good piece, also
    for a piece that was reported before.  So a connected peer has been told of
    every piece, and while a task waits on the stream there is nothing to give. *)
Theorem revelation_honest tr s : hr_runs tr s ->
  refines_reveal s (revealed tr) /\
  (forall k, Forall2 expresses (for_peer k (delivered tr ++ out_queue s)) (told_to k tr)) /\
  (forall h info n found ps k p i, torrents s !! h = Some info -> revealed tr !! h = Some (n, found, ps) -> peers info !! k = Some p -> i ∈ found ->
     exists m, m ∈ delivered tr ++ out_queue s /\ tells m p i) /\
  (is_Some (honest_stream s) -> out_queue s = []).
Proof.
  intros Hrun. destruct (hr_runs_refine tr s Hrun) as [Hr Ht]. apply hr_runs_ok in Hrun as [H2 _ H4]. split_and!; try done.
  intros h info n found ps k p i Hh Hf Hk Hi. specialize (Hr h). rewrite Hh, Hf in Hr. destruct Hr as (_ & Hst & _). apply Hst in Hi. by eapply (H2 _ _ Hh).
Qed.
End proofs.

(** ** Instances of the two crates *)

(** Blocks that grow to hold what is inserted. *)
Definition block_or (n : nat) (x : byte) : byte := as_u8 (Z.lor (byte_val x) (Z.shiftl 1 (Z.of_nat (n mod 8)))).
Definition BitSet_blocks : BitSetOps := {|
  bitset := bytes;
  bitset_default := [];
  bitset_reserve_len_exact _ b := b;
  bitset_insert n b := alter (block_or n) (n / 8) (b ++ replicate (S (n / 8) - length b) x00);
  bitset_is_empty b := forallb (fun x => bool_decide (x = x00)) b;
  bitset_storage b := b;
|}.

Lemma block_or_testbit n x j : j < 8 -> Z.testbit (byte_val (block_or n x)) (Z.of_nat j) = bool_decide (j = n mod 8) || Z.testbit (byte_val x) (Z.of_nat j).
Proof.
  intros Hj. unfold block_or. pose proof (Nat.mod_upper_bound n 8 ltac:(lia)) as Hn. generalize dependent (n mod 8). intros k Hk.
  do 8 (destruct k as [|k]; [do 8 (destruct j as [|j]; [destruct x; reflexivity|]); lia|]). lia.
Qed.

Lemma stored_zero_blocks b k i : stored (b ++ replicate k x00) i = stored b i.
Proof.
  unfold stored. destruct (decide (i / 8 < length b)) as [Hl|Hl]; [by rewrite lookup_app_l|]. rewrite lookup_app_r, (lookup_ge_None_2 b) by lia.
  destruct (replicate k x00 !! _) as [x|] eqn:Hx; [|done]. apply lookup_replicate in Hx as [-> _]. apply Z.testbit_0_l.
Qed.

Lemma BitSet_blocks_laws : @BitSetLaws BitSet_blocks.
Proof.
  split; cbn [bitset bitset_storage bitset_default bitset_reserve_len_exact bitset_insert bitset_is_empty BitSet_blocks]; try done.
  - intros n b i. rewrite <- (stored_zero_blocks b (S (n / 8) - length b) i). set (b' := b ++ _).
    assert (n / 8 < length b') as Hl by (unfold b'; rewrite length_app, length_replicate; lia). unfold stored.
    destruct (decide (i / 8 = n / 8)) as [He|He].
    + rewrite He, list_lookup_alter_eq. destruct (lookup_lt_is_Some_2 _ _ Hl) as [x ->]. cbn [fmap option_fmap option_map]. rewrite block_or_testbit by (apply Nat.mod_upper_bound; lia).
      f_equal. apply bool_decide_ext. split; [|by intros ->]. intros Hm. rewrite (Nat.div_mod_eq i 8), (Nat.div_mod_eq n 8). lia.
    + rewrite list_lookup_alter_ne by done. rewrite bool_decide_false by congruence. done.
  - intros b. rewrite forallb_forall. split.
    + intros Hz i. unfold stored. destruct (b !! (i / 8)) as [x|] eqn:Hx; [|done]. apply list_elem_of_lookup_2, list_elem_of_In, Hz, bool_decide_eq_true in Hx as ->. apply Z.testbit_0_l.
    + intros Hz x Hx. apply list_elem_of_In, list_elem_of_lookup in Hx as [i Hi]. apply bool_decide_eq_true.
      assert (forall j, j < 8 -> Z.testbit (byte_val x) (Z.of_nat j) = false) as Hb.
      { intros j Hj. specialize (Hz (i * 8 + j)). unfold stored in Hz.
        replace ((i * 8 + j) / 8) with i in Hz by (rewrite Nat.div_add_l, Nat.div_small by lia; lia).
        replace ((i * 8 + j) mod 8) with j in Hz by (rewrite Nat.add_comm, Nat.Div0.mod_add, Nat.mod_small; lia). by rewrite Hi in Hz. }
      pose proof (Hb 0 ltac:(lia)). pose proof (Hb 1 ltac:(lia)). pose proof (Hb 2 ltac:(lia)). pose proof (Hb 3 ltac:(lia)).
      pose proof (Hb 4 ltac:(lia)). pose proof (Hb 5 ltac:(lia)). pose proof (Hb 6 ltac:(lia)). pose proof (Hb 7 ltac:(lia)). clear -H H0 H1 H2 H3 H4 H5 H6.
      destruct x; done.
Qed.

(** A buffer with room for [n] bytes. *)
Definition BytesMut_room (n : nat) : BytesMutOps := {|
  buf := bytes;
  buf_new := [];
  buf_bytes b := b;
  buf_put_u8 x b := if decide (length b < n) then Some (b ++ [x]) else None;
  buf_split_off_0 b := (b, []);
|}.

Lemma BytesMut_room_laws n : @BytesMutLaws (BytesMut_room n).
Proof. split; cbn; try done. intros x b b'. case_decide; [|done]. by intros [= <-]. Qed.

(** ** A run *)

Section play.
Context {FU : Futures} {B : BitSetOps} {M : BytesMutOps} (w : fworld) (pe : PeerSet -> list PeerKey).

(** The calls of a list, one after the other, and whether all of them return. *)
Fixpoint hr_play (cs : list hr_call) (tr : list (hr_call * option ORevealMessage)) (s : HonestRevealModule FU B M) :
    list (hr_call * option ORevealMessage) * HonestRevealModule FU B M :=
  match cs with
  | [] => (tr, s)
  | c :: cs => let m := hr_perform pe c (s, w) in hr_play cs (tr ++ [(c, match m.1 with Ok o => o | _ => None end)]) m.2.1
  end.
Fixpoint hr_return (cs : list hr_call) (s : HonestRevealModule FU B M) : bool :=
  match cs with
  | [] => true
  | c :: cs => let m := hr_perform pe c (s, w) in match m.1 with Ok _ | Err _ => hr_return cs m.2.1 | _ => false end
  end.

Lemma hr_play_runs cs : visits_all pe -> Forall hr_fits cs -> forall tr s, hr_return cs s = true -> hr_runs tr s -> hr_runs (hr_play cs tr s).1 (hr_play cs tr s).2.
Proof.
  intros Hpe. induction 1 as [|c cs Hc _ IH]; intros tr s Hret Hr; [done|]. cbn [hr_play hr_return] in *.
  destruct (hr_perform pe c (s, w)) as [r [s' w']] eqn:Hp. cbn [fst snd] in *. apply IH; [by destruct r|]. eapply hr_runs_call; try done. by destruct r.
Qed.
End play.

#[local] Existing Instance Futures_log.
#[local] Existing Instance BitSet_blocks.
#[local] Existing Instance BitSet_blocks_laws.

Definition torrent_of (n : nat) : Metainfo :=
  mk_Metainfo None None None None None None (mk_Info (mk_ShaHash (replicate 20 x61)) [] (replicate n (replicate 20 x00)) 1 None None).
Definition reveal_peer : PeerInfo :=
  PeerInfo_new (SockV4 (mk_SocketAddrV4 (mk_Ipv4Addr x01 x02 x03 x04) 6881)) (mk_ShaHash (replicate 20 x62)) (mk_ShaHash (replicate 20 x61)) (HsMessage.Extensions_new).

(** A piece is found, a peer connects, another piece is found, and a message is taken. *)
Definition reveal_calls (n : nat) (first second : Z) : list hr_call :=
  [HSend (RControl (AddTorrent (torrent_of n))); HSend (FoundGoodPiece (mk_ShaHash (replicate 20 x61)) first); HPoll;
   HSend (RControl (PeerConnected reveal_peer)); HSend (FoundGoodPiece (mk_ShaHash (replicate 20 x61)) second); HPoll].

Lemma revelation_honest_witness :
  let M := BytesMut_room 31 in
  let run := hr_play (M := M) (0, []) map_keys (reveal_calls 16 0 9) [] HonestRevealModule_new in
  delivered run.1 = [SendBitField reveal_peer (BitFieldMessage_new [x80])] /\ out_queue run.2 = [SendHave reveal_peer (HaveMessage_new 9)] /\
  told_to (peer_key reveal_peer) run.1 = [ToldField {[0]}; ToldHave 9] /\
  Forall2 expresses (for_peer (peer_key reveal_peer) (delivered run.1 ++ out_queue run.2)) (told_to (peer_key reveal_peer) run.1).
Proof.
  intros M run. split; [vm_compute; reflexivity|]. split; [vm_compute; reflexivity|]. split; [vm_compute; reflexivity|].
  refine (proj1 (proj2 (revelation_honest (ML := BytesMut_room_laws 31) run.1 run.2 _)) (peer_key reveal_peer)). apply hr_play_runs.
  - apply map_keys_visits_all.
  - unfold reveal_calls. rewrite !Forall_cons. split_and!; try exact I; try (cbn; lia). apply Forall_nil_2.
  - vm_compute. reflexivity.
  - constructor.
Defined.

(** Nothing makes room in the buffer: a field that is longer than the room it
    came with ends the module. *)
Example long_field_panics :
  let M := BytesMut_room 31 in hr_return (M := M) (0, []) map_keys (reveal_calls 256 255 0) HonestRevealModule_new = false.
Proof. vm_compute. reflexivity. Qed.
