(* ===== verification/SelUber.v ===== *)
(** * [bip_select]: the extended module and the module of modules

    [extended/mod.rs] keeps what both sides said in the extended handshake, and
    [uber.rs] hands messages to a list of discovery modules.  A discovery module
    is a type with the methods of the traits [ExtendedListener], [Sink] and
    [Stream]; the list holds boxes of such objects, here values of one type, which
    may be a sum.  The orders in which the maps of a builder are walked are
    arguments. *)

From stdpp Require Import prelude list gmap strings.
From Stdlib Require Import ZArith Lia Strings.Byte.
From S2P Require Import Prelude Bytes Bencode Convert Sha PeerExtended SelBase SelMetadata.

(** ** Discovery modules *)

(** [on_update] returns nothing; the error of its type is not used. *)
Class DiscoveryModule {FU : Futures} (D : Type) : Type := {
  dm_extend : D -> PeerInfo -> ExtendedMessageBuilder -> ExtendedMessageBuilder;
  dm_on_update : PeerInfo -> ExtendedPeerInfo -> stM (D * fworld) DiscoveryErrorKind ();
  dm_start_send : IDiscoveryMessage -> stM (D * fworld) DiscoveryErrorKind (AsyncSink IDiscoveryMessage);
  dm_poll_complete : stM (D * fworld) DiscoveryErrorKind (Async ());
  dm_poll : stM (D * fworld) DiscoveryErrorKind (Async (option ODiscoveryMessage));
}.

(** The metadata module is one. *)
Definition UtMetadata_discovery {FU : Futures} `{Sha1} (pending_order : gmap ShaHash (option PendingInfo) -> list ShaHash) (peer_order : PeerSet -> list PeerKey) :
    DiscoveryModule (UtMetadataModule FU) := {|
  dm_extend _ info builder := extend info builder;
  dm_on_update info extended := on_update pending_order info extended;
  dm_start_send item := start_send pending_order item;
  dm_poll_complete := poll_complete;
  dm_poll := poll pending_order peer_order;
|}.

(** ** The extended module *)

Record ExtendedModule {FU : Futures} : Type := mk_ExtendedModule {
  em_builder : ExtendedMessageBuilder;
  em_peers : gmap PeerKey ExtendedPeerInfo;
  em_queue : list OExtendedMessage;
  em_task : option Task;
}.
#[global] Arguments ExtendedModule FU : clear implicits.

Definition ExtendedModule_new {FU : Futures} (builder : ExtendedMessageBuilder) : ExtendedModule FU := mk_ExtendedModule FU builder ∅ [] None.

Section modules.
Context {FU : Futures} {D : Type} {DM : DiscoveryModule D}.
Context (id_order : gmap ExtendedType byte -> list (ExtendedType * byte)) (custom_order : gmap bytes BencodeMut -> list (bytes * BencodeMut)).

(** [for d_module in d_modules { d_module.on_update(..) }] *)
Fixpoint update_all (info : PeerInfo) (extended : ExtendedPeerInfo) (d_modules : list D) (w : fworld) : outcome DiscoveryErrorKind (list D) * fworld :=
  match d_modules with
  | [] => (Ok [], w)
  | d :: d_modules =>
      match dm_on_update info extended (d, w) with
      | (Ok _, (d, w)) => let '(r, w) := update_all info extended d_modules w in (ds ← r; Ok (d :: ds), w)
      | (Err e, (_, w)) => (Err e, w)
      | (Panic, (_, w)) => (Panic, w)
      | (NoFuel, (_, w)) => (NoFuel, w)
      end
  end.

(** The module and the discovery modules it was lent. *)
Definition emM (A : Type) : Type := stM (ExtendedModule FU * list D * fworld) DiscoveryErrorKind A.

Definition em_update_all (info : PeerInfo) (extended : ExtendedPeerInfo) : emM () :=
  fun '(self, ds, w) =>
    match update_all info extended ds w with
    | (Ok ds, w) => (Ok (), (self, ds, w))
    | (Err e, w) => (Err e, (self, ds, w))
    | (Panic, w) => (Panic, (self, ds, w))
    | (NoFuel, w) => (NoFuel, (self, ds, w))
    end.
Definition em_get : emM (ExtendedModule FU) := fun s => (Ok s.1.1, s).
Definition em_modules : emM (list D) := fun s => (Ok s.1.2, s).
Definition em_set (m : ExtendedModule FU) : emM () := fun '(_, ds, w) => (Ok (), (m, ds, w)).
Definition em_notify (t : Task) : emM () := fun '(m, ds, w) => (Ok (), (m, ds, notify t w)).

Definition em_check_stream_unblock : emM () :=
  self ← em_get;
  if negb (bool_decide (em_queue self = [])) then
    match em_task self with
    | Some task => em_set (mk_ExtendedModule FU (em_builder self) (em_peers self) (em_queue self) None);; em_notify task
    | None => mret ()
    end
  else mret ().

Definition process_message (message : IExtendedMessage) : emM () :=
  (match message with
   | EControl (PeerConnected info) =>
       self ← em_get;
       d_modules ← em_modules;
       let builder := foldl (fun builder d => dm_extend d info builder) (em_builder self) d_modules in
       let ext_message := ExtendedMessageBuilder_build id_order custom_order builder in
       let ext_peer_info := ExtendedPeerInfo_new (Some ext_message) None in
       em_update_all info ext_peer_info;;
       em_set (mk_ExtendedModule FU (em_builder self) (<[peer_key info := ext_peer_info]> (em_peers self))
                 (em_queue self ++ [SendExtendedMessage info ext_message]) (em_task self))
   | EControl (PeerDisconnected info) =>
       self ← em_get;
       em_set (mk_ExtendedModule FU (em_builder self) (delete (peer_key info) (em_peers self)) (em_queue self) (em_task self))
   | RecievedExtendedMessage info ext_message =>
       self ← em_get;
       ext_peer_info ← lift (unwrap (em_peers self !! peer_key info));
       let ext_peer_info := update_theirs ext_peer_info ext_message in
       em_set (mk_ExtendedModule FU (em_builder self) (<[peer_key info := ext_peer_info]> (em_peers self)) (em_queue self) (em_task self));;
       em_update_all info ext_peer_info
   | _ => mret ()
   end);;
  em_check_stream_unblock.

Definition em_poll (self : ExtendedModule FU) (w : fworld) : Async (option OExtendedMessage) * ExtendedModule FU :=
  match em_queue self with
  | message :: queue => (Ready (Some message), mk_ExtendedModule FU (em_builder self) (em_peers self) queue (em_task self))
  | [] => (NotReady, mk_ExtendedModule FU (em_builder self) (em_peers self) [] (Some (current w)))
  end.


(** ** The module of modules *)

Inductive IUberMessage : Type :=
| UControl (control : ControlMessage)
| UExtended (extended : IExtendedMessage)
| UDiscovery (discovery : IDiscoveryMessage).

Inductive OUberMessage : Type :=
| OExtended (extended : OExtendedMessage)
| ODiscovery (discovery : ODiscoveryMessage).

Inductive UberErrorKind : Type := DiscoveryError (kind : DiscoveryErrorKind).

Inductive ModuleState : Type := MsExtended | MsDiscovery (index : nat).

Record UberModuleBuilder : Type := mk_UberModuleBuilder { ub_discovery : list D; ub_ext_builder : option ExtendedMessageBuilder }.
Definition UberModuleBuilder_new : UberModuleBuilder := mk_UberModuleBuilder [] None.
Definition with_extended_builder (self : UberModuleBuilder) (builder : option ExtendedMessageBuilder) : UberModuleBuilder := mk_UberModuleBuilder (ub_discovery self) builder.
Definition with_discovery_module (self : UberModuleBuilder) (module : D) : UberModuleBuilder := mk_UberModuleBuilder (ub_discovery self ++ [module]) (ub_ext_builder self).

Record UberModule : Type := mk_UberModule {
  discovery : list D;
  extended : option (ExtendedModule FU);
  last_sink_state : option ModuleState;
  last_stream_state : option ModuleState;
}.

Definition from_builder (builder : UberModuleBuilder) : UberModule :=
  mk_UberModule (ub_discovery builder) (ExtendedModule_new <$> ub_ext_builder builder) None None.

Definition next_state (self : UberModule) (state : option ModuleState) : option ModuleState :=
  let first_discovery := if negb (bool_decide (discovery self = [])) then Some (MsDiscovery 0) else None in
  match state with
  | None => match extended self with Some _ => Some MsExtended | None => first_discovery end
  | Some MsExtended => first_discovery
  | Some (MsDiscovery index) => if index + 1 <? length (discovery self) then Some (MsDiscovery (index + 1)) else None
  end.

Definition uM (A : Type) : Type := stM (UberModule * fworld) UberErrorKind A.
Definition u_get : uM UberModule := fun s => (Ok s.1, s).
Definition u_set (m : UberModule) : uM () := fun s => (Ok (), (m, s.2)).

(** [assign_state] for the sink and for the stream. *)
Definition set_sink (u : UberModule) (st : option ModuleState) : UberModule := mk_UberModule (discovery u) (extended u) st (last_stream_state u).
Definition set_stream (u : UberModule) (st : option ModuleState) : UberModule := mk_UberModule (discovery u) (extended u) (last_sink_state u) st.

(** Whether the loop goes on after a result: a sink on ready, a stream on not ready. *)
Definition should_continue {R} (is_ready : R -> bool) (is_sink : bool) (result : outcome UberErrorKind R) : bool :=
  match result with
  | Ok async => (is_sink && is_ready async) || (negb is_sink && negb (is_ready async))
  | _ => false
  end.

(** The [while] loop of [loop_states] and what follows it. *)
Fixpoint loop_over {R} (fuel : nat) (is_ready : R -> bool) (is_sink : bool) (get_next_state : UberModule -> option ModuleState)
    (assign_state : UberModule -> option ModuleState -> UberModule) (logic : ModuleState -> uM R) (result : outcome UberErrorKind R)
    (opt_next_state : option ModuleState) : uM R :=
  match fuel with
  | 0 => lift NoFuel
  | S fuel =>
      if should_continue is_ready is_sink result then
        match opt_next_state with
        | Some next_state =>
            with_result (logic next_state) (fun result =>
              (if should_continue is_ready is_sink result then u ← u_get; u_set (assign_state u (Some next_state)) else mret ());;
              u ← u_get;
              loop_over fuel is_ready is_sink get_next_state assign_state logic result (get_next_state u))
        | None => u ← u_get; u_set (assign_state u None);; lift result
        end
      else lift result
  end.

Definition loop_states {R} (is_ready : R -> bool) (is_sink : bool) (init : outcome UberErrorKind R) (get_next_state : UberModule -> option ModuleState)
    (assign_state : UberModule -> option ModuleState -> UberModule) (logic : ModuleState -> uM R) : uM R :=
  u ← u_get;
  loop_over (2 + length (discovery u)) is_ready is_sink get_next_state assign_state logic init (get_next_state u).

(** A call on [discovery[index]]; an index out of range panics. *)
Definition on_module {A} (index : nat) (m : stM (D * fworld) DiscoveryErrorKind A) : uM A :=
  fun '(u, w) =>
    match discovery u !! index with
    | Some d =>
        let '(r, (d, w)) := m (d, w) in
        (map_err DiscoveryError r, (mk_UberModule (<[index := d]> (discovery u)) (extended u) (last_sink_state u) (last_stream_state u), w))
    | None => (Panic, (u, w))
    end.

(** [process_message] on the extended module, with the discovery modules lent to it. *)
Definition on_extended (message : IExtendedMessage) : uM (AsyncSink ()) :=
  fun '(u, w) =>
    match extended u with
    | Some ext_module =>
        let '(r, (ext_module, ds, w)) := process_message message (ext_module, discovery u, w) in
        (map_err DiscoveryError (_ ← r; Ok SinkReady), (mk_UberModule ds (Some ext_module) (last_sink_state u) (last_stream_state u), w))
    | None => (Ok SinkReady, (u, w))
    end.

Definition sink_is_ready {A} (a : AsyncSink A) : bool := match a with SinkReady => true | SinkNotReady _ => false end.
Definition async_is_ready {A} (a : Async A) : bool := match a with Ready _ => true | NotReady => false end.
Definition async_sink_unit {A} (a : AsyncSink A) : AsyncSink () := match a with SinkReady => SinkReady | SinkNotReady _ => SinkNotReady () end.

Definition sink_logic (message : IUberMessage) (state : ModuleState) : uM (AsyncSink ()) :=
  match state, message with
  | MsDiscovery index, UControl control => a ← on_module index (dm_start_send (DControl control)); mret (async_sink_unit a)
  | MsDiscovery index, UDiscovery discovery => a ← on_module index (dm_start_send discovery); mret (async_sink_unit a)
  | MsExtended, UControl control => on_extended (EControl control)
  | MsExtended, UExtended extended => on_extended extended
  | _, _ => mret SinkReady
  end.

Definition start_sink_state (message : IUberMessage) : uM (AsyncSink ()) :=
  loop_states sink_is_ready true (Ok SinkReady) (fun uber => next_state uber (last_sink_state uber)) set_sink (sink_logic message).

Definition complete_logic (state : ModuleState) : uM (Async ()) :=
  match state with
  | MsDiscovery index => on_module index dm_poll_complete
  | MsExtended => mret (Ready ())
  end.

Definition poll_sink_state : uM (Async ()) :=
  loop_states async_is_ready true (Ok (Ready ())) (fun uber => next_state uber (last_sink_state uber)) set_sink complete_logic.

(** [poll] of the extended module. *)
Definition poll_extended : uM (Async (option OUberMessage)) :=
  fun '(u, w) =>
    match extended u with
    | Some ext_module =>
        let '(a, ext_module) := em_poll ext_module w in
        (Ok (match a with Ready o => Ready (OExtended <$> o) | NotReady => NotReady end),
         (mk_UberModule (discovery u) (Some ext_module) (last_sink_state u) (last_stream_state u), w))
    | None => (Ok (Ready None), (u, w))
    end.

Definition stream_logic (state : ModuleState) : uM (Async (option OUberMessage)) :=
  match state with
  | MsExtended => poll_extended
  | MsDiscovery index => a ← on_module index dm_poll; mret (match a with Ready o => Ready (ODiscovery <$> o) | NotReady => NotReady end)
  end.

Definition poll_stream_state : uM (Async (option OUberMessage)) :=
  loop_states async_is_ready false (Ok NotReady) (fun uber => next_state uber (last_stream_state uber)) set_stream stream_logic.

Definition uber_start_send (item : IUberMessage) : uM (AsyncSink IUberMessage) :=
  a ← start_sink_state item; mret (match a with SinkReady => SinkReady | SinkNotReady _ => SinkNotReady item end).
Definition uber_poll_complete : uM (Async ()) := poll_sink_state.
Definition uber_poll : uM (Async (option OUberMessage)) := poll_stream_state.

End modules.

#[global] Arguments UberModule FU D : clear implicits.
#[global] Arguments UberModuleBuilder D : clear implicits.
