(* ===== verification/SelUberProofs.v ===== *)
(** * The module of modules: its loops

    [loop_states] walks the extended module and the discovery modules in order,
    from the one after the last that was done.  One rule describes it for the
    three loops; with it, a message that is sent again after [NotReady] reaches
    each discovery module exactly once. *)

From stdpp Require Import prelude list gmap strings.
From Stdlib Require Import ZArith Lia Strings.Byte.
From S2P Require Import Prelude Bytes Bencode Convert Sha Metainfo HsMessage PeerExtended SelBase SelMetadata SelMetadataProofs SelDownload SelUber.

Section loops.
Context {FU : Futures} {D : Type} {DM : DiscoveryModule D}.
Implicit Types (u : UberModule FU D) (w : fworld).

(** The states in the order they are walked. *)
Definition states (u : UberModule FU D) : list ModuleState :=
  (match extended u with Some _ => [MsExtended] | None => [] end) ++ (MsDiscovery <$> seq 0 (length (discovery u))).

(** The last state when [j] of them are done. *)
Definition before (u : UberModule FU D) (j : nat) : option ModuleState := match j with 0 => None | S j => states u !! j end.

Lemma states_length u : length (states u) <= 1 + length (discovery u).
Proof. unfold states. rewrite length_app, length_fmap, length_seq. destruct (extended u); cbn; lia. Qed.

Lemma discovery_states n i : (MsDiscovery <$> seq 0 n) !! i = if i <? n then Some (MsDiscovery i) else None.
Proof.
  rewrite list_lookup_fmap. destruct (Nat.ltb_spec i n); [by rewrite lookup_seq_lt|]. by rewrite lookup_seq_ge.
Qed.

Lemma next_before u j : j <= length (states u) -> next_state u (before u j) = states u !! j.
Proof.
  intros Hj. unfold next_state. assert ((if negb (bool_decide (discovery u = [])) then Some (MsDiscovery 0) else None) = (MsDiscovery <$> seq 0 (length (discovery u))) !! 0) as ->.
  { rewrite discovery_states. by destruct (discovery u). }
  destruct j as [|j]; cbn [before].
  - unfold states. by destruct (extended u).
  - destruct (lookup_lt_is_Some_2 (states u) j) as [st Hst]; [lia|]. rewrite Hst. unfold states in *. destruct (extended u) as [e|]; cbn [app] in *.
    + destruct j as [|j]; cbn [lookup list_lookup] in *; [by injection Hst as <-|]. rewrite discovery_states in Hst. rewrite !discovery_states.
      destruct (Nat.ltb_spec j (length (discovery u))); [|done]. injection Hst as <-. by rewrite Nat.add_1_r.
    + rewrite discovery_states in Hst. rewrite !discovery_states. destruct (Nat.ltb_spec j (length (discovery u))); [|done]. injection Hst as <-. by rewrite Nat.add_1_r.
Qed.

Section rule.
Context {R : Type} (is_ready : R -> bool) (is_sink : bool).
Context (last : UberModule FU D -> option ModuleState) (assign : UberModule FU D -> option ModuleState -> UberModule FU D).
Context (logic : ModuleState -> uM (FU := FU) (D := D) R).
Abbreviation goes_on := (should_continue is_ready is_sink).

Hypothesis last_assign : forall u st, last (assign u st) = st.
Hypothesis states_assign : forall u st, states (assign u st) = states u.

(** [I j u]: the module when [j] states are done; [Q j r u]: when state [j] ended
    the walk with [r]; [Bad r]: a panic of one of the modules. *)
Context (ss : list ModuleState) (I : nat -> UberModule FU D -> Prop) (Q : nat -> outcome UberErrorKind R -> UberModule FU D -> Prop) (Bad : outcome UberErrorKind R -> Prop).
Hypothesis I_assign : forall j u st, I j u -> I j (assign u st).
Hypothesis step : forall j st u w, I j u -> states u = ss -> ss !! j = Some st -> exists r u' w', logic st (u, w) = (r, (u', w')) /\
  ((~ returns r /\ Bad r) \/ (returns r /\ states u' = ss /\ last u' = last u /\ if goes_on r then I (S j) u' else Q j r u')).

Lemma loop_over_spec fuel : forall j u w result, length ss - j < fuel -> j <= length ss -> states u = ss -> last u = before u j -> I j u -> goes_on result = true ->
  exists r u' w', loop_over fuel is_ready is_sink (fun u => next_state u (last u)) assign logic result (next_state u (last u)) (u, w) = (r, (u', w')) /\
  ((~ returns r /\ Bad r) \/
   (returns r /\ states u' = ss /\ ((goes_on r = true /\ last u' = None /\ I (length ss) u') \/
     exists j', goes_on r = false /\ j' < length ss /\ last u' = before u' j' /\ Q j' r u'))).
Proof.
  induction fuel as [|fuel IH]; intros j u w result Hf Hj Hss Hl HI Hgo; [lia|]. cbn [loop_over]. rewrite Hgo, Hl, next_before by (by rewrite Hss). rewrite Hss.
  destruct (ss !! j) as [st|] eqn:Hst.
  - destruct (step j st u w HI Hss Hst) as (r & u1 & w1 & He & Hr). unfold with_result. rewrite He.
    destruct Hr as [[Hnr Hbad]|(Hr & Hss1 & Hl1 & Hi1)].
    { exists r, u1, w1. split; [|by left]. destruct r; try done; by destruct Hnr. }
    assert ((fun result => ((if goes_on result then u ← u_get; u_set (assign u (Some st)) else mret ());; u ← u_get;
      loop_over fuel is_ready is_sink (fun u => next_state u (last u)) assign logic result (next_state u (last u)))) r (u1, w1) =
      let u2 := if goes_on r then assign u1 (Some st) else u1 in
      loop_over fuel is_ready is_sink (fun u => next_state u (last u)) assign logic r (next_state u2 (last u2)) (u2, w1)) as Hloop.
    { unfold mbind, stM_bind. by destruct (goes_on r). }
    assert (exists r' u' w', (let u2 := if goes_on r then assign u1 (Some st) else u1 in
      loop_over fuel is_ready is_sink (fun u => next_state u (last u)) assign logic r (next_state u2 (last u2)) (u2, w1)) = (r', (u', w')) /\
      ((~ returns r' /\ Bad r') \/ (returns r' /\ states u' = ss /\ ((goes_on r' = true /\ last u' = None /\ I (length ss) u') \/
       exists j', goes_on r' = false /\ j' < length ss /\ last u' = before u' j' /\ Q j' r' u')))) as (r' & u' & w' & He' & Hres).
    { assert (j < length ss) as Hlt by (by apply lookup_lt_Some in Hst). destruct (goes_on r) eqn:Hgo1; cbn zeta.
      - apply IH with (j := S j); try done; try lia; [by rewrite states_assign| |by apply I_assign].
        rewrite last_assign. cbn [before]. by rewrite states_assign, Hss1.
      - destruct fuel as [|fuel]; [lia|]. cbn [loop_over]. rewrite Hgo1. exists r, u1, w1. split; [done|]. right. split; [done|]. split; [done|]. right.
        exists j. split; [done|]. split; [done|]. split; [|done]. rewrite Hl1, Hl. unfold before. by rewrite Hss, Hss1. }
    exists r', u', w'. split; [|done]. rewrite <- He', <- Hloop. destruct r; try done; by destruct Hr.
  - assert (j = length ss) as -> by (apply lookup_ge_None in Hst; lia). exists result, (assign u None), w. split; [done|]. right.
    split; [by destruct result|]. split; [by rewrite states_assign|]. left. split; [done|]. split; [apply last_assign|by apply I_assign].
Qed.

Lemma loop_states_spec j u w init : j <= length ss -> states u = ss -> last u = before u j -> I j u -> goes_on init = true ->
  exists r u' w', loop_states is_ready is_sink init (fun u => next_state u (last u)) assign logic (u, w) = (r, (u', w')) /\
  ((~ returns r /\ Bad r) \/
   (returns r /\ states u' = ss /\ ((goes_on r = true /\ last u' = None /\ I (length ss) u') \/
     exists j', goes_on r = false /\ j' < length ss /\ last u' = before u' j' /\ Q j' r u'))).
Proof.
  intros Hj Hss Hl HI Hgo. unfold loop_states, mbind, stM_bind. cbn [u_get fst]. apply loop_over_spec with (j := j); try done.
  pose proof (states_length u) as Hle. rewrite Hss in Hle. lia.
Qed.
End rule.

(** What every step of a walk keeps, the walk keeps. *)
Lemma loop_over_keeps {R} (is_ready : R -> bool) (is_sink : bool) assign (logic : ModuleState -> uM R) (K : UberModule FU D -> Prop) next :
  (forall u st, K u -> K (assign u st)) -> (forall st u w r u' w', K u -> logic st (u, w) = (r, (u', w')) -> K u') ->
  forall u w r u' w' init, K u -> (u ← u_get; loop_over (2 + length (discovery u)) is_ready is_sink next assign logic init (next u)) (u, w) = (r, (u', w')) -> K u'.
Proof.
  intros HKa Hstep u w r u' w' init HK. unfold mbind at 1, stM_bind at 1. cbn [u_get fst]. generalize (2 + length (discovery u)) as fuel. intros fuel.
  generalize (next u). revert init u w HK. induction fuel as [|fuel IH]; intros init u w HK st He; cbn [loop_over] in He; [by injection He as _ <- _|].
  destruct (should_continue is_ready is_sink init); [|by injection He as _ <- _]. destruct st as [st|]; [|injection He as _ <- _; by apply HKa].
  unfold with_result in He. destruct (logic st (u, w)) as [r1 [u1 w1]] eqn:Hl. pose proof (Hstep _ _ _ _ _ _ HK Hl) as HK1.
  unfold mbind, stM_bind in He. destruct r1 as [a|e| |]; try by injection He as _ <- _.
  - destruct (should_continue is_ready is_sink (Ok a)); cbn in He; eapply IH in He; try done. by apply HKa.
  - cbn in He. by eapply IH in He.
Qed.
End loops.

(** ** Messages reach each module once *)

(** A discovery module that keeps the messages it accepted. *)
Section logged.
Context {FU : Futures} {D : Type} {DM : DiscoveryModule D}.

Definition keep_log {A} (m : stM (D * fworld) DiscoveryErrorKind A) : stM ((D * list IDiscoveryMessage) * fworld) DiscoveryErrorKind A :=
  fun '((d, log), w) => let '(r, (d, w)) := m (d, w) in (r, ((d, log), w)).
Definition logging_send (item : IDiscoveryMessage) : stM ((D * list IDiscoveryMessage) * fworld) DiscoveryErrorKind (AsyncSink IDiscoveryMessage) :=
  fun '((d, log), w) => let '(r, (d, w)) := dm_start_send item (d, w) in (r, ((d, match r with Ok SinkReady => log ++ [item] | _ => log end), w)).

Definition Logged : DiscoveryModule (D * list IDiscoveryMessage) := {|
  dm_extend d := dm_extend d.1;
  dm_on_update info ext := keep_log (dm_on_update info ext);
  dm_start_send := logging_send;
  dm_poll_complete := keep_log dm_poll_complete;
  dm_poll := keep_log dm_poll;
|}.
#[local] Existing Instance Logged.

Context (id_order : gmap ExtendedType byte -> list (ExtendedType * byte)) (custom_order : gmap bytes BencodeMut -> list (bytes * BencodeMut)).
Implicit Types (u : UberModule FU (D * list IDiscoveryMessage)) (w : fworld).

Lemma update_all_logs info ext ds : forall w ds' w', update_all info ext ds w = (Ok ds', w') -> ds'.*2 = ds.*2.
Proof.
  induction ds as [|[d log] ds IH]; intros w ds' w'; cbn [update_all]; [by intros [= <- _]|]. unfold dm_on_update at 1. cbn [Logged]. unfold keep_log.
  destruct (dm_on_update info ext (d, w)) as [[[]| | |] [d1 w1]]; try done. destruct (update_all info ext ds w1) as [[ds1| | |] w2] eqn:Hu; cbn [mbind outcome_bind]; try done.
  intros [= <- _]. cbn [fmap list_fmap snd]. f_equal. by eapply IH.
Qed.

Lemma process_logs message m ds w r m' ds' w' : process_message id_order custom_order message (m, ds, w) = (r, (m', ds', w')) -> returns r -> ds'.*2 = ds.*2.
Proof.
  assert (forall m ds w, exists m' w', em_check_stream_unblock (D := D * list IDiscoveryMessage) (m, ds, w) = (Ok (), (m', ds, w'))) as Hcheck.
  { intros m0 ds0 w0. unfold em_check_stream_unblock, mbind, stM_bind. cbn [em_get fst]. destruct (negb _); [|by eexists _, _]. destruct (em_task m0); by eexists _, _. }
  assert (forall info ext m ds w r m' ds' w', em_update_all info ext (m, ds, w) = (r, (m', ds', w')) -> ds'.*2 = ds.*2) as Hupd.
  { intros info ext m0 ds0 w0 r0 m1 ds1 w1. unfold em_update_all. destruct (update_all info ext ds0 w0) as [[ds2| | |] w2] eqn:Hu; intros [= _ _ <- _]; try done. by eapply update_all_logs. }
  assert (forall (p : emM (D := D * list IDiscoveryMessage) ()) m (ds : list (D * list IDiscoveryMessage)) w r m' (ds' : list (D * list IDiscoveryMessage)) w', (p;; em_check_stream_unblock) (m, ds, w) = (r, (m', ds', w')) ->
    (forall r1 m1 ds1 w1, p (m, ds, w) = (r1, (m1, ds1, w1)) -> ds1.*2 = ds.*2) -> ds'.*2 = ds.*2) as Hseq.
  { intros p m0 ds0 w0 r0 m1 ds1 w1 He Hp. unfold mbind, stM_bind in He. destruct (p (m0, ds0, w0)) as [[[]| | |] [[m2 ds2] w2]]; [|injection He as _ _ <- _; by eapply Hp..].
    destruct (Hcheck m2 ds2 w2) as (m3 & w3 & Hc). rewrite Hc in He. injection He as _ _ <- _. by eapply Hp. }
  intros He _. unfold process_message in He. eapply Hseq; [exact He|]. clear He. intros r1 m1 ds1 w1. unfold mbind, stM_bind.
  destruct message as [[]|info msg]; cbn [mret stM_ret em_get em_modules em_set lift fst snd]; try by intros [= _ _ <- _].
  - match goal with |- context [em_update_all ?i ?e (?a, ?b, ?c)] => destruct (em_update_all i e (a, b, c)) as [[[]| | |] [[m2 ds2] w2]] eqn:Hu end; intros [= _ _ <- _]; by eapply Hupd.
  - destruct (em_peers m !! peer_key info); cbn [unwrap]; [|by intros [= _ _ <- _]]. intros Hu. by eapply Hupd.
Qed.

(** What a message is for the discovery modules. *)
Definition for_discovery (message : IUberMessage) : list IDiscoveryMessage :=
  match message with
  | UControl control => [DControl control]
  | UDiscovery discovery => [discovery]
  | UExtended _ => []
  end.

(** The logs when [j] states are done, of which [e] come before the modules. *)
Definition logs_at (logs : list (list IDiscoveryMessage)) (message : IUberMessage) (e j : nat) : list (list IDiscoveryMessage) :=
  imap (fun i log => if i + e <? j then log ++ for_discovery message else log) logs.

Lemma logs_at_start logs message e : logs_at logs message e 0 = logs.
Proof. apply list_eq. intros i. unfold logs_at. rewrite list_lookup_imap. destruct (logs !! i); done. Qed.

Lemma logs_at_end logs message e j : length logs + e <= j -> logs_at logs message e j = (fun log => log ++ for_discovery message) <$> logs.
Proof.
  intros Hj. apply list_eq. intros i. unfold logs_at. rewrite list_lookup_imap, list_lookup_fmap. destruct (logs !! i) as [log|] eqn:Hi; [|done]. cbn [fmap option_fmap option_map].
  apply lookup_lt_Some in Hi. by rewrite (proj2 (Nat.ltb_lt (i + e) j)) by lia.
Qed.

Lemma logs_at_extended logs message : logs_at logs message 1 1 = logs_at logs message 1 0.
Proof. apply list_eq. intros i. unfold logs_at. rewrite !list_lookup_imap. destruct (logs !! i); [|done]. cbn [fmap option_fmap option_map]. by rewrite !Nat.add_1_r. Qed.

Lemma logs_at_step logs message e i log : logs_at logs message e (i + e) !! i = Some log ->
  <[i := log ++ for_discovery message]> (logs_at logs message e (i + e)) = logs_at logs message e (S (i + e)).
Proof.
  intros Hlog. apply list_eq. intros k. destruct (decide (k = i)) as [->|Hne].
  - rewrite list_lookup_insert_eq by (by apply lookup_lt_Some in Hlog). unfold logs_at in *. rewrite list_lookup_imap in *. destruct (logs !! i) as [l|]; [|done].
    cbn [fmap option_fmap option_map] in *. rewrite Nat.ltb_irrefl in Hlog. injection Hlog as <-. by rewrite (proj2 (Nat.ltb_lt (i + e) (S (i + e)))) by lia.
  - rewrite list_lookup_insert_ne by done. unfold logs_at. rewrite !list_lookup_imap. destruct (logs !! k); [|done]. cbn [fmap option_fmap option_map].
    destruct (Nat.ltb_spec (k + e) (i + e)), (Nat.ltb_spec (k + e) (S (i + e))); (done || lia).
Qed.

(** The number of states before the discovery modules. *)
Definition ext_states (u : UberModule FU (D * list IDiscoveryMessage)) : nat := match extended u with Some _ => 1 | None => 0 end.

Lemma states_lookup u j st : states u !! j = Some st ->
  (st = MsExtended /\ j = 0 /\ ext_states u = 1) \/ exists i, st = MsDiscovery i /\ j = i + ext_states u /\ i < length (discovery u).
Proof.
  unfold states, ext_states. destruct (extended u); cbn [app].
  - destruct j as [|j]; cbn [lookup list_lookup]; [intros [= <-]; by left|]. rewrite discovery_states. destruct (Nat.ltb_spec j (length (discovery u))); [|done].
    intros [= <-]. right. exists j. split_and!; (done || lia).
  - rewrite discovery_states. destruct (Nat.ltb_spec j (length (discovery u))); [|done]. intros [= <-]. right. exists j. split_and!; (done || lia).
Qed.

Lemma states_shape u u' : length (discovery u') = length (discovery u) -> ext_states u' = ext_states u -> states u' = states u.
Proof. unfold states, ext_states. intros -> He. destruct (extended u), (extended u'); done. Qed.

(** A module accepts the message, or leaves its log as it is. *)
Lemma send_module_logs item u w i : i < length (discovery u) -> exists r u' w',
  on_module i (dm_start_send item) (u, w) = (r, (u', w')) /\ length (discovery u') = length (discovery u) /\ ext_states u' = ext_states u /\
  last_sink_state u' = last_sink_state u /\
  exists log, (discovery u).*2 !! i = Some log /\ (discovery u').*2 = <[i := match r with Ok SinkReady => log ++ [item] | _ => log end]> ((discovery u).*2).
Proof.
  intros Hi. unfold on_module. destruct (lookup_lt_is_Some_2 _ _ Hi) as [[d log] Hd]. rewrite Hd. cbn [dm_start_send Logged]. unfold logging_send.
  destruct (dm_start_send item (d, w)) as [r [d1 w1]]. eexists _, _, _. split; [done|]. cbn [discovery extended last_sink_state]. split; [apply length_insert|]. split; [done|]. split; [done|].
  exists log. split; [by rewrite list_lookup_fmap, Hd|]. rewrite list_fmap_insert. cbn [snd]. by destruct r as [[]| | |].
Qed.

Section deliver.
Context (message : IUberMessage) (u0 : UberModule FU (D * list IDiscoveryMessage)).

Definition delivered_to (j : nat) (u : UberModule FU (D * list IDiscoveryMessage)) : Prop :=
  (discovery u).*2 = logs_at ((discovery u0).*2) message (ext_states u0) j /\ ext_states u = ext_states u0.

Lemma deliver_step j st u w : delivered_to j u -> states u = states u0 -> states u0 !! j = Some st ->
  exists r u' w', sink_logic id_order custom_order message st (u, w) = (r, (u', w')) /\
  ((~ returns r /\ True) \/ (returns r /\ states u' = states u0 /\ last_sink_state u' = last_sink_state u /\
     if should_continue sink_is_ready true r then delivered_to (S j) u' else delivered_to j u')).
Proof.
  intros [Hlogs He] Hss Hst. assert (length (discovery u) = length (discovery u0)) as Hlen.
  { apply (f_equal length) in Hlogs. unfold logs_at in Hlogs. by rewrite length_imap, !length_fmap in Hlogs. }
  destruct (states_lookup u0 j st Hst) as [(-> & -> & He0)|(i & -> & -> & Hi)].
  - assert (forall m, exists r u' w', on_extended id_order custom_order m (u, w) = (r, (u', w')) /\
      ((~ returns r /\ True) \/ (returns r /\ states u' = states u0 /\ last_sink_state u' = last_sink_state u /\
        if should_continue sink_is_ready true r then delivered_to 1 u' else delivered_to 0 u'))) as Hext.
    { intros m. unfold on_extended. assert (ext_states u = 1) as Hu1 by congruence. unfold ext_states in Hu1. destruct (extended u) as [em|] eqn:Hem; [|done].
      destruct (process_message id_order custom_order m (em, discovery u, w)) as [r [[em' ds] w']] eqn:Hp. eexists _, _, _. split; [done|].
      assert (returns r \/ ~ returns r) as [Hret|Hr] by (destruct r; cbn; tauto); [right|left; split; [by destruct r|done]].
      pose proof (process_logs _ _ _ _ _ _ _ _ Hp Hret) as Hds.
      assert (length ds = length (discovery u)) as Hl by (apply (f_equal length) in Hds; by rewrite !length_fmap in Hds).
      split; [by destruct r|]. split; [apply states_shape; cbn; [lia|by rewrite He0]|]. split; [done|].
      assert (delivered_to 0 (mk_UberModule ds (Some em') (last_sink_state u) (last_stream_state u))) as Hd0.
      { split; cbn; [by rewrite Hds, Hlogs|by rewrite He0]. }
      destruct (should_continue _ _ _); [|done]. destruct Hd0 as [Hd1 Hd2]. split; [|done]. by rewrite Hd1, He0, logs_at_extended. }
    assert (delivered_to 1 u) as Hd1 by (split; [by rewrite Hlogs, He0, logs_at_extended|done]).
    destruct message; cbn [sink_logic]; [apply Hext|apply Hext|]. exists (Ok SinkReady), u, w. split; [done|]. right. by split_and!.
  - set (e := ext_states u0) in *. assert (for_discovery message = [] -> delivered_to (S (i + e)) u) as Hnone.
    { intros Hz. split; [|done]. rewrite Hlogs. unfold logs_at. apply imap_ext. intros k log _. rewrite Hz, app_nil_r. by destruct (_ <? _), (_ <? _). }
    assert (forall item, for_discovery message = [item] -> exists r u' w', (a ← on_module i (dm_start_send item); mret (async_sink_unit a)) (u, w) = (r, (u', w')) /\
      ((~ returns r /\ True) \/ (returns r /\ states u' = states u0 /\ last_sink_state u' = last_sink_state u /\
        if should_continue sink_is_ready true r then delivered_to (S (i + e)) u' else delivered_to (i + e) u'))) as Hsend.
    { intros item Hitem. destruct (send_module_logs item u w i) as (r & u' & w' & Hm & Hl & He' & Hsink & log & Hlog & Hlogs'); [lia|].
      unfold mbind, stM_bind. rewrite Hm.
      assert (match r with Ok SinkReady => False | _ => True end -> delivered_to (i + e) u') as Hsame.
      { intros Hne. split; [|by rewrite He']. rewrite Hlogs'. replace (match r with Ok SinkReady => log ++ [item] | _ => log end) with log by (by destruct r as [[]| | |]).
        by rewrite list_insert_id. }
      destruct r as [[|x]|er| |]; eexists _, _, _; (split; [done|]); try (by left; split; [intros []|]); right.
      - split_and!; try done; [apply states_shape; [lia|by rewrite He']|]. cbn [async_sink_unit should_continue sink_is_ready andb orb]. split; [|by rewrite He'].
        rewrite Hlogs', <- Hitem, Hlogs. apply logs_at_step. by rewrite <- Hlogs.
      - split_and!; try done; [apply states_shape; [lia|by rewrite He']|]. by apply Hsame.
      - split_and!; try done; [apply states_shape; [lia|by rewrite He']|]. by apply Hsame. }
    destruct message; cbn [sink_logic for_discovery] in *; [by apply Hsend| |by apply Hsend]. exists (Ok SinkReady), u, w. split; [done|]. right. by split_and!; try apply Hnone.
Qed.
End deliver.

(** A poll touches neither what the modules accepted nor where a send stopped. *)
Definition same_sink (u u' : UberModule FU (D * list IDiscoveryMessage)) : Prop :=
  (discovery u').*2 = (discovery u).*2 /\ ext_states u' = ext_states u /\ last_sink_state u' = last_sink_state u.

Lemma stream_logic_keeps st u w r u' w' : stream_logic st (u, w) = (r, (u', w')) -> same_sink u u'.
Proof.
  destruct st as [|i]; cbn [stream_logic].
  - unfold poll_extended, same_sink, ext_states. destruct (extended u) as [em|] eqn:Hem; [|intros [= _ <- _]; by rewrite Hem].
    destruct (em_poll em w) as [a em']. by intros [= _ <- _].
  - unfold mbind, stM_bind, on_module. destruct (discovery u !! i) as [[d log]|] eqn:Hd; [|by intros [= _ <- _]].
    unfold dm_poll at 1. cbn [Logged]. unfold keep_log. destruct (dm_poll (d, w)) as [r1 [d1 w1]].
    assert (same_sink u (mk_UberModule (<[i := (d1, log)]> (discovery u)) (extended u) (last_sink_state u) (last_stream_state u))) as Hs.
    { split; [|done]. cbn. rewrite list_fmap_insert. cbn. apply list_insert_id. by rewrite list_lookup_fmap, Hd. }
    destruct r1; by intros [= _ <- _].
Qed.

Lemma poll_keeps u w r u' w' : uber_poll (u, w) = (r, (u', w')) -> same_sink u u'.
Proof.
  unfold uber_poll, poll_stream_state, loop_states. apply (loop_over_keeps async_is_ready false set_stream stream_logic (same_sink u)); [done| |done].
  intros st v w0 r0 v' w0' (H1 & H2 & H3) (H1' & H2' & H3')%stream_logic_keeps. split_and!; congruence.
Qed.

(** A message sent again for as long as it is not taken, with polls of the stream in
    between. *)
Inductive sends (message : IUberMessage) : UberModule FU (D * list IDiscoveryMessage) -> UberModule FU (D * list IDiscoveryMessage) -> Prop :=
| sends_taken u w u' w' : uber_start_send id_order custom_order message (u, w) = (Ok SinkReady, (u', w')) -> sends message u u'
| sends_again u w u1 w1 message' u' :
    uber_start_send id_order custom_order message (u, w) = (Ok (SinkNotReady message'), (u1, w1)) -> sends message' u1 u' -> sends message u u'
| sends_polled u w r u1 w1 u' : uber_poll (u, w) = (r, (u1, w1)) -> sends message u1 u' -> sends message u u'.

Lemma set_sink_delivered message u0 j u st : delivered_to message u0 j u -> delivered_to message u0 j (set_sink u st).
Proof. done. Qed.

(** One attempt, from where the last one stopped. *)
Lemma attempt_spec message u0 j u w r u' w' : j <= length (states u0) -> states u = states u0 -> last_sink_state u = before u j -> delivered_to message u0 j u ->
  uber_start_send id_order custom_order message (u, w) = (Ok r, (u', w')) -> states u' = states u0 /\
  match r with
  | SinkReady => last_sink_state u' = None /\ delivered_to message u0 (length (states u0)) u'
  | SinkNotReady message' => message' = message /\ exists j', j' <= length (states u0) /\ last_sink_state u' = before u' j' /\ delivered_to message u0 j' u'
  end.
Proof.
  intros Hj Hss Hl Hd He. unfold uber_start_send, start_sink_state, mbind, stM_bind in He.
  destruct (loop_states_spec sink_is_ready true last_sink_state set_sink (sink_logic id_order custom_order message) (fun _ _ => eq_refl) (fun _ _ => eq_refl)
    (states u0) (delivered_to message u0) (fun j _ u => delivered_to message u0 j u) (fun _ => True) (set_sink_delivered message u0) (deliver_step message u0) j u w (Ok SinkReady))
    as (r1 & u1 & w1 & Hloop & Hres); try done.
  rewrite Hloop in He. destruct r1 as [a| | |]; try done. injection He as <- <- <-. destruct Hres as [[Hn _]|(_ & Hss' & Hcase)]; [by destruct Hn|]. split; [done|].
  destruct a as [|x]; destruct Hcase as [(Hg & Hl' & Hd')|(j' & Hg & Hj' & Hl' & Hd')]; try done. split; [done|]. exists j'. split_and!; (done || lia).
Qed.

(** C11. A message sent while no earlier one is under way (the module is new, or took
    the last message it was sent) and taken, at once or after it was sent again any
    number of times with polls of the stream in between, has been accepted exactly
    once by every discovery module, and the next message starts from the first.  Left
    out are a module that ended an earlier message with an error and a
    [poll_complete] between two attempts ([error_skips_modules] and
    [complete_sends_twice] of SelLearn show what they do). *)
Theorem uber_delivers_once message u u' : last_sink_state u = None -> sends message u u' ->
  (discovery u').*2 = (fun log => log ++ for_discovery message) <$> (discovery u).*2 /\ last_sink_state u' = None.
Proof.
  intros Hl Hsends. assert (forall j v, j <= length (states u) -> states v = states u -> last_sink_state v = before v j -> delivered_to message u j v -> forall v', sends message v v' ->
    last_sink_state v' = None /\ delivered_to message u (length (states u)) v') as Hgen.
  { intros j v Hj Hss Hlv Hd v' Hs. revert j Hj Hss Hlv Hd. remember message as m eqn:Hm. revert Hm. induction Hs as [m v w v' w' He|m v w v1 w1 m' v' He _ IH|m v w r v1 w1 v' He _ IH];
      intros -> j Hj Hss Hlv Hd.
    - by destruct (attempt_spec message u j v w _ v' w' Hj Hss Hlv Hd He).
    - destruct (attempt_spec message u j v w _ v1 w1 Hj Hss Hlv Hd He) as (Hss1 & -> & j' & Hj' & Hl' & Hd'). by eapply IH.
    - destruct (poll_keeps _ _ _ _ _ He) as (H1 & H2 & H3). destruct Hd as [Hd1 Hd2].
      assert (states v1 = states v) as Hss1 by (apply states_shape; [apply (f_equal length) in H1; by rewrite !length_fmap in H1|done]).
      apply (IH Hsends eq_refl j); [done|congruence| |by split; congruence]. rewrite H3, Hlv. unfold before. by rewrite Hss1. }
  destruct (Hgen 0 u) with (v' := u') as [Hn [Hlogs _]]; try done; [lia|split; [by rewrite logs_at_start|done]|]. split; [|done]. rewrite Hlogs. apply logs_at_end.
  unfold states, ext_states. rewrite length_app, !length_fmap, length_seq. destruct (extended u); cbn; lia.
Qed.
End logged.

(** * The module of modules: it returns

    Every call on the module of modules comes to an end when the calls on its
    modules do, and the metadata module is one whose calls do. *)

(** ** What a discovery module promises

    An invariant of its own that its calls keep, and that they come to an end on
    messages that fit; of an extended handshake it looks at what the other side
    said. *)
Class DiscoveryContract {FU : Futures} (D : Type) {DM : DiscoveryModule D} : Type := {
  dc_inv : D -> Prop;
  dc_fits : IDiscoveryMessage -> Prop;
  dc_theirs : option ExtendedMessage -> Prop;
  dc_theirs_none : dc_theirs None;
  dc_update : forall info ext d w, dc_inv d -> dc_theirs (theirs ext) -> returns (dm_on_update info ext (d, w)).1 /\ dc_inv (dm_on_update info ext (d, w)).2.1;
  dc_send : forall item d w, dc_inv d -> dc_fits item -> returns (dm_start_send item (d, w)).1 /\ dc_inv (dm_start_send item (d, w)).2.1;
  dc_complete : forall d w, dc_inv d -> returns (dm_poll_complete (d, w)).1 /\ dc_inv (dm_poll_complete (d, w)).2.1;
  dc_poll : forall d w, dc_inv d -> returns (dm_poll (d, w)).1 /\ dc_inv (dm_poll (d, w)).2.1;
}.

Section returning.
Context {FU : Futures} {D : Type} {DM : DiscoveryModule D} {DC : DiscoveryContract D}.
Context (id_order : gmap ExtendedType byte -> list (ExtendedType * byte)) (custom_order : gmap bytes BencodeMut -> list (bytes * BencodeMut)).
Implicit Types (u : UberModule FU D) (w : fworld).

(** A message that fits: an extended message is from a peer that connected. *)
Definition fits_extended (message : IExtendedMessage) (em : ExtendedModule FU) : Prop :=
  match message with RecievedExtendedMessage info msg => is_Some (em_peers em !! peer_key info) /\ dc_theirs (Some msg) | _ => True end.
Definition fits_uber (message : IUberMessage) (u : UberModule FU D) : Prop :=
  match message with
  | UControl control => dc_fits (DControl control)
  | UDiscovery item => dc_fits item
  | UExtended ext => forall em, extended u = Some em -> fits_extended ext em
  end.
Definition modules_ok (u : UberModule FU D) : Prop := Forall dc_inv (discovery u).

Lemma update_all_returns info ext ds : dc_theirs (theirs ext) -> Forall dc_inv ds ->
  forall w, returns (update_all info ext ds w).1 /\ forall ds' w', update_all info ext ds w = (Ok ds', w') -> length ds' = length ds /\ Forall dc_inv ds'.
Proof.
  intros Ht. induction 1 as [|d ds Hd Hds IH]; intros w; cbn [update_all]; [split; [done|by intros ds' w' [= <- _]]|].
  destruct (dc_update info ext d w Hd Ht) as [Hr Hi]. destruct (dm_on_update info ext (d, w)) as [[[]| | |] [d1 w1]]; try done.
  destruct (IH w1) as [Hr1 Hl1]. destruct (update_all info ext ds w1) as [[ds1| | |] w2]; try done. cbn. split; [done|]. intros ds' w' [= <- _]. cbn.
  destruct (Hl1 ds1 w2 eq_refl) as [-> ?]. split; [done|]. by constructor.
Qed.

Lemma em_update_returns info ext em ds w : dc_theirs (theirs ext) -> Forall dc_inv ds ->
  exists r ds' w', em_update_all info ext (em, ds, w) = (r, (em, ds', w')) /\ returns r /\ length ds' = length ds /\ Forall dc_inv ds'.
Proof.
  intros Ht Hds. unfold em_update_all. destruct (update_all_returns info ext ds Ht Hds w) as [Hr Hl]. destruct (update_all info ext ds w) as [[ds1|e| |] w2]; try done.
  - eexists _, _, _. split; [done|]. split; [done|]. by eapply Hl.
  - by eexists _, _, _.
Qed.

(** The extended module handles a message that fits, and forgets none but the one that leaves. *)
Lemma em_process_returns message em ds w : fits_extended message em -> Forall dc_inv ds ->
  exists r em' ds' w', process_message id_order custom_order message (em, ds, w) = (r, (em', ds', w')) /\ returns r /\ length ds' = length ds /\
  Forall dc_inv ds' /\ fits_extended message em'.
Proof.
  intros Hknown Hds.
  assert (forall em ds w, exists em' w', em_check_stream_unblock (D := D) (em, ds, w) = (Ok (), (em', ds, w')) /\ em_peers em' = em_peers em) as Hcheck.
  { intros em0 ds0 w0. unfold em_check_stream_unblock, mbind, stM_bind. cbn [em_get fst]. destruct (negb _); [|by eexists _, _]. destruct (em_task em0); by eexists _, _. }
  unfold process_message, mbind, stM_bind. destruct message as [[]|info msg]; cbn [mret stM_ret em_get em_modules em_set lift fst snd].
  - destruct (Hcheck em ds w) as (em' & w' & -> & _). by eexists _, _, _, _.
  - destruct (Hcheck em ds w) as (em' & w' & -> & _). by eexists _, _, _, _.
  - match goal with |- context [em_update_all ?i ?e (?m, ?d, ?v)] => destruct (em_update_returns i e m d v dc_theirs_none Hds) as (r & ds1 & w1 & -> & Hr & Hl & Hi) end.
    destruct r as [[]|e| |]; try done; [|by eexists _, _, _, _].
    cbn [em_set]. match goal with |- context [em_check_stream_unblock (?e, ?d, ?v)] => destruct (Hcheck e d v) as (em' & w' & -> & _) end. by eexists _, _, _, _.
  - match goal with |- context [em_check_stream_unblock (?e, ?d, ?v)] => destruct (Hcheck e d v) as (em' & w' & -> & _) end. by eexists _, _, _, _.
  - destruct (Hcheck em ds w) as (em' & w' & -> & _). by eexists _, _, _, _.
  - destruct Hknown as [[ext Hext] Ht]. rewrite Hext. cbn [unwrap].
    match goal with |- context [em_update_all ?i ?e (?m, ?d, ?v)] => destruct (em_update_returns i e m d v Ht Hds) as (r & ds1 & w1 & -> & Hr & Hl & Hi) end.
    destruct r as [[]|e| |]; try done.
    + cbn [em_set]. match goal with |- context [em_check_stream_unblock (?e, ?d, ?v)] => destruct (Hcheck e d v) as (em' & w' & -> & Hp) end.
      eexists _, _, _, _. split_and!; try done. split; [|done]. rewrite Hp. cbn. rewrite lookup_insert_eq. eauto.
    + eexists _, _, _, _. split_and!; try done. split; [|done]. cbn. rewrite lookup_insert_eq. eauto.
Qed.

Lemma on_module_returns {A} (m : stM (D * fworld) DiscoveryErrorKind A) i u w : (forall d w, dc_inv d -> returns (m (d, w)).1 /\ dc_inv (m (d, w)).2.1) ->
  modules_ok u -> i < length (discovery u) ->
  exists r u' w', on_module i m (u, w) = (r, (u', w')) /\ returns r /\ length (discovery u') = length (discovery u) /\ extended u' = extended u /\
  last_sink_state u' = last_sink_state u /\ last_stream_state u' = last_stream_state u /\ modules_ok u'.
Proof.
  intros Hm Hok Hi. unfold on_module. destruct (lookup_lt_is_Some_2 _ _ Hi) as [d Hd]. rewrite Hd. destruct (Hm d w) as [Hr Hinv]; [by eapply Forall_lookup_1|].
  destruct (m (d, w)) as [r [d1 w1]]. cbn [fst snd] in *. eexists _, _, _. split; [done|]. split; [by destruct r|]. unfold modules_ok. cbn. rewrite length_insert. split_and!; try done.
  by apply Forall_insert.
Qed.

Lemma states_same u u' : length (discovery u') = length (discovery u) -> (is_Some (extended u') <-> is_Some (extended u)) -> states u' = states u.
Proof. unfold states. intros -> He. destruct (extended u), (extended u'); try done; exfalso; [destruct (proj2 He)|destruct (proj1 He)]; (done || eauto). Qed.

Lemma state_in_range u j i : states u !! j = Some (MsDiscovery i) -> i < length (discovery u).
Proof.
  unfold states. destruct (extended u); cbn [app]; [destruct j as [|j]; [done|cbn [lookup list_lookup]]|]; rewrite discovery_states.
  - destruct (Nat.ltb_spec j (length (discovery u))); [|done]. by intros [= <-].
  - destruct (Nat.ltb_spec j (length (discovery u))); [|done]. by intros [= <-].
Qed.

(** The states saved between calls are ones the loops can start from. *)
Definition resumable (u : UberModule FU D) : Prop :=
  (exists j, j <= length (states u) /\ last_sink_state u = before u j) /\ (exists j, j <= length (states u) /\ last_stream_state u = before u j).

Inductive uber_call : Type := USend (message : IUberMessage) | UComplete | UPoll.

Definition uber_perform (c : uber_call) : uM (option OUberMessage) :=
  match c with
  | USend message => uber_start_send id_order custom_order message;; mret None
  | UComplete => uber_poll_complete;; mret None
  | UPoll => a ← uber_poll; mret (match a with Ready o => o | NotReady => None end)
  end.

Definition call_known (c : uber_call) (u : UberModule FU D) : Prop := match c with USend message => fits_uber message u | _ => True end.

(** One loop: it returns, and what it saves can be started from. *)
Lemma uber_loop_returns {R} (is_ready : R -> bool) (is_sink : bool) (last other : UberModule FU D -> option ModuleState) assign (logic : ModuleState -> uM R) (K : UberModule FU D -> Prop) init u w :
  (forall u st, last (assign u st) = st) -> (forall u st, states (assign u st) = states u) -> (forall u st, other (assign u st) = other u) -> (forall u st, K u -> K (assign u st)) ->
  (forall st u w, K u -> (forall i, st = MsDiscovery i -> i < length (discovery u)) ->
     exists r u' w', logic st (u, w) = (r, (u', w')) /\ returns r /\ states u' = states u /\ last u' = last u /\ other u' = other u /\ K u') ->
  K u -> (exists j, j <= length (states u) /\ last u = before u j) -> should_continue is_ready is_sink init = true ->
  exists r u' w', loop_states is_ready is_sink init (fun u => next_state u (last u)) assign logic (u, w) = (r, (u', w')) /\ returns r /\ states u' = states u /\
  (exists j, j <= length (states u') /\ last u' = before u' j) /\ other u' = other u /\ K u'.
Proof.
  intros Hla Hsa Hoa HKa Hstep HK (j & Hj & Hl) Hinit. set (I := fun (_ : nat) v => K v /\ other v = other u).
  destruct (loop_states_spec is_ready is_sink last assign logic Hla Hsa (states u) I (fun j _ v => I j v) (fun _ => False)) with (j := j) (u := u) (w := w) (init := init)
    as (r & u' & w' & He & Hres); try done.
  - intros j' v st [H1 H2]. split; [by apply HKa|]. by rewrite Hoa.
  - intros j' st v w0 [H1 H2] Hss Hst. destruct (Hstep st v w0 H1) as (r & u' & w' & He & Hr & Hs' & Hl' & Ho' & HK').
    { intros i ->. rewrite <- Hss in Hst. by eapply state_in_range. }
    exists r, u', w'. split; [done|]. right. split_and!; try done; [congruence|]. assert (I j' u') as HI by (split; [done|congruence]). destruct (should_continue is_ready is_sink r); exact HI.
  - exists r, u', w'. split; [done|]. destruct Hres as [[_ []]|(Hr & Hss & Hcase)]. split_and!; try done.
    + rewrite Hss. destruct Hcase as [(_ & Hn & _)|(j' & _ & Hj' & Hn & _)]; [by exists 0; split; [lia|]|]. exists j'. split; [lia|done].
    + destruct Hcase as [(_ & _ & _ & Ho)|(j' & _ & _ & _ & _ & Ho)]; done.
    + destruct Hcase as [(_ & _ & HK' & _)|(j' & _ & _ & _ & HK' & _)]; done.
Qed.

Lemma uber_perform_returns c u w : resumable u -> modules_ok u -> call_known c u ->
  exists r u' w', uber_perform c (u, w) = (r, (u', w')) /\ returns r /\ resumable u' /\ modules_ok u'.
Proof.
  intros [Hsink Hstream] Hok Hknown.
  assert (forall {A} i (m : stM (D * fworld) DiscoveryErrorKind A) v w0 (K : UberModule FU D -> Prop), (forall d w, dc_inv d -> returns (m (d, w)).1 /\ dc_inv (m (d, w)).2.1) ->
    i < length (discovery v) -> modules_ok v -> (forall v', extended v' = extended v -> K v') ->
    exists r v' w', on_module i m (v, w0) = (r, (v', w')) /\ returns r /\ states v' = states v /\ last_sink_state v' = last_sink_state v /\ last_stream_state v' = last_stream_state v /\
    modules_ok v' /\ K v') as Hmod.
  { intros A i m v w0 K Hm Hi Hv HK. destruct (on_module_returns m i v w0 Hm Hv Hi) as (r & v' & w' & He & Hr & Hl & Hx & Hs1 & Hs2 & Hok').
    exists r, v', w'. split_and!; try done; [|by apply HK]. apply states_same; [done|by rewrite Hx]. }
  assert (forall u', states u' = states u -> (exists j, j <= length (states u') /\ last_sink_state u' = before u' j) -> last_stream_state u' = last_stream_state u -> resumable u') as Hres1.
  { intros u' Hss Hl Ho. split; [done|]. rewrite Ho, Hss. destruct Hstream as (j & Hj & ->). exists j. split; [done|]. destruct j; [done|]. cbn. by rewrite Hss. }
  assert (forall u', states u' = states u -> (exists j, j <= length (states u') /\ last_stream_state u' = before u' j) -> last_sink_state u' = last_sink_state u -> resumable u') as Hres2.
  { intros u' Hss Hl Ho. split; [|done]. rewrite Ho, Hss. destruct Hsink as (j & Hj & ->). exists j. split; [done|]. destruct j; [done|]. cbn. by rewrite Hss. }
  destruct c as [message| |]; cbn [uber_perform call_known] in *.
  - destruct (uber_loop_returns sink_is_ready true last_sink_state last_stream_state set_sink (sink_logic id_order custom_order message) (fun v => modules_ok v /\ fits_uber message v) (Ok SinkReady) u w)
      as (r & u' & w' & He & Hr & Hss & Hl & Ho & Hok' & _); try done.
    + intros st v w0 [Hv HK] Hin.
      assert (forall m, (forall em, extended v = Some em -> fits_extended m em) -> (forall v', (forall em, extended v' = Some em -> fits_extended m em) -> fits_uber message v') ->
        exists r u' w', on_extended id_order custom_order m (v, w0) = (r, (u', w')) /\ returns r /\ states u' = states v /\ last_sink_state u' = last_sink_state v /\
        last_stream_state u' = last_stream_state v /\ modules_ok u' /\ fits_uber message u') as Hext.
      { intros m Hm Hm'. unfold on_extended. destruct (extended v) as [em|] eqn:Hem; [|by eexists _, _, _].
        destruct (em_process_returns m em (discovery v) w0 (Hm em eq_refl) Hv) as (r & em' & ds & w' & -> & Hr & Hlen & Hds & Hp). eexists _, _, _. split; [done|]. split; [by destruct r|].
        split; [apply states_same; cbn; [done|rewrite Hem; split; eauto]|]. split_and!; try done. apply Hm'. cbn. by intros ? [= <-]. }
      destruct st as [|i]; destruct message as [control|ext|item]; cbn [sink_logic].
      * apply Hext; [done|]. by intros.
      * by apply Hext.
      * by eexists _, _, _.
      * unfold mbind, stM_bind. destruct (Hmod _ i (dm_start_send (DControl control)) v w0 (fits_uber (UControl control)) (fun d w Hd => dc_send _ d w Hd HK) (Hin i eq_refl) Hv) as (r & v' & w' & -> & Hr & ?); [done|].
        destruct r; try done; by eexists _, _, _.
      * by eexists _, _, _.
      * unfold mbind, stM_bind. destruct (Hmod _ i (dm_start_send item) v w0 (fits_uber (UDiscovery item)) (fun d w Hd => dc_send _ d w Hd HK) (Hin i eq_refl) Hv) as (r & v' & w' & -> & Hr & ?); [done|].
        destruct r; try done; by eexists _, _, _.
    + exists (match r with Ok _ => Ok None | Err e => Err e | Panic => Panic | NoFuel => NoFuel end), u', w'. unfold uber_start_send, start_sink_state, mbind, stM_bind. rewrite He.
      split; [by destruct r|]. split; [by destruct r|]. split; [by apply Hres1|done].
  - destruct (uber_loop_returns async_is_ready true last_sink_state last_stream_state set_sink complete_logic modules_ok (Ok (Ready ())) u w)
      as (r & u' & w' & He & Hr & Hss & Hl & Ho & Hok'); try done.
    + intros [|i] v w0 HK Hin; [by eexists _, _, _|]. destruct (Hmod _ i dm_poll_complete v w0 (fun _ => True) dc_complete (Hin i eq_refl) HK) as (r & v' & w' & He & ? & ? & ? & ? & ? & _); [done|].
      by exists r, v', w'.
    + exists (match r with Ok _ => Ok None | Err e => Err e | Panic => Panic | NoFuel => NoFuel end), u', w'. unfold uber_poll_complete, poll_sink_state, mbind, stM_bind. rewrite He.
      split; [by destruct r|]. split; [by destruct r|]. split; [by apply Hres1|done].
  - destruct (uber_loop_returns async_is_ready false last_stream_state last_sink_state set_stream stream_logic modules_ok (Ok NotReady) u w)
      as (r & u' & w' & He & Hr & Hss & Hl & Ho & Hok'); try done.
    + intros [|i] v w0 HK Hin.
      * cbn [stream_logic]. unfold poll_extended. destruct (extended v) as [em|] eqn:Hem; [|by eexists _, _, _]. destruct (em_poll em w0) as [a em']. eexists _, _, _. split; [done|]. split; [done|].
        split; [apply states_same; cbn; [done|rewrite Hem; split; eauto]|done].
      * cbn [stream_logic]. unfold mbind, stM_bind. destruct (Hmod _ i dm_poll v w0 (fun _ => True) dc_poll (Hin i eq_refl) HK) as (r & v' & w' & -> & Hr & ? & ? & ? & ? & _); [done|].
        destruct r; try done; by eexists _, _, _.
    + exists (match r with Ok a => Ok (match a with Ready o => o | NotReady => None end) | Err e => Err e | Panic => Panic | NoFuel => NoFuel end), u', w'. unfold uber_poll, poll_stream_state, mbind, stM_bind.
      rewrite He. split; [by destruct r|]. split; [by destruct r|]. split; [by apply Hres2|done].
Qed.

(** The modules that calls lead to. *)
Inductive uber_reach : UberModule FU D -> Prop :=
| reach_new builder : Forall dc_inv (ub_discovery builder) -> uber_reach (from_builder builder)
| reach_call u c w r u' w' : uber_reach u -> call_known c u -> uber_perform c (u, w) = (r, (u', w')) -> uber_reach u'.

Lemma uber_reach_ok u : uber_reach u -> resumable u /\ modules_ok u.
Proof.
  induction 1 as [builder Hb|u c w r u' w' _ [Hr Hok] Hk He].
  - split; [|done]. split; exists 0; (split; [lia|done]).
  - destruct (uber_perform_returns c u w Hr Hok Hk) as (r' & u2 & w2 & He' & _ & ?). rewrite He in He'. by injection He' as _ <- _.
Qed.

(** C29. The module of modules is as safe as its modules: when each keeps its own
    invariant and returns on messages that fit, every call returns, with a value or
    an error, and no loop over the modules runs on.  Calls are polls of the stream
    and of the sink and messages that fit: what they carry fits the modules, and an
    extended message is of a peer that is connected.  Any calls of this kind came
    before, refused and failed ones included. *)
Theorem uber_calls_return u c w : uber_reach u -> call_known c u -> returns (uber_perform c (u, w)).1.
Proof.
  intros [Hr Hok]%uber_reach_ok Hk. by destruct (uber_perform_returns c u w Hr Hok Hk) as (r & u' & w' & -> & ? & _).
Qed.
End returning.

(** ** The metadata module keeps the contract *)

Section metadata.
Context {FU : Futures} `{SH : Sha1}.
Context (po : gmap ShaHash (option PendingInfo) -> list ShaHash) (pe : PeerSet -> list PeerKey).

Definition theirs_fit (o : option ExtendedMessage) : Prop :=
  match o with Some msg => forall size, metadata_size (ext_fields msg) = Some size -> size_fits size | None => True end.

Lemma theirs_fit_ext ext : theirs_fit (theirs ext) -> ext_fits ext.
Proof. intros Ht size. unfold their_size, their_message. by destruct (theirs ext); [apply Ht|]. Qed.

#[local] Instance UtM : DiscoveryModule (UtMetadataModule FU) := UtMetadata_discovery po pe.

Definition UtMetadata_contract (Hpo : visits_all po) (Hpe : visits_all pe) : DiscoveryContract (UtMetadataModule FU).
Proof.
  refine {| dc_inv := meta_ok; dc_fits := message_fits; dc_theirs := theirs_fit |}.
  - exact I.
  - intros info ext d w Hd Ht. cbn. destruct (on_update_settles po Hpo info ext d w Hd (theirs_fit_ext _ Ht)) as (s' & w' & -> & [? _ _ _]). done.
  - intros item d w Hd Hf. cbn. destruct (start_send_settles po Hpo item d w Hd Hf) as (r & s' & w' & -> & ? & [? _ _ _]). done.
  - intros d w Hd. by cbn.
  - intros d w Hd. cbn. destruct (poll_spec po pe Hpo Hpe d w Hd) as (o & s1 & s' & w' & -> & _ & _ & ? & _). done.
Defined.
End metadata.
