(* ===== verification/SelLearn.v ===== *)
(** * A peer becomes known through its extended handshake

    Through the module of modules: a peer that connects is sent an extended
    handshake that offers [ut_metadata]; when its own handshake arrives, every
    metadata module counts it among the peers to ask. *)

From stdpp Require Import prelude list gmap strings.
From Stdlib Require Import ZArith Lia Strings.Byte.
From S2P Require Import Prelude Bytes Bencode Convert Sha Metainfo HsMessage PeerExtended SelBase SelMetadata SelMetadataProofs SelDownload SelUber SelUberProofs.

Section learn.
Context {FU : Futures} `{SH : Sha1}.
Context (po : gmap ShaHash (option PendingInfo) -> list ShaHash) (pe : PeerSet -> list PeerKey).
Hypothesis Hpo : visits_all po.
Hypothesis Hpe : visits_all pe.
Context (id_order : gmap ExtendedType byte -> list (ExtendedType * byte)) (custom_order : gmap bytes BencodeMut -> list (bytes * BencodeMut)).

#[local] Instance UtM' : DiscoveryModule (UtMetadataModule FU) := UtMetadata_discovery po pe.
Abbreviation M := (UtMetadataModule FU).
Implicit Types (u : UberModule FU M) (s : M) (w : fworld).

(** The module asks [p] for pieces of its torrent. *)
Definition knows (p : PeerInfo) (s : M) : Prop := exists a, active_peers s !! peer_hash p = Some a /\ is_Some (ap_peers a !! peer_key p).

Lemma check_keeps s w : meta_ok s -> exists s' w', check_stream_unblock po (s, w) = (Ok (), (s', w')) /\ meta_ok s' /\ active_peers s' = active_peers s.
Proof.
  intros Hs. destruct (check_stream_spec po Hpo w s) as [(h & s' & w' & _ & Hb)|(m & t & w' & Hc & Hr & _)]; [by destruct (fits_not_bad s h Hs)|].
  eexists _, w'. split; [exact Hc|]. split; [by apply meta_ok_refreshed|done].
Qed.

Lemma update_knows p ext s w : meta_ok s -> ext_fits ext -> exists s' w', on_update po p ext (s, w) = (Ok (), (s', w')) /\ meta_ok s' /\
  (supports (ours ext) = true -> supports (theirs ext) = true -> is_Some (their_size ext) -> knows p s').
Proof.
  intros Hs Hf. destruct (add_peer_keeps p ext Hf s w Hs) as (r & s1 & He & _ & Hs1 & _). destruct (check_keeps s1 w Hs1) as (s2 & w2 & Hc & Hs2 & Ha).
  assert (exists a, r = Ok a) as [a ->].
  { unfold add_peer in He. revert He. ut_run. destruct (supports _); [|intros [= <- _]; eauto]. destruct (supports _); [|intros [= <- _]; eauto].
    destruct (their_size _); intros [= <- _]; eauto. }
  exists s2, w2. split; [unfold on_update, with_result; ut_run; rewrite He; exact Hc|]. split; [done|]. intros H1 H2 [size H3]. unfold knows. rewrite Ha.
  revert He. unfold add_peer. ut_run. unfold our_message, their_message. rewrite H1, H2, H3. intros [= _ <-]. eexists. cbn. split; [apply lookup_insert_eq|]. cbn [ap_peers].
  unfold peers_insert. destruct (ap_peers _ !! peer_key p) eqn:Hx; [rewrite Hx; eauto|rewrite lookup_insert_eq; eauto].
Qed.

Lemma update_all_knows p ext ds : Forall meta_ok ds -> ext_fits ext -> forall w, exists ds' w', update_all p ext ds w = (Ok ds', w') /\ Forall meta_ok ds' /\ length ds' = length ds /\
  (supports (ours ext) = true -> supports (theirs ext) = true -> is_Some (their_size ext) -> Forall (knows p) ds').
Proof.
  intros Hds Hf. induction Hds as [|d ds Hd _ IH]; intros w; cbn [update_all]; [by exists [], w|].
  destruct (update_knows p ext d w Hd Hf) as (d' & w1 & He & Hd' & Hk). unfold dm_on_update at 1. cbn [UtM' UtMetadata_discovery]. rewrite He.
  destruct (IH w1) as (ds' & w2 & -> & Hds' & Hl & Hks). exists (d' :: ds'), w2. split; [done|]. split; [by constructor|]. split; [cbn; lia|]. intros. constructor; auto.
Qed.

Lemma extended_builder ds p builder : ds <> [] ->
  id_map (builder_fields (foldl (fun builder (d : M) => dm_extend d p builder) builder ds)) !! UtMetadata = Some x05.
Proof.
  intros Hne. destruct (exists_last Hne) as (k & d & ->). rewrite foldl_app. cbn. apply lookup_insert_eq.
Qed.

Lemma em_check_keeps (em : ExtendedModule FU) (ds : list M) w : exists em' w', em_check_stream_unblock (em, ds, w) = (Ok (), (em', ds, w')) /\
  em_peers em' = em_peers em /\ em_queue em' = em_queue em.
Proof. unfold em_check_stream_unblock, mbind, stM_bind. cbn [em_get fst]. destruct (negb _); [|by eexists _, _]. destruct (em_task em); by eexists _, _. Qed.

(** [p] was sent our handshake, and its own is awaited. *)
Definition greeted (p : PeerInfo) (q : list OExtendedMessage) (u : UberModule FU M) : Prop :=
  Forall meta_ok (discovery u) /\ exists em ext m, extended u = Some em /\ em_peers em !! peer_key p = Some ext /\ ours ext = Some m /\
  query_id m UtMetadata = Some x05 /\ em_queue em = q ++ [SendExtendedMessage p m].

Lemma process_connected p em ds w : Forall meta_ok ds -> ds <> [] -> exists em' ds' w' m ext,
  process_message id_order custom_order (EControl (PeerConnected p)) (em, ds, w) = (Ok (), (em', ds', w')) /\ Forall meta_ok ds' /\ length ds' = length ds /\
  em_peers em' !! peer_key p = Some ext /\ ours ext = Some m /\ query_id m UtMetadata = Some x05 /\ em_queue em' = em_queue em ++ [SendExtendedMessage p m].
Proof.
  intros Hds Hne. unfold process_message, mbind, stM_bind. cbn [em_get em_modules fst snd]. set (m := ExtendedMessageBuilder_build _ _ _).
  unfold em_update_all. destruct (update_all_knows p (ExtendedPeerInfo_new (Some m) None) ds Hds) with (w := w) as (ds' & w1 & -> & Hds' & Hl & _); [by intros size|].
  cbn [em_set]. match goal with |- context [em_check_stream_unblock (?e, ?d, ?v)] => destruct (em_check_keeps e d v) as (em' & w' & -> & Hp & Hq) end.
  eexists _, _, _, m, _. split; [done|]. split; [done|]. split; [done|]. rewrite Hp, Hq. cbn. rewrite lookup_insert_eq. split; [done|]. split; [done|]. split; [|done].
  by apply extended_builder.
Qed.

Lemma process_received p msg em ds w ext m : Forall meta_ok ds -> em_peers em !! peer_key p = Some ext -> ours ext = Some m -> query_id m UtMetadata = Some x05 ->
  theirs_fit (Some msg) -> exists em' ds' w', process_message id_order custom_order (RecievedExtendedMessage p msg) (em, ds, w) = (Ok (), (em', ds', w')) /\
  em_queue em' = em_queue em /\ length ds' = length ds /\ Forall meta_ok ds' /\
  (is_Some (query_id msg UtMetadata) -> is_Some (metadata_size (ext_fields msg)) -> Forall (knows p) ds').
Proof.
  intros Hds Hp Hm Hq Hf. unfold process_message, mbind, stM_bind. cbn [em_get fst snd lift]. rewrite Hp. cbn [unwrap em_set]. unfold em_update_all.
  destruct (update_all_knows p (update_theirs ext msg) ds Hds) with (w := w) as (ds' & w1 & -> & Hds' & Hl & Hk); [by apply theirs_fit_ext|].
  match goal with |- context [em_check_stream_unblock (?e, ?d, ?v)] => destruct (em_check_keeps e d v) as (em' & w' & -> & _ & Hq') end.
  eexists _, _, _. split; [done|]. split; [done|]. split; [done|]. split; [done|]. intros [x Hx] Hs. apply Hk; cbn [update_theirs ours theirs].
  - rewrite Hm. unfold supports. cbn. by rewrite Hq.
  - unfold supports. cbn. by rewrite Hx.
  - exact Hs.
Qed.

(** A discovery module takes a control message that a peer connected. *)
Lemma connected_taken p s w : meta_ok s -> exists s' w', start_send po (DControl (PeerConnected p)) (s, w) = (Ok SinkReady, (s', w')) /\ meta_ok s'.
Proof.
  intros Hs. destruct (check_keeps s w Hs) as (s' & w' & Hc & Hs' & _). exists s', w'. split; [|done]. unfold start_send, with_result. ut_run. by rewrite Hc.
Qed.

Definition kept_at (P : UberModule FU M -> Prop) (Q : UberModule FU M -> Prop) (j : nat) (u : UberModule FU M) : Prop :=
  is_Some (extended u) /\ match j with 0 => P u | _ => Q u end.

Lemma first_state u j st : is_Some (extended u) -> states u !! j = Some st -> (st = MsExtended /\ j = 0) \/ exists i, st = MsDiscovery i /\ j = S i /\ i < length (discovery u).
Proof.
  intros [em Hem] Hst. destruct st as [|i].
  - left. split; [done|]. unfold states in Hst. rewrite Hem in Hst. destruct j as [|j]; [done|]. cbn in Hst. rewrite discovery_states in Hst. by destruct (_ <? _).
  - right. exists i. split; [done|]. split; [|by eapply state_in_range]. unfold states in Hst. rewrite Hem in Hst. destruct j as [|j]; [done|]. cbn in Hst. rewrite discovery_states in Hst.
    destruct (_ <? _); [|done]. by injection Hst as ->.
Qed.

(** A message that the extended module handles, leading from [P] to [Q], and that
    the discovery modules take, keeping [Q]. *)
Lemma handled message (P Q : UberModule FU M -> Prop) u w :
  (forall v st, P v -> P (set_sink v st)) -> (forall v st, Q v -> Q (set_sink v st)) ->
  (forall v w, is_Some (extended v) -> P v -> exists v' w', sink_logic id_order custom_order message MsExtended (v, w) = (Ok SinkReady, (v', w')) /\
     length (discovery v') = length (discovery v) /\ is_Some (extended v') /\ last_sink_state v' = last_sink_state v /\ Q v') ->
  (forall v w i, i < length (discovery v) -> Q v -> exists v' w', sink_logic id_order custom_order message (MsDiscovery i) (v, w) = (Ok SinkReady, (v', w')) /\
     length (discovery v') = length (discovery v) /\ extended v' = extended v /\ last_sink_state v' = last_sink_state v /\ Q v') ->
  is_Some (extended u) -> last_sink_state u = None -> P u ->
  exists u' w', uber_start_send id_order custom_order message (u, w) = (Ok SinkReady, (u', w')) /\ last_sink_state u' = None /\ is_Some (extended u') /\ Q u'.
Proof.
  intros HPa HQa Hext Hdisc Hem Hl HP.
  destruct (loop_states_spec sink_is_ready true last_sink_state set_sink (sink_logic id_order custom_order message) (fun _ _ => eq_refl) (fun _ _ => eq_refl)
    (states u) (kept_at P Q) (fun _ _ _ => False) (fun _ => False)) with (j := 0) (u := u) (w := w) (init := (Ok SinkReady : outcome UberErrorKind (AsyncSink ()))) as (r & u' & w' & He & Hres); try done; [..|lia|].
  - intros j v st [He Hj]. split; [done|]. destruct j; auto.
  - intros j st v w0 [Hv Hj] Hss Hst. rewrite <- Hss in Hst. destruct (first_state v j st Hv Hst) as [[-> ->]|(i & -> & -> & Hi)].
    + destruct (Hext v w0 Hv Hj) as (v' & w1 & Hs & Hlen & Hx & Hl' & HQ). exists (Ok SinkReady), v', w1. split; [done|]. right. split; [done|]. split; [|done].
      rewrite <- Hss. by apply states_same.
    + destruct (Hdisc v w0 i Hi Hj) as (v' & w1 & Hs & Hlen & Hx & Hl' & HQ). exists (Ok SinkReady), v', w1. split; [done|]. right. split; [done|].
      split; [rewrite <- Hss; apply states_same; [done|by rewrite Hx]|]. split; [done|]. split; [by rewrite Hx|done].
  - destruct Hres as [[_ []]|(_ & _ & [(Hg & Hn & Hx & HQ)|(j' & _ & _ & _ & [])])]. exists u', w'. unfold uber_start_send, start_sink_state, mbind, stM_bind. rewrite He.
    destruct r as [[]| | |]; try done. split_and!; try done. destruct Hem as [em Hem]. unfold states in HQ. by rewrite Hem in HQ.
Qed.

(** C23. The two halves of an extended handshake that go through the module of modules,
    built with an extended builder and at least one metadata module, with no message
    under way: once [p] connects, whatever the extension bit of its handshake, a
    message that offers [ut_metadata] under the identifier 5 is queued for it; once
    the message of [p] arrives, if it offers [ut_metadata] with a size that fits,
    every metadata module has [p] among the peers it asks. *)
Theorem uber_learns_peer u em p msg w : extended u = Some em -> last_sink_state u = None -> Forall meta_ok (discovery u) -> discovery u <> [] ->
  is_Some (query_id msg UtMetadata) -> is_Some (metadata_size (ext_fields msg)) -> theirs_fit (Some msg) ->
  exists u1 w1 u2 w2 em2 m,
    uber_start_send id_order custom_order (UControl (PeerConnected p)) (u, w) = (Ok SinkReady, (u1, w1)) /\
    uber_start_send id_order custom_order (UExtended (RecievedExtendedMessage p msg)) (u1, w1) = (Ok SinkReady, (u2, w2)) /\
    extended u2 = Some em2 /\ em_queue em2 = em_queue em ++ [SendExtendedMessage p m] /\ query_id m UtMetadata = Some x05 /\
    length (discovery u2) = length (discovery u) /\ Forall (knows p) (discovery u2).
Proof.
  intros Hem Hl Hok Hne Hid Hsize Hf. set (n := length (discovery u)). assert (n <> 0) as Hn by (unfold n; by destruct (discovery u)).
  destruct (handled (UControl (PeerConnected p)) (fun v => extended v = Some em /\ Forall meta_ok (discovery v) /\ length (discovery v) = n)
    (fun v => greeted p (em_queue em) v /\ length (discovery v) = n) u w) as (u1 & w1 & He1 & Hl1 & Hx1 & (Hg & Hn1)); try done.
  - intros v w0 _ (Hv & Hds & Hlen). cbn [sink_logic]. unfold on_extended. rewrite Hv.
    destruct (process_connected p em (discovery v) w0 Hds) as (em' & ds' & w' & m & ext & -> & Hds' & Hlen' & ?); [by intros Hnil; rewrite Hnil in Hlen|].
    eexists _, _. split; [done|]. cbn. split; [done|]. split; [eauto|]. split; [done|]. split; [|lia]. split; [done|]. exists em', ext, m. by destruct_and!.
  - intros v w0 i Hi [[Hds Hg] Hlen]. cbn [sink_logic]. unfold mbind, stM_bind, on_module. destruct (lookup_lt_is_Some_2 _ _ Hi) as [d Hd]. rewrite Hd.
    destruct (connected_taken p d w0) as (d' & w' & Hs & Hd'); [by eapply Forall_lookup_1|]. unfold dm_start_send at 1. cbn [UtM' UtMetadata_discovery]. rewrite Hs.
    eexists _, _. split; [done|]. cbn. rewrite length_insert. split_and!; try done. split; [by apply Forall_insert|done].
  - destruct (handled (UExtended (RecievedExtendedMessage p msg)) (fun v => greeted p (em_queue em) v /\ length (discovery v) = n)
      (fun v => (exists em2 m, extended v = Some em2 /\ em_queue em2 = em_queue em ++ [SendExtendedMessage p m] /\ query_id m UtMetadata = Some x05) /\
        length (discovery v) = n /\ Forall (knows p) (discovery v)) u1 w1) as (u2 & w2 & He2 & _ & _ & ((em2 & m & ?) & ? & ?)); try done.
    + intros v w0 _ [(Hds & em1 & ext & m & Hv & Hp & Ho & Hq & Hqueue) Hlen]. cbn [sink_logic]. unfold on_extended. rewrite Hv.
      destruct (process_received p msg em1 (discovery v) w0 ext m Hds Hp Ho Hq Hf) as (em' & ds' & w' & -> & Hq' & Hlen' & _ & Hk).
      eexists _, _. split; [done|]. cbn. split; [done|]. split; [eauto|]. split; [done|]. split; [|split; [lia|by apply Hk]]. exists em', m. by rewrite Hq'.
    + intros v w0 i Hi HQ. cbn [sink_logic]. by eexists _, _.
    + exists u1, w1, u2, w2, em2, m. by destruct_and!.
Qed.
End learn.

(** ** Runs *)

#[local] Existing Instance Futures_log.
#[local] Existing Instance Sha1_pad.
#[local] Instance Ut_sample : DiscoveryModule (UtMetadataModule Futures_log) := UtMetadata_discovery map_keys map_keys.
#[local] Instance Ut_sample_contract : DiscoveryContract (UtMetadataModule Futures_log) := UtMetadata_contract map_keys map_keys map_keys_visits_all map_keys_visits_all.

(** A module whose queue of requests is full, and one more request. *)
Definition full_module : UtMetadataModule Futures_log :=
  mk_UtMetadataModule _ ∅ ∅ ∅ [] (replicate MAX_PEER_REQUESTS (mk_PeerRequest sample_peer (UtMetadataRequestMessage_new 0))) None None.
Definition one_more : IUberMessage := UDiscovery (ReceivedUtMetadataMessage sample_peer (UtRequest (UtMetadataRequestMessage_new 0))).
Definition half_full : UberModule Futures_log (UtMetadataModule Futures_log * list IDiscoveryMessage) :=
  mk_UberModule [(UtMetadataModule_new, []); (full_module, [])] None None None.

Section once.
#[local] Existing Instance Logged.

(** The first module takes the message, the second refuses it; a poll makes room,
    and the message that is sent again goes to the second only. *)
Definition refused_half := uber_start_send map_to_list map_to_list one_more (half_full, (0, [])).
Definition polled_half := uber_poll refused_half.2.
Definition taken_half := uber_start_send map_to_list map_to_list one_more polled_half.2.

Lemma taken_half_sent : sends map_to_list map_to_list one_more half_full taken_half.2.1.
Proof.
  apply sends_again with (w := (0, [])) (u1 := refused_half.2.1) (w1 := refused_half.2.2) (message' := one_more).
  { unfold refused_half. vm_compute. reflexivity. }
  apply sends_polled with (w := refused_half.2.2) (r := polled_half.1) (u1 := polled_half.2.1) (w1 := polled_half.2.2).
  { unfold polled_half. destruct refused_half as [r [u w]]. cbn [fst snd]. by destruct (uber_poll (u, w)) as [r1 [u1 w1]]. }
  apply sends_taken with (w := polled_half.2.2) (w' := taken_half.2.2). vm_compute. reflexivity.
Qed.

Lemma uber_delivers_once_witness :
  sink_is_ready (match refused_half.1 with Ok a => a | _ => SinkReady end) = false /\
  (discovery taken_half.2.1).*2 = [for_discovery one_more; for_discovery one_more].
Proof.
  split; [vm_compute; reflexivity|].
  refine (proj1 (uber_delivers_once map_to_list map_to_list one_more half_full taken_half.2.1 eq_refl taken_half_sent)).
Defined.

(** [poll_complete] shares the saved state with [start_send]: between two attempts
    it walks to the end and starts over, and the first module gets the message twice. *)
Example complete_sends_twice :
  let again := uber_start_send map_to_list map_to_list one_more (uber_poll (uber_poll_complete refused_half.2).2).2 in
  length <$> (discovery again.2.1).*2 = [2; 1].
Proof. vm_compute. reflexivity. Qed.

(** After an error of the second module the next message starts there, and the
    first does not get it. *)
Definition serving_module : UtMetadataModule Futures_log := mk_UtMetadataModule _ {[info_hash sample_dict := sample_content]} ∅ ∅ [] [] None None.
Definition half_serving : UberModule Futures_log (UtMetadataModule Futures_log * list IDiscoveryMessage) :=
  mk_UberModule [(UtMetadataModule_new, []); (serving_module, [])] None None None.
Definition failed_half := uber_start_send map_to_list map_to_list (UControl (AddTorrent (Metainfo_from_info sample_dict))) (half_serving, (0, [])).

Example error_skips_modules :
  (match failed_half.1 with Err _ => true | _ => false end) = true /\
  length <$> (discovery failed_half.2.1).*2 = [1; 0] /\
  length <$> (discovery (uber_start_send map_to_list map_to_list one_more failed_half.2).2.1).*2 = [1; 1].
Proof. vm_compute. done. Qed.
End once.

Definition sample_uber : UberModule Futures_log (UtMetadataModule Futures_log) :=
  from_builder (with_discovery_module (with_discovery_module (with_extended_builder UberModuleBuilder_new (Some ExtendedMessageBuilder_new)) UtMetadataModule_new) UtMetadataModule_new).
Definition sample_message : ExtendedMessage := mk_ExtendedMessage (sample_fields (Some 70%Z)) [].

Lemma sample_message_fits : theirs_fit (Some sample_message).
Proof. intros size [= <-]. split; vm_compute; (reflexivity || discriminate). Qed.

Lemma sample_modules_ok : Forall (meta_ok (FU := Futures_log)) (discovery sample_uber).
Proof. repeat (constructor; [apply meta_ok_new|]). constructor. Qed.

Lemma uber_calls_return_witness :
  let u := (uber_start_send map_to_list map_to_list (UControl (PeerConnected sample_peer)) (sample_uber, (0, []))).2.1 in
  returns (uber_perform map_to_list map_to_list (USend (UExtended (RecievedExtendedMessage sample_peer sample_message))) (u, (0, []))).1.
Proof.
  intros u. refine (uber_calls_return map_to_list map_to_list u (USend (UExtended (RecievedExtendedMessage sample_peer sample_message))) (0, []) _ _).
  - refine (reach_call map_to_list map_to_list sample_uber (USend (UControl (PeerConnected sample_peer))) (0, []) (Ok None) u (0, []) _ _ _).
    + apply reach_new. exact sample_modules_ok.
    + exact I.
    + vm_compute. reflexivity.
  - intros em Hem. split; [|exact sample_message_fits].
    assert (match extended u with Some em => match em_peers em !! peer_key sample_peer with Some _ => true | None => false end | None => true end = true) as Hk by (vm_compute; reflexivity).
    rewrite Hem in Hk. destruct (em_peers em !! peer_key sample_peer); [eauto|discriminate Hk].
Defined.

Lemma uber_learns_peer_witness : exists u1 w1 u2 w2 em2 m,
  uber_start_send map_to_list map_to_list (UControl (PeerConnected sample_peer)) (sample_uber, (0, [])) = (Ok SinkReady, (u1, w1)) /\
  uber_start_send map_to_list map_to_list (UExtended (RecievedExtendedMessage sample_peer sample_message)) (u1, w1) = (Ok SinkReady, (u2, w2)) /\
  extended u2 = Some em2 /\ em_queue em2 = [SendExtendedMessage sample_peer m] /\ query_id m UtMetadata = Some x05 /\
  length (discovery u2) = 2 /\ Forall (knows sample_peer) (discovery u2).
Proof.
  refine (uber_learns_peer map_keys map_keys map_keys_visits_all map_to_list map_to_list sample_uber (ExtendedModule_new ExtendedMessageBuilder_new) sample_peer sample_message (0, [])
    eq_refl eq_refl sample_modules_ok _ _ _ sample_message_fits); [discriminate|eexists; vm_compute; reflexivity|eexists; vm_compute; reflexivity].
Defined.
