(* ===== verification/PmBase.v ===== *)
(** * [bip_peer::manager]: configuration and streams with timeouts

    [manager/builder.rs], the timer that [PeerManager::from_builder] asks for, and
    the streams of [manager/future/mod.rs].  The timer of [tokio_timer] is a class
    of operations: a sleep is started with a duration, and polled at the time of
    the world.  The streams wrap any stream, given by its [poll]. *)

From stdpp Require Import prelude list gmap strings.
From Stdlib Require Import ZArith Lia.
From S2P Require Import Prelude Bytes MetainfoBuild SelBase.

(** ** The builder *)

Definition DEFAULT_PEER_CAPACITY : Z := 1000.
Definition DEFAULT_SINK_BUFFER_CAPACITY : Z := 100.
Definition DEFAULT_STREAM_BUFFER_CAPACITY : Z := 100.
Definition DEFAULT_HEARTBEAT_INTERVAL_MILLIS : N := 1 * 60 * 1000.
Definition DEFAULT_HEARTBEAT_TIMEOUT_MILLIS : N := 2 * 60 * 1000.

Record PeerManagerBuilder : Type := mk_PeerManagerBuilder {
  peer_capacity : Z;
  sink_buffer_capacity : Z;
  stream_buffer_capacity : Z;
  heartbeat_interval : Duration;
  heartbeat_timeout : Duration;
}.

Definition PeerManagerBuilder_new : PeerManagerBuilder :=
  mk_PeerManagerBuilder DEFAULT_PEER_CAPACITY DEFAULT_SINK_BUFFER_CAPACITY DEFAULT_STREAM_BUFFER_CAPACITY
    (from_millis DEFAULT_HEARTBEAT_INTERVAL_MILLIS) (from_millis DEFAULT_HEARTBEAT_TIMEOUT_MILLIS).

Section setters.
Context (self : PeerManagerBuilder).
Definition with_peer_capacity capacity :=
  mk_PeerManagerBuilder capacity (sink_buffer_capacity self) (stream_buffer_capacity self) (heartbeat_interval self) (heartbeat_timeout self).
Definition with_sink_buffer_capacity capacity :=
  mk_PeerManagerBuilder (peer_capacity self) capacity (stream_buffer_capacity self) (heartbeat_interval self) (heartbeat_timeout self).
Definition with_stream_buffer_capacity capacity :=
  mk_PeerManagerBuilder (peer_capacity self) (sink_buffer_capacity self) capacity (heartbeat_interval self) (heartbeat_timeout self).
Definition with_heartbeat_interval interval :=
  mk_PeerManagerBuilder (peer_capacity self) (sink_buffer_capacity self) (stream_buffer_capacity self) interval (heartbeat_timeout self).
Definition with_heartbeat_timeout timeout :=
  mk_PeerManagerBuilder (peer_capacity self) (sink_buffer_capacity self) (stream_buffer_capacity self) (heartbeat_interval self) timeout.
End setters.

(** ** The timer wheel *)

Definition DEFAULT_TIMER_SLOTS : Z := 2048.

Record TimerConfig : Type := mk_TimerConfig { tick_duration : Duration; max_capacity : Z; channel_capacity : Z; num_slots : Z }.

(** [Duration::as_secs] *)
Definition as_secs (d : Duration) : Z := Z.of_N (d / 1000000000).

(** Arithmetic on a 64-bit word that panics when it leaves its range. *)
Definition checked64 {E} (z : Z) : outcome E Z := if decide (in_unsigned 64 z) then Ok z else Panic.

Definition timer_config {E} (builder : PeerManagerBuilder) : outcome E TimerConfig :=
  maximum_timers ← checked64 (peer_capacity builder * 2);
  below ← checked64 (maximum_timers - 1);
  pow_maximum_timers ← (if (Z.land maximum_timers below =? 0)%Z then Ok maximum_timers else next_power_of_two maximum_timers);
  let max_duration := N.max (heartbeat_interval builder) (heartbeat_timeout builder) in
  millis ← checked64 (as_secs max_duration * 1000);
  tick ← checked64 (millis / DEFAULT_TIMER_SLOTS + 1);
  capacity ← checked64 (pow_maximum_timers + 1);
  Ok (mk_TimerConfig (from_millis (Z.to_N tick)) capacity pow_maximum_timers DEFAULT_TIMER_SLOTS).

(** What a wheel can time: as many ticks as it has slots. *)
Definition wheel_span (c : TimerConfig) : Duration := (tick_duration c * Z.to_N (num_slots c))%N.

(** ** Timers *)

(** [Timer::sleep] and [Sleep::poll]; the latter fails on a timer without room. *)
Class TimerOps : Type := {
  Timer : Type;
  Sleep : Type;
  tworld : Type;
  timer_sleep : Timer -> Duration -> tworld -> Sleep;
  sleep_poll : Sleep -> tworld -> outcome () (Async ());
}.

(** Time goes by in [now]; a sleep is over once its duration has passed. *)
Class TimerLaws {T : TimerOps} : Type := {
  now : tworld -> N;
  sleeps : Sleep -> N -> Duration -> Prop;
  sleep_starts : forall t d w, sleeps (timer_sleep t d w) (now w) d;
  sleep_ends : forall s t0 d w, sleeps s t0 d -> sleep_poll s w = Ok (if (t0 + d <=? now w)%N then Ready () else NotReady);
}.

(** ** The streams *)

Section streams.
Context {S A E : Type} (poll_inner : stM S E (Async (option A))).

Inductive PersistentError : Type := PDisconnect | PTimeout | PIoError (error : E).

(** [TimeoutError] of [tokio_timer]: the timer has failed, or the time is over. *)
Inductive TimeoutError : Type := TimerFailed | TimedOut.

(** [From<TimeoutError<T>> for PersistentError]: a timer that fails is a panic. *)
Definition PersistentError_from {F} (error : TimeoutError) : outcome F PersistentError :=
  match error with TimerFailed => Panic | TimedOut => Ok PTimeout end.

(** [Fuse]: once the stream has ended it is not polled again. *)
Record Fuse : Type := mk_Fuse { fuse_stream : S; fuse_done : bool }.
Definition fuse_poll : stM Fuse E (Async (option A)) :=
  fun f =>
    if fuse_done f then (Ok (Ready None), f)
    else
      let '(r, s) := poll_inner (fuse_stream f) in
      (r, mk_Fuse s (match r with Ok (Ready None) => true | _ => false end)).

Definition PersistentStream_new (stream : S) : Fuse := mk_Fuse stream false.

Definition persistent_poll : stM Fuse PersistentError (Async (option A)) :=
  item ← st_map_err PIoError fuse_poll;
  match item with
  | Ready None => lift (Err PDisconnect)
  | other => mret other
  end.

Inductive RecurringTimeoutError : Type := RDisconnect | RTimeout.

Record RecurringTimeoutStream {T : TimerOps} : Type := mk_RecurringTimeoutStream { rt_dur : Duration; rt_timer : Timer; rt_sleep : Sleep; rt_stream : S }.
#[global] Arguments RecurringTimeoutStream T : clear implicits.
#[global] Arguments mk_RecurringTimeoutStream T : clear implicits.

Context {T : TimerOps}.

Definition RecurringTimeoutStream_new (stream : S) (timer : Timer) (dur : Duration) (w : tworld) : RecurringTimeoutStream T :=
  mk_RecurringTimeoutStream T dur timer (timer_sleep timer dur w) stream.

(** [self.sleep = self.timer.sleep(self.dur)] *)
Definition restarted (self : RecurringTimeoutStream T) (stream : S) (w : tworld) : RecurringTimeoutStream T :=
  mk_RecurringTimeoutStream T (rt_dur self) (rt_timer self) (timer_sleep (rt_timer self) (rt_dur self) w) stream.

Definition recurring_poll (w : tworld) : stM (RecurringTimeoutStream T) RecurringTimeoutError (Async (option A)) :=
  fun self =>
    let '(r, stream) := poll_inner (rt_stream self) in
    let self := mk_RecurringTimeoutStream T (rt_dur self) (rt_timer self) (rt_sleep self) stream in
    match r with
    | Ok NotReady =>
        match sleep_poll (rt_sleep self) w with
        | Ok NotReady => (Ok NotReady, self)
        | Ok (Ready _) => (Err RTimeout, restarted self stream w)
        | _ => (Panic, self)
        end
    | Ok (Ready (Some v)) => (Ok (Ready (Some v)), restarted self stream w)
    | Ok (Ready None) => (Ok (Ready None), self)
    | Err _ => (Err RDisconnect, self)
    | Panic => (Panic, self)
    | NoFuel => (NoFuel, self)
    end.
End streams.

(** * The peer manager: heartbeats and the timer wheel

    The stream of a task with its recurring timeout, polled at any times, gives what
    the wrapped stream gives and a timeout whenever it was silent for the interval;
    and the wheel that [from_builder] asks for has room for two timers per peer and
    spans the intervals that are whole seconds. *)

(** ** The recurring timeout *)

Section heartbeat.
Context {T : TimerOps} {TL : TimerLaws} {S A E : Type} (poll_inner : stM S E (Async (option A))).
Abbreviation result := (outcome RecurringTimeoutError (Async (option A))).

(** Polls at the times of [ws], until the stream fails for good. *)
Fixpoint polls (ws : list tworld) (self : RecurringTimeoutStream (S := S) T) : list result :=
  match ws with
  | [] => []
  | w :: ws => let '(r, self) := recurring_poll poll_inner w self in r :: polls ws self
  end.

(** What the wrapped stream gives to as many polls. *)
Fixpoint inner (n : nat) (s : S) : list (outcome E (Async (option A))) :=
  match n with 0 => [] | Datatypes.S n => let '(r, s) := poll_inner s in r :: inner n s end.

(** The specification: items pass, and a silence of [dur] since [last], the time of
    the last item or timeout, is a timeout. *)
Fixpoint beat (dur last : N) (steps : list (N * outcome E (Async (option A)))) : list result :=
  match steps with
  | [] => []
  | (now, Ok NotReady) :: steps => if (last + dur <=? now)%N then Err RTimeout :: beat dur now steps else Ok NotReady :: beat dur last steps
  | (now, Ok (Ready (Some v))) :: steps => Ok (Ready (Some v)) :: beat dur now steps
  | (_, Ok (Ready None)) :: steps => Ok (Ready None) :: beat dur last steps
  | (_, Err _) :: steps => Err RDisconnect :: beat dur last steps
  | (_, Panic) :: steps => Panic :: beat dur last steps
  | (_, NoFuel) :: steps => NoFuel :: beat dur last steps
  end.

Lemma polls_beat ws : forall self last, sleeps (rt_sleep self) last (rt_dur self) -> polls ws self = beat (rt_dur self) last (zip (now <$> ws) (inner (length ws) (rt_stream self))).
Proof.
  induction ws as [|w ws IH]; intros self last Hs; [done|]. cbn [polls length inner fmap list_fmap]. unfold recurring_poll. destruct (poll_inner (rt_stream self)) as [r s].
  pose proof (sleep_starts (rt_timer self) (rt_dur self) w) as Hnew.
  destruct r as [[[v|]|]|e| |]; cbn [zip zip_with beat]; try (f_equal; by apply (IH (mk_RecurringTimeoutStream T (rt_dur self) (rt_timer self) (rt_sleep self) s))).
  - f_equal. by apply (IH (restarted self s w)).
  - cbn [rt_sleep]. rewrite (sleep_ends _ last (rt_dur self) w Hs). destruct (last + rt_dur self <=? now w)%N; f_equal.
    + by apply (IH (restarted self s w)).
    + by apply (IH (mk_RecurringTimeoutStream T (rt_dur self) (rt_timer self) (rt_sleep self) s)).
Qed.

(** Whatever the times it is polled at, a new stream with a recurring timeout gives
    the items of the stream it wraps, and a timeout exactly when a poll finds the
    interval gone by since the last item or timeout. *)
Theorem recurring_timeout_beats stream timer dur w ws :
  polls ws (RecurringTimeoutStream_new stream timer dur w) = beat dur (now w) (zip (now <$> ws) (inner (length ws) stream)).
Proof. apply (polls_beat ws (RecurringTimeoutStream_new stream timer dur w) (now w)). apply sleep_starts. Qed.
End heartbeat.

(** A clock: a sleep is the time it ends at. *)
Definition Timer_clock : TimerOps := {|
  Timer := ();
  Sleep := N * N;
  tworld := N;
  timer_sleep _ d now := (now, d);
  sleep_poll s now := Ok (if (s.1 + s.2 <=? now)%N then Ready () else NotReady);
|}.

Definition Timer_clock_laws : TimerLaws (T := Timer_clock).
Proof.
  refine {| now := fun w : @tworld Timer_clock => (w : N); sleeps := fun (s : @Sleep Timer_clock) t0 d => s = (t0, d) |}.
  - done.
  - by intros s t0 d w ->.
Defined.

(** A silent stream beats at its interval, an item puts the next beat off. *)
Example silent_stream_beats :
  let stream := [NotReady; NotReady; Ready (Some 1); NotReady; NotReady] in
  let poll (l : list (Async (option nat))) : outcome () (Async (option nat)) * list (Async (option nat)) := match l with a :: l => (Ok a, l) | [] => (Ok NotReady, []) end in
  polls (T := Timer_clock) poll [5; 10; 15; 24; 25]%N (RecurringTimeoutStream_new (T := Timer_clock) stream () 10%N 0%N) =
  [Ok NotReady; Err RTimeout; Ok (Ready (Some 1)); Ok NotReady; Err RTimeout].
Proof. vm_compute. reflexivity. Qed.

(** ** The timer wheel *)

Lemma next_power_of_two_le {E} n p : (0 < n)%Z -> next_power_of_two (E := E) n = Ok p -> (n <= p)%Z.
Proof.
  unfold next_power_of_two. intros Hn. destruct (decide _); [|done]. intros [= <-]. destruct (Z.eq_dec n 1) as [->|]; [done|]. apply Z.log2_up_spec. lia.
Qed.

Lemma checked64_ok {E} z z' : checked64 (E := E) z = Ok z' -> z' = z /\ in_unsigned 64 z.
Proof. unfold checked64. destruct (decide _); [|done]. by intros [= <-]. Qed.

(** The wheel has room for the two timers of every peer, and one more; and it spans
    the heartbeat interval and timeout when they are whole seconds. *)
Theorem timer_wheel_fits {E} builder c : timer_config (E := E) builder = Ok c ->
  (2 * peer_capacity builder <= channel_capacity c < max_capacity c)%Z /\
  let longest := N.max (heartbeat_interval builder) (heartbeat_timeout builder) in
  ((longest mod 1000000000)%N = 0%N -> (longest <= wheel_span c)%N).
Proof.
  unfold timer_config. intros (n & [-> Hn]%checked64_ok & (b & [-> Hb]%checked64_ok & (p & Hp & (ms & [-> Hms]%checked64_ok & (tick & [-> Ht]%checked64_ok & (cap & [-> Hc]%checked64_ok & [= <-])
    %outcome_bind_ok)%outcome_bind_ok)%outcome_bind_ok)%outcome_bind_ok)%outcome_bind_ok)%outcome_bind_ok.
  cbn [channel_capacity max_capacity]. unfold in_unsigned in *. split.
  - destruct (Z.land _ _ =? 0)%Z; [injection Hp as <-; lia|]. apply next_power_of_two_le in Hp; lia.
  - intros Hmod. set (longest := N.max (heartbeat_interval builder) (heartbeat_timeout builder)) in *. unfold wheel_span, from_millis, as_secs, DEFAULT_TIMER_SLOTS in *. cbn [tick_duration num_slots].  clearbody longest.
    pose proof (N.div_mod longest 1000000000 ltac:(done)) as Hdiv. rewrite Hmod, N.add_0_r in Hdiv. set (q := (longest / 1000000000)%N) in *. clearbody q. subst longest.
    pose proof (Z.div_mod (Z.of_N q * 1000) 2048 ltac:(done)). pose proof (Z.mod_pos_bound (Z.of_N q * 1000) 2048 ltac:(lia)). lia.
Qed.

Lemma timer_wheel_fits_witness :
  let longest := N.max (heartbeat_interval PeerManagerBuilder_new) (heartbeat_timeout PeerManagerBuilder_new) in
  (longest <= wheel_span (mk_TimerConfig (from_millis 59) 2049 2048 2048))%N.
Proof.
  intros longest. refine (proj2 (timer_wheel_fits (E := ()) PeerManagerBuilder_new (mk_TimerConfig (from_millis 59) 2049 2048 2048) _) _); vm_compute; reflexivity.
Defined.

(** The fraction of a second is not counted: a timeout of two and a half seconds is
    longer than the wheel that is built for it. *)
Example fraction_exceeds_wheel :
  let builder := with_heartbeat_interval (with_heartbeat_timeout PeerManagerBuilder_new (from_millis 2500)) (from_millis 1000) in
  match timer_config (E := ()) builder with Ok c => (wheel_span c < heartbeat_timeout builder)%N | _ => False end.
Proof. vm_compute. reflexivity. Qed.

(** A manager for no peers cannot be built. *)
Example no_capacity_panics : timer_config (E := ()) (with_peer_capacity PeerManagerBuilder_new 0) = Panic.
Proof. vm_compute. reflexivity. Qed.
