(* ===== verification/PmManager.v ===== *)
(** * [bip_peer::manager]: the tasks of the peers, the sink and the stream

    [manager/task.rs] runs a task per peer between two channels, and
    [manager/mod.rs] adds, removes and feeds the tasks behind a lock that several
    handles share.

    A channel of [futures::sync::mpsc] is the list of all that was sent and the
    number of what was read; whether it has room, whether a [try_lock] succeeds and
    what the connection of a peer does next are chosen by the environment.  A task
    stops where its future waits, so the steps of the tasks and the calls on the
    manager interleave in every way. *)

From stdpp Require Import prelude list gmap strings.
From Stdlib Require Import ZArith Lia.
From S2P Require Import Prelude Bytes Convert Sha HsMessage SelBase PmBase.

(** [Sender] and [Receiver]: first in, first out. *)
Record Chan (A : Type) : Type := mk_Chan { ch_log : list A; ch_read : nat }.
Arguments mk_Chan {A}.
Arguments ch_log {A}.
Arguments ch_read {A}.
Definition Chan_new {A} : Chan A := mk_Chan [] 0.
Definition ch_push {A} (a : A) (c : Chan A) : Chan A := mk_Chan (ch_log c ++ [a]) (ch_read c).
Definition ch_pop {A} (c : Chan A) : option (A * Chan A) :=
  match ch_log c !! ch_read c with Some a => Some (a, mk_Chan (ch_log c) (S (ch_read c))) | None => None end.

Class ManagedMessage (M : Type) : Type := { managed_keep_alive : M; managed_is_keep_alive : M -> bool }.

(** [MergedItem] of [Stream::merge] *)
Inductive MergedItem (A B : Type) : Type := First (a : A) | Second (b : B) | Both (a : A) (b : B).
Arguments First {A B}.
Arguments Second {A B}.
Arguments Both {A B}.

Section manager.
Context {FU : Futures} {P SinkItem Item IoErr : Type} {MS : ManagedMessage SinkItem} {MI : ManagedMessage Item}.

Inductive IPeerManagerMessage : Type :=
| AddPeer (info : PeerInfo) (peer : P)
| RemovePeer (info : PeerInfo)
| SendMessage (info : PeerInfo) (mid : Z) (message : SinkItem).

Inductive OPeerManagerMessage : Type :=
| PeerAdded (info : PeerInfo)
| PeerRemoved (info : PeerInfo)
| SentMessage (info : PeerInfo) (mid : Z)
| ReceivedMessage (info : PeerInfo) (message : Item)
| PeerDisconnect (info : PeerInfo)
| OPeerError (info : PeerInfo) (error : IoErr).

Inductive PeerManagerErrorKind : Type := PeerNotFound (info : PeerInfo).

(** ** The task of a peer *)

Inductive PeerError : Type :=
| ManagerHeartbeatInterval
| ManagerDisconnect
| PeerDisconnected
| PeerErrored (error : IoErr)
| PeerNoHeartbeat.

(** What the two streams of a task fail with. *)
Definition of_persistent (error : PersistentError (E := IoErr)) : PeerError :=
  match error with PDisconnect => PeerDisconnected | PTimeout => PeerNoHeartbeat | PIoError err => PeerErrored err end.
Definition of_recurring (error : RecurringTimeoutError) : PeerError :=
  match error with RDisconnect => ManagerDisconnect | RTimeout => ManagerHeartbeatInterval end.

(** Where the future of a task waits: for its first message to the manager, for the
    merged stream, for the peer to take a message, for the manager to take a
    received message or an acknowledgement; or the loop has ended. *)
Inductive TaskState : Type :=
| Adding
| Polling
| Sending (send : SinkItem) (opt_recv : option Item) (opt_ack : option OPeerManagerMessage) (is_good : bool)
| Receiving (recv : Item) (opt_ack : option OPeerManagerMessage) (is_good : bool)
| Acking (ack : OPeerManagerMessage) (is_good : bool)
| Broken.

(** The first closure: what an item or an error of the merged stream asks for. *)
Definition on_merged (info : PeerInfo) (result : outcome PeerError (option (MergedItem IPeerManagerMessage Item))) :
    outcome PeerError (option SinkItem * option Item * option OPeerManagerMessage * bool) :=
  match result with
  | Ok (Some (First (SendMessage p_info mid p_message))) => Ok (Some p_message, None, Some (SentMessage p_info mid), true)
  | Ok (Some (First (RemovePeer p_info))) => Ok (None, None, Some (PeerRemoved p_info), false)
  | Ok (Some (Second peer_message)) => Ok (None, Some peer_message, None, true)
  | Ok (Some (Both (SendMessage p_info mid p_message) peer_message)) => Ok (Some p_message, Some peer_message, Some (SentMessage p_info mid), true)
  | Ok (Some (Both (RemovePeer p_info) peer_message)) => Ok (None, Some peer_message, Some (PeerRemoved p_info), false)
  | Ok (Some _) => Panic
  | Err ManagerHeartbeatInterval => Ok (Some managed_keep_alive, None, None, true)
  | Ok None => Err ManagerDisconnect
  | Err ManagerDisconnect => Err ManagerDisconnect
  | Err PeerDisconnected => Ok (None, None, Some (PeerDisconnect info), false)
  | Err (PeerErrored err) => Ok (None, None, Some (OPeerError info err), false)
  | Err PeerNoHeartbeat => Ok (None, None, Some (PeerDisconnect info), false)
  | Panic => Panic
  | NoFuel => NoFuel
  end.

(** The stages that follow: each waits for its message to be taken, if it has one. *)
Definition stage_three (is_good : bool) : TaskState := if is_good then Polling else Broken.
Definition stage_two (opt_ack : option OPeerManagerMessage) (is_good : bool) : TaskState :=
  match opt_ack with Some ack => Acking ack is_good | None => stage_three is_good end.
Definition stage_one (opt_recv : option Item) (opt_ack : option OPeerManagerMessage) (is_good : bool) : TaskState :=
  match opt_recv with
  | Some recv => if negb (managed_is_keep_alive recv) then Receiving recv opt_ack is_good else stage_two opt_ack is_good
  | None => stage_two opt_ack is_good
  end.
Definition stage_send (opt_send : option SinkItem) (opt_recv : option Item) (opt_ack : option OPeerManagerMessage) (is_good : bool) : TaskState :=
  match opt_send with Some send => Sending send opt_recv opt_ack is_good | None => stage_one opt_recv opt_ack is_good end.

(** A task: the channel from the manager, and what the peer was given, what it
    gave, and what the manager was told by this task. *)
Record PeerTask : Type := mk_PeerTask {
  t_info : PeerInfo;
  t_inbox : Chan IPeerManagerMessage;
  t_state : TaskState;
  t_handed : list SinkItem;
  t_got : list Item;
  t_said : list OPeerManagerMessage;
}.

(** What can happen to a task: what it tells the manager is taken or not, what it
    tells the peer is taken or not, or the merged stream has something; the timer of
    the peer's stream reports, or the timer of the manager's stream fails. *)
Inductive TaskEvent : Type :=
| ManagerTakes
| ManagerGone
| PeerTakes
| PeerFails
| MergedFirst
| MergedSecond (item : Item)
| MergedBoth (item : Item)
| MergedEnd
| MergedError (error : PeerError)
| PeerTimeout (error : TimeoutError)
| IntervalTimerFails.

Definition with_state (t : PeerTask) (st : TaskState) : PeerTask := mk_PeerTask (t_info t) (t_inbox t) st (t_handed t) (t_got t) (t_said t).
Definition says (t : PeerTask) (msg : OPeerManagerMessage) (st : TaskState) : PeerTask * option OPeerManagerMessage :=
  (mk_PeerTask (t_info t) (t_inbox t) st (t_handed t) (t_got t) (t_said t ++ [msg]), Some msg).

(** The merged stream has given [result]: the closures up to the next wait. *)
Definition merged (t : PeerTask) (inbox : Chan IPeerManagerMessage) (got : list Item)
    (result : outcome PeerError (option (MergedItem IPeerManagerMessage Item))) : outcome () PeerTask :=
  let t := mk_PeerTask (t_info t) inbox (t_state t) (t_handed t) (t_got t ++ got) (t_said t) in
  match on_merged (t_info t) result with
  | Ok (opt_send, opt_recv, opt_ack, is_good) => Ok (with_state t (stage_send opt_send opt_recv opt_ack is_good))
  | Err _ => Ok (with_state t Broken)
  | Panic => Panic
  | NoFuel => NoFuel
  end.

(** One step of the future of [run_peer]; an event it does not wait for changes nothing. *)
Definition task_step (ev : TaskEvent) (t : PeerTask) : outcome () (PeerTask * option OPeerManagerMessage) :=
  match t_state t, ev with
  | Adding, ManagerTakes => Ok (says t (PeerAdded (t_info t)) Polling)
  | Adding, ManagerGone => Ok (with_state t Broken, None)
  | Sending send opt_recv opt_ack is_good, PeerTakes =>
      let t := mk_PeerTask (t_info t) (t_inbox t) (t_state t) (t_handed t ++ [send]) (t_got t) (t_said t) in
      Ok (with_state t (stage_one opt_recv opt_ack is_good), None)
  | Sending _ _ _ _, PeerFails => Ok (with_state t Broken, None)
  | Receiving recv opt_ack is_good, ManagerTakes => Ok (says t (ReceivedMessage (t_info t) recv) (stage_two opt_ack is_good))
  | Receiving _ _ _, ManagerGone => Ok (with_state t Broken, None)
  | Acking ack is_good, ManagerTakes => Ok (says t ack (stage_three is_good))
  | Acking _ _, ManagerGone => Ok (with_state t Broken, None)
  | Polling, MergedFirst =>
      match ch_pop (t_inbox t) with
      | Some (msg, inbox) => t ← merged t inbox [] (Ok (Some (First msg))); Ok (t, None)
      | None => Ok (t, None)
      end
  | Polling, MergedSecond item => t ← merged t (t_inbox t) [item] (Ok (Some (Second item))); Ok (t, None)
  | Polling, MergedBoth item =>
      match ch_pop (t_inbox t) with
      | Some (msg, inbox) => t ← merged t inbox [item] (Ok (Some (Both msg item))); Ok (t, None)
      | None => Ok (t, None)
      end
  | Polling, MergedEnd => t ← merged t (t_inbox t) [] (Ok None); Ok (t, None)
  | Polling, MergedError error => t ← merged t (t_inbox t) [] (Err error); Ok (t, None)
  | Polling, PeerTimeout error =>
      error ← PersistentError_from error;
      t ← merged t (t_inbox t) [] (Err (of_persistent error));
      Ok (t, None)
  | Polling, IntervalTimerFails => Panic
  | _, _ => Ok (t, None)
  end.

(** [run_peer]: the task is spawned, and the manager keeps the sender of its channel. *)
Definition run_peer (info : PeerInfo) : PeerTask := mk_PeerTask info Chan_new Adding [] [] [].

(** ** The manager *)

(** [peers] maps to the number of the task whose sender is kept; [pm_out] is the
    channel to the stream, and [pm_pending] the [opt_pending] of the stream. *)
Record PeerManager : Type := mk_PeerManager {
  pm_build : PeerManagerBuilder;
  pm_peers : gmap PeerKey nat;
  pm_tasks : list PeerTask;
  pm_out : Chan OPeerManagerMessage;
  pm_pending : option (option OPeerManagerMessage);
  pm_queue : list Task;
}.

Definition pm_from_builder {E} (builder : PeerManagerBuilder) : outcome E PeerManager :=
  timer ← timer_config builder;
  Ok (mk_PeerManager builder ∅ [] Chan_new None []).

Definition pmM (A : Type) : Type := stM (PeerManager * fworld) PeerManagerErrorKind A.
Definition pm_get : pmM PeerManager := fun s => (Ok s.1, s).
Definition pm_set (m : PeerManager) : pmM () := fun s => (Ok (), (m, s.2)).

(** [self.task_queue.push(futures_task::current())] *)
Definition stash_task : pmM () :=
  fun '(m, w) => (Ok (), (mk_PeerManager (pm_build m) (pm_peers m) (pm_tasks m) (pm_out m) (pm_pending m) (pm_queue m ++ [current w]), w)).
(** [self.task_queue.try_pop().map(|task| task.notify())] *)
Definition notify_one : pmM () :=
  fun '(m, w) =>
    match pm_queue m with
    | task :: queue => (Ok (), (mk_PeerManager (pm_build m) (pm_peers m) (pm_tasks m) (pm_out m) (pm_pending m) queue, notify task w))
    | [] => (Ok (), (m, w))
    end.

Definition with_map (m : PeerManager) (peers : gmap PeerKey nat) : PeerManager :=
  mk_PeerManager (pm_build m) peers (pm_tasks m) (pm_out m) (pm_pending m) (pm_queue m).
Definition with_tasks (m : PeerManager) (tasks : list PeerTask) : PeerManager :=
  mk_PeerManager (pm_build m) (pm_peers m) tasks (pm_out m) (pm_pending m) (pm_queue m).
Definition with_pending_out (m : PeerManager) (pending : option (option OPeerManagerMessage)) : PeerManager :=
  mk_PeerManager (pm_build m) (pm_peers m) (pm_tasks m) (pm_out m) pending (pm_queue m).
Definition with_out (m : PeerManager) (out : Chan OPeerManagerMessage) : PeerManager :=
  mk_PeerManager (pm_build m) (pm_peers m) (pm_tasks m) out (pm_pending m) (pm_queue m).

(** [lock] are the results of the first and the second [try_lock]. *)
Definition run_with_lock_sink {I T} (lock : bool * bool) (item : I) (call : I -> pmM (AsyncSink T)) (not_ready : I -> T) : pmM (AsyncSink T) :=
  let locked :=
    with_result (call item) (fun result =>
      (match result with Ok (SinkNotReady _) => stash_task | _ => mret () end);;
      notify_one;;
      lift result) in
  if lock.1 then locked
  else
    stash_task;;
    if lock.2 then locked else mret (SinkNotReady (not_ready item)).

Definition sink_run_with_lock_poll {T} (lock : bool * bool) (call : pmM (Async T)) : pmM (Async T) :=
  let locked := with_result call (fun result => notify_one;; lift result) in
  if lock.1 then locked
  else
    stash_task;;
    if lock.2 then locked else mret NotReady.

(** [send.start_send(message)] on the channel of a task: refused while the channel is
    [full], an error, which panics here, once the task is gone. *)
Definition inbox_send (full : bool) (id : nat) (message : IPeerManagerMessage) : pmM (AsyncSink IPeerManagerMessage) :=
  m ← pm_get;
  if full then mret (SinkNotReady message)
  else
    t ← lift (unwrap (pm_tasks m !! id));
    match t_state t with
    | Broken => lift Panic
    | _ =>
        pm_set (with_tasks m (<[id := mk_PeerTask (t_info t) (ch_push message (t_inbox t)) (t_state t) (t_handed t) (t_got t) (t_said t)]> (pm_tasks m)));;
        mret SinkReady
    end.

Definition pm_start_send (lock : bool * bool) (full : bool) (item : IPeerManagerMessage) : pmM (AsyncSink IPeerManagerMessage) :=
  match item with
  | AddPeer info peer =>
      run_with_lock_sink lock (info, peer)
        (fun '(info, peer) =>
           m ← pm_get;
           if (peer_capacity (pm_build m) <=? Z.of_nat (size (pm_peers m)))%Z then mret (SinkNotReady (AddPeer info peer))
           else
             match pm_peers m !! peer_key info with
             | Some _ => lift (Err (PeerNotFound info))
             | None =>
                 pm_set (with_map (with_tasks m (pm_tasks m ++ [run_peer info])) (<[peer_key info := length (pm_tasks m)]> (pm_peers m)));;
                 mret SinkReady
             end)
        (fun '(info, peer) => AddPeer info peer)
  | RemovePeer info =>
      run_with_lock_sink lock info
        (fun info =>
           m ← pm_get;
           id ← lift (ok_or (pm_peers m !! peer_key info) (PeerNotFound info));
           inbox_send full id (RemovePeer info))
        (fun info => RemovePeer info)
  | SendMessage info mid peer_message =>
      run_with_lock_sink lock (info, mid, peer_message)
        (fun '(info, mid, peer_message) =>
           m ← pm_get;
           id ← lift (ok_or (pm_peers m !! peer_key info) (PeerNotFound info));
           inbox_send full id (SendMessage info mid peer_message))
        (fun '(info, mid, peer_message) => SendMessage info mid peer_message)
  end.

(** [poll_complete] of every channel: what [Sender::poll_complete] answers is an
    argument, and an error of it panics. *)
Fixpoint complete_all (complete : nat -> outcome () (Async ())) (ids : list nat) : pmM () :=
  match ids with
  | [] => mret ()
  | id :: ids => match complete id with Ok _ => complete_all complete ids | _ => lift Panic end
  end.

Definition pm_poll_complete (lock : bool * bool) (complete : nat -> outcome () (Async ())) : pmM (Async ()) :=
  sink_run_with_lock_poll lock (m ← pm_get; complete_all complete (map_to_list (pm_peers m)).*2;; mret (Ready ())).

(** [self.recv.poll()]; [closed] when no sender is left. *)
Definition recv_poll (closed : bool) : pmM (Async (option OPeerManagerMessage)) :=
  m ← pm_get;
  match ch_pop (pm_out m) with
  | Some (msg, out) => pm_set (with_out m out);; mret (Ready (Some msg))
  | None => mret (if closed then Ready None else NotReady)
  end.

Definition stream_run_with_lock_poll {I T} (lock : bool * bool) (item : I) (call : I -> pmM (Async T)) (stash : I -> option OPeerManagerMessage) : pmM (Async T) :=
  let locked := with_result (call item) (fun result => notify_one;; lift result) in
  if lock.1 then locked
  else
    stash_task;;
    if lock.2 then locked
    else
      m ← pm_get;
      pm_set (with_pending_out m (Some (stash item)));;
      mret NotReady.

(** [peers.remove(&info).unwrap_or_else(|| panic!(..))] *)
Definition remove_entry (info : PeerInfo) : pmM () :=
  m ← pm_get;
  _ ← lift (unwrap (pm_peers m !! peer_key info));
  pm_set (with_map m (delete (peer_key info) (pm_peers m))).

Definition pm_poll (lock : bool * bool) (closed : bool) : pmM (Async (option OPeerManagerMessage)) :=
  m ← pm_get;
  result ← (match pm_pending m with
            | Some pending => pm_set (with_pending_out m None);; mret (Ready pending)
            | None => recv_poll closed
            end);
  match result with
  | Ready (Some (PeerRemoved info)) =>
      stream_run_with_lock_poll lock info (fun info => remove_entry info;; mret (Ready (Some (PeerRemoved info)))) (fun info => Some (PeerRemoved info))
  | Ready (Some (PeerDisconnect info)) =>
      stream_run_with_lock_poll lock info (fun info => remove_entry info;; mret (Ready (Some (PeerDisconnect info)))) (fun info => Some (PeerDisconnect info))
  | Ready (Some (OPeerError info error)) =>
      stream_run_with_lock_poll lock (info, error) (fun '(info, error) => remove_entry info;; mret (Ready (Some (OPeerError info error))))
        (fun '(info, error) => Some (OPeerError info error))
  | other => mret other
  end.

(** A step of a task: what it tells the manager goes into the channel of the stream. *)
Definition pm_task (id : nat) (ev : TaskEvent) : pmM () :=
  m ← pm_get;
  match pm_tasks m !! id with
  | None => mret ()
  | Some t =>
      match task_step ev t with
      | Ok (t, said) =>
          let m := with_tasks m (<[id := t]> (pm_tasks m)) in
          pm_set (match said with Some msg => with_out m (ch_push msg (pm_out m)) | None => m end)
      | Panic => lift Panic
      | _ => lift NoFuel
      end
  end.
End manager.
