(* ===== verification/PmProofs.v ===== *)
(** * The task of a peer: what it reads, hands over, receives and reports

    One invariant of a task between any two steps: its messages to the manager are
    [PeerAdded], acknowledgements and received messages, and one last message;
    acknowledgements are of the messages it read, in order, and each was handed to
    the peer before; what was received is what the peer gave, less the keep-alives. *)

From stdpp Require Import prelude list gmap strings.
From Stdlib Require Import ZArith Lia.
From S2P Require Import Prelude Bytes Convert Sha MetainfoBuild HsMessage SelBase PmBase PmManager.

Section tasks.
Context {P SinkItem Item IoErr : Type} {MS : ManagedMessage SinkItem} {MI : ManagedMessage Item}.
Abbreviation IMsg := (IPeerManagerMessage (P := P) (SinkItem := SinkItem)).
Abbreviation OMsg := (OPeerManagerMessage (Item := Item) (IoErr := IoErr)).
Abbreviation Tsk := (PeerTask (P := P) (SinkItem := SinkItem) (Item := Item) (IoErr := IoErr)).
Abbreviation TState := (TaskState (SinkItem := SinkItem) (Item := Item) (IoErr := IoErr)).
Implicit Types (t : Tsk) (msg : OMsg) (st : TState).

#[export] Instance Broken_dec st : Decision (st = Broken).
Proof. destruct st; first [by left|by right]. Defined.

Definition about msg : PeerInfo :=
  match msg with PeerAdded i | PeerRemoved i | SentMessage i _ | ReceivedMessage i _ | PeerDisconnect i | OPeerError i _ => i end.
Definition is_final msg : bool := match msg with PeerRemoved _ | PeerDisconnect _ | OPeerError _ _ => true | _ => false end.
Definition is_middle msg : bool := match msg with SentMessage _ _ | ReceivedMessage _ _ => true | _ => false end.
Definition acks (l : list OMsg) : list Z := omap (fun msg => match msg with SentMessage _ mid => Some mid | _ => None end) l.
Definition receives (l : list OMsg) : list Item := omap (fun msg => match msg with ReceivedMessage _ item => Some item | _ => None end) l.
Definition sends_of (l : list IMsg) : list (Z * SinkItem) := omap (fun m => match m with SendMessage _ mid s => Some (mid, s) | _ => None end) l.
Definition awake (l : list Item) : list Item := List.filter (fun item => negb (managed_is_keep_alive item)) l.

(** [beats l k]: [k] is [l] with keep-alives in between. *)
Inductive beats : list SinkItem -> list SinkItem -> Prop :=
| beats_nil : beats [] []
| beats_send l k s : beats l k -> beats (l ++ [s]) (k ++ [s])
| beats_alive l k : beats l k -> beats l (k ++ [managed_keep_alive]).

(** A message in the channel of a task: to send or to stop, for this peer. *)
Definition addressed (k : PeerKey) (m : IMsg) : Prop :=
  match m with AddPeer _ _ => False | RemovePeer i | SendMessage i _ _ => peer_key i = k end.

Definition ack_of (o : option OMsg) : list Z := acks (option_list o).
Definition unacked st : list Z := match st with Sending _ _ ack _ | Receiving _ ack _ => ack_of ack | Acking ack _ => acks [ack] | _ => [] end.
Definition unsent st : list SinkItem := match st with Sending s _ (Some _) _ => [s] | _ => [] end.
Definition unreceived st : list Item := match st with Sending _ r _ _ => awake (option_list r) | Receiving r _ _ => [r] | _ => [] end.

(** What waits to be reported: acknowledgements go on, last messages do not. *)
Definition ack_ok (k : PeerKey) (ack : option OMsg) (good : bool) : Prop :=
  match ack with
  | Some (SentMessage i _) => peer_key i = k /\ good = true
  | Some msg => peer_key (about msg) = k /\ is_final msg = true /\ good = false
  | None => good = true
  end.
Definition state_ok (k : PeerKey) st : Prop :=
  match st with
  | Sending s r ack good => ack_ok k ack good /\ good = true /\ (ack = None -> s = managed_keep_alive)
  | Receiving r ack good => ack_ok k ack good /\ managed_is_keep_alive r = false
  | Acking ack good => ack_ok k (Some ack) good
  | _ => True
  end.

Definition said_ok t : Prop :=
  (t_said t = [] /\ (t_state t = Adding \/ t_state t = Broken)) \/
  exists mid fin, t_said t = PeerAdded (t_info t) :: mid ++ fin /\ Forall (fun msg => is_middle msg = true) mid /\
    ((fin = [] /\ t_state t <> Adding) \/ exists f, fin = [f] /\ is_final f = true /\ t_state t = Broken).

Definition sends t : list (Z * SinkItem) := sends_of (take (ch_read (t_inbox t)) (ch_log (t_inbox t))).

Record session t : Prop := {
  ss_inbox : Forall (addressed (peer_key (t_info t))) (ch_log (t_inbox t));
  ss_said : said_ok t;
  ss_about : Forall (fun msg => peer_key (about msg) = peer_key (t_info t)) (t_said t);
  ss_state : state_ok (peer_key (t_info t)) (t_state t);
  ss_sends : exists ua hs us, (sends t).*1 = acks (t_said t) ++ ua /\ (sends t).*2 = hs ++ us /\ beats hs (t_handed t) /\
    length us <= length ua <= 1 /\ (t_state t <> Broken -> ua = unacked (t_state t) /\ us = unsent (t_state t));
  ss_got : exists ur, awake (t_got t) = receives (t_said t) ++ ur /\ length ur <= 1 /\ (t_state t <> Broken -> ur = unreceived (t_state t));
  ss_read : ch_read (t_inbox t) <= length (ch_log (t_inbox t));
}.

Lemma session_new info : session (run_peer info).
Proof.
  split; cbn; try done; [by left; split; [|left]| |].
  - exists [], [], []. cbn; split_and!; first [done|lia|constructor].
  - exists []. cbn; split_and!; first [done|lia].
Qed.

Lemma sends_of_app l k : sends_of (l ++ k) = sends_of l ++ sends_of k.
Proof. apply omap_app. Qed.
Lemma acks_app l k : acks (l ++ k) = acks l ++ acks k.
Proof. apply omap_app. Qed.
Lemma receives_app l k : receives (l ++ k) = receives l ++ receives k.
Proof. apply omap_app. Qed.
Lemma awake_app l k : awake (l ++ k) = awake l ++ awake k.
Proof. apply List.filter_app. Qed.

#[local] Arguments acks : simpl never.
#[local] Arguments receives : simpl never.
#[local] Arguments awake : simpl never.
#[local] Arguments sends_of : simpl never.

(** The states of the stages, and what they still have to report. *)
Definition waits_for (k : PeerKey) st (ua : list Z) (us : list SinkItem) (ur : list Item) : Prop :=
  state_ok k st /\ unacked st = ua /\ unsent st = us /\ unreceived st = ur /\ st <> Broken /\ st <> Adding.

Lemma stage_two_waits k ack good : ack_ok k ack good -> waits_for k (stage_two ack good) (ack_of ack) [] [].
Proof. destruct ack as [msg|]; cbn; [done|]. intros ->. done. Qed.

Lemma stage_one_waits k recv ack good : ack_ok k ack good -> waits_for k (stage_one recv ack good) (ack_of ack) [] (awake (option_list recv)).
Proof.
  intros Hack. destruct recv as [r|]; [|by apply stage_two_waits]. unfold awake. cbn. destruct (managed_is_keep_alive r) eqn:Hr; cbn; [by apply stage_two_waits|done].
Qed.

(** ** Steps *)

Definition keeps t t' (said : option OMsg) : Prop :=
  session t' /\ t_info t' = t_info t /\ t_said t' = t_said t ++ option_list said /\ ch_log (t_inbox t') = ch_log (t_inbox t) /\
  match said with Some msg => peer_key (about msg) = peer_key (t_info t) | None => True end.

(** The loop ends without a word. *)
Lemma session_break t : session t -> t_state t <> Broken -> keeps t (with_state t Broken) None.
Proof.
  intros [Hi Hsaid Ha Hst (ua & hs & us & ? & ? & ? & ? & _) (ur & ? & ? & _) Hrd] Hne. unfold keeps. cbn. rewrite app_nil_r. split_and!; try done. split; cbn; try done.
  - destruct Hsaid as [[Hn _]|(mid & fin & He & Hm & [[-> _]|(f & _ & _ & Hb)])]; [left; auto| |done]. right. exists mid, []. split_and!; try done. by left.
  - exists ua, hs, us. split_and!; try done; lia.
  - exists ur. by split_and!.
Qed.

(** The manager takes [msg]. *)
Lemma session_says t msg st : session t -> t_state t <> Broken -> peer_key (about msg) = peer_key (t_info t) ->
  ((t_state t = Adding /\ msg = PeerAdded (t_info t) /\ st <> Adding) \/
   (t_state t <> Adding /\ st <> Adding /\ (is_middle msg = true \/ (is_final msg = true /\ st = Broken)))) ->
  state_ok (peer_key (t_info t)) st -> unsent (t_state t) = [] -> unsent st = [] ->
  unacked (t_state t) = acks [msg] ++ unacked st -> unreceived (t_state t) = receives [msg] ++ unreceived st ->
  keeps t (says t msg st).1 (says t msg st).2.
Proof.
  intros [Hi Hsaid Ha Hst (ua & hs & us & H1 & H2 & H3 & H4 & H5) (ur & G1 & G2 & G3) Hrd] Hne Hab Hsh Hok Hs0 Hs1 Hua Hur.
  destruct (H5 Hne) as [-> ->]. specialize (G3 Hne) as ->. rewrite Hs0, Hua, Hur in *. unfold keeps. cbn. split_and!; try done. split; cbn; try done.
  - destruct Hsaid as [[Hn Hst0]|(mid & fin & He & Hm & Hfin)].
    + destruct Hsh as [(_ & -> & Hsh)|(Hna & _)]; [|by destruct Hst0]. right. exists [], []. rewrite Hn. split_and!; try done. by left.
    + destruct Hfin as [[-> Hna]|(f & _ & _ & Hb)]; [|done]. destruct Hsh as [[? _]|(_ & Hst' & [Hmid|[Hf ->]])]; [done|..]; right.
      * exists (mid ++ [msg]), []. rewrite He, !app_nil_r. split_and!; try done; [by apply Forall_app; split; [|constructor]|]. by left.
      * exists mid, [msg]. rewrite He, app_nil_r. split_and!; try done. right. by exists msg.
  - apply Forall_app. split; [done|]. by constructor.
  - exists (unacked st), hs, []. unfold sends in *. cbn. rewrite acks_app, <- app_assoc. split_and!; try done; try lia. rewrite length_app in H4. cbn in *. lia.
  - exists (unreceived st). rewrite receives_app, <- app_assoc. split_and!; try done. rewrite length_app in G2. lia.
Qed.

(** The peer takes [s]. *)
Lemma session_hands t s recv ack good : session t -> t_state t = Sending s recv ack good ->
  keeps t (with_state (mk_PeerTask (t_info t) (t_inbox t) (t_state t) (t_handed t ++ [s]) (t_got t) (t_said t)) (stage_one recv ack good)) None.
Proof.
  intros [Hi Hsaid Ha Hst (ua & hs & us & H1 & H2 & H3 & H4 & H5) (ur & G1 & G2 & G3) Hrd] Hs. rewrite Hs in *. destruct Hst as (Hack & -> & Hka).
  destruct H5 as [-> ->]; [done|]. specialize (G3 ltac:(done)) as ->. destruct (stage_one_waits (peer_key (t_info t)) recv ack true Hack) as (W1 & W2 & W3 & W4 & W5 & W6).
  unfold keeps. cbn. rewrite app_nil_r. split_and!; try done. split; cbn; try done.
  - destruct Hsaid as [[Hn [?|?]]|(mid & fin & He & Hm & [[-> Hna]|(f & _ & _ & Hb)])]; try congruence. right. exists mid, []. split_and!; try done. by left.
  - exists (ack_of ack). unfold sends in *. cbn in *. destruct ack as [a|].
    + exists (hs ++ [s]), []. rewrite app_nil_r. split_and!; try done; try (cbn in *; lia). by constructor.
    + exists hs, []. split_and!; try done; try (cbn in *; lia). rewrite Hka by done. by constructor.
  - exists (awake (option_list recv)). by split_and!.
Qed.

(** The merged stream gives something that starts a round. *)
Lemma session_round t inbox new opt_send opt_recv opt_ack good : session t -> t_state t = Polling ->
  ch_log inbox = ch_log (t_inbox t) -> ch_read inbox <= length (ch_log inbox) -> take (ch_read inbox) (ch_log inbox) = take (ch_read (t_inbox t)) (ch_log (t_inbox t)) ++ new ->
  ack_ok (peer_key (t_info t)) opt_ack good -> (sends_of new).*1 = ack_of opt_ack ->
  match opt_send with
  | Some s => good = true /\ match opt_ack with Some _ => (sends_of new).*2 = [s] | None => s = managed_keep_alive /\ (sends_of new).*2 = [] end
  | None => (sends_of new).*2 = []
  end ->
  keeps t (with_state (mk_PeerTask (t_info t) inbox (t_state t) (t_handed t) (t_got t ++ option_list opt_recv) (t_said t)) (stage_send opt_send opt_recv opt_ack good)) None.
Proof.
  intros [Hi Hsaid Ha Hst (ua & hs & us & H1 & H2 & H3 & H4 & H5) (ur & G1 & G2 & G3) Hrd] Hs Hlog Hrd' Hnew Hack Hids Hitems. rewrite Hs in *.
  destruct H5 as [-> ->]; [done|]. specialize (G3 ltac:(done)) as ->. cbn in H1, H2, G1. rewrite app_nil_r in H1, H2, G1.
  assert (waits_for (peer_key (t_info t)) (stage_send opt_send opt_recv opt_ack good) (ack_of opt_ack) ((sends_of new).*2) (awake (option_list opt_recv))) as (W1 & W2 & W3 & W4 & W5 & W6).
  { destruct opt_send as [sd|]; cbn; [|rewrite Hitems; by apply stage_one_waits]. destruct Hitems as [-> Hit]. unfold waits_for. cbn. destruct opt_ack as [a|]; [by rewrite Hit|].
    destruct Hit as [-> ->]. done. }
  unfold keeps. cbn. rewrite app_nil_r. split_and!; try done. split; cbn; try done.
  - by rewrite Hlog.
  - destruct Hsaid as [[Hn [?|?]]|(mid & fin & He & Hm & [[-> Hna]|(f & _ & _ & Hb)])]; try congruence. right. exists mid, []. split_and!; try done. by left.
  - exists (ack_of opt_ack), hs, ((sends_of new).*2). unfold sends in *. cbn. rewrite Hnew, sends_of_app, !fmap_app, H1, H2, Hids. split_and!; try done.
    + rewrite <- Hids, !length_fmap. lia.
    + unfold ack_of, acks. destruct opt_ack as [[]|]; cbn; lia.
  - exists (awake (option_list opt_recv)). rewrite awake_app, G1. split_and!; try done. unfold awake. destruct opt_recv; cbn; [destruct (negb _); cbn; lia|lia].
Qed.

Lemma ch_pop_Some {A} (c : Chan A) a c' : ch_pop c = Some (a, c') -> ch_log c !! ch_read c = Some a /\ ch_log c' = ch_log c /\ ch_read c' <= length (ch_log c') /\ take (ch_read c') (ch_log c') = take (ch_read c) (ch_log c) ++ [a].
Proof. unfold ch_pop. destruct (ch_log c !! ch_read c) as [b|] eqn:Hb; [|done]. intros [= <- <-]. cbn. split_and!; try done; [by apply lookup_lt_Some in Hb|by apply take_S_r]. Qed.

(** A message of the manager, alone or with an item of the peer. *)
Lemma session_popped t inbox (msg : IMsg) got result : session t -> t_state t = Polling -> ch_pop (t_inbox t) = Some (msg, inbox) ->
  result = match got with Some item => Both msg item | None => First msg end ->
  exists t', merged t inbox (option_list got) (Ok (Some result)) = Ok t' /\ keeps t t' None.
Proof.
  intros Hs Hst (Hm & Hlog & Hrd & Htake)%ch_pop_Some ->. pose proof (Forall_lookup_1 _ _ _ _ (ss_inbox t Hs) Hm) as Hadd. unfold merged.
  destruct msg as [i p|i|i mid s]; [done| |].
  - eexists. split; [by destruct got|]. destruct got as [item|]; by apply (session_round t inbox [RemovePeer i] None _ (Some (PeerRemoved i)) false).
  - eexists. split; [by destruct got|]. destruct got as [item|]; by apply (session_round t inbox [SendMessage i mid s] (Some s) _ (Some (SentMessage i mid)) true).
Qed.

Lemma session_alone t opt_send opt_recv opt_ack good : session t -> t_state t = Polling -> ack_ok (peer_key (t_info t)) opt_ack good -> ack_of opt_ack = [] ->
  match opt_send with Some s => good = true /\ opt_ack = None /\ s = managed_keep_alive | None => True end ->
  keeps t (with_state (mk_PeerTask (t_info t) (t_inbox t) (t_state t) (t_handed t) (t_got t ++ option_list opt_recv) (t_said t)) (stage_send opt_send opt_recv opt_ack good)) None.
Proof.
  intros Hs Hst Hack Hids Hsend. apply (session_round t (t_inbox t) []); try done; [apply (ss_read t Hs)|by rewrite app_nil_r|]. destruct opt_send; [|done]. by destruct Hsend as (-> & -> & ->).
Qed.

(** A task that waits for the merged stream while one of its two timers fails. *)
Definition timer_panics (ev : TaskEvent (Item := Item) (IoErr := IoErr)) t : Prop :=
  t_state t = Polling /\ match ev with PeerTimeout TimerFailed | IntervalTimerFails => True | _ => False end.

Lemma timer_panics_step ev t : timer_panics ev t -> task_step ev t = Panic.
Proof. intros [Hst Hev]. unfold task_step. rewrite Hst. by destruct ev as [| | | | | | | | |[]|]. Qed.

(** Every other step of a task succeeds and keeps the session. *)
Lemma task_step_keeps ev t : session t -> ~ timer_panics ev t -> exists t' said, task_step ev t = Ok (t', said) /\ keeps t t' said.
Proof.
  intros Hs Hnt. assert (keeps t t None) as Hsame by (unfold keeps; cbn; by rewrite app_nil_r). pose proof (ss_state t Hs) as Hok.
  assert (t_state t = Polling -> keeps t (with_state (mk_PeerTask (t_info t) (t_inbox t) (t_state t) (t_handed t) (t_got t ++ []) (t_said t)) Broken) None) as Hend.
  { intros Hp. rewrite app_nil_r. refine (session_break t Hs _). by rewrite Hp. }
  unfold task_step.
  destruct (t_state t) as [| |s r ack good|r ack good|ack good|] eqn:Hst; destruct ev as [| | | | |item|item| |error|error|]; try (by exists t, None).
  - eexists _, _. split; [done|]. apply session_says; rewrite ?Hst; try done. left. done.
  - eexists _, _. split; [done|]. apply session_break; by rewrite ?Hst.
  - destruct (ch_pop (t_inbox t)) as [[msg inbox]|] eqn:Hp; [|by exists t, None]. destruct (session_popped t inbox msg None _ Hs Hst Hp eq_refl) as (t' & He & Hk).
    cbn in He. rewrite He. by exists t', None.
  - eexists _, None. split; [done|]. by apply (session_alone t None (Some item) None true).
  - destruct (ch_pop (t_inbox t)) as [[msg inbox]|] eqn:Hp; [|by exists t, None]. destruct (session_popped t inbox msg (Some item) _ Hs Hst Hp eq_refl) as (t' & He & Hk).
    cbn in He. rewrite He. by exists t', None.
  - eexists _, None. split; [done|]. by apply Hend.
  - destruct error; eexists _, None; (split; [done|]).
    + by apply (session_alone t (Some managed_keep_alive) None None true).
    + by apply Hend.
    + by apply (session_alone t None None (Some (PeerDisconnect (t_info t))) false).
    + by apply (session_alone t None None (Some (OPeerError (t_info t) error)) false).
    + by apply (session_alone t None None (Some (PeerDisconnect (t_info t))) false).
  - destruct error; [by destruct Hnt|]. eexists _, None. split; [done|]. by apply (session_alone t None None (Some (PeerDisconnect (t_info t))) false).
  - by destruct Hnt.
  - eexists _, None. split; [done|]. rewrite <- Hst. by apply session_hands.
  - eexists _, None. split; [done|]. apply session_break; by rewrite ?Hst.
  - eexists _, _. split; [done|]. destruct Hok as [Hack Hr]. destruct (stage_two_waits _ _ _ Hack) as (W1 & W2 & W3 & W4 & W5 & W6).
    apply session_says; rewrite ?Hst; try done; first [by rewrite W2|by rewrite W4|right; split_and!; try done; by left].
  - eexists _, None. split; [done|]. apply session_break; by rewrite ?Hst.
  - eexists _, _. split; [done|]. destruct ack; cbn in Hok; destruct_and?; try discriminate; subst good; apply session_says; rewrite ?Hst; try done;
      right; split_and!; try done; (by left) || (by right).
  - eexists _, None. split; [done|]. apply session_break; by rewrite ?Hst.
Qed.
End tasks.

(** * The peer manager: runs

    Calls on the sink and the stream and steps of the tasks, in any order.  An
    invariant ties the map of peers, the tasks and the messages in the channel
    together; from it, the stream never meets a peer it does not know, the sink
    fails only on the channel of a task that has ended, and the messages about a
    peer are those of its sessions, one after the other. *)

Section runs.
Context {FU : Futures} {P SinkItem Item IoErr : Type} {MS : ManagedMessage SinkItem} {MI : ManagedMessage Item}.
Abbreviation IMsg := (IPeerManagerMessage (P := P) (SinkItem := SinkItem)).
Abbreviation OMsg := (OPeerManagerMessage (Item := Item) (IoErr := IoErr)).
Abbreviation Tsk := (PeerTask (P := P) (SinkItem := SinkItem) (Item := Item) (IoErr := IoErr)).
Abbreviation Mgr := (PeerManager (FU := FU) (P := P) (SinkItem := SinkItem) (Item := Item) (IoErr := IoErr)).
Abbreviation mgrM := (pmM (FU := FU) (P := P) (SinkItem := SinkItem) (Item := Item) (IoErr := IoErr)).
Implicit Types (m : Mgr) (t : Tsk) (w : fworld) (k : PeerKey).

(** ** Counting *)

Definition tkey t : PeerKey := peer_key (t_info t).
Definition log_of k (l : list OMsg) : list OMsg := filter (fun msg => peer_key (about msg) = k) l.
Definition tasks_of k (l : list Tsk) : list Tsk := filter (fun t => tkey t = k) l.
Definition fins (l : list OMsg) : nat := length (filter (fun msg => is_final msg = true) l).
Definition finals k (l : list OMsg) : nat := fins (log_of k l).
Definition sessions k (l : list Tsk) : nat := length (tasks_of k l).

#[local] Arguments log_of : simpl never.
#[local] Arguments tasks_of : simpl never.
#[local] Arguments fins : simpl never.
#[local] Arguments finals : simpl never.
#[local] Arguments sessions : simpl never.

Lemma fins_app l l' : fins (l ++ l') = fins l + fins l'.
Proof. unfold fins. by rewrite filter_app, length_app. Qed.
Lemma log_of_app k l l' : log_of k (l ++ l') = log_of k l ++ log_of k l'.
Proof. apply filter_app. Qed.
Lemma finals_split k l l' : finals k (l ++ l') = finals k l + finals k l'.
Proof. unfold finals. by rewrite log_of_app, fins_app. Qed.

Lemma log_of_one k msg : log_of k [msg] = if decide (peer_key (about msg) = k) then [msg] else [].
Proof. unfold log_of. rewrite filter_cons, filter_nil. done. Qed.
Lemma finals_one k msg : finals k [msg] = if decide (peer_key (about msg) = k /\ is_final msg = true) then 1 else 0.
Proof.
  unfold finals. rewrite log_of_one. unfold fins. destruct (decide (peer_key (about msg) = k)); [|rewrite decide_False by tauto; done].
  rewrite filter_cons, filter_nil. destruct (decide (is_final msg = true)); [rewrite decide_True by tauto|rewrite decide_False by tauto]; done.
Qed.

Lemma session_fins t : session t -> fins (t_said t) <= 1 /\ (t_state t <> Broken -> fins (t_said t) = 0).
Proof.
  intros Hs. destruct (ss_said t Hs) as [[-> _]|(mid & fin & -> & Hm & Hf)]; [by split; [unfold fins; cbn; lia|]|].
  assert (fins (PeerAdded (t_info t) :: mid ++ fin) = fins fin) as ->.
  { change (PeerAdded (t_info t) :: mid ++ fin) with ([PeerAdded (t_info t)] ++ mid ++ fin). rewrite !fins_app.
    assert (fins mid = 0) as ->; [|done]. unfold fins. clear -Hm. induction Hm as [|x l Hx _ IH]; [done|]. rewrite filter_cons. rewrite decide_False; [done|by destruct x]. }
  destruct Hf as [[-> _]|(f & -> & _ & Hb)]; (split; [|done]); [unfold fins; cbn; lia|]. unfold fins. rewrite filter_cons, filter_nil. destruct (decide _); cbn; lia.
Qed.

Lemma fins_concat (l : list Tsk) : Forall session l -> fins (concat (t_said <$> l)) <= length l.
Proof.
  induction 1 as [|t l Ht _ IH]; [done|]. cbn [fmap list_fmap concat length]. rewrite fins_app. pose proof (session_fins t Ht). lia.
Qed.

(** ** The invariant *)

Definition pending_out m : list OMsg := match pm_pending m with Some (Some msg) => [msg] | _ => [] end.

(** [d] is what the stream has given so far, [x] what it has taken besides. *)
Record pm_core (d x : list OMsg) m : Prop := {
  pi_tasks : Forall session (pm_tasks m);
  pi_log : forall k, log_of k (ch_log (pm_out m)) = concat (t_said <$> tasks_of k (pm_tasks m));
  pi_read : take (ch_read (pm_out m)) (ch_log (pm_out m)) = d ++ x;
  pi_bound : ch_read (pm_out m) <= length (ch_log (pm_out m));
  pi_map : forall k,
    match pm_peers m !! k with
    | Some id => (tkey <$> pm_tasks m) !! id = Some k /\ (forall j, id < j -> (tkey <$> pm_tasks m) !! j <> Some k) /\ S (finals k d) = sessions k (pm_tasks m)
    | None => finals k d = sessions k (pm_tasks m)
    end;
  pi_over : forall i j t t', i < j -> pm_tasks m !! i = Some t -> pm_tasks m !! j = Some t' -> tkey t' = tkey t -> fins (t_said t) = 1;
  pi_capacity : (Z.of_nat (size (pm_peers m)) <= peer_capacity (pm_build m))%Z;
}.

Definition pm_inv (d : list OMsg) m : Prop :=
  pm_core d (pending_out m) m /\ match pm_pending m with None => True | Some o => exists msg, o = Some msg /\ is_final msg = true end.

Lemma pi_finals d x m k : pm_core d x m -> finals k (ch_log (pm_out m)) <= sessions k (pm_tasks m).
Proof.
  intros Hi. unfold finals. rewrite (pi_log d x m Hi). apply fins_concat. apply Forall_forall. intros t Ht%list_elem_of_filter.
  by eapply Forall_forall; [apply (pi_tasks d x m Hi)|apply Ht].
Qed.

(** A task that is not over is the only one of its peer, and its peer is in the map. *)
Lemma live_last d x m i t : pm_core d x m -> pm_tasks m !! i = Some t -> t_state t <> Broken -> forall j t', i < j -> pm_tasks m !! j = Some t' -> tkey t' <> tkey t.
Proof.
  intros Hi Ht Hl j t' Hj Ht' Hk. pose proof (pi_over d x m Hi i j t t' Hj Ht Ht' Hk) as Ho.
  destruct (session_fins t) as [_ Hf]; [by eapply Forall_lookup_1; [apply (pi_tasks d x m Hi)|]|]. rewrite Hf in Ho by done. lia.
Qed.

Lemma sessions_take k l i t : l !! i = Some t -> tkey t = k -> (forall j t', i < j -> l !! j = Some t' -> tkey t' <> k) -> tasks_of k l = tasks_of k (take i l) ++ [t].
Proof.
  intros Ht Hk Hlast. rewrite <- (take_drop_middle l i t Ht) at 1. unfold tasks_of. rewrite filter_app, filter_cons, decide_True by done. f_equal. f_equal.
  destruct (filter (fun t => tkey t = k) (drop (S i) l)) as [|t' r] eqn:He; [done|]. exfalso.
  assert (t' ∈ filter (fun t => tkey t = k) (drop (S i) l)) as [Hk' [j Hj]%list_elem_of_lookup]%list_elem_of_filter by (rewrite He; by left).
  rewrite lookup_drop in Hj. apply (Hlast (S i + j) t'); [lia|done|done].
Qed.

Lemma sessions_insert k l i t t' : l !! i = Some t -> tkey t = k -> tkey t' = k -> (forall j t', i < j -> l !! j = Some t' -> tkey t' <> k) ->
  tasks_of k (<[i := t']> l) = tasks_of k (take i l) ++ [t'].
Proof.
  intros Ht Hk Hk' Hlast. assert (i < length l) as Hi by (by apply lookup_lt_Some in Ht). rewrite (sessions_take k _ i t'); try done.
  - by rewrite take_insert_ge by lia.
  - by rewrite list_lookup_insert_eq.
  - intros j u Hj. rewrite list_lookup_insert_ne by lia. by apply Hlast.
Qed.

Lemma tasks_of_other k l i t t' : l !! i = Some t -> tkey t <> k -> tkey t' <> k -> tasks_of k (<[i := t']> l) = tasks_of k l.
Proof.
  intros Ht Hk Hk'. assert (i < length l) as Hi by (by apply lookup_lt_Some in Ht). rewrite <- (take_drop_middle l i t Ht) at 2. rewrite insert_take_drop by done. unfold tasks_of.
  by rewrite !filter_app, !filter_cons, !decide_False.
Qed.

Lemma tkeys_insert (l : list Tsk) i t t' : l !! i = Some t -> tkey t' = tkey t -> tkey <$> <[i := t']> l = tkey <$> l.
Proof. intros Ht Hk. rewrite list_fmap_insert, Hk. apply list_insert_id. by rewrite list_lookup_fmap, Ht. Qed.

Lemma sessions_keys k l : sessions k l = length (filter (fun k' => k' = k) (tkey <$> l)).
Proof.
  unfold sessions, tasks_of. induction l as [|t l IH]; [done|]. cbn [fmap list_fmap]. rewrite !filter_cons. destruct (decide (tkey t = k)); cbn [length]; by rewrite IH.
Qed.

(** ** Changes of the state *)

Lemma core_pending d x m o : pm_core d x m -> pm_core d x (with_pending_out m o).
Proof. by intros [? ? ? ? ? ? ?]. Qed.

(** A task that has not ended moves, and may tell the manager something. *)
Lemma core_update d x m id t t' said : pm_core d x m -> pm_tasks m !! id = Some t -> t_state t <> Broken -> session t' -> t_info t' = t_info t ->
  t_said t' = t_said t ++ option_list said -> match said with Some msg => peer_key (about msg) = tkey t | None => True end ->
  let m' := with_tasks m (<[id := t']> (pm_tasks m)) in
  pm_core d x (match said with Some msg => with_out m' (ch_push msg (pm_out m)) | None => m' end).
Proof.
  intros Hi Ht Hl Hs Hinfo Hsaid Hab m'. pose proof (live_last d x m id t Hi Ht Hl) as Hlast. assert (tkey t' = tkey t) as Hk by (unfold tkey; by rewrite Hinfo).
  assert (forall k, concat (t_said <$> tasks_of k (<[id := t']> (pm_tasks m))) = concat (t_said <$> tasks_of k (pm_tasks m)) ++ log_of k (option_list said)) as Hlog.
  { intros k. destruct (decide (tkey t = k)) as [<-|Hne].
    - rewrite (sessions_insert (tkey t) _ id t t'), (sessions_take (tkey t) (pm_tasks m) id t) by done. rewrite !fmap_app, !concat_app. cbn [fmap list_fmap concat].
      rewrite !app_nil_r, Hsaid, !app_assoc. f_equal. destruct said as [msg|]; [|done]. change (option_list (Some msg)) with [msg]. by rewrite log_of_one, decide_True.
    - rewrite (tasks_of_other k _ id t t') by (done || congruence). destruct said as [msg|]; [|by rewrite app_nil_r]. change (option_list (Some msg)) with [msg]. rewrite log_of_one, decide_False by congruence.
      by rewrite app_nil_r. }
  assert (pm_core d x (mk_PeerManager (pm_build m) (pm_peers m) (<[id := t']> (pm_tasks m)) (mk_Chan (ch_log (pm_out m) ++ option_list said) (ch_read (pm_out m))) (pm_pending m) (pm_queue m))) as Hcore.
  { pose proof (pi_bound d x m Hi) as Hb. destruct Hi as [H1 H2 H3 H4 H5 H6 H7]. split; cbn; try done.
    - by apply Forall_insert.
    - intros k. by rewrite log_of_app, H2, Hlog.
    - by rewrite take_app_le.
    - rewrite length_app. lia.
    - intros k. specialize (H5 k). rewrite sessions_keys, (tkeys_insert _ id t t'), <- sessions_keys by done. done.
    - intros i j u u' Hij. destruct (decide (i = id)) as [->|Hne1], (decide (j = id)) as [->|Hne2]; [lia|..].
      + rewrite (list_lookup_insert_ne _ _ j) by done. rewrite list_lookup_insert_eq by (by apply lookup_lt_Some in Ht). intros [= <-] Hu' Hkk. destruct (Hlast j u'); [done..|congruence].
      + rewrite (list_lookup_insert_ne _ _ i) by done. rewrite list_lookup_insert_eq by (by apply lookup_lt_Some in Ht). intros Hu [= <-] Hkk.
        apply (H6 i id u t); try done; congruence.
      + rewrite !list_lookup_insert_ne by done. by apply H6. }
  destruct said as [msg|]; [done|]. cbn in Hcore. rewrite app_nil_r in Hcore. unfold m', with_tasks. by destruct (pm_out m).
Qed.

Lemma fins_all (l : list Tsk) : Forall session l -> length l <= fins (concat (t_said <$> l)) -> Forall (fun t => fins (t_said t) = 1) l.
Proof.
  induction 1 as [|t l Ht Hl IH]; [constructor|]. cbn [fmap list_fmap concat length]. rewrite fins_app. intros Hle. pose proof (session_fins t Ht) as [Hf _]. pose proof (fins_concat l Hl).
  constructor; [lia|]. apply IH. lia.
Qed.

Lemma finals_taken d x m k : pm_core d x m -> finals k d + finals k x <= finals k (ch_log (pm_out m)).
Proof.
  intros Hi. rewrite <- (take_drop (ch_read (pm_out m)) (ch_log (pm_out m))), (pi_read d x m Hi), !finals_split. lia.
Qed.

(** When every session of a peer was given to the client, each of them is over. *)
Lemma session_over d x m t : pm_core d x m -> finals (tkey t) d = sessions (tkey t) (pm_tasks m) -> t ∈ pm_tasks m -> fins (t_said t) = 1.
Proof.
  intros Hi Hall Hin. assert (Forall (fun t => fins (t_said t) = 1) (tasks_of (tkey t) (pm_tasks m))) as Hf.
  { apply fins_all.
    - apply Forall_forall. intros u Hu%list_elem_of_filter. by eapply Forall_forall; [apply (pi_tasks d x m Hi)|apply Hu].
    - rewrite <- (pi_log d x m Hi). pose proof (finals_taken d x m (tkey t) Hi). unfold finals, sessions in *. lia. }
  eapply Forall_forall in Hf; [exact Hf|]. by apply list_elem_of_filter.
Qed.

(** A new peer. *)
Lemma core_add d x m info : pm_core d x m -> pm_peers m !! peer_key info = None -> (Z.of_nat (size (pm_peers m)) < peer_capacity (pm_build m))%Z ->
  pm_core d x (with_map (with_tasks m (pm_tasks m ++ [run_peer info])) (<[peer_key info := length (pm_tasks m)]> (pm_peers m))).
Proof.
  intros Hi Hnone Hcap. pose proof (pi_map d x m Hi (peer_key info)) as Hmap. rewrite Hnone in Hmap. set (t := run_peer info : Tsk).
  assert (forall k, tasks_of k (pm_tasks m ++ [t]) = tasks_of k (pm_tasks m) ++ (if decide (peer_key info = k) then [t] else [])) as Htasks.
  { intros k. unfold tasks_of. rewrite filter_app, filter_cons, filter_nil. done. }
  assert (forall k, sessions k (pm_tasks m ++ [t]) = sessions k (pm_tasks m) + if decide (peer_key info = k) then 1 else 0) as Hsess.
  { intros k. unfold sessions. rewrite Htasks, length_app. by destruct (decide _). }
  assert (forall u, tkey u = peer_key info -> u ∈ pm_tasks m -> fins (t_said u) = 1) as Hover by (intros u Hu; apply (session_over d x m u Hi); by rewrite Hu).
  destruct Hi as [H1 H2 H3 H4 H5 H6 H7]. split; cbn; try done.
  - apply Forall_app. split; [done|]. constructor; [apply session_new|constructor].
  - intros k. rewrite Htasks, fmap_app, concat_app, H2. destruct (decide _); cbn; by rewrite app_nil_r.
  - intros k. rewrite Hsess, fmap_app. destruct (decide (peer_key info = k)) as [<-|Hne].
    + rewrite lookup_insert_eq. split_and!.
      * rewrite lookup_app_r by (by rewrite length_fmap). by rewrite length_fmap, Nat.sub_diag.
      * intros j Hj. rewrite lookup_app_r by (rewrite length_fmap; lia). rewrite length_fmap. destruct (j - length (pm_tasks m)) as [|n] eqn:He; [lia|]. done.
      * lia.
    + rewrite lookup_insert_ne, Nat.add_0_r by done. specialize (H5 k). destruct (pm_peers m !! k) as [id|]; [|done]. destruct H5 as (G1 & G2 & G3). split_and!; try done.
      * by apply lookup_app_l_Some.
      * intros j Hj. rewrite lookup_app. destruct ((tkey <$> pm_tasks m) !! j) as [k'|] eqn:Hk'; [rewrite <- Hk'; by apply G2|].
        destruct (j - length (tkey <$> pm_tasks m)) as [|n]; cbn; [intros [= He]; by apply Hne|done].
  - intros i j u u' Hij Hu Hu' Hk. rewrite lookup_app in Hu'. destruct (pm_tasks m !! j) as [v|] eqn:Hv.
    + injection Hu' as <-. rewrite lookup_app_l in Hu by (apply lookup_lt_Some in Hv; lia). by eapply H6.
    + destruct (j - length (pm_tasks m)) as [|n] eqn:He; [|done]. injection Hu' as <-. apply lookup_ge_None in Hv.
      assert (i < length (pm_tasks m)) as Hlt.
      { apply lookup_lt_Some in Hu. rewrite length_app in Hu. cbn in Hu. lia. }
      rewrite lookup_app_l in Hu by done. apply Hover; [done|]. by eapply list_elem_of_lookup_2.
  - rewrite map_size_insert_None by done. lia.
Qed.

(** The stream takes a message from the channel. *)
Lemma core_pop d m msg out : pm_core d [] m -> ch_pop (pm_out m) = Some (msg, out) -> pm_core d [msg] (with_out m out).
Proof.
  intros [H1 H2 H3 H4 H5 H6 H7] Hp. pose proof (ch_pop_Some _ _ _ Hp) as (Hl & Hlog & Hrd & Htake). split; cbn; try done.
  - by rewrite Hlog.
  - by rewrite Htake, H3, app_nil_r.
Qed.

(** A message that does not end a session is passed on. *)
Lemma core_plain d msg m : pm_core d [msg] m -> is_final msg = false -> pm_core (d ++ [msg]) [] m.
Proof.
  intros [H1 H2 H3 H4 H5 H6 H7] Hf. split; try done; [by rewrite app_nil_r|]. intros k. specialize (H5 k). rewrite finals_split, finals_one, decide_False by (rewrite Hf; by intros []).
  by rewrite Nat.add_0_r.
Qed.

(** A last message finds its peer in the map. *)
Lemma core_remove d msg m : pm_core d [msg] m -> is_final msg = true ->
  is_Some (pm_peers m !! peer_key (about msg)) /\ pm_core (d ++ [msg]) [] (with_map m (delete (peer_key (about msg)) (pm_peers m))).
Proof.
  intros Hi Hf. set (k0 := peer_key (about msg)). pose proof (finals_taken d [msg] m k0 Hi) as Ht. pose proof (pi_finals d [msg] m k0 Hi) as Hle.
  assert (finals k0 [msg] = 1) as Hone by (by rewrite finals_one, decide_True). pose proof (pi_map d [msg] m Hi k0) as Hk0.
  assert (is_Some (pm_peers m !! k0)) as [id Hid] by (destruct (pm_peers m !! k0); [eauto|lia]). rewrite Hid in Hk0. split; [eauto|].
  destruct Hi as [H1 H2 H3 H4 H5 H6 H7]. split; cbn; try done; [by rewrite app_nil_r| |].
  - intros k. rewrite finals_split. destruct (decide (k0 = k)) as [<-|Hne].
    + rewrite lookup_delete_eq. lia.
    + rewrite lookup_delete_ne by done. rewrite finals_one, decide_False by (intros [? _]; done). rewrite Nat.add_0_r. apply H5.
  - rewrite map_size_delete_Some by done. lia.
Qed.
End runs.
