(* ===== verification/PmRuns.v ===== *)
(** * The peer manager: theorems

    What holds after any calls on the sink handles and the stream and any steps of
    the tasks. *)

From stdpp Require Import prelude list gmap strings.
From Stdlib Require Import ZArith Lia Strings.Byte.
From S2P Require Import Prelude Bytes Convert Sha MetainfoBuild HsMessage PeerMessage PeerWire SelBase PmBase PmManager PmProofs.

Section runs.
Context {FU : Futures} {P SinkItem Item IoErr : Type} {MS : ManagedMessage SinkItem} {MI : ManagedMessage Item}.
Abbreviation IMsg := (IPeerManagerMessage (P := P) (SinkItem := SinkItem)).
Abbreviation OMsg := (OPeerManagerMessage (Item := Item) (IoErr := IoErr)).
Abbreviation Tsk := (PeerTask (P := P) (SinkItem := SinkItem) (Item := Item) (IoErr := IoErr)).
Abbreviation Mgr := (PeerManager (FU := FU) (P := P) (SinkItem := SinkItem) (Item := Item) (IoErr := IoErr)).
Abbreviation mgrM := (pmM (FU := FU) (P := P) (SinkItem := SinkItem) (Item := Item) (IoErr := IoErr)).
Implicit Types (m : Mgr) (t : Tsk) (w : fworld) (k : PeerKey) (d : list OMsg).

(** ** Under the lock *)

(** Nothing depends on who waits for the lock. *)
Definition with_queue m (q : list Task) : Mgr := mk_PeerManager (pm_build m) (pm_peers m) (pm_tasks m) (pm_out m) (pm_pending m) q.

Lemma inv_queue d m q : pm_inv d m -> pm_inv d (with_queue m q).
Proof. intros [[? ? ? ? ? ? ?] Hp]. split; [by split|done]. Qed.

Lemma stash_spec m w : stash_task (m, w) = (Ok (), (with_queue m (pm_queue m ++ [current w]), w)).
Proof. done. Qed.

Lemma notify_spec m w : exists q w', notify_one (m, w) = (Ok (), (with_queue m q, w')).
Proof. unfold notify_one. destruct m as [b p t o pe [|x q]]; by eexists _, _. Qed.

(** [ends]: how a call on the sink ends when it has the lock. *)
Definition ends {A} (call : mgrM A) d m w (bad : Prop) : Prop :=
  exists r m' w', call (m, w) = (r, (m', w')) /\ ((r = Panic /\ bad) \/ (returns r /\ ~ bad /\ pm_inv d m')).

Lemma ends_iff {A} (call : mgrM A) d m w bad bad' : ends call d m w bad -> (bad <-> bad') -> ends call d m w bad'.
Proof. intros (r & m' & w' & He & Hr) Hb. exists r, m', w'. split; [done|]. destruct Hr as [[-> ?]|(? & ? & ?)]; [left|right]; tauto. Qed.

Lemma with_lock_sink {I T} lock (item : I) (call : I -> mgrM (AsyncSink T)) not_ready d m w (bad : Prop) :
  pm_inv d m -> (forall q w, ends (call item) d (with_queue m q) w bad) ->
  ends (run_with_lock_sink lock item call not_ready) d m w ((lock.1 || lock.2 = true) /\ bad).
Proof.
  intros Hi Hcall.
  assert (forall q w, ends (with_result (call item) (fun result => (match result with Ok (SinkNotReady _) => stash_task | _ => mret () end);; notify_one;; lift result)) d (with_queue m q) w bad) as Hlocked.
  { intros q w0. destruct (Hcall q w0) as (r & m' & w' & He & Hr). unfold ends, with_result. rewrite He. destruct Hr as [[-> Hbad]|(Hr & Hn & Hi')]; [by eexists _, _, _; split; [done|left]|].
    assert (exists q' w'', (match r with Ok (SinkNotReady _) => stash_task | _ => mret () end;; notify_one;; lift r) (m', w') = (r, (with_queue m' q', w''))) as (q' & w'' & Hs).
    { unfold mbind, stM_bind. destruct r as [[|x]|e| |]; try done; cbn [mret stM_ret].
      - destruct (notify_spec m' w') as (q' & w'' & ->). by eexists _, _.
      - rewrite stash_spec. destruct (notify_spec (with_queue m' (pm_queue m' ++ [current w'])) w') as (q' & w'' & ->). by eexists _, _.
      - destruct (notify_spec m' w') as (q' & w'' & ->). by eexists _, _. }
    exists r, (with_queue m' q'), w''. split; [destruct r; done|]. right. split_and!; try done. by apply inv_queue. }
  unfold run_with_lock_sink. destruct lock as [[] l2]; cbn [fst snd orb].
  - destruct (Hlocked (pm_queue m) w) as (r & m' & w' & He & Hr). assert (with_queue m (pm_queue m) = m) as Hm by (by destruct m). rewrite Hm in He.
    exists r, m', w'. split; [done|]. destruct Hr as [[-> ?]|(? & ? & ?)]; [by left|right]. split_and!; try done. by intros [_ ?].
  - unfold ends, mbind, stM_bind. rewrite stash_spec. destruct l2.
    + destruct (Hlocked (pm_queue m ++ [current w]) w) as (r & m' & w' & He & Hr). exists r, m', w'. split; [exact He|]. destruct Hr as [[-> ?]|(? & ? & ?)]; [by left|right]. split_and!; try done. by intros [_ ?].
    + eexists _, _, _. split; [done|]. right. split_and!; [done|by intros [? _]|]. by apply inv_queue.
Qed.

(** ** The calls *)

(** The task of the peer a message is for has ended, but its peer is still in the map. *)
Definition dead m (item : IMsg) : Prop :=
  match item with
  | AddPeer _ _ => False
  | RemovePeer info | SendMessage info _ _ => exists id t, pm_peers m !! peer_key info = Some id /\ pm_tasks m !! id = Some t /\ t_state t = Broken
  end.

(** The channel of a task takes a message. *)
Definition pushed t (msg : IMsg) : Tsk := mk_PeerTask (t_info t) (ch_push msg (t_inbox t)) (t_state t) (t_handed t) (t_got t) (t_said t).

Lemma session_push t (msg : IMsg) : session t -> addressed (tkey t) msg -> session (pushed t msg).
Proof.
  intros [H1 H2 H3 H4 H5 H6 H7] Ha. split; cbn; try done.
  - apply Forall_app. split; [done|]. by constructor.
  - unfold sends in *. cbn. by rewrite take_app_le.
  - rewrite length_app. lia.
Qed.

Lemma inbox_ends full id (msg : IMsg) info d m w : pm_inv d m -> pm_peers m !! peer_key info = Some id -> addressed (peer_key info) msg ->
  ends (inbox_send full id msg) d m w (full = false /\ exists t, pm_tasks m !! id = Some t /\ t_state t = Broken).
Proof.
  intros [Hi Hp] Hid Ha. pose proof (pi_map d _ m Hi (peer_key info)) as Hmap. rewrite Hid in Hmap. destruct Hmap as (Hkey & _ & _).
  rewrite list_lookup_fmap in Hkey. destruct (pm_tasks m !! id) as [t|] eqn:Ht; [|done]. apply (inj Some) in Hkey. unfold ends, inbox_send, mbind, stM_bind. cbn [pm_get fst].
  destruct full; [eexists _, _, _; split; [done|]; right; split_and!; [done|by intros [? _]|done]|]. rewrite Ht. cbn [unwrap lift].
  destruct (decide (t_state t = Broken)) as [Hb|Hb]; [rewrite Hb; eexists _, _, _; split; [done|]; left; split_and!; eauto|].
  exists (Ok SinkReady), (with_tasks m (<[id := pushed t msg]> (pm_tasks m))), w. split; [unfold pushed; by destruct (t_state t)|]. right. split_and!; [done|intros (_ & t' & Ht' & Hb'); congruence|].
  split; [|done]. refine (core_update d _ m id t (pushed t msg) None Hi Ht Hb _ eq_refl _ I).
  - apply session_push; [|by rewrite Hkey]. by eapply Forall_lookup_1; [apply (pi_tasks d _ m Hi)|].
  - cbn. by rewrite app_nil_r.
Qed.

(** The locked part of [AddPeer]. *)
Lemma add_ends d m w info (peer : P) : pm_inv d m ->
  ends (m ← pm_get; if (peer_capacity (pm_build m) <=? Z.of_nat (size (pm_peers m)))%Z then mret (SinkNotReady (AddPeer info peer : IMsg))
        else match pm_peers m !! peer_key info with
             | Some _ => lift (Err (PeerNotFound info))
             | None => pm_set (with_map (with_tasks m (pm_tasks m ++ [run_peer info])) (<[peer_key info := length (pm_tasks m)]> (pm_peers m)));; mret SinkReady
             end) d m w False.
Proof.
  intros [Hi Hp]. unfold ends, mbind, stM_bind. cbn [pm_get fst]. destruct (Z.leb_spec (peer_capacity (pm_build m)) (Z.of_nat (size (pm_peers m)))) as [Hc|Hc].
  - eexists _, _, _. split; [done|]. right. split; [done|]. split; [by intros []|]. by split.
  - destruct (pm_peers m !! peer_key info) eqn:Hk.
    + eexists _, _, _. split; [done|]. right. split; [done|]. split; [by intros []|]. by split.
    + eexists _, _, _. split; [done|]. right. split; [done|]. split; [by intros []|]. split; [|done]. by apply core_add.
Qed.

(** The locked part of the other two. *)
Lemma pass_ends d m w full info (msg : IMsg) : pm_inv d m -> addressed (peer_key info) msg ->
  ends (m ← pm_get; id ← lift (ok_or (pm_peers m !! peer_key info) (PeerNotFound info)); inbox_send full id msg) d m w
    (full = false /\ exists id t, pm_peers m !! peer_key info = Some id /\ pm_tasks m !! id = Some t /\ t_state t = Broken).
Proof.
  intros Hi Ha. unfold ends, mbind, stM_bind. cbn [pm_get fst]. destruct (pm_peers m !! peer_key info) as [id|] eqn:Hid; cbn [ok_or lift].
  - destruct (inbox_ends full id msg info d m w Hi Hid Ha) as (r & m' & w' & He & Hr). exists r, m', w'. split; [exact He|].
    destruct Hr as [[-> (Hf & t & Ht & Hb)]|(Hr & Hn & Hi')]; [left; split_and!; eauto|right]. split_and!; try done. intros (Hf & id' & t & [= <-] & Ht & Hb). apply Hn. eauto.
  - eexists _, _, _. split; [done|]. right. split_and!; [done| |done]. by intros (_ & id & t & ? & _).
Qed.

Lemma start_send_ends lock full item d m w : pm_inv d m -> ends (pm_start_send lock full item) d m w ((lock.1 || lock.2 = true) /\ full = false /\ dead m item).
Proof.
  intros Hi. assert (forall q, pm_inv d (with_queue m q)) as Hq by (intros q; by apply inv_queue).
  destruct item as [info peer|info|info mid msg]; cbn [pm_start_send dead].
  - eapply ends_iff; [apply with_lock_sink with (bad := False); [done|]; intros q w0; by apply add_ends|tauto].
  - apply with_lock_sink; [done|]. intros q w0. by apply (pass_ends d (with_queue m q) w0 full info (RemovePeer info)).
  - apply with_lock_sink; [done|]. intros q w0. by apply (pass_ends d (with_queue m q) w0 full info (SendMessage info mid msg)).
Qed.

Definition given {A} (a : Async (option A)) : list A := match a with Ready (Some x) => [x] | _ => [] end.

Lemma core_queue d x m q : pm_core d x m -> pm_core d x (with_queue m q).
Proof. by intros [? ? ? ? ? ? ?]. Qed.

(** A last message that was taken: its peer is removed, or the message is kept. *)
Lemma final_polled {I} lock (item : I) (call : I -> mgrM (Async (option OMsg))) (stash : I -> option OMsg) d msg m w :
  pm_core d [msg] m -> pm_pending m = None -> is_final msg = true ->
  call item = (remove_entry (about msg);; mret (Ready (Some msg))) -> stash item = Some msg ->
  exists a m' w', stream_run_with_lock_poll lock item call stash (m, w) = (Ok a, (m', w')) /\ pm_inv (d ++ given a) m'.
Proof.
  intros Hc Hp Hf Hcall Hstash.
  assert (forall q w, exists m' w', (with_result (call item) (fun result => notify_one;; lift result)) (with_queue m q, w) = (Ok (Ready (Some msg)), (m', w')) /\ pm_inv (d ++ [msg]) m') as Hlocked.
  { intros q w0. destruct (core_remove d msg (with_queue m q) (core_queue d [msg] m q Hc) Hf) as [[id Hid] Hc']. rewrite Hcall. unfold with_result, remove_entry, mbind, stM_bind.
    cbn [pm_get fst]. rewrite Hid. cbn [unwrap lift pm_set snd mret stM_ret]. destruct (notify_spec (with_map (with_queue m q) (delete (peer_key (about msg)) (pm_peers (with_queue m q)))) w0) as (q' & w' & ->).
    eexists _, _. split; [done|]. apply inv_queue. split; [unfold pending_out; cbn; by rewrite Hp|cbn; by rewrite Hp]. }
  unfold stream_run_with_lock_poll. destruct lock as [[] l2]; cbn [fst snd].
  - destruct (Hlocked (pm_queue m) w) as (m' & w' & He & Hi). assert (with_queue m (pm_queue m) = m) as Hm by (by destruct m). rewrite Hm in He. rewrite He. by eexists _, _, _.
  - unfold mbind, stM_bind. rewrite stash_spec. destruct l2.
    + destruct (Hlocked (pm_queue m ++ [current w]) w) as (m' & w' & He & Hi). eexists _, _, _. split; [exact He|done].
    + cbn [pm_get fst pm_set snd mret stM_ret]. eexists _, _, _. split; [done|]. rewrite Hstash. cbn [given]. rewrite app_nil_r. split; [|by eexists].
      apply core_pending. by apply core_queue.
Qed.

(** The stream never fails. *)
Lemma poll_gives lock closed d m w : pm_inv d m -> exists a m' w', pm_poll lock closed (m, w) = (Ok a, (m', w')) /\ pm_inv (d ++ given a) m'.
Proof.
  intros [Hc Hp].
  assert (forall msg m1 w1, pm_core d [msg] m1 -> pm_pending m1 = None -> exists a m' w',
    (match msg with
     | PeerRemoved info => stream_run_with_lock_poll lock info (fun info => remove_entry info;; mret (Ready (Some (PeerRemoved info)))) (fun info => Some (PeerRemoved info))
     | PeerDisconnect info => stream_run_with_lock_poll lock info (fun info => remove_entry info;; mret (Ready (Some (PeerDisconnect info)))) (fun info => Some (PeerDisconnect info))
     | OPeerError info error => stream_run_with_lock_poll lock (info, error) (fun '(info, error) => remove_entry info;; mret (Ready (Some (OPeerError info error)))) (fun '(info, error) => Some (OPeerError info error))
     | _ => mret (Ready (Some msg))
     end) (m1, w1) = (Ok a, (m', w')) /\ pm_inv (d ++ given a) m') as Hmsg.
  { intros msg m1 w1 Hc1 Hp1. destruct msg; try (by eapply final_polled);
      (eexists _, _, _; split; [done|]; split; [unfold pending_out; rewrite Hp1; by apply core_plain|by rewrite Hp1]). }
  unfold pm_poll, mbind, stM_bind. cbn [pm_get fst]. unfold pending_out in Hc. destruct (pm_pending m) as [o|] eqn:Hpend.
  - destruct Hp as (msg & -> & Hf). cbn [pm_set snd mret stM_ret]. destruct (Hmsg msg (with_pending_out m None) w (core_pending d [msg] m None Hc) eq_refl) as (a & m' & w' & He & Hi).
    exists a, m', w'. split; [|done]. rewrite <- He. by destruct msg.
  - unfold recv_poll, mbind, stM_bind. cbn [pm_get fst]. destruct (ch_pop (pm_out m)) as [[msg out]|] eqn:Hpop.
    + cbn [pm_set snd mret stM_ret]. destruct (Hmsg msg (with_out m out) w (core_pop d m msg out Hc Hpop) Hpend) as (a & m' & w' & He & Hi).
      exists a, m', w'. split; [|done]. rewrite <- He. by destruct msg.
    + assert (pm_inv d m) as Hi by (split; [unfold pending_out; by rewrite Hpend|by rewrite Hpend]).
      destruct closed; eexists _, _, _; (split; [done|]); cbn [given]; by rewrite app_nil_r.
Qed.

Lemma complete_keeps lock (complete : nat -> outcome () (Async ())) d m w : pm_inv d m -> (forall id, exists a, complete id = Ok a) ->
  exists a m' w', pm_poll_complete lock complete (m, w) = (Ok a, (m', w')) /\ pm_inv d m'.
Proof.
  intros Hi Hok. assert (forall ids (s : Mgr * fworld), complete_all complete ids s = ((Ok () : outcome PeerManagerErrorKind ()), s)) as Hall.
  { induction ids as [|id ids IH]; intros s; cbn; [done|]. destruct (Hok id) as [a ->]. apply IH. }
  assert (forall q w, exists m' w', (with_result (m ← (pm_get : mgrM Mgr); complete_all complete (map_to_list (pm_peers m)).*2;; mret (Ready ())) (fun result => notify_one;; lift result)) (with_queue m q, w) =
    ((Ok (Ready ()) : outcome PeerManagerErrorKind (Async ())), (m', w')) /\ pm_inv d m') as Hlocked.
  { intros q w0. unfold with_result, mbind, stM_bind. cbn [pm_get fst]. rewrite Hall. cbn [mret stM_ret]. destruct (notify_spec (with_queue m q) w0) as (q' & w' & ->).
    eexists _, _. split; [done|]. by apply inv_queue, inv_queue. }
  unfold pm_poll_complete, sink_run_with_lock_poll. destruct lock as [[] l2]; cbn [fst snd].
  - destruct (Hlocked (pm_queue m) w) as (m' & w' & He & Hi'). assert (with_queue m (pm_queue m) = m) as Hm by (by destruct m). rewrite Hm in He. rewrite He. by eexists _, _, _.
  - unfold mbind at 1, stM_bind at 1. rewrite stash_spec. destruct l2.
    + destruct (Hlocked (pm_queue m ++ [current w]) w) as (m' & w' & He & Hi'). rewrite He. by eexists _, _, _.
    + eexists _, _, _. split; [done|]. by apply inv_queue.
Qed.

(** The step of a task that ends in a panic: one of its timers fails. *)
Definition task_fails m id (ev : TaskEvent (Item := Item) (IoErr := IoErr)) : Prop := exists t, pm_tasks m !! id = Some t /\ timer_panics ev t.

Lemma task_panics id ev m w : task_fails m id ev -> pm_task id ev (m, w) = ((Panic : outcome PeerManagerErrorKind ()), (m, w)).
Proof. intros (t & Ht & Hp). unfold pm_task, mbind, stM_bind. cbn [pm_get fst]. by rewrite Ht, (timer_panics_step ev t Hp). Qed.

(** No other step of a task fails. *)
Lemma task_keeps id ev d m w : pm_inv d m -> ~ task_fails m id ev -> exists m', pm_task id ev (m, w) = ((Ok () : outcome PeerManagerErrorKind ()), (m', w)) /\ pm_inv d m'.
Proof.
  intros [Hc Hp] Hnt. unfold pm_task, mbind, stM_bind. cbn [pm_get fst]. destruct (pm_tasks m !! id) as [t|] eqn:Ht; [|by eexists].
  assert (session t) as Hs by (by eapply Forall_lookup_1; [apply (pi_tasks d _ m Hc)|]). destruct (decide (t_state t = Broken)) as [Hb|Hb].
  - assert (task_step ev t = Ok (t, None)) as -> by (unfold task_step; rewrite Hb; by destruct ev). eexists. split; [done|]. cbn. rewrite list_insert_id by done. by destruct m.
  - destruct (task_step_keeps ev t Hs) as (t' & said & -> & Hs' & Hinfo & Hsaid & _ & Hab); [intros Hf; apply Hnt; by exists t|]. eexists. split; [done|].
    pose proof (core_update d _ m id t t' said Hc Ht Hb Hs' Hinfo Hsaid Hab) as Hc'. split; [by destruct said|by destruct said].
Qed.

(** ** Runs *)

Lemma filter_order {A} (l : list A) (Pr : A -> Prop) `{!forall a, Decision (Pr a)} i j x y : i < j -> filter Pr l !! i = Some x -> filter Pr l !! j = Some y ->
  exists i' j', i' < j' /\ l !! i' = Some x /\ l !! j' = Some y /\ Pr x /\ Pr y.
Proof.
  revert i j. induction l as [|a l IH]; intros i j Hij; [done|]. rewrite filter_cons. destruct (decide (Pr a)) as [Ha|_].
  - destruct j as [|j]; [lia|]. destruct i as [|i]; cbn.
    + intros [= <-] [Hy [j' Hj]%list_elem_of_lookup]%list_elem_of_lookup_2%list_elem_of_filter. exists 0, (S j'). split_and!; (done || lia).
    + intros Hx Hy. destruct (IH i j ltac:(lia) Hx Hy) as (i' & j' & ? & ? & ? & ? & ?). exists (S i'), (S j'). split_and!; (done || lia).
  - intros Hx Hy. destruct (IH i j Hij Hx Hy) as (i' & j' & ? & ? & ? & ? & ?). exists (S i'), (S j'). split_and!; (done || lia).
Qed.

Lemma keys_bound {V} (p : gmap PeerKey V) (l : list PeerKey) : NoDup l -> (forall k, k ∈ l -> is_Some (p !! k)) -> length l <= size p.
Proof.
  intros Hl Hin. rewrite <- (size_list_to_set (C := gset PeerKey) l Hl), <- size_dom. apply subseteq_size. intros k Hk%elem_of_list_to_set. by apply elem_of_dom, Hin.
Qed.

Inductive pm_act : Type :=
| ASend (lock : bool * bool) (full : bool) (item : IMsg)
| AComplete (lock : bool * bool) (complete : nat -> outcome () (Async ()))
| APoll (lock : bool * bool) (closed : bool)
| ATask (id : nat) (ev : TaskEvent (Item := Item) (IoErr := IoErr)).

Definition pm_perform (c : pm_act) : mgrM (list OMsg) :=
  match c with
  | ASend lock full item => pm_start_send lock full item;; mret []
  | AComplete lock complete => pm_poll_complete lock complete;; mret []
  | APoll lock closed => a ← pm_poll lock closed; mret (given a)
  | ATask id ev => pm_task id ev;; mret []
  end.

(** [Sender::poll_complete] does not fail. *)
Definition act_ok (c : pm_act) : Prop := match c with AComplete _ complete => forall id, exists a, complete id = Ok a | _ => True end.

(** [pm_runs d m]: calls and steps lead from a new manager to [m], and the stream has given [d]. *)
Inductive pm_runs : list OMsg -> Mgr -> Prop :=
| pm_runs_new builder m : pm_from_builder (E := ()) builder = Ok m -> pm_runs [] m
| pm_runs_act d m c w r m' w' : pm_runs d m -> act_ok c -> pm_perform c (m, w) = (r, (m', w')) -> returns r ->
    pm_runs (d ++ match r with Ok l => l | _ => [] end) m'.

(** What an action panics on. *)
Definition fails m (c : pm_act) : Prop :=
  match c with
  | ASend lock full item => (lock.1 || lock.2 = true) /\ full = false /\ dead m item
  | ATask id ev => task_fails m id ev
  | _ => False
  end.

#[local] Instance task_fails_dec m id ev : Decision (task_fails m id ev).
Proof.
  unfold task_fails. destruct (pm_tasks m !! id) as [t|] eqn:Ht; [|right; by intros (t & ? & _)].
  destruct (t_state t) eqn:Hst; try (right; intros (t' & [= <-] & Hs & _); congruence).
  destruct ev as [| | | | | | | | |[]|]; try (right; by intros (t' & _ & _ & [])); left; exists t; by split.
Defined.

Lemma perform_spec c d m w : pm_inv d m -> act_ok c -> exists r m' w', pm_perform c (m, w) = (r, (m', w')) /\
  ((r = Panic /\ fails m c) \/ (returns r /\ ~ fails m c /\ pm_inv (d ++ match r with Ok l => l | _ => [] end) m')).
Proof.
  intros Hi Hok. destruct c as [lock full item|lock complete|lock closed|id ev]; cbn [pm_perform fails act_ok] in *; unfold mbind, stM_bind.
  - destruct (start_send_ends lock full item d m w Hi) as (r & m' & w' & -> & [[-> Hf]|(Hr & Hn & Hi')]); [by eexists _, _, _; split; [|left]|].
    destruct r; try done; (eexists _, _, _; split; [done|]; right; split; [done|]; split; [done|]; by rewrite app_nil_r).
  - destruct (complete_keeps lock complete d m w Hi Hok) as (a & m' & w' & -> & Hi'). eexists _, _, _. split; [done|]. right. split; [done|]. split; [by intros []|]. by rewrite app_nil_r.
  - destruct (poll_gives lock closed d m w Hi) as (a & m' & w' & -> & Hi'). eexists _, _, _. split; [done|]. right. split; [done|]. split; [by intros []|]. done.
  - destruct (decide (task_fails m id ev)) as [Hf|Hf]; [rewrite (task_panics id ev m w Hf); eexists _, _, _; split; [done|]; by left|].
    destruct (task_keeps id ev d m w Hi Hf) as (m' & -> & Hi'). eexists _, _, _. split; [done|]. right. split; [done|]. split; [done|]. by rewrite app_nil_r.
Qed.

Lemma builder_capacity {E} builder m : pm_from_builder (E := E) builder = Ok m -> (0 < peer_capacity builder)%Z /\ m = mk_PeerManager builder ∅ [] Chan_new None [].
Proof.
  unfold pm_from_builder, timer_config. intros (c & (n & Hn & (b & Hb & _)%outcome_bind_ok)%outcome_bind_ok & [= <-])%outcome_bind_ok. split; [|done].
  unfold checked64, in_unsigned in *. destruct (decide _); [|done]. injection Hn as <-. destruct (decide _); [lia|done].
Qed.

Lemma runs_inv d m : pm_runs d m -> pm_inv d m.
Proof.
  induction 1 as [builder m Hm|d m c w r m' w' _ IH Hok He Hr].
  - destruct (builder_capacity builder m Hm) as [Hc ->]. split; [|done]. split; cbn; try done. rewrite map_size_empty. lia.
  - destruct (perform_spec c d m w IH Hok) as (r1 & m1 & w1 & He1 & Hc). rewrite He in He1. injection He1 as <- <- <-. by destruct Hc as [[-> _]|(_ & _ & ?)].
Qed.

(** C18. After any run an action fails in two cases only: a call on a sink handle
    that gets the lock and room in the channel, for a peer that is in the map while
    its task has ended; and a step of a task that waits for its streams while a
    timer of them fails.  No call on the stream fails. *)
Theorem manager_fails_on_dead_peers d m c w : pm_runs d m -> act_ok c -> ~ returns (pm_perform c (m, w)).1 <-> fails m c.
Proof.
  intros Hr Hok. destruct (perform_spec c d m w (runs_inv d m Hr) Hok) as (r & m' & w' & -> & [[-> Hf]|(Hret & Hn & _)]); cbn; split; try done; tauto.
Qed.

(** What the client can rely on of one session of a peer: first [PeerAdded], a last
    message only at the end and when the task is over; acknowledgements are of the
    messages the channel took, in order, and of messages the peer was given before,
    with keep-alives in between; received messages are what the peer gave. *)
Definition reported t : Prop :=
  said_ok t /\ Forall (fun msg => peer_key (about msg) = tkey t) (t_said t) /\
  acks (t_said t) `prefix_of` (sends_of (ch_log (t_inbox t))).*1 /\
  (exists hs, hs `prefix_of` (sends_of (ch_log (t_inbox t))).*2 /\ beats hs (t_handed t) /\ length (acks (t_said t)) <= length hs) /\
  receives (t_said t) `prefix_of` awake (t_got t).

Lemma session_reported t : session t -> reported t.
Proof.
  intros [H1 H2 H3 H4 (ua & hs & us & G1 & G2 & G3 & G4 & _) (ur & R1 & _) _].
  assert (sends_of (ch_log (t_inbox t)) = sends t ++ sends_of (drop (ch_read (t_inbox t)) (ch_log (t_inbox t)))) as Hs.
  { unfold sends. by rewrite <- sends_of_app, take_drop. }
  assert (length (acks (t_said t)) <= length hs) as Hle.
  { apply (f_equal length) in G1, G2. rewrite length_fmap, length_app in G1. rewrite length_fmap, length_app in G2. lia. }
  split_and!; try done.
  - rewrite Hs, fmap_app, G1, <- app_assoc. by apply prefix_app_r.
  - exists hs. rewrite Hs, fmap_app, G2, <- app_assoc. split_and!; try done. by apply prefix_app_r.
  - rewrite R1. by apply prefix_app_r.
Qed.

(** C6. The messages the client has got about a peer are, in order, those of the
    sessions of the peer, one after the other: every session but the last has
    reported its end, and every session reports as it should. *)
Theorem manager_reports_sessions d m k : pm_runs d m ->
  log_of k d `prefix_of` concat (t_said <$> tasks_of k (pm_tasks m)) /\ Forall reported (tasks_of k (pm_tasks m)) /\
  (forall i j t t', i < j -> tasks_of k (pm_tasks m) !! i = Some t -> tasks_of k (pm_tasks m) !! j = Some t' -> fins (t_said t) = 1).
Proof.
  intros [Hc _]%runs_inv. split_and!.
  - rewrite <- (pi_log d _ m Hc), <- (take_drop (ch_read (pm_out m)) (ch_log (pm_out m))), (pi_read d _ m Hc), !log_of_app, <- app_assoc. by apply prefix_app_r.
  - apply Forall_forall. intros t [_ Ht]%list_elem_of_filter. apply session_reported. by eapply Forall_forall; [apply (pi_tasks d _ m Hc)|].
  - intros i j t t' Hij Hi Hj. destruct (filter_order (pm_tasks m) (fun t => tkey t = k) i j t t' Hij Hi Hj) as (i' & j' & Hij' & Hi' & Hj' & Hk & Hk'). eapply (pi_over d _ m Hc); try done. congruence.
Qed.

(** C33. At most [peer_capacity] peers are managed, and no more tasks are running. *)
Theorem manager_bounds_peers d m : pm_runs d m ->
  length (filter (fun t => t_state t <> Broken) (pm_tasks m)) <= size (pm_peers m) /\ (Z.of_nat (size (pm_peers m)) <= peer_capacity (pm_build m))%Z.
Proof.
  intros [Hc _]%runs_inv. split; [|apply (pi_capacity d _ m Hc)]. set (live := filter (fun t => t_state t <> Broken) (pm_tasks m)).
  rewrite <- (length_fmap tkey live). apply keys_bound.
  - apply NoDup_alt. intros i j k. rewrite !list_lookup_fmap. destruct (live !! i) as [t|] eqn:Hi; [|done]. destruct (live !! j) as [t'|] eqn:Hj; [|done]. intros [= Hk] [= Hk'].
    assert (forall i j t t', i < j -> live !! i = Some t -> live !! j = Some t' -> tkey t = tkey t' -> False) as Hno.
    { clear -Hc. intros i j t t' Hij Hi Hj Hk. destruct (filter_order (pm_tasks m) (fun t => t_state t <> Broken) i j t t' Hij Hi Hj) as (i' & j' & Hij' & Hi' & Hj' & Hl & _). by eapply (live_last d _ m i' t Hc Hi' Hl). }
    destruct (Nat.lt_trichotomy i j) as [Hij|[->|Hij]]; [exfalso|done|exfalso]; (eapply Hno; [exact Hij|done|done|congruence]).
  - intros k (t & -> & [Hl [i Ht]%list_elem_of_lookup]%list_elem_of_filter)%list_elem_of_fmap. pose proof (pi_map d _ m Hc (tkey t)) as Hmap.
    destruct (pm_peers m !! tkey t); [eauto|exfalso]. pose proof (session_over d _ m t Hc Hmap) as Ho. 
    assert (t ∈ pm_tasks m) as Hin by (by eapply list_elem_of_lookup_2). destruct (session_fins t) as [_ Hf]; [by eapply Forall_forall; [apply (pi_tasks d _ m Hc)|]|].
    rewrite Hf in Ho by done. by specialize (Ho Hin).
Qed.
End runs.

(** ** A run *)

(** The messages of the wire protocol are managed messages. *)
#[export] Instance wire_managed {M} : ManagedMessage (PeerWireProtocolMessage M) := {| managed_keep_alive := keep_alive; managed_is_keep_alive := is_keep_alive |}.

Section play.
Abbreviation Wire := (PeerWireProtocolMessage NullProtocolMessage).
Abbreviation act := (pm_act (P := ()) (SinkItem := Wire) (Item := Wire) (IoErr := ())).
Abbreviation WMgr := (PeerManager (FU := Futures_log) (P := ()) (SinkItem := Wire) (Item := Wire) (IoErr := ())).
Abbreviation WMsg := (OPeerManagerMessage (Item := Wire) (IoErr := ())).
#[local] Existing Instance Futures_log.

(** The actions of a list, one after the other, with whether all of them return. *)
Fixpoint pm_play (cs : list act) (d : list WMsg) (m : WMgr) : bool * list WMsg * WMgr :=
  match cs with
  | [] => (true, d, m)
  | c :: cs =>
      match pm_perform c (m, (0, [])) with
      | (Ok l, (m, _)) => pm_play cs (d ++ l) m
      | (Err _, (m, _)) => pm_play cs (d ++ []) m
      | (_, (m, _)) => (false, d, m)
      end
  end.

Lemma pm_play_runs cs : Forall act_ok cs -> forall d m, (pm_play cs d m).1.1 = true -> pm_runs d m -> pm_runs (pm_play cs d m).1.2 (pm_play cs d m).2.
Proof.
  induction 1 as [|c cs Hc _ IH]; intros d m; [done|]. cbn [pm_play]. destruct (pm_perform c (m, (0, []))) as [r [m' w']] eqn:Hp. intros Hok Hr.
  destruct r as [l|e| |]; try done; (apply IH; [done|]; refine (pm_runs_act d m c (0, []) _ m' w' Hr Hc Hp _); done).
Qed.

Definition one_peer : PeerManagerBuilder := with_peer_capacity PeerManagerBuilder_new 1.
Definition new_manager : WMgr := mk_PeerManager one_peer ∅ [] Chan_new None [].
Lemma new_manager_runs : pm_runs [] new_manager.
Proof. apply (pm_runs_new one_peer). vm_compute. reflexivity. Qed.

Definition wire_peer : PeerInfo :=
  PeerInfo_new (SockV4 (mk_SocketAddrV4 (mk_Ipv4Addr x01 x02 x03 x04) 6881)) (mk_ShaHash (replicate 20 x62)) (mk_ShaHash (replicate 20 x61)) Extensions_new.
Definition has_lock : bool * bool := (true, false).

(** The peer is added, gets a message, a keep-alive of ours and is heard; then it is
    removed, and added again. *)
Definition whole_session : list act :=
  [ASend has_lock false (AddPeer wire_peer ()); ATask 0 ManagerTakes; ASend (false, true) false (SendMessage wire_peer 7 Choke); ATask 0 (MergedError ManagerHeartbeatInterval);
   ATask 0 PeerTakes; ATask 0 (MergedBoth UnChoke); ATask 0 PeerTakes; ATask 0 ManagerTakes; ATask 0 ManagerTakes; ATask 0 (MergedSecond KeepAlive);
   ASend has_lock false (RemovePeer wire_peer); ATask 0 MergedFirst; ATask 0 ManagerTakes; APoll has_lock false; APoll has_lock false; APoll has_lock false; APoll (false, false) false;
   APoll has_lock false; ASend has_lock false (AddPeer wire_peer ()); ATask 1 ManagerTakes].

Lemma whole_session_ok : Forall act_ok whole_session.
Proof. unfold whole_session. rewrite !Forall_cons. split_and!; try exact I. apply Forall_nil_2. Qed.

Definition session_run := pm_play whole_session [] new_manager.
Lemma session_run_runs : pm_runs session_run.1.2 session_run.2.
Proof. apply pm_play_runs; [apply whole_session_ok|vm_compute; reflexivity|apply new_manager_runs]. Qed.

Lemma manager_reports_sessions_witness :
  session_run.1.2 = [PeerAdded wire_peer; ReceivedMessage wire_peer UnChoke; SentMessage wire_peer 7; PeerRemoved wire_peer] /\
  t_handed <$> tasks_of (peer_key wire_peer) (pm_tasks session_run.2) = [[KeepAlive; Choke]; []] /\
  log_of (peer_key wire_peer) session_run.1.2 `prefix_of` concat (t_said <$> tasks_of (peer_key wire_peer) (pm_tasks session_run.2)).
Proof.
  split; [vm_compute; reflexivity|]. split; [vm_compute; reflexivity|].
  refine (proj1 (manager_reports_sessions session_run.1.2 session_run.2 (peer_key wire_peer) session_run_runs)).
Defined.

Lemma manager_bounds_peers_witness : size (pm_peers session_run.2) = 1 /\ length (filter (fun t => t_state t <> Broken) (pm_tasks session_run.2)) <= size (pm_peers session_run.2).
Proof. split; [vm_compute; reflexivity|]. refine (proj1 (manager_bounds_peers session_run.1.2 session_run.2 session_run_runs)). Defined.

(** The peer disconnects, and before the stream is polled a message is sent to it. *)
Definition lost_peer : list act :=
  [ASend has_lock false (AddPeer wire_peer ()); ATask 0 ManagerTakes; ATask 0 (MergedError PeerDisconnected); ATask 0 ManagerTakes].
Definition late_send : act := ASend has_lock false (SendMessage wire_peer 7 Choke).
Definition lost_run := pm_play lost_peer [] new_manager.

Lemma lost_run_runs : pm_runs lost_run.1.2 lost_run.2.
Proof.
  apply pm_play_runs; [|vm_compute; reflexivity|apply new_manager_runs]. unfold lost_peer. rewrite !Forall_cons. split_and!; try exact I. apply Forall_nil_2.
Qed.

Lemma manager_fails_on_dead_peers_witness : ~ returns (pm_perform late_send (lost_run.2, (0, []))).1.
Proof.
  refine (proj2 (manager_fails_on_dead_peers lost_run.1.2 lost_run.2 late_send (0, []) lost_run_runs I) _).
  split; [reflexivity|]. split; [reflexivity|]. eexists 0, _. split; [vm_compute; reflexivity|]. split; [vm_compute; reflexivity|reflexivity].
Defined.

(** A peer whose connection refuses a message is never reported: nothing more comes
    from the stream, the peer stays in the map, and the next message to it panics. *)
Example refused_write_is_silent :
  let run := pm_play [ASend has_lock false (AddPeer wire_peer ()); ATask 0 ManagerTakes; late_send; ATask 0 MergedFirst; ATask 0 PeerFails;
                      APoll has_lock false; APoll has_lock false] [] new_manager in
  run.1 = (true, [PeerAdded wire_peer]) /\ size (pm_peers run.2) = 1 /\ ch_read (pm_out run.2) = length (ch_log (pm_out run.2)) /\
  (pm_play [late_send] [] run.2).1.1 = false.
Proof. vm_compute. done. Qed.

(** A sink that meets a full manager puts its task into the queue and then notifies
    the first task of the queue, which is its own. *)
Example full_manager_notifies_itself :
  let run := pm_play [ASend has_lock false (AddPeer wire_peer ())] [] new_manager in
  match pm_start_send has_lock false (AddPeer (PeerInfo_new (peer_addr wire_peer) (mk_ShaHash (replicate 20 x63)) (peer_hash wire_peer) Extensions_new) ()) (run.2, (0, [])) with
  | (Ok (SinkNotReady _), (m, (_, notified))) => notified = [0] /\ pm_queue m = []
  | _ => False
  end.
Proof. vm_compute. done. Qed.
End play.
