(* ===== verification/Magnet.v ===== *)
(** * [bip_magnet]: magnet links

    [Topic::parse] and [MagnetLink::parse] of [bip_magnet/src/lib.rs].  A [&str] is its
    UTF-8 bytes; slicing one inside a character panics.  The [url] and [base32]
    crates are a class of operations: what a text is as a URL, its scheme and the
    pairs of its query, and the bytes of a base-32 text. *)

From stdpp Require Import prelude list gmap strings.
From Stdlib Require Import ZArith Lia Strings.Byte.
From S2P Require Import Prelude Bytes DecStr Bencode Sha.

(** ** Text *)

(** [str::is_char_boundary] *)
Definition is_char_boundary (s : bytes) (i : nat) : bool :=
  match s !! i with Some b => negb (is_cont b) | None => i =? length s end.

(** [&s[i..j]] *)
Definition str_slice {E} (s : bytes) (i j : nat) : outcome E bytes :=
  if (i <=? j) && is_char_boundary s i && is_char_boundary s j then Ok (slice s i j) else Panic.

(** [str::starts_with] *)
Definition starts_with (s prefix : bytes) : bool := bool_decide (take (length prefix) s = prefix).

(** [char::to_digit] *)
Definition to_digit (radix : Z) (b : byte) : option Z :=
  let v := byte_val b in
  let d := (if decide (48 <= v <= 57) then v - 48 else if decide (97 <= v <= 122) then v - 97 + 10 else if decide (65 <= v <= 90) then v - 65 + 10 else radix)%Z in
  if (d <? radix)%Z then Some d else None.

(** The loop of [from_str_radix] on an unsigned type of [w] bits. *)
Fixpoint radix_digits (w radix acc : Z) (l : bytes) : option Z :=
  match l with
  | [] => Some acc
  | b :: l =>
      match to_digit radix b with
      | None => None
      | Some d =>
          if decide (in_unsigned w (acc * radix)) then if decide (in_unsigned w (acc * radix + d)) then radix_digits w radix (acc * radix + d) l else None else None
      end
  end.

Definition unsigned_from_str_radix (w radix : Z) (s : bytes) : option Z :=
  match s with
  | [] => None
  | b :: l => if decide (b = plus_byte) then match l with [] => None | _ => radix_digits w radix 0 l end else radix_digits w radix 0 s
  end.

(** ** The crates *)

Class MagnetOps : Type := {
  Url : Type;
  url_parse : bytes -> option Url;
  url_scheme : Url -> bytes;
  url_query_pairs : Url -> option (list (bytes * bytes));
  base32_decode : bytes -> option bytes;
}.

(** ** Topics *)

Inductive Topic : Type := BitTorrentInfoHash (hash : ShaHash).

Definition BTIH : bytes := bstr "urn:btih:".

(** [for i in 0..20 { .. }] from [i] on, with [n] rounds left; [None] is the early return. *)
Fixpoint hex_loop {E} (s : bytes) (n i : nat) (hash : bytes) : outcome E (option bytes) :=
  match n with
  | 0 => Ok (Some hash)
  | S n =>
      let j := 9 + 2 * i in
      piece ← str_slice s j (j + 2);
      match unsigned_from_str_radix 8 16 piece with
      | Some byte => hex_loop s n (S i) (hash ++ [as_u8 byte])
      | None => Ok None
      end
  end.

Definition topic_of_hash (hash : bytes) : option Topic :=
  match from_hash hash with Ok sha_hash => Some (BitTorrentInfoHash sha_hash) | _ => None end.

Section magnet.
Context {MO : MagnetOps}.

Definition Topic_parse {E} (s : bytes) : outcome E (option Topic) :=
  if starts_with s BTIH && (length s =? 9 + 40) then
    hash ← hex_loop s 20 0 [];
    Ok (hash ≫= topic_of_hash)
  else if starts_with s BTIH && (length s =? 9 + 32) then
    piece ← str_slice s 9 (length s);
    Ok (base32_decode piece ≫= topic_of_hash)
  else Ok None.

(** ** Links *)

Record MagnetLink : Type := mk_MagnetLink {
  display_name : option bytes;
  exact_length : option Z;
  exact_topic : option Topic;
  acceptable_source : list bytes;
  exact_source : list bytes;
  keyword_topic : list bytes;
  manifest_topic : option bytes;
  address_tracker : list bytes;
}.

Definition MagnetLink_default : MagnetLink := mk_MagnetLink None None None [] [] [] None [].

(** The [match] in the loop over the pairs. *)
Definition add_pair {E} (result : MagnetLink) (k v : bytes) : outcome E MagnetLink :=
  let '(mk_MagnetLink dn xl xt as_ xs kt mt tr) := result in
  if decide (k = bstr "dn") then Ok (mk_MagnetLink (Some v) xl xt as_ xs kt mt tr)
  else if decide (k = bstr "xl") then
    Ok (match unsigned_from_str_radix 64 10 v with Some exact_length => mk_MagnetLink dn (Some exact_length) xt as_ xs kt mt tr | None => result end)
  else if decide (k = bstr "xt") then
    opt_topic ← Topic_parse v;
    Ok (match opt_topic with Some topic => mk_MagnetLink dn xl (Some topic) as_ xs kt mt tr | None => result end)
  else if decide (k = bstr "as") then Ok (mk_MagnetLink dn xl xt (as_ ++ [v]) xs kt mt tr)
  else if decide (k = bstr "xs") then Ok (mk_MagnetLink dn xl xt as_ (xs ++ [v]) kt mt tr)
  else if decide (k = bstr "kt") then Ok (mk_MagnetLink dn xl xt as_ xs (kt ++ [v]) mt tr)
  else if decide (k = bstr "mt") then Ok (mk_MagnetLink dn xl xt as_ xs kt (Some v) tr)
  else if decide (k = bstr "tr") then Ok (mk_MagnetLink dn xl xt as_ xs kt mt (tr ++ [v]))
  else Ok result.

Fixpoint add_pairs {E} (result : MagnetLink) (pairs : list (bytes * bytes)) : outcome E MagnetLink :=
  match pairs with
  | [] => Ok result
  | (k, v) :: pairs => result ← add_pair result k v; add_pairs result pairs
  end.

Definition MagnetLink_parse {E} (s : bytes) : outcome E (option MagnetLink) :=
  match url_parse s with
  | None => Ok None
  | Some url =>
      if negb (bool_decide (url_scheme url = bstr "magnet")) then Ok None
      else
        match url_query_pairs url with
        | None => Ok None
        | Some pairs => result ← add_pairs MagnetLink_default pairs; Ok (Some result)
        end
  end.

Definition get_info_hash (self : MagnetLink) : option ShaHash :=
  match exact_topic self with Some (BitTorrentInfoHash info_hash) => Some info_hash | None => None end.

(** ** What is read *)

(** [hex_of bs l]: [l] writes [bs] with two hexadecimal digits each, of either case. *)
Inductive hex_of : bytes -> bytes -> Prop :=
| hex_nil : hex_of [] []
| hex_byte b bs hi lo dh dl l : to_digit 16 hi = Some dh -> to_digit 16 lo = Some dl -> byte_val b = (dh * 16 + dl)%Z -> hex_of bs l -> hex_of (b :: bs) (hi :: lo :: l).

Lemma to_digit_range r b d : to_digit r b = Some d -> (d < r)%Z /\ (0 <= d)%Z.
Proof.
  unfold to_digit. pose proof (byte_val_range b). repeat case_decide; match goal with |- context [(?x <? ?y)%Z] => destruct (Z.ltb_spec x y) end; intros [= <-]; lia.
Qed.

Lemma to_digit_ascii b d : to_digit 16 b = Some d -> (48 <= byte_val b <= 122)%Z.
Proof. unfold to_digit. repeat case_decide; try lia. by rewrite Z.ltb_irrefl. Qed.

Lemma digit_not_cont b d : to_digit 16 b = Some d -> is_cont b = false.
Proof. intros Hd%to_digit_ascii. unfold is_cont, in_range. apply bool_decide_eq_false. lia. Qed.

Lemma hex_pair hi lo dh dl : to_digit 16 hi = Some dh -> to_digit 16 lo = Some dl -> unsigned_from_str_radix 8 16 [hi; lo] = Some (dh * 16 + dl)%Z.
Proof.
  intros Hh Hl. pose proof (to_digit_range _ _ _ Hh). pose proof (to_digit_range _ _ _ Hl). pose proof (to_digit_ascii _ _ Hh) as Ha. unfold unsigned_from_str_radix.
  rewrite decide_False by (intros ->; by destruct Ha as [[] _]). unfold in_unsigned. cbn [radix_digits]. rewrite Hh, Hl. rewrite !decide_True by (unfold in_unsigned; lia). done.
Qed.

Lemma hex_length bs l : hex_of bs l -> length l = 2 * length bs.
Proof. induction 1; cbn; lia. Qed.

Lemma hex_head_boundary s i bs : hex_of bs (drop i s) -> i <= length s -> is_char_boundary s i = true.
Proof.
  intros Hh Hi. unfold is_char_boundary. destruct (s !! i) as [b|] eqn:Hb.
  - rewrite (drop_S _ _ _ Hb) in Hh. inversion Hh as [|? ? ? ? ? ? ? Hd]; subst. by rewrite (digit_not_cont b dh).
  - apply lookup_ge_None in Hb. apply Nat.eqb_eq. lia.
Qed.

Lemma hex_loop_reads {E} s bs : forall i acc, 9 + 2 * i <= length s -> hex_of bs (drop (9 + 2 * i) s) -> hex_loop (E := E) s (length bs) i acc = Ok (Some (acc ++ bs)).
Proof.
  induction bs as [|b bs IH]; intros i acc Hi Hh; cbn [hex_loop length]; [by rewrite app_nil_r|].
  remember (9 + 2 * i) as j eqn:Hj. pose proof (hex_head_boundary s _ _ Hh Hi) as Hb1. inversion Hh as [|b' bs' hi lo dh dl l H1 H2 H3 H4 Hb' Hl]; subst b' bs'.
  assert (drop (j + 2) s = l) as Hdrop by (by rewrite <- drop_drop, <- Hl).
  assert (j + 2 <= length s) as Hi'.
  { apply (f_equal length) in Hl. rewrite length_drop in Hl. cbn [length] in Hl. lia. }
  assert (hex_of bs (drop (j + 2) s)) as Hh' by (by rewrite Hdrop).
  pose proof (hex_head_boundary s _ _ Hh' Hi') as Hb2. unfold str_slice.
  rewrite Hb1, Hb2, (proj2 (Nat.leb_le j (j + 2))) by lia. cbn [andb mbind outcome_bind].
  assert (slice s j (j + 2) = [hi; lo]) as ->.
  { unfold slice. replace (j + 2 - j) with 2 by lia. by rewrite <- Hl. }
  rewrite (hex_pair hi lo dh dl H1 H2). assert (9 + 2 * S i = j + 2) as Hn by lia. rewrite IH by (by rewrite Hn). rewrite <- H3, as_u8_byte_val, <- app_assoc. done.
Qed.

(** The hexadecimal form of an info hash is read back, in either case of the digits. *)
Lemma Topic_parse_hex {E} h l : sha_wf h -> hex_of (sha_hash h) l -> Topic_parse (E := E) (BTIH ++ l) = Ok (Some (BitTorrentInfoHash h)).
Proof.
  intros Hwf Hh. pose proof (hex_length _ _ Hh) as Hlen. unfold sha_wf in Hwf. assert (length BTIH = 9) as H9 by done. assert (length (BTIH ++ l) = 49) as Hs.
  { rewrite length_app, H9, Hlen, Hwf. done. }
  unfold Topic_parse. rewrite Hs. assert (starts_with (BTIH ++ l) BTIH = true) as ->.
  { unfold starts_with. apply bool_decide_eq_true. by rewrite take_app_length. }
  cbn [andb Nat.eqb Nat.add]. replace 20 with (length (sha_hash h)) by (by rewrite Hwf). rewrite (hex_loop_reads _ (sha_hash h) 0 []).
  - cbn [mbind outcome_bind option_bind app]. unfold topic_of_hash. rewrite from_hash_ok by done. by destruct h.
  - rewrite Hs. lia.
  - change (9 + 2 * 0) with (length BTIH). by rewrite drop_app_length.
Qed.

(** The values of a key, and what a field that is overwritten ends up as. *)
Definition values (k : string) (pairs : list (bytes * bytes)) : list bytes := omap (fun '(k', v) => if decide (k' = bstr k) then Some v else None) pairs.
Definition later {A} (o : option A) (l : list A) : option A := match last l with Some a => Some a | None => o end.
Definition topic (v : bytes) : option Topic := match Topic_parse (E := ()) v with Ok o => o | _ => None end.

#[local] Arguments values : simpl never.

Definition gather (r : MagnetLink) (pairs : list (bytes * bytes)) : MagnetLink :=
  mk_MagnetLink (later (display_name r) (values "dn" pairs)) (later (exact_length r) (omap (unsigned_from_str_radix 64 10) (values "xl" pairs)))
    (later (exact_topic r) (omap topic (values "xt" pairs))) (acceptable_source r ++ values "as" pairs) (exact_source r ++ values "xs" pairs)
    (keyword_topic r ++ values "kt" pairs) (later (manifest_topic r) (values "mt" pairs)) (address_tracker r ++ values "tr" pairs).

Lemma later_app {A} (o : option A) l k : later o (l ++ k) = later (later o l) k.
Proof. unfold later. rewrite last_app. by destruct (last k). Qed.

Lemma values_cons k p pairs : values k (p :: pairs) = values k [p] ++ values k pairs.
Proof. unfold values. destruct p as [k' v]. cbn. by case_decide. Qed.

Lemma gather_cons r p pairs : gather r (p :: pairs) = gather (gather r [p]) pairs.
Proof. unfold gather. cbn. by rewrite !(values_cons _ p pairs), !omap_app, !later_app, !app_assoc. Qed.

Lemma add_pair_gather {E} r k v : (k = bstr "xt" -> exists o, forall E, Topic_parse (E := E) v = Ok o) -> add_pair (E := E) r k v = Ok (gather r [(k, v)]).
Proof.
  intros Hxt. unfold add_pair, gather, values. destruct r as [dn xl xt as_ xs kt mt tr]. cbn [omap list_omap display_name exact_length exact_topic acceptable_source exact_source keyword_topic manifest_topic address_tracker].
  destruct (decide (k = bstr "dn")) as [->|]; [cbn; by rewrite !app_nil_r|]. destruct (decide (k = bstr "xl")) as [->|].
  { cbn. rewrite !app_nil_r. by destruct (unsigned_from_str_radix 64 10 v). }
  destruct (decide (k = bstr "xt")) as [->|].
  { destruct (Hxt eq_refl) as [o Ho]. cbn. unfold topic. rewrite !Ho, !app_nil_r. cbn. by destruct o. }
  destruct (decide (k = bstr "as")) as [->|]; [cbn; by rewrite !app_nil_r|]. destruct (decide (k = bstr "xs")) as [->|]; [cbn; by rewrite !app_nil_r|].
  destruct (decide (k = bstr "kt")) as [->|]; [cbn; by rewrite !app_nil_r|]. destruct (decide (k = bstr "mt")) as [->|]; [cbn; by rewrite !app_nil_r|].
  destruct (decide (k = bstr "tr")) as [->|]; cbn; by rewrite !app_nil_r.
Qed.

(** A text of one-byte characters can be sliced anywhere. *)
Definition ascii_text (s : bytes) : Prop := Forall (fun b => (byte_val b < 128)%Z) s.

Lemma ascii_boundary s i : ascii_text s -> i <= length s -> is_char_boundary s i = true.
Proof.
  intros Hs Hi. unfold is_char_boundary. destruct (s !! i) as [b|] eqn:Hb.
  - pose proof (Forall_lookup_1 _ _ _ _ Hs Hb) as Hlt. cbn in Hlt. apply negb_true_iff. unfold is_cont, in_range. apply bool_decide_eq_false. lia.
  - apply lookup_ge_None in Hb. apply Nat.eqb_eq. lia.
Qed.

Lemma ascii_slice {E} s i j : ascii_text s -> i <= j <= length s -> str_slice (E := E) s i j = Ok (slice s i j).
Proof. intros Hs Hij. unfold str_slice. rewrite !ascii_boundary by (done || lia). by rewrite (proj2 (Nat.leb_le i j)) by lia. Qed.

Lemma hex_loop_ascii s n : forall i acc, ascii_text s -> 9 + 2 * i + 2 * n <= length s -> exists o, forall E, hex_loop (E := E) s n i acc = Ok o.
Proof.
  induction n as [|n IH]; intros i acc Hs Hn; [by eexists|]. destruct (unsigned_from_str_radix 8 16 (slice s (9 + 2 * i) (9 + 2 * i + 2))) as [b|] eqn:Hb.
  - destruct (IH (S i) (acc ++ [as_u8 b]) Hs) as [o Ho]; [lia|]. exists o. intros E. cbn [hex_loop]. rewrite ascii_slice by (done || lia). cbn [mbind outcome_bind]. by rewrite Hb.
  - exists None. intros E. cbn [hex_loop]. rewrite ascii_slice by (done || lia). cbn [mbind outcome_bind]. by rewrite Hb.
Qed.

(** A topic that begins as a BitTorrent hash and is ASCII is read without a panic, whatever follows. *)
Lemma Topic_parse_ascii v : (starts_with v BTIH = true -> ascii_text v) -> exists o, forall E, Topic_parse (E := E) v = Ok o.
Proof.
  intros Hv. unfold Topic_parse. destruct (starts_with v BTIH); cbn [andb]; [|by eexists]. specialize (Hv eq_refl).
  destruct (Nat.eqb_spec (length v) (9 + 40)) as [Hl|_].
  - destruct (hex_loop_ascii v 20 0 [] Hv) as [o Ho]; [lia|]. eexists. intros E. by rewrite Ho.
  - destruct (Nat.eqb_spec (length v) (9 + 32)) as [Hl|_]; [|by eexists]. eexists. intros E. by rewrite ascii_slice by (done || lia).
Qed.

(** The topics that begin as a BitTorrent hash are ASCII. *)
Definition ascii_topics (pairs : list (bytes * bytes)) : Prop := forall v, v ∈ values "xt" pairs -> starts_with v BTIH = true -> ascii_text v.

Lemma add_pairs_gather {E} pairs : forall r, ascii_topics pairs -> add_pairs (E := E) r pairs = Ok (gather r pairs).
Proof.
  induction pairs as [|[k v] pairs IH]; intros r Hok; cbn [add_pairs].
  - unfold gather, values. destruct r. cbn. by rewrite !app_nil_r.
  - rewrite add_pair_gather.
    + cbn [mbind outcome_bind]. rewrite IH; [by rewrite (gather_cons r (k, v) pairs)|]. intros u Hu. apply Hok. rewrite values_cons. apply elem_of_app. by right.
    + intros ->. apply Topic_parse_ascii, Hok. rewrite values_cons. apply elem_of_app. left. cbn. by apply list_elem_of_singleton.
Qed.

(** C35. A magnet link is read to what its query says: names and lengths the last one,
    sources, keywords and trackers all of them in order; and where the last topic is
    the hexadecimal form of a hash, in either case, that is its info hash.  The
    topics that begin with [urn:btih:] must be ASCII: [wide_character_panics] shows
    what happens otherwise. *)
Theorem magnet_link_read {E} s url pairs : url_parse s = Some url -> url_scheme url = bstr "magnet" -> url_query_pairs url = Some pairs -> ascii_topics pairs ->
  exists link, MagnetLink_parse (E := E) s = Ok (Some link) /\
  display_name link = last (values "dn" pairs) /\ address_tracker link = values "tr" pairs /\ exact_source link = values "xs" pairs /\
  acceptable_source link = values "as" pairs /\ keyword_topic link = values "kt" pairs /\ manifest_topic link = last (values "mt" pairs) /\
  exact_length link = last (omap (unsigned_from_str_radix 64 10) (values "xl" pairs)) /\
  forall h l, sha_wf h -> hex_of (sha_hash h) l -> last (values "xt" pairs) = Some (BTIH ++ l) -> get_info_hash link = Some h.
Proof.
  intros Hu Hs Hp Hok. exists (gather MagnetLink_default pairs). unfold MagnetLink_parse. rewrite Hu, Hs, Hp, (add_pairs_gather pairs MagnetLink_default Hok).
  assert (forall A (l : list A), later None l = last l) as Hlater by (intros A l; unfold later; by destruct (last l)). cbn [display_name address_tracker exact_source acceptable_source keyword_topic manifest_topic exact_length gather MagnetLink_default app].
  rewrite !Hlater. split_and!; try done. intros h l Hwf Hh Hlast. unfold get_info_hash. cbn [exact_topic gather MagnetLink_default]. rewrite Hlater.
  apply last_Some in Hlast as [vs ->]. rewrite omap_app, last_app. cbn. unfold topic at 1. by rewrite (Topic_parse_hex h l Hwf Hh).
Qed.
End magnet.

(** ** A link *)

(** A reading of one link, and the prefix of an empty base-32 text. *)
Definition sample_hex : bytes := bstr "d9be6909325d28912f400fcb324005dd5861E49F".
Definition sample_pairs : list (bytes * bytes) :=
  [(bstr "xt", BTIH ++ bstr "QHQX"); (bstr "xt", BTIH ++ sample_hex); (bstr "dn", bstr "a"); (bstr "xl", bstr "12"); (bstr "tr", bstr "udp://x"); (bstr "tr", bstr "udp://y")].
Definition Magnet_sample : MagnetOps := {|
  Url := bytes;
  url_parse s := Some s;
  url_scheme s := take 6 s;
  url_query_pairs s := if decide (drop 6 s = bstr ":?sample") then Some sample_pairs else None;
  base32_decode _ := None;
|}.
#[local] Existing Instance Magnet_sample.

Definition sample_hash : ShaHash :=
  mk_ShaHash [xd9; xbe; x69; x09; x32; x5d; x28; x91; x2f; x40; x0f; xcb; x32; x40; x05; xdd; x58; x61; xe4; x9f].

Lemma sample_hex_of : hex_of (sha_hash sample_hash) sample_hex.
Proof. unfold sample_hash, sample_hex. repeat (eapply hex_byte; [vm_compute; reflexivity|vm_compute; reflexivity|vm_compute; reflexivity|]). constructor. Qed.

Lemma sample_topics_ascii : ascii_topics sample_pairs.
Proof.
  assert (values "xt" sample_pairs = [BTIH ++ bstr "QHQX"; BTIH ++ sample_hex]) as Hv by (vm_compute; reflexivity). intros v. rewrite Hv.
  intros [->|[->|[]%not_elem_of_nil]%elem_of_cons]%elem_of_cons _; apply (bool_decide_eq_true (Forall _ _)); vm_compute; reflexivity.
Qed.

Lemma magnet_link_read_witness : exists link, MagnetLink_parse (E := ()) (bstr "magnet:?sample") = Ok (Some link) /\
  address_tracker link = [bstr "udp://x"; bstr "udp://y"] /\ get_info_hash link = Some sample_hash.
Proof.
  destruct (magnet_link_read (MO := Magnet_sample) (E := ()) (bstr "magnet:?sample") (bstr "magnet:?sample") sample_pairs eq_refl eq_refl eq_refl sample_topics_ascii) as (link & He & _ & Ht & _ & _ & _ & _ & _ & Hh).
  exists link. split; [exact He|]. split; [rewrite Ht; vm_compute; reflexivity|]. apply (Hh sample_hash sample_hex); [vm_compute; reflexivity|exact sample_hex_of|vm_compute; reflexivity].
Defined.

(** A digit may be a plus sign. *)
Example plus_is_a_digit : Topic_parse (E := ()) (BTIH ++ concat (replicate 20 (bstr "+1"))) = Ok (Some (BitTorrentInfoHash (mk_ShaHash (replicate 20 x01)))).
Proof. vm_compute. reflexivity. Qed.

(** A text of the right length with a character of two bytes across a digit pair panics. *)
Example wide_character_panics : Topic_parse (E := ()) (BTIH ++ bstr "0" ++ [xc3; xa9] ++ replicate 37 "0"%byte) = Panic.
Proof. vm_compute. reflexivity. Qed.
